(* ===== verification/_CoqProject ===== *)
-Q . S2P
Prelude.v
Programs.v
TaskModel.v
TaskCommands.v
ExecutionCommands.v
StoreSteps.v
StoreInvariant.v
StoreSafety.v
ExecutionFacts.v
TaskClient.v
ClientFacts.v
TaskHandle.v
RuntimeContracts.v
Projector.v
ProjectorFacts.v
Waitpoints.v
WaitpointFacts.v
Outbox.v
OutboxFacts.v
SharedStore.v
Paging.v
PagingFacts.v
Checkpoints.v
CheckpointFacts.v
DurableSteps.v
DurableFacts.v
DurableContext.v
DurableContextFacts.v
ResourceLeases.v
ResourceFacts.v
ProjectionFailures.v
ProjectionFailureFacts.v
BoundedPool.v
TaskBridge.v
BridgeFacts.v
BridgeProjectionFacts.v
BridgeRetryFacts.v
ProjectorLease.v
BridgeLifecycle.v
GuardedRecovery.v
RecoveryFacts.v
Schedulers.v
SchedulerFacts.v
ProgressCoalescer.v
Worker.v
WorkerFacts.v
Tenancy.v
TenancyFacts.v
Migrations.v
ProviderOperations.v
ProviderFacts.v
ChangeHub.v
ChangeHubFacts.v
TaskStore.v
TaskStoreFacts.v
TaskHttp.v
TaskHttpFacts.v
Sorting.v
ArtifactUploads.v
ArtifactUploadFacts.v
RealtimeHub.v
RealtimeFacts.v
EventStream.v
EventStreamFacts.v
Declaration.v
DeclarationFacts.v
Integration.v
IntegrationFacts.v
Adoption.v
RuntimeAdapters.v
RetryDispatch.v
CapabilityLinks.v
Plans.v
PlanFacts.v
DataPaths.v
TaskGroups.v
WaitpointTokens.v
ProcessorPacks.v
TaskList.v
Evidence.v
