(* ===== verification/Prelude.v ===== *)
(** * RhinoQ: the Task profile of the Node SDK

    This library models the Task profile of the TypeScript SDK under
    [src/sdks/node/src] and proves what makes it correct.

    ** The program

    A Task is a long-running unit of work an application shows to its users; its
    Executions are the attempts that external runtimes (BullMQ, SQS, ...) make on
    its items. All state lives in PostgreSQL: the schema
    ([postgres/task-schema.ts], [postgres/durable-step-schema.ts],
    [postgres/durable-step-cancel-schema.ts],
    [postgres/resource-lease-schema.ts]) is a list of migrations whose SQL
    functions are the only writers, each a transaction fenced by a version or a
    lease epoch; row-level security separates tenants; triggers keep aggregates
    and announce every new version. [PostgresTaskClient]
    ([postgres/task-client.ts]) validates arguments, runs the functions and maps
    rows and errors.

    On top of it stand the projector ([runtime/projector.ts]), which turns the
    events a runtime reports ([runtime/contracts.ts]) into commands; the BullMQ
    bridge ([bullmq/task-bridge.ts]), which reserves Executions before it adds
    jobs to a queue, projects the queue's events and owns its runtime scope
    through an advisory-lock lease ([postgres/projector-lease.ts]); the inbox of
    projections that failed ([tasks/projection-failures.ts] and its PostgreSQL
    versions); the stateful handle ([tasks/handle.ts]); the durable context of a
    handler ([tasks/durable.ts]); guarded recovery ([recovery/guarded.ts]); and the
    in-process helpers under [tasks/]: waitpoints, checkpoints, resource
    heartbeats, the notification worker, two sweep schedulers and the progress
    coalescer. The Go engine is reached through the Gateway: [worker/worker.ts] runs
    its jobs, [gateway/client.ts] calls external providers under its ledger of
    operations. Users see Tasks through [tasks/http.ts], the store of
    [tasks/store.ts] in the browser, and the change hub ([postgres/change-hub.ts]),
    which turns the store's notifications into events of the process; the streams are
    server-sent events ([tasks/sse.ts]) or one WebSocket for many Tasks
    ([tasks/websocket.ts]).

    An application that keeps its own queue declares a Task once
    ([tasks/declaration.ts]); the runtime integration ([runtime/integration.ts])
    reserves, dispatches and binds its work through an adapter of the queue
    ([bullmq/runtime-adapter.ts], [sqs/runtime-adapter.ts]), appends what happened to
    the adoption store ([runtime/adoption.ts]), and the retry outbox reaches the queue
    through a signed request ([bullmq/retry-dispatch.ts]). Files go to an object store
    in parts ([tasks/artifact-upload.ts]). Before anything runs, declarations are compiled
    into a plan ([tasks/plan-inspector.ts], [runtime/capability-link.ts],
    [tasks/data-path.ts]); processors come in packs ([tasks/processor-pack.ts]).

    ** The files

    - [Prelude]: results, transactions (a failure rolls back), actions (an
      exception keeps what was committed), PostgreSQL integers, three-valued
      logic, text, aggregates over tables, the tactics [txn_inv] and [to_prop].
    - [TaskModel]: the tables [tasks] and [executions] as finite maps, their
      constraints, row-level security, the session, the notification trigger.
    - [TaskCommands], [ExecutionCommands]: one definition per SQL function of
      [task-schema.ts], in its last migrated version, with the statement-level
      triggers of migration 16 and the row-level trigger they replaced.
    - [StoreSteps]: commands, sessions and histories; the step relation every
      command refines; concrete stores used by the witnesses.
    - [StoreInvariant] (C1, C2), [StoreSafety] (C3, C4, C8, C9, C31, C40): the row
      and cross-row invariant, exact aggregates, version fencing, monotone
      progress, effects at most once, one notification per version, tenant
      isolation - for every history of commands by any sessions.
    - [ExecutionFacts] (C30): equivalence of the two triggers, the retry of an
      attempt, and behaviours that changed between migrations.
    - [TaskClient], [ClientFacts]: the client in a world where other
      processes commit arbitrary commands before each of its statements;
      conditional reads, [onceForItem], summaries. [TaskClient.TaskClient] is the
      interface (a class) the projector and the handle are written against.
    - [TaskHandle]: the handle, and that it completes a Task.
    - [RuntimeContracts], [Projector], [ProjectorFacts] (C32): the event
      validators and [RuntimeTaskProjector]; bounded convergence, success
      converges, late events are absorbed, execution-only mode, a lost retry.
    - [Waitpoints], [WaitpointFacts]: durable human input.
    - [Outbox], [OutboxFacts]: the notification outbox and its worker,
      through the interface [TaskNotificationQueue].
    - [SharedStore]: what the tables beside [tasks] and [executions] share: the
      setting PL/pgSQL resolves name conflicts with, and a world of events of
      other processes.
    - [Paging], [PagingFacts] (C39): the paged listings and their cursors; a
      walk over the attempts of a Task is complete under concurrent writes, a walk
      over the Tasks of an owner when its cursor keeps the whole timestamp.
    - [Checkpoints], [CheckpointFacts]: resumable cursors.
    - [DurableSteps], [DurableFacts] (C5-C7): the two tables of
      durable steps and their five commands. The abstract specification is a cell
      per step - absent, open, held under an epoch until a deadline, completed or
      cancelled - and every command of every history refines one operation on one
      cell.
    - [DurableContext], [DurableContextFacts] (C36): the client methods,
      [ctx.step] with its heartbeat and [ctx.effect], through the interface
      [DurableStepClient].
    - [ResourceLeases], [ResourceFacts] (C10): pools, admission, renewal and
      release; capacity is never exceeded and admission is exact.
    - [ProjectionFailures], [ProjectionFailureFacts]: the failure table,
      the in-memory inbox and [replayProjectionFailure], through the interface
      [ProjectionFailureInbox].
    - [BoundedPool] (C34): [mapBounded], operations as turns between two awaits and
      a schedule that interleaves them.
    - [TaskBridge]: [BullMQTaskBridge] against the interface [BridgeClient].
      [BridgeFacts] (C11, C12): dispatch; [BridgeProjectionFacts] and
      [BridgeRetryFacts]: projection of the queue's events.
    - [ProjectorLease] (C13): [PostgresProjectorLease] as a state machine with
      the server's lock. [BridgeLifecycle]: ownership of a bridge, from its
      constructor to [close], as such a machine.
    - [GuardedRecovery], [RecoveryFacts] (C35): preview, approval and execution
      of a repair under a ledger, as programs; however many runs overlap, a repair is
      executed at most once per idempotency key, and only previewed and approved.
    - [Schedulers], [SchedulerFacts]: the expiry scheduler and the reconciler as
      state machines over method calls, timers and promises.
    - [ProgressCoalescer]: the coalescer as such a machine.
    - [Worker], [WorkerFacts] (C24, C33): [RhinoQWorker] of
      [worker/worker.ts] as such a machine; every lease is given back once, the
      concurrency limit holds, a stopped worker ends.
    - [Tenancy], [TenancyFacts] (C25): tenant identifiers, connection settings,
      the inspection of row-level security, and [withTenant] as one transaction of
      commands of the store.
    - [Migrations] (C26): the migration runner; every migration is applied once and
      in order whatever releases start and fail.
    - [ProviderOperations], [ProviderFacts] (C23): the ledger of external
      effects in the Go engine and the Gateway client that calls a provider under
      it, as programs; who may run a provider while calls overlap,
      that calls one after another run it once per key ([effect_runs_once]), and when it
      is run twice.
    - [ChangeHub], [ChangeHubFacts] (C29): [TaskChangeHub], the LISTEN
      connection of a process and its reconnect timer, as a state machine.
    - [TaskStore], [TaskStoreFacts] (C28): the browser's store of one Task, with
      its polling and streaming loops and the methods that overlap them, as such a
      machine; [watchTask].
    - [TaskHttp], [TaskHttpFacts] (C27, C37): the owner-facing request handler with
      every route, the browser client's paths with the URI codec and the path of a
      parsed URL, and the capability endpoint; the owner's boundary, bounded streams,
      and client and handler agreeing on paths.
    - [Sorting]: pure code that throws, stable sorting, sets and maps in the order of
      their first keys, the fingerprint, separators in texts. [Programs]: asynchronous
      methods as trees of awaited calls, the turns of any number of them, and two logics
      for one among the others: [safe], and [affords], which counts what calls cost.
    - [ArtifactUploads], [ArtifactUploadFacts] (C18): multipart upload sessions,
      their table and the service, as such programs.
    - [RealtimeHub], [RealtimeFacts] (C19): the WebSocket hub as a state machine;
      [EventStream], [EventStreamFacts] (C20, C21): the text of an event, its
      parser, and the producer that watches a Task.
    - [Declaration], [DeclarationFacts] (C16, C17): [defineRhinoQTask], the commands and
      envelopes of a declared Task, its worker handler and cancellation monitor.
    - [Integration], [IntegrationFacts] (C14, C15): reserve, dispatch, bind, track,
      reconcile and cancel; [Adoption]: its two fact stores, which report the same.
    - [RuntimeAdapters], [RetryDispatch] (C22): queue messages as runtime events,
      and the receiver of the retry outbox.
    - [CapabilityLinks]: the linker of capabilities to components;
      [Plans], [PlanFacts] (C38): the plan compiler and deployment identities;
      [DataPaths]: the planner of byte paths.
    - [TaskGroups]: the view of a fan-out, bulk retries and exports; [TaskList]: the
      browser's inbox as a state machine; [WaitpointTokens]: signed capabilities;
      [ProcessorPacks]: the lifecycle of modules and the run of a pack.
    - [Evidence]: the documents derived from the records of a Task (the user's
      explanation, the flight recorder, the evidence passport, the incident) and the
      chain of calls a verification sets off.

    Names follow the source: SQL functions and TypeScript methods keep theirs;
    columns carry the table's initial ([t_version], [e_state], [ds_state], ...).

    ** Conventions and bounds

    A SQL function is a [txn]: it reads the store once and commits or fails as a
    whole, and every function reads the clock once. Row locks and SKIP LOCKED
    therefore appear as the order of commands in a history. A TypeScript method
    is an [act]. Integer columns raise on overflow as PostgreSQL does; the
    execution counters are not checked for overflow, which they reach after 2^31
    attempts. Text is a string of bytes ordered bytewise. Parameters of SQL
    functions are the non-NULL values the client can send unless they are
    optional, and fit the declared integer type where no check says otherwise.
    JSON values are an abstract type; JSON text, SHA-256 and [Date.parse] are
    parameters.

    A function that returns a table names columns its statements also name; what
    PL/pgSQL does then depends on [plpgsql.variable_conflict], which is an
    argument ([SharedStore.variable_conflict]): where a name of a statement is both
    ([SharedStore.conflicts], computed from the columns and the names of the source) the
    statement is rejected by default, as PostgreSQL documents it. Safety theorems hold
    for every setting; the theorems that a call is granted are for [UseColumn], the
    setting under which the integration tests of the repository would pass, and
    [DurableFacts.acquire_ambiguous_by_default] says what the default does.

    A bridge acts in a [bridge_world], which also records every call of
    [Queue.add] with the store at that moment. Concurrency inside one process is a
    schedule of turns ([BoundedPool]) or a state machine whose events come in any
    order ([ProjectorLease], [BridgeLifecycle], [Schedulers],
    [ProgressCoalescer], [Worker], [ChangeHub], [TaskStore]). A worker numbers the jobs it claims, since one
    job can be leased twice. A client of the Gateway acts in an [op_world]: every
    request is delivered, lost, or answered too late, and other processes write the
    ledger before it. [Tenancy.withTenant] runs its statements without commits of
    others in between, its COMMIT is answered, and its callback uses the scoped client
    rather than the connection it is also given. The HTTP handler calls one parameter, [serve], which stands for
    the Task client and the callbacks of the host and answers each call in any way; the
    calls are recorded. The programs of [Programs] run under any order of turns, and
    whatever they await - the store, an adapter, a storage provider, the file system -
    answers or throws as it likes at each turn, unless it is modelled beside them
    (the upload sessions' table, the recovery ledger, the engine's ledger). An [onError] of
    the change hub returns.

    Recursions that take fuel: [Projector.openAttempts] and both
    [ensureExecution]s walk at most the attempts the event names and the repair
    depth of four (no path of the state machine is longer);
    [TaskBridge.retry_loop] has two rounds for every attempt up to the observed
    one and four more; the schedules of [BoundedPool.mapBounded] are long enough
    with one turn per reservation and four per enqueue
    ([BridgeFacts.reserve_within], [dispatch_within]); [Outbox.run] is a server
    loop that has no last iteration. Both [converge]s make at most the tries the
    source makes. The error [OutOfFuel] marks a cut-off run, so a theorem that a
    call returns excludes it.

    ** Not modelled

    DETAIL texts of errors, the back-off between convergence tries, the
    [onTaskMutation] hook, failures of COMMIT, rounding of 64-bit integers to
    JavaScript numbers, metrics, warnings, [drain]. Of the
    schema: verifications and the columns of uploaded artifacts. Of the SDK: the helpers
    of a declaration that only forward to the artifact service, the Runtime inspector (a
    read-only view), the events of the flight recorder, the runtime application
    (wiring of modelled parts), the producer and the other methods of the Gateway client
    (they validate and send one request), storage providers, notification senders and
    the media context (calls to third-party services and programs), retention of
    artifacts, observability, the
    React and browser views, the command line and the workbench, and the Go engine beyond
    its provider-operation ledger. *)

From stdpp Require Import base gmap strings list fin_maps sorting.
From Stdlib Require Import Ascii ZArith Lia Btauto.

#[global] Open Scope Z_scope.

(** ** Results: an error or a value *)

Inductive result (E A : Type) : Type :=
| Ok (a : A)
| Err (e : E).

Arguments Ok {E A} a.
Arguments Err {E A} e.

Definition is_ok {E A} (r : result E A) : bool :=
  match r with Ok _ => true | Err _ => false end.

(** ** Transactions

    [txn S E A] is one PostgreSQL statement: it reads the state [S] and either
    commits a new state with a value or fails; a failure carries no state, so
    everything the statement wrote before it failed is rolled back. *)

Definition txn (S E A : Type) : Type := S → result E (A * S).

Definition tret {S E A} (a : A) : txn S E A := λ s, Ok (a, s).

Definition traise {S E A} (e : E) : txn S E A := λ _, Err e.

Definition tbind {S E A B} (m : txn S E A) (k : A → txn S E B) : txn S E B :=
  λ s, match m s with
       | Ok (a, s') => k a s'
       | Err e => Err e
       end.

Definition tget {S E} : txn S E S := λ s, Ok (s, s).

Definition tput {S E} (s : S) : txn S E unit := λ _, Ok (tt, s).

Definition tlift {S E A} (r : result E A) : txn S E A :=
  λ s, match r with Ok a => Ok (a, s) | Err e => Err e end.

(** [EXCEPTION WHEN ... THEN ...]: a handler that may replace the error. *)
Definition tcatch {S E A} (m : txn S E A) (h : E → E) : txn S E A :=
  λ s, match m s with
       | Ok r => Ok r
       | Err e => Err (h e)
       end.

(** ** Actions

    [act S E A] is a piece of TypeScript: every committed statement it ran
    stays committed when it later throws, so an exception carries the state. *)

Definition act (S E A : Type) : Type := S → result E A * S.

Definition aret {S E A} (a : A) : act S E A := λ s, (Ok a, s).

Definition athrow {S E A} (e : E) : act S E A := λ s, (Err e, s).

Definition abind {S E A B} (m : act S E A) (k : A → act S E B) : act S E B :=
  λ s, match m s with
       | (Ok a, s') => k a s'
       | (Err e, s') => (Err e, s')
       end.

(** [try { m } catch (e) { h e }] *)
Definition atry {S E A} (m : act S E A) (h : E → act S E A) : act S E A :=
  λ s, match m s with
       | (Ok a, s') => (Ok a, s')
       | (Err e, s') => h e s'
       end.

(** [try { m } finally { f }]: an exception of [f] replaces the outcome of [m]. *)
Definition afinally {S E A} (m : act S E A) (f : act S E unit) : act S E A :=
  λ s, let (r, s1) := m s in
       match f s1 with
       | (Ok _, s2) => (r, s2)
       | (Err e, s2) => (Err e, s2)
       end.

(** Running one statement from TypeScript: commit on success, roll back on
    failure, and translate the error. *)
Definition astatement {S E E' A} (h : E → E') (m : txn S E A) : act S E' A :=
  λ s, match m s with
       | Ok (a, s') => (Ok a, s')
       | Err e => (Err (h e), s)
       end.

Declare Scope txn_scope.
Delimit Scope txn_scope with txn.
Declare Scope act_scope.
Delimit Scope act_scope with act.

Notation "'let*' x ':=' c 'in' k" := (tbind c (λ x, k))
  (at level 100, x pattern, c at next level, right associativity) : txn_scope.
Notation "c ;; k" := (tbind c (λ _, k))
  (at level 100, right associativity) : txn_scope.
Notation "'let+' x ':=' c 'in' k" := (abind c (λ x, k))
  (at level 100, x pattern, c at next level, right associativity) : act_scope.
Notation "c ;+ k" := (abind c (λ _, k))
  (at level 100, right associativity) : act_scope.

(** [IF b THEN PERFORM rhinoq_task.fail(code); END IF;] *)
Definition traise_if {S E} (b : bool) (e : E) : txn S E unit :=
  if b then traise e else tret tt.

Definition athrow_if {S E} (b : bool) (e : E) : act S E unit :=
  if b then athrow e else aret tt.

(** ** Inversion of transactions *)

Section txn_facts.
Context {S E : Type}.

Lemma tbind_ok {A B} (m : txn S E A) (k : A → txn S E B) s b s' :
  tbind m k s = Ok (b, s') ↔ ∃ a s1, m s = Ok (a, s1) ∧ k a s1 = Ok (b, s').
Proof.
  unfold tbind. split.
  - destruct (m s) as [[a s1]|e]; [eauto | discriminate].
  - intros (a & s1 & -> & H). exact H.
Qed.

Lemma traise_if_ok (b : bool) (e : E) (s : S) u s' :
  traise_if b e s = Ok (u, s') ↔ b = false ∧ s' = s.
Proof. destruct u, b; cbn; unfold traise, tret; naive_solver. Qed.

Lemma tlift_ok {A} (r : result E A) (s : S) a s' :
  tlift r s = Ok (a, s') ↔ r = Ok a ∧ s' = s.
Proof. destruct r; cbn; naive_solver. Qed.

Lemma tcatch_ok {A} (m : txn S E A) h s r :
  tcatch m h s = Ok r ↔ m s = Ok r.
Proof. unfold tcatch. destruct (m s); naive_solver. Qed.

Lemma tret_ok {A} (a b : A) (s s' : S) :
  tret (E:=E) a s = Ok (b, s') ↔ b = a ∧ s' = s.
Proof. unfold tret. naive_solver. Qed.

Lemma tget_ok (s a s' : S) : tget (E:=E) s = Ok (a, s') ↔ a = s ∧ s' = s.
Proof. unfold tget. naive_solver. Qed.

Lemma tput_ok (s0 s s' : S) u : tput (E:=E) s0 s = Ok (u, s') ↔ s' = s0.
Proof. unfold tput. destruct u. naive_solver. Qed.
End txn_facts.

(** [txn_inv H] splits a successful run of a command into its statements. *)
Ltac txn_inv_step H :=
  lazymatch type of H with
  | tbind _ _ _ = Ok _ =>
      let a := fresh "a" in let s1 := fresh "s" in
      let H1 := fresh "H1" in let H2 := fresh "H2" in
      apply tbind_ok in H as (a & s1 & H1 & H2);
      txn_inv_step H1; txn_inv_step H2
  | traise_if _ _ _ = Ok _ =>
      let Hb := fresh "Hguard" in
      apply traise_if_ok in H as [Hb ->]
  | tlift _ _ = Ok _ =>
      let Hr := fresh "Hlift" in
      apply tlift_ok in H as [Hr ->]
  | tcatch _ _ _ = Ok _ => apply tcatch_ok in H; txn_inv_step H
  | tret _ _ = Ok _ => apply tret_ok in H as [-> ->]
  | tget _ = Ok _ => apply tget_ok in H as [-> ->]
  | tput _ _ = Ok _ => apply tput_ok in H as ->
  | traise _ _ = Ok _ => discriminate H
  | _ => idtac
  end.
Tactic Notation "txn_inv" hyp(H) := txn_inv_step H.

(** ** Machine integers of PostgreSQL

    [integer] and [bigint] columns raise SQLSTATE 22003 when an addition leaves
    their range; they never wrap. *)

Definition INT4_MAX : Z := 2147483647.
Definition INT8_MAX : Z := 9223372036854775807.

(** [Number.MAX_SAFE_INTEGER] *)
Definition MAX_SAFE_INTEGER : Z := 9007199254740991.

Definition int_succ {E} (max : Z) (oops : E) (v : Z) : result E Z :=
  if v + 1 <=? max then Ok (v + 1) else Err oops.

Lemma int_succ_ok {E} max (e : E) v w :
  int_succ max e v = Ok w ↔ w = v + 1 ∧ v + 1 ≤ max.
Proof.
  unfold int_succ. destruct (Z.leb_spec (v + 1) max); split; intros; simplify_eq;
    try (split; [done|lia]); naive_solver lia.
Qed.

(** ** Three-valued logic

    [None] is SQL's NULL. An [IF] branch is taken only on [Some true]. *)

Definition tri : Type := option bool.

Definition tri_or (a b : tri) : tri :=
  match a, b with
  | Some true, _ | _, Some true => Some true
  | Some false, Some false => Some false
  | _, _ => None
  end.

Definition tri_eq {A} `{EqDecision A} (a b : option A) : tri :=
  match a, b with
  | Some x, Some y => Some (bool_decide (x = y))
  | _, _ => None
  end.

Definition tri_not (a : tri) : tri := negb <$> a.

Definition tri_ne {A} `{EqDecision A} (a b : option A) : tri := tri_not (tri_eq a b).

(** [a IS DISTINCT FROM b] never yields NULL. *)
Definition is_distinct {A} `{EqDecision A} (a b : option A) : bool :=
  negb (bool_decide (a = b)).

Definition tri_true (a : tri) : bool :=
  match a with Some true => true | _ => false end.

(** ** Text *)

Section trim.
Context (sp : ascii → bool).

Fixpoint ltrim (s : string) : string :=
  match s with
  | EmptyString => EmptyString
  | String c s' => if sp c then ltrim s' else s
  end.

Fixpoint rtrim (s : string) : string :=
  match s with
  | EmptyString => EmptyString
  | String c s' =>
      match rtrim s' with
      | EmptyString => if sp c then EmptyString else String c EmptyString
      | r => String c r
      end
  end.

Definition trim (s : string) : string := rtrim (ltrim s).
End trim.

Definition is_space (c : ascii) : bool := Ascii.eqb c " "%char.

(** The white space of ECMAScript's [String.prototype.trim] that fits a byte:
    TAB, LF, VT, FF, CR and SPACE. *)
Definition is_js_space (c : ascii) : bool :=
  let n := nat_of_ascii c in
  ((9 <=? n) && (n <=? 13) || (n =? 32))%nat.

Definition btrim : string → string := trim is_space.
Definition js_trim : string → string := trim is_js_space.

Definition blank (s : string) : bool := bool_decide (btrim s = "").
Definition js_blank (s : string) : bool := bool_decide (js_trim s = "").

(** [NULLIF(s, '')] *)
Definition nullif_empty (s : string) : option string :=
  if bool_decide (s = "") then None else Some s.

(** [left(s, n)] *)
Definition left_text (n : nat) (s : string) : string := String.substring 0 n s.

(** [s.includes(sub)] *)
Fixpoint includes (sub s : string) : bool :=
  String.prefix sub s ||
  match s with
  | EmptyString => false
  | String _ s' => includes sub s'
  end.

(** A JavaScript optional property written only when the value is truthy:
    the empty string is dropped. *)
Definition truthy (o : option string) : option string :=
  match o with
  | Some s => if bool_decide (s = "") then None else Some s
  | None => None
  end.

Section trim_facts.
Context (sp : ascii → bool).

Lemma ltrim_head s : match ltrim sp s with
                     | EmptyString => True
                     | String c _ => sp c = false
                     end.
Proof. induction s as [|c s IH]; cbn; [done|]. destruct (sp c) eqn:E; [done|exact E]. Qed.

Lemma rtrim_idemp s : rtrim sp (rtrim sp s) = rtrim sp s.
Proof.
  induction s as [|c s IH]; cbn; [done|].
  destruct (rtrim sp s) as [|c' r] eqn:E.
  - destruct (sp c) eqn:Hc; cbn; [done|]. by rewrite Hc.
  - cbn in IH |- *. by rewrite IH.
Qed.

Lemma ltrim_rtrim_fix s :
  match s with EmptyString => True | String c _ => sp c = false end →
  ltrim sp (rtrim sp s) = rtrim sp s.
Proof.
  destruct s as [|c s]; cbn; [done|]. intros Hc.
  destruct (rtrim sp s); cbn; rewrite ?Hc; cbn; by rewrite ?Hc.
Qed.

Lemma trim_idemp s : trim sp (trim sp s) = trim sp s.
Proof.
  unfold trim. rewrite (ltrim_rtrim_fix (ltrim sp s)); [|apply ltrim_head].
  apply rtrim_idemp.
Qed.
End trim_facts.

Lemma btrim_idemp s : btrim (btrim s) = btrim s.
Proof. apply trim_idemp. Qed.

(** A text that is blank to PostgreSQL is blank to JavaScript. *)
Lemma trim_mono (sp1 sp2 : ascii → bool) s :
  (∀ a, sp1 a = true → sp2 a = true) → trim sp1 s = "" → trim sp2 s = "".
Proof.
  intros Hsp. unfold trim. induction s as [|a s IH]; [done|]. cbn.
  destruct (sp1 a) eqn:E; [rewrite (Hsp a E); exact IH|].
  cbn. destruct (rtrim sp1 s); [by rewrite E|done].
Qed.

Lemma blank_js_blank s : blank s = true → js_blank s = true.
Proof.
  unfold blank, js_blank. rewrite !bool_decide_eq_true. apply trim_mono.
  intros a Ha. unfold is_space in Ha. apply Ascii.eqb_eq in Ha as ->. done.
Qed.

(** ** The order of text *)

Lemma string_compare_trans a b c : String.compare a b = Lt → String.compare b c = Lt → String.compare a c = Lt.
Proof.
  revert b c. induction a as [|x a IH]; intros [|y b] [|z c]; cbn; try done.
  unfold Ascii.compare. destruct (N.compare_spec (N_of_ascii x) (N_of_ascii y)) as [E1|L1|G1]; try done;
    destruct (N.compare_spec (N_of_ascii y) (N_of_ascii z)) as [E2|L2|G2]; try done; intros H1 H2;
    destruct (N.compare_spec (N_of_ascii x) (N_of_ascii z)) as [E3|L3|G3]; try done; try lia.
  by eapply IH.
Qed.

Lemma string_compare_refl a : String.compare a a = Eq.
Proof. induction a as [|x a IH]; cbn; [done|]. unfold Ascii.compare. by rewrite N.compare_refl. Qed.

Lemma string_compare_eq a b : String.compare a b = Eq ↔ a = b.
Proof. split; [apply String.compare_eq_iff|intros ->; apply string_compare_refl]. Qed.

Lemma string_leb_total a b : String.leb a b = true ∨ String.leb b a = true.
Proof. unfold String.leb. rewrite (String.compare_antisym b a). destruct (String.compare a b); cbn; auto. Qed.

Lemma string_leb_antisym a b : String.leb a b = true → String.leb b a = true → a = b.
Proof.
  unfold String.leb. rewrite (String.compare_antisym a b). destruct (String.compare b a) eqn:E; cbn; try done.
  intros _ _. symmetry. by apply string_compare_eq.
Qed.

Lemma string_leb_trans a b c : String.leb a b = true → String.leb b c = true → String.leb a c = true.
Proof.
  unfold String.leb. destruct (String.compare a b) eqn:E1; try done; destruct (String.compare b c) eqn:E2; try done; intros _ _.
  - apply string_compare_eq in E1 as ->. by rewrite E2.
  - apply string_compare_eq in E1 as ->. by rewrite E2.
  - apply string_compare_eq in E2 as <-. by rewrite E1.
  - by rewrite (string_compare_trans _ _ _ E1 E2).
Qed.

Lemma left_text_length n s : (String.length (left_text n s) ≤ n)%nat.
Proof.
  unfold left_text. revert s. induction n as [|n IH]; intros [|c s]; cbn; try lia.
  specialize (IH s). lia.
Qed.

Lemma append_String a s t : (String a s +:+ t = String a (s +:+ t))%string.
Proof. done. Qed.

Lemma append_nil_l t : ("" +:+ t = t)%string.
Proof. done. Qed.

Lemma append_assoc s t u : ((s +:+ t) +:+ u = s +:+ (t +:+ u))%string.
Proof. induction s as [|a s IH]; [done|]. by rewrite !append_String, IH. Qed.

(** ** Aggregates over a table

    A table is a finite map from primary keys to rows; an aggregate is a fold
    over its rows, as [count( * )], [sum], [max] and [EXISTS] are. *)

Definition map_sum {V} (f : V → Z) (m : gmap string V) : Z :=
  map_fold (λ _ v acc, f v + acc) 0 m.

Definition b2z (b : bool) : Z := if b then 1 else 0.

Definition map_count {V} (p : V → bool) (m : gmap string V) : Z :=
  map_sum (λ v, b2z (p v)) m.

Definition map_max {V} (f : V → Z) (m : gmap string V) : Z :=
  map_fold (λ _ v acc, Z.max (f v) acc) 0 m.

Definition map_exists {V} (p : V → bool) (m : gmap string V) : bool :=
  map_fold (λ _ v acc, p v || acc) false m.

(** The rows of a table that satisfy a predicate, in no particular order. *)
Definition map_rows {V} (p : V → bool) (m : gmap string V) : list V :=
  List.filter p (map_to_list m).*2.

Section aggregates.
Context {V : Type}.
Implicit Types (m : gmap string V) (f : V → Z) (p : V → bool).

Lemma map_sum_insert_None f m k v :
  m !! k = None → map_sum f (<[k:=v]> m) = f v + map_sum f m.
Proof.
  intros Hk. unfold map_sum.
  rewrite map_fold_insert_L; [done| |done]. intros; lia.
Qed.

Lemma map_sum_insert_Some f m k v w :
  m !! k = Some w → map_sum f (<[k:=v]> m) = map_sum f m - f w + f v.
Proof.
  intros Hk. rewrite <-(insert_delete_id m k w Hk) at 2.
  rewrite <-insert_delete_eq.
  rewrite !map_sum_insert_None by apply lookup_delete_eq. lia.
Qed.

Lemma map_sum_nonneg f m :
  (∀ v, 0 ≤ f v) → 0 ≤ map_sum f m.
Proof.
  intros Hf. induction m as [|k v m Hk IH] using map_ind; [done|].
  rewrite map_sum_insert_None by done. specialize (Hf v). lia.
Qed.

Lemma map_sum_le f g m :
  (∀ k v, m !! k = Some v → f v ≤ g v) → map_sum f m ≤ map_sum g m.
Proof.
  induction m as [|k v m Hk IH] using map_ind; intros Hfg; [done|].
  rewrite !map_sum_insert_None by done.
  assert (f v ≤ g v) by (apply (Hfg k); apply lookup_insert_eq).
  assert (map_sum f m ≤ map_sum g m); [|lia].
  apply IH. intros k' v' Hk'. apply (Hfg k').
  rewrite lookup_insert_ne; [done|]. congruence.
Qed.

Lemma map_sum_ext f g m :
  (∀ k v, m !! k = Some v → f v = g v) → map_sum f m = map_sum g m.
Proof.
  intros H. apply Z.le_antisymm; apply map_sum_le; intros k v Hk;
    rewrite (H k v Hk); lia.
Qed.

Lemma map_sum_zero m : map_sum (λ _, 0) m = 0.
Proof.
  induction m as [|k v m Hk IH] using map_ind; [done|].
  rewrite map_sum_insert_None by done. lia.
Qed.

Lemma map_count_zero_iff p m :
  map_count p m = 0 ↔ ∀ k v, m !! k = Some v → p v = false.
Proof.
  unfold map_count. induction m as [|k v m Hk IH] using map_ind.
  { split; [intros _ k v; by rewrite lookup_empty|done]. }
  rewrite map_sum_insert_None by done.
  pose proof (map_sum_nonneg (λ v, b2z (p v)) m) as Hnn. split.
  - intros H k' v' Hk'. unfold b2z in *.
    rewrite lookup_insert in Hk'. destruct (decide (k = k')) as [<-|Hne].
    + simplify_eq. destruct (p v'); [|done].
      assert (0 ≤ map_sum (λ v, if p v then 1 else 0) m); [|lia].
      apply Hnn. intros w. destruct (p w); lia.
    + destruct IH as [IH _]. apply IH with k'; [|done].
      assert (0 ≤ map_sum (λ v, if p v then 1 else 0) m).
      { apply Hnn. intros w. destruct (p w); lia. }
      destruct (p v); lia.
  - intros H. rewrite (H k v) by apply lookup_insert_eq.
    cbn. destruct IH as [_ ->]; [done|]. intros k' v' Hk'. apply (H k').
    rewrite lookup_insert_ne; [done|]. congruence.
Qed.

Lemma map_count_filter_all p (P : string * V → Prop) `{!∀ x, Decision (P x)} m :
  (∀ k v, m !! k = Some v → p v = true → P (k, v)) → map_count p (filter P m) = map_count p m.
Proof.
  unfold map_count. induction m as [|k v m Hk IH] using map_ind; intros HP; [done|].
  assert (map_sum (λ v, b2z (p v)) (filter P m) = map_sum (λ v, b2z (p v)) m) as IH'.
  { apply IH. intros k' v' Hk'. apply HP. rewrite lookup_insert_ne; [done|congruence]. }
  rewrite (map_sum_insert_None _ m) by done. destruct (decide (P (k, v))) as [HPk|HPk].
  - rewrite map_filter_insert_True by done. rewrite map_sum_insert_None; [lia|].
    apply map_lookup_filter_None. by left.
  - rewrite map_filter_insert_False by done. rewrite delete_id by done.
    rewrite IH'. destruct (p v) eqn:E; [|done]. destruct HPk. apply (HP k v); [apply lookup_insert_eq|done].
Qed.

Lemma map_max_ub f m k v : m !! k = Some v → f v ≤ map_max f m.
Proof.
  unfold map_max. induction m as [|k' v' m Hk' IH] using map_ind.
  { by rewrite lookup_empty. }
  rewrite map_fold_insert_L by (done || (intros; lia)).
  rewrite lookup_insert. case_decide; intros; simplify_eq; [lia|].
  specialize (IH ltac:(done)). lia.
Qed.

Lemma map_max_nonneg f m : 0 ≤ map_max f m.
Proof.
  unfold map_max. induction m as [|k' v' m Hk' IH] using map_ind; [done|].
  rewrite map_fold_insert_L by (done || (intros; lia)). lia.
Qed.

Lemma map_max_lub f m b :
  0 ≤ b → (∀ k v, m !! k = Some v → f v ≤ b) → map_max f m ≤ b.
Proof.
  unfold map_max. intros Hb. induction m as [|k' v' m Hk' IH] using map_ind; [done|].
  intros H. rewrite map_fold_insert_L by (done || (intros; lia)).
  apply Z.max_lub; [apply (H k'); apply lookup_insert_eq|].
  apply IH. intros k v Hk. apply (H k).
  rewrite lookup_insert_ne; [done|]. congruence.
Qed.

Lemma map_max_attained f m :
  map_max f m = 0 ∨ ∃ k v, m !! k = Some v ∧ f v = map_max f m.
Proof.
  unfold map_max. induction m as [|k' v' m Hk' IH] using map_ind; [by left|].
  rewrite map_fold_insert_L by (done || (intros; lia)).
  destruct (Z.max_spec (f v') (map_fold (λ _ v acc, Z.max (f v) acc) 0 m)) as [[_ ->]|[_ ->]].
  - destruct IH as [IH|(k & v & Hk & Hf)]; [by left|]. right. exists k, v.
    rewrite lookup_insert_ne; [done|congruence].
  - right. exists k', v'. by rewrite lookup_insert_eq.
Qed.

Lemma map_exists_spec p m :
  map_exists p m = true ↔ ∃ k v, m !! k = Some v ∧ p v = true.
Proof.
  unfold map_exists. induction m as [|k' v' m Hk' IH] using map_ind.
  { split; [done|]. intros (k & v & H & _). by rewrite lookup_empty in H. }
  rewrite map_fold_insert_L by (done || (intros; btauto)).
  rewrite orb_true_iff, IH. split.
  - intros [H|(k & v & H & Hp)]; [exists k', v'; by rewrite lookup_insert_eq|].
    exists k, v. rewrite lookup_insert_ne; [done|congruence].
  - intros (k & v & H & Hp). rewrite lookup_insert in H.
    case_decide; simplify_eq; eauto.
Qed.

Lemma map_exists_false p m :
  map_exists p m = false ↔ ∀ k v, m !! k = Some v → p v = false.
Proof.
  split.
  - intros H k v Hk. destruct (p v) eqn:E; [|done].
    assert (map_exists p m = true) by (apply map_exists_spec; eauto). congruence.
  - intros H. destruct (map_exists p m) eqn:E; [|done].
    apply map_exists_spec in E as (k & v & Hk & Hp). rewrite (H k v Hk) in Hp. done.
Qed.

Lemma map_rows_spec p m v :
  v ∈ map_rows p m ↔ p v = true ∧ ∃ k, m !! k = Some v.
Proof.
  unfold map_rows. rewrite list_elem_of_In, filter_In, <-list_elem_of_In.
  rewrite list_elem_of_fmap. split.
  - intros [([k w] & -> & Hkw) Hp]. apply elem_of_map_to_list in Hkw. eauto.
  - intros [Hp [k Hk]]. split; [|done]. exists (k, v). split; [done|].
    by apply elem_of_map_to_list.
Qed.
End aggregates.

(** ** Automation *)

Create HintDb rhinoq.
Create Rewrite HintDb rhinoq.
#[export] Hint Resolve map_max_nonneg : rhinoq.
#[export] Hint Rewrite btrim_idemp : rhinoq.

(** Turn boolean tests of the code into propositions. *)
Ltac to_prop :=
  repeat match goal with
  | H : bool_decide _ = true |- _ => apply bool_decide_eq_true_1 in H
  | H : bool_decide _ = false |- _ => apply bool_decide_eq_false_1 in H
  | H : negb _ = true |- _ => apply negb_true_iff in H
  | H : negb _ = false |- _ => apply negb_false_iff in H
  | H : (_ && _)%bool = true |- _ => apply andb_true_iff in H as [? ?]
  | H : (_ || _)%bool = false |- _ => apply orb_false_iff in H as [? ?]
  | H : (_ =? _) = true |- _ => apply Z.eqb_eq in H
  | H : (_ =? _) = false |- _ => apply Z.eqb_neq in H
  | H : (_ <? _) = true |- _ => apply Z.ltb_lt in H
  | H : (_ <? _) = false |- _ => apply Z.ltb_ge in H
  | H : (_ <=? _) = true |- _ => apply Z.leb_le in H
  | H : (_ <=? _) = false |- _ => apply Z.leb_gt in H
  | H : int_succ _ _ _ = Ok _ |- _ => apply int_succ_ok in H as [? ?]
  end.
