(* ===== verification/Programs.v ===== *)
(** * Programs that await calls

    An asynchronous method is a tree: it returns, throws, or awaits a call and goes on
    with the answer. Any number of them run side by side; a turn performs the call one
    of them awaits. [safe] is a logic for one program among others: what it relies on
    must survive the turns of the rest ([ext]), and every turn of its own keeps the
    invariant; [threads_safe] makes a property of whole executions of it. *)

From stdpp Require Import base list.
From Stdlib Require Import Lia.
From S2P Require Import Prelude.

Section programs.
Context {C : Type} {ans : C → Type} {E : Type}.

Inductive prog (A : Type) : Type :=
| Ret (a : A)
| Throw (e : E)
| Do (c : C) (k : result E (ans c) → prog A).
#[global] Arguments Ret {A} a.
#[global] Arguments Throw {A} e.
#[global] Arguments Do {A} c k.

Fixpoint pbind {A B} (p : prog A) (k : A → prog B) : prog B :=
  match p with
  | Ret a => k a
  | Throw e => Throw e
  | Do c f => Do c (λ r, pbind (f r) k)
  end.

(** [try { p } catch (e) { h e }] *)
Fixpoint ptry {A} (p : prog A) (h : E → prog A) : prog A :=
  match p with
  | Ret a => Ret a
  | Throw e => h e
  | Do c f => Do c (λ r, ptry (f r) h)
  end.

Definition await (c : C) : prog (ans c) := Do c (λ r, match r with Ok a => Ret a | Err e => Throw e end).

(** A method whose outcome nobody looks at. *)
Definition started {A} (p : prog A) : prog unit := ptry (pbind p (λ _, Ret tt)) (λ _, Ret tt).

(** ** Executions *)

Section runs.
Context {W M : Type} (perform : ∀ c, W → result E (ans c) * W) (body : M → prog unit).

(** A program on its own. *)
Fixpoint runs {A} (p : prog A) (w : W) : result E A * W :=
  match p with
  | Ret a => (Ok a, w)
  | Throw e => (Err e, w)
  | Do c k => let '(r, w') := perform c w in runs (k r) w'
  end.

Lemma runs_bind {A B} (p : prog A) (k : A → prog B) w : runs (pbind p k) w = match runs p w with (Ok a, w') => runs (k a) w' | (Err e, w') => (Err e, w') end.
Proof. revert w. induction p as [a|e|c f IH]; intros w; cbn; [done..|]. destruct (perform c w). apply IH. Qed.

Lemma runs_try {A} (p : prog A) h w : runs (ptry p h) w = match runs p w with (Ok a, w') => (Ok a, w') | (Err e, w') => runs (h e) w' end.
Proof. revert w. induction p as [a|e|c f IH]; intros w; cbn; [done..|]. destruct (perform c w). apply IH. Qed.

Inductive event := Begin (m : M) | Turn (i : nat).

Definition turn (ev : event) (x : list (prog unit) * W) : list (prog unit) * W :=
  match ev with
  | Begin m => (x.1 ++ [body m], x.2)
  | Turn i =>
      match x.1 !! i with
      | Some (Do c k) => let '(r, w') := perform c x.2 in (<[i := k r]> x.1, w')
      | _ => x
      end
  end.

Definition execute (evs : list event) (w : W) : list (prog unit) * W := foldl (λ x ev, turn ev x) ([], w) evs.

(** ** A program among others *)

Context (inv : W → Prop) (ext : W → W → Prop) `{!PreOrder ext}.

Fixpoint safe {A} (Q : A → W → Prop) (X : E → W → Prop) (p : prog A) (w : W) : Prop :=
  match p with
  | Ret a => Q a w
  | Throw e => X e w
  | Do c k => ∀ w1, ext w w1 → inv w1 → let '(r, w2) := perform c w1 in inv w2 ∧ ext w1 w2 ∧ safe Q X (k r) w2
  end.

Definition stable (P : W → Prop) : Prop := ∀ w w', ext w w' → P w → P w'.

Lemma safe_bind {A B} (Q : A → W → Prop) (R : B → W → Prop) X p k w :
  safe Q X p w → (∀ a w', Q a w' → safe R X (k a) w') → safe R X (pbind p k) w.
Proof.
  revert w. induction p as [a|e|c f IH]; intros w Hp Hk; cbn in *; [by apply Hk|done|].
  intros w1 He Hi. specialize (Hp w1 He Hi). destruct (perform c w1) as [r w2]. destruct Hp as (? & ? & ?). split_and!; [done..|]. by apply IH.
Qed.

Lemma safe_try {A} (Q : A → W → Prop) X Y p h w :
  safe Q X p w → (∀ e w', X e w' → safe Q Y (h e) w') → safe Q Y (ptry p h) w.
Proof.
  revert w. induction p as [a|e|c f IH]; intros w Hp Hk; cbn in *; [done|by apply Hk|].
  intros w1 He Hi. specialize (Hp w1 He Hi). destruct (perform c w1) as [r w2]. destruct Hp as (? & ? & ?). split_and!; [done..|]. by apply IH.
Qed.

Lemma safe_mono {A} (Q Q' : A → W → Prop) (X X' : E → W → Prop) p w :
  safe Q X p w → (∀ a w', Q a w' → Q' a w') → (∀ e w', X e w' → X' e w') → safe Q' X' p w.
Proof.
  revert w. induction p as [a|e|c f IH]; intros w Hp Hq Hx; cbn in *; [by apply Hq|by apply Hx|].
  intros w1 He Hi. specialize (Hp w1 He Hi). destruct (perform c w1) as [r w2]. destruct Hp as (? & ? & ?). split_and!; [done..|]. by apply IH.
Qed.

(** What is stable stays known. *)
Lemma safe_frame {A} (P : W → Prop) (Q : A → W → Prop) X p w :
  stable P → P w → safe Q X p w → safe (λ a w', Q a w' ∧ P w') X p w.
Proof.
  intros HP. revert w. induction p as [a|e|c f IH]; intros w Hw Hp; cbn in *; [done..|].
  intros w1 He Hi. specialize (Hp w1 He Hi). destruct (perform c w1) as [r w2]. destruct Hp as (? & H2 & ?). split_and!; [done..|]. apply IH; [|done].
  by apply (HP w1), (HP w).
Qed.

(** What others do in between does not matter. *)
Lemma safe_later {A} (Q : A → W → Prop) X p w w' :
  (∀ a, stable (Q a)) → (∀ e, stable (X e)) → ext w w' → safe Q X p w → safe Q X p w'.
Proof.
  intros HQ HX He. destruct p as [a|e|c k]; cbn; [by apply HQ|by apply HX|].
  intros Hp w1 He1. apply Hp. by etrans.
Qed.

(** One call: its effect and what the program then knows. *)
Lemma safe_await {A} (Q : A → W → Prop) X c k w :
  (∀ w1, ext w w1 → inv w1 → let '(r, w2) := perform c w1 in
     inv w2 ∧ ext w1 w2 ∧ match r with Ok a => safe Q X (k a) w2 | Err e => X e w2 end) →
  safe Q X (pbind (await c) k) w.
Proof.
  intros H w1 He Hi. specialize (H w1 He Hi). destruct (perform c w1) as [[a|e] w2]; cbn; tauto.
Qed.

Lemma safe_last (c : C) (Q : ans c → W → Prop) X w :
  (∀ w1, ext w w1 → inv w1 → let '(r, w2) := perform c w1 in inv w2 ∧ ext w1 w2 ∧ match r with Ok a => Q a w2 | Err e => X e w2 end) →
  safe Q X (await c) w.
Proof.
  intros H w1 He Hi. specialize (H w1 He Hi). destruct (perform c w1) as [[a|e] w2]; cbn; tauto.
Qed.

Lemma safe_tail {A} (Q : A → W → Prop) X p w : safe Q X (pbind p Ret) w → safe Q X p w.
Proof.
  revert w. induction p as [a|e|c f IH]; intros w Hp; cbn in *; [done..|].
  intros w1 He Hi. specialize (Hp w1 He Hi). destruct (perform c w1) as [r w2]. destruct Hp as (? & ? & ?). split_and!; [done..|]. by apply IH.
Qed.

Definition trivial {A} (_ : A) (_ : W) : Prop := True.

Lemma safe_started {A} (p : prog A) w : safe trivial trivial p w → safe trivial trivial (started p) w.
Proof. intros Hp. eapply safe_try; [eapply safe_bind; [exact Hp|done]|done]. Qed.

(** Whatever is under way, whatever methods begin and whoever's turn it is, the
    invariant holds. *)
Theorem threads_safe_from evs x :
  (∀ m w', Begin m ∈ evs → inv w' → safe trivial trivial (body m) w') → inv x.2 → Forall (λ p, safe trivial trivial p x.2) x.1 →
  let y := foldl (λ x ev, turn ev x) x evs in inv y.2 ∧ ext x.2 y.2 ∧ Forall (λ p, safe trivial trivial p y.2) y.1.
Proof.
  intros Hb Hw Hx. cbn. induction evs as [|ev evs IH] using rev_ind; [by split_and!|]. rewrite foldl_app. cbn.
  destruct (foldl _ _ evs) as [ps w1]. cbn in IH. destruct IH as (Hi & He & Hp); [intros m w' Hm; apply Hb, elem_of_app; by left|]. destruct ev as [m|i]; cbn.
  - split_and!; [done..|]. apply Forall_app. split; [done|]. constructor; [|done]. apply Hb; [apply elem_of_app; right; by left|done].
  - destruct (ps !! i) as [[a|e|c k]|] eqn:Ei; cbn; [by split_and!..| |by split_and!].
    pose proof (Forall_lookup_1 _ _ _ _ Hp Ei) as Hs. cbn in Hs. specialize (Hs w1 ltac:(reflexivity) Hi).
    destruct (perform c w1) as [r w2]. destruct Hs as (H1 & H2 & H3). cbn. split_and!; [done|by etrans|].
    apply Forall_insert; [|done]. eapply Forall_impl; [exact Hp|]. intros p. by apply safe_later.
Qed.

Corollary threads_safe_begun w evs :
  (∀ m w', Begin m ∈ evs → inv w' → safe trivial trivial (body m) w') → inv w → inv (execute evs w).2 ∧ ext w (execute evs w).2.
Proof. intros Hb Hw. by destruct (threads_safe_from evs ([], w) Hb Hw (List.Forall_nil _)) as (? & ? & _). Qed.

Corollary threads_safe w evs :
  (∀ m w', inv w' → safe trivial trivial (body m) w') → inv w → inv (execute evs w).2 ∧ ext w (execute evs w).2.
Proof. intros Hb. apply threads_safe_begun. auto. Qed.

(** ** Credits

    A call costs credits, an answer may bring some. A program that always affords its
    calls never spends more than it was given, whoever else runs: over all programs,
    what was spent is at most what was gained. *)

Section credits.
Context (cost : C → nat) (gain : ∀ c, result E (ans c) → nat) (spent gained : W → nat).
Context (counted : ∀ c w, spent (perform c w).2 = (spent w + cost c)%nat ∧ gained (perform c w).2 = (gained w + gain c (perform c w).1)%nat).

Fixpoint affords {A} (Q : A → nat → W → Prop) (X : E → nat → W → Prop) (n : nat) (p : prog A) (w : W) : Prop :=
  match p with
  | Ret a => Q a n w
  | Throw e => X e n w
  | Do c k => ∀ w1, ext w w1 → inv w1 → let '(r, w2) := perform c w1 in
      inv w2 ∧ ext w1 w2 ∧ (cost c ≤ n)%nat ∧ affords Q X (n - cost c + gain c r) (k r) w2
  end.

Definition anyhow {A} (_ : A) (_ : nat) (_ : W) : Prop := True.

Lemma affords_bind {A B} (Q : A → nat → W → Prop) (R : B → nat → W → Prop) X n p k w :
  affords Q X n p w → (∀ a m w', Q a m w' → affords R X m (k a) w') → affords R X n (pbind p k) w.
Proof.
  revert n w. induction p as [a|e|c f IH]; intros n w Hp Hk; cbn in *; [by apply Hk|done|].
  intros w1 He Hi. specialize (Hp w1 He Hi). destruct (perform c w1) as [r w2]. destruct Hp as (? & ? & ? & ?). split_and!; [done..|]. by apply IH.
Qed.

Lemma affords_try {A} (Q : A → nat → W → Prop) X Y n p h w :
  affords Q X n p w → (∀ e m w', X e m w' → affords Q Y m (h e) w') → affords Q Y n (ptry p h) w.
Proof.
  revert n w. induction p as [a|e|c f IH]; intros n w Hp Hk; cbn in *; [done|by apply Hk|].
  intros w1 He Hi. specialize (Hp w1 He Hi). destruct (perform c w1) as [r w2]. destruct Hp as (? & ? & ? & ?). split_and!; [done..|]. by apply IH.
Qed.

Lemma affords_mono {A} (Q Q' : A → nat → W → Prop) (X X' : E → nat → W → Prop) n p w :
  affords Q X n p w → (∀ a m w', Q a m w' → Q' a m w') → (∀ e m w', X e m w' → X' e m w') → affords Q' X' n p w.
Proof.
  revert n w. induction p as [a|e|c f IH]; intros n w Hp Hq Hx; cbn in *; [by apply Hq|by apply Hx|].
  intros w1 He Hi. specialize (Hp w1 He Hi). destruct (perform c w1) as [r w2]. destruct Hp as (? & ? & ? & ?). split_and!; [done..|]. by apply IH.
Qed.

(** One call. *)
Lemma affords_await {A} (Q : A → nat → W → Prop) X n c k w :
  (∀ w1, ext w w1 → inv w1 → inv (perform c w1).2 ∧ ext w1 (perform c w1).2 ∧ (cost c ≤ n)%nat ∧
     match (perform c w1).1 with
     | Ok a => affords Q X (n - cost c + gain c (Ok a)) (k a) (perform c w1).2
     | Err e => X e (n - cost c + gain c (Err e))%nat (perform c w1).2
     end) →
  affords Q X n (pbind (await c) k) w.
Proof.
  intros H w1 He Hi. specialize (H w1 He Hi). destruct (perform c w1) as [[a|e] w2]; cbn in *; tauto.
Qed.

Lemma affords_last n (c : C) (Q : ans c → nat → W → Prop) X w :
  (∀ w1, ext w w1 → inv w1 → inv (perform c w1).2 ∧ ext w1 (perform c w1).2 ∧ (cost c ≤ n)%nat ∧
     match (perform c w1).1 with
     | Ok a => Q a (n - cost c + gain c (Ok a))%nat (perform c w1).2
     | Err e => X e (n - cost c + gain c (Err e))%nat (perform c w1).2
     end) →
  affords Q X n (await c) w.
Proof.
  intros H w1 He Hi. specialize (H w1 He Hi). destruct (perform c w1) as [[a|e] w2]; cbn in *; tauto.
Qed.

Lemma affords_later n (p : prog unit) w w' : ext w w' → affords anyhow anyhow n p w → affords anyhow anyhow n p w'.
Proof. intros He. destruct p as [a|e|c k]; cbn; [done..|]. intros Hp w1 He1. apply Hp. by etrans. Qed.

(** Programs under way that afford what they do: the sum of what they hold is covered. *)
Definition covered (x : list (prog unit) * W) : Prop :=
  inv x.2 ∧ ∃ ns, Forall2 (λ n p, affords anyhow anyhow n p x.2) ns x.1 ∧ (spent x.2 + sum_list ns ≤ gained x.2)%nat.

Lemma turn_covered ev x :
  (∀ m w, ev = Begin m → inv w → affords anyhow anyhow 0 (body m) w) → covered x → covered (turn ev x) ∧ ext x.2 (turn ev x).2.
Proof.
  intros Hb (Hi & ns & Hn & Hs). destruct x as [ps w]. cbn in *. destruct ev as [m|i]; cbn.
  - split; [|done]. split; [done|]. exists (ns ++ [0%nat]). split; [|rewrite sum_list_with_app; cbn; lia].
    apply Forall2_app; [done|]. constructor; [|done]. by apply Hb.
  - destruct (ps !! i) as [[a|e|c k]|] eqn:Ei; [split; [by split; eauto|done]..| |split; [by split; eauto|done]].
    destruct (Forall2_lookup_r _ _ _ _ _ Hn Ei) as (n & En & Hp). cbn in Hp. specialize (Hp w ltac:(reflexivity) Hi).
    destruct (counted c w) as [Cs Cg]. destruct (perform c w) as [r w2]. destruct Hp as (H1 & H2 & H3 & H4). cbn in *. split; [|done].
    split; [done|]. exists (<[i := (n - cost c + gain c r)%nat]> ns). split.
    + apply Forall2_insert; [|done]. eapply Forall2_impl; [exact Hn|]. intros m p. by apply affords_later.
    + cbn. rewrite (insert_take_drop ns) by (by eapply lookup_lt_Some).
      rewrite <-(take_drop_middle ns i n En) in Hs. rewrite !sum_list_with_app in *. cbn in *. lia.
Qed.

Theorem threads_afford w evs :
  (∀ m w', Begin m ∈ evs → inv w' → affords anyhow anyhow 0 (body m) w') → inv w → (spent w ≤ gained w)%nat →
  covered (execute evs w) ∧ ext w (execute evs w).2.
Proof.
  intros Hb Hw Hs. unfold execute. induction evs as [|ev evs IH] using rev_ind.
  - split; [|done]. split; [done|]. exists []. split; [constructor|cbn; lia].
  - rewrite foldl_app. cbn. destruct IH as [Hc He]; [intros m w' Hm; apply Hb, elem_of_app; by left|].
    destruct (turn_covered ev (foldl (λ x ev, turn ev x) ([], w) evs)) as [Hc' He']; [|done|split; [done|by etrans]].
    intros m w' -> Hi. apply Hb; [apply elem_of_app; right; by left|done].
Qed.
End credits.
End runs.

(** ** Histories

    Calls answered by an oracle that sees everything that happened before; the world is
    the history of the calls and their answers. *)

Definition oracle : Type := list (sigT (λ c, result E (ans c))) → ∀ c, result E (ans c).

Definition recorded (w : oracle) (c : C) (h : list (sigT (λ c, result E (ans c)))) : result E (ans c) * list (sigT (λ c, result E (ans c))) :=
  (w h c, h ++ [existT c (w h c)]).

(** A program that only makes calls that [P] allows. *)
Fixpoint only {A} (P : C → bool) (p : prog A) : Prop := match p with Ret _ | Throw _ => True | Do c k => P c = true ∧ ∀ r, only P (k r) end.

Lemma only_bind {A B} P (p : prog A) (k : A → prog B) : only P p → (∀ a, only P (k a)) → only P (pbind p k).
Proof. induction p as [a|e|c f IH]; cbn; [auto..|]. intros [Hc Hf] Hk. split; [done|]. auto. Qed.

Lemma only_try {A} P (p : prog A) h : only P p → (∀ e, only P (h e)) → only P (ptry p h).
Proof. induction p as [a|e|c f IH]; cbn; [auto..|]. intros [Hc Hf] Hk. split; [done|]. auto. Qed.

Lemma only_await P c : P c = true → only P (await c).
Proof. intros Hc. split; [done|]. by intros []. Qed.

Lemma only_runs {A} P (p : prog A) w h : only P p → ∃ r t, runs (recorded w) p h = (r, h ++ t) ∧ Forall (λ x, P (projT1 x) = true) t.
Proof.
  revert h. induction p as [a|e|c f IH]; intros h Hp; cbn; [eexists _, []; by rewrite app_nil_r..|].
  destruct Hp as [Hc Hf]. destruct (IH (w h c) (h ++ [existT c (w h c)]) (Hf _)) as (r & t & -> & Ht).
  exists r, (existT c (w h c) :: t). rewrite <- app_assoc. split; [done|]. by constructor.
Qed.

(** Calls that cost nothing are always affordable. *)
Lemma affords_free {W} (perform : ∀ c, W → result E (ans c) * W) (inv : W → Prop) (ext : W → W → Prop) cost gain P :
  (∀ c w, inv w → inv (perform c w).2 ∧ ext w (perform c w).2) → (∀ c, P c = true → cost c = 0%nat) →
  ∀ {A} n (p : prog A) w, only P p → affords perform inv ext cost gain anyhow anyhow n p w.
Proof.
  intros Hk Hc A n p. revert n. induction p as [a|e|c f IH]; intros n w Hp; cbn in *; [done..|]. destruct Hp as [Hc0 Hf].
  intros w1 He Hi. destruct (Hk c w1 Hi) as [H1 H2]. destruct (perform c w1) as [r w2]. cbn in *. rewrite (Hc c Hc0). split_and!; [done|done|lia|]. by apply IH.
Qed.

(** And they leave what a program holds. *)
Lemma affords_spare {W} (perform : ∀ c, W → result E (ans c) * W) (inv : W → Prop) (ext : W → W → Prop) cost gain P :
  (∀ c w, inv w → inv (perform c w).2 ∧ ext w (perform c w).2) → (∀ c, P c = true → cost c = 0%nat) →
  ∀ {A} n (p : prog A) w, only P p → affords perform inv ext cost gain (λ _ m _, n ≤ m)%nat (λ _ m _, n ≤ m)%nat n p w.
Proof.
  intros Hk Hc A n p w Hp. enough (∀ m, (n ≤ m)%nat → affords perform inv ext cost gain (λ _ m _, n ≤ m)%nat (λ _ m _, n ≤ m)%nat m p w) as H by auto.
  revert w Hp. induction p as [a|e|c f IH]; intros w Hp m Hm; cbn in *; [done..|]. destruct Hp as [Hc0 Hf].
  intros w1 He Hi. destruct (Hk c w1 Hi) as [H1 H2]. destruct (perform c w1) as [r w2]. cbn in *. rewrite (Hc c Hc0). split_and!; [done|done|lia|].
  apply IH; [done|lia].
Qed.

(** ** Logs *)

(** The calls and their answers beside the world. *)
Definition logged {W} (perform : ∀ c, W → result E (ans c) * W) (c : C) (x : W * list (sigT (λ c, result E (ans c)))) :
    result E (ans c) * (W * list (sigT (λ c, result E (ans c)))) :=
  let r := perform c x.1 in (r.1, (r.2, x.2 ++ [existT c r.1])).
End programs.

#[global] Arguments prog {C} ans E A.
#[global] Arguments event M : clear implicits.
#[global] Arguments oracle {C} ans E.

Declare Scope prog_scope.
Delimit Scope prog_scope with prog.

Notation "'let!' x ':=' p 'in' k" := (pbind p (λ x, k))
  (at level 100, x pattern, p at next level, right associativity) : prog_scope.
Notation "p ;! k" := (pbind p (λ _, k)) (at level 100, k at level 200, right associativity) : prog_scope.
