(* ===== verification/TaskModel.v ===== *)
(** * The tables of the Task profile

    The rows of [rhinoq_task.tasks] and [rhinoq_task.executions] as the
    migrations of [sdks/node/src/postgres/task-schema.ts] leave them, the
    session a statement runs in (tenant, maintenance flag, row-level security),
    the enumerations their CHECK constraints allow, and the primitive
    statements on them: selecting through row-level security, writing a Task
    row with its change notification, and the unique constraints of an
    Execution. *)

From stdpp Require Import base gmap strings list fin_maps sorting.
From Stdlib Require Import Ascii ZArith Lia.
From S2P Require Import Prelude.

(** ** Enumerations *)

Inductive task_state : Type :=
| Pending | Queued | Running | Uncertain | Succeeded | Failed
| CancelRequested | Cancelled.

Inductive cancellation_status : Type :=
| CNone | CRequested | CAcknowledged | CCancelled | CTooLate
| CCannotCancelSafely | CFailed.

Inductive exec_state : Type :=
| EPendingDispatch | EDispatched | ERunning | ESucceeded | EFailed
| EStalled | ECancelled.

#[export] Instance task_state_eq_dec : EqDecision task_state.
Proof. solve_decision. Defined.
#[export] Instance cancellation_status_eq_dec : EqDecision cancellation_status.
Proof. solve_decision. Defined.
#[export] Instance exec_state_eq_dec : EqDecision exec_state.
Proof. solve_decision. Defined.

Definition task_state_name (s : task_state) : string :=
  match s with
  | Pending => "pending" | Queued => "queued" | Running => "running"
  | Uncertain => "uncertain" | Succeeded => "succeeded" | Failed => "failed"
  | CancelRequested => "cancel_requested" | Cancelled => "cancelled"
  end.

Definition task_states : list task_state :=
  [Pending; Queued; Running; Uncertain; Succeeded; Failed; CancelRequested; Cancelled].

(** The state a text column value denotes; [None] for text the CHECK refuses. *)
Definition task_state_of (s : string) : option task_state :=
  List.find (λ x, bool_decide (task_state_name x = s)) task_states.

Definition exec_state_name (s : exec_state) : string :=
  match s with
  | EPendingDispatch => "pending_dispatch" | EDispatched => "dispatched"
  | ERunning => "running" | ESucceeded => "succeeded" | EFailed => "failed"
  | EStalled => "stalled" | ECancelled => "cancelled"
  end.

Definition exec_states : list exec_state :=
  [EPendingDispatch; EDispatched; ERunning; ESucceeded; EFailed; EStalled; ECancelled].

Definition exec_state_of (s : string) : option exec_state :=
  List.find (λ x, bool_decide (exec_state_name x = s)) exec_states.

(** The statuses [resolve_cancellation] accepts. *)
Definition resolvable_status_of (s : string) : option cancellation_status :=
  if bool_decide (s = "acknowledged") then Some CAcknowledged
  else if bool_decide (s = "cannot_cancel_safely") then Some CCannotCancelSafely
  else if bool_decide (s = "failed") then Some CFailed
  else None.

(** [state IN ('succeeded','failed','cancelled')] on an Execution. *)
Definition exec_finished (s : exec_state) : bool :=
  match s with ESucceeded | EFailed | ECancelled => true | _ => false end.

(** [state IN ('succeeded','failed','stalled','cancelled')] on an Execution. *)
Definition exec_terminal (s : exec_state) : bool :=
  match s with ESucceeded | EFailed | EStalled | ECancelled => true | _ => false end.

Definition task_terminal (s : task_state) : bool :=
  match s with Succeeded | Failed | Cancelled => true | _ => false end.

(** ** Rows *)

Record progress := Progress {
  p_completed : Z;
  p_total : option Z;
  p_message : option string;
}.

Record cancellation := Cancellation {
  c_status : cancellation_status;
  c_reason : option string;
}.

(** The stored per-state aggregates [execution_*] of a Task row. *)
Record exec_counts := ExecCounts {
  n_total : Z;
  n_pending_dispatch : Z;
  n_dispatched : Z;
  n_running : Z;
  n_succeeded : Z;
  n_failed : Z;
  n_stalled : Z;
  n_cancelled : Z;
}.

Record task_row := TaskRow {
  t_id : string;
  t_type : string;
  t_tenant : string;
  t_owner : option string;
  t_definition_version : Z;
  t_state : task_state;
  t_progress : progress;
  t_result_ref : option string;
  t_cancellation : cancellation;
  t_version : Z;
  t_counts : exec_counts;
  t_items_settled_at : option Z;
  t_created_at : Z;
  t_updated_at : Z;
}.

Record exec_row := ExecRow {
  e_id : string;
  e_task_id : string;
  e_tenant : string;
  e_item_key : string;
  e_attempt : Z;
  e_runtime : string;
  e_runtime_scope : string;
  e_external_id : option string;
  e_state : exec_state;
  e_result_ref : option string;
  e_failure_reason : option string;
  e_version : Z;
  e_superseded_at : option Z;
  e_effect_keys : list string;
  e_created_at : Z;
  e_updated_at : Z;
}.

#[export] Instance progress_eq_dec : EqDecision progress.
Proof. solve_decision. Defined.
#[export] Instance cancellation_eq_dec : EqDecision cancellation.
Proof. solve_decision. Defined.
#[export] Instance exec_counts_eq_dec : EqDecision exec_counts.
Proof. solve_decision. Defined.
#[export] Instance task_row_eq_dec : EqDecision task_row.
Proof. solve_decision. Defined.
#[export] Instance exec_row_eq_dec : EqDecision exec_row.
Proof. solve_decision. Defined.

(** A [pg_notify('rhinoq_task_changed', {taskId, version, tenantId})]. *)
Record change_note := ChangeNote {
  note_task_id : string;
  note_version : Z;
  note_tenant_id : string;
}.

#[export] Instance change_note_eq_dec : EqDecision change_note.
Proof. solve_decision. Defined.

Record db := Db {
  db_tasks : gmap string task_row;
  db_executions : gmap string exec_row;
  db_notes : list change_note;
}.

Definition empty_db : db := Db ∅ ∅ [].

(** ** Column updates *)

Definition t_with_state (s : task_state) (t : task_row) : task_row :=
  TaskRow (t_id t) (t_type t) (t_tenant t) (t_owner t) (t_definition_version t)
    s (t_progress t) (t_result_ref t) (t_cancellation t) (t_version t)
    (t_counts t) (t_items_settled_at t) (t_created_at t) (t_updated_at t).

Definition t_with_cancellation (c : cancellation) (t : task_row) : task_row :=
  TaskRow (t_id t) (t_type t) (t_tenant t) (t_owner t) (t_definition_version t)
    (t_state t) (t_progress t) (t_result_ref t) c (t_version t)
    (t_counts t) (t_items_settled_at t) (t_created_at t) (t_updated_at t).

Definition t_with_progress (p : progress) (t : task_row) : task_row :=
  TaskRow (t_id t) (t_type t) (t_tenant t) (t_owner t) (t_definition_version t)
    (t_state t) p (t_result_ref t) (t_cancellation t) (t_version t)
    (t_counts t) (t_items_settled_at t) (t_created_at t) (t_updated_at t).

Definition t_with_result (r : option string) (t : task_row) : task_row :=
  TaskRow (t_id t) (t_type t) (t_tenant t) (t_owner t) (t_definition_version t)
    (t_state t) (t_progress t) r (t_cancellation t) (t_version t)
    (t_counts t) (t_items_settled_at t) (t_created_at t) (t_updated_at t).

Definition t_with_counts (c : exec_counts) (t : task_row) : task_row :=
  TaskRow (t_id t) (t_type t) (t_tenant t) (t_owner t) (t_definition_version t)
    (t_state t) (t_progress t) (t_result_ref t) (t_cancellation t) (t_version t)
    c (t_items_settled_at t) (t_created_at t) (t_updated_at t).

Definition t_with_settled (o : option Z) (t : task_row) : task_row :=
  TaskRow (t_id t) (t_type t) (t_tenant t) (t_owner t) (t_definition_version t)
    (t_state t) (t_progress t) (t_result_ref t) (t_cancellation t) (t_version t)
    (t_counts t) o (t_created_at t) (t_updated_at t).

(** [version = v, updated_at = now] *)
Definition t_touch (v now : Z) (t : task_row) : task_row :=
  TaskRow (t_id t) (t_type t) (t_tenant t) (t_owner t) (t_definition_version t)
    (t_state t) (t_progress t) (t_result_ref t) (t_cancellation t) v
    (t_counts t) (t_items_settled_at t) (t_created_at t) now.

Definition e_with_state (s : exec_state) (r : option string) (e : exec_row) : exec_row :=
  ExecRow (e_id e) (e_task_id e) (e_tenant e) (e_item_key e) (e_attempt e)
    (e_runtime e) (e_runtime_scope e) (e_external_id e) s (e_result_ref e) r
    (e_version e) (e_superseded_at e) (e_effect_keys e) (e_created_at e) (e_updated_at e).

Definition e_with_binding (scope : string) (ext : option string) (e : exec_row) : exec_row :=
  ExecRow (e_id e) (e_task_id e) (e_tenant e) (e_item_key e) (e_attempt e)
    (e_runtime e) scope ext (e_state e) (e_result_ref e) (e_failure_reason e)
    (e_version e) (e_superseded_at e) (e_effect_keys e) (e_created_at e) (e_updated_at e).

Definition e_with_result (r : option string) (e : exec_row) : exec_row :=
  ExecRow (e_id e) (e_task_id e) (e_tenant e) (e_item_key e) (e_attempt e)
    (e_runtime e) (e_runtime_scope e) (e_external_id e) (e_state e) r (e_failure_reason e)
    (e_version e) (e_superseded_at e) (e_effect_keys e) (e_created_at e) (e_updated_at e).

Definition e_with_superseded (o : option Z) (e : exec_row) : exec_row :=
  ExecRow (e_id e) (e_task_id e) (e_tenant e) (e_item_key e) (e_attempt e)
    (e_runtime e) (e_runtime_scope e) (e_external_id e) (e_state e) (e_result_ref e)
    (e_failure_reason e) (e_version e) o (e_effect_keys e) (e_created_at e) (e_updated_at e).

Definition e_with_effects (l : list string) (e : exec_row) : exec_row :=
  ExecRow (e_id e) (e_task_id e) (e_tenant e) (e_item_key e) (e_attempt e)
    (e_runtime e) (e_runtime_scope e) (e_external_id e) (e_state e) (e_result_ref e)
    (e_failure_reason e) (e_version e) (e_superseded_at e) l (e_created_at e) (e_updated_at e).

Definition e_touch (v now : Z) (e : exec_row) : exec_row :=
  ExecRow (e_id e) (e_task_id e) (e_tenant e) (e_item_key e) (e_attempt e)
    (e_runtime e) (e_runtime_scope e) (e_external_id e) (e_state e) (e_result_ref e)
    (e_failure_reason e) v (e_superseded_at e) (e_effect_keys e) (e_created_at e) now.

(** ** Errors of a statement

    [Raise code] is an exception of [rhinoq_task.fail]: the message is the code
    a client dispatches on (the human-readable DETAIL is left out).
    [SqlState] is an error of PostgreSQL itself. *)

Inductive sql_error : Type :=
| Raise (code : string)
| SqlState (code : string).

#[export] Instance sql_error_eq_dec : EqDecision sql_error.
Proof. solve_decision. Defined.

Definition NOT_NULL_VIOLATION := SqlState "23502".
Definition FOREIGN_KEY_VIOLATION := SqlState "23503".
Definition UNIQUE_VIOLATION := SqlState "23505".
Definition CHECK_VIOLATION := SqlState "23514".
Definition OUT_OF_RANGE := SqlState "22003".
Definition RLS_VIOLATION := SqlState "42501".

Definition sql (A : Type) : Type := txn db sql_error A.

(** [RAISE EXCEPTION USING MESSAGE = code] *)
Definition fail {A} (code : string) : sql A := traise (Raise code).

(** [IF b THEN PERFORM rhinoq_task.fail(code); END IF;] *)
Definition fail_if (b : bool) (code : string) : sql unit := traise_if b (Raise code).

Definition bigint_succ (v : Z) : result sql_error Z := int_succ INT8_MAX OUT_OF_RANGE v.
Definition integer_succ (v : Z) : result sql_error Z := int_succ INT4_MAX OUT_OF_RANGE v.

(** ** The session

    [current_tenant()] is NULL when the setting is absent or blank;
    [exempt] is a role with SUPERUSER or BYPASSRLS. *)

Record session := Session {
  tenant_setting : option string;
  maintenance_setting : option string;
  exempt : bool;
}.

Definition current_tenant (c : session) : option string :=
  match tenant_setting c with
  | Some s => nullif_empty (btrim s)
  | None => None
  end.

Definition maintenance_session (c : session) : bool :=
  bool_decide (default "" (maintenance_setting c) = "on").

(** The policy [rhinoq_task_tenant_isolation]: USING and WITH CHECK. *)
Definition rls_allows (c : session) (tenant : string) : bool :=
  exempt c || maintenance_session c || bool_decide (current_tenant c = Some tenant).

Definition visible_tasks (c : session) (d : db) : gmap string task_row :=
  filter (λ kv, rls_allows c (t_tenant kv.2) = true) (db_tasks d).

Definition visible_executions (c : session) (d : db) : gmap string exec_row :=
  filter (λ kv, rls_allows c (e_tenant kv.2) = true) (db_executions d).

(** [SELECT * INTO v FROM tasks WHERE id = p_id]; [None] is NOT FOUND. *)
Definition find_task (c : session) (id : string) : sql (option task_row) :=
  λ d, Ok (visible_tasks c d !! id, d).

Definition find_execution (c : session) (id : string) : sql (option exec_row) :=
  λ d, Ok (visible_executions c d !! id, d).

(** [... ; IF NOT FOUND THEN PERFORM rhinoq_task.fail(code, p_id); END IF;] *)
Definition select_task (c : session) (id code : string) : sql task_row :=
  λ d, match visible_tasks c d !! id with
       | Some t => Ok (t, d)
       | None => Err (Raise code)
       end.

Definition select_execution (c : session) (id code : string) : sql exec_row :=
  λ d, match visible_executions c d !! id with
       | Some e => Ok (e, d)
       | None => Err (Raise code)
       end.

(** ** Writing a Task row

    [announce_tasks] runs after every UPDATE of [tasks]: it notifies exactly
    the rows whose version changed. *)

Definition announce (before after : task_row) : list change_note :=
  if bool_decide (t_version before = t_version after) then []
  else [ChangeNote (t_id after) (t_version after) (t_tenant after)].

(** [UPDATE rhinoq_task.tasks SET ... WHERE id = k] on a visible row. *)
Definition update_task (c : session) (k : string) (f : task_row → result sql_error task_row)
    : sql unit :=
  λ d, match visible_tasks c d !! k with
       | None => Ok (tt, d)
       | Some t =>
           match f t with
           | Err e => Err e
           | Ok t' => Ok (tt, Db (<[k := t']> (db_tasks d)) (db_executions d)
                              (db_notes d ++ announce t t'))
           end
       end.

(** [SET version = version + 1, updated_at = clock_timestamp()] *)
Definition bump_task (now : Z) (t : task_row) : result sql_error task_row :=
  match bigint_succ (t_version t) with
  | Ok v => Ok (t_touch v now t)
  | Err e => Err e
  end.

(** ** Unique constraints of [executions]

    The primary key, [UNIQUE (task_id, item_key, attempt)] and the partial
    index [executions_runtime_ref_live_unique] over live rows that carry an
    external identity. *)

Definition live (e : exec_row) : bool := bool_decide (e_superseded_at e = None).

Definition same_attempt (a b : exec_row) : bool :=
  bool_decide (e_task_id a = e_task_id b) && bool_decide (e_item_key a = e_item_key b)
  && (e_attempt a =? e_attempt b).

Definition same_live_ref (a b : exec_row) : bool :=
  live a && live b && bool_decide (e_runtime a = e_runtime b)
  && bool_decide (e_runtime_scope a = e_runtime_scope b)
  && match e_external_id a, e_external_id b with
     | Some x, Some y => bool_decide (x = y)
     | _, _ => false
     end.

(** A new or updated row [e] collides with another row of the table. *)
Definition exec_collides (d : db) (e : exec_row) : bool :=
  map_exists (λ o, negb (bool_decide (e_id o = e_id e)) &&
                   (same_attempt o e || same_live_ref o e)) (db_executions d).
