(* ===== verification/TaskCommands.v ===== *)
(** * Task commands

    The PL/pgSQL functions of [sdks/node/src/postgres/task-schema.ts] that
    write a Task row and nothing else: creation, state transitions, progress,
    cancellation and the result reference. Each definition is the function the
    last migration leaves installed. [now] is [clock_timestamp()]. *)

From stdpp Require Import base gmap strings list fin_maps sorting.
From Stdlib Require Import Ascii ZArith Lia.
From S2P Require Import Prelude TaskModel.

Open Scope txn_scope.

(** ** [create_task] (migration 9) *)

Definition no_counts : exec_counts := ExecCounts 0 0 0 0 0 0 0 0.

(** The column defaults of a fresh row. *)
Definition new_task (now : Z) (p_id p_type p_tenant : string) (p_owner : option string)
    (p_definition_version : Z) : task_row :=
  TaskRow p_id p_type p_tenant p_owner p_definition_version Pending
    (Progress 0 None None) None (Cancellation CNone None) 1 no_counts None now now.

(** [INSERT INTO tasks ... ON CONFLICT DO NOTHING]; the boolean is FOUND. The
    row-level policy and the CHECK constraints are evaluated before the
    conflict is detected. *)
Definition insert_task (c : session) (t : task_row) : sql bool :=
  λ d,
    if negb (rls_allows c (t_tenant t)) then Err RLS_VIOLATION
    else if blank (t_type t) || blank (t_tenant t) || (t_definition_version t <=? 0)
    then Err CHECK_VIOLATION
    else match db_tasks d !! t_id t with
         | Some _ => Ok (false, d)
         | None => Ok (true, Db (<[t_id t := t]> (db_tasks d)) (db_executions d)
                              (db_notes d ++ [ChangeNote (t_id t) (t_version t) (t_tenant t)]))
         end.

(** The comparison of the stored row with the request. When the row belongs to
    a tenant this session cannot see, every column of [v] is NULL. *)
Definition create_task_conflict (v : option task_row) (p_type p_tenant : string)
    (p_owner : option string) (p_definition_version : Z) : tri :=
  tri_or (tri_ne (t_type <$> v) (Some p_type))
    (tri_or (tri_ne (t_tenant <$> v) (Some p_tenant))
      (tri_or (Some (is_distinct (v ≫= t_owner) p_owner))
        (tri_ne (t_definition_version <$> v) (Some p_definition_version)))).

Definition create_task (c : session) (now : Z) (p_id p_type p_tenant : string)
    (p_owner : option string) (p_definition_version : Z) : sql bool :=
  fail_if (blank p_tenant) "RHINOQ_INVALID_TENANT" ;;
  let* found := insert_task c (new_task now p_id p_type p_tenant p_owner p_definition_version) in
  if found then tret false else
  let* v := find_task c p_id in
  fail_if (tri_true (create_task_conflict v p_type p_tenant p_owner p_definition_version))
    "RHINOQ_TASK_CONFLICT" ;;
  tret true.

(** ** [transition_task] (migration 7) *)

Definition task_edge (s t : task_state) : bool :=
  match s, t with
  | Pending, Queued => true
  | Queued, (Running | CancelRequested) => true
  | Running, (Uncertain | Succeeded | Failed | CancelRequested) => true
  | Uncertain, (Succeeded | Failed) => true
  | CancelRequested, (Uncertain | Succeeded | Failed | Cancelled) => true
  | (Failed | Cancelled), Queued => true
  | _, _ => false
  end.

(** The [CASE] expressions over the cancellation columns. *)
Definition cancellation_after (s t : task_state) (c : cancellation) : cancellation :=
  let requeued := bool_decide (t = Queued) && (bool_decide (s = Failed) || bool_decide (s = Cancelled)) in
  Cancellation
    (if requeued then CNone
     else if bool_decide (t = CancelRequested) && bool_decide (c_status c = CNone) then CRequested
     else if bool_decide (s = CancelRequested) && bool_decide (t = Cancelled) then CCancelled
     else if bool_decide (s = CancelRequested) && bool_decide (t = Succeeded) then CTooLate
     else if bool_decide (s = CancelRequested) && bool_decide (t = Failed) then CFailed
     else c_status c)
    (if requeued then None else c_reason c).

Definition transition_task (c : session) (now : Z) (p_id : string) (p_expected_version : Z)
    (p_target : string) : sql Z :=
  let* v := select_task c p_id "RHINOQ_TASK_NOT_FOUND" in
  fail_if (negb (t_version v =? p_expected_version)) "RHINOQ_VERSION_CONFLICT" ;;
  match task_state_of p_target with
  | Some t =>
      if task_edge (t_state v) t then
        let* version := tlift (bigint_succ (t_version v)) in
        update_task c p_id (λ r, Ok (t_touch version now
          (t_with_cancellation (cancellation_after (t_state v) t (t_cancellation r))
            (t_with_state t r)))) ;;
        tret version
      else fail "RHINOQ_INVALID_TASK_TRANSITION"
  | None => fail "RHINOQ_INVALID_TASK_TRANSITION"
  end.

(** ** [report_progress] (migration 18) *)

Definition progress_open (s : task_state) : bool :=
  match s with Running | CancelRequested => true | _ => false end.

Definition report_progress (c : session) (now : Z) (p_id : string) (p_expected_version : Z)
    (p_completed p_total : Z) (p_has_total : bool) (p_message : option string) : sql Z :=
  let v_total := if p_has_total then Some p_total else None in
  let v_message := nullif_empty (default "" p_message) in
  let* v := select_task c p_id "RHINOQ_TASK_NOT_FOUND" in
  fail_if (negb (progress_open (t_state v))) "RHINOQ_PROGRESS_STATE" ;;
  fail_if ((p_completed <? 0) || (p_has_total && ((p_total <? 0) || (p_total <? p_completed))))
    "RHINOQ_INVALID_PROGRESS" ;;
  let old := t_progress v in
  if (TaskModel.p_completed old =? p_completed)
     && negb (is_distinct (TaskModel.p_total old) v_total)
     && negb (is_distinct (TaskModel.p_message old) v_message)
  then tret (t_version v) else
  fail_if (negb (t_version v =? p_expected_version)) "RHINOQ_VERSION_CONFLICT" ;;
  fail_if (p_completed <? TaskModel.p_completed old) "RHINOQ_PROGRESS_REGRESSION" ;;
  fail_if (bool_decide (is_Some (TaskModel.p_total old)) && is_distinct (TaskModel.p_total old) v_total)
    "RHINOQ_PROGRESS_TOTAL_CHANGED" ;;
  let* version := tlift (bigint_succ (t_version v)) in
  update_task c p_id (λ r, Ok (t_touch version now
    (t_with_progress (Progress p_completed v_total v_message) r))) ;;
  tret version.

(** ** [request_cancellation] and [resolve_cancellation] (migration 7) *)

Definition request_cancellation (c : session) (now : Z) (p_id : string)
    (p_expected_version : Z) : sql Z :=
  let* v := select_task c p_id "RHINOQ_TASK_NOT_FOUND" in
  if bool_decide (t_state v = CancelRequested) then tret (t_version v) else
  fail_if (negb (t_version v =? p_expected_version)) "RHINOQ_VERSION_CONFLICT" ;;
  fail_if (negb (bool_decide (t_state v = Queued) || bool_decide (t_state v = Running)))
    "RHINOQ_INVALID_TASK_TRANSITION" ;;
  let* version := tlift (bigint_succ (t_version v)) in
  update_task c p_id (λ r, Ok (t_touch version now
    (t_with_cancellation (Cancellation CRequested (c_reason (t_cancellation r)))
      (t_with_state CancelRequested r)))) ;;
  tret version.

Definition resolve_cancellation (c : session) (now : Z) (p_id : string) (p_expected_version : Z)
    (p_status : string) (p_reason : option string) : sql Z :=
  let* v := select_task c p_id "RHINOQ_TASK_NOT_FOUND" in
  fail_if (negb (t_version v =? p_expected_version)) "RHINOQ_VERSION_CONFLICT" ;;
  match resolvable_status_of p_status with
  | Some status =>
      fail_if (negb (bool_decide (t_state v = CancelRequested))) "RHINOQ_INVALID_CANCELLATION" ;;
      let* version := tlift (bigint_succ (t_version v)) in
      update_task c p_id (λ r, Ok (t_touch version now
        (t_with_cancellation
          (Cancellation status (nullif_empty (btrim (default "" p_reason)))) r))) ;;
      tret version
  | None => fail "RHINOQ_INVALID_CANCELLATION"
  end.

(** ** [attach_task_result] (migration 7) *)

Definition attach_task_result (c : session) (now : Z) (p_id : string) (p_expected_version : Z)
    (p_reference : string) : sql Z :=
  let v_reference := btrim p_reference in
  let* v := select_task c p_id "RHINOQ_TASK_NOT_FOUND" in
  fail_if (bool_decide (v_reference = "")) "RHINOQ_INVALID_RESULT" ;;
  if bool_decide (t_result_ref v = Some v_reference) then tret (t_version v) else
  fail_if (negb (t_version v =? p_expected_version)) "RHINOQ_VERSION_CONFLICT" ;;
  let* version := tlift (bigint_succ (t_version v)) in
  update_task c p_id (λ r, Ok (t_touch version now (t_with_result (Some v_reference) r))) ;;
  tret version.
