(* ===== verification/ExecutionCommands.v ===== *)
(** * Execution commands

    The PL/pgSQL functions of [sdks/node/src/postgres/task-schema.ts] that
    write Execution rows, the statement triggers that maintain the stored
    aggregates of the parent Task, the item-level effect claim and the two
    batch commands (settlement and item progress). *)

From stdpp Require Import base gmap strings list fin_maps sorting.
From Stdlib Require Import Ascii ZArith Lia.
From S2P Require Import Prelude TaskModel.

Open Scope txn_scope.

(** ** The stored aggregates *)

Definition counts_map2 (f : Z → Z → Z) (a b : exec_counts) : exec_counts :=
  ExecCounts (f (n_total a) (n_total b))
    (f (n_pending_dispatch a) (n_pending_dispatch b))
    (f (n_dispatched a) (n_dispatched b)) (f (n_running a) (n_running b))
    (f (n_succeeded a) (n_succeeded b)) (f (n_failed a) (n_failed b))
    (f (n_stalled a) (n_stalled b)) (f (n_cancelled a) (n_cancelled b)).

Definition counts_add : exec_counts → exec_counts → exec_counts := counts_map2 Z.add.
Definition counts_sub : exec_counts → exec_counts → exec_counts := counts_map2 Z.sub.

Definition in_state (s : exec_state) (e : exec_row) : bool := bool_decide (e_state e = s).

(** [count( * ) FILTER (WHERE p)] over the rows of a transition table. *)
Fixpoint rows_count (p : exec_row → bool) (rows : list exec_row) : Z :=
  match rows with
  | [] => 0
  | e :: rows' => b2z (p e) + rows_count p rows'
  end.

(** [SELECT count( * ), count( * ) FILTER (WHERE state = ...), ...] *)
Definition rows_counts (rows : list exec_row) : exec_counts :=
  ExecCounts (rows_count (λ _, true) rows)
    (rows_count (in_state EPendingDispatch) rows) (rows_count (in_state EDispatched) rows)
    (rows_count (in_state ERunning) rows) (rows_count (in_state ESucceeded) rows)
    (rows_count (in_state EFailed) rows) (rows_count (in_state EStalled) rows)
    (rows_count (in_state ECancelled) rows).

Definition of_task (k : string) (e : exec_row) : bool := bool_decide (e_task_id e = k).

(** The groups of [GROUP BY task_id]. *)
Definition group_keys (rows : list exec_row) : list string :=
  remove_dups (e_task_id <$> rows).

Fixpoint tfor {A} (l : list A) (f : A → sql unit) : sql unit :=
  match l with
  | [] => tret tt
  | x :: l' => f x ;; tfor l' f
  end.

(** ** Statement triggers on [executions] (migration 16) *)

Definition execution_counts_inserted (c : session) (now : Z) (inserted : list exec_row) : sql unit :=
  tfor (group_keys inserted) (λ k, update_task c k (λ t, bump_task now
    (t_with_counts (counts_add (t_counts t) (rows_counts (List.filter (of_task k) inserted))) t))).

(** The transition tables [superseded AS before] and [updated AS after] joined
    on the primary key, less the rows whose state did not change. *)
Definition moved_rows (pairs : list (exec_row * exec_row)) : list (exec_row * exec_row) :=
  List.filter (λ ba, negb (bool_decide (e_state ba.1 = e_state ba.2))) pairs.

(** The bucket part of the aggregates; [execution_total] is not assigned. *)
Definition counts_move (c before after : exec_counts) : exec_counts :=
  let moved := counts_add c (counts_sub after before) in
  ExecCounts (n_total c) (n_pending_dispatch moved) (n_dispatched moved) (n_running moved)
    (n_succeeded moved) (n_failed moved) (n_stalled moved) (n_cancelled moved).

Definition execution_counts_updated (c : session) (now : Z)
    (pairs : list (exec_row * exec_row)) : sql unit :=
  let moved := moved_rows pairs in
  tfor (group_keys moved.*2) (λ k,
    let group := List.filter (λ ba, of_task k ba.2) moved in
    update_task c k (λ t, bump_task now
      (t_with_counts (counts_move (t_counts t) (rows_counts group.*1) (rows_counts group.*2)) t))).

Definition execution_counts_deleted (c : session) (now : Z) (removed : list exec_row) : sql unit :=
  tfor (group_keys removed) (λ k, update_task c k (λ t, bump_task now
    (t_with_counts (counts_sub (t_counts t) (rows_counts (List.filter (of_task k) removed))) t))).

(** ** The row trigger it replaced (migration 2) *)

Inductive trigger_op : Type :=
| TgInsert (new : exec_row)
| TgUpdate (old new : exec_row)
| TgDelete (old : exec_row).

Definition tg_old (op : trigger_op) : option exec_state :=
  match op with
  | TgUpdate old _ | TgDelete old => Some (e_state old)
  | TgInsert _ => None
  end.

Definition tg_new (op : trigger_op) : option exec_state :=
  match op with
  | TgInsert new | TgUpdate _ new => Some (e_state new)
  | TgDelete _ => None
  end.

Definition tg_total (op : trigger_op) : Z :=
  match op with TgInsert _ => 1 | TgDelete _ => -1 | TgUpdate _ _ => 0 end.

(** [CASE WHEN v_old = s THEN -1 ELSE 0 END + CASE WHEN v_new = s THEN 1 ELSE 0 END] *)
Definition tg_delta (op : trigger_op) (s : exec_state) : Z :=
  - b2z (bool_decide (tg_old op = Some s)) + b2z (bool_decide (tg_new op = Some s)).

Definition update_execution_counts (op : trigger_op) (c : exec_counts) : exec_counts :=
  if match op with TgUpdate old new => bool_decide (e_state old = e_state new) | _ => false end
  then c
  else ExecCounts (n_total c + tg_total op)
         (n_pending_dispatch c + tg_delta op EPendingDispatch)
         (n_dispatched c + tg_delta op EDispatched)
         (n_running c + tg_delta op ERunning)
         (n_succeeded c + tg_delta op ESucceeded)
         (n_failed c + tg_delta op EFailed)
         (n_stalled c + tg_delta op EStalled)
         (n_cancelled c + tg_delta op ECancelled).

(** ** Statements on [executions] *)

(** [INSERT INTO executions (...)]: [tenant_id] takes its default
    [current_tenant()]; the row-level policy, NOT NULL, the unique constraints
    and the foreign key [(task_id, tenant_id)] are checked in that order, and
    the insert trigger runs. *)
Definition insert_execution (c : session) (now : Z) (mk : string → exec_row) : sql unit :=
  λ d,
    match current_tenant c with
    | None => Err (if exempt c || maintenance_session c then NOT_NULL_VIOLATION else RLS_VIOLATION)
    | Some tenant =>
        let e := mk tenant in
        if bool_decide (is_Some (db_executions d !! e_id e)) || exec_collides d e
        then Err UNIQUE_VIOLATION
        else match db_tasks d !! e_task_id e with
             | Some t =>
                 if bool_decide (t_tenant t = tenant)
                 then execution_counts_inserted c now [e]
                        (Db (db_tasks d) (<[e_id e := e]> (db_executions d)) (db_notes d))
                 else Err FOREIGN_KEY_VIOLATION
             | None => Err FOREIGN_KEY_VIOLATION
             end
    end.

(** [UPDATE executions SET ... WHERE id = k] of the row just read, and the
    update trigger. *)
Definition update_execution (c : session) (now : Z) (before after : exec_row) : sql unit :=
  λ d, execution_counts_updated c now [(before, after)]
         (Db (db_tasks d) (<[e_id before := after]> (db_executions d)) (db_notes d)).

(** [SELECT COALESCE(MAX(attempt), 0) + 1 FROM executions WHERE task_id = .. AND item_key = ..] *)
Definition of_item (k item : string) (e : exec_row) : bool :=
  of_task k e && bool_decide (e_item_key e = item).

Definition next_attempt (c : session) (k item : string) : sql Z :=
  λ d, match integer_succ (map_max (λ e, if of_item k item e then e_attempt e else 0)
                             (visible_executions c d)) with
       | Ok n => Ok (n, d)
       | Err e => Err e
       end.

(** [WHEN unique_violation THEN PERFORM rhinoq_task.fail(code)] *)
Definition on_unique_violation (code : string) (e : sql_error) : sql_error :=
  if bool_decide (e = UNIQUE_VIOLATION) then Raise code else e.

(** ** Version fences on an Execution: [fail_version] (migration 7) *)

Definition fail_version (wrong_scope : bool) : string :=
  if wrong_scope then "RHINOQ_WRONG_VERSION_SCOPE" else "RHINOQ_VERSION_CONFLICT".

Definition fence_execution (c : session) (v : exec_row) (p_expected_version : Z) : sql unit :=
  if e_version v =? p_expected_version then tret tt else
  let* t := find_task c (e_task_id v) in
  fail (fail_version (bool_decide (t_version <$> t = Some p_expected_version))).

(** ** [create_execution] (migration 16) *)

Definition create_execution (c : session) (now : Z) (p_id p_task_id : string)
    (p_item_key : option string) (p_runtime : string) (p_runtime_scope p_external_id : option string)
    : sql Z :=
  let v_item_key := btrim (default "default" p_item_key) in
  fail_if (blank p_id || blank p_runtime || bool_decide (v_item_key = "")) "RHINOQ_INVALID_EXECUTION" ;;
  tcatch (
    let* _ := select_task c p_task_id "RHINOQ_TASK_NOT_FOUND" in
    let* v_attempt := next_attempt c p_task_id v_item_key in
    insert_execution c now (λ tenant,
      ExecRow p_id p_task_id tenant v_item_key v_attempt (btrim p_runtime)
        (btrim (default "" p_runtime_scope))
        (nullif_empty (btrim (default "" p_external_id)))
        EPendingDispatch None None 1 None [] now now) ;;
    tret v_attempt)
  (on_unique_violation "RHINOQ_EXECUTION_ALREADY_EXISTS").

(** ** [bind_execution] (migration 16) *)

Definition bind_execution (c : session) (now : Z) (p_id : string) (p_expected_version : Z)
    (p_runtime : string) (p_runtime_scope : option string) (p_external_id : string) : sql Z :=
  let* v := select_execution c p_id "RHINOQ_EXECUTION_NOT_FOUND" in
  fence_execution c v p_expected_version ;;
  fail_if (negb (bool_decide (e_state v = EPendingDispatch)) ||
           negb (bool_decide (e_runtime v = btrim p_runtime)))
    "RHINOQ_INVALID_EXECUTION_BINDING" ;;
  let scope := btrim (default "" p_runtime_scope) in
  let ext := btrim p_external_id in
  fail_if (match e_external_id v with
           | None => false
           | Some x => negb (bool_decide (x = ext)) || negb (bool_decide (e_runtime_scope v = scope))
           end) "RHINOQ_EXECUTION_ALREADY_BOUND" ;;
  fail_if (bool_decide (ext = "")) "RHINOQ_INVALID_EXECUTION_BINDING" ;;
  let* version := tlift (bigint_succ (e_version v)) in
  let after := e_touch version now
                 (e_with_state EDispatched (e_failure_reason v) (e_with_binding scope (Some ext) v)) in
  let* d := tget in
  traise_if (exec_collides d after) UNIQUE_VIOLATION ;;
  update_execution c now v after ;;
  tret version.

(** [bind_execution] as migration 7 installed it: binding the identity an
    attempt already carries is a no-op once the attempt has moved on. Its
    parent version bump was explicit, after the row trigger of migration 2. *)
Definition bind_execution_v7 (c : session) (now : Z) (p_id : string) (p_expected_version : Z)
    (p_runtime : string) (p_runtime_scope : option string) (p_external_id : string) : sql Z :=
  let* v := select_execution c p_id "RHINOQ_EXECUTION_NOT_FOUND" in
  fence_execution c v p_expected_version ;;
  fail_if (negb (bool_decide (e_runtime v = btrim p_runtime))) "RHINOQ_INVALID_EXECUTION_BINDING" ;;
  let scope := btrim (default "" p_runtime_scope) in
  let ext := btrim p_external_id in
  fail_if (match e_external_id v with
           | None => false
           | Some x => negb (bool_decide (x = ext)) || negb (bool_decide (e_runtime_scope v = scope))
           end) "RHINOQ_EXECUTION_ALREADY_BOUND" ;;
  if negb (bool_decide (e_state v = EPendingDispatch)) then
    if bool_decide (e_external_id v = Some ext) then tret (e_version v)
    else fail "RHINOQ_INVALID_EXECUTION_BINDING"
  else
  fail_if (bool_decide (ext = "")) "RHINOQ_INVALID_EXECUTION_BINDING" ;;
  let* version := tlift (bigint_succ (e_version v)) in
  let after := e_touch version now
                 (e_with_state EDispatched (e_failure_reason v) (e_with_binding scope (Some ext) v)) in
  let* d := tget in
  traise_if (exec_collides d after) UNIQUE_VIOLATION ;;
  tput (Db (db_tasks d) (<[e_id v := after]> (db_executions d)) (db_notes d)) ;;
  update_task c (e_task_id v) (λ t, Ok (t_with_counts
    (update_execution_counts (TgUpdate v after) (t_counts t)) t)) ;;
  update_task c (e_task_id v) (bump_task now) ;;
  tret version.

(** ** [transition_execution] (migration 16) *)

Definition exec_edge (bound : bool) (s t : exec_state) : bool :=
  match s, t with
  | EPendingDispatch, ECancelled => true
  | EPendingDispatch, (ERunning | ESucceeded | EFailed | EStalled) => bound
  | EDispatched, (ERunning | ESucceeded | EFailed | EStalled | ECancelled) => true
  | ERunning, (ESucceeded | EFailed | EStalled | ECancelled) => true
  | EStalled, (EDispatched | EFailed | ECancelled) => true
  | _, _ => false
  end.

(** [left(NULLIF(btrim(COALESCE(p_reason, '')), ''), 512)] *)
Definition failure_reason_of (p_reason : option string) : option string :=
  left_text 512 <$> nullif_empty (btrim (default "" p_reason)).

Definition is_bound (e : exec_row) : bool := bool_decide (is_Some (e_external_id e)).

(** The part after the row was selected; the owner-facing variant shares it. *)
Definition transition_selected (c : session) (now : Z) (v : exec_row) (p_expected_version : Z)
    (p_target : string) (p_reason : option string) (after_write : sql unit) : sql Z :=
  if bool_decide (exec_state_name (e_state v) = p_target) then tret (e_version v) else
  fence_execution c v p_expected_version ;;
  match exec_state_of p_target with
  | Some t =>
      if exec_edge (is_bound v) (e_state v) t then
        let* version := tlift (bigint_succ (e_version v)) in
        let reason := if bool_decide (t = EFailed) then failure_reason_of p_reason
                      else e_failure_reason v in
        update_execution c now v (e_touch version now (e_with_state t reason v)) ;;
        after_write ;;
        tret version
      else fail "RHINOQ_INVALID_EXECUTION_TRANSITION"
  | None => fail "RHINOQ_INVALID_EXECUTION_TRANSITION"
  end.

Definition transition_execution (c : session) (now : Z) (p_id : string) (p_expected_version : Z)
    (p_target : string) (p_reason : option string) : sql Z :=
  let* v := select_execution c p_id "RHINOQ_EXECUTION_NOT_FOUND" in
  transition_selected c now v p_expected_version p_target p_reason (tret tt).

(** ** [transition_execution_for_owner] (migration 13)

    The join restricts the row to the named tenant and owner; the function
    still bumps the parent version itself after its UPDATE. *)
Definition transition_execution_for_owner (c : session) (now : Z) (p_id p_tenant_id p_owner_id : string)
    (p_expected_version : Z) (p_target : string) (p_reason : option string) : sql Z :=
  fail_if (blank p_tenant_id) "RHINOQ_INVALID_TENANT" ;;
  let* v := select_execution c p_id "RHINOQ_EXECUTION_NOT_FOUND" in
  let* t := find_task c (e_task_id v) in
  fail_if (negb (match t with
                 | Some t => bool_decide (t_tenant t = p_tenant_id) &&
                             bool_decide (t_owner t = Some p_owner_id)
                 | None => false
                 end)) "RHINOQ_EXECUTION_NOT_FOUND" ;;
  transition_selected c now v p_expected_version p_target p_reason
    (update_task c (e_task_id v) (bump_task now)).

(** ** [attach_execution_result] (migration 7) *)

Definition attach_execution_result (c : session) (now : Z) (p_id : string) (p_expected_version : Z)
    (p_reference : string) : sql Z :=
  let v_reference := btrim p_reference in
  let* v := select_execution c p_id "RHINOQ_EXECUTION_NOT_FOUND" in
  fail_if (bool_decide (v_reference = "")) "RHINOQ_INVALID_RESULT" ;;
  if bool_decide (e_result_ref v = Some v_reference) then tret (e_version v) else
  fence_execution c v p_expected_version ;;
  let* version := tlift (bigint_succ (e_version v)) in
  update_execution c now v (e_touch version now (e_with_result (Some v_reference) v)) ;;
  update_task c (e_task_id v) (bump_task now) ;;
  tret version.

(** ** [retry_execution] (migration 16) *)

Definition retry_execution (c : session) (now : Z) (p_id : string) (p_expected_version : Z)
    (p_new_id : string) : sql Z :=
  fail_if (blank p_new_id) "RHINOQ_INVALID_EXECUTION" ;;
  tcatch (
    let* v := select_execution c p_id "RHINOQ_EXECUTION_NOT_FOUND" in
    fail_if (negb (live v)) "RHINOQ_EXECUTION_SUPERSEDED" ;;
    fence_execution c v p_expected_version ;;
    fail_if (negb (exec_terminal (e_state v))) "RHINOQ_INVALID_EXECUTION_TRANSITION" ;;
    let* version := tlift (bigint_succ (e_version v)) in
    update_execution c now v (e_touch version now (e_with_superseded (Some now) v)) ;;
    let* v_attempt := next_attempt c (e_task_id v) (e_item_key v) in
    insert_execution c now (λ tenant,
      ExecRow p_new_id (e_task_id v) tenant (e_item_key v) v_attempt (e_runtime v)
        (e_runtime_scope v) (e_external_id v) EDispatched None None 1 None [] now now) ;;
    tret v_attempt)
  (on_unique_violation "RHINOQ_EXECUTION_ALREADY_EXISTS").

(** ** [claim_item_effect] (migration 15) *)

(** [ORDER BY attempt DESC, id DESC LIMIT 1] over the live rows of an item. *)
Definition later_attempt (a b : exec_row) : exec_row :=
  match Z.compare (e_attempt a) (e_attempt b) with
  | Gt => a
  | Lt => b
  | Eq => if String.ltb (e_id a) (e_id b) then b else a
  end.

Fixpoint latest (rows : list exec_row) : option exec_row :=
  match rows with
  | [] => None
  | e :: rows' => Some (match latest rows' with Some o => later_attempt e o | None => e end)
  end.

Definition claimed (k item key : string) (e : exec_row) : bool :=
  of_item k item e && bool_decide (key ∈ e_effect_keys e).

Definition EFFECT_KEYS_MAX : nat := 256.

Definition claim_item_effect (c : session) (now : Z) (p_execution_id p_effect_key : string) : sql bool :=
  let v_effect_key := btrim p_effect_key in
  fail_if (blank p_execution_id || bool_decide (v_effect_key = "") ||
           (256 <? Z.of_nat (String.length v_effect_key))) "RHINOQ_INVALID_ITEM_EFFECT" ;;
  let* e := select_execution c p_execution_id "RHINOQ_EXECUTION_NOT_FOUND" in
  let* _ := select_task c (e_task_id e) "RHINOQ_TASK_NOT_FOUND" in
  let* d := tget in
  let rows := visible_executions c d in
  if map_exists (claimed (e_task_id e) (e_item_key e) v_effect_key) rows then tret false else
  match latest (map_rows (λ r, of_item (e_task_id e) (e_item_key e) r && live r) rows) with
  | None => fail "RHINOQ_EXECUTION_NOT_FOUND"
  | Some v =>
      let* version := tlift (bigint_succ (e_version v)) in
      let after := e_touch version now (e_with_effects (e_effect_keys v ++ [v_effect_key]) v) in
      traise_if (EFFECT_KEYS_MAX <? length (e_effect_keys after))%nat CHECK_VIOLATION ;;
      update_execution c now v after ;;
      tret true
  end.

(** ** [settle_items] and [sync_item_progress] (migration 7) *)

Definition live_of_task (k : string) (e : exec_row) : bool := of_task k e && live e.

Definition settle_items (c : session) (now : Z) (p_id : string) : sql bool :=
  λ d,
    let rows := visible_executions c d in
    match visible_tasks c d !! p_id with
    | None => Ok (false, d)
    | Some t =>
        if bool_decide (t_items_settled_at t = None)
           && map_exists (live_of_task p_id) rows
           && negb (map_exists (λ e, live_of_task p_id e && negb (exec_finished (e_state e))) rows)
        then match update_task c p_id (λ r,
                     Ok (t_touch (t_version r) now (t_with_settled (Some now) r))) d with
             | Ok (_, d') => Ok (true, d')
             | Err e => Err e
             end
        else Ok (false, d)
    end.

Definition sync_item_progress (c : session) (now : Z) (p_id : string) : sql Z :=
  let* v := select_task c p_id "RHINOQ_TASK_NOT_FOUND" in
  if negb (bool_decide (t_state v = Running) || bool_decide (t_state v = CancelRequested))
  then tret (t_version v) else
  let* d := tget in
  let rows := visible_executions c d in
  let v_completed := map_count (λ e, live_of_task p_id e && exec_finished (e_state e)) rows in
  let v_total := map_count (live_of_task p_id) rows in
  let old := t_progress v in
  if (v_total =? 0) || (v_completed <? p_completed old)
     || ((p_completed old =? v_completed) && negb (is_distinct (p_total old) (Some v_total)))
  then tret (t_version v) else
  let* version := tlift (bigint_succ (t_version v)) in
  update_task c p_id (λ r, Ok (t_touch version now
    (t_with_progress (Progress v_completed (Some v_total) (p_message (t_progress r))) r))) ;;
  tret version.
