(* ===== verification/StoreSteps.v ===== *)
(** * The Task store as a transition system

    An abstract description of what one statement may do to the tables: the
    writes allowed on a Task row ([task_write]), on an Execution row
    ([exec_write]), and the store steps built from them ([step]). Every
    command of [TaskCommands] and [ExecutionCommands] is collected in one
    datatype [command] with its interpreter [run_command], and the refinement
    theorem says that a successful command is a finite sequence of steps.
    Safety properties are then proved once, by induction on steps. *)

From stdpp Require Import base gmap strings list fin_maps sorting relations.
From Stdlib Require Import Ascii ZArith Lia.
From S2P Require Import Prelude TaskModel TaskCommands ExecutionCommands.

(** ** Writes on a Task row *)

Definition progress_ok (p : progress) : Prop :=
  0 ≤ p_completed p ∧
  match p_total p with Some n => p_completed p ≤ n | None => True end.

Inductive task_write (now : Z) (t : task_row) : task_row → Prop :=
| tw_transition s :
    task_edge (t_state t) s = true →
    t_version t + 1 ≤ INT8_MAX →
    task_write now t (t_touch (t_version t + 1) now
      (t_with_cancellation (cancellation_after (t_state t) s (t_cancellation t)) (t_with_state s t)))
| tw_progress p :
    progress_open (t_state t) = true →
    progress_ok p →
    p_completed (t_progress t) ≤ p_completed p →
    t_version t + 1 ≤ INT8_MAX →
    task_write now t (t_touch (t_version t + 1) now (t_with_progress p t))
| tw_request :
    t_state t = Queued ∨ t_state t = Running →
    t_version t + 1 ≤ INT8_MAX →
    task_write now t (t_touch (t_version t + 1) now
      (t_with_cancellation (Cancellation CRequested (c_reason (t_cancellation t)))
        (t_with_state CancelRequested t)))
| tw_resolve status reason :
    t_state t = CancelRequested →
    status = CAcknowledged ∨ status = CCannotCancelSafely ∨ status = CFailed →
    t_version t + 1 ≤ INT8_MAX →
    task_write now t (t_touch (t_version t + 1) now
      (t_with_cancellation (Cancellation status reason) t))
| tw_result r :
    r ≠ "" →
    t_version t + 1 ≤ INT8_MAX →
    task_write now t (t_touch (t_version t + 1) now (t_with_result (Some r) t))
| tw_bump :
    t_version t + 1 ≤ INT8_MAX →
    task_write now t (t_touch (t_version t + 1) now t)
| tw_settle :
    t_items_settled_at t = None →
    task_write now t (t_touch (t_version t) now (t_with_settled (Some now) t)).

(** ** Writes on an Execution row *)

(** [CHECK (length(COALESCE(failure_reason, '')) <= 513)] *)
Definition reason_ok (r : option string) : Prop :=
  match r with Some s => (String.length s ≤ 513)%nat | None => True end.

Inductive exec_write (now : Z) (d : db) (e : exec_row) : exec_row → Prop :=
| ew_state s r :
    exec_edge (is_bound e) (e_state e) s = true →
    r = e_failure_reason e ∨ reason_ok r →
    e_version e + 1 ≤ INT8_MAX →
    exec_write now d e (e_touch (e_version e + 1) now (e_with_state s r e))
| ew_bind scope ext :
    e_state e = EPendingDispatch →
    (e_external_id e = None ∨ (e_external_id e = Some ext ∧ e_runtime_scope e = scope)) →
    ext ≠ "" →
    e_version e + 1 ≤ INT8_MAX →
    exec_collides d (e_touch (e_version e + 1) now
      (e_with_state EDispatched (e_failure_reason e) (e_with_binding scope (Some ext) e))) = false →
    exec_write now d e (e_touch (e_version e + 1) now
      (e_with_state EDispatched (e_failure_reason e) (e_with_binding scope (Some ext) e)))
| ew_result r :
    r ≠ "" →
    e_version e + 1 ≤ INT8_MAX →
    exec_write now d e (e_touch (e_version e + 1) now (e_with_result (Some r) e))
| ew_supersede :
    e_superseded_at e = None →
    exec_terminal (e_state e) = true →
    e_version e + 1 ≤ INT8_MAX →
    exec_write now d e (e_touch (e_version e + 1) now (e_with_superseded (Some now) e))
| ew_effect key :
    e_superseded_at e = None →
    (∀ k o, db_executions d !! k = Some o → e_tenant o = e_tenant e →
       claimed (e_task_id e) (e_item_key e) key o = false) →
    (length (e_effect_keys e ++ [key]) ≤ EFFECT_KEYS_MAX)%nat →
    e_version e + 1 ≤ INT8_MAX →
    exec_write now d e (e_touch (e_version e + 1) now (e_with_effects (e_effect_keys e ++ [key]) e)).

(** ** Store steps *)

Definition put_task (d : db) (k : string) (t t' : task_row) : db :=
  Db (<[k := t']> (db_tasks d)) (db_executions d) (db_notes d ++ announce t t').

Definition put_execution (d : db) (e : exec_row) : db :=
  Db (db_tasks d) (<[e_id e := e]> (db_executions d)) (db_notes d).

Definition counted (now : Z) (c : exec_counts) (t : task_row) : task_row :=
  t_touch (t_version t + 1) now (t_with_counts c t).

Inductive step (c : session) (now : Z) (d : db) : db → Prop :=
| st_create t :
    t = new_task now (t_id t) (t_type t) (t_tenant t) (t_owner t) (t_definition_version t) →
    rls_allows c (t_tenant t) = true →
    db_tasks d !! t_id t = None →
    0 < t_definition_version t →
    step c now d (Db (<[t_id t := t]> (db_tasks d)) (db_executions d)
                     (db_notes d ++ [ChangeNote (t_id t) (t_version t) (t_tenant t)]))
| st_task k t t' :
    db_tasks d !! k = Some t →
    rls_allows c (t_tenant t) = true →
    task_write now t t' →
    step c now d (put_task d k t t')
| st_exec k e e' :
    db_executions d !! k = Some e →
    e_id e = k →
    rls_allows c (e_tenant e) = true →
    exec_write now d e e' →
    e_state e = e_state e' →
    step c now d (put_execution d e')
| st_exec_move k e e' t :
    db_executions d !! k = Some e →
    e_id e = k →
    rls_allows c (e_tenant e) = true →
    exec_write now d e e' →
    e_state e ≠ e_state e' →
    db_tasks d !! e_task_id e = Some t →
    rls_allows c (t_tenant t) = true →
    t_version t + 1 ≤ INT8_MAX →
    step c now d (put_task (put_execution d e') (e_task_id e) t
      (counted now (counts_move (t_counts t) (rows_counts [e]) (rows_counts [e'])) t))
| st_exec_insert e t :
    db_executions d !! e_id e = None →
    exec_collides d e = false →
    current_tenant c = Some (e_tenant e) →
    e_attempt e = map_max (λ o, if of_item (e_task_id e) (e_item_key e) o then e_attempt o else 0)
                    (visible_executions c d) + 1 →
    e_attempt e ≤ INT4_MAX →
    e_state e = EPendingDispatch ∨ e_state e = EDispatched →
    e_version e = 1 → e_superseded_at e = None → e_effect_keys e = [] →
    e_failure_reason e = None →
    db_tasks d !! e_task_id e = Some t →
    t_tenant t = e_tenant e →
    t_version t + 1 ≤ INT8_MAX →
    blank (e_id e) = false →
    step c now d (put_task (put_execution d e) (e_task_id e) t
      (counted now (counts_add (t_counts t) (rows_counts [e])) t)).

Definition steps (c : session) (now : Z) : relation db := rtc (step c now).

(** ** Reading the primitive statements *)

Lemma visible_tasks_lookup c d k t :
  visible_tasks c d !! k = Some t ↔ db_tasks d !! k = Some t ∧ rls_allows c (t_tenant t) = true.
Proof. unfold visible_tasks. by rewrite map_lookup_filter_Some. Qed.

Lemma visible_executions_lookup c d k e :
  visible_executions c d !! k = Some e ↔
  db_executions d !! k = Some e ∧ rls_allows c (e_tenant e) = true.
Proof. unfold visible_executions. by rewrite map_lookup_filter_Some. Qed.

Lemma select_task_ok c k code d t d' :
  select_task c k code d = Ok (t, d') ↔
  d' = d ∧ db_tasks d !! k = Some t ∧ rls_allows c (t_tenant t) = true.
Proof.
  unfold select_task. rewrite <-visible_tasks_lookup.
  destruct (visible_tasks c d !! k); naive_solver.
Qed.

Lemma select_execution_ok c k code d e d' :
  select_execution c k code d = Ok (e, d') ↔
  d' = d ∧ db_executions d !! k = Some e ∧ rls_allows c (e_tenant e) = true.
Proof.
  unfold select_execution. rewrite <-visible_executions_lookup.
  destruct (visible_executions c d !! k); naive_solver.
Qed.

Lemma find_task_ok c k d o d' :
  find_task c k d = Ok (o, d') ↔ d' = d ∧ o = visible_tasks c d !! k.
Proof. unfold find_task. naive_solver. Qed.

Lemma update_task_ok c k f d u d' :
  update_task c k f d = Ok (u, d') ↔
  (visible_tasks c d !! k = None ∧ d' = d) ∨
  (∃ t t', db_tasks d !! k = Some t ∧ rls_allows c (t_tenant t) = true ∧
           f t = Ok t' ∧ d' = put_task d k t t').
Proof.
  unfold update_task, put_task. destruct u.
  destruct (visible_tasks c d !! k) as [t|] eqn:E.
  - apply visible_tasks_lookup in E as [E1 E2].
    destruct (f t) eqn:Hf; split.
    + intros [= <-]. right. eauto 10.
    + intros [[? ?]|(t1 & t2 & ? & ? & ? & ->)]; [done|]. by assert (t1 = t) as -> by congruence; congruence.
    + done.
    + intros [[? ?]|(t1 & t2 & ? & ? & ? & ->)]; [done|]. by assert (t1 = t) as -> by congruence; congruence.
  - split; [intros [= <-]; by left|].
    intros [[_ ->]|(t1 & t2 & H1 & H2 & _)]; [done|].
    assert (visible_tasks c d !! k = Some t1) by by apply visible_tasks_lookup.
    congruence.
Qed.

Lemma bump_task_ok now t t' :
  bump_task now t = Ok t' ↔ t' = t_touch (t_version t + 1) now t ∧ t_version t + 1 ≤ INT8_MAX.
Proof.
  unfold bump_task, bigint_succ.
  destruct (int_succ _ _ _) as [v|e] eqn:E.
  - apply int_succ_ok in E as [-> E]. naive_solver.
  - split; [done|]. intros [-> H]. unfold int_succ in E.
    destruct (Z.leb_spec (t_version t + 1) INT8_MAX); [done|lia].
Qed.

Lemma fail_if_ok b code d u d' : fail_if b code d = Ok (u, d') ↔ b = false ∧ d' = d.
Proof. apply traise_if_ok. Qed.

Lemma fail_not_ok {A} code d (r : A * db) : fail code d = Ok r ↔ False.
Proof. unfold fail, traise. naive_solver. Qed.

Lemma fence_execution_ok c v expected d u d' :
  fence_execution c v expected d = Ok (u, d') ↔ e_version v = expected ∧ d' = d.
Proof.
  unfold fence_execution. destruct u.
  destruct (Z.eqb_spec (e_version v) expected) as [H|H].
  - rewrite tret_ok. naive_solver.
  - split; [|naive_solver]. intros H'. apply tbind_ok in H' as (? & ? & _ & H').
    by apply fail_not_ok in H'.
Qed.

(** [cmd_inv H]: read a successful command as facts about the tables. *)
Ltac cmd_inv1 :=
  match goal with
  | H : tbind _ _ _ = Ok _ |- _ =>
      let a := fresh "a" in let s := fresh "s" in
      apply tbind_ok in H as (a & s & ? & ?)
  | H : (if ?b then _ else _) _ = Ok _ |- _ => let E := fresh "Hif" in destruct b eqn:E
  | H : match ?b with Some _ => _ | None => _ end _ = Ok _ |- _ =>
      let E := fresh "Hm" in destruct b eqn:E
  | H : fail_if _ _ _ = Ok _ |- _ => apply fail_if_ok in H as [? ?]
  | H : fail _ _ = Ok _ |- _ => apply fail_not_ok in H as []
  | H : select_task _ _ _ _ = Ok _ |- _ => apply select_task_ok in H as (? & ? & ?)
  | H : select_execution _ _ _ _ = Ok _ |- _ => apply select_execution_ok in H as (? & ? & ?)
  | H : find_task _ _ _ = Ok _ |- _ => apply find_task_ok in H as [? ?]
  | H : fence_execution _ _ _ _ = Ok _ |- _ => apply fence_execution_ok in H as [? ?]
  | H : traise_if _ _ _ = Ok _ |- _ => apply traise_if_ok in H as [? ?]
  | H : tlift _ _ = Ok _ |- _ => apply tlift_ok in H as [? ?]
  | H : tcatch _ _ _ = Ok _ |- _ => apply tcatch_ok in H
  | H : tret _ _ = Ok _ |- _ => apply tret_ok in H as [? ?]
  | H : tget _ = Ok _ |- _ => apply tget_ok in H as [? ?]
  | H : bigint_succ _ = Ok _ |- _ => apply int_succ_ok in H as [? ?]
  | H : integer_succ _ = Ok _ |- _ => apply int_succ_ok in H as [? ?]
  end; subst.
Ltac cmd_inv := repeat (cmd_inv1; cbv zeta in *).

Lemma update_selected c k f d t u d' :
  db_tasks d !! k = Some t →
  rls_allows c (t_tenant t) = true →
  update_task c k f d = Ok (u, d') ↔ ∃ t', f t = Ok t' ∧ d' = put_task d k t t'.
Proof.
  intros Hk Hv. rewrite update_task_ok.
  assert (visible_tasks c d !! k = Some t) as Hvis by by apply visible_tasks_lookup.
  split.
  - intros [[? _]|(t0 & t' & H0 & _ & Hf & ->)]; [congruence|].
    assert (t0 = t) as -> by congruence. eauto.
  - intros (t' & Hf & ->). right. eauto 10.
Qed.

(** ** Task commands are steps *)

Section task_refinement.
Context (c : session) (now : Z).

Ltac finish_update :=
  match goal with
  | Hu : update_task _ _ _ ?d = Ok _, Hk : db_tasks ?d !! _ = Some _ |- _ =>
      eapply update_selected in Hu as (? & ? & ->); [|exact Hk|done]; simplify_eq;
      apply rtc_once; eapply st_task; [exact Hk|done|]
  end.

Lemma transition_task_steps id v target d r d' :
  transition_task c now id v target d = Ok (r, d') → steps c now d d'.
Proof.
  unfold transition_task. intros H. cmd_inv. to_prop. subst. finish_update.
  by apply tw_transition.
Qed.

Lemma report_progress_steps id v completed total has message d r d' :
  report_progress c now id v completed total has message d = Ok (r, d') → steps c now d d'.
Proof.
  unfold report_progress. intros H. cmd_inv; [apply rtc_refl|]. to_prop. subst.
  finish_update. apply tw_progress; try done.
  split; cbn; [lia|]. destruct has; [|done]. cbn in *. to_prop. lia.
Qed.

Lemma request_cancellation_steps id v d r d' :
  request_cancellation c now id v d = Ok (r, d') → steps c now d d'.
Proof.
  unfold request_cancellation. intros H. cmd_inv; [apply rtc_refl|].
  finish_update. apply tw_request; [|done]. to_prop.
  match goal with H : (_ || _)%bool = true |- _ => apply orb_true_iff in H as [?|?] end;
    to_prop; auto.
Qed.

Lemma resolve_cancellation_steps id v status reason d r d' :
  resolve_cancellation c now id v status reason d = Ok (r, d') → steps c now d d'.
Proof.
  unfold resolve_cancellation. intros H. cmd_inv. to_prop. finish_update.
  apply tw_resolve; [done| |done].
  unfold resolvable_status_of in *. repeat case_bool_decide; simplify_eq; auto.
Qed.

Lemma attach_task_result_steps id v reference d r d' :
  attach_task_result c now id v reference d = Ok (r, d') → steps c now d d'.
Proof.
  unfold attach_task_result. intros H. cmd_inv; [apply rtc_refl|]. to_prop. finish_update.
  by apply tw_result.
Qed.

Lemma create_task_steps id type tenant owner version d r d' :
  create_task c now id type tenant owner version d = Ok (r, d') → steps c now d d'.
Proof.
  unfold create_task, insert_task. intros H. cmd_inv.
  all: destruct (rls_allows c _) eqn:Hr; cbn in *; [|discriminate].
  all: match goal with H : (if ?b then _ else _) = Ok _ |- _ => destruct b eqn:Hb; [discriminate|] end.
  all: destruct (db_tasks d !! id) eqn:Hid; simplify_eq; try apply rtc_refl.
  apply rtc_once. cbn in *. to_prop.
  by apply (st_create c now d (new_task now id type tenant owner version)).
Qed.
End task_refinement.

(** ** Referential integrity

    Rows are stored under their primary key and an Execution belongs to the
    tenant of its Task: what the primary keys and the foreign key
    [executions_task_tenant_fkey] guarantee. *)

Record linked (d : db) : Prop := {
  linked_task : ∀ k t, db_tasks d !! k = Some t → t_id t = k;
  linked_exec : ∀ k e, db_executions d !! k = Some e → e_id e = k;
  linked_parent : ∀ k e, db_executions d !! k = Some e →
    ∃ t, db_tasks d !! e_task_id e = Some t ∧ t_tenant t = e_tenant e;
}.

(** The identity columns no write ever assigns. *)
Definition task_identity (t : task_row) : string * string * string * option string * Z * Z :=
  (t_id t, t_type t, t_tenant t, t_owner t, t_definition_version t, t_created_at t).

Definition exec_identity (e : exec_row) : string * string * string * string * Z * string * Z :=
  (e_id e, e_task_id e, e_tenant e, e_item_key e, e_attempt e, e_runtime e, e_created_at e).

Lemma task_write_identity now t t' : task_write now t t' → task_identity t' = task_identity t.
Proof. by destruct 1. Qed.

Lemma exec_write_identity now d e e' : exec_write now d e e' → exec_identity e' = exec_identity e.
Proof. by destruct 1. Qed.

Lemma exec_write_id now d e e' : exec_write now d e e' → e_id e' = e_id e.
Proof. by destruct 1. Qed.

Lemma linked_put_task d k t t' :
  linked d → db_tasks d !! k = Some t → task_identity t' = task_identity t →
  linked (put_task d k t t').
Proof.
  unfold task_identity. intros [Ht He Hp] Hk Hid. simplify_eq. split; cbn.
  - intros k0 t0. rewrite lookup_insert. case_decide; [|by apply Ht].
    intros; simplify_eq. transitivity (t_id t); [done|by apply Ht].
  - exact He.
  - intros k0 e0 Hk0. destruct (Hp k0 e0 Hk0) as (tp & Htp & Hten).
    destruct (decide (e_task_id e0 = k)) as [<-|Hne].
    + exists t'. rewrite lookup_insert_eq. split; [done|]. congruence.
    + exists tp. by rewrite lookup_insert_ne.
Qed.

Lemma linked_put_execution d e t :
  linked d → db_tasks d !! e_task_id e = Some t → t_tenant t = e_tenant e →
  linked (put_execution d e).
Proof.
  intros [Ht He Hp] Hpar Hten. split; cbn.
  - exact Ht.
  - intros k0 e0. rewrite lookup_insert. case_decide; [naive_solver|by apply He].
  - intros k0 e0. rewrite lookup_insert. case_decide; [|by apply Hp].
    intros; simplify_eq. eauto.
Qed.

Lemma linked_rewrite d e e' :
  linked d → db_executions d !! e_id e = Some e → exec_identity e' = exec_identity e →
  linked (put_execution d e').
Proof.
  intros Hl Hk Hid. destruct (linked_parent _ Hl _ _ Hk) as (t & Ht & Hten).
  unfold exec_identity in Hid. simplify_eq.
  apply (linked_put_execution d e' t); [done|congruence|congruence].
Qed.

Lemma counted_identity now c t : task_identity (counted now c t) = task_identity t.
Proof. done. Qed.

Lemma step_linked c now d d' : step c now d d' → linked d → linked d'.
Proof.
  intros Hs Hl. destruct Hs as [t Heq Hv Hk Hd|k t t' Hk Hv Hw|k e e' Hk <- Hv Hw Hs
    |k e e' t Hk <- Hv Hw Hs Ht Htv Hm|e t Hk Hc Hct Ha Ham Hs Hve Hsu Hef Hre Ht Hten Hm].
  - destruct Hl as [Ht He Hp]. split; cbn.
    + intros k0 t0. rewrite lookup_insert. case_decide; [naive_solver|apply Ht].
    + exact He.
    + intros k0 e0 H0. destruct (Hp k0 e0 H0) as (tp & Htp & Hten).
      exists tp. rewrite lookup_insert_ne; [done|congruence].
  - eapply linked_put_task; [done..|]. by eapply task_write_identity.
  - eapply linked_rewrite; [done..|]. by eapply exec_write_identity.
  - eapply linked_put_task; [|done|apply counted_identity].
    eapply linked_rewrite; [done..|]. by eapply exec_write_identity.
  - eapply linked_put_task; [|done|apply counted_identity].
    by eapply linked_put_execution.
Qed.

Lemma steps_linked c now d d' : steps c now d d' → linked d → linked d'.
Proof. induction 1 as [|d d1 d' H1 _ IH]; [done|]. eauto using step_linked. Qed.

(** ** The triggers on one row *)

Lemma bump_counts_ok now n t t' :
  bump_task now (t_with_counts n t) = Ok t' ↔
  t' = counted now n t ∧ t_version t + 1 ≤ INT8_MAX.
Proof. rewrite bump_task_ok. done. Qed.

Lemma tfor_single {A} (x : A) (f : A → sql unit) d u d' :
  tfor [x] f d = Ok (u, d') ↔ f x d = Ok (u, d').
Proof.
  cbn. unfold tbind, tret. destruct u.
  destruct (f x d) as [[[] d1]|e]; naive_solver.
Qed.

Lemma counts_inserted_ok c now e d t u d' :
  db_tasks d !! e_task_id e = Some t →
  rls_allows c (t_tenant t) = true →
  execution_counts_inserted c now [e] d = Ok (u, d') ↔
  t_version t + 1 ≤ INT8_MAX ∧
  d' = put_task d (e_task_id e) t (counted now (counts_add (t_counts t) (rows_counts [e])) t).
Proof.
  intros Ht Hv. unfold execution_counts_inserted.
  change (group_keys [e]) with [e_task_id e]. rewrite tfor_single.
  rewrite update_selected by done. setoid_rewrite bump_counts_ok.
  cbn [List.filter]. unfold of_task. rewrite bool_decide_eq_true_2 by done. naive_solver.
Qed.

Lemma counts_updated_same c now b a d :
  e_state b = e_state a → execution_counts_updated c now [(b, a)] d = Ok (tt, d).
Proof.
  intros Hs. unfold execution_counts_updated, moved_rows. cbn [List.filter fst snd].
  by rewrite bool_decide_eq_true_2.
Qed.

Lemma counts_updated_ok c now b a d t u d' :
  e_state b ≠ e_state a →
  db_tasks d !! e_task_id a = Some t →
  rls_allows c (t_tenant t) = true →
  execution_counts_updated c now [(b, a)] d = Ok (u, d') ↔
  t_version t + 1 ≤ INT8_MAX ∧
  d' = put_task d (e_task_id a) t
         (counted now (counts_move (t_counts t) (rows_counts [b]) (rows_counts [a])) t).
Proof.
  intros Hs Ht Hv. unfold execution_counts_updated, moved_rows.
  cbn [List.filter fst snd]. rewrite bool_decide_eq_false_2 by done. cbv zeta. cbn [negb].
  change (group_keys ([(b, a)].*2)) with [e_task_id a]. rewrite tfor_single.
  rewrite update_selected by done. setoid_rewrite bump_counts_ok.
  cbn [List.filter snd]. unfold of_task. rewrite bool_decide_eq_true_2 by done. naive_solver.
Qed.

(** The triggers never touch [executions]. *)
Lemma update_task_executions c k f d u d' :
  update_task c k f d = Ok (u, d') → db_executions d' = db_executions d.
Proof. intros H. by apply update_task_ok in H as [[_ ->]|(t & t' & _ & _ & _ & ->)]. Qed.

Lemma tfor_executions {A} (l : list A) f d u d' :
  (∀ x d1 u1 d2, f x d1 = Ok (u1, d2) → db_executions d2 = db_executions d1) →
  tfor l f d = Ok (u, d') → db_executions d' = db_executions d.
Proof.
  intros Hf. revert d. induction l as [|x l IH]; intros d; cbn.
  - intros H. by apply tret_ok in H as [_ ->].
  - intros H. apply tbind_ok in H as (u1 & d1 & H1 & H2). rewrite (IH _ H2). by eapply Hf.
Qed.

Lemma update_execution_executions c now e e' d u d' :
  update_execution c now e e' d = Ok (u, d') → db_executions d' = <[e_id e := e']> (db_executions d).
Proof.
  unfold update_execution, execution_counts_updated. intros H.
  apply tfor_executions in H; [done|]. intros. by eapply update_task_executions.
Qed.

(** Rewriting one Execution row, with its trigger, is one step. *)
Lemma update_execution_step c now e e' d u d' :
  linked d →
  db_executions d !! e_id e = Some e →
  rls_allows c (e_tenant e) = true →
  exec_write now d e e' →
  update_execution c now e e' d = Ok (u, d') →
  step c now d d' ∧ db_executions d' = <[e_id e := e']> (db_executions d).
Proof.
  intros Hl Hk Hv Hw. unfold update_execution.
  pose proof (exec_write_identity _ _ _ _ Hw) as Hid. unfold exec_identity in Hid.
  destruct (linked_parent _ Hl _ _ Hk) as (t & Ht & Hten).
  assert (Db (db_tasks d) (<[e_id e := e']> (db_executions d)) (db_notes d) = put_execution d e')
    as -> by (unfold put_execution; f_equal; f_equal; congruence).
  destruct (decide (e_state e = e_state e')) as [Hs|Hs].
  - rewrite counts_updated_same by done. intros [= _ <-]. split.
    + by eapply st_exec.
    + cbn. f_equal. congruence.
  - intros H. apply (counts_updated_ok _ _ _ _ _ t) in H as [Hm ->]; cbn; [|done|congruence|congruence].
    assert (e_task_id e' = e_task_id e) as -> by congruence.
    split; [|f_equal; congruence].
    eapply st_exec_move; [done..| |done]. congruence.
Qed.

Lemma rls_allows_current c tenant : current_tenant c = Some tenant → rls_allows c tenant = true.
Proof. intros H. unfold rls_allows. rewrite (bool_decide_eq_true_2 _ H). by rewrite orb_true_r. Qed.

(** What an INSERT of a fresh attempt may look like. *)
Definition fresh_attempt (c : session) (d : db) (e : exec_row) : Prop :=
  e_attempt e = map_max (λ o, if of_item (e_task_id e) (e_item_key e) o then e_attempt o else 0)
                  (visible_executions c d) + 1 ∧
  e_attempt e ≤ INT4_MAX ∧ (e_state e = EPendingDispatch ∨ e_state e = EDispatched) ∧
  e_version e = 1 ∧ e_superseded_at e = None ∧ e_effect_keys e = [] ∧ e_failure_reason e = None ∧
  blank (e_id e) = false.

Lemma insert_execution_step c now mk d u d' :
  (∀ tenant, e_tenant (mk tenant) = tenant) →
  (∀ tenant, fresh_attempt c d (mk tenant)) →
  insert_execution c now mk d = Ok (u, d') →
  step c now d d' ∧
  ∃ tenant, current_tenant c = Some tenant ∧ db_executions d !! e_id (mk tenant) = None ∧
    db_executions d' = <[e_id (mk tenant) := mk tenant]> (db_executions d).
Proof.
  unfold insert_execution. intros Hmk Hfresh H.
  destruct (current_tenant c) as [tenant|] eqn:Hc; [|discriminate].
  destruct (_ || _)%bool eqn:Hu in H; [discriminate|]. apply orb_false_iff in Hu as [Hpk Hcol].
  apply bool_decide_eq_false_1 in Hpk. apply eq_None_not_Some in Hpk.
  destruct (db_tasks d !! e_task_id (mk tenant)) as [t|] eqn:Ht; [|discriminate].
  case_bool_decide as Hten; [|discriminate].
  apply (counts_inserted_ok _ _ _ _ t) in H as [Hm ->]; cbn; [|done|].
  2:{ apply rls_allows_current. congruence. }
  destruct (Hfresh tenant) as (Ha & Hmax & Hst & Hver & Hsup & Heff & Hrea & Hblank).
  specialize (Hmk tenant). split; [|eauto].
  eapply (st_exec_insert c now d (mk tenant)); rewrite ?Hmk; eauto.
Qed.

Lemma next_attempt_ok c k item d n d' :
  next_attempt c k item d = Ok (n, d') ↔
  d' = d ∧ n ≤ INT4_MAX ∧
  n = map_max (λ e, if of_item k item e then e_attempt e else 0) (visible_executions c d) + 1.
Proof.
  unfold next_attempt, integer_succ.
  destruct (int_succ _ _ _) as [m|e] eqn:E.
  - apply int_succ_ok in E as [-> E]. naive_solver.
  - split; [done|]. intros (-> & H & ->). unfold int_succ in E.
    match type of E with (if ?b then _ else _) = _ => destruct b eqn:Hb; [done|] end.
    to_prop. lia.
Qed.

Lemma failure_reason_ok r : reason_ok (failure_reason_of r).
Proof.
  unfold failure_reason_of, reason_ok. destruct (nullif_empty _) as [s|]; [|done].
  cbn. pose proof (left_text_length 512 s). lia.
Qed.

(** ** Execution commands are steps *)

Section execution_refinement.
Context (c : session) (now : Z).

Lemma create_execution_steps id task item rt scope ext d r d' :
  linked d →
  create_execution c now id task item rt scope ext d = Ok (r, d') → steps c now d d'.
Proof.
  unfold create_execution. intros Hl H. cmd_inv.
  match goal with H : next_attempt _ _ _ _ = Ok _ |- _ => apply next_attempt_ok in H as (-> & ? & ->) end.
  match goal with H : insert_execution _ _ _ _ = Ok _ |- _ =>
    apply insert_execution_step in H as [? _]; [by apply rtc_once|done|] end.
  intros tenant. to_prop. repeat split; auto.
Qed.

Lemma bind_execution_steps id v rt scope ext d r d' :
  linked d →
  bind_execution c now id v rt scope ext d = Ok (r, d') → steps c now d d'.
Proof.
  unfold bind_execution. intros Hl H. cmd_inv. to_prop.
  match goal with H : update_execution _ _ ?e _ _ = Ok _ |- _ =>
    eapply (update_execution_step c now e) in H as [? _] end.
  - by apply rtc_once.
  - done.
  - match goal with H : db_executions _ !! id = Some _ |- _ =>
      pose proof (linked_exec _ Hl _ _ H) as <-; exact H end.
  - done.
  - apply ew_bind; try done. destruct (e_external_id _) as [x|]; [right|by left].
    to_prop. by subst.
Qed.

Lemma transition_selected_steps v expected target reason aw d r d' :
  linked d →
  db_executions d !! e_id v = Some v →
  rls_allows c (e_tenant v) = true →
  (∀ d1 u d2, linked d1 → aw d1 = Ok (u, d2) → steps c now d1 d2) →
  transition_selected c now v expected target reason aw d = Ok (r, d') → steps c now d d'.
Proof.
  unfold transition_selected. intros Hl Hk Hv Haw H. cmd_inv; [apply rtc_refl|].
  match goal with H : update_execution _ _ ?e _ _ = Ok _ |- _ =>
    eapply (update_execution_step c now e) in H as [Hstep _]; [|done..|apply ew_state; [done| |done]] end.
  2:{ case_bool_decide; [right; apply failure_reason_ok|by left]. }
  eapply rtc_l; [exact Hstep|]. eapply Haw; [|done]. by eapply step_linked.
Qed.

Lemma transition_execution_steps id v target reason d r d' :
  linked d →
  transition_execution c now id v target reason d = Ok (r, d') → steps c now d d'.
Proof.
  unfold transition_execution. intros Hl H. cmd_inv.
  match goal with H : transition_selected _ _ _ _ _ _ _ _ = Ok _ |- _ =>
    eapply transition_selected_steps in H; try done end.
  - match goal with H : db_executions _ !! id = Some _ |- _ =>
      pose proof (linked_exec _ Hl _ _ H) as <-; exact H end.
  - intros d1 [] d2 _ [= <-]. apply rtc_refl.
Qed.

Lemma bump_parent_steps k d u d' :
  update_task c k (bump_task now) d = Ok (u, d') → steps c now d d'.
Proof.
  intros H. apply update_task_ok in H as [[_ ->]|(t & t' & Ht & Hv & Hf & ->)]; [apply rtc_refl|].
  apply bump_task_ok in Hf as [-> Hm]. apply rtc_once. eapply st_task; [done..|]. by apply tw_bump.
Qed.

Lemma transition_execution_for_owner_steps id tenant owner v target reason d r d' :
  linked d →
  transition_execution_for_owner c now id tenant owner v target reason d = Ok (r, d') →
  steps c now d d'.
Proof.
  unfold transition_execution_for_owner. intros Hl H. cmd_inv.
  match goal with H : transition_selected _ _ _ _ _ _ _ _ = Ok _ |- _ =>
    eapply transition_selected_steps in H; try done end.
  - match goal with H : db_executions _ !! id = Some _ |- _ =>
      pose proof (linked_exec _ Hl _ _ H) as <-; exact H end.
  - intros d1 u d2 _ Hb. by eapply bump_parent_steps.
Qed.

Lemma attach_execution_result_steps id v reference d r d' :
  linked d →
  attach_execution_result c now id v reference d = Ok (r, d') → steps c now d d'.
Proof.
  unfold attach_execution_result. intros Hl H. cmd_inv; [apply rtc_refl|]. to_prop.
  match goal with H : db_executions _ !! id = Some _ |- _ =>
    pose proof (linked_exec _ Hl _ _ H) as <- end.
  match goal with H : update_execution _ _ ?e _ _ = Ok _ |- _ =>
    eapply (update_execution_step c now e) in H as [Hstep _]; [|done..|by apply ew_result] end.
  eapply rtc_l; [exact Hstep|]. by eapply bump_parent_steps.
Qed.

Lemma retry_execution_steps id v new_id d r d' :
  linked d →
  retry_execution c now id v new_id d = Ok (r, d') → steps c now d d'.
Proof.
  unfold retry_execution, live. intros Hl H. cmd_inv. to_prop.
  match goal with H : db_executions _ !! id = Some _ |- _ =>
    pose proof (linked_exec _ Hl _ _ H) as <- end.
  match goal with H : update_execution _ _ ?e _ _ = Ok _ |- _ =>
    eapply (update_execution_step c now e) in H as [Hstep _]; [|done..|by apply ew_supersede] end.
  match goal with H : next_attempt _ _ _ _ = Ok _ |- _ => apply next_attempt_ok in H as (-> & ? & ->) end.
  eapply rtc_l; [exact Hstep|].
  match goal with H : insert_execution _ _ _ _ = Ok _ |- _ =>
    apply insert_execution_step in H as [? _]; [by apply rtc_once|done|] end.
  intros tenant. to_prop. repeat split; auto.
Qed.

Lemma settle_items_steps id d r d' :
  settle_items c now id d = Ok (r, d') → steps c now d d'.
Proof.
  unfold settle_items. destruct (visible_tasks c d !! id) as [t|] eqn:Ht; [|intros; simplify_eq; apply rtc_refl].
  apply visible_tasks_lookup in Ht as [Ht Hv].
  destruct (_ && _)%bool eqn:Hb; [|intros; simplify_eq; apply rtc_refl].
  destruct (update_task _ _ _ _) as [[u d1]|] eqn:Hu; [|done]. intros [= <- <-].
  eapply update_selected in Hu as (t' & [= <-] & ->); [|done..]. to_prop.
  apply rtc_once. eapply st_task; [done..|]. by apply tw_settle.
Qed.
End execution_refinement.

Lemma latest_elem rows v : latest rows = Some v → v ∈ rows.
Proof.
  revert v. induction rows as [|e rows IH]; intros v; [done|]. cbn.
  destruct (latest rows) as [o|]; intros [= <-]; [|apply list_elem_of_here].
  unfold later_attempt. specialize (IH o eq_refl).
  destruct (Z.compare _ _); [case_match|..]; rewrite elem_of_cons; auto.
Qed.

Lemma of_item_spec k item e :
  of_item k item e = true ↔ e_task_id e = k ∧ e_item_key e = item.
Proof.
  unfold of_item, of_task. rewrite andb_true_iff, !bool_decide_eq_true. done.
Qed.

Lemma b2z_bounds b : 0 ≤ b2z b ≤ 1.
Proof. destruct b; cbn; lia. Qed.

Lemma map_count_nonneg {V} (p : V → bool) m : 0 ≤ map_count p m.
Proof. apply map_sum_nonneg. intros v. apply b2z_bounds. Qed.

Lemma map_count_mono {V} (p q : V → bool) m :
  (∀ v, p v = true → q v = true) → map_count p m ≤ map_count q m.
Proof.
  intros Hpq. apply map_sum_le. intros k v _. specialize (Hpq v).
  destruct (p v), (q v); cbn; naive_solver lia.
Qed.

Section batch_refinement.
Context (c : session) (now : Z).

Lemma claim_item_effect_steps id key d r d' :
  linked d →
  claim_item_effect c now id key d = Ok (r, d') → steps c now d d'.
Proof.
  unfold claim_item_effect. intros Hl H. cmd_inv; [apply rtc_refl|].
  match goal with H : latest _ = Some _ |- _ =>
    apply latest_elem, map_rows_spec in H as [Hof [k Hk]] end.
  apply visible_executions_lookup in Hk as [Hk Hv].
  apply andb_true_iff in Hof as [Hof Hlive]. apply of_item_spec in Hof as [Htask Hitem].
  pose proof (linked_exec _ Hl _ _ Hk) as Hid. subst k.
  match goal with H : update_execution _ _ ?e _ _ = Ok _ |- _ =>
    eapply (update_execution_step c now e) in H as [? _]; [by apply rtc_once|done..|] end.
  unfold live in Hlive. to_prop. apply ew_effect; [done| |by apply Nat.ltb_ge|done].
  intros k o Ho Hten. rewrite Htask, Hitem.
  match goal with H : map_exists _ _ = false |- _ =>
    eapply map_exists_false in H; [exact H|] end.
  apply visible_executions_lookup. split; [exact Ho|]. by rewrite Hten.
Qed.

Lemma sync_item_progress_steps id d r d' :
  sync_item_progress c now id d = Ok (r, d') → steps c now d d'.
Proof.
  unfold sync_item_progress. intros H. cmd_inv; [apply rtc_refl..|]. to_prop.
  match goal with Hu : update_task _ _ _ ?d = Ok _, Hk : db_tasks ?d !! _ = Some _ |- _ =>
    eapply update_selected in Hu as (? & ? & ->); [|exact Hk|done]; simplify_eq;
    apply rtc_once; eapply st_task; [exact Hk|done|] end.
  apply tw_progress; [| |done|done].
  - match goal with H : (_ || _)%bool = true |- _ => apply orb_true_iff in H as [?|?] end;
      to_prop; unfold progress_open; case_match; done.
  - split; cbn; [apply map_count_nonneg|]. apply map_count_mono.
    intros e He. by apply andb_true_iff in He as [? _].
Qed.
End batch_refinement.

(** ** All commands *)

Inductive command : Type :=
| CreateTask (id type tenant : string) (owner : option string) (definition_version : Z)
| TransitionTask (id : string) (expected : Z) (target : string)
| ReportProgress (id : string) (expected completed total : Z) (has_total : bool) (message : option string)
| RequestCancellation (id : string) (expected : Z)
| ResolveCancellation (id : string) (expected : Z) (status : string) (reason : option string)
| AttachTaskResult (id : string) (expected : Z) (reference : string)
| CreateExecution (id task_id : string) (item_key : option string) (runtime : string)
    (runtime_scope external_id : option string)
| BindExecution (id : string) (expected : Z) (runtime : string) (runtime_scope : option string)
    (external_id : string)
| TransitionExecution (id : string) (expected : Z) (target : string) (reason : option string)
| TransitionExecutionForOwner (id tenant owner : string) (expected : Z) (target : string)
    (reason : option string)
| AttachExecutionResult (id : string) (expected : Z) (reference : string)
| RetryExecution (id : string) (expected : Z) (new_id : string)
| ClaimItemEffect (execution_id effect_key : string)
| SettleItems (id : string)
| SyncItemProgress (id : string).

(** What a command returns: a version or attempt number, or a flag. *)
Inductive answer : Type :=
| Number (z : Z)
| Flag (b : bool).

Definition number (m : sql Z) : sql answer := tbind m (λ z, tret (Number z)).
Definition flag (m : sql bool) : sql answer := tbind m (λ b, tret (Flag b)).

Definition run_command (c : session) (now : Z) (cmd : command) : sql answer :=
  match cmd with
  | CreateTask id type tenant owner version => flag (create_task c now id type tenant owner version)
  | TransitionTask id v target => number (transition_task c now id v target)
  | ReportProgress id v completed total has message =>
      number (report_progress c now id v completed total has message)
  | RequestCancellation id v => number (request_cancellation c now id v)
  | ResolveCancellation id v status reason => number (resolve_cancellation c now id v status reason)
  | AttachTaskResult id v reference => number (attach_task_result c now id v reference)
  | CreateExecution id task item rt scope ext => number (create_execution c now id task item rt scope ext)
  | BindExecution id v rt scope ext => number (bind_execution c now id v rt scope ext)
  | TransitionExecution id v target reason => number (transition_execution c now id v target reason)
  | TransitionExecutionForOwner id tenant owner v target reason =>
      number (transition_execution_for_owner c now id tenant owner v target reason)
  | AttachExecutionResult id v reference => number (attach_execution_result c now id v reference)
  | RetryExecution id v new_id => number (retry_execution c now id v new_id)
  | ClaimItemEffect id key => flag (claim_item_effect c now id key)
  | SettleItems id => flag (settle_items c now id)
  | SyncItemProgress id => number (sync_item_progress c now id)
  end.

Lemma number_ok m d a d' : number m d = Ok (a, d') ↔ ∃ z, a = Number z ∧ m d = Ok (z, d').
Proof.
  unfold number. rewrite tbind_ok. split.
  - intros (z & s & Hm & Hr). apply tret_ok in Hr as [-> ->]. eauto.
  - intros (z & -> & Hm). exists z, d'. by rewrite tret_ok.
Qed.

Lemma flag_ok m d a d' : flag m d = Ok (a, d') ↔ ∃ b, a = Flag b ∧ m d = Ok (b, d').
Proof.
  unfold flag. rewrite tbind_ok. split.
  - intros (b & s & Hm & Hr). apply tret_ok in Hr as [-> ->]. eauto.
  - intros (b & -> & Hm). exists b, d'. by rewrite tret_ok.
Qed.

#[export] Hint Resolve create_task_steps transition_task_steps report_progress_steps
  request_cancellation_steps resolve_cancellation_steps attach_task_result_steps
  create_execution_steps bind_execution_steps transition_execution_steps
  transition_execution_for_owner_steps attach_execution_result_steps retry_execution_steps
  claim_item_effect_steps settle_items_steps sync_item_progress_steps : rhinoq.

Lemma run_command_steps c now cmd d a d' :
  linked d → run_command c now cmd d = Ok (a, d') → steps c now d d'.
Proof.
  intros Hl H. destruct cmd; cbn in H;
    (apply number_ok in H as (? & -> & H) || apply flag_ok in H as (? & -> & H));
    eauto with rhinoq.
Qed.

(** ** Histories

    PostgreSQL serializes the commands of all clients on the rows they lock; a
    history is one serialization, each entry with the session that issued it
    and the clock it read. A failed command rolls back and leaves no trace. *)

Record event := Event { ev_session : session; ev_now : Z; ev_command : command }.

Definition run_event (ev : event) (d : db) : option answer * db :=
  match run_command (ev_session ev) (ev_now ev) (ev_command ev) d with
  | Ok (a, d') => (Some a, d')
  | Err _ => (None, d)
  end.

Fixpoint run_history (h : list event) (d : db) : list (option answer) * db :=
  match h with
  | [] => ([], d)
  | ev :: h' =>
      let (a, d1) := run_event ev d in
      let (l, d2) := run_history h' d1 in (a :: l, d2)
  end.

Definition any_step (d d' : db) : Prop := ∃ c now, step c now d d'.

Definition reachable (d : db) : Prop := ∃ h, (run_history h empty_db).2 = d.

Lemma linked_empty : linked empty_db.
Proof. split; intros k x; cbn; by rewrite lookup_empty. Qed.

Lemma steps_any c now d d' : steps c now d d' → rtc any_step d d'.
Proof. apply rtc_subrel. intros x y H. by exists c, now. Qed.

Lemma any_steps_linked d d' : rtc any_step d d' → linked d → linked d'.
Proof. induction 1 as [|x y z [c [now H]] _ IH]; [done|]. eauto using step_linked. Qed.

Lemma run_event_steps ev d : linked d → rtc any_step d (run_event ev d).2.
Proof.
  intros Hl. unfold run_event. destruct (run_command _ _ _ _) as [[a d']|e] eqn:E; [|apply rtc_refl].
  cbn. by eapply steps_any, run_command_steps.
Qed.

Lemma run_history_steps h d : linked d → rtc any_step d (run_history h d).2.
Proof.
  revert d. induction h as [|ev h IH]; intros d Hl; cbn; [apply rtc_refl|].
  pose proof (run_event_steps ev d Hl) as Hev. destruct (run_event ev d) as [a d1]. cbn in Hev.
  assert (linked d1) as Hl1 by eauto using any_steps_linked. specialize (IH d1 Hl1).
  destruct (run_history h d1) as [l d2]. cbn in *. by etrans.
Qed.

(** Induction on steps from the empty store. *)
Lemma reachable_ind (P : db → Prop) :
  P empty_db →
  (∀ c now d d', linked d → P d → step c now d d' → P d') →
  ∀ d, reachable d → P d.
Proof.
  intros H0 HS d [h <-].
  enough (∀ d1 d2, rtc any_step d1 d2 → linked d1 → P d1 → P d2) as Hind
    by (eapply Hind; [apply run_history_steps, linked_empty|apply linked_empty|done]).
  induction 1 as [|x y z [c [now H]] _ IH]; [done|]. intros Hl HP.
  apply IH; eauto using step_linked.
Qed.

Lemma reachable_linked d : reachable d → linked d.
Proof.
  intros [h <-]. eapply any_steps_linked; [apply run_history_steps|]; apply linked_empty.
Qed.

(** ** A concrete history

    One Task of two items: the first item's attempt fails and is retried, an
    effect is claimed, progress is reported and the second item succeeds. *)

Definition demo_session : session := Session (Some "acme") None false.
Definition other_session : session := Session (Some "globex") None false.

Definition demo_events : list event := Event demo_session 7 <$>
  [ CreateTask "t1" "import" "acme" (Some "alice") 1;
    TransitionTask "t1" 1 "queued";
    TransitionTask "t1" 2 "running";
    CreateExecution "e1" "t1" (Some "a") "bullmq" (Some "q") (Some "job-1");
    CreateExecution "e2" "t1" (Some "b") "bullmq" (Some "q") (Some "job-2");
    BindExecution "e1" 1 "bullmq" (Some "q") "job-1";
    TransitionExecution "e1" 2 "running" None;
    ClaimItemEffect "e1" "charge";
    ClaimItemEffect "e1" "charge";
    TransitionExecution "e1" 4 "failed" (Some "boom");
    RetryExecution "e1" 5 "e3";
    TransitionExecution "e3" 1 "succeeded" None;
    TransitionExecution "e2" 1 "succeeded" None;
    SyncItemProgress "t1";
    SettleItems "t1";
    SettleItems "t1" ].

Definition demo_answers : list (option answer) := (run_history demo_events empty_db).1.
Definition demo_db : db := (run_history demo_events empty_db).2.

Lemma demo_reachable : reachable demo_db.
Proof. by exists demo_events. Qed.

(** The same history cut after "e1" started running. *)
Definition mid_db : db := (run_history (take 7 demo_events) empty_db).2.

Lemma mid_reachable : reachable mid_db.
Proof. by exists (take 7 demo_events). Qed.
