(* ===== verification/StoreInvariant.v ===== *)
(** * Invariants of the Task store

    What holds of every store reachable by any interleaving of commands from
    any number of sessions: the row-level constraints, the exactness of the
    stored aggregates, the uniqueness of live attempts and of effect claims,
    and the coherence of the cancellation columns. *)

From stdpp Require Import base gmap strings list fin_maps sorting relations.
From Stdlib Require Import Ascii ZArith Lia.
From S2P Require Import Prelude TaskModel TaskCommands ExecutionCommands StoreSteps.

(** ** Recounting *)

Definition bucket (k : string) (s : exec_state) (e : exec_row) : bool := of_task k e && in_state s e.

(** The aggregates recomputed from the Execution rows of Task [k]. *)
Definition recount (k : string) (m : gmap string exec_row) : exec_counts :=
  ExecCounts (map_count (of_task k) m)
    (map_count (bucket k EPendingDispatch) m) (map_count (bucket k EDispatched) m)
    (map_count (bucket k ERunning) m) (map_count (bucket k ESucceeded) m)
    (map_count (bucket k EFailed) m) (map_count (bucket k EStalled) m)
    (map_count (bucket k ECancelled) m).

Lemma map_count_insert_None {V} (p : V → bool) m i (v : V) :
  m !! i = None → map_count p (<[i:=v]> m) = b2z (p v) + map_count p m.
Proof. intros. unfold map_count. by rewrite map_sum_insert_None. Qed.

Lemma map_count_insert_Some {V} (p : V → bool) m i (v w : V) :
  m !! i = Some w → map_count p (<[i:=v]> m) = map_count p m - b2z (p w) + b2z (p v).
Proof. intros. unfold map_count. by erewrite map_sum_insert_Some. Qed.

Lemma recount_insert k m e :
  m !! e_id e = None →
  recount k (<[e_id e := e]> m) =
  if of_task k e then counts_add (recount k m) (rows_counts [e]) else recount k m.
Proof.
  intros Hn. unfold recount, bucket, counts_add, counts_map2, rows_counts.
  rewrite !map_count_insert_None by done.
  destruct (of_task k e); cbn -[in_state map_count]; f_equal; lia.
Qed.

Lemma recount_update k m e e' :
  m !! e_id e = Some e → e_task_id e' = e_task_id e →
  recount k (<[e_id e := e']> m) =
  if of_task k e then counts_move (recount k m) (rows_counts [e]) (rows_counts [e'])
  else recount k m.
Proof.
  intros Hs Ht. unfold recount, bucket, counts_move, counts_add, counts_sub, counts_map2, rows_counts.
  rewrite !(map_count_insert_Some _ _ _ _ e) by done.
  unfold of_task. rewrite Ht.
  destruct (bool_decide (e_task_id e = k)); cbn -[in_state map_count]; f_equal; lia.
Qed.

Lemma counts_move_same c e e' :
  e_state e = e_state e' → counts_move c (rows_counts [e]) (rows_counts [e']) = c.
Proof.
  intros Hs. unfold counts_move, counts_add, counts_sub, counts_map2, rows_counts, in_state.
  cbn -[b2z]. rewrite Hs.
  destruct c; cbn -[b2z]; f_equal; lia.
Qed.

Lemma counts_exact_step c now d d' :
  step c now d d' → linked d →
  (∀ k e, db_executions d !! k = Some e → is_Some (db_tasks d !! e_task_id e)) →
  (∀ k t, db_tasks d !! k = Some t → t_counts t = recount k (db_executions d)) →
  ∀ k t, db_tasks d' !! k = Some t → t_counts t = recount k (db_executions d').
Proof.
  intros Hs Hl Hfk Hc k0 t0.
  destruct Hs as [t Heq Hv Hk Hd|k t t' Hk Hv Hw|k e e' Hk <- Hv Hw Hs
    |k e e' t Hk <- Hv Hw Hs Ht Htv Hm|e t Hk Hcol Hct Ha Ham Hs Hve Hsu Hef Hre Ht Hten Hm]; cbn.
  - rewrite lookup_insert. case_decide as Hid; [|by apply Hc]. subst k0. intros [= <-].
    rewrite Heq. cbn. unfold recount, no_counts.
    assert (∀ p, (∀ e, p e = true → e_task_id e = t_id t) → map_count p (db_executions d) = 0) as Hz.
    { intros p Hp. apply map_count_zero_iff. intros i e Hi. destruct (p e) eqn:E; [|done].
      destruct (Hfk i e Hi) as [x Hx]. rewrite (Hp e E) in Hx. congruence. }
    unfold bucket, of_task.
    rewrite !Hz; [done|..]; intros e; rewrite ?andb_true_iff, ?bool_decide_eq_true; tauto.
  - rewrite lookup_insert. case_decide as Hid; [|by apply Hc]. subst k0. intros [= <-].
    transitivity (t_counts t); [by destruct Hw|by apply Hc].
  - intros Ht0. rewrite (exec_write_id _ _ _ _ Hw).
    pose proof (exec_write_identity _ _ _ _ Hw) as Hid. unfold exec_identity in Hid.
    rewrite recount_update by (done || congruence).
    rewrite counts_move_same by done. destruct (of_task k0 e); by apply Hc.
  - rewrite (exec_write_id _ _ _ _ Hw).
    pose proof (exec_write_identity _ _ _ _ Hw) as Hid. unfold exec_identity in Hid.
    rewrite recount_update by (done || congruence).
    rewrite lookup_insert. unfold of_task. case_decide as Hk0.
    + subst k0. intros [= <-]. cbn. rewrite bool_decide_eq_true_2 by done. by rewrite (Hc _ _ Ht).
    + intros Ht0. rewrite bool_decide_eq_false_2 by done. by apply Hc.
  - rewrite recount_insert by done.
    rewrite lookup_insert. unfold of_task. case_decide as Hk0.
    + subst k0. intros [= <-]. cbn. rewrite bool_decide_eq_true_2 by done. by rewrite (Hc _ _ Ht).
    + intros Ht0. rewrite bool_decide_eq_false_2 by done. by apply Hc.
Qed.

(** ** Row invariants *)

(** The cancellation column follows the state machine. *)
Definition cancellation_ok (t : task_row) : Prop :=
  match t_state t with
  | Pending | Queued | Running => c_status (t_cancellation t) = CNone
  | CancelRequested =>
      c_status (t_cancellation t) ∈ [CRequested; CAcknowledged; CCannotCancelSafely; CFailed]
  | Cancelled => c_status (t_cancellation t) = CCancelled
  | Uncertain | Succeeded | Failed => True
  end.

Record task_ok (t : task_row) : Prop := {
  tok_version : 1 ≤ t_version t ≤ INT8_MAX;
  tok_definition : 0 < t_definition_version t;
  tok_progress : progress_ok (t_progress t);
  tok_cancellation : cancellation_ok t;
}.

Record exec_ok (e : exec_row) : Prop := {
  eok_version : 1 ≤ e_version e ≤ INT8_MAX;
  eok_attempt : 1 ≤ e_attempt e ≤ INT4_MAX;
  eok_reason : reason_ok (e_failure_reason e);
  eok_effects_nodup : NoDup (e_effect_keys e);
  eok_effects_bound : (length (e_effect_keys e) ≤ EFFECT_KEYS_MAX)%nat;
}.

Lemma cancellation_after_ok now s t :
  task_edge (t_state t) s = true → cancellation_ok t →
  cancellation_ok (t_touch (t_version t + 1) now
    (t_with_cancellation (cancellation_after (t_state t) s (t_cancellation t)) (t_with_state s t))).
Proof.
  unfold cancellation_ok, cancellation_after. cbn.
  destruct (t_state t), s; intros Hedge Hok; try discriminate; cbn in *; try done;
    rewrite ?Hok; cbn; set_solver.
Qed.

Lemma task_write_ok now t t' : task_write now t t' → task_ok t → task_ok t'.
Proof.
  intros Hw [Hv Hd Hp Hc].
  destruct Hw as [s Hedge Hm|p Ho Hpk Hle Hm|Hst Hm|status reason Hst Hstatus Hm|r Hr Hm|Hm|Hset];
    split; cbn in *; try done; try lia.
  - by apply cancellation_after_ok.
  - unfold cancellation_ok in *. cbn. set_solver.
  - unfold cancellation_ok in *. cbn. rewrite Hst. cbn. destruct Hstatus as [->|[->| ->]]; set_solver.
Qed.

Lemma counted_ok now n t : t_version t + 1 ≤ INT8_MAX → task_ok t → task_ok (counted now n t).
Proof. intros Hm [Hv Hd Hp Hc]. split; cbn; try done. lia. Qed.

Lemma exec_write_ok now d e e' :
  exec_write now d e e' → linked d → db_executions d !! e_id e = Some e → exec_ok e → exec_ok e'.
Proof.
  intros Hw Hl Hk [Hv Ha Hr Hn Hb].
  destruct Hw as [s r Hedge Hrea Hm|scope ext Hst Hext Hne Hm Hcol|r Hne Hm|Hsup Ht Hm|key Hsup Hcl Hlen Hm];
    split; cbn; try done; try lia.
  - destruct Hrea as [->|?]; done.
  - apply NoDup_app. split; [done|]. split; [|apply NoDup_singleton].
    intros x Hx Hin. apply list_elem_of_singleton in Hin as ->.
    specialize (Hcl _ _ Hk eq_refl). unfold claimed in Hcl.
    apply andb_false_iff in Hcl as [Hc|Hc]; [|by apply bool_decide_eq_false_1 in Hc].
    assert (of_item (e_task_id e) (e_item_key e) e = true) by by apply of_item_spec. congruence.
Qed.

(** ** Constraints across rows *)

Record rows_ok (d : db) : Prop := {
  ro_attempt : ∀ k1 k2 e1 e2,
    db_executions d !! k1 = Some e1 → db_executions d !! k2 = Some e2 →
    same_attempt e1 e2 = true → k1 = k2;
  ro_live : ∀ k1 k2 e1 e2,
    db_executions d !! k1 = Some e1 → db_executions d !! k2 = Some e2 →
    same_live_ref e1 e2 = true → k1 = k2;
  ro_effect : ∀ k1 k2 e1 e2 key,
    db_executions d !! k1 = Some e1 → db_executions d !! k2 = Some e2 →
    of_item (e_task_id e1) (e_item_key e1) e2 = true →
    key ∈ e_effect_keys e1 → key ∈ e_effect_keys e2 → k1 = k2;
  ro_contiguous : ∀ k e,
    db_executions d !! k = Some e → 1 < e_attempt e →
    ∃ k' e', db_executions d !! k' = Some e' ∧ of_item (e_task_id e) (e_item_key e) e' = true ∧
      e_attempt e' = e_attempt e - 1;
}.

Lemma bool_decide_sym {A} `{EqDecision A} (x y : A) : bool_decide (x = y) = bool_decide (y = x).
Proof. apply bool_decide_ext. done. Qed.

Lemma same_attempt_sym a b : same_attempt a b = same_attempt b a.
Proof.
  unfold same_attempt. by rewrite (Z.eqb_sym (e_attempt a)), (bool_decide_sym (e_task_id a)),
    (bool_decide_sym (e_item_key a)).
Qed.

Lemma same_live_ref_sym a b : same_live_ref a b = same_live_ref b a.
Proof.
  unfold same_live_ref. rewrite (andb_comm (live a)), (bool_decide_sym (e_runtime a)),
    (bool_decide_sym (e_runtime_scope a)).
  f_equal. destruct (e_external_id a), (e_external_id b); try done. apply bool_decide_sym.
Qed.

Lemma same_attempt_identity a a' b :
  exec_identity a = exec_identity a' → same_attempt a b = same_attempt a' b.
Proof. unfold exec_identity, same_attempt. intros [= _ -> _ -> -> _ _]. done. Qed.

Lemma of_item_identity k item a a' :
  exec_identity a = exec_identity a' → of_item k item a = of_item k item a'.
Proof. unfold exec_identity, of_item, of_task. intros [= _ -> _ -> _ _ _]. done. Qed.

Lemma exec_collides_false d e k o :
  exec_collides d e = false → db_executions d !! k = Some o → e_id o ≠ e_id e →
  same_attempt o e = false ∧ same_live_ref o e = false.
Proof.
  intros Hc Hk Hne. eapply map_exists_false in Hc; [|exact Hk]. cbn in Hc.
  rewrite bool_decide_eq_false_2 in Hc by done. cbn in Hc. by apply orb_false_iff in Hc.
Qed.

Lemma exec_write_live_ref now d e e' k o :
  exec_write now d e e' → db_executions d !! k = Some o → e_id o ≠ e_id e →
  same_live_ref e' o = true → same_live_ref e o = true.
Proof.
  intros Hw Hk Hne. destruct Hw as [s r| | | |key]; try done.
  intros Href. rewrite same_live_ref_sym in Href.
  match goal with Hc : exec_collides _ _ = false |- _ =>
    destruct (exec_collides_false _ _ _ _ Hc Hk Hne) as [_ ?]; congruence end.
Qed.

Lemma exec_write_effects now d e e' k o key :
  exec_write now d e e' → linked d →
  db_executions d !! e_id e = Some e → db_executions d !! k = Some o →
  of_item (e_task_id e) (e_item_key e) o = true →
  key ∈ e_effect_keys e' → key ∈ e_effect_keys o → key ∈ e_effect_keys e.
Proof.
  intros Hw Hl He Hk Ho. destruct Hw as [s r| | | |key' Hsup Hcl]; try done. cbn.
  rewrite elem_of_app, list_elem_of_singleton. intros [?| ->] Hin; [done|].
  assert (e_tenant o = e_tenant e) as Hten.
  { destruct (linked_parent _ Hl _ _ He) as (t1 & Ht1 & <-).
    destruct (linked_parent _ Hl _ _ Hk) as (t2 & Ht2 & <-).
    apply of_item_spec in Ho as [Ho _]. congruence. }
  specialize (Hcl k o Hk Hten). unfold claimed in Hcl. rewrite Ho in Hcl.
  by apply bool_decide_eq_false_1 in Hcl.
Qed.

(** A property of pairs of rows survives the rewriting of one row [e] to [e']
    when it does for the pairs that involve the rewritten row. *)
Lemma pairs_rewrite (R : exec_row → exec_row → Prop) d e e' :
  db_executions d !! e_id e = Some e →
  (∀ k1 k2 e1 e2, db_executions d !! k1 = Some e1 → db_executions d !! k2 = Some e2 →
     R e1 e2 → k1 = k2) →
  (∀ k o, db_executions d !! k = Some o → k ≠ e_id e →
     (R e' o → R e o) ∧ (R o e' → R o e)) →
  ∀ k1 k2 e1 e2, <[e_id e := e']> (db_executions d) !! k1 = Some e1 →
    <[e_id e := e']> (db_executions d) !! k2 = Some e2 → R e1 e2 → k1 = k2.
Proof.
  intros He HR Hside k1 k2 e1 e2 H1 H2 H12.
  rewrite lookup_insert in H1, H2.
  destruct (decide (e_id e = k1)) as [<-|N1], (decide (e_id e = k2)) as [<-|N2]; simplify_eq.
  - done.
  - apply (HR _ _ e e2 He H2). by apply (Hside k2).
  - apply (HR _ _ e1 e H1 He). by apply (Hside k1).
  - by apply (HR _ _ e1 e2).
Qed.

Lemma pairs_insert (R : exec_row → exec_row → Prop) d e :
  (∀ k1 k2 e1 e2, db_executions d !! k1 = Some e1 → db_executions d !! k2 = Some e2 →
     R e1 e2 → k1 = k2) →
  (∀ k o, db_executions d !! k = Some o → k ≠ e_id e → ¬ R e o ∧ ¬ R o e) →
  ∀ k1 k2 e1 e2, <[e_id e := e]> (db_executions d) !! k1 = Some e1 →
    <[e_id e := e]> (db_executions d) !! k2 = Some e2 → R e1 e2 → k1 = k2.
Proof.
  intros HR Hside k1 k2 e1 e2 H1 H2 H12.
  rewrite lookup_insert in H1, H2.
  destruct (decide (e_id e = k1)) as [<-|N1], (decide (e_id e = k2)) as [<-|N2]; simplify_eq.
  - done.
  - by destruct (Hside k2 e2) as [[] _].
  - by destruct (Hside k1 e1) as [_ []].
  - by apply (HR _ _ e1 e2).
Qed.

Definition share_effect (a b : exec_row) : Prop :=
  of_item (e_task_id a) (e_item_key a) b = true ∧
  ∃ key, key ∈ e_effect_keys a ∧ key ∈ e_effect_keys b.

Lemma of_item_sym a b :
  of_item (e_task_id a) (e_item_key a) b = true ↔ of_item (e_task_id b) (e_item_key b) a = true.
Proof. rewrite !of_item_spec. naive_solver. Qed.

Lemma share_effect_rewrite now d e e' k o :
  linked d → db_executions d !! e_id e = Some e → exec_write now d e e' →
  db_executions d !! k = Some o →
  (share_effect e' o → share_effect e o) ∧ (share_effect o e' → share_effect o e).
Proof.
  intros Hl He Hw Hk. pose proof (exec_write_identity _ _ _ _ Hw) as Hid.
  assert (∀ x, of_item (e_task_id e') (e_item_key e') x = of_item (e_task_id e) (e_item_key e) x) as Hoi.
  { intros x. unfold exec_identity in Hid. f_equal; congruence. }
  split; intros [Hof (key & H1 & H2)].
  - rewrite Hoi in Hof. split; [done|]. exists key. split; [|done].
    by eapply exec_write_effects.
  - rewrite of_item_sym, Hoi in Hof. split; [by rewrite of_item_sym|]. exists key.
    split; [done|]. by eapply exec_write_effects.
Qed.

Lemma contiguous_rewrite d e e' :
  db_executions d !! e_id e = Some e → exec_identity e' = exec_identity e →
  (∀ k o, db_executions d !! k = Some o → 1 < e_attempt o →
    ∃ k' o', db_executions d !! k' = Some o' ∧ of_item (e_task_id o) (e_item_key o) o' = true ∧
      e_attempt o' = e_attempt o - 1) →
  ∀ k o, <[e_id e := e']> (db_executions d) !! k = Some o → 1 < e_attempt o →
    ∃ k' o', <[e_id e := e']> (db_executions d) !! k' = Some o' ∧
      of_item (e_task_id o) (e_item_key o) o' = true ∧ e_attempt o' = e_attempt o - 1.
Proof.
  intros He Hid Hco k o Hk Hat.
  assert (∃ o0, db_executions d !! k = Some o0 ∧ exec_identity o0 = exec_identity o) as (o0 & Hk0 & Hid0).
  { rewrite lookup_insert in Hk. case_decide as E; [|by eauto].
    subst k. injection Hk as <-. eauto. }
  unfold exec_identity in Hid0. injection Hid0 as _ Ht0 _ Hi0 Ha0 _ _.
  destruct (Hco k o0 Hk0) as (k' & o' & Hk' & Hof & Hat'); [lia|].
  rewrite Ht0, Hi0 in Hof. destruct (decide (k' = e_id e)) as [->|Hne].
  - assert (o' = e) as -> by congruence.
    exists (e_id e), e'. rewrite lookup_insert_eq.
    rewrite (of_item_identity _ _ e' e) by done. repeat split; try done.
    unfold exec_identity in Hid. injection Hid as _ _ _ _ -> _ _. lia.
  - exists k', o'. rewrite lookup_insert_ne by done. repeat split; try done. lia.
Qed.

Lemma rows_ok_rewrite now d e e' :
  linked d → rows_ok d → db_executions d !! e_id e = Some e → exec_write now d e e' →
  rows_ok (put_execution d e').
Proof.
  intros Hl [Ha Hli Hef Hco] He Hw.
  pose proof (exec_write_identity _ _ _ _ Hw) as Hid.
  pose proof (exec_write_id _ _ _ _ Hw) as Heid.
  split; cbn; rewrite Heid.
  - apply (pairs_rewrite (λ a b, same_attempt a b = true)); [done..|]. intros k o Hk Hne.
    rewrite !(same_attempt_sym o), !(same_attempt_identity e' e) by done. done.
  - apply (pairs_rewrite (λ a b, same_live_ref a b = true)); [done..|]. intros k o Hk Hne.
    rewrite !(same_live_ref_sym o). rewrite <-(linked_exec _ Hl _ _ Hk) in Hne.
    split; by eapply exec_write_live_ref.
  - intros k1 k2 e1 e2 key H1 H2 Hof K1 K2. revert k1 k2 e1 e2 H1 H2 Hof K1 K2.
    enough (∀ k1 k2 e1 e2, <[e_id e := e']> (db_executions d) !! k1 = Some e1 →
      <[e_id e := e']> (db_executions d) !! k2 = Some e2 → share_effect e1 e2 → k1 = k2) as Hgoal.
    { intros. eapply Hgoal; [done..|]. split; eauto. }
    apply pairs_rewrite; [done| |].
    + intros k1 k2 e1 e2 H1 H2 [Hof (x & K1 & K2)]. by eapply Hef.
    + intros k o Hk _. by eapply share_effect_rewrite.
  - by apply contiguous_rewrite.
Qed.

Lemma rows_ok_insert c d e :
  linked d → rows_ok d → db_executions d !! e_id e = None → exec_collides d e = false →
  current_tenant c = Some (e_tenant e) →
  e_attempt e = map_max (λ o, if of_item (e_task_id e) (e_item_key e) o then e_attempt o else 0)
                  (visible_executions c d) + 1 →
  e_effect_keys e = [] →
  rows_ok (put_execution d e).
Proof.
  intros Hl [Ha Hli Hef Hco] Hk Hcol Hct Hat Heff.
  assert (∀ k o, db_executions d !! k = Some o → same_attempt o e = false ∧ same_live_ref o e = false) as Hno.
  { intros k o Ho. eapply exec_collides_false; [done..|].
    intros E. pose proof (linked_exec _ Hl _ _ Ho). congruence. }
  split; cbn.
  - apply (pairs_insert (λ a b, same_attempt a b = true)); [done|]. intros k o Ho _.
    rewrite (same_attempt_sym e o). destruct (Hno k o Ho) as [-> _]. done.
  - apply (pairs_insert (λ a b, same_live_ref a b = true)); [done|]. intros k o Ho _.
    rewrite (same_live_ref_sym e o). destruct (Hno k o Ho) as [_ ->]. done.
  - intros k1 k2 e1 e2 key H1 H2 Hof K1 K2. rewrite lookup_insert in H1, H2.
    do 2 case_decide; simplify_eq; try (rewrite Heff in *; set_solver). by eapply Hef.
  - assert (∀ k' o', db_executions d !! k' = Some o' → <[e_id e := e]> (db_executions d) !! k' = Some o') as Hlift.
    { intros k' o' Ho'. rewrite lookup_insert_ne; [done|congruence]. }
    intros k o Ho Hlt. rewrite lookup_insert in Ho. case_decide; simplify_eq.
    + destruct (map_max_attained (λ x, if of_item (e_task_id o) (e_item_key o) x then e_attempt x else 0)
        (visible_executions c d)) as [?|(k' & o' & Ho' & Hmax)]; [lia|].
      apply visible_executions_lookup in Ho' as [Ho' _]. exists k', o'. split; [by apply Hlift|].
      destruct (of_item _ _ o'); [split; [done|lia]|lia].
    + destruct (Hco k o Ho Hlt) as (k' & o' & Ho' & ? & ?). eauto 10.
Qed.

(** ** Well-formed stores *)

Record wf (d : db) : Prop := {
  wf_linked : linked d;
  wf_tasks : ∀ k t, db_tasks d !! k = Some t → task_ok t;
  wf_executions : ∀ k e, db_executions d !! k = Some e → exec_ok e;
  wf_rows : rows_ok d;
}.

Lemma wf_empty : wf empty_db.
Proof.
  split; [apply linked_empty|..|split]; intros *; cbn; rewrite lookup_empty; done.
Qed.

Lemma insert_ok {V} (P : V → Prop) (m : gmap string V) k v :
  P v → (∀ i x, m !! i = Some x → P x) → ∀ i x, <[k := v]> m !! i = Some x → P x.
Proof. intros Hv Hm i x. rewrite lookup_insert. case_decide; naive_solver. Qed.

Lemma rows_ok_tasks d tasks notes : rows_ok d → rows_ok (Db tasks (db_executions d) notes).
Proof. intros [Ha Hli Hef Hco]. by split. Qed.

Lemma step_wf c now d d' : step c now d d' → wf d → wf d'.
Proof.
  intros Hs [Hl Ht He Hr]. pose proof (step_linked _ _ _ _ Hs Hl) as Hl'.
  destruct Hs as [t Heq Hv Hk Hd|k t t' Hk Hv Hw|k e e' Hk <- Hv Hw Hs
    |k e e' t Hk <- Hv Hw Hs Htk Htv Hm|e t Hk Hcol Hct Ha Ham Hs Hve Hsu Hef Hre Htk Hten Hm];
    split; try done; try (by apply rows_ok_tasks); cbn.
  - apply insert_ok; [|done]. rewrite Heq. by repeat split.
  - apply insert_ok; [|done]. eapply task_write_ok; eauto.
  - apply insert_ok; [|done]. eapply exec_write_ok; eauto.
  - by eapply rows_ok_rewrite.
  - apply insert_ok; [|done]. apply counted_ok; eauto.
  - apply insert_ok; [|done]. eapply exec_write_ok; eauto.
  - eapply (rows_ok_tasks (put_execution d e')). by eapply rows_ok_rewrite.
  - apply insert_ok; [|done]. apply counted_ok; eauto.
  - apply insert_ok; [|done]. split; rewrite ?Hve, ?Hre, ?Hef; cbn; try done; try (apply NoDup_nil; done).
    + split; [|done]. rewrite Ha. pose proof (map_max_nonneg
        (λ o, if of_item (e_task_id e) (e_item_key e) o then e_attempt o else 0) (visible_executions c d)). lia.
    + unfold EFFECT_KEYS_MAX. lia.
  - eapply (rows_ok_tasks (put_execution d e)). by eapply rows_ok_insert.
Qed.

Lemma reachable_well_formed d : reachable d → wf d.
Proof.
  revert d. apply reachable_ind; [apply wf_empty|]. intros c now d d' _ Hwf Hs. by eapply step_wf.
Qed.

Lemma reachable_counts d :
  reachable d → ∀ k t, db_tasks d !! k = Some t → t_counts t = recount k (db_executions d).
Proof.
  intros Hd.
  apply (reachable_ind (λ d, ∀ k t, db_tasks d !! k = Some t → t_counts t = recount k (db_executions d)));
    [intros k t; cbn; by rewrite lookup_empty| |done].
  intros c now d1 d2 Hl IH Hs. eapply counts_exact_step; try done.
  intros k e He. destruct (linked_parent _ Hl _ _ He) as (t & Ht & _). eauto.
Qed.

(** C1. Whatever commands any number of sessions issue, in whatever order, every
    Task and Execution row satisfies the profile's constraints: versions and
    attempt numbers stay in range, progress is bounded by its total, the
    cancellation column agrees with the state, failure reasons fit, attempts of
    an item are numbered contiguously and without duplicates, one runtime
    identity has at most one live attempt, and an effect key is claimed by at
    most one attempt of an item. *)
Theorem reachable_wf : ∀ d, reachable d → wf d.
Proof. exact reachable_well_formed. Qed.

(** C2. The stored execution aggregates of a Task always equal a recount of its
    Execution rows, by state and in total. *)
Theorem counts_exact : ∀ d, reachable d → ∀ k t,
  db_tasks d !! k = Some t → t_counts t = recount k (db_executions d).
Proof. exact reachable_counts. Qed.

Lemma reachable_wf_witness : wf demo_db.
Proof. apply reachable_wf, demo_reachable. Defined.

Lemma counts_exact_witness :
  ∃ t, db_tasks demo_db !! "t1" = Some t ∧ n_total (t_counts t) = 3 ∧
       t_counts t = recount "t1" (db_executions demo_db).
Proof.
  eexists. split; [vm_compute; reflexivity|]. split; [reflexivity|].
  apply (counts_exact demo_db demo_reachable). vm_compute. reflexivity.
Defined.
