(* ===== verification/StoreSafety.v ===== *)
(** * Safety of the Task store along every history

    Theorems about what any sequence of commands can and cannot do:
    optimistic concurrency, monotone progress, absorbing success, one change
    notification per version, exactly-once settlement, at-most-once item
    effects and tenant isolation. *)

From stdpp Require Import base gmap strings list fin_maps sorting relations list_numbers.
From Stdlib Require Import Ascii ZArith Lia.
From S2P Require Import Prelude TaskModel TaskCommands ExecutionCommands StoreSteps StoreInvariant.

(** ** Rows never disappear *)

(** A relation on Task rows that every write respects relates each row with
    its later version. *)
Section task_history.
Context (R : task_row → task_row → Prop) `{!Reflexive R} `{!Transitive R}.
Context (R_write : ∀ now t t', task_write now t t' → R t t').
Context (R_counted : ∀ now n t, t_version t + 1 ≤ INT8_MAX → R t (counted now n t)).

Lemma step_task_rel c now d d' k t :
  step c now d d' → db_tasks d !! k = Some t → ∃ t', db_tasks d' !! k = Some t' ∧ R t t'.
Proof.
  intros Hs Hk.
  assert (∀ k0 (t0 : task_row), (k0 = k → R t t0) →
    ∃ t', <[k0 := t0]> (db_tasks d) !! k = Some t' ∧ R t t') as Hput.
  { intros k0 t0 H0. rewrite lookup_insert. case_decide; eauto. }
  destruct Hs as [t0 Heq Hv Hk0 Hd|k0 t0 t' Hk0 Hv Hw|k0 e e' Hk0 <- Hv Hw Hs
    |k0 e e' t0 Hk0 <- Hv Hw Hs Ht Htv Hm|e t0 Hk0 Hcol Hct Ha Ham Hs Hve Hsu Hef Hre Ht Hten Hm]; cbn.
  - apply Hput. congruence.
  - apply Hput. intros ->. simplify_eq. by eapply R_write.
  - eauto.
  - apply Hput. intros <-. simplify_eq. by apply R_counted.
  - apply Hput. intros <-. simplify_eq. by apply R_counted.
Qed.

Lemma history_task_rel d d' k t :
  rtc any_step d d' → db_tasks d !! k = Some t → ∃ t', db_tasks d' !! k = Some t' ∧ R t t'.
Proof.
  intros Hd. revert t. induction Hd as [d|d d1 d' [c [now H1]] _ IH]; intros t Ht; [eauto|].
  destruct (step_task_rel _ _ _ _ _ _ H1 Ht) as (t1 & Ht1 & R1).
  destruct (IH t1 Ht1) as (t' & Ht' & R2). exists t'. split; [done|]. by etrans.
Qed.
End task_history.

Section exec_history.
Context (R : exec_row → exec_row → Prop) `{!Reflexive R} `{!Transitive R}.
Context (R_write : ∀ now d e e', exec_write now d e e' → R e e').

Lemma step_exec_rel c now d d' k e :
  linked d → step c now d d' → db_executions d !! k = Some e →
  ∃ e', db_executions d' !! k = Some e' ∧ R e e'.
Proof.
  intros Hl Hs Hk.
  destruct Hs as [t0 Heq Hv Hk0 Hd|k0 t0 t' Hk0 Hv Hw|k0 e0 e' Hk0 <- Hv Hw Hs
    |k0 e0 e' t0 Hk0 <- Hv Hw Hs Ht Htv Hm|e0 t0 Hk0 Hcol Hct Ha Ham Hs Hve Hsu Hef Hre Ht Hten Hm]; cbn;
    try (by eauto); rewrite lookup_insert; case_decide as E; try (by eauto).
  - exists e'. split; [done|]. rewrite (exec_write_id _ _ _ _ Hw) in E. simplify_eq.
    by eapply R_write.
  - exists e'. split; [done|]. rewrite (exec_write_id _ _ _ _ Hw) in E. simplify_eq.
    by eapply R_write.
  - congruence.
Qed.

Lemma history_exec_rel d d' k e :
  linked d → rtc any_step d d' → db_executions d !! k = Some e →
  ∃ e', db_executions d' !! k = Some e' ∧ R e e'.
Proof.
  intros Hl Hd. revert Hl e. induction Hd as [d|d d1 d' [c [now H1]] _ IH]; intros Hl e He; [eauto|].
  destruct (step_exec_rel _ _ _ _ _ _ Hl H1 He) as (e1 & He1 & R1).
  destruct (IH (step_linked _ _ _ _ H1 Hl) e1 He1) as (e' & He' & R2).
  exists e'. split; [done|]. by etrans.
Qed.
End exec_history.

(** ** Versions as optimistic-concurrency tokens *)

(** The one write that keeps the version: the marker of [settle_items] and, with it,
    [updated_at]. *)
Definition settlement (now : Z) (t : task_row) : task_row := t_touch (t_version t) now (t_with_settled (Some now) t).

(** The state of Execution [i], if it is one of Task [k]. *)
Definition attempt_view (k : string) (d : db) (i : string) : option exec_state :=
  db_executions d !! i ≫= λ e, if of_task k e then Some (e_state e) else None.

(** What equal versions of Task [k] mean in an earlier and a later store. *)
Definition version_token (k : string) (d d' : db) (t t' : task_row) : Prop :=
  t_version t ≤ t_version t' ∧
  (t_version t = t_version t' →
    (t' = t ∨ ∃ now, t_items_settled_at t = None ∧ t' = settlement now t) ∧
    ∀ i, attempt_view k d' i = attempt_view k d i).

Lemma write_version_token now k d t t' : task_write now t t' → version_token k d (put_task d k t t') t t'.
Proof. destruct 1; split; cbn; try lia. intros _. split; [right; by exists now|done]. Qed.

Lemma moved_version_token now k d d' n t : version_token k d d' t (counted now n t).
Proof. split; cbn; lia. Qed.

(** A write that leaves the states of the attempts of [k] alone. *)
Lemma version_token_same k d d' t : (∀ i, attempt_view k d' i = attempt_view k d i) → version_token k d d' t t.
Proof. intros H. split; [lia|]. intros _. split; [by left|exact H]. Qed.

Lemma put_attempt_state k d e i :
  attempt_view k (put_execution d e) i = if decide (e_id e = i) then if of_task k e then Some (e_state e) else None else attempt_view k d i.
Proof. unfold attempt_view, put_execution. cbn. rewrite lookup_insert. by case_decide. Qed.

Lemma written_attempt_state now k d e e' i :
  db_executions d !! e_id e = Some e → exec_write now d e e' → e_state e = e_state e' ∨ e_task_id e ≠ k →
  attempt_view k (put_execution d e') i = attempt_view k d i.
Proof.
  intros He Hw Hs. pose proof (exec_write_identity _ _ _ _ Hw) as Hid. unfold exec_identity in Hid. simplify_eq.
  rewrite put_attempt_state. case_decide as Hi; [|done]. unfold attempt_view. rewrite <-Hi. replace (e_id e') with (e_id e) by congruence. rewrite He. cbn.
  unfold of_task. replace (e_task_id e') with (e_task_id e) by congruence. case_bool_decide; [|done]. destruct Hs as [->|?]; done.
Qed.

Lemma version_token_trans k d1 d2 d3 t1 t2 t3 : version_token k d1 d2 t1 t2 → version_token k d2 d3 t2 t3 → version_token k d1 d3 t1 t3.
Proof.
  intros [L12 O12] [L23 O23]. split; [lia|]. intros E. destruct (O12 ltac:(lia)) as [H12 A12]. destruct (O23 ltac:(lia)) as [H23 A23].
  split; [|intros i; by rewrite A23]. destruct H12 as [->|(now & Hn & ->)]; [done|].
  destruct H23 as [->|(now' & Hn' & _)]; [right; by exists now|done].
Qed.

Lemma step_version_token c now d d' k t :
  step c now d d' → db_tasks d !! k = Some t → ∃ t', db_tasks d' !! k = Some t' ∧ version_token k d d' t t'.
Proof.
  intros Hs Hk.
  destruct Hs as [t0 Heq Hv Hk0 Hd|k0 t0 t' Hk0 Hv Hw|k0 e e' Hk0 <- Hv Hw Hs
    |k0 e e' t0 Hk0 <- Hv Hw Hs Ht Htv Hm|e t0 Hk0 Hcol Hct Ha Ham Hs Hve Hsu Hef Hre Ht Hten Hm]; cbn.
  - exists t. rewrite lookup_insert_ne by congruence. split; [done|]. by apply version_token_same.
  - rewrite lookup_insert. case_decide as E; [subst k0; simplify_eq; exists t'; split; [done|by eapply write_version_token]|].
    exists t. split; [done|]. by apply version_token_same.
  - exists t. split; [done|]. apply version_token_same. intros i. eapply written_attempt_state; eauto.
  - rewrite lookup_insert. case_decide as E; [subst k; simplify_eq; eexists; split; [done|apply moved_version_token]|].
    exists t. split; [done|]. apply version_token_same. intros i. by eapply written_attempt_state; eauto.
  - rewrite lookup_insert. case_decide as E; [subst k; simplify_eq; eexists; split; [done|apply moved_version_token]|].
    exists t. split; [done|]. apply version_token_same. intros i. change (attempt_view k (put_execution d e) i = attempt_view k d i).
    rewrite put_attempt_state. case_decide as Hi; [|done]. unfold of_task. rewrite bool_decide_eq_false_2 by done. unfold attempt_view. by rewrite <-Hi, Hk0.
Qed.

Lemma history_version_token h d k t :
  linked d → db_tasks d !! k = Some t →
  ∃ t', db_tasks (run_history h d).2 !! k = Some t' ∧ version_token k d (run_history h d).2 t t'.
Proof.
  intros Hl. pose proof (run_history_steps h d Hl) as Hd. generalize dependent (run_history h d).2. clear Hl.
  intros d' Hd. revert t. induction Hd as [d|d d1 d' [c [now H1]] _ IH]; intros t Ht; [exists t; split; [done|by apply version_token_same]|].
  destruct (step_version_token _ _ _ _ _ _ H1 Ht) as (t1 & Ht1 & V1). destruct (IH t1 Ht1) as (t' & Ht' & V2).
  exists t'. split; [done|]. by eapply version_token_trans.
Qed.

(** C3. A Task's entity version never decreases, and two stores of one history in which it
    is equal hold the same Task row - every column - and the same states of all its
    Executions; the one exception is the settlement of its items, which happens at most
    once and writes its marker and [updated_at] under the version it finds. *)
Theorem version_identifies_task : ∀ h d k t,
  linked d → db_tasks d !! k = Some t →
  ∃ t', db_tasks (run_history h d).2 !! k = Some t' ∧
        t_version t ≤ t_version t' ∧
        (t_version t = t_version t' →
          (t' = t ∨ ∃ now, t_items_settled_at t = None ∧ t' = t_touch (t_version t) now (t_with_settled (Some now) t)) ∧
          ∀ i, attempt_view k (run_history h d).2 i = attempt_view k d i).
Proof.
  intros h d k t Hl Hk. by apply history_version_token.
Qed.

(** The same history before the settlement. *)
Definition unsettled_db : db := (run_history (take 14 demo_events) empty_db).2.

Lemma unsettled_reachable : reachable unsettled_db.
Proof. by exists (take 14 demo_events). Qed.

(** The settlement: one version, and two values of the [updated_at] a snapshot shows. *)
Lemma version_identifies_task_witness :
  ∃ t t', db_tasks unsettled_db !! "t1" = Some t ∧
    db_tasks (run_history [Event demo_session 99 (SettleItems "t1")] unsettled_db).2 !! "t1" = Some t' ∧
    t_version t' = t_version t ∧ t_updated_at t = 7 ∧ t_updated_at t' = 99 ∧ t_state t' = t_state t ∧
    attempt_view "t1" (run_history [Event demo_session 99 (SettleItems "t1")] unsettled_db).2 "e3" = attempt_view "t1" unsettled_db "e3".
Proof.
  destruct (db_tasks unsettled_db !! "t1") as [t|] eqn:Ht; [|by vm_compute in Ht].
  destruct (version_identifies_task [Event demo_session 99 (SettleItems "t1")] unsettled_db "t1" t)
    as (t' & Ht' & _ & Hobs); [apply reachable_linked, unsettled_reachable|exact Ht|].
  assert (t_version t = t_version t') as Hv.
  { vm_compute in Ht, Ht'. injection Ht as <-. injection Ht' as <-. reflexivity. }
  destruct (Hobs Hv) as [_ Ha]. exists t, t'. split; [reflexivity|]. split; [exact Ht'|]. split; [by symmetry|].
  assert (t_updated_at t = 7 ∧ t_updated_at t' = 99 ∧ t_state t' = t_state t) as (H1 & H2 & H3).
  { clear Ha Hobs. vm_compute in Ht, Ht'. injection Ht as <-. injection Ht' as <-. repeat split. }
  split; [exact H1|]. split; [exact H2|]. split; [exact H3|]. exact (Ha "e3").
Defined.

Lemma transition_task_conflict c now k v target d t :
  db_tasks d !! k = Some t → rls_allows c (t_tenant t) = true → t_version t ≠ v →
  transition_task c now k v target d = Err (Raise "RHINOQ_VERSION_CONFLICT").
Proof.
  intros Hk Hv Hne. unfold transition_task, tbind.
  assert (visible_tasks c d !! k = Some t) as Hvis by by apply visible_tasks_lookup.
  unfold select_task. rewrite Hvis. unfold fail_if, traise_if.
  by rewrite (proj2 (Z.eqb_neq _ _) Hne).
Qed.

Lemma transition_task_ok c now k v target d r d' :
  transition_task c now k v target d = Ok (r, d') →
  ∃ t s, db_tasks d !! k = Some t ∧ rls_allows c (t_tenant t) = true ∧ t_version t = v ∧
    task_state_of target = Some s ∧ task_edge (t_state t) s = true ∧ r = v + 1 ∧
    d' = put_task d k t (t_touch (v + 1) now
      (t_with_cancellation (cancellation_after (t_state t) s (t_cancellation t)) (t_with_state s t))).
Proof.
  unfold transition_task. intros H. cmd_inv. to_prop. subst.
  match goal with Hu : update_task _ _ _ _ = Ok _, Hk : db_tasks _ !! _ = Some _ |- _ =>
    eapply update_selected in Hu as (? & ? & ->); [|exact Hk|done]; simplify_eq end.
  eauto 15.
Qed.

(** C4. No lost update: once a transition fenced on version [v] has committed, no
    transition fenced on the same version succeeds in any later store; a
    session that can see the Task gets RHINOQ_VERSION_CONFLICT. *)
Theorem transition_fence_exclusive : ∀ c now k v target d r d1 h c2 now2 target2 t2,
  linked d →
  transition_task c now k v target d = Ok (r, d1) →
  db_tasks (run_history h d1).2 !! k = Some t2 → rls_allows c2 (t_tenant t2) = true →
  transition_task c2 now2 k v target2 (run_history h d1).2 = Err (Raise "RHINOQ_VERSION_CONFLICT").
Proof.
  intros c now k v target d r d1 h c2 now2 target2 t2 Hl H Hk2 Hv2.
  assert (linked d1) as Hl1.
  { eapply any_steps_linked, Hl. by eapply steps_any, transition_task_steps. }
  apply transition_task_ok in H as (t & s & Hk & _ & Hv & _ & _ & _ & ->).
  eapply (history_version_token h) in Hl1 as (t2' & Hk2' & Hle & _); [|apply lookup_insert_eq].
  cbn in Hle. apply (transition_task_conflict _ _ _ _ _ _ t2); [done..|]. simplify_eq. lia.
Qed.

(** Two workers complete the same running Task at version 12. *)
Lemma transition_fence_exclusive_witness :
  ∃ d1, transition_task demo_session 8 "t1" 12 "succeeded" demo_db = Ok (13, d1) ∧
    transition_task demo_session 9 "t1" 12 "failed" d1 = Err (Raise "RHINOQ_VERSION_CONFLICT").
Proof.
  destruct (transition_task demo_session 8 "t1" 12 "succeeded" demo_db) as [[r d1]|] eqn:E;
    [|by vm_compute in E].
  assert (r = 13) as -> by (vm_compute in E; congruence).
  exists d1. split; [done|].
  assert (∃ t2, db_tasks d1 !! "t1" = Some t2 ∧ t_tenant t2 = "acme") as (t2 & Ht2 & Hten).
  { vm_compute in E. injection E as <-. eexists. split; vm_compute; reflexivity. }
  apply (transition_fence_exclusive demo_session 8 "t1" 12 "succeeded" demo_db 13 d1 []
    demo_session 9 "failed" t2); [apply reachable_linked, demo_reachable|done|done|].
  rewrite Hten. reflexivity.
Defined.

(** ** Monotone progress and absorbing success *)

Definition advances (t t' : task_row) : Prop :=
  p_completed (t_progress t) ≤ p_completed (t_progress t') ∧
  (t_state t = Succeeded → t_state t' = Succeeded) ∧
  (is_Some (t_items_settled_at t) → t_items_settled_at t' = t_items_settled_at t).

#[export] Instance advances_refl : Reflexive advances.
Proof. intros t. by repeat split. Qed.
#[export] Instance advances_trans : Transitive advances.
Proof.
  intros t1 t2 t3 (P12 & S12 & I12) (P23 & S23 & I23). split; [lia|]. split; [auto|].
  intros Hs. rewrite I23; [by auto|]. by rewrite I12.
Qed.

Lemma write_advances now t t' : task_write now t t' → advances t t'.
Proof.
  destruct 1 as [s Hedge| | Hst | | | |Hset]; (split; [cbn; lia|]); split; cbn; try done.
  - intros E. rewrite E in Hedge. by destruct s.
  - intros E. destruct Hst; congruence.
  - rewrite Hset. by intros [? ?].
Qed.

Lemma counted_advances now n t : advances t (counted now n t).
Proof. split; [done|]. by split. Qed.

Lemma history_advances h d k t :
  linked d → db_tasks d !! k = Some t →
  ∃ t', db_tasks (run_history h d).2 !! k = Some t' ∧ advances t t'.
Proof.
  intros Hl Hk. apply (history_task_rel advances write_advances
    (λ now n t _, counted_advances now n t) d); [by apply run_history_steps|done].
Qed.

(** Along every history, completed progress never decreases and a Task that
    succeeded stays succeeded: no redelivered event, late failure or
    cancellation can take the result back. *)
Theorem progress_and_success_monotone : ∀ h d k t,
  linked d → db_tasks d !! k = Some t →
  ∃ t', db_tasks (run_history h d).2 !! k = Some t' ∧
        p_completed (t_progress t) ≤ p_completed (t_progress t') ∧
        (t_state t = Succeeded → t_state t' = Succeeded).
Proof.
  intros h d k t Hl Hk. destruct (history_advances h d k t) as (t' & ? & ? & ? & _); eauto.
Qed.

Lemma progress_and_success_monotone_witness :
  let late := Event demo_session 9 <$> [TransitionTask "t1" 12 "succeeded";
                TransitionTask "t1" 13 "failed"; TransitionTask "t1" 13 "cancelled"] in
  ∃ t', db_tasks (run_history late demo_db).2 !! "t1" = Some t' ∧ t_state t' = Succeeded ∧
        2 ≤ p_completed (t_progress t').
Proof.
  intros late. destruct (db_tasks demo_db !! "t1") as [t|] eqn:Ht; [|by vm_compute in Ht].
  destruct (progress_and_success_monotone late demo_db "t1" t) as (t' & Ht' & Hp & _);
    [apply reachable_linked, demo_reachable|done|].
  exists t'. vm_compute in Ht, Ht'. injection Ht as <-. injection Ht' as <-.
  split; [reflexivity|]. split; [reflexivity|exact Hp].
Defined.

(** ** Counting what happened in a history *)

Definition observation : Type := db → event → option answer → bool.

Fixpoint occurrences (p : observation) (h : list event) (d : db) : Z :=
  match h with
  | [] => 0
  | ev :: h' => let (a, d1) := run_event ev d in b2z (p d ev a) + occurrences p h' d1
  end.

(** An event that needs [~ Q] and establishes the persistent [Q] happens at
    most once. *)
Section at_most_once.
Context (p : observation) (Q : db → Prop).
Context (Q_stays : ∀ ev d, linked d → Q d → Q (run_event ev d).2).
Context (Q_made : ∀ ev d, linked d → p d ev (run_event ev d).1 = true →
  ¬ Q d ∧ Q (run_event ev d).2).

Lemma occurrences_after h d : linked d → Q d → occurrences p h d = 0.
Proof.
  revert d. induction h as [|ev h IH]; intros d Hl HQ; [done|]. cbn.
  pose proof (Q_stays ev d Hl HQ) as HQ'. pose proof (Q_made ev d Hl) as Hp.
  pose proof (any_steps_linked _ _ (run_event_steps ev d Hl) Hl) as Hl'.
  destruct (run_event ev d) as [a d1]. cbn in *. rewrite IH by done.
  destruct (p d ev a); [|done]. by destruct Hp.
Qed.

Lemma occurrences_at_most_once h d : linked d → occurrences p h d ≤ 1.
Proof.
  revert d. induction h as [|ev h IH]; intros d Hl; cbn; [lia|].
  pose proof (Q_made ev d Hl) as Hp.
  pose proof (any_steps_linked _ _ (run_event_steps ev d Hl) Hl) as Hl'.
  destruct (run_event ev d) as [a d1]. cbn in *.
  destruct (p d ev a).
  - destruct Hp as [_ HQ]; [done|]. rewrite occurrences_after by done. cbn. lia.
  - cbn. by apply IH.
Qed.
End at_most_once.

Lemma run_history_single ev d : (run_history [ev] d).2 = (run_event ev d).2.
Proof. cbn. by destruct (run_event ev d). Qed.

(** ** Exactly-once settlement *)

(** A [settle_items] call on Task [k] that answered true. *)
Definition settles (k : string) : observation := λ _ ev a,
  match ev_command ev, a with
  | SettleItems id, Some (Flag true) => bool_decide (id = k)
  | _, _ => false
  end.

Definition is_settled (k : string) (d : db) : Prop :=
  ∃ t, db_tasks d !! k = Some t ∧ is_Some (t_items_settled_at t).

Lemma settle_items_true c now k d d' :
  settle_items c now k d = Ok (true, d') →
  ∃ t, db_tasks d !! k = Some t ∧ rls_allows c (t_tenant t) = true ∧ t_items_settled_at t = None ∧
    d' = put_task d k t (t_touch (t_version t) now (t_with_settled (Some now) t)) ∧
    (∃ i e, visible_executions c d !! i = Some e ∧ live_of_task k e = true) ∧
    (∀ i e, visible_executions c d !! i = Some e → live_of_task k e = true →
       exec_finished (e_state e) = true).
Proof.
  unfold settle_items. destruct (visible_tasks c d !! k) as [t|] eqn:Ht; [|done].
  apply visible_tasks_lookup in Ht as [Ht Hv].
  destruct (_ && _)%bool eqn:Hb; [|done]. to_prop.
  destruct (update_task _ _ _ _) as [[u d1]|] eqn:Hu; [|done]. intros [= <-].
  eapply update_selected in Hu as (t' & [= <-] & ->); [|done..].
  exists t. repeat split; try done.
  - match goal with H : map_exists (live_of_task k) _ = true |- _ => by apply map_exists_spec in H end.
  - intros i e Hi Hlive.
    match goal with H : map_exists _ _ = false |- _ => eapply map_exists_false in H; [|exact Hi]; cbn in H end.
    rewrite Hlive in *. by destruct (exec_finished _).
Qed.

(** C8. A Task's items are reported settled at most once: in any history, over
    any number of concurrent callers, at most one [settle_items] call answers
    true, so the notification it guards is sent once. *)
Theorem settle_items_at_most_once : ∀ h k, occurrences (settles k) h empty_db ≤ 1.
Proof.
  intros h k. apply (occurrences_at_most_once _ (is_settled k)); [| |apply linked_empty].
  - intros ev d Hl (t & Ht & Hs). destruct (history_advances [ev] d k t Hl Ht) as (t' & Ht' & _ & _ & Hi).
    rewrite run_history_single in Ht'. exists t'. split; [done|]. by rewrite Hi.
  - intros ev d Hl Hp. unfold settles in Hp. unfold run_event in *.
    destruct ev as [c now cmd]. cbn in *. destruct cmd; try done.
    destruct (run_command c now (SettleItems id) d) as [[a d']|] eqn:E; [|done]. cbn in *.
    apply flag_ok in E as (b & -> & E). destruct b; [|done]. to_prop. subst id.
    apply settle_items_true in E as (t & Ht & _ & Hn & -> & _). split.
    + intros (t0 & Ht0 & Hs). rewrite Ht in Ht0. injection Ht0 as <-. rewrite Hn in Hs. by destruct Hs.
    + eexists. cbn. rewrite lookup_insert_eq. split; [done|]. cbn. eauto.
Qed.

(** ** At-most-once item effects *)

(** A [claim_item_effect] call that won effect [key] of item [item] of Task [k]. *)
Definition claims (k item key : string) : observation := λ d ev a,
  match ev_command ev, a with
  | ClaimItemEffect id key', Some (Flag true) =>
      bool_decide (btrim key' = key) &&
      match db_executions d !! id with Some e => of_item k item e | None => false end
  | _, _ => false
  end.

Definition is_claimed (k item key : string) (d : db) : Prop :=
  ∃ i e, db_executions d !! i = Some e ∧ claimed k item key e = true.

Definition effects_kept (e e' : exec_row) : Prop :=
  exec_identity e = exec_identity e' ∧ e_effect_keys e ⊆ e_effect_keys e'.

#[export] Instance effects_kept_refl : Reflexive effects_kept.
Proof. by split. Qed.
#[export] Instance effects_kept_trans : Transitive effects_kept.
Proof. intros a b c [I1 S1] [I2 S2]. split; [congruence|set_solver]. Qed.

Lemma write_effects_kept now d e e' : exec_write now d e e' → effects_kept e e'.
Proof. destruct 1; split; cbn; try done; set_solver. Qed.

Lemma claimed_kept k item key e e' :
  exec_identity e = exec_identity e' → e_effect_keys e ⊆ e_effect_keys e' →
  claimed k item key e = true → claimed k item key e' = true.
Proof.
  intros Hid Hsub Hc. unfold claimed in *. to_prop.
  rewrite <-(of_item_identity _ _ _ _ Hid). apply andb_true_iff. split; [done|].
  apply bool_decide_eq_true. by apply Hsub.
Qed.

Lemma is_claimed_stays k item key ev d :
  linked d → is_claimed k item key d → is_claimed k item key (run_event ev d).2.
Proof.
  intros Hl (i & e & Hi & Hc).
  destruct (history_exec_rel effects_kept write_effects_kept d (run_event ev d).2 i e Hl)
    as (e' & Hi' & Hid & Hsub); [by apply run_event_steps|done|].
  exists i, e'. split; [done|]. by eapply claimed_kept.
Qed.

Lemma same_task_same_tenant d i1 i2 e1 e2 :
  linked d → db_executions d !! i1 = Some e1 → db_executions d !! i2 = Some e2 →
  e_task_id e1 = e_task_id e2 → e_tenant e1 = e_tenant e2.
Proof.
  intros Hl H1 H2 Heq. destruct (linked_parent _ Hl _ _ H1) as (t1 & Ht1 & <-).
  destruct (linked_parent _ Hl _ _ H2) as (t2 & Ht2 & <-). congruence.
Qed.

Lemma claim_item_effect_true c now id key d d' :
  linked d → claim_item_effect c now id key d = Ok (true, d') →
  ∃ e, db_executions d !! id = Some e ∧
    ¬ is_claimed (e_task_id e) (e_item_key e) (btrim key) d ∧
    is_claimed (e_task_id e) (e_item_key e) (btrim key) d'.
Proof.
  unfold claim_item_effect. intros Hl H. cmd_inv; [done|].
  match goal with H : latest _ = Some _ |- _ =>
    apply latest_elem, map_rows_spec in H as [Hof [k Hk]] end.
  apply visible_executions_lookup in Hk as [Hk Hv].
  apply andb_true_iff in Hof as [Hof Hlive].
  pose proof (linked_exec _ Hl _ _ Hk) as Hid. subst k.
  eexists. split; [done|]. split.
  - intros (i & o & Ho & Hc). pose proof Hc as Hc'. unfold claimed in Hc'. to_prop.
    match goal with H : of_item _ _ o = true |- _ => apply of_item_spec in H as [Hto _] end.
    match goal with He : db_executions _ !! id = Some ?e, H : map_exists _ _ = false |- _ =>
      eapply map_exists_false in H;
      [rewrite H in Hc; discriminate|apply visible_executions_lookup; split; [exact Ho|]];
      by rewrite (same_task_same_tenant _ _ _ _ _ Hl Ho He Hto) end.
  - match goal with H : update_execution _ _ ?e ?e' _ = Ok _ |- _ =>
      exists (e_id e), e'; apply update_execution_executions in H; rewrite H end.
    rewrite lookup_insert_eq. split; [done|]. unfold claimed. apply andb_true_iff. split.
    + by rewrite <-Hof.
    + apply bool_decide_eq_true. cbn. set_solver.
Qed.

(** C9. An item effect is claimed at most once: whatever attempts, retries and
    processes race for it, at most one [claim_item_effect] call answers true
    for a (Task, item, effect key), which is what makes [onceForItem] run its
    side effect at most once. *)
Theorem claim_item_effect_at_most_once : ∀ h k item key,
  occurrences (claims k item key) h empty_db ≤ 1.
Proof.
  intros h k item key. apply (occurrences_at_most_once _ (is_claimed k item key));
    [intros; by apply is_claimed_stays| |apply linked_empty].
  intros ev d Hl Hp. unfold claims in Hp. unfold run_event in *.
  destruct ev as [c now cmd]. cbn in *. destruct cmd; try done.
  destruct (run_command c now (ClaimItemEffect execution_id effect_key) d) as [[a d']|] eqn:E; [|done].
  cbn in *. apply flag_ok in E as (b & -> & E). destruct b; [|done]. to_prop. subst key.
  apply claim_item_effect_true in E as (e & He & Hno & Hyes); [|done]. rewrite He in *.
  match goal with H : of_item _ _ _ = true |- _ => apply of_item_spec in H as [<- <-] end. done.
Qed.

(** ** One change notification per version *)

(** The versions announced for Task [k], oldest first. *)
Definition announced (k : string) (notes : list change_note) : list Z :=
  note_version <$> List.filter (λ n, bool_decide (note_task_id n = k)) notes.

Definition announced_all (d : db) : Prop :=
  ∀ k, announced k (db_notes d) =
    match db_tasks d !! k with Some t => seqZ 1 (t_version t) | None => [] end.

Lemma announced_app k l1 l2 : announced k (l1 ++ l2) = announced k l1 ++ announced k l2.
Proof. unfold announced. by rewrite List.filter_app, fmap_app. Qed.

Lemma announced_one k t v tenant :
  announced k [ChangeNote t v tenant] = if bool_decide (t = k) then [v] else [].
Proof. unfold announced. cbn. by case_bool_decide. Qed.

Lemma announced_put d k t t' :
  announced_all d → db_tasks d !! k = Some t → t_id t' = k → 1 ≤ t_version t →
  t_version t' = t_version t ∨ t_version t' = t_version t + 1 →
  announced_all (put_task d k t t').
Proof.
  intros Ha Hk Hid Hpos Hv k0. unfold put_task. cbn [db_notes db_tasks]. rewrite announced_app, (Ha k0), lookup_insert.
  unfold announce. case_decide as E.
  - subst k0. rewrite Hk. destruct Hv as [Hv|Hv].
    + rewrite bool_decide_eq_true_2 by done. by rewrite Hv, app_nil_r.
    + rewrite bool_decide_eq_false_2 by lia. rewrite announced_one, bool_decide_eq_true_2 by done.
      rewrite Hv, seqZ_app by lia. f_equal. change 1 with (Z.succ 0) at 3.
      rewrite seqZ_cons by lia. cbn. by rewrite Z.add_comm.
  - case_bool_decide; [by rewrite app_nil_r|]. rewrite announced_one, bool_decide_eq_false_2 by congruence.
    by rewrite app_nil_r.
Qed.

Lemma announced_step c now d d' : step c now d d' → wf d → announced_all d → announced_all d'.
Proof.
  intros Hs [Hl Ht _ _] Ha.
  assert (∀ k t, db_tasks d !! k = Some t → t_id t = k ∧ 1 ≤ t_version t) as Hrow.
  { intros k t Hk. split; [by eapply linked_task|]. by apply tok_version, (Ht k). }
  destruct Hs as [t Heq Hv Hk Hd|k t t' Hk Hv Hw|k e e' Hk <- Hv Hw Hs
    |k e e' t Hk <- Hv Hw Hs Htk Htv Hm|e t Hk Hcol Hct Hat Ham Hs Hve Hsu Hef Hre Htk Hten Hm].
  - intros k0. cbn [db_notes db_tasks]. rewrite announced_app, announced_one, (Ha k0), lookup_insert.
    destruct (decide (t_id t = k0)) as [<-|E].
    + rewrite Hk, bool_decide_eq_true_2 by done. by rewrite Heq.
    + rewrite bool_decide_eq_false_2 by done. by rewrite app_nil_r.
  - destruct (Hrow _ _ Hk) as [<- ?]. eapply announced_put; [done..| |done|].
    + pose proof (task_write_identity _ _ _ Hw) as Hid. unfold task_identity in Hid. congruence.
    + destruct Hw; cbn; lia.
  - exact Ha.
  - destruct (Hrow _ _ Htk) as [? ?]. apply announced_put; cbn; try done. by right.
  - destruct (Hrow _ _ Htk) as [? ?]. apply announced_put; cbn; try done. by right.
Qed.

(** C40. Change notifications are exact: the versions announced for a Task on
    [rhinoq_task_changed] are 1, 2, ..., its current version, once each and in
    order, so a subscriber that reads on every notification misses no version. *)
Theorem one_notification_per_version : ∀ d, reachable d → ∀ k t,
  db_tasks d !! k = Some t → announced k (db_notes d) = seqZ 1 (t_version t).
Proof.
  intros d Hd k t Hk.
  assert (wf d ∧ announced_all d) as [_ Ha]; [|by rewrite (Ha k), Hk].
  revert d Hd k t Hk.
  enough (∀ d, reachable d → wf d ∧ announced_all d) by auto.
  apply reachable_ind.
  - split; [apply wf_empty|]. intros k. cbn. by rewrite lookup_empty.
  - intros c now d d' _ [Hwf Ha] Hs. eauto using step_wf, announced_step.
Qed.

Lemma one_notification_per_version_witness :
  announced "t1" (db_notes demo_db) = [1; 2; 3; 4; 5; 6; 7; 8; 9; 10; 11; 12].
Proof.
  change [1; 2; 3; 4; 5; 6; 7; 8; 9; 10; 11; 12] with (seqZ 1 12).
  destruct (db_tasks demo_db !! "t1") as [t|] eqn:Ht; [|by vm_compute in Ht].
  rewrite (one_notification_per_version demo_db demo_reachable "t1" t Ht).
  vm_compute in Ht. by injection Ht as <-.
Defined.

(** ** Tenant isolation *)

(** The rows and notifications a session may not see. *)
Definition hidden_part (c : session) (d : db) :=
  (filter (λ kv, rls_allows c (t_tenant kv.2) = false) (db_tasks d) : gmap string task_row,
   filter (λ kv, rls_allows c (e_tenant kv.2) = false) (db_executions d) : gmap string exec_row,
   List.filter (λ n, negb (rls_allows c (note_tenant_id n))) (db_notes d)).

Lemma filter_insert_allowed {V} (P : V → bool) (m : gmap string V) k v :
  P v = true → (∀ w, m !! k = Some w → P w = true) →
  filter (λ kv : string * V, P kv.2 = false) (<[k:=v]> m) = filter (λ kv, P kv.2 = false) m.
Proof.
  intros Hv Hm. rewrite map_filter_insert_False by (cbn; congruence).
  apply map_eq. intros i. destruct (decide (i = k)) as [->|Hne].
  - transitivity (@None V).
    + apply map_lookup_filter_None. left. apply lookup_delete_eq.
    + symmetry. apply map_lookup_filter_None. destruct (m !! k) as [w|] eqn:E; [right|by left].
      cbn. intros w' [= ->]. rewrite Hm; done.
  - by rewrite !map_lookup_filter, lookup_delete_ne.
Qed.

Lemma hidden_notes c d l :
  (∀ n, In n l → rls_allows c (note_tenant_id n) = true) →
  List.filter (λ n, negb (rls_allows c (note_tenant_id n))) (db_notes d ++ l) =
  List.filter (λ n, negb (rls_allows c (note_tenant_id n))) (db_notes d).
Proof.
  intros Hl. rewrite List.filter_app.
  assert (List.filter (λ n, negb (rls_allows c (note_tenant_id n))) l = []) as ->; [|by rewrite app_nil_r].
  induction l as [|n l IH]; [done|]. cbn. rewrite (Hl n) by by left. cbn. apply IH. intros. apply Hl. by right.
Qed.

Lemma hidden_put_task c d k t t' :
  db_tasks d !! k = Some t → rls_allows c (t_tenant t) = true → t_tenant t' = t_tenant t →
  hidden_part c (put_task d k t t') = hidden_part c d.
Proof.
  intros Hk Hv Hten. unfold hidden_part, put_task. cbn. f_equal; [f_equal|].
  - apply (filter_insert_allowed (λ t, rls_allows c (t_tenant t))); cbn; [congruence|].
    intros w Hw. congruence.
  - apply hidden_notes. unfold announce. intros n. case_bool_decide; [done|].
    intros [<-|[]]. cbn. congruence.
Qed.

Lemma hidden_put_execution c d e :
  rls_allows c (e_tenant e) = true →
  (∀ o, db_executions d !! e_id e = Some o → rls_allows c (e_tenant o) = true) →
  hidden_part c (put_execution d e) = hidden_part c d.
Proof.
  intros Hv Ho. unfold hidden_part, put_execution. cbn. f_equal. f_equal.
  by apply (filter_insert_allowed (λ e, rls_allows c (e_tenant e))).
Qed.

Lemma hidden_rewrite c d now e e' :
  db_executions d !! e_id e = Some e → rls_allows c (e_tenant e) = true → exec_write now d e e' →
  hidden_part c (put_execution d e') = hidden_part c d.
Proof.
  intros He Hv Hw. pose proof (exec_write_identity _ _ _ _ Hw) as Hid. unfold exec_identity in Hid.
  apply hidden_put_execution; [congruence|]. intros o Ho. congruence.
Qed.

Lemma hidden_step c now d d' : step c now d d' → hidden_part c d' = hidden_part c d.
Proof.
  intros Hs. destruct Hs as [t Heq Hv Hk Hd|k t t' Hk Hv Hw|k e e' Hk <- Hv Hw Hs
    |k e e' t Hk <- Hv Hw Hs Htk Htv Hm|e t Hk Hcol Hct Hat Ham Hs Hve Hsu Hef Hre Htk Hten Hm].
  - unfold hidden_part. cbn. f_equal; [f_equal|].
    + apply (filter_insert_allowed (λ t, rls_allows c (t_tenant t))); [done|]. congruence.
    + apply hidden_notes. intros n [<-|[]]. done.
  - apply hidden_put_task; [done..|]. pose proof (task_write_identity _ _ _ Hw) as Hid.
    unfold task_identity in Hid. congruence.
  - by eapply hidden_rewrite.
  - rewrite hidden_put_task by done. by eapply hidden_rewrite.
  - apply rls_allows_current in Hct.
    rewrite hidden_put_task by (done || congruence). apply hidden_put_execution; congruence.
Qed.

Lemma hidden_steps c now d d' : steps c now d d' → hidden_part c d' = hidden_part c d.
Proof. induction 1 as [|d d1 d' H1 _ IH]; [done|]. rewrite IH. by eapply hidden_step. Qed.

(** C31. Tenant isolation of writes: a command never changes, removes or adds a
    Task, an Execution or a notification of a tenant that the row-level policy
    hides from the session that issued it. *)
Theorem command_respects_tenants : ∀ c now cmd d a d',
  linked d → run_command c now cmd d = Ok (a, d') → hidden_part c d' = hidden_part c d.
Proof.
  intros c now cmd d a d' Hl H. apply run_command_steps in H; [|done]. by eapply hidden_steps.
Qed.

Lemma command_respects_tenants_witness :
  ∃ a d', run_command other_session 8 (CreateTask "t2" "import" "globex" None 1) demo_db = Ok (a, d') ∧
    hidden_part other_session d' = hidden_part other_session demo_db.
Proof.
  destruct (run_command other_session 8 (CreateTask "t2" "import" "globex" None 1) demo_db)
    as [[a d']|] eqn:E; [|by vm_compute in E].
  exists a, d'. split; [done|].
  apply (command_respects_tenants other_session 8 (CreateTask "t2" "import" "globex" None 1) demo_db a);
    [apply reachable_linked, demo_reachable|exact E].
Defined.
