(* ===== verification/ExecutionFacts.v ===== *)
(** * Behaviour of the Execution commands

    Theorems about single commands and triggers: the statement-level counting
    triggers against the row-level trigger they replaced, the classification
    of version conflicts, binding, retry and the two batch commands, with the
    concrete stores in which the code departs from its own comments. *)

From stdpp Require Import base gmap strings list fin_maps sorting relations.
From Stdlib Require Import Ascii ZArith Lia.
From S2P Require Import Prelude TaskModel TaskCommands ExecutionCommands StoreSteps StoreInvariant.

(** ** Statement triggers and the row trigger *)

Lemma tfor_update_task c (g : string → task_row → result sql_error task_row) keys d u d' k t :
  NoDup keys →
  tfor keys (λ k, update_task c k (g k)) d = Ok (u, d') →
  db_tasks d !! k = Some t → rls_allows c (t_tenant t) = true →
  ∃ t', db_tasks d' !! k = Some t' ∧ if decide (k ∈ keys) then g k t = Ok t' else t' = t.
Proof.
  intros Hnd. revert d t. induction Hnd as [|x keys Hx Hnd IH]; intros d t; cbn [tfor].
  - intros H Ht _. apply tret_ok in H as [_ ->]. exists t. split; [done|].
    rewrite decide_False; [done|set_solver].
  - intros H Ht Hv. apply tbind_ok in H as (u1 & d1 & H1 & H2).
    destruct (decide (x = k)) as [->|Hne].
    + apply (update_selected c k (g k) d t u1 d1 Ht Hv) in H1 as (t' & Hg & Hd1). subst d1.
      exists t'. rewrite decide_True by set_solver. split; [|done].
      assert (∀ d1 t1, tfor keys (λ k, update_task c k (g k)) d1 = Ok (u, d') →
        db_tasks d1 !! k = Some t1 → db_tasks d' !! k = Some t1) as Hrest.
      { clear -Hx. induction keys as [|y keys IH]; intros d1 t1 H Ht1; cbn [tfor] in H.
        - apply tret_ok in H as [_ ->]. done.
        - apply tbind_ok in H as (? & d2 & H1 & H2). eapply IH; [set_solver|exact H2|].
          apply update_task_ok in H1 as [[_ ->]|(? & ? & _ & _ & _ & ->)]; [done|].
          cbn. rewrite lookup_insert_ne; [done|set_solver]. }
      eapply Hrest; [done|]. apply lookup_insert_eq.
    + destruct (IH d1 t) as (t' & Ht' & Hif); [done| |done|].
      { apply update_task_ok in H1 as [[_ ->]|(? & ? & _ & _ & _ & ->)]; [done|].
        cbn. by rewrite lookup_insert_ne. }
      exists t'. split; [done|]. destruct (decide (k ∈ keys)); [rewrite decide_True by set_solver; done|].
      rewrite decide_False by set_solver. done.
Qed.

Lemma group_keys_elem k rows : k ∈ group_keys rows ↔ ∃ e, e ∈ rows ∧ of_task k e = true.
Proof.
  unfold group_keys, of_task. rewrite elem_of_remove_dups, list_elem_of_fmap.
  setoid_rewrite bool_decide_eq_true. naive_solver.
Qed.

Lemma rows_count_app p l1 l2 : rows_count p (l1 ++ l2) = rows_count p l1 + rows_count p l2.
Proof. induction l1 as [|e l1 IH]; cbn; lia. Qed.

Ltac counts_eq :=
  unfold counts_move, counts_add, counts_sub, counts_map2, rows_counts, in_state; cbn -[b2z];
  f_equal; lia.

Lemma counts_move_cons n b a before after :
  counts_move n (rows_counts (b :: before)) (rows_counts (a :: after)) =
  counts_move (counts_move n (rows_counts [b]) (rows_counts [a])) (rows_counts before) (rows_counts after).
Proof. counts_eq. Qed.

Lemma tg_delta_b2z old new s :
  tg_delta (TgUpdate old new) s = b2z (in_state s new) - b2z (in_state s old).
Proof.
  unfold tg_delta, in_state, tg_old, tg_new.
  assert (∀ x, bool_decide (Some x = Some s) = bool_decide (x = s)) as Hs.
  { intros x. apply bool_decide_ext. split; congruence. }
  rewrite !Hs. lia.
Qed.

Lemma row_trigger_update old new n :
  update_execution_counts (TgUpdate old new) n = counts_move n (rows_counts [old]) (rows_counts [new]).
Proof.
  unfold update_execution_counts. case_bool_decide as E; [by rewrite counts_move_same|].
  rewrite !tg_delta_b2z. counts_eq.
Qed.

Lemma statement_move_fold n pairs :
  counts_move n (rows_counts (moved_rows pairs).*1) (rows_counts (moved_rows pairs).*2) =
  foldl (λ n ba, update_execution_counts (TgUpdate ba.1 ba.2) n) n pairs.
Proof.
  revert n. induction pairs as [|[b a] pairs IH]; intros n.
  - destruct n. counts_eq.
  - cbn [foldl fst snd]. rewrite row_trigger_update, <-IH. unfold moved_rows. cbn [List.filter fst snd].
    case_bool_decide as E; cbn [negb].
    + by rewrite counts_move_same.
    + rewrite !fmap_cons. apply counts_move_cons.
Qed.

Lemma filter_filter_comm {A} (p q : A → bool) l :
  List.filter p (List.filter q l) = List.filter q (List.filter p l).
Proof.
  induction l as [|x l IH]; [done|]. cbn. destruct (p x) eqn:Hp, (q x) eqn:Hq; cbn;
    rewrite ?Hp, ?Hq, IH; done.
Qed.

(** C30. The statement-level update trigger of migration 16 computes what the
    row-level trigger of migration 2 did: after one UPDATE of any number of
    Executions, the counters of each Task are those of the row trigger applied
    row by row, and its version advances by exactly one when any of its rows
    changed state and not at all otherwise. *)
Theorem statement_trigger_equivalent : ∀ c now pairs d d' k t,
  execution_counts_updated c now pairs d = Ok (tt, d') →
  db_tasks d !! k = Some t → rls_allows c (t_tenant t) = true →
  let mine := List.filter (λ ba, of_task k ba.2) pairs in
  ∃ t', db_tasks d' !! k = Some t' ∧
    t_counts t' = foldl (λ n ba, update_execution_counts (TgUpdate ba.1 ba.2) n) (t_counts t) mine ∧
    t_version t' = t_version t + b2z (negb (bool_decide (moved_rows mine = []))).
Proof.
  intros c now pairs d d' k t H Ht Hv mine. unfold execution_counts_updated in H.
  apply (tfor_update_task c (λ k t, bump_task now (t_with_counts (counts_move (t_counts t)
    (rows_counts (List.filter (λ ba, of_task k ba.2) (moved_rows pairs)).*1)
    (rows_counts (List.filter (λ ba, of_task k ba.2) (moved_rows pairs)).*2)) t)) _ _ _ _ k t)
    in H as (t' & Ht' & Hif); [|apply NoDup_remove_dups|done..].
  exists t'. split; [done|].
  assert (List.filter (λ ba, of_task k ba.2) (moved_rows pairs) = moved_rows mine) as Hmine
    by apply filter_filter_comm.
  rewrite Hmine in Hif. rewrite <-statement_move_fold.
  destruct (decide (k ∈ group_keys (moved_rows pairs).*2)) as [Hin|Hin].
  - apply bump_counts_ok in Hif as [-> _]. split; [done|].
    apply group_keys_elem in Hin as (e & He & Hof). apply list_elem_of_fmap in He as ([b a] & -> & Hba).
    rewrite bool_decide_eq_false_2; [done|]. rewrite <-Hmine. intros Hnil.
    assert ((b, a) ∈ List.filter (λ ba, of_task k ba.2) (moved_rows pairs)) as Hbad.
    { apply list_elem_of_In, filter_In. split; [by apply list_elem_of_In|done]. }
    rewrite Hnil in Hbad. by apply elem_of_nil in Hbad.
  - subst t'. assert (moved_rows mine = []) as ->.
    { rewrite <-Hmine. destruct (List.filter _ (moved_rows pairs)) as [|[b a] l] eqn:E; [done|].
      destruct Hin. apply group_keys_elem. exists a.
      assert ((b, a) ∈ List.filter (λ ba, of_task k ba.2) (moved_rows pairs)) as Hba by (rewrite E; set_solver).
      apply list_elem_of_In, filter_In in Hba as [Hba Hof]. split; [|done].
      apply list_elem_of_fmap. exists (b, a). split; [done|by apply list_elem_of_In]. }
    split; [destruct (t_counts t); counts_eq|cbn; lia].
Qed.

Definition demo_exec (d : db) (id : string) : exec_row :=
  default (ExecRow "" "" "" "" 0 "" "" None EPendingDispatch None None 0 None [] 0 0) (db_executions d !! id).

(** One UPDATE that moves both attempts of the running Task. *)
Definition demo_pairs : list (exec_row * exec_row) :=
  (λ id, (demo_exec mid_db id, e_with_state EFailed None (demo_exec mid_db id))) <$> ["e1"; "e2"].

Lemma statement_trigger_equivalent_witness :
  ∃ t d' t', db_tasks mid_db !! "t1" = Some t ∧
    execution_counts_updated demo_session 8 demo_pairs mid_db = Ok (tt, d') ∧
    db_tasks d' !! "t1" = Some t' ∧ n_failed (t_counts t') = 2 ∧ t_version t' = t_version t + 1.
Proof.
  destruct (db_tasks mid_db !! "t1") as [t|] eqn:Ht; [|by vm_compute in Ht].
  destruct (execution_counts_updated demo_session 8 demo_pairs mid_db) as [[[] d']|] eqn:E;
    [|by vm_compute in E].
  destruct (statement_trigger_equivalent demo_session 8 demo_pairs mid_db d' "t1" t E Ht)
    as (t' & Ht' & Hc & Hv).
  { vm_compute in Ht. by injection Ht as <-. }
  exists t, d', t'. split; [done|]. split; [done|]. split; [done|].
  rewrite Hc, Hv. vm_compute in Ht. injection Ht as <-. split; vm_compute; reflexivity.
Defined.

(** ** Retry *)

Lemma item_visible c d e i o :
  linked d → db_executions d !! e_id e = Some e → rls_allows c (e_tenant e) = true →
  db_executions d !! i = Some o → of_item (e_task_id e) (e_item_key e) o = true →
  visible_executions c d !! i = Some o.
Proof.
  intros Hl He Hv Ho Hof. apply visible_executions_lookup. split; [done|].
  apply of_item_spec in Hof as [Hto _].
  destruct (linked_parent _ Hl _ _ He) as (t1 & Ht1 & Hten1).
  destruct (linked_parent _ Hl _ _ Ho) as (t2 & Ht2 & Hten2). congruence.
Qed.

Lemma exec_write_visible c now e e' d d1 :
  exec_write now d e e' → db_executions d !! e_id e = Some e → rls_allows c (e_tenant e) = true →
  db_executions d1 = <[e_id e := e']> (db_executions d) →
  visible_executions c d1 = <[e_id e := e']> (visible_executions c d).
Proof.
  intros Hw He Hv Hd1. pose proof (exec_write_identity _ _ _ _ Hw) as Hid. unfold exec_identity in Hid.
  unfold visible_executions. rewrite Hd1, map_filter_insert_True; [done|]. cbn. congruence.
Qed.

(** A retry keeps history and leaves one live attempt: the old row stays,
    marked superseded; the new row is dispatched, live, carries the same item
    and runtime reference, and is numbered one past every earlier attempt of
    the item. *)
Theorem retry_execution_spec : ∀ c now id v new_id d n d',
  linked d → retry_execution c now id v new_id d = Ok (n, d') →
  ∃ e old new, db_executions d !! id = Some e ∧
    db_executions d' !! id = Some old ∧ db_executions d' !! new_id = Some new ∧ id ≠ new_id ∧
    old = e_touch (v + 1) now (e_with_superseded (Some now) e) ∧
    live new = true ∧ e_state new = EDispatched ∧
    (e_task_id new, e_item_key new, e_runtime new, e_runtime_scope new, e_external_id new) =
    (e_task_id e, e_item_key e, e_runtime e, e_runtime_scope e, e_external_id e) ∧
    e_attempt new = n ∧
    (∀ i o, db_executions d !! i = Some o → of_item (e_task_id e) (e_item_key e) o = true → e_attempt o < n).
Proof.
  unfold retry_execution, live. intros c now id v new_id d n d' Hl H. cmd_inv. to_prop.
  match goal with H : db_executions _ !! id = Some ?x |- _ =>
    rename x into e; pose proof (linked_exec _ Hl _ _ H) as Hid; subst id end.
  match goal with H : update_execution _ _ ?e ?e' ?d = Ok _ |- _ =>
    assert (exec_write now d e e') as Hw by (by apply ew_supersede);
    eapply (update_execution_step c now e) in H as [Hstep Hex]; [|done..] end.
  match goal with H : next_attempt _ _ _ _ = Ok _ |- _ => apply next_attempt_ok in H as (-> & ? & ->) end.
  match goal with H : insert_execution _ _ _ _ = Ok _ |- _ =>
    apply insert_execution_step in H as (_ & tenant & _ & Hfresh & Hex'); [|done|] end.
  2:{ intros tenant. to_prop. repeat split; auto. }
  cbn in Hfresh, Hex'. rewrite Hex in Hfresh, Hex'. rewrite Hex'.
  assert (e_id e ≠ new_id) as Hne by (intros <-; by rewrite lookup_insert_eq in Hfresh).
  do 3 eexists. split; [done|]. rewrite lookup_insert_ne, lookup_insert_eq by done.
  split; [done|]. split; [apply lookup_insert_eq|]. split; [done|]. split; [done|].
  split; [by apply bool_decide_eq_true|]. split; [done|]. split; [done|]. split; [done|].
  intros i o Ho Hof. apply Z.lt_succ_r.
  assert (visible_executions c d !! i = Some o) as Hvis by (eapply item_visible; done).
  rewrite (exec_write_visible c now e _ d _ Hw) by done.
  match goal with |- _ ≤ map_max ?f _ => set (att := f) end.
  transitivity (att o); [unfold att; by rewrite Hof|].
  destruct (decide (i = e_id e)) as [->|Hi].
  - assert (o = e) as -> by congruence.
    change (att e) with (att (e_touch (e_version e + 1) now (e_with_superseded (Some now) e))).
    apply (map_max_ub att _ (e_id e)). apply lookup_insert_eq.
  - apply (map_max_ub att _ i). by rewrite lookup_insert_ne.
Qed.

Lemma retry_execution_spec_witness :
  ∃ d' new, retry_execution demo_session 8 "e2" 2 "e4" demo_db = Ok (2, d') ∧
    db_executions d' !! "e4" = Some new ∧ live new = true ∧ e_attempt new = 2.
Proof.
  destruct (retry_execution demo_session 8 "e2" 2 "e4" demo_db) as [[n d']|] eqn:E; [|by vm_compute in E].
  assert (n = 2) as -> by (vm_compute in E; congruence).
  destruct (retry_execution_spec demo_session 8 "e2" 2 "e4" demo_db 2 d')
    as (e & old & new & _ & _ & Hnew & _ & _ & Hlive & _ & _ & Hatt & _);
    [apply reachable_linked, demo_reachable|exact E|].
  exists d', new. repeat split; assumption.
Defined.

(** ** Binding *)

(** Binding the identity an attempt already carries, after the attempt moved
    on, was a no-op in migration 7 and is refused since migration 16: for every
    bound attempt that has left pending_dispatch, the old function returned the
    version and wrote nothing, the installed one raises
    RHINOQ_INVALID_EXECUTION_BINDING. *)
Theorem bind_replay_diverges : ∀ c now id d e ext,
  visible_executions c d !! id = Some e → e_state e ≠ EPendingDispatch →
  e_external_id e = Some ext → btrim ext = ext → btrim (e_runtime e) = e_runtime e →
  btrim (e_runtime_scope e) = e_runtime_scope e →
  bind_execution_v7 c now id (e_version e) (e_runtime e) (Some (e_runtime_scope e)) ext d
    = Ok (e_version e, d) ∧
  bind_execution c now id (e_version e) (e_runtime e) (Some (e_runtime_scope e)) ext d
    = Err (Raise "RHINOQ_INVALID_EXECUTION_BINDING").
Proof.
  intros c now id d e ext He Hst Hext Hb1 Hb2 Hb3.
  unfold bind_execution_v7, bind_execution, tbind, select_execution. rewrite He.
  unfold fence_execution. rewrite Z.eqb_refl. unfold tret, fail_if, traise_if.
  cbv [from_option Datatypes.id]. rewrite Hb1, Hb2, Hb3, Hext.
  rewrite (bool_decide_eq_false_2 (e_state e = EPendingDispatch)) by done.
  by rewrite !bool_decide_eq_true_2 by done.
Qed.

Lemma bind_replay_diverges_witness :
  let e := demo_exec mid_db "e1" in
  e_state e = ERunning ∧
  bind_execution_v7 demo_session 8 "e1" 3 "bullmq" (Some "q") "job-1" mid_db = Ok (3, mid_db) ∧
  bind_execution demo_session 8 "e1" 3 "bullmq" (Some "q") "job-1" mid_db
    = Err (Raise "RHINOQ_INVALID_EXECUTION_BINDING").
Proof.
  split; [vm_compute; reflexivity|].
  change 3 with (e_version (demo_exec mid_db "e1")).
  change "bullmq" with (e_runtime (demo_exec mid_db "e1")).
  change "q" with (e_runtime_scope (demo_exec mid_db "e1")).
  apply (bind_replay_diverges demo_session 8 "e1" mid_db (demo_exec mid_db "e1") "job-1");
    vm_compute; (reflexivity || discriminate).
Defined.

(** ** Parent versions *)

Lemma update_execution_parent c now e e' d t u d' :
  linked d → db_executions d !! e_id e = Some e → exec_identity e' = exec_identity e →
  rls_allows c (e_tenant e) = true →
  db_tasks d !! e_task_id e = Some t → e_state e ≠ e_state e' →
  update_execution c now e e' d = Ok (u, d') →
  ∃ t', db_tasks d' !! e_task_id e = Some t' ∧ t_version t' = t_version t + 1 ∧ t_tenant t' = t_tenant t.
Proof.
  intros Hl He Hid Hv Ht Hs. unfold update_execution. unfold exec_identity in Hid.
  destruct (linked_parent _ Hl _ _ He) as (t0 & Ht0 & Hten).
  assert (t0 = t) as -> by congruence. injection Hid as _ Htask _ _ _ _ _.
  intros H. apply (counts_updated_ok _ _ _ _ _ t) in H as [_ ->]; cbn; try congruence.
  eexists. rewrite Htask, lookup_insert_eq. by split.
Qed.

Lemma transition_selected_parent c now v expected target reason aw d t r d' (P : task_row → Prop) :
  linked d → db_executions d !! e_id v = Some v → rls_allows c (e_tenant v) = true →
  db_tasks d !! e_task_id v = Some t → exec_state_name (e_state v) ≠ target →
  (∀ d1 u d2 t1, aw d1 = Ok (u, d2) → db_tasks d1 !! e_task_id v = Some t1 →
     t_version t1 = t_version t + 1 → t_tenant t1 = t_tenant t →
     ∃ t2, db_tasks d2 !! e_task_id v = Some t2 ∧ P t2) →
  transition_selected c now v expected target reason aw d = Ok (r, d') →
  ∃ t2, db_tasks d' !! e_task_id v = Some t2 ∧ P t2.
Proof.
  intros Hl He Hv Ht Hne Haw. unfold transition_selected.
  rewrite bool_decide_eq_false_2 by done. intros H. cmd_inv.
  match goal with H : update_execution _ _ _ ?e' _ = Ok _ |- _ =>
    eapply (update_execution_parent c now v e' d t) in H as (t1 & Ht1 & Hv1 & Hten1); try done end.
  - eapply Haw; done.
  - cbn. intros E. rewrite E in Hne. apply Hne.
    match goal with H : exec_state_of _ = Some _ |- _ =>
      apply List.find_some in H as [_ H]; by apply bool_decide_eq_true_1 in H end.
Qed.

(** A state change written through [transition_execution] advances the parent
    Task by one version; the same change written through
    [transition_execution_for_owner] advances it by two, because that function
    still performs the bump the statement trigger took over. *)
Theorem owner_transition_bumps_twice : ∀ c now id tenant owner v target reason d e t r1 d1 r2 d2,
  linked d → db_executions d !! id = Some e → db_tasks d !! e_task_id e = Some t →
  exec_state_name (e_state e) ≠ target →
  transition_execution c now id v target reason d = Ok (r1, d1) →
  transition_execution_for_owner c now id tenant owner v target reason d = Ok (r2, d2) →
  (∃ t1, db_tasks d1 !! e_task_id e = Some t1 ∧ t_version t1 = t_version t + 1) ∧
  (∃ t2, db_tasks d2 !! e_task_id e = Some t2 ∧ t_version t2 = t_version t + 2).
Proof.
  intros c now id tenant owner v target reason d e t r1 d1 r2 d2 Hl He Ht Hne H1 H2.
  pose proof (linked_exec _ Hl _ _ He) as Hid. subst id. split.
  - unfold transition_execution in H1. cmd_inv. simplify_eq.
    match goal with H : transition_selected _ _ _ _ _ _ _ _ = Ok _ |- _ =>
      eapply (transition_selected_parent c now e v target reason _ _ t _ _
        (λ t2, t_version t2 = t_version t + 1)) in H; try done end.
    intros d0 [] d3 t1 [= <-] Ht1 Hv1 _. eauto.
  - unfold transition_execution_for_owner in H2. cmd_inv. simplify_eq.
    match goal with H : transition_selected _ _ _ _ _ _ _ _ = Ok _ |- _ =>
      eapply (transition_selected_parent c now e v target reason _ _ t _ _
        (λ t2, t_version t2 = t_version t + 2)) in H; try done end.
    intros d0 u d3 t1 Hb Ht1 Hv1 Hten1.
    destruct (linked_parent _ Hl _ _ He) as (t0 & Ht0 & Hten0).
    eapply update_selected in Hb; [|exact Ht1|congruence].
    destruct Hb as (t2 & Hb & ->). apply bump_task_ok in Hb as [-> _].
    eexists. cbn. rewrite lookup_insert_eq. split; [done|]. cbn. lia.
Qed.

Lemma owner_transition_bumps_twice_witness :
  ∃ r1 d1 r2 d2 t2,
    transition_execution demo_session 8 "e1" 3 "succeeded" None mid_db = Ok (r1, d1) ∧
    transition_execution_for_owner demo_session 8 "e1" "acme" "alice" 3 "succeeded" None mid_db = Ok (r2, d2) ∧
    db_tasks d2 !! "t1" = Some t2 ∧ t_version t2 = 9.
Proof.
  destruct (transition_execution demo_session 8 "e1" 3 "succeeded" None mid_db)
    as [[r1 d1]|] eqn:E1; [|by vm_compute in E1].
  destruct (transition_execution_for_owner demo_session 8 "e1" "acme" "alice" 3 "succeeded" None mid_db)
    as [[r2 d2]|] eqn:E2; [|by vm_compute in E2].
  destruct (db_executions mid_db !! "e1") as [e|] eqn:He; [|by vm_compute in He].
  destruct (db_tasks mid_db !! "t1") as [t|] eqn:Ht; [|by vm_compute in Ht].
  assert (e_task_id e = "t1" ∧ e_state e = ERunning) as [Hte Hst]
    by (vm_compute in He; injection He as <-; split; reflexivity).
  destruct (owner_transition_bumps_twice demo_session 8 "e1" "acme" "alice" 3 "succeeded" None mid_db e t
    r1 d1 r2 d2) as [_ (t2 & Ht2 & Hv2)];
    [apply reachable_linked, mid_reachable|exact He|by rewrite Hte|by rewrite Hst|exact E1|exact E2|].
  rewrite Hte in Ht2. exists r1, d1, r2, d2, t2. split; [done|]. split; [done|]. split; [done|].
  rewrite Hv2. vm_compute in Ht. injection Ht as <-. reflexivity.
Defined.

(** A winning effect claim advances the Execution's own version, a column of
    the Task snapshot, while the Task keeps its version and nothing is
    announced: two snapshots with one [entityVersion] can differ. *)
Theorem claim_changes_snapshot_silently : ∀ c now id key d d',
  linked d → claim_item_effect c now id key d = Ok (true, d') →
  db_tasks d' = db_tasks d ∧ db_notes d' = db_notes d ∧
  ∃ i e e', db_executions d !! i = Some e ∧ db_executions d' !! i = Some e' ∧
    e_version e' = e_version e + 1.
Proof.
  unfold claim_item_effect. intros c now id key d d' Hl H. cmd_inv; [done|].
  match goal with H : latest _ = Some _ |- _ =>
    apply latest_elem, map_rows_spec in H as [_ [k Hk]] end.
  apply visible_executions_lookup in Hk as [Hk _].
  pose proof (linked_exec _ Hl _ _ Hk) as <-.
  match goal with H : update_execution _ _ _ _ _ = Ok _ |- _ =>
    unfold update_execution in H; rewrite counts_updated_same in H by done; injection H as _ <- end.
  split; [done|]. split; [done|]. do 3 eexists. split; [done|]. cbn. rewrite lookup_insert_eq. by split.
Qed.

Lemma claim_changes_snapshot_silently_witness :
  ∃ d', claim_item_effect demo_session 8 "e1" "mail" mid_db = Ok (true, d') ∧ db_tasks d' = db_tasks mid_db.
Proof.
  destruct (claim_item_effect demo_session 8 "e1" "mail" mid_db) as [[b d']|] eqn:E; [|by vm_compute in E].
  assert (b = true) as -> by (vm_compute in E; congruence).
  exists d'. split; [done|].
  destruct (claim_changes_snapshot_silently demo_session 8 "e1" "mail" mid_db d') as [H _];
    [apply reachable_linked, mid_reachable|exact E|exact H].
Defined.

(** A store in which claims carried "e1" past its Task: the Task is at version 5,
    the Execution at version 6, and 5 is a version the Execution had. *)
Definition claims_events : list event := Event demo_session 7 <$>
  [ CreateTask "t1" "import" "acme" None 1;
    CreateExecution "e1" "t1" None "bullmq" (Some "q") (Some "job-1");
    BindExecution "e1" 1 "bullmq" (Some "q") "job-1";
    TransitionExecution "e1" 2 "running" None;
    TransitionTask "t1" 4 "queued";
    ClaimItemEffect "e1" "a"; ClaimItemEffect "e1" "b"; ClaimItemEffect "e1" "c" ].

Definition claims_db : db := (run_history claims_events empty_db).2.

(** The conflict classification can be wrong: there is a reachable store in
    which a caller whose Execution version went stale, and never was a Task
    version it confused, is answered RHINOQ_WRONG_VERSION_SCOPE instead of
    RHINOQ_VERSION_CONFLICT. *)
Theorem stale_version_misclassified : ∃ h d t e,
  (run_history h empty_db).2 = d ∧ db_tasks d !! "t1" = Some t ∧ db_executions d !! "e1" = Some e ∧
  t_version t = 5 ∧ e_version e = 6 ∧
  (∃ h', h' `prefix_of` h ∧ e_version (demo_exec (run_history h' empty_db).2 "e1") = 5) ∧
  transition_execution demo_session 9 "e1" 5 "succeeded" None d = Err (Raise "RHINOQ_WRONG_VERSION_SCOPE").
Proof.
  exists claims_events, claims_db. do 2 eexists. split; [reflexivity|]. split; [vm_compute; reflexivity|].
  split; [vm_compute; reflexivity|]. split; [reflexivity|]. split; [reflexivity|]. split.
  - exists (take 7 claims_events). split; [|vm_compute; reflexivity].
    exists (drop 7 claims_events). by rewrite take_drop.
  - vm_compute. reflexivity.
Qed.
