(* ===== verification/TaskClient.v ===== *)
(** * The embedded Task client

    [PostgresTaskClient] of [sdks/node/src/postgres/task-client.ts]: argument
    validation, the statements each method runs, the mapping of rows to the
    public records and of database errors to [RhinoQError]. A method is an
    action over a [world]: the shared store, the commands other processes
    commit before each of its statements, the clock and the log of commands
    this client issued. The interface [TaskClient] (tasks/client.ts) is the
    class the projector and the handle are written against. *)

From stdpp Require Import base gmap strings list fin_maps sorting relations.
From Stdlib Require Import Ascii ZArith Lia.
From S2P Require Import Prelude TaskModel TaskCommands ExecutionCommands StoreSteps.

Open Scope act_scope.

(** ** Errors of the client

    [OutOfFuel] is not an exception of the program: it marks a run of a model
    function that was cut off. *)

Inductive js_error : Type :=
| RhinoQError (code : string) (retryable : bool) (status : option Z)
| TypeError
| RangeError
| PlainError
| OutOfFuel.

#[export] Instance js_error_eq_dec : EqDecision js_error.
Proof. solve_decision. Defined.

Definition taskError (code : string) : js_error :=
  RhinoQError code false (Some
    (if includes "NOT_FOUND" code then 404
     else if includes "CONFLICT" code || includes "ALREADY" code then 409 else 400)).

(** An exception of [rhinoq_task.fail] has its code as message; an error of
    PostgreSQL itself has a SQLSTATE and a message that is not a code. *)
Definition mapDatabaseError (e : sql_error) : js_error :=
  match e with
  | SqlState code =>
      if bool_decide (code = "42P01") || bool_decide (code = "3F000")
      then taskError "RHINOQ_TASK_SCHEMA_MISSING"
      else RhinoQError "RHINOQ_POSTGRES_UNREACHABLE" true None
  | Raise message =>
      if String.prefix "RHINOQ_" message then taskError message
      else RhinoQError "RHINOQ_POSTGRES_UNREACHABLE" true None
  end.

Definition hasCode (e : js_error) (code : string) : bool :=
  match e with
  | RhinoQError c _ _ => bool_decide (c = code)
  | _ => false
  end.

(** ** The world a client runs in *)

Record world := World {
  w_db : db;
  w_env : list (list event);
  w_now : Z;
  w_log : list command;
}.

(** What other processes commit before the next statement. *)
Definition interfere (w : world) : world :=
  match w_env w with
  | [] => World (w_db w) [] (w_now w + 1) (w_log w)
  | h :: rest => World (run_history h (w_db w)).2 rest (w_now w + 1) (w_log w)
  end.

Definition io (A : Type) : Type := act world js_error A.

(** [SELECT ...] of one statement. *)
Definition query {A} (f : db → A) : io A :=
  λ w, let w1 := interfere w in (Ok (f (w_db w1)), w1).

Definition query_at {A} (f : Z → db → A) : io A :=
  λ w, let w1 := interfere w in (Ok (f (w_now w1) (w_db w1)), w1).

(** [SELECT rhinoq_task.<function>(...)]. *)
Definition execute (c : session) (cmd : command) : io answer :=
  λ w, let w1 := interfere w in
       let log := w_log w1 ++ [cmd] in
       match run_command c (w_now w1) cmd (w_db w1) with
       | Ok (a, d') => (Ok a, World d' (w_env w1) (w_now w1) log)
       | Err e => (Err (mapDatabaseError e), World (w_db w1) (w_env w1) (w_now w1) log)
       end.

(** ** Public records *)

Record execution_summary := ExecutionSummary {
  es_id : string; es_itemKey : string; es_attempt : Z; es_runtime : string;
  es_runtimeScope : option string; es_state : exec_state; es_version : Z;
  es_hasResult : bool; es_failureReason : option string;
}.

Record snapshot := Snapshot {
  s_entityVersion : Z;
  s_id : string;
  s_type : string;
  s_ownerId : option string;
  s_state : task_state;
  s_cancellation : cancellation;
  s_progress : progress;
  s_hasResult : bool;
  s_executions : list execution_summary;
  s_createdAt : Z;
  s_updatedAt : Z;
}.

Record execution := Execution {
  x_id : string; x_taskId : string; x_itemKey : string; x_attempt : Z;
  x_runtime : string; x_runtimeScope : option string; x_externalId : option string;
  x_state : exec_state; x_version : Z;
}.

Record task_result := TaskResult {
  r_entityVersion : Z; r_taskId : string; r_reference : string; r_updatedAt : Z;
}.

(** A Task without its Executions, the per-attempt aggregates and, when the
    query computed them, the per-item aggregates with the retry count. *)
Record summary := Summary {
  sm_task : snapshot;
  sm_executionCounts : exec_counts;
  sm_itemCounts : option (exec_counts * Z);
}.

Record TaskStateQuery := {
  q_states : list task_state; q_idleForMs : option Z; q_itemsSettled : option bool;
  q_ownerId : option string; q_tenantId : option string; q_limit : option Z;
}.

(** [ORDER BY t.updated_at, t.id] *)
Definition oldest_le (a b : task_row) : Prop :=
  (if t_updated_at a =? t_updated_at b then String.leb (t_id a) (t_id b)
   else t_updated_at a <? t_updated_at b) = true.
#[export] Instance oldest_le_dec : RelDecision oldest_le.
Proof. intros a b. unfold oldest_le. apply _. Defined.

Definition mapExecutionSummary (e : exec_row) : execution_summary :=
  ExecutionSummary (e_id e) (e_item_key e) (e_attempt e) (e_runtime e)
    (truthy (Some (e_runtime_scope e))) (e_state e) (e_version e)
    (bool_decide (is_Some (e_result_ref e))) (truthy (e_failure_reason e)).

Definition mapSnapshot (t : task_row) (executions : list exec_row) : snapshot :=
  Snapshot (t_version t) (t_id t) (t_type t) (truthy (t_owner t)) (t_state t)
    (Cancellation (c_status (t_cancellation t)) (truthy (c_reason (t_cancellation t))))
    (Progress (p_completed (t_progress t)) (p_total (t_progress t)) (truthy (p_message (t_progress t))))
    (bool_decide (is_Some (t_result_ref t))) (mapExecutionSummary <$> executions)
    (t_created_at t) (t_updated_at t).

Definition mapExecution (e : exec_row) : execution :=
  Execution (e_id e) (e_task_id e) (e_item_key e) (e_attempt e) (e_runtime e)
    (truthy (Some (e_runtime_scope e))) (truthy (e_external_id e)) (e_state e) (e_version e).

(** [ORDER BY e.item_key, e.attempt, e.id] *)
Definition snapshot_order (a b : exec_row) : bool :=
  if bool_decide (e_item_key a = e_item_key b) then
    if e_attempt a =? e_attempt b then String.leb (e_id a) (e_id b) else e_attempt a <? e_attempt b
  else String.ltb (e_item_key a) (e_item_key b).

Definition snapshot_le (a b : exec_row) : Prop := snapshot_order a b = true.
#[export] Instance snapshot_le_dec : RelDecision snapshot_le.
Proof. intros a b. unfold snapshot_le. apply _. Defined.

(** SNAPSHOT_SQL: the Task restricted to an owner and a tenant when they are
    given, with its Executions. *)
Definition snapshot_sql (c : session) (id : string) (owner tenant : option string) (d : db)
    : option snapshot :=
  match visible_tasks c d !! id with
  | Some t =>
      if match owner with Some o => bool_decide (t_owner t = Some o) | None => true end
         && match tenant with Some n => bool_decide (t_tenant t = n) | None => true end
      then Some (mapSnapshot t (merge_sort snapshot_le
             (map_rows (of_task id) (visible_executions c d))))
      else None
  | None => None
  end.

(** ** Validation *)

Definition validateVersion (v : Z) : io unit := athrow_if (v <=? 0) RangeError.

Definition validateProgress (p : progress) : io unit :=
  athrow_if (p_completed p <? 0) RangeError ;+
  athrow_if (match p_total p with Some n => n <? p_completed p | None => false end) RangeError.

Definition isEmpty (s : string) : bool := bool_decide (s = "").

Record TaskCreateRequest := {
  rq_id : string; rq_type : string; rq_tenantId : option string; rq_ownerId : option string;
  rq_definitionVersion : option Z;
}.

Record TaskExecutionCreateRequest := {
  rx_id : string; rx_itemKey : option string; rx_runtime : string;
  rx_runtimeScope : option string; rx_externalId : option string;
}.

Record TaskExecutionBinding := {
  bd_runtime : string; bd_runtimeScope : option string; bd_externalId : option string;
  bd_jobId : option string;
}.

(** ** Methods *)

Section methods.
Context (c : session).

Definition readTask (taskId : string) (owner tenant : option string) : io snapshot :=
  athrow_if (js_blank taskId) TypeError ;+
  let+ row := query (snapshot_sql c taskId owner tenant) in
  match row with
  | Some s => aret s
  | None => athrow (taskError "RHINOQ_TASK_NOT_FOUND")
  end.

Definition getTask (taskId : string) : io snapshot := readTask taskId None None.

Definition getTaskForOwner (taskId ownerId tenantId : string) : io snapshot :=
  readTask taskId (Some ownerId) (Some tenantId).

Definition getTaskExecution (id : string) : io execution :=
  let+ row := query (λ d, visible_executions c d !! id) in
  match row with
  | Some e => aret (mapExecution e)
  | None => athrow (taskError "RHINOQ_EXECUTION_NOT_FOUND")
  end.

Definition getTaskExecutionForOwner (id ownerId tenantId : string) : io execution :=
  athrow_if (js_blank id || js_blank ownerId || js_blank tenantId) TypeError ;+
  let+ row := query (λ d, e ← visible_executions c d !! id;
    t ← visible_tasks c d !! e_task_id e;
    if bool_decide (t_owner t = Some ownerId) && bool_decide (t_tenant t = tenantId)
    then Some e else None) in
  match row with
  | Some e => aret (mapExecution e)
  | None => athrow (taskError "RHINOQ_EXECUTION_NOT_FOUND")
  end.

(** The rows of [WHERE runtime = $1 AND runtime_scope = $2 AND external_id = $3
    AND superseded_at IS NULL]. *)
Definition matches_ref (runtime externalId scope : string) (e : exec_row) : bool :=
  bool_decide (e_runtime e = runtime) && bool_decide (e_runtime_scope e = scope)
  && bool_decide (e_external_id e = Some externalId) && live e.

Definition lookupTaskExecution (runtime externalId scope : string) : io execution :=
  let+ rows := query (λ d, map_rows (matches_ref runtime externalId scope) (visible_executions c d)) in
  match rows with
  | e :: _ => aret (mapExecution e)
  | [] => athrow (taskError "RHINOQ_EXECUTION_NOT_FOUND")
  end.

Definition createTask (rq : TaskCreateRequest) : io snapshot :=
  athrow_if (isEmpty (rq_id rq) || isEmpty (rq_type rq)) TypeError ;+
  let definitionVersion := default 1 (rq_definitionVersion rq) in
  athrow_if (definitionVersion <=? 0) RangeError ;+
  let tenant := default "default" (truthy (js_trim <$> rq_tenantId rq)) in
  execute c (CreateTask (rq_id rq) (rq_type rq) tenant (rq_ownerId rq) definitionVersion) ;+
  getTask (rq_id rq).

Definition createTaskExecution (taskId : string) (rq : TaskExecutionCreateRequest) : io snapshot :=
  athrow_if (isEmpty taskId || isEmpty (rx_id rq) || isEmpty (rx_runtime rq)) TypeError ;+
  execute c (CreateExecution (rx_id rq) taskId (Some (default "default" (rx_itemKey rq)))
    (rx_runtime rq) (Some (default "" (rx_runtimeScope rq))) (rx_externalId rq)) ;+
  getTask taskId.

Definition bindTaskExecution (id : string) (bd : TaskExecutionBinding) : io snapshot :=
  let+ x := getTaskExecution id in
  let externalId := match bd_externalId bd with Some e => Some e | None => bd_jobId bd end in
  match truthy externalId with
  | Some ext =>
      athrow_if (isEmpty (bd_runtime bd)) TypeError ;+
      execute c (BindExecution id (x_version x) (bd_runtime bd)
        (Some (default "" (bd_runtimeScope bd))) ext) ;+
      getTask (x_taskId x)
  | None => athrow TypeError
  end.

Definition transitionTaskExecution (id : string) (v : Z) (state : string) (reason : option string)
    : io snapshot :=
  validateVersion v ;+
  let+ x := getTaskExecution id in
  execute c (TransitionExecution id v state reason) ;+
  getTask (x_taskId x).

Definition transitionTaskExecutionForOwner (id ownerId tenantId : string) (v : Z) (state : string)
    (reason : option string) : io snapshot :=
  validateVersion v ;+
  athrow_if (js_blank id || js_blank ownerId || js_blank tenantId) TypeError ;+
  athrow_if (js_blank state) TypeError ;+
  let+ x := getTaskExecutionForOwner id ownerId tenantId in
  execute c (TransitionExecutionForOwner id tenantId ownerId v state reason) ;+
  getTaskForOwner (x_taskId x) ownerId tenantId.

Definition attachTaskExecutionResult (id : string) (v : Z) (reference : string) : io snapshot :=
  validateVersion v ;+
  athrow_if (js_blank reference) TypeError ;+
  let+ x := getTaskExecution id in
  execute c (AttachExecutionResult id v reference) ;+
  getTask (x_taskId x).

Definition retryTaskExecution (id : string) (v : Z) (nextId : string) : io snapshot :=
  let+ x := getTaskExecution id in
  execute c (RetryExecution id v nextId) ;+
  getTask (x_taskId x).

Definition as_number (a : answer) : Z := match a with Number z => z | Flag _ => 0 end.
Definition as_true (a : answer) : bool := match a with Flag b => b | Number _ => false end.

Definition createTaskExecutionAck (taskId : string) (rq : TaskExecutionCreateRequest) : io Z :=
  athrow_if (js_blank taskId || js_blank (rx_id rq) || js_blank (rx_runtime rq)) TypeError ;+
  let+ a := execute c (CreateExecution (rx_id rq) taskId (Some (default "default" (rx_itemKey rq)))
    (rx_runtime rq) (Some (default "" (rx_runtimeScope rq))) (rx_externalId rq)) in
  aret (as_number a).

Definition bindTaskExecutionAck (id : string) (bd : TaskExecutionBinding) : io Z :=
  let externalId := match bd_externalId bd with Some e => Some e | None => bd_jobId bd end in
  match truthy externalId with
  | Some ext =>
      athrow_if (isEmpty (bd_runtime bd)) TypeError ;+
      let+ x := getTaskExecution id in
      let+ a := execute c (BindExecution id (x_version x) (bd_runtime bd)
        (Some (default "" (bd_runtimeScope bd))) ext) in
      aret (as_number a)
  | None => athrow TypeError
  end.

Definition transitionTaskExecutionAck (id : string) (v : Z) (state : string) (reason : option string)
    : io Z :=
  validateVersion v ;+
  let+ a := execute c (TransitionExecution id v state reason) in
  aret (as_number a).

Definition attachTaskExecutionResultAck (id : string) (v : Z) (reference : string) : io Z :=
  validateVersion v ;+
  athrow_if (js_blank reference) TypeError ;+
  let+ a := execute c (AttachExecutionResult id v reference) in
  aret (as_number a).

Definition syncTaskItemProgress (taskId : string) : io Z :=
  athrow_if (js_blank taskId) TypeError ;+
  let+ a := execute c (SyncItemProgress taskId) in
  aret (as_number a).

Definition settleTaskItems (taskId : string) : io bool :=
  athrow_if (js_blank taskId) TypeError ;+
  let+ a := execute c (SettleItems taskId) in
  aret (as_true a).

Definition transitionTask (taskId : string) (v : Z) (state : string) : io snapshot :=
  validateVersion v ;+
  let direct := execute c (TransitionTask taskId v state) ;+ getTask taskId in
  if bool_decide (state = "running") then
    let+ current := getTask taskId in
    if bool_decide (s_state current = Pending) && (s_entityVersion current =? v) then
      execute c (TransitionTask taskId v "queued") ;+
      execute c (TransitionTask taskId (v + 1) state) ;+
      getTask taskId
    else direct
  else direct.

Definition reportTaskProgress (taskId : string) (v : Z) (p : progress) : io snapshot :=
  validateVersion v ;+
  validateProgress p ;+
  execute c (ReportProgress taskId v (p_completed p) (default 0 (p_total p))
    (bool_decide (is_Some (p_total p))) (p_message p)) ;+
  getTask taskId.

Definition requestTaskCancellation (taskId : string) (v : Z) : io snapshot :=
  validateVersion v ;+
  execute c (RequestCancellation taskId v) ;+
  getTask taskId.

Definition requestTaskCancellationForOwner (taskId ownerId : string) (v : Z) (tenantId : string)
    : io snapshot :=
  getTaskForOwner taskId ownerId tenantId ;+
  requestTaskCancellation taskId v.

Definition resolveTaskCancellation (taskId : string) (v : Z) (status : string) (reason : option string)
    : io snapshot :=
  validateVersion v ;+
  execute c (ResolveCancellation taskId v status reason) ;+
  getTask taskId.

Definition getTaskResult (taskId : string) : io task_result :=
  let+ task := getTask taskId in
  let+ row := query (λ d, t ← visible_tasks c d !! taskId;
                          r ← truthy (t_result_ref t); Some (r, t_updated_at t)) in
  match row with
  | Some (reference, at_) => aret (TaskResult (s_entityVersion task) taskId reference at_)
  | None => athrow (taskError "RHINOQ_TASK_RESULT_NOT_FOUND")
  end.

Definition attachTaskResult (taskId : string) (v : Z) (reference : string) : io task_result :=
  validateVersion v ;+
  athrow_if (js_blank reference) TypeError ;+
  execute c (AttachTaskResult taskId v reference) ;+
  getTaskResult taskId.

(** [WHERE id = $1 AND ($2 IS NULL OR owner_id = $2) AND ($3 IS NULL OR tenant_id = $3)] *)
Definition task_sql (id : string) (owner tenant : option string) (d : db) : option task_row :=
  t ← visible_tasks c d !! id;
  if match owner with Some o => bool_decide (t_owner t = Some o) | None => true end
     && match tenant with Some n => bool_decide (t_tenant t = n) | None => true end
  then Some t else None.

(** The cheap version probe, then the full read only when the caller is behind. *)
Definition readTaskIfNewer (taskId : string) (sinceVersion : Z) (owner tenant : option string)
    : io (option snapshot) :=
  athrow_if (js_blank taskId) TypeError ;+
  athrow_if (sinceVersion <? 0) RangeError ;+
  let+ row := query (task_sql taskId owner tenant) in
  match row with
  | None => athrow (taskError "RHINOQ_TASK_NOT_FOUND")
  | Some t => if t_version t <=? sinceVersion then aret None else
              let+ s := readTask taskId owner tenant in aret (Some s)
  end.

Definition getTaskIfNewerThan (taskId : string) (sinceVersion : Z) : io (option snapshot) :=
  readTaskIfNewer taskId sinceVersion None None.

Definition getTaskForOwnerIfNewerThan (taskId : string) (sinceVersion : Z) (ownerId tenantId : string)
    : io (option snapshot) :=
  athrow_if (js_blank ownerId) TypeError ;+
  readTaskIfNewer taskId sinceVersion (Some ownerId) (Some tenantId).

Definition mapSummary (t : task_row) (items : option exec_counts) : summary :=
  Summary (mapSnapshot t []) (t_counts t)
    ((λ n, (n, Z.max 0 (n_total (t_counts t) - n_total n))) <$> items).

Definition readTaskSummary (taskId : string) (owner tenant : option string) : io summary :=
  athrow_if (js_blank taskId) TypeError ;+
  let+ row := query (λ d, t ← task_sql taskId owner tenant d;
    Some (mapSummary t (Some (rows_counts (map_rows (live_of_task taskId) (visible_executions c d)))))) in
  match row with
  | Some s => aret s
  | None => athrow (taskError "RHINOQ_TASK_NOT_FOUND")
  end.

Definition listTasksByState (q : TaskStateQuery) : io (list summary) :=
  athrow_if ((length (q_states q) =? 0)%nat || (8 <? length (q_states q))%nat) RangeError ;+
  let limit := default 100 (q_limit q) in
  athrow_if ((limit <=? 0) || (500 <? limit)) RangeError ;+
  let idleFor := default 0 (q_idleForMs q) in
  athrow_if (idleFor <? 0) RangeError ;+
  let+ rows := query_at (λ now d, map_rows (λ t,
      bool_decide (t_state t ∈ q_states q)
      && (t_updated_at t <=? now - idleFor)
      && match q_itemsSettled q with
         | None => true
         | Some b => Bool.eqb (bool_decide (is_Some (t_items_settled_at t))) b
         end
      && (isEmpty (default "" (q_ownerId q)) || bool_decide (t_owner t = q_ownerId q))
      && (isEmpty (default "" (q_tenantId q)) || bool_decide (Some (t_tenant t) = q_tenantId q)))
    (visible_tasks c d)) in
  aret ((λ t, mapSummary t None) <$> take (Z.to_nat limit) (merge_sort oldest_le rows)).
End methods.

(** ** [onceForItem]

    The claim and the callback's writes are one PostgreSQL transaction; [S] is
    the application state the callback reads and writes on that connection. *)
Definition onceForItem {S T} (c : session) (executionId effectKey : string)
    (operation : S → result js_error (T * S)) : act (world * S) js_error (bool * option T) :=
  λ ws,
    let (w, s) := ws in
    if js_blank executionId || js_blank effectKey then (Err TypeError, (w, s)) else
    let w1 := interfere w in
    match claim_item_effect c (w_now w1) executionId effectKey (w_db w1) with
    | Err e => (Err (mapDatabaseError e), (w1, s))
    | Ok (claimed, d') =>
        let committed := World d' (w_env w1) (w_now w1) (w_log w1 ++ [ClaimItemEffect executionId effectKey]) in
        if negb claimed then (Ok (false, None), (committed, s)) else
        match operation s with
        | Err e => (Err e, (w1, s))
        | Ok (value, s') => (Ok (true, Some value), (committed, s'))
        end
    end.

(** ** The interface [TaskClient] (tasks/client.ts)

    The methods the lifecycle adapters use; [retryTaskExecution] is optional
    there (the Gateway client has none). *)
Class TaskClient := {
  cl_getTask : string → io snapshot;
  cl_getTaskExecution : string → io execution;
  cl_lookupTaskExecution : string → string → string → io execution;
  cl_transitionTask : string → Z → string → io snapshot;
  cl_transitionTaskExecution : string → Z → string → option string → io snapshot;
  cl_attachTaskExecutionResult : string → Z → string → io snapshot;
  cl_reportTaskProgress : string → Z → progress → io snapshot;
  cl_requestTaskCancellation : string → Z → io snapshot;
  cl_attachTaskResult : string → Z → string → io task_result;
  cl_retryTaskExecution : option (string → Z → string → io snapshot);
}.

Definition PostgresTaskClient (c : session) : TaskClient := {|
  cl_getTask := getTask c;
  cl_getTaskExecution := getTaskExecution c;
  cl_lookupTaskExecution := lookupTaskExecution c;
  cl_transitionTask := transitionTask c;
  cl_transitionTaskExecution := transitionTaskExecution c;
  cl_attachTaskExecutionResult := attachTaskExecutionResult c;
  cl_reportTaskProgress := reportTaskProgress c;
  cl_requestTaskCancellation := requestTaskCancellation c;
  cl_attachTaskResult := attachTaskResult c;
  cl_retryTaskExecution := Some (retryTaskExecution c);
|}.
