(* ===== verification/ClientFacts.v ===== *)
(** * What the client's methods do

    Specifications of the methods of [TaskClient] when no other process writes
    in between, in terms of one Task row and one of its Execution rows
    ([at_rows]); the projector and handle theorems are proved from them. Then
    the client-level theorems: the two-step start, the conditional read, the
    summary, and the transactional item effect. *)

From stdpp Require Import base gmap strings list fin_maps sorting relations.
From Stdlib Require Import Ascii ZArith Lia.
From S2P Require Import Prelude TaskModel TaskCommands ExecutionCommands StoreSteps StoreInvariant StoreSafety TaskClient.

Open Scope act_scope.

(** ** Commands that succeed *)

Lemma task_state_of_name s : task_state_of (task_state_name s) = Some s.
Proof. by destruct s. Qed.

Lemma exec_state_of_name s : exec_state_of (exec_state_name s) = Some s.
Proof. by destruct s. Qed.

Lemma exec_state_name_inj s1 s2 : exec_state_name s1 = exec_state_name s2 → s1 = s2.
Proof. intros H. apply (f_equal exec_state_of) in H. rewrite !exec_state_of_name in H. by simplify_eq. Qed.

Lemma bigint_succ_ok v : v + 1 ≤ INT8_MAX → bigint_succ v = Ok (v + 1).
Proof. intros H. unfold bigint_succ, int_succ. by rewrite (proj2 (Z.leb_le _ _) H). Qed.

Definition transitioned (now : Z) (s : task_state) (t : task_row) : task_row :=
  t_touch (t_version t + 1) now
    (t_with_cancellation (cancellation_after (t_state t) s (t_cancellation t)) (t_with_state s t)).

Lemma select_task_visible c k code d t :
  db_tasks d !! k = Some t → rls_allows c (t_tenant t) = true → select_task c k code d = Ok (t, d).
Proof. intros. by apply select_task_ok. Qed.

Lemma select_execution_visible c k code d e :
  db_executions d !! k = Some e → rls_allows c (e_tenant e) = true →
  select_execution c k code d = Ok (e, d).
Proof. intros. by apply select_execution_ok. Qed.

Lemma update_task_visible c k f d t t' :
  db_tasks d !! k = Some t → rls_allows c (t_tenant t) = true → f t = Ok t' →
  update_task c k f d = Ok (tt, put_task d k t t').
Proof. intros Hk Hv Hf. apply (update_selected c k f d t); eauto. Qed.

Lemma transition_task_forward c now k t s d :
  db_tasks d !! k = Some t → rls_allows c (t_tenant t) = true →
  task_edge (t_state t) s = true → t_version t + 1 ≤ INT8_MAX →
  run_command c now (TransitionTask k (t_version t) (task_state_name s)) d =
  Ok (Number (t_version t + 1), put_task d k t (transitioned now s t)).
Proof.
  intros Hk Hv He Hm. cbn [run_command]. apply number_ok. eexists. split; [done|].
  unfold transition_task, tbind. rewrite (select_task_visible _ _ _ _ t) by done.
  rewrite Z.eqb_refl. unfold fail_if, traise_if, tret. cbn [negb]. rewrite task_state_of_name, He.
  unfold tlift. rewrite bigint_succ_ok by done.
  by rewrite (update_task_visible _ _ _ _ t (transitioned now s t)) by done.
Qed.

Lemma report_progress_forward c now k t total message d :
  db_tasks d !! k = Some t → rls_allows c (t_tenant t) = true →
  progress_open (t_state t) = true → p_completed (t_progress t) < total → 0 ≤ total →
  (p_total (t_progress t) = None ∨ p_total (t_progress t) = Some total) →
  t_version t + 1 ≤ INT8_MAX →
  ∃ t', run_command c now (ReportProgress k (t_version t) total total true message) d =
    Ok (Number (t_version t + 1), put_task d k t t') ∧
    t_state t' = t_state t ∧ t_version t' = t_version t + 1 ∧ t_tenant t' = t_tenant t ∧
    t_result_ref t' = t_result_ref t ∧ p_completed (t_progress t') = total ∧
    p_total (t_progress t') = Some total.
Proof.
  intros Hk Hv Ho Hlt Hnn Htot Hm.
  eexists. split.
  - cbn [run_command]. apply number_ok. eexists. split; [done|].
    unfold report_progress, tbind. rewrite (select_task_visible _ _ _ _ t) by done.
    unfold fail_if, traise_if. rewrite Ho. cbn -[Z.eqb Z.ltb].
    rewrite (proj2 (Z.ltb_ge total 0)), (proj2 (Z.ltb_ge total total)) by lia. cbn -[Z.eqb Z.ltb].
    rewrite (proj2 (Z.eqb_neq _ _)) by lia. cbn -[Z.eqb Z.ltb]. rewrite Z.eqb_refl. cbn -[Z.eqb Z.ltb].
    rewrite (proj2 (Z.ltb_ge total (p_completed (t_progress t)))) by lia.
    assert (bool_decide (is_Some (p_total (t_progress t)))
      && is_distinct (p_total (t_progress t)) (Some total) = false) as ->.
    { destruct Htot as [-> | ->]; [done|]. unfold is_distinct. by rewrite !bool_decide_eq_true_2 by eauto. }
    unfold tret, tlift. rewrite bigint_succ_ok by done.
    rewrite (update_task_visible _ _ _ _ t (t_touch (t_version t + 1) now
      (t_with_progress (Progress total (Some total) (nullif_empty (default "" message))) t))) by done.
    done.
  - done.
Qed.

Definition moved (now : Z) (s : exec_state) (r : option string) (e : exec_row) : exec_row :=
  e_touch (e_version e + 1) now (e_with_state s r e).

Lemma transition_execution_forward c now e t s reason d :
  linked d → db_executions d !! e_id e = Some e → db_tasks d !! e_task_id e = Some t →
  rls_allows c (e_tenant e) = true → e_state e ≠ s →
  exec_edge (is_bound e) (e_state e) s = true →
  e_version e + 1 ≤ INT8_MAX → t_version t + 1 ≤ INT8_MAX →
  ∃ r n d', run_command c now (TransitionExecution (e_id e) (e_version e) (exec_state_name s) reason) d =
    Ok (Number (e_version e + 1), d') ∧
    db_executions d' = <[e_id e := moved now s r e]> (db_executions d) ∧
    db_tasks d' = <[e_task_id e := counted now n t]> (db_tasks d).
Proof.
  intros Hl He Ht Hv Hne Hedge Hm Htm.
  destruct (linked_parent _ Hl _ _ He) as (t0 & Ht0 & Hten). assert (t0 = t) as -> by congruence.
  set (r := if bool_decide (s = EFailed) then failure_reason_of reason else e_failure_reason e).
  exists r. do 2 eexists. split; [|split].
  - cbn [run_command]. apply number_ok. eexists. split; [done|].
    unfold transition_execution, transition_selected, tbind.
    rewrite (select_execution_visible _ _ _ _ e) by done.
    rewrite bool_decide_eq_false_2 by (intros E; by apply exec_state_name_inj in E).
    unfold fence_execution. rewrite Z.eqb_refl, exec_state_of_name, Hedge.
    unfold tret, tlift. rewrite bigint_succ_ok by done. unfold update_execution.
    set (d1 := Db (db_tasks d) (<[e_id e := moved now s r e]> (db_executions d)) (db_notes d)).
    assert (execution_counts_updated c now [(e, moved now s r e)] d1 = Ok (tt,
      put_task d1 (e_task_id e) t (counted now (counts_move (t_counts t) (rows_counts [e])
        (rows_counts [moved now s r e])) t))) as Hup.
    { apply (counts_updated_ok c now e (moved now s r e) d1 t); cbn; try done. congruence. }
    match goal with |- context [execution_counts_updated c now ?l ?x] =>
      change (execution_counts_updated c now l x) with
        (execution_counts_updated c now [(e, moved now s r e)] d1) end.
    rewrite Hup. reflexivity.
  - done.
  - done.
Qed.

(** ** A quiet world around one Task and one attempt *)

Record at_rows (c : session) (w : world) (k : string) (t : task_row) (i : string) (e : exec_row) : Prop := {
  at_quiet : w_env w = [];
  at_wf : wf (w_db w);
  at_task : db_tasks (w_db w) !! k = Some t;
  at_exec : db_executions (w_db w) !! i = Some e;
  at_parent : e_task_id e = k;
  at_visible : rls_allows c (t_tenant t) = true;
  at_id : js_blank k = false;
}.

(** The two rows leave room for [n] more version bumps. *)
Definition room (n : Z) (t : task_row) (e : exec_row) : Prop :=
  t_version t + n ≤ INT8_MAX ∧ e_version e + n ≤ INT8_MAX.

Definition tick (w : world) : world := World (w_db w) [] (w_now w + 1) (w_log w).

Lemma interfere_quiet w : w_env w = [] → interfere w = tick w.
Proof. intros H. unfold interfere. by rewrite H. Qed.

Lemma query_quiet {A} (f : db → A) w : w_env w = [] → query f w = (Ok (f (w_db w)), tick w).
Proof. intros H. unfold query. by rewrite interfere_quiet. Qed.

Lemma execute_quiet c cmd w a d' :
  w_env w = [] → run_command c (w_now w + 1) cmd (w_db w) = Ok (a, d') →
  execute c cmd w = (Ok a, World d' [] (w_now w + 1) (w_log w ++ [cmd])).
Proof. intros H Hr. unfold execute. rewrite interfere_quiet by done. cbn. by rewrite Hr. Qed.

Lemma execute_quiet_err c cmd w e :
  w_env w = [] → run_command c (w_now w + 1) cmd (w_db w) = Err e →
  execute c cmd w = (Err (mapDatabaseError e), World (w_db w) [] (w_now w + 1) (w_log w ++ [cmd])).
Proof. intros H Hr. unfold execute. rewrite interfere_quiet by done. cbn. by rewrite Hr. Qed.

Lemma run_command_wf c now cmd d a d' : wf d → run_command c now cmd d = Ok (a, d') → wf d'.
Proof.
  intros Hwf H. apply run_command_steps in H; [|by apply wf_linked].
  clear a cmd. induction H as [|d d1 d' Hs _ IH]; [done|]. apply IH. by eapply step_wf.
Qed.

Section specs.
Context (c : session).

Lemma at_exec_id w k t i e : at_rows c w k t i e → e_id e = i.
Proof. intros H. eapply linked_exec; [apply wf_linked|]; apply H. Qed.

Lemma at_task_id w k t i e : at_rows c w k t i e → t_id t = k.
Proof. intros H. eapply linked_task; [apply wf_linked|]; apply H. Qed.

Lemma at_exec_visible w k t i e : at_rows c w k t i e → rls_allows c (e_tenant e) = true.
Proof.
  intros H. destruct (linked_parent (w_db w) (wf_linked _ (at_wf _ _ _ _ _ _ H)) i e (at_exec _ _ _ _ _ _ H))
    as (t0 & Ht0 & <-).
  rewrite (at_parent _ _ _ _ _ _ H), (at_task _ _ _ _ _ _ H) in Ht0. injection Ht0 as <-. apply H.
Qed.

Lemma at_version w k t i e : at_rows c w k t i e → 1 ≤ t_version t ∧ 1 ≤ e_version e.
Proof.
  intros H. split.
  - by apply tok_version, (wf_tasks (w_db w) (at_wf _ _ _ _ _ _ H) k), H.
  - by apply eok_version, (wf_executions (w_db w) (at_wf _ _ _ _ _ _ H) i), H.
Qed.

Lemma at_tick w k t i e : at_rows c w k t i e → at_rows c (tick w) k t i e.
Proof. intros []. by split. Qed.

Lemma getTask_spec w k t i e :
  at_rows c w k t i e → ∃ l, getTask c k w = (Ok (mapSnapshot t l), tick w).
Proof.
  intros H. unfold getTask, readTask, abind, athrow_if. rewrite (at_id _ _ _ _ _ _ H).
  cbn [aret]. unfold aret. rewrite query_quiet by apply H. unfold snapshot_sql.
  assert (visible_tasks c (w_db w) !! k = Some t) as -> by (apply visible_tasks_lookup; split; apply H).
  cbn. eauto.
Qed.

Lemma getTaskExecution_spec w k t i e :
  at_rows c w k t i e → getTaskExecution c i w = (Ok (mapExecution e), tick w).
Proof.
  intros H. unfold getTaskExecution, abind. rewrite query_quiet by apply H.
  assert (visible_executions c (w_db w) !! i = Some e) as ->; [|done].
  apply visible_executions_lookup. split; [apply H|by eapply at_exec_visible].
Qed.

(** Running a command that rewrites the Task row. *)
Lemma at_put_task w k t i e cmd a t' :
  at_rows c w k t i e → t_tenant t' = t_tenant t →
  run_command c (w_now w + 1) cmd (w_db w) = Ok (a, put_task (w_db w) k t t') →
  ∃ w', execute c cmd w = (Ok a, w') ∧ at_rows c w' k t' i e.
Proof.
  intros H Hten Hr. eexists. split; [apply execute_quiet; [apply H|exact Hr]|].
  split; cbn; try done; try (by apply H).
  - by eapply run_command_wf; [apply H|exact Hr].
  - apply lookup_insert_eq.
  - rewrite Hten. apply H.
Qed.

Lemma validateVersion_ok v w : 1 ≤ v → validateVersion v w = (Ok tt, w).
Proof.
  intros H. unfold validateVersion, athrow_if. destruct (Z.leb_spec v 0); [lia|done].
Qed.

Lemma transitionTask_spec w k t i e s :
  at_rows c w k t i e → task_edge (t_state t) s = true → t_version t + 1 ≤ INT8_MAX →
  ∃ w' now l, transitionTask c k (t_version t) (task_state_name s) w =
    (Ok (mapSnapshot (transitioned now s t) l), w') ∧ at_rows c w' k (transitioned now s t) i e.
Proof.
  intros H He Hm. unfold transitionTask, abind.
  rewrite validateVersion_ok by (eapply at_version, H).
  assert (∀ w1, at_rows c w1 k t i e → ∃ w' now l,
    (execute c (TransitionTask k (t_version t) (task_state_name s)) ;+ getTask c k) w1 =
    (Ok (mapSnapshot (transitioned now s t) l), w') ∧ at_rows c w' k (transitioned now s t) i e) as Hdirect.
  { intros w1 H1. unfold abind.
    destruct (at_put_task w1 k t i e (TransitionTask k (t_version t) (task_state_name s))
      (Number (t_version t + 1)) (transitioned (w_now w1 + 1) s t)) as (w2 & -> & H2); [done|done| |].
    { apply transition_task_forward; try done; apply H1. }
    destruct (getTask_spec _ _ _ _ _ H2) as [l ->]. do 3 eexists. split; [done|]. by apply at_tick. }
  destruct (bool_decide (task_state_name s = "running")) eqn:Hrun; [|by apply Hdirect].
  destruct (getTask_spec _ _ _ _ _ H) as [l ->]. cbn.
  rewrite bool_decide_eq_false_2; [by apply Hdirect, at_tick|].
  to_prop. intros E. rewrite E in He. by destruct s.
Qed.

Lemma transitionTaskExecution_spec w k t i e s reason :
  at_rows c w k t i e → e_state e ≠ s → exec_edge (is_bound e) (e_state e) s = true → room 1 t e →
  ∃ w' now r n l, transitionTaskExecution c i (e_version e) (exec_state_name s) reason w =
    (Ok l, w') ∧ at_rows c w' k (counted now n t) i (moved now s r e).
Proof.
  intros H Hne Hedge [Hrt Hre]. unfold transitionTaskExecution, abind.
  rewrite validateVersion_ok by (eapply at_version, H).
  rewrite (getTaskExecution_spec _ _ _ _ _ H). cbn [x_taskId mapExecution].
  pose proof (at_exec_id _ _ _ _ _ H) as Hid. subst i.
  destruct (transition_execution_forward c (w_now (tick w) + 1) e t s reason (w_db w))
    as (r & n & d' & Hrun & Hex & Hta);
    [apply wf_linked, H|apply H| |by eapply at_exec_visible|done..|].
  { rewrite (at_parent _ _ _ _ _ _ H). apply H. }
  rewrite (execute_quiet _ _ (tick w) _ _ eq_refl Hrun).
  match goal with |- context [getTask c _ ?x] => set (w1 := x) end.
  assert (at_rows c w1 k (counted (w_now (tick w) + 1) n t) (e_id e) (moved (w_now (tick w) + 1) s r e)) as H1.
  { split; cbn; try done; try (by apply H).
    - by eapply run_command_wf; [apply H|exact Hrun].
    - rewrite Hta, (at_parent _ _ _ _ _ _ H). apply lookup_insert_eq.
    - rewrite Hex. apply lookup_insert_eq. }
  rewrite (at_parent _ _ _ _ _ _ H). destruct (getTask_spec _ _ _ _ _ H1) as [l ->].
  do 5 eexists. split; [done|]. by apply at_tick.
Qed.
End specs.

(** ** Two-step start *)

(** [transitionTask(id, v, 'running')] on a pending Task performs both edges of the
    state machine: with no concurrent writer it returns the running Task two
    versions on, and commits exactly the transitions to queued and to running. *)
Theorem start_from_pending : ∀ c w k t,
  w_env w = [] → db_tasks (w_db w) !! k = Some t → rls_allows c (t_tenant t) = true →
  js_blank k = false → t_state t = Pending → 1 ≤ t_version t → t_version t + 2 ≤ INT8_MAX →
  ∃ s w', transitionTask c k (t_version t) "running" w = (Ok s, w') ∧
    s_state s = Running ∧ s_entityVersion s = t_version t + 2 ∧
    w_log w' = w_log w ++ [TransitionTask k (t_version t) "queued"; TransitionTask k (t_version t + 1) "running"].
Proof.
  intros c w k t Hq Hk Hv Hb Hs H1 Hm.
  assert (∀ w1 t1, w_env w1 = [] → db_tasks (w_db w1) !! k = Some t1 → rls_allows c (t_tenant t1) = true →
    ∃ l, getTask c k w1 = (Ok (mapSnapshot t1 l), tick w1)) as Hget.
  { intros w1 t1 Hq1 Hk1 Hv1. unfold getTask, readTask, abind, athrow_if. rewrite Hb.
    unfold aret. rewrite query_quiet by done. unfold snapshot_sql.
    assert (visible_tasks c (w_db w1) !! k = Some t1) as -> by by apply visible_tasks_lookup.
    cbn. eauto. }
  unfold transitionTask, abind. rewrite validateVersion_ok by done. rewrite bool_decide_eq_true_2 by done.
  destruct (Hget w t) as [l ->]; [done..|]. cbn [s_state s_entityVersion mapSnapshot].
  rewrite Hs, Z.eqb_refl, bool_decide_eq_true_2 by done. cbn [andb].
  pose proof (transition_task_forward c (w_now (tick w) + 1) k t Queued (w_db w) Hk Hv) as Hq1.
  rewrite Hs in Hq1. specialize (Hq1 eq_refl ltac:(lia)). cbn [task_state_name] in Hq1.
  rewrite (execute_quiet c _ (tick w) _ _ eq_refl Hq1).
  match goal with |- context [execute c _ ?x] => set (w1 := x) end.
  set (t1 := transitioned (w_now (tick w) + 1) Queued t) in *.
  pose proof (transition_task_forward c (w_now w1 + 1) k t1 Running (w_db w1)
    (lookup_insert_eq _ _ _) Hv eq_refl ltac:(cbn; lia)) as Hq2.
  change (t_version t1) with (t_version t + 1) in Hq2. cbn [task_state_name] in Hq2.
  rewrite (execute_quiet c _ w1 _ _ eq_refl Hq2).
  match goal with |- context [getTask c _ ?x] => set (w2 := x) end.
  destruct (Hget w2 (transitioned (w_now w1 + 1) Running t1)) as [l2 ->]; [done|apply lookup_insert_eq|done|].
  do 2 eexists. split; [done|]. cbn. split_and!; [done|lia|]. by rewrite <-app_assoc.
Qed.

Definition pending_db : db := (run_history (take 1 demo_events) empty_db).2.

Lemma start_from_pending_witness :
  ∃ s w', transitionTask demo_session "t1" 1 "running" (World pending_db [] 10 []) = (Ok s, w') ∧
    s_state s = Running ∧ s_entityVersion s = 3 ∧
    w_log w' = [TransitionTask "t1" 1 "queued"; TransitionTask "t1" 2 "running"].
Proof.
  destruct (db_tasks pending_db !! "t1") as [t|] eqn:Ht; [|by vm_compute in Ht].
  assert (t_version t = 1 ∧ t_tenant t = "acme" ∧ t_state t = Pending) as (H1 & H2 & H3)
    by (vm_compute in Ht; injection Ht as <-; split_and!; reflexivity).
  pose proof (start_from_pending demo_session (World pending_db [] 10 []) "t1" t eq_refl Ht) as H.
  rewrite H1, H2 in H. apply H; [reflexivity|reflexivity|exact H3|lia|unfold INT8_MAX; lia].
Defined.

(** ** Conditional reads *)

Lemma interfere_history w : ∃ h, w_db (interfere w) = (run_history h (w_db w)).2.
Proof. unfold interfere. destruct (w_env w) as [|h rest]; [by exists []|by exists h]. Qed.

Lemma interfere_steps w : linked (w_db w) → rtc any_step (w_db w) (w_db (interfere w)).
Proof. intros Hl. destruct (interfere_history w) as [h ->]. by apply run_history_steps. Qed.

Lemma snapshot_sql_version c k d s :
  snapshot_sql c k None None d = Some s → ∃ t, db_tasks d !! k = Some t ∧ s_entityVersion s = t_version t.
Proof.
  unfold snapshot_sql. destruct (visible_tasks c d !! k) as [t|] eqn:E; [|done].
  apply visible_tasks_lookup in E as [E _]. cbn. intros [= <-]. eauto.
Qed.

Lemma readTask_ok c k w s w' :
  readTask c k None None w = (Ok s, w') →
  ∃ t, db_tasks (w_db (interfere w)) !! k = Some t ∧ s_entityVersion s = t_version t.
Proof.
  unfold readTask, abind, athrow_if. destruct (js_blank k); [done|]. unfold aret, query.
  destruct (snapshot_sql c k None None (w_db (interfere w))) as [s0|] eqn:E; [|done].
  intros [= <- _]. by eapply snapshot_sql_version.
Qed.

(** [getTaskIfNewerThan] is sound under any interference: a snapshot it returns is
    strictly newer than the version the caller holds, and when it returns
    nothing the Task was at or before that version when it was probed, so with
    the version a caller already has it misses no change. *)
Theorem getTaskIfNewerThan_sound : ∀ c k since w r w',
  linked (w_db w) → getTaskIfNewerThan c k since w = (Ok r, w') →
  match r with
  | Some s => since < s_entityVersion s
  | None => ∃ t, db_tasks (w_db w') !! k = Some t ∧ t_version t ≤ since
  end.
Proof.
  intros c k since w r w' Hl. unfold getTaskIfNewerThan, readTaskIfNewer, abind, athrow_if.
  destruct (js_blank k); [done|]. unfold aret. destruct (since <? 0); [done|]. unfold athrow, query.
  destruct (task_sql c k None None (w_db (interfere w))) as [t|] eqn:E; [|done].
  assert (db_tasks (w_db (interfere w)) !! k = Some t) as Ht.
  { unfold task_sql in E. destruct (visible_tasks c _ !! k) as [t0|] eqn:E0; [|done].
    cbn in E. simplify_eq. by apply visible_tasks_lookup in E0 as [? _]. }
  destruct (Z.leb_spec (t_version t) since) as [Hle|Hgt].
  - intros [= <- <-]. eauto.
  - destruct (readTask c k None None (interfere w)) as [[s|e] w2] eqn:Hr; [|done]. intros [= <- _].
    apply readTask_ok in Hr as (t2 & Ht2 & ->).
    destruct (interfere_history w) as [h1 Hh1]. destruct (interfere_history (interfere w)) as [h2 Hh2].
    assert (linked (w_db (interfere w))) as Hl1.
    { rewrite Hh1. by eapply any_steps_linked; [apply run_history_steps|]. }
    destruct (history_version_token h2 _ _ _ Hl1 Ht) as (t2' & Ht2' & Hle & _).
    rewrite <-Hh2, Ht2 in Ht2'. injection Ht2' as <-. lia.
Qed.

Lemma getTaskIfNewerThan_sound_witness :
  ∃ s w', getTaskIfNewerThan demo_session "t1" 11 (World demo_db [] 10 []) = (Ok (Some s), w') ∧
    11 < s_entityVersion s.
Proof.
  destruct (getTaskIfNewerThan demo_session "t1" 11 (World demo_db [] 10 [])) as [[[s|]|] w'] eqn:E;
    [|by vm_compute in E..].
  exists s, w'. split; [done|].
  apply (getTaskIfNewerThan_sound demo_session "t1" 11 (World demo_db [] 10 []) (Some s) w');
    [apply reachable_linked, demo_reachable|exact E].
Defined.

(** ** Transactional item effects *)

Lemma claim_item_effect_valid c now id key d r :
  claim_item_effect c now id key d = Ok r →
  blank id || bool_decide (btrim key = "") || (256 <? Z.of_nat (String.length (btrim key))) = false.
Proof.
  unfold claim_item_effect. destruct r as [b d']. intros H. apply tbind_ok in H as (u & d1 & H1 & _).
  by apply fail_if_ok in H1 as [? _].
Qed.

Lemma claim_item_effect_again c now id key d e :
  linked d → visible_executions c d !! id = Some e →
  is_claimed (e_task_id e) (e_item_key e) (btrim key) d →
  blank id || bool_decide (btrim key = "") || (256 <? Z.of_nat (String.length (btrim key))) = false →
  claim_item_effect c now id key d = Ok (false, d).
Proof.
  intros Hl He (i & o & Ho & Hc) Hvalid. pose proof He as Hev. apply visible_executions_lookup in Hev as [Hek Hev].
  destruct (linked_parent _ Hl _ _ Hek) as (t & Ht & Hten).
  unfold claim_item_effect, tbind. rewrite Hvalid. cbn [fail_if traise_if]. unfold fail_if, traise_if, tret.
  rewrite (select_execution_visible _ _ _ _ e) by done.
  rewrite (select_task_visible _ _ _ _ t) by (done || congruence). unfold tget.
  assert (map_exists (claimed (e_task_id e) (e_item_key e) (btrim key)) (visible_executions c d) = true) as ->;
    [|done].
  apply map_exists_spec. exists i, o. split; [|done]. apply visible_executions_lookup. split; [done|].
  unfold claimed in Hc. to_prop.
  match goal with H : of_item _ _ o = true |- _ => apply of_item_spec in H as [Hto _] end.
  by rewrite (same_task_same_tenant _ _ _ _ _ Hl Ho Hek Hto).
Qed.

Lemma is_claimed_history k item key h d :
  linked d → is_claimed k item key d → is_claimed k item key (run_history h d).2.
Proof.
  intros Hl (i & e & Hi & Hc).
  destruct (history_exec_rel effects_kept write_effects_kept d (run_history h d).2 i e Hl)
    as (e' & Hi' & Hid & Hsub); [by apply run_history_steps|done|].
  exists i, e'. split; [done|]. by eapply claimed_kept.
Qed.

(** [onceForItem] runs its callback at most once per item and effect, atomically
    with the claim. When the callback throws, nothing of the transaction
    remains, so a later call may try again. Once a call returned
    [{ executed: true }], every later call for the same item and effect (from
    any attempt, process or session that can see it, after any amount of other
    work) returns [{ executed: false }] and leaves the application state alone. *)
Theorem onceForItem_at_most_once :
  ∀ S T c x key (op : S → result js_error (T * S)) (w : world) (s : S) w1 s1,
  linked (w_db w) →
  (∀ err, op s = Err err → (∃ r, claim_item_effect c (w_now (interfere w)) x key (w_db (interfere w)) = Ok (true, r)) →
     js_blank x || js_blank key = false →
     onceForItem c x key op (w, s) = (Err err, (interfere w, s))) ∧
  (∀ v, onceForItem c x key op (w, s) = (Ok (true, v), (w1, s1)) →
   ∀ e c2 x2 e2 h w2 (op2 : S → result js_error (T * S)),
     db_executions (w_db (interfere w)) !! x = Some e →
     w_db (interfere w2) = (run_history h (w_db w1)).2 →
     visible_executions c2 (w_db (interfere w2)) !! x2 = Some e2 →
     of_item (e_task_id e) (e_item_key e) e2 = true → js_blank x2 = false →
     ∃ w3, onceForItem c2 x2 key op2 (w2, s1) = (Ok (false, None), (w3, s1)) ∧ w_db w3 = w_db (interfere w2)).
Proof.
  intros S T c x key op w s w1 s1 Hl. split.
  - intros err Hop [d' Hcl] Hb. unfold onceForItem. rewrite Hb, Hcl. cbn [negb]. by rewrite Hop.
  - intros v Hrun e c2 x2 e2 h w2 op2 He Hw2 He2 Hof Hb2. unfold onceForItem in Hrun |- *.
    destruct (js_blank x || js_blank key) eqn:Hb; [done|].
    destruct (claim_item_effect c (w_now (interfere w)) x key (w_db (interfere w)))
      as [[claimed d']|] eqn:Hcl; [|done].
    destruct claimed; cbn [negb] in Hrun; [|done].
    destruct (op s) as [[v' s']|]; [|done]. injection Hrun as <- <- <-. cbn [w_db] in Hw2.
    assert (linked (w_db (interfere w))) as Hl1.
    { destruct (interfere_history w) as [h0 ->]. by eapply any_steps_linked; [apply run_history_steps|]. }
    pose proof (claim_item_effect_valid _ _ _ _ _ _ Hcl) as Hvalid.
    pose proof Hcl as Hst. apply claim_item_effect_steps in Hst; [|done].
    apply claim_item_effect_true in Hcl as (e0 & He0 & _ & Hclaimed); [|done].
    assert (e0 = e) as -> by congruence.
    assert (linked d') as Hl' by (by eapply any_steps_linked; [eapply steps_any|]).
    apply (is_claimed_history _ _ _ h) in Hclaimed; [|done]. rewrite <-Hw2 in Hclaimed.
    apply orb_false_iff in Hb as [_ Hbk]. rewrite Hb2, Hbk. cbn [orb].
    apply of_item_spec in Hof as [Hto Hit].
    rewrite (claim_item_effect_again _ _ _ _ _ e2); [cbn [negb]; eauto|..].
    + rewrite Hw2. by eapply any_steps_linked; [apply run_history_steps|].
    + done.
    + by rewrite Hto, Hit.
    + apply orb_false_iff in Hvalid as [Hvalid ->]. apply orb_false_iff in Hvalid as [_ ->].
      rewrite !orb_false_r. destruct (blank x2) eqn:E; [|done]. apply blank_js_blank in E. congruence.
Qed.

(** A counter credited once although the item's work runs twice. *)
Definition credit (n : Z) : result js_error (Z * Z) := Ok (n, n + 1).
Definition credit_world : world :=
  (onceForItem demo_session "e1" "credit" credit (World mid_db [] 10 [], 0)).2.1.

Lemma onceForItem_at_most_once_witness :
  onceForItem demo_session "e1" "credit" credit (World mid_db [] 10 [], 0) =
    (Ok (true, Some 0), (credit_world, 1)) ∧
  ∃ w3, onceForItem demo_session "e1" "credit" credit (credit_world, 1) = (Ok (false, None), (w3, 1)).
Proof.
  assert (onceForItem demo_session "e1" "credit" credit (World mid_db [] 10 [], 0) =
    (Ok (true, Some 0), (credit_world, 1))) as E by (vm_compute; reflexivity).
  split; [exact E|].
  destruct (db_executions (w_db (interfere (World mid_db [] 10 []))) !! "e1") as [e|] eqn:He;
    [|by vm_compute in He].
  destruct (visible_executions demo_session (w_db (interfere credit_world)) !! "e1") as [e2|] eqn:He2;
    [|by vm_compute in He2].
  assert (of_item (e_task_id e) (e_item_key e) e2 = true) as Hof.
  { vm_compute in He, He2. injection He as <-. injection He2 as <-. vm_compute. reflexivity. }
  assert (w_db (interfere credit_world) = (run_history [] (w_db credit_world)).2) as Hdb
    by (vm_compute; reflexivity).
  destruct (onceForItem_at_most_once Z Z demo_session "e1" "credit" credit (World mid_db [] 10 []) 0
    credit_world 1) as [_ H]; [apply reachable_linked, mid_reachable|].
  destruct (H (Some 0) E e demo_session "e1" e2 [] credit_world credit He Hdb He2 Hof eq_refl)
    as (w3 & H3 & _).
  exists w3. exact H3.
Defined.

(** ** Summaries *)

Lemma map_sum_list {V} (f : V → Z) (m : gmap string V) :
  map_sum f m = foldr (λ kv acc, f kv.2 + acc) 0 (map_to_list m).
Proof.
  unfold map_sum. rewrite map_fold_foldr. induction (map_to_list m) as [|[k v] l IH]; [done|].
  cbn. by rewrite IH.
Qed.

Lemma rows_count_map_rows p q (m : gmap string exec_row) :
  rows_count p (map_rows q m) = map_count (λ e, q e && p e) m.
Proof.
  unfold map_count. rewrite map_sum_list. unfold map_rows.
  induction (map_to_list m) as [|[k v] l IH]; [done|]. cbn. rewrite <-IH. destruct (q v); done.
Qed.

Lemma task_rows_visible c d k t p :
  linked d → db_tasks d !! k = Some t → rls_allows c (t_tenant t) = true →
  (∀ e, p e = true → e_task_id e = k) →
  map_count p (visible_executions c d) = map_count p (db_executions d).
Proof.
  intros Hl Hk Hv Hp. apply map_count_filter_all. intros i e Hi He. cbn.
  destruct (linked_parent _ Hl _ _ Hi) as (t0 & Ht0 & <-). rewrite (Hp e He) in Ht0. congruence.
Qed.

Lemma map_count_split {V} (p q : V → bool) m :
  map_count p m = map_count (λ v, p v && q v) m + map_count (λ v, p v && negb (q v)) m.
Proof.
  unfold map_count. induction m as [|k v m Hk IH] using map_ind; [done|].
  rewrite !map_sum_insert_None by done. destruct (p v), (q v); cbn; lia.
Qed.

(** A Task summary is exact: its attempt counters are a recount of the Task's
    Executions, its item total is the number of live attempts, and its retry
    count is the number of superseded ones. *)
Theorem summary_exact : ∀ c k w s w',
  reachable (w_db w) → w_env w = [] →
  readTaskSummary c k None None w = (Ok s, w') →
  sm_executionCounts s = recount k (db_executions (w_db w)) ∧
  ∃ items retries, sm_itemCounts s = Some (items, retries) ∧
    n_total items = map_count (live_of_task k) (db_executions (w_db w)) ∧
    retries = map_count (λ e, of_task k e && negb (live e)) (db_executions (w_db w)).
Proof.
  intros c k w s w' Hd Hq. unfold readTaskSummary, abind, athrow_if. destruct (js_blank k); [done|].
  unfold aret. rewrite query_quiet by done. unfold task_sql.
  destruct (visible_tasks c (w_db w) !! k) as [t|] eqn:E; [|done]. cbn. intros [= <- _].
  apply visible_tasks_lookup in E as [Hk Hv]. cbn. rewrite (reachable_counts _ Hd k t Hk).
  split; [done|]. do 2 eexists. split; [done|]. cbn.
  assert (rows_count (λ _, true) (map_rows (live_of_task k) (visible_executions c (w_db w)))
    = map_count (live_of_task k) (db_executions (w_db w))) as ->.
  { rewrite rows_count_map_rows.
    rewrite (task_rows_visible c (w_db w) k t); [|by apply reachable_linked|done|done|].
    - unfold map_count. apply map_sum_ext. intros. by rewrite andb_true_r.
    - intros e He. unfold live_of_task, of_task in He. by to_prop. }
  split; [done|]. rewrite (map_count_split (of_task k) live).
  pose proof (map_count_nonneg (λ e, of_task k e && negb (live e)) (db_executions (w_db w))).
  unfold live_of_task. lia.
Qed.

Lemma summary_exact_witness :
  ∃ s w', readTaskSummary demo_session "t1" None None (World demo_db [] 10 []) = (Ok s, w') ∧
    ∃ items, sm_itemCounts s = Some (items, 1) ∧ n_total items = 2.
Proof.
  destruct (readTaskSummary demo_session "t1" None None (World demo_db [] 10 [])) as [[s|] w'] eqn:E;
    [|by vm_compute in E].
  exists s, w'. split; [done|].
  destruct (summary_exact demo_session "t1" (World demo_db [] 10 []) s w' demo_reachable eq_refl E)
    as (_ & items & retries & Hi & Hn & Hr).
  exists items. rewrite Hi, Hn, Hr. split; vm_compute; reflexivity.
Defined.

(** ** Error classification *)

(** A second Execution of the Task, to be bound to the job "job-1" that "e1" holds. *)
Definition collision_db : db := (run_history (demo_events ++
  [Event demo_session 8 (CreateExecution "e9" "t1" (Some "c") "bullmq" (Some "q") None)]) empty_db).2.

(** Binding a runtime identity that another live attempt holds is a permanent
    conflict that the client reports as a retryable outage: the function has no
    handler for the unique violation, so the caller sees
    RHINOQ_POSTGRES_UNREACHABLE with retryable = true, and again on every retry. *)
Theorem bind_collision_reported_as_outage : ∃ h d,
  (run_history h empty_db).2 = d ∧
  ∀ now log, ∃ w', bindTaskExecution demo_session "e9"
    {| bd_runtime := "bullmq"; bd_runtimeScope := Some "q"; bd_externalId := Some "job-1"; bd_jobId := None |}
    (World d [] now log) = (Err (RhinoQError "RHINOQ_POSTGRES_UNREACHABLE" true None), w') ∧ w_db w' = d.
Proof.
  eexists _, collision_db. split; [reflexivity|]. intros now log. eexists.
  unfold bindTaskExecution, abind, getTaskExecution.
  unfold abind. rewrite query_quiet by done. cbn [w_db].
  destruct (visible_executions demo_session collision_db !! "e9") as [e|] eqn:He; [|by vm_compute in He].
  unfold aret. cbn [bd_externalId truthy bd_runtime]. unfold athrow_if, isEmpty.
  rewrite (bool_decide_eq_false_2 ("job-1" = "")), (bool_decide_eq_false_2 ("bullmq" = "")) by done.
  assert (x_version (mapExecution e) = 1) as -> by (vm_compute in He; by injection He as <-).
  unfold aret. rewrite (execute_quiet_err _ _ _ UNIQUE_VIOLATION); [split; reflexivity|done|].
  cbn [w_db w_now tick bd_runtimeScope]. vm_compute. reflexivity.
Qed.
