(* ===== verification/TaskHandle.v ===== *)
(** * The stateful Task handle

    [TaskHandle] of [tasks/handle.ts] over the interface [TaskClient], and the
    three client methods built on it ([openTask],
    [reportTaskProgressAutoVersion] and [completeTask] of
    [postgres/task-client.ts]). A handle method is an action on the world and on
    the handle's current snapshot: a call that throws leaves the snapshot of the
    last call that returned. *)

From stdpp Require Import base gmap strings list fin_maps sorting relations.
From Stdlib Require Import Ascii ZArith Lia.
From S2P Require Import Prelude TaskModel TaskCommands ExecutionCommands StoreSteps TaskClient ClientFacts.

Open Scope act_scope.

Section handle.
Context `{client : TaskClient}.

Definition hio (A : Type) : Type := act (world * snapshot) js_error A.

Definition current : hio snapshot := λ ws, (Ok ws.2, ws).

(** [this.current = await m] *)
Definition assign (m : io snapshot) : hio unit :=
  λ ws, match m ws.1 with
        | (Ok s, w') => (Ok tt, (w', s))
        | (Err e, w') => (Err e, (w', ws.2))
        end.

(** [await m], the value dropped. *)
Definition effect {A} (m : io A) : hio unit :=
  λ ws, match m ws.1 with
        | (Ok _, w') => (Ok tt, (w', ws.2))
        | (Err e, w') => (Err e, (w', ws.2))
        end.

Definition transitionTo (state : string) : hio unit :=
  let+ cur := current in assign (cl_transitionTask (s_id cur) (s_entityVersion cur) state).

Definition start : hio unit :=
  let+ cur := current in
  (if bool_decide (s_state cur = Pending) then transitionTo "queued" else aret tt) ;+
  let+ cur := current in
  if bool_decide (s_state cur = Queued) then transitionTo "running" else aret tt.

Definition reportProgress (p : progress) : hio unit :=
  let+ cur := current in assign (cl_reportTaskProgress (s_id cur) (s_entityVersion cur) p).

Definition succeed : hio unit := transitionTo "succeeded".
Definition fail_task : hio unit := transitionTo "failed".

Definition requestCancel : hio unit :=
  let+ cur := current in assign (cl_requestTaskCancellation (s_id cur) (s_entityVersion cur)).

Definition refresh : hio unit := let+ cur := current in assign (cl_getTask (s_id cur)).

Definition attachResult (reference : string) : hio unit :=
  let+ cur := current in
  effect (cl_attachTaskResult (s_id cur) (s_entityVersion cur) reference) ;+
  refresh.

Definition complete (resultRef : option string) : hio unit :=
  start ;+
  (match resultRef with Some r => attachResult r | None => aret tt end) ;+
  let+ cur := current in
  if negb (bool_decide (s_state cur = Succeeded)) then succeed else aret tt.

Definition isTerminal (s : snapshot) : bool :=
  match s_state s with Succeeded | Failed | Cancelled => true | _ => false end.

(** Runs handle methods on a freshly opened handle and returns its snapshot;
    the constructor refuses a snapshot without an id. *)
Definition with_handle (taskId : string) (m : hio unit) : io snapshot :=
  let+ s := cl_getTask taskId in
  athrow_if (isEmpty (s_id s)) TypeError ;+
  λ w, match m (w, s) with
       | (Ok _, (w', s')) => (Ok s', w')
       | (Err e, (w', _)) => (Err e, w')
       end.
End handle.

(** ** Methods of [PostgresTaskClient] *)

Definition openTask (c : session) (taskId : string) : io snapshot := with_handle (client:=PostgresTaskClient c) taskId (aret tt).

Definition reportTaskProgressAutoVersion (c : session) (taskId : string) (p : progress) : io snapshot :=
  with_handle (client:=PostgresTaskClient c) taskId (reportProgress (client:=PostgresTaskClient c) p).

Definition completeTask (c : session) (taskId : string) (resultRef : option string) : io snapshot :=
  with_handle (client:=PostgresTaskClient c) taskId (complete (client:=PostgresTaskClient c) resultRef).

(** ** A handle that is the only writer *)

(** The Task row a client without competition works on. *)
Record sole (c : session) (w : world) (k : string) (t : task_row) : Prop := {
  so_quiet : w_env w = [];
  so_task : db_tasks (w_db w) !! k = Some t;
  so_visible : rls_allows c (t_tenant t) = true;
  so_id : t_id t = k;
  so_name : js_blank k = false;
  so_version : 1 ≤ t_version t;
}.

Lemma abind_ok {S E A B} (m : act S E A) (f : A → act S E B) s a s' :
  m s = (Ok a, s') → abind m f s = f a s'.
Proof. intros H. unfold abind. by rewrite H. Qed.

Section facts.
Context (c : session).

Lemma sole_getTask w k t : sole c w k t → ∃ l, getTask c k w = (Ok (mapSnapshot t l), tick w) ∧ sole c (tick w) k t.
Proof.
  intros H. unfold getTask, readTask, abind, athrow_if. rewrite (so_name _ _ _ _ H). unfold aret.
  rewrite query_quiet by apply H. unfold snapshot_sql.
  assert (visible_tasks c (w_db w) !! k = Some t) as -> by (apply visible_tasks_lookup; split; apply H).
  cbn. eexists. split; [done|]. destruct H. by split.
Qed.

Lemma sole_execute w k t t' cmd a :
  sole c w k t → t_tenant t' = t_tenant t → t_id t' = t_id t → 1 ≤ t_version t' →
  run_command c (w_now w + 1) cmd (w_db w) = Ok (a, put_task (w_db w) k t t') →
  ∃ w', execute c cmd w = (Ok a, w') ∧ sole c w' k t'.
Proof.
  intros H Hten Hid Hv Hr. eexists. split; [apply execute_quiet; [apply H|exact Hr]|].
  split; cbn; try done; [apply lookup_insert_eq|rewrite Hten; apply H|rewrite Hid; apply H|apply H].
Qed.

Lemma sole_transition w k t s :
  sole c w k t → task_edge (t_state t) s = true → t_version t + 1 ≤ INT8_MAX →
  ∃ w' now l, transitionTask c k (t_version t) (task_state_name s) w =
    (Ok (mapSnapshot (transitioned now s t) l), w') ∧ sole c w' k (transitioned now s t).
Proof.
  intros H He Hm. unfold transitionTask, abind. rewrite validateVersion_ok by apply H.
  assert (∀ w1, sole c w1 k t → ∃ w' now l,
    (execute c (TransitionTask k (t_version t) (task_state_name s)) ;+ getTask c k) w1 =
    (Ok (mapSnapshot (transitioned now s t) l), w') ∧ sole c w' k (transitioned now s t)) as Hdirect.
  { intros w1 H1. unfold abind.
    destruct (sole_execute w1 k t (transitioned (w_now w1 + 1) s t) (TransitionTask k (t_version t) (task_state_name s))
      (Number (t_version t + 1)) H1) as (w2 & -> & H2); [done|done|cbn; pose proof (so_version _ _ _ _ H); lia| |].
    { apply transition_task_forward; try done; apply H1. }
    destruct (sole_getTask _ _ _ H2) as (l & -> & H3). do 3 eexists. by split. }
  destruct (bool_decide (task_state_name s = "running")) eqn:Hrun; [|by apply Hdirect].
  destruct (sole_getTask _ _ _ H) as (l & -> & H'). cbn.
  rewrite bool_decide_eq_false_2; [by apply Hdirect|].
  to_prop. intros E. rewrite E in He. by destruct s.
Qed.

Definition with_reference (now : Z) (r : string) (t : task_row) : task_row :=
  if bool_decide (t_result_ref t = Some r) then t else t_touch (t_version t + 1) now (t_with_result (Some r) t).

Lemma sole_attach w k t r :
  sole c w k t → js_blank r = false → t_version t + 1 ≤ INT8_MAX →
  ∃ w' now x, attachTaskResult c k (t_version t) r w = (Ok x, w') ∧ sole c w' k (with_reference now (btrim r) t).
Proof.
  intros H Hr Hm. pose proof (so_version _ _ _ _ H) as H1. unfold attachTaskResult, abind, athrow_if.
  rewrite validateVersion_ok, Hr by done. unfold aret.
  assert (btrim r ≠ "") as Hb.
  { intros E. assert (js_blank r = true); [|congruence]. apply blank_js_blank. unfold blank. by rewrite E. }
  assert (∃ a w1, execute c (AttachTaskResult k (t_version t) r) w = (Ok a, w1) ∧
    sole c w1 k (with_reference (w_now w + 1) (btrim r) t)) as (a & w1 & -> & Hw1).
  { unfold with_reference. destruct (bool_decide (t_result_ref t = Some (btrim r))) eqn:Eref.
    - exists (Number (t_version t)). eexists. split; [apply execute_quiet; [apply H|]|].
      + cbn [run_command]. apply number_ok. eexists. split; [done|]. unfold attach_task_result, tbind.
        rewrite (select_task_visible _ _ _ _ t) by apply H. rewrite bool_decide_false by done.
        unfold fail_if, traise_if, tret. rewrite Eref. reflexivity.
      + destruct H. by split.
    - exists (Number (t_version t + 1)). apply (sole_execute w k t); cbn; [done..|lia|].
      apply number_ok. eexists. split; [done|]. unfold attach_task_result, tbind.
      rewrite (select_task_visible _ _ _ _ t) by apply H. rewrite bool_decide_false by done.
      unfold fail_if, traise_if, tret. rewrite Eref, Z.eqb_refl. cbn [negb]. unfold tlift. rewrite bigint_succ_ok by done.
      rewrite (update_task_visible _ _ _ _ t (t_touch (t_version t + 1) (w_now w + 1) (t_with_result (Some (btrim r)) t)))
        by (done || apply H). done. }
  unfold getTaskResult, abind. destruct (sole_getTask _ _ _ Hw1) as (l & -> & Hw2). rewrite query_quiet by apply Hw2.
  assert (visible_tasks c (w_db (tick w1)) !! k = Some (with_reference (w_now w + 1) (btrim r) t)) as ->
    by (apply visible_tasks_lookup; split; apply Hw2).
  assert (t_result_ref (with_reference (w_now w + 1) (btrim r) t) = Some (btrim r)) as E.
  { unfold with_reference. by case_bool_decide. }
  cbn. rewrite E. cbn. rewrite bool_decide_false by done. cbn. do 3 eexists. split; [done|].
  destruct Hw2. by split.
Qed.

Notation client := (PostgresTaskClient c).

(** The handle holds the snapshot of the row that is stored. *)
Definition holds (ws : world * snapshot) (k : string) (t : task_row) : Prop :=
  sole c ws.1 k t ∧ ∃ l, ws.2 = mapSnapshot t l.

Lemma holds_transition ws k t s :
  holds ws k t → task_edge (t_state t) s = true → t_version t + 1 ≤ INT8_MAX →
  ∃ ws' now, transitionTo (client:=client) (task_state_name s) ws = (Ok tt, ws') ∧ holds ws' k (transitioned now s t).
Proof.
  destruct ws as [w sn]. intros [H [l El]] He Hm. cbn in H, El. subst sn.
  destruct (sole_transition w k t s H He Hm) as (w' & now & l' & Hr & H').
  unfold transitionTo, current, abind, assign. cbn [snd fst cl_transitionTask PostgresTaskClient s_id s_entityVersion mapSnapshot].
  rewrite (so_id _ _ _ _ H), Hr. exists (w', mapSnapshot (transitioned now s t) l'), now.
  split; [done|]. split; [done|by exists l'].
Qed.

(** What the steps before the last one keep. *)
Definition carried (n : Z) (t t' : task_row) : Prop :=
  t_version t ≤ t_version t' ≤ t_version t + n ∧ t_result_ref t' = t_result_ref t.

Lemma holds_start ws k t :
  holds ws k t → t_state t ∈ [Pending; Queued; Running] → t_version t + 2 ≤ INT8_MAX →
  ∃ ws' t', start (client:=client) ws = (Ok tt, ws') ∧ holds ws' k t' ∧ t_state t' = Running ∧ carried 2 t t'.
Proof.
  intros H Hs Hm.
  assert (∀ ws t, holds ws k t → t_state t ∈ [Queued; Running] → t_version t + 1 ≤ INT8_MAX → ∃ ws' t',
    (let+ cur := current in if bool_decide (s_state cur = Queued) then transitionTo (client:=client) "running"
     else aret tt) ws = (Ok tt, ws') ∧ holds ws' k t' ∧ t_state t' = Running ∧ carried 1 t t') as Hrun.
  { clear. intros ws t H Hs Hm. unfold current at 1, abind. pose proof H as [_ [l ->]]. cbn [s_state mapSnapshot].
    case_bool_decide as Eq.
    - destruct (holds_transition ws k t Running H) as (ws' & now & Hr & H'); [by rewrite Eq|done|].
      exists ws', (transitioned now Running t). split; [exact Hr|]. split; [done|]. split; [done|]. split; [cbn; lia|done].
    - exists ws, t. split; [done|]. split; [done|]. split; [|split; [lia|done]].
      apply list_elem_of_In in Hs as [E|[E|[]]]; congruence. }
  pose proof H as [_ [l El]]. unfold start. unfold abind at 1. unfold current at 1. cbn beta iota. rewrite El. cbn [s_state mapSnapshot].
  case_bool_decide as Ep.
  - destruct (holds_transition ws k t Queued H) as (ws1 & now & Hr & H1); [by rewrite Ep|lia|].
    unfold abind at 1. cbn [task_state_name] in Hr. rewrite Hr.
    destruct (Hrun ws1 _ H1) as (ws2 & t2 & -> & H2 & Hst & [Hv Href]); [cbn; set_solver|cbn; lia|].
    exists ws2, t2. split; [done|]. split; [done|]. split; [done|]. cbn in Hv, Href. split; [lia|done].
  - unfold abind at 1. unfold aret at 1.
    destruct (Hrun ws t H) as (ws2 & t2 & -> & H2 & Hst & [Hv Href]);
      [apply list_elem_of_In in Hs as [E|Hs]; [congruence|by apply list_elem_of_In]|lia|].
    exists ws2, t2. split; [done|]. split; [done|]. split; [done|]. split; [lia|done].
Qed.

Lemma holds_attach ws k t r :
  holds ws k t → js_blank r = false → t_version t + 1 ≤ INT8_MAX →
  ∃ ws' now, attachResult (client:=client) r ws = (Ok tt, ws') ∧ holds ws' k (with_reference now (btrim r) t).
Proof.
  destruct ws as [w sn]. intros [H [l El]] Hr Hm. cbn in H, El. subst sn.
  destruct (sole_attach w k t r H Hr Hm) as (w1 & now & x & Ha & H1).
  unfold attachResult, refresh, current, abind, effect, assign.
  cbn [snd fst cl_attachTaskResult cl_getTask PostgresTaskClient s_id s_entityVersion mapSnapshot].
  rewrite (so_id _ _ _ _ H), Ha. cbn [fst snd s_id mapSnapshot]. rewrite (so_id _ _ _ _ H).
  destruct (sole_getTask w1 k _ H1) as (l2 & -> & H2). do 2 eexists. split; [done|]. split; [done|by eexists].
Qed.

(** A worker that is the only writer of a Task can complete it without
    handling a single version: [completeTask] on a pending, queued or running
    Task opens a handle, starts the Task as far as needed, attaches the result
    reference when one is given and succeeds it; it returns the snapshot of the
    succeeded Task, and the stored row is succeeded and carries the trimmed
    reference. *)
Theorem completeTask_sole_writer : ∀ w k t resultRef,
  sole c w k t → t_state t ∈ [Pending; Queued; Running] → t_version t + 4 ≤ INT8_MAX →
  (∀ r, resultRef = Some r → js_blank r = false) →
  ∃ s w' t', completeTask c k resultRef w = (Ok s, w') ∧ sole c w' k t' ∧
    s_id s = k ∧ s_state s = Succeeded ∧ s_entityVersion s = t_version t' ∧ t_state t' = Succeeded ∧
    t_result_ref t' = match resultRef with Some r => Some (btrim r) | None => t_result_ref t end.
Proof.
  intros w k t resultRef H Hs Hm Href. unfold completeTask, with_handle, abind at 1.
  destruct (sole_getTask w k t H) as (l & Hget & H1). cbn [cl_getTask PostgresTaskClient]. rewrite Hget.
  assert (isEmpty (s_id (mapSnapshot t l)) = false) as Hne.
  { cbn. rewrite (so_id _ _ _ _ H). unfold isEmpty. apply bool_decide_false. intros ->. by pose proof (so_name _ _ _ _ H). }
  unfold abind at 1, athrow_if. rewrite Hne. unfold aret at 1. cbn beta iota.
  destruct (holds_start (tick w, mapSnapshot t l) k t) as (ws1 & t1 & Hst & Hh1 & Est & [Hv1 Hr1]);
    [by split; [|eexists]|done|lia|].
  assert (∃ ws2 t2, (match resultRef with Some r => attachResult (client:=client) r | None => aret tt end) ws1 = (Ok tt, ws2) ∧
    holds ws2 k t2 ∧ t_state t2 = Running ∧ t_version t2 ≤ t_version t1 + 1 ∧
    t_result_ref t2 = match resultRef with Some r => Some (btrim r) | None => t_result_ref t end)
    as (ws2 & t2 & Hat & Hh2 & Est2 & Hv2 & Hr2).
  { destruct resultRef as [r|].
    - destruct (holds_attach ws1 k t1 r Hh1) as (ws2 & now & Ha & Hh2); [by apply Href|lia|].
      exists ws2, (with_reference now (btrim r) t1). split; [done|]. split; [done|].
      unfold with_reference. case_bool_decide; cbn; split_and!; (done || lia).
    - exists ws1, t1. split; [done|]. split_and!; (done || lia). }
  pose proof Hh2 as [_ [l2 El2]].
  destruct (holds_transition ws2 k t2 Succeeded Hh2) as (ws3 & now & Hsu & Hh3); [by rewrite Est2|lia|].
  assert (complete (client:=client) resultRef (tick w, mapSnapshot t l) = (Ok tt, ws3)) as Hcomp.
  { unfold complete. rewrite (abind_ok _ _ _ _ _ Hst), (abind_ok _ _ _ _ _ Hat). unfold abind, current.
    rewrite El2. cbn [s_state mapSnapshot]. rewrite Est2. cbn [negb bool_decide decide_rel]. exact Hsu. }
  rewrite Hcomp. destruct ws3 as [w3 s3]. destruct Hh3 as [H3 [l3 El3]]. cbn in H3, El3. subst s3.
  exists (mapSnapshot (transitioned now Succeeded t2) l3), w3, (transitioned now Succeeded t2).
  split; [done|]. split; [done|]. split; [cbn; destruct H3 as [_ _ _ Hid _ _]; exact Hid|]. by split_and!.
Qed.
End facts.

Lemma completeTask_sole_writer_witness :
  ∃ s w', completeTask demo_session "t1" (Some " s3://out ") (World pending_db [] 10 []) = (Ok s, w') ∧
    s_state s = Succeeded.
Proof.
  destruct (db_tasks pending_db !! "t1") as [t|] eqn:Et; [|by vm_compute in Et].
  assert (t_tenant t = "acme" ∧ t_id t = "t1" ∧ t_version t = 1 ∧ t_state t = Pending) as (E1 & E2 & E3 & E4).
  { vm_compute in Et. injection Et as <-. done. }
  destruct (completeTask_sole_writer demo_session (World pending_db [] 10 []) "t1" t (Some " s3://out "))
    as (s & w' & t' & H & _ & _ & Hs & _).
  - split; try done; [by rewrite E1|lia].
  - rewrite E4. left.
  - rewrite E3. vm_compute. discriminate.
  - intros r [= <-]. reflexivity.
  - exists s, w'. split; [exact H|exact Hs].
Defined.
