(* ===== verification/RuntimeContracts.v ===== *)
(** * The runtime adapter boundary

    [sdks/node/src/runtime/contracts.ts]: the portable facts an adapter reports
    ([RuntimeEvent], [RuntimeObservation]), its capability claims, and the
    fail-closed validation of all three. Values that arrive from an adapter are
    untrusted: a number may not be an integer and a flag may be missing. *)

From stdpp Require Import base gmap strings list.
From Stdlib Require Import Ascii ZArith Lia.
From S2P Require Import Prelude TaskModel TaskClient.

(** ** Untrusted values *)

(** A JavaScript value where a number is expected: an integer, or anything
    [Number.isInteger] refuses. *)
Inductive js_number : Type :=
| JsInt (z : Z)
| JsOther.

Record RuntimeRef := {
  ref_runtime : string; ref_scope : string; ref_externalId : string;
}.

#[export] Instance RuntimeRef_eq_dec : EqDecision RuntimeRef.
Proof. solve_decision. Defined.

Inductive outcome := OutFailed | OutCancelled | OutUnknown.

#[export] Instance outcome_eq_dec : EqDecision outcome.
Proof. solve_decision. Defined.

(** The event variants; [N] is the type of a number and [B] of the adapter's
    terminality flag. *)
Inductive event_body (N B : Type) : Type :=
| Accepted
| Started
| Progressed (completed : N) (total : option N) (message : option string)
| AttemptEnded (out : outcome) (reason : option string)
| SucceededWith (resultRef : option string)
| FailedWith (terminal : B) (reason : option string)
| CancelledByRuntime
| UncertainFor (reason : string).

Arguments Accepted {N B}.
Arguments Started {N B}.
Arguments Progressed {N B} completed total message.
Arguments AttemptEnded {N B} out reason.
Arguments SucceededWith {N B} resultRef.
Arguments FailedWith {N B} terminal reason.
Arguments CancelledByRuntime {N B}.
Arguments UncertainFor {N B} reason.

Record runtime_event (N B : Type) := RuntimeEventOf {
  ev_ref : RuntimeRef;
  ev_occurredAt : string;
  ev_attempt : option N;
  ev_body : event_body N B;
}.

Arguments RuntimeEventOf {N B} ev_ref ev_occurredAt ev_attempt ev_body.
Arguments ev_ref {N B} r.
Arguments ev_occurredAt {N B} r.
Arguments ev_attempt {N B} r.
Arguments ev_body {N B} r.

(** What an adapter hands over, and what the projector works on. *)
Definition UntrustedEvent : Type := runtime_event js_number (option bool).
Definition RuntimeEvent : Type := runtime_event Z bool.

Definition check (A : Type) : Type := result js_error A.

Definition cbind {A B} (m : check A) (k : A → check B) : check B :=
  match m with Ok a => k a | Err e => Err e end.

Definition require (b : bool) (e : js_error) : check unit := if b then Ok tt else Err e.

Notation "'let!' x ':=' c 'in' k" := (cbind c (λ x, k))
  (at level 100, x pattern, c at next level, right associativity).

(** ** Validators *)

Section validators.
(** [Number.isFinite(Date.parse(s))] *)
Context (date_parses : string → bool).

Definition requireText (value : string) : check unit := require (negb (js_blank value)) TypeError.

Definition requireTimestamp (value : string) : check unit :=
  let! _ := requireText value in require (date_parses value) TypeError.

Definition requireInteger (lo : Z) (n : js_number) : check Z :=
  match n with
  | JsInt z => if z <? lo then Err RangeError else Ok z
  | JsOther => Err RangeError
  end.

Definition requireOptional (lo : Z) (o : option js_number) : check (option Z) :=
  match o with
  | None => Ok None
  | Some n => let! z := requireInteger lo n in Ok (Some z)
  end.

Definition validateProgress (completed : js_number) (total : option js_number) : check (Z * option Z) :=
  let! k := requireInteger 0 completed in
  let! n := requireOptional k total in
  Ok (k, n).

Definition validateRuntimeRef (ref : RuntimeRef) : check RuntimeRef :=
  let! _ := requireText (ref_runtime ref) in
  let! _ := requireText (ref_scope ref) in
  let! _ := requireText (ref_externalId ref) in
  Ok ref.

Definition validateBody (b : event_body js_number (option bool)) : check (event_body Z bool) :=
  match b with
  | Accepted => Ok Accepted
  | Started => Ok Started
  | Progressed completed total message =>
      let! p := validateProgress completed total in Ok (Progressed p.1 p.2 message)
  | AttemptEnded out reason => Ok (AttemptEnded out reason)
  | SucceededWith resultRef => Ok (SucceededWith resultRef)
  | FailedWith terminal reason =>
      match terminal with Some b => Ok (FailedWith b reason) | None => Err TypeError end
  | CancelledByRuntime => Ok CancelledByRuntime
  | UncertainFor reason => let! _ := requireText reason in Ok (UncertainFor reason)
  end.

(** The event is returned as it came, now known to be well formed. *)
Definition validateRuntimeEvent (event : UntrustedEvent) : check RuntimeEvent :=
  let! ref := validateRuntimeRef (ev_ref event) in
  let! _ := requireTimestamp (ev_occurredAt event) in
  let! attempt := requireOptional 1 (ev_attempt event) in
  let! body := validateBody (ev_body event) in
  Ok (RuntimeEventOf ref (ev_occurredAt event) attempt body).

(** ** Observations *)

Inductive observed_state := ObAccepted | ObRunning | ObSucceeded | ObFailed | ObCancelled | ObUnknown.

Record observation_of (N B : Type) := Observation {
  ob_ref : RuntimeRef; ob_state : observed_state; ob_attempt : option N; ob_terminal : B;
  ob_observedAt : string; ob_progress : option (N * option N); ob_resultRef : option string;
  ob_reason : option string;
}.

Definition validateRuntimeObservation (o : observation_of js_number (option bool))
    : check (observation_of Z bool) :=
  let! ref := validateRuntimeRef (ob_ref _ _ o) in
  let! _ := requireTimestamp (ob_observedAt _ _ o) in
  let! terminal := match ob_terminal _ _ o with Some b => Ok b | None => Err TypeError end in
  let! attempt := requireOptional 1 (ob_attempt _ _ o) in
  let! progress := match ob_progress _ _ o with
                   | Some (k, n) => let! p := validateProgress k n in Ok (Some p)
                   | None => Ok None
                   end in
  let! _ := require (negb match ob_state _ _ o with
                          | ObUnknown => match ob_reason _ _ o with Some r => js_blank r | None => true end
                          | _ => false
                          end) TypeError in
  Ok (Observation _ _ ref (ob_state _ _ o) attempt terminal (ob_observedAt _ _ o) progress
        (ob_resultRef _ _ o) (ob_reason _ _ o)).

(** ** Adapter capability claims *)

Record RuntimeAdapter := {
  ad_name : string; ad_scope : string;
  ad_module_namespace : option string;
  ad_events : string; ad_cancel_claim : string; ad_dispatch_claim : bool; ad_inspect_claim : bool;
  has_subscribe : bool; has_dispatch : bool; has_inspect : bool; has_cancel : bool;
}.

Definition validateRuntimeAdapter (a : RuntimeAdapter) : check RuntimeAdapter :=
  let! _ := requireText (ad_name a) in
  let! _ := requireText (ad_scope a) in
  let! _ := require (match ad_module_namespace a with
                     | Some n => bool_decide (n = "runtime") | None => true end) TypeError in
  let! _ := require (bool_decide (ad_events a ∈ ["push"; "poll"; "none"])) TypeError in
  let! _ := require (bool_decide (ad_cancel_claim a ∈ ["supported"; "best_effort"; "unsupported"])) TypeError in
  let! _ := require (negb (bool_decide (ad_events a = "push") && negb (has_subscribe a))) TypeError in
  let! _ := require (negb (ad_dispatch_claim a && negb (has_dispatch a))) TypeError in
  let! _ := require (negb (ad_inspect_claim a && negb (has_inspect a))) TypeError in
  let! _ := require (negb (negb (bool_decide (ad_cancel_claim a = "unsupported")) && negb (has_cancel a)))
              TypeError in
  Ok a.

(** ** Correctness *)

(** A typed event seen as the JavaScript object it is. *)
Definition erase_body (b : event_body Z bool) : event_body js_number (option bool) :=
  match b with
  | Accepted => Accepted
  | Started => Started
  | Progressed k n m => Progressed (JsInt k) (JsInt <$> n) m
  | AttemptEnded o r => AttemptEnded o r
  | SucceededWith r => SucceededWith r
  | FailedWith t r => FailedWith (Some t) r
  | CancelledByRuntime => CancelledByRuntime
  | UncertainFor r => UncertainFor r
  end.

Definition erase (e : RuntimeEvent) : UntrustedEvent :=
  RuntimeEventOf (ev_ref e) (ev_occurredAt e) (JsInt <$> ev_attempt e) (erase_body (ev_body e)).

(** What the projector may rely on. *)
Definition ref_ok (r : RuntimeRef) : Prop :=
  js_trim (ref_runtime r) ≠ "" ∧ js_trim (ref_scope r) ≠ "" ∧ js_trim (ref_externalId r) ≠ "".

Definition body_ok (b : event_body Z bool) : Prop :=
  match b with
  | Progressed k n _ => 0 ≤ k ∧ (∀ m, n = Some m → k ≤ m)
  | UncertainFor r => js_trim r ≠ ""
  | _ => True
  end.

Definition event_ok (e : RuntimeEvent) : Prop :=
  ref_ok (ev_ref e) ∧ js_trim (ev_occurredAt e) ≠ "" ∧ date_parses (ev_occurredAt e) = true ∧
  (∀ n, ev_attempt e = Some n → 1 ≤ n) ∧ body_ok (ev_body e).

Lemma cbind_ok {A B} (m : check A) (k : A → check B) b :
  cbind m k = Ok b ↔ ∃ a, m = Ok a ∧ k a = Ok b.
Proof. destruct m; cbn; naive_solver. Qed.

Lemma require_ok b e u : require b e = Ok u ↔ b = true.
Proof. destruct b, u; cbn; naive_solver. Qed.

Lemma requireText_ok s u : requireText s = Ok u ↔ js_trim s ≠ "".
Proof.
  unfold requireText, js_blank. rewrite require_ok, negb_true_iff, bool_decide_eq_false. done.
Qed.

Lemma requireInteger_ok lo n z : requireInteger lo n = Ok z ↔ n = JsInt z ∧ lo ≤ z.
Proof.
  destruct n as [m|]; cbn; [|naive_solver].
  destruct (Z.ltb_spec m lo); split; intros; simplify_eq; try (split; [done|lia]);
    naive_solver lia.
Qed.

Lemma requireOptional_ok lo o r :
  requireOptional lo o = Ok r ↔ o = JsInt <$> r ∧ ∀ z, r = Some z → lo ≤ z.
Proof.
  destruct o as [n|]; cbn; [|destruct r; naive_solver].
  rewrite cbind_ok. setoid_rewrite requireInteger_ok. split.
  - intros (z & [-> ?] & [= <-]). naive_solver.
  - destruct r as [z|]; [|naive_solver]. intros [[= ->] H]. exists z. naive_solver.
Qed.

Lemma validateBody_ok b t : validateBody b = Ok t ↔ b = erase_body t ∧ body_ok t.
Proof.
  destruct b; cbn; rewrite ?cbind_ok.
  all: try (split; [intros [= <-]; done | destruct t; cbn; naive_solver]).
  - unfold validateProgress. split.
    + intros ([k n] & Hp & [= <-]). apply cbind_ok in Hp as (k0 & Hk & Hn).
      apply cbind_ok in Hn as (n0 & Hn & [= -> ->]).
      apply requireInteger_ok in Hk as [-> Hk]. apply requireOptional_ok in Hn as [-> Hn]. done.
    + destruct t; cbn; try naive_solver. intros [[= -> -> ->] [Hk Hn]].
      eexists (_, _). split; [|done]. apply cbind_ok. eexists. split; [by apply requireInteger_ok|].
      apply cbind_ok. eexists. split; [by apply requireOptional_ok|done].
  - destruct terminal; (split; [intros; simplify_eq; done|destruct t; cbn; naive_solver]).
  - setoid_rewrite requireText_ok. split.
    + intros (u & ? & [= <-]). done.
    + destruct t; cbn; intros [? ?]; simplify_eq. by exists tt.
Qed.

(** [validateRuntimeEvent] is exactly the fail-closed boundary it describes: it
    accepts an untrusted event if and only if the event is, unchanged, a
    well-formed one: non-blank identity, a parsable time, a positive integer
    attempt, non-negative integer progress not above its total, an explicit
    terminality on every failure and a reason on every uncertainty. *)
Theorem validateRuntimeEvent_exact : ∀ u e,
  validateRuntimeEvent u = Ok e ↔ u = erase e ∧ event_ok e.
Proof.
  intros [r o a b] [r' o' a' b']. unfold validateRuntimeEvent, validateRuntimeRef, requireTimestamp,
    erase, event_ok, ref_ok. cbn.
  split.
  - intros H. repeat match goal with
    | H : cbind _ _ = Ok _ |- _ => apply cbind_ok in H as (? & ? & ?)
    | H : requireText _ = Ok _ |- _ => apply requireText_ok in H
    | H : require _ _ = Ok _ |- _ => apply require_ok in H
    | H : requireOptional _ _ = Ok _ |- _ => apply requireOptional_ok in H as [? ?]
    | H : validateBody _ = Ok _ |- _ => apply validateBody_ok in H as [? ?]
    end; simplify_eq. done.
  - intros [[= <- <- -> ->] ((H1 & H2 & H3) & H4 & H5 & H6 & H7)].
    apply (requireText_ok _ tt) in H1, H2, H3, H4. rewrite H1, H2, H3, H4, H5. cbn.
    rewrite (proj2 (requireOptional_ok 1 (JsInt <$> a') a')) by done. cbn.
    by rewrite (proj2 (validateBody_ok (erase_body b') b')).
Qed.
End validators.

(** An adapter reports the failure of its second attempt. *)
Lemma validateRuntimeEvent_exact_witness :
  let ref := {| ref_runtime := "bullmq"; ref_scope := "q"; ref_externalId := "job-1" |} in
  validateRuntimeEvent (λ _, true) (RuntimeEventOf ref "2026-01-01T00:00:00Z" (Some (JsInt 2)) (FailedWith (Some true) None))
    = Ok (RuntimeEventOf ref "2026-01-01T00:00:00Z" (Some 2) (FailedWith true None)) ∧
  validateRuntimeEvent (λ _, true) (RuntimeEventOf ref "2026-01-01T00:00:00Z" (Some (JsInt 2)) (FailedWith None None))
    = Err TypeError.
Proof.
  split; [|vm_compute; reflexivity]. apply validateRuntimeEvent_exact. split; [done|].
  repeat split; cbn; try done. intros n [= <-]. lia.
Defined.
