(* ===== verification/Projector.v ===== *)
(** * The runtime-neutral lifecycle projector

    [RuntimeTaskProjector] of [sdks/node/src/runtime/projector.ts]: it consumes
    portable runtime events and drives a Task and its Executions through a
    [TaskClient], re-reading and retrying on version conflicts. The hook
    [onTaskMutation] is fire-and-forget and its failures are discarded, so it is
    left out; the back-off sleep has no effect of its own (other processes run
    before every statement in any case). *)

From stdpp Require Import base gmap strings list pretty.
From Stdlib Require Import Ascii ZArith Lia.
From S2P Require Import Prelude TaskModel TaskClient RuntimeContracts.

Open Scope act_scope.

Inductive terminal_projection := SingleExecution | ExecutionOnly.

#[export] Instance terminal_projection_eq_dec : EqDecision terminal_projection.
Proof. solve_decision. Defined.

Definition MAX_CONVERGENCE_ATTEMPTS : nat := 10.

(** [runtimeRefKey]: the identity events are ordered by. *)
Definition runtimeRefKey (r : RuntimeRef) : string * string * string :=
  (ref_runtime r, ref_scope r, ref_externalId r).

Definition sameProgress (a b : progress) : bool :=
  (p_completed a =? p_completed b) && bool_decide (p_total a = p_total b)
  && bool_decide (p_message a = p_message b).

Definition isConvergenceError (e : js_error) : bool :=
  hasCode e "RHINOQ_VERSION_CONFLICT" || hasCode e "RHINOQ_EXECUTION_SUPERSEDED"
  || hasCode e "RHINOQ_EXECUTION_ALREADY_EXISTS".

(** The retry loop of [converge], with the conflict of the previous round. *)
Fixpoint converge_from {A} (n : nat) (conflict : js_error) (operation : io A) : io A :=
  match n with
  | O => athrow conflict
  | S n' => atry operation (λ e,
      if hasCode e "RHINOQ_VERSION_CONFLICT" then converge_from n' e operation else athrow e)
  end.

Definition converge {A} (operation : io A) : io A :=
  converge_from MAX_CONVERGENCE_ATTEMPTS OutOfFuel operation.

Section projector.
Context {client : TaskClient}.

Definition find (ref : RuntimeRef) : io (option execution) :=
  atry (let+ x := cl_lookupTaskExecution (ref_runtime ref) (ref_externalId ref) (ref_scope ref) in
        aret (Some x))
    (λ e, if hasCode e "RHINOQ_EXECUTION_NOT_FOUND" then aret None else athrow e).

(** [fuel] bounds the nesting of the repair path (start the attempt, then try
    the target again). *)
Fixpoint ensureExecution (fuel : nat) (id : string) (target : exec_state) (reason : option string)
    : io unit :=
  match fuel with
  | O => athrow OutOfFuel
  | S fuel' =>
      converge (
        let+ x := cl_getTaskExecution id in
        if bool_decide (x_state x = target) || exec_terminal (x_state x) then aret tt else
        atry (let+ _ := cl_transitionTaskExecution (x_id x) (x_version x) (exec_state_name target) reason in
              aret tt)
          (λ e,
             if negb (bool_decide (x_state x = ERunning)) && negb (bool_decide (target = ERunning))
                && negb (bool_decide (target = EDispatched))
                && hasCode e "RHINOQ_INVALID_EXECUTION_TRANSITION"
             then ensureExecution fuel' id ERunning None ;+ ensureExecution fuel' id target reason
             else athrow e))
  end.

Definition REPAIR_DEPTH : nat := 4.

Definition ensure (id : string) (target : exec_state) (reason : option string) : io unit :=
  ensureExecution REPAIR_DEPTH id target reason.

Definition ensureTask (taskId : string) (target : task_state) : io snapshot :=
  converge (
    let+ task := cl_getTask taskId in
    if bool_decide (s_state task = target) || task_terminal (s_state task) then aret task else
    let+ task := (if bool_decide (s_state task = Pending)
                  then cl_transitionTask (s_id task) (s_entityVersion task) "queued" else aret task) in
    if bool_decide (target = Queued) then aret task else
    let+ task := (if bool_decide (s_state task = Queued)
                  then cl_transitionTask (s_id task) (s_entityVersion task) "running" else aret task) in
    if bool_decide (target = Running) then aret task else
    if bool_decide (target = Cancelled) && negb (bool_decide (s_state task = CancelRequested))
    then aret task else
    if bool_decide (s_state task = Running) || bool_decide (s_state task = Uncertain)
       || bool_decide (s_state task = CancelRequested)
    then cl_transitionTask (s_id task) (s_entityVersion task) (task_state_name target)
    else aret task).

Definition activate (x : execution) : io snapshot :=
  ensure (x_id x) ERunning None ;+
  ensureTask (x_taskId x) Running.

Definition projectExecutionResult (id reference : string) : io unit :=
  converge (
    let+ x := cl_getTaskExecution id in
    let+ _ := cl_attachTaskExecutionResult (x_id x) (x_version x) reference in
    aret tt).

Definition projectTaskResult (taskId reference : string) : io snapshot :=
  converge (
    let+ task := cl_getTask taskId in
    if s_hasResult task then aret task else
    let+ _ := cl_attachTaskResult (s_id task) (s_entityVersion task) reference in
    cl_getTask (s_id task)).

Definition synchronizeSuccessfulProgress (taskId : string) : io snapshot :=
  converge (
    let+ task := cl_getTask taskId in
    if negb (bool_decide (s_state task = Running) || bool_decide (s_state task = CancelRequested))
    then aret task else
    let total := default (Z.max 1 (p_completed (s_progress task))) (p_total (s_progress task)) in
    if total <=? p_completed (s_progress task) then aret task else
    cl_reportTaskProgress (s_id task) (s_entityVersion task)
      (Progress total (Some total) (p_message (s_progress task)))).

Definition projectProgress (taskId : string) (p : progress) : io snapshot :=
  converge (
    let+ current := cl_getTask taskId in
    if negb (bool_decide (s_state current = Running) || bool_decide (s_state current = CancelRequested))
    then aret current else
    if sameProgress (s_progress current) p then aret current else
    cl_reportTaskProgress (s_id current) (s_entityVersion current) p).

(** Opens the attempts the runtime has already started; [fuel] bounds the loop. *)
Fixpoint openAttempts (fuel : nat) (current : execution) (observed : Z) : io execution :=
  match fuel with
  | O => athrow OutOfFuel
  | S fuel' =>
      if observed <=? x_attempt current then aret current else
      (if exec_terminal (x_state current) then aret tt else ensure (x_id current) EStalled None) ;+
      match cl_retryTaskExecution, x_externalId current with
      | Some retry, Some ext =>
          let next := (x_id current ++ "#" ++ pretty (x_attempt current + 1))%string in
          atry (let+ _ := retry (x_id current) (x_version current) next in aret tt)
            (λ e, if isConvergenceError e then aret tt else athrow e) ;+
          let+ replacement := find {| ref_runtime := x_runtime current;
            ref_scope := default "" (x_runtimeScope current); ref_externalId := ext |} in
          match replacement with
          | Some r => if bool_decide (x_id r = x_id current) then aret current
                      else openAttempts fuel' r observed
          | None => aret current
          end
      | _, _ => aret current
      end
  end.

Context (projection : terminal_projection) (onUnboundEvent : RuntimeEvent → io unit).

Definition single : bool := bool_decide (projection = SingleExecution).

(** The [switch] over the event type, for an attempt that was found. *)
Definition projectBody (x : execution) (body : event_body Z bool) : io unit :=
  match body with
  | Accepted =>
      ensure (x_id x) EDispatched None ;+
      let+ _ := ensureTask (x_taskId x) Queued in aret tt
  | Started => let+ _ := activate x in aret tt
  | Progressed completed total message =>
      let p := Progress completed total message in
      let+ task := activate x in
      if negb (bool_decide (s_state task = Running) || bool_decide (s_state task = CancelRequested))
      then aret tt else
      if sameProgress (s_progress task) p then aret tt else
      let+ _ := projectProgress (s_id task) p in aret tt
  | AttemptEnded out reason =>
      ensure (x_id x) (match out with OutCancelled => ECancelled | OutFailed => EFailed
                       | OutUnknown => EStalled end) reason ;+
      let+ _ := ensureTask (x_taskId x) (match out with OutUnknown => Uncertain | _ => Running end) in
      aret tt
  | SucceededWith resultRef =>
      ensure (x_id x) ESucceeded None ;+
      ensureTask (x_taskId x) Running ;+
      match truthy resultRef with
      | Some r => projectExecutionResult (x_id x) r
      | None => aret tt
      end ;+
      if single then
        synchronizeSuccessfulProgress (x_taskId x) ;+
        ensureTask (x_taskId x) Succeeded ;+
        match truthy resultRef with
        | Some r => let+ _ := projectTaskResult (x_taskId x) r in aret tt
        | None => aret tt
        end
      else aret tt
  | FailedWith terminal reason =>
      ensure (x_id x) EFailed reason ;+
      ensureTask (x_taskId x) Running ;+
      if terminal && single then let+ _ := ensureTask (x_taskId x) Failed in aret tt else aret tt
  | CancelledByRuntime =>
      ensure (x_id x) ECancelled None ;+
      let+ task := cl_getTask (x_taskId x) in
      if single && bool_decide (s_state task = CancelRequested)
      then let+ _ := ensureTask (s_id task) Cancelled in aret tt
      else aret tt
  | UncertainFor reason =>
      ensure (x_id x) EStalled (Some reason) ;+
      let+ _ := ensureTask (x_taskId x) Uncertain in aret tt
  end.

Definition projectOne (event : RuntimeEvent) : io unit :=
  let+ found := find (ev_ref event) in
  let+ found := match found with
                | Some x => aret (Some x)
                | None => onUnboundEvent event ;+ find (ev_ref event)
                end in
  match found with
  | None => aret tt
  | Some x =>
      let+ x := match ev_attempt event with
                | Some n => openAttempts (S (Z.to_nat n)) x n
                | None => aret x
                end in
      projectBody x (ev_body event)
  end.

(** Events of one identity that arrive while an earlier one is in flight are
    chained on its promise: when it rejects, they reject with it. *)
Fixpoint projectChain (events : list RuntimeEvent) : io unit :=
  match events with
  | [] => aret tt
  | e :: rest => projectOne e ;+ projectChain rest
  end.

(** [project] of an event from an adapter: nothing runs unless it validates. *)
Definition project (date_parses : string → bool) (event : UntrustedEvent) : io unit :=
  match validateRuntimeEvent date_parses event with
  | Ok e => projectOne e
  | Err err => athrow err
  end.
End projector.
