(* ===== verification/ProjectorFacts.v ===== *)
(** * What the projector guarantees

    Theorems about [Projector] run against the embedded client: convergence of
    the retry loop, the state each event leaves a Task and its attempt in, the
    absorption of late and repeated events, and the cases in which an event is
    lost. *)

From stdpp Require Import base gmap strings list fin_maps sorting relations pretty.
From Stdlib Require Import Ascii ZArith Lia.
From S2P Require Import Prelude TaskModel TaskCommands ExecutionCommands StoreSteps StoreInvariant StoreSafety TaskClient ClientFacts RuntimeContracts Projector.

Open Scope act_scope.

(** ** The retry loop *)

Lemma converge_ok {A} (op : io A) w a w' : op w = (Ok a, w') → converge op w = (Ok a, w').
Proof. intros H. unfold converge. cbn. unfold atry. by rewrite H. Qed.

Lemma converge_spec {A B C} (op : io A) (f : B → C → A) (R : world → B → C → Prop) w :
  (∃ w' b c, op w = (Ok (f b c), w') ∧ R w' b c) → ∃ w' b c, converge op w = (Ok (f b c), w') ∧ R w' b c.
Proof. intros (w' & b & c & Hop & HR). exists w', b, c. by rewrite (converge_ok _ _ _ _ Hop). Qed.

Lemma converge_throw {A} (op : io A) w e w' :
  op w = (Err e, w') → hasCode e "RHINOQ_VERSION_CONFLICT" = false → converge op w = (Err e, w').
Proof. intros H Hc. unfold converge. cbn. unfold atry. rewrite H, Hc. done. Qed.

(** The worlds [operation] is started in, as long as every run conflicts. *)
Fixpoint conflicts {A} (n : nat) (operation : io A) (w w' : world) : Prop :=
  match n with
  | O => w' = w
  | S n' => ∃ e w1, operation w = (Err e, w1) ∧ hasCode e "RHINOQ_VERSION_CONFLICT" = true ∧
                    conflicts n' operation w1 w'
  end.

Lemma converge_from_conflicts {A} (op : io A) n m last w w' :
  conflicts n op w w' → (n ≤ m)%nat →
  ∃ last', converge_from m last op w = converge_from (m - n) last' op w' ∧
    (n = O → last' = last) ∧ (n ≠ O → hasCode last' "RHINOQ_VERSION_CONFLICT" = true).
Proof.
  revert m last w. induction n as [|n IH]; intros m last w Hc Hle.
  { cbn in Hc. subst w'. exists last. by rewrite Nat.sub_0_r. }
  destruct Hc as (e & w1 & Hop & Hcode & Hrest). destruct m as [|m]; [lia|].
  destruct (IH m e w1 Hrest ltac:(lia)) as (last' & Heq & H0 & HS). exists last'.
  cbn [converge_from]. unfold atry. rewrite Hop, Hcode. split; [exact Heq|]. split; [done|].
  intros _. destruct n; [by rewrite H0|by apply HS].
Qed.

(** [converge] makes at most ten attempts and retries only version conflicts:
    after [n < 10] conflicting rounds a round that succeeds returns its value
    and a round that fails otherwise throws that error at once; ten conflicting
    rounds end with a version-conflict error, never with a silent success. *)
Theorem converge_bounded : ∀ A (op : io A) n w w',
  conflicts n op w w' →
  ((n < 10)%nat → ∀ a w2, op w' = (Ok a, w2) → converge op w = (Ok a, w2)) ∧
  ((n < 10)%nat → ∀ e w2, op w' = (Err e, w2) → hasCode e "RHINOQ_VERSION_CONFLICT" = false →
     converge op w = (Err e, w2)) ∧
  (n = 10%nat → ∃ e, converge op w = (Err e, w') ∧ hasCode e "RHINOQ_VERSION_CONFLICT" = true).
Proof.
  intros A op n w w' Hc. unfold converge, MAX_CONVERGENCE_ATTEMPTS. split; [|split].
  - intros Hn a w2 Hop. destruct (converge_from_conflicts op n 10 OutOfFuel w w' Hc ltac:(lia)) as (l & -> & _).
    destruct (10 - n)%nat eqn:E; [lia|]. cbn. unfold atry. by rewrite Hop.
  - intros Hn e w2 Hop He. destruct (converge_from_conflicts op n 10 OutOfFuel w w' Hc ltac:(lia)) as (l & -> & _).
    destruct (10 - n)%nat eqn:E; [lia|]. cbn. unfold atry. by rewrite Hop, He.
  - intros ->. destruct (converge_from_conflicts op 10 10 OutOfFuel w w' Hc ltac:(lia)) as (l & -> & _ & HS).
    exists l. split; [done|]. by apply HS.
Qed.

(** An operation that loses two races and then succeeds. *)
Definition third_time : io Z := λ w,
  if w_now w <? 2 then (Err (taskError "RHINOQ_VERSION_CONFLICT"), World (w_db w) [] (w_now w + 1) (w_log w))
  else (Ok 7, w).

Lemma converge_bounded_witness :
  converge third_time (World empty_db [] 0 []) = (Ok 7, World empty_db [] 2 []).
Proof.
  apply (converge_bounded Z third_time 2 (World empty_db [] 0 []) (World empty_db [] 2 [])); [|lia|reflexivity].
  cbn. eexists _, _. split; [reflexivity|]. split; [reflexivity|].
  eexists _, _. split; [reflexivity|]. split; reflexivity.
Defined.

(** ** Specifications of the steps *)

Section specs.
Context (c : session).
#[local] Existing Instance PostgresTaskClient.
Let client := PostgresTaskClient c.

Definition same_work (t t' : task_row) : Prop :=
  t_progress t' = t_progress t ∧ t_result_ref t' = t_result_ref t.

(** One conditional transition of [ensureTask]. *)
Lemma stage_spec (b : bool) s w k t i e l :
  at_rows c w k t i e → (b = true → task_edge (t_state t) s = true) → t_version t + 1 ≤ INT8_MAX →
  ∃ w' t' l', (if b then transitionTask c k (t_version t) (task_state_name s)
               else aret (mapSnapshot t l)) w = (Ok (mapSnapshot t' l'), w') ∧
    at_rows c w' k t' i e ∧ t_state t' = (if b then s else t_state t) ∧
    t_version t' ≤ t_version t + 1 ∧ same_work t t' ∧ (b = false → w_db w' = w_db w).
Proof.
  intros H He Hm. destruct b.
  - destruct (transitionTask_spec c w k t i e s) as (w' & now & l' & -> & H'); auto.
    exists w', (transitioned now s t), l'. split_and!; done.
  - exists w, t, l. split_and!; try done. lia.
Qed.

(** The state [ensureTask target] leaves a Task in. *)
Definition ensured (target s : task_state) : task_state :=
  if bool_decide (s = target) || task_terminal s then s else
  let s := if bool_decide (s = Pending) then Queued else s in
  if bool_decide (target = Queued) then s else
  let s := if bool_decide (s = Queued) then Running else s in
  if bool_decide (target = Running) then s else
  if bool_decide (target = Cancelled) && negb (bool_decide (s = CancelRequested)) then s else
  target.

Lemma ensureTask_spec w k t i e target :
  at_rows c w k t i e → target ≠ Pending → target ≠ CancelRequested → t_version t + 3 ≤ INT8_MAX →
  ∃ w' t' l, ensureTask (client:=client) k target w = (Ok (mapSnapshot t' l), w') ∧
    at_rows c w' k t' i e ∧ t_state t' = ensured target (t_state t) ∧
    t_version t' ≤ t_version t + 3 ∧ same_work t t' ∧
    (ensured target (t_state t) = t_state t → w_db w' = w_db w).
Proof.
  intros H Hp Hc Hm. pose proof (at_task_id c _ _ _ _ _ H) as Hid.
  unfold ensureTask. apply (converge_spec _ (λ t' l, mapSnapshot t' l)).
  unfold abind at 1. cbn [cl_getTask client PostgresTaskClient].
  destruct (getTask_spec c _ _ _ _ _ H) as [l0 ->]. cbn [s_state s_id s_entityVersion mapSnapshot].
  apply at_tick in H. unfold ensured.
  destruct (bool_decide (t_state t = target) || task_terminal (t_state t)) eqn:Hdone.
  { do 3 eexists. split; [done|]. split_and!; try done. lia. }
  apply orb_false_iff in Hdone as [Hne Hnt]. to_prop.
  unfold abind at 1. cbn [cl_transitionTask client PostgresTaskClient]. rewrite Hid.
  destruct (stage_spec (bool_decide (t_state t = Pending)) Queued (tick w) k t i e l0)
    as (w1 & t1 & l1 & Hst1 & H1 & Hs1 & Hv1 & Hw1 & Hd1); [done| |lia|].
  { intros E. to_prop. by rewrite E. }
  cbn [task_state_name] in Hst1. unfold io in *. rewrite Hst1. clear Hst1. rewrite <-Hs1.
  destruct (decide (target = Queued)) as [->|Hq].
  { rewrite bool_decide_eq_true_2 by done. do 3 eexists. split; [done|].
    split_and!; try done; [lia|]. intros E. apply Hd1.
    apply bool_decide_eq_false. intros E'. rewrite E', bool_decide_eq_true_2 in Hs1 by done. congruence. }
  rewrite (bool_decide_eq_false_2 (target = Queued)) by done.
  unfold abind at 1. cbn [s_state s_id s_entityVersion mapSnapshot].
  rewrite (at_task_id c _ _ _ _ _ H1).
  destruct (stage_spec (bool_decide (t_state t1 = Queued)) Running w1 k t1 i e l1)
    as (w2 & t2 & l2 & Hst2 & H2 & Hs2 & Hv2 & Hw2 & Hd2); [done| |lia|].
  { intros E. to_prop. by rewrite E. }
  cbn [task_state_name] in Hst2. unfold io in *. rewrite Hst2. clear Hst2. rewrite <-Hs2. cbn [s_state s_id s_entityVersion mapSnapshot].
  assert (same_work t t2) as Hw by (destruct Hw1, Hw2; split; congruence).
  assert (t_state t2 = t_state t → w_db w2 = w_db w) as Hd.
  { intros E. rewrite Hd2, Hd1; [done|..]; apply bool_decide_eq_false; intros E';
      rewrite E', bool_decide_eq_true_2 in * by done; revert Hs2; repeat case_bool_decide; congruence. }
  assert (t_state t2 ≠ Pending ∧ t_state t2 ≠ Queued ∧ (t_state t2 = Running ∨ t_state t2 = t_state t))
    as (Hn1 & Hn2 & Hor).
  { rewrite Hs2, Hs1. repeat case_bool_decide; simplify_eq; try (by auto); congruence. }
  destruct (decide (target = Running)) as [->|Hr].
  { rewrite bool_decide_eq_true_2 by done. do 3 eexists. split; [done|].
    split_and!; try done. lia. }
  rewrite (bool_decide_eq_false_2 (target = Running)) by done.
  destruct (bool_decide (target = Cancelled) && negb (bool_decide (t_state t2 = CancelRequested))) eqn:Hcan.
  { do 3 eexists. split; [done|]. split_and!; try done. lia. }
  assert (task_edge (t_state t2) target = true ∧ bool_decide (t_state t2 = Running)
     || bool_decide (t_state t2 = Uncertain) || bool_decide (t_state t2 = CancelRequested) = true) as [Hedge ->].
  { destruct (t_state t2), (t_state t), target; cbn in *; destruct Hor; try done. }
  rewrite (at_task_id c _ _ _ _ _ H2).
  destruct (transitionTask_spec c w2 k t2 i e target) as (w' & now & l' & -> & H'); [done|done|lia|].
  do 3 eexists. split; [done|]. split_and!; try done; try (cbn; lia); congruence.
Qed.

(** The state [ensureExecution target] leaves a bound attempt in. *)
Definition ensured_execution (target s : exec_state) : exec_state :=
  if bool_decide (s = target) || exec_terminal s then s else target.

Lemma bound_edge target s :
  bool_decide (s = target) || exec_terminal s = false →
  target ≠ EPendingDispatch → target ≠ EDispatched → exec_edge true s target = true.
Proof. by destruct s, target. Qed.

Lemma ensure_spec w k t i e target reason :
  at_rows c w k t i e → is_bound e = true → target ≠ EPendingDispatch → target ≠ EDispatched → room 1 t e →
  ∃ w' t' e', ensure (client:=client) i target reason w = (Ok tt, w') ∧
    at_rows c w' k t' i e' ∧ e_state e' = ensured_execution target (e_state e) ∧
    t_state t' = t_state t ∧ same_work t t' ∧ is_bound e' = true ∧
    t_version t' ≤ t_version t + 1 ∧ e_version e' ≤ e_version e + 1 ∧
    (ensured_execution target (e_state e) = e_state e → w_db w' = w_db w ∧ t' = t ∧ e' = e).
Proof.
  intros H Hb Hp Hd Hroom. unfold ensure, REPAIR_DEPTH. cbn [ensureExecution].
  apply (converge_spec _ (λ _ _, tt)).
  unfold abind at 1. cbn [cl_getTaskExecution client PostgresTaskClient].
  rewrite (getTaskExecution_spec c _ _ _ _ _ H). cbn [x_state x_id x_version mapExecution].
  apply at_tick in H. unfold ensured_execution.
  destruct (bool_decide (e_state e = target) || exec_terminal (e_state e)) eqn:Hdone.
  { do 3 eexists. split; [done|]. split_and!; done || lia. }
  pose proof (bound_edge _ _ Hdone Hp Hd) as Hedge. rewrite <-Hb in Hedge at 1.
  apply orb_false_iff in Hdone as [Hne _]. to_prop.
  rewrite (at_exec_id c _ _ _ _ _ H). unfold atry, abind.
  cbn [cl_transitionTaskExecution client PostgresTaskClient].
  destruct (transitionTaskExecution_spec c _ _ _ _ _ target reason H Hne Hedge Hroom)
    as (w' & now & r & n & l & -> & H').
  do 3 eexists. split; [done|]. split_and!; done.
Qed.

(** Progress that a finished Task shows: nothing is left of a known total. *)
Definition complete (p : progress) : Prop :=
  match p_total p with Some n => p_completed p = n | None => 1 ≤ p_completed p end.

Lemma synchronize_spec w k t i e :
  at_rows c w k t i e → t_version t + 1 ≤ INT8_MAX →
  ∃ w' t' s, synchronizeSuccessfulProgress (client:=client) k w = (Ok s, w') ∧
    at_rows c w' k t' i e ∧ t_state t' = t_state t ∧ t_version t' ≤ t_version t + 1 ∧
    t_result_ref t' = t_result_ref t ∧
    (t_state t = Running ∨ t_state t = CancelRequested → complete (t_progress t')).
Proof.
  intros H Hm. unfold synchronizeSuccessfulProgress.
  apply (converge_spec _ (λ _ s, s)).
  unfold abind at 1. cbn [cl_getTask client PostgresTaskClient].
  destruct (getTask_spec c _ _ _ _ _ H) as [l0 ->].
  cbn [s_state s_id s_entityVersion s_progress mapSnapshot p_completed p_total p_message].
  pose proof (tok_progress _ (wf_tasks _ (at_wf _ _ _ _ _ _ H) _ _ (at_task _ _ _ _ _ _ H))) as [Hnn Htot].
  pose proof (at_task_id c _ _ _ _ _ H) as Hid. apply at_tick in H.
  destruct (bool_decide (t_state t = Running) || bool_decide (t_state t = CancelRequested)) eqn:Hopen; cbn [negb].
  2:{ do 3 eexists. split; [done|]. split_and!; try done; [lia|]. apply orb_false_iff in Hopen as [? ?].
      to_prop. tauto. }
  set (total := default _ (p_total (t_progress t))).
  destruct (Z.leb_spec total (p_completed (t_progress t))) as [Hle|Hgt].
  { do 3 eexists. split; [done|]. split_and!; try done; [lia|]. intros _.
    unfold total in Hle. unfold complete. destruct (p_total (t_progress t)) as [n|]; cbn in Hle; lia. }
  cbn [cl_reportTaskProgress client PostgresTaskClient]. unfold reportTaskProgress, abind.
  rewrite validateVersion_ok by (eapply at_version, H).
  unfold TaskClient.validateProgress, athrow_if, abind. cbn [p_completed p_total p_message].
  rewrite (proj2 (Z.ltb_ge total 0)), (proj2 (Z.ltb_ge total total)) by lia. cbn [aret]. unfold aret.
  rewrite Hid.
  destruct (report_progress_forward c (w_now (tick w) + 1) k t total (truthy (p_message (t_progress t))) (w_db w))
    as (t' & Hrun & Hs' & Hv' & Hten' & Hres' & Hc' & Hp'); try done; try (by apply H).
  { unfold progress_open. apply orb_true_iff in Hopen as [Ho|Ho]; to_prop; by rewrite Ho. }
  { lia. }
  { unfold total. destruct (p_total (t_progress t)); eauto. }
  destruct (at_put_task c (tick w) k t i e _ _ t' H Hten' Hrun) as (w' & Hex & H').
  match goal with |- context [execute c ?cmd _] => change cmd with
    (ReportProgress k (t_version t) total total true (truthy (p_message (t_progress t)))) end.
  rewrite Hex.
  destruct (getTask_spec c _ _ _ _ _ H') as [l ->].
  do 3 eexists. split; [done|]. split_and!; try done; [by apply at_tick|lia|].
  intros _. unfold complete. by rewrite Hp'.
Qed.

Lemma lookup_spec w k t i e rt ext sc :
  at_rows c w k t i e → matches_ref rt ext sc e = true →
  lookupTaskExecution c rt ext sc w = (Ok (mapExecution e), tick w).
Proof.
  intros H Hm. unfold lookupTaskExecution, abind. rewrite query_quiet by apply H.
  destruct (map_rows _ _) as [|e0 l] eqn:E.
  - assert (e ∈ map_rows (matches_ref rt ext sc) (visible_executions c (w_db w))) as Hin.
    { apply map_rows_spec. split; [done|]. exists i. apply visible_executions_lookup.
      split; [apply H|by eapply at_exec_visible]. }
    rewrite E in Hin. by apply elem_of_nil in Hin.
  - assert (e0 ∈ map_rows (matches_ref rt ext sc) (visible_executions c (w_db w))) as Hin
      by (rewrite E; apply list_elem_of_here).
    apply map_rows_spec in Hin as [Hm0 [k0 Hk0]]. apply visible_executions_lookup in Hk0 as [Hk0 _].
    assert (i = k0) as <-.
    { eapply (ro_live _ (wf_rows _ (at_wf _ _ _ _ _ _ H)) i k0 e e0); [apply H|done|].
      unfold matches_ref in Hm, Hm0. to_prop. unfold same_live_ref.
      repeat (apply andb_true_iff; split); try done; try (apply bool_decide_eq_true; congruence).
      destruct (e_external_id e), (e_external_id e0); simplify_eq. by apply bool_decide_eq_true. }
    rewrite (at_exec _ _ _ _ _ _ H) in Hk0. by injection Hk0 as <-.
Qed.

(** [ref] identifies the attempt [e]. *)
Definition refers (ref : RuntimeRef) (e : exec_row) : Prop :=
  matches_ref (ref_runtime ref) (ref_externalId ref) (ref_scope ref) e = true.

Lemma refers_bound ref e : refers ref e → is_bound e = true.
Proof.
  unfold refers, matches_ref, is_bound. intros H. to_prop. apply bool_decide_eq_true.
  by match goal with E : e_external_id e = Some _ |- _ => rewrite E end.
Qed.

Lemma find_spec w k t i e ref :
  at_rows c w k t i e → refers ref e →
  find (client:=client) ref w = (Ok (Some (mapExecution e)), tick w).
Proof.
  intros H Hr. unfold find, atry, abind. cbn [cl_lookupTaskExecution client PostgresTaskClient].
  by rewrite (lookup_spec _ _ _ _ _ _ _ _ H Hr).
Qed.

(** An event about the attempt on record goes straight to its body. *)
Lemma projectOne_current p hook w k t i e ref o attempt body :
  at_rows c w k t i e → refers ref e → (∀ n, attempt = Some n → n ≤ e_attempt e) →
  projectOne (client:=client) p hook (RuntimeEventOf ref o attempt body) w =
  projectBody (client:=client) p (mapExecution e) body (tick w).
Proof.
  intros H Hr Ha. unfold projectOne. unfold abind at 1. cbn [ev_ref ev_attempt ev_body].
  rewrite (find_spec _ _ _ _ _ _ H Hr). unfold abind, aret.
  destruct attempt as [n|]; [|done]. cbn [openAttempts x_attempt mapExecution].
  rewrite (proj2 (Z.leb_le _ _) (Ha n eq_refl)). done.
Qed.

Lemma projectBody_success p w k t i e :
  at_rows c w k t i e → is_bound e = true → room 12 t e →
  ensured_execution ESucceeded (e_state e) = ESucceeded →
  t_state t ≠ Failed → t_state t ≠ Cancelled →
  ∃ w' t' e', projectBody (client:=client) p (mapExecution e) (SucceededWith None) w = (Ok tt, w') ∧
    at_rows c w' k t' i e' ∧ e_state e' = ESucceeded ∧
    match p with
    | SingleExecution => t_state t' = Succeeded ∧ (t_state t ≠ Succeeded → t_state t ≠ Uncertain → complete (t_progress t'))
    | ExecutionOnly => t_state t' = ensured Running (t_state t)
    end.
Proof.
  intros H Hb [Hrt Hre] Hes Hf Hca. cbn [projectBody truthy].
  rewrite (at_exec_id c _ _ _ _ _ H : x_id (mapExecution e) = i).
  rewrite (at_parent _ _ _ _ _ _ H : x_taskId (mapExecution e) = k). unfold abind at 1.
  destruct (ensure_spec w k t i e ESucceeded None) as (w1 & t1 & e1 & -> & H1 & Hs1 & Ht1 & _ & _ & Hv1 & Hve1 & _);
    [done..|split; lia|]. rewrite Hes in Hs1. unfold abind at 1.
  destruct (ensureTask_spec w1 k t1 i e1 Running) as (w2 & t2 & l2 & -> & H2 & Hs2 & Hv2 & Hw2 & _); [done..|lia|].
  unfold aret. unfold abind at 1. destruct p; [change (single SingleExecution) with true|change (single ExecutionOnly) with false]; cbv iota.
  2:{ do 3 eexists. split; [done|]. split; [exact H2|]. split; [done|]. by rewrite Hs2, Ht1. }
  unfold abind at 1.
  destruct (synchronize_spec w2 k t2 i e1) as (w3 & t3 & s3 & -> & H3 & Hs3 & Hv3 & Hr3 & Hc3); [done|lia|].
  unfold abind at 1.
  destruct (ensureTask_spec w3 k t3 i e1 Succeeded) as (w4 & t4 & l4 & -> & H4 & Hs4 & Hv4 & Hw4 & _); [done..|lia|].
  do 3 eexists. split; [done|]. split; [exact H4|]. split; [done|]. rewrite Hs4, Hs3, Hs2, Ht1.
  split; [destruct (t_state t); done|]. intros Hns Hnu. rewrite (proj1 Hw4). apply Hc3.
  rewrite Hs2, Ht1. destruct (t_state t); cbn; auto; done.
Qed.
End specs.


(** ** A concrete world *)

Definition demo_world (d : db) : world := World d [] 10 [].
Definition demo_ref : RuntimeRef := {| ref_runtime := "bullmq"; ref_scope := "q"; ref_externalId := "job-1" |}.
Definition no_hook : RuntimeEvent → io unit := λ _, aret tt.

Lemma demo_rows d k i t e :
  reachable d → db_tasks d !! k = Some t → db_executions d !! i = Some e → e_task_id e = k →
  rls_allows demo_session (t_tenant t) = true → js_blank k = false →
  at_rows demo_session (demo_world d) k t i e.
Proof. intros Hd Ht He Hk Hv Hb. split; try done. by apply reachable_well_formed. Qed.

(** Evaluate the row a concrete store holds. *)
Ltac eval_row H := vm_compute in H; injection H as <-.


(** ** Late events *)

Section late.
Context (c : session).
Let client := PostgresTaskClient c.

Lemma ensure_done w k t i e target reason :
  at_rows c w k t i e → exec_terminal (e_state e) = true →
  ensure (client:=client) i target reason w = (Ok tt, tick w).
Proof.
  intros H Ht. unfold ensure, REPAIR_DEPTH. cbn [ensureExecution]. apply converge_ok.
  unfold abind. cbn [cl_getTaskExecution client PostgresTaskClient].
  rewrite (getTaskExecution_spec c _ _ _ _ _ H). cbn [x_state mapExecution]. by rewrite Ht, orb_true_r.
Qed.

Lemma ensureTask_done w k t i e target :
  at_rows c w k t i e → task_terminal (t_state t) = true →
  ∃ l, ensureTask (client:=client) k target w = (Ok (mapSnapshot t l), tick w).
Proof.
  intros H Ht. destruct (getTask_spec c _ _ _ _ _ H) as [l Hl]. exists l. unfold ensureTask.
  apply converge_ok. unfold abind at 1. cbn [cl_getTask client PostgresTaskClient]. rewrite Hl.
  cbn [s_state mapSnapshot]. by rewrite Ht, orb_true_r.
Qed.
End late.

(** Events that carry no result reference. *)
Definition without_result (b : event_body Z bool) : bool :=
  match b with SucceededWith r => bool_decide (truthy r = None) | _ => true end.

(** Late and repeated events are absorbed: once an attempt and its Task are both
    terminal, any further event about the attempt on record (a redelivered
    success, a straggling failure, a start that was overtaken) succeeds and
    leaves the store exactly as it was. *)
Theorem late_events_absorbed : ∀ c p hook w k t i e ref o attempt body,
  at_rows c w k t i e → refers ref e → (∀ n, attempt = Some n → n ≤ e_attempt e) →
  exec_terminal (e_state e) = true → task_terminal (t_state t) = true → without_result body = true →
  ∃ w', projectOne (client:=PostgresTaskClient c) p hook (RuntimeEventOf ref o attempt body) w = (Ok tt, w') ∧
        w_db w' = w_db w ∧ w_log w' = w_log w.
Proof.
  intros c p hook w k t i e ref o attempt body H Hr Ha He Ht Hb.
  rewrite (projectOne_current c _ _ _ _ _ _ _ _ _ _ _ H Hr Ha).
  assert (∀ w0, w_db w0 = w_db w → w_log w0 = w_log w → at_rows c w0 k t i e →
    ∃ w', projectBody (client:=PostgresTaskClient c) p (mapExecution e) body w0 = (Ok tt, w') ∧
      w_db w' = w_db w ∧ w_log w' = w_log w) as Hgo; [|apply Hgo; [done|done|by apply at_tick]].
  clear H. intros w0 Hd Hlog H.
  pose proof (at_exec_id c _ _ _ _ _ H : x_id (mapExecution e) = i) as Hi.
  pose proof (at_parent _ _ _ _ _ _ H : x_taskId (mapExecution e) = k) as Hk.
  assert (∀ w1, at_rows c w1 k t i e → at_rows c (tick w1) k t i e) as Htick by (intros; by apply at_tick).
  assert (bool_decide (t_state t = Running) || bool_decide (t_state t = CancelRequested) = false) as Hopen
    by (destruct (t_state t); done).
  destruct body; cbn [projectBody]; unfold activate, abind; rewrite ?Hi, ?Hk;
    try (rewrite (ensure_done c _ _ _ _ _ _ _ H He)).
  - destruct (ensureTask_done c _ _ _ _ _ Queued (Htick _ H) Ht) as [l ->]. eauto.
  - destruct (ensureTask_done c _ _ _ _ _ Running (Htick _ H) Ht) as [l ->]. eauto.
  - destruct (ensureTask_done c _ _ _ _ _ Running (Htick _ H) Ht) as [l ->].
    cbn [s_state mapSnapshot]. rewrite Hopen. eauto.
  - destruct (ensureTask_done c _ _ _ _ _ (match out with OutUnknown => Uncertain | _ => Running end)
      (Htick _ H) Ht) as [l ->]. eauto.
  - destruct (ensureTask_done c _ _ _ _ _ Running (Htick _ H) Ht) as [l ->].
    apply bool_decide_eq_true_1 in Hb. rewrite Hb. unfold aret. destruct (single p); [|eauto].
    unfold synchronizeSuccessfulProgress.
    destruct (getTask_spec c _ _ _ _ _ (Htick _ (Htick _ H))) as [l1 Hl1].
    match goal with |- context [converge ?op ?w1] =>
      assert (converge op w1 = (Ok (mapSnapshot t l1), tick w1)) as -> end.
    { apply converge_ok. unfold abind. cbn [cl_getTask PostgresTaskClient]. rewrite Hl1.
      cbn [s_state mapSnapshot]. by rewrite Hopen. }
    destruct (ensureTask_done c _ _ _ _ _ Succeeded (Htick _ (Htick _ (Htick _ H))) Ht) as [l2 ->]. eauto.
  - destruct (ensureTask_done c _ _ _ _ _ Running (Htick _ H) Ht) as [l ->].
    destruct (terminal && single p); [|eauto].
    destruct (ensureTask_done c _ _ _ _ _ Failed (Htick _ (Htick _ H)) Ht) as [l2 ->]. eauto.
  - cbn [cl_getTask PostgresTaskClient]. destruct (getTask_spec c _ _ _ _ _ (Htick _ H)) as [l ->].
    cbn [s_state mapSnapshot]. pose proof (proj2 (proj1 (orb_false_iff _ _) Hopen)) as Hcr.
    rewrite Hcr, andb_false_r. eauto.
  - destruct (ensureTask_done c _ _ _ _ _ Uncertain (Htick _ H) Ht) as [l ->]. eauto.
Qed.

(** The demo history with its Task brought to success. *)
Definition done_events : list event := demo_events ++ [Event demo_session 9 (TransitionTask "t1" 12 "succeeded")].
Definition done_db : db := (run_history done_events empty_db).2.
Definition job2 : RuntimeRef := {| ref_runtime := "bullmq"; ref_scope := "q"; ref_externalId := "job-2" |}.

Lemma late_events_absorbed_witness :
  ∃ w', projectOne (client:=PostgresTaskClient demo_session) SingleExecution no_hook
      (RuntimeEventOf job2 "2026-01-01T00:00:00Z" None (FailedWith true (Some "late"))) (demo_world done_db)
      = (Ok tt, w') ∧ w_db w' = done_db ∧ w_log w' = [].
Proof.
  destruct (db_tasks done_db !! "t1") as [t|] eqn:Ht; [|by vm_compute in Ht].
  destruct (db_executions done_db !! "e2") as [e|] eqn:He; [|by vm_compute in He].
  apply (late_events_absorbed demo_session SingleExecution no_hook (demo_world done_db) "t1" t "e2" e job2
    "2026-01-01T00:00:00Z" None (FailedWith true (Some "late"))).
  - apply demo_rows; [by exists done_events|exact Ht|exact He|..];
      eval_row Ht; eval_row He; vm_compute; reflexivity.
  - eval_row He. vm_compute. reflexivity.
  - discriminate.
  - eval_row He. reflexivity.
  - eval_row Ht. reflexivity.
  - reflexivity.
Defined.

(** ** Which commands the projector issues

    [issues P m]: every command [m] sends to the database satisfies [P],
    whatever other processes do in between. *)

Definition issues {A} (P : command → Prop) (m : io A) : Prop :=
  ∀ w, ∃ l, w_log (m w).2 = w_log w ++ l ∧ Forall P l.

Section issues.
Context (P : command → Prop).

Lemma issues_ret {A} (a : A) : issues P (aret a).
Proof. intros w. exists []. by rewrite app_nil_r. Qed.

Lemma issues_throw {A} e : issues P (athrow (A:=A) e).
Proof. intros w. exists []. by rewrite app_nil_r. Qed.

Lemma issues_throw_if b e : issues P (athrow_if b e).
Proof. destruct b; [apply issues_throw|apply issues_ret]. Qed.

Lemma log_app {w1 w2 w3 : world} {l1 l2 : list command} :
  w_log w2 = w_log w1 ++ l1 → Forall P l1 → w_log w3 = w_log w2 ++ l2 → Forall P l2 →
  ∃ l, w_log w3 = w_log w1 ++ l ∧ Forall P l.
Proof. intros -> H1 -> H2. exists (l1 ++ l2). by rewrite app_assoc, Forall_app. Qed.

Lemma issues_bind {A B} (m : io A) (f : A → io B) :
  issues P m → (∀ a, issues P (f a)) → issues P (abind m f).
Proof.
  intros Hm Hf w. unfold abind. destruct (Hm w) as (l1 & H1 & P1).
  destruct (m w) as [[a|e] w1]; cbn in *; [|eauto].
  destruct (Hf a w1) as (l2 & H2 & P2). exact (log_app H1 P1 H2 P2).
Qed.

Lemma issues_try {A} (m : io A) h : issues P m → (∀ e, issues P (h e)) → issues P (atry m h).
Proof.
  intros Hm Hh w. unfold atry. destruct (Hm w) as (l1 & H1 & P1).
  destruct (m w) as [[a|e] w1]; cbn in *; [eauto|].
  destruct (Hh e w1) as (l2 & H2 & P2). exact (log_app H1 P1 H2 P2).
Qed.

Lemma interfere_log w : w_log (interfere w) = w_log w.
Proof. unfold interfere. by destruct (w_env w). Qed.

Lemma issues_query {A} (f : db → A) : issues P (query f).
Proof. intros w. exists []. rewrite app_nil_r. split; [apply interfere_log|done]. Qed.

Lemma issues_execute c cmd : P cmd → issues P (execute c cmd).
Proof.
  intros HP w. exists [cmd]. split; [|by repeat constructor]. unfold execute.
  rewrite <-(interfere_log w). by destruct (run_command _ _ _ _) as [[? ?]|?].
Qed.

Lemma issues_converge {A} (m : io A) : issues P m → issues P (converge m).
Proof.
  intros Hm. unfold converge. generalize OutOfFuel. induction MAX_CONVERGENCE_ATTEMPTS as [|n IH]; intros e0.
  - apply issues_throw.
  - cbn. apply issues_try; [done|]. intros e. destruct (hasCode _ _); [apply IH|apply issues_throw].
Qed.
End issues.

Create HintDb issues.
#[local] Hint Resolve issues_ret issues_throw issues_throw_if issues_query : issues.

(** Walk through a method or a projector step. *)
Ltac issues_step :=
  lazymatch goal with
  | |- ∀ _, _ => intro
  | |- issues _ (abind _ _) => apply issues_bind
  | |- issues _ (atry _ _) => apply issues_try
  | |- issues _ (converge _) => apply issues_converge
  | |- issues _ (execute _ _) => apply issues_execute
  | |- issues _ (if false && _ then _ else _) => cbn [andb]
  | |- issues _ (if _ && false then _ else _) => rewrite andb_false_r
  | |- issues _ (if ?b then _ else _) => destruct b
  | |- issues _ (match ?o with _ => _ end) => destruct o
  | |- issues _ _ => solve [auto with issues]
  end.
Ltac issues_walk := repeat issues_step.

(** A command that brings a Task to a terminal state. *)
Definition ends_task (cmd : command) : bool :=
  match cmd with
  | TransitionTask _ _ s => bool_decide (s ∈ ["succeeded"; "failed"; "cancelled"])
  | _ => false
  end.

Section execution_only.
Context (c : session).
Let client := PostgresTaskClient c.
Let quietly (cmd : command) : Prop := ends_task cmd = false.

Lemma issues_getTask k : issues quietly (getTask c k).
Proof. unfold getTask, readTask. issues_walk. Qed.

Lemma issues_getTaskExecution i : issues quietly (getTaskExecution c i).
Proof. unfold getTaskExecution. issues_walk. Qed.
#[local] Hint Resolve issues_getTask issues_getTaskExecution : issues.

Lemma issues_transitionTask k v s :
  bool_decide (s ∈ ["succeeded"; "failed"; "cancelled"]) = false → issues quietly (transitionTask c k v s).
Proof. intros Hs. unfold transitionTask, validateVersion. issues_walk; done. Qed.

Lemma issues_ensure fuel i s r : issues quietly (ensureExecution (client:=client) fuel i s r).
Proof.
  revert s r. induction fuel as [|fuel IH]; intros s r; cbn [ensureExecution]; [apply issues_throw|].
  cbn [cl_getTaskExecution cl_transitionTaskExecution client PostgresTaskClient].
  unfold transitionTaskExecution, validateVersion. issues_walk; try done; apply IH.
Qed.

Lemma issues_ensureTask k s : task_terminal s = false → issues quietly (ensureTask (client:=client) k s).
Proof.
  intros Hs. unfold ensureTask. cbn [cl_getTask cl_transitionTask client PostgresTaskClient].
  issues_walk; apply issues_transitionTask; try done. by destruct s.
Qed.

Lemma issues_find ref : issues quietly (find (client:=client) ref).
Proof.
  unfold find. cbn [cl_lookupTaskExecution client PostgresTaskClient]. unfold lookupTaskExecution. issues_walk.
Qed.

Lemma issues_openAttempts fuel x n : issues quietly (openAttempts (client:=client) fuel x n).
Proof.
  revert x. induction fuel as [|fuel IH]; intros x; cbn [openAttempts]; [apply issues_throw|].
  cbn [cl_retryTaskExecution client PostgresTaskClient]. unfold retryTaskExecution, ensure.
  issues_walk; try done; first [apply issues_ensure|apply issues_find|apply IH].
Qed.
End execution_only.

(** In 'execution-only' mode (a fan-out item is one of many) the projector never
    ends the Task: whatever the event and whatever happens concurrently, no
    command it sends moves the Task to succeeded, failed or cancelled. *)
Theorem execution_only_never_ends_task : ∀ c hook event w w' r,
  (∀ ev, issues (λ cmd, ends_task cmd = false) (hook ev)) →
  projectOne (client:=PostgresTaskClient c) ExecutionOnly hook event w = (r, w') →
  ∃ sent, w_log w' = w_log w ++ sent ∧ Forall (λ cmd, ends_task cmd = false) sent.
Proof.
  intros c hook event w w' r Hhook Hrun.
  enough (issues (λ cmd, ends_task cmd = false)
    (projectOne (client:=PostgresTaskClient c) ExecutionOnly hook event)) as Hall
    by (destruct (Hall w) as (l & Hl & Hp); rewrite Hrun in Hl; eauto).
  unfold projectOne, projectBody, activate, ensure, projectExecutionResult, projectProgress.
  change (single ExecutionOnly) with false.
  cbn [cl_getTask cl_getTaskExecution cl_attachTaskExecutionResult cl_reportTaskProgress PostgresTaskClient].
  unfold attachTaskExecutionResult, reportTaskProgress, validateVersion, TaskClient.validateProgress.
  issues_walk; try done;
    first [ apply issues_find | apply Hhook | apply issues_openAttempts | apply issues_ensure
          | apply issues_getTask | apply issues_getTaskExecution
          | apply issues_ensureTask; by repeat case_match ].
Qed.

Lemma execution_only_never_ends_task_witness :
  ∃ r w', projectOne (client:=PostgresTaskClient demo_session) ExecutionOnly no_hook
      (RuntimeEventOf demo_ref "2026-01-01T00:00:00Z" None (SucceededWith None)) (demo_world mid_db) = (r, w') ∧
    ∃ sent, w_log w' = [] ++ sent ∧ Forall (λ cmd, ends_task cmd = false) sent.
Proof.
  destruct (projectOne (client:=PostgresTaskClient demo_session) ExecutionOnly no_hook
      (RuntimeEventOf demo_ref "2026-01-01T00:00:00Z" None (SucceededWith None)) (demo_world mid_db))
    as [r w'] eqn:E.
  exists r, w'. split; [done|].
  apply (execution_only_never_ends_task demo_session no_hook _ _ _ _ (λ _ w, ex_intro _ []
    (conj (eq_sym (app_nil_r (w_log w))) (Forall_nil_2 _))) E).
Defined.

(** ** Events that are lost *)

Definition event_at (attempt : option Z) (body : event_body Z bool) : RuntimeEvent :=
  RuntimeEventOf demo_ref "2026-01-01T00:00:00Z" attempt body.

(** A retry that is first heard of while the previous attempt still looks
    running is not recorded: the projector marks attempt 1 stalled, then asks
    for attempt 2 with the version it read before that write, swallows the
    conflict, and applies the event to the attempt it had. After a success of
    attempt 2 the Task is succeeded while its only attempt is stalled. *)
Theorem overtaken_retry_is_lost : ∃ w',
  projectOne (client:=PostgresTaskClient demo_session) SingleExecution no_hook
    (event_at (Some 2) (SucceededWith None)) (demo_world mid_db) = (Ok tt, w') ∧
  (t_state <$> db_tasks (w_db w') !! "t1") = Some Succeeded ∧
  ((λ e, (e_state e, e_attempt e, live e)) <$> db_executions (w_db w') !! "e1") = Some (EStalled, 1, true) ∧
  map_count (of_item "t1" "a") (db_executions (w_db w')) = 1.
Proof.
  destruct (projectOne (client:=PostgresTaskClient demo_session) SingleExecution no_hook
    (event_at (Some 2) (SucceededWith None)) (demo_world mid_db)) as [r w'] eqn:E.
  exists w'. vm_compute in E. injection E as <- <-. split_and!; vm_compute; reflexivity.
Qed.

(** An 'accepted' event that arrives after the attempt started is an error: the
    projector throws RHINOQ_INVALID_EXECUTION_TRANSITION and changes nothing. *)
Theorem accepted_after_start_throws : ∀ c p hook w k t i e ref o attempt,
  at_rows c w k t i e → refers ref e → (∀ n, attempt = Some n → n ≤ e_attempt e) → e_state e = ERunning →
  ∃ w', projectOne (client:=PostgresTaskClient c) p hook (RuntimeEventOf ref o attempt Accepted) w =
      (Err (taskError "RHINOQ_INVALID_EXECUTION_TRANSITION"), w') ∧ w_db w' = w_db w.
Proof.
  intros c p hook w k t i e ref o attempt H Hr Ha Hs.
  rewrite (projectOne_current c _ _ _ _ _ _ _ _ _ _ _ H Hr Ha). apply at_tick in H.
  pose proof (at_exec_id c _ _ _ _ _ H : x_id (mapExecution e) = i) as Hi.
  cbn [projectBody]. unfold abind at 1. rewrite Hi. unfold ensure, REPAIR_DEPTH. cbn [ensureExecution].
  match goal with |- context [converge ?op ?w1] =>
    assert (∃ w', op w1 = (Err (taskError "RHINOQ_INVALID_EXECUTION_TRANSITION"), w') ∧ w_db w' = w_db w)
      as (w' & Hop & Hd) end.
  - unfold abind at 1. cbn [cl_getTaskExecution PostgresTaskClient].
    rewrite (getTaskExecution_spec c _ _ _ _ _ H). cbn [x_state x_id x_version mapExecution].
    rewrite Hs. rewrite (bool_decide_eq_false_2 (ERunning = EDispatched)) by done. cbn [exec_terminal orb].
    unfold atry, abind. cbn [cl_transitionTaskExecution PostgresTaskClient].
    unfold transitionTaskExecution, abind. rewrite validateVersion_ok by (eapply at_version, H).
    rewrite (at_exec_id c _ _ _ _ _ H), (getTaskExecution_spec c _ _ _ _ _ (at_tick _ _ _ _ _ _ H)).
    rewrite (execute_quiet_err c _ _ (Raise "RHINOQ_INVALID_EXECUTION_TRANSITION")); [eauto|done|].
    cbn [run_command w_db tick]. unfold number, transition_execution, transition_selected, tbind.
    rewrite (select_execution_visible _ _ _ _ e); [|apply H|by eapply at_exec_visible].
    rewrite Hs. cbn. unfold fence_execution. by rewrite Z.eqb_refl.
  - rewrite (converge_throw _ _ _ _ Hop) by reflexivity. eauto.
Qed.

Lemma accepted_after_start_throws_witness :
  ∃ w', projectOne (client:=PostgresTaskClient demo_session) SingleExecution no_hook
      (event_at None Accepted) (demo_world mid_db) =
      (Err (taskError "RHINOQ_INVALID_EXECUTION_TRANSITION"), w') ∧ w_db w' = mid_db.
Proof.
  destruct (db_tasks mid_db !! "t1") as [t|] eqn:Ht; [|by vm_compute in Ht].
  destruct (db_executions mid_db !! "e1") as [e|] eqn:He; [|by vm_compute in He].
  apply (accepted_after_start_throws demo_session SingleExecution no_hook (demo_world mid_db) "t1" t "e1" e
    demo_ref "2026-01-01T00:00:00Z" None).
  - apply demo_rows; [apply mid_reachable|exact Ht|exact He|..];
      eval_row Ht; eval_row He; vm_compute; reflexivity.
  - eval_row He. vm_compute. reflexivity.
  - discriminate.
  - eval_row He. reflexivity.
Defined.
