(* ===== verification/Waitpoints.v ===== *)
(** * Durable waitpoints

    The [rhinoq_task.waitpoints] table and its commands (migrations 8 and 13 of
    [postgres/task-schema.ts]), the client methods over them
    ([postgres/task-client.ts]) and the worker-side helper [waitForInput]
    ([tasks/waitpoint.ts]): a human or external answer is awaited without
    holding a worker, resolved once, and found again on redelivery. *)

From stdpp Require Import base gmap strings list fin_maps sorting relations.
From Stdlib Require Import Ascii ZArith Lia.
From S2P Require Import Prelude TaskModel StoreSteps TaskClient.

Open Scope txn_scope.

Inductive wp_kind := WInput | WApproval | WWebhook.
Inductive wp_state := Waiting | Resolved | Expired | WCancelled.

#[export] Instance wp_kind_eq_dec : EqDecision wp_kind.
Proof. solve_decision. Defined.
#[export] Instance wp_state_eq_dec : EqDecision wp_state.
Proof. solve_decision. Defined.

Definition wp_kind_of (s : string) : option wp_kind :=
  if bool_decide (s = "input") then Some WInput
  else if bool_decide (s = "approval") then Some WApproval
  else if bool_decide (s = "webhook") then Some WWebhook
  else None.

Section waitpoints.
(** [J] is the type of jsonb values. *)
Context {J : Type} `{!EqDecision J}.

(** The resolution columns; the table's CHECK makes them all present or all
    NULL. *)
Record resolution := Resolution {
  res_value : J; res_hash : string; res_id : string; res_by : string; res_at : Z;
}.

#[export] Instance resolution_eq_dec : EqDecision resolution.
Proof. solve_decision. Defined.

Record wp_row := WpRow {
  wp_id : string; wp_task_id : string; wp_tenant : string; wp_key : string; wp_kind_col : wp_kind;
  wp_payload_version : Z; wp_state_col : wp_state; wp_deadline : option Z;
  wp_resolution : option resolution; wp_version : Z; wp_created_at : Z; wp_updated_at : Z;
}.

#[export] Instance wp_row_eq_dec : EqDecision wp_row.
Proof. solve_decision. Defined.

Record wdb := Wdb { w_tasks : db; w_waitpoints : gmap string wp_row }.

Definition wsql (A : Type) : Type := txn wdb sql_error A.

Definition wfail_if (b : bool) (code : string) : wsql unit := traise_if b (Raise code).

(** A statement on the Task tables. *)
Definition on_tasks {A} (m : sql A) : wsql A :=
  λ s, match m (w_tasks s) with
       | Ok (a, d) => Ok (a, Wdb d (w_waitpoints s))
       | Err e => Err e
       end.

Definition visible_waitpoints (c : session) (s : wdb) : gmap string wp_row :=
  filter (λ kv, rls_allows c (wp_tenant kv.2) = true) (w_waitpoints s).

(** ** [create_waitpoint] *)

Definition same_wait (a b : wp_row) : bool :=
  bool_decide (wp_id a = wp_id b)
  || (bool_decide (wp_task_id a = wp_task_id b) && bool_decide (wp_key a = wp_key b)).

(** [INSERT ... ON CONFLICT DO NOTHING]; the boolean is FOUND. *)
Definition insert_waitpoint (c : session) (mk : string → option wp_row) : wsql bool :=
  λ s,
    match current_tenant c with
    | None => Err (if exempt c || maintenance_session c then NOT_NULL_VIOLATION else RLS_VIOLATION)
    | Some tenant =>
        match mk tenant with
        | None => Err CHECK_VIOLATION
        | Some w =>
            if map_exists (same_wait w) (w_waitpoints s) then Ok (false, s) else
            match db_tasks (w_tasks s) !! wp_task_id w with
            | Some t => if bool_decide (t_tenant t = tenant)
                        then Ok (true, Wdb (w_tasks s) (<[wp_id w := w]> (w_waitpoints s)))
                        else Err FOREIGN_KEY_VIOLATION
            | None => Err FOREIGN_KEY_VIOLATION
            end
        end
    end.

(** The row the statement would insert, [None] when a CHECK refuses it. *)
Definition new_waitpoint (now : Z) (p_id p_task_id p_key p_kind : string) (p_payload_version : Z)
    (p_deadline : option Z) (tenant : string) : option wp_row :=
  match wp_kind_of p_kind with
  | Some kind =>
      if blank p_id || blank p_key || (p_payload_version <=? 0)
         || match p_deadline with Some x => x <=? now | None => false end
      then None
      else Some (WpRow p_id p_task_id tenant p_key kind p_payload_version Waiting p_deadline None 1 now now)
  | None => None
  end.

Definition create_waitpoint (c : session) (now : Z) (p_id p_task_id p_key p_kind : string)
    (p_payload_version : Z) (p_deadline : option Z) : wsql bool :=
  let* found := insert_waitpoint c (new_waitpoint now p_id p_task_id p_key p_kind p_payload_version p_deadline) in
  if found then on_tasks (update_task c p_task_id (bump_task now)) ;; tret false else
  let* s := tget in
  match map_rows (λ w, bool_decide (wp_task_id w = p_task_id) && bool_decide (wp_key w = p_key))
          (visible_waitpoints c s) with
  | [] => traise (Raise "RHINOQ_WAITPOINT_CONFLICT")
  | v :: _ =>
      wfail_if (negb (bool_decide (wp_id v = p_id)) || negb (bool_decide (Some (wp_kind_col v) = wp_kind_of p_kind))
                || negb (wp_payload_version v =? p_payload_version) || is_distinct (wp_deadline v) p_deadline)
        "RHINOQ_WAITPOINT_CONFLICT" ;;
      tret true
  end.

(** ** [resolve_waitpoint] (migration 13) *)

Definition wp_settle (st : wp_state) (r : option resolution) (v now : Z) (w : wp_row) : wp_row :=
  WpRow (wp_id w) (wp_task_id w) (wp_tenant w) (wp_key w) (wp_kind_col w) (wp_payload_version w) st
    (wp_deadline w) r v (wp_created_at w) now.

(** [JOIN tasks t ON t.id = w.task_id WHERE w.id = .. AND t.tenant_id = .. AND t.owner_id = ..] *)
Definition owned_waitpoint (c : session) (s : wdb) (p_id p_tenant_id p_owner_id : string) : option wp_row :=
  w ← visible_waitpoints c s !! p_id;
  t ← visible_tasks c (w_tasks s) !! wp_task_id w;
  if bool_decide (t_tenant t = p_tenant_id) && bool_decide (t_owner t = Some p_owner_id) then Some w else None.

Definition resolve_waitpoint (c : session) (now : Z) (p_id p_tenant_id p_owner_id : string)
    (p_expected_version : Z) (p_resolution_id p_actor : string) (p_resolution : J) (p_resolution_hash : string)
    : wsql unit :=
  wfail_if (blank p_tenant_id) "RHINOQ_INVALID_TENANT" ;;
  let* s := tget in
  match owned_waitpoint c s p_id p_tenant_id p_owner_id with
  | None => traise (Raise "RHINOQ_WAITPOINT_NOT_FOUND")
  | Some v =>
      if bool_decide (wp_state_col v = Resolved) then
        match wp_resolution v with
        | Some r =>
            if bool_decide (res_id r = p_resolution_id) && bool_decide (res_hash r = p_resolution_hash)
               && bool_decide (res_value r = p_resolution)
            then tret tt else traise (Raise "RHINOQ_WAITPOINT_CONFLICT")
        | None => traise (Raise "RHINOQ_WAITPOINT_CONFLICT")
        end
      else
      wfail_if (negb (wp_version v =? p_expected_version)) "RHINOQ_VERSION_CONFLICT" ;;
      wfail_if (negb (bool_decide (wp_state_col v = Waiting))
                || match wp_deadline v with Some x => x <=? now | None => false end) "RHINOQ_WAITPOINT_SETTLED" ;;
      let* version := tlift (bigint_succ (wp_version v)) in
      traise_if (map_exists (λ o, negb (bool_decide (wp_id o = p_id)) &&
          bool_decide (res_id <$> wp_resolution o = Some p_resolution_id)) (w_waitpoints s)) UNIQUE_VIOLATION ;;
      tput (Wdb (w_tasks s) (<[p_id := wp_settle Resolved
        (Some (Resolution p_resolution p_resolution_hash p_resolution_id p_actor now)) version now v]>
        (w_waitpoints s))) ;;
      on_tasks (update_task c (wp_task_id v) (bump_task now))
  end.

(** The seven-argument function of migration 8, kept as a trap. *)
Definition resolve_waitpoint_without_tenant : wsql unit := traise (Raise "RHINOQ_TENANT_REQUIRED").

(** ** [expire_waitpoints] *)

Definition due (now : Z) (w : wp_row) : bool :=
  bool_decide (wp_state_col w = Waiting) && match wp_deadline w with Some x => x <=? now | None => false end.

(** [ORDER BY deadline, id] *)
Definition due_le (a b : wp_row) : Prop :=
  (if default 0 (wp_deadline a) =? default 0 (wp_deadline b) then String.leb (wp_id a) (wp_id b)
   else default 0 (wp_deadline a) <? default 0 (wp_deadline b)) = true.
#[export] Instance due_le_dec : RelDecision due_le.
Proof. intros a b. unfold due_le. apply _. Defined.

Fixpoint expire_rows (c : session) (now : Z) (rows : list wp_row) : wsql unit :=
  match rows with
  | [] => tret tt
  | v :: rest =>
      let* version := tlift (bigint_succ (wp_version v)) in
      let* s := tget in
      tput (Wdb (w_tasks s) (<[wp_id v := wp_settle Expired None version now v]> (w_waitpoints s))) ;;
      on_tasks (update_task c (wp_task_id v) (bump_task now)) ;;
      expire_rows c now rest
  end.

Definition due_rows (c : session) (now limit : Z) (s : wdb) : list wp_row :=
  take (Z.to_nat limit) (merge_sort due_le (map_rows (due now) (visible_waitpoints c s))).

Definition expire_waitpoints (c : session) (now p_limit : Z) : wsql Z :=
  wfail_if ((p_limit <? 1) || (500 <? p_limit)) "RHINOQ_INVALID_REQUEST" ;;
  let* s := tget in
  let rows := due_rows c now p_limit s in
  expire_rows c now rows ;;
  tret (Z.of_nat (length rows)).

(** ** Client *)

Record waitpoint := Waitpoint {
  wv_id : string; wv_taskId : string; wv_key : string; wv_kind : wp_kind; wv_state : wp_state;
  wv_payloadVersion : Z; wv_deadline : option Z; wv_resolution : option J; wv_resolvedBy : option string;
  wv_entityVersion : Z;
}.

Definition mapWaitpoint (w : wp_row) : waitpoint :=
  Waitpoint (wp_id w) (wp_task_id w) (wp_key w) (wp_kind_col w) (wp_state_col w) (wp_payload_version w)
    (wp_deadline w) (res_value <$> wp_resolution w) (truthy (res_by <$> wp_resolution w)) (wp_version w).

(** The actions of a client that runs alone on the store. *)
Definition wio (A : Type) : Type := act wdb js_error A.

Definition wexecute {A} (m : wsql A) : wio A := astatement mapDatabaseError m.

Definition readWaitpoint (c : session) (id : string) (owner tenant : option string) : wio waitpoint :=
  λ s,
    let row := w ← visible_waitpoints c s !! id;
               t ← visible_tasks c (w_tasks s) !! wp_task_id w;
               if match owner with Some o => bool_decide (t_owner t = Some o) | None => true end
                  && match tenant with Some n => bool_decide (t_tenant t = n) | None => true end
               then Some w else None in
    match row with
    | Some w => (Ok (mapWaitpoint w), s)
    | None => (Err (RhinoQError "RHINOQ_WAITPOINT_NOT_FOUND" false (Some 404)), s)
    end.

Record TaskWaitpointCreateRequest := {
  wr_id : string; wr_key : string; wr_kind : string; wr_payloadVersion : Z; wr_deadline : option Z;
}.

(** [$5] is an [integer] parameter: PostgreSQL refuses a larger value. *)
Definition createTaskWaitpoint (c : session) (now : Z) (taskId : string) (rq : TaskWaitpointCreateRequest)
    : wio waitpoint :=
  (athrow_if (js_blank taskId || js_blank (wr_id rq) || js_blank (wr_key rq)
     || negb (bool_decide (wr_kind rq ∈ ["input"; "approval"; "webhook"])) || (wr_payloadVersion rq <=? 0)) TypeError ;+
   wexecute (traise_if (INT4_MAX <? wr_payloadVersion rq) OUT_OF_RANGE ;;
             create_waitpoint c now (wr_id rq) taskId (wr_key rq) (wr_kind rq) (wr_payloadVersion rq) (wr_deadline rq))%txn ;+
   readWaitpoint c (wr_id rq) None None)%act.

Record TaskWaitpointResolveRequest := {
  wq_expectedVersion : Z; wq_resolutionId : string; wq_resolution : J; wq_actor : option string;
}.

(** [encode] is [JSON.stringify] and [sha256] the hex digest of its UTF-8 bytes;
    [parse] is the cast of the text to jsonb. *)
Definition resolveTaskWaitpoint (encode : J → string) (sha256 : string → string) (parse : string → J)
    (c : session) (now : Z) (id ownerId : string) (rq : TaskWaitpointResolveRequest) (tenantId : string)
    : wio waitpoint :=
  (athrow_if (js_blank id || js_blank ownerId || (wq_expectedVersion rq <=? 0) || js_blank (wq_resolutionId rq))
     TypeError ;+
   let encoded := encode (wq_resolution rq) in
   athrow_if (65536 <? Z.of_nat (String.length encoded)) RangeError ;+
   readWaitpoint c id (Some ownerId) (Some tenantId) ;+
   wexecute (resolve_waitpoint c now id tenantId ownerId (wq_expectedVersion rq) (wq_resolutionId rq)
     (default ownerId (truthy (js_trim <$> wq_actor rq))) (parse encoded) (sha256 encoded)) ;+
   readWaitpoint c id (Some ownerId) (Some tenantId))%act.

Definition expireTaskWaitpoints (c : session) (now limit : Z) : wio Z :=
  (athrow_if ((limit <? 1) || (500 <? limit)) RangeError ;+
   wexecute (expire_waitpoints c now limit))%act.

(** ** Reads *)

Definition getTaskWaitpoint (c : session) (id ownerId tenantId : string) : wio waitpoint :=
  readWaitpoint c id (Some ownerId) (Some tenantId).

(** [a] before [b] by the integer key, then by id. *)
Definition by_key (key : wp_row → Z) (a b : wp_row) : bool :=
  if key a =? key b then String.leb (wp_id a) (wp_id b) else key a <? key b.

(** [ORDER BY w.created_at, w.id] *)
Definition created_le (a b : wp_row) : Prop := by_key wp_created_at a b = true.
#[export] Instance created_le_dec : RelDecision created_le.
Proof. intros a b. unfold created_le. apply _. Defined.

(** [ORDER BY w.created_at DESC, w.id] *)
Definition newest_le (a b : wp_row) : Prop := by_key (λ w, - wp_created_at w) a b = true.
#[export] Instance newest_le_dec : RelDecision newest_le.
Proof. intros a b. unfold newest_le. apply _. Defined.

(** [ORDER BY w.deadline ASC NULLS LAST, w.updated_at DESC, w.id] *)
Definition inbox_le (a b : wp_row) : Prop :=
  match wp_deadline a, wp_deadline b with
  | Some x, Some y => if x =? y then by_key (λ w, - wp_updated_at w) a b else x <? y
  | Some _, None => true
  | None, Some _ => false
  | None, None => by_key (λ w, - wp_updated_at w) a b
  end = true.
#[export] Instance inbox_le_dec : RelDecision inbox_le.
Proof. intros a b. unfold inbox_le. apply _. Defined.

(** [JOIN tasks t ON t.id = w.task_id WHERE t.owner_id = .. AND t.tenant_id = ..] *)
Definition owned_by (c : session) (s : wdb) (ownerId tenantId : string) (w : wp_row) : bool :=
  match visible_tasks c (w_tasks s) !! wp_task_id w with
  | Some t => bool_decide (t_owner t = Some ownerId) && bool_decide (t_tenant t = tenantId)
  | None => false
  end.

Definition listTaskWaitpoints (c : session) (taskId : string) : wio (list waitpoint) :=
  (athrow_if (js_blank taskId) TypeError ;+
   λ s, (Ok (mapWaitpoint <$> merge_sort created_le
     (map_rows (λ w, bool_decide (wp_task_id w = taskId)) (visible_waitpoints c s))), s))%act.

Definition listTaskWaitpointsForOwner (c : session) (taskId ownerId : string) (limit : Z) (tenantId : string)
    : wio (list waitpoint) :=
  (athrow_if (js_blank taskId || js_blank ownerId) TypeError ;+
   athrow_if ((limit <? 1) || (100 <? limit)) RangeError ;+
   λ s, (Ok (mapWaitpoint <$> take (Z.to_nat limit) (merge_sort newest_le
     (map_rows (λ w, bool_decide (wp_task_id w = taskId) && owned_by c s ownerId tenantId w)
       (visible_waitpoints c s)))), s))%act.

Definition listWaitingTaskWaitpointsForOwner (c : session) (ownerId : string) (limit : Z) (tenantId : string)
    : wio (list waitpoint) :=
  (athrow_if (js_blank ownerId) TypeError ;+
   athrow_if ((limit <? 1) || (100 <? limit)) RangeError ;+
   λ s, (Ok (mapWaitpoint <$> take (Z.to_nat limit) (merge_sort inbox_le
     (map_rows (λ w, bool_decide (wp_state_col w = Waiting) && owned_by c s ownerId tenantId w)
       (visible_waitpoints c s)))), s))%act.

(** ** [waitForInput] *)

Inductive WaitpointOutcome {T : Type} : Type :=
| NotResolved (status : wp_state) (w : waitpoint)
| ResolvedWith (value : T) (w : waitpoint).

(** [parse] may throw; a resolved waitpoint always carries a resolution. *)
Definition waitForInput {T} (c : session) (now : Z) (taskId : string) (rq : TaskWaitpointCreateRequest)
    (parse : option J → result js_error T) : wio (@WaitpointOutcome T) :=
  (let+ w := createTaskWaitpoint c now taskId rq in
   if negb (bool_decide (wv_state w = Resolved)) then aret (NotResolved (wv_state w) w) else
   match parse (wv_resolution w) with
   | Ok value => aret (ResolvedWith value w)
   | Err e => athrow e
   end)%act.

(** [as_boolean] reads a boolean or the [approved] field of an object. *)
Definition waitForApproval (as_boolean : option J → option bool) (c : session) (now : Z) (taskId : string)
    (rq : TaskWaitpointCreateRequest) : wio (@WaitpointOutcome bool) :=
  waitForInput c now taskId
    {| wr_id := wr_id rq; wr_key := wr_key rq; wr_kind := "approval"; wr_payloadVersion := wr_payloadVersion rq;
       wr_deadline := wr_deadline rq |}
    (λ v, match as_boolean v with Some b => Ok b | None => Err TypeError end).

Definition waitForWebhook {T} (c : session) (now : Z) (taskId : string) (rq : TaskWaitpointCreateRequest)
    (parse : option J → result js_error T) : wio (@WaitpointOutcome T) :=
  waitForInput c now taskId
    {| wr_id := wr_id rq; wr_key := wr_key rq; wr_kind := "webhook"; wr_payloadVersion := wr_payloadVersion rq;
       wr_deadline := wr_deadline rq |} parse.
End waitpoints.

Arguments resolution J : clear implicits.
Arguments wp_row J : clear implicits.
Arguments wdb J : clear implicits.
Arguments wsql J A : clear implicits.
Arguments waitpoint J : clear implicits.
Arguments wio J A : clear implicits.
