(* ===== verification/WaitpointFacts.v ===== *)
(** * Waitpoints: settled once, found again

    Theorems about [Waitpoints] over every history of waitpoint and Task
    commands: settled rows are final, resolution is idempotent and exclusive,
    expiry is bounded and complete, and what a redelivered worker finds. *)

From stdpp Require Import base gmap strings list fin_maps sorting relations.
From Stdlib Require Import Ascii ZArith Lia.
From S2P Require Import Prelude TaskModel TaskCommands ExecutionCommands StoreSteps TaskClient Waitpoints.

Section facts.
Context {J : Type} `{!EqDecision J}.

(** ** Histories *)

Inductive wcommand : Type :=
| WTask (cmd : command)
| WCreate (id task_id key kind : string) (payload_version : Z) (deadline : option Z)
| WResolve (id tenant owner : string) (expected : Z) (resolution_id actor : string) (value : J) (hash : string)
| WExpire (limit : Z).

Definition forget {A} (m : wsql J A) : wsql J unit := tbind m (λ _, tret tt).

Definition run_wcommand (c : session) (now : Z) (cmd : wcommand) : wsql J unit :=
  match cmd with
  | WTask cmd => forget (on_tasks (run_command c now cmd))
  | WCreate id task key kind pv deadline => forget (create_waitpoint c now id task key kind pv deadline)
  | WResolve id tenant owner v rid actor value hash =>
      resolve_waitpoint c now id tenant owner v rid actor value hash
  | WExpire limit => forget (expire_waitpoints c now limit)
  end.

Record wevent := WEvent { we_session : session; we_now : Z; we_command : wcommand }.

Definition run_wevent (ev : wevent) (s : wdb J) : wdb J :=
  match run_wcommand (we_session ev) (we_now ev) (we_command ev) s with Ok (_, s') => s' | Err _ => s end.

Definition run_whistory (h : list wevent) (s : wdb J) : wdb J := foldl (λ s ev, run_wevent ev s) s h.

(** Rows are stored under their primary key. *)
Definition keyed (s : wdb J) : Prop := ∀ k w, w_waitpoints s !! k = Some w → wp_id w = k.

(** ** What a command may do to the table *)

Definition settled (w : wp_row J) : Prop := wp_state_col w ≠ Waiting.

(** A command inserts a fresh row or rewrites rows that were waiting. *)
Definition table_step (m m' : gmap string (wp_row J)) : Prop :=
  ∀ k, (∀ w, m !! k = Some w → m' !! k = Some w ∨
          (wp_state_col w = Waiting ∧ ∃ w', m' !! k = Some w' ∧ wp_id w' = wp_id w)) ∧
       (∀ w', m' !! k = Some w' → m !! k = None → wp_id w' = k).

Lemma table_step_refl m : table_step m m.
Proof. intros k. split; [auto|congruence]. Qed.

Lemma on_tasks_waitpoints {A} (m : sql A) s a s' :
  on_tasks (J:=J) m s = Ok (a, s') → w_waitpoints s' = w_waitpoints s.
Proof. unfold on_tasks. destruct (m (w_tasks s)) as [[? ?]|]; [|done]. by intros [= _ <-]. Qed.

Lemma visible_waitpoints_lookup c (s : wdb J) k w :
  visible_waitpoints c s !! k = Some w ↔ w_waitpoints s !! k = Some w ∧ rls_allows c (wp_tenant w) = true.
Proof. unfold visible_waitpoints. by rewrite map_lookup_filter_Some. Qed.

Lemma owned_waitpoint_lookup c (s : wdb J) id tenant owner w :
  owned_waitpoint c s id tenant owner = Some w → w_waitpoints s !! id = Some w.
Proof.
  unfold owned_waitpoint. destruct (visible_waitpoints c s !! id) as [w0|] eqn:E; [|done]. cbn.
  destruct (visible_tasks c (w_tasks s) !! wp_task_id w0); [|done]. cbn.
  case_match; [|done]. intros [= ->]. by apply visible_waitpoints_lookup in E as [? _].
Qed.

Lemma insert_waitpoint_step c mk (s : wdb J) b s' :
  keyed s → insert_waitpoint c mk s = Ok (b, s') → table_step (w_waitpoints s) (w_waitpoints s').
Proof.
  intros Hkd. unfold insert_waitpoint. destruct (current_tenant c) as [tenant|]; [|done].
  destruct (mk tenant) as [w|]; [|done].
  destruct (map_exists (same_wait w) (w_waitpoints s)) eqn:E; [intros [= <- <-]; apply table_step_refl|].
  destruct (db_tasks _ !! _) as [t|]; [|done]. case_bool_decide; [|done]. intros [= <- <-]. cbn.
  assert (w_waitpoints s !! wp_id w = None) as Hn.
  { destruct (w_waitpoints s !! wp_id w) as [o|] eqn:Ho; [|done].
    eapply map_exists_false in E; [|exact Ho]. unfold same_wait in E.
    rewrite (bool_decide_eq_true_2 _ (eq_sym (Hkd _ _ Ho))) in E. done. }
  intros k. rewrite !lookup_insert. destruct (decide (wp_id w = k)) as [<-|]; split; try (by auto); naive_solver.
Qed.

Lemma rewrite_step (m : gmap string (wp_row J)) k w w' :
  m !! k = Some w → wp_state_col w = Waiting → wp_id w' = wp_id w → table_step m (<[k := w']> m).
Proof.
  intros Hk Hw Hid k0. rewrite lookup_insert. case_decide as E; [subst k0|]; split; try (by auto).
  - intros w0 Hw0. right. assert (w0 = w) as -> by congruence. eauto.
  - congruence.
  - congruence.
Qed.

Lemma table_step_trans m1 m2 m3 :
  (∀ k w, m1 !! k = Some w → wp_id w = k) →
  table_step m1 m2 → table_step m2 m3 → table_step m1 m3.
Proof.
  intros Hkd H12 H23 k. destruct (H12 k) as [A12 B12], (H23 k) as [A23 B23]. split.
  - intros w Hw. destruct (A12 w Hw) as [H2|(Hwt & w2 & H2 & Hid2)].
    + destruct (A23 w H2) as [?|(? & w3 & ? & ?)]; eauto 6.
    + right. split; [done|]. destruct (A23 w2 H2) as [?|(_ & w3 & ? & Hid3)]; [eauto|].
      exists w3. split; [done|congruence].
  - intros w3 H3 H1. destruct (m2 !! k) as [w2|] eqn:H2.
    + pose proof (B12 w2 eq_refl H1) as Hid. destruct (A23 w2 eq_refl) as [?|(_ & w3' & ? & ?)]; congruence.
    + by apply B23.
Qed.

Lemma table_step_keyed s s' :
  keyed s → table_step (w_waitpoints s) (w_waitpoints s') → keyed s'.
Proof.
  intros Hkd Hs k w' Hw'. destruct (Hs k) as [HA HB].
  destruct (w_waitpoints s !! k) as [w|] eqn:E; [|by apply HB].
  pose proof (Hkd k w E) as Hid. destruct (HA w eq_refl) as [?|(_ & w2 & ? & ?)]; congruence.
Qed.

(** The rows an expiry sweep takes are distinct waiting rows of the table. *)
Definition sweepable (m : gmap string (wp_row J)) (rows : list (wp_row J)) : Prop :=
  NoDup (wp_id <$> rows) ∧ ∀ v, v ∈ rows → m !! wp_id v = Some v ∧ wp_state_col v = Waiting.

Lemma expire_rows_spec c now rows (s : wdb J) u s' :
  keyed s → sweepable (w_waitpoints s) rows → expire_rows c now rows s = Ok (u, s') →
  table_step (w_waitpoints s) (w_waitpoints s') ∧
  (∀ v, v ∈ rows → ∃ v', w_waitpoints s' !! wp_id v = Some v' ∧ wp_state_col v' = Expired) ∧
  (∀ k, k ∉ wp_id <$> rows → w_waitpoints s' !! k = w_waitpoints s !! k).
Proof.
  revert s. induction rows as [|v rows IH]; intros s Hkd [Hnd Hrows] H; cbn [expire_rows] in H.
  { apply tret_ok in H as [_ ->]. split_and!; [apply table_step_refl|set_solver|done]. }
  apply tbind_ok in H as (version & s1 & Hl & H). apply tlift_ok in Hl as [_ ->].
  apply tbind_ok in H as (s2 & s3 & Hg & H). apply tget_ok in Hg as [-> ->].
  apply tbind_ok in H as (u4 & s4 & Hp & H). apply tput_ok in Hp as ->.
  apply tbind_ok in H as (u5 & s5 & Ht & H). apply on_tasks_waitpoints in Ht. cbn in Ht.
  set (v' := wp_settle Expired None version now v) in *.
  destruct (Hrows v) as [Hv Hw]; [set_solver|].
  rewrite fmap_cons in Hnd. apply NoDup_cons in Hnd as [Hnot Hnd].
  assert (table_step (w_waitpoints s) (w_waitpoints s5)) as Hstep by (rewrite Ht; by eapply rewrite_step).
  destruct (IH s5) as (Hst & Hexp & Hrest); [by eapply table_step_keyed| |done|].
  { split; [done|]. intros o Ho. destruct (Hrows o) as [Ho' How]; [set_solver|].
    rewrite Ht, lookup_insert_ne; [done|]. intros E. apply Hnot. rewrite E. set_solver. }
  split_and!.
  - by eapply table_step_trans.
  - intros o Ho. apply elem_of_cons in Ho as [->|Ho]; [|by apply Hexp].
    rewrite (Hrest (wp_id v)) by set_solver. rewrite Ht, lookup_insert_eq. eauto.
  - intros k Hk. rewrite fmap_cons in Hk. rewrite (Hrest k) by set_solver.
    rewrite Ht, lookup_insert_ne; [done|set_solver].
Qed.

Lemma NoDup_fmap_filter {A B} (f : A → B) (p : A → bool) l :
  NoDup (f <$> l) → NoDup (f <$> List.filter p l).
Proof.
  induction l as [|x l IH]; [done|]. cbn. rewrite NoDup_cons. intros [Hx Hnd].
  destruct (p x); cbn; [|by apply IH]. apply NoDup_cons. split; [|by apply IH].
  intros Hin. apply Hx. apply list_elem_of_fmap in Hin as (y & -> & Hy).
  apply list_elem_of_fmap. exists y. split; [done|].
  apply list_elem_of_In, filter_In in Hy as [Hy _]. by apply list_elem_of_In.
Qed.

Lemma map_rows_NoDup p (m : gmap string (wp_row J)) :
  (∀ k w, m !! k = Some w → wp_id w = k) → NoDup (wp_id <$> map_rows p m).
Proof.
  intros Hkd. unfold map_rows. apply NoDup_fmap_filter.
  assert (wp_id <$> (map_to_list m).*2 = (map_to_list m).*1) as ->; [|apply NoDup_fst_map_to_list].
  rewrite <-list_fmap_compose. apply list_fmap_ext. intros i [k w] Hi. cbn. apply Hkd.
  apply elem_of_map_to_list. by eapply list_elem_of_lookup_2.
Qed.

Lemma NoDup_fmap_take {A B} (f : A → B) n l : NoDup (f <$> l) → NoDup (f <$> take n l).
Proof. intros H. rewrite fmap_take. eapply sublist_NoDup; [exact H|apply sublist_take]. Qed.

Lemma due_rows_sub c now limit (s : wdb J) v :
  v ∈ due_rows c now limit s → due now v = true ∧ ∃ k, visible_waitpoints c s !! k = Some v.
Proof.
  unfold due_rows. intros Hv. apply elem_of_take in Hv as (i & Hv & _).
  apply list_elem_of_lookup_2 in Hv. rewrite merge_sort_Permutation in Hv. by apply map_rows_spec.
Qed.

Lemma due_rows_sweepable c now limit (s : wdb J) :
  keyed s → sweepable (w_waitpoints s) (due_rows c now limit s).
Proof.
  intros Hkd. split.
  - apply NoDup_fmap_take. rewrite merge_sort_Permutation. apply map_rows_NoDup.
    intros k w Hw. apply visible_waitpoints_lookup in Hw as [Hw _]. by apply Hkd.
  - intros v Hv. apply due_rows_sub in Hv as [Hdue [k Hk]]. apply visible_waitpoints_lookup in Hk as [Hk _].
    rewrite (Hkd _ _ Hk). split; [done|]. unfold due in Hdue. by to_prop.
Qed.

Lemma resolve_waitpoint_ok c now id tenant owner v rid actor value hash (s : wdb J) u s' :
  resolve_waitpoint c now id tenant owner v rid actor value hash s = Ok (u, s') →
  ∃ w, owned_waitpoint c s id tenant owner = Some w ∧
    ((wp_state_col w = Resolved ∧ s' = s ∧ ∃ r, wp_resolution w = Some r ∧ res_id r = rid ∧ res_hash r = hash ∧
        res_value r = value) ∨
     (wp_state_col w = Waiting ∧ wp_version w = v ∧ (∀ x, wp_deadline w = Some x → now < x) ∧
      w_waitpoints s' = <[id := wp_settle Resolved (Some (Resolution value hash rid actor now)) (v + 1) now w]>
                          (w_waitpoints s))).
Proof.
  unfold resolve_waitpoint, wfail_if. intros H.
  apply tbind_ok in H as (u1 & s1 & H1 & H). apply traise_if_ok in H1 as [_ ->].
  apply tbind_ok in H as (s2 & s3 & H2 & H). apply tget_ok in H2 as [-> ->].
  destruct (owned_waitpoint c s id tenant owner) as [w|]; [|done]. exists w. split; [done|].
  case_bool_decide as Hr.
  { left. destruct (wp_resolution w) as [r|]; [|done]. case_match eqn:E; [|done]. to_prop.
    apply tret_ok in H as [_ ->]. eauto 10. }
  right. apply tbind_ok in H as (u4 & s4 & H4 & H). apply traise_if_ok in H4 as [Hver ->].
  apply tbind_ok in H as (u5 & s5 & H5 & H). apply traise_if_ok in H5 as [Hst ->].
  apply tbind_ok in H as (ver & s6 & H6 & H). apply tlift_ok in H6 as [Hs ->].
  apply tbind_ok in H as (u7 & s7 & H7 & H). apply traise_if_ok in H7 as [_ ->].
  apply tbind_ok in H as (u8 & s8 & H8 & H). apply tput_ok in H8 as ->.
  apply on_tasks_waitpoints in H. cbn in H. unfold bigint_succ in Hs. to_prop. subst v ver.
  split_and!; [done|done| |done]. intros x Hx. rewrite Hx in *. by to_prop.
Qed.

Lemma run_wcommand_step c now cmd (s : wdb J) u s' :
  keyed s → run_wcommand c now cmd s = Ok (u, s') → table_step (w_waitpoints s) (w_waitpoints s').
Proof.
  intros Hkd. destruct cmd; cbn [run_wcommand]; unfold forget; intros H.
  - apply tbind_ok in H as (a & s1 & H1 & H). apply tret_ok in H as [_ ->].
    apply on_tasks_waitpoints in H1 as ->. apply table_step_refl.
  - apply tbind_ok in H as (a & s1 & H1 & H). apply tret_ok in H as [_ ->]. unfold create_waitpoint in H1.
    apply tbind_ok in H1 as (found & s2 & H2 & H1). pose proof (insert_waitpoint_step _ _ _ _ _ Hkd H2) as Hst.
    destruct found.
    + apply tbind_ok in H1 as (? & s3 & H3 & H1). apply tret_ok in H1 as [_ ->].
      apply on_tasks_waitpoints in H3. by rewrite H3.
    + apply tbind_ok in H1 as (? & s3 & H3 & H1). apply tget_ok in H3 as [-> ->].
      destruct (map_rows _ _); [done|]. apply tbind_ok in H1 as (? & s4 & H4 & H1).
      apply traise_if_ok in H4 as [_ ->]. by apply tret_ok in H1 as [_ ->].
  - apply resolve_waitpoint_ok in H as (w & Hw & [(_ & -> & _)|(Hwt & _ & _ & ->)]); [apply table_step_refl|].
    apply owned_waitpoint_lookup in Hw. by eapply rewrite_step.
  - apply tbind_ok in H as (a & s1 & H1 & H). apply tret_ok in H as [_ ->]. unfold expire_waitpoints, wfail_if in H1.
    apply tbind_ok in H1 as (? & s2 & H2 & H1). apply traise_if_ok in H2 as [_ ->].
    apply tbind_ok in H1 as (? & s3 & H3 & H1). apply tget_ok in H3 as [-> ->].
    apply tbind_ok in H1 as (? & s4 & H4 & H1). apply tret_ok in H1 as [_ ->].
    by apply expire_rows_spec in H4 as [? _]; [|done|apply due_rows_sweepable].
Qed.

Lemma run_whistory_settled h (s : wdb J) k w :
  keyed s → w_waitpoints s !! k = Some w → settled w →
  keyed (run_whistory h s) ∧ w_waitpoints (run_whistory h s) !! k = Some w.
Proof.
  revert s. induction h as [|ev h IH]; intros s Hkd Hk Hs; [done|]. cbn. apply IH; [| |done]; unfold run_wevent.
  - destruct (run_wcommand _ _ _ _) as [[u s']|] eqn:E; [|done]. eapply table_step_keyed; [done|].
    by eapply run_wcommand_step.
  - destruct (run_wcommand _ _ _ _) as [[u s']|] eqn:E; [|done].
    apply run_wcommand_step in E; [|done]. destruct (E k) as [HA _].
    destruct (HA w Hk) as [?|(? & _)]; [done|]. by destruct Hs.
Qed.

(** A settled waitpoint is final: once resolved, expired or cancelled, its row
    (state, answer, author, version) never changes again, whatever commands any
    sessions issue; so a waitpoint has at most one answer. *)
Theorem settled_waitpoint_final : ∀ h (s : wdb J) k w,
  keyed s → w_waitpoints s !! k = Some w → settled w →
  w_waitpoints (run_whistory h s) !! k = Some w.
Proof. intros h s k w Hkd Hk Hs. by apply run_whistory_settled. Qed.

Lemma resolve_resolved c now id tenant owner v rid actor value hash (s : wdb J) w r :
  blank tenant = false → owned_waitpoint c s id tenant owner = Some w →
  wp_state_col w = Resolved → wp_resolution w = Some r →
  resolve_waitpoint c now id tenant owner v rid actor value hash s =
  if bool_decide (res_id r = rid) && bool_decide (res_hash r = hash) && bool_decide (res_value r = value)
  then Ok (tt, s) else Err (Raise "RHINOQ_WAITPOINT_CONFLICT").
Proof.
  intros Hb Ho Hst Hr. unfold resolve_waitpoint, tbind, wfail_if, traise_if, tget, tret. rewrite Hb, Ho.
  rewrite bool_decide_eq_true_2 by done. rewrite Hr. by destruct (_ && _).
Qed.

(** Resolution is idempotent and exclusive: after a resolution succeeded, in every
    later store an authorised caller that repeats it (same resolution id, hash
    and value, whatever version, actor or time) succeeds without changing
    anything, and one that brings a different answer gets
    RHINOQ_WAITPOINT_CONFLICT. *)
Theorem resolve_waitpoint_once : ∀ c now id tenant owner v rid actor value hash (s : wdb J) u s1 h
    c2 now2 tenant2 owner2 v2 rid2 actor2 value2 hash2 w2,
  keyed s → resolve_waitpoint c now id tenant owner v rid actor value hash s = Ok (u, s1) →
  owned_waitpoint c2 (run_whistory h s1) id tenant2 owner2 = Some w2 → blank tenant2 = false →
  resolve_waitpoint c2 now2 id tenant2 owner2 v2 rid2 actor2 value2 hash2 (run_whistory h s1) =
  if bool_decide (rid = rid2) && bool_decide (hash = hash2) && bool_decide (value = value2)
  then Ok (tt, run_whistory h s1) else Err (Raise "RHINOQ_WAITPOINT_CONFLICT").
Proof.
  intros c now id tenant owner v rid actor value hash s u s1 h c2 now2 tenant2 owner2 v2 rid2 actor2 value2 hash2 w2
    Hkd H Ho Hb.
  assert (keyed s1) as Hkd1.
  { eapply table_step_keyed; [exact Hkd|].
    by apply (run_wcommand_step c now (WResolve id tenant owner v rid actor value hash) s u s1). }
  assert (∃ w r, w_waitpoints s1 !! id = Some w ∧ wp_state_col w = Resolved ∧ wp_resolution w = Some r ∧
    res_id r = rid ∧ res_hash r = hash ∧ res_value r = value) as (w & r & Hw & Hst & Hr & <- & <- & <-).
  { apply resolve_waitpoint_ok in H as (w & Hw & [(Hst & -> & r & Hr)|(_ & _ & _ & Hs1)]).
    - apply owned_waitpoint_lookup in Hw. exists w, r. tauto.
    - do 2 eexists. rewrite Hs1, lookup_insert_eq. split_and!; done. }
  destruct (run_whistory_settled h s1 id w Hkd1 Hw) as [_ Hlater]; [unfold settled; congruence|].
  apply owned_waitpoint_lookup in Ho as Hw2. assert (w2 = w) as -> by congruence.
  by apply resolve_resolved with w.
Qed.

(** An expiry sweep is bounded, sound and complete: it expires at most [limit]
    waitpoints; it changes only visible waiting ones whose deadline has passed;
    and unless it filled the whole batch, none of those is left. *)
Theorem expire_waitpoints_spec : ∀ c now limit (s : wdb J) n s',
  keyed s → expire_waitpoints c now limit s = Ok (n, s') →
  0 ≤ n ≤ limit ∧
  (∀ k w, w_waitpoints s !! k = Some w →
     w_waitpoints s' !! k = Some w ∨
     (due now w = true ∧ rls_allows c (wp_tenant w) = true ∧
      ∃ w', w_waitpoints s' !! k = Some w' ∧ wp_state_col w' = Expired)) ∧
  (n < limit → ∀ k w, visible_waitpoints c s !! k = Some w → due now w = true →
     ∃ w', w_waitpoints s' !! k = Some w' ∧ wp_state_col w' = Expired).
Proof.
  intros c now limit s n s' Hkd H. unfold expire_waitpoints, wfail_if in H.
  apply tbind_ok in H as (? & s2 & H2 & H). apply traise_if_ok in H2 as [Hlim ->].
  apply tbind_ok in H as (? & s3 & H3 & H). apply tget_ok in H3 as [-> ->].
  apply tbind_ok in H as (? & s4 & H4 & H). apply tret_ok in H as [-> ->]. to_prop.
  pose proof (due_rows_sweepable c now limit s Hkd) as Hsw.
  apply expire_rows_spec in H4 as (_ & Hexp & Hrest); [|done..].
  assert (length (due_rows c now limit s) ≤ Z.to_nat limit)%nat as Hlen by (unfold due_rows; rewrite length_take; lia).
  split; [lia|]. split.
  - intros k w Hk. destruct (decide (k ∈ wp_id <$> due_rows c now limit s)) as [Hin|Hout].
    + right. apply list_elem_of_fmap in Hin as (v & -> & Hv). destruct (Hexp v Hv) as (v' & Hv' & Hst').
      destruct Hsw as [_ Hsw]. destruct (Hsw v Hv) as [Hv2 _]. assert (v = w) as -> by congruence.
      apply due_rows_sub in Hv as [Hdue [k' Hk']]. apply visible_waitpoints_lookup in Hk' as [_ Hvis]. eauto.
    + left. by rewrite Hrest.
  - intros Hn k w Hk Hdue. assert (w ∈ due_rows c now limit s) as Hin.
    { unfold due_rows in Hn |- *. rewrite length_take in Hn. rewrite take_ge by lia.
      rewrite merge_sort_Permutation. apply map_rows_spec. eauto. }
    destruct (Hexp w Hin) as (w' & Hw' & Hst'). apply visible_waitpoints_lookup in Hk as [Hk _].
    rewrite (Hkd _ _ Hk) in Hw'. eauto.
Qed.

(** ** Re-entering a wait *)

(** The stored row is the wait the request describes. *)
Definition registered (c : session) (taskId : string) (rq : TaskWaitpointCreateRequest) (s : wdb J)
    (w : wp_row J) (t : task_row) : Prop :=
  visible_waitpoints c s !! wr_id rq = Some w ∧ wp_id w = wr_id rq ∧ wp_task_id w = taskId ∧ wp_key w = wr_key rq ∧
  Some (wp_kind_col w) = wp_kind_of (wr_kind rq) ∧ wp_payload_version w = wr_payloadVersion rq ∧
  wp_deadline w = wr_deadline rq ∧ visible_tasks c (w_tasks s) !! taskId = Some t ∧
  js_blank taskId = false ∧ js_blank (wr_id rq) = false ∧ js_blank (wr_key rq) = false ∧
  0 < wr_payloadVersion rq ∧ wr_payloadVersion rq ≤ INT4_MAX ∧ is_Some (current_tenant c) ∧
  (∀ k o, w_waitpoints s !! k = Some o → wp_task_id o = taskId → wp_key o = wr_key rq → k = wr_id rq).

Lemma kind_listed k s : Some k = wp_kind_of s → bool_decide (s ∈ ["input"; "approval"; "webhook"]) = true.
Proof.
  unfold wp_kind_of. intros H. apply bool_decide_eq_true. repeat case_bool_decide; set_solver.
Qed.

Lemma reenter_statement c now taskId rq (s : wdb J) w t :
  registered c taskId rq s w t → (∀ x, wr_deadline rq = Some x → now < x) →
  create_waitpoint c now (wr_id rq) taskId (wr_key rq) (wr_kind rq) (wr_payloadVersion rq) (wr_deadline rq) s
  = Ok (true, s).
Proof.
  intros (Hw & Hid & Hto & Hkey & Hkind & Hpv & Hdl & Ht & B1 & B2 & B3 & Hpos & Hmax & [tenant Hten] & Huniq) Hnow.
  unfold create_waitpoint, tbind, insert_waitpoint. rewrite Hten. unfold new_waitpoint. rewrite <-Hkind.
  assert (blank (wr_id rq) = false) as -> by (destruct (blank (wr_id rq)) eqn:E; [apply blank_js_blank in E; congruence|done]).
  assert (blank (wr_key rq) = false) as -> by (destruct (blank (wr_key rq)) eqn:E; [apply blank_js_blank in E; congruence|done]).
  rewrite (proj2 (Z.leb_gt _ _) Hpos). cbn [orb].
  assert (match wr_deadline rq with Some x => x <=? now | None => false end = false) as ->.
  { destruct (wr_deadline rq) as [x|]; [|done]. apply Z.leb_gt. by apply Hnow. }
  assert (map_exists (same_wait (WpRow (wr_id rq) taskId tenant (wr_key rq) (wp_kind_col w) (wr_payloadVersion rq)
    Waiting (wr_deadline rq) None 1 now now)) (w_waitpoints s) = true) as ->.
  { apply map_exists_spec. apply visible_waitpoints_lookup in Hw as [Hw _]. exists (wr_id rq), w. split; [done|].
    unfold same_wait. cbn. rewrite Hid. by rewrite bool_decide_eq_true_2. }
  unfold tget.
  destruct (map_rows _ (visible_waitpoints c s)) as [|v l] eqn:E.
  - assert (w ∈ map_rows (λ w, bool_decide (wp_task_id w = taskId) && bool_decide (wp_key w = wr_key rq))
      (visible_waitpoints c s)) as Hin.
    { apply map_rows_spec. split; [|eauto]. by rewrite !bool_decide_eq_true_2. }
    rewrite E in Hin. by apply elem_of_nil in Hin.
  - assert (v ∈ map_rows (λ w, bool_decide (wp_task_id w = taskId) && bool_decide (wp_key w = wr_key rq))
      (visible_waitpoints c s)) as Hin by (rewrite E; apply list_elem_of_here).
    apply map_rows_spec in Hin as [Hv [k Hk]]. to_prop.
    pose proof Hk as Hk'. apply visible_waitpoints_lookup in Hk' as [Hk' _].
    assert (k = wr_id rq) as -> by eauto. assert (v = w) as -> by congruence.
    unfold wfail_if, traise_if, is_distinct, tret. rewrite Hid, Hpv, Hdl, Z.eqb_refl, Hkind.
    by rewrite !bool_decide_eq_true_2.
Qed.

(** A redelivered worker that re-enters [waitForInput] before the deadline finds the
    wait it registered: nothing is inserted, an open wait is reported as such,
    and the committed answer is returned once there is one. *)
Theorem waitForInput_reenters : ∀ T c now taskId rq (parse : option J → result js_error T) (s : wdb J) w t,
  registered c taskId rq s w t → (∀ x, wr_deadline rq = Some x → now < x) →
  waitForInput c now taskId rq parse s =
  (if bool_decide (wp_state_col w = Resolved) then
     match parse (res_value <$> wp_resolution w) with
     | Ok value => Ok (ResolvedWith value (mapWaitpoint w))
     | Err e => Err e
     end
   else Ok (NotResolved (wp_state_col w) (mapWaitpoint w)), s).
Proof.
  intros T c now taskId rq parse s w t Hreg Hnow. pose proof (reenter_statement _ _ _ _ _ _ _ Hreg Hnow) as Hst.
  destruct Hreg as (Hw & Hid & Hto & Hkey & Hkind & Hpv & Hdl & Ht & B1 & B2 & B3 & Hpos & Hmax & Hten & Huniq).
  unfold waitForInput, createTaskWaitpoint, abind, athrow_if. rewrite B1, B2, B3, (kind_listed _ _ Hkind).
  rewrite (proj2 (Z.leb_gt _ _) Hpos). cbn [orb negb]. unfold aret, wexecute, astatement, tbind at 1, traise_if.
  rewrite (proj2 (Z.ltb_ge _ _) Hmax). unfold tret at 1. rewrite Hst.
  unfold readWaitpoint. rewrite Hw. cbn. rewrite Hto, Ht. cbn.
  case_bool_decide; cbn [negb]; [|done]. by destruct (parse _).
Qed.

(** Once the deadline has passed the same re-entry fails: the table's CHECK
    (deadline > created_at) is evaluated on the row the INSERT proposes before
    the existing row is noticed, so even a committed answer, or the fact that
    the wait expired, is reported as RHINOQ_POSTGRES_UNREACHABLE, retryable. *)
Theorem waitForInput_after_deadline_fails : ∀ T c now taskId rq (parse : option J → result js_error T) (s : wdb J) w t x,
  registered c taskId rq s w t → wr_deadline rq = Some x → x ≤ now →
  waitForInput c now taskId rq parse s = (Err (RhinoQError "RHINOQ_POSTGRES_UNREACHABLE" true None), s).
Proof.
  intros T c now taskId rq parse s w t x Hreg Hx Hle.
  destruct Hreg as (Hw & Hid & Hto & Hkey & Hkind & Hpv & Hdl & Ht & B1 & B2 & B3 & Hpos & Hmax & [tenant Hten] & Huniq).
  unfold waitForInput, createTaskWaitpoint, abind, athrow_if. rewrite B1, B2, B3, (kind_listed _ _ Hkind).
  rewrite (proj2 (Z.leb_gt _ _) Hpos). cbn [orb negb]. unfold aret, wexecute, astatement, tbind at 1, traise_if.
  rewrite (proj2 (Z.ltb_ge _ _) Hmax). unfold tret at 1.
  unfold create_waitpoint, tbind, insert_waitpoint. rewrite Hten. unfold new_waitpoint. rewrite <-Hkind, Hx.
  rewrite (proj2 (Z.leb_le _ _) Hle), !orb_true_r. done.
Qed.
End facts.

(** ** Concrete waits *)

Lemma run_whistory_nil {J} `{!EqDecision J} (s : wdb J) : run_whistory [] s = s.
Proof. reflexivity. Qed.

Definition approval_request : TaskWaitpointCreateRequest :=
  {| wr_id := "w1"; wr_key := "approve"; wr_kind := "approval"; wr_payloadVersion := 1; wr_deadline := Some 100 |}.

(** A wait on the demo Task, registered at time 10 and resolved at time 20. *)
Definition waiting_db : wdb bool := run_whistory [WEvent demo_session 10
  (WCreate "w1" "t1" "approve" "approval" 1 (Some 100))] (Wdb demo_db ∅).
Definition resolved_db : wdb bool := run_whistory [WEvent demo_session 20
  (WResolve "w1" "acme" "alice" 1 "r1" "alice" true "h1")] waiting_db.

Definition wait_row (s : wdb bool) : wp_row bool :=
  default (WpRow "" "" "" "" WInput 0 Waiting None None 0 0 0) (w_waitpoints s !! "w1").

Lemma single_keyed (s : wdb bool) w : w_waitpoints s = {[ wp_id w := w ]} → keyed s.
Proof. intros Hs k w' Hk. rewrite Hs in Hk. by apply lookup_singleton_Some in Hk as [<- <-]. Qed.

Lemma waiting_keyed : keyed waiting_db.
Proof. apply (single_keyed _ (wait_row waiting_db)). vm_compute. reflexivity. Qed.

Lemma resolved_keyed : keyed resolved_db.
Proof. apply (single_keyed _ (wait_row resolved_db)). vm_compute. reflexivity. Qed.

Lemma settled_waitpoint_final_witness :
  w_waitpoints (run_whistory [WEvent demo_session 200 (WExpire 10)] resolved_db) !! "w1"
    = Some (wait_row resolved_db) ∧ wp_state_col (wait_row resolved_db) = Resolved.
Proof.
  split; [|vm_compute; reflexivity].
  apply settled_waitpoint_final; [apply resolved_keyed|vm_compute; reflexivity|vm_compute; discriminate].
Defined.

Lemma resolve_waitpoint_once_witness :
  resolve_waitpoint demo_session 30 "w1" "acme" "alice" 7 "r1" "bob" true "h1" resolved_db = Ok (tt, resolved_db) ∧
  resolve_waitpoint demo_session 30 "w1" "acme" "alice" 7 "r2" "bob" false "h2" resolved_db
    = Err (Raise "RHINOQ_WAITPOINT_CONFLICT").
Proof.
  assert (resolve_waitpoint demo_session 20 "w1" "acme" "alice" 1 "r1" "alice" true "h1" waiting_db
    = Ok (tt, resolved_db)) as H by (vm_compute; reflexivity).
  assert (owned_waitpoint demo_session (run_whistory [] resolved_db) "w1" "acme" "alice"
    = Some (wait_row resolved_db)) as Ho by (rewrite run_whistory_nil; vm_compute; reflexivity).
  split.
  - pose proof (resolve_waitpoint_once demo_session 20 "w1" "acme" "alice" 1 "r1" "alice" true "h1" waiting_db tt
      resolved_db [] demo_session 30 "acme" "alice" 7 "r1" "bob" true "h1" _ waiting_keyed H Ho eq_refl) as Hr.
    rewrite run_whistory_nil in Hr. rewrite Hr. reflexivity.
  - pose proof (resolve_waitpoint_once demo_session 20 "w1" "acme" "alice" 1 "r1" "alice" true "h1" waiting_db tt
      resolved_db [] demo_session 30 "acme" "alice" 7 "r2" "bob" false "h2" _ waiting_keyed H Ho eq_refl) as Hr.
    rewrite run_whistory_nil in Hr. rewrite Hr. reflexivity.
Defined.

Lemma expire_waitpoints_spec_witness :
  ∃ s', expire_waitpoints demo_session 100 10 waiting_db = Ok (1, s') ∧
    ∃ w', w_waitpoints s' !! "w1" = Some w' ∧ wp_state_col w' = Expired.
Proof.
  destruct (expire_waitpoints demo_session 100 10 waiting_db) as [[n s']|] eqn:E; [|by vm_compute in E].
  assert (n = 1) as -> by (vm_compute in E; congruence).
  exists s'. split; [done|].
  destruct (expire_waitpoints_spec demo_session 100 10 waiting_db 1 s' waiting_keyed E) as (_ & _ & H).
  apply (H ltac:(lia) "w1" (wait_row waiting_db)); vm_compute; reflexivity.
Defined.

Lemma approval_registered (s : wdb bool) t :
  w_waitpoints s = {[ "w1" := wait_row s ]} → visible_tasks demo_session (w_tasks s) !! "t1" = Some t →
  wp_id (wait_row s) = "w1" → wp_task_id (wait_row s) = "t1" → wp_key (wait_row s) = "approve" →
  wp_kind_col (wait_row s) = WApproval → wp_payload_version (wait_row s) = 1 →
  wp_deadline (wait_row s) = Some 100 → wp_tenant (wait_row s) = "acme" →
  registered demo_session "t1" approval_request s (wait_row s) t.
Proof.
  intros Hs Ht H1 H2 H3 H4 H5 H6 H7. unfold registered. split_and!; try done.
  - apply visible_waitpoints_lookup. split; [|by rewrite H7]. by rewrite Hs, lookup_singleton_eq.
  - by rewrite H4.
  - intros k o Ho _ _. rewrite Hs in Ho. by apply lookup_singleton_Some in Ho as [<- _].
Qed.

Definition approval_of (o : option bool) : result js_error bool :=
  match o with Some b => Ok b | None => Err TypeError end.

Lemma waitForInput_reenters_witness :
  waitForInput demo_session 50 "t1" approval_request approval_of resolved_db =
  (Ok (ResolvedWith true (mapWaitpoint (wait_row resolved_db))), resolved_db).
Proof.
  destruct (visible_tasks demo_session (w_tasks resolved_db) !! "t1") as [t|] eqn:Ht; [|by vm_compute in Ht].
  rewrite (waitForInput_reenters bool demo_session 50 "t1" approval_request approval_of resolved_db
    (wait_row resolved_db) t).
  - vm_compute. reflexivity.
  - apply approval_registered; try exact Ht; vm_compute; reflexivity.
  - intros x [= <-]. lia.
Defined.

Lemma waitForInput_after_deadline_fails_witness :
  waitForInput demo_session 150 "t1" approval_request approval_of resolved_db =
  (Err (RhinoQError "RHINOQ_POSTGRES_UNREACHABLE" true None), resolved_db).
Proof.
  destruct (visible_tasks demo_session (w_tasks resolved_db) !! "t1") as [t|] eqn:Ht; [|by vm_compute in Ht].
  apply (waitForInput_after_deadline_fails bool demo_session 150 "t1" approval_request approval_of resolved_db
    (wait_row resolved_db) t 100); [|reflexivity|lia].
  apply approval_registered; try exact Ht; vm_compute; reflexivity.
Defined.
