(* ===== verification/Outbox.v ===== *)
(** * The notification outbox and its worker

    The [rhinoq_task.notification_outbox] table (migrations 11 and 14 of
    [postgres/task-schema.ts]), the four client methods that write it
    ([postgres/task-client.ts]) and [TaskNotificationWorker]
    ([tasks/notification-worker.ts]). A notification is queued once, leased to
    one worker at a time and, once sent, never touched again. The worker is
    written against the interface [TaskNotificationQueue]. *)

From stdpp Require Import base gmap strings list fin_maps sorting relations.
From Stdlib Require Import Ascii ZArith Lia.
From S2P Require Import Prelude TaskModel TaskClient.

Open Scope act_scope.

Inductive outbox_state := OPending | OLeased | OSent | OFailed.

#[export] Instance outbox_state_eq_dec : EqDecision outbox_state.
Proof. solve_decision. Defined.

Section outbox.
(** [J] is the type of jsonb values. *)
Context {J : Type} `{!EqDecision J}.

Record outbox_row := OutboxRow {
  o_id : string; o_task_id : string; o_tenant : string; o_verification_id : string;
  o_verification : J; o_finding : J; o_deep_link : option string; o_state : outbox_state;
  o_attempts : Z; o_available_at : Z; o_lease_owner : option string; o_lease_until : option Z;
  o_last_error : option string; o_created_at : Z; o_updated_at : Z;
}.

#[export] Instance outbox_row_eq_dec : EqDecision outbox_row.
Proof. solve_decision. Defined.

(** The Task tables and the (id, tenant) pairs of [verifications] are what the
    table's foreign keys refer to. *)
Record odb := Odb {
  od_tasks : db; od_verifications : gmap string string; od_outbox : gmap string outbox_row;
}.

Definition osql (A : Type) : Type := txn odb sql_error A.

Definition visible_outbox (c : session) (s : odb) : gmap string outbox_row :=
  filter (λ kv, rls_allows c (o_tenant kv.2) = true) (od_outbox s).

Definition put_outbox (r : outbox_row) (s : odb) : odb :=
  Odb (od_tasks s) (od_verifications s) (<[o_id r := r]> (od_outbox s)).

(** ** Statements *)

(** [INSERT ... ON CONFLICT (id) DO NOTHING]: only the primary key is an
    arbiter, so a second notification of one verification still violates
    [UNIQUE (verification_id)]. *)
Definition insert_notification (c : session) (now : Z) (p_id p_task_id p_verification_id : string)
    (verification finding : J) (deep_link : option string) : osql unit :=
  λ s,
    match current_tenant c with
    | None => Err (if exempt c || maintenance_session c then NOT_NULL_VIOLATION else RLS_VIOLATION)
    | Some tenant =>
        if blank p_id then Err CHECK_VIOLATION else
        if bool_decide (is_Some (od_outbox s !! p_id)) then Ok (tt, s) else
        if map_exists (λ o, bool_decide (o_verification_id o = p_verification_id)) (od_outbox s)
        then Err UNIQUE_VIOLATION else
        if bool_decide (t_tenant <$> db_tasks (od_tasks s) !! p_task_id = Some tenant)
           && bool_decide (od_verifications s !! p_verification_id = Some tenant)
        then Ok (tt, put_outbox (OutboxRow p_id p_task_id tenant p_verification_id verification finding
               deep_link OPending 0 now None None None now now) s)
        else Err FOREIGN_KEY_VIOLATION
    end.

(** The rows a claim may take: due for a first or a repeated attempt, or held
    under a lease that has run out. *)
Definition ready (now : Z) (r : outbox_row) : bool :=
  ((bool_decide (o_state r = OPending) || bool_decide (o_state r = OFailed)) && (o_available_at r <=? now))
  || (bool_decide (o_state r = OLeased) && match o_lease_until r with Some u => u <=? now | None => false end).

(** [ORDER BY created_at, id] *)
Definition oldest_first (a b : outbox_row) : Prop :=
  (if o_created_at a =? o_created_at b then String.leb (o_id a) (o_id b)
   else o_created_at a <? o_created_at b) = true.
#[export] Instance oldest_first_dec : RelDecision oldest_first.
Proof. intros a b. unfold oldest_first. apply _. Defined.

Definition candidate (c : session) (now : Z) (s : odb) : option outbox_row :=
  head (merge_sort oldest_first (map_rows (ready now) (visible_outbox c s))).

Definition lease_row (owner : string) (until now attempts : Z) (r : outbox_row) : outbox_row :=
  OutboxRow (o_id r) (o_task_id r) (o_tenant r) (o_verification_id r) (o_verification r) (o_finding r)
    (o_deep_link r) OLeased attempts (o_available_at r) (Some owner) (Some until) (o_last_error r)
    (o_created_at r) now.

Definition sent_row (now : Z) (r : outbox_row) : outbox_row :=
  OutboxRow (o_id r) (o_task_id r) (o_tenant r) (o_verification_id r) (o_verification r) (o_finding r)
    (o_deep_link r) OSent (o_attempts r) (o_available_at r) None None (o_last_error r) (o_created_at r) now.

Definition failed_row (error : string) (available_at now : Z) (r : outbox_row) : outbox_row :=
  OutboxRow (o_id r) (o_task_id r) (o_tenant r) (o_verification_id r) (o_verification r) (o_finding r)
    (o_deep_link r) OFailed (o_attempts r) available_at None None (Some error) (o_created_at r) now.

(** The [WITH candidate AS (...) UPDATE ... RETURNING] of a claim. *)
Definition claim_notification (c : session) (now : Z) (owner : string) (leaseMs : Z)
    : osql (option outbox_row) :=
  λ s,
    match candidate c now s with
    | None => Ok (None, s)
    | Some r =>
        match integer_succ (o_attempts r) with
        | Err e => Err e
        | Ok attempts => let r' := lease_row owner (now + leaseMs) now attempts r in Ok (Some r', put_outbox r' s)
        end
    end.

(** [WHERE id = $1 AND state = 'leased' AND lease_owner = $2] *)
Definition leased_to (c : session) (s : odb) (id owner : string) : option outbox_row :=
  r ← visible_outbox c s !! id;
  if bool_decide (o_state r = OLeased) && bool_decide (o_lease_owner r = Some owner) then Some r else None.

(** An UPDATE of the row leased to [owner], RETURNING the new row. *)
Definition update_leased (c : session) (id owner : string) (f : outbox_row → outbox_row)
    : osql (option outbox_row) :=
  λ s, match leased_to c s id owner with
       | None => Ok (None, s)
       | Some r => Ok (Some (f r), put_outbox (f r) s)
       end.

(** ** Commands other processes run on the table *)

Inductive ocommand : Type :=
| OQueue (id taskId verificationId : string) (verification finding : J) (deepLink : option string)
| OClaim (owner : string) (leaseMs : Z)
| OComplete (id owner : string)
| OFail (id owner error : string) (retryAfterMs : Z).

Definition run_ocommand (c : session) (now : Z) (cmd : ocommand) (s : odb) : odb :=
  let after {A} (m : osql A) := match m s with Ok (_, s') => s' | Err _ => s end in
  match cmd with
  | OQueue id taskId vid v f link => after (insert_notification c now id taskId vid v f link)
  | OClaim owner leaseMs => after (claim_notification c now owner leaseMs)
  | OComplete id owner => after (update_leased c id owner (sent_row now))
  | OFail id owner error retryAfterMs =>
      after (update_leased c id owner (failed_row (left_text 2048 error) (now + retryAfterMs) now))
  end.

Record oevent := OEvent { oe_session : session; oe_now : Z; oe_command : ocommand }.

Definition run_ohistory (h : list oevent) (s : odb) : odb :=
  foldl (λ s ev, run_ocommand (oe_session ev) (oe_now ev) (oe_command ev) s) s h.

(** The store one client works on: what the others commit before each of its
    statements, and the clock at that statement. *)
Record oworld := OWorld { ow_db : odb; ow_env : list (Z * list oevent); ow_now : Z }.

Definition ointerfere (w : oworld) : oworld :=
  match ow_env w with
  | [] => OWorld (ow_db w) [] (ow_now w + 1)
  | (now, h) :: rest => OWorld (run_ohistory h (ow_db w)) rest now
  end.

Definition oio (A : Type) : Type := act oworld js_error A.

Definition oexecute {A} (m : Z → osql A) : oio A :=
  λ w, let w1 := ointerfere w in
       match m (ow_now w1) (ow_db w1) with
       | Ok (a, s') => (Ok a, OWorld s' (ow_env w1) (ow_now w1))
       | Err e => (Err (mapDatabaseError e), w1)
       end.

(** ** Client methods *)

Record notification := Notification {
  n_id : string; n_taskId : string; n_verificationId : string; n_verification : J; n_finding : J;
  n_deepLink : option string; n_state : outbox_state; n_attempts : Z; n_availableAt : Z;
  n_leaseOwner : option string; n_leaseUntil : option Z; n_lastError : option string;
  n_createdAt : Z; n_updatedAt : Z;
}.

Definition mapNotification (r : outbox_row) : notification :=
  Notification (o_id r) (o_task_id r) (o_verification_id r) (o_verification r) (o_finding r)
    (truthy (o_deep_link r)) (o_state r) (o_attempts r) (o_available_at r) (truthy (o_lease_owner r))
    (o_lease_until r) (truthy (o_last_error r)) (o_created_at r) (o_updated_at r).

(** [nr_verificationId], [nr_verificationTaskId] and [nr_ruleId] are the fields
    [verification.id], [verification.taskId] and [finding.ruleId]. *)
Record TaskNotificationCreateRequest := {
  nr_notificationId : string; nr_verificationId : string; nr_verificationTaskId : string;
  nr_verification : J; nr_ruleId : string; nr_finding : J; nr_deepLink : option string;
}.

(** [size] is the byte length of the JSON text of both payloads. *)
Definition queueTaskNotification (size : J → J → Z) (c : session) (taskId : string)
    (rq : TaskNotificationCreateRequest) : oio notification :=
  athrow_if (js_blank taskId || js_blank (nr_notificationId rq) || isEmpty (nr_verificationId rq)
    || isEmpty (nr_ruleId rq)) TypeError ;+
  athrow_if (negb (bool_decide (nr_verificationTaskId rq = taskId))) TypeError ;+
  athrow_if (131072 <? size (nr_verification rq) (nr_finding rq)) RangeError ;+
  oexecute (λ now, insert_notification c now (nr_notificationId rq) taskId (nr_verificationId rq)
    (nr_verification rq) (nr_finding rq) (nr_deepLink rq)) ;+
  let+ row := oexecute (λ _ s, Ok (visible_outbox c s !! nr_notificationId rq, s)) in
  match row with
  | Some r =>
      if bool_decide (o_task_id r = taskId) && bool_decide (o_verification_id r = nr_verificationId rq)
      then aret (mapNotification r) else athrow (taskError "RHINOQ_NOTIFICATION_CONFLICT")
  | None => athrow (taskError "RHINOQ_NOTIFICATION_CONFLICT")
  end.

Definition claimTaskNotification (c : session) (owner : string) (leaseMs : Z) : oio (option notification) :=
  athrow_if (js_blank owner) TypeError ;+
  athrow_if ((leaseMs <? 1000) || (3600000 <? leaseMs)) RangeError ;+
  let+ row := oexecute (λ now, claim_notification c now owner leaseMs) in
  aret (mapNotification <$> row).

Definition lease_answer (row : option outbox_row) : oio notification :=
  match row with
  | Some r => aret (mapNotification r)
  | None => athrow (taskError "RHINOQ_NOTIFICATION_LEASE_CONFLICT")
  end.

Definition completeTaskNotification (c : session) (id owner : string) : oio notification :=
  let+ row := oexecute (λ now, update_leased c id owner (sent_row now)) in
  lease_answer row.

Definition failTaskNotification (c : session) (id owner error : string) (retryAfterMs : Z) : oio notification :=
  athrow_if (js_blank error) TypeError ;+
  athrow_if ((retryAfterMs <? 0) || (86400000 <? retryAfterMs)) RangeError ;+
  let+ row := oexecute (λ now, update_leased c id owner
    (failed_row (left_text 2048 error) (now + retryAfterMs) now)) in
  lease_answer row.

(** ** The worker *)

Class TaskNotificationQueue (W : Type) := {
  queue_claim : string → Z → act W js_error (option notification);
  queue_complete : string → string → act W js_error notification;
  queue_fail : string → string → string → Z → act W js_error notification;
}.

#[export] Instance PostgresNotificationQueue (c : session) : TaskNotificationQueue oworld := {
  queue_claim := claimTaskNotification c;
  queue_complete := completeTaskNotification c;
  queue_fail := failTaskNotification c;
}.

Inductive TaskNotificationRun : Type :=
| RunIdle
| RunSent (n : notification)
| RunFailed (n : notification) (error : string).

Definition bounded (value min max : Z) : result js_error Z :=
  if (value <? min) || (max <? value) then Err RangeError else Ok value.

Record worker := Worker { wk_owner : string; wk_leaseMs : Z; wk_retryAfterMs : Z; wk_idleMs : Z }.

(** The constructor, with the defaults of absent options. *)
Definition TaskNotificationWorker (owner : string) (leaseMs retryAfterMs idleMs : option Z)
    : result js_error worker :=
  if js_blank owner then Err TypeError else
  match bounded (default 60000 leaseMs) 1000 3600000, bounded (default 30000 retryAfterMs) 1000 86400000,
        bounded (default 1000 idleMs) 25 60000 with
  | Ok lease, Ok retry, Ok idle => Ok (Worker owner lease retry idle)
  | _, _, _ => Err RangeError
  end.

Section worker.
(** [deliver] is the host's transport: it fails with the message of an [Error],
    or with [None] for any other thrown value. [message] is the text of a
    client error. *)
Context {W : Type} `{!TaskNotificationQueue W}.
Context (deliver : notification → act W (option string) unit) (message : js_error → string).

Definition failure_message (e : option string) : string :=
  match e with
  | Some m => if js_blank m then "notification delivery failed" else left_text 1000 m
  | None => "notification delivery failed"
  end.

Definition runOnce (k : worker) : act W js_error TaskNotificationRun :=
  let+ claimed := queue_claim (wk_owner k) (wk_leaseMs k) in
  match claimed with
  | None => aret RunIdle
  | Some n =>
      let on_error (e : option string) : act W js_error TaskNotificationRun :=
        let m := failure_message e in
        let+ failed := queue_fail (n_id n) (wk_owner k) m (wk_retryAfterMs k) in
        aret (RunFailed failed m) in
      λ w,
        match deliver n w with
        | (Err e, w1) => on_error e w1
        | (Ok _, w1) =>
            match queue_complete (n_id n) (wk_owner k) w1 with
            | (Ok sent, w2) => (Ok (RunSent sent), w2)
            | (Err e, w2) => on_error (Some (message e)) w2
            end
        end
  end.

(** [run(signal)]; [aborted] reads the signal and [idle] is the wait between
    polls. [Ok] is the return once the signal is aborted. *)
Fixpoint run (fuel : nat) (aborted : W → bool) (idle : Z → act W js_error unit) (k : worker)
    : act W js_error unit :=
  match fuel with
  | O => athrow OutOfFuel
  | S fuel =>
      λ w, if aborted w then (Ok tt, w) else
        (let+ r := runOnce k in
         match r with
         | RunIdle => idle (wk_idleMs k) ;+ run fuel aborted idle k
         | _ => run fuel aborted idle k
         end) w
  end.
End worker.
End outbox.

Arguments outbox_row J : clear implicits.
Arguments odb J : clear implicits.
Arguments oworld J : clear implicits.
Arguments ocommand J : clear implicits.
Arguments oevent J : clear implicits.
Arguments notification J : clear implicits.
Arguments TaskNotificationRun J : clear implicits.
