(* ===== verification/OutboxFacts.v ===== *)
(** * What the outbox promises

    A live lease keeps every other worker away from a notification, a sent
    notification is never touched or claimed again, and one round of the worker
    ends in the state its delivery and its lease call for. *)

From stdpp Require Import base gmap strings list fin_maps sorting relations.
From Stdlib Require Import Ascii ZArith Lia.
From S2P Require Import Prelude TaskModel StoreSteps TaskClient Outbox.

Section facts.
Context {J : Type} `{!EqDecision J}.
Implicit Types (s : odb J) (r : outbox_row J) (h : list (oevent J)).

(** Rows are stored under their primary key. *)
Definition okeyed s : Prop := ∀ k r, od_outbox s !! k = Some r → o_id r = k.

Lemma visible_outbox_lookup c s k r :
  visible_outbox c s !! k = Some r ↔ od_outbox s !! k = Some r ∧ rls_allows c (o_tenant r) = true.
Proof. unfold visible_outbox. by rewrite map_lookup_filter_Some. Qed.

Lemma candidate_spec c now s r :
  candidate c now s = Some r → ready now r = true ∧ ∃ k, od_outbox s !! k = Some r.
Proof.
  unfold candidate. intros Hh. apply head_Some_elem_of in Hh. rewrite merge_sort_Permutation in Hh.
  apply map_rows_spec in Hh as [Hr [k Hk]]. apply visible_outbox_lookup in Hk as [Hk _]. eauto.
Qed.

Lemma leased_to_spec c s id owner r :
  leased_to c s id owner = Some r →
  od_outbox s !! id = Some r ∧ o_state r = OLeased ∧ o_lease_owner r = Some owner.
Proof.
  unfold leased_to. destruct (visible_outbox c s !! id) as [r'|] eqn:E; [|discriminate]. cbn.
  destruct (bool_decide (o_state r' = OLeased) && _) eqn:G; [|discriminate]. intros [= <-].
  apply visible_outbox_lookup in E as [? _]. to_prop. done.
Qed.

Lemma put_outbox_keyed r s : okeyed s → okeyed (put_outbox r s).
Proof.
  intros Hk k r' Hl. cbn in Hl. rewrite lookup_insert in Hl. case_decide; [by simplify_eq|by apply Hk].
Qed.

(** A command of the holder of row [k] under owner [owner]. *)
Definition by_holder (k owner : string) (cmd : ocommand J) : bool :=
  match cmd with
  | OComplete id o | OFail id o _ _ => bool_decide (id = k) && bool_decide (o = owner)
  | _ => false
  end.

Lemma run_ocommand_keyed c now cmd s : okeyed s → okeyed (run_ocommand c now cmd s).
Proof.
  intros Hk. destruct cmd as [id t vid v f l|o ms|id o|id o e ms]; cbn.
  - unfold insert_notification. repeat case_match; simplify_eq/=; try done; by apply put_outbox_keyed.
  - unfold claim_notification. repeat case_match; simplify_eq/=; try done; by apply put_outbox_keyed.
  - unfold update_leased. destruct (leased_to _ _ _ _); [by apply put_outbox_keyed|done].
  - unfold update_leased. destruct (leased_to _ _ _ _); [by apply put_outbox_keyed|done].
Qed.

(** What a command may not do to a row it has no right to. *)
Lemma run_ocommand_frame c now cmd s k r :
  okeyed s → od_outbox s !! k = Some r → ready now r = false →
  (∀ owner, o_state r = OLeased → o_lease_owner r = Some owner → by_holder k owner cmd = false) →
  od_outbox (run_ocommand c now cmd s) !! k = Some r.
Proof.
  intros Hkey Hk Hready Hholder.
  assert (∀ id o f, by_holder k o (OComplete id o) = false ∨ ¬ (o_state r = OLeased ∧ o_lease_owner r = Some o) →
    (∀ r', o_id (f r') = o_id r') →
    od_outbox (match update_leased c id o f s with Ok (_, s') => s' | Err _ => s end) !! k = Some r) as Hupd.
  { intros id o f Hno Hf. unfold update_leased. destruct (leased_to c s id o) as [r'|] eqn:E; [|done].
    apply leased_to_spec in E as (Hl & Hs & Ho). cbn. rewrite Hf, (Hkey _ _ Hl).
    destruct (decide (id = k)) as [->|]; [|by rewrite lookup_insert_ne].
    assert (r' = r) as -> by congruence. cbn in Hno. rewrite !bool_decide_true in Hno by done.
    destruct Hno as [?|[]]; done. }
  destruct cmd as [id t vid v f l|o ms|id o|id o e ms]; cbn.
  - unfold insert_notification. repeat case_match; simplify_eq/=; try done.
    rewrite lookup_insert_ne; [done|]. to_prop. intros ->. rewrite Hk in *.
    match goal with H : ¬ is_Some _ |- _ => destruct H; eauto end.
  - unfold claim_notification. destruct (candidate c now s) as [r'|] eqn:E; [|done].
    apply candidate_spec in E as [Hr [k' Hk']]. repeat case_match; simplify_eq/=; [|done].
    rewrite (Hkey _ _ Hk'), lookup_insert_ne; [done|]. intros ->. congruence.
  - apply Hupd; [|done]. destruct (decide (o_state r = OLeased ∧ o_lease_owner r = Some o)) as [[? Ho]|];
      [left; by apply Hholder|by right].
  - apply Hupd; [|done]. destruct (decide (o_state r = OLeased ∧ o_lease_owner r = Some o)) as [[? Ho]|];
      [left; by apply (Hholder o)|by right].
Qed.

Lemma run_ohistory_frame h s k r :
  okeyed s → od_outbox s !! k = Some r →
  Forall (λ ev, ready (oe_now ev) r = false ∧
    ∀ owner, o_state r = OLeased → o_lease_owner r = Some owner → by_holder k owner (oe_command ev) = false) h →
  od_outbox (run_ohistory h s) !! k = Some r ∧ okeyed (run_ohistory h s).
Proof.
  intros Hkey Hk Hall. revert s Hkey Hk. induction Hall as [|ev h [Hr Hh] _ IH]; intros s Hkey Hk; [done|].
  apply IH; [by apply run_ocommand_keyed|by apply run_ocommand_frame].
Qed.

(** While a lease is live nobody else can touch the notification: whatever
    other processes run, at any instant before the lease expires, a notification
    leased to a worker is neither claimed, completed nor failed by another, and
    its row is exactly the one that worker claimed until that worker itself
    completes or fails it. *)
Theorem live_lease_exclusive : ∀ h s k r owner until,
  okeyed s → od_outbox s !! k = Some r →
  o_state r = OLeased → o_lease_owner r = Some owner → o_lease_until r = Some until →
  Forall (λ ev, oe_now ev < until ∧ by_holder k owner (oe_command ev) = false) h →
  od_outbox (run_ohistory h s) !! k = Some r.
Proof.
  intros h s k r owner until Hkey Hk Hs Ho Hu Hall.
  refine (proj1 (run_ohistory_frame h s k r Hkey Hk _)).
  eapply Forall_impl; [exact Hall|]. cbn. intros ev [Hlt Hby]. split; [|congruence].
  unfold ready. rewrite Hs, Hu. cbn. apply Z.leb_gt. lia.
Qed.

Lemma claim_notification_ok c now owner leaseMs s r' s' :
  claim_notification c now owner leaseMs s = Ok (Some r', s') →
  ∃ k r, od_outbox s !! k = Some r ∧ candidate c now s = Some r ∧ ready now r = true ∧
    o_attempts r + 1 ≤ INT4_MAX ∧
    r' = lease_row owner (now + leaseMs) now (o_attempts r + 1) r ∧ s' = put_outbox r' s.
Proof.
  unfold claim_notification. destruct (candidate c now s) as [r|] eqn:E; [|discriminate].
  destruct (integer_succ (o_attempts r)) as [a|] eqn:Ea; [|discriminate]. intros [= <- <-].
  destruct (candidate_spec _ _ _ _ E) as [Hr [k Hk]]. unfold integer_succ in Ea. to_prop. subst a.
  exists k, r. done.
Qed.

(** Sent is final: no sequence of outbox commands, at any time and by any
    worker, changes a notification that was marked sent, and no claim returns it
    again, so a notification whose completion committed is not delivered twice. *)
Theorem sent_notification_final : ∀ h s k r,
  okeyed s → od_outbox s !! k = Some r → o_state r = OSent →
  od_outbox (run_ohistory h s) !! k = Some r ∧
  ∀ c now owner leaseMs r' s',
    claim_notification c now owner leaseMs (run_ohistory h s) = Ok (Some r', s') → o_id r' ≠ k.
Proof.
  intros h s k r Hkey Hk Hs.
  assert (∀ now, ready now r = false) as Hready by (intros; unfold ready; by rewrite Hs).
  destruct (run_ohistory_frame h s k r Hkey Hk) as [Hk' Hkey'].
  { apply Forall_forall. intros ev _. split; [apply Hready|congruence]. }
  split; [done|]. intros c now owner leaseMs r' s' Hc.
  apply claim_notification_ok in Hc as (k2 & r2 & Hl & _ & Hr & _ & -> & _). cbn.
  rewrite (Hkey' _ _ Hl). intros ->. specialize (Hready now). congruence.
Qed.

(** ** One round of the worker *)

Context (c : session) (deliver : notification J → act (oworld J) (option string) unit) (message : js_error → string).

Notation round := (runOnce (TaskNotificationQueue0:=PostgresNotificationQueue c) deliver message).

Definition valid_worker (k : worker) : Prop :=
  js_blank (wk_owner k) = false ∧ 1000 ≤ wk_leaseMs k ≤ 3600000 ∧ 1000 ≤ wk_retryAfterMs k ≤ 86400000.

Lemma constructed_valid owner leaseMs retryAfterMs idleMs k :
  TaskNotificationWorker owner leaseMs retryAfterMs idleMs = Ok k → valid_worker k.
Proof.
  unfold TaskNotificationWorker, bounded, valid_worker. intros H.
  repeat case_match; simplify_eq/=; to_prop; split_and!; (done || lia).
Qed.

Lemma update_leased_run id owner f (w : oworld J) :
  oexecute (λ now, update_leased c id owner (f now)) w =
  let w1 := ointerfere w in
  (Ok (f (ow_now w1) <$> leased_to c (ow_db w1) id owner),
   match leased_to c (ow_db w1) id owner with
   | Some r => OWorld (put_outbox (f (ow_now w1) r) (ow_db w1)) (ow_env w1) (ow_now w1)
   | None => w1
   end).
Proof.
  unfold oexecute, update_leased. destruct (ointerfere w) as [d e n]. cbn.
  by destruct (leased_to c d id owner).
Qed.

Lemma complete_run id owner (w : oworld J) :
  completeTaskNotification c id owner w =
  let w1 := ointerfere w in
  match leased_to c (ow_db w1) id owner with
  | Some r => (Ok (mapNotification (sent_row (ow_now w1) r)),
               OWorld (put_outbox (sent_row (ow_now w1) r) (ow_db w1)) (ow_env w1) (ow_now w1))
  | None => (Err (taskError "RHINOQ_NOTIFICATION_LEASE_CONFLICT"), w1)
  end.
Proof.
  unfold completeTaskNotification, abind. rewrite (update_leased_run id owner sent_row). cbn.
  by destruct (leased_to c (ow_db (ointerfere w)) id owner).
Qed.

Lemma fail_run id owner error ms (w : oworld J) :
  js_blank error = false → 0 ≤ ms ≤ 86400000 →
  failTaskNotification c id owner error ms w =
  let w1 := ointerfere w in
  let f := failed_row (left_text 2048 error) (ow_now w1 + ms) (ow_now w1) in
  match leased_to c (ow_db w1) id owner with
  | Some r => (Ok (mapNotification (f r)), OWorld (put_outbox (f r) (ow_db w1)) (ow_env w1) (ow_now w1))
  | None => (Err (taskError "RHINOQ_NOTIFICATION_LEASE_CONFLICT"), w1)
  end.
Proof.
  intros Hb [H1 H2]. unfold failTaskNotification, abind, athrow_if. rewrite Hb.
  rewrite (proj2 (Z.ltb_ge _ _) H1), (proj2 (Z.ltb_ge _ _) H2). cbn [orb aret].
  unfold aret. rewrite (update_leased_run id owner (λ now, failed_row (left_text 2048 error) (now + ms) now)). cbn.
  by destruct (leased_to c (ow_db (ointerfere w)) id owner).
Qed.

(** The world in which the delivery starts: the oldest ready row is leased. *)
Definition after_claim (k : worker) (w : oworld J) (r : outbox_row J) : outbox_row J * oworld J :=
  let w1 := ointerfere w in
  let r' := lease_row (wk_owner k) (ow_now w1 + wk_leaseMs k) (ow_now w1) (o_attempts r + 1) r in
  (r', OWorld (put_outbox r' (ow_db w1)) (ow_env w1) (ow_now w1)).

Lemma claim_run k (w : oworld J) :
  valid_worker k →
  claimTaskNotification c (wk_owner k) (wk_leaseMs k) w =
  let w1 := ointerfere w in
  match candidate c (ow_now w1) (ow_db w1) with
  | None => (Ok None, w1)
  | Some r => if o_attempts r + 1 <=? INT4_MAX
              then (Ok (Some (mapNotification (after_claim k w r).1)), (after_claim k w r).2)
              else (Err (RhinoQError "RHINOQ_POSTGRES_UNREACHABLE" true None), w1)
  end.
Proof.
  intros (Hb & [H1 H2] & _). unfold claimTaskNotification, abind, athrow_if. rewrite Hb.
  rewrite (proj2 (Z.ltb_ge _ _) H1), (proj2 (Z.ltb_ge _ _) H2). cbn [orb]. unfold aret, oexecute, claim_notification.
  destruct (ointerfere w) as [d e n] eqn:Ew. cbn. destruct (candidate c n d) as [r|]; [|done].
  unfold integer_succ, int_succ, after_claim. rewrite Ew. by destruct (o_attempts r + 1 <=? INT4_MAX).
Qed.

(** One round of the worker, against whatever other processes commit
    between its statements: with nothing ready it is idle; otherwise it leases
    the oldest ready notification and delivers it; a delivery that succeeded is
    recorded sent if the lease is still its own, and if the lease was lost the
    round rejects with RHINOQ_NOTIFICATION_LEASE_CONFLICT and leaves the new
    holder's row alone; a delivery that failed is recorded failed with its
    reason and is due again [retryAfterMs] later. *)
Theorem runOnce_spec : ∀ k w,
  valid_worker k →
  let w1 := ointerfere w in
  (candidate c (ow_now w1) (ow_db w1) = None → round k w = (Ok RunIdle, w1)) ∧
  ∀ r, candidate c (ow_now w1) (ow_db w1) = Some r → o_attempts r < INT4_MAX →
  let '(r', w2) := after_claim k w r in
  (∀ w3, deliver (mapNotification r') w2 = (Ok tt, w3) →
     let w4 := ointerfere w3 in
     match leased_to c (ow_db w4) (o_id r) (wk_owner k) with
     | Some r4 => round k w = (Ok (RunSent (mapNotification (sent_row (ow_now w4) r4))),
                    OWorld (put_outbox (sent_row (ow_now w4) r4) (ow_db w4)) (ow_env w4) (ow_now w4))
     | None => js_blank (failure_message (Some (message (taskError "RHINOQ_NOTIFICATION_LEASE_CONFLICT")))) = false →
               leased_to c (ow_db (ointerfere w4)) (o_id r) (wk_owner k) = None →
               round k w = (Err (taskError "RHINOQ_NOTIFICATION_LEASE_CONFLICT"), ointerfere w4)
     end) ∧
  (∀ e w3, deliver (mapNotification r') w2 = (Err e, w3) → js_blank (failure_message e) = false →
     let w4 := ointerfere w3 in
     ∀ r4, leased_to c (ow_db w4) (o_id r) (wk_owner k) = Some r4 →
     let r5 := failed_row (left_text 2048 (failure_message e)) (ow_now w4 + wk_retryAfterMs k) (ow_now w4) r4 in
     round k w = (Ok (RunFailed (mapNotification r5) (failure_message e)),
                  OWorld (put_outbox r5 (ow_db w4)) (ow_env w4) (ow_now w4))).
Proof.
  intros k w Hv w1. pose proof (claim_run k w Hv) as Hc. fold w1 in Hc. cbn zeta in Hc.
  destruct Hv as (_ & _ & Hret1 & Hret2).
  unfold runOnce, abind. cbn [queue_claim queue_complete queue_fail PostgresNotificationQueue]. rewrite Hc. split.
  { by intros ->. }
  intros r -> Ha. rewrite (proj2 (Z.leb_le _ _)) by lia.
  destruct (after_claim k w r) as [r' w2] eqn:Eac. cbn [fst snd].
  assert (n_id (mapNotification r') = o_id r) as -> by (by injection Eac as <- _). split.
  - intros w3 ->. rewrite complete_run. cbn zeta.
    destruct (leased_to c (ow_db (ointerfere w3)) (o_id r) (wk_owner k)) as [r4|]; [done|].
    intros Hm Hn. rewrite fail_run by (done || lia). cbn zeta. by rewrite Hn.
  - intros e w3 -> Hm r4 Hl. rewrite fail_run by (done || lia). cbn zeta. by rewrite Hl.
Qed.
End facts.

(** ** A concrete outbox *)

Definition demo_outbox : odb nat :=
  run_ohistory [OEvent demo_session 10 (OQueue "n1" "t1" "v1" 1%nat 2%nat None);
                OEvent demo_session 11 (OQueue "n2" "t1" "v2" 3%nat 4%nat None)]
    (Odb demo_db {[ "v1" := "acme"; "v2" := "acme" ]} ∅).

Definition claimed_outbox : odb nat :=
  run_ohistory [OEvent demo_session 20 (OClaim "worker-a" 60000)] demo_outbox.

Definition completed_outbox : odb nat :=
  run_ohistory [OEvent demo_session 30 (OComplete "n1" "worker-a")] claimed_outbox.

Definition outbox_row_of (s : odb nat) (k : string) : outbox_row nat :=
  default (OutboxRow "" "" "" "" 0%nat 0%nat None OPending 0 0 None None None 0 0) (od_outbox s !! k).

Lemma run_ohistory_nil {J} (s : odb J) : run_ohistory [] s = s.
Proof. reflexivity. Qed.

Lemma demo_okeyed h : okeyed (run_ohistory h demo_outbox).
Proof.
  assert (∀ h (s : odb nat), okeyed s → okeyed (run_ohistory h s)) as Hh.
  { clear h. induction h as [|ev h IH]; intros s Hs; [done|]. by apply IH, run_ocommand_keyed. }
  apply Hh. unfold demo_outbox. apply Hh. intros k r Hk. cbn [od_outbox] in Hk. by rewrite lookup_empty in Hk.
Qed.

Definition rival : list (oevent nat) :=
  [OEvent demo_session 40 (OClaim "worker-b" 60000); OEvent demo_session 41 (OComplete "n1" "worker-b");
   OEvent demo_session 42 (OFail "n1" "worker-b" "oops" 0)].

Lemma live_lease_exclusive_witness :
  od_outbox (run_ohistory rival claimed_outbox) !! "n1" = Some (outbox_row_of claimed_outbox "n1") ∧
  o_lease_owner (outbox_row_of claimed_outbox "n1") = Some "worker-a".
Proof.
  split; [|vm_compute; reflexivity].
  apply (live_lease_exclusive rival claimed_outbox "n1" (outbox_row_of claimed_outbox "n1") "worker-a" 60020).
  - apply demo_okeyed.
  - vm_compute. reflexivity.
  - vm_compute. reflexivity.
  - vm_compute. reflexivity.
  - vm_compute. reflexivity.
  - repeat (apply Forall_cons; split; [split; [cbn; lia|reflexivity]|]). apply Forall_nil. exact I.
Defined.

Lemma completed_okeyed : okeyed completed_outbox.
Proof. apply run_ocommand_keyed, demo_okeyed. Qed.

Lemma sent_notification_final_witness :
  od_outbox (run_ohistory rival completed_outbox) !! "n1" = Some (outbox_row_of completed_outbox "n1") ∧
  o_state (outbox_row_of completed_outbox "n1") = OSent.
Proof.
  split; [|vm_compute; reflexivity].
  refine (proj1 (sent_notification_final rival completed_outbox "n1" (outbox_row_of completed_outbox "n1") _ _ _)).
  - apply completed_okeyed.
  - vm_compute. reflexivity.
  - vm_compute. reflexivity.
Defined.

Definition demo_worker : worker := Worker "worker-a" 60000 30000 1000.
Definition demo_world : oworld nat := OWorld demo_outbox [] 50.

Lemma runOnce_spec_witness :
  ∃ n w', runOnce (TaskNotificationQueue0:=PostgresNotificationQueue demo_session)
      (λ _ w, (Ok tt, w)) (λ _, "m") demo_worker demo_world = (Ok (RunSent n), w') ∧
    od_outbox (ow_db w') !! "n1" = Some (sent_row 52 (outbox_row_of (ow_db w') "n1")).
Proof.
  destruct (runOnce_spec demo_session (λ _ w, (Ok tt, w)) (λ _, "m") demo_worker demo_world) as [_ H].
  { split_and!; cbn; (lia || reflexivity). }
  destruct (candidate demo_session (ow_now (ointerfere demo_world)) (ow_db (ointerfere demo_world))) as [r|] eqn:E;
    [|by vm_compute in E].
  vm_compute in E. injection E as <-.
  specialize (H _ eq_refl). destruct H as [H _]; [vm_compute; reflexivity|].
  specialize (H _ eq_refl). vm_compute in H. eexists _, _. split; [exact H|]. vm_compute. reflexivity.
Defined.
