(* ===== verification/SharedStore.v ===== *)
(** * One process among others

    The store of a PostgreSQL component as one client sees it: before each of
    its statements other processes commit any commands, and the database clock
    moves. [sworld] is the world of a component whose commands are [Ev] and
    whose tables are [S]; [sexecute] runs one statement of the client in it.
    Also here: PL/pgSQL's treatment of a name that is both a column and an
    output parameter of the function, and the foreign key to a Task. *)

From stdpp Require Import base gmap strings list relations.
From Stdlib Require Import ZArith Lia.
From S2P Require Import Prelude TaskModel StoreSteps StoreSafety TaskClient.

(** ** Ambiguous names

    [plpgsql.variable_conflict]: how PL/pgSQL resolves a name in a statement
    that is both a column and a variable, as the columns of RETURNS TABLE are.
    [ConflictError] is the documented default: the statement raises 42702. With
    [UseVariable] the name is the variable, NULL until it is assigned. *)

Inductive variable_conflict := ConflictError | UseVariable | UseColumn.

Definition AMBIGUOUS_COLUMN := SqlState "42702".

(** The names of a statement inside a function: the columns of RETURNS TABLE, which are
    variables of the body; the columns of the table the statement is on; and the names
    it uses in an expression without saying whose they are. *)
Record statement_names := Names { sn_variables : list string; sn_columns : list string; sn_unqualified : list string }.

Definition conflicts (n : statement_names) : bool :=
  existsb (λ x, bool_decide (x ∈ sn_variables n) && bool_decide (x ∈ sn_columns n)) (sn_unqualified n).

(** A statement whose outcome is [m] when its names are columns and [unset] when those
    that may be either are the unassigned variables. *)
Definition ambiguous {S A} (n : statement_names) (vc : variable_conflict) (unset m : txn S sql_error A) : txn S sql_error A :=
  if conflicts n then
    match vc with
    | ConflictError => traise AMBIGUOUS_COLUMN
    | UseVariable => unset
    | UseColumn => m
    end
  else m.

Lemma ambiguous_raise_ok {S A} n vc (e : sql_error) (m : txn S sql_error A) s r :
  conflicts n = true → ambiguous n vc (traise e) m s = Ok r → vc = UseColumn ∧ m s = Ok r.
Proof. intros Hn. unfold ambiguous. rewrite Hn. destruct vc; cbn; unfold traise; naive_solver. Qed.

Lemma ambiguous_column {S A} n (unset m : txn S sql_error A) : ambiguous n UseColumn unset m = m.
Proof. unfold ambiguous. by destruct (conflicts n). Qed.

Lemma ambiguous_error {S A} n (unset m : txn S sql_error A) : conflicts n = true → ambiguous n ConflictError unset m = traise AMBIGUOUS_COLUMN.
Proof. intros Hn. unfold ambiguous. by rewrite Hn. Qed.

(** ** Foreign keys (task_id, tenant_id)

    The tenant of a Task never changes, so a row that refers to both keeps its
    parent whatever happens to the Task tables. *)

Definition task_tenant (d : db) (task tenant : string) : Prop :=
  ∃ t, db_tasks d !! task = Some t ∧ t_tenant t = tenant.

Definition same_identity (t t' : task_row) : Prop := task_identity t = task_identity t'.

#[export] Instance same_identity_refl : Reflexive same_identity.
Proof. done. Qed.
#[export] Instance same_identity_trans : Transitive same_identity.
Proof. intros x y z. unfold same_identity. congruence. Qed.

Lemma task_identity_kept d d' k t :
  rtc any_step d d' → db_tasks d !! k = Some t → ∃ t', db_tasks d' !! k = Some t' ∧ task_identity t' = task_identity t.
Proof.
  intros Hd Ht. destruct (history_task_rel same_identity) with d d' k t as (t' & Ht' & E); try done.
  - intros now t1 t2 Hw. symmetry. by eapply task_write_identity.
  - by exists t'.
Qed.

Lemma task_tenant_kept d d' task tenant :
  rtc any_step d d' → task_tenant d task tenant → task_tenant d' task tenant.
Proof.
  intros Hd (t & Ht & <-). destruct (task_identity_kept d d' task t Hd Ht) as (t' & Ht' & E).
  exists t'. split; [done|]. by injection E.
Qed.

(** ** The world *)

Section world.
Context {S Ev : Type}.

Record sworld := SWorld { sw_db : S; sw_env : list (Z * list Ev); sw_now : Z }.

(** What one committed command leaves behind. *)
Definition committed {A} (m : txn S sql_error A) (s : S) : S :=
  match m s with Ok (_, s') => s' | Err _ => s end.

Context (step : Ev → S → S).

Definition run_events (h : list Ev) (s : S) : S := foldl (λ s ev, step ev s) s h.

Definition sinterfere (w : sworld) : sworld :=
  match sw_env w with
  | [] => SWorld (sw_db w) [] (sw_now w + 1)
  | (now, h) :: rest => SWorld (run_events h (sw_db w)) rest now
  end.

Definition sexecute {A} (m : Z → txn S sql_error A) : act sworld js_error A :=
  λ w, let w1 := sinterfere w in
       match m (sw_now w1) (sw_db w1) with
       | Ok (a, s') => (Ok a, SWorld s' (sw_env w1) (sw_now w1))
       | Err e => (Err (mapDatabaseError e), w1)
       end.

(** A property every command preserves holds after any history. *)
Lemma run_events_ind (P : S → Prop) :
  (∀ ev s, P s → P (step ev s)) → ∀ h s, P s → P (run_events h s).
Proof. intros Hstep h. induction h as [|ev h IH]; intros s Hs; [done|]. cbn. apply IH, Hstep, Hs. Qed.

Lemma sinterfere_inv (P : S → Prop) :
  (∀ ev s, P s → P (step ev s)) → ∀ w, P (sw_db w) → P (sw_db (sinterfere w)).
Proof.
  intros Hstep [d [|[now h] env] n] Hd; cbn in *; [done|]. by apply run_events_ind.
Qed.

Lemma committed_inv {A} (P : S → Prop) (m : txn S sql_error A) s :
  P s → (∀ a s', m s = Ok (a, s') → P s') → P (committed m s).
Proof. unfold committed. destruct (m s) as [[a s']|e]; eauto. Qed.

Lemma sexecute_inv {A} (P : S → Prop) (m : Z → txn S sql_error A) :
  (∀ ev s, P s → P (step ev s)) → (∀ now a s s', P s → m now s = Ok (a, s') → P s') →
  ∀ w, P (sw_db w) → P (sw_db (sexecute m w).2).
Proof.
  intros Hstep Hm w Hd. unfold sexecute. pose proof (sinterfere_inv P Hstep w Hd) as Hi.
  destruct (m _ _) as [[a s']|e] eqn:E; cbn; [|done]. by eapply Hm.
Qed.
End world.

Arguments sworld S Ev : clear implicits.
