(* ===== verification/Paging.v ===== *)
(** * Paged listings of the embedded client

    [listTasks], [listTasksPage] and [listTaskExecutions] of
    [sdks/node/src/postgres/task-client.ts] with their statements and cursors. A
    keyset page is selected by the sort key of the last row of the page before
    it. A cursor is base64url of JSON text, which is an argument here ([encode]
    and [parse]), and so is the way a timestamp travels: what the driver shows of
    a [timestamptz] and what PostgreSQL reads back from that text. *)

From stdpp Require Import base gmap strings list sorting.
From Stdlib Require Import Ascii ZArith Lia.
From S2P Require Import Prelude TaskModel ExecutionCommands TaskClient.

Open Scope act_scope.

(** ** Positions

    The sort keys [(created_at, id)] and [(updated_at, id)] and PostgreSQL's
    comparison of rows. *)

Notation position := (Z * string)%type.

Definition row_lt (p q : position) : bool := if p.1 =? q.1 then String.ltb p.2 q.2 else p.1 <? q.1.
Definition row_le (p q : position) : bool := if p.1 =? q.1 then String.leb p.2 q.2 else p.1 <? q.1.

Definition exec_position (e : exec_row) : position := (e_created_at e, e_id e).
Definition task_position (t : task_row) : position := (t_updated_at t, t_id t).

(** [ORDER BY created_at, id] *)
Definition attempt_le (a b : exec_row) : Prop := row_le (exec_position a) (exec_position b) = true.
#[export] Instance attempt_le_dec : RelDecision attempt_le.
Proof. intros a b. unfold attempt_le. apply _. Defined.

(** [ORDER BY updated_at DESC, id DESC] *)
Definition recent_le (a b : task_row) : Prop := row_le (task_position b) (task_position a) = true.
#[export] Instance recent_le_dec : RelDecision recent_le.
Proof. intros a b. unfold recent_le. apply _. Defined.

(** [ORDER BY updated_at DESC, id] *)
Definition recent_then_id (a b : task_row) : Prop :=
  (if t_updated_at a =? t_updated_at b then String.leb (t_id a) (t_id b) else t_updated_at b <? t_updated_at a) = true.
#[export] Instance recent_then_id_dec : RelDecision recent_then_id.
Proof. intros a b. unfold recent_then_id. apply _. Defined.

(** [limit + 1] rows tell whether there is another page. *)
Definition page_of {A} (limit : Z) (rows : list A) : list A * bool :=
  let more := limit <? Z.of_nat (length rows) in
  (if more then take (Z.to_nat limit) rows else rows, more).

Section listings.
Context (c : session).

(** ** Executions of a Task *)

Record TaskExecutionPage := ExecutionPage {
  xp_entityVersion : Z; xp_taskId : string; xp_executions : list execution_summary; xp_nextCursor : option string;
}.

(** [JSON.parse(Buffer.from(value, 'base64url')).id], when that is a string. *)
Context (encode_id : string → string) (parse_id : string → option string).

Definition encodeExecutionCursor (e : exec_row) : string := encode_id (e_id e).

Definition decodeExecutionCursor (value : string) : io (option string) :=
  if isEmpty value then aret None else
  match parse_id value with
  | Some id => athrow_if (isEmpty id) TypeError ;+ aret (Some id)
  | None => athrow TypeError
  end.

(** [SELECT created_at, id FROM executions WHERE task_id = $1 AND id = $2] *)
Definition cursor_row (taskId id : string) (d : db) : option exec_row :=
  e ← visible_executions c d !! id; if of_task taskId e then Some e else None.

(** [$2 = '' OR (created_at, id) > (SELECT ...)] *)
Definition past_cursor (taskId : string) (after : option string) (d : db) (e : exec_row) : bool :=
  match after with
  | None => true
  | Some id =>
      match cursor_row taskId id d with
      | Some p => row_lt (exec_position p) (exec_position e)
      | None => false
      end
  end.

Definition executions_after (taskId : string) (after : option string) (limit : Z) (d : db) : list exec_row :=
  take (Z.to_nat limit) (merge_sort attempt_le
    (map_rows (λ e, of_task taskId e && past_cursor taskId after d e) (visible_executions c d))).

Definition listTaskExecutions (taskId cursor : string) (limit : Z) : io TaskExecutionPage :=
  athrow_if ((limit <=? 0) || (500 <? limit)) RangeError ;+
  let+ task := readTaskSummary c taskId None None in
  let+ after := decodeExecutionCursor cursor in
  match after with
  | Some id => let+ row := query (cursor_row taskId id) in athrow_if (bool_decide (row = None)) TypeError
  | None => aret tt
  end ;+
  let+ rows := query (executions_after taskId after (limit + 1)) in
  let (page, more) := page_of limit rows in
  aret (ExecutionPage (s_entityVersion (sm_task task)) taskId (mapExecutionSummary <$> page)
    (if more then encodeExecutionCursor <$> last page else None)).

Definition listTaskExecutionsForOwner (taskId ownerId cursor : string) (limit : Z) (tenantId : string)
    : io TaskExecutionPage :=
  readTaskSummary c taskId (Some ownerId) (Some tenantId) ;+ listTaskExecutions taskId cursor limit.

(** ** Tasks of an owner *)

Definition owned (ownerId tenantId : string) (t : task_row) : bool :=
  bool_decide (t_owner t = Some ownerId) && bool_decide (t_tenant t = tenantId).

Definition with_executions (d : db) (t : task_row) : snapshot :=
  mapSnapshot t (merge_sort snapshot_le (map_rows (of_task (t_id t)) (visible_executions c d))).

(** LIST_SNAPSHOTS_SQL *)
Definition tasks_at_offset (ownerId tenantId : string) (limit offset : Z) (d : db) : list snapshot :=
  with_executions d <$> take (Z.to_nat limit) (drop (Z.to_nat offset)
    (merge_sort recent_then_id (map_rows (owned ownerId tenantId) (visible_tasks c d)))).

Definition listTasks (ownerId : string) (limit offset : Z) (tenantId : string) : io (list snapshot) :=
  athrow_if (js_blank ownerId) TypeError ;+
  athrow_if ((limit <=? 0) || (200 <? limit) || (offset <? 0)) RangeError ;+
  query (tasks_at_offset ownerId tenantId limit offset).

Record TaskPage := { tp_tasks : list snapshot; tp_nextCursor : option string }.

(** The driver's text of a [timestamptz], [Date.parse] of a text, and
    [$4::timestamptz] of it. *)
Context (show_timestamp : Z → string) (date_parses : string → bool) (read_timestamp : string → option Z).
Context (encode_cursor : string → string → string) (parse_cursor : string → option (string * string)).

Definition encodeTaskCursor (t : task_row) : string := encode_cursor (show_timestamp (t_updated_at t)) (t_id t).

Definition decodeTaskCursor (value : string) : io (option (string * string)) :=
  if isEmpty value then aret None else
  match parse_cursor value with
  | Some (updatedAt, id) =>
      athrow_if (isEmpty updatedAt || isEmpty id || negb (date_parses updatedAt)) TypeError ;+ aret (Some (updatedAt, id))
  | None => athrow TypeError
  end.

(** LIST_SNAPSHOTS_KEYSET_SQL after the cast of its fourth parameter. *)
Definition tasks_before (ownerId tenantId : string) (before : option position) (limit : Z) (d : db) : list task_row :=
  take (Z.to_nat limit) (merge_sort recent_le (map_rows (λ t,
    owned ownerId tenantId t && match before with Some p => row_lt (task_position t) p | None => true end)
    (visible_tasks c d))).

Definition INVALID_DATETIME : sql_error := SqlState "22007".

Definition cast_cursor (after : option (string * string)) : io (option position) :=
  match after with
  | None => aret None
  | Some (updatedAt, id) =>
      match read_timestamp updatedAt with
      | Some at_ => aret (Some (at_, id))
      | None => athrow (mapDatabaseError INVALID_DATETIME)
      end
  end.

Definition listTasksPage (ownerId : string) (cursor : option string) (limit : option Z) (tenantId : option string)
    : io TaskPage :=
  athrow_if (js_blank ownerId) TypeError ;+
  let limit := default 50 limit in
  athrow_if ((limit <=? 0) || (200 <? limit)) RangeError ;+
  let+ after := decodeTaskCursor (default "" cursor) in
  let+ before := cast_cursor after in
  let+ rows := query (λ d, (λ t, (t, with_executions d t)) <$>
    tasks_before ownerId (default "default" tenantId) before (limit + 1) d) in
  let (page, more) := page_of limit rows in
  aret {| tp_tasks := page.*2; tp_nextCursor := if more then (λ r, encodeTaskCursor r.1) <$> last page else None |}.

(** ** A reader that follows the cursors

    At most [n] pages; whether the last page was reached. *)

Fixpoint walk_executions (n : nat) (taskId cursor : string) (limit : Z) : io (list execution_summary * bool) :=
  match n with
  | O => aret ([], false)
  | S n' =>
      let+ page := listTaskExecutions taskId cursor limit in
      match xp_nextCursor page with
      | None => aret (xp_executions page, true)
      | Some next =>
          let+ rest := walk_executions n' taskId next limit in
          aret (xp_executions page ++ rest.1, rest.2)
      end
  end.

Fixpoint walk_tasks (n : nat) (ownerId : string) (cursor : option string) (limit : Z) (tenantId : string)
    : io (list snapshot * bool) :=
  match n with
  | O => aret ([], false)
  | S n' =>
      let+ page := listTasksPage ownerId cursor (Some limit) (Some tenantId) in
      match tp_nextCursor page with
      | None => aret (tp_tasks page, true)
      | Some next =>
          let+ rest := walk_tasks n' ownerId (Some next) limit tenantId in
          aret (tp_tasks page ++ rest.1, rest.2)
      end
  end.
End listings.
