(* ===== verification/PagingFacts.v ===== *)
(** * What paged listings promise

    Following the cursors of a Task's Executions lists each of them once, in the
    order they were created, whatever other processes do meanwhile; following the
    cursors of an owner's Tasks lists a quiet store exactly, provided the cursor
    carries the timestamp as stored; the driver's milliseconds do not. *)

From stdpp Require Import base gmap strings list fin_maps sorting relations.
From Stdlib Require Import Ascii ZArith Lia.
From S2P Require Import Prelude TaskModel TaskCommands ExecutionCommands StoreSteps StoreInvariant StoreSafety TaskClient ClientFacts SharedStore Paging.

Open Scope act_scope.

(** ** The order of rows *)

Lemma row_lt_irrefl p : row_lt p p = false.
Proof. unfold row_lt, String.ltb. by rewrite Z.eqb_refl, string_compare_refl. Qed.

Lemma row_lt_trans p q r : row_lt p q = true → row_lt q r = true → row_lt p r = true.
Proof.
  unfold row_lt, String.ltb. intros H1 H2.
  destruct (Z.eqb_spec p.1 q.1), (Z.eqb_spec q.1 r.1), (Z.eqb_spec p.1 r.1); to_prop; try lia.
  destruct (String.compare p.2 q.2) eqn:E1; try done. destruct (String.compare q.2 r.2) eqn:E2; try done.
  by rewrite (string_compare_trans _ _ _ E1 E2).
Qed.

Lemma row_le_lt p q : row_le p q = true ↔ row_lt p q = true ∨ p = q.
Proof.
  unfold row_le, row_lt, String.leb, String.ltb. destruct p as [a x], q as [b y]. cbn [fst snd].
  destruct (Z.eqb_spec a b) as [->|Hne].
  - destruct (String.compare x y) eqn:E; try naive_solver.
    + apply string_compare_eq in E as ->. naive_solver.
    + split; [done|]. intros [?|[= ->]]; [done|]. by rewrite string_compare_refl in E.
  - naive_solver.
Qed.

Lemma row_le_total p q : row_le p q = true ∨ row_le q p = true.
Proof.
  rewrite !row_le_lt. unfold row_lt, String.ltb. destruct p as [a x], q as [b y]. cbn [fst snd]. rewrite (Z.eqb_sym b a).
  destruct (Z.eqb_spec a b) as [->|Hne].
  - rewrite (String.compare_antisym x y). destruct (String.compare y x) eqn:E; cbn; auto.
    apply string_compare_eq in E as ->. auto.
  - rewrite !Z.ltb_lt. lia.
Qed.

Lemma row_le_trans p q r : row_le p q = true → row_le q r = true → row_le p r = true.
Proof. rewrite !row_le_lt. intros [H1| ->] [H2| ->]; auto. left. by eapply row_lt_trans. Qed.

Lemma row_le_antisym p q : row_le p q = true → row_le q p = true → p = q.
Proof.
  rewrite !row_le_lt. intros [H1|?] [H2|?]; auto. pose proof (row_lt_trans _ _ _ H1 H2) as H. by rewrite row_lt_irrefl in H.
Qed.

#[export] Instance attempt_le_total : Total attempt_le.
Proof. intros a b. apply row_le_total. Qed.
#[export] Instance attempt_le_trans : Transitive attempt_le.
Proof. intros a b d. apply row_le_trans. Qed.
#[export] Instance recent_le_total : Total recent_le.
Proof. intros a b. apply row_le_total. Qed.
#[export] Instance recent_le_trans : Transitive recent_le.
Proof. intros a b d H1 H2. by eapply row_le_trans. Qed.

(** ** Lists *)

#[local] Instance filter_proper {A} (p : A → bool) : Proper ((≡ₚ) ==> (≡ₚ)) (List.filter p).
Proof.
  induction 1 as [|x l l' _ IH|x y l|l1 l2 l3 _ IH1 _ IH2]; cbn; [done|by destruct (p x); [f_equiv|]| |by etrans].
  destruct (p x), (p y); done || constructor.
Qed.

Lemma filter_all {A} (p : A → bool) l : (∀ x, x ∈ l → p x = true) → List.filter p l = l.
Proof.
  induction l as [|x l IH]; intros H; cbn; [done|]. rewrite (H x) by apply list_elem_of_here.
  f_equal. apply IH. intros y Hy. apply H. by right.
Qed.

Lemma filter_none {A} (p : A → bool) l : (∀ x, x ∈ l → p x = false) → List.filter p l = [].
Proof.
  induction l as [|x l IH]; intros H; cbn; [done|]. rewrite (H x) by apply list_elem_of_here.
  apply IH. intros y Hy. apply H. by right.
Qed.

Lemma filter_filter {A} (p q : A → bool) l : List.filter p (List.filter q l) = List.filter (λ x, q x && p x) l.
Proof. induction l as [|x l IH]; cbn; [done|]. destruct (q x); cbn; [|done]. by destruct (p x); cbn; rewrite IH. Qed.

(** ** A page is a prefix of the sorted rows *)

Section pages.
Context {A : Type} (R : relation A) `{!RelDecision R, !Total R, !Transitive R} (rows : list A).
Context (R_antisym : ∀ a b, a ∈ rows → b ∈ rows → R a b → R b a → a = b) (rows_nodup : NoDup rows).
Notation sorted := (merge_sort R rows).

Lemma sorted_elem x : x ∈ sorted ↔ x ∈ rows.
Proof. by rewrite merge_sort_Permutation. Qed.

Lemma sorted_split k : ∀ x y, x ∈ take k sorted → y ∈ drop k sorted → R x y ∧ x ≠ y.
Proof.
  intros x y Hx Hy. pose proof (StronglySorted_merge_sort R rows) as Hs. rewrite <-(take_drop k sorted) in Hs.
  split; [by eapply StronglySorted_app_1_elem_of|]. intros ->.
  assert (NoDup sorted) as Hn by (by rewrite merge_sort_Permutation). rewrite <-(take_drop k sorted) in Hn.
  apply NoDup_app in Hn as (_ & Hn & _). by apply (Hn y).
Qed.

(** Everything up to the last row of a page is on it. *)
Lemma prefix_complete k x l : last (take k sorted) = Some l → x ∈ rows → R x l → x ∈ take k sorted.
Proof.
  intros Hl Hx HR. apply sorted_elem in Hx as Hin. rewrite <-(take_drop k sorted) in Hin.
  apply elem_of_app in Hin as [Hin|Hin]; [done|]. apply last_Some_elem_of in Hl.
  destruct (sorted_split k l x Hl Hin) as [HR' Hne]. destruct Hne. apply R_antisym; try done.
  apply sorted_elem. rewrite <-(take_drop k sorted). apply elem_of_app. by left.
Qed.

Lemma prefix_below k x l : last (take k sorted) = Some l → x ∈ take k sorted → R x l.
Proof.
  intros Hl Hx. apply last_Some in Hl as [l' Hl']. pose proof (StronglySorted_merge_sort R rows) as Hs.
  rewrite <-(take_drop k sorted), Hl' in Hs. apply StronglySorted_app_1_l in Hs. rewrite Hl' in Hx.
  apply elem_of_app in Hx as [Hx|Hx]; [eapply StronglySorted_app_1_elem_of; [exact Hs|exact Hx|apply list_elem_of_here]|].
  apply list_elem_of_singleton in Hx as ->. by destruct (total R l l).
Qed.

(** The rows after the last one of a page are those of the pages to come. *)
Lemma after_page (p : A → bool) k l :
  last (take k sorted) = Some l → (∀ x, x ∈ rows → p x = true ↔ ¬ R x l) →
  List.filter p rows ≡ₚ drop k sorted.
Proof.
  intros Hl Hp. rewrite <-(merge_sort_Permutation R rows) at 1.
  rewrite <-(take_drop k sorted) at 1. rewrite List.filter_app.
  rewrite (filter_none p (take k sorted)), (filter_all p (drop k sorted)); [done|..].
  - intros x Hx. apply Hp; [apply sorted_elem; rewrite <-(take_drop k sorted); apply elem_of_app; by right|].
    intros HR. apply last_Some_elem_of in Hl as Hin. destruct (sorted_split k l x Hin Hx) as [HR' Hne]. destruct Hne.
    apply R_antisym; try done; apply sorted_elem; rewrite <-(take_drop k sorted); apply elem_of_app; auto.
  - intros x Hx. apply not_true_iff_false. intros Hpx. apply Hp in Hpx; [destruct Hpx; by eapply prefix_below|].
    apply sorted_elem. rewrite <-(take_drop k sorted). apply elem_of_app. by left.
Qed.

Lemma sorted_strict (S : relation A) :
  (∀ a b, a ∈ rows → b ∈ rows → R a b → a ≠ b → S a b) → StronglySorted S sorted.
Proof.
  intros HS. assert (∀ l, StronglySorted R l → NoDup l → (∀ x, x ∈ l → x ∈ rows) → StronglySorted S l) as Hgen.
  { induction l as [|x l IH]; intros Hs Hn Hin; [constructor|]. apply StronglySorted_inv in Hs as [Hs Hx].
    apply NoDup_cons in Hn as [Hxl Hn]. constructor; [apply IH; [done..|]; intros y Hy; apply Hin; by right|].
    rewrite Forall_forall in Hx |- *. intros y Hy. apply HS; [apply Hin; by left|apply Hin; by right|by apply Hx|]. by intros ->. }
  apply Hgen; [apply StronglySorted_merge_sort; apply _|by rewrite merge_sort_Permutation|]. intros x. by rewrite sorted_elem.
Qed.
End pages.

(** ** What stays while others write *)

Definition named (d : db) : Prop := ∀ k e, db_executions d !! k = Some e → k ≠ "".

Lemma blank_nonempty s : blank s = false → s ≠ "".
Proof. intros H ->. done. Qed.

Lemma named_step c now d d' : step c now d d' → named d → named d'.
Proof.
  intros Hs Hn. destruct Hs; intros k' e'' Hk; cbn in Hk; try (by eapply Hn);
    apply lookup_insert_Some in Hk as [[<- _]|[_ Hk]]; try (by eapply Hn).
  - match goal with H : exec_write _ _ _ _ |- _ => apply exec_write_id in H as -> end. subst. by eapply Hn.
  - match goal with H : exec_write _ _ _ _ |- _ => apply exec_write_id in H as -> end. subst. by eapply Hn.
  - by apply blank_nonempty.
Qed.

Lemma named_steps d d' : rtc any_step d d' → named d → named d'.
Proof. induction 1 as [|d d1 d' (c & now & Hs) _ IH]; [done|]. intros Hn. by eapply IH, named_step. Qed.

Lemma reachable_named d : reachable d → named d.
Proof.
  intros [h <-]. eapply named_steps; [apply run_history_steps, linked_empty|]. intros k e. cbn. by rewrite lookup_empty.
Qed.

Definition same_exec (e e' : exec_row) : Prop := exec_identity e' = exec_identity e.
#[local] Instance same_exec_refl : Reflexive same_exec.
Proof. done. Qed.
#[local] Instance same_exec_trans : Transitive same_exec.
Proof. unfold same_exec. intros x y z. congruence. Qed.

Lemma visible_exec_kept c d d' i e :
  linked d → rtc any_step d d' → visible_executions c d !! i = Some e →
  ∃ e', visible_executions c d' !! i = Some e' ∧ exec_identity e' = exec_identity e.
Proof.
  intros Hl Hd He. apply visible_executions_lookup in He as [He Hv].
  destruct (history_exec_rel same_exec (λ now d1 e1 e2 Hw, exec_write_identity now d1 e1 e2 Hw) d d' i e Hl Hd He) as (e' & He' & Hid).
  exists e'. split; [|done]. apply visible_executions_lookup. split; [done|]. unfold same_exec, exec_identity in Hid. congruence.
Qed.

Lemma visible_task_kept c d d' k t :
  rtc any_step d d' → visible_tasks c d !! k = Some t →
  ∃ t', visible_tasks c d' !! k = Some t' ∧ task_identity t' = task_identity t.
Proof.
  intros Hd Ht. apply visible_tasks_lookup in Ht as [Ht Hv]. destruct (task_identity_kept d d' k t Hd Ht) as (t' & Ht' & Hid).
  exists t'. split; [|done]. apply visible_tasks_lookup. split; [done|]. unfold task_identity in Hid. congruence.
Qed.

(** [w'] is reached from [w] by reading. *)
Definition later (w w' : world) : Prop :=
  rtc any_step (w_db w) (w_db w') ∧ (w_env w = [] → w_env w' = [] ∧ w_db w' = w_db w).

Lemma later_interfere w : linked (w_db w) → later w (interfere w).
Proof. intros Hl. split; [by apply interfere_steps|]. intros E. unfold interfere. by rewrite E. Qed.

Lemma later_trans w1 w2 w3 : later w1 w2 → later w2 w3 → later w1 w3.
Proof.
  intros [H1 Q1] [H2 Q2]. split; [by etrans|]. intros E. destruct (Q1 E) as [E1 D1]. destruct (Q2 E1) as [E2 D2].
  split; [done|congruence].
Qed.

Lemma later_linked w w' : later w w' → linked (w_db w) → linked (w_db w').
Proof. intros [H _] Hl. by eapply any_steps_linked. Qed.

(** ** Walking the Executions of a Task *)

Lemma page_of_take {A} limit (rows : list A) : 0 < limit →
  page_of limit (take (Z.to_nat (limit + 1)) rows)
    = (if limit <? Z.of_nat (length rows) then take (Z.to_nat limit) rows else rows, limit <? Z.of_nat (length rows)).
Proof.
  intros Hl. unfold page_of. rewrite length_take.
  destruct (Z.ltb_spec limit (Z.of_nat (length rows))), (Z.ltb_spec limit (Z.of_nat (Z.to_nat (limit + 1) `min` length rows))); try lia.
  - rewrite take_take. do 2 f_equal. lia.
  - by rewrite take_ge by lia.
Qed.

Section execution_walk.
Context (c : session) (encode_id : string → string) (parse_id : string → option string).
Context (codec : ∀ i, i ≠ "" → parse_id (encode_id i) = Some i ∧ encode_id i ≠ "").
Context (taskId : string) (limit : Z) (named_task : js_blank taskId = false) (limit_ok : 0 < limit ≤ 500).

Definition task_rows (d : db) : list exec_row := map_rows (of_task taskId) (visible_executions c d).

Definition beyond (p : option position) (e : exec_row) : bool :=
  match p with Some q => row_lt q (exec_position e) | None => true end.

Definition rows_beyond (p : option position) (d : db) : list exec_row := List.filter (beyond p) (task_rows d).

(** [cursor] stands for the position [p]. *)
Definition cursor_at (p : option position) (cursor : string) (d : db) : Prop :=
  match p with
  | None => cursor = ""
  | Some q => ∃ i e, cursor = encode_id i ∧ i ≠ "" ∧ visible_executions c d !! i = Some e ∧ e_task_id e = taskId ∧ exec_position e = q
  end.

Lemma cursor_at_kept p cursor d d' : linked d → rtc any_step d d' → cursor_at p cursor d → cursor_at p cursor d'.
Proof.
  destruct p as [q|]; [|done]. intros Hl Hd (i & e & -> & Hi & He & Hk & <-).
  destruct (visible_exec_kept c d d' i e Hl Hd He) as (e' & He' & Hid). exists i, e'.
  unfold exec_identity, exec_position in *. split_and!; congruence.
Qed.

Lemma task_rows_elem d e : linked d → e ∈ task_rows d ↔ visible_executions c d !! e_id e = Some e ∧ e_task_id e = taskId.
Proof.
  intros Hl. unfold task_rows. rewrite map_rows_spec. unfold of_task. rewrite bool_decide_eq_true. split.
  - intros [Hk [k He]]. split; [|done]. apply visible_executions_lookup in He as H. by rewrite (linked_exec _ Hl _ _ (proj1 H)).
  - intros [He Hk]. eauto.
Qed.

Lemma task_rows_nodup d : linked d → NoDup (task_rows d).
Proof.
  intros Hl. unfold task_rows, map_rows. apply NoDup_ListNoDup, List.NoDup_filter, NoDup_ListNoDup.
  apply (NoDup_fmap_1 e_id). assert ((map_to_list (visible_executions c d)).*1 = e_id <$> (map_to_list (visible_executions c d)).*2) as <-.
  2:{ apply NoDup_fst_map_to_list. }
  rewrite <-list_fmap_compose. apply list_fmap_ext. intros i [k e] Hin. apply list_elem_of_lookup_2, elem_of_map_to_list in Hin. cbn.
  apply visible_executions_lookup in Hin as [Hin _]. by rewrite (linked_exec _ Hl _ _ Hin).
Qed.

Lemma rows_beyond_elem p d e :
  linked d → e ∈ rows_beyond p d ↔ visible_executions c d !! e_id e = Some e ∧ e_task_id e = taskId ∧ beyond p e = true.
Proof. intros Hl. unfold rows_beyond. rewrite list_elem_of_In, filter_In, <-list_elem_of_In, (task_rows_elem d) by done. naive_solver. Qed.

Lemma rows_beyond_nodup p d : linked d → NoDup (rows_beyond p d).
Proof. intros Hl. by apply NoDup_ListNoDup, List.NoDup_filter, NoDup_ListNoDup, task_rows_nodup. Qed.

Lemma rows_antisym p d a b : linked d → a ∈ rows_beyond p d → b ∈ rows_beyond p d → attempt_le a b → attempt_le b a → a = b.
Proof.
  intros Hl Ha Hb H1 H2. apply rows_beyond_elem in Ha as (Ha & _); [|done]. apply rows_beyond_elem in Hb as (Hb & _); [|done].
  pose proof (row_le_antisym _ _ H1 H2) as [= _ E]. congruence.
Qed.

Lemma executions_after_cursor p cursor d n :
  cursor_at p cursor d →
  ∃ after, (∀ w, decodeExecutionCursor parse_id cursor w = (Ok after, w)) ∧
    (after = None ∨ ∃ id e, after = Some id ∧ cursor_row c taskId id d = Some e) ∧
    executions_after c taskId after n d = take (Z.to_nat n) (merge_sort attempt_le (rows_beyond p d)).
Proof.
  unfold executions_after, rows_beyond, task_rows, map_rows. destruct p as [q|]; cbn [cursor_at].
  - intros (i & e & -> & Hi & He & Hk & Hq). destruct (codec i Hi) as [Hp Hne]. exists (Some i).
    assert (cursor_row c taskId i d = Some e) as Hrow.
    { unfold cursor_row. rewrite He. cbn. unfold of_task. by rewrite bool_decide_eq_true_2. }
    split_and!; [|right; by eexists _, _|].
    + intros w. unfold decodeExecutionCursor. destruct (encode_id i) as [|x s] eqn:E; [done|]. cbn [isEmpty]. rewrite Hp.
      by destruct i.
    + rewrite filter_filter. do 2 f_equal. apply filter_ext. intros e'. cbn. by rewrite Hrow, Hq.
  - intros ->. exists None. split_and!; [done|by left|]. rewrite filter_filter. done.
Qed.

(** One page, whatever happens between its statements. *)
Lemma page_call p cursor w t :
  linked (w_db w) → visible_tasks c (w_db w) !! taskId = Some t → cursor_at p cursor (w_db w) →
  ∃ page w', listTaskExecutions c encode_id parse_id taskId cursor limit w = (Ok page, w') ∧ later w w' ∧
    let rows := merge_sort attempt_le (rows_beyond p (w_db w')) in
    let more := limit <? Z.of_nat (length rows) in
    let listed := if more then take (Z.to_nat limit) rows else rows in
    xp_executions page = mapExecutionSummary <$> listed ∧
    xp_nextCursor page = if more then (λ e, encode_id (e_id e)) <$> last listed else None.
Proof.
  intros Hl Ht Hc. destruct (executions_after_cursor p cursor (w_db w) 0 Hc) as (after & Hdec & _).
  unfold listTaskExecutions. unfold abind at 1, athrow_if at 1.
  replace ((limit <=? 0) || (500 <? limit)) with false
    by (symmetry; apply orb_false_iff; split; [apply Z.leb_gt|apply Z.ltb_ge]; lia).
  unfold aret at 1. unfold abind at 1, readTaskSummary. unfold abind at 1, athrow_if at 1. rewrite named_task.
  unfold aret at 1, abind at 1, query at 1. pose proof (later_interfere w Hl) as L1.
  destruct (visible_task_kept c _ _ taskId t (proj1 L1) Ht) as (t1 & Ht1 & _).
  unfold task_sql at 1. rewrite Ht1. cbn [mbind option_bind andb]. unfold aret at 1, abind at 1. rewrite Hdec.
  set (w1 := interfere w) in *. pose proof (later_linked _ _ L1 Hl) as Hl1.
  assert (∃ w2, later w1 w2 ∧
    match after with
    | Some id => let+ row := query (cursor_row c taskId id) in athrow_if (bool_decide (row = None)) TypeError
    | None => aret tt
    end w1 = (Ok tt, w2)) as (w2 & L2 & Hcheck).
  { destruct after as [id|]; [|exists w1; split; [|done]; split; [apply rtc_refl|done]]. exists (interfere w1). split; [by apply later_interfere|].
    pose proof (later_interfere w1 Hl1) as L2.
    destruct (executions_after_cursor p cursor (w_db (interfere w1)) 0) as (after' & Hdec' & [->|(id' & e & -> & Hrow)] & _).
    - eapply cursor_at_kept; [exact Hl1|apply L2|]. eapply cursor_at_kept; [exact Hl|apply L1|done].
    - specialize (Hdec w). specialize (Hdec' w). congruence.
    - specialize (Hdec w). specialize (Hdec' w). assert (id' = id) as -> by congruence.
      unfold abind, query. rewrite Hrow. done. }
  unfold abind at 1. rewrite Hcheck. unfold abind at 1, query at 1. pose proof (later_linked _ _ L2 Hl1) as Hl2.
  pose proof (later_interfere w2 Hl2) as L3.
  destruct (executions_after_cursor p cursor (w_db (interfere w2)) (limit + 1)) as (after' & Hdec' & _ & Hrows).
  - eapply cursor_at_kept; [exact Hl2|apply L3|]. eapply cursor_at_kept; [exact Hl1|apply L2|].
    eapply cursor_at_kept; [exact Hl|apply L1|done].
  - specialize (Hdec w). specialize (Hdec' w). assert (after' = after) as -> by congruence.
    rewrite Hrows, page_of_take by lia. eexists _, (interfere w2). split; [reflexivity|].
    split; [eapply later_trans; [exact L1|]; by eapply later_trans|]. cbv zeta. cbn [xp_executions xp_nextCursor]. split; [done|].
    by destruct (limit <? _).
Qed.

Definition created_before (a b : exec_row) : Prop := row_lt (exec_position a) (exec_position b) = true.

Lemma beyond_trans p l e : beyond p l = true → row_lt (exec_position l) (exec_position e) = true → beyond p e = true.
Proof. destruct p as [q|]; [|done]. cbn. apply row_lt_trans. Qed.

Lemma not_attempt_le e l : ¬ attempt_le e l ↔ row_lt (exec_position l) (exec_position e) = true.
Proof.
  unfold attempt_le. split.
  - intros Hn. destruct (row_le_total (exec_position e) (exec_position l)) as [?|H]; [done|].
    apply row_le_lt in H as [?|H]; [done|]. destruct Hn. apply row_le_lt. by right.
  - intros Hlt Hle. apply row_le_lt in Hle as [Hle|Hle].
    + pose proof (row_lt_trans _ _ _ Hlt Hle) as H. by rewrite row_lt_irrefl in H.
    + rewrite Hle, row_lt_irrefl in Hlt. done.
Qed.

Lemma rows_kept p d d' e :
  linked d → rtc any_step d d' → e ∈ rows_beyond p d → ∃ e', e' ∈ rows_beyond p d' ∧ e_id e' = e_id e ∧ exec_position e' = exec_position e.
Proof.
  intros Hl Hd He. apply rows_beyond_elem in He as (He & Hk & Hb); [|done].
  destruct (visible_exec_kept c d d' _ e Hl Hd He) as (e' & He' & Hid). exists e'.
  assert (e_id e' = e_id e ∧ e_task_id e' = e_task_id e ∧ exec_position e' = exec_position e) as (E1 & E2 & E3)
    by (unfold exec_identity, exec_position in *; split_and!; congruence).
  split; [|done]. apply rows_beyond_elem; [by eapply any_steps_linked|]. rewrite E1, E2. split_and!; [done..|].
  unfold beyond in *. by rewrite E3.
Qed.

Lemma rows_sorted p d : linked d → StronglySorted created_before (merge_sort attempt_le (rows_beyond p d)).
Proof.
  intros Hl. apply (sorted_strict attempt_le); [by apply rows_beyond_nodup|]. intros a b Ha Hb Hab Hne. apply row_le_lt in Hab as [?|E]; [done|].
  destruct Hne. apply (rows_antisym p d); [done..| |]; apply row_le_lt; auto.
Qed.

(** The pages to come hold [limit] rows less. *)
Lemma rows_left p d l :
  linked d → last (take (Z.to_nat limit) (merge_sort attempt_le (rows_beyond p d))) = Some l → beyond p l = true →
  length (rows_beyond (Some (exec_position l)) d) = (length (rows_beyond p d) - Z.to_nat limit)%nat.
Proof.
  intros Hl Hlast Hb. pose proof (after_page attempt_le (rows_beyond p d) (λ a b, rows_antisym p d a b Hl) (rows_beyond_nodup p d Hl)
    (beyond (Some (exec_position l))) _ l Hlast) as Hp.
  assert (rows_beyond (Some (exec_position l)) d = List.filter (beyond (Some (exec_position l))) (rows_beyond p d)) as ->.
  { unfold rows_beyond. rewrite filter_filter. apply filter_ext. intros e. destruct (beyond (Some _) e) eqn:E; [|by rewrite andb_false_r].
    by rewrite (beyond_trans p l e Hb E). }
  rewrite Hp, length_drop, merge_sort_Permutation; [done|]. intros x _. cbn. by rewrite not_attempt_le.
Qed.

Lemma walk_spec n : ∀ p cursor w t,
  linked (w_db w) → named (w_db w) → visible_tasks c (w_db w) !! taskId = Some t → cursor_at p cursor (w_db w) →
  ∃ rows fin w', walk_executions c encode_id parse_id n taskId cursor limit w = (Ok (mapExecutionSummary <$> rows, fin), w') ∧
    later w w' ∧ StronglySorted created_before rows ∧
    (∀ e, e ∈ rows → beyond p e = true ∧ e_task_id e = taskId ∧ is_Some (visible_executions c (w_db w') !! e_id e)) ∧
    (fin = true → ∀ e, e ∈ rows_beyond p (w_db w) → e_id e ∈ e_id <$> rows) ∧
    (w_env w = [] → (0 < n)%nat → Z.of_nat (length (rows_beyond p (w_db w))) ≤ limit * Z.of_nat n → fin = true).
Proof.
  induction n as [|n IH]; intros p cursor w t Hl Hn Ht Hc.
  { exists [], false, w. split; [done|]. split; [split; [apply rtc_refl|done]|]. split; [constructor|].
    split; [intros e He; by apply elem_of_nil in He|]. split; [done|intros; lia]. }
  cbn [walk_executions]. unfold abind at 1. destruct (page_call p cursor w t Hl Ht Hc) as (page & w1 & -> & L1 & Hpage).
  cbv zeta in Hpage. pose proof (later_linked _ _ L1 Hl) as Hl1. set (sorted := merge_sort attempt_le (rows_beyond p (w_db w1))) in *.
  assert (length sorted = length (rows_beyond p (w_db w1))) as Hlen by (unfold sorted; by rewrite merge_sort_Permutation).
  pose proof (rows_sorted p (w_db w1) Hl1) as Hsorted. fold sorted in Hsorted.
  assert (∀ e, e ∈ sorted → e ∈ rows_beyond p (w_db w1)) as Hin by (intros e; unfold sorted; by rewrite merge_sort_Permutation).
  destruct (limit <? Z.of_nat (length sorted)) eqn:Hmore; destruct Hpage as [Hx Hnext]; rewrite Hnext.
  2:{ exists sorted, true, w1. rewrite Hx. split_and!; try done.
      - intros e He. apply Hin, rows_beyond_elem in He as (He & ? & ?); [|done]. split_and!; [done..|]. by rewrite He.
      - intros _ e He. destruct (rows_kept p _ _ e Hl (proj1 L1) He) as (e' & He' & <- & _). apply list_elem_of_fmap_2.
        unfold sorted. by rewrite merge_sort_Permutation. }
  to_prop. set (listed := take (Z.to_nat limit) sorted) in *.
  destruct (last listed) as [l|] eqn:Hlast.
  2:{ exfalso. apply last_None in Hlast. apply (f_equal length) in Hlast. unfold listed in Hlast. rewrite length_take in Hlast. cbn in Hlast. lia. }
  assert (∀ e, e ∈ listed → e ∈ sorted) as Hsub by (intros e He; rewrite <-(take_drop (Z.to_nat limit) sorted); apply elem_of_app; by left).
  assert (l ∈ rows_beyond p (w_db w1)) as Hlin by (apply Hin, Hsub; by eapply last_Some_elem_of).
  apply rows_beyond_elem in Hlin as Hlr; [|done]. destruct Hlr as (Hlv & Hlk & Hlb). cbn [fmap option_fmap option_map].
  pose proof (named_steps _ _ (proj1 L1) Hn) as Hn1.
  destruct (visible_task_kept c _ _ taskId t (proj1 L1) Ht) as (t1 & Ht1 & _).
  destruct (IH (Some (exec_position l)) (encode_id (e_id l)) w1 t1) as (rows & fin & w2 & Hw & L2 & Hs2 & Hr2 & Hf2 & Hq2); [done..| |].
  { exists (e_id l), l. split_and!; try done. apply visible_executions_lookup in Hlv as [Hlv _]. by eapply Hn1. }
  unfold abind at 1. rewrite Hw. exists (listed ++ rows), fin, w2. cbn [fst snd]. rewrite Hx, fmap_app.
  split_and!; [done|by eapply later_trans|..].
  - apply StronglySorted_app_2; [|apply (StronglySorted_app_1_l created_before _ (drop (Z.to_nat limit) sorted)); unfold listed; by rewrite take_drop|done].
    intros x y Hxl Hy. destruct (Hr2 y Hy) as (Hb & _).
    assert (attempt_le x l) as Hle by (by eapply (prefix_below attempt_le (rows_beyond p (w_db w1)))).
    apply row_le_lt in Hle as [Hlt|E]; unfold created_before; [by eapply row_lt_trans|by rewrite E].
  - intros e He. apply elem_of_app in He as [He|He].
    + apply Hsub, Hin, rows_beyond_elem in He as (He & Hk & Hb); [|done]. split_and!; [done..|].
      destruct (visible_exec_kept c _ _ _ e Hl1 (proj1 L2) He) as (e' & -> & _). done.
    + destruct (Hr2 e He) as (Hb & Hk & Hst). split_and!; [|done..]. by eapply beyond_trans.
  - intros Hfin e He. rewrite fmap_app, elem_of_app. destruct (rows_kept p _ _ e Hl (proj1 L1) He) as (e' & He' & <- & _).
    destruct (decide (attempt_le e' l)) as [Hle|Hgt].
    + left. apply list_elem_of_fmap_2. eapply (prefix_complete attempt_le (rows_beyond p (w_db w1))); try done.
      * intros a b. by apply rows_antisym.
      * by apply rows_beyond_nodup.
    + right. apply (Hf2 Hfin). apply rows_beyond_elem in He' as (? & ? & ?); [|done]. apply rows_beyond_elem; [done|].
      split_and!; [done..|]. by apply not_attempt_le.
  - intros Henv _ Hcount. destruct (proj2 L1 Henv) as [Henv1 Hdb]. rewrite <-Hdb in Hcount.
    pose proof (rows_left p (w_db w1) l Hl1 Hlast Hlb) as Hleft. apply Hq2; [done| |]; lia.
Qed.
End execution_walk.

(** C39. Paging through the attempts of a Task misses and repeats nothing: following
    the cursors from the first page lists Executions of the Task in the order of
    their creation, each once; when the last page is reached, every Execution that
    was stored when the walk began has been listed, however many were added or
    changed by other processes between any two statements; and the last page is
    reached: with nobody else writing, after as many pages as the rows fill. *)
Theorem execution_walk_complete : ∀ c encode_id parse_id n taskId limit w t,
  reachable (w_db w) → visible_tasks c (w_db w) !! taskId = Some t → js_blank taskId = false → 0 < limit ≤ 500 →
  (∀ i, i ≠ "" → parse_id (encode_id i) = Some i ∧ encode_id i ≠ "") →
  ∃ rows fin w', walk_executions c encode_id parse_id n taskId "" limit w = (Ok (mapExecutionSummary <$> rows, fin), w') ∧
    StronglySorted created_before rows ∧
    (∀ e, e ∈ rows → e_task_id e = taskId ∧ is_Some (visible_executions c (w_db w') !! e_id e)) ∧
    (fin = true → ∀ i e, visible_executions c (w_db w) !! i = Some e → e_task_id e = taskId → i ∈ e_id <$> rows) ∧
    (w_env w = [] → (0 < n)%nat → Z.of_nat (length (task_rows c taskId (w_db w))) ≤ limit * Z.of_nat n → fin = true).
Proof.
  intros c encode_id parse_id n taskId limit w t Hr Ht Hid Hlim Hcodec. pose proof (reachable_linked _ Hr) as Hl.
  destruct (walk_spec c encode_id parse_id Hcodec taskId limit Hid Hlim n None "" w t Hl (reachable_named _ Hr) Ht eq_refl)
    as (rows & fin & w' & -> & _ & Hs & Hrows & Hfin & Hq).
  assert (rows_beyond c taskId None (w_db w) = task_rows c taskId (w_db w)) as Hall by (by apply filter_all).
  rewrite Hall in Hfin, Hq. exists rows, fin, w'. split_and!; try done.
  - intros e He. by destruct (Hrows e He) as (_ & ? & ?).
  - intros Hf i e He Hk. apply visible_executions_lookup in He as Hv. rewrite <-(linked_exec _ Hl _ _ (proj1 Hv)) in He |- *.
    apply (Hfin Hf). by apply task_rows_elem.
Qed.

(** ** Walking the Tasks of an owner *)

Section task_walk.
Context (c : session) (show_timestamp : Z → string) (date_parses : string → bool) (read_timestamp : string → option Z).
Context (encode_cursor : string → string → string) (parse_cursor : string → option (string * string)).
Context (codec : ∀ a b, parse_cursor (encode_cursor a b) = Some (a, b) ∧ encode_cursor a b ≠ "").
Context (shown : ∀ t, date_parses (show_timestamp t) = true ∧ show_timestamp t ≠ "").
Context (ownerId tenantId : string) (limit : Z) (named_owner : js_blank ownerId = false) (limit_ok : 0 < limit ≤ 200).

Definition below (p : option position) (t : task_row) : bool :=
  match p with Some q => row_lt (task_position t) q | None => true end.

Definition owned_rows (d : db) : list task_row := map_rows (owned ownerId tenantId) (visible_tasks c d).
Definition rows_below (p : option position) (d : db) : list task_row := List.filter (below p) (owned_rows d).

(** What the statement reads for a cursor. *)
Definition reads (p : option position) (cursor : option string) : Prop :=
  match p with
  | None => cursor = None
  | Some q => ∃ text, cursor = Some (encode_cursor text q.2) ∧ read_timestamp text = Some q.1 ∧
                      text ≠ "" ∧ q.2 ≠ "" ∧ date_parses text = true
  end.

Lemma task_page p cursor w :
  reads p cursor →
  let d := w_db (interfere w) in
  let sorted := merge_sort recent_le (rows_below p d) in
  let more := limit <? Z.of_nat (length sorted) in
  let listed := if more then take (Z.to_nat limit) sorted else sorted in
  listTasksPage c show_timestamp date_parses read_timestamp encode_cursor parse_cursor ownerId cursor (Some limit) (Some tenantId) w
    = (Ok {| tp_tasks := with_executions c d <$> listed;
             tp_nextCursor := if more then (λ t, encode_cursor (show_timestamp (t_updated_at t)) (t_id t)) <$> last listed else None |},
       interfere w).
Proof.
  intros Hp d sorted more listed. unfold listTasksPage. unfold abind at 1, athrow_if at 1. rewrite named_owner.
  change (default 50 (Some limit)) with limit.
  unfold aret at 1, abind at 1, athrow_if at 1.
  replace ((limit <=? 0) || (200 <? limit)) with false
    by (symmetry; apply orb_false_iff; split; [apply Z.leb_gt|apply Z.ltb_ge]; lia).
  assert (∃ after, decodeTaskCursor date_parses parse_cursor (default "" cursor) w = (Ok after, w) ∧
    cast_cursor read_timestamp after w = (Ok p, w)) as (after & Hdec & Hcast).
  { destruct p as [[at_ id]|]; cbn [reads fst snd] in Hp; [|subst cursor; by exists None].
    destruct Hp as (text & -> & Hread & Htext & Hid & Hdate). destruct (codec text id) as [Hparse Hne]. exists (Some (text, id)).
    split; [|cbn; by rewrite Hread]. unfold decodeTaskCursor.
    change (default "" (Some (encode_cursor text id))) with (encode_cursor text id).
    destruct (encode_cursor text id) as [|x s]; [done|].
    cbn [isEmpty]. rewrite Hparse, Hdate. by destruct text, id. }
  unfold aret at 1, abind at 1. rewrite Hdec. unfold abind at 1. rewrite Hcast. unfold abind at 1, query at 1.
  assert (tasks_before c ownerId tenantId p (limit + 1) d = take (Z.to_nat (limit + 1)) sorted) as Hrows.
  { unfold tasks_before, sorted, rows_below, owned_rows, map_rows. by rewrite filter_filter. }
  fold d. change (default "default" (Some tenantId)) with tenantId. rewrite Hrows, fmap_take.
  rewrite page_of_take by lia. rewrite length_fmap. fold more. cbn iota beta.
  assert ((if more then take (Z.to_nat limit) ((λ t, (t, with_executions c d t)) <$> sorted) else (λ t, (t, with_executions c d t)) <$> sorted)
    = (λ t, (t, with_executions c d t)) <$> listed) as -> by (unfold listed; destruct more; by rewrite ?fmap_take).
  rewrite <-list_fmap_compose. f_equal. f_equal. f_equal. unfold listed. destruct more; [|done].
  rewrite fmap_last. by destruct (last _).
Qed.

Lemma owned_rows_elem d t : linked d → t ∈ owned_rows d → visible_tasks c d !! t_id t = Some t.
Proof.
  intros Hl H. apply map_rows_spec in H as [_ [k Hk]]. apply visible_tasks_lookup in Hk as Hv.
  by rewrite (linked_task _ Hl _ _ (proj1 Hv)).
Qed.

Lemma owned_rows_nodup d : linked d → NoDup (owned_rows d).
Proof.
  intros Hl. unfold owned_rows, map_rows. apply NoDup_ListNoDup, List.NoDup_filter, NoDup_ListNoDup.
  apply (NoDup_fmap_1 t_id). assert ((map_to_list (visible_tasks c d)).*1 = t_id <$> (map_to_list (visible_tasks c d)).*2) as <-.
  2:{ apply NoDup_fst_map_to_list. }
  rewrite <-list_fmap_compose. apply list_fmap_ext. intros i [k t] Hin. apply list_elem_of_lookup_2, elem_of_map_to_list in Hin. cbn.
  apply visible_tasks_lookup in Hin as [Hin _]. by rewrite (linked_task _ Hl _ _ Hin).
Qed.

Lemma rows_below_elem p d t : t ∈ rows_below p d ↔ t ∈ owned_rows d ∧ below p t = true.
Proof. unfold rows_below. by rewrite list_elem_of_In, filter_In, <-list_elem_of_In. Qed.

Lemma rows_below_nodup p d : linked d → NoDup (rows_below p d).
Proof. intros Hl. by apply NoDup_ListNoDup, List.NoDup_filter, NoDup_ListNoDup, owned_rows_nodup. Qed.

Lemma tasks_antisym p d a b : linked d → a ∈ rows_below p d → b ∈ rows_below p d → recent_le a b → recent_le b a → a = b.
Proof.
  intros Hl Ha Hb H1 H2. apply rows_below_elem in Ha as [Ha _]. apply rows_below_elem in Hb as [Hb _].
  apply owned_rows_elem in Ha; [|done]. apply owned_rows_elem in Hb; [|done].
  pose proof (row_le_antisym _ _ H1 H2) as [= _ E]. congruence.
Qed.

Lemma not_recent_le t l : ¬ recent_le t l ↔ row_lt (task_position t) (task_position l) = true.
Proof.
  unfold recent_le. split.
  - intros Hn. destruct (row_le_total (task_position t) (task_position l)) as [H|?]; [|done].
    apply row_le_lt in H as [?|H]; [done|]. destruct Hn. apply row_le_lt. by right.
  - intros Hlt Hle. apply row_le_lt in Hle as [Hle|Hle].
    + pose proof (row_lt_trans _ _ _ Hlt Hle) as H. by rewrite row_lt_irrefl in H.
    + rewrite Hle, row_lt_irrefl in Hlt. done.
Qed.

(** The rows below the last one of a page are the rest of the sorted rows. *)
Lemma next_rows p d l :
  linked d → last (take (Z.to_nat limit) (merge_sort recent_le (rows_below p d))) = Some l → below p l = true →
  merge_sort recent_le (rows_below (Some (task_position l)) d) = drop (Z.to_nat limit) (merge_sort recent_le (rows_below p d)).
Proof.
  intros Hl Hlast Hb. set (sorted := merge_sort recent_le (rows_below p d)) in *.
  assert (rows_below (Some (task_position l)) d ≡ₚ drop (Z.to_nat limit) sorted) as Hp.
  { unfold sorted. rewrite <-(after_page recent_le (rows_below p d) (λ a b, tasks_antisym p d a b Hl) (rows_below_nodup p d Hl)
      (below (Some (task_position l))) _ l Hlast).
    - unfold rows_below. rewrite filter_filter. erewrite filter_ext; [done|]. intros t. destruct p as [q|]; [|done]. cbn.
      destruct (row_lt (task_position t) (task_position l)) eqn:E; [|by rewrite andb_false_r].
      by rewrite (row_lt_trans _ _ _ E Hb).
    - intros x _. cbn. by rewrite not_recent_le. }
  apply (StronglySorted_unique_strong recent_le).
  - intros a b Ha Hb'. rewrite merge_sort_Permutation in Ha. intros H1 H2. apply (tasks_antisym (Some (task_position l)) d); try done.
    by rewrite Hp.
  - apply StronglySorted_merge_sort; apply _.
  - pose proof (StronglySorted_merge_sort recent_le (rows_below p d)) as Hs. fold sorted in Hs.
    rewrite <-(take_drop (Z.to_nat limit) sorted) in Hs. by eapply StronglySorted_app_1_r.
  - by rewrite merge_sort_Permutation.
Qed.

(** A cursor that reads back an earlier time than it was made from still moves
    down the list. *)
Lemma truncated_walk (cut : Z → Z) n : (∀ t, read_timestamp (show_timestamp t) = Some (cut t)) → (∀ t, cut t ≤ t) →
  ∀ p cursor w,
  linked (w_db w) → db_tasks (w_db w) !! "" = None → w_env w = [] → reads p cursor → (0 < n)%nat →
  Z.of_nat (length (rows_below p (w_db w))) ≤ limit * Z.of_nat n →
  ∃ rows w', walk_tasks c show_timestamp date_parses read_timestamp encode_cursor parse_cursor n ownerId cursor limit tenantId w
      = (Ok (with_executions c (w_db w) <$> rows, true), w') ∧
    (∀ t, t ∈ rows → t ∈ rows_below p (w_db w)) ∧
    ∀ l t, last (take (Z.to_nat limit) (merge_sort recent_le (rows_below p (w_db w)))) = Some l →
      row_lt (task_position t) (task_position l) = true → row_lt (task_position t) (cut (t_updated_at l), t_id l) = false → t ∉ rows.
Proof.
  intros Hcut Hle. induction n as [|n IH]; intros p cursor w Hl Hn Henv Hp H0 Hcount; [lia|].
  assert (w_db (interfere w) = w_db w ∧ w_env (interfere w) = []) as [Hdb Henv1] by (unfold interfere; by rewrite Henv).
  cbn [walk_tasks]. unfold abind at 1. rewrite (task_page p cursor w Hp), Hdb. cbn iota beta.
  set (sorted := merge_sort recent_le (rows_below p (w_db w))).
  assert (length sorted = length (rows_below p (w_db w))) as Hlen by (unfold sorted; by rewrite merge_sort_Permutation).
  assert (∀ t, t ∈ sorted → t ∈ rows_below p (w_db w)) as Hin by (intros t; unfold sorted; by rewrite merge_sort_Permutation).
  set (listed := take (Z.to_nat limit) sorted) in *.
  assert (∀ l t, last listed = Some l → row_lt (task_position t) (task_position l) = true → t ∉ listed) as Hpage.
  { intros l t Hlast Hlt Hin'. pose proof (prefix_below recent_le (rows_below p (w_db w)) _ t l Hlast Hin') as H.
    by apply not_recent_le in Hlt. }
  destruct (limit <? Z.of_nat (length sorted)) eqn:Hmore; cbn [tp_nextCursor tp_tasks]; to_prop.
  2:{ exists sorted. eexists. split; [reflexivity|]. split; [done|]. intros l t Hlast Hlt _.
      specialize (Hpage l t Hlast Hlt). unfold listed in Hpage. by rewrite take_ge in Hpage by lia. }
  destruct (last listed) as [l|] eqn:Hlast.
  2:{ exfalso. apply last_None in Hlast. apply (f_equal length) in Hlast. unfold listed in Hlast. rewrite length_take in Hlast. cbn in Hlast. lia. }
  assert (∀ t, t ∈ listed → t ∈ sorted) as Hsub.
  { intros t Ht. rewrite <-(take_drop (Z.to_nat limit) sorted). apply elem_of_app. by left. }
  assert (l ∈ rows_below p (w_db w)) as Hlr by (apply Hin, Hsub; by apply last_Some_elem_of).
  apply rows_below_elem in Hlr as [Hlo Hlb]. apply owned_rows_elem in Hlo as Hlv; [|done].
  apply visible_tasks_lookup in Hlv as [Hlv _]. cbn [fmap option_fmap option_map].
  set (q := (cut (t_updated_at l), t_id l)).
  assert (∀ t, row_lt (task_position t) q = true → row_lt (task_position t) (task_position l) = true) as Hq.
  { intros t Ht. assert (row_le q (task_position l) = true) as Hql.
    { unfold row_le, q, task_position. cbn. specialize (Hle (t_updated_at l)). destruct (Z.eqb_spec (cut (t_updated_at l)) (t_updated_at l)).
      - unfold String.leb. by rewrite string_compare_refl.
      - apply Z.ltb_lt. lia. }
    apply row_le_lt in Hql as [Hql|Hql]; [by eapply row_lt_trans|by rewrite <-Hql]. }
  assert (∀ t, t ∈ rows_below (Some q) (w_db w) → t ∈ rows_below p (w_db w)) as Hmono.
  { intros t Ht. apply rows_below_elem in Ht as [Ho Hb]. apply rows_below_elem. split; [done|].
    destruct p as [p|]; [|done]. cbn in *. eapply row_lt_trans; [by apply Hq|done]. }
  assert (length (rows_below (Some q) (w_db w)) ≤ length (drop (Z.to_nat limit) sorted))%nat as Hfew.
  { unfold sorted. rewrite <-(next_rows p (w_db w) l Hl Hlast Hlb), merge_sort_Permutation. apply submseteq_length, NoDup_submseteq; [by apply rows_below_nodup|].
    intros t Ht. apply rows_below_elem in Ht as [Ho Hb]. apply rows_below_elem. split; [done|]. by apply Hq. }
  destruct (IH (Some q) (Some (encode_cursor (show_timestamp (t_updated_at l)) (t_id l))) (interfere w)) as (rows & w' & Hw & Hr & _);
    rewrite ?Hdb; try done.
  - exists (show_timestamp (t_updated_at l)). cbn. destruct (shown (t_updated_at l)) as [? ?]. split_and!; try done.
    intros E. rewrite E in Hlv. congruence.
  - destruct n; [|lia]. lia.
  - rewrite length_drop in Hfew. lia.
  - unfold abind at 1. rewrite Hw. exists (listed ++ rows), w'. rewrite Hdb in Hr |- *. unfold aret. cbn [fst snd]. rewrite fmap_app.
    split; [done|]. split.
    + intros t Ht. apply elem_of_app in Ht as [Ht|Ht]; [by apply Hin, Hsub|by apply Hmono, Hr].
    + intros l' t Hl' Hlt Hcutoff. assert (Some l = Some l') as [= <-] by (by rewrite <-Hlast, <-Hl'). rewrite elem_of_app. intros [Ht|Ht].
      * by apply (Hpage l t).
      * apply Hr, rows_below_elem in Ht as [_ Hb]. cbn in Hb. fold q in Hcutoff. congruence.
Qed.

Context (exact : ∀ t, read_timestamp (show_timestamp t) = Some t).
Notation walk := (walk_tasks c show_timestamp date_parses read_timestamp encode_cursor parse_cursor).

Lemma task_walk_spec n : ∀ p cursor w,
  linked (w_db w) → db_tasks (w_db w) !! "" = None → w_env w = [] → reads p cursor → (0 < n)%nat →
  Z.of_nat (length (rows_below p (w_db w))) ≤ limit * Z.of_nat n →
  ∃ w', walk n ownerId cursor limit tenantId w
    = (Ok (with_executions c (w_db w) <$> merge_sort recent_le (rows_below p (w_db w)), true), w').
Proof.
  induction n as [|n IH]; intros p cursor w Hl Hn Henv Hp H0 Hcount; [lia|].
  assert (w_db (interfere w) = w_db w ∧ w_env (interfere w) = []) as [Hdb Henv1] by (unfold interfere; by rewrite Henv).
  cbn [walk_tasks]. unfold abind at 1. rewrite (task_page p cursor w Hp), Hdb. cbn iota beta.
  set (sorted := merge_sort recent_le (rows_below p (w_db w))).
  assert (length sorted = length (rows_below p (w_db w))) as Hlen by (unfold sorted; by rewrite merge_sort_Permutation).
  destruct (limit <? Z.of_nat (length sorted)) eqn:Hmore; cbn [tp_nextCursor tp_tasks]; [|by eexists].
  to_prop. set (listed := take (Z.to_nat limit) sorted) in *.
  destruct (last listed) as [l|] eqn:Hlast.
  2:{ exfalso. apply last_None in Hlast. apply (f_equal length) in Hlast. unfold listed in Hlast. rewrite length_take in Hlast. cbn in Hlast. lia. }
  assert (l ∈ sorted) as Hls.
  { apply last_Some_elem_of in Hlast. rewrite <-(take_drop (Z.to_nat limit) sorted). apply elem_of_app. by left. }
  unfold sorted in Hls. rewrite merge_sort_Permutation in Hls. apply rows_below_elem in Hls as [Hlo Hlb].
  apply owned_rows_elem in Hlo as Hlv; [|done]. apply visible_tasks_lookup in Hlv as [Hlv _]. cbn [fmap option_fmap option_map].
  pose proof (next_rows p (w_db w) l Hl Hlast Hlb) as Hnext. fold sorted in Hnext.
  destruct (IH (Some (task_position l)) (Some (encode_cursor (show_timestamp (t_updated_at l)) (t_id l))) (interfere w)) as (w' & Hw);
    rewrite ?Hdb; try done.
  - exists (show_timestamp (t_updated_at l)). cbn. destruct (shown (t_updated_at l)) as [? ?]. split_and!; try done.
    intros E. rewrite E in Hlv. congruence.
  - destruct n; [|lia]. lia.
  - apply (f_equal length) in Hnext. rewrite merge_sort_Permutation, length_drop in Hnext. lia.
  - unfold abind at 1. rewrite Hw, Hdb. exists w'. unfold aret. cbn [fst snd]. rewrite Hnext, <-fmap_app. unfold listed. by rewrite take_drop.
Qed.
End task_walk.

(** Paging through an owner's Tasks is exact when a cursor carries the time it
    was made from: with nobody writing, following the cursors lists all Tasks of
    the owner in the tenant, newest first, each once, and ends after as many pages
    as they fill. *)
Theorem task_walk_exact : ∀ c show_timestamp date_parses read_timestamp encode_cursor parse_cursor ownerId tenantId limit n w,
  (∀ a b, parse_cursor (encode_cursor a b) = Some (a, b) ∧ encode_cursor a b ≠ "") →
  (∀ t, date_parses (show_timestamp t) = true ∧ show_timestamp t ≠ "") →
  (∀ t, read_timestamp (show_timestamp t) = Some t) →
  js_blank ownerId = false → 0 < limit ≤ 200 → linked (w_db w) → db_tasks (w_db w) !! "" = None → w_env w = [] → (0 < n)%nat →
  Z.of_nat (length (owned_rows c ownerId tenantId (w_db w))) ≤ limit * Z.of_nat n →
  ∃ w', walk_tasks c show_timestamp date_parses read_timestamp encode_cursor parse_cursor n ownerId None limit tenantId w
    = (Ok (with_executions c (w_db w) <$> merge_sort recent_le (owned_rows c ownerId tenantId (w_db w)), true), w').
Proof.
  intros c show dp read enc parse ownerId tenantId limit n w Hcodec Hshown Hexact Ho Hlim Hl Hn Henv H0 Hcount.
  assert (rows_below c ownerId tenantId None (w_db w) = owned_rows c ownerId tenantId (w_db w)) as Hall by (by apply filter_all).
  rewrite <-Hall in Hcount |- *.
  by apply (task_walk_spec c show dp read enc parse Hcodec Hshown ownerId tenantId limit Ho Hlim Hexact n None None w).
Qed.

(** The cursor of [listTasksPage] loses Tasks: a driver that returns a
    [timestamptz] as a JavaScript [Date] keeps its milliseconds, while the column
    has microseconds (the clock readings here), so that the next page begins below
    the truncated time. A Task of the owner that comes after the last row of the
    first page and was updated within the same millisecond is on no page, although
    the walk ends as if it had listed everything and nobody has written. *)
Theorem truncated_cursor_skips_tasks :
  ∀ c show_timestamp date_parses read_timestamp encode_cursor parse_cursor ownerId tenantId limit n w l t,
  (∀ a b, parse_cursor (encode_cursor a b) = Some (a, b) ∧ encode_cursor a b ≠ "") →
  (∀ u, date_parses (show_timestamp u) = true ∧ show_timestamp u ≠ "") →
  (∀ u, read_timestamp (show_timestamp u) = Some (u - u mod 1000)) →
  js_blank ownerId = false → 0 < limit ≤ 200 → linked (w_db w) → db_tasks (w_db w) !! "" = None → w_env w = [] → (0 < n)%nat →
  Z.of_nat (length (owned_rows c ownerId tenantId (w_db w))) ≤ limit * Z.of_nat n →
  last (take (Z.to_nat limit) (merge_sort recent_le (owned_rows c ownerId tenantId (w_db w)))) = Some l →
  t ∈ owned_rows c ownerId tenantId (w_db w) → row_lt (task_position t) (task_position l) = true →
  t_updated_at l - t_updated_at l mod 1000 < t_updated_at t →
  ∃ tasks w', walk_tasks c show_timestamp date_parses read_timestamp encode_cursor parse_cursor n ownerId None limit tenantId w
      = (Ok (tasks, true), w') ∧ t_id t ∉ s_id <$> tasks.
Proof.
  intros c show dp read enc parse ownerId tenantId limit n w l t Hcodec Hshown Hcut Ho Hlim Hl Hn Henv H0 Hcount Hlast Ht Hlt Hms.
  assert (rows_below c ownerId tenantId None (w_db w) = owned_rows c ownerId tenantId (w_db w)) as Hall by (by apply filter_all).
  destruct (truncated_walk c show dp read enc parse Hcodec Hshown ownerId tenantId limit Ho Hlim (λ u, u - u mod 1000) n Hcut
    (λ u, ltac:(cbn beta; pose proof (Z.mod_pos_bound u 1000 eq_refl); lia)) None None w) as (rows & w' & -> & Hin & Hskip); try done; [by rewrite Hall|].
  rewrite Hall in Hin, Hskip. exists (with_executions c (w_db w) <$> rows), w'. split; [done|]. rewrite <-list_fmap_compose.
  intros Hid. apply list_elem_of_fmap in Hid as (t' & Hid & Ht'). cbn in Hid. apply (Hskip l t Hlast Hlt).
  - unfold row_lt, task_position. cbn. destruct (Z.eqb_spec (t_updated_at t) (t_updated_at l - t_updated_at l mod 1000)); [lia|].
    apply Z.ltb_ge. lia.
  - assert (t = t') as ->; [|done]. apply Hin, owned_rows_elem in Ht'; [|done]. apply owned_rows_elem in Ht; [|done]. congruence.
Qed.

(** ** Concrete pages

    A text for the values of a countable type, in place of base64url and of the
    driver's timestamps. *)

Fixpoint digits (p : positive) : string :=
  match p with
  | xH => "."
  | xO p => String "0" (digits p)
  | xI p => String "1" (digits p)
  end.

Fixpoint read_digits (s : string) : option positive :=
  match s with
  | EmptyString => None
  | String a s =>
      if Ascii.eqb a "." then Some xH
      else if Ascii.eqb a "0" then xO <$> read_digits s
      else xI <$> read_digits s
  end.

Definition text {A} `{Countable A} (a : A) : string := digits (encode a).
Definition read_text {A} `{Countable A} (s : string) : option A := p ← read_digits s; decode p.

Lemma read_text_text {A} `{Countable A} (a : A) : read_text (text a) = Some a ∧ text a ≠ "".
Proof.
  split; [|unfold text; by destruct (encode a)]. unfold read_text, text.
  assert (∀ p, read_digits (digits p) = Some p) as -> by (intros p; induction p as [p IH|p IH|]; cbn; by rewrite ?IH).
  apply decode_encode.
Qed.

Lemma execution_walk_complete_witness :
  ∃ rows w', walk_executions demo_session text read_text 2 "t1" "" 2 (World demo_db [] 9 []) = (Ok (mapExecutionSummary <$> rows, true), w')
    ∧ "e3" ∈ e_id <$> rows.
Proof.
  destruct (visible_tasks demo_session demo_db !! "t1") as [t|] eqn:Ht; [|by vm_compute in Ht].
  destruct (visible_executions demo_session demo_db !! "e3") as [e|] eqn:He; [|by vm_compute in He].
  destruct (execution_walk_complete demo_session text read_text 2 "t1" 2 (World demo_db [] 9 []) t demo_reachable Ht eq_refl
    ltac:(lia) (λ i _, read_text_text i)) as (rows & fin & w' & Hw & _ & _ & Hfin & Hend).
  assert (fin = true) as -> by (apply Hend; [reflexivity|lia|by vm_compute]).
  exists rows, w'. split; [exact Hw|]. apply (Hfin eq_refl "e3" e He). vm_compute in He. by injection He as <-.
Defined.

(** Three Tasks, two of them of the same millisecond. *)
Definition page_db : db := (run_history
  [ Event demo_session 999000 (CreateTask "a" "import" "acme" (Some "alice") 1);
    Event demo_session 1000200 (CreateTask "b" "import" "acme" (Some "alice") 1);
    Event demo_session 1000500 (CreateTask "c" "import" "acme" (Some "alice") 1) ] empty_db).2.

Lemma page_db_linked : linked page_db ∧ db_tasks page_db !! "" = None.
Proof. split; [apply reachable_linked; by eexists|by vm_compute]. Qed.

Lemma task_walk_exact_witness : ∃ tasks w',
  walk_tasks demo_session text (λ _, true) read_text (λ a b, text (a, b)) read_text 2 "alice" None 2 "acme" (World page_db [] 9 [])
    = (Ok (tasks, true), w') ∧ s_id <$> tasks = ["c"; "b"; "a"].
Proof.
  destruct page_db_linked as [Hl Hn].
  destruct (task_walk_exact demo_session text (λ _, true) read_text (λ a b, text (a, b)) read_text "alice" "acme" 2 2
    (World page_db [] 9 []) (λ a b, read_text_text (a, b)) (λ t, conj eq_refl (proj2 (read_text_text t)))
    (λ t, proj1 (read_text_text t)) eq_refl ltac:(lia) Hl Hn eq_refl ltac:(lia) ltac:(by vm_compute)) as (w' & Hw).
  eexists _, w'. split; [exact Hw|]. by vm_compute.
Defined.
