(* ===== verification/Checkpoints.v ===== *)
(** * Execution checkpoints

    The [rhinoq_task.checkpoints] table with [upsert_checkpoint] and
    [delete_execution_checkpoints] (migrations 12 and 14 of
    [postgres/task-schema.ts]), the client methods over them
    ([postgres/task-client.ts]) and the handler-side binding
    [createRhinoQTaskCheckpoint] ([tasks/checkpoint.ts]): a bounded cursor per
    (Execution, key), replayable after a lost response and fenced by a version
    when it changes. *)

From stdpp Require Import base gmap strings list fin_maps sorting relations.
From Stdlib Require Import Ascii ZArith Lia.
From S2P Require Import Prelude TaskModel TaskClient.

Open Scope txn_scope.

(** [~ '^[0-9a-f]{64}$'] *)
Definition hex_digit (a : ascii) : bool :=
  let n := nat_of_ascii a in ((48 <=? n) && (n <=? 57) || (97 <=? n) && (n <=? 102))%nat.

Fixpoint all_hex (s : string) : bool :=
  match s with
  | EmptyString => true
  | String a s' => hex_digit a && all_hex s'
  end.

Definition sha256_hex (s : string) : bool := all_hex s && (String.length s =? 64)%nat.

Section checkpoints.
(** [J] is the type of jsonb values and [text_size] the length in bytes of the
    text PostgreSQL prints for one. *)
Context {J : Type} `{!EqDecision J} (text_size : J → Z).

Record cp_row := CpRow {
  cp_id : string; cp_task_id : string; cp_tenant : string; cp_execution_id : string; cp_key : string;
  cp_handler_version : Z; cp_input_checksum : string; cp_state : J; cp_completed : bool;
  cp_version : Z; cp_created_at : Z; cp_updated_at : Z;
}.

#[export] Instance cp_row_eq_dec : EqDecision cp_row.
Proof. solve_decision. Defined.

Record kdb := Kdb { k_tasks : db; k_checkpoints : gmap string cp_row }.

Definition ksql (A : Type) : Type := txn kdb sql_error A.

Definition kfail_if (b : bool) (code : string) : ksql unit := traise_if b (Raise code).

Definition visible_checkpoints (c : session) (s : kdb) : gmap string cp_row :=
  filter (λ kv, rls_allows c (cp_tenant kv.2) = true) (k_checkpoints s).

(** [WHERE execution_id = $1 AND checkpoint_key = $2] *)
Definition at_key (execution_id key : string) (r : cp_row) : bool :=
  bool_decide (cp_execution_id r = execution_id) && bool_decide (cp_key r = key).

Definition find_checkpoint (c : session) (s : kdb) (execution_id key : string) : option cp_row :=
  head (map_rows (at_key execution_id key) (visible_checkpoints c s)).

Definition put_checkpoint (r : cp_row) (s : kdb) : kdb :=
  Kdb (k_tasks s) (<[cp_id r := r]> (k_checkpoints s)).

(** [EXISTS (SELECT 1 FROM executions WHERE id = .. AND task_id = ..)] *)
Definition execution_of_task (c : session) (s : kdb) (execution_id task_id : string) : bool :=
  match visible_executions c (k_tasks s) !! execution_id with
  | Some e => bool_decide (e_task_id e = task_id)
  | None => false
  end.

(** The INSERT with its defaults, CHECKs, unique and foreign keys. *)
Definition insert_checkpoint (c : session) (r : string → cp_row) : ksql Z :=
  λ s,
    match current_tenant c with
    | None => Err (if exempt c || maintenance_session c then NOT_NULL_VIOLATION else RLS_VIOLATION)
    | Some tenant =>
        let r := r tenant in
        if blank (cp_id r) || blank (cp_key r) || (256 <? Z.of_nat (String.length (cp_key r))) then Err CHECK_VIOLATION else
        if bool_decide (is_Some (k_checkpoints s !! cp_id r))
           || map_exists (at_key (cp_execution_id r) (cp_key r)) (k_checkpoints s) then Err UNIQUE_VIOLATION else
        if bool_decide (t_tenant <$> db_tasks (k_tasks s) !! cp_task_id r = Some tenant)
           && bool_decide (e_tenant <$> db_executions (k_tasks s) !! cp_execution_id r = Some tenant)
        then Ok (cp_version r, put_checkpoint r s)
        else Err FOREIGN_KEY_VIOLATION
    end.

Definition cp_advance (state : J) (completed : bool) (version now : Z) (r : cp_row) : cp_row :=
  CpRow (cp_id r) (cp_task_id r) (cp_tenant r) (cp_execution_id r) (cp_key r) (cp_handler_version r)
    (cp_input_checksum r) state completed version (cp_created_at r) now.

(** [EXCEPTION WHEN unique_violation THEN ...] *)
Definition checkpoint_exists (e : sql_error) : sql_error :=
  if bool_decide (e = UNIQUE_VIOLATION) then Raise "RHINOQ_CHECKPOINT_ALREADY_EXISTS" else e.

Definition upsert_checkpoint (c : session) (now : Z) (p_id p_task_id p_execution_id p_key : string)
    (p_handler_version : Z) (p_input_checksum : string) (p_state : J) (p_completed : bool)
    (p_expected_version : option Z) : ksql Z :=
  tcatch (
    kfail_if (blank p_id || blank p_task_id || blank p_execution_id || blank p_key
              || (p_handler_version <=? 0) || negb (sha256_hex p_input_checksum)
              || (65536 <? text_size p_state)) "RHINOQ_INVALID_CHECKPOINT" ;;
    let* s := tget in
    kfail_if (negb (execution_of_task c s p_execution_id p_task_id)) "RHINOQ_CHECKPOINT_EXECUTION_MISMATCH" ;;
    match find_checkpoint c s p_execution_id p_key with
    | Some v =>
        kfail_if (negb (bool_decide (cp_id v = p_id)) || negb (bool_decide (cp_task_id v = p_task_id))
                  || negb (cp_handler_version v =? p_handler_version)
                  || negb (bool_decide (cp_input_checksum v = p_input_checksum))) "RHINOQ_CHECKPOINT_INCOMPATIBLE" ;;
        if bool_decide (cp_state v = p_state) && bool_decide (cp_completed v = p_completed)
        then tret (cp_version v) else
        kfail_if (negb (bool_decide (p_expected_version = Some (cp_version v)))) "RHINOQ_CHECKPOINT_VERSION_CONFLICT" ;;
        let* version := tlift (bigint_succ (cp_version v)) in
        tput (put_checkpoint (cp_advance p_state p_completed version now v) s) ;;
        tret version
    | None =>
        kfail_if (bool_decide (is_Some p_expected_version)) "RHINOQ_CHECKPOINT_VERSION_CONFLICT" ;;
        insert_checkpoint c (λ tenant, CpRow p_id p_task_id tenant p_execution_id (btrim p_key) p_handler_version
          p_input_checksum p_state p_completed 1 now now)
    end) checkpoint_exists.

(** [DELETE ... WHERE execution_id = ..]; the result is the row count. *)
Definition delete_execution_checkpoints (c : session) (p_execution_id : string) : ksql Z :=
  kfail_if (blank p_execution_id) "RHINOQ_INVALID_CHECKPOINT" ;;
  let* s := tget in
  let doomed r := bool_decide (cp_execution_id r = p_execution_id) && rls_allows c (cp_tenant r) in
  tput (Kdb (k_tasks s) (filter (λ kv, doomed kv.2 = false) (k_checkpoints s))) ;;
  tret (map_count doomed (k_checkpoints s)).

(** ** Client *)

Record checkpoint := Checkpoint {
  ck_id : string; ck_taskId : string; ck_executionId : string; ck_key : string; ck_handlerVersion : Z;
  ck_inputChecksum : string; ck_state : J; ck_completed : bool; ck_version : Z;
  ck_createdAt : Z; ck_updatedAt : Z;
}.

Definition mapCheckpoint (r : cp_row) : checkpoint :=
  Checkpoint (cp_id r) (cp_task_id r) (cp_execution_id r) (cp_key r) (cp_handler_version r)
    (cp_input_checksum r) (cp_state r) (cp_completed r) (cp_version r) (cp_created_at r) (cp_updated_at r).

Record TaskCheckpointSaveRequest := {
  kr_taskId : string; kr_handlerVersion : Z; kr_inputChecksum : string; kr_state : J;
  kr_completed : option bool; kr_expectedVersion : option Z;
}.

(** The actions of a client that runs alone on the store. *)
Definition kio (A : Type) : Type := act kdb js_error A.

Definition validateCheckpointRequest (executionId key : string) (rq : TaskCheckpointSaveRequest) : kio unit :=
  (athrow_if (js_blank executionId || js_blank key || js_blank (kr_taskId rq) || (kr_handlerVersion rq <? 1)
     || (MAX_SAFE_INTEGER <? kr_handlerVersion rq) || negb (sha256_hex (kr_inputChecksum rq))) TypeError ;+
   athrow_if (256 <? Z.of_nat (String.length key)) RangeError ;+
   athrow_if (match kr_expectedVersion rq with Some v => (v <? 1) || (MAX_SAFE_INTEGER <? v) | None => false end)
     RangeError)%act.

Definition getTaskCheckpoint (c : session) (executionId key : string) : kio (option checkpoint) :=
  (athrow_if (js_blank executionId || js_blank key) TypeError ;+
   λ s, (Ok (mapCheckpoint <$> find_checkpoint c s executionId key), s))%act.

(** [ORDER BY updated_at, id] *)
Definition cp_oldest (a b : cp_row) : Prop :=
  (if cp_updated_at a =? cp_updated_at b then String.leb (cp_id a) (cp_id b)
   else cp_updated_at a <? cp_updated_at b) = true.
#[export] Instance cp_oldest_dec : RelDecision cp_oldest.
Proof. intros a b. unfold cp_oldest. apply _. Defined.

Definition listTaskCheckpoints (c : session) (taskId : string) (limit : Z) : kio (list checkpoint) :=
  (athrow_if (js_blank taskId) TypeError ;+
   athrow_if ((limit <? 1) || (500 <? limit)) RangeError ;+
   λ s, (Ok (mapCheckpoint <$> take (Z.to_nat limit) (merge_sort cp_oldest
     (map_rows (λ r, bool_decide (cp_task_id r = taskId)) (visible_checkpoints c s)))), s))%act.

Definition NUL : string := String zero EmptyString.

(** [encode] is [JSON.stringify], [parse] the cast of that text to jsonb and
    [sha256] the lowercase hex digest of the UTF-8 bytes. *)
Section client.
Context (encode : J → string) (parse : string → J) (sha256 : string → string).

Definition checkpoint_id (taskId executionId key : string) : string :=
  ("checkpoint-" +:+ left_text 32 (sha256 (taskId +:+ NUL +:+ executionId +:+ NUL +:+ key)))%string.

(** [$5] is an [integer] parameter: PostgreSQL refuses a larger value. *)
Definition save_statement (c : session) (now : Z) (executionId key : string) (rq : TaskCheckpointSaveRequest) : ksql Z :=
  traise_if (INT4_MAX <? kr_handlerVersion rq) OUT_OF_RANGE ;;
  upsert_checkpoint c now (checkpoint_id (kr_taskId rq) executionId key) (kr_taskId rq) executionId key
    (kr_handlerVersion rq) (kr_inputChecksum rq) (parse (encode (kr_state rq)))
    (bool_decide (kr_completed rq = Some true)) (kr_expectedVersion rq).

Definition saveTaskCheckpoint (c : session) (now : Z) (executionId key : string) (rq : TaskCheckpointSaveRequest)
    : kio checkpoint :=
  (validateCheckpointRequest executionId key rq ;+
   athrow_if (65536 <? Z.of_nat (String.length (encode (kr_state rq)))) RangeError ;+
   astatement mapDatabaseError (save_statement c now executionId key rq) ;+
   let+ saved := getTaskCheckpoint c executionId key in
   match saved with
   | Some ck => aret ck
   | None => athrow (RhinoQError "RHINOQ_CHECKPOINT_NOT_FOUND" false None)
   end)%act.

Definition deleteTaskCheckpoints (c : session) (executionId : string) : kio Z :=
  (athrow_if (js_blank executionId) TypeError ;+
   astatement mapDatabaseError (delete_execution_checkpoints c executionId))%act.

(** ** The binding of one handler execution *)

Record RhinoQTaskCheckpoint := {
  tc_save : Z → string → J → string → option bool → option Z → kio checkpoint;
  tc_load : string → kio (option checkpoint);
  tc_clear : kio Z;
}.

(** [client] is [None] outside the PostgreSQL Task profile. *)
Definition createRhinoQTaskCheckpoint (client : option session) (taskId executionId : string) (handlerVersion : Z)
    : result js_error RhinoQTaskCheckpoint :=
  if js_blank taskId || js_blank executionId then Err TypeError else
  if (handlerVersion <? 1) || (MAX_SAFE_INTEGER <? handlerVersion) then Err RangeError else
  let requireClient {A} (f : session → kio A) : kio A :=
    match client with Some c => f c | None => athrow TypeError end in
  Ok {|
    tc_save now key state inputChecksum completed expectedVersion :=
      requireClient (λ c, saveTaskCheckpoint c now executionId key
        {| kr_taskId := taskId; kr_handlerVersion := handlerVersion; kr_inputChecksum := inputChecksum;
           kr_state := state; kr_completed := completed; kr_expectedVersion := expectedVersion |});
    tc_load key := requireClient (λ c, getTaskCheckpoint c executionId key);
    tc_clear := requireClient (λ c, deleteTaskCheckpoints c executionId);
  |}.
End client.
End checkpoints.

Arguments cp_row J : clear implicits.
Arguments kdb J : clear implicits.
Arguments ksql J A : clear implicits.
Arguments checkpoint J : clear implicits.
Arguments kio J A : clear implicits.
Arguments TaskCheckpointSaveRequest J : clear implicits.
