(* ===== verification/CheckpointFacts.v ===== *)
(** * What checkpoints promise

    A saved cursor is read back and can be replayed after a lost response; a
    changed cursor passes only with the current version; and the one place where
    the key is normalised inconsistently. *)

From stdpp Require Import base gmap strings list fin_maps sorting relations.
From Stdlib Require Import Ascii ZArith Lia.
From S2P Require Import Prelude TaskModel StoreSteps TaskClient Checkpoints.

Section facts.
Context {J : Type} `{!EqDecision J} (text_size : J → Z).
Implicit Types (s : kdb J) (r : cp_row J).

Notation upsert := (upsert_checkpoint text_size).

(** Rows are stored under their id, under a trimmed key, one per (Execution, key). *)
Record cp_wf s : Prop := {
  cp_keyed : ∀ k r, k_checkpoints s !! k = Some r → cp_id r = k;
  cp_trimmed : ∀ k r, k_checkpoints s !! k = Some r → btrim (cp_key r) = cp_key r;
  cp_unique : ∀ k1 k2 r1 r2, k_checkpoints s !! k1 = Some r1 → k_checkpoints s !! k2 = Some r2 →
    cp_execution_id r1 = cp_execution_id r2 → cp_key r1 = cp_key r2 → r1 = r2;
}.

Lemma at_key_true ex key r : at_key ex key r = true ↔ cp_execution_id r = ex ∧ cp_key r = key.
Proof. unfold at_key. rewrite andb_true_iff, !bool_decide_eq_true. done. Qed.

Lemma visible_checkpoints_lookup c s k r :
  visible_checkpoints c s !! k = Some r ↔ k_checkpoints s !! k = Some r ∧ rls_allows c (cp_tenant r) = true.
Proof. unfold visible_checkpoints. by rewrite map_lookup_filter_Some. Qed.

Lemma find_checkpoint_Some c s ex key r :
  cp_wf s →
  find_checkpoint c s ex key = Some r ↔
  k_checkpoints s !! cp_id r = Some r ∧ rls_allows c (cp_tenant r) = true ∧
  cp_execution_id r = ex ∧ cp_key r = key.
Proof.
  intros Hwf. unfold find_checkpoint. split.
  - intros Hh. apply head_Some_elem_of in Hh. apply map_rows_spec in Hh as [Hat [k Hk]].
    apply visible_checkpoints_lookup in Hk as [Hk Hv]. apply at_key_true in Hat as [? ?].
    by rewrite (cp_keyed s Hwf _ _ Hk).
  - intros (Hk & Hv & Hex & Hkey).
    assert (r ∈ map_rows (at_key ex key) (visible_checkpoints c s)) as Hin.
    { apply map_rows_spec. split; [by apply at_key_true|]. exists (cp_id r). by apply visible_checkpoints_lookup. }
    destruct (map_rows _ _) as [|r' l] eqn:E; [by apply elem_of_nil in Hin|]. cbn.
    assert (r' ∈ map_rows (at_key ex key) (visible_checkpoints c s)) as Hin' by (rewrite E; left).
    apply map_rows_spec in Hin' as [Hat [k' Hk']]. apply visible_checkpoints_lookup in Hk' as [Hk' _].
    apply at_key_true in Hat as [? ?]. f_equal. eapply (cp_unique s Hwf); eauto; congruence.
Qed.

Definition fresh_row (c : session) (now : Z) (id task ex key : string) (hv : Z) (sum : string) (st : J)
    (done : bool) : cp_row J :=
  CpRow id task (default "" (current_tenant c)) ex (btrim key) hv sum st done 1 now now.

(** The two ways an upsert succeeds. *)
Definition on_existing c now id task ex key hv sum (st : J) (done : bool) exp s v s' r : Prop :=
  find_checkpoint c s ex key = Some r ∧ cp_id r = id ∧ cp_task_id r = task ∧ cp_handler_version r = hv ∧
  cp_input_checksum r = sum ∧
  ((cp_state r = st ∧ cp_completed r = done ∧ v = cp_version r ∧ s' = s) ∨
   (¬ (cp_state r = st ∧ cp_completed r = done) ∧ exp = Some (cp_version r) ∧ v = cp_version r + 1 ∧
    s' = put_checkpoint (cp_advance st done v now r) s)).

Definition on_fresh c now id task ex key hv sum (st : J) (done : bool) exp s v s' : Prop :=
  find_checkpoint c s ex key = None ∧ exp = (None : option Z) ∧ v = 1 ∧ is_Some (current_tenant c) ∧
  k_checkpoints s !! id = None ∧
  (∀ k r, k_checkpoints s !! k = Some r → at_key ex (btrim key) r = false) ∧
  (256 <? Z.of_nat (String.length (btrim key))) = false ∧
  s' = put_checkpoint (fresh_row c now id task ex key hv sum st done) s.

Definition valid_cursor (c : session) (id task ex key : string) (hv : Z) (sum : string) (st : J) s : bool :=
  negb (blank id || blank task || blank ex || blank key || (hv <=? 0) || negb (sha256_hex sum)
        || (65536 <? text_size st)) && execution_of_task c s ex task.

Lemma upsert_ok c now id task ex key hv sum st done exp s v s' :
  upsert c now id task ex key hv sum st done exp s = Ok (v, s') →
  valid_cursor c id task ex key hv sum st s = true ∧
  ((∃ r, on_existing c now id task ex key hv sum st done exp s v s' r) ∨
   on_fresh c now id task ex key hv sum st done exp s v s').
Proof.
  unfold upsert_checkpoint, kfail_if. intros H. txn_inv H. apply negb_false_iff in Hguard0.
  unfold valid_cursor. split; [by rewrite Hguard, Hguard0|].
  destruct (find_checkpoint c s ex key) as [r|] eqn:Ef; txn_inv H2.
  - left. exists r. unfold on_existing.
    destruct (bool_decide (cp_state r = st) && bool_decide (cp_completed r = done)) eqn:Esame;
      match goal with H : _ s = Ok (v, s') |- _ => txn_inv H end.
    + to_prop. subst. split_and!; try done. by left.
    + unfold bigint_succ in *. to_prop. subst. split_and!; try done. right.
      split; [|by split_and!]. intros [E1 E2]. by rewrite !bool_decide_true in Esame.
  - right. match goal with H : insert_checkpoint _ _ s = _ |- _ => rename H into Hi end.
    to_prop. unfold insert_checkpoint in Hi. unfold on_fresh, fresh_row.
    destruct (current_tenant c) as [tenant|]; [|discriminate]. cbn zeta in Hi.
    cbn [cp_id cp_key cp_execution_id cp_task_id cp_version] in Hi.
    destruct (_ || (256 <? _)) eqn:Ec in Hi; [discriminate|]. apply orb_false_iff in Ec as [_ Ec].
    destruct (_ || map_exists _ _) eqn:Eu in Hi; [discriminate|].
    destruct (_ && _) in Hi; [|discriminate]. injection Hi as <- <-. to_prop.
    split_and!; try done; first [by apply eq_None_not_Some | by apply map_exists_false | by apply Z.ltb_ge | eauto].
Qed.

Lemma put_wf r s :
  cp_wf s → btrim (cp_key r) = cp_key r →
  (∀ k o, k_checkpoints s !! k = Some o → k ≠ cp_id r → at_key (cp_execution_id r) (cp_key r) o = false) →
  cp_wf (put_checkpoint r s).
Proof.
  intros Hwf Htrim Hnew. unfold put_checkpoint. split; cbn.
  - intros k o. rewrite lookup_insert. case_decide; [by intros [= <-]|apply (cp_keyed s Hwf)].
  - intros k o. rewrite lookup_insert. case_decide; [by intros [= <-]|apply (cp_trimmed s Hwf)].
  - intros k1 k2 r1 r2. rewrite !lookup_insert. repeat case_decide; intros H1 H2 Hex Hkey; simplify_eq; try done.
    + specialize (Hnew k2 r2 H2 ltac:(done)). assert (at_key (cp_execution_id r1) (cp_key r1) r2 = true);
        [by apply at_key_true|congruence].
    + specialize (Hnew k1 r1 H1 ltac:(done)). assert (at_key (cp_execution_id r2) (cp_key r2) r1 = true);
        [by apply at_key_true|congruence].
    + by eapply (cp_unique s Hwf).
Qed.

Lemma advance_wf c s ex key r st done v now :
  cp_wf s → find_checkpoint c s ex key = Some r → cp_wf (put_checkpoint (cp_advance st done v now r) s).
Proof.
  intros Hwf Hf. apply find_checkpoint_Some in Hf as (Hk & _ & _ & _); [|done].
  apply put_wf; cbn; [done|by apply (cp_trimmed s Hwf _ _ Hk)|].
  intros k o Ho Hne. destruct (at_key _ _ o) eqn:E; [|done]. apply at_key_true in E as [? ?].
  assert (o = r) as -> by (eapply (cp_unique s Hwf); eauto). by rewrite (cp_keyed s Hwf _ _ Ho) in Hne.
Qed.

Lemma upsert_wf c now id task ex key hv sum st done exp s v s' :
  cp_wf s → upsert c now id task ex key hv sum st done exp s = Ok (v, s') → cp_wf s'.
Proof.
  intros Hwf H. apply upsert_ok in H as [_ [(r & Hf & _ & _ & _ & _ & Hc)|(_ & _ & _ & _ & _ & Hno & _ & ->)]].
  - destruct Hc as [(_ & _ & _ & ->)|(_ & _ & _ & ->)]; [done|by eapply advance_wf].
  - apply put_wf; cbn; [done|apply btrim_idemp|]. intros k o Ho _. by eapply Hno.
Qed.

Lemma delete_wf c ex s n s' : cp_wf s → delete_execution_checkpoints c ex s = Ok (n, s') → cp_wf s'.
Proof.
  intros Hwf H. unfold delete_execution_checkpoints, kfail_if in H. txn_inv H.
  split; cbn.
  - intros k r [Hk _]%map_lookup_filter_Some. by apply (cp_keyed s Hwf).
  - intros k r [Hk _]%map_lookup_filter_Some. by apply (cp_trimmed s Hwf k).
  - intros k1 k2 r1 r2 [H1 _]%map_lookup_filter_Some [H2 _]%map_lookup_filter_Some. by apply (cp_unique s Hwf k1 k2).
Qed.

Lemma find_put c r s :
  cp_wf (put_checkpoint r s) → rls_allows c (cp_tenant r) = true →
  find_checkpoint c (put_checkpoint r s) (cp_execution_id r) (cp_key r) = Some r.
Proof. intros Hwf Hv. apply find_checkpoint_Some; [done|]. cbn. by rewrite lookup_insert_eq. Qed.

(** Replaying the cursor that is stored changes nothing, whatever fence is sent. *)
Lemma upsert_replay c now id task ex key hv sum st done exp s r :
  valid_cursor c id task ex key hv sum st s = true → find_checkpoint c s ex key = Some r →
  cp_id r = id → cp_task_id r = task → cp_handler_version r = hv → cp_input_checksum r = sum →
  cp_state r = st → cp_completed r = done →
  upsert c now id task ex key hv sum st done exp s = Ok (cp_version r, s).
Proof.
  intros Hv Hf <- <- <- <- <- <-. unfold valid_cursor in Hv. to_prop.
  unfold upsert_checkpoint, tcatch, kfail_if, traise_if, tbind.
  repeat match goal with H : _ = false |- _ => rewrite H; clear H end. cbn [orb].
  replace (65536 <? text_size (cp_state r)) with false by (symmetry; by apply Z.ltb_ge).
  replace (cp_handler_version r <=? 0) with false by (symmetry; by apply Z.leb_gt).
  match goal with H : sha256_hex _ = true |- _ => rewrite H end.
  match goal with H : execution_of_task _ _ _ _ = true |- _ => unfold tret, tget; cbn; rewrite H end. cbn.
  rewrite Hf, Z.eqb_refl, !bool_decide_true by done. done.
Qed.

Lemma valid_cursor_put c id task ex key hv sum st s r :
  valid_cursor c id task ex key hv sum st (put_checkpoint r s) = valid_cursor c id task ex key hv sum st s.
Proof. done. Qed.

(** What a successful upsert leaves behind under a trimmed key. *)
Lemma upsert_stored c now id task ex key hv sum st done exp s v s' :
  cp_wf s → btrim key = key → upsert c now id task ex key hv sum st done exp s = Ok (v, s') →
  valid_cursor c id task ex key hv sum st s' = true ∧
  ∃ r, find_checkpoint c s' ex key = Some r ∧ cp_id r = id ∧ cp_task_id r = task ∧ cp_handler_version r = hv ∧
    cp_input_checksum r = sum ∧ cp_state r = st ∧ cp_completed r = done ∧ cp_version r = v.
Proof.
  intros Hwf Htrim H. pose proof (upsert_wf _ _ _ _ _ _ _ _ _ _ _ _ _ _ Hwf H) as Hwf'.
  apply upsert_ok in H as [Hv [(r & Hf & Hid & Ht & Hh & Hs & Hc)|(Hf & -> & -> & [tenant Hten] & _ & _ & _ & ->)]].
  - destruct Hc as [(? & ? & -> & ->)|(_ & _ & -> & ->)]; [split; [done|]; by exists r|].
    split; [done|]. exists (cp_advance st done (cp_version r + 1) now r).
    apply find_checkpoint_Some in Hf as (Hk & Hvis & <- & <-); [|done].
    split; [exact (find_put c _ s Hwf' Hvis)|done].
  - split; [done|]. exists (fresh_row c now id task ex key hv sum st done). split; [|done].
    rewrite <-Htrim at 2. apply (find_put c _ s Hwf'). cbn. rewrite Hten. cbn. unfold rls_allows.
    rewrite Hten, (bool_decide_true (Some tenant = Some tenant)) by done. by rewrite !orb_true_r.
Qed.

(** ** Fencing across histories *)

Inductive kcommand : Type :=
| KUpsert (id task ex key : string) (hv : Z) (sum : string) (st : J) (done : bool) (exp : option Z)
| KDelete (ex : string).

Record kevent := KEvent { ke_session : session; ke_now : Z; ke_command : kcommand }.

Definition run_kevent (ev : kevent) s : kdb J :=
  match ke_command ev with
  | KUpsert id task ex key hv sum st done exp =>
      match upsert (ke_session ev) (ke_now ev) id task ex key hv sum st done exp s with
      | Ok (_, s') => s' | Err _ => s
      end
  | KDelete ex => match delete_execution_checkpoints (ke_session ev) ex s with Ok (_, s') => s' | Err _ => s end
  end.

Definition run_khistory (h : list kevent) s : kdb J := foldl (λ s ev, run_kevent ev s) s h.

Definition clears (ex : string) (ev : kevent) : bool :=
  match ke_command ev with KDelete e => bool_decide (e = ex) | _ => false end.

Definition advanced (r r' : cp_row J) : Prop :=
  r' = r ∨ (cp_version r < cp_version r' ∧ cp_id r' = cp_id r ∧ cp_tenant r' = cp_tenant r ∧
            cp_execution_id r' = cp_execution_id r ∧ cp_key r' = cp_key r).

Lemma run_kevent_advanced ev s r :
  cp_wf s → k_checkpoints s !! cp_id r = Some r → clears (cp_execution_id r) ev = false →
  cp_wf (run_kevent ev s) ∧ ∃ r', k_checkpoints (run_kevent ev s) !! cp_id r = Some r' ∧ advanced r r'.
Proof.
  intros Hwf Hk Hno. assert (∃ r', k_checkpoints s !! cp_id r = Some r' ∧ advanced r r') as Hsame by (exists r; by split; [|left]).
  destruct ev as [c now [id task ex key hv sum st done exp|ex]]; unfold run_kevent; cbn in *.
  - destruct (upsert c now id task ex key hv sum st done exp s) as [[v s']|] eqn:E; [|done].
    split; [by eapply upsert_wf|].
    apply upsert_ok in E as [_ [(o & Hf & _ & _ & _ & _ & Hc)|(_ & _ & _ & _ & Hfree & _ & _ & ->)]].
    + destruct Hc as [(_ & _ & _ & ->)|(_ & _ & -> & ->)]; [done|].
      apply find_checkpoint_Some in Hf as (Ho & _ & _ & _); [|done]. cbn.
      destruct (decide (cp_id o = cp_id r)) as [Eid|]; [|by rewrite lookup_insert_ne].
      assert (o = r) as -> by congruence. rewrite lookup_insert_eq. eexists. split; [done|].
      right. cbn. split_and!; (done || lia).
    + cbn. rewrite lookup_insert_ne; [done|]. intros ->. congruence.
  - destruct (delete_execution_checkpoints c ex s) as [[n s']|] eqn:E; [|done].
    split; [by eapply delete_wf|]. unfold delete_execution_checkpoints, kfail_if in E. txn_inv E. cbn.
    exists r. split; [|by left]. apply map_lookup_filter_Some. split; [done|]. cbn. to_prop.
    by rewrite bool_decide_false.
Qed.

Lemma advanced_trans r1 r2 r3 : advanced r1 r2 → advanced r2 r3 → advanced r1 r3.
Proof.
  intros [->|(? & ? & ? & ? & ?)] [->|(? & ? & ? & ? & ?)]; unfold advanced; try tauto; right; split_and!;
    (lia || congruence || done).
Qed.

Lemma run_khistory_advanced h s r :
  cp_wf s → k_checkpoints s !! cp_id r = Some r → Forall (λ ev, clears (cp_execution_id r) ev = false) h →
  cp_wf (run_khistory h s) ∧ ∃ r', k_checkpoints (run_khistory h s) !! cp_id r = Some r' ∧ advanced r r'.
Proof.
  intros Hwf Hk Hall. revert s r Hwf Hk Hall. induction h as [|ev h IH]; intros s r Hwf Hk Hall.
  { split; [done|]. exists r. by split; [|left]. }
  apply Forall_cons in Hall as [Hev Hall]. destruct (run_kevent_advanced ev s r Hwf Hk Hev) as (Hwf1 & r1 & Hk1 & Ha).
  assert (cp_id r1 = cp_id r ∧ cp_execution_id r1 = cp_execution_id r) as [Eid Eex]
    by (destruct Ha as [->|(_ & -> & _ & -> & _)]; done).
  rewrite <-Eex in Hall. rewrite <-Eid in Hk1.
  destruct (IH (run_kevent ev s) r1 Hwf1 Hk1 Hall) as (Hwf2 & r2 & Hk2 & Ha2).
  split; [done|]. exists r2. rewrite Eid in Hk2. split; [done|]. by eapply advanced_trans.
Qed.

(** The version of a checkpoint is a fence against lost updates: along any
    history of saves by any sessions (and clears of other Executions) a stored
    cursor either stays exactly as it is or moves to a strictly larger version,
    and at every later point a save succeeds only by repeating the stored
    cursor, changing nothing, or by naming the version that is stored, which it
    raises by one; a writer that still holds an older version never
    overwrites. *)
Theorem checkpoint_version_fence : ∀ c s ex key r h,
  cp_wf s → find_checkpoint c s ex key = Some r → Forall (λ ev, clears ex ev = false) h →
  ∃ r', find_checkpoint c (run_khistory h s) ex key = Some r' ∧ (r' = r ∨ cp_version r < cp_version r') ∧
  ∀ now id task hv sum st done exp v s',
    upsert c now id task ex key hv sum st done exp (run_khistory h s) = Ok (v, s') →
    (cp_state r' = st ∧ cp_completed r' = done ∧ v = cp_version r' ∧ s' = run_khistory h s) ∨
    (exp = Some (cp_version r') ∧ v = cp_version r' + 1).
Proof.
  intros c s ex key r h Hwf Hf Hall. apply find_checkpoint_Some in Hf as (Hk & Hvis & <- & <-); [|done].
  destruct (run_khistory_advanced h s r Hwf Hk Hall) as (Hwf' & r' & Hk' & Ha).
  assert (find_checkpoint c (run_khistory h s) (cp_execution_id r) (cp_key r) = Some r') as Hf'.
  { apply find_checkpoint_Some; [done|]. destruct Ha as [->|(_ & -> & -> & -> & ->)]; done. }
  exists r'. split; [done|]. split; [destruct Ha as [|[]]; tauto|].
  intros now id task hv sum st done exp v s' H. apply upsert_ok in H as [_ [(o & Ho & _ & _ & _ & _ & Hc)|(Hn & _)]].
  - assert (o = r') as -> by congruence. destruct Hc as [|(_ & ? & ? & _)]; tauto.
  - congruence.
Qed.

(** ** The client *)

Section client.
Context (encode : J → string) (parse : string → J) (sha256 : string → string).

Notation save := (saveTaskCheckpoint text_size encode parse sha256).
Notation statement := (save_statement text_size encode parse sha256).

Definition valid_save (ex key : string) (rq : TaskCheckpointSaveRequest J) : bool :=
  negb (js_blank ex || js_blank key || js_blank (kr_taskId rq) || (kr_handlerVersion rq <? 1)
        || (MAX_SAFE_INTEGER <? kr_handlerVersion rq) || negb (sha256_hex (kr_inputChecksum rq)))
  && negb (256 <? Z.of_nat (String.length key))
  && negb (match kr_expectedVersion rq with Some v => (v <? 1) || (MAX_SAFE_INTEGER <? v) | None => false end)
  && negb (65536 <? Z.of_nat (String.length (encode (kr_state rq)))).

(** The same request with another fence. *)
Definition with_fence (exp : option Z) (rq : TaskCheckpointSaveRequest J) : TaskCheckpointSaveRequest J :=
  {| kr_taskId := kr_taskId rq; kr_handlerVersion := kr_handlerVersion rq; kr_inputChecksum := kr_inputChecksum rq;
     kr_state := kr_state rq; kr_completed := kr_completed rq; kr_expectedVersion := exp |}.

Lemma save_run c now ex key rq s :
  save c now ex key rq s =
  if valid_save ex key rq then
    match statement c now ex key rq s with
    | Ok (_, s') => match find_checkpoint c s' ex key with
                    | Some r => (Ok (mapCheckpoint r), s')
                    | None => (Err (RhinoQError "RHINOQ_CHECKPOINT_NOT_FOUND" false None), s')
                    end
    | Err e => (Err (mapDatabaseError e), s)
    end
  else ((save c now ex key rq s).1, s) .
Proof.
  unfold saveTaskCheckpoint, validateCheckpointRequest, getTaskCheckpoint, valid_save, abind, athrow_if, astatement.
  destruct (js_blank ex) eqn:B1; [done|]. destruct (js_blank key) eqn:B2; [done|]. cbn [orb].
  repeat match goal with |- context [if ?b then athrow _ else aret _] => destruct b; cbn [negb andb aret athrow]; try done end.
  unfold aret, athrow. destruct (statement c now ex key rq s) as [[v s']|e]; [|done].
  by destruct (find_checkpoint c s' ex key).
Qed.

Lemma invalid_save_err c now ex key rq s ck :
  valid_save ex key rq = false → (save c now ex key rq s).1 ≠ Ok ck.
Proof.
  unfold saveTaskCheckpoint, validateCheckpointRequest, valid_save, abind, athrow_if.
  repeat match goal with |- context [if ?b then athrow _ else aret _] => destruct b; cbn [negb andb]; try done end.
Qed.

Lemma statement_ok c now ex key rq s v s' :
  statement c now ex key rq s = Ok (v, s') →
  (INT4_MAX <? kr_handlerVersion rq) = false ∧
  upsert c now (checkpoint_id sha256 (kr_taskId rq) ex key) (kr_taskId rq) ex key (kr_handlerVersion rq)
    (kr_inputChecksum rq) (parse (encode (kr_state rq))) (bool_decide (kr_completed rq = Some true))
    (kr_expectedVersion rq) s = Ok (v, s').
Proof. unfold save_statement. intros H. txn_inv H. done. Qed.

Lemma save_wf c now ex key rq s : cp_wf s → cp_wf (save c now ex key rq s).2.
Proof.
  intros Hwf. rewrite save_run. destruct (valid_save ex key rq); [|done].
  destruct (statement c now ex key rq s) as [[v s1]|] eqn:Es; [|done].
  apply statement_ok in Es as [_ Es]. apply upsert_wf in Es; [|done].
  destruct (find_checkpoint c s1 ex key); exact Es.
Qed.

Lemma untrimmed_not_found c s ex key : cp_wf s → btrim key ≠ key → find_checkpoint c s ex key = None.
Proof.
  intros Hwf Hne. destruct (find_checkpoint c s ex key) as [r|] eqn:E; [|done].
  apply find_checkpoint_Some in E as (Hk & _ & _ & <-); [|done]. by apply (cp_trimmed s Hwf) in Hk.
Qed.

(** Round trip and safe replay: a save that returns hands back exactly the
    cursor it was given, a load returns the same checkpoint, and repeating the
    same save later - as after a lost response, with any or no version fence -
    returns that checkpoint again and leaves the store untouched. *)
Theorem saved_checkpoint_roundtrip : ∀ c now ex key rq s ck s',
  cp_wf s → save c now ex key rq s = (Ok ck, s') →
  (ck_taskId ck = kr_taskId rq ∧ ck_executionId ck = ex ∧ ck_key ck = key ∧
   ck_handlerVersion ck = kr_handlerVersion rq ∧ ck_inputChecksum ck = kr_inputChecksum rq ∧
   ck_state ck = parse (encode (kr_state rq)) ∧ ck_completed ck = bool_decide (kr_completed rq = Some true)) ∧
  getTaskCheckpoint c ex key s' = (Ok (Some ck), s') ∧
  ∀ now' exp, (∀ v, exp = Some v → 1 ≤ v ≤ MAX_SAFE_INTEGER) → save c now' ex key (with_fence exp rq) s' = (Ok ck, s').
Proof.
  intros c now ex key rq s ck s' Hwf H. pose proof H as H0. rewrite save_run in H.
  destruct (valid_save ex key rq) eqn:Ev; [|injection H as H _; by apply invalid_save_err in H].
  destruct (statement c now ex key rq s) as [[v s1]|] eqn:Es; [|discriminate].
  destruct (find_checkpoint c s1 ex key) as [r|] eqn:Ef; [|discriminate]. injection H as <- <-.
  apply statement_ok in Es as [Hint Es]. pose proof (upsert_wf _ _ _ _ _ _ _ _ _ _ _ _ _ _ Hwf Es) as Hwf1.
  destruct (decide (btrim key = key)) as [Htrim|Hne]; [|by rewrite (untrimmed_not_found c s1 ex key Hwf1 Hne) in Ef].
  destruct (upsert_stored _ _ _ _ _ _ _ _ _ _ _ _ _ _ Hwf Htrim Es) as (Hv & r' & Hf & Hid & Ht & Hh & Hs & Hst & Hd & _).
  assert (r' = r) as -> by congruence. pose proof Ef as Hl. apply find_checkpoint_Some in Hl as (_ & _ & Hex & Hkey); [|done].
  split; [by cbn; rewrite Ht, Hh, Hs, Hst, Hd|]. split.
  - unfold valid_save in Ev. to_prop. unfold getTaskCheckpoint, abind, athrow_if.
    repeat match goal with H : js_blank _ = false |- _ => rewrite H end. unfold aret. cbn. by rewrite Ef.
  - intros now' exp Hexp. rewrite save_run.
    assert (valid_save ex key (with_fence exp rq) = true) as ->.
    { unfold valid_save in *. to_prop. cbn.
      repeat match goal with H : ?b = false |- _ => rewrite H; clear H end.
      repeat match goal with H : sha256_hex _ = true |- _ => rewrite H; clear H end.
      repeat match goal with H : (_ ≤ _)%Z |- _ => apply Z.ltb_ge in H; rewrite H; clear H end.
      destruct exp as [v'|]; [|done]. destruct (Hexp v' eq_refl) as [E1 E2].
      cbn. by rewrite (proj2 (Z.ltb_ge _ _) E1), (proj2 (Z.ltb_ge _ _) E2). }
    unfold save_statement, tbind, traise_if. cbn [kr_handlerVersion with_fence]. rewrite Hint. cbn [tret].
    unfold tret. rewrite (upsert_replay c now' _ _ _ _ _ _ _ _ _ s1 r) by done. by rewrite Ef.
Qed.

(** A key with leading or trailing blanks breaks the checkpoint: the lookup
    compares the key as given while the insert stores it trimmed, and the client
    accepts such a key. The first save commits a row and then rejects with
    RHINOQ_CHECKPOINT_NOT_FOUND; every repetition rejects with
    RHINOQ_CHECKPOINT_ALREADY_EXISTS, although an exact replay after a lost
    response is documented to be idempotent. *)
Theorem padded_key_never_saves : ∀ c now ex key rq s v s',
  cp_wf s → btrim key ≠ key → valid_save ex key rq = true → statement c now ex key rq s = Ok (v, s') →
  save c now ex key rq s = (Err (RhinoQError "RHINOQ_CHECKPOINT_NOT_FOUND" false None), s') ∧
  k_checkpoints s' ≠ k_checkpoints s ∧
  ∀ now', save c now' ex key rq s' = (Err (taskError "RHINOQ_CHECKPOINT_ALREADY_EXISTS"), s').
Proof.
  intros c now ex key rq s v s' Hwf Hne Hvalid Hs. pose proof (statement_ok _ _ _ _ _ _ _ _ Hs) as [Hint Hu].
  pose proof (upsert_wf _ _ _ _ _ _ _ _ _ _ _ _ _ _ Hwf Hu) as Hwf'.
  pose proof (untrimmed_not_found c s' ex key Hwf' Hne) as Hnf.
  split; [by rewrite save_run, Hvalid, Hs, Hnf|].
  apply upsert_ok in Hu as [Hv [(r & Hf & _)|(_ & Hexp & _ & [tenant Hten] & Hfree & _ & Hlen & ->)]].
  { by rewrite (untrimmed_not_found c s ex key Hwf Hne) in Hf. }
  split.
  { intros Heq. cbn in Heq. rewrite <-Heq, lookup_insert_eq in Hfree. done. }
  intros now'. rewrite save_run, Hvalid. unfold save_statement, tbind, traise_if. rewrite Hint. unfold tret.
  unfold valid_cursor in Hv. apply andb_true_iff in Hv as [Hg Hx]. apply negb_true_iff in Hg.
  unfold upsert_checkpoint, tcatch, kfail_if, traise_if, tbind. rewrite Hg. unfold tret, tget.
  rewrite (Hx : execution_of_task c (put_checkpoint _ s) _ _ = true). cbn [negb]. rewrite Hnf, Hexp. cbn [is_Some].
  rewrite (bool_decide_false (is_Some None)) by (intros [? ?]; done).
  unfold insert_checkpoint. rewrite Hten. cbn [cp_id cp_key cp_execution_id cp_task_id].
  repeat apply orb_false_iff in Hg as [Hg ?]. rewrite Hlen.
  assert (blank (btrim key) = false) as -> by (unfold blank in *; by rewrite btrim_idemp). rewrite Hg. cbn [orb].
  rewrite bool_decide_true by (cbn; rewrite lookup_insert_eq; eauto). done.
Qed.
End client.
End facts.

(** ** A concrete cursor *)

Lemma run_khistory_nil {J} `{!EqDecision J} size (s : kdb J) : run_khistory size [] s = s.
Proof. reflexivity. Qed.

Definition checksum : string := "0123456789abcdef0123456789abcdef0123456789abcdef0123456789abcdef".

Definition cursor_request (state : string) (exp : option Z) : TaskCheckpointSaveRequest string :=
  {| kr_taskId := "t1"; kr_handlerVersion := 1; kr_inputChecksum := checksum; kr_state := state;
     kr_completed := None; kr_expectedVersion := exp |}.

Definition demo_size (s : string) : Z := Z.of_nat (String.length s).

(** The JSON text of a string stands for the string; the digest is a constant. *)
Definition demo_save := saveTaskCheckpoint (J:=string) demo_size id id (λ _, checksum) demo_session.

Definition no_checkpoints : kdb string := Kdb demo_db ∅.

Lemma no_checkpoints_wf : cp_wf no_checkpoints.
Proof.
  split; intros *; unfold no_checkpoints; cbn [k_checkpoints]; by rewrite lookup_empty.
Qed.

Definition saved_db (key : string) : kdb string := (demo_save 10 "e1" key (cursor_request "page-1" None) no_checkpoints).2.

Lemma saved_checkpoint_roundtrip_witness :
  ∃ ck, demo_save 10 "e1" "cursor" (cursor_request "page-1" None) no_checkpoints = (Ok ck, saved_db "cursor") ∧
    demo_save 99 "e1" "cursor" (cursor_request "page-1" (Some 5)) (saved_db "cursor") = (Ok ck, saved_db "cursor").
Proof.
  destruct (demo_save 10 "e1" "cursor" (cursor_request "page-1" None) no_checkpoints) as [[ck|e] s'] eqn:E;
    [|by vm_compute in E].
  assert (saved_db "cursor" = s') as -> by (unfold saved_db; by rewrite E).
  exists ck. split; [done|].
  destruct (saved_checkpoint_roundtrip (J:=string) demo_size id id (λ _, checksum) demo_session 10 "e1" "cursor"
    (cursor_request "page-1" None) no_checkpoints ck s' no_checkpoints_wf E) as (_ & _ & H).
  apply (H 99 (Some 5)). intros v [= <-]. unfold MAX_SAFE_INTEGER. lia.
Defined.

Lemma checkpoint_version_fence_witness :
  ∃ r, find_checkpoint demo_session (saved_db "cursor") "e1" "cursor" = Some r ∧
    ∀ v s', upsert_checkpoint demo_size demo_session 30 (cp_id r) "t1" "e1" "cursor" 1 checksum "page-9" false
      (Some 7) (run_khistory demo_size [] (saved_db "cursor")) ≠ Ok (v, s').
Proof.
  destruct (find_checkpoint demo_session (saved_db "cursor") "e1" "cursor") as [r|] eqn:E; [|by vm_compute in E].
  exists r. split; [done|].
  assert (cp_wf (saved_db "cursor")) as Hwf.
  { apply save_wf, no_checkpoints_wf. }
  destruct (checkpoint_version_fence demo_size demo_session (saved_db "cursor") "e1" "cursor" r [] Hwf E
    (Forall_nil_2 _)) as (r' & Hf & _ & H).
  assert (r' = r) as -> by (rewrite run_khistory_nil, E in Hf; by injection Hf).
  intros v s' Hup. apply H in Hup. vm_compute in E. injection E as <-.
  destruct Hup as [(Hst & _)|(Hv & _)]; [vm_compute in Hst|vm_compute in Hv]; discriminate.
Defined.

Lemma padded_key_never_saves_witness :
  demo_save 10 "e1" " cursor" (cursor_request "page-1" None) no_checkpoints
    = (Err (RhinoQError "RHINOQ_CHECKPOINT_NOT_FOUND" false None), saved_db " cursor") ∧
  demo_save 20 "e1" " cursor" (cursor_request "page-1" None) (saved_db " cursor")
    = (Err (taskError "RHINOQ_CHECKPOINT_ALREADY_EXISTS"), saved_db " cursor").
Proof.
  destruct (save_statement demo_size id id (λ _, checksum) demo_session 10 "e1" " cursor"
    (cursor_request "page-1" None) no_checkpoints) as [[v s']|] eqn:E; [|by vm_compute in E].
  destruct (padded_key_never_saves (J:=string) demo_size id id (λ _, checksum) demo_session 10 "e1" " cursor"
    (cursor_request "page-1" None) no_checkpoints v s' no_checkpoints_wf) as (H1 & _ & H2).
  - vm_compute. discriminate.
  - vm_compute. reflexivity.
  - exact E.
  - assert (saved_db " cursor" = s') as -> by (unfold saved_db, demo_save; by rewrite H1).
    split; [exact H1|apply H2].
Defined.
