(* ===== verification/DurableSteps.v ===== *)
(** * Durable steps: the tables and their commands

    Migrations 19 and 21 ([postgres/durable-step-schema.ts],
    [postgres/durable-step-cancel-schema.ts]): the tables [durable_steps] and
    [durable_step_attempts] and the five SQL functions on them. A step is leased
    to one worker at a time under an epoch; a worker that lost its lease is
    fenced; a completed step is reused without running its handler again. *)

From stdpp Require Import base gmap strings list fin_maps sorting pretty.
From Stdlib Require Import Ascii ZArith Lia.
From S2P Require Import Prelude TaskModel StoreSteps TaskClient SharedStore.

Open Scope txn_scope.

Inductive step_state := SPending | SRunning | SCompleted | SFailed | SCancelled.
Inductive attempt_state := ARunning | ACompleted | AFailed | ACancelled | AExpired.

#[export] Instance step_state_eq_dec : EqDecision step_state.
Proof. solve_decision. Defined.
#[export] Instance attempt_state_eq_dec : EqDecision attempt_state.
Proof. solve_decision. Defined.

Section steps.
(** [R] is the type of jsonb results and [text_size] the length in bytes of the
    text PostgreSQL prints for one. *)
Context {R : Type} `{!EqDecision R} (text_size : R → Z).

Record ds_row := DsRow {
  ds_id : string; ds_tenant : string; ds_task_id : string; ds_execution_id : string;
  ds_item_key : string; ds_step_key : string; ds_task_version : Z; ds_step_version : Z;
  ds_state : step_state; ds_result : option R; ds_result_ref : option string;
  ds_failure_reason : option string; ds_attempt : Z; ds_version : Z;
  ds_created_at : Z; ds_updated_at : Z; ds_completed_at : option Z;
}.

Record da_row := DaRow {
  da_id : string; da_tenant : string; da_step_id : string; da_execution_id : string;
  da_attempt : Z; da_state : attempt_state; da_owner : string; da_epoch : Z; da_until : Z;
  da_failure_reason : option string; da_created_at : Z; da_updated_at : Z; da_completed_at : option Z;
}.

#[export] Instance ds_row_eq_dec : EqDecision ds_row.
Proof. solve_decision. Defined.
#[export] Instance da_row_eq_dec : EqDecision da_row.
Proof. solve_decision. Defined.

Record ddb := Ddb { d_tasks : db; d_steps : gmap string ds_row; d_attempts : gmap string da_row }.

Definition dsql (A : Type) : Type := txn ddb sql_error A.

Definition dfail_if (b : bool) (code : string) : dsql unit := traise_if b (Raise code).

(** A statement on the Task tables. *)
Definition d_on_tasks {A} (m : sql A) : dsql A :=
  λ s, match m (d_tasks s) with
       | Ok (a, d) => Ok (a, Ddb d (d_steps s) (d_attempts s))
       | Err e => Err e
       end.

Definition visible_steps (c : session) (s : ddb) : gmap string ds_row :=
  filter (λ kv, rls_allows c (ds_tenant kv.2) = true) (d_steps s).

Definition visible_attempts (c : session) (s : ddb) : gmap string da_row :=
  filter (λ kv, rls_allows c (da_tenant kv.2) = true) (d_attempts s).

Definition put_step (v : ds_row) (s : ddb) : ddb := Ddb (d_tasks s) (<[ds_id v := v]> (d_steps s)) (d_attempts s).
Definition put_attempt (a : da_row) (s : ddb) : ddb := Ddb (d_tasks s) (d_steps s) (<[da_id a := a]> (d_attempts s)).

(** ** Column updates *)

(** [SET state = .., updated_at = now, completed_at = now] on an attempt, with
    the failure reason when one is given. *)
Definition da_settle (st : attempt_state) (reason : option string) (now : Z) (a : da_row) : da_row :=
  DaRow (da_id a) (da_tenant a) (da_step_id a) (da_execution_id a) (da_attempt a) st (da_owner a) (da_epoch a)
    (da_until a) (match reason with Some r => Some r | None => da_failure_reason a end) (da_created_at a) now (Some now).

Definition da_extend (until now : Z) (a : da_row) : da_row :=
  DaRow (da_id a) (da_tenant a) (da_step_id a) (da_execution_id a) (da_attempt a) (da_state a) (da_owner a)
    (da_epoch a) until (da_failure_reason a) (da_created_at a) now (da_completed_at a).

(** The UPDATE of a step that starts another attempt. *)
Definition ds_restart (execution_id : string) (attempt version now : Z) (v : ds_row) : ds_row :=
  DsRow (ds_id v) (ds_tenant v) (ds_task_id v) execution_id (ds_item_key v) (ds_step_key v) (ds_task_version v)
    (ds_step_version v) SRunning (ds_result v) (ds_result_ref v) None attempt version (ds_created_at v) now None.

Definition ds_complete (r : R) (ref : option string) (version now : Z) (v : ds_row) : ds_row :=
  DsRow (ds_id v) (ds_tenant v) (ds_task_id v) (ds_execution_id v) (ds_item_key v) (ds_step_key v)
    (ds_task_version v) (ds_step_version v) SCompleted (Some r) ref None (ds_attempt v) version
    (ds_created_at v) now (Some now).

(** The UPDATE of [fail_durable_step] leaves [completed_at] alone, the one of
    [cancel_durable_step] sets it. *)
Definition ds_stop (st : step_state) (reason : string) (version now : Z) (completed : option Z) (v : ds_row) : ds_row :=
  DsRow (ds_id v) (ds_tenant v) (ds_task_id v) (ds_execution_id v) (ds_item_key v) (ds_step_key v)
    (ds_task_version v) (ds_step_version v) st (ds_result v) (ds_result_ref v) (Some reason) (ds_attempt v) version
    (ds_created_at v) now completed.

(** ** [acquire_durable_step] *)

(** The unique key (task_id, item_key, step_key). *)
Definition at_step (task_id item_key step_key : string) (v : ds_row) : bool :=
  bool_decide (ds_task_id v = task_id) && bool_decide (ds_item_key v = item_key)
  && bool_decide (ds_step_key v = step_key).

Definition find_step (c : session) (s : ddb) (task_id item_key step_key : string) : option ds_row :=
  head (map_rows (at_step task_id item_key step_key) (visible_steps c s)).

(** [ORDER BY attempt DESC LIMIT 1] *)
Definition newest (a b : da_row) : Prop := (da_attempt b <=? da_attempt a) = true.
#[export] Instance newest_dec : RelDecision newest.
Proof. intros a b. unfold newest. apply _. Defined.

Definition of_step (id : string) (a : da_row) : bool := bool_decide (da_step_id a = id).

Definition latest_attempt (c : session) (s : ddb) (id : string) : option da_row :=
  head (merge_sort newest (map_rows (of_step id) (visible_attempts c s))).

Inductive acquire_action := ActAcquired | ActReused.

Record acquire_row := AcquireRow { aq_action : acquire_action; aq_step : ds_row; aq_attempt : option da_row }.

Definition insert_step (v : ds_row) : dsql ds_row :=
  λ s, if bool_decide (is_Some (d_steps s !! ds_id v))
          || map_exists (at_step (ds_task_id v) (ds_item_key v) (ds_step_key v)) (d_steps s)
       then Err UNIQUE_VIOLATION else Ok (v, put_step v s).

Definition insert_attempt (a : da_row) : dsql da_row :=
  λ s, if bool_decide (is_Some (d_attempts s !! da_id a))
          || map_exists (λ o, of_step (da_step_id a) o && (da_attempt o =? da_attempt a)) (d_attempts s)
       then Err UNIQUE_VIOLATION else Ok (a, put_attempt a s).

(** [id || ':attempt:' || n::text] *)
Definition attempt_id (id : string) (n : Z) : string := (id +:+ ":attempt:" +:+ pretty n)%string.

Definition new_attempt (id tenant step_id execution_id owner : string) (n epoch until now : Z) : da_row :=
  DaRow id tenant step_id execution_id n ARunning owner epoch until None now now None.

(** [EXCEPTION WHEN unique_violation THEN ...] *)
Definition step_id_conflict (e : sql_error) : sql_error :=
  if bool_decide (e = UNIQUE_VIOLATION) then Raise "RHINOQ_DURABLE_STEP_ID_CONFLICT" else e.

(** The SELECT of the Task's attempt, with the item it must be about. *)
Definition step_execution (c : session) (s : ddb) (execution_id task_id item_key tenant : string) : bool :=
  match visible_executions c (d_tasks s) !! execution_id with
  | Some e => bool_decide (e_task_id e = task_id) && bool_decide (e_item_key e = item_key)
              && bool_decide (e_tenant e = tenant)
  | None => false
  end.

(** What [acquire_durable_step] returns, and the columns of the tables it updates. *)
Definition acquire_columns : list string :=
  ["action"; "id"; "task_id"; "execution_id"; "item_key"; "step_key"; "task_version"; "step_version"; "state"; "result"; "result_ref";
   "failure_reason"; "attempt"; "version"; "created_at"; "updated_at"; "completed_at"; "attempt_id"; "lease_owner"; "lease_epoch"; "lease_until"].
Definition durable_steps_columns : list string :=
  ["id"; "tenant_id"; "task_id"; "execution_id"; "item_key"; "step_key"; "task_version"; "step_version"; "state"; "result"; "result_ref";
   "failure_reason"; "attempt"; "version"; "created_at"; "updated_at"; "completed_at"].
Definition durable_step_attempts_columns : list string :=
  ["id"; "tenant_id"; "step_id"; "execution_id"; "attempt"; "state"; "lease_owner"; "lease_epoch"; "lease_until"; "failure_reason";
   "created_at"; "updated_at"; "completed_at"].
Definition tasks_columns : list string :=
  ["id"; "type"; "owner_id"; "definition_version"; "state"; "progress_completed"; "progress_total"; "progress_message"; "result_ref";
   "cancellation_status"; "cancellation_reason"; "version"; "created_at"; "updated_at"; "execution_total"; "execution_pending_dispatch";
   "execution_dispatched"; "execution_running"; "execution_succeeded"; "execution_failed"; "execution_stalled"; "execution_cancelled";
   "items_settled_at"; "tenant_id"].

(** [WHERE id = v_previous.id]; [version = version + 1 .. WHERE id = v_step.id];
    [version = version + 1 .. WHERE tasks.id = p_task_id] *)
Definition expire_names : statement_names := Names acquire_columns durable_step_attempts_columns ["id"].
Definition restart_names : statement_names := Names acquire_columns durable_steps_columns ["version"; "id"].
Definition bump_names : statement_names := Names acquire_columns tasks_columns ["version"].

(** The branch of a step that is stored: the attempt it starts, after marking
    an overdue one as expired. *)
Definition restart_step (c : session) (vc : variable_conflict) (now : Z) (p_execution_id p_lease_owner : string)
    (p_lease_ms p_max_attempts : Z) (tenant : string) (v : ds_row) : dsql (ds_row * da_row) :=
  let* s := tget in
  let previous := latest_attempt c s (ds_id v) in
  dfail_if (match previous with
            | Some a => bool_decide (da_state a = ARunning) && (now <? da_until a)
            | None => false
            end) "RHINOQ_DURABLE_STEP_LEASE_HELD" ;;
  dfail_if (p_max_attempts <=? ds_attempt v) "RHINOQ_DURABLE_STEP_RETRY_EXHAUSTED" ;;
  match previous with
  | Some a =>
      if bool_decide (da_state a = ARunning)
      then ambiguous expire_names vc (tret tt) (tput (put_attempt (da_settle AExpired None now a) s))
      else tret tt
  | None => tret tt
  end ;;
  let* n := tlift (integer_succ (ds_attempt v)) in
  ambiguous restart_names vc (traise NOT_NULL_VIOLATION) (
    let* version := tlift (bigint_succ (ds_version v)) in
    let v' := ds_restart p_execution_id n version now v in
    let* s1 := tget in
    tput (put_step v' s1) ;;
    let* epoch := tlift (bigint_succ (match previous with Some a => da_epoch a | None => 0 end)) in
    let* a := insert_attempt (new_attempt (attempt_id (ds_id v) n) tenant (ds_id v) p_execution_id
      (btrim p_lease_owner) n epoch (now + p_lease_ms) now) in
    tret (v', a)).

Definition start_step (now : Z) (p_id p_task_id p_execution_id item_key step_key : string)
    (p_task_version p_step_version : Z) (p_lease_owner : string) (p_lease_ms : Z) (tenant : string)
    : dsql (ds_row * da_row) :=
  let* v := insert_step (DsRow p_id tenant p_task_id p_execution_id item_key step_key p_task_version
    p_step_version SRunning None None None 1 1 now now None) in
  let* a := insert_attempt (new_attempt (attempt_id p_id 1) tenant p_id p_execution_id (btrim p_lease_owner)
    1 1 (now + p_lease_ms) now) in
  tret (v, a).

(** The first guard, on the trimmed keys. *)
Definition invalid_acquire (p_id p_task_id p_execution_id item_key : string) (p_task_version : Z) (step_key : string)
    (p_step_version : Z) (p_lease_owner : string) (p_lease_ms p_max_attempts : Z) : bool :=
  blank p_id || blank p_task_id || blank p_execution_id
  || bool_decide (item_key = "") || bool_decide (step_key = "")
  || (256 <? Z.of_nat (String.length item_key)) || (256 <? Z.of_nat (String.length step_key))
  || (p_task_version <? 1) || (p_step_version <? 1) || blank p_lease_owner
  || (p_lease_ms <? 1000) || (3600000 <? p_lease_ms)
  || (p_max_attempts <? 1) || (100 <? p_max_attempts).

(** The part after the SELECT of the step, [found] being that row. *)
Definition acquire_selected (vc : variable_conflict) (c : session) (now : Z) (p_id p_task_id p_execution_id item_key : string)
    (p_task_version : Z) (step_key : string) (p_step_version : Z) (p_lease_owner : string)
    (p_lease_ms p_max_attempts : Z) (tenant : string) (found : option ds_row) : dsql acquire_row :=
  let acquired (m : dsql (ds_row * da_row)) : dsql acquire_row :=
    let* (v, a) := m in
    ambiguous bump_names vc (traise NOT_NULL_VIOLATION) (d_on_tasks (update_task c p_task_id (bump_task now))) ;;
    tret (AcquireRow ActAcquired v (Some a)) in
  match found with
  | None => acquired (start_step now p_id p_task_id p_execution_id item_key step_key p_task_version
              p_step_version p_lease_owner p_lease_ms tenant)
  | Some v =>
      dfail_if (negb (ds_task_version v =? p_task_version) || negb (ds_step_version v =? p_step_version))
        "RHINOQ_DURABLE_STEP_VERSION_MISMATCH" ;;
      if bool_decide (ds_state v = SCompleted) then tret (AcquireRow ActReused v None) else
      dfail_if (bool_decide (ds_state v = SCancelled)) "RHINOQ_DURABLE_STEP_CANCELLED" ;;
      acquired (restart_step c vc now p_execution_id p_lease_owner p_lease_ms p_max_attempts tenant v)
  end.

Definition acquire_durable_step (vc : variable_conflict) (c : session) (now : Z)
    (p_id p_task_id p_execution_id p_item_key : string) (p_task_version : Z) (p_step_key : string)
    (p_step_version : Z) (p_lease_owner : string) (p_lease_ms p_max_attempts : Z) : dsql acquire_row :=
  let item_key := btrim p_item_key in
  let step_key := btrim p_step_key in
  tcatch (
    dfail_if (invalid_acquire p_id p_task_id p_execution_id item_key p_task_version step_key p_step_version
      p_lease_owner p_lease_ms p_max_attempts) "RHINOQ_INVALID_DURABLE_STEP" ;;
    let* t := d_on_tasks (select_task c p_task_id "RHINOQ_TASK_NOT_FOUND") in
    dfail_if (negb (t_definition_version t =? p_task_version)) "RHINOQ_DURABLE_STEP_TASK_VERSION_MISMATCH" ;;
    let* s := tget in
    dfail_if (negb (step_execution c s p_execution_id p_task_id item_key (t_tenant t)))
      "RHINOQ_DURABLE_STEP_EXECUTION_MISMATCH" ;;
    acquire_selected vc c now p_id p_task_id p_execution_id item_key p_task_version step_key p_step_version
      p_lease_owner p_lease_ms p_max_attempts (t_tenant t) (find_step c s p_task_id item_key step_key))
    step_id_conflict.

(** ** Commands of the lease holder *)

Definition invalid_lease (p_step_id p_attempt_id p_lease_owner : string) (p_lease_epoch : Z) : bool :=
  blank p_step_id || blank p_attempt_id || blank p_lease_owner || (p_lease_epoch <? 1).

(** The two SELECT ... FOR UPDATE every command of a holder starts with. *)
Definition select_lease (c : session) (p_step_id p_attempt_id : string) : dsql (ds_row * da_row) :=
  λ s, match visible_steps c s !! p_step_id with
       | None => Err (Raise "RHINOQ_DURABLE_STEP_NOT_FOUND")
       | Some v =>
           match visible_attempts c s !! p_attempt_id with
           | Some a => if of_step p_step_id a then Ok (v, a, s)
                       else Err (Raise "RHINOQ_DURABLE_STEP_ATTEMPT_NOT_FOUND")
           | None => Err (Raise "RHINOQ_DURABLE_STEP_ATTEMPT_NOT_FOUND")
           end
       end.

(** [lease_owner = btrim(p_lease_owner) AND lease_epoch = p_lease_epoch] *)
Definition names_lease (p_lease_owner : string) (p_lease_epoch : Z) (a : da_row) : bool :=
  bool_decide (da_owner a = btrim p_lease_owner) && (da_epoch a =? p_lease_epoch).

Definition in_progress (v : ds_row) (a : da_row) : bool :=
  bool_decide (ds_state v = SRunning) && bool_decide (da_state a = ARunning).

Definition renew_durable_step (c : session) (now : Z) (p_step_id p_attempt_id p_lease_owner : string)
    (p_lease_epoch p_lease_ms : Z) : dsql da_row :=
  dfail_if (invalid_lease p_step_id p_attempt_id p_lease_owner p_lease_epoch
            || (p_lease_ms <? 1000) || (3600000 <? p_lease_ms)) "RHINOQ_INVALID_DURABLE_STEP_RENEWAL" ;;
  let* (v, a) := select_lease c p_step_id p_attempt_id in
  dfail_if (negb (in_progress v a && names_lease p_lease_owner p_lease_epoch a) || (da_until a <=? now))
    "RHINOQ_DURABLE_STEP_LEASE_FENCED" ;;
  let* s := tget in
  let a' := da_extend (now + p_lease_ms) now a in
  tput (put_attempt a' s) ;; tret a'.

(** The guard of the settling commands and their three UPDATEs. *)
Definition settle_lease (c : session) (now : Z) (p_lease_owner : string) (p_lease_epoch : Z) (v : ds_row) (a : da_row)
    (st : attempt_state) (reason : option string) (f : Z → ds_row → ds_row) : dsql ds_row :=
  dfail_if (negb (in_progress v a && names_lease p_lease_owner p_lease_epoch a) || (da_until a <? now))
    "RHINOQ_DURABLE_STEP_LEASE_FENCED" ;;
  let* s := tget in
  tput (put_attempt (da_settle st reason now a) s) ;;
  let* version := tlift (bigint_succ (ds_version v)) in
  let v' := f version v in
  let* s1 := tget in
  tput (put_step v' s1) ;;
  d_on_tasks (update_task c (ds_task_id v) (bump_task now)) ;;
  tret v'.

(** [NULLIF(btrim(p_result_ref), '')] *)
Definition result_ref_text (ref : option string) : option string := r ← ref; nullif_empty (btrim r).

Definition complete_durable_step (c : session) (now : Z) (p_step_id p_attempt_id p_lease_owner : string)
    (p_lease_epoch : Z) (p_result : R) (p_result_ref : option string) : dsql ds_row :=
  dfail_if (invalid_lease p_step_id p_attempt_id p_lease_owner p_lease_epoch
            || (65536 <? text_size p_result) || (2048 <? Z.of_nat (String.length (default "" p_result_ref))))
    "RHINOQ_INVALID_DURABLE_STEP_COMPLETION" ;;
  let* (v, a) := select_lease c p_step_id p_attempt_id in
  if bool_decide (ds_state v = SCompleted) && bool_decide (da_state a = ACompleted)
     && names_lease p_lease_owner p_lease_epoch a && bool_decide (ds_result v = Some p_result)
     && bool_decide (ds_result_ref v = result_ref_text p_result_ref)
  then tret v else
  settle_lease c now p_lease_owner p_lease_epoch v a ACompleted None
    (λ version, ds_complete p_result (result_ref_text p_result_ref) version now).

(** [left(COALESCE(NULLIF(btrim(p_reason), ''), fallback), 2048)] *)
Definition reason_text (reason : option string) (fallback : string) : string :=
  left_text 2048 (default fallback (r ← reason; nullif_empty (btrim r))).

Definition fail_durable_step (c : session) (now : Z) (p_step_id p_attempt_id p_lease_owner : string)
    (p_lease_epoch : Z) (p_reason : string) : dsql ds_row :=
  let reason := reason_text (Some p_reason) "Step handler failed." in
  dfail_if (invalid_lease p_step_id p_attempt_id p_lease_owner p_lease_epoch) "RHINOQ_INVALID_DURABLE_STEP_FAILURE" ;;
  let* (v, a) := select_lease c p_step_id p_attempt_id in
  if (bool_decide (ds_state v = SCompleted) || bool_decide (ds_state v = SFailed))
     && (bool_decide (da_state a = ACompleted) || bool_decide (da_state a = AFailed))
     && names_lease p_lease_owner p_lease_epoch a
  then tret v else
  settle_lease c now p_lease_owner p_lease_epoch v a AFailed (Some reason)
    (λ version v, ds_stop SFailed reason version now (ds_completed_at v) v).

Definition cancel_durable_step (c : session) (now : Z) (p_step_id p_attempt_id p_lease_owner : string)
    (p_lease_epoch : Z) (p_reason : option string) : dsql ds_row :=
  let reason := reason_text p_reason "Task cancelled by user." in
  dfail_if (invalid_lease p_step_id p_attempt_id p_lease_owner p_lease_epoch)
    "RHINOQ_INVALID_DURABLE_STEP_CANCELLATION" ;;
  let* (v, a) := select_lease c p_step_id p_attempt_id in
  if bool_decide (ds_state v = SCancelled) && bool_decide (da_state a = ACancelled)
     && names_lease p_lease_owner p_lease_epoch a
  then tret v else
  settle_lease c now p_lease_owner p_lease_epoch v a ACancelled (Some reason)
    (λ version v, ds_stop SCancelled reason version now (Some now) v).

(** ** Histories: the commands on steps and those on the Task tables *)

Inductive dcommand : Type :=
| DAcquire (id task execution item : string) (task_version : Z) (step : string) (step_version : Z)
    (owner : string) (lease_ms max_attempts : Z)
| DRenew (step attempt owner : string) (epoch lease_ms : Z)
| DComplete (step attempt owner : string) (epoch : Z) (r : R) (ref : option string)
| DFail (step attempt owner : string) (epoch : Z) (reason : string)
| DCancel (step attempt owner : string) (epoch : Z) (reason : option string)
| DTask (cmd : command).

Record devent := DEvent { de_session : session; de_now : Z; de_command : dcommand }.

Definition run_devent (vc : variable_conflict) (ev : devent) (s : ddb) : ddb :=
  let c := de_session ev in
  let now := de_now ev in
  match de_command ev with
  | DAcquire id task execution item tv step sv owner ms max =>
      committed (acquire_durable_step vc c now id task execution item tv step sv owner ms max) s
  | DRenew step attempt owner epoch ms => committed (renew_durable_step c now step attempt owner epoch ms) s
  | DComplete step attempt owner epoch r ref =>
      committed (complete_durable_step c now step attempt owner epoch r ref) s
  | DFail step attempt owner epoch reason => committed (fail_durable_step c now step attempt owner epoch reason) s
  | DCancel step attempt owner epoch reason =>
      committed (cancel_durable_step c now step attempt owner epoch reason) s
  | DTask cmd => committed (d_on_tasks (run_command c now cmd)) s
  end.

Definition run_dhistory (vc : variable_conflict) (h : list devent) (s : ddb) : ddb :=
  run_events (run_devent vc) h s.
End steps.

Arguments ds_row R : clear implicits.
Arguments ddb R : clear implicits.
Arguments dsql R A : clear implicits.
Arguments acquire_row R : clear implicits.
Arguments dcommand R : clear implicits.
Arguments devent R : clear implicits.
