(* ===== verification/DurableFacts.v ===== *)
(** * What durable steps promise

    The invariant of the two tables, the lease protocol they implement (a
    refinement of a small abstract cell per step), fencing of superseded
    workers, finality of a completed step, and what the default PL/pgSQL
    setting makes of [acquire_durable_step]. *)

From stdpp Require Import base gmap strings list fin_maps sorting pretty relations.
From Stdlib Require Import Ascii ZArith Lia.
From S2P Require Import Prelude TaskModel StoreSteps StoreSafety TaskClient SharedStore DurableSteps.

(** ** Attempt identities *)

(** A text without a colon. *)
Fixpoint no_colon (s : string) : bool :=
  match s with
  | EmptyString => true
  | String a s' => negb (Ascii.eqb a ":"%char) && no_colon s'
  end.

Lemma no_colon_app s1 s2 : no_colon (s1 +:+ s2) = no_colon s1 && no_colon s2.
Proof.
  induction s1 as [|a s1 IH]; [done|]. change (no_colon (String a s1 +:+ s2)) with (negb (Ascii.eqb a ":"%char) && no_colon (s1 +:+ s2)).
  rewrite IH. apply andb_assoc.
Qed.

Lemma pretty_N_go_no_colon x s : no_colon s = true → no_colon (pretty_N_go x s) = true.
Proof.
  revert s. induction (N.lt_wf_0 x) as [x _ IH]; intros s Hs.
  destruct (decide (x = 0)%N) as [->|Hx]; [by rewrite pretty_N_go_0|].
  rewrite pretty_N_go_step by lia. apply IH; [apply N.div_lt; lia|].
  cbn. rewrite Hs, andb_true_r. unfold pretty_N_char. by repeat case_match.
Qed.

Lemma pretty_Z_no_colon (n : Z) : no_colon (pretty n) = true.
Proof.
  destruct n as [|p|p]; [done| |].
  - change (no_colon (pretty_N_go (Npos p) "") = true). by apply pretty_N_go_no_colon.
  - change (no_colon ("-" +:+ pretty_N_go (Npos p) "") = true). rewrite no_colon_app.
    by rewrite pretty_N_go_no_colon.
Qed.

Lemma no_colon_suffix s t s' t' :
  no_colon t = true → no_colon t' = true → (s +:+ String ":" t = s' +:+ String ":" t')%string → s = s' ∧ t = t'.
Proof.
  intros Ht Ht'. revert s'.
  induction s as [|a s IH]; intros [|a' s'] H; rewrite ?append_String, ?append_nil_l in H; injection H; clear H.
  - by intros ->.
  - intros -> ->. rewrite no_colon_app in Ht. cbn in Ht. by rewrite andb_false_r in Ht.
  - intros <- ->. rewrite no_colon_app in Ht'. cbn in Ht'. by rewrite andb_false_r in Ht'.
  - intros H ->. destruct (IH _ H) as [-> ->]. done.
Qed.

(** Two attempts share an identity only when they are the same attempt. *)
Lemma attempt_id_inj id1 n1 id2 n2 : attempt_id id1 n1 = attempt_id id2 n2 → id1 = id2 ∧ n1 = n2.
Proof.
  assert (∀ id p, id +:+ ":attempt:" +:+ p = (id +:+ String ":" "attempt") +:+ String ":" p)%string as E
    by (intros id p; by rewrite append_assoc).
  unfold attempt_id. rewrite !E.
  intros [H ->%pretty_Z_inj]%no_colon_suffix; [|apply pretty_Z_no_colon..].
  by apply no_colon_suffix in H as [-> _].
Qed.

Section facts.
Context {R : Type} `{!EqDecision R} (text_size : R → Z) (vc : variable_conflict).
Implicit Types (s : ddb R) (v : ds_row R) (a : da_row).

(** ** The invariant *)

(** The state of a step and of its latest attempt. *)
Definition agree (st : step_state) (ast : attempt_state) : Prop :=
  match st with
  | SPending => False
  | SRunning => ast = ARunning
  | SCompleted => ast = ACompleted
  | SFailed => ast = AFailed
  | SCancelled => ast = ACancelled
  end.

(** An attempt against its step: the epoch is the attempt's number; the latest
    attempt agrees with the step, an earlier one failed or ran out. *)
Record attempt_ok v a : Prop := {
  ao_tenant : da_tenant a = ds_tenant v;
  ao_id : da_id a = attempt_id (ds_id v) (da_attempt a);
  ao_number : 1 ≤ da_attempt a ≤ ds_attempt v;
  ao_epoch : da_epoch a = da_attempt a;
  ao_latest : da_attempt a = ds_attempt v → agree (ds_state v) (da_state a);
  ao_earlier : da_attempt a < ds_attempt v → da_state a = AFailed ∨ da_state a = AExpired;
}.

Record dwf s : Prop := {
  dw_linked : linked (d_tasks s);
  dw_tenant : ∀ k v, d_steps s !! k = Some v → task_tenant (d_tasks s) (ds_task_id v) (ds_tenant v);
  dw_step : ∀ k v, d_steps s !! k = Some v → ds_id v = k;
  dw_key : ∀ k a, d_attempts s !! k = Some a → da_id a = k;
  dw_unique : ∀ k1 k2 v1 v2, d_steps s !! k1 = Some v1 → d_steps s !! k2 = Some v2 →
    at_step (ds_task_id v1) (ds_item_key v1) (ds_step_key v1) v2 = true → v1 = v2;
  dw_attempt : ∀ k a, d_attempts s !! k = Some a → ∃ v, d_steps s !! da_step_id a = Some v ∧ attempt_ok v a;
  dw_latest : ∀ k v, d_steps s !! k = Some v →
    is_Some (d_attempts s !! attempt_id k (ds_attempt v));
  dw_result : ∀ k v, d_steps s !! k = Some v → ds_state v = SCompleted ↔ is_Some (ds_result v);
}.

Definition no_steps (d : db) : ddb R := Ddb d ∅ ∅.

Lemma no_steps_wf d : linked d → dwf (no_steps d).
Proof. intros Hl. split; [done|..]; intros *; cbn; by rewrite lookup_empty. Qed.

Lemma at_step_true task item key v :
  at_step task item key v = true ↔ ds_task_id v = task ∧ ds_item_key v = item ∧ ds_step_key v = key.
Proof. unfold at_step. rewrite !andb_true_iff, !bool_decide_eq_true. tauto. Qed.

Lemma visible_steps_lookup c s k v :
  visible_steps c s !! k = Some v ↔ d_steps s !! k = Some v ∧ rls_allows c (ds_tenant v) = true.
Proof. unfold visible_steps. by rewrite map_lookup_filter_Some. Qed.

Lemma visible_attempts_lookup c s k a :
  visible_attempts c s !! k = Some a ↔ d_attempts s !! k = Some a ∧ rls_allows c (da_tenant a) = true.
Proof. unfold visible_attempts. by rewrite map_lookup_filter_Some. Qed.

Lemma find_step_Some c s task item key v :
  find_step c s task item key = Some v → dwf s →
  d_steps s !! ds_id v = Some v ∧ rls_allows c (ds_tenant v) = true ∧ at_step task item key v = true.
Proof.
  intros Hh Hwf. apply head_Some_elem_of in Hh. apply map_rows_spec in Hh as [Hat [k Hk]].
  apply visible_steps_lookup in Hk as [Hk Hv]. by rewrite (dw_step s Hwf _ _ Hk).
Qed.

(** The latest attempt of a stored step: the row numbered as the step. *)
Lemma latest_row s v :
  dwf s → d_steps s !! ds_id v = Some v →
  ∃ a, d_attempts s !! da_id a = Some a ∧ da_step_id a = ds_id v ∧ da_attempt a = ds_attempt v ∧ attempt_ok v a.
Proof.
  intros Hwf Hv. destruct (dw_latest s Hwf _ _ Hv) as [a Ha]. exists a.
  pose proof (dw_key s Hwf _ _ Ha) as Hid. destruct (dw_attempt s Hwf _ _ Ha) as (v' & Hv' & Hok).
  pose proof (ao_id _ _ Hok) as E. rewrite Hid, (dw_step s Hwf _ _ Hv') in E.
  apply attempt_id_inj in E as [E1 E2]. rewrite <-E1 in Hv'. assert (v' = v) as -> by congruence.
  by rewrite Hid, <-E1.
Qed.

(** UNIQUE (step_id, attempt). *)
Lemma numbered_unique s k1 k2 a1 a2 :
  dwf s → d_attempts s !! k1 = Some a1 → d_attempts s !! k2 = Some a2 →
  da_step_id a1 = da_step_id a2 → da_attempt a1 = da_attempt a2 → a1 = a2.
Proof.
  intros Hwf H1 H2 Hs Hn. destruct (dw_attempt s Hwf _ _ H1) as (v1 & Hv1 & O1).
  destruct (dw_attempt s Hwf _ _ H2) as (v2 & Hv2 & O2). rewrite Hs in Hv1. assert (v1 = v2) as -> by congruence.
  pose proof (ao_id _ _ O1) as E1. pose proof (ao_id _ _ O2) as E2.
  rewrite (dw_key s Hwf _ _ H1), Hn in E1. rewrite (dw_key s Hwf _ _ H2), <-E1 in E2. congruence.
Qed.

Lemma latest_attempt_wf c s v :
  dwf s → d_steps s !! ds_id v = Some v → rls_allows c (ds_tenant v) = true →
  ∃ a, latest_attempt c s (ds_id v) = Some a ∧ d_attempts s !! da_id a = Some a ∧
    da_step_id a = ds_id v ∧ da_attempt a = ds_attempt v ∧ attempt_ok v a.
Proof.
  intros Hwf Hv Hrls. destruct (latest_row s v Hwf Hv) as (a & Ha & Hs & Hn & Hok).
  exists a. split_and!; try done. unfold latest_attempt.
  set (rows := map_rows (of_step (ds_id v)) (visible_attempts c s)).
  assert (∀ b, b ∈ rows → ∃ k, d_attempts s !! k = Some b ∧ da_step_id b = ds_id v) as Hrows.
  { intros b [Hb [k Hk]]%map_rows_spec. apply visible_attempts_lookup in Hk as [Hk _].
    unfold of_step in Hb. to_prop. eauto. }
  assert (a ∈ rows) as Hin.
  { apply map_rows_spec. split; [by apply bool_decide_true|]. exists (da_id a).
    apply visible_attempts_lookup. split; [done|]. by rewrite (ao_tenant _ _ Hok). }
  pose proof (merge_sort_Permutation newest rows) as Hperm.
  assert (StronglySorted newest (merge_sort newest rows)) as Hsort.
  { apply StronglySorted_merge_sort.
    - intros x y z. unfold newest. rewrite !Z.leb_le. lia.
    - intros x y. unfold newest. rewrite !Z.leb_le. lia. }
  destruct (merge_sort newest rows) as [|b l] eqn:E.
  { rewrite <-Hperm in Hin. by apply elem_of_nil in Hin. }
  cbn. f_equal. assert (b ∈ rows) as Hb by (rewrite <-Hperm; left).
  destruct (Hrows b Hb) as (kb & Hkb & Hsb).
  rewrite <-Hperm in Hin. apply elem_of_cons in Hin as [->|Hin]; [done|].
  apply StronglySorted_inv in Hsort as [_ Hall]. rewrite Forall_forall in Hall. specialize (Hall a Hin).
  unfold newest in Hall. apply Z.leb_le in Hall.
  destruct (dw_attempt s Hwf _ _ Hkb) as (v' & Hv' & Ob). rewrite Hsb in Hv'. assert (v' = v) as -> by congruence.
  pose proof (ao_number _ _ Ob). eapply (numbered_unique s); eauto; [congruence|lia].
Qed.

(** ** The effects of a command

    [deffect now op s s']: the tables change from [s] to [s'] the way [op] does
    when it succeeds. The Task tables move by steps of their own. *)

Inductive lease_op : Type :=
| LAcquire (owner : string) (ms : Z)
| LRenew (owner : string) (epoch ms : Z)
| LComplete (owner : string) (epoch : Z) (r : R) (ref : option string)
| LFail (owner : string) (epoch : Z)
| LCancel (owner : string) (epoch : Z).

Definition op_of (cmd : dcommand R) : option lease_op :=
  match cmd with
  | DAcquire _ _ _ _ _ _ _ owner ms _ => Some (LAcquire (btrim owner) ms)
  | DRenew _ _ owner epoch ms => Some (LRenew (btrim owner) epoch ms)
  | DComplete _ _ owner epoch r ref => Some (LComplete (btrim owner) epoch r (result_ref_text ref))
  | DFail _ _ owner epoch _ => Some (LFail (btrim owner) epoch)
  | DCancel _ _ owner epoch _ => Some (LCancel (btrim owner) epoch)
  | DTask _ => None
  end.

(** What a settling command makes of the step, and the state of the attempt. *)
Definition settled (op : lease_op) v v' (ast : attempt_state) : Prop :=
  match op with
  | LComplete _ _ r ref =>
      ast = ACompleted ∧ ds_state v' = SCompleted ∧ ds_result v' = Some r ∧ ds_result_ref v' = ref
  | LFail _ _ => ast = AFailed ∧ ds_state v' = SFailed ∧ ds_result v' = ds_result v
  | LCancel _ _ => ast = ACancelled ∧ ds_state v' = SCancelled ∧ ds_result v' = ds_result v
  | _ => False
  end.

Definition op_lease (op : lease_op) : option (string * Z) :=
  match op with
  | LAcquire _ _ => None
  | LRenew o e _ | LComplete o e _ _ | LFail o e | LCancel o e => Some (o, e)
  end.

Definition same_step v v' : Prop :=
  ds_id v' = ds_id v ∧ ds_tenant v' = ds_tenant v ∧ ds_task_id v' = ds_task_id v ∧
  ds_item_key v' = ds_item_key v ∧ ds_step_key v' = ds_step_key v ∧ ds_attempt v' = ds_attempt v.

(** A stored step with a running attempt of it under the lease [(o, e)]. *)
Definition holds s v a (o : string) (e : Z) : Prop :=
  d_steps s !! ds_id v = Some v ∧ d_attempts s !! da_id a = Some a ∧ da_step_id a = ds_id v ∧
  ds_state v = SRunning ∧ da_state a = ARunning ∧ da_owner a = o ∧ da_epoch a = e.

Inductive deffect (now : Z) : lease_op → ddb R → ddb R → Prop :=
| EStart s d v ex o ms :
    rtc any_step (d_tasks s) d → task_tenant (d_tasks s) (ds_task_id v) (ds_tenant v) →
    d_steps s !! ds_id v = None →
    (∀ k u, d_steps s !! k = Some u → at_step (ds_task_id v) (ds_item_key v) (ds_step_key v) u = false) →
    ds_state v = SRunning → ds_attempt v = 1 → ds_result v = None →
    let a := new_attempt (attempt_id (ds_id v) 1) (ds_tenant v) (ds_id v) ex o 1 1 (now + ms) now in
    d_attempts s !! da_id a = None →
    deffect now (LAcquire o ms) s (Ddb d (<[ds_id v := v]> (d_steps s)) (<[da_id a := a]> (d_attempts s)))
| ERestart s d v p version ex o ms :
    rtc any_step (d_tasks s) d →
    d_steps s !! ds_id v = Some v → ds_state v ≠ SCompleted → ds_state v ≠ SCancelled →
    d_attempts s !! da_id p = Some p → da_step_id p = ds_id v → da_attempt p = ds_attempt v →
    (da_state p = ARunning → da_until p ≤ now) →
    let n := ds_attempt v + 1 in
    let a := new_attempt (attempt_id (ds_id v) n) (ds_tenant v) (ds_id v) ex o n (da_epoch p + 1) (now + ms) now in
    d_attempts s !! da_id a = None →
    deffect now (LAcquire o ms) s (Ddb d (<[ds_id v := ds_restart ex n version now v]> (d_steps s))
      (<[da_id a := a]> (if bool_decide (da_state p = ARunning)
                         then <[da_id p := da_settle AExpired None now p]> (d_attempts s) else d_attempts s)))
| ERenew s v a o e ms :
    holds s v a o e → now < da_until a →
    deffect now (LRenew o e ms) s (put_attempt (da_extend (now + ms) now a) s)
| ESettle s d v v' a o e op ast reason :
    rtc any_step (d_tasks s) d → holds s v a o e → op_lease op = Some (o, e) → now ≤ da_until a → same_step v v' → settled op v v' ast →
    deffect now op s (Ddb d (<[ds_id v := v']> (d_steps s))
      (<[da_id a := da_settle ast reason now a]> (d_attempts s))).

Lemma d_on_tasks_ok {A} (m : sql A) s x s' :
  d_on_tasks m s = Ok (x, s') → ∃ d, m (d_tasks s) = Ok (x, d) ∧ s' = Ddb d (d_steps s) (d_attempts s).
Proof. unfold d_on_tasks. destruct (m (d_tasks s)) as [[y d]|]; [|done]. intros [= <- <-]. eauto. Qed.

Lemma select_lease_ok c id aid s v a s' :
  dwf s → select_lease c id aid s = Ok (v, a, s') →
  s' = s ∧ d_steps s !! ds_id v = Some v ∧ d_attempts s !! da_id a = Some a ∧ da_step_id a = ds_id v ∧
  id = ds_id v ∧ aid = da_id a.
Proof.
  intros Hwf. unfold select_lease. destruct (visible_steps c s !! id) as [v0|] eqn:Ev; [|done].
  destruct (visible_attempts c s !! aid) as [a0|] eqn:Ea; [|done].
  apply visible_steps_lookup in Ev as [Ev _]. apply visible_attempts_lookup in Ea as [Ea _].
  unfold of_step. destruct (bool_decide _) eqn:E; [|done]. intros [= <- <- <-]. to_prop.
  rewrite (dw_step s Hwf _ _ Ev), (dw_key s Hwf _ _ Ea). done.
Qed.

Lemma guard_holds s v a owner epoch :
  d_steps s !! ds_id v = Some v → d_attempts s !! da_id a = Some a → da_step_id a = ds_id v →
  in_progress v a && names_lease owner epoch a = true → holds s v a (btrim owner) epoch.
Proof. unfold in_progress, names_lease. intros ? ? ? ?. to_prop. by split_and!. Qed.

(** The effect of a holder's command on the step it names. *)
Definition holder_effect (now : Z) (op : lease_op) (id : string) s s' : Prop :=
  deffect now op s s' ∧
  ∃ v a o e, op_lease op = Some (o, e) ∧ ds_id v = id ∧ holds s v a o e ∧ now ≤ da_until a.

Lemma settle_lease_ok c now owner epoch v a ast reason f s r s' op :
  d_steps s !! ds_id v = Some v → d_attempts s !! da_id a = Some a → da_step_id a = ds_id v →
  settle_lease c now owner epoch v a ast reason f s = Ok (r, s') →
  op_lease op = Some (btrim owner, epoch) → (∀ n, same_step v (f n v) ∧ settled op v (f n v) ast) →
  holder_effect now op (ds_id v) s s'.
Proof.
  intros Hv Ha Hs H Hop Hf. unfold settle_lease, dfail_if in H. txn_inv H. apply orb_false_iff in Hguard as [Hg Hu].
  apply negb_false_iff in Hg. apply Z.ltb_ge in Hu.
  match goal with H : d_on_tasks _ _ = _ |- _ => apply d_on_tasks_ok in H as (d & Hd & ->) end.
  apply bump_parent_steps, steps_any in Hd. cbn in Hd.
  match goal with H : bigint_succ _ = Ok ?n |- _ => destruct (Hf n) as [Hss Hst] end.
  pose proof (guard_holds s v a owner epoch Hv Ha Hs Hg) as Hh. split; [|by eauto 10].
  cbn. rewrite (proj1 Hss). by eapply ESettle.
Qed.

(** Split a successful run of a holder's command after its SELECTs. *)
Ltac lease_inv Hwf H :=
  unfold renew_durable_step, complete_durable_step, fail_durable_step, cancel_durable_step, dfail_if in H;
  let H1 := fresh in
  apply tbind_ok in H as (? & ? & H1 & H); txn_inv H1;
  apply tbind_ok in H as ([?v ?a] & ?s1 & H1 & H);
  apply select_lease_ok in H1 as (-> & ?Hv & ?Ha & ?Hs & -> & _); [|exact Hwf].

(** A settling command repeats an earlier answer or settles the lease. *)
Ltac settle_inv Hwf H :=
  lease_inv Hwf H; destruct (_ && _) in H; [left; by txn_inv H|right];
  eapply settle_lease_ok; [done..|by intros n; split; split_and!].

Lemma renew_ok c now id aid owner epoch ms s r s' :
  dwf s → renew_durable_step c now id aid owner epoch ms s = Ok (r, s') →
  holder_effect now (LRenew (btrim owner) epoch ms) id s s'.
Proof.
  intros Hwf H. lease_inv Hwf H. txn_inv H. apply orb_false_iff in Hguard0 as [Hg Hu].
  apply negb_false_iff in Hg. apply Z.leb_gt in Hu. pose proof (guard_holds s v a owner epoch Hv Ha Hs Hg) as Hh.
  split; [by apply (ERenew _ s v a)|]. exists v, a. eauto 10 with lia.
Qed.

Lemma complete_ok c now id aid owner epoch r ref s w s' :
  dwf s → complete_durable_step text_size c now id aid owner epoch r ref s = Ok (w, s') →
  s' = s ∨ holder_effect now (LComplete (btrim owner) epoch r (result_ref_text ref)) id s s'.
Proof. intros Hwf H. settle_inv Hwf H. Qed.

Lemma fail_ok c now id aid owner epoch reason s w s' :
  dwf s → fail_durable_step c now id aid owner epoch reason s = Ok (w, s') →
  s' = s ∨ holder_effect now (LFail (btrim owner) epoch) id s s'.
Proof. intros Hwf H. settle_inv Hwf H. Qed.

Lemma cancel_ok c now id aid owner epoch reason s w s' :
  dwf s → cancel_durable_step c now id aid owner epoch reason s = Ok (w, s') →
  s' = s ∨ holder_effect now (LCancel (btrim owner) epoch) id s s'.
Proof. intros Hwf H. settle_inv Hwf H. Qed.

Lemma insert_attempt_ok a s b s' :
  insert_attempt a s = Ok (b, s') → b = a ∧ s' = put_attempt a s ∧ d_attempts s !! da_id a = None.
Proof.
  unfold insert_attempt. destruct (_ || _) eqn:E; [done|]. intros [= <- <-]. to_prop.
  split_and!; try done. by apply eq_None_not_Some.
Qed.

Lemma insert_step_ok v s w s' :
  insert_step v s = Ok (w, s') → w = v ∧ s' = put_step v s ∧ d_steps s !! ds_id v = None ∧
  ∀ k u, d_steps s !! k = Some u → at_step (ds_task_id v) (ds_item_key v) (ds_step_key v) u = false.
Proof.
  unfold insert_step. destruct (_ || _) eqn:E; [done|]. intros [= <- <-]. to_prop.
  split_and!; try done; [by apply eq_None_not_Some|by apply map_exists_false].
Qed.

(** What is known of a successful acquisition. *)
Record acquired_by now owner ms s (row : acquire_row R) s' : Prop := {
  ab_vc : vc = UseColumn;
  ab_effect : deffect now (LAcquire (btrim owner) ms) s s';
  ab_step : d_steps s' !! ds_id (aq_step row) = Some (aq_step row);
  ab_running : ds_state (aq_step row) = SRunning;
  ab_attempt : ∃ a, aq_attempt row = Some a ∧ d_attempts s' !! da_id a = Some a ∧
    da_step_id a = ds_id (aq_step row) ∧ da_attempt a = ds_attempt (aq_step row) ∧ da_state a = ARunning ∧
    da_owner a = btrim owner ∧ da_until a = now + ms ∧ da_epoch a = da_attempt a;
}.

Lemma start_step_ok now id task ex item key tv sv owner ms tenant s v a s' :
  start_step now id task ex item key tv sv owner ms tenant s = Ok (v, a, s') →
  v = DsRow id tenant task ex item key tv sv SRunning None None None 1 1 now now None ∧
  a = new_attempt (attempt_id id 1) tenant id ex (btrim owner) 1 1 (now + ms) now ∧
  d_steps s !! id = None ∧ (∀ k u, d_steps s !! k = Some u → at_step task item key u = false) ∧
  d_attempts s !! attempt_id id 1 = None ∧
  s' = Ddb (d_tasks s) (<[id := v]> (d_steps s)) (<[attempt_id id 1 := a]> (d_attempts s)).
Proof.
  intros H. unfold start_step in H. remember (v, a) as r eqn:Er. txn_inv H. simplify_eq.
  match goal with H : insert_step _ _ = _ |- _ => apply insert_step_ok in H as (-> & -> & Hid & Hnew) end.
  match goal with H : insert_attempt _ _ = _ |- _ => apply insert_attempt_ok in H as (-> & -> & Ha) end.
  done.
Qed.

Lemma restart_step_ok c now ex owner ms max tenant v s w b s' :
  dwf s → d_steps s !! ds_id v = Some v → rls_allows c (ds_tenant v) = true → tenant = ds_tenant v →
  restart_step c vc now ex owner ms max tenant v s = Ok (w, b, s') →
  vc = UseColumn ∧ ∃ p n version, n = ds_attempt v + 1 ∧ n ≤ max ∧ version = ds_version v + 1 ∧
    d_attempts s !! da_id p = Some p ∧ da_step_id p = ds_id v ∧ da_attempt p = ds_attempt v ∧
    attempt_ok v p ∧ (da_state p = ARunning → da_until p ≤ now) ∧
    w = ds_restart ex n version now v ∧
    b = new_attempt (attempt_id (ds_id v) n) tenant (ds_id v) ex (btrim owner) n (da_epoch p + 1) (now + ms) now ∧
    d_attempts s !! da_id b = None ∧
    s' = Ddb (d_tasks s) (<[ds_id v := w]> (d_steps s))
      (<[da_id b := b]> (if bool_decide (da_state p = ARunning)
         then <[da_id p := da_settle AExpired None now p]> (d_attempts s) else d_attempts s)).
Proof.
  intros Hwf Hv Hrls -> H. destruct (latest_attempt_wf c s v Hwf Hv Hrls) as (p & Hl & Hp & Hps & Hpn & Hok).
  remember (w, b) as r eqn:Er. unfold restart_step, dfail_if in H. txn_inv H. rewrite Hl in *.
  match goal with H : ambiguous _ _ (traise _) _ _ = _ |- _ => apply ambiguous_raise_ok in H as [Hvc H]; [txn_inv H|reflexivity] end.
  subst vc. split; [done|]. simplify_eq.
  match goal with H : insert_attempt _ _ = _ |- _ => apply insert_attempt_ok in H as (-> & -> & Hfree) end.
  unfold integer_succ, bigint_succ in *. to_prop. subst.
  assert (s0 = if bool_decide (da_state p = ARunning) then put_attempt (da_settle AExpired None now p) s else s) as ->.
  { destruct (bool_decide (da_state p = ARunning)); rewrite ?ambiguous_column in H1; by txn_inv H1. }
  clear H1. exists p, (ds_attempt v + 1), (ds_version v + 1). split_and!; try done; [lia| | |].
  - intros Hrun. rewrite bool_decide_true in Hguard by done. cbn in Hguard. to_prop. lia.
  - cbn in Hfree |- *. destruct (bool_decide (da_state p = ARunning)); cbn in Hfree; [|done].
    rewrite lookup_insert_ne in Hfree; [done|]. intros E. rewrite E, lookup_insert_eq in Hfree. done.
  - by destruct (bool_decide (da_state p = ARunning)).
Qed.

Lemma bump_moves c now k s u s' :
  d_on_tasks (update_task c k (bump_task now)) s = Ok (u, s') →
  ∃ d, rtc any_step (d_tasks s) d ∧ s' = Ddb d (d_steps s) (d_attempts s).
Proof.
  intros H. apply d_on_tasks_ok in H as (d & Hd & ->). exists d. split; [|done].
  by eapply steps_any, bump_parent_steps.
Qed.

(** What an acquisition that succeeded did: it read a committed result or it
    took the lease. *)
Lemma acquire_ok c now id task ex item tv key sv owner ms max s row s' :
  dwf s → acquire_durable_step vc c now id task ex item tv key sv owner ms max s = Ok (row, s') →
  (∃ v, find_step c s task (btrim item) (btrim key) = Some v ∧ ds_state v = SCompleted ∧
     ds_task_version v = tv ∧ ds_step_version v = sv ∧ row = AcquireRow ActReused v None ∧ s' = s) ∨
  (aq_action row = ActAcquired ∧ acquired_by now owner ms s row s').
Proof.
  intros Hwf H. unfold acquire_durable_step, acquire_selected, dfail_if in H. apply tcatch_ok in H.
  apply tbind_ok in H as (?u & ?s2 & Hx & H); txn_inv Hx.
  apply tbind_ok in H as (t & s1 & Hx & H). apply d_on_tasks_ok in Hx as (d & Ht & ->).
  apply select_task_ok in Ht as (-> & Ht & Htv).
  assert (task_tenant (d_tasks s) task (t_tenant t)) as Hten by (by exists t).
  replace (Ddb (d_tasks s) (d_steps s) (d_attempts s)) with s in H by (by destruct s).
  apply tbind_ok in H as (?u & ?s2 & Hx & H); txn_inv Hx. apply tbind_ok in H as (?u & ?s2 & Hx & H); txn_inv Hx.
  apply tbind_ok in H as (?u & ?s2 & Hx & H); txn_inv Hx.
  destruct (find_step c s task (btrim item) (btrim key)) as [v|] eqn:Ef.
  - apply find_step_Some in Ef as (Hv & Hrls & Hat); [|done]. apply at_step_true in Hat as (Htask & _).
    apply tbind_ok in H as (?u & ?s2 & Hx & H); txn_inv Hx. to_prop.
    destruct (bool_decide (ds_state v = SCompleted)) eqn:Ec; [left; txn_inv H; to_prop; by exists v|right].
    apply tbind_ok in H as (?u & ?s2 & Hx & H); txn_inv Hx. apply tbind_ok in H as ([w b] & s2 & Hx & H).
    assert (t_tenant t = ds_tenant v) as Et.
    { destruct (dw_tenant s Hwf _ _ Hv) as (t' & Ht' & <-). rewrite Htask in Ht'. congruence. }
    apply restart_step_ok in Hx as (Hvc & p & n & version & Hn & _ & -> & Hp & Hps & Hpn & Hok & Hdue & Hw & Hb & Hfree & ->);
      [|done..].
    apply tbind_ok in H as (? & ? & Hx & H). txn_inv H. apply ambiguous_raise_ok in Hx as [_ Hx]; [|reflexivity].
    apply bump_moves in Hx as (d & Hd & ->). split; [done|]. rewrite Et in Hb. subst n. to_prop. split; cbn.
    + done.
    + rewrite Hw, Hb. rewrite Hb in Hfree. by apply (ERestart now s d v p).
    + by rewrite Hw, lookup_insert_eq.
    + by rewrite Hw.
    + exists b. rewrite lookup_insert_eq, Hb, Hw. split_and!; try done. cbn.
      rewrite (ao_epoch _ _ Hok). lia.
  - right. apply tbind_ok in H as ([w b] & s2 & Hx & H).
    apply start_step_ok in Hx as (Hw & Hb & Hid & Hnew & Hfree & ->).
    apply tbind_ok in H as (? & ? & Hx & H). txn_inv H. apply ambiguous_raise_ok in Hx as [Hvc Hx]; [|reflexivity].
    apply bump_moves in Hx as (d & Hd & ->). split; [done|]. split; cbn.
    + done.
    + pose proof (EStart now s d w ex (btrim owner) ms) as E. rewrite Hb. rewrite Hw in E |- *. cbn in E. by apply E.
    + by rewrite Hw, lookup_insert_eq.
    + by rewrite Hw.
    + exists b. rewrite Hb, lookup_insert_eq, Hw. by split_and!.
Qed.

(** Every command stutters, moves the Task tables alone, or has its effect. *)
Lemma run_devent_effect ev s :
  dwf s →
  (d_steps (run_devent text_size vc ev s) = d_steps s ∧ d_attempts (run_devent text_size vc ev s) = d_attempts s ∧
   rtc any_step (d_tasks s) (d_tasks (run_devent text_size vc ev s))) ∨
  (∃ op, op_of (de_command ev) = Some op ∧ deffect (de_now ev) op s (run_devent text_size vc ev s)).
Proof.
  intros Hwf. destruct ev as [c now cmd]. unfold run_devent. cbn.
  assert (∀ A (m : dsql R A) op, op_of cmd = Some op → (∀ x s', m s = Ok (x, s') → s' = s ∨ deffect now op s s') →
    (d_steps (committed m s) = d_steps s ∧ d_attempts (committed m s) = d_attempts s ∧
     rtc any_step (d_tasks s) (d_tasks (committed m s))) ∨
    (∃ op, op_of cmd = Some op ∧ deffect now op s (committed m s))) as Hcase.
  { intros A m op Hop Hm. unfold committed. destruct (m s) as [[x s']|e] eqn:E; [|left; split_and!; (done || apply rtc_refl)].
    destruct (Hm x s' eq_refl) as [->|He]; [left; split_and!; (done || apply rtc_refl)|right; eauto]. }
  destruct cmd as [| | | | |cmd]; [eapply Hcase; [done|]..|]; intros.
  - destruct (acquire_ok _ _ _ _ _ _ _ _ _ _ _ _ _ _ _ Hwf H) as [(? & ? & ? & ? & ? & ? & ->)|[_ Ha]]; [by left|].
    right. by apply ab_effect in Ha.
  - right. by eapply renew_ok.
  - edestruct complete_ok as [?|[? _]]; eauto.
  - edestruct fail_ok as [?|[? _]]; eauto.
  - edestruct cancel_ok as [?|[? _]]; eauto.
  - left. unfold committed, d_on_tasks. destruct (run_command c now cmd (d_tasks s)) as [[x d]|] eqn:E; cbn;
      [|split_and!; (done || apply rtc_refl)].
    split_and!; [done..|]. eapply steps_any, run_command_steps; [apply dw_linked|]; done.
Qed.

(** ** Every command preserves the invariant *)

Lemma attempt_of s k a v :
  dwf s → d_attempts s !! k = Some a → d_steps s !! da_step_id a = Some v → attempt_ok v a.
Proof. intros Hwf Ha Hv. destruct (dw_attempt s Hwf _ _ Ha) as (v' & Hv' & Hok). by simplify_eq. Qed.

(** A running attempt is the latest one of its step. *)
Lemma holds_latest s v a o e :
  dwf s → holds s v a o e → attempt_ok v a ∧ da_attempt a = ds_attempt v ∧ e = ds_attempt v.
Proof.
  intros Hwf (Hv & Ha & Hs & _ & Hrun & _ & <-). rewrite <-Hs in Hv.
  pose proof (attempt_of s _ _ _ Hwf Ha Hv) as Hok. pose proof (ao_number _ _ Hok). pose proof (ao_epoch _ _ Hok).
  split; [done|]. assert (¬ da_attempt a < ds_attempt v); [|split; lia].
  intros Hlt. destruct (ao_earlier _ _ Hok Hlt); congruence.
Qed.

(** Rewriting one step and the attempts of it. *)
Lemma update_wf s d v v' (m' : gmap string da_row) :
  dwf s → rtc any_step (d_tasks s) d → d_steps s !! ds_id v = Some v →
  ds_id v' = ds_id v → ds_tenant v' = ds_tenant v → ds_task_id v' = ds_task_id v →
  ds_item_key v' = ds_item_key v → ds_step_key v' = ds_step_key v →
  (ds_state v' = SCompleted ↔ is_Some (ds_result v')) →
  (∀ k b, m' !! k = Some b → da_id b = k ∧ ((da_step_id b = ds_id v ∧ attempt_ok v' b) ∨
     (da_step_id b ≠ ds_id v ∧ d_attempts s !! k = Some b))) →
  (∀ k, is_Some (d_attempts s !! k) → is_Some (m' !! k)) → is_Some (m' !! attempt_id (ds_id v) (ds_attempt v')) →
  dwf (Ddb d (<[ds_id v := v']> (d_steps s)) m').
Proof.
  intros Hwf Hd Hv Hid Hten Htask Hitem Hkey Hres Hm Hkeep Hlast. split; cbn.
  - eapply any_steps_linked; [done|apply (dw_linked s Hwf)].
  - intros k u. rewrite lookup_insert. case_decide; intros Hu; simplify_eq.
    + rewrite Htask, Hten. by eapply task_tenant_kept, (dw_tenant s Hwf).
    + by eapply task_tenant_kept, (dw_tenant s Hwf).
  - intros k u. rewrite lookup_insert. case_decide; intros Hu; simplify_eq; [done|]. by apply (dw_step s Hwf).
  - intros k b Hb. by apply Hm in Hb as [-> _].
  - intros k1 k2 v1 v2. rewrite !lookup_insert. repeat case_decide; intros H1 H2 Hat; simplify_eq; try done.
    + rewrite Htask, Hitem, Hkey in Hat. pose proof (dw_unique s Hwf _ _ _ _ Hv H2 Hat) as <-.
      by rewrite (dw_step s Hwf _ _ H2) in *.
    + apply at_step_true in Hat as (E1 & E2 & E3). assert (v1 = v) as ->.
      { apply (dw_unique s Hwf _ _ _ _ H1 Hv), at_step_true. by rewrite <-Htask, <-Hitem, <-Hkey. }
      by rewrite (dw_step s Hwf _ _ H1) in *.
    + by apply (dw_unique s Hwf k1 k2).
  - intros k b Hb. apply Hm in Hb as [_ [[Hs Hok]|[Hne Hb]]].
    + exists v'. by rewrite Hs, lookup_insert_eq.
    + destruct (dw_attempt s Hwf _ _ Hb) as (u & Hu & Hok). exists u. by rewrite lookup_insert_ne.
  - intros k u. rewrite lookup_insert. case_decide; intros Hu; simplify_eq; [done|]. by apply Hkeep, (dw_latest s Hwf).
  - intros k u. rewrite lookup_insert. case_decide; intros Hu; simplify_eq; [done|]. by apply (dw_result s Hwf k).
Qed.

Lemma start_wf s d v a :
  dwf s → rtc any_step (d_tasks s) d → task_tenant (d_tasks s) (ds_task_id v) (ds_tenant v) →
  d_steps s !! ds_id v = None →
  (∀ k u, d_steps s !! k = Some u → at_step (ds_task_id v) (ds_item_key v) (ds_step_key v) u = false) →
  (ds_state v = SCompleted ↔ is_Some (ds_result v)) →
  da_step_id a = ds_id v → attempt_ok v a → da_attempt a = ds_attempt v →
  dwf (Ddb d (<[ds_id v := v]> (d_steps s)) (<[da_id a := a]> (d_attempts s))).
Proof.
  intros Hwf Hd Hten Hid Hnew Hres Hs Hok Hn. split; cbn.
  - eapply any_steps_linked; [done|apply (dw_linked s Hwf)].
  - intros k u. rewrite lookup_insert. case_decide; intros Hu; simplify_eq; eapply task_tenant_kept; try done.
    by apply (dw_tenant s Hwf k).
  - intros k u. rewrite lookup_insert. case_decide; intros Hu; simplify_eq; [done|]. by apply (dw_step s Hwf).
  - intros k u. rewrite lookup_insert. case_decide; intros Hu; simplify_eq; [done|]. by apply (dw_key s Hwf).
  - intros k1 k2 v1 v2. rewrite !lookup_insert. repeat case_decide; intros H1 H2 Hat; simplify_eq; try done.
    + by rewrite (Hnew _ _ H2) in Hat.
    + apply at_step_true in Hat as (E1 & E2 & E3). assert (at_step (ds_task_id v2) (ds_item_key v2) (ds_step_key v2) v1 = true)
        as E by (by apply at_step_true). by rewrite (Hnew _ _ H1) in E.
    + by apply (dw_unique s Hwf k1 k2).
  - intros k b. rewrite lookup_insert. case_decide; intros Hb; simplify_eq.
    + exists v. by rewrite Hs, lookup_insert_eq.
    + destruct (dw_attempt s Hwf _ _ Hb) as (u & Hu & Hok'). exists u. rewrite lookup_insert_ne; [done|congruence].
  - intros k u. rewrite lookup_insert. case_decide; intros Hu; simplify_eq; rewrite lookup_insert.
    + rewrite (ao_id _ _ Hok), Hn, decide_True by done. eauto.
    + case_decide; [eauto|]. by apply (dw_latest s Hwf).
  - intros k u. rewrite lookup_insert. case_decide; intros Hu; simplify_eq; [done|]. by apply (dw_result s Hwf k).
Qed.

(** One attempt is rewritten, keeping its identity, along with its step. *)
Lemma settle_wf s d v v' a b o e :
  dwf s → rtc any_step (d_tasks s) d → holds s v a o e → same_step v v' →
  (ds_state v' = SCompleted ↔ is_Some (ds_result v')) → agree (ds_state v') (da_state b) →
  da_id b = da_id a → da_tenant b = da_tenant a → da_step_id b = da_step_id a → da_attempt b = da_attempt a →
  da_epoch b = da_epoch a →
  dwf (Ddb d (<[ds_id v := v']> (d_steps s)) (<[da_id a := b]> (d_attempts s))).
Proof.
  intros Hwf Hd Hh (Eid & Ete & Eta & Eit & Eke & Eat) Hres Hag Bid Bte Bst Bat Bep.
  destruct (holds_latest s v a o e Hwf Hh) as (Hok & Hn & _). destruct Hh as (Hv & Ha & Hs & _).
  apply update_wf; try done.
  - intros k c. rewrite lookup_insert. case_decide; intros Hc; simplify_eq.
    + split; [done|left]. split; [congruence|]. destruct Hok. split; rewrite ?Bte, ?Bid, ?Bat, ?Bep, ?Ete, ?Eid, ?Eat; try done.
      lia.
    + split; [by apply (dw_key s Hwf)|]. destruct (decide (da_step_id c = ds_id v)) as [Hcs|]; [left|by right].
      split; [done|]. rewrite <-Hcs in Hv. pose proof (attempt_of s _ _ _ Hwf Hc Hv) as Hokc.
      assert (da_attempt c ≠ ds_attempt v) as Hne.
      { intros E. assert (c = a) as -> by (eapply (numbered_unique s); eauto; congruence).
        by rewrite (dw_key s Hwf _ _ Hc) in *. }
      destruct Hokc. by split; rewrite ?Ete, ?Eid, ?Eat.
  - intros k Hk. rewrite lookup_insert. case_decide; [eauto|done].
  - rewrite Eat, lookup_insert. case_decide; [eauto|]. by apply (dw_latest s Hwf).
Qed.

Lemma restart_wf s d v p version ex o now until :
  dwf s → rtc any_step (d_tasks s) d → d_steps s !! ds_id v = Some v →
  ds_state v ≠ SCompleted → ds_state v ≠ SCancelled →
  d_attempts s !! da_id p = Some p → da_step_id p = ds_id v → da_attempt p = ds_attempt v →
  let n := ds_attempt v + 1 in
  let a := new_attempt (attempt_id (ds_id v) n) (ds_tenant v) (ds_id v) ex o n (da_epoch p + 1) until now in
  dwf (Ddb d (<[ds_id v := ds_restart ex n version now v]> (d_steps s))
    (<[da_id a := a]> (if bool_decide (da_state p = ARunning)
       then <[da_id p := da_settle AExpired None now p]> (d_attempts s) else d_attempts s))).
Proof.
  intros Hwf Hd Hv Hnc Hnx Hp Hps Hpn n a.
  assert (attempt_ok v p) as Hokp by (eapply attempt_of; [done|exact Hp|congruence]).
  pose proof (ao_number _ _ Hokp). pose proof (ao_epoch _ _ Hokp).
  apply update_wf; try done.
  - cbn. rewrite <-(dw_result s Hwf _ _ Hv). done.
  - intros k c. rewrite lookup_insert. case_decide; intros Hc; simplify_eq.
    { split; [done|left]. split; [done|]. split; cbn; try done; lia. }
    assert (da_id c = k ∧ (c = p ∧ da_state p ≠ ARunning ∨ c = da_settle AExpired None now p ∨
      c ≠ p ∧ d_attempts s !! k = Some c)) as [Hk Hwhich].
    { destruct (bool_decide (da_state p = ARunning)) eqn:Er; to_prop.
      - rewrite lookup_insert in Hc. case_decide; simplify_eq; [by auto|].
        split; [by apply (dw_key s Hwf)|]. do 2 right. split; [|done]. intros ->.
        by rewrite (dw_key s Hwf _ _ Hc) in *.
      - split; [by apply (dw_key s Hwf)|]. destruct (decide (c = p)) as [->|]; auto. }
    split; [done|]. destruct Hwhich as [[-> Hr]|[->|[Hne Hold]]].
    + left. split; [done|]. split; cbn; try apply Hokp; try (unfold n; lia).
      intros _. pose proof (ao_latest _ _ Hokp Hpn) as Hag. destruct (ds_state v); cbn in Hag; naive_solver.
    + left. split; [done|]. split; cbn; try apply Hokp; try (unfold n; lia). by right.
    + destruct (decide (da_step_id c = ds_id v)) as [Hcs|]; [left|by right]. split; [done|].
      pose proof Hv as Hv'. rewrite <-Hcs in Hv'. pose proof (attempt_of s _ _ _ Hwf Hold Hv') as Hokc.
      assert (da_attempt c ≠ ds_attempt v) as Hnn
        by (intros E; apply Hne; eapply (numbered_unique s); eauto; congruence).
      pose proof (ao_number _ _ Hokc). split; cbn; try apply Hokc; unfold n; try lia.
      intros _. apply (ao_earlier _ _ Hokc). lia.
  - intros k Hk. rewrite lookup_insert. case_decide; [eauto|].
    destruct (bool_decide _); [|done]. rewrite lookup_insert. case_decide; [eauto|done].
  - cbn. by rewrite lookup_insert_eq.
Qed.

Lemma deffect_wf now op s s' : dwf s → deffect now op s s' → dwf s'.
Proof.
  intros Hwf He. destruct He as [s d v ex o ms Hd Hten Hid Hnew Hst Hat Hres a Hfree
    |s d v p version ex o ms Hd Hv Hnc Hnx Hp Hps Hpn Hdue n a Hfree|s v a o e ms Hh Hu
    |s d v v' a o e op ast reason Hd Hh Hop Hu Hss Hset].
  - apply start_wf; try done; cbn; [rewrite Hst, Hres; split; [done|by intros [? ?]]|].
    split; cbn; try done; rewrite ?Hat, ?Hst; done || lia.
  - by apply restart_wf.
  - pose proof Hh as (Hv & Ha & Hs & Hrun & Hrun' & _).
    pose proof (settle_wf s (d_tasks s) v v a (da_extend (now + ms) now a) o e Hwf (rtc_refl _ _) Hh) as H.
    rewrite (insert_id (d_steps s)) in H by done. apply H; try done; [by apply (dw_result s Hwf _ _ Hv)|].
    cbn. by rewrite Hrun, Hrun'.
  - pose proof Hh as (Hv & _ & _ & Hrun & _). pose proof (dw_result s Hwf _ _ Hv) as Hr. rewrite Hrun in Hr.
    eapply settle_wf; try done; unfold settled in Hset; destruct op; try done; cbn in *.
    all: try (destruct Hset as (-> & -> & -> & _); split; [by eauto|done]).
    all: try (destruct Hset as (-> & -> & ->); split; [done|by intros ?%Hr]).
    all: by destruct Hset as (-> & -> & _).
Qed.

Lemma tasks_move_wf s s' :
  dwf s → d_steps s' = d_steps s → d_attempts s' = d_attempts s → rtc any_step (d_tasks s) (d_tasks s') → dwf s'.
Proof.
  intros Hwf Es Ea Hd. destruct Hwf. split; rewrite ?Es, ?Ea; try done.
  - by eapply any_steps_linked.
  - intros k v Hk. eapply task_tenant_kept; eauto.
Qed.

Lemma run_devent_wf ev s : dwf s → dwf (run_devent text_size vc ev s).
Proof.
  intros Hwf. destruct (run_devent_effect ev s Hwf) as [(Es & Ea & Hd)|(op & _ & He)].
  - by eapply tasks_move_wf.
  - by eapply deffect_wf.
Qed.

Lemma run_dhistory_wf h s : dwf s → dwf (run_dhistory text_size vc h s).
Proof. apply run_events_ind, run_devent_wf. Qed.

(** C6. Every history of commands by any sessions, on steps and on the Task
    tables, keeps the durable-step tables consistent: one row per (Task, item,
    step key); attempts numbered from 1 to the step's attempt count, once each,
    the number being the lease epoch; the latest attempt in the state of its
    step and every earlier one failed or expired, so that at most one attempt of
    a step is running; and a stored result exactly when the step is
    completed. *)
Theorem durable_tables_wf : ∀ d h, linked d →
  let s := run_dhistory text_size vc h (no_steps d) in
  dwf s ∧
  ∀ k1 k2 a1 a2, d_attempts s !! k1 = Some a1 → d_attempts s !! k2 = Some a2 →
    da_step_id a1 = da_step_id a2 → da_state a1 = ARunning → da_state a2 = ARunning → a1 = a2.
Proof.
  intros d h Hl s. assert (dwf s) as Hwf by (apply run_dhistory_wf, no_steps_wf, Hl). split; [done|].
  intros k1 k2 a1 a2 H1 H2 Hs R1 R2. destruct (dw_attempt s Hwf _ _ H1) as (v & Hv & O1).
  pose proof Hv as Hv2. rewrite Hs in Hv2. pose proof (attempt_of s _ _ _ Hwf H2 Hv2) as O2.
  assert (∀ a, attempt_ok v a → da_state a = ARunning → da_attempt a = ds_attempt v) as Hlast.
  { intros a O Ra. pose proof (ao_number _ _ O). destruct (decide (da_attempt a < ds_attempt v)) as [Hlt|]; [|lia].
    destruct (ao_earlier _ _ O Hlt); congruence. }
  eapply (numbered_unique s); eauto. by rewrite !Hlast.
Qed.

(** ** The lease protocol

    The abstract state of one step: nobody has started it, a worker holds it
    under an epoch until a deadline, it may be attempted again, or it is
    settled for good. *)

Inductive cell : Type :=
| Absent
| Held (epoch : Z) (owner : string) (until : Z)
| Open (epoch : Z)
| Done (epoch : Z) (r : R) (ref : option string)
| Halted (epoch : Z).

(** What an operation makes of a cell; [None] where the protocol refuses it. *)
Definition cell_op (now : Z) (op : lease_op) (x : cell) : option cell :=
  match op, x with
  | LAcquire o ms, Absent => Some (Held 1 o (now + ms))
  | LAcquire o ms, Open e => Some (Held (e + 1) o (now + ms))
  | LAcquire o ms, Held e _ u => if u <=? now then Some (Held (e + 1) o (now + ms)) else None
  | LRenew o e ms, Held e' o' u =>
      if bool_decide (o = o') && (e =? e') && (now <? u) then Some (Held e o (now + ms)) else None
  | LComplete o e r ref, Held e' o' u =>
      if bool_decide (o = o') && (e =? e') && (now <=? u) then Some (Done e r ref) else None
  | LFail o e, Held e' o' u => if bool_decide (o = o') && (e =? e') && (now <=? u) then Some (Open e) else None
  | LCancel o e, Held e' o' u => if bool_decide (o = o') && (e =? e') && (now <=? u) then Some (Halted e) else None
  | _, _ => None
  end.

(** The cell the tables encode. *)
Definition cell_of s (id : string) : cell :=
  match d_steps s !! id with
  | None => Absent
  | Some v =>
      match ds_state v, d_attempts s !! attempt_id id (ds_attempt v), ds_result v with
      | SRunning, Some a, _ => Held (ds_attempt v) (da_owner a) (da_until a)
      | SCompleted, _, Some r => Done (ds_attempt v) r (ds_result_ref v)
      | SCancelled, _, _ => Halted (ds_attempt v)
      | _, _, _ => Open (ds_attempt v)
      end
  end.

Lemma cell_of_frame s s' id :
  d_steps s' !! id = d_steps s !! id →
  (∀ n, d_attempts s' !! attempt_id id n = d_attempts s !! attempt_id id n) → cell_of s' id = cell_of s id.
Proof.
  intros Es Ea. unfold cell_of. rewrite Es. destruct (d_steps s !! id); [|done]. by rewrite Ea.
Qed.

Lemma cell_of_holds s v a o e : dwf s → holds s v a o e → cell_of s (ds_id v) = Held e o (da_until a).
Proof.
  intros Hwf Hh. destruct (holds_latest s v a o e Hwf Hh) as (Hok & Hn & ->).
  destruct Hh as (Hv & Ha & _ & Hr & _ & <- & _). unfold cell_of. rewrite Hv, Hr.
  by rewrite <-Hn, <-(ao_id _ _ Hok), Ha.
Qed.

Lemma settled_cell now op s v v' a o e ast :
  holds s v a o e → op_lease op = Some (o, e) → now ≤ da_until a → same_step v v' → settled op v v' ast → e = ds_attempt v →
  ∀ m, m !! ds_id v = Some v' → ∀ d atts,
  cell_op now op (Held e o (da_until a)) = Some (cell_of (Ddb d m atts) (ds_id v)).
Proof.
  intros Hh Hop Hu (_ & _ & _ & _ & _ & Hat) Hset He m Hm d atts. unfold cell_of. cbn. rewrite Hm, Hat, <-He.
  apply Z.leb_le in Hu. destruct op; try done; injection Hop as -> ->; cbn in *.
  all: rewrite bool_decide_true, Z.eqb_refl, Hu by done; cbn.
  - by destruct Hset as (_ & -> & -> & ->).
  - by destruct Hset as (_ & -> & _).
  - by destruct Hset as (_ & -> & _).
Qed.

Lemma deffect_cell now op s s' :
  dwf s → deffect now op s s' →
  ∃ id, cell_op now op (cell_of s id) = Some (cell_of s' id) ∧ ∀ id', id' ≠ id → cell_of s' id' = cell_of s id'.
Proof.
  intros Hwf He. destruct He as [s d v ex o ms Hd Hten Hid Hnew Hst Hat Hres a Hfree
    |s d v p version ex o ms Hd Hv Hnc Hnx Hp Hps Hpn Hdue n a Hfree|s v a o e ms Hh Hu
    |s d v v' a o e op ast reason Hd Hh Hop Hu Hss Hset].
  - exists (ds_id v). split.
    + unfold cell_of. rewrite Hid. cbn. rewrite lookup_insert_eq, Hst, Hat. cbn. by rewrite lookup_insert_eq.
    + intros id' Hne. apply cell_of_frame; cbn; [by rewrite lookup_insert_ne|]. intros n.
      rewrite lookup_insert_ne; [done|]. intros [E _]%attempt_id_inj. congruence.
  - assert (attempt_ok v p) as Hokp by (eapply attempt_of; [done|exact Hp|congruence]).
    pose proof (ao_latest _ _ Hokp Hpn) as Hag. pose proof (ao_id _ _ Hokp) as Hpid. rewrite Hpn in Hpid.
    exists (ds_id v). split.
    + assert (cell_of s (ds_id v) = Open (ds_attempt v) ∨
        ∃ o' u, cell_of s (ds_id v) = Held (ds_attempt v) o' u ∧ u ≤ now) as Hcell.
      { unfold cell_of. rewrite Hv, <-Hpid, Hp. destruct (ds_state v); cbn in Hag; try done; [right|by left].
        exists (da_owner p), (da_until p). auto. }
      assert (cell_of (Ddb d (<[ds_id v := ds_restart ex n version now v]> (d_steps s))
        (<[da_id a := a]> (if bool_decide (da_state p = ARunning)
           then <[da_id p := da_settle AExpired None now p]> (d_attempts s) else d_attempts s))) (ds_id v)
        = Held n o (now + ms)) as ->.
      { unfold cell_of. cbn. rewrite lookup_insert_eq. cbn. by rewrite lookup_insert_eq. }
      destruct Hcell as [->|(o' & u & -> & Hle)]; cbn; [done|]. by apply Z.leb_le in Hle as ->.
    + intros id' Hne. apply cell_of_frame; cbn; [by rewrite lookup_insert_ne|]. intros n'.
      rewrite lookup_insert_ne by (intros [E _]%attempt_id_inj; congruence). destruct (bool_decide _); [|done].
      rewrite lookup_insert_ne; [done|]. rewrite Hpid. intros [E _]%attempt_id_inj. congruence.
  - pose proof (cell_of_holds s v a o e Hwf Hh) as Hcell. destruct (holds_latest s v a o e Hwf Hh) as (Hok & Hn & Hen).
    destruct Hh as (Hv & Ha & _ & Hr & _ & Ho & _). exists (ds_id v). split.
    + rewrite Hcell. cbn. rewrite bool_decide_true, Z.eqb_refl by done. apply Z.ltb_lt in Hu as ->. cbn.
      unfold cell_of. cbn. rewrite Hv, Hr, <-Hn, <-(ao_id _ _ Hok), lookup_insert_eq. cbn. by rewrite Hn, Ho, Hen.
    + intros id' Hne. apply cell_of_frame; cbn; [done|]. intros n. rewrite lookup_insert_ne; [done|].
      rewrite (ao_id _ _ Hok). intros [E _]%attempt_id_inj. congruence.
  - pose proof (cell_of_holds s v a o e Hwf Hh) as Hcell. destruct (holds_latest s v a o e Hwf Hh) as (Hok & Hn & Hen).
    exists (ds_id v). split.
    + rewrite Hcell. eapply settled_cell; try done. apply lookup_insert_eq.
    + intros id' Hne. apply cell_of_frame; cbn; [by rewrite lookup_insert_ne|]. intros n.
      rewrite lookup_insert_ne; [done|]. rewrite (ao_id _ _ Hok). intros [E _]%attempt_id_inj. congruence.
Qed.

Lemma run_devent_cell ev s :
  dwf s →
  let s' := run_devent text_size vc ev s in
  (∀ id, cell_of s' id = cell_of s id) ∨
  ∃ op id, op_of (de_command ev) = Some op ∧ cell_op (de_now ev) op (cell_of s id) = Some (cell_of s' id) ∧
    ∀ id', id' ≠ id → cell_of s' id' = cell_of s id'.
Proof.
  intros Hwf s'. destruct (run_devent_effect ev s Hwf) as [(Es & Ea & _)|(op & Hop & He)].
  - left. intros id. unfold s'. apply cell_of_frame; [by rewrite Es|intros n; by rewrite Ea].
  - right. destruct (deffect_cell _ _ _ _ Hwf He) as (id & Hc & Hf). eauto 10.
Qed.

(** C5. The tables implement the lease protocol: after any history, a command of
    any session changes at most one step, and it changes it exactly as the
    protocol lets the operation it names change that cell (a fresh or open step
    is taken under the next epoch; a held one only once its deadline passed; it
    is renewed, completed, failed or cancelled only by the owner and epoch that
    hold it, in time); in every other case no cell changes. A worker that is
    told it acquired a step holds that step under the epoch it was given. *)
Theorem durable_steps_refine_lease : ∀ d h ev, linked d →
  let s := run_dhistory text_size vc h (no_steps d) in
  let s' := run_devent text_size vc ev s in
  ((∀ id, cell_of s' id = cell_of s id) ∨
   ∃ op id, op_of (de_command ev) = Some op ∧ cell_op (de_now ev) op (cell_of s id) = Some (cell_of s' id) ∧
     ∀ id', id' ≠ id → cell_of s' id' = cell_of s id') ∧
  (∀ c now id task ex item tv key sv owner ms max row s1,
    acquire_durable_step vc c now id task ex item tv key sv owner ms max s = Ok (row, s1) → aq_action row = ActAcquired →
    ∃ a, aq_attempt row = Some a ∧
      cell_of s1 (ds_id (aq_step row)) = Held (da_epoch a) (btrim owner) (now + ms)).
Proof.
  intros d h ev Hl s. assert (dwf s) as Hwf by (apply run_dhistory_wf, no_steps_wf, Hl).
  split; [by apply run_devent_cell|]. intros * Hacq Hact.
  destruct (acquire_ok _ _ _ _ _ _ _ _ _ _ _ _ _ _ _ Hwf Hacq) as [(? & _ & _ & _ & _ & -> & _)|[_ Hab]]; [done|].
  destruct Hab as [_ He Hs1 Hrun (a & Ha & Hl1 & Hst & Hn & Hra & Ho & Hu & Hep)]. exists a. split; [done|].
  rewrite <-Ho, <-Hu. apply (cell_of_holds s1 _ a); [by eapply deffect_wf|by split_and!].
Qed.

(** ** Consequences along histories *)

Definition cell_epoch (x : cell) : Z :=
  match x with Absent => 0 | Held e _ _ | Open e | Done e _ _ | Halted e => e end.

Lemma cell_op_epoch now op x y : cell_op now op x = Some y → cell_epoch x ≤ cell_epoch y.
Proof.
  destruct op, x; cbn; try done; try (case_match; [|done]); intros [= <-]; to_prop; cbn; lia.
Qed.

Lemma run_devent_epoch ev s id : dwf s → cell_epoch (cell_of s id) ≤ cell_epoch (cell_of (run_devent text_size vc ev s) id).
Proof.
  intros Hwf. destruct (run_devent_cell ev s Hwf) as [->|(op & id0 & _ & Hc & Hf)]; [lia|].
  destruct (decide (id = id0)) as [->|Hne]; [by eapply cell_op_epoch|]. rewrite Hf by done. lia.
Qed.

Lemma run_dhistory_epoch h s id : dwf s → cell_epoch (cell_of s id) ≤ cell_epoch (cell_of (run_dhistory text_size vc h s) id).
Proof.
  revert s. induction h as [|ev h IH]; intros s Hwf; [done|].
  change (run_dhistory text_size vc (ev :: h) s) with (run_dhistory text_size vc h (run_devent text_size vc ev s)).
  etrans; [by apply run_devent_epoch|]. apply IH. by apply run_devent_wf.
Qed.

(** The lease a holder's command names: the step, the owner and the epoch. *)
Definition lease_named (cmd : dcommand R) : option (string * string * Z) :=
  match cmd with
  | DRenew step _ owner epoch _ | DComplete step _ owner epoch _ _
  | DFail step _ owner epoch _ | DCancel step _ owner epoch _ => Some (step, owner, epoch)
  | _ => None
  end.

Lemma holder_command ev id owner epoch s :
  dwf s → lease_named (de_command ev) = Some (id, owner, epoch) →
  run_devent text_size vc ev s = s ∨ ∃ u, cell_of s id = Held epoch (btrim owner) u ∧ de_now ev ≤ u.
Proof.
  intros Hwf Hn. destruct ev as [c now cmd]. unfold run_devent, committed. cbn in *.
  assert (∀ op s', op_lease op = Some (btrim owner, epoch) → holder_effect now op id s s' →
    ∃ u, cell_of s id = Held epoch (btrim owner) u ∧ now ≤ u) as Hheld.
  { intros op s' Hop (_ & v & a & o & e & Hop' & <- & Hh & Hu). rewrite Hop in Hop'. injection Hop' as <- <-.
    exists (da_until a). split; [by apply cell_of_holds|done]. }
  destruct cmd; try done; injection Hn as -> -> ->.
  - destruct (renew_durable_step _ _ _ _ _ _ _ _) as [[? ?]|] eqn:E; [right|by left].
    apply renew_ok in E; [|done]. by eapply Hheld; [|exact E].
  - destruct (complete_durable_step _ _ _ _ _ _ _ _ _ _) as [[? ?]|] eqn:E; [|by left].
    apply complete_ok in E as [->|E]; [by left| |done]. right. by eapply Hheld; [|exact E].
  - destruct (fail_durable_step _ _ _ _ _ _ _ _) as [[? ?]|] eqn:E; [|by left].
    apply fail_ok in E as [->|E]; [by left| |done]. right. by eapply Hheld; [|exact E].
  - destruct (cancel_durable_step _ _ _ _ _ _ _ _) as [[? ?]|] eqn:E; [|by left].
    apply cancel_ok in E as [->|E]; [by left| |done]. right. by eapply Hheld; [|exact E].
Qed.

(** C7. A worker whose lease was superseded can no longer write: once a step has
    moved on to a later epoch, every renewal, completion, failure or
    cancellation that names an earlier epoch of it - under any owner and attempt
    identity, by any session, at any time and after any further commands -
    leaves the whole store as it is. *)
Theorem superseded_lease_never_writes : ∀ d h h' ev id owner epoch, linked d →
  let s := run_dhistory text_size vc h (no_steps d) in
  let s' := run_dhistory text_size vc h' s in
  epoch < cell_epoch (cell_of s id) → lease_named (de_command ev) = Some (id, owner, epoch) →
  run_devent text_size vc ev s' = s'.
Proof.
  intros d h h' ev id owner epoch Hl s s' Hlt Hn. assert (dwf s) as Hwf by (apply run_dhistory_wf, no_steps_wf, Hl).
  destruct (holder_command ev id owner epoch s' (run_dhistory_wf h' s Hwf) Hn) as [?|(u & Hc & _)]; [done|].
  pose proof (run_dhistory_epoch h' s id Hwf) as Hle. fold s' in Hle. rewrite Hc in Hle. cbn in Hle. lia.
Qed.

Lemma deffect_final now op s s' id v :
  dwf s → deffect now op s s' → d_steps s !! id = Some v → ds_state v = SCompleted ∨ ds_state v = SCancelled →
  d_steps s' !! id = Some v.
Proof.
  intros Hwf He Hv Hfin. destruct He as [s d w ex o ms Hd Hten Hid Hnew Hst Hat Hres a Hfree
    |s d w p version ex o ms Hd Hw Hnc Hnx Hp Hps Hpn Hdue n a Hfree|s w a o e ms Hh Hu
    |s d w w' a o e op ast reason Hd Hh Hop Hu Hss Hset]; cbn; try done.
  all: rewrite lookup_insert_ne; [done|]; intros <-; simplify_eq.
  - by destruct Hfin.
  - destruct Hh as (Hw & _ & _ & Hrun & _). simplify_eq. destruct Hfin; congruence.
Qed.

Lemma run_dhistory_final h s id v :
  dwf s → d_steps s !! id = Some v → ds_state v = SCompleted ∨ ds_state v = SCancelled →
  d_steps (run_dhistory text_size vc h s) !! id = Some v.
Proof.
  intros Hwf Hv Hfin. cut (dwf (run_dhistory text_size vc h s) ∧ d_steps (run_dhistory text_size vc h s) !! id = Some v);
    [tauto|]. unfold run_dhistory. apply (run_events_ind _ (λ s, dwf s ∧ d_steps s !! id = Some v)); [|done].
  intros ev s1 [Hwf1 Hv1]. split; [by apply run_devent_wf|].
  destruct (run_devent_effect ev s1 Hwf1) as [(-> & _)|(op & _ & He)]; [done|]. by eapply deffect_final.
Qed.

(** ** Acquisition of a stored step *)

(** A request of a worker that may ask for the step: well-formed, about a Task
    and an Execution the session sees, for the declared versions. *)
Record acceptable (c : session) s (id task ex item : string) (tv : Z) (key : string) (sv : Z) (owner : string)
    (ms max : Z) (t : task_row) : Prop := {
  ac_valid : invalid_acquire id task ex (btrim item) tv (btrim key) sv owner ms max = false;
  ac_task : visible_tasks c (d_tasks s) !! task = Some t;
  ac_version : t_definition_version t = tv;
  ac_execution : step_execution c s ex task (btrim item) (t_tenant t) = true;
}.

Lemma acquire_run c now s id task ex item tv key sv owner ms max t :
  acceptable c s id task ex item tv key sv owner ms max t →
  acquire_durable_step vc c now id task ex item tv key sv owner ms max s =
  tcatch (acquire_selected vc c now id task ex (btrim item) tv (btrim key) sv owner ms max (t_tenant t)
    (find_step c s task (btrim item) (btrim key))) step_id_conflict s.
Proof.
  intros [Hv Ht Htv Hex]. unfold acquire_durable_step, tcatch, dfail_if, traise_if, tbind. rewrite Hv. unfold tret.
  unfold d_on_tasks, select_task. rewrite Ht, Htv, Z.eqb_refl. cbn [negb]. unfold tget.
  replace (Ddb (d_tasks s) (d_steps s) (d_attempts s)) with s by (by destruct s). by rewrite Hex.
Qed.

(** A stored step of a Task the session sees is found under its key. *)
Lemma find_step_stored c s task item key v t :
  dwf s → d_steps s !! ds_id v = Some v → at_step task item key v = true →
  visible_tasks c (d_tasks s) !! task = Some t →
  find_step c s task item key = Some v ∧ rls_allows c (ds_tenant v) = true ∧ t_tenant t = ds_tenant v.
Proof.
  intros Hwf Hv Hat Ht. pose proof Hat as (<- & <- & <-)%at_step_true.
  apply visible_tasks_lookup in Ht as [Ht Hrls]. destruct (dw_tenant s Hwf _ _ Hv) as (t' & Ht' & Et).
  assert (t' = t) as -> by congruence. rewrite Et in Hrls. split; [|done].
  assert (v ∈ map_rows (at_step (ds_task_id v) (ds_item_key v) (ds_step_key v)) (visible_steps c s)) as Hin.
  { apply map_rows_spec. split; [done|]. exists (ds_id v). by apply visible_steps_lookup. }
  unfold find_step. destruct (map_rows _ _) as [|w l] eqn:E; [by apply elem_of_nil in Hin|]. cbn. f_equal.
  assert (w ∈ map_rows (at_step (ds_task_id v) (ds_item_key v) (ds_step_key v)) (visible_steps c s)) as Hw
    by (rewrite E; left).
  apply map_rows_spec in Hw as [Hatw [k Hk]]. apply visible_steps_lookup in Hk as [Hk _].
  symmetry. by apply (dw_unique s Hwf _ _ _ _ Hv Hk).
Qed.

(** The result of a completed step is final and is handed to every later
    worker: whatever happens afterwards, the row stays exactly as it was
    completed, and every acceptable acquisition of that step for the same
    versions returns it as reused, without an attempt and without changing the
    store. *)
Theorem completed_step_reused : ∀ d h h' v, linked d →
  let s := run_dhistory text_size vc h (no_steps d) in
  let s' := run_dhistory text_size vc h' s in
  d_steps s !! ds_id v = Some v → ds_state v = SCompleted →
  d_steps s' !! ds_id v = Some v ∧
  ∀ c now id ex item key owner ms max t,
    acceptable c s' id (ds_task_id v) ex item (ds_task_version v) key (ds_step_version v) owner ms max t →
    btrim item = ds_item_key v → btrim key = ds_step_key v →
    acquire_durable_step vc c now id (ds_task_id v) ex item (ds_task_version v) key (ds_step_version v) owner ms max s'
      = Ok (AcquireRow ActReused v None, s').
Proof.
  intros d h h' v Hl s s' Hv Hst. assert (dwf s) as Hwf by (apply run_dhistory_wf, no_steps_wf, Hl).
  assert (d_steps s' !! ds_id v = Some v) as Hv' by (apply run_dhistory_final; auto). split; [done|].
  intros * Hac Hi Hk. rewrite (acquire_run _ _ _ _ _ _ _ _ _ _ _ _ _ _ Hac), Hi, Hk.
  destruct (find_step_stored c s' (ds_task_id v) (ds_item_key v) (ds_step_key v) v t) as (-> & _).
  - by apply run_dhistory_wf.
  - done.
  - by apply at_step_true.
  - by apply ac_task in Hac.
  - unfold tcatch, acquire_selected, dfail_if, traise_if, tbind. rewrite !Z.eqb_refl. cbn.
    by rewrite bool_decide_true.
Qed.

(** The next attempt number of a step is free. *)
Lemma next_number_free s v k a :
  dwf s → d_steps s !! ds_id v = Some v → d_attempts s !! k = Some a →
  (k = attempt_id (ds_id v) (ds_attempt v + 1) ∨ da_step_id a = ds_id v ∧ da_attempt a = ds_attempt v + 1) → False.
Proof.
  intros Hwf Hv Ha Hk. destruct (dw_attempt s Hwf _ _ Ha) as (w & Hw & Hok).
  assert (da_step_id a = ds_id v ∧ da_attempt a = ds_attempt v + 1) as [Hs Hn].
  { destruct Hk as [->|?]; [|done]. pose proof (ao_id _ _ Hok) as E.
    rewrite (dw_key s Hwf _ _ Ha), (dw_step s Hwf _ _ Hw) in E. by apply attempt_id_inj in E as [<- <-]. }
  rewrite Hs in Hw. simplify_eq. pose proof (ao_number _ _ Hok). lia.
Qed.

Lemma restart_step_run c now ex owner ms max v s :
  dwf s → d_steps s !! ds_id v = Some v → rls_allows c (ds_tenant v) = true → vc = UseColumn →
  match cell_of s (ds_id v) with Open _ => True | Held _ _ u => u ≤ now | _ => False end →
  ds_attempt v < max → max ≤ 100 → ds_version v < INT8_MAX →
  ∃ b s1, restart_step c vc now ex owner ms max (ds_tenant v) v s =
    Ok (ds_restart ex (ds_attempt v + 1) (ds_version v + 1) now v, b, s1) ∧ d_tasks s1 = d_tasks s.
Proof.
  intros Hwf Hv Hrls -> Hcell Hmax H100 Hver.
  destruct (latest_attempt_wf c s v Hwf Hv Hrls) as (p & Hl & Hp & Hps & Hpn & Hok).
  assert (da_state p = ARunning → da_until p ≤ now) as Hdue.
  { intros Hr. pose proof (ao_latest _ _ Hok Hpn) as Hag. unfold cell_of in Hcell.
    rewrite Hv, <-Hpn, <-(ao_id _ _ Hok), Hp in Hcell. destruct (ds_state v); cbn in Hag; congruence || done. }
  assert (∃ x, integer_succ (ds_attempt v) = Ok x ∧ x = ds_attempt v + 1) as (x & Hx & ->).
  { exists (ds_attempt v + 1). split; [|done]. apply int_succ_ok. unfold INT4_MAX. split; [done|lia]. }
  assert (bigint_succ (ds_version v) = Ok (ds_version v + 1)) as Hbv by (apply int_succ_ok; split; [done|lia]).
  assert (bigint_succ (da_epoch p) = Ok (da_epoch p + 1)) as Hbe.
  { apply int_succ_ok. rewrite (ao_epoch _ _ Hok), Hpn. unfold INT8_MAX. split; [done|lia]. }
  set (s0 := if bool_decide (da_state p = ARunning) then put_attempt (da_settle AExpired None now p) s else s).
  assert ((if bool_decide (da_state p = ARunning) then tput (E:=sql_error) (put_attempt (da_settle AExpired None now p) s)
           else tret tt) s = Ok (tt, s0)) as Hs0 by (subst s0; by destruct (bool_decide _)).
  set (v' := ds_restart ex (ds_attempt v + 1) (ds_version v + 1) now v).
  set (b := new_attempt (attempt_id (ds_id v) (ds_attempt v + 1)) (ds_tenant v) (ds_id v) ex (btrim owner)
    (ds_attempt v + 1) (da_epoch p + 1) (now + ms) now).
  assert (insert_attempt b (put_step v' s0) = Ok (b, put_attempt b (put_step v' s0))) as Hins.
  { assert (∀ k a, d_attempts s0 !! k = Some a →
      (k = da_id b ∨ da_step_id a = ds_id v ∧ da_attempt a = ds_attempt v + 1) → False) as Hfree.
    { intros k a Ha Hk. subst s0. destruct (bool_decide (da_state p = ARunning)); [|by eapply next_number_free].
      cbn in Ha. rewrite lookup_insert in Ha. case_decide; simplify_eq; [|by eapply next_number_free].
      eapply (next_number_free s v _ p Hwf Hv Hp). cbn in Hk. by destruct Hk; [left|right]. }
    unfold insert_attempt. rewrite bool_decide_false, (proj2 (map_exists_false _ _)); [done| |].
    - intros k a Ha. unfold of_step. destruct (_ && _) eqn:E; [|done]. to_prop. exfalso. by eapply (Hfree k a); auto.
    - intros [a Ha]. by eapply (Hfree _ a); eauto. }
  exists b, (put_attempt b (put_step v' s0)). split; [|subst s0; by destruct (bool_decide _)].
  unfold restart_step, tbind, dfail_if, traise_if. unfold tget, tret, tput in *. rewrite Hl.
  replace (bool_decide (da_state p = ARunning) && (now <? da_until p)) with false; [|symmetry; apply andb_false_iff].
  - replace (max <=? ds_attempt v) with false by (symmetry; apply Z.leb_gt; lia). unfold ambiguous.
    change (conflicts expire_names) with true. change (conflicts restart_names) with true. cbv iota.
    rewrite Hs0. unfold tlift. rewrite Hx, Hbv. fold v'. rewrite Hbe. fold b. by rewrite Hins.
  - destruct (decide (da_state p = ARunning)) as [Hr|]; [right; apply Z.ltb_ge; auto|left; by apply bool_decide_eq_false].
Qed.

(** Work whose holder disappeared is taken over: when names in a statement
    resolve to columns, an acceptable request for a step that failed, or whose
    lease ran out, and that has attempts left, is granted - the requester holds
    the step under the next epoch - unless a version counter is exhausted. *)
Theorem abandoned_step_is_taken_over : ∀ d h c now id ex item key owner ms max t v, linked d → vc = UseColumn →
  let s := run_dhistory text_size vc h (no_steps d) in
  acceptable c s id (ds_task_id v) ex item (ds_task_version v) key (ds_step_version v) owner ms max t →
  btrim item = ds_item_key v → btrim key = ds_step_key v → d_steps s !! ds_id v = Some v →
  match cell_of s (ds_id v) with Open _ => True | Held _ _ u => u ≤ now | _ => False end →
  ds_attempt v < max → ds_version v < INT8_MAX → t_version t < INT8_MAX →
  ∃ row s', acquire_durable_step vc c now id (ds_task_id v) ex item (ds_task_version v) key (ds_step_version v)
      owner ms max s = Ok (row, s') ∧ aq_action row = ActAcquired ∧ aq_step row = ds_restart ex (ds_attempt v + 1) (ds_version v + 1) now v ∧
    cell_of s' (ds_id v) = Held (ds_attempt v + 1) (btrim owner) (now + ms).
Proof.
  intros d h c now id ex item key owner ms max t v Hl Hvc s Hac Hi Hk Hv Hcell Hmax Hver Htver.
  assert (dwf s) as Hwf by (apply run_dhistory_wf, no_steps_wf, Hl).
  pose proof (ac_task _ _ _ _ _ _ _ _ _ _ _ _ _ Hac) as Ht.
  destruct (find_step_stored c s (ds_task_id v) (ds_item_key v) (ds_step_key v) v t) as (Hf & Hrls & Hten);
    [done|done|by apply at_step_true|done|].
  assert (max ≤ 100) as H100.
  { pose proof (ac_valid _ _ _ _ _ _ _ _ _ _ _ _ _ Hac) as Hg. unfold invalid_acquire in Hg. to_prop. lia. }
  destruct (restart_step_run c now ex owner ms max v s) as (b & s1 & Hr & Hts); try done.
  assert (∃ s', acquire_durable_step vc c now id (ds_task_id v) ex item (ds_task_version v) key (ds_step_version v)
    owner ms max s = Ok (AcquireRow ActAcquired (ds_restart ex (ds_attempt v + 1) (ds_version v + 1) now v) (Some b), s'))
    as [s' Hs'].
  { rewrite (acquire_run _ _ _ _ _ _ _ _ _ _ _ _ _ _ Hac), Hi, Hk, Hf, Hten.
    unfold tcatch, acquire_selected, dfail_if, traise_if, tbind. rewrite !Z.eqb_refl. cbn [negb orb]. unfold tret at 1.
    assert (ds_state v ≠ SCompleted ∧ ds_state v ≠ SCancelled) as [H1 H2].
    { unfold cell_of in Hcell. rewrite Hv in Hcell. pose proof (dw_result s Hwf _ _ Hv) as Hres.
      destruct (ds_state v); try done. destruct Hres as [Hres _]. destruct (Hres eq_refl) as [r Er].
      by rewrite Er in Hcell. }
    rewrite (bool_decide_false _ H1), (bool_decide_false _ H2). unfold tret at 1. rewrite Hr. subst vc. rewrite ?ambiguous_column.
    unfold d_on_tasks, update_task. rewrite Hts, Ht. unfold bump_task.
    replace (bigint_succ (t_version t)) with (Ok (E:=sql_error) (t_version t + 1)); [by eexists|].
    symmetry. apply int_succ_ok. split; [done|lia]. }
  eexists _, s'. split; [done|]. split; [done|]. split; [done|].
  destruct (acquire_ok _ _ _ _ _ _ _ _ _ _ _ _ _ _ _ Hwf Hs') as [(? & _ & _ & _ & _ & [=] & _)|[_ Hab]].
  destruct Hab as [_ He Hs1 Hrun (a & Ha & Hl1 & Hst & Hn & Hra & Ho & Hu & Hep)]. cbn in *.
  change (ds_id v) with (ds_id (ds_restart ex (ds_attempt v + 1) (ds_version v + 1) now v)).
  rewrite <-Hu. apply (cell_of_holds s' _ a); [by eapply deffect_wf|]. split_and!; try done. by rewrite Hep, Hn.
Qed.

(** ** The default resolution of names *)

Lemma run_devent_empty ev s :
  dwf s → vc ≠ UseColumn → d_steps s = ∅ → d_attempts s = ∅ →
  d_steps (run_devent text_size vc ev s) = ∅ ∧ d_attempts (run_devent text_size vc ev s) = ∅.
Proof.
  intros Hwf Hvc Es Ea. destruct (lease_named (de_command ev)) as [[[id owner] epoch]|] eqn:En.
  - destruct (holder_command ev id owner epoch s Hwf En) as [->|(u & Hc & _)]; [done|].
    unfold cell_of in Hc. by rewrite Es, lookup_empty in Hc.
  - destruct ev as [c now cmd]. destruct cmd as [id task ex item tv key sv owner ms max| | | | |cmd]; try done.
    + unfold run_devent, committed. cbn. destruct (acquire_durable_step _ _ _ _ _ _ _ _ _ _ _ _ _ _) as [[row s']|] eqn:E; [|done].
      apply acquire_ok in E as [(? & _ & _ & _ & _ & _ & ->)|[_ Hab]]; [done| |done]. by destruct Hab.
    + destruct (run_devent_effect (DEvent c now (DTask cmd)) s Hwf) as [(-> & -> & _)|(op & [=] & _)]. done.
Qed.

(** Under the documented default of PL/pgSQL no durable step is ever acquired: the
    function's output columns make [version] in its UPDATE of the Task (and [id]
    in its UPDATE of the step) ambiguous. However often workers try, no step is
    ever stored, and every acceptable acquisition fails with SQLSTATE 42702,
    which the client reports as an unreachable database, to be retried. *)
Theorem acquire_ambiguous_by_default : ∀ d h, linked d → vc = ConflictError →
  let s := run_dhistory text_size vc h (no_steps d) in
  (∀ id, cell_of s id = Absent) ∧
  ∀ c now id task ex item tv key sv owner ms max t,
    acceptable c s id task ex item tv key sv owner ms max t →
    acquire_durable_step vc c now id task ex item tv key sv owner ms max s = Err AMBIGUOUS_COLUMN ∧
    mapDatabaseError AMBIGUOUS_COLUMN = RhinoQError "RHINOQ_POSTGRES_UNREACHABLE" true None.
Proof.
  intros d h Hl Hvc s.
  assert (dwf s ∧ d_steps s = ∅ ∧ d_attempts s = ∅) as (Hwf & Es & Ea).
  { unfold s, run_dhistory. apply (run_events_ind _ (λ s, dwf s ∧ d_steps s = ∅ ∧ d_attempts s = ∅)).
    - intros ev s1 (Hwf & E1 & E2). split; [by apply run_devent_wf|]. apply run_devent_empty; congruence.
    - split; [by apply no_steps_wf|done]. }
  split; [intros id; unfold cell_of; by rewrite Es, lookup_empty|].
  intros * Hac. split; [|done]. rewrite (acquire_run _ _ _ _ _ _ _ _ _ _ _ _ _ _ Hac).
  assert (find_step c s task (btrim item) (btrim key) = None) as ->.
  { unfold find_step, visible_steps. by rewrite Es, map_filter_empty. }
  unfold tcatch, acquire_selected, start_step, insert_step, insert_attempt, tbind.
  rewrite Es, lookup_empty, bool_decide_false by (by intros [? ?]). cbn [map_exists]. unfold map_exists at 1.
  rewrite map_fold_empty. cbn [orb]. cbn [put_step d_attempts]. rewrite Ea, lookup_empty, bool_decide_false by (by intros [? ?]).
  unfold map_exists. rewrite map_fold_empty. cbn [orb]. by rewrite Hvc.
Qed.
End facts.

(** ** Concrete histories: the worker of the first attempt disappears *)

Definition step_size (r : string) : Z := Z.of_nat (String.length r).

Definition step_acquire (now : Z) (owner : string) : devent string :=
  DEvent demo_session now (DAcquire "s1" "t1" "e1" "a" 1 "charge" 1 owner 1000 3).

Definition step_complete (now : Z) (owner : string) (epoch : Z) (r : string) : devent string :=
  DEvent demo_session now (DComplete "s1" (attempt_id "s1" epoch) owner epoch r None).

Definition crash_history : list (devent string) := [step_acquire 10 "w1"].
Definition handover_history : list (devent string) := [step_acquire 10 "w1"; step_acquire 2000 "w2"].

Definition after (h : list (devent string)) : ddb string := run_dhistory step_size UseColumn h (no_steps mid_db).

Lemma run_dhistory_nil {R} `{!EqDecision R} size vc (s : ddb R) : run_dhistory size vc [] s = s.
Proof. reflexivity. Qed.

Lemma mid_linked : linked mid_db.
Proof. apply reachable_linked, mid_reachable. Qed.

(** The row of the step after a history. *)
Definition demo_step (h : list (devent string)) : ds_row string :=
  default (DsRow "" "" "" "" "" "" 0 0 SPending None None None 0 0 0 0 None) (d_steps (after h) !! "s1").

Definition demo_task (s : ddb string) : task_row :=
  default (TaskRow "" "" "" None 0 Pending (Progress 0 None None) None (Cancellation CNone None) 0
    (ExecCounts 0 0 0 0 0 0 0 0) None 0 0) (db_tasks (d_tasks s) !! "t1").

Lemma demo_acceptable (s : ddb string) owner :
  visible_tasks demo_session (d_tasks s) !! "t1" = Some (demo_task s) → t_definition_version (demo_task s) = 1 →
  step_execution demo_session s "e1" "t1" "a" (t_tenant (demo_task s)) = true → blank owner = false →
  acceptable demo_session s "s1" "t1" "e1" "a" 1 "charge" 1 owner 1000 3 (demo_task s).
Proof. intros Ht Hv He Ho. split; [|done..]. unfold invalid_acquire. rewrite Ho. vm_compute. reflexivity. Qed.

Lemma durable_tables_wf_witness : dwf (after handover_history).
Proof. apply (durable_tables_wf step_size UseColumn mid_db handover_history mid_linked). Defined.

Lemma durable_steps_refine_lease_witness :
  ∃ row s1, acquire_durable_step UseColumn demo_session 2000 "s1" "t1" "e1" "a" 1 "charge" 1 "w2" 1000 3
      (after crash_history) = Ok (row, s1) ∧ cell_of s1 "s1" = Held 2 "w2" 3000.
Proof.
  destruct (acquire_durable_step UseColumn demo_session 2000 "s1" "t1" "e1" "a" 1 "charge" 1 "w2" 1000 3
      (after crash_history)) as [[row s1]|] eqn:E; [|by vm_compute in E].
  exists row, s1. split; [done|].
  destruct (durable_steps_refine_lease step_size UseColumn mid_db crash_history (step_acquire 0 "w0") mid_linked)
    as [_ H]. destruct (H _ _ _ _ _ _ _ _ _ _ _ _ _ _ E) as (a & Ha & Hc).
  - vm_compute in E. injection E as <- _. reflexivity.
  - vm_compute in E. injection E as <- <-. cbn in Ha. injection Ha as <-. exact Hc.
Defined.

Lemma superseded_lease_never_writes_witness :
  run_devent step_size UseColumn (step_complete 900 "w1" 1 "stale") (after handover_history) = after handover_history.
Proof.
  pose proof (superseded_lease_never_writes step_size UseColumn mid_db handover_history []
    (step_complete 900 "w1" 1 "stale") "s1" "w1" 1 mid_linked) as H. cbn zeta in H. rewrite run_dhistory_nil in H.
  unfold after. apply H; [vm_compute; reflexivity|reflexivity].
Defined.

Definition done_history : list (devent string) := handover_history ++ [step_complete 2500 "w2" 2 "receipt"].

Lemma completed_step_reused_witness :
  ds_result (demo_step done_history) = Some "receipt" ∧
  acquire_durable_step UseColumn demo_session 9000 "s1" "t1" "e1" "a" 1 "charge" 1 "w3" 1000 3 (after done_history)
    = Ok (AcquireRow ActReused (demo_step done_history) None, after done_history).
Proof.
  split; [vm_compute; reflexivity|].
  pose proof (completed_step_reused step_size UseColumn mid_db done_history [] (demo_step done_history) mid_linked) as H.
  cbn zeta in H. rewrite run_dhistory_nil in H. fold (after done_history) in H.
  assert (ds_task_id (demo_step done_history) = "t1" ∧ ds_task_version (demo_step done_history) = 1 ∧
    ds_step_version (demo_step done_history) = 1) as (E1 & E2 & E3) by (split_and!; vm_compute; reflexivity).
  rewrite E1, E2, E3 in H. destruct H as [_ H]; [vm_compute; reflexivity..|].
  apply (H demo_session 9000 "s1" "e1" "a" "charge" "w3" 1000 3 (demo_task (after done_history))); [|vm_compute; reflexivity..].
  apply (demo_acceptable (after done_history) "w3"); vm_compute; reflexivity.
Defined.

Lemma abandoned_step_is_taken_over_witness :
  ∃ row s', acquire_durable_step UseColumn demo_session 2000 "s1" "t1" "e1" "a" 1 "charge" 1 "w2" 1000 3
      (after crash_history) = Ok (row, s') ∧ cell_of s' "s1" = Held 2 "w2" 3000.
Proof.
  pose proof (abandoned_step_is_taken_over step_size UseColumn mid_db crash_history demo_session 2000 "s1" "e1" "a" "charge"
    "w2" 1000 3 (demo_task (after crash_history)) (demo_step crash_history) mid_linked eq_refl) as H.
  cbn zeta in H. fold (after crash_history) in H.
  assert (ds_task_id (demo_step crash_history) = "t1" ∧ ds_task_version (demo_step crash_history) = 1 ∧
    ds_step_version (demo_step crash_history) = 1 ∧ ds_id (demo_step crash_history) = "s1" ∧
    ds_attempt (demo_step crash_history) = 1 ∧ btrim "w2" = "w2") as (E1 & E2 & E3 & E4 & E5 & E6)
    by (split_and!; vm_compute; reflexivity).
  rewrite E1, E2, E3, E4, E5, E6 in H. destruct H as (row & s' & Hr & _ & _ & Hc); [|vm_compute; done..|].
  - apply (demo_acceptable (after crash_history) "w2"); vm_compute; reflexivity.
  - exists row, s'. rewrite Hr, Hc. split; reflexivity.
Defined.

Lemma acquire_ambiguous_by_default_witness :
  acquire_durable_step ConflictError demo_session 10 "s1" "t1" "e1" "a" 1 "charge" 1 "w1" 1000 3
    (no_steps mid_db : ddb string) = Err AMBIGUOUS_COLUMN.
Proof.
  pose proof (acquire_ambiguous_by_default step_size ConflictError mid_db [] mid_linked eq_refl) as [_ H].
  rewrite run_dhistory_nil in H. apply (H demo_session 10 "s1" "t1" "e1" "a" 1 "charge" 1 "w1" 1000 3 (demo_task (no_steps mid_db))).
  apply demo_acceptable; vm_compute; reflexivity.
Defined.
