(* ===== verification/DurableContext.v ===== *)
(** * Durable steps: the client and the handler's context

    The client methods of [postgres/task-client.ts] over the commands of
    [DurableSteps], the interface [DurableStepClient] and the context
    [createDurableTaskContext] of [tasks/durable.ts]: [ctx.step] runs a callback
    under a renewed lease and commits its value, or returns the value an earlier
    pass committed; [ctx.effect] sends a mutation through the effect ledger. *)

From stdpp Require Import base gmap strings list fin_maps sorting pretty.
From Stdlib Require Import Ascii ZArith Lia.
From S2P Require Import Prelude TaskModel StoreSteps TaskClient Checkpoints SharedStore DurableSteps.

Open Scope act_scope.

(** What a handler can throw: an error of the client, another [Error] of the
    SDK, the loss of a lease, an end user's cancellation with its message, or
    anything else, with the text [String(error)] of it. *)
Inductive ctx_error : Type :=
| CtxClient (e : js_error)
| CtxError
| CtxLeaseLost (stepId : string)
| CtxUserCancellation (message : string)
| CtxThrown (text : string).

Record DurableStepLease := StepLease {
  l_stepId : string; l_attemptId : string; l_owner : string; l_epoch : Z; l_expiresAt : Z; l_attempt : Z;
}.

Record DurableStepAcquireRequest := {
  dq_taskId : string; dq_executionId : string; dq_itemKey : string; dq_taskVersion : Z; dq_stepKey : string;
  dq_stepVersion : Z; dq_owner : string; dq_leaseMs : Z; dq_maxAttempts : Z;
}.

Section values.
(** [V] is the type of JavaScript values and [J] of JSON values. *)
Context {V J : Type} `{!EqDecision J}.

Record DurableStepAcquireResult := {
  ar_action : acquire_action; ar_state : step_state; ar_result : option V; ar_resultRef : option string;
  ar_lease : option DurableStepLease;
}.

Record DurableStepRecord := StepRecord {
  sr_id : string; sr_taskId : string; sr_executionId : option string; sr_itemKey : string; sr_key : string;
  sr_taskVersion : Z; sr_stepVersion : Z; sr_state : step_state; sr_result : option V; sr_resultRef : option string;
  sr_error : option string; sr_attempt : Z; sr_createdAt : Z; sr_updatedAt : Z; sr_completedAt : option Z;
}.

(** The interface [ctx.step] is written against. *)
Class DurableStepClient (W : Type) := {
  dc_acquire : DurableStepAcquireRequest → act W js_error DurableStepAcquireResult;
  dc_complete : DurableStepLease → V → option string → act W js_error DurableStepRecord;
  dc_fail : DurableStepLease → ctx_error → act W js_error DurableStepRecord;
  dc_cancel : DurableStepLease → option string → act W js_error DurableStepRecord;
  dc_renew : DurableStepLease → Z → act W js_error DurableStepLease;
}.

(** ** The PostgreSQL client

    [to_json v] is the property [value] of the object that JSON.stringify writes
    for [{ value: v }]: [None] where it drops the property (undefined, a
    function or a symbol) and an error where it throws. A stored result is such
    an object: [Some j] for [{"value": j}], [None] for [{}]. [json_bytes] and
    [text_size] are the lengths of the text JSON.stringify and PostgreSQL print
    for it; [of_json] reads a value back. [describe] is
    [`${error.name}: ${error.message}`]. *)
Section client.
Context (to_json : V → result js_error (option J)) (of_json : J → V).
Context (json_bytes text_size : option J → Z) (sha256 : string → string) (describe : ctx_error → string).
Context (vc : variable_conflict) (c : session).

Definition dworld : Type := sworld (ddb (option J)) (devent (option J)).
Definition dio (A : Type) : Type := act dworld js_error A.

Definition dexecute {A} (m : Z → dsql (option J) A) : dio A := sexecute (run_devent text_size vc) m.

Definition lift {A} (r : result js_error A) : dio A := λ w, (r, w).

Definition decodeDurableStepResult (value : option J) : result js_error V :=
  match value with Some j => Ok (of_json j) | None => Err TypeError end.

Definition mapDurableStep (r : ds_row (option J)) : result js_error DurableStepRecord :=
  let record value := StepRecord (ds_id r) (ds_task_id r) (truthy (Some (ds_execution_id r))) (ds_item_key r)
    (ds_step_key r) (ds_task_version r) (ds_step_version r) (ds_state r) value (truthy (ds_result_ref r))
    (truthy (ds_failure_reason r)) (ds_attempt r) (ds_created_at r) (ds_updated_at r) (ds_completed_at r) in
  match ds_result r with
  | None => Ok (record None)
  | Some value =>
      match decodeDurableStepResult value with
      | Ok v => Ok (record (Some v))
      | Err e => Err e
      end
  end.

Definition mapDurableStepAcquire (row : acquire_row (option J)) : result js_error DurableStepAcquireResult :=
  match mapDurableStep (aq_step row) with
  | Err e => Err e
  | Ok record =>
      match aq_action row, aq_attempt row with
      | ActReused, _ => Ok {| ar_action := ActReused; ar_state := sr_state record; ar_result := sr_result record;
          ar_resultRef := sr_resultRef record; ar_lease := None |}
      | ActAcquired, Some a =>
          if isEmpty (da_id a) || isEmpty (da_owner a) then Err TypeError else
          Ok {| ar_action := ActAcquired; ar_state := sr_state record; ar_result := None; ar_resultRef := None;
            ar_lease := Some (StepLease (sr_id record) (da_id a) (da_owner a) (da_epoch a) (da_until a) (sr_attempt record)) |}
      | ActAcquired, None => Err TypeError
      end
  end.

Definition unsafe_positive (n : Z) : bool := (n <? 1) || (MAX_SAFE_INTEGER <? n).

Definition validateDurableStepAcquire (rq : DurableStepAcquireRequest) : dio unit :=
  athrow_if (js_blank (dq_taskId rq) || js_blank (dq_executionId rq) || js_blank (dq_itemKey rq)
    || js_blank (dq_stepKey rq) || js_blank (dq_owner rq)) TypeError ;+
  athrow_if ((256 <? Z.of_nat (String.length (dq_itemKey rq))) || (256 <? Z.of_nat (String.length (dq_stepKey rq))))
    RangeError ;+
  athrow_if (unsafe_positive (dq_taskVersion rq) || unsafe_positive (dq_stepVersion rq)
    || unsafe_positive (dq_leaseMs rq) || unsafe_positive (dq_maxAttempts rq)) RangeError ;+
  athrow_if ((dq_leaseMs rq <? 1000) || (3600000 <? dq_leaseMs rq)) RangeError ;+
  athrow_if (100 <? dq_maxAttempts rq) RangeError.

Definition validateDurableStepLease (l : DurableStepLease) : dio unit :=
  athrow_if (js_blank (l_stepId l) || js_blank (l_attemptId l) || js_blank (l_owner l) || unsafe_positive (l_epoch l))
    TypeError.

Definition durable_step_id (taskId itemKey stepKey : string) : string :=
  ("step-" +:+ left_text 32 (sha256 (taskId +:+ NUL +:+ itemKey +:+ NUL +:+ stepKey)))%string.

(** The versions are [integer] parameters: PostgreSQL refuses a larger value. *)
Definition acquire_statement (rq : DurableStepAcquireRequest) (now : Z) : dsql (option J) (acquire_row (option J)) :=
  tbind (traise_if ((INT4_MAX <? dq_taskVersion rq) || (INT4_MAX <? dq_stepVersion rq)) OUT_OF_RANGE) (λ _,
  acquire_durable_step vc c now (durable_step_id (dq_taskId rq) (dq_itemKey rq) (dq_stepKey rq)) (dq_taskId rq)
    (dq_executionId rq) (dq_itemKey rq) (dq_taskVersion rq) (dq_stepKey rq) (dq_stepVersion rq) (dq_owner rq)
    (dq_leaseMs rq) (dq_maxAttempts rq)).

Definition acquireDurableStep (rq : DurableStepAcquireRequest) : dio DurableStepAcquireResult :=
  validateDurableStepAcquire rq ;+
  let+ row := dexecute (acquire_statement rq) in
  lift (mapDurableStepAcquire row).

Definition renewDurableStep (l : DurableStepLease) (leaseMs : Z) : dio DurableStepLease :=
  validateDurableStepLease l ;+
  athrow_if ((leaseMs <? 1000) || (3600000 <? leaseMs)) RangeError ;+
  let+ row := dexecute (λ now, renew_durable_step c now (l_stepId l) (l_attemptId l) (l_owner l) (l_epoch l) leaseMs) in
  athrow_if (negb (bool_decide (da_id row = l_attemptId l)) || negb (bool_decide (da_owner row = l_owner l))
    || negb (da_epoch row =? l_epoch l)) (RhinoQError "RHINOQ_DURABLE_STEP_NOT_RETURNED" false None) ;+
  aret (StepLease (l_stepId l) (l_attemptId l) (l_owner l) (l_epoch l) (da_until row) (l_attempt l)).

Definition encodeDurableStepResult (value : V) : result js_error (option J) :=
  match to_json value with
  | Err _ => Err TypeError
  | Ok o => if 65536 <? json_bytes o then Err RangeError else Ok o
  end.

Definition optionalResultRef (ref : option string) : result js_error (option string) :=
  match ref with
  | None => Ok None
  | Some r =>
      let r := js_trim r in
      if isEmpty r || (2048 <? Z.of_nat (String.length r)) then Err RangeError else Ok (Some r)
  end.

Definition completeDurableStep (l : DurableStepLease) (value : V) (resultRef : option string) : dio DurableStepRecord :=
  validateDurableStepLease l ;+
  let+ encoded := lift (encodeDurableStepResult value) in
  let+ ref := lift (optionalResultRef resultRef) in
  let+ row := dexecute (λ now, complete_durable_step text_size c now (l_stepId l) (l_attemptId l) (l_owner l)
    (l_epoch l) encoded ref) in
  lift (mapDurableStep row).

(** [value.trim().slice(0, 2048) || 'Step handler failed.'] *)
Definition durableStepFailureReason (e : ctx_error) : string :=
  default "Step handler failed." (truthy (Some (left_text 2048 (js_trim (describe e))))).

Definition failDurableStep (l : DurableStepLease) (e : ctx_error) : dio DurableStepRecord :=
  validateDurableStepLease l ;+
  let+ row := dexecute (λ now, fail_durable_step c now (l_stepId l) (l_attemptId l) (l_owner l) (l_epoch l)
    (durableStepFailureReason e)) in
  lift (mapDurableStep row).

Definition cancelDurableStep (l : DurableStepLease) (reason : option string) : dio DurableStepRecord :=
  validateDurableStepLease l ;+
  athrow_if (match reason with Some r => 2048 <? Z.of_nat (String.length r) | None => false end) RangeError ;+
  let+ row := dexecute (λ now, cancel_durable_step c now (l_stepId l) (l_attemptId l) (l_owner l) (l_epoch l) reason) in
  lift (mapDurableStep row).

(** [ORDER BY item_key, created_at, id] *)
Definition step_order (a b : ds_row (option J)) : bool :=
  if bool_decide (ds_item_key a = ds_item_key b) then
    if ds_created_at a =? ds_created_at b then String.leb (ds_id a) (ds_id b) else ds_created_at a <? ds_created_at b
  else String.ltb (ds_item_key a) (ds_item_key b).

Definition step_le (a b : ds_row (option J)) : Prop := step_order a b = true.
#[export] Instance step_le_dec : RelDecision step_le.
Proof. intros a b. unfold step_le. apply _. Defined.

(** [rows.map(mapDurableStep)]: the first row that cannot be decoded throws. *)
Fixpoint mapDurableSteps (rows : list (ds_row (option J))) : result js_error (list DurableStepRecord) :=
  match rows with
  | [] => Ok []
  | r :: rest =>
      match mapDurableStep r, mapDurableSteps rest with
      | Ok x, Ok l => Ok (x :: l)
      | Err e, _ | Ok _, Err e => Err e
      end
  end.

Definition listDurableSteps (taskId : string) (itemKey : option string) : dio (list DurableStepRecord) :=
  athrow_if (js_blank taskId) TypeError ;+
  athrow_if (match itemKey with Some i => js_blank i || (256 <? Z.of_nat (String.length i)) | None => false end) RangeError ;+
  let item := i ← itemKey; truthy (Some (js_trim i)) in
  let wanted r := bool_decide (ds_task_id r = taskId)
    && match item with Some i => bool_decide (ds_item_key r = i) | None => true end in
  let+ rows := dexecute (λ _ s, Ok (merge_sort step_le (map_rows wanted (visible_steps c s)), s)) in
  lift (mapDurableSteps rows).

#[export] Instance PostgresDurableSteps : DurableStepClient dworld := {
  dc_acquire := acquireDurableStep;
  dc_complete := completeDurableStep;
  dc_fail := failDurableStep;
  dc_cancel := cancelDurableStep;
  dc_renew := renewDurableStep;
}.
End client.

(** ** The context of one handler pass *)

Section context.
Context {W : Type} `{!DurableStepClient W}.

(** The heartbeat of [keepStepLeaseAlive]: the current lease and the first
    failed renewal. *)
Record heartbeat := Heartbeat { hb_lease : DurableStepLease; hb_failure : option js_error }.

Definition heartbeat_interval (leaseMs : Z) : Z := Z.max 250 (leaseMs / 2).

(** The timer fires: one renewal, after which it is armed again unless the
    renewal failed. *)
Definition beat (leaseMs : Z) (hb : heartbeat) (w : W) : heartbeat * W :=
  match hb_failure hb with
  | Some _ => (hb, w)
  | None =>
      match dc_renew (hb_lease hb) leaseMs w with
      | (Ok l, w') => (Heartbeat l None, w')
      | (Err e, w') => (Heartbeat (hb_lease hb) (Some e), w')
      end
  end.

(** A callback as its caller sees it: it settles, or awaits something - the
    rest of the world moves, the heartbeat's timer may fire - and goes on. *)
Inductive callback : Type :=
| Settles (r : result ctx_error V)
| Awaits (others : W → W) (fires : bool) (k : W → callback).

Fixpoint run_callback (leaseMs : Z) (cb : callback) (hb : heartbeat) (w : W) : result ctx_error V * heartbeat * W :=
  match cb with
  | Settles r => (r, hb, w)
  | Awaits others fires k =>
      let w1 := others w in
      let (hb', w2) := if fires then beat leaseMs hb w1 else (hb, w1) in
      run_callback leaseMs (k w2) hb' w2
  end.

Record DurableStepOptions := { so_version : option Z; so_timeoutMs : option Z; so_attempts : option Z }.

(** The arguments after the key: a callback, options with a callback, or
    something else. *)
Inductive step_arguments : Type :=
| JustRun (run : callback)
| OptionsRun (o : DurableStepOptions) (run : callback)
| BadArguments.

Definition positive (value : Z) : bool := (1 <=? value) && (value <=? MAX_SAFE_INTEGER).
Definition within (value min max : Z) : bool := (min <=? value) && (value <=? max).

Definition optional (p : Z → bool) (o : option Z) : bool := match o with Some n => p n | None => true end.

Definition normalizeStepArguments (args : step_arguments) : result ctx_error (DurableStepOptions * callback) :=
  match args with
  | JustRun run => Ok ({| so_version := None; so_timeoutMs := None; so_attempts := None |}, run)
  | BadArguments => Err (CtxClient TypeError)
  | OptionsRun o run =>
      if negb (optional positive (so_version o)) then Err (CtxClient RangeError) else
      if negb (optional (λ n, within n 1 86400000) (so_timeoutMs o)) then Err (CtxClient RangeError) else
      if negb (optional (λ n, within n 1 100) (so_attempts o)) then Err (CtxClient RangeError) else
      Ok (o, run)
  end.

Definition required (value : option string) : result ctx_error string :=
  match truthy (js_trim <$> value) with Some s => Ok s | None => Err (CtxClient TypeError) end.

Definition stableKey (value : option string) (maxLength : Z) : result ctx_error string :=
  match required value with
  | Err e => Err e
  | Ok s => if maxLength <? Z.of_nat (String.length s) then Err (CtxClient RangeError) else Ok s
  end.

Definition effectNamePart (value : option string) : result ctx_error string :=
  match stableKey value 64 with
  | Err e => Err e
  | Ok s => if includes "." s then Err (CtxClient TypeError) else Ok s
  end.

(** The validated options of a context; [x_hasSteps] tells whether a step client
    was given. *)
Record context := Context_ {
  x_taskId : string; x_executionId : string; x_itemKey : string; x_taskVersion : Z; x_workerId : string;
  x_stepLeaseMs : Z; x_hasSteps : bool;
}.

Definition createDurableTaskContext (taskId executionId itemKey : option string) (taskVersion : Z)
    (workerId : option string) (pid : string) (stepLeaseMs : option Z) (hasSteps : bool) : result ctx_error context :=
  match required taskId, required executionId with
  | Err e, _ | Ok _, Err e => Err e
  | Ok task, Ok execution =>
      if negb (positive taskVersion) then Err (CtxClient RangeError) else
      let leaseMs := default 60000 stepLeaseMs in
      if negb (within leaseMs 1000 3600000) then Err (CtxClient RangeError) else
      Ok (Context_ task execution (default "default" (truthy (js_trim <$> itemKey))) taskVersion
        (default ("node:" +:+ pid)%string (truthy (js_trim <$> workerId))) leaseMs hasSteps)
  end.

(** The world of a handler pass: the shared one and the keys it declared. *)
Record pass := Pass { ps_world : W; ps_steps : gset string; ps_effects : gset string }.

(** [artifact_of] reads [id] off a value that has string [id], [taskId],
    [contentType] and [name]; [aborted] is the reason of the signal once it is
    aborted. *)
Context (undefined : V) (artifact_of : V → option string) (aborted : W → option ctx_error).

Definition artifactResultReference (value : V) : option string :=
  (λ id, "artifact:" +:+ id)%string <$> artifact_of value.

(** The catch block: record the failure under the lease, whatever that write
    answers, and throw the original error. *)
Definition record_failure (l : DurableStepLease) (e : ctx_error) (w : W) : W :=
  match e with
  | CtxUserCancellation message => (dc_cancel l (Some message) w).2
  | _ => (dc_fail l e w).2
  end.

(** The try block under a lease. *)
Definition run_step (ctx : context) (run : callback) (l : DurableStepLease) : act W ctx_error V := λ w,
  let throw (hb : heartbeat) (e : ctx_error) (w : W) := (Err e, record_failure (hb_lease hb) e w) in
  match aborted w with
  | Some e => throw (Heartbeat l None) e w
  | None =>
      match run_callback (x_stepLeaseMs ctx) run (Heartbeat l None) w with
      | (Err e, hb, w1) => throw hb e w1
      | (Ok value, hb, w1) =>
          match hb_failure hb with
          | Some _ => throw hb (CtxLeaseLost (l_stepId (hb_lease hb))) w1
          | None =>
              match aborted w1 with
              | Some e => throw hb e w1
              | None =>
                  match dc_complete (hb_lease hb) value (artifactResultReference value) w1 with
                  | (Ok _, w2) => (Ok value, w2)
                  | (Err e, w2) => throw hb (CtxClient e) w2
                  end
              end
          end
      end
  end.

Definition step (ctx : context) (key : option string) (args : step_arguments) : act pass ctx_error V := λ p,
  match stableKey key 256 with
  | Err e => (Err e, p)
  | Ok stepKey =>
      if bool_decide (stepKey ∈ ps_steps p) then (Err CtxError, p) else
      let p1 := Pass (ps_world p) ({[stepKey]} ∪ ps_steps p) (ps_effects p) in
      match normalizeStepArguments args with
      | Err e => (Err e, p1)
      | Ok (declaration, run) =>
          if negb (x_hasSteps ctx) then (Err (CtxClient TypeError), p1) else
          let request := {|
            dq_taskId := x_taskId ctx; dq_executionId := x_executionId ctx; dq_itemKey := x_itemKey ctx;
            dq_taskVersion := x_taskVersion ctx; dq_stepKey := stepKey;
            dq_stepVersion := default 1 (so_version declaration); dq_owner := x_workerId ctx;
            dq_leaseMs := x_stepLeaseMs ctx; dq_maxAttempts := default 1 (so_attempts declaration) |} in
          let (answer, w) :=
            match dc_acquire request (ps_world p1) with
            | (Err e, w) => (Err (CtxClient e), w)
            | (Ok a, w) =>
                match ar_action a, ar_lease a with
                | ActReused, _ => (Ok (default undefined (ar_result a)), w)
                | ActAcquired, None => (Err CtxError, w)
                | ActAcquired, Some l => run_step ctx run l w
                end
            end in
          (answer, Pass w (ps_steps p1) (ps_effects p1))
      end
  end.

(** ** [ctx.effect] *)

Inductive operation_state := OpPending | OpAccepted | OpConfirmed | OpFailed | OpNotHappened | OpUncertain.

Inductive effect_error : Type :=
| EffThrown (e : ctx_error)
| EffUncertain (key : string)
| EffNotConfirmed (key : string)
| EffFailed (key : string).

(** The options of [ctx.effect]; [eo_execute] tells whether [execute] is a
    function and [eo_verify] whether a read-back is given. *)
Record DurableEffectOptions := {
  eo_provider : option string; eo_operation : option string; eo_key : option string; eo_execute : bool;
  eo_verify : bool; eo_confirmation : option string; eo_retryPolicy : option string;
}.

(** The command handed to the ledger. *)
Record ledger_command := LedgerCommand {
  lc_taskId : string; lc_provider : string; lc_operation : string; lc_commandId : string;
  lc_confirmation : string; lc_retryPolicy : string;
}.

(** [ledger] is the Effect Ledger client, when one is configured: it returns the
    state of the operation. *)
Definition effect (sha256 : string → string) (ledger : option (ledger_command → act W js_error operation_state))
    (ctx : context) (activeStep : option string) (key : option string) (o : DurableEffectOptions)
    : act pass effect_error operation_state := λ p,
  match stableKey key 256 with
  | Err e => (Err (EffThrown e), p)
  | Ok effectKey =>
      if bool_decide (effectKey ∈ ps_effects p) then (Err (EffThrown CtxError), p) else
      let p1 := Pass (ps_world p) (ps_steps p) ({[effectKey]} ∪ ps_effects p) in
      if negb (eo_execute o) then (Err (EffThrown (CtxClient TypeError)), p1) else
      match effectNamePart (Some (default "application" (eo_provider o))),
            effectNamePart (Some (default effectKey (eo_operation o))), stableKey (eo_key o) 256 with
      | Err e, _, _ | Ok _, Err e, _ | Ok _, Ok _, Err e => (Err (EffThrown e), p1)
      | Ok provider, Ok operation, Ok externalKey =>
          match aborted (ps_world p1), ledger with
          | Some e, _ => (Err (EffThrown e), p1)
          | None, None => (Err (EffThrown (CtxClient TypeError)), p1)
          | None, Some run =>
              let name := (x_taskId ctx +:+ NUL +:+ x_itemKey ctx +:+ NUL +:+ default "task" activeStep +:+ NUL
                           +:+ effectKey +:+ NUL +:+ externalKey)%string in
              let command := LedgerCommand (x_taskId ctx) provider operation
                ("durable:" +:+ left_text 48 (sha256 name))%string
                (default (if eo_verify o then "readback" else "on-return") (eo_confirmation o))
                (default "when-not-happened" (eo_retryPolicy o)) in
              match run command (ps_world p1) with
              | (Err e, w) => (Err (EffThrown (CtxClient e)), Pass w (ps_steps p1) (ps_effects p1))
              | (Ok st, w) =>
                  (match st with
                   | OpUncertain | OpAccepted | OpPending => Err (EffUncertain effectKey)
                   | OpFailed => Err (EffFailed effectKey)
                   | OpNotHappened => Err (EffNotConfirmed effectKey)
                   | OpConfirmed => Ok st
                   end, Pass w (ps_steps p1) (ps_effects p1))
              end
          end
      end
  end.
End context.
End values.

Arguments callback V W : clear implicits.
Arguments dworld J : clear implicits.
