(* ===== verification/DurableContextFacts.v ===== *)
(** * What [ctx.step] promises

    A value that [ctx.step] returned after running its callback is committed, and
    every later pass gets it back without running a callback; a callback that
    returns nothing leaves a step that no pass can get past. *)

From stdpp Require Import base gmap strings list fin_maps sorting pretty relations.
From Stdlib Require Import Ascii ZArith Lia.
From S2P Require Import Prelude TaskModel StoreSteps TaskClient Checkpoints SharedStore DurableSteps DurableFacts DurableContext.

Section facts.
Context {V J : Type} `{!EqDecision J}.
Context (to_json : V → result js_error (option J)) (of_json : J → V).
Context (json_bytes text_size : option J → Z) (sha256 : string → string) (describe : ctx_error → string).
Context (vc : variable_conflict) (c : session) (undefined : V) (artifact_of : V → option string).
Context (aborted : dworld J → option ctx_error).
Implicit Types (w : dworld J) (l : DurableStepLease) (row : ds_row (option J)).

Notation interfered w := (sinterfere (run_devent text_size vc) w).
#[local] Instance pg_client : DurableStepClient (dworld J) :=
  PostgresDurableSteps to_json of_json json_bytes text_size sha256 describe vc c.

(** ** Every method keeps the tables consistent *)

Definition keeps {A} (m : dio A) : Prop := ∀ w, dwf (sw_db w) → dwf (sw_db (m w).2).

Lemma step_keeps_bind {A B} (m : dio (J:=J) A) (k : A → dio B) : keeps m → (∀ a, keeps (k a)) → keeps (abind m k).
Proof.
  intros Hm Hk w Hw. specialize (Hm w Hw). unfold abind. destruct (m w) as [[a|e] w1]; [by apply Hk|done].
Qed.

Lemma step_keeps_throw_if b e : keeps (athrow_if (S:=dworld J) b e).
Proof. intros w Hw. by destruct b. Qed.

Lemma keeps_lift {A} (r : result js_error A) : keeps (lift r).
Proof. by intros w Hw. Qed.

Lemma keeps_execute {A} (m : Z → dsql (option J) A) :
  (∀ now a s s', dwf s → m now s = Ok (a, s') → dwf s') → keeps (dexecute text_size vc m).
Proof. intros Hm w Hw. apply (sexecute_inv _ dwf); [apply run_devent_wf|exact Hm|done]. Qed.

Lemma renew_keeps l ms : keeps (renewDurableStep text_size vc c l ms).
Proof.
  apply step_keeps_bind; [apply step_keeps_throw_if|intros _]. apply step_keeps_bind; [apply step_keeps_throw_if|intros _].
  apply step_keeps_bind; [|intros a; apply step_keeps_bind; [apply step_keeps_throw_if|by intros _ w Hw]].
  apply keeps_execute. intros now a s s' Hwf H. apply renew_ok in H as [H _]; [|done]. by eapply deffect_wf.
Qed.

(** ** What a completion leaves behind *)

Lemma complete_answer now id aid owner epoch (r : option J) ref s row s' :
  dwf s → complete_durable_step text_size c now id aid owner epoch r ref s = Ok (row, s') →
  dwf s' ∧ ds_id row = id ∧ d_steps s' !! id = Some row ∧ ds_state row = SCompleted ∧ ds_result row = Some r.
Proof.
  intros Hwf H. split.
  { pose proof H as H'. apply complete_ok in H' as [->|[He _]]; [done|by eapply deffect_wf|done]. }
  unfold complete_durable_step, dfail_if in H. apply tbind_ok in H as (? & ? & H1 & H). txn_inv H1.
  apply tbind_ok in H as ([v a] & s1 & H1 & H). apply select_lease_ok in H1 as (-> & Hv & Ha & Hs & -> & _); [|done].
  destruct (_ && _) eqn:E in H; [txn_inv H; to_prop; done|].
  unfold settle_lease, dfail_if in H. txn_inv H.
  match goal with H : d_on_tasks _ _ = _ |- _ => apply d_on_tasks_ok in H as (d & _ & ->) end.
  cbn. by rewrite lookup_insert_eq.
Qed.

Lemma complete_step_run l value ref w r w' :
  dwf (sw_db w) → completeDurableStep to_json of_json json_bytes text_size vc c l value ref w = (r, w') →
  dwf (sw_db w') ∧
  ((∃ e, r = Err e ∧ d_steps (sw_db w') = d_steps (sw_db w)) ∨
   (∃ e, r = Err e ∧ d_steps (sw_db w') = d_steps (sw_db (interfered w))) ∨
   (∃ o row, to_json value = Ok o ∧ r = mapDurableStep of_json row ∧ ds_id row = l_stepId l ∧
      d_steps (sw_db w') !! l_stepId l = Some row ∧ ds_state row = SCompleted ∧ ds_result row = Some o)).
Proof.
  intros Hwf H. unfold completeDurableStep, abind, validateDurableStepLease, athrow_if, athrow, aret, lift in H.
  destruct (_ || _) in H; [injection H as <- <-; eauto|].
  destruct (encodeDurableStepResult to_json json_bytes value) as [o|e] eqn:Ee; [|injection H as <- <-; eauto].
  destruct (optionalResultRef ref) as [ref'|e]; [|injection H as <- <-; eauto].
  assert (to_json value = Ok o) as Hj.
  { unfold encodeDurableStepResult in Ee. destruct (to_json value) as [o'|]; [|done]. destruct (_ <? _); [done|congruence]. }
  unfold dexecute, sexecute in H.
  pose proof (sinterfere_inv (run_devent text_size vc) dwf (run_devent_wf text_size vc) w Hwf) as Hwi.
  destruct (complete_durable_step _ _ _ _ _ _ _ _ _ _) as [[row s']|e] eqn:E; injection H as <- <-; cbn.
  - apply complete_answer in E as (Hwf' & Hid & Hrow & Hst & Hres); [|done]. split; [done|]. right; right. eauto 10.
  - split; [done|]. eauto.
Qed.

(** ** A pass that runs its callback *)

(** A callback during which only commands of the store run. *)
Fixpoint orderly (cb : callback V (dworld J)) : Prop :=
  match cb with
  | Settles _ => True
  | Awaits others _ k => (∀ w, dwf (sw_db w) → dwf (sw_db (others w))) ∧ ∀ w, orderly (k w)
  end.

Lemma renew_same_step l ms w l' w' :
  renewDurableStep text_size vc c l ms w = (Ok l', w') → l_stepId l' = l_stepId l.
Proof.
  unfold renewDurableStep, abind. intros H.
  destruct (validateDurableStepLease l w) as [[]?]; [|done]. destruct (athrow_if _ _ _) as [[]?] in H; [|done].
  destruct (dexecute _ _ _ _) as [[]?] in H; [|done]. destruct (athrow_if _ _ _) as [[]?] in H; [|done].
  unfold aret in H. by injection H as <- <-.
Qed.

Lemma run_callback_inv ms cb hb w r hb' w' :
  orderly cb → dwf (sw_db w) → run_callback ms cb hb w = (r, hb', w') →
  dwf (sw_db w') ∧ l_stepId (hb_lease hb') = l_stepId (hb_lease hb).
Proof.
  revert hb w. induction cb as [r0|others fires k IH]; intros hb w Hq Hw H; cbn in H.
  { by injection H as <- <- <-. }
  destruct Hq as [Hf Hk]. specialize (Hf w Hw). destruct fires; [|eapply IH; [apply Hk|exact Hf|exact H]].
  unfold beat in H. destruct (hb_failure hb); [eapply IH; [apply Hk|exact Hf|exact H]|].
  pose proof (renew_keeps (hb_lease hb) ms (others w) Hf) as Hr. cbn in H.
  destruct (renewDurableStep _ _ _ _ _ _) as [[l'|e] w1] eqn:E; cbn in Hr.
  - apply IH in H as [? Hs]; [|apply Hk|done]. split; [done|]. rewrite Hs. cbn. by eapply renew_same_step.
  - by apply IH in H; [|apply Hk|].
Qed.

Lemma run_step_ok ctx run l w value w' :
  orderly run → dwf (sw_db w) → run_step artifact_of aborted ctx run l w = (Ok value, w') →
  dwf (sw_db w') ∧ ∃ j row, to_json value = Ok (Some j) ∧ ds_id row = l_stepId l ∧
    d_steps (sw_db w') !! l_stepId l = Some row ∧ ds_state row = SCompleted ∧ ds_result row = Some (Some j).
Proof.
  intros Hq Hw H. unfold run_step in H. destruct (aborted w); [done|].
  destruct (run_callback _ _ _ _) as [[[v|e] hb] w1] eqn:Er in H; [|done].
  apply run_callback_inv in Er as [Hw1 Hid]; [|done..]. cbn in Hid.
  destruct (hb_failure hb); [done|]. destruct (aborted w1); [done|].
  destruct (dc_complete _ _ _ _) as [[rec|e] w2] eqn:Ec in H; [|done]. injection H as <- <-.
  apply complete_step_run in Ec as [Hw2 [(? & [=] & _)|[(? & [=] & _)|(o & row & Hj & Hm & Hrid & Hrow & Hst & Hres)]]]; [|done].
  split; [done|]. unfold mapDurableStep in Hm. rewrite Hres in Hm. destruct o as [j|]; [|done].
  exists j, row. by rewrite <-Hid.
Qed.

(** ** A later pass *)

(** The request of [ctx.step], and that it passes the client's validation. *)
Definition valid_request (rq : DurableStepAcquireRequest) : bool :=
  is_ok (validateDurableStepAcquire rq (SWorld (no_steps empty_db) [] 0 : dworld J)).1
  && negb ((INT4_MAX <? dq_taskVersion rq) || (INT4_MAX <? dq_stepVersion rq)).

Definition may_acquire (rq : DurableStepAcquireRequest) (s : ddb (option J)) (t : task_row) : Prop :=
  acceptable c s (durable_step_id sha256 (dq_taskId rq) (dq_itemKey rq) (dq_stepKey rq)) (dq_taskId rq)
    (dq_executionId rq) (dq_itemKey rq) (dq_taskVersion rq) (dq_stepKey rq) (dq_stepVersion rq) (dq_owner rq)
    (dq_leaseMs rq) (dq_maxAttempts rq) t.

(** A request for the step of a row. *)
Definition asks_for (rq : DurableStepAcquireRequest) row : Prop :=
  dq_taskId rq = ds_task_id row ∧ btrim (dq_itemKey rq) = ds_item_key row ∧ btrim (dq_stepKey rq) = ds_step_key row ∧
  dq_taskVersion rq = ds_task_version row ∧ dq_stepVersion rq = ds_step_version row.

Lemma interfered_final w id row :
  dwf (sw_db w) → d_steps (sw_db w) !! id = Some row → ds_state row = SCompleted →
  d_steps (sw_db (interfered w)) !! id = Some row.
Proof.
  intros Hw Hrow Hst. destruct w as [s [|[now h] env] n]; cbn in *; [done|]. apply run_dhistory_final; auto.
Qed.

Lemma acquire_reuses rq w row t :
  dwf (sw_db w) → d_steps (sw_db w) !! ds_id row = Some row → ds_state row = SCompleted → asks_for rq row →
  valid_request rq = true → may_acquire rq (sw_db (interfered w)) t →
  acquireDurableStep of_json text_size sha256 vc c rq w
    = (mapDurableStepAcquire of_json (AcquireRow ActReused row None), interfered w).
Proof.
  intros Hw Hrow Hst (E1 & E2 & E3 & E4 & E5) Hv Hac. apply andb_true_iff in Hv as [Hv Hint]. apply negb_true_iff in Hint.
  unfold acquireDurableStep, abind.
  assert (validateDurableStepAcquire rq w = (Ok tt, w)) as ->.
  { revert Hv. unfold validateDurableStepAcquire, abind, athrow_if. repeat (destruct (_ || _); [done|]).
    by destruct (100 <? _). }
  unfold dexecute, sexecute, acquire_statement, tbind, traise_if. rewrite Hint. unfold tret.
  pose proof (sinterfere_inv (run_devent text_size vc) dwf (run_devent_wf text_size vc) w Hw) as Hwi.
  pose proof (interfered_final w (ds_id row) row Hw Hrow Hst) as Hrowi.
  rewrite (acquire_run vc c _ _ _ _ _ _ _ _ _ _ _ _ _ Hac).
  destruct (find_step_stored c (sw_db (interfered w)) (dq_taskId rq) (btrim (dq_itemKey rq)) (btrim (dq_stepKey rq)) row t)
    as (-> & _); [done|done|by apply at_step_true|by apply (ac_task _ _ _ _ _ _ _ _ _ _ _ _ _ Hac)|].
  unfold tcatch, acquire_selected, dfail_if, traise_if, tbind. rewrite E4, E5, !Z.eqb_refl. cbn.
  rewrite bool_decide_true by done. by destruct (interfered w).
Qed.

(** C36. A durable step is executed once: when [ctx.step] ran its callback and
    returned its value, every later pass - in any process, after any commands of
    any workers, whatever callback it supplies - that asks for the same step and
    versions gets that value back as JSON carries it, without running a callback
    and without writing. *)
Theorem committed_value_is_reused : ∀ ctx run l w value w',
  orderly run → dwf (sw_db w) → run_step artifact_of aborted ctx run l w = (Ok value, w') →
  ∃ j row, to_json value = Ok (Some j) ∧ d_steps (sw_db w') !! l_stepId l = Some row ∧
  ∀ h ctx' key stepKey args declaration run' p t,
    sw_db (ps_world p) = run_dhistory text_size vc h (sw_db w') →
    stableKey key 256 = Ok stepKey → stepKey ∉ ps_steps p → normalizeStepArguments args = Ok (declaration, run') →
    x_hasSteps ctx' = true →
    let rq := {| dq_taskId := x_taskId ctx'; dq_executionId := x_executionId ctx'; dq_itemKey := x_itemKey ctx';
      dq_taskVersion := x_taskVersion ctx'; dq_stepKey := stepKey; dq_stepVersion := default 1 (so_version declaration);
      dq_owner := x_workerId ctx'; dq_leaseMs := x_stepLeaseMs ctx'; dq_maxAttempts := default 1 (so_attempts declaration) |} in
    asks_for rq row → valid_request rq = true → may_acquire rq (sw_db (interfered (ps_world p))) t →
    step undefined artifact_of aborted ctx' key args p
      = (Ok (of_json j), Pass (interfered (ps_world p)) ({[stepKey]} ∪ ps_steps p) (ps_effects p)).
Proof.
  intros ctx run l w value w' Hq Hw H.
  apply run_step_ok in H as (Hw' & j & row & Hj & Hid & Hrow & Hst & Hres); [|done..].
  exists j, row. split; [done|]. split; [done|]. intros * Hdb Hkey Hnew Hargs Hsteps rq Hask Hval Hac.
  unfold step. rewrite Hkey, bool_decide_false, Hargs, Hsteps by done. cbn [negb]. cbn zeta. fold rq.
  change (dc_acquire rq) with (acquireDurableStep of_json text_size sha256 vc c rq). cbn [ps_world].
  unfold dworld in *. rewrite (acquire_reuses rq (ps_world p) row t); try done.
  - unfold mapDurableStepAcquire, mapDurableStep. cbn [aq_step aq_action]. by rewrite Hres.
  - rewrite Hdb. by apply run_dhistory_wf.
  - rewrite Hdb, Hid. apply run_dhistory_final; auto.
Qed.

(** A step whose callback returns nothing is never passed: the completion
    stores the object without a value, which the client then refuses to read.
    Completing with a value that JSON drops (undefined) never succeeds; and when
    it was that completion which settled the step, every later request for the
    step, by any pass, is rejected with a TypeError, so that no pass of the
    handler gets beyond it. *)
Theorem void_step_is_never_passed : ∀ l value ref w r w',
  dwf (sw_db w) → to_json value = Ok None →
  completeDurableStep to_json of_json json_bytes text_size vc c l value ref w = (r, w') →
  is_ok r = false ∧
  ∀ row, d_steps (sw_db w') !! l_stepId l = Some row → ds_state row = SCompleted →
    (∀ u, d_steps (sw_db (interfered w)) !! l_stepId l = Some u → ds_state u ≠ SCompleted) →
  ∀ h rq w1 t, sw_db w1 = run_dhistory text_size vc h (sw_db w') → asks_for rq row → valid_request rq = true →
    may_acquire rq (sw_db (interfered w1)) t →
    (acquireDurableStep of_json text_size sha256 vc c rq w1).1 = Err TypeError.
Proof.
  intros l value ref w r w' Hw Hv H. apply complete_step_run in H as [Hw' Hr]; [|done]. split.
  { destruct Hr as [(e & -> & _)|[(e & -> & _)|(o & row & Hj & -> & _ & _ & _ & Hres)]]; try done.
    rewrite Hv in Hj. injection Hj as <-. unfold mapDurableStep. by rewrite Hres. }
  intros row Hrow Hst Hopen h rq w1 t Hdb Hask Hval Hac.
  assert (ds_id row = l_stepId l) as Hid by (by apply (dw_step _ Hw') in Hrow).
  assert (ds_result row = Some None) as Hres.
  { destruct Hr as [(e & _ & E)|[(e & _ & E)|(o & row' & Hj & _ & _ & Hrow' & _ & Hres)]].
    - rewrite E in Hrow. destruct (Hopen row); [|done]. by apply interfered_final.
    - rewrite E in Hrow. by destruct (Hopen row Hrow).
    - congruence. }
  rewrite (acquire_reuses rq w1 row t); try done.
  - unfold mapDurableStepAcquire, mapDurableStep. cbn [aq_step]. by rewrite Hres.
  - rewrite Hdb. by apply run_dhistory_wf.
  - rewrite Hdb, Hid. apply run_dhistory_final; auto.
Qed.
End facts.

(** ** A concrete pass: one heartbeat while the callback runs *)

(** [None] is undefined; any other value is its own JSON. *)
Definition demo_to_json (v : option string) : result js_error (option string) := Ok v.
Definition demo_bytes (o : option string) : Z := 64.
Definition demo_hash (s : string) : string := "0123456789abcdef0123456789abcdef0123456789abcdef0123456789abcdef".
Definition demo_signal (w : dworld string) : option ctx_error := None.

Definition held_db : ddb (option string) :=
  run_dhistory demo_bytes UseColumn
    [DEvent demo_session 10 (DAcquire "s1" "t1" "e1" "a" 1 "charge" 1 "w1" 60000 3)] (no_steps mid_db).

Definition held_world : dworld string := SWorld held_db [] 20.

Definition held_lease : DurableStepLease := StepLease "s1" (attempt_id "s1" 1) "w1" 1 60010 1.

Definition one_beat (v : option string) : callback (option string) (dworld string) :=
  Awaits id true (λ _, Settles (Ok v)).

Definition demo_ctx : context := Context_ "t1" "e1" "a" 1 "w3" 60000 true.

Definition demo_text (e : ctx_error) : string := "boom".

#[local] Hint Extern 0 (DurableStepClient (dworld string)) =>
  exact (pg_client demo_to_json Some demo_bytes demo_bytes demo_hash demo_text UseColumn demo_session) : typeclass_instances.

Definition first_pass (v : option string) : result ctx_error (option string) * dworld string :=
  run_step (λ _, None) demo_signal demo_ctx (one_beat v) held_lease held_world.

Definition second_pass (cb : callback (option string) (dworld string)) (w : dworld string) :=
  step None (λ _, None) demo_signal demo_ctx (Some "charge") (JustRun cb) (Pass w ∅ ∅).

Lemma held_wf : dwf held_db.
Proof. apply run_dhistory_wf, no_steps_wf, mid_linked. Qed.

Lemma held_world_wf : dwf (sw_db held_world).
Proof. apply held_wf. Qed.

Lemma orderly_beat v : orderly (one_beat v).
Proof. done. Qed.

Definition passed_world (v : option string) : dworld string := (first_pass v).2.

Definition task_in (w : dworld string) : task_row :=
  default (TaskRow "" "" "" None 0 Pending (Progress 0 None None) None (Cancellation CNone None) 0
    (ExecCounts 0 0 0 0 0 0 0 0) None 0 0) (db_tasks (d_tasks (sw_db w)) !! "t1").

Definition demo_request : DurableStepAcquireRequest := {|
  dq_taskId := "t1"; dq_executionId := "e1"; dq_itemKey := "a"; dq_taskVersion := 1; dq_stepKey := "charge";
  dq_stepVersion := 1; dq_owner := "w3"; dq_leaseMs := 60000; dq_maxAttempts := 1 |}.

Lemma demo_may_acquire v :
  let w := sinterfere (run_devent demo_bytes UseColumn) (passed_world v) in
  visible_tasks demo_session (d_tasks (sw_db w)) !! "t1" = Some (task_in w) → t_definition_version (task_in w) = 1 →
  step_execution demo_session (sw_db w) "e1" "t1" "a" (t_tenant (task_in w)) = true →
  may_acquire demo_hash demo_session demo_request (sw_db w) (task_in w).
Proof. intros w Ht Hv He. split; [vm_compute; reflexivity|done..]. Qed.

Lemma committed_value_is_reused_witness :
  (first_pass (Some "receipt")).1 = Ok (Some "receipt") ∧
  ∀ cb, (second_pass cb (passed_world (Some "receipt"))).1 = Ok (Some "receipt").
Proof.
  assert ((first_pass (Some "receipt")).1 = Ok (Some "receipt")) as Hr by (vm_compute; reflexivity).
  split; [exact Hr|]. intros cb.
  assert (first_pass (Some "receipt") = (Ok (Some "receipt"), passed_world (Some "receipt"))) as E
    by (rewrite <-Hr; apply surjective_pairing).
  unfold first_pass in E.
  pose proof (committed_value_is_reused demo_to_json Some demo_bytes demo_bytes demo_hash demo_text UseColumn
    demo_session None (λ _, None) demo_signal demo_ctx (one_beat (Some "receipt")) held_lease held_world
    (Some "receipt") (passed_world (Some "receipt"))) as H.
  specialize (H (orderly_beat _) held_world_wf E). destruct H as (j & row & Hj & Hrow & H).
  assert (j = "receipt") as -> by (by injection Hj). clear Hj E Hr.
  assert (asks_for demo_request row) as Hask by (vm_compute in Hrow; injection Hrow as <-; by split_and!).
  clear Hrow. unfold second_pass.
  assert (may_acquire demo_hash demo_session demo_request
    (sw_db (sinterfere (run_devent demo_bytes UseColumn) (passed_world (Some "receipt"))))
    (task_in (sinterfere (run_devent demo_bytes UseColumn) (passed_world (Some "receipt"))))) as Hmay
    by (apply demo_may_acquire; vm_compute; reflexivity).
  revert Hask H Hmay. generalize (passed_world (Some "receipt")). intros w0 Hask H Hmay.
  rewrite (H [] demo_ctx (Some "charge") "charge" (JustRun cb) _ cb (Pass w0 ∅ ∅)
    (task_in (sinterfere (run_devent demo_bytes UseColumn) w0)) (eq_sym (run_dhistory_nil _ _ _)) eq_refl
    ltac:(set_solver) eq_refl eq_refl Hask); [reflexivity|vm_compute; reflexivity|exact Hmay].
Defined.

Lemma void_step_is_never_passed_witness :
  (first_pass None).1 = Err (CtxClient TypeError) ∧
  (acquireDurableStep Some demo_bytes demo_hash UseColumn demo_session demo_request
     (completeDurableStep demo_to_json Some demo_bytes demo_bytes UseColumn demo_session held_lease None None held_world).2).1
    = Err TypeError.
Proof.
  split; [vm_compute; reflexivity|].
  set (w' := (completeDurableStep demo_to_json Some demo_bytes demo_bytes UseColumn demo_session held_lease None None
    held_world).2).
  destruct (void_step_is_never_passed demo_to_json Some demo_bytes demo_bytes demo_hash UseColumn demo_session held_lease
    None None held_world _ w' held_wf eq_refl (surjective_pairing _)) as [_ H].
  destruct (d_steps (sw_db w') !! "s1") as [row|] eqn:Hrow; [|by vm_compute in Hrow].
  assert (asks_for demo_request row ∧ ds_state row = SCompleted) as [Hask Hst]
    by (vm_compute in Hrow; injection Hrow as <-; by split_and!).
  apply (H row Hrow Hst) with (h := []) (t := task_in (sinterfere (run_devent demo_bytes UseColumn) w')).
  - intros u Hu. vm_compute in Hu. injection Hu as <-. discriminate.
  - symmetry. apply run_dhistory_nil.
  - exact Hask.
  - vm_compute; reflexivity.
  - split; vm_compute; reflexivity.
Defined.
