(* ===== verification/ResourceLeases.v ===== *)
(** * Resource leases: shared worker capacity

    Migration 20 ([postgres/resource-lease-schema.ts]): the tables
    [resource_pools] and [resource_leases] and the functions that admission, renew
    and release a lease; the vectors and pool options of
    [tasks/resource-lease.ts] and the client methods over them. A pool is a
    budget of four discrete dimensions; an admitted lease occupies part of it
    until it is released or its deadline passes. *)

From stdpp Require Import base gmap strings list fin_maps.
From Stdlib Require Import Ascii ZArith Lia.
From S2P Require Import Prelude TaskModel StoreSteps TaskClient Checkpoints SharedStore.

Open Scope txn_scope.

(** [Required<RhinoQResourceVector>] *)
Record vector := Vector { rv_cpu : Z; rv_memory : Z; rv_disk : Z; rv_network : Z }.

#[export] Instance vector_eq_dec : EqDecision vector.
Proof. solve_decision. Defined.

(** The four dimensions, in the order the SQL function compares them. *)
Definition dims : list (vector → Z) := [rv_cpu; rv_memory; rv_disk; rv_network].

Definition vector_zero (v : vector) : bool := forallb (λ f, f v =? 0) dims.
Definition vector_negative (v : vector) : bool := existsb (λ f, f v <? 0) dims.
Definition vector_exceeds (a b : vector) : bool := existsb (λ f, f b <? f a) dims.

Inductive lease_state := LActive | LReleased | LExpired.

#[export] Instance lease_state_eq_dec : EqDecision lease_state.
Proof. solve_decision. Defined.

Record pool_row := PoolRow { pl_tenant : string; pl_key : string; pl_capacity : vector; pl_version : Z;
  pl_created_at : Z; pl_updated_at : Z }.

Record lease_row := LeaseRow {
  rl_id : string; rl_tenant : string; rl_pool : string; rl_task_id : string; rl_execution_id : string;
  rl_owner : string; rl_epoch : Z; rl_resources : vector; rl_state : lease_state; rl_until : Z;
  rl_created_at : Z; rl_updated_at : Z; rl_released_at : option Z;
}.

Record rdb := Rdb { r_tasks : db; r_pools : gmap (string * string) pool_row; r_leases : gmap string lease_row }.

Definition rsql (A : Type) : Type := txn rdb sql_error A.

Definition rfail_if (b : bool) (code : string) : rsql unit := traise_if b (Raise code).

Definition visible_leases (c : session) (s : rdb) : gmap string lease_row :=
  filter (λ kv, rls_allows c (rl_tenant kv.2) = true) (r_leases s).

Definition r_on_tasks {A} (m : sql A) : rsql A :=
  λ s, match m (r_tasks s) with
       | Ok (a, d) => Ok (a, Rdb d (r_pools s) (r_leases s))
       | Err e => Err e
       end.

Definition with_leases (f : gmap string lease_row → gmap string lease_row) (s : rdb) : rdb :=
  Rdb (r_tasks s) (r_pools s) (f (r_leases s)).

(** ** [acquire_resource_lease] *)

(** The SELECT of the Task's attempt. *)
Definition lease_execution (c : session) (s : rdb) (execution_id task_id tenant : string) : bool :=
  match visible_executions c (r_tasks s) !! execution_id with
  | Some e => bool_decide (e_task_id e = task_id) && bool_decide (e_tenant e = tenant)
  | None => false
  end.

(** SQLSTATE of an ON CONFLICT target no constraint matches. *)
Definition INVALID_COLUMN_REFERENCE := SqlState "42P10".

(** What [acquire_resource_lease] and [renew_resource_lease] return, and the columns of
    the tables. *)
Definition lease_columns : list string :=
  ["id"; "pool_key"; "task_id"; "execution_id"; "lease_owner"; "lease_epoch"; "cpu"; "memory_bytes"; "disk_bytes"; "network"; "lease_until"].
Definition resource_pools_columns : list string :=
  ["tenant_id"; "pool_key"; "cpu_capacity"; "memory_capacity_bytes"; "disk_capacity_bytes"; "network_capacity"; "version"; "created_at"; "updated_at"].
Definition resource_leases_columns : list string :=
  ["id"; "tenant_id"; "pool_key"; "task_id"; "execution_id"; "lease_owner"; "lease_epoch"; "cpu"; "memory_bytes"; "disk_bytes"; "network"; "state";
   "lease_until"; "created_at"; "updated_at"; "released_at"].

(** [ON CONFLICT (tenant_id, pool_key)]; [WHERE id = v_lease.id] *)
Definition declare_names : statement_names := Names lease_columns resource_pools_columns ["tenant_id"; "pool_key"].
Definition renew_names : statement_names := Names lease_columns resource_leases_columns ["id"].

(** [INSERT INTO resource_pools ... ON CONFLICT (tenant_id, pool_key) DO NOTHING] *)
Definition declare_pool (vc : variable_conflict) (now : Z) (tenant key : string) (capacity : vector) : rsql unit :=
  ambiguous declare_names vc (traise INVALID_COLUMN_REFERENCE) (λ s,
    match r_pools s !! (tenant, key) with
    | Some _ => Ok (tt, s)
    | None => Ok (tt, Rdb (r_tasks s) (<[(tenant, key) := PoolRow tenant key capacity 1 now now]> (r_pools s)) (r_leases s))
    end).

Definition in_pool (tenant key : string) (l : lease_row) : bool :=
  bool_decide (rl_tenant l = tenant) && bool_decide (rl_pool l = key).

Definition active (l : lease_row) : bool := bool_decide (rl_state l = LActive).

Definition rl_with_state (st : lease_state) (now : Z) (l : lease_row) : lease_row :=
  LeaseRow (rl_id l) (rl_tenant l) (rl_pool l) (rl_task_id l) (rl_execution_id l) (rl_owner l) (rl_epoch l)
    (rl_resources l) st (rl_until l) (rl_created_at l) now (Some now).

(** The UPDATE that marks the overdue leases of a pool as expired. *)
Definition expire_overdue (now : Z) (tenant key : string) (l : lease_row) : lease_row :=
  if in_pool tenant key l && active l && (rl_until l <=? now) then rl_with_state LExpired now l else l.

(** The unique key (tenant_id, task_id, execution_id, pool_key); row-level
    security shows every row of the Task's tenant. *)
Definition lease_of (tenant task_id execution_id key : string) (l : lease_row) : bool :=
  in_pool tenant key l && bool_decide (rl_task_id l = task_id) && bool_decide (rl_execution_id l = execution_id).

Definition find_lease (s : rdb) (tenant task_id execution_id key : string) : option lease_row :=
  head (map_rows (lease_of tenant task_id execution_id key) (r_leases s)).

(** [sum(f) ... WHERE tenant_id .. AND pool_key .. AND state = 'active' AND lease_until > now] *)
Definition live_usage (now : Z) (tenant key : string) (f : vector → Z) (s : rdb) : Z :=
  map_sum (λ l, if in_pool tenant key l && active l && (now <? rl_until l) then f (rl_resources l) else 0) (r_leases s).

(** [SELECT COALESCE(sum(cpu), 0), ... INTO v_cpu_used, ...]: the bigint
    variables refuse a larger sum. *)
Fixpoint sums_in_range (now : Z) (tenant key : string) (fs : list (vector → Z)) (s : rdb) : bool :=
  match fs with
  | [] => true
  | f :: rest => (live_usage now tenant key f s <=? INT8_MAX) && sums_in_range now tenant key rest s
  end.

(** [v_cpu_used + p_cpu > capacity OR ...], each addition on bigints. *)
Fixpoint over_capacity (used : (vector → Z) → Z) (request capacity : vector) (fs : list (vector → Z))
    : result sql_error bool :=
  match fs with
  | [] => Ok false
  | f :: rest =>
      if INT8_MAX <? used f + f request then Err OUT_OF_RANGE else
      if f capacity <? used f + f request then Ok true else over_capacity used request capacity rest
  end.

Definition invalid_resource_lease (p_id key p_task_id p_execution_id p_lease_owner : string) (capacity request : vector)
    (p_lease_ms : Z) : bool :=
  blank p_id || bool_decide (key = "") || blank p_task_id || blank p_execution_id || blank p_lease_owner
  || (128 <? Z.of_nat (String.length key)) || (p_lease_ms <? 1000) || (3600000 <? p_lease_ms)
  || vector_negative capacity || vector_negative request || vector_zero capacity || vector_zero request.

(** The UPDATE of an existing row, which also replaces its primary key, or the
    INSERT of a new one. *)
Definition grant (now : Z) (p_id tenant key p_task_id p_execution_id p_lease_owner : string) (request : vector)
    (p_lease_ms : Z) (existing : option lease_row) : rsql lease_row :=
  let* s := tget in
  let others := match existing with Some l => delete (rl_id l) (r_leases s) | None => r_leases s end in
  let* epoch := tlift (bigint_succ (match existing with Some l => rl_epoch l | None => 0 end)) in
  traise_if (bool_decide (is_Some (others !! p_id))) UNIQUE_VIOLATION ;;
  let row := LeaseRow p_id tenant key p_task_id p_execution_id (btrim p_lease_owner) epoch request LActive
    (now + p_lease_ms) (match existing with Some l => rl_created_at l | None => now end) now None in
  tput (Rdb (r_tasks s) (r_pools s) (<[p_id := row]> others)) ;;
  tret row.

(** The sums of the live leases, the comparison with the capacity and the
    write. *)
Definition admit_if_fits (now : Z) (p_id tenant key p_task_id p_execution_id p_lease_owner : string) (request : vector)
    (p_lease_ms : Z) (capacity : vector) (existing : option lease_row) : rsql lease_row :=
  let* s := tget in
  traise_if (negb (sums_in_range now tenant key dims s)) OUT_OF_RANGE ;;
  let* over := tlift (over_capacity (λ f, live_usage now tenant key f s) request capacity dims) in
  rfail_if over "RHINOQ_RESOURCE_UNAVAILABLE" ;;
  grant now p_id tenant key p_task_id p_execution_id p_lease_owner request p_lease_ms existing.

(** After the pool is locked. *)
Definition admission (now : Z) (p_id tenant key p_task_id p_execution_id p_lease_owner : string) (request : vector)
    (p_lease_ms : Z) (capacity : vector) : rsql lease_row :=
  let* s0 := tget in
  tput (with_leases (fmap (expire_overdue now tenant key)) s0) ;;
  let* s := tget in
  let existing := find_lease s tenant p_task_id p_execution_id key in
  let otherwise := admit_if_fits now p_id tenant key p_task_id p_execution_id p_lease_owner request p_lease_ms capacity
    existing in
  match existing with
  | Some l =>
      if active l && (now <? rl_until l) then
        if bool_decide (rl_owner l = btrim p_lease_owner) && bool_decide (rl_resources l = request)
        then tret l else traise (Raise "RHINOQ_RESOURCE_LEASE_HELD")
      else otherwise
  | None => otherwise
  end.

Definition acquire_resource_lease (vc : variable_conflict) (c : session) (now : Z)
    (p_id p_pool_key p_task_id p_execution_id p_lease_owner : string) (capacity request : vector) (p_lease_ms : Z)
    : rsql lease_row :=
  let key := btrim p_pool_key in
  rfail_if (invalid_resource_lease p_id key p_task_id p_execution_id p_lease_owner capacity request p_lease_ms)
    "RHINOQ_INVALID_RESOURCE_LEASE" ;;
  let* t := r_on_tasks (select_task c p_task_id "RHINOQ_TASK_NOT_FOUND") in
  let* s := tget in
  rfail_if (negb (lease_execution c s p_execution_id p_task_id (t_tenant t))) "RHINOQ_RESOURCE_LEASE_EXECUTION_MISMATCH" ;;
  declare_pool vc now (t_tenant t) key capacity ;;
  let* s1 := tget in
  match r_pools s1 !! (t_tenant t, key) with
  | None => traise (Raise "RHINOQ_RESOURCE_POOL_NOT_FOUND")
  | Some pool =>
      rfail_if (negb (bool_decide (pl_capacity pool = capacity))) "RHINOQ_RESOURCE_POOL_CONFIG_MISMATCH" ;;
      rfail_if (vector_exceeds request (pl_capacity pool)) "RHINOQ_RESOURCE_REQUEST_EXCEEDS_CAPACITY" ;;
      admission now p_id (t_tenant t) key p_task_id p_execution_id p_lease_owner request p_lease_ms (pl_capacity pool)
  end.

(** ** Renewal and release *)

Definition rl_extend (until now : Z) (l : lease_row) : lease_row :=
  LeaseRow (rl_id l) (rl_tenant l) (rl_pool l) (rl_task_id l) (rl_execution_id l) (rl_owner l) (rl_epoch l)
    (rl_resources l) (rl_state l) until (rl_created_at l) now (rl_released_at l).

Definition rl_release (now : Z) (l : lease_row) : lease_row :=
  LeaseRow (rl_id l) (rl_tenant l) (rl_pool l) (rl_task_id l) (rl_execution_id l) (rl_owner l) (rl_epoch l)
    (rl_resources l) LReleased now (rl_created_at l) now (Some now).

Definition put_lease (l : lease_row) (s : rdb) : rdb := with_leases (insert (rl_id l) l) s.

Definition holds_resource (p_lease_owner : string) (p_lease_epoch : Z) (l : lease_row) : bool :=
  bool_decide (rl_owner l = btrim p_lease_owner) && (rl_epoch l =? p_lease_epoch).

(** The answer is [None] for the row of NULLs that an UPDATE of no row leaves in
    the variable. *)
Definition renew_resource_lease (vc : variable_conflict) (c : session) (now : Z) (p_id p_lease_owner : string)
    (p_lease_epoch p_lease_ms : Z) : rsql (option lease_row) :=
  rfail_if (blank p_id || blank p_lease_owner || (p_lease_epoch <? 1) || (p_lease_ms <? 1000) || (3600000 <? p_lease_ms))
    "RHINOQ_INVALID_RESOURCE_LEASE_RENEWAL" ;;
  let* s := tget in
  match visible_leases c s !! p_id with
  | None => traise (Raise "RHINOQ_RESOURCE_LEASE_FENCED")
  | Some l =>
      rfail_if (negb (active l && holds_resource p_lease_owner p_lease_epoch l) || (rl_until l <=? now))
        "RHINOQ_RESOURCE_LEASE_FENCED" ;;
      let l' := rl_extend (now + p_lease_ms) now l in
      ambiguous renew_names vc (tret None) (tput (put_lease l' s) ;; tret (Some l'))
  end.

Definition release_resource_lease (c : session) (now : Z) (p_id p_lease_owner : string) (p_lease_epoch : Z) : rsql unit :=
  rfail_if (blank p_id || blank p_lease_owner || (p_lease_epoch <? 1)) "RHINOQ_INVALID_RESOURCE_LEASE_RELEASE" ;;
  let* s := tget in
  match visible_leases c s !! p_id with
  | None => traise (Raise "RHINOQ_RESOURCE_LEASE_FENCED")
  | Some l =>
      rfail_if (negb (holds_resource p_lease_owner p_lease_epoch l)) "RHINOQ_RESOURCE_LEASE_FENCED" ;;
      if bool_decide (rl_state l = LReleased) then tret tt else
      rfail_if (negb (active l) || (rl_until l <=? now)) "RHINOQ_RESOURCE_LEASE_FENCED" ;;
      tput (put_lease (rl_release now l) s)
  end.

(** ** Histories *)

Inductive rcommand : Type :=
| RAcquire (id pool task execution owner : string) (capacity request : vector) (lease_ms : Z)
| RRenew (id owner : string) (epoch lease_ms : Z)
| RRelease (id owner : string) (epoch : Z)
| RTask (cmd : command).

Record revent := REvent { re_session : session; re_now : Z; re_command : rcommand }.

Definition run_revent (vc : variable_conflict) (ev : revent) (s : rdb) : rdb :=
  let c := re_session ev in
  let now := re_now ev in
  match re_command ev with
  | RAcquire id pool task execution owner capacity request ms =>
      committed (acquire_resource_lease vc c now id pool task execution owner capacity request ms) s
  | RRenew id owner epoch ms => committed (renew_resource_lease vc c now id owner epoch ms) s
  | RRelease id owner epoch => committed (release_resource_lease c now id owner epoch) s
  | RTask cmd => committed (r_on_tasks (run_command c now cmd)) s
  end.

Definition run_rhistory (vc : variable_conflict) (h : list revent) (s : rdb) : rdb := run_events (run_revent vc) h s.

(** ** The client *)

Open Scope act_scope.

(** [RhinoQResourceVector] with its optional properties. *)
Record resource_options := ResourceOptions {
  ro_cpu : option Z; ro_memory : option Z; ro_disk : option Z; ro_network : option Z }.

Definition normalizeRhinoQResourceVector (o : resource_options) : result js_error vector :=
  let v := Vector (default 0 (ro_cpu o)) (default 0 (ro_memory o)) (default 0 (ro_disk o)) (default 0 (ro_network o)) in
  if existsb (λ f, (f v <? 0) || (MAX_SAFE_INTEGER <? f v)) dims then Err RangeError else Ok v.

Definition options_of (v : vector) : resource_options :=
  ResourceOptions (Some (rv_cpu v)) (Some (rv_memory v)) (Some (rv_disk v)) (Some (rv_network v)).

Definition requiresRhinoQResources (o : resource_options) : result js_error bool :=
  match normalizeRhinoQResourceVector o with
  | Ok v => Ok (existsb (λ f, 0 <? f v) dims)
  | Err e => Err e
  end.

Record pool_options := PoolOptions {
  po_key : string; po_capacity : resource_options; po_leaseMs : option Z; po_retryAfterMs : option Z }.

(** The pool with every option present. *)
Record valid_pool := ValidPool { vp_key : string; vp_capacity : vector; vp_leaseMs : Z; vp_retryAfterMs : Z }.

Definition validateRhinoQResourcePool (p : pool_options) : result js_error valid_pool :=
  let key := js_trim (po_key p) in
  if isEmpty key || (128 <? Z.of_nat (String.length key)) then Err RangeError else
  match normalizeRhinoQResourceVector (po_capacity p) with
  | Err e => Err e
  | Ok capacity =>
      match requiresRhinoQResources (options_of capacity) with
      | Err e => Err e
      | Ok false => Err RangeError
      | Ok true =>
          let leaseMs := default 60000 (po_leaseMs p) in
          let retryAfterMs := default 5000 (po_retryAfterMs p) in
          if (leaseMs <? 1000) || (3600000 <? leaseMs) then Err RangeError else
          if (retryAfterMs <? 1) || (3600000 <? retryAfterMs) then Err RangeError else
          Ok (ValidPool key capacity leaseMs retryAfterMs)
      end
  end.

Record RhinoQResourceLease := ResourceLease {
  lv_id : string; lv_poolKey : string; lv_taskId : string; lv_executionId : string; lv_owner : string; lv_epoch : Z;
  lv_resources : vector; lv_expiresAt : Z;
}.

Definition mapResourceLease (l : lease_row) : RhinoQResourceLease :=
  ResourceLease (rl_id l) (rl_pool l) (rl_task_id l) (rl_execution_id l) (rl_owner l) (rl_epoch l) (rl_resources l)
    (rl_until l).

(** What [acquireResourceLease] throws. *)
Inductive resource_error : Type :=
| ResourceUnavailable (poolKey : string) (resources : vector) (retryAfterMs : Z)
| ResourceClient (e : js_error).

Definition rworld : Type := sworld rdb revent.

Definition resourceIdentifier (value : string) : result js_error string :=
  let r := js_trim value in
  if isEmpty r || (512 <? Z.of_nat (String.length r)) then Err RangeError else Ok r.

Section client.
Context (sha256 : string → string) (vc : variable_conflict) (c : session).

Definition rexecute {A} (m : Z → rsql A) : act rworld js_error A := sexecute (run_revent vc) m.

Definition rlift {A} (r : result js_error A) : act rworld js_error A := λ w, (r, w).

Definition resource_lease_id (taskId executionId key : string) : string :=
  ("resource-" +:+ left_text 32 (sha256 (taskId +:+ NUL +:+ executionId +:+ NUL +:+ key)))%string.

(** The CPU and network parameters are [integer]: PostgreSQL refuses a larger
    value. *)
Definition acquire_lease_statement (pool : valid_pool) (taskId executionId owner : string) (resources : vector) (now : Z)
    : rsql lease_row :=
  tbind (traise_if (existsb (λ z, INT4_MAX <? z) [rv_cpu (vp_capacity pool); rv_network (vp_capacity pool);
    rv_cpu resources; rv_network resources]) OUT_OF_RANGE) (λ _,
  acquire_resource_lease vc c now (resource_lease_id taskId executionId (vp_key pool)) (vp_key pool) taskId executionId
    owner (vp_capacity pool) resources (vp_leaseMs pool)).

Definition acquireResourceLease (pool : pool_options) (taskId executionId owner : string) (resources : resource_options)
    : act rworld resource_error RhinoQResourceLease := λ w,
  let throw e := (Err (ResourceClient e), w) in
  match validateRhinoQResourcePool pool, resourceIdentifier taskId, resourceIdentifier executionId,
        resourceIdentifier owner, normalizeRhinoQResourceVector resources with
  | Ok p, Ok task, Ok execution, Ok own, Ok v =>
      if vector_zero v then throw RangeError else
      match rexecute (acquire_lease_statement p task execution own v) w with
      | (Ok row, w') => (Ok (mapResourceLease row), w')
      | (Err e, w') =>
          if hasCode e "RHINOQ_RESOURCE_UNAVAILABLE"
          then (Err (ResourceUnavailable (vp_key p) v (vp_retryAfterMs p)), w')
          else (Err (ResourceClient e), w')
      end
  | Err e, _, _, _, _ | _, Err e, _, _, _ | _, _, Err e, _, _ | _, _, _, Err e, _ | _, _, _, _, Err e => throw e
  end.

Definition validateResourceLease (l : RhinoQResourceLease) : act rworld js_error unit :=
  rlift (resourceIdentifier (lv_id l)) ;+ rlift (resourceIdentifier (lv_poolKey l)) ;+
  rlift (resourceIdentifier (lv_taskId l)) ;+ rlift (resourceIdentifier (lv_executionId l)) ;+
  rlift (resourceIdentifier (lv_owner l)) ;+
  athrow_if ((lv_epoch l <? 1) || (MAX_SAFE_INTEGER <? lv_epoch l)) RangeError ;+
  rlift (normalizeRhinoQResourceVector (options_of (lv_resources l))) ;+ aret tt.

Definition renewResourceLease (l : RhinoQResourceLease) (leaseMs : Z) : act rworld js_error RhinoQResourceLease :=
  validateResourceLease l ;+
  athrow_if ((leaseMs <? 1000) || (3600000 <? leaseMs)) RangeError ;+
  let+ row := rexecute (λ now, renew_resource_lease vc c now (lv_id l) (lv_owner l) (lv_epoch l) leaseMs) in
  match row with
  | Some r =>
      if bool_decide (rl_id r = lv_id l) && bool_decide (rl_owner r = lv_owner l) && (rl_epoch r =? lv_epoch l)
      then aret (mapResourceLease r) else athrow (RhinoQError "RHINOQ_RESOURCE_LEASE_NOT_RETURNED" false None)
  | None => athrow (RhinoQError "RHINOQ_RESOURCE_LEASE_NOT_RETURNED" false None)
  end.

Definition releaseResourceLease (l : RhinoQResourceLease) : act rworld js_error unit :=
  validateResourceLease l ;+
  rexecute (λ now, release_resource_lease c now (lv_id l) (lv_owner l) (lv_epoch l)).
End client.

(** ** The heartbeat of a lease

    [createRhinoQResourceLeaseHeartbeat]: a timer renews the lease while a
    handler runs; the first failed renewal ends it and is remembered. *)

Class RhinoQResourceLeaseClient (W : Type) := {
  rc_renew : RhinoQResourceLease → Z → act W js_error RhinoQResourceLease;
}.

#[export] Instance PostgresResourceLeases (vc : variable_conflict) (c : session) : RhinoQResourceLeaseClient rworld := {
  rc_renew := renewResourceLease vc c;
}.

Record resource_heartbeat := ResourceHeartbeat { rh_lease : RhinoQResourceLease; rh_failure : option js_error }.

Definition resource_beat {W} `{!RhinoQResourceLeaseClient W} (leaseMs : Z) (hb : resource_heartbeat) (w : W)
    : resource_heartbeat * W :=
  match rh_failure hb with
  | Some _ => (hb, w)
  | None =>
      match rc_renew (rh_lease hb) leaseMs w with
      | (Ok l, w') => (ResourceHeartbeat l None, w')
      | (Err e, w') => (ResourceHeartbeat (rh_lease hb) (Some e), w')
      end
  end.

(** [assertOwned()]: [true] where it throws [RhinoQResourceLeaseLostError]. *)
Definition resource_lost (hb : resource_heartbeat) : bool := bool_decide (is_Some (rh_failure hb)).
