(* ===== verification/ResourceFacts.v ===== *)
(** * What resource leases promise

    No pool is ever oversubscribed; admission refuses exactly what does not fit;
    a lease is released or renewed only by its current holder; and what the
    default PL/pgSQL setting makes of the functions. *)

From stdpp Require Import base gmap strings list fin_maps relations.
From Stdlib Require Import Ascii ZArith Lia.
From S2P Require Import Prelude TaskModel StoreSteps TaskClient SharedStore ResourceLeases.

(** ** Sums over a table *)

Lemma map_sum_fmap {V W} (f : W → Z) (g : V → W) (m : gmap string V) : map_sum f (g <$> m) = map_sum (λ v, f (g v)) m.
Proof.
  induction m as [|k v m Hk IH] using map_ind; [by rewrite fmap_empty|].
  rewrite fmap_insert, !map_sum_insert_None; [by rewrite IH|done|by rewrite lookup_fmap, Hk].
Qed.

Lemma map_sum_delete {V} (f : V → Z) (m : gmap string V) k v :
  m !! k = Some v → map_sum f (delete k m) = map_sum f m - f v.
Proof.
  intros Hk. rewrite <-(insert_delete_id m k v Hk) at 2.
  rewrite map_sum_insert_None by apply lookup_delete_eq. lia.
Qed.

(** The share of a pool its active leases occupy, overdue ones included. *)
Definition usage (tenant key : string) (f : vector → Z) (s : rdb) : Z :=
  map_sum (λ l, if in_pool tenant key l && active l then f (rl_resources l) else 0) (r_leases s).

Record rwf (s : rdb) : Prop := {
  rw_linked : linked (r_tasks s);
  rw_keyed : ∀ k l, r_leases s !! k = Some l → rl_id l = k;
  rw_unique : ∀ k1 k2 l1 l2, r_leases s !! k1 = Some l1 → r_leases s !! k2 = Some l2 →
    lease_of (rl_tenant l1) (rl_task_id l1) (rl_execution_id l1) (rl_pool l1) l2 = true → l1 = l2;
  rw_amount : ∀ k l f, r_leases s !! k = Some l → f ∈ dims → 0 ≤ f (rl_resources l);
  rw_epoch : ∀ k l, r_leases s !! k = Some l → 1 ≤ rl_epoch l;
  rw_pool : ∀ k l, r_leases s !! k = Some l → is_Some (r_pools s !! (rl_tenant l, rl_pool l));
  rw_bounded : ∀ t k p f, r_pools s !! (t, k) = Some p → f ∈ dims → usage t k f s ≤ f (pl_capacity p);
}.

Definition no_pools (d : db) : rdb := Rdb d ∅ ∅.

Lemma no_pools_wf d : linked d → rwf (no_pools d).
Proof. intros Hl. split; [done|..]; intros *; cbn; by rewrite lookup_empty. Qed.

Lemma in_pool_true tenant key l : in_pool tenant key l = true ↔ rl_tenant l = tenant ∧ rl_pool l = key.
Proof. unfold in_pool. by rewrite andb_true_iff, !bool_decide_eq_true. Qed.

Lemma lease_of_true tenant task ex key l :
  lease_of tenant task ex key l = true ↔
  rl_tenant l = tenant ∧ rl_pool l = key ∧ rl_task_id l = task ∧ rl_execution_id l = ex.
Proof. unfold lease_of. rewrite !andb_true_iff, in_pool_true, !bool_decide_eq_true. tauto. Qed.

Lemma active_true l : active l = true ↔ rl_state l = LActive.
Proof. unfold active. by rewrite bool_decide_eq_true. Qed.

(** ** Reaping overdue leases *)

Definition reaped (now : Z) (tenant key : string) (s : rdb) : rdb := with_leases (fmap (expire_overdue now tenant key)) s.

(** The columns reaping leaves alone. *)
Lemma expire_overdue_columns now tenant key l :
  let l' := expire_overdue now tenant key l in
  rl_id l' = rl_id l ∧ rl_tenant l' = rl_tenant l ∧ rl_pool l' = rl_pool l ∧ rl_task_id l' = rl_task_id l ∧
  rl_execution_id l' = rl_execution_id l ∧ rl_owner l' = rl_owner l ∧ rl_epoch l' = rl_epoch l ∧
  rl_resources l' = rl_resources l ∧ rl_until l' = rl_until l ∧
  (active l' = true → active l = true ∧ (in_pool tenant key l = true → now < rl_until l)).
Proof.
  unfold expire_overdue. destruct (_ && _ && _) eqn:E; cbn; split_and!; try done.
  intros Ha. split; [done|]. intros Hp. rewrite Hp, Ha in E. cbn in E. to_prop. lia.
Qed.

Lemma reaped_lookup now tenant key s k l :
  r_leases (reaped now tenant key s) !! k = Some l →
  ∃ l0, r_leases s !! k = Some l0 ∧ l = expire_overdue now tenant key l0.
Proof. cbn. rewrite lookup_fmap. destruct (r_leases s !! k); cbn; [|done]. intros [= <-]. eauto. Qed.

Lemma reaped_usage now tenant key t k f s :
  (∀ i l, r_leases s !! i = Some l → 0 ≤ f (rl_resources l)) → usage t k f (reaped now tenant key s) ≤ usage t k f s.
Proof.
  intros Hf. unfold usage. cbn. rewrite map_sum_fmap. apply map_sum_le. intros i l Hl. specialize (Hf i l Hl).
  destruct (expire_overdue_columns now tenant key l) as (_ & Et & Ep & _ & _ & _ & _ & Er & _ & Ha).
  unfold in_pool. rewrite Et, Ep, Er. destruct (bool_decide _ && bool_decide _); cbn; [|lia].
  destruct (active (expire_overdue now tenant key l)); [|destruct (active l); lia]. by destruct Ha as [-> _].
Qed.

Lemma reaped_wf now tenant key s : rwf s → rwf (reaped now tenant key s).
Proof.
  intros [Hl Hk Hu Ha He Hp Hb]. split; try done.
  - intros k l (l0 & H0 & ->)%reaped_lookup. rewrite (proj1 (expire_overdue_columns now tenant key l0)). by apply Hk.
  - intros k1 k2 l1 l2 (m1 & H1 & ->)%reaped_lookup (m2 & H2 & ->)%reaped_lookup Hof.
    apply lease_of_true in Hof.
    destruct (expire_overdue_columns now tenant key m1) as (_ & E1 & E2 & E3 & E4 & _).
    destruct (expire_overdue_columns now tenant key m2) as (_ & F1 & F2 & F3 & F4 & _).
    f_equal. apply (Hu k1 k2); try done. apply lease_of_true. destruct Hof as (? & ? & ? & ?). split_and!; congruence.
  - intros k l f (l0 & H0 & ->)%reaped_lookup Hf.
    destruct (expire_overdue_columns now tenant key l0) as (_ & _ & _ & _ & _ & _ & _ & -> & _). by apply (Ha k).
  - intros k l (l0 & H0 & ->)%reaped_lookup.
    destruct (expire_overdue_columns now tenant key l0) as (_ & _ & _ & _ & _ & _ & -> & _). by apply (He k).
  - intros k l (l0 & H0 & ->)%reaped_lookup.
    destruct (expire_overdue_columns now tenant key l0) as (_ & -> & -> & _). by apply (Hp k).
  - intros t k p f Hpool Hf. etrans; [apply reaped_usage; intros i l Hi; by apply (Ha i)|]. by apply Hb.
Qed.

(** After reaping, what is active in the pool is live. *)
Lemma reaped_live now tenant key f s :
  live_usage now tenant key f (reaped now tenant key s) = usage tenant key f (reaped now tenant key s).
Proof.
  unfold live_usage, usage. apply map_sum_ext. intros k l (l0 & H0 & ->)%reaped_lookup.
  destruct (expire_overdue_columns now tenant key l0) as (_ & Et & Ep & _ & _ & _ & _ & _ & Eu & Ha).
  destruct (in_pool tenant key (expire_overdue now tenant key l0)) eqn:Hp; [|done].
  destruct (active (expire_overdue now tenant key l0)) eqn:E; [|done]. destruct Ha as [_ Ha]; [done|].
  assert (in_pool tenant key l0 = true) as Hp0 by (apply in_pool_true; apply in_pool_true in Hp; by rewrite Et, Ep in Hp).
  cbn. rewrite Eu. by apply Ha, Z.ltb_lt in Hp0 as ->.
Qed.

(** ** Admission *)

Lemma over_capacity_false used request capacity fs :
  over_capacity used request capacity fs = Ok false → ∀ f, f ∈ fs → used f + f request ≤ f capacity.
Proof.
  induction fs as [|g fs IH]; cbn; [intros _ f H; by apply elem_of_nil in H|].
  destruct (INT8_MAX <? _); [done|]. destruct (_ <? _) eqn:E; [done|]. intros H f [->|Hf]%elem_of_cons; [to_prop; lia|].
  by apply IH.
Qed.

Lemma over_capacity_true used request capacity fs :
  over_capacity used request capacity fs = Ok true → ∃ f, f ∈ fs ∧ f capacity < used f + f request.
Proof.
  induction fs as [|g fs IH]; cbn; [done|]. destruct (INT8_MAX <? _); [done|].
  destruct (_ <? _) eqn:E.
  - intros _. exists g. to_prop. split; [left|done].
  - intros H. destruct (IH H) as (f & Hf & Hlt). exists f. split; [by right|done].
Qed.

Lemma find_lease_Some s tenant task ex key l :
  rwf s → find_lease s tenant task ex key = Some l → r_leases s !! rl_id l = Some l ∧ lease_of tenant task ex key l = true.
Proof.
  intros Hwf Hh. apply head_Some_elem_of in Hh. apply map_rows_spec in Hh as [Hat [k Hk]].
  by rewrite (rw_keyed s Hwf _ _ Hk).
Qed.

Lemma find_lease_None s tenant task ex key :
  find_lease s tenant task ex key = None → ∀ k l, r_leases s !! k = Some l → lease_of tenant task ex key l = false.
Proof.
  intros Hn k l Hk. destruct (lease_of tenant task ex key l) eqn:E; [|done].
  assert (l ∈ map_rows (lease_of tenant task ex key) (r_leases s)) as Hin by (apply map_rows_spec; eauto).
  unfold find_lease in Hn. destruct (map_rows _ _); [by apply elem_of_nil in Hin|done].
Qed.

(** The row a grant writes: it replaces [existing] and fits. *)
Lemma grant_wf s d id row (existing : option lease_row) :
  rwf s → d = r_tasks s → rl_id row = id → 1 ≤ rl_epoch row → (∀ f, f ∈ dims → 0 ≤ f (rl_resources row)) →
  is_Some (r_pools s !! (rl_tenant row, rl_pool row)) →
  match existing with
  | Some l => r_leases s !! rl_id l = Some l ∧
      lease_of (rl_tenant row) (rl_task_id row) (rl_execution_id row) (rl_pool row) l = true ∧ active l = false
  | None => ∀ k l, r_leases s !! k = Some l →
      lease_of (rl_tenant row) (rl_task_id row) (rl_execution_id row) (rl_pool row) l = false
  end →
  let others := match existing with Some l => delete (rl_id l) (r_leases s) | None => r_leases s end in
  others !! id = None →
  (∀ p f, r_pools s !! (rl_tenant row, rl_pool row) = Some p → f ∈ dims →
     usage (rl_tenant row) (rl_pool row) f s + f (rl_resources row) ≤ f (pl_capacity p)) →
  rwf (Rdb d (r_pools s) (<[id := row]> others)).
Proof.
  intros Hwf -> Hid Hep Ham Hpool Hex others Hfree Hfit.
  assert (∀ k l, others !! k = Some l → r_leases s !! k = Some l ∧
    lease_of (rl_tenant row) (rl_task_id row) (rl_execution_id row) (rl_pool row) l = false) as Hothers.
  { intros k l Hk. unfold others in Hk. destruct existing as [e|]; [|by eauto].
    destruct Hex as (He & Hof & _). apply lookup_delete_Some in Hk as [Hne Hk]. split; [done|].
    destruct (lease_of _ _ _ _ l) eqn:E; [|done]. apply lease_of_true in E as (E1 & E2 & E3 & E4).
    apply lease_of_true in Hof as (F1 & F2 & F3 & F4).
    assert (e = l) as -> by (apply (rw_unique s Hwf _ _ _ _ He Hk), lease_of_true; split_and!; congruence).
    by rewrite (rw_keyed s Hwf _ _ Hk) in Hne. }
  split; cbn.
  - apply (rw_linked s Hwf).
  - intros k l. rewrite lookup_insert. case_decide; intros Hk; simplify_eq; [done|]. apply Hothers in Hk as [Hk _].
    by apply (rw_keyed s Hwf).
  - intros k1 k2 l1 l2. rewrite !lookup_insert. repeat case_decide; intros H1 H2 Hof; simplify_eq; try done.
    + apply Hothers in H2 as [_ H2]. congruence.
    + apply Hothers in H1 as [_ H1]. apply lease_of_true in Hof as (F1 & F2 & F3 & F4).
      assert (lease_of (rl_tenant l2) (rl_task_id l2) (rl_execution_id l2) (rl_pool l2) l1 = true); [|congruence].
      apply lease_of_true. by split_and!.
    + apply Hothers in H1 as [H1 _]. apply Hothers in H2 as [H2 _]. by apply (rw_unique s Hwf k1 k2).
  - intros k l f. rewrite lookup_insert. case_decide; intros Hk Hf; simplify_eq; [by apply Ham|].
    apply Hothers in Hk as [Hk _]. by apply (rw_amount s Hwf k).
  - intros k l. rewrite lookup_insert. case_decide; intros Hk; simplify_eq; [done|]. apply Hothers in Hk as [Hk _].
    by apply (rw_epoch s Hwf k).
  - intros k l. rewrite lookup_insert. case_decide; intros Hk; simplify_eq; [done|]. apply Hothers in Hk as [Hk _].
    by apply (rw_pool s Hwf k).
  - intros t k p f Hp Hf.
    assert (usage t k f (Rdb (r_tasks s) (r_pools s) others) = usage t k f s) as Ho.
    { unfold usage, others; cbn. destruct existing as [e|]; [|done]. destruct Hex as (He & _ & Hina).
      rewrite (map_sum_delete _ _ _ e He), Hina, andb_false_r. lia. }
    unfold usage in Ho |- *. cbn in Ho |- *. rewrite map_sum_insert_None by done. rewrite Ho. fold (usage t k f s).
    destruct (in_pool t k row) eqn:Hin.
    + apply in_pool_true in Hin as [<- <-]. specialize (Hfit p f Hp Hf). specialize (Ham f Hf).
      pose proof (rw_bounded s Hwf _ _ p f Hp Hf). destruct (active row); cbn; lia.
    + cbn. pose proof (rw_bounded s Hwf _ _ p f Hp Hf). lia.
Qed.

(** A request that is not refused by the first guard. *)
Lemma valid_amounts id key task ex owner capacity request ms :
  invalid_resource_lease id key task ex owner capacity request ms = false →
  ∀ f, f ∈ dims → 0 ≤ f request ∧ 0 ≤ f capacity.
Proof.
  unfold invalid_resource_lease. intros H. repeat apply orb_false_iff in H as [H ?].
  assert (∀ v, vector_negative v = false → ∀ f, f ∈ dims → 0 ≤ f v) as Hnn.
  { intros v Hv f Hf. unfold vector_negative in Hv. destruct (f v <? 0) eqn:E; [|by apply Z.ltb_ge in E].
    assert (existsb (λ f, f v <? 0) dims = true); [|congruence]. apply existsb_exists. exists f.
    split; [by apply list_elem_of_In|done]. }
  intros f Hf. by split; apply Hnn.
Qed.

Lemma reaped_pools now tenant key s : r_pools (reaped now tenant key s) = r_pools s.
Proof. done. Qed.

(** What an admission answers with: a live lease of the requester. *)
Definition admitted now tenant key task ex owner (request : vector) (row : lease_row) (s' : rdb) : Prop :=
  rl_owner row = btrim owner ∧ rl_resources row = request ∧ r_leases s' !! rl_id row = Some row ∧
  lease_of tenant task ex key row = true ∧ active row = true ∧ now < rl_until row.

Lemma admit_if_fits_ok now id tenant key task ex owner request ms p existing s row s' :
  rwf s → r_pools s !! (tenant, key) = Some p → (∀ f, f ∈ dims → 0 ≤ f request) → 1000 ≤ ms →
  (∀ f, live_usage now tenant key f s = usage tenant key f s) →
  find_lease s tenant task ex key = existing → match existing with Some l => active l = false | None => True end →
  admit_if_fits now id tenant key task ex owner request ms (pl_capacity p) existing s = Ok (row, s') →
  rwf s' ∧ r_tasks s' = r_tasks s ∧ r_pools s' = r_pools s ∧ admitted now tenant key task ex owner request row s'.
Proof.
  intros Hwf Hp Hreq Hms Hlive Hfind Hex H. unfold admit_if_fits, rfail_if, grant in H. txn_inv H. to_prop.
  unfold bigint_succ in *. to_prop. subst. unfold admitted. cbn. rewrite lookup_insert_eq. split.
  2: { split_and!; try done; [by apply lease_of_true|lia]. }
  apply grant_wf; try done; cbn; try (rewrite Hp; by eauto).
  - destruct (find_lease s tenant task ex key) as [l|] eqn:Ef; [|lia].
    apply find_lease_Some in Ef as [Hl _]; [|done]. pose proof (rw_epoch s Hwf _ _ Hl). lia.
  - destruct (find_lease s tenant task ex key) as [l|] eqn:Ef; [|by apply find_lease_None].
    apply find_lease_Some in Ef as [Hl Hof]; [|done]. by split_and!.
  - by apply eq_None_not_Some.
  - intros p' f Hp' Hf. rewrite Hp in Hp'. injection Hp' as <-.
    match goal with H : over_capacity _ _ _ _ = Ok false |- _ => pose proof (over_capacity_false _ _ _ _ H f Hf) as Hle end.
    cbn in Hle. by rewrite Hlive in Hle.
Qed.

(** The lease found after reaping is live or inactive. *)
Lemma reaped_inactive now tenant key task ex s l :
  rwf s → find_lease (reaped now tenant key s) tenant task ex key = Some l → active l && (now <? rl_until l) = false →
  active l = false.
Proof.
  intros Hwf Hf Hdead. apply find_lease_Some in Hf as [Hl Hof]; [|by apply reaped_wf].
  destruct (active l) eqn:Ea; [|done]. cbn in Hdead. apply Z.ltb_ge in Hdead.
  apply reaped_lookup in Hl as (l0 & H0 & El). destruct (expire_overdue_columns now tenant key l0) as
    (_ & Et & Ep & _ & _ & _ & _ & _ & Eu & Hact). rewrite <-El in *. destruct Hact as [_ Hact]; [done|].
  apply lease_of_true in Hof as (F1 & F2 & _). assert (now < rl_until l0); [|lia].
  apply Hact, in_pool_true. by rewrite <-Et, <-Ep.
Qed.

Lemma admit_run now id tenant key task ex owner request ms capacity s :
  admission now id tenant key task ex owner request ms capacity s =
  let s1 := reaped now tenant key s in
  let existing := find_lease s1 tenant task ex key in
  match existing with
  | Some l =>
      if active l && (now <? rl_until l) then
        if bool_decide (rl_owner l = btrim owner) && bool_decide (rl_resources l = request)
        then Ok (l, s1) else Err (Raise "RHINOQ_RESOURCE_LEASE_HELD")
      else admit_if_fits now id tenant key task ex owner request ms capacity existing s1
  | None => admit_if_fits now id tenant key task ex owner request ms capacity existing s1
  end.
Proof.
  unfold admission, tbind, tget, tput. cbn zeta. fold (reaped now tenant key s).
  destruct (find_lease _ _ _ _ _) as [l|]; [|done]. destruct (_ && (now <? _)); [|done]. by destruct (_ && _).
Qed.

Lemma admit_ok now id tenant key task ex owner request ms p s row s' :
  rwf s → r_pools s !! (tenant, key) = Some p → (∀ f, f ∈ dims → 0 ≤ f request) → 1000 ≤ ms →
  admission now id tenant key task ex owner request ms (pl_capacity p) s = Ok (row, s') →
  rwf s' ∧ r_tasks s' = r_tasks s ∧ r_pools s' = r_pools s ∧ admitted now tenant key task ex owner request row s'.
Proof.
  intros Hwf Hp Hreq Hms H. rewrite admit_run in H. cbn zeta in H.
  pose proof (reaped_wf now tenant key s Hwf) as Hwf1. pose proof (reaped_inactive now tenant key task ex s) as Hin.
  change (r_tasks s) with (r_tasks (reaped now tenant key s)). change (r_pools s) with (r_pools (reaped now tenant key s)) in *.
  assert (∀ f, live_usage now tenant key f (reaped now tenant key s) = usage tenant key f (reaped now tenant key s)) as Hlive
    by (intros f; apply reaped_live).
  revert Hwf1 Hp Hlive Hin H. generalize (reaped now tenant key s). intros s1 Hwf1 Hp Hlive Hin H.
  destruct (find_lease s1 tenant task ex key) as [l|] eqn:Ef; [|by eapply admit_if_fits_ok].
  destruct (active l && (now <? rl_until l)) eqn:Elive; [|by eapply (admit_if_fits_ok _ _ _ _ _ _ _ _ _ _ (Some l)); try apply Hin].
  destruct (_ && _) eqn:Esame in H; [|done]. injection H as <- <-. apply find_lease_Some in Ef as [Hl Hof]; [|done]. to_prop.
  by split_and!.
Qed.

(** ** Every command preserves the invariant *)

Lemma usage_no_leases tenant key f s :
  (∀ k l, r_leases s !! k = Some l → in_pool tenant key l = false) → usage tenant key f s = 0.
Proof.
  intros Hno. unfold usage. etrans; [|apply (map_sum_zero (r_leases s))]. apply map_sum_ext. intros k l Hl.
  by rewrite (Hno k l Hl).
Qed.

(** Declaring a pool keeps the ones that exist. *)
Lemma declare_pool_ok vc now tenant key capacity s u s' :
  rwf s → (∀ f, f ∈ dims → 0 ≤ f capacity) → declare_pool vc now tenant key capacity s = Ok (u, s') →
  vc = UseColumn ∧ rwf s' ∧ r_tasks s' = r_tasks s ∧ r_leases s' = r_leases s ∧ is_Some (r_pools s' !! (tenant, key)) ∧
  ∀ k p, r_pools s !! k = Some p → r_pools s' !! k = Some p.
Proof.
  intros Hwf Hcap H. apply ambiguous_raise_ok in H as [-> H]; [|reflexivity]. split; [done|].
  destruct (r_pools s !! (tenant, key)) as [p|] eqn:Ep; injection H as _ <-.
  { rewrite Ep. split_and!; eauto. }
  cbn. rewrite lookup_insert_eq. split_and!; try done; [|intros k p Hk; rewrite lookup_insert_ne; congruence].
  split; cbn; try apply Hwf.
  - intros k l Hl. rewrite lookup_insert. case_decide; [eauto|]. by apply (rw_pool s Hwf k).
  - intros t k p f. rewrite lookup_insert. case_decide as E; intros Hp Hf; [|by apply (rw_bounded s Hwf)].
    injection E as <- <-. injection Hp as <-. cbn. change (usage tenant key f s ≤ f capacity).
    rewrite usage_no_leases; [by apply Hcap|]. intros i l Hl. destruct (in_pool tenant key l) eqn:Ei; [|done].
    apply in_pool_true in Ei as [<- <-]. destruct (rw_pool s Hwf _ _ Hl) as [x Hx]. congruence.
Qed.

Lemma r_on_tasks_ok {A} (m : sql A) s x s' :
  r_on_tasks m s = Ok (x, s') → ∃ d, m (r_tasks s) = Ok (x, d) ∧ s' = Rdb d (r_pools s) (r_leases s).
Proof. unfold r_on_tasks. destruct (m (r_tasks s)) as [[y d]|]; [|done]. intros [= <- <-]. eauto. Qed.

Definition pools_kept (s s' : rdb) : Prop := ∀ k p, r_pools s !! k = Some p → r_pools s' !! k = Some p.

(** What a successful acquisition did. *)
Lemma acquire_lease_ok vc c now id pool task ex owner capacity request ms s row s' :
  rwf s → acquire_resource_lease vc c now id pool task ex owner capacity request ms s = Ok (row, s') →
  vc = UseColumn ∧ rwf s' ∧ pools_kept s s' ∧
  ∃ t p, visible_tasks c (r_tasks s) !! task = Some t ∧ r_pools s' !! (t_tenant t, btrim pool) = Some p ∧
    pl_capacity p = capacity ∧ admitted now (t_tenant t) (btrim pool) task ex owner request row s'.
Proof.
  intros Hwf H. unfold acquire_resource_lease, rfail_if in H. apply tbind_ok in H as (? & ? & Hx & H); txn_inv Hx.
  pose proof (valid_amounts _ _ _ _ _ _ _ _ Hguard) as Hval.
  assert (1000 ≤ ms) as Hms by (unfold invalid_resource_lease in Hguard; to_prop; lia).
  apply tbind_ok in H as (t & s1 & Hx & H). apply r_on_tasks_ok in Hx as (d & Ht & ->).
  apply select_task_ok in Ht as (-> & Ht & Hrls).
  replace (Rdb (r_tasks s) (r_pools s) (r_leases s)) with s in H by (by destruct s).
  apply tbind_ok in H as (? & ? & Hx & H); txn_inv Hx. apply tbind_ok in H as (? & ? & Hx & H); txn_inv Hx.
  apply tbind_ok in H as (u & s2 & Hx & H).
  apply declare_pool_ok in Hx as (-> & Hwf2 & Et & El & [p Hp] & Hkeep); [|done|intros f Hf; by apply Hval].
  apply tbind_ok in H as (? & ? & Hx & H); txn_inv Hx. rewrite Hp in H.
  apply tbind_ok in H as (? & ? & Hx & H); txn_inv Hx. to_prop. apply tbind_ok in H as (? & ? & Hx & H); txn_inv Hx.
  apply admit_ok in H as (Hwf' & Et' & Ep' & Had); [|done..|intros f Hf; by apply Hval|done].
  split_and!; try done.
  - intros k q Hq. rewrite Ep'. by apply Hkeep.
  - exists t, p. rewrite Ep'. split_and!; try done. by apply visible_tasks_lookup.
Qed.

Lemma visible_leases_lookup c s k l :
  visible_leases c s !! k = Some l ↔ r_leases s !! k = Some l ∧ rls_allows c (rl_tenant l) = true.
Proof. unfold visible_leases. by rewrite map_lookup_filter_Some. Qed.

(** Rewriting a lease in place without activating it. *)
Lemma put_lease_wf s l l' :
  rwf s → r_leases s !! rl_id l = Some l → rl_id l' = rl_id l → rl_tenant l' = rl_tenant l → rl_pool l' = rl_pool l →
  rl_task_id l' = rl_task_id l → rl_execution_id l' = rl_execution_id l → rl_epoch l' = rl_epoch l →
  rl_resources l' = rl_resources l → (active l' = true → active l = true) → rwf (put_lease l' s).
Proof.
  intros Hwf Hl E1 E2 E3 E4 E5 E6 E7 Hact. unfold put_lease. rewrite E1. split; cbn.
  - apply (rw_linked s Hwf).
  - intros k x. rewrite lookup_insert. case_decide; intros Hx; simplify_eq; [done|]. by apply (rw_keyed s Hwf).
  - intros k1 k2 x y. rewrite !lookup_insert. repeat case_decide; intros Hx Hy Hof; simplify_eq; try done.
    + apply lease_of_true in Hof as (F1 & F2 & F3 & F4). assert (l = y) as <-.
      { apply (rw_unique s Hwf _ _ _ _ Hl Hy), lease_of_true. split_and!; congruence. }
      by rewrite (rw_keyed s Hwf _ _ Hy) in *.
    + apply lease_of_true in Hof as (F1 & F2 & F3 & F4). assert (x = l) as ->.
      { apply (rw_unique s Hwf _ _ _ _ Hx Hl), lease_of_true. split_and!; congruence. }
      by rewrite (rw_keyed s Hwf _ _ Hx) in *.
    + by apply (rw_unique s Hwf k1 k2).
  - intros k x f. rewrite lookup_insert. case_decide; intros Hx Hf; simplify_eq; [rewrite E7|]; by eapply (rw_amount s Hwf).
  - intros k x. rewrite lookup_insert. case_decide; intros Hx; simplify_eq; [rewrite E6|]; by eapply (rw_epoch s Hwf).
  - intros k x. rewrite lookup_insert. case_decide; intros Hx; simplify_eq; [rewrite E2, E3|]; by eapply (rw_pool s Hwf).
  - intros t k p f Hp Hf. pose proof (rw_bounded s Hwf t k p f Hp Hf) as Hb. unfold usage in *. cbn.
    rewrite (map_sum_insert_Some _ _ _ _ l) by done. unfold in_pool in *. rewrite E2, E3, E7.
    pose proof (rw_amount s Hwf _ _ f Hl Hf). destruct (bool_decide _ && bool_decide _); cbn; [|lia].
    destruct (active l') eqn:Ea; [rewrite Hact by done; lia|]. destruct (active l); lia.
Qed.

Lemma tasks_moved_wf s d : rwf s → rtc any_step (r_tasks s) d → rwf (Rdb d (r_pools s) (r_leases s)).
Proof. intros Hwf Hd. destruct Hwf. split; try done. by eapply any_steps_linked. Qed.

Lemma run_revent_wf vc ev s : rwf s → rwf (run_revent vc ev s) ∧ pools_kept s (run_revent vc ev s).
Proof.
  intros Hwf. assert (rwf s ∧ pools_kept s s) as Hsame by (split; [done|by intros k p]).
  destruct ev as [c now cmd]. unfold run_revent. cbn.
  destruct cmd as [id pool task ex owner cap req ms|id owner e ms|id owner e|cmd];
    apply (committed_inv (λ s', rwf s' ∧ pools_kept s s')); try done; intros x s' H.
  - apply acquire_lease_ok in H as (_ & Hwf' & Hk & _); done.
  - unfold renew_resource_lease, rfail_if in H. txn_inv H.
    match goal with H : context [visible_leases c s !! id] |- _ => destruct (visible_leases c s !! id) as [l|] eqn:El; txn_inv H end.
    apply visible_leases_lookup in El as [El _]. unfold ambiguous in *; change (conflicts renew_names) with true in *; cbv iota in *; destruct vc; try done;
      match goal with H : _ s = Ok (x, s') |- _ => txn_inv H end; [done|].
    split; [|by intros k p]. rewrite <-(rw_keyed s Hwf _ _ El) in El. by eapply put_lease_wf.
  - unfold release_resource_lease, rfail_if in H. txn_inv H.
    match goal with H : context [visible_leases c s !! id] |- _ => destruct (visible_leases c s !! id) as [l|] eqn:El; txn_inv H end.
    apply visible_leases_lookup in El as [El _]. destruct (bool_decide _);
      match goal with H : _ s = Ok (x, s') |- _ => txn_inv H end; [done|].
    split; [|by intros k p]. rewrite <-(rw_keyed s Hwf _ _ El) in El. by eapply put_lease_wf.
  - apply r_on_tasks_ok in H as (d & Hd & ->). split; [|by intros k p]. apply tasks_moved_wf; [done|].
    eapply steps_any, run_command_steps; [apply (rw_linked s Hwf)|done].
Qed.

Lemma run_rhistory_wf vc h s : rwf s → rwf (run_rhistory vc h s) ∧ pools_kept s (run_rhistory vc h s).
Proof.
  intros Hwf. unfold run_rhistory. apply (run_events_ind _ (λ s', rwf s' ∧ pools_kept s s')); [|split; [done|by intros k p]].
  intros ev s1 [Hwf1 Hk1]. destruct (run_revent_wf vc ev s1 Hwf1) as [Hwf2 Hk2]. split; [done|].
  intros k p Hp. by apply Hk2, Hk1.
Qed.

(** C10. Capacity is never oversubscribed: after any history of admissions,
    renewals, releases and Task commands by any sessions, at any clock readings,
    the active leases of every pool together occupy at most its capacity in each
    of the four dimensions; and the capacity a pool was declared with stays the
    same afterwards. *)
Theorem pools_never_oversubscribed : ∀ vc d h tenant key p f, linked d →
  let s := run_rhistory vc h (no_pools d) in
  r_pools s !! (tenant, key) = Some p → f ∈ dims →
  0 ≤ usage tenant key f s ≤ f (pl_capacity p) ∧ ∀ h', r_pools (run_rhistory vc h' s) !! (tenant, key) = Some p.
Proof.
  intros vc d h tenant key p f Hl s Hp Hf. destruct (run_rhistory_wf vc h (no_pools d) (no_pools_wf d Hl)) as [Hwf _].
  fold s in Hwf. split; [split; [|by apply (rw_bounded s Hwf)]|].
  - etrans; [apply Z.eq_le_incl; symmetry; apply (map_sum_zero (r_leases s))|]. apply map_sum_le. intros k l Hk.
    pose proof (rw_amount s Hwf _ _ f Hk Hf). destruct (_ && _); lia.
  - intros h'. by apply (run_rhistory_wf vc h' s Hwf).
Qed.

(** ** Admission refuses exactly what does not fit *)

(** A well-formed request about a Task and an Execution the session sees. *)
Record requestable (c : session) (s : rdb) (id pool task ex owner : string) (capacity request : vector) (ms : Z)
    (t : task_row) : Prop := {
  rq_valid : invalid_resource_lease id (btrim pool) task ex owner capacity request ms = false;
  rq_task : visible_tasks c (r_tasks s) !! task = Some t;
  rq_execution : lease_execution c s ex task (t_tenant t) = true;
}.

(** The store after the pool was declared. *)
Definition declared (now : Z) (tenant key : string) (capacity : vector) (s : rdb) : rdb :=
  match r_pools s !! (tenant, key) with
  | Some _ => s
  | None => Rdb (r_tasks s) (<[(tenant, key) := PoolRow tenant key capacity 1 now now]> (r_pools s)) (r_leases s)
  end.

Lemma acquire_lease_run c now id pool task ex owner capacity request ms s t :
  requestable c s id pool task ex owner capacity request ms t →
  (∀ p, r_pools s !! (t_tenant t, btrim pool) = Some p → pl_capacity p = capacity) →
  vector_exceeds request capacity = false →
  acquire_resource_lease UseColumn c now id pool task ex owner capacity request ms s =
  admission now id (t_tenant t) (btrim pool) task ex owner request ms capacity (declared now (t_tenant t) (btrim pool) capacity s).
Proof.
  intros [Hv Ht Hex] Hcap Hfit. unfold acquire_resource_lease, rfail_if, traise_if, tbind. rewrite Hv. unfold tret.
  unfold r_on_tasks, select_task. rewrite Ht. unfold tget.
  replace (Rdb (r_tasks s) (r_pools s) (r_leases s)) with s by (by destruct s). rewrite Hex. cbn [negb].
  unfold declare_pool, declared. rewrite ambiguous_column. destruct (r_pools s !! (t_tenant t, btrim pool)) as [p|] eqn:Ep.
  - rewrite Ep, (Hcap p) by done. rewrite bool_decide_true, Hfit by done. done.
  - cbn [r_pools]. rewrite lookup_insert_eq. cbn [pl_capacity]. rewrite bool_decide_true, Hfit by done. done.
Qed.

Lemma over_capacity_run used request capacity fs :
  (∀ f, f ∈ fs → used f + f request ≤ INT8_MAX) →
  over_capacity used request capacity fs = Ok (existsb (λ f, f capacity <? used f + f request) fs).
Proof.
  induction fs as [|g fs IH]; intros H; cbn; [done|].
  replace (INT8_MAX <? used g + g request) with false by (symmetry; apply Z.ltb_ge, H; left).
  destruct (_ <? _); cbn; [done|]. apply IH. intros f Hf. apply H. by right.
Qed.

Lemma sums_in_range_true now tenant key fs s :
  (∀ f, f ∈ fs → live_usage now tenant key f s ≤ INT8_MAX) → sums_in_range now tenant key fs s = true.
Proof.
  induction fs as [|g fs IH]; intros H; cbn; [done|]. rewrite (proj2 (Z.leb_le _ _)) by (apply H; left).
  apply IH. intros f Hf. apply H. by right.
Qed.

(** Reaping changes no live lease. *)
Lemma reaped_live_usage now tenant key f s :
  live_usage now tenant key f (reaped now tenant key s) = live_usage now tenant key f s.
Proof.
  unfold live_usage. cbn. rewrite map_sum_fmap. apply map_sum_ext. intros k l Hl. unfold expire_overdue.
  destruct (in_pool tenant key l) eqn:Hp; cbn; [|by rewrite Hp]. destruct (active l) eqn:Ha; cbn; [|by rewrite Hp, Ha].
  destruct (rl_until l <=? now) eqn:Hu; [|by rewrite Hp, Ha].
  cbn. rewrite andb_false_r. to_prop. by rewrite (proj2 (Z.ltb_ge _ _)).
Qed.

Lemma find_lease_reaped now tenant task ex key s l :
  rwf s → find_lease (reaped now tenant key s) tenant task ex key = Some l →
  ∃ l0, find_lease s tenant task ex key = Some l0 ∧ l = expire_overdue now tenant key l0.
Proof.
  intros Hwf Hf. apply find_lease_Some in Hf as [Hl Hof]; [|by apply reaped_wf].
  apply reaped_lookup in Hl as (l0 & H0 & ->). exists l0. split; [|done].
  destruct (expire_overdue_columns now tenant key l0) as (_ & E1 & E2 & E3 & E4 & _).
  apply lease_of_true in Hof as (F1 & F2 & F3 & F4). rewrite E1 in F1. rewrite E2 in F2. rewrite E3 in F3. rewrite E4 in F4.
  destruct (find_lease s tenant task ex key) as [l1|] eqn:Ef.
  - apply find_lease_Some in Ef as [H1 Hof1]; [|done]. f_equal. apply (rw_unique s Hwf _ _ _ _ H1 H0).
    apply lease_of_true in Hof1 as (G1 & G2 & G3 & G4). apply lease_of_true. split_and!; congruence.
  - pose proof (find_lease_None _ _ _ _ _ Ef _ _ H0) as Hno.
    assert (lease_of tenant task ex key l0 = true) by (by apply lease_of_true). congruence.
Qed.

Lemma admit_if_fits_run now id tenant key task ex owner request ms capacity existing s :
  (∀ f, f ∈ dims → live_usage now tenant key f s ≤ f capacity) →
  (∀ f, f ∈ dims → f request ≤ f capacity ∧ 0 ≤ f request ∧ f capacity ≤ MAX_SAFE_INTEGER) →
  admit_if_fits now id tenant key task ex owner request ms capacity existing s =
  if existsb (λ f, f capacity <? live_usage now tenant key f s + f request) dims
  then Err (Raise "RHINOQ_RESOURCE_UNAVAILABLE")
  else grant now id tenant key task ex owner request ms existing s.
Proof.
  intros Hlive Hreq. unfold admit_if_fits, rfail_if, tbind, tget, traise_if.
  assert (∀ f, f ∈ dims → live_usage now tenant key f s + f request ≤ INT8_MAX) as Hmax.
  { intros f Hf. specialize (Hlive f Hf). destruct (Hreq f Hf) as (? & ? & ?). unfold MAX_SAFE_INTEGER, INT8_MAX in *. lia. }
  rewrite sums_in_range_true. 2: { intros f Hf. specialize (Hmax f Hf). destruct (Hreq f Hf) as (_ & ? & _). lia. }
  cbn [negb]. unfold tret, tlift. rewrite over_capacity_run by done. by destruct (existsb _ _).
Qed.

Lemma dims_existsb (p : (vector → Z) → bool) : existsb p dims = true ↔ ∃ f, f ∈ dims ∧ p f = true.
Proof.
  rewrite existsb_exists. split; intros (f & Hf & Hp); exists f; (split; [by apply list_elem_of_In|done]).
Qed.

(** A grant succeeds when the identity is free or the requester's own. *)
Lemma grant_run now id tenant key task ex owner request ms existing s :
  rwf s → (∀ l, r_leases s !! id = Some l → existing = Some l) →
  match existing with Some l => rl_epoch l < INT8_MAX | None => True end →
  ∃ row s', grant now id tenant key task ex owner request ms existing s = Ok (row, s').
Proof.
  intros Hwf Hid Hep. unfold grant, tbind, tget, tlift, traise_if.
  replace (bigint_succ (match existing with Some l => rl_epoch l | None => 0 end)) with
    (Ok (E:=sql_error) (match existing with Some l => rl_epoch l | None => 0 end + 1)).
  2: { symmetry. apply int_succ_ok. split; [done|]. destruct existing; unfold INT8_MAX in *; lia. }
  rewrite bool_decide_false; [by repeat eexists|]. intros [l Hl].
  destruct existing as [e|]; [|by specialize (Hid l Hl)].
  apply lookup_delete_Some in Hl as [Hne Hl]. specialize (Hid l Hl). injection Hid as ->.
  by rewrite (rw_keyed s Hwf _ _ Hl) in Hne.
Qed.

Lemma find_lease_stored s tenant task ex key k l :
  rwf s → r_leases s !! k = Some l → lease_of tenant task ex key l = true → find_lease s tenant task ex key = Some l.
Proof.
  intros Hwf Hl Hof. destruct (find_lease s tenant task ex key) as [l1|] eqn:Ef.
  - apply find_lease_Some in Ef as [H1 Hof1]; [|done]. f_equal. apply (rw_unique s Hwf _ _ _ _ H1 Hl).
    apply lease_of_true in Hof1 as (G1 & G2 & G3 & G4). apply lease_of_true in Hof as (F1 & F2 & F3 & F4).
    apply lease_of_true. split_and!; congruence.
  - pose proof (find_lease_None _ _ _ _ _ Ef _ _ Hl). congruence.
Qed.

(** The store an admission decides on, and what it knows there. *)
Record ready (now : Z) (tenant key task ex : string) (capacity : vector) (s s3 : rdb) : Prop := {
  rd_wf : rwf s3;
  rd_pool : ∃ p, r_pools s3 !! (tenant, key) = Some p ∧ pl_capacity p = capacity;
  rd_live : ∀ f, live_usage now tenant key f s3 = live_usage now tenant key f s;
  rd_usage : ∀ f, live_usage now tenant key f s3 = usage tenant key f s3;
  rd_lease : ∀ k, r_leases s3 !! k = expire_overdue now tenant key <$> r_leases s !! k;
  rd_find : ∀ l, find_lease s3 tenant task ex key = Some l →
    ∃ l0, find_lease s tenant task ex key = Some l0 ∧ l = expire_overdue now tenant key l0;
}.

Lemma declared_ready now tenant key task ex capacity s :
  rwf s → (∀ f, f ∈ dims → 0 ≤ f capacity) → (∀ p, r_pools s !! (tenant, key) = Some p → pl_capacity p = capacity) →
  ready now tenant key task ex capacity s (reaped now tenant key (declared now tenant key capacity s)).
Proof.
  intros Hwf Hnn Hcap. set (s2 := declared now tenant key capacity s).
  assert (declare_pool UseColumn now tenant key capacity s = Ok (tt, s2)) as Hdec.
  { unfold declare_pool, s2, declared. rewrite ambiguous_column. by destruct (r_pools s !! (tenant, key)). }
  apply declare_pool_ok in Hdec as (_ & Hwf2 & _ & El2 & [p Hp] & _); [|done..]. split.
  - by apply reaped_wf.
  - exists p. split; [done|]. unfold s2, declared in Hp.
    destruct (r_pools s !! (tenant, key)) as [q|] eqn:Eq; [by apply Hcap; congruence|].
    cbn in Hp. rewrite lookup_insert_eq in Hp. by injection Hp as <-.
  - intros f. rewrite reaped_live_usage. unfold live_usage. by rewrite El2.
  - intros f. apply reaped_live.
  - intros k. cbn. by rewrite lookup_fmap, El2.
  - intros l Hf. apply find_lease_reaped in Hf as (l0 & Hf & ->); [|done]. exists l0. split; [|done].
    unfold find_lease in *. by rewrite El2 in Hf.
Qed.

Lemma ready_idle now tenant key task ex capacity s s3 :
  rwf s → ready now tenant key task ex capacity s s3 →
  (∀ l, find_lease s tenant task ex key = Some l → active l && (now <? rl_until l) = false ∧ rl_epoch l < INT8_MAX) →
  match find_lease s3 tenant task ex key with Some l => active l = false ∧ rl_epoch l < INT8_MAX | None => True end.
Proof.
  intros Hwf Hrd Hown. destruct (find_lease s3 tenant task ex key) as [l|] eqn:Ef; [|done].
  destruct (rd_find _ _ _ _ _ _ _ _ Hrd l Ef) as (l0 & Hf0 & ->).
  destruct (Hown l0 Hf0) as [H1 H2]. apply find_lease_Some in Hf0 as [_ Hof0]; [|done].
  apply lease_of_true in Hof0 as (F1 & F2 & _). assert (in_pool tenant key l0 = true) as Hin by (by apply in_pool_true).
  destruct (expire_overdue_columns now tenant key l0) as (_ & _ & _ & _ & _ & _ & -> & _ & Eu & Ha).
  destruct (active (expire_overdue now tenant key l0)) eqn:Ea; [|done]. destruct Ha as [Ha Hu]; [done|].
  rewrite Ha in H1. cbn in H1. apply Z.ltb_ge in H1. specialize (Hu Hin). lia.
Qed.

Lemma admit_idle now id tenant key task ex owner request ms capacity s :
  let s3 := reaped now tenant key s in
  match find_lease s3 tenant task ex key with Some l => active l = false ∧ rl_epoch l < INT8_MAX | None => True end →
  admission now id tenant key task ex owner request ms capacity s =
  admit_if_fits now id tenant key task ex owner request ms capacity (find_lease s3 tenant task ex key) s3.
Proof.
  intros s3 Hidle. rewrite admit_run. cbn zeta. fold s3. destruct (find_lease s3 tenant task ex key) as [l|]; [|done].
  by destruct Hidle as [-> _].
Qed.

Lemma ready_own now tenant key task ex capacity s s3 id l :
  ready now tenant key task ex capacity s s3 →
  (∀ l, r_leases s !! id = Some l → lease_of tenant task ex key l = true) →
  r_leases s3 !! id = Some l → find_lease s3 tenant task ex key = Some l.
Proof.
  intros Hrd Hid Hl3. pose proof Hl3 as Hl. rewrite (rd_lease _ _ _ _ _ _ _ _ Hrd) in Hl.
  destruct (r_leases s !! id) as [l0|] eqn:E0; [|done]. injection Hl as <-.
  eapply find_lease_stored; [apply (rd_wf _ _ _ _ _ _ _ _ Hrd)|done|]. specialize (Hid l0 eq_refl).
  destruct (expire_overdue_columns now tenant key l0) as (_ & E1 & E2 & E3 & E4 & _).
  apply lease_of_true in Hid. apply lease_of_true. by rewrite E1, E2, E3, E4.
Qed.

Lemma request_amounts id key task ex owner capacity request ms :
  invalid_resource_lease id key task ex owner capacity request ms = false → vector_exceeds request capacity = false →
  (∀ f, f ∈ dims → f capacity ≤ MAX_SAFE_INTEGER) →
  1000 ≤ ms ∧ ∀ f, f ∈ dims → f request ≤ f capacity ∧ 0 ≤ f request ∧ f capacity ≤ MAX_SAFE_INTEGER.
Proof.
  intros Hg Hfit Hsafe. split; [unfold invalid_resource_lease in Hg; to_prop; lia|]. intros f Hf.
  destruct (valid_amounts _ _ _ _ _ _ _ _ Hg f Hf) as [Hnn _]. split_and!; [|done|by apply Hsafe].
  destruct (f capacity <? f request) eqn:E; [|by apply Z.ltb_ge].
  assert (vector_exceeds request capacity = true) by (apply dims_existsb; eauto). congruence.
Qed.

(** Admission is exact: a well-formed request for an existing or new pool of
    the same capacity, by an Execution that holds no live lease there, is refused
    as unavailable when what live leases occupy plus the request exceeds the
    capacity in some dimension, and is granted otherwise (unless the lease
    identity belongs to another Execution or the epoch counter is exhausted);
    overdue leases never count, and no sum overflows. *)
Theorem admission_exact : ∀ d h c now id pool task ex owner capacity request ms t, linked d →
  let s := run_rhistory UseColumn h (no_pools d) in
  let tenant := t_tenant t in
  let key := btrim pool in
  requestable c s id pool task ex owner capacity request ms t →
  (∀ p, r_pools s !! (tenant, key) = Some p → pl_capacity p = capacity) → vector_exceeds request capacity = false →
  (∀ f, f ∈ dims → f capacity ≤ MAX_SAFE_INTEGER) →
  (∀ l, find_lease s tenant task ex key = Some l → active l && (now <? rl_until l) = false ∧ rl_epoch l < INT8_MAX) →
  (∀ l, r_leases s !! id = Some l → lease_of tenant task ex key l = true) →
  let answer := acquire_resource_lease UseColumn c now id pool task ex owner capacity request ms s in
  ((∃ f, f ∈ dims ∧ f capacity < live_usage now tenant key f s + f request) →
     answer = Err (Raise "RHINOQ_RESOURCE_UNAVAILABLE")) ∧
  ((∀ f, f ∈ dims → live_usage now tenant key f s + f request ≤ f capacity) →
     ∃ row s', answer = Ok (row, s') ∧ admitted now tenant key task ex owner request row s').
Proof.
  intros d h c now id pool task ex owner capacity request ms t Hl s tenant key Hreq Hcap Hfit Hsafe Hown Hid answer.
  destruct (run_rhistory_wf UseColumn h (no_pools d) (no_pools_wf d Hl)) as [Hwf _]. fold s in Hwf.
  pose proof (rq_valid _ _ _ _ _ _ _ _ _ _ _ Hreq) as Hg.
  destruct (request_amounts _ _ _ _ _ _ _ _ Hg Hfit Hsafe) as [Hms Ham].
  pose proof (declared_ready now tenant key task ex capacity s Hwf
    ltac:(intros f Hf; by apply (valid_amounts _ _ _ _ _ _ _ _ Hg)) Hcap) as Hrd.
  pose proof (ready_idle _ _ _ _ _ _ _ _ Hwf Hrd Hown) as Hidle.
  assert (answer = admission now id tenant key task ex owner request ms capacity (declared now tenant key capacity s)) as Eans
    by (by apply acquire_lease_run).
  rewrite (admit_idle _ _ _ _ _ _ _ _ _ _ _ Hidle) in Eans. revert Hrd Hidle Eans.
  generalize (reaped now tenant key (declared now tenant key capacity s)). intros s3 Hrd Hidle Eans.
  pose proof Hrd as [Hwf3 (p & Hp & Ecap) Hlive Huse _ _].
  pose proof (admit_if_fits_run now id tenant key task ex owner request ms capacity (find_lease s3 tenant task ex key) s3
    ltac:(intros f Hf; rewrite Huse, <-Ecap; by apply (rw_bounded s3 Hwf3)) Ham) as Erun.
  split.
  - intros (f & Hf & Hlt). rewrite Eans, Erun. replace (existsb _ _) with true; [done|]. symmetry. apply dims_existsb.
    exists f. split; [done|]. rewrite Hlive. by apply Z.ltb_lt.
  - intros Hroom. destruct (existsb _ dims) eqn:E in Erun.
    { apply dims_existsb in E as (f & Hf & Hlt). apply Z.ltb_lt in Hlt. specialize (Hroom f Hf). rewrite Hlive in Hlt. lia. }
    destruct (grant_run now id tenant key task ex owner request ms (find_lease s3 tenant task ex key) s3)
      as (row & s' & Hgr); [done|intros l; by apply (ready_own now tenant key task ex capacity s)|
        by destruct (find_lease s3 tenant task ex key) as [l|]; [destruct Hidle|]|].
    rewrite Hgr in Erun. exists row, s'. split; [congruence|]. rewrite <-Ecap in Erun.
    eapply (admit_if_fits_ok now id tenant key task ex owner request ms p); try done.
    + intros f Hf. by apply Ham.
    + by destruct (find_lease s3 tenant task ex key) as [l|]; [destruct Hidle|].
Qed.

(** ** The default resolution of names *)

(** Under PostgreSQL's default setting no capacity is ever handed out: the
    output column [pool_key] makes the conflict target of the pool's INSERT
    ambiguous. However often workers try, no pool and no lease is ever stored,
    and every well-formed acquisition fails with SQLSTATE 42702, which the client
    reports as an unreachable database, to be retried. *)
Theorem admission_ambiguous_by_default : ∀ d h, linked d →
  let s := run_rhistory ConflictError h (no_pools d) in
  r_pools s = ∅ ∧ r_leases s = ∅ ∧
  ∀ c now id pool task ex owner capacity request ms t,
    requestable c s id pool task ex owner capacity request ms t →
    acquire_resource_lease ConflictError c now id pool task ex owner capacity request ms s = Err AMBIGUOUS_COLUMN ∧
    mapDatabaseError AMBIGUOUS_COLUMN = RhinoQError "RHINOQ_POSTGRES_UNREACHABLE" true None.
Proof.
  intros d h Hl s. assert (rwf s ∧ r_pools s = ∅ ∧ r_leases s = ∅) as (Hwf & Ep & El).
  { unfold s, run_rhistory. apply (run_events_ind _ (λ s, rwf s ∧ r_pools s = ∅ ∧ r_leases s = ∅)); [|split; [by apply no_pools_wf|done]].
    intros ev s1 (Hwf & Ep & El). split; [by apply run_revent_wf|]. destruct ev as [c now cmd].
    assert (∀ id, visible_leases c s1 !! id = None) as Hno
      by (intros id; unfold visible_leases; by rewrite El, map_filter_empty, lookup_empty).
    unfold run_revent. cbn. destruct cmd; apply (committed_inv (λ s', r_pools s' = ∅ ∧ r_leases s' = ∅)); try done; intros x s' H.
    - by apply acquire_lease_ok in H as [? _].
    - unfold renew_resource_lease, rfail_if in H. apply tbind_ok in H as (? & ? & Hx & H); txn_inv Hx.
      apply tbind_ok in H as (? & ? & Hx & H); txn_inv Hx. by rewrite Hno in H.
    - unfold release_resource_lease, rfail_if in H. apply tbind_ok in H as (? & ? & Hx & H); txn_inv Hx.
      apply tbind_ok in H as (? & ? & Hx & H); txn_inv Hx. by rewrite Hno in H.
    - by apply r_on_tasks_ok in H as (d' & _ & ->). }
  split_and!; try done. intros * [Hv Ht Hex]. split; [|done].
  unfold acquire_resource_lease, rfail_if, traise_if, tbind. rewrite Hv. unfold tret, r_on_tasks, select_task. rewrite Ht.
  unfold tget. replace (Rdb (r_tasks s) (r_pools s) (r_leases s)) with s by (by destruct s). by rewrite Hex.
Qed.

(** ** Concrete pools *)

Definition two_cpus : vector := Vector 2 0 0 0.
Definition one_cpu : vector := Vector 1 0 0 0.

Definition lease_request (now : Z) (id ex owner : string) (request : vector) : revent :=
  REvent demo_session now (RAcquire id "gpu" "t1" ex owner two_cpus request 1000).

Definition full_pool : list revent := [lease_request 10 "l1" "e1" "w1" two_cpus].

Definition pool_after (h : list revent) : rdb := run_rhistory UseColumn h (no_pools mid_db).

Lemma mid_db_linked : linked mid_db.
Proof. apply reachable_linked, mid_reachable. Qed.

Definition pool_task (s : rdb) : task_row :=
  default (TaskRow "" "" "" None 0 Pending (Progress 0 None None) None (Cancellation CNone None) 0
    (ExecCounts 0 0 0 0 0 0 0 0) None 0 0) (db_tasks (r_tasks s) !! "t1").

Definition the_pool (s : rdb) : pool_row := default (PoolRow "" "" one_cpu 0 0 0) (r_pools s !! ("acme", "gpu")).

Lemma pools_never_oversubscribed_witness : usage "acme" "gpu" rv_cpu (pool_after full_pool) ≤ 2.
Proof.
  destruct (pools_never_oversubscribed UseColumn mid_db full_pool "acme" "gpu" (the_pool (pool_after full_pool)) rv_cpu
    mid_db_linked) as [[_ H] _]; [vm_compute; reflexivity|left|].
  etrans; [exact H|]. vm_compute. discriminate.
Defined.

Lemma admission_exact_witness :
  acquire_resource_lease UseColumn demo_session 500 "l2" "gpu" "t1" "e2" "w2" two_cpus one_cpu 1000 (pool_after full_pool)
    = Err (Raise "RHINOQ_RESOURCE_UNAVAILABLE") ∧
  is_ok (acquire_resource_lease UseColumn demo_session 1500 "l2" "gpu" "t1" "e2" "w2" two_cpus one_cpu 1000
    (pool_after full_pool)) = true.
Proof.
  assert (requestable demo_session (pool_after full_pool) "l2" "gpu" "t1" "e2" "w2" two_cpus one_cpu 1000
    (pool_task (pool_after full_pool))) as Hreq by (split; vm_compute; reflexivity).
  assert (∀ now, let tenant := t_tenant (pool_task (pool_after full_pool)) in
    (∀ p, r_pools (pool_after full_pool) !! (tenant, btrim "gpu") = Some p → pl_capacity p = two_cpus) ∧
    (∀ l, find_lease (pool_after full_pool) tenant "t1" "e2" (btrim "gpu") = Some l →
       active l && (now <? rl_until l) = false ∧ rl_epoch l < INT8_MAX) ∧
    (∀ l, r_leases (pool_after full_pool) !! "l2" = Some l → lease_of tenant "t1" "e2" (btrim "gpu") l = true)) as Hside.
  { intros now. split_and!.
    - intros p Hp. vm_compute in Hp. by injection Hp as <-.
    - intros l Hl. by vm_compute in Hl.
    - intros l Hl. by vm_compute in Hl. }
  assert (∀ f, f ∈ dims → f two_cpus ≤ MAX_SAFE_INTEGER) as Hsafe.
  { intros f Hf. repeat (apply elem_of_cons in Hf as [->|Hf]; [vm_compute; discriminate|]). exfalso. by apply elem_of_nil in Hf. }
  split.
  - destruct (Hside 500) as (H1 & H2 & H3).
    pose proof (admission_exact mid_db full_pool demo_session 500 "l2" "gpu" "t1" "e2" "w2" two_cpus one_cpu 1000
      (pool_task (pool_after full_pool)) mid_db_linked Hreq H1 eq_refl Hsafe H2 H3) as [H _].
    fold (pool_after full_pool) in H. apply H. exists rv_cpu. split; [left|vm_compute; reflexivity].
  - destruct (Hside 1500) as (H1 & H2 & H3).
    pose proof (admission_exact mid_db full_pool demo_session 1500 "l2" "gpu" "t1" "e2" "w2" two_cpus one_cpu 1000
      (pool_task (pool_after full_pool)) mid_db_linked Hreq H1 eq_refl Hsafe H2 H3) as [_ H].
    fold (pool_after full_pool) in H. destruct H as (row & s' & Ha & _); [|rewrite Ha; reflexivity].
    intros f Hf. repeat (apply elem_of_cons in Hf as [->|Hf]; [vm_compute; discriminate|]). exfalso. by apply elem_of_nil in Hf.
Defined.

Lemma admission_ambiguous_by_default_witness :
  acquire_resource_lease ConflictError demo_session 10 "l1" "gpu" "t1" "e1" "w1" two_cpus one_cpu 1000 (no_pools mid_db)
    = Err AMBIGUOUS_COLUMN.
Proof.
  destruct (admission_ambiguous_by_default mid_db [] mid_db_linked) as (_ & _ & H).
  apply (H demo_session 10 "l1" "gpu" "t1" "e1" "w1" two_cpus one_cpu 1000 (pool_task (no_pools mid_db))).
  split; vm_compute; reflexivity.
Defined.
