(* ===== verification/ProjectionFailures.v ===== *)
(** * Projection failures

    A projection that failed is written down and replayed later under a lease:
    the table [rhinoq_projection_failures] with the sink and the inbox over it
    ([postgres/projection-failure-sink.ts], [postgres/projection-failure-inbox.ts]),
    their in-memory counterparts and the replay loop body
    [replayProjectionFailure] ([tasks/projection-failures.ts]). *)

From stdpp Require Import base gmap strings list fin_maps sorting.
From Stdlib Require Import Ascii ZArith Lia.
From S2P Require Import Prelude TaskModel TaskClient Checkpoints SharedStore.

Open Scope txn_scope.

Inductive fail_state := FPending | FReplaying | FReplayed | FIgnored.

#[export] Instance fail_state_eq_dec : EqDecision fail_state.
Proof. solve_decision. Defined.

(** [ProjectionFailureIdentity]; the event is its name. *)
Record identity := Identity { pi_runtime : string; pi_scope : string; pi_external : string; pi_event : string }.

#[export] Instance identity_eq_dec : EqDecision identity.
Proof. solve_decision. Defined.

#[export] Instance identity_countable : Countable identity.
Proof.
  refine (inj_countable' (λ i, (pi_runtime i, pi_scope i, pi_external i, pi_event i))
    (λ '(a, b, c, d), Identity a b c d) _). by intros [].
Defined.

(** [\u0000] *)
Definition projectionFailureKey (i : identity) : string :=
  (pi_runtime i +:+ NUL +:+ pi_scope i +:+ NUL +:+ pi_external i +:+ NUL +:+ pi_event i)%string.

Definition settled_state (st : fail_state) : bool :=
  match st with FReplayed | FIgnored => true | _ => false end.

Section failures.
(** [O] is the type of observations. *)
Context {O : Type}.

Record failure := Failure {
  f_identity : identity; f_observation : O; f_message : string; f_code : option string; f_observedAt : Z;
  f_attempts : Z;
}.

(** [ProjectionFailureInboxItem], and a row of the table. *)
Record item := Item {
  i_failure : failure; i_state : fail_state; i_firstSeenAt : Z; i_lastSeenAt : Z; i_replayAttempts : Z;
  i_nextAttemptAt : option Z; i_claimedBy : option string; i_claimExpiresAt : option Z; i_resolvedAt : option Z;
  i_resolutionReason : option string;
}.

(** [IS NULL OR .. <= clock_timestamp()], and [!x || Date.parse(x) <= now]. *)
Definition past (o : option Z) (now : Z) : bool := match o with Some t => t <=? now | None => true end.

(** ** The table *)

Notation ftable := (gmap identity item).
Definition fsql (A : Type) : Type := txn ftable sql_error A.

Definition f_with_attempts (n : Z) (f : failure) : failure :=
  Failure (f_identity f) (f_observation f) (f_message f) (f_code f) (f_observedAt f) n.

(** UPSERT_PROJECTION_FAILURE_SQL *)
Definition record_failure_row (now : Z) (f : failure) : fsql unit :=
  let* s := tget in
  match s !! f_identity f with
  | None =>
      tput (<[f_identity f := Item (f_with_attempts 1 f) FPending now now 0 None None None None None]> s)
  | Some r =>
      let* attempts := tlift (integer_succ (f_attempts (i_failure r))) in
      let reopened := settled_state (i_state r) in
      let unless {A} (o : option A) := if reopened then None else o in
      tput (<[f_identity f := Item (f_with_attempts attempts f) (if reopened then FPending else i_state r)
        (i_firstSeenAt r) now (if reopened then 0 else i_replayAttempts r) (i_nextAttemptAt r)
        (unless (i_claimedBy r)) (unless (i_claimExpiresAt r)) (unless (i_resolvedAt r))
        (unless (i_resolutionReason r))]> s)
  end.

(** The WHERE of CLAIM_PROJECTION_FAILURE_SQL. *)
Definition claimable (now : Z) (r : item) : bool :=
  negb (settled_state (i_state r)) && past (i_nextAttemptAt r) now && past (i_claimExpiresAt r) now.

Definition claimed_row (owner : string) (expires attempts : Z) (next : option Z) (r : item) : item :=
  Item (i_failure r) FReplaying (i_firstSeenAt r) (i_lastSeenAt r) attempts next (Some owner) (Some expires)
    (i_resolvedAt r) (i_resolutionReason r).

Definition claim_failure_row (now : Z) (i : identity) (owner : string) (expires : Z) : fsql (option item) :=
  let* s := tget in
  match s !! i with
  | Some r =>
      if claimable now r then
        let* attempts := tlift (integer_succ (i_replayAttempts r)) in
        let r' := claimed_row owner expires attempts None r in
        tput (<[i := r']> s) ;; tret (Some r')
      else tret None
  | None => tret None
  end.

(** [state='replaying' AND claimed_by=$7 AND claim_expires_at > clock_timestamp()] *)
Definition claimed_by (now : Z) (owner : string) (r : item) : bool :=
  bool_decide (i_state r = FReplaying) && bool_decide (i_claimedBy r = Some owner)
  && match i_claimExpiresAt r with Some t => now <? t | None => false end.

(** An UPDATE of the row claimed by [owner], RETURNING it. *)
Definition update_claimed (now : Z) (i : identity) (owner : string) (g : item → item) : fsql (option item) :=
  let* s := tget in
  match s !! i with
  | Some r => if claimed_by now owner r then tput (<[i := g r]> s) ;; tret (Some (g r)) else tret None
  | None => tret None
  end.

(** COMPLETE_PROJECTION_FAILURE_SQL *)
Definition complete_row (st : fail_state) (reason : option string) (now : Z) (r : item) : item :=
  Item (i_failure r) st (i_firstSeenAt r) (i_lastSeenAt r) (i_replayAttempts r) None None None (Some now) reason.

(** RETRY_PROJECTION_FAILURE_SQL *)
Definition retry_row (next : Z) (reason : string) (r : item) : item :=
  Item (i_failure r) FPending (i_firstSeenAt r) (i_lastSeenAt r) (i_replayAttempts r) (Some next) None None
    (i_resolvedAt r) (Some reason).

(** ** Commands and histories *)

Inductive fcommand : Type :=
| FRecord (f : failure)
| FClaim (i : identity) (owner : string) (expires : Z)
| FComplete (i : identity) (owner : string) (st : fail_state) (reason : option string)
| FRetry (i : identity) (owner : string) (next : Z) (reason : string).

Record fevent := FEvent { fe_now : Z; fe_command : fcommand }.

Definition run_fevent (ev : fevent) (s : ftable) : ftable :=
  let now := fe_now ev in
  match fe_command ev with
  | FRecord f => committed (record_failure_row now f) s
  | FClaim i owner expires => committed (claim_failure_row now i owner expires) s
  | FComplete i owner st reason => committed (update_claimed now i owner (complete_row st reason now)) s
  | FRetry i owner next reason => committed (update_claimed now i owner (retry_row next reason)) s
  end.

Definition run_fhistory (h : list fevent) (s : ftable) : ftable := run_events run_fevent h s.

(** ** The inbox *)

(** The operations [replayProjectionFailure] is written against. *)
Class ProjectionFailureInbox (W : Type) := {
  fi_claim : identity → string → Z → act W js_error (option item);
  fi_markReplayed : identity → string → option string → act W js_error (option item);
  fi_scheduleRetry : identity → string → Z → string → act W js_error (option item);
}.

Definition fworld : Type := sworld ftable fevent.
Definition fio (A : Type) : Type := act fworld js_error A.
Definition fexecute {A} (m : Z → fsql A) : fio A := sexecute run_fevent m.

Open Scope act_scope.

Definition validateIdentity (i : identity) : fio unit :=
  athrow_if (isEmpty (pi_runtime i) || isEmpty (pi_scope i) || isEmpty (pi_external i) || isEmpty (pi_event i)) TypeError.

(** The columns that are dropped from the item when they are the empty string. *)
Definition toFailureInboxItem (r : item) : item :=
  let f := i_failure r in
  Item (Failure (f_identity f) (f_observation f) (f_message f) (truthy (f_code f)) (f_observedAt f) (f_attempts f))
    (i_state r) (i_firstSeenAt r) (i_lastSeenAt r) (i_replayAttempts r) (i_nextAttemptAt r) (truthy (i_claimedBy r))
    (i_claimExpiresAt r) (i_resolvedAt r) (truthy (i_resolutionReason r)).

(** [Date.now()] of the process is taken to be the database clock. *)
Definition claim (i : identity) (owner : string) (leaseMs : Z) : fio (option item) :=
  validateIdentity i ;+
  athrow_if (js_blank owner || (leaseMs <=? 0)) TypeError ;+
  let+ row := fexecute (λ now, claim_failure_row now i owner (now + leaseMs)) in
  aret (toFailureInboxItem <$> row).

Definition complete (i : identity) (owner : string) (st : fail_state) (reason : option string) : fio (option item) :=
  validateIdentity i ;+
  athrow_if (js_blank owner) TypeError ;+
  let+ row := fexecute (λ now, update_claimed now i owner (complete_row st reason now)) in
  aret (toFailureInboxItem <$> row).

Definition markReplayed (i : identity) (owner : string) (evidence : option string) : fio (option item) :=
  complete i owner FReplayed evidence.

Definition ignore (i : identity) (owner reason : string) : fio (option item) :=
  athrow_if (js_blank reason) TypeError ;+ complete i owner FIgnored (Some reason).

Definition scheduleRetry (i : identity) (owner : string) (nextAttemptAt : Z) (reason : string) : fio (option item) :=
  validateIdentity i ;+
  athrow_if (js_blank owner || js_blank reason) TypeError ;+
  let+ row := fexecute (λ now, update_claimed now i owner (retry_row nextAttemptAt reason)) in
  aret (toFailureInboxItem <$> row).

(** [ORDER BY last_seen_at DESC, runtime, runtime_scope, external_id, event] *)
Definition identity_cmp (a b : identity) : comparison :=
  match String.compare (pi_runtime a) (pi_runtime b) with
  | Eq => match String.compare (pi_scope a) (pi_scope b) with
          | Eq => match String.compare (pi_external a) (pi_external b) with
                  | Eq => String.compare (pi_event a) (pi_event b)
                  | r => r
                  end
          | r => r
          end
  | r => r
  end.

Definition newest_first (a b : item) : Prop :=
  (if i_lastSeenAt a =? i_lastSeenAt b
   then match identity_cmp (f_identity (i_failure a)) (f_identity (i_failure b)) with Gt => false | _ => true end
   else i_lastSeenAt b <? i_lastSeenAt a) = true.
#[export] Instance newest_first_dec : RelDecision newest_first.
Proof. intros a b. unfold newest_first. apply _. Defined.

Definition list_failures (state : option fail_state) (limit : option Z) : fio (list item) :=
  let n := default 100 limit in
  athrow_if ((n <=? 0) || (1000 <? n)) RangeError ;+
  let+ rows := fexecute (λ _ s, Ok (take (Z.to_nat n) (merge_sort newest_first (List.filter
    (λ r, match state with Some st => bool_decide (i_state r = st) | None => true end) (map_to_list s).*2)), s)) in
  aret (toFailureInboxItem <$> rows).

#[export] Instance PostgresProjectionFailureInbox : ProjectionFailureInbox fworld := {
  fi_claim := claim;
  fi_markReplayed := markReplayed;
  fi_scheduleRetry := scheduleRetry;
}.

(** ** The in-memory inbox

    A JavaScript [Map] in insertion order; every operation runs to completion.
    Copies of an item carry equal contents. *)

Definition memory : Type := list (string * item).

Definition map_get (k : string) (m : memory) : option item := snd <$> List.find (λ e, bool_decide (e.1 = k)) m.

Fixpoint map_set (k : string) (x : item) (m : memory) : memory :=
  match m with
  | [] => [(k, x)]
  | (k', y) :: rest => if bool_decide (k' = k) then (k, x) :: rest else (k', y) :: map_set k x rest
  end.

(** [{ ...existing, ...failure }]: an absent [code] keeps the stored one. *)
Definition merge_failure (x f : failure) : failure :=
  Failure (f_identity f) (f_observation f) (f_message f)
    (match f_code f with Some c => Some c | None => f_code x end) (f_observedAt f) (f_attempts f).

Definition mem_record (f : failure) (m : memory) : memory :=
  let k := projectionFailureKey (f_identity f) in
  map_set k (match map_get k m with
    | None => Item f FPending (f_observedAt f) (f_observedAt f) 0 None None None None None
    | Some x =>
        let reopened := settled_state (i_state x) in
        let unless {A} (o : option A) := if reopened then None else o in
        Item (merge_failure (i_failure x) f) (if reopened then FPending else i_state x) (i_firstSeenAt x) (f_observedAt f)
          (if reopened then 0 else i_replayAttempts x) (i_nextAttemptAt x) (unless (i_claimedBy x))
          (unless (i_claimExpiresAt x)) (unless (i_resolvedAt x)) (unless (i_resolutionReason x))
    end) m.

Definition mem_claim (now : Z) (i : identity) (owner : string) (leaseMs : Z) (m : memory) : option item * memory :=
  let k := projectionFailureKey i in
  match map_get k m with
  | None => (None, m)
  | Some x =>
      if claimable now x then
        let x' := claimed_row owner (now + leaseMs) (i_replayAttempts x + 1) (i_nextAttemptAt x) x in
        (Some x', map_set k x' m)
      else (None, m)
  end.

Definition mem_update (now : Z) (i : identity) (owner : string) (g : item → item) (m : memory) : option item * memory :=
  let k := projectionFailureKey i in
  match map_get k m with
  | None => (None, m)
  | Some x => if claimed_by now owner x then (Some (g x), map_set k (g x) m) else (None, m)
  end.

(** [finish]: an absent reason keeps the stored one, and [nextAttemptAt] stays. *)
Definition mem_finished (st : fail_state) (reason : option string) (now : Z) (x : item) : item :=
  Item (i_failure x) st (i_firstSeenAt x) (i_lastSeenAt x) (i_replayAttempts x) (i_nextAttemptAt x) None None (Some now)
    (match truthy reason with Some r => Some r | None => i_resolutionReason x end).

Definition mem_finish (now : Z) (i : identity) (owner : string) (st : fail_state) (reason : option string)
    : memory → option item * memory :=
  mem_update now i owner (mem_finished st reason now).

Definition mem_scheduleRetry (now : Z) (i : identity) (owner : string) (next : Z) (reason : string) (m : memory)
    : result js_error (option item) * memory :=
  if js_blank reason then (Err TypeError, m) else
  let (o, m') := mem_update now i owner (retry_row next reason) m in (Ok o, m').

Definition mem_ignore (now : Z) (i : identity) (owner reason : string) (m : memory)
    : result js_error (option item) * memory :=
  if js_blank reason then (Err TypeError, m) else
  let (o, m') := mem_finish now i owner FIgnored (Some reason) m in (Ok o, m').

(** The sink alone counts the records of one projection. *)
Definition sink_record (f : failure) (m : list (string * failure)) : list (string * failure) :=
  let k := projectionFailureKey (f_identity f) in
  let stored := snd <$> List.find (λ e, bool_decide (e.1 = k)) m in
  let f' := match stored with Some x => f_with_attempts (f_attempts x + 1) f | None => f end in
  match stored with
  | Some _ => (λ e, if bool_decide (e.1 = k) then (k, f') else e) <$> m
  | None => m ++ [(k, f')]
  end.

(** ** Replaying one failure *)

Inductive replay_error : Type :=
| ReplayLeaseLost
| ReplayClient (e : js_error).

Section replay.
(** [replay] is the application's callback; it fails with a message. [message]
    is the text of a client error and [clock] the process clock. *)
Context {W : Type} `{!ProjectionFailureInbox W}.
Context (replay : item → act W string unit) (message : js_error → string) (clock : W → Z).
Context (retryDelayMs : option (Z → Z)).

Definition LEASE_LOST_MESSAGE : string := "projection failure lease was lost; inspect before replaying again".

(** [Math.min(60 * 60_000, 1000 * 2 ** Math.min(attempts - 1, 10))] *)
Definition default_delay (attempts : Z) : Z := Z.min 3600000 (1000 * 2 ^ Z.min (attempts - 1) 10).

Definition retry_delay (attempts : Z) : Z :=
  match retryDelayMs with Some d => d attempts | None => default_delay attempts end.

Definition replayProjectionFailure (i : identity) (owner : string) : act W replay_error (option item) := λ w,
  match fi_claim i owner 30000 w with
  | (Err e, w1) => (Err (ReplayClient e), w1)
  | (Ok None, w1) => (Ok None, w1)
  | (Ok (Some it), w1) =>
      let on_error (text : string) (w : W) : result replay_error (option item) * W :=
        match fi_scheduleRetry i owner (clock w + retry_delay (i_replayAttempts it)) text w with
        | (Err e, w') => (Err (ReplayClient e), w')
        | (Ok None, w') => (Err ReplayLeaseLost, w')
        | (Ok (Some x), w') => (Ok (Some x), w')
        end in
      match replay it w1 with
      | (Err text, w2) => on_error text w2
      | (Ok _, w2) =>
          match fi_markReplayed i owner None w2 with
          | (Err e, w3) => on_error (message e) w3
          | (Ok None, w3) => on_error LEASE_LOST_MESSAGE w3
          | (Ok (Some x), w3) => (Ok (Some x), w3)
          end
      end
  end.
End replay.
End failures.

Arguments failure O : clear implicits.
Arguments item O : clear implicits.
Notation ftable O := (gmap identity (item O)).
Arguments fevent O : clear implicits.
Arguments fworld O : clear implicits.
Arguments memory O : clear implicits.
