(* ===== verification/ProjectionFailureFacts.v ===== *)
(** * What projection failures promise

    One worker at a time replays a failure; the in-memory inbox leases exactly as
    the table does; a replay settles the failure or puts it back with a bounded
    delay. *)

From stdpp Require Import base gmap strings list fin_maps sorting.
From Stdlib Require Import Ascii ZArith Lia.
From S2P Require Import Prelude TaskModel TaskClient Checkpoints SharedStore ProjectionFailures.

(** ** The key of the in-memory map *)

Fixpoint nul_free (s : string) : bool :=
  match s with
  | EmptyString => true
  | String a s' => negb (Ascii.eqb a zero) && nul_free s'
  end.

Lemma nul_cut s t s' t' :
  nul_free s = true → nul_free s' = true → (s +:+ NUL +:+ t = s' +:+ NUL +:+ t')%string → s = s' ∧ t = t'.
Proof.
  change (NUL +:+ t)%string with (String zero t). change (NUL +:+ t')%string with (String zero t').
  revert s'. induction s as [|a s IH]; intros [|a' s'] Hs Hs' H; cbn in Hs, Hs';
    rewrite ?append_String, ?append_nil_l in H; injection H; clear H.
  - by intros ->.
  - intros _ <-. by rewrite Ascii.eqb_refl in Hs'.
  - intros _ ->. by rewrite Ascii.eqb_refl in Hs.
  - intros H ->. apply andb_true_iff in Hs as [_ Hs]. apply andb_true_iff in Hs' as [_ Hs'].
    by destruct (IH s' Hs Hs' H) as [-> ->].
Qed.

(** PostgreSQL refuses text with a NUL, so identities of the table have none. *)
Definition plain (i : identity) : bool := nul_free (pi_runtime i) && nul_free (pi_scope i) && nul_free (pi_external i).

Lemma key_inj i j :
  plain i = true → plain j = true → projectionFailureKey i = projectionFailureKey j → i = j.
Proof.
  intros Hi Hj H. unfold plain in *. to_prop. unfold projectionFailureKey in H.
  apply nul_cut in H as [E1 H]; [|done..]. apply nul_cut in H as [E2 H]; [|done..].
  apply nul_cut in H as [E3 E4]; [|done..]. destruct i, j; cbn in *; congruence.
Qed.

Section facts.
Context {O : Type}.
Implicit Types (s : gmap identity (item O)) (m : memory O) (r x : item O) (i : identity).

(** ** The Map *)

Lemma get_set_eq k x m : map_get k (map_set k x m) = Some x.
Proof.
  induction m as [|[k' y] m IH]; cbn; unfold map_get; cbn; [by rewrite bool_decide_true|].
  destruct (bool_decide (k' = k)) eqn:E; cbn; rewrite ?E; [by rewrite bool_decide_true|]. exact IH.
Qed.

Lemma get_set_ne k k' x m : k ≠ k' → map_get k (map_set k' x m) = map_get k m.
Proof.
  intros Hne. induction m as [|[j y] m IH]; cbn; unfold map_get; cbn; [by rewrite bool_decide_false|].
  destruct (bool_decide (j = k')) eqn:E; cbn.
  - to_prop. subst. by rewrite !bool_decide_false.
  - destruct (bool_decide (j = k)); [done|]. exact IH.
Qed.

(** ** Lease exclusion *)

(** The row is leased to [owner] until [e]. *)
Definition leased (owner : string) (e : Z) r : Prop :=
  i_state r = FReplaying ∧ i_claimedBy r = Some owner ∧ i_claimExpiresAt r = Some e.

Lemma leased_not_claimable now owner e r : leased owner e r → now < e → claimable now r = false.
Proof.
  intros (Hs & _ & He) Hlt. unfold claimable. rewrite Hs, He. cbn. rewrite (proj2 (Z.leb_gt _ _)) by done.
  by rewrite andb_false_r.
Qed.

Lemma leased_other now owner owner' e r : leased owner e r → owner' ≠ owner → claimed_by now owner' r = false.
Proof.
  intros (_ & Ho & _) Hne. unfold claimed_by. rewrite Ho, (bool_decide_false (Some owner = _)) by congruence.
  by rewrite andb_false_r.
Qed.

(** A settling command of [owner] on [i]. *)
Definition settles_for i (owner : string) (ev : fevent O) : bool :=
  match fe_command ev with
  | FComplete j o _ _ | FRetry j o _ _ => bool_decide (j = i) && bool_decide (o = owner)
  | _ => false
  end.

Lemma update_claimed_run now i owner g s :
  update_claimed now i owner g s =
  match s !! i with
  | Some r => if claimed_by now owner r then Ok (Some (g r), <[i := g r]> s) else Ok (None, s)
  | None => Ok (None, s)
  end.
Proof. unfold update_claimed, tbind, tget. destruct (s !! i) as [r|]; [|done]. by destruct (claimed_by now owner r). Qed.

Lemma claim_failure_run now i owner e s :
  claim_failure_row now i owner e s =
  match s !! i with
  | Some r =>
      if claimable now r then
        match integer_succ (i_replayAttempts r) with
        | Ok n => Ok (Some (claimed_row owner e n None r), <[i := claimed_row owner e n None r]> s)
        | Err x => Err x
        end
      else Ok (None, s)
  | None => Ok (None, s)
  end.
Proof.
  unfold claim_failure_row, tbind, tget, tlift. destruct (s !! i) as [r|]; [|done]. destruct (claimable now r); [|done].
  by destruct (integer_succ _).
Qed.

(** The row an upsert leaves. *)
Definition recorded_row (now : Z) (f : failure O) (n : Z) r : item O :=
  let reopened := settled_state (i_state r) in
  Item (f_with_attempts n f) (if reopened then FPending else i_state r) (i_firstSeenAt r) now
    (if reopened then 0 else i_replayAttempts r) (i_nextAttemptAt r)
    (if reopened then None else i_claimedBy r) (if reopened then None else i_claimExpiresAt r)
    (if reopened then None else i_resolvedAt r) (if reopened then None else i_resolutionReason r).

Lemma record_run now f s :
  record_failure_row now f s =
  match s !! f_identity f with
  | None => Ok (tt, <[f_identity f := Item (f_with_attempts 1 f) FPending now now 0 None None None None None]> s)
  | Some r =>
      match integer_succ (f_attempts (i_failure r)) with
      | Ok n => Ok (tt, <[f_identity f := recorded_row now f n r]> s)
      | Err x => Err x
      end
  end.
Proof.
  unfold record_failure_row, tbind, tget, tlift, tput. destruct (s !! f_identity f) as [r|]; [|done].
  by destruct (integer_succ _).
Qed.

Lemma leased_kept i owner e ev s r :
  s !! i = Some r → leased owner e r → fe_now ev < e → settles_for i owner ev = false →
  ∃ r', run_fevent ev s !! i = Some r' ∧ leased owner e r'.
Proof.
  intros Hr Hl Hlt Hs. assert (∃ r', s !! i = Some r' ∧ leased owner e r') as Hsame by eauto.
  assert (∀ j o now g, settles_for i owner ev = bool_decide (j = i) && bool_decide (o = owner) →
    ∃ r', committed (update_claimed now j o g) s !! i = Some r' ∧ leased owner e r') as Hupd.
  { intros j o now g Eset. rewrite Eset in Hs. unfold committed. rewrite update_claimed_run.
    destruct (s !! j) as [r0|] eqn:E; [|done]. destruct (decide (j = i)) as [->|Hne].
    - rewrite bool_decide_true in Hs by done. apply bool_decide_eq_false in Hs. simplify_eq.
      by rewrite (leased_other now owner o e).
    - destruct (claimed_by _ _ _); [|done]. cbn match. by rewrite lookup_insert_ne. }
  destruct ev as [now [f|j o ex|j o st reason|j o next reason]]; unfold run_fevent; cbn [fe_now fe_command] in *; try by apply Hupd.
  - unfold committed. rewrite record_run. destruct (s !! f_identity f) as [r0|] eqn:E; cbn match; [|by rewrite lookup_insert_ne by congruence].
    destruct (integer_succ _) as [n|]; [|done]. cbn match. destruct (decide (f_identity f = i)) as [Ei|Hne]; [|by rewrite lookup_insert_ne].
    rewrite Ei, lookup_insert_eq. assert (r0 = r) as -> by congruence. eexists. split; [done|].
    destruct Hl as (H1 & H2 & H3). unfold leased, recorded_row. cbn. by rewrite H1, H2, H3.
  - unfold committed. rewrite claim_failure_run. destruct (s !! j) as [r0|] eqn:E; [|done].
    destruct (decide (j = i)) as [->|Hne]; [simplify_eq; by rewrite (leased_not_claimable now owner e)|].
    destruct (claimable now r0); [|done]. destruct (integer_succ _); [|done]. cbn match. by rewrite lookup_insert_ne.
Qed.

Lemma leased_history i owner e h s r :
  s !! i = Some r → leased owner e r → Forall (λ ev, fe_now ev < e ∧ settles_for i owner ev = false) h →
  ∃ r', run_fhistory h s !! i = Some r' ∧ leased owner e r'.
Proof.
  revert s r. induction h as [|ev h IH]; intros s r Hr Hl Hall; [by exists r|].
  apply Forall_cons in Hall as [[Hlt Hs] Hall]. destruct (leased_kept i owner e ev s r Hr Hl Hlt Hs) as (r' & Hr' & Hl').
  by apply (IH (run_fevent ev s) r').
Qed.

(** One worker at a time replays a failure: from a successful claim until its
    expiry, whatever else happens to the table (new failures of the same
    projection included) and as long as the claimant does not settle it, every
    claim of that failure is refused, every completion or retry in another
    worker's name changes nothing, and the claimant's own completion or retry
    takes effect. *)
Theorem replay_lease_exclusive : ∀ now i owner e s r s' h,
  claim_failure_row now i owner e s = Ok (Some r, s') →
  Forall (λ ev, fe_now ev < e ∧ settles_for i owner ev = false) h →
  let s2 := run_fhistory h s' in
  ∀ now', now' < e →
  (∀ owner' e', claim_failure_row now' i owner' e' s2 = Ok (None, s2)) ∧
  (∀ owner' g, owner' ≠ owner → update_claimed now' i owner' g s2 = Ok (None, s2)) ∧
  (∀ g, ∃ r2, update_claimed now' i owner g s2 = Ok (Some (g r2), <[i := g r2]> s2)).
Proof.
  intros now i owner e s r s' h Hc Hall s2 now' Hlt.
  assert (s' !! i = Some r ∧ leased owner e r) as [Hr Hl].
  { rewrite claim_failure_run in Hc. destruct (s !! i) as [r0|]; [|done]. destruct (claimable now r0); [|done].
    destruct (integer_succ _); [|done]. injection Hc as <- <-. by rewrite lookup_insert_eq. }
  destruct (leased_history i owner e h s' r Hr Hl Hall) as (r2 & Hr2 & Hl2). fold s2 in Hr2. split_and!.
  - intros owner' e'. rewrite claim_failure_run, Hr2. by rewrite (leased_not_claimable now' owner e).
  - intros owner' g Hne. rewrite update_claimed_run, Hr2. by rewrite (leased_other now' owner owner' e).
  - intros g. exists r2. rewrite update_claimed_run, Hr2. destruct Hl2 as (H1 & H2 & H3). unfold claimed_by.
    rewrite H1, H2, H3, !bool_decide_true by done. by rewrite (proj2 (Z.ltb_lt _ _)).
Qed.

(** A failure of the same projection that is recorded while a replay runs is
    settled by that replay, which never saw its observation. *)
Theorem failure_during_replay_is_lost : ∀ now i owner e s r s' t f t' s2,
  claim_failure_row now i owner e s = Ok (Some r, s') → f_identity f = i →
  record_failure_row t f s' = Ok (tt, s2) → t' < e →
  ∃ x, update_claimed t' i owner (complete_row FReplayed None t') s2 = Ok (Some x, <[i := x]> s2) ∧
    i_state x = FReplayed ∧ f_observation (i_failure x) = f_observation f.
Proof.
  intros now i owner e s r s' t f t' s2 Hc Hf Hrec Hlt. rewrite claim_failure_run in Hc.
  destruct (s !! i) as [r0|]; [|done]. destruct (claimable now r0); [|done]. destruct (integer_succ _); [|done].
  injection Hc as <- <-. rewrite record_run, Hf, lookup_insert_eq in Hrec. destruct (integer_succ _); [|done].
  injection Hrec as <-. rewrite update_claimed_run, lookup_insert_eq. unfold claimed_by, recorded_row, claimed_row. cbn.
  rewrite !bool_decide_true, (proj2 (Z.ltb_lt _ _)) by done. cbn. by eexists.
Qed.

(** The delay before the next attempt is at least a second and at most 1,024
    seconds: the cap of one hour is never reached. *)
Lemma default_delay_bounds n : 1 ≤ n → 1000 ≤ default_delay n ≤ 1024000.
Proof.
  intros Hn. unfold default_delay. assert (2 ^ 0 ≤ 2 ^ Z.min (n - 1) 10) by (apply Z.pow_le_mono_r; lia).
  assert (2 ^ Z.min (n - 1) 10 ≤ 2 ^ 10) by (apply Z.pow_le_mono_r; lia).
  change (2 ^ 0) with 1 in *. change (2 ^ 10) with 1024 in *. lia.
Qed.

(** ** The two inboxes *)

(** The operations both inboxes have, with valid arguments. *)
Inductive inbox_op : Type :=
| OpRecord (f : failure O)
| OpClaim (i : identity) (owner : string) (leaseMs : Z)
| OpFinish (i : identity) (owner : string) (st : fail_state) (reason : option string)
| OpRetry (i : identity) (owner : string) (next : Z) (reason : string).

Definition op_identity (op : inbox_op) : identity :=
  match op with OpRecord f => f_identity f | OpClaim i _ _ | OpFinish i _ _ _ | OpRetry i _ _ _ => i end.

Definition mem_op (now : Z) (op : inbox_op) m : option (item O) * memory O :=
  match op with
  | OpRecord f => (None, mem_record f m)
  | OpClaim i owner ms => mem_claim now i owner ms m
  | OpFinish i owner st reason => mem_finish now i owner st reason m
  | OpRetry i owner next reason => mem_update now i owner (retry_row next reason) m
  end.

Definition sql_op (now : Z) (op : inbox_op) : fsql (option (item O)) :=
  match op with
  | OpRecord f => tbind (record_failure_row now f) (λ _, tret None)
  | OpClaim i owner ms => claim_failure_row now i owner (now + ms)
  | OpFinish i owner st reason => update_claimed now i owner (complete_row st reason now)
  | OpRetry i owner next reason => update_claimed now i owner (retry_row next reason)
  end.

(** What a lease is made of, without the columns the two keep differently. *)
Definition lease_part r := (i_state r, i_replayAttempts r, i_claimedBy r, i_claimExpiresAt r, f_identity (i_failure r)).

(** A delay that has passed may be forgotten. *)
Definition same_lease (now : Z) x r : Prop :=
  lease_part x = lease_part r ∧ (i_nextAttemptAt x = i_nextAttemptAt r ∨ (i_nextAttemptAt r = None ∧ past (i_nextAttemptAt x) now = true)) ∧
  (i_state r = FReplaying → i_nextAttemptAt r = None).

Definition same_inbox (now : Z) m s : Prop := ∀ i, plain i = true →
  match map_get (projectionFailureKey i) m, s !! i with
  | Some x, Some r => same_lease now x r
  | None, None => True
  | _, _ => False
  end.

Lemma past_mono (o : option Z) now now' : now ≤ now' → past o now = true → past o now' = true.
Proof. destruct o; cbn; [|done]. rewrite !Z.leb_le. lia. Qed.

Lemma same_lease_later now now' x r : now ≤ now' → same_lease now x r → same_lease now' x r.
Proof.
  intros Hle (H1 & H2 & H3). split_and!; try done. destruct H2 as [?|[? ?]]; [by left|right]. split; [done|]. by eapply past_mono.
Qed.

Lemma same_inbox_later now now' m s : now ≤ now' → same_inbox now m s → same_inbox now' m s.
Proof.
  intros Hle H i Hi. specialize (H i Hi). destruct (map_get _ m), (s !! i); try done. by eapply same_lease_later.
Qed.

Lemma same_inbox_put now m s i x r :
  plain i = true → same_inbox now m s → same_lease now x r →
  same_inbox now (map_set (projectionFailureKey i) x m) (<[i := r]> s).
Proof.
  intros Hi H Hxr j Hj. destruct (decide (j = i)) as [->|Hne]; [by rewrite get_set_eq, lookup_insert_eq|].
  rewrite get_set_ne, lookup_insert_ne by (try done; intros E; by apply Hne, key_inj). by apply H.
Qed.

Lemma same_lease_claimable now x r : same_lease now x r → claimable now x = claimable now r.
Proof.
  intros ([= Es _ _ Ee _] & Hn & _). unfold claimable. rewrite Es, Ee.
  destruct Hn as [->|[-> Hp]]; [done|]. by rewrite Hp.
Qed.

Lemma same_lease_claimed now now' owner x r : same_lease now x r → claimed_by now' owner x = claimed_by now' owner r.
Proof. intros ([= Es _ Eb Ee _] & _). unfold claimed_by. by rewrite Es, Eb, Ee. Qed.

Lemma same_lease_recorded now f n x r :
  same_lease now x r →
  same_lease now (Item (merge_failure (i_failure x) f) (if settled_state (i_state x) then FPending else i_state x)
    (i_firstSeenAt x) (f_observedAt f) (if settled_state (i_state x) then 0 else i_replayAttempts x) (i_nextAttemptAt x)
    (if settled_state (i_state x) then None else i_claimedBy x)
    (if settled_state (i_state x) then None else i_claimExpiresAt x)
    (if settled_state (i_state x) then None else i_resolvedAt x)
    (if settled_state (i_state x) then None else i_resolutionReason x)) (recorded_row now f n r).
Proof.
  intros ([= Es Ea Eb Ee _] & Hn & Hr). unfold same_lease, lease_part, recorded_row. cbn. rewrite Es, Ea, Eb, Ee.
  split_and!; try done. destruct (i_state r); cbn; naive_solver.
Qed.

(** The answers: both refuse, or both return items with the same lease. *)
Definition same_answer (a b : option (item O)) : Prop :=
  match a, b with
  | Some x, Some r => lease_part x = lease_part r
  | None, None => True
  | _, _ => False
  end.

Lemma inbox_step now op m s b s' :
  plain (op_identity op) = true → same_inbox now m s → sql_op now op s = Ok (b, s') →
  same_answer (mem_op now op m).1 b ∧ same_inbox now (mem_op now op m).2 s'.
Proof.
  intros Hp Hsim H. pose proof (Hsim _ Hp) as Hi.
  assert (∀ g1 g2 i owner, op_identity op = i → (∀ x r, same_lease now x r → i_state r = FReplaying → same_lease now (g1 x) (g2 r)) →
    update_claimed now i owner g2 s = Ok (b, s') →
    same_answer (mem_update now i owner g1 m).1 b ∧ same_inbox now (mem_update now i owner g1 m).2 s') as Hupd.
  { intros g1 g2 i owner Ei Hg Hu. rewrite Ei in Hp, Hi. rewrite update_claimed_run in Hu. unfold mem_update.
    destruct (map_get _ m) as [x|], (s !! i) as [r|]; try done; [|by injection Hu as <- <-].
    rewrite (same_lease_claimed _ _ _ _ _ Hi). destruct (claimed_by now owner r) eqn:Ec; injection Hu as <- <-; [|done].
    assert (i_state r = FReplaying) as Hr by (unfold claimed_by in Ec; to_prop; done).
    pose proof (Hg x r Hi Hr) as Hg'. cbn. split; [by destruct Hg' as [? _]|]. by apply same_inbox_put. }
  destruct op as [f|i owner ms|i owner st reason|i owner next reason]; cbn [sql_op op_identity mem_op] in H, Hp, Hi |- *.
  - unfold tbind in H. rewrite record_run in H. unfold mem_record. destruct (map_get _ m) as [x|], (s !! f_identity f) as [r|]; try done.
    + destruct (integer_succ _) as [n|]; [|done]. injection H as <- <-. split; [done|]. apply same_inbox_put; [done..|].
      by apply same_lease_recorded.
    + injection H as <- <-. split; [done|]. apply same_inbox_put; [done..|]. split_and!; try done. by left.
  - rewrite claim_failure_run in H. unfold mem_claim. destruct (map_get _ m) as [x|], (s !! i) as [r|]; try done; [|by injection H as <- <-].
    rewrite (same_lease_claimable _ _ _ Hi). destruct (claimable now r) eqn:Ec; [|by injection H as <- <-].
    destruct (integer_succ _) as [n|] eqn:En; [|done]. injection H as <- <-. apply int_succ_ok in En as [-> _].
    assert (same_lease now (claimed_row owner (now + ms) (i_replayAttempts x + 1) (i_nextAttemptAt x) x)
      (claimed_row owner (now + ms) (i_replayAttempts r + 1) None r)) as Hs.
    { rewrite <-(same_lease_claimable _ _ _ Hi) in Ec. unfold claimable in Ec. to_prop.
      destruct Hi as ([= _ Ea _ _ Ef] & _ & _). unfold same_lease, lease_part. cbn. rewrite Ea, Ef. split_and!; try done. by right. }
    cbn. split; [by destruct Hs as [? _]|]. by apply same_inbox_put.
  - apply (Hupd (mem_finished st reason now) (complete_row st reason now) i owner); try done.
    intros x r ([= _ Ea _ _ Ef] & Hn & Hr) Hrep. unfold same_lease, lease_part. cbn. rewrite Ea, Ef. split_and!; try done.
    right. split; [done|]. destruct Hn as [->|[_ ?]]; [by rewrite Hr|done].
  - apply (Hupd (retry_row next reason) (retry_row next reason) i owner); try done.
    intros x r ([= _ Ea _ _ Ef] & _ & _) Hrep. unfold same_lease, lease_part. cbn. rewrite Ea, Ef. split_and!; try done. by left.
Qed.

(** ** Whole runs *)

Fixpoint mem_run (ops : list (Z * inbox_op)) m : list (option (item O)) * memory O :=
  match ops with
  | [] => ([], m)
  | (now, op) :: rest => let (a, m1) := mem_op now op m in let (l, m2) := mem_run rest m1 in (a :: l, m2)
  end.

Fixpoint sql_run (ops : list (Z * inbox_op)) s : result sql_error (list (option (item O)) * gmap identity (item O)) :=
  match ops with
  | [] => Ok ([], s)
  | (now, op) :: rest =>
      match sql_op now op s with
      | Err e => Err e
      | Ok (a, s1) => match sql_run rest s1 with Ok (l, s2) => Ok (a :: l, s2) | Err e => Err e end
      end
  end.

(** Clock readings that never go back, from [now] on. *)
Fixpoint ticking (now : Z) (ops : list (Z * inbox_op)) : Prop :=
  match ops with
  | [] => True
  | (t, op) :: rest => now ≤ t ∧ plain (op_identity op) = true ∧ ticking t rest
  end.

Lemma runs_agree ops now m s l s' :
  same_inbox now m s → ticking now ops → sql_run ops s = Ok (l, s') → Forall2 same_answer (mem_run ops m).1 l.
Proof.
  revert now m s l. induction ops as [|[t op] ops IH]; intros now m s l Hsim Ht H; cbn in *; [by injection H as <- <-|].
  destruct Ht as (Hle & Hp & Ht). destruct (sql_op t op s) as [[b s1]|] eqn:E; [|done].
  destruct (sql_run ops s1) as [[l2 s2]|] eqn:Er; [|done]. injection H as <- <-.
  destruct (inbox_step t op m s b s1 Hp (same_inbox_later _ _ _ _ Hle Hsim) E) as [Ha Hsim'].
  destruct (mem_op t op m) as [a m1]. cbn in Ha, Hsim'. specialize (IH t m1 s1 l2 Hsim' Ht Er).
  destruct (mem_run ops m1) as [l1 m2]. by constructor.
Qed.

(** The in-memory inbox has the lease semantics of the SQL one, as its
    comment claims: started empty, under any sequence of records, claims,
    completions and retries at clock readings that do not go back, the two refuse
    and grant the same operations, and what they return has the same state, lease
    owner, lease expiry and replay count. *)
Theorem memory_inbox_equivalent : ∀ ops now l s',
  ticking now ops → sql_run ops ∅ = Ok (l, s') → Forall2 same_answer (mem_run ops []).1 l.
Proof.
  intros ops now l s' Ht H. eapply runs_agree; [|done..]. intros i Hi. unfold map_get. cbn. by rewrite lookup_empty.
Qed.
End facts.

(** ** Witnesses *)

Definition ex_id : identity := Identity "bullmq" "emails" "job-1" "completed".
Definition ex_failure (at_ : Z) : failure nat := Failure ex_id 7%nat "connection lost" None at_ 1.
Definition ex_history : list (fevent nat) :=
  [FEvent 120 (FClaim ex_id "worker-b" 500); FEvent 130 (FRecord (ex_failure 130));
   FEvent 140 (FComplete ex_id "worker-b" FReplayed None)].

Lemma replay_lease_exclusive_witness :
  ∃ s0 r s1, claim_failure_row 100 ex_id "worker-a" 200 s0 = Ok (Some r, s1) ∧
  claim_failure_row 150 ex_id "worker-b" 400 (run_fhistory ex_history s1) = Ok (None, run_fhistory ex_history s1).
Proof.
  pose (s0 := <[ex_id := Item (ex_failure 50) FPending 50 50 0 None None None None None]> (∅ : gmap identity (item nat))).
  pose (r := Item (ex_failure 50) FReplaying 50 50 1 None (Some "worker-a"%string) (Some 200) None None).
  assert (claim_failure_row 100 ex_id "worker-a" 200 s0 = Ok (Some r, <[ex_id := r]> s0)) as E.
  { rewrite claim_failure_run. unfold s0 at 1. rewrite lookup_insert_eq. reflexivity. }
  exists s0, r, (<[ex_id := r]> s0). split; [exact E|].
  pose proof (replay_lease_exclusive 100 ex_id "worker-a" 200 s0 r _ ex_history E) as H. cbn zeta in H.
  apply H; [|lia]. unfold ex_history. repeat constructor; cbn; try lia; vm_compute; reflexivity.
Defined.

Definition ex_ops : list (Z * @inbox_op nat) :=
  [(50, OpRecord (ex_failure 50)); (100, OpClaim ex_id "worker-a" 100); (120, OpClaim ex_id "worker-b" 100);
   (130, OpRetry ex_id "worker-a" 900 "still down"); (800, OpClaim ex_id "worker-b" 100);
   (950, OpClaim ex_id "worker-b" 100); (960, OpFinish ex_id "worker-b" FReplayed None);
   (970, OpRecord (ex_failure 970)); (980, OpClaim ex_id "worker-a" 100)].

(** The two agree on a run in which claims are granted and refused. *)
Lemma memory_inbox_equivalent_witness :
  ∃ l s', sql_run ex_ops ∅ = Ok (l, s') ∧ Forall2 same_answer (mem_run ex_ops []).1 l ∧
  map (λ o, if o is Some _ then true else false) l = [false; true; false; true; false; true; true; false; true].
Proof.
  assert (match sql_run ex_ops ∅ with Ok (l, _) => map (λ o : option (item nat), if o is Some _ then true else false) l | Err _ => [] end
    = [false; true; false; true; false; true; true; false; true]) as Hv by (vm_compute; reflexivity).
  destruct (sql_run ex_ops ∅) as [[l s']|] eqn:E; [|exfalso; discriminate Hv].
  exists l, s'. split; [reflexivity|]. split; [|exact Hv].
  apply (memory_inbox_equivalent ex_ops 0 l s'); [|exact E]. unfold ex_ops. cbn [ticking op_identity ex_failure f_identity].
  repeat split; lia.
Defined.
