(* ===== verification/BoundedPool.v ===== *)
(** * The bounded worker pool

    [mapBounded] of [sdks/node/src/bullmq/task-bridge.ts], which [dispatchMany]
    runs its reservations and its enqueues with: a few workers take the next
    index of the input until none is left, a worker whose operation rejects
    stops, and the call returns only when every worker has stopped. The
    operations run concurrently, so the pool is a state machine whose events are
    the operations that resolve and reject, in any order. *)

From stdpp Require Import base list numbers strings.
From Stdlib Require Import Lia.
From S2P Require Import Prelude.

#[local] Open Scope nat_scope.

Section pool.
(** [n] is the number of values, [E] the type of errors. *)
Context {E : Type} (n : nat).

Inductive worker : Type :=
| Busy (i : nat)
| Stopped
| Rejected (i : nat) (e : E).

(** [next], the workers in the order they were made, and the indices whose
    operation has resolved. *)
Record pool := Pool { p_next : nat; p_workers : list worker; p_resolved : list nat }.

(** The head of the worker's loop: [while (next < values.length)]. *)
Definition take_next (next : nat) : worker * nat := if next <? n then (Busy next, S next) else (Stopped, next).

(** [Array.from({ length: k }, () => worker())]: a worker runs up to its first
    operation before the next one is made. *)
Fixpoint spawn (k : nat) (p : pool) : pool :=
  match k with
  | O => p
  | S k' => let (w, next) := take_next (p_next p) in spawn k' (Pool next (p_workers p ++ [w]) (p_resolved p))
  end.

Definition start (concurrency : nat) : pool := spawn (Nat.min concurrency n) (Pool 0 [] []).

Inductive pool_event : Type :=
| Resolves (w : nat)
| Rejects (w : nat) (e : E).

Definition pool_step (ev : pool_event) (p : pool) : option pool :=
  match ev with
  | Resolves w =>
      match p_workers p !! w with
      | Some (Busy i) =>
          let (x, next) := take_next (p_next p) in Some (Pool next (<[w := x]> (p_workers p)) (p_resolved p ++ [i]))
      | _ => None
      end
  | Rejects w e =>
      match p_workers p !! w with
      | Some (Busy i) => Some (Pool (p_next p) (<[w := Rejected i e]> (p_workers p)) (p_resolved p))
      | _ => None
      end
  end.

(** [Promise.allSettled] has resolved, and what the call then does. *)
Definition is_busy (w : worker) : bool := match w with Busy _ => true | _ => false end.
Definition in_flight (p : pool) : nat := length (List.filter is_busy (p_workers p)).
Definition settled (p : pool) : bool := negb (existsb is_busy (p_workers p)).

Fixpoint first_rejection (ws : list worker) : option E :=
  match ws with
  | [] => None
  | Rejected _ e :: _ => Some e
  | _ :: rest => first_rejection rest
  end.

Definition outcome (p : pool) : result E unit :=
  match first_rejection (p_workers p) with Some e => Err e | None => Ok tt end.

(** ** Its invariant *)

(** The indices a worker took and has not resolved. *)
Definition holds (w : worker) : list nat := match w with Busy i | Rejected i _ => [i] | Stopped => [] end.
Definition held (ws : list worker) : list nat := ws ≫= holds.

Record pool_ok (c : nat) (p : pool) : Prop := {
  po_taken : held (p_workers p) ++ p_resolved p ≡ₚ seq 0 (p_next p);
  po_next : p_next p ≤ n;
  po_workers : length (p_workers p) = Nat.min c n;
  po_stopped : Stopped ∈ p_workers p → p_next p = n;
}.

Lemma held_update ws w x y : ws !! w = Some x → held (<[w := y]> ws) ++ holds x ≡ₚ held ws ++ holds y.
Proof.
  intros H. unfold held. rewrite <-(take_drop_middle ws w x H) at 2.
  rewrite insert_take_drop by (by eapply lookup_lt_Some). rewrite !bind_app, !bind_cons. solve_Permutation.
Qed.

Lemma take_ok next : next ≤ n → let (x, next') := take_next next in
  next' ≤ n ∧ next ≤ next' ∧ holds x ++ seq 0 next ≡ₚ seq 0 next' ∧ (x = Stopped → next' = n).
Proof.
  intros H. unfold take_next. destruct (Nat.ltb_spec next n); cbn [holds].
  - split_and!; try lia; [|done]. rewrite seq_S. cbn. solve_Permutation.
  - split_and!; try lia; done.
Qed.

Lemma spawn_ok k p :
  p_resolved p = [] → p_next p ≤ n → held (p_workers p) ≡ₚ seq 0 (p_next p) → (Stopped ∈ p_workers p → p_next p = n) →
  let p' := spawn k p in
  p_resolved p' = [] ∧ p_next p' ≤ n ∧ held (p_workers p') ≡ₚ seq 0 (p_next p') ∧
  length (p_workers p') = length (p_workers p) + k ∧ (Stopped ∈ p_workers p' → p_next p' = n).
Proof.
  revert p. induction k as [|k IH]; intros p Hr Hn Hh Hs; cbn.
  { split_and!; done || lia. }
  pose proof (take_ok (p_next p) Hn) as Ht. destruct (take_next (p_next p)) as [x next].
  destruct Ht as (Hn' & Hle & Hp & Hx). destruct (IH (Pool next (p_workers p ++ [x]) (p_resolved p))) as (H1 & H2 & H3 & H4 & H5);
    cbn [p_next p_workers p_resolved] in *; try done.
  - unfold held in *. rewrite bind_app, Hh. cbn. rewrite app_nil_r, (Permutation_app_comm (seq 0 _)). exact Hp.
  - intros Hin. apply elem_of_app in Hin as [Hin|Hin]; [specialize (Hs Hin); lia|].
    apply list_elem_of_singleton in Hin. by apply Hx.
  - rewrite length_app in H4. cbn in H4. split_and!; done || lia.
Qed.

Lemma start_ok c : pool_ok c (start c).
Proof.
  unfold start. destruct (spawn_ok (Nat.min c n) (Pool 0 [] [])) as (H1 & H2 & H3 & H4 & H5); cbn; try done; [lia|by intros ?%elem_of_nil|].
  split; try done. by rewrite H1, app_nil_r.
Qed.

Lemma pool_step_ok c ev p p' : pool_step ev p = Some p' → pool_ok c p → pool_ok c p'.
Proof.
  intros H [Ht Hn Hw Hs]. destruct ev as [w|w e]; cbn in H; destruct (p_workers p !! w) as [x|] eqn:Ew; try done;
    destruct x as [i| |i e0]; try done.
  - pose proof (take_ok (p_next p) Hn) as Htk. destruct (take_next (p_next p)) as [x next]. injection H as <-.
    destruct Htk as (Hn' & Hle & Hp & Hx). split; cbn; [|done|by rewrite length_insert|].
    + pose proof (held_update (p_workers p) w (Busy i) x Ew) as Hu. cbn [holds] in Hu.
      rewrite <-Hp, <-Ht. transitivity ((held (<[w:=x]> (p_workers p)) ++ [i]) ++ p_resolved p); [solve_Permutation|].
      rewrite Hu. solve_Permutation.
    + intros Hin. apply list_elem_of_lookup in Hin as [j Hj]. rewrite list_lookup_insert in Hj.
      destruct (decide (w = j ∧ _)) as [_|_]; [injection Hj as ->; by apply Hx|].
      apply list_elem_of_lookup_2 in Hj. specialize (Hs Hj). lia.
  - injection H as <-. split; cbn; [|done|by rewrite length_insert|].
    + pose proof (held_update (p_workers p) w (Busy i) (Rejected i e) Ew) as Hu. cbn [holds] in Hu.
      apply Permutation_app_inv_r in Hu. by rewrite Hu.
    + intros Hin. apply Hs. apply list_elem_of_lookup in Hin as [j Hj]. rewrite list_lookup_insert in Hj.
      destruct (decide (w = j ∧ _)) as [_|_]; [done|]. by apply list_elem_of_lookup_2 in Hj.
Qed.

(** ** What the call promises *)

Lemma quiet_workers ws : existsb is_busy ws = false → first_rejection ws = None → Forall (eq Stopped) ws.
Proof.
  induction ws as [|[i| |i e] ws IH]; cbn; try done. intros H1 H2. constructor; [done|]. by apply IH.
Qed.

Lemma first_rejection_elem ws e : first_rejection ws = Some e → ∃ i, Rejected i e ∈ ws.
Proof.
  induction ws as [|[i| |i e0] ws IH]; cbn; try done.
  - intros H. destruct (IH H) as [j Hj]. exists j. by constructor.
  - intros H. destruct (IH H) as [j Hj]. exists j. by constructor.
  - intros [= ->]. exists i. by constructor.
Qed.
Lemma settled_ok c p :
  pool_ok c p → settled p = true → outcome p = Ok tt → 0 < c → p_resolved p ≡ₚ seq 0 n.
Proof.
  intros [Ht Hn Hw Hst] Hb Ho Hc. unfold settled in Hb. apply negb_true_iff in Hb. unfold outcome in Ho.
  destruct (first_rejection (p_workers p)) as [e|] eqn:Er; [done|]. pose proof (quiet_workers _ Hb Er) as Hq.
  assert (held (p_workers p) = []) as Hh by (clear -Hq; induction Hq as [|w ws <- _ IH]; cbn; done).
  rewrite Hh in Ht. cbn in Ht. rewrite Ht. destruct (p_workers p) as [|w ws] eqn:Ews; cbn in Hw.
  - assert (n = 0) as -> by lia. by replace (p_next p) with 0 by lia.
  - apply Forall_cons in Hq as [<- _]. rewrite Hst; [done|constructor].
Qed.
End pool.

(** ** The pool at work

    An operation is an async function: it runs from one [await] to the next, and
    between two of its turns the other workers run. *)

Section turns.
Context {W E : Type}.

Inductive turns : Type :=
| Settled (r : result E unit)
| Turn (k : W → turns * W).

(** [const a = await m; ...] *)
Definition turn_call {A} (m : act W E A) (k : A → turns) : turns :=
  Turn (λ w, let (r, w') := m w in (match r with Ok a => k a | Err e => Settled (Err e) end, w')).

(** [try { await m } catch (e) { ... }] at the end of an operation. *)
Definition turn_catch {A} (m : act W E A) (h : E → turns) : turns :=
  Turn (λ w, let (r, w') := m w in (match r with Ok _ => Settled (Ok tt) | Err e => h e end, w')).

(** The operation with nothing else running. *)
Fixpoint finish (t : turns) : act W E unit := λ w,
  match t with
  | Settled r => (r, w)
  | Turn k => match k w with (t', w') => finish t' w' end
  end.

Context {V : Type} (values : list V) (op : V → turns).
Notation n := (length values).

(** The pool, and what is left of the operation on each value. *)
Record work := Work { wk_pool : pool (E:=E); wk_turns : list turns }.

Definition begin_work (c : nat) : work := Work (start n c) (op <$> values).

(** Settling an operation lets its worker go on, or stop. *)
Definition settle (w : nat) (r : result E unit) (st : work) : work :=
  match pool_step n (match r with Ok _ => Resolves w | Err e => Rejects w e end) (wk_pool st) with
  | Some p => Work p (wk_turns st)
  | None => st
  end.

(** One turn of the worker [w], which is busy with the value [i]. *)
Definition advance (w i : nat) (st : work) (s : W) : work * W :=
  match wk_turns st !! i with
  | Some (Turn k) =>
      match k s with
      | (Settled r, s') => (settle w r st, s')
      | (t, s') => (Work (wk_pool st) (<[i := t]> (wk_turns st)), s')
      end
  | Some (Settled r) => (settle w r st, s)
  | None => (st, s)
  end.

(** The workers that have an operation in flight, with its index. *)
Fixpoint busy_from (w : nat) (ws : list (worker (E:=E))) : list (nat * nat) :=
  match ws with
  | [] => []
  | Busy i :: rest => (w, i) :: busy_from (S w) rest
  | _ :: rest => busy_from (S w) rest
  end.

(** Each entry of the schedule names one of the busy workers, modulo their
    number. *)
Fixpoint go (schedule : list nat) (st : work) (s : W) : work * W :=
  match schedule with
  | [] => (st, s)
  | x :: rest =>
      let busy := busy_from 0 (p_workers (wk_pool st)) in
      match busy !! (x mod length busy) with
      | None => (st, s)
      | Some (w, i) => match advance w i st s with (st', s') => go rest st' s' end
      end
  end.

Context (out_of_fuel : E).

(** What the promise of the call becomes; [out_of_fuel] where the schedule ended
    before the workers did. *)
Definition promise (st : work) : result E unit :=
  if settled (wk_pool st) then outcome (wk_pool st) else Err out_of_fuel.

Definition mapBounded (schedule : list nat) (c : nat) : act W E unit := λ s,
  match go schedule (begin_work c) s with (st, s') => (promise st, s') end.

(** *** Rules

    [I] holds between turns, [R v] is what a successful operation on [v] brings
    about, and no turn of any operation undoes it. *)

Context (I : W → Prop) (R : V → W → Prop).

Definition kept (s s' : W) : Prop := I s' ∧ ∀ v, v ∈ values → R v s → R v s'.

Fixpoint obeys (v : V) (t : turns) : Prop :=
  match t with
  | Settled (Ok _) => False
  | Settled (Err _) => True
  | Turn k => ∀ s, I s →
      match k s with
      | (Settled (Ok _), s') => kept s s' ∧ R v s'
      | (t', s') => kept s s' ∧ obeys v t'
      end
  end.

Lemma obeys_turn_call {A} v (m : act W E A) (k : A → turns) :
  (∀ s r s', I s → m s = (r, s') → kept s s' ∧
     match r with
     | Ok a => match k a with Settled (Ok _) => R v s' | t => obeys v t end
     | Err _ => True
     end) → obeys v (turn_call m k).
Proof.
  intros H s HI. specialize (H s (m s).1 (m s).2 HI). destruct (m s) as [[a|e] s']; destruct (H eq_refl) as [Hk Ha]; [|done]. cbn in Hk, Ha.
  cbn. by destruct (k a) as [[u|e]|k'].
Qed.

Lemma obeys_turn_catch {A} v (m : act W E A) (h : E → turns) :
  (∀ s r s', I s → m s = (r, s') → kept s s' ∧
     match r with Ok _ => R v s' | Err e => match h e with Settled (Ok _) => R v s' | t => obeys v t end end) →
  obeys v (turn_catch m h).
Proof.
  intros H s HI. specialize (H s (m s).1 (m s).2 HI). destruct (m s) as [[a|e] s']; destruct (H eq_refl) as [Hk Ha]; [done|]. cbn in Hk, Ha.
  cbn. by destruct (h e) as [[u|e']|k'].
Qed.

Lemma finish_obeys v : ∀ t, obeys v t → ∀ s, I s → I (finish t s).2.
Proof.
  fix IH 1. intros [r|k] Hob s HI; [done|]. cbn in Hob |- *. specialize (Hob s HI).
  destruct (k s) as [t' s']. assert (I s' ∧ ((∃ u, t' = Settled (Ok u)) ∨ obeys v t')) as [HI' [[u ->]|Ht]]; [|done|by apply (IH t')].
  destruct t' as [[u|e]|k']; (split; [by apply Hob|]); [left; by exists u|right; by apply Hob..].
Qed.

Record work_ok (c : nat) (st : work) (s : W) : Prop := {
  wo_pool : pool_ok n c (wk_pool st);
  wo_inv : I s;
  wo_turns : ∀ i v, values !! i = Some v → ∃ t, wk_turns st !! i = Some t ∧ obeys v t;
  wo_done : ∀ i v, i ∈ p_resolved (wk_pool st) → values !! i = Some v → R v s;
}.

Lemma busy_from_spec ws : ∀ b w i, (w, i) ∈ busy_from b ws → ∃ j, w = b + j ∧ ws !! j = Some (Busy i).
Proof.
  induction ws as [|x ws IH]; intros b w i Hin; cbn in Hin; [by apply elem_of_nil in Hin|].
  assert ((w, i) ∈ busy_from (S b) ws → ∃ j, w = b + j ∧ (x :: ws) !! j = Some (Busy i)) as Hrest.
  { intros H. destruct (IH _ _ _ H) as (j & -> & Hj). exists (S j). split; [lia|done]. }
  destruct x as [i'| |i' e]; [|by auto..]. apply elem_of_cons in Hin as [[= -> ->]|Hin]; [|by auto].
  exists 0. split; [lia|done].
Qed.

Lemma busy_from_nil ws b : busy_from b ws = [] ↔ existsb is_busy ws = false.
Proof. revert b. induction ws as [|[i| |i e] ws IH]; intros b; cbn; [done|done|apply IH|apply IH]. Qed.

Lemma work_ok_settle c w i v r st s s' :
  work_ok c st s → kept s s' → p_workers (wk_pool st) !! w = Some (Busy i) → values !! i = Some v →
  (is_ok r = true → R v s') → work_ok c (settle w r st) s'.
Proof.
  intros [Hp HI Ht Hd] [HI' HR] Hw Hv Hr. unfold settle. destruct r as [u|e]; cbn [pool_step]; rewrite Hw.
  - pose proof (pool_step_ok n c (Resolves w) (wk_pool st)) as Hs. cbn [pool_step] in Hs. rewrite Hw in Hs.
    destruct (take_next n _) as [x next]. specialize (Hs _ eq_refl Hp). split; try done; cbn.
    intros j v' Hj Hvj. apply elem_of_app in Hj as [Hj|Hj]; [apply HR; [by eapply list_elem_of_lookup_2|by eapply Hd]|].
    apply list_elem_of_singleton in Hj as ->. rewrite Hv in Hvj. injection Hvj as <-. by apply Hr.
  - pose proof (pool_step_ok n c (Rejects w e) (wk_pool st)) as Hs. cbn [pool_step] in Hs. rewrite Hw in Hs.
    specialize (Hs _ eq_refl Hp). split; try done; cbn.
    intros j v' Hj Hvj. apply HR; [by eapply list_elem_of_lookup_2|by eapply Hd].
Qed.

Lemma work_ok_advance c w i st s :
  work_ok c st s → p_workers (wk_pool st) !! w = Some (Busy i) →
  match advance w i st s with (st', s') => work_ok c st' s' end.
Proof.
  intros Hok Hw. pose proof Hok as [Hp HI Ht Hd]. unfold advance.
  destruct (wk_turns st !! i) as [t|] eqn:Ei; [|done].
  destruct (values !! i) as [v|] eqn:Ev.
  2:{ exfalso. apply lookup_ge_None in Ev. assert (i ∈ seq 0 (p_next (wk_pool st))) as Hin.
      { rewrite <-(po_taken _ _ _ Hp). apply elem_of_app. left. unfold held. apply list_elem_of_bind.
        exists (Busy i). split; [apply list_elem_of_here|by eapply list_elem_of_lookup_2]. }
      apply elem_of_seq in Hin. pose proof (po_next _ _ _ Hp). lia. }
  destruct (Ht i v Ev) as (t' & Et & Hob). rewrite Ei in Et. injection Et as <-.
  destruct t as [[u|e]|k]; cbn in Hob; [done| |].
  - apply (work_ok_settle c w i v (Err e) st s s Hok); [split; auto|done..].
  - specialize (Hob s HI). destruct (k s) as [[[u|e]|k'] s'].
    + destruct Hob as [Hk HR]. by apply (work_ok_settle c w i v (Ok u) st s s').
    + destruct Hob as [Hk _]. by apply (work_ok_settle c w i v (Err e) st s s').
    + destruct Hob as [[HI' HR] Hob]. split; cbn; [done..| |].
      * intros j v' Hj. destruct (decide (j = i)) as [->|Hne].
        { rewrite Ev in Hj. injection Hj as <-. exists (Turn k'). split; [|done]. apply list_lookup_insert_eq.
          by eapply lookup_lt_Some. }
        rewrite list_lookup_insert_ne by done. by apply Ht.
      * intros j v' Hj Hvj. apply HR; [by eapply list_elem_of_lookup_2|by eapply Hd].
Qed.

Lemma work_ok_go c schedule st s : work_ok c st s → match go schedule st s with (st', s') => work_ok c st' s' end.
Proof.
  revert st s. induction schedule as [|x rest IH]; intros st s Hok; cbn; [done|].
  destruct (busy_from 0 _ !! _) as [[w i]|] eqn:Eb; [|done].
  apply list_elem_of_lookup_2, busy_from_spec in Eb as (j & -> & Hj).
  pose proof (work_ok_advance c j i st s Hok Hj) as H. cbn [Nat.add]. destruct (advance j i st s) as [st' s']. by apply IH.
Qed.

Lemma begin_work_ok c s : I s → (∀ v, v ∈ values → obeys v (op v)) → work_ok c (begin_work c) s.
Proof.
  intros HI Hop. split; cbn; [apply start_ok|done| |].
  - intros i v Hv. exists (op v). split; [by rewrite list_lookup_fmap, Hv|]. by eapply Hop, list_elem_of_lookup_2.
  - destruct (spawn_ok (E:=E) n (Nat.min c n) (Pool 0 [] [])) as (Hr & _); cbn; try done; [lia|by intros ?%elem_of_nil|].
    unfold start. rewrite Hr. intros i v Hi. by apply elem_of_nil in Hi.
Qed.

(** A call keeps [I] throughout, and when it succeeds every value was served. *)
Lemma mapBounded_obeys schedule c s r s' :
  I s → (∀ v, v ∈ values → obeys v (op v)) → mapBounded schedule c s = (r, s') →
  I s' ∧ (r = Ok tt → 0 < c → ∀ v, v ∈ values → R v s').
Proof.
  intros HI Hop H. unfold mapBounded in H. pose proof (work_ok_go c schedule _ s (begin_work_ok c s HI Hop)) as Hok.
  destruct (go schedule _ s) as [st s1]. injection H as <- <-. split; [apply (wo_inv _ _ _ Hok)|].
  unfold promise. destruct (settled (wk_pool st)) eqn:Es; [|done]. intros Ho Hc v Hv.
  apply list_elem_of_lookup in Hv as [i Hi]. apply (wo_done _ _ _ Hok i v); [|done].
  rewrite (settled_ok n c (wk_pool st) (wo_pool _ _ _ Hok) Es Ho Hc). apply elem_of_seq.
  split; [lia|]. by eapply lookup_lt_Some.
Qed.

(** *** Termination

    [settles_within d t]: the operation settles in at most [d] turns, whatever it meets. *)

Fixpoint settles_within (d : nat) (t : turns) : Prop :=
  match d with
  | O => False
  | S d' =>
      match t with
      | Settled _ => True
      | Turn k => ∀ s, match k s with (Settled _, _) => True | (t', _) => settles_within d' t' end
      end
  end.

(** The values whose operation is in flight or still to come. *)
Definition live_value (p : pool (E:=E)) (i : nat) : Prop :=
  (∃ w, p_workers p !! w = Some (Busy i)) ∨ p_next p ≤ i < n.

(** [bs] bounds what is left of each live operation. *)
Definition bounded_by (bs : list nat) (st : work) : Prop := ∀ i, live_value (wk_pool st) i →
  ∃ b t, bs !! i = Some b ∧ wk_turns st !! i = Some t ∧ settles_within b t.

Lemma sum_list_update (bs : list nat) i b b' : bs !! i = Some b → sum_list (<[i := b']> bs) + b = sum_list bs + b'.
Proof.
  intros H. rewrite <-(take_drop_middle bs i b H) at 2.
  rewrite insert_take_drop by (by eapply lookup_lt_Some). rewrite !sum_list_with_app. cbn. lia.
Qed.

Lemma busy_unique c (p : pool (E:=E)) w w' i :
  pool_ok n c p → p_workers p !! w = Some (Busy i) → p_workers p !! w' = Some (Busy i) → w = w'.
Proof.
  intros Hp Hw Hw'. destruct (decide (w = w')) as [|Hne]; [done|exfalso].
  pose proof (held_update (p_workers p) w (Busy i) Stopped Hw) as Hu. cbn [holds] in Hu. rewrite app_nil_r in Hu.
  assert (NoDup (held (p_workers p))) as Hd.
  { pose proof (NoDup_seq 0 (p_next p)) as Hs. rewrite <-(po_taken _ _ _ Hp) in Hs. by apply NoDup_app in Hs as (? & _). }
  rewrite <-Hu in Hd. apply NoDup_app in Hd as (_ & Hd & _). apply (Hd i); [|apply list_elem_of_here].
  unfold held. apply list_elem_of_bind. exists (Busy i). split; [apply list_elem_of_here|].
  apply list_elem_of_lookup. exists w'. by rewrite list_lookup_insert_ne.
Qed.

Lemma busy_taken c (p : pool (E:=E)) w i : pool_ok n c p → p_workers p !! w = Some (Busy i) → i < p_next p.
Proof.
  intros Hp Hw. assert (i ∈ seq 0 (p_next p)) as Hin; [|apply elem_of_seq in Hin; lia].
  rewrite <-(po_taken _ _ _ Hp). apply elem_of_app. left. unfold held. apply list_elem_of_bind.
  exists (Busy i). split; [apply list_elem_of_here|by eapply list_elem_of_lookup_2].
Qed.

Lemma live_settle c w i r st j :
  pool_ok n c (wk_pool st) → p_workers (wk_pool st) !! w = Some (Busy i) →
  live_value (wk_pool (settle w r st)) j → live_value (wk_pool st) j ∧ j ≠ i.
Proof.
  intros Hp Hw. pose proof (busy_taken c _ w i Hp Hw) as Hi. unfold settle.
  assert (∀ (x : worker (E:=E)) next res, p_next (wk_pool st) ≤ next → (∀ i', x = Busy i' → i' = p_next (wk_pool st) ∧ i' < n) →
    live_value (Pool next (<[w := x]> (p_workers (wk_pool st))) res) j → live_value (wk_pool st) j ∧ j ≠ i) as Hgen.
  { intros x next res Hle Hx [[w' Hw']|Hj]; cbn in *; [|split; [right; lia|lia]].
    destruct (decide (w' = w)) as [->|Hne].
    - rewrite list_lookup_insert_eq in Hw' by (by eapply lookup_lt_Some). injection Hw' as ->.
      destruct (Hx j eq_refl) as [-> ?]. split; [right; lia|lia].
    - rewrite list_lookup_insert_ne in Hw' by done. split; [left; by exists w'|]. intros ->.
      by apply Hne, (busy_unique c (wk_pool st) w' w i). }
  destruct r as [u|e]; cbn [pool_step]; rewrite Hw; [|cbn; apply Hgen; [lia|done]].
  unfold take_next. destruct (Nat.ltb_spec (p_next (wk_pool st)) n); cbn [wk_pool];
    apply Hgen; try lia; intros i'; [intros [= <-]; lia|done].
Qed.

Lemma advance_decreases c w i st s bs :
  pool_ok n c (wk_pool st) → bounded_by bs st → p_workers (wk_pool st) !! w = Some (Busy i) →
  match advance w i st s with
  | (st', _) => pool_ok n c (wk_pool st') ∧ ∃ bs', bounded_by bs' st' ∧ sum_list bs' < sum_list bs
  end.
Proof.
  intros Hp Hb Hw. destruct (Hb i) as (b & t & Hbi & Hti & Hwt); [left; by exists w|].
  assert (∀ r, pool_ok n c (wk_pool (settle w r st)) ∧ ∃ bs', bounded_by bs' (settle w r st) ∧ sum_list bs' < sum_list bs) as Hset.
  { intros r. split.
    - unfold settle. destruct (pool_step n _ (wk_pool st)) as [p'|] eqn:Es; [|done]. by eapply pool_step_ok.
    - exists (<[i := 0]> bs). split.
      + intros j Hj. destruct (live_settle c w i r st j Hp Hw Hj) as [Hl Hne]. rewrite list_lookup_insert_ne by done.
        assert (wk_turns (settle w r st) = wk_turns st) as -> by (unfold settle; by destruct (pool_step n _ _)). by apply Hb.
      + pose proof (sum_list_update bs i b 0 Hbi). destruct b; [done|lia]. }
  unfold advance. rewrite Hti. destruct t as [r|k]; [apply Hset|]. destruct b as [|b]; [done|]. cbn in Hwt.
  specialize (Hwt s). destruct (k s) as [[r|k'] s']; [apply Hset|]. cbn [wk_pool]. split; [done|].
  exists (<[i := b]> bs). split.
  - intros j Hj. cbn [wk_pool wk_turns] in *. destruct (decide (j = i)) as [->|Hne].
    + exists b, (Turn k'). rewrite !list_lookup_insert_eq by (by eapply lookup_lt_Some). done.
    + rewrite !list_lookup_insert_ne by done. by apply Hb.
  - pose proof (sum_list_update bs i (S b) b Hbi). lia.
Qed.

Lemma go_settles c schedule : ∀ st s bs,
  pool_ok n c (wk_pool st) → bounded_by bs st → sum_list bs ≤ length schedule →
  settled (wk_pool (go schedule st s).1) = true.
Proof.
  assert (∀ st bs, bounded_by bs st → ∀ w i, p_workers (wk_pool st) !! w = Some (Busy i) → 0 < sum_list bs) as Hpos.
  { intros st bs Hb w i Hw. destruct (Hb i) as (b & t & Hbi & _ & Hwt); [left; by exists w|].
    pose proof (sum_list_update bs i b 0 Hbi). destruct b; [done|lia]. }
  induction schedule as [|x rest IH]; intros st s bs Hp Hb Hs; cbn [go length] in *.
  - unfold settled. apply negb_true_iff, (busy_from_nil _ 0). cbn [fst].
    destruct (busy_from 0 _) as [|[w i] l] eqn:Eb; [done|]. exfalso.
    assert ((w, i) ∈ busy_from 0 (p_workers (wk_pool st))) as Hin by (rewrite Eb; apply list_elem_of_here).
    apply busy_from_spec in Hin as (j & _ & Hj). specialize (Hpos _ _ Hb _ _ Hj). lia.
  - destruct (busy_from 0 (p_workers (wk_pool st)) !! _) as [[w i]|] eqn:Eb.
    + apply list_elem_of_lookup_2, busy_from_spec in Eb as (j & -> & Hj). cbn [Nat.add].
      pose proof (advance_decreases c j i st s bs Hp Hb Hj) as Ha. destruct (advance j i st s) as [st' s'].
      destruct Ha as (Hp' & bs' & Hb' & Hlt). apply (IH st' s' bs'); [done..|lia].
    + unfold settled. apply negb_true_iff, (busy_from_nil _ 0). cbn [fst].
      apply lookup_ge_None in Eb. destruct (busy_from 0 _) as [|y l]; [done|exfalso].
      pose proof (Nat.mod_upper_bound x (length (y :: l))). cbn in *. lia.
Qed.

Lemma begin_settles d schedule c s :
  (∀ v, v ∈ values → settles_within d (op v)) → d * n ≤ length schedule →
  settled (wk_pool (go schedule (begin_work c) s).1) = true.
Proof.
  intros Hop Hs. apply (go_settles c schedule (begin_work c) s (replicate n d)); [apply start_ok| |].
  - intros i Hi. assert (i < n) as Hlt.
    { destruct Hi as [[w Hw]|]; [|lia]. pose proof (busy_taken c _ w i (start_ok n c) Hw).
      pose proof (po_next _ _ _ (start_ok (E:=E) n c)). cbn in *. lia. }
    apply lookup_lt_is_Some in Hlt as Hv. destruct Hv as [v Hv]. exists d, (op v). split_and!.
    + by apply lookup_replicate.
    + cbn. by rewrite list_lookup_fmap, Hv.
    + by eapply Hop, list_elem_of_lookup_2.
  - rewrite sum_list_replicate. lia.
Qed.

(** With [d] turns per value in the schedule the call settles. *)
Lemma mapBounded_settles d schedule c s :
  (∀ v, v ∈ values → settles_within d (op v)) → d * n ≤ length schedule →
  (mapBounded schedule c s).1 = outcome (wk_pool (go schedule (begin_work c) s).1).
Proof.
  intros Hop Hs. pose proof (begin_settles d schedule c s Hop Hs) as Hg. unfold mapBounded, promise.
  destruct (go schedule (begin_work c) s) as [st s']. cbn [fst] in *. by rewrite Hg.
Qed.
End turns.

Lemma go_pool_ok {W E V} (values : list V) c schedule : ∀ (st : work (W:=W) (E:=E)) s,
  pool_ok (length values) c (wk_pool st) → pool_ok (length values) c (wk_pool (go values schedule st s).1).
Proof.
  assert (∀ w r (st : work (W:=W) (E:=E)), pool_ok (length values) c (wk_pool st) →
    pool_ok (length values) c (wk_pool (settle values w r st))) as Hset.
  { intros w r st Hp. unfold settle. destruct (pool_step _ _ (wk_pool st)) as [p'|] eqn:Es; [|done]. by eapply pool_step_ok. }
  induction schedule as [|x rest IH]; intros st s Hp; cbn; [done|].
  destruct (busy_from 0 _ !! _) as [[w i]|]; [|done]. unfold advance.
  destruct (wk_turns st !! i) as [[r|k]|]; [by apply IH, Hset| |by apply IH].
  destruct (k s) as [[r|k'] s']; apply IH; [by apply Hset|done].
Qed.

(** C34. [mapBounded] starts every operation at most once and has at most [c] of them
    in flight, whatever the operations do and in whatever order their workers take
    turns; it settles only when no operation is left in flight (so that a repeated
    call meets no leftover of this one), and then it has succeeded on every value,
    or throws the error of an operation that rejected; and it does settle: when an
    operation takes at most [d] turns, after [d] turns per value. *)
Theorem mapBounded_spec : ∀ W E V (values : list V) (op : V → turns (W:=W) (E:=E)) out_of_fuel schedule c s,
  let p := wk_pool (go values schedule (begin_work values op c) s).1 in
  in_flight p ≤ c ∧ NoDup (held (p_workers p) ++ p_resolved p) ∧
  (settled p = true → in_flight p = 0 ∧
    match (mapBounded values op out_of_fuel schedule c s).1 with
    | Ok _ => 0 < c → p_resolved p ≡ₚ seq 0 (length values)
    | Err e => ∃ i, i < length values ∧ Rejected i e ∈ p_workers p
    end) ∧
  ∀ d, (∀ v, v ∈ values → settles_within d (op v)) → d * length values ≤ length schedule → settled p = true.
Proof.
  intros W E V values op out_of_fuel schedule c s. unfold mapBounded, promise.
  pose proof (go_pool_ok values c schedule (begin_work values op c) s (start_ok _ c)) as Hp.
  pose proof (λ d, begin_settles values op d schedule c s) as Hsettles.
  destruct (go values schedule _ s) as [st s']. cbn [fst] in *. set (p := wk_pool st) in *. cbv zeta.
  pose proof Hp as [Ht Hn Hw Hst]. split_and!.
  - unfold in_flight. pose proof (filter_length_le is_busy (p_workers p)). lia.
  - rewrite Ht. apply NoDup_seq.
  - intros Hb. split.
    { unfold settled, in_flight in *. apply negb_true_iff in Hb. clear -Hb.
      induction (p_workers p) as [|w ws IH]; cbn in *; [done|]. destruct (is_busy w); [done|]. by apply IH. }
    rewrite Hb. unfold outcome. destruct (first_rejection (p_workers p)) as [e|] eqn:Er.
    + apply first_rejection_elem in Er as [i Hi]. exists i. split; [|done].
      assert (i ∈ seq 0 (p_next p)) as Hin; [|apply elem_of_seq in Hin; lia].
      rewrite <-Ht. apply elem_of_app. left. unfold held. apply list_elem_of_bind. exists (Rejected i e). cbn.
      split; [apply list_elem_of_singleton; done|done].
    + intros Hc. apply (settled_ok _ c p); [done|done|unfold outcome; by rewrite Er|done].
  - exact Hsettles.
Qed.

(** Three workers on five values, each operation logging its two turns: the
    operation on the second value rejects, the others go on. *)
Definition logged (v : nat) : turns (W:=list nat) (E:=string) :=
  turn_call (λ l, (Ok tt, l ++ [v])) (λ _,
    if v =? 1 then Settled (Err "down"%string) else turn_call (λ l, (Ok tt, l ++ [v])) (λ _, Settled (Ok tt))).

Lemma mapBounded_spec_witness :
  ∃ l, mapBounded [0; 1; 2; 3; 4] logged "fuel"%string [0; 1; 1; 0; 1; 0; 0; 0; 1; 0] 3 [] = (Err "down"%string, l) ∧
    l = [0; 1; 2; 0; 2; 3; 3; 4; 4] ∧
    settled (wk_pool (go [0; 1; 2; 3; 4] [0; 1; 1; 0; 1; 0; 0; 0; 1; 0] (begin_work [0; 1; 2; 3; 4] logged 3) []).1) = true.
Proof.
  eexists. split; [vm_compute; reflexivity|]. split; [reflexivity|].
  destruct (mapBounded_spec _ _ _ [0; 1; 2; 3; 4] logged "fuel"%string [0; 1; 1; 0; 1; 0; 0; 0; 1; 0] 3 []) as (_ & _ & _ & Hs).
  apply (Hs 2); [|cbn; lia]. intros v _ l. cbn. destruct (v =? 1); [exact I|]. intros l'. exact I.
Defined.
