(* ===== verification/TaskBridge.v ===== *)
(** * The BullMQ bridge

    [BullMQTaskBridge] of [sdks/node/src/bullmq/task-bridge.ts]: it reserves a
    durable Execution before a job enters the application's queue, and projects
    the events of that queue onto Tasks through a [TaskClient]. The bridge is
    written against the class [BridgeClient], the methods of [tasks/client.ts]
    it calls; the optional ones are options there as they are here. Callbacks of
    the application are arguments. Metrics and warnings have no effect on what
    is stored and are left out, and so is the back-off between two rounds of
    [converge] (other processes run before every statement in any case). *)

From stdpp Require Import base gmap strings list pretty sorting.
From Stdlib Require Import Ascii ZArith Lia.
From S2P Require Import Prelude TaskModel TaskClient RuntimeContracts ProjectionFailures Projector BoundedPool.

Open Scope act_scope.

(** ** The Task client the bridge needs *)

Record TaskExecutionRuntimeRef := RuntimeReference {
  rr_executionId : string; rr_itemKey : string; rr_attempt : Z; rr_runtime : string;
  rr_runtimeScope : option string; rr_externalId : option string; rr_state : exec_state;
}.

Class BridgeClient := {
  br_tasks :: TaskClient;
  br_createTask : TaskCreateRequest → io snapshot;
  br_getTaskSummary : string → io summary;
  br_createTaskExecution : string → TaskExecutionCreateRequest → io snapshot;
  br_createTaskExecutionAck : option (string → TaskExecutionCreateRequest → io Z);
  br_bindTaskExecution : string → TaskExecutionBinding → io snapshot;
  br_bindTaskExecutionAck : option (string → TaskExecutionBinding → io Z);
  br_transitionTaskExecutionAck : option (string → Z → string → option string → io Z);
  br_attachTaskExecutionResultAck : option (string → Z → string → io Z);
  br_resolveTaskCancellation : string → Z → string → option string → io snapshot;
  br_settleTaskItems : option (string → io bool);
  br_syncTaskItemProgress : option (string → io Z);
  br_listTaskExecutionRuntimeRefs : option (string → io (list TaskExecutionRuntimeRef));
}.

(** [PostgresTaskClient.listTaskExecutionRuntimeRefs] *)
Definition listTaskExecutionRuntimeRefs (c : session) (taskId : string) : io (list TaskExecutionRuntimeRef) :=
  getTask c taskId ;+
  query (λ d, (λ e, RuntimeReference (e_id e) (e_item_key e) (e_attempt e) (e_runtime e)
      (truthy (Some (e_runtime_scope e))) (truthy (e_external_id e)) (e_state e)) <$>
    merge_sort snapshot_le (map_rows (λ e, bool_decide (e_task_id e = taskId)) (visible_executions c d))).

Definition PostgresBridgeClient (c : session) : BridgeClient := {|
  br_tasks := PostgresTaskClient c;
  br_createTask := createTask c;
  br_getTaskSummary := λ id, readTaskSummary c id None None;
  br_createTaskExecution := createTaskExecution c;
  br_createTaskExecutionAck := Some (createTaskExecutionAck c);
  br_bindTaskExecution := bindTaskExecution c;
  br_bindTaskExecutionAck := Some (bindTaskExecutionAck c);
  br_transitionTaskExecutionAck := Some (transitionTaskExecutionAck c);
  br_attachTaskExecutionResultAck := Some (attachTaskExecutionResultAck c);
  br_resolveTaskCancellation := resolveTaskCancellation c;
  br_settleTaskItems := Some (settleTaskItems c);
  br_syncTaskItemProgress := Some (syncTaskItemProgress c);
  br_listTaskExecutionRuntimeRefs := Some (listTaskExecutionRuntimeRefs c);
|}.

(** ** Events *)

Inductive QueueEvent := QWaiting | QActive | QProgress | QCompleted | QFailed | QDelayed.

Definition queue_event_name (e : QueueEvent) : string :=
  match e with
  | QWaiting => "waiting" | QActive => "active" | QProgress => "progress"
  | QCompleted => "completed" | QFailed => "failed" | QDelayed => "delayed"
  end.

(** What the progress mappers can see of a JSON value: a number, an object with
    the fields they read ([None] where it is not a number or a string), or
    anything else. *)
Inductive js_data : Type :=
| DNumber (n : js_number)
| DRecord (completed total : option js_number) (message : option string)
| DOther.

(** [returnvalue] is opaque to the bridge. *)
Record BullMQEvent := BullMQEventOf {
  be_jobId : string; be_attempt : option js_number; be_data : js_data; be_returnvalue : option string;
  be_failedReason : option string;
}.

Inductive BullMQObservedState := SeenWaiting | SeenActive | SeenCompleted | SeenFailed.

Record BullMQTaskObservation := Observed {
  ob_event :> BullMQEvent; ob_state : BullMQObservedState; ob_terminal : bool;
}.

Record BullMQTaskBinding := Binding {
  bb_task : TaskCreateRequest; bb_executionId : string; bb_itemKey : option string; bb_jobId : string;
}.

(** ** Free functions of the file *)

Definition isTerminalExecution (st : exec_state) : bool :=
  match st with ESucceeded | EFailed | ECancelled => true | _ => false end.

Definition isFinishedAttempt (st : exec_state) : bool :=
  isTerminalExecution st || bool_decide (st = EStalled).

Definition defaultFailureReason (event : BullMQEvent) : option string :=
  truthy (js_trim <$> be_failedReason event).

Definition validateRuntimeAttempt (n : js_number) : io Z :=
  match n with
  | JsInt z => if z <? 1 then athrow RangeError else aret z
  | JsOther => athrow RangeError
  end.

Definition isNonNegativeInteger (o : option js_number) : option Z :=
  match o with
  | Some (JsInt z) => if 0 <=? z then Some z else None
  | _ => None
  end.

Definition structuredProgress (data : js_data) : option progress :=
  match data with
  | DRecord completed total message =>
      match isNonNegativeInteger completed with
      | None => None
      | Some k =>
          let n := isNonNegativeInteger total in
          if match n with Some n => n <? k | None => false end then None else Some (Progress k n message)
      end
  | _ => None
  end.

Definition defaultProgress (event : BullMQEvent) : result js_error (option progress) :=
  match be_data event with
  | DNumber _ => Err TypeError
  | d => Ok (structuredProgress d)
  end.

Definition bullMQCountProgress (event : BullMQEvent) : result js_error (option progress) :=
  Ok match be_data event with
     | DNumber (JsInt z) => if 0 <=? z then Some (Progress z None None) else structuredProgress (be_data event)
     | d => structuredProgress d
     end.

Definition bullMQPercentageProgress (event : BullMQEvent) : result js_error (option progress) :=
  Ok match be_data event with
     | DNumber (JsInt z) =>
         if (z <? 0) || (100 <? z) then structuredProgress (be_data event) else Some (Progress z (Some 100) None)
     | d => structuredProgress d
     end.

(** The [Map] of the two functions below, in insertion order: a later attempt of
    a key takes the place of the earlier one. *)
Section latest.
Context {A : Type} (key : A → string) (attempt : A → Z).

Fixpoint put_latest (x : A) (l : list A) : list A :=
  match l with
  | [] => [x]
  | y :: rest =>
      if bool_decide (key y = key x) then (if attempt y <? attempt x then x else y) :: rest
      else y :: put_latest x rest
  end.

Definition latest_by (xs : list A) : list A := foldl (λ l x, put_latest x l) [] xs.
End latest.

Definition latestExecutions (xs : list execution_summary) : list execution_summary :=
  latest_by es_itemKey es_attempt xs.

Definition latestRuntimeReferences (refs : list TaskExecutionRuntimeRef) : list TaskExecutionRuntimeRef :=
  latest_by (λ r, if isEmpty (rr_itemKey r) then rr_executionId r else rr_itemKey r) rr_attempt refs.

Definition MAX_VERSION_CONVERGENCE_ATTEMPTS : nat := 10.

(** [converge]: as the loop of the runtime projector, it retries a version
    conflict and nothing else. *)
Definition converge {A} (operation : io A) : io A :=
  converge_from MAX_VERSION_CONVERGENCE_ATTEMPTS OutOfFuel operation.

(** Visiting a [Set] built from a list: its distinct members, first come first. *)
Fixpoint distinct_from (seen l : list string) : list string :=
  match l with
  | [] => []
  | x :: rest => if bool_decide (x ∈ seen) then distinct_from seen rest else x :: distinct_from (x :: seen) rest
  end.

Definition distinct (l : list string) : list string := distinct_from [] l.

(** [for (const x of l) await f(x)] *)
Fixpoint afor {A B} (l : list A) (f : A → io B) : io unit :=
  match l with
  | [] => aret tt
  | x :: rest => f x ;+ afor rest f
  end.

(** ** The bridge *)

Inductive aggregate_terminal := AggregateManual | AllSucceeded | AtLeastOneSucceeded.

#[export] Instance aggregate_terminal_eq_dec : EqDecision aggregate_terminal.
Proof. solve_decision. Defined.

(** What [cancelJob] may return. *)
Inductive cancel_answer : Type :=
| Acknowledged
| CannotCancelSafely (reason : string)
| CancelFailed (reason : string)
| InvalidCancelStatus.

(** The options of a bridge, with the defaults of its constructor applied. *)
Record BullMQTaskBridgeOptions := {
  runtimeScope : string;
  dispatchConcurrency : nat;
  terminalProjection : terminal_projection;
  aggregateProgress : bool;
  aggregateTerminal : aggregate_terminal;
  progress_of : BullMQEvent → result js_error (option progress);
  isTerminalFailure : option (BullMQEvent → io bool);
  runtimeAttempt : option (BullMQEvent → io (option js_number));
  resultReference : BullMQEvent → io (option string);
  failureReason : BullMQEvent → option string;
  cancelJob : option (string → execution → io cancel_answer);
  terminalizeOnCancel : bool;
  retryIgnored : bool;
  retryExecutionId : execution → Z → string;
  onItemsSettled : option (snapshot → io unit);
}.

(** [(previous, attempt) => `${previous.id}#${attempt}`] *)
Definition defaultRetryExecutionId (previous : execution) (attempt : Z) : string :=
  (x_id previous ++ "#" ++ pretty attempt)%string.

Section bridge.
Context {client : BridgeClient} (opts : BullMQTaskBridgeOptions).

Definition scope_option : option string := truthy (Some (runtimeScope opts)).

Definition find (jobId : string) : io (option execution) :=
  atry (let+ x := cl_lookupTaskExecution "bullmq" jobId (runtimeScope opts) in aret (Some x))
    (λ e, if hasCode e "RHINOQ_EXECUTION_NOT_FOUND" then aret None else athrow e).

Definition transitionExecution (id : string) (v : Z) (target : string) (reason : option string) : io unit :=
  match br_transitionTaskExecutionAck with
  | Some ack => ack id v target reason ;+ aret tt
  | None => cl_transitionTaskExecution id v target reason ;+ aret tt
  end.

(** Whether the bridge attempts the move at all. *)
Definition legal_move (st target : exec_state) : bool :=
  match st with
  | EPendingDispatch | EDispatched => true
  | ERunning => negb (bool_decide (target = ERunning))
  | _ => false
  end.

(** [fuel] bounds the nesting of the two-step repair for old stores. *)
Fixpoint ensureExecution (fuel : nat) (id : string) (target : exec_state) (reason : option string) : io unit :=
  match fuel with
  | O => athrow OutOfFuel
  | S fuel' =>
      converge (
        let+ x := cl_getTaskExecution id in
        if bool_decide (x_state x = target) then aret tt else
        if negb (legal_move (x_state x) target) then aret tt else
        atry (transitionExecution (x_id x) (x_version x) (exec_state_name target) reason)
          (λ e,
             if bool_decide (x_state x = ERunning) || bool_decide (target = ERunning)
                || negb (hasCode e "RHINOQ_INVALID_EXECUTION_TRANSITION")
             then athrow e
             else ensureExecution fuel' id ERunning None ;+ ensureExecution fuel' id target reason))
  end.

Definition ensure (id : string) (target : exec_state) (reason : option string) : io unit :=
  ensureExecution REPAIR_DEPTH id target reason.

Definition ensureTask (taskId : string) (target : task_state) : io snapshot :=
  converge (
    let+ task := cl_getTask taskId in
    if bool_decide (s_state task = target) then aret task else
    let+ task := (if bool_decide (s_state task = Pending)
                  then cl_transitionTask (s_id task) (s_entityVersion task) "queued" else aret task) in
    let+ task := (if bool_decide (target ∈ [Running; Succeeded; Failed]) && bool_decide (s_state task = Queued)
                  then cl_transitionTask (s_id task) (s_entityVersion task) "running" else aret task) in
    if bool_decide (target ∈ [Succeeded; Failed])
       && (bool_decide (s_state task = Running) || bool_decide (s_state task = CancelRequested))
    then cl_transitionTask (s_id task) (s_entityVersion task) (task_state_name target)
    else aret task).

Definition activate (x : execution) : io snapshot :=
  ensure (x_id x) ERunning None ;+ ensureTask (x_taskId x) Running.

(** ** Retries *)

Definition openRetryAttempt (previous : execution) : io (option execution) :=
  if retryIgnored opts then aret None else
  match cl_retryTaskExecution, x_externalId previous with
  | Some retry, Some ext =>
      atry (retry (x_id previous) (x_version previous) (retryExecutionId opts previous (x_attempt previous + 1)) ;+
            aret tt)
        (λ e, if isConvergenceError e then aret tt else athrow e) ;+
      let+ replacement := find ext in
      match replacement with
      | Some r => if bool_decide (x_id r = x_id previous) then aret None else aret (Some r)
      | None => aret None
      end
  | _, _ => aret None
  end.

(** The [while] loop of [openRetryAttempts]; [ext] is the job and [observed] the
    attempt the runtime is on. *)
Fixpoint retry_loop (fuel : nat) (ext : string) (current : execution) (observed : option Z) : io (option execution) :=
  match fuel with
  | O => athrow OutOfFuel
  | S fuel' =>
      let behind := match observed with Some n => x_attempt current <? n | None => false end in
      if negb (isFinishedAttempt (x_state current) || behind) then aret (Some current) else
      if negb (isFinishedAttempt (x_state current)) then
        ensure (x_id current) EStalled None ;+
        let+ found := find ext in
        match found with
        | None => aret None
        | Some again => retry_loop fuel' ext again observed
        end
      else
        let+ next := openRetryAttempt current in
        match next with
        | None => aret None
        | Some x =>
            if match observed with None => true | Some n => n <=? x_attempt x end then aret (Some x)
            else retry_loop fuel' ext x observed
        end
  end.

(** Two rounds for every attempt up to the observed one. *)
Definition retry_fuel (observed : option Z) : nat := 2 * Z.to_nat (default 0 observed) + 4.

Definition openRetryAttempts (x : execution) (attempt : option js_number) : io (option execution) :=
  let+ observed := match attempt with
                   | None => aret None
                   | Some n => let+ z := validateRuntimeAttempt n in aret (Some z)
                   end in
  retry_loop (retry_fuel observed) (default "" (x_externalId x)) x observed.

(** ** Projection of one event *)

Definition queue (jobId : string) : io unit :=
  let+ x := find jobId in
  match x with
  | Some x => ensureTask (x_taskId x) Queued ;+ aret tt
  | None => aret tt
  end.

Definition startJob (jobId : string) (attempt : option js_number) : io unit :=
  let+ x := find jobId in
  match x with
  | None => aret tt
  | Some x =>
      let+ current := openRetryAttempts x attempt in
      match current with
      | None => aret tt
      | Some x => activate x ;+ aret tt
      end
  end.

Definition observedAttempt (event : BullMQEvent) : io (option js_number) :=
  match be_attempt event, runtimeAttempt opts with
  | Some n, _ => aret (Some n)
  | None, None => aret None
  | None, Some f => atry (f event) (λ _, aret None)
  end.

Definition reportProgress (event : BullMQEvent) : io unit :=
  match progress_of opts event with
  | Err e => athrow e
  | Ok None => aret tt
  | Ok (Some p) =>
      converge (
        let+ x := find (be_jobId event) in
        match x with
        | None => aret tt
        | Some x =>
            let+ task := activate x in
            if negb (bool_decide (s_state task = Running) || bool_decide (s_state task = CancelRequested)) then aret tt else
            if sameProgress (s_progress task) p then aret tt else
            cl_reportTaskProgress (s_id task) (s_entityVersion task) p ;+ aret tt
        end)
  end.

Definition signalSettlement (taskId : string) : io unit :=
  match onItemsSettled opts, br_settleTaskItems with
  | Some callback, Some settle =>
      let+ won := settle taskId in
      if negb won then aret tt else
      match br_syncTaskItemProgress with
      | Some sync => if aggregateProgress opts then sync taskId ;+ aret tt else aret tt
      | None => aret tt
      end ;+
      let+ task := cl_getTask taskId in
      callback task
  | _, _ => aret tt
  end.

Definition of_summary_state (st : exec_state) (x : execution_summary) : bool := bool_decide (es_state x = st).

(** The terminal state the aggregate policy gives a fan-out of [total] items of
    which [succeeded] did. *)
Definition aggregate_target (policy : aggregate_terminal) (succeeded total : nat) : task_state :=
  match policy with
  | AllSucceeded => if (succeeded =? total)%nat then Succeeded else Failed
  | _ => if (0 <? succeeded)%nat then Succeeded else Failed
  end.

Definition updateAggregate (taskId : string) : io unit :=
  let manual := bool_decide (aggregateTerminal opts = AggregateManual) in
  if negb (aggregateProgress opts) && manual then aret tt else
  let general :=
    converge (
      let+ task := cl_getTask taskId in
      let latest := latestExecutions (s_executions task) in
      let total := length latest in
      if (total =? 0)%nat then aret tt else
      let terminal := List.filter (λ x, isTerminalExecution (es_state x)) latest in
      let done := Progress (Z.of_nat (length terminal)) (Some (Z.of_nat total)) None in
      let+ task := (if aggregateProgress opts
                       && (bool_decide (s_state task = Running) || bool_decide (s_state task = CancelRequested))
                       && negb (sameProgress (s_progress task) done)
                    then cl_reportTaskProgress (s_id task) (s_entityVersion task) done else aret task) in
      if negb (length terminal =? total)%nat || manual then aret tt else
      let succeeded := length (List.filter (of_summary_state ESucceeded) terminal) in
      ensureTask (s_id task) (aggregate_target (aggregateTerminal opts) succeeded total) ;+ aret tt) in
  match br_syncTaskItemProgress with
  | Some sync => if aggregateProgress opts && manual then sync taskId ;+ aret tt else general
  | None => general
  end.

Definition attach_result (id reference : string) : io unit :=
  converge (
    let+ current := cl_getTaskExecution id in
    match br_attachTaskExecutionResultAck with
    | Some ack => ack (x_id current) (x_version current) reference ;+ aret tt
    | None => cl_attachTaskExecutionResult (x_id current) (x_version current) reference ;+ aret tt
    end).

Definition complete (event : BullMQEvent) : io unit :=
  let+ x := find (be_jobId event) in
  match x with
  | None => aret tt
  | Some x =>
      ensure (x_id x) ESucceeded None ;+
      ensureTask (x_taskId x) Running ;+
      let+ reference := resultReference opts event in
      let reference := truthy reference in
      match reference with Some r => attach_result (x_id x) r | None => aret tt end ;+
      match terminalProjection opts with
      | ExecutionOnly => afinally (updateAggregate (x_taskId x)) (signalSettlement (x_taskId x))
      | SingleExecution =>
          signalSettlement (x_taskId x) ;+
          ensureTask (x_taskId x) Succeeded ;+
          match reference with
          | Some r =>
              converge (
                let+ task := cl_getTask (x_taskId x) in
                if s_hasResult task then aret tt
                else cl_attachTaskResult (s_id task) (s_entityVersion task) r ;+ aret tt)
          | None => aret tt
          end
      end
  end.

Definition fail (event : BullMQEvent) (terminal : bool) : io unit :=
  let+ x := find (be_jobId event) in
  match x with
  | None => aret tt
  | Some x =>
      ensure (x_id x) EFailed (failureReason opts event) ;+
      ensureTask (x_taskId x) Running ;+
      if negb terminal then aret tt else
      match terminalProjection opts with
      | SingleExecution => ensureTask (x_taskId x) Failed ;+ signalSettlement (x_taskId x)
      | ExecutionOnly => afinally (updateAggregate (x_taskId x)) (signalSettlement (x_taskId x))
      end
  end.

Definition failIfTerminal (event : BullMQEvent) : io unit :=
  let+ terminal := match isTerminalFailure opts with Some f => f event | None => aret false end in
  fail event terminal.

Definition endAttemptForRetry (event : BullMQEvent) : io unit :=
  if retryIgnored opts then aret tt else
  let+ x := find (be_jobId event) in
  match x with
  | Some x => if bool_decide (x_state x = ERunning) then ensure (x_id x) EStalled None else aret tt
  | None => aret tt
  end.

Definition project (name : QueueEvent) (event : BullMQEvent) : io unit :=
  match name with
  | QWaiting => queue (be_jobId event)
  | QActive => let+ n := observedAttempt event in startJob (be_jobId event) n
  | QProgress => reportProgress event
  | QCompleted => complete event
  | QFailed => failIfTerminal event
  | QDelayed => endAttemptForRetry event
  end.

(** ** Reconciliation *)

Definition reconcile (ob : BullMQTaskObservation) : io unit :=
  match ob_state ob with
  | SeenWaiting => queue (be_jobId ob)
  | SeenActive => startJob (be_jobId ob) (be_attempt ob)
  | SeenCompleted => complete ob
  | SeenFailed => if ob_terminal ob then fail ob true else aret tt
  end.

Definition reconcileMany (obs : list BullMQTaskObservation) : io unit := afor obs reconcile.

Definition bullmq_reference (r : TaskExecutionRuntimeRef) : bool :=
  bool_decide (rr_runtime r = "bullmq")
  && (isEmpty (runtimeScope opts) || bool_decide (default "" (rr_runtimeScope r) = runtimeScope opts)).

(** The loop of [reconcileTask]; the count is its result. *)
Fixpoint reconcile_refs (refs : list TaskExecutionRuntimeRef)
    (observe : TaskExecutionRuntimeRef → io (option BullMQTaskObservation)) (n : nat) : io nat :=
  match refs with
  | [] => aret n
  | r :: rest =>
      match truthy (rr_externalId r) with
      | None => reconcile_refs rest observe n
      | Some ext =>
          let+ ob := observe r in
          match ob with
          | None => reconcile_refs rest observe n
          | Some ob =>
              athrow_if (negb (bool_decide (be_jobId ob = ext))) PlainError ;+
              reconcile ob ;+
              reconcile_refs rest observe (S n)
          end
      end
  end.

Definition reconcileTask (taskId : string) (observe : TaskExecutionRuntimeRef → io (option BullMQTaskObservation))
    : io nat :=
  match br_listTaskExecutionRuntimeRefs with
  | None => athrow TypeError
  | Some list_refs =>
      let+ refs := list_refs taskId in
      reconcile_refs (List.filter bullmq_reference (latestRuntimeReferences refs)) observe 0
  end.

Inductive drift_state := DriftCompleted | DriftFailed | DriftMissing.

Record BullMQTaskDrift := Drift {
  dr_executionId : string; dr_itemKey : string; dr_jobId : string; dr_taskState : exec_state;
  dr_runtimeState : drift_state;
}.

Fixpoint audit_refs (refs : list TaskExecutionRuntimeRef)
    (observe : TaskExecutionRuntimeRef → io (option BullMQTaskObservation)) : io (list BullMQTaskDrift) :=
  match refs with
  | [] => aret []
  | r :: rest =>
      match truthy (rr_externalId r) with
      | None => audit_refs rest observe
      | Some ext =>
          if negb (bullmq_reference r) || isTerminalExecution (rr_state r) then audit_refs rest observe else
          let+ ob := observe r in
          let seen := match ob with
                      | None => Some DriftMissing
                      | Some ob => match ob_state ob with
                                   | SeenCompleted => Some DriftCompleted
                                   | SeenFailed => Some DriftFailed
                                   | _ => None
                                   end
                      end in
          let+ drift := audit_refs rest observe in
          aret match seen with
               | Some st => Drift (rr_executionId r) (rr_itemKey r) ext (rr_state r) st :: drift
               | None => drift
               end
      end
  end.

Definition auditTask (taskId : string) (observe : TaskExecutionRuntimeRef → io (option BullMQTaskObservation))
    : io (list BullMQTaskDrift) :=
  match br_listTaskExecutionRuntimeRefs with
  | None => athrow TypeError
  | Some list_refs =>
      let+ refs := list_refs taskId in
      audit_refs (latestRuntimeReferences refs) observe
  end.

(** ** Cancellation *)

Inductive cancel_status := Acked | Unsafe | Failing.

Definition cancel_status_name (s : cancel_status) : string :=
  match s with Acked => "acknowledged" | Unsafe => "cannot_cancel_safely" | Failing => "failed" end.

(** The locals [worst], [reason] and [stopped]. *)
Record cancel_locals := CancelLocals {
  cn_worst : cancel_status; cn_reason : option string; cn_stopped : list string;
}.

Definition record (st : cancel_status) (why : option string) (l : cancel_locals) : cancel_locals :=
  match st, cn_worst l with
  | Acked, _ => l
  | _, Acked | Failing, Unsafe => CancelLocals st why (cn_stopped l)
  | _, _ => l
  end.

Definition record_answer (jobId : string) (a : result js_error cancel_answer) (l : cancel_locals) : cancel_locals :=
  match a with
  | Err _ => record Failing (Some ("BullMQ cancellation failed for job " ++ jobId)%string) l
  | Ok InvalidCancelStatus =>
      record Failing (Some ("BullMQ cancellation returned an invalid status for job " ++ jobId)%string) l
  | Ok Acknowledged => CancelLocals (cn_worst l) (cn_reason l) (cn_stopped l ++ [jobId])
  | Ok (CannotCancelSafely why) => record Unsafe (Some why) l
  | Ok (CancelFailed why) => record Failing (Some why) l
  end.

Definition resolveCancellation (taskId : string) (st : cancel_status) (reason : option string) : io snapshot :=
  converge (
    let+ task := cl_getTask taskId in
    br_resolveTaskCancellation (s_id task) (s_entityVersion task) (cancel_status_name st) reason).

(** The loop over the jobs; [inl] is the early return for a job of another Task. *)
Fixpoint cancel_jobs (ask : string → execution → io cancel_answer) (taskId : string) (jobs : list string)
    (l : cancel_locals) : io (string + cancel_locals) :=
  match jobs with
  | [] => aret (inr l)
  | jobId :: rest =>
      let+ x := find jobId in
      match x with
      | Some x =>
          if bool_decide (x_taskId x = taskId) then
            (λ w, let (a, w1) := ask jobId x w in cancel_jobs ask taskId rest (record_answer jobId a l) w1)
          else aret (inl jobId)
      | None => aret (inl jobId)
      end
  end.

Definition terminalizeCancellation (taskId : string) (jobIds : list string) : io snapshot :=
  afor jobIds (λ jobId,
    let+ x := find jobId in
    match x with
    | None => aret tt
    | Some x =>
        if isTerminalExecution (x_state x) then aret tt else
        converge (
          let+ current := cl_getTaskExecution (x_id x) in
          if isTerminalExecution (x_state current) then aret tt
          else transitionExecution (x_id current) (x_version current) "cancelled" None)
    end) ;+
  converge (
    let+ task := cl_getTask taskId in
    if negb (bool_decide (s_state task = CancelRequested)) then aret task else
    if existsb (λ x, negb (isTerminalExecution (es_state x))) (latestExecutions (s_executions task)) then aret task
    else cl_transitionTask (s_id task) (s_entityVersion task) "cancelled").

Definition cancel (taskId : string) (jobIds : list string) : io snapshot :=
  match cancelJob opts with
  | None => athrow TypeError
  | Some ask =>
      athrow_if (length jobIds =? 0)%nat RangeError ;+
      let+ task := converge (
        let+ current := cl_getTask taskId in
        if bool_decide (s_state current = CancelRequested) then aret current
        else cl_requestTaskCancellation (s_id current) (s_entityVersion current)) in
      if negb (bool_decide (s_state task = CancelRequested)) then aret task else
      let+ outcome := cancel_jobs ask taskId (distinct jobIds) (CancelLocals Acked None []) in
      match outcome with
      | inl jobId => resolveCancellation taskId Failing
          (Some ("BullMQ job " ++ jobId ++ " is not bound to Task " ++ taskId)%string)
      | inr l =>
          let+ resolved := resolveCancellation taskId (cn_worst l) (cn_reason l) in
          if negb (terminalizeOnCancel opts) then aret resolved
          else terminalizeCancellation taskId (cn_stopped l)
      end
  end.

(** ** Reserving an Execution *)

Definition assertExistingBinding (x : execution) (b : BullMQTaskBinding) (taskId : string) : io unit :=
  athrow_if (negb (bool_decide (x_taskId x = taskId))) PlainError ;+
  athrow_if (negb (bool_decide (x_id x = bb_executionId b))) PlainError.

Definition create_execution_for (taskId : string) (rq : TaskExecutionCreateRequest) : io unit :=
  match br_createTaskExecutionAck with
  | Some ack => ack taskId rq ;+ aret tt
  | None => br_createTaskExecution taskId rq ;+ aret tt
  end.

(** [itemKey] and [runtimeScope] are left out when they are empty. *)
Definition execution_request (b : BullMQTaskBinding) (externalId : option string) : TaskExecutionCreateRequest := {|
  rx_id := bb_executionId b; rx_itemKey := truthy (bb_itemKey b); rx_runtime := "bullmq";
  rx_runtimeScope := scope_option; rx_externalId := externalId;
|}.

Definition reserve (b : BullMQTaskBinding) : io string :=
  let+ taskId := atry (let+ s := br_getTaskSummary (rq_id (bb_task b)) in aret (s_id (sm_task s)))
    (λ e, if hasCode e "RHINOQ_TASK_NOT_FOUND" then let+ s := br_createTask (bb_task b) in aret (s_id s)
          else athrow e) in
  let+ existing := find (bb_jobId b) in
  match existing with
  | Some x => assertExistingBinding x b taskId ;+ aret taskId
  | None =>
      atry (create_execution_for taskId (execution_request b (Some (bb_jobId b))) ;+ aret taskId)
        (λ e, let+ raced := find (bb_jobId b) in
              match raced with
              | None => athrow e
              | Some x => assertExistingBinding x b taskId ;+ aret taskId
              end)
  end.

(** The compatibility path for a job the application already added. *)
Definition track (b : BullMQTaskBinding) : io snapshot :=
  athrow_if (match bb_itemKey b with Some k => js_blank k | None => false end) TypeError ;+
  let+ task := atry (cl_getTask (rq_id (bb_task b)))
    (λ e, if hasCode e "RHINOQ_TASK_NOT_FOUND" then br_createTask (bb_task b) else athrow e) in
  let+ existing := find (bb_jobId b) in
  match existing with
  | Some x => assertExistingBinding x b (s_id task) ;+ ensureTask (s_id task) Queued
  | None =>
      athrow_if (bool_decide (bb_itemKey b = None)
                 && existsb (λ x, bool_decide (es_itemKey x = "default")) (s_executions task)) TypeError ;+
      let+ taskId := atry (
          create_execution_for (s_id task) (execution_request b None) ;+
          let+ bound := br_bindTaskExecution (bb_executionId b) {|
            bd_runtime := "bullmq"; bd_runtimeScope := scope_option; bd_externalId := Some (bb_jobId b);
            bd_jobId := None |} in
          aret (s_id bound))
        (λ e, let+ raced := find (bb_jobId b) in
              match raced with
              | None => athrow e
              | Some x => assertExistingBinding x b (s_id task) ;+ aret (s_id task)
              end) in
      ensureTask taskId Queued
  end.

(** ** Dispatch

    [Queue.add] is the application's queue: it may fail, and the bridge sees only
    whether it did. The jobs it was called with are recorded with the store at
    the time of the call. *)

Record bridge_world := BridgeWorld { bw_world : world; bw_added : list (BullMQTaskBinding * db) }.

Definition bio (A : Type) : Type := act bridge_world js_error A.

Definition in_bridge {A} (m : io A) : bio A := λ b,
  let (r, w) := m (bw_world b) in (r, BridgeWorld w (bw_added b)).

Context (queue_add : option (BullMQTaskBinding → nat → result js_error unit)).

(** The [n]-th call of [Queue.add]. *)
Definition add_job (add : BullMQTaskBinding → nat → result js_error unit) (b : BullMQTaskBinding) : bio unit := λ bw,
  (add b (length (bw_added bw)), BridgeWorld (bw_world bw) (bw_added bw ++ [(b, w_db (bw_world bw))])).

Definition assertDispatchReady : bio (BullMQTaskBinding → nat → result js_error unit) :=
  match queue_add with
  | None => athrow TypeError
  | Some add => athrow_if (isEmpty (runtimeScope opts)) TypeError ;+ aret add
  end.

Fixpoint colons (s : string) : nat :=
  match s with
  | EmptyString => 0
  | String a rest => (if Ascii.eqb a ":" then 1 else 0) + colons rest
  end.

(** [jobId.includes(':') && jobId.split(':').length !== 3] *)
Definition refused_job_id (jobId : string) : bool :=
  (0 <? colons jobId)%nat && negb (colons jobId + 1 =? 3)%nat.

Definition assertDispatchableJobIds (bs : list BullMQTaskBinding) : bio unit :=
  athrow_if (existsb (λ b, refused_job_id (bb_jobId b)) bs) TypeError.

Definition bound_here (x : execution) (b : BullMQTaskBinding) : bool :=
  negb (bool_decide (x_state x = EPendingDispatch)) && bool_decide (x_runtime x = "bullmq")
  && bool_decide (default "" (x_runtimeScope x) = runtimeScope opts)
  && bool_decide (x_externalId x = Some (bb_jobId b)).

Definition bind_dispatched (b : BullMQTaskBinding) : io unit :=
  let binding := {| bd_runtime := "bullmq"; bd_runtimeScope := Some (runtimeScope opts);
                    bd_externalId := Some (bb_jobId b); bd_jobId := None |} in
  match br_bindTaskExecutionAck with
  | Some ack => ack (bb_executionId b) binding ;+ aret tt
  | None => br_bindTaskExecution (bb_executionId b) binding ;+ aret tt
  end.

(** The operation from [await] to [await]: read, add, bind, and read again when
    the bind was refused. *)
Definition dispatchReserved (add : BullMQTaskBinding → nat → result js_error unit) (b : BullMQTaskBinding)
    : turns (W:=bridge_world) (E:=js_error) :=
  turn_call (in_bridge (cl_getTaskExecution (bb_executionId b))) (λ x,
    if negb (bool_decide (x_state x = EPendingDispatch)) then Settled (Ok tt) else
    turn_call (add_job add b) (λ _,
      turn_catch (in_bridge (bind_dispatched b)) (λ e,
        turn_call (in_bridge (cl_getTaskExecution (bb_executionId b))) (λ latest,
          Settled (if bound_here latest b then Ok tt else Err e))))).

Definition dispatch (b : BullMQTaskBinding) : bio snapshot :=
  let+ add := assertDispatchReady in
  assertDispatchableJobIds [b] ;+
  let+ taskId := in_bridge (reserve b) in
  finish (dispatchReserved add b) ;+
  in_bridge (ensureTask taskId Queued).

(** ** Fan-out *)

Definition consistent_with (first b : BullMQTaskBinding) : bool :=
  bool_decide (rq_type (bb_task b) = rq_type (bb_task first))
  && bool_decide (rq_ownerId (bb_task b) = rq_ownerId (bb_task first))
  && bool_decide (rq_definitionVersion (bb_task b) = rq_definitionVersion (bb_task first)).

(** The loop of [assertConsistentBatch] with its three sets. *)
Fixpoint consistent_batch (first : BullMQTaskBinding) (executionIds jobIds itemKeys : list string)
    (bs : list BullMQTaskBinding) : bool :=
  match bs with
  | [] => true
  | b :: rest =>
      let itemKey := js_trim (default "" (bb_itemKey b)) in
      consistent_with first b && negb (bool_decide (bb_executionId b ∈ executionIds))
      && negb (bool_decide (bb_jobId b ∈ jobIds)) && negb (isEmpty itemKey)
      && negb (bool_decide (itemKey ∈ itemKeys))
      && consistent_batch first (bb_executionId b :: executionIds) (bb_jobId b :: jobIds) (itemKey :: itemKeys) rest
  end.

Definition reserve_turns (b : BullMQTaskBinding) : turns (W:=bridge_world) (E:=js_error) :=
  turn_call (in_bridge (reserve b)) (λ _, Settled (Ok tt)).

(** The three schedules say in which order the workers of the reservation, of the
    enqueue, and of a detached enqueue after the call returned take their turns.
    A reservation is one turn: it shares only the store with its siblings, and
    other processes run before each of its statements in any case. *)
Definition dispatchMany (awaitEnqueue : bool) (reserving enqueuing later : list nat) (bs : list BullMQTaskBinding)
    : bio snapshot :=
  let+ add := assertDispatchReady in
  match bs with
  | [] => athrow RangeError
  | first :: rest =>
      let taskId := rq_id (bb_task first) in
      athrow_if (isEmpty taskId || existsb (λ b, negb (bool_decide (rq_id (bb_task b) = taskId))) bs) TypeError ;+
      assertDispatchableJobIds bs ;+
      athrow_if (negb (consistent_batch first [] [] [] bs)) TypeError ;+
      in_bridge (reserve first) ;+
      mapBounded rest reserve_turns OutOfFuel reserving (dispatchConcurrency opts) ;+
      if awaitEnqueue then
        mapBounded bs (dispatchReserved add) OutOfFuel enqueuing (dispatchConcurrency opts) ;+
        in_bridge (ensureTask taskId Queued)
      else λ bw,
        let (st, bw1) := go bs enqueuing (begin_work bs (dispatchReserved add) (dispatchConcurrency opts)) bw in
        let (r, bw2) := in_bridge (ensureTask taskId Queued) bw1 in
        let (_, bw3) := go bs later st bw2 in (r, bw3)
  end.

(** ** The listener

    The events of one job are projected one after the other; a failed projection
    is written to the sink and reported, and the next event is still projected. *)

Context (sink : option (failure BullMQEvent → io unit)) (message : js_error → string).

Definition error_code (e : js_error) : option string :=
  match e with RhinoQError code _ _ => Some code | _ => None end.

Definition recordProjectionFailure (name : QueueEvent) (event : BullMQEvent) (e : js_error) : io unit :=
  match sink with
  | None => aret tt
  | Some write => λ w,
      write (Failure (Identity "bullmq" (runtimeScope opts) (be_jobId event) (queue_event_name name)) event
        (message e) (error_code e) (w_now w) 1) w
  end.

(** The errors handed to [onError], in order. *)
Definition project1 (name : QueueEvent) (event : BullMQEvent) : io (list js_error) := λ w,
  match project name event w with
  | (Ok _, w1) => (Ok [], w1)
  | (Err e, w1) =>
      match recordProjectionFailure name event e w1 with
      | (Ok _, w2) => (Ok [e], w2)
      | (Err e', w2) => (Ok [e'; e], w2)
      end
  end.

Fixpoint run (events : list (QueueEvent * BullMQEvent)) : io (list js_error) :=
  match events with
  | [] => aret []
  | (name, event) :: rest =>
      let+ reported := project1 name event in
      let+ later := run rest in
      aret (reported ++ later)
  end.
End bridge.
