(* ===== verification/BridgeFacts.v ===== *)
(** * What the BullMQ bridge promises

    A job enters the queue only after its Execution is stored, and never again
    once that Execution has left [pending_dispatch]; the events of the queue move
    the attempt they belong to, open the attempts the runtime retried, and in a
    fan-out leave the Task to the application. *)

From stdpp Require Import base gmap strings list fin_maps sorting relations pretty.
From Stdlib Require Import Ascii ZArith Lia.
From S2P Require Import Prelude TaskModel TaskCommands ExecutionCommands StoreSteps StoreInvariant StoreSafety TaskClient ClientFacts RuntimeContracts Projector ProjectorFacts ProjectionFailures BoundedPool TaskBridge.

Open Scope act_scope.

(** ** The store only moves forward

    [forward m]: whatever other processes do meanwhile, the store after [m] is
    reached from the store before it by steps of the store. *)

Definition forward {A} (m : io A) : Prop := ∀ w, linked (w_db w) → rtc any_step (w_db w) (w_db (m w).2).

Lemma forward_ret {A} (a : A) : forward (aret a).
Proof. intros w _. apply rtc_refl. Qed.

Lemma forward_throw {A} e : forward (athrow (A:=A) e).
Proof. intros w _. apply rtc_refl. Qed.

Lemma forward_throw_if b e : forward (athrow_if b e).
Proof. destruct b; [apply forward_throw|apply forward_ret]. Qed.

Lemma forward_bind {A B} (m : io A) (f : A → io B) : forward m → (∀ a, forward (f a)) → forward (abind m f).
Proof.
  intros Hm Hf w Hl. unfold abind. pose proof (Hm w Hl) as H1. destruct (m w) as [[a|e] w1]; [|done].
  etrans; [exact H1|]. apply Hf. by eapply any_steps_linked.
Qed.

Lemma forward_try {A} (m : io A) h : forward m → (∀ e, forward (h e)) → forward (atry m h).
Proof.
  intros Hm Hh w Hl. unfold atry. pose proof (Hm w Hl) as H1. destruct (m w) as [[a|e] w1]; [done|].
  etrans; [exact H1|]. apply Hh. by eapply any_steps_linked.
Qed.

Lemma forward_query {A} (f : db → A) : forward (query f).
Proof. intros w Hl. by apply interfere_steps. Qed.

Lemma execute_steps c cmd w : linked (w_db w) → rtc any_step (w_db w) (w_db (execute c cmd w).2).
Proof.
  intros Hl. pose proof (interfere_steps w Hl) as H1. unfold execute.
  destruct (run_command _ _ _ _) as [[a d']|e] eqn:E; [|done]. etrans; [exact H1|].
  eapply steps_any, run_command_steps; [|exact E]. by eapply any_steps_linked.
Qed.

Lemma forward_execute c cmd : forward (execute c cmd).
Proof. intros w. apply execute_steps. Qed.

Lemma forward_converge {A} (m : io A) : forward m → forward (TaskBridge.converge m).
Proof.
  intros Hm. unfold TaskBridge.converge. generalize OutOfFuel.
  induction MAX_VERSION_CONVERGENCE_ATTEMPTS as [|n IH]; intros e0; [apply forward_throw|].
  cbn. apply forward_try; [done|]. intros e. destruct (hasCode _ _); [apply IH|apply forward_throw].
Qed.

Create HintDb forward.
#[export] Hint Resolve forward_ret forward_throw forward_throw_if forward_query forward_execute : forward.

Ltac forward_step :=
  lazymatch goal with
  | |- ∀ _, _ => intro
  | |- forward (abind _ _) => apply forward_bind
  | |- forward (atry _ _) => apply forward_try
  | |- forward (TaskBridge.converge _) => apply forward_converge
  | |- forward (if ?b then _ else _) => destruct b
  | |- forward (match ?o with _ => _ end) => destruct o
  | |- forward _ => solve [auto with forward]
  end.
Ltac forward_walk := repeat forward_step.

Lemma forward_linked {A} (m : io A) w : forward m → linked (w_db w) → linked (w_db (m w).2).
Proof. intros Hm Hl. eapply any_steps_linked; [by apply Hm|done]. Qed.

(** ** The embedded client moves forward *)

Section forward_client.
Context (c : session).

Lemma forward_getTask k : forward (getTask c k).
Proof. unfold getTask, readTask. forward_walk. Qed.

Lemma forward_getTaskExecution i : forward (getTaskExecution c i).
Proof. unfold getTaskExecution. forward_walk. Qed.

Lemma forward_lookup r e s : forward (lookupTaskExecution c r e s).
Proof. unfold lookupTaskExecution. forward_walk. Qed.
#[local] Hint Resolve forward_getTask forward_getTaskExecution forward_lookup : forward.

Lemma forward_createTask rq : forward (createTask c rq).
Proof. unfold createTask. forward_walk. Qed.

Lemma forward_summary k o t : forward (readTaskSummary c k o t).
Proof. unfold readTaskSummary. forward_walk. Qed.

Lemma forward_createAck k rq : forward (createTaskExecutionAck c k rq).
Proof. unfold createTaskExecutionAck. forward_walk. Qed.

Lemma forward_bindAck i bd : forward (bindTaskExecutionAck c i bd).
Proof. unfold bindTaskExecutionAck. forward_walk. Qed.

Lemma forward_transitionTask k v s : forward (transitionTask c k v s).
Proof. unfold transitionTask, validateVersion. cbv zeta. forward_walk. Qed.
End forward_client.
#[export] Hint Resolve forward_getTask forward_getTaskExecution forward_lookup forward_createTask forward_summary forward_createAck forward_bindAck forward_transitionTask : forward.

(** ** Rows that stay *)

(** The Execution [i] is stored. *)
Definition stored (i : string) (d : db) : Prop := is_Some (db_executions d !! i).

(** ... and is past [pending_dispatch]. *)
Definition past_dispatch (i : string) (d : db) : Prop :=
  ∃ e, db_executions d !! i = Some e ∧ e_state e ≠ EPendingDispatch.

Lemma stored_stays i d d' : linked d → rtc any_step d d' → stored i d → stored i d'.
Proof.
  intros Hl Hd [e He]. assert (Reflexive (λ _ _ : exec_row, True)) by done.
  assert (Transitive (λ _ _ : exec_row, True)) by done.
  destruct (history_exec_rel (λ _ _, True) (λ _ _ _ _ _, I) d d' i e Hl Hd He) as (e' & He' & _). by exists e'.
Qed.

(** An attempt does not become pending again. *)
Definition leaves_pending (e e' : exec_row) : Prop := e_state e ≠ EPendingDispatch → e_state e' ≠ EPendingDispatch.
#[local] Instance leaves_pending_refl : Reflexive leaves_pending.
Proof. intros e H. exact H. Qed.
#[local] Instance leaves_pending_trans : Transitive leaves_pending.
Proof. unfold leaves_pending. intros x y z. auto. Qed.

Lemma write_leaves_pending now d e e' :
  exec_write now d e e' → leaves_pending e e'.
Proof. unfold leaves_pending. intros [s r He| | | |]; cbn; try done. intros _ ->. by destruct (e_state e), (is_bound e). Qed.

Lemma past_dispatch_stays i d d' : linked d → rtc any_step d d' → past_dispatch i d → past_dispatch i d'.
Proof.
  intros Hl Hd (e & He & Hs).
  destruct (history_exec_rel leaves_pending write_leaves_pending d d' i e Hl Hd He) as (e' & He' & Hr).
  exists e'. auto.
Qed.

Lemma create_execution_stored c now i k item rt sc ext d r d' :
  create_execution c now i k item rt sc ext d = Ok (r, d') → stored i d'.
Proof.
  unfold create_execution. intros H. cmd_inv.
  match goal with H : next_attempt _ _ _ _ = Ok _ |- _ => apply next_attempt_ok in H as (-> & ? & ->) end.
  match goal with H : insert_execution _ _ _ _ = Ok _ |- _ =>
    apply insert_execution_step in H as [_ (tenant & _ & _ & Hex)]; [|done|] end.
  - unfold stored. rewrite Hex. cbn [e_id]. rewrite lookup_insert_eq. eauto.
  - intros tenant. to_prop. repeat split; auto.
Qed.

Section dispatch.
Context (c : session) (opts : BullMQTaskBridgeOptions).
#[local] Existing Instance PostgresBridgeClient.
#[local] Existing Instance PostgresTaskClient.
Let client := PostgresBridgeClient c.

Lemma forward_find j : forward (TaskBridge.find (client:=client) opts j).
Proof. unfold TaskBridge.find. cbn [cl_lookupTaskExecution br_tasks client PostgresBridgeClient PostgresTaskClient]. forward_walk. Qed.
#[local] Hint Resolve forward_find : forward.

Lemma forward_assert x b k : forward (assertExistingBinding x b k).
Proof. unfold assertExistingBinding. forward_walk. Qed.
#[local] Hint Resolve forward_assert : forward.

Lemma forward_reserve b : forward (reserve (client:=client) opts b).
Proof.
  unfold reserve, create_execution_for.
  cbn [br_getTaskSummary br_createTask br_createTaskExecutionAck client PostgresBridgeClient]. forward_walk.
Qed.

Lemma forward_bind_dispatched b : forward (bind_dispatched (client:=client) opts b).
Proof.
  unfold bind_dispatched. cbv zeta. cbn [br_bindTaskExecutionAck cl_getTaskExecution br_tasks client PostgresBridgeClient PostgresTaskClient].
  forward_walk.
Qed.

Lemma forward_ensureTask k s : forward (TaskBridge.ensureTask (client:=client) k s).
Proof.
  unfold TaskBridge.ensureTask. cbn [cl_getTask cl_transitionTask br_tasks client PostgresBridgeClient PostgresTaskClient].
  forward_walk.
Qed.
#[local] Hint Resolve forward_reserve forward_bind_dispatched forward_ensureTask : forward.

(** ** What a successful reservation means *)

Lemma lookup_stored rt ext sc w x w' :
  linked (w_db w) → lookupTaskExecution c rt ext sc w = (Ok x, w') → stored (x_id x) (w_db w').
Proof.
  intros Hl H. pose proof (interfere_steps w Hl) as Hi. unfold lookupTaskExecution, abind, query in H.
  destruct (map_rows _ _) as [|e l] eqn:E; [done|]. injection H as <- <-.
  assert (e ∈ map_rows (matches_ref rt ext sc) (visible_executions c (w_db (interfere w)))) as Hin
    by (rewrite E; apply list_elem_of_here).
  apply map_rows_spec in Hin as [_ [k Hk]]. apply visible_executions_lookup in Hk as [Hk _].
  exists e. cbn. by rewrite (linked_exec _ (any_steps_linked _ _ Hi Hl) _ _ Hk).
Qed.

Lemma find_stored j w x w' :
  linked (w_db w) → TaskBridge.find (client:=client) opts j w = (Ok (Some x), w') → stored (x_id x) (w_db w').
Proof.
  intros Hl H. unfold TaskBridge.find, atry, abind in H. cbn [cl_lookupTaskExecution br_tasks client PostgresBridgeClient PostgresTaskClient] in H.
  destruct (lookupTaskExecution _ _ _ _ w) as [[y|e] w1] eqn:E.
  - injection H as <- <-. by eapply lookup_stored.
  - by destruct (hasCode e _).
Qed.

Lemma assert_ok x b k w u w' :
  assertExistingBinding x b k w = (Ok u, w') → w' = w ∧ x_id x = bb_executionId b.
Proof.
  unfold assertExistingBinding, abind, athrow_if.
  destruct (bool_decide (x_taskId x = k)); [|done]. destruct (bool_decide (x_id x = bb_executionId b)) eqn:E; [|done].
  cbn. intros [= _ <-]. by to_prop.
Qed.

Lemma create_for_stored k b ext w u w' :
  create_execution_for (client:=client) k (execution_request opts b ext) w = (Ok u, w') →
  stored (bb_executionId b) (w_db w').
Proof.
  unfold create_execution_for. cbn [br_createTaskExecutionAck client PostgresBridgeClient].
  unfold createTaskExecutionAck, abind, athrow_if. destruct (_ || _ || _)%bool; [done|]. unfold aret at 1.
  unfold execute. destruct (run_command _ _ _ _) as [[a d']|e] eqn:E; [|done]. intros [= _ <-]. cbn [w_db].
  cbn in E. apply number_ok in E as (z & _ & E). by eapply create_execution_stored.
Qed.

Lemma reserve_stored b w k w' :
  linked (w_db w) → reserve (client:=client) opts b w = (Ok k, w') → stored (bb_executionId b) (w_db w').
Proof.
  intros Hl H. unfold reserve in H. unfold abind at 1 in H.
  match type of H with context [match ?m w with _ => _ end] => set (m0 := m) in H end.
  assert (linked (w_db (m0 w).2)) as Hl1.
  { apply forward_linked; [|done]. unfold m0.
    cbn [br_getTaskSummary br_createTask client PostgresBridgeClient]. forward_walk. }
  destruct (m0 w) as [[k1|e] w1]; [|done]. unfold abind at 1 in H.
  pose proof (forward_linked _ w1 (forward_find (bb_jobId b)) Hl1) as Hl2.
  destruct (TaskBridge.find opts (bb_jobId b) w1) as [[[x|]|e] w2] eqn:Ef; try done; cbn [snd] in Hl1, Hl2.
  - unfold abind in H. destruct (assertExistingBinding x b k1 w2) as [[u|e] w3] eqn:Ea; [|done].
    injection H as <- <-. apply assert_ok in Ea as [-> <-]. exact (find_stored _ _ _ _ Hl1 Ef).
  - unfold atry, abind in H.
    destruct (create_execution_for k1 _ w2) as [[u|e] w3] eqn:Ec.
    { injection H as <- <-. exact (create_for_stored _ _ _ _ _ _ Ec). }
    assert (linked (w_db w3)) as Hl3.
    { change w3 with (snd (Err (A:=unit) e, w3)). rewrite <-Ec. apply forward_linked; [|done].
      unfold create_execution_for. cbn [br_createTaskExecutionAck client PostgresBridgeClient]. forward_walk. }
    destruct (TaskBridge.find opts (bb_jobId b) w3) as [[[x|]|e'] w4] eqn:Ef2; try done.
    destruct (assertExistingBinding x b k1 w4) as [[u|e'] w5] eqn:Ea; [|done].
    injection H as <- <-. apply assert_ok in Ea as [-> <-]. exact (find_stored _ _ _ _ Hl3 Ef2).
Qed.

(** ** What reaches the queue *)

Notation bdb bw := (w_db (bw_world bw)).

(** [m] keeps the stable [I] of the store, and every job it adds satisfies [Q]. *)
Definition adds (I : db → Prop) (Q : BullMQTaskBinding * db → Prop) {A} (m : bio A) : Prop := ∀ bw,
  linked (bdb bw) → I (bdb bw) →
  linked (bdb (m bw).2) ∧ I (bdb (m bw).2) ∧ ∃ new, bw_added (m bw).2 = bw_added bw ++ new ∧ Forall Q new.

Section adds.
Context (I : db → Prop) (Q : BullMQTaskBinding * db → Prop).
Context (I_stays : ∀ d d', linked d → rtc any_step d d' → I d → I d').

Lemma adds_nothing {A} (r : result js_error A) : adds I Q (λ bw, (r, bw)).
Proof. intros bw Hl HI. split_and!; [done..|]. exists []. by rewrite app_nil_r. Qed.

Lemma adds_bind {A B} (m : bio A) (f : A → bio B) : adds I Q m → (∀ a, adds I Q (f a)) → adds I Q (abind m f).
Proof.
  intros Hm Hf bw Hl HI. unfold abind. destruct (Hm bw Hl HI) as (Hl1 & HI1 & new & Hn & HQ).
  destruct (m bw) as [[a|e] bw1]; cbn [snd] in *; [|eauto 10].
  destruct (Hf a bw1 Hl1 HI1) as (Hl2 & HI2 & new2 & Hn2 & HQ2). split_and!; [done..|].
  exists (new ++ new2). by rewrite Hn2, Hn, app_assoc, Forall_app.
Qed.

Lemma adds_in_bridge {A} (m : io A) : forward m → adds I Q (in_bridge m).
Proof.
  intros Hm bw Hl HI. unfold in_bridge. pose proof (Hm (bw_world bw) Hl) as Hs.
  destruct (m (bw_world bw)) as [r w']. cbn [snd bw_world bw_added] in *.
  split_and!; [by eapply any_steps_linked|by eapply I_stays|]. exists []. by rewrite app_nil_r.
Qed.

Lemma getTaskExecution_reads i w x w' :
  getTaskExecution c i w = (Ok x, w') → ∃ e, db_executions (w_db w') !! i = Some e ∧ x_state x = e_state e.
Proof.
  unfold getTaskExecution, abind, query. destruct (visible_executions _ _ !! i) as [e|] eqn:E; [|done].
  intros [= <- <-]. apply visible_executions_lookup in E as [E _]. eauto.
Qed.

(** What holds between two turns of a call that found [added] in the queue. *)
Definition queue_inv (added : list (BullMQTaskBinding * db)) (bw : bridge_world) : Prop :=
  linked (bdb bw) ∧ I (bdb bw) ∧ ∃ new, bw_added bw = added ++ new ∧ Forall Q new.

Lemma adds_inv {A} (m : bio A) added bw : adds I Q m → queue_inv added bw → queue_inv added (m bw).2.
Proof.
  intros Hm (Hl & HI & new & Hn & HQ). destruct (Hm bw Hl HI) as (Hl' & HI' & new' & Hn' & HQ').
  split_and!; [done..|]. exists (new ++ new'). by rewrite Hn', Hn, app_assoc, Forall_app.
Qed.

Lemma inv_adds {A} (m : bio A) : (∀ added bw, queue_inv added bw → queue_inv added (m bw).2) → adds I Q m.
Proof. intros Hm bw Hl HI. apply (Hm (bw_added bw)). split_and!; [done..|]. exists []. by rewrite app_nil_r. Qed.

Lemma adds_keep {A B} (bs : list B) (m : bio A) added s r s' :
  adds I Q m → queue_inv added s → m s = (r, s') → kept bs (queue_inv added) (λ _ _, True) s s'.
Proof. intros Hm HI E. split; [|done]. replace s' with (m s).2 by (by rewrite E). by apply adds_inv. Qed.

(** [dispatchReserved] adds its job only when that is safe, or not at all when
    the attempt has left [pending_dispatch]. *)
Lemma obeys_reserved bs add added b :
  (∀ d, I d → past_dispatch (bb_executionId b) d) ∨ (∀ d, I d → Q (b, d)) →
  obeys bs (queue_inv added) (λ _ _, True) b (dispatchReserved (client:=client) opts add b).
Proof.
  intros HQ. unfold dispatchReserved. change (cl_getTaskExecution ?i) with (getTaskExecution c i).
  pose proof (adds_in_bridge _ (forward_getTaskExecution c (bb_executionId b))) as Hget.
  apply obeys_turn_call. intros bw r bw1 HI E. split; [by eapply adds_keep|]. destruct r as [x|e]; [|done].
  destruct (bool_decide (x_state x = EPendingDispatch)) eqn:Hb; cbn [negb]; [|done]. to_prop.
  assert (∀ d, I d → Q (b, d)) as HQb.
  { destruct HQ as [Hpast|]; [exfalso|done]. assert (queue_inv added bw1) as (_ & HI1 & _) by (eapply (adds_keep bs); eauto).
    destruct (Hpast _ HI1) as (e' & He' & Hne). unfold in_bridge in E.
    destruct (getTaskExecution _ _ _) as [r1 w1] eqn:Eg. injection E as -> <-.
    apply getTaskExecution_reads in Eg as (e & He & Hx). cbn in He'. rewrite He in He'. injection He' as <-. congruence. }
  apply obeys_turn_call. intros s r s' (Hl & HId & new & Hn & HF) Eadd. unfold add_job in Eadd. injection Eadd as <- <-. split.
  { split; [|done]. split_and!; [done..|]. exists (new ++ [(b, bdb s)]). cbn. rewrite Hn, app_assoc. split; [done|].
    apply Forall_app. split; [done|]. constructor; [by apply HQb|done]. }
  destruct (add b _); [|done]. apply obeys_turn_catch. intros s1 r1 s2 HI2 E2.
  split; [by eapply adds_keep; [apply adds_in_bridge, forward_bind_dispatched|..]|]. destruct r1 as [u1|e1]; [done|].
  apply obeys_turn_call. intros s3 r3 s4 HI3 E3. split; [by eapply adds_keep|]. destruct r3 as [y|e3]; [|done].
  by destruct (bound_here opts y b).
Qed.

Lemma adds_reserved add b :
  (∀ d, I d → past_dispatch (bb_executionId b) d) ∨ (∀ d, I d → Q (b, d)) →
  adds I Q (finish (dispatchReserved (client:=client) opts add b)).
Proof. intros HQ. apply inv_adds. intros added bw. apply (finish_obeys [b] (queue_inv added) (λ _ _, True) b). by apply obeys_reserved. Qed.

(** Any schedule of the pool over a batch. *)
Lemma adds_enqueue add bs schedule n :
  (∀ b, b ∈ bs → (∀ d, I d → past_dispatch (bb_executionId b) d) ∨ (∀ d, I d → Q (b, d))) →
  adds I Q (mapBounded bs (dispatchReserved (client:=client) opts add) OutOfFuel schedule n).
Proof.
  intros HQ. apply inv_adds. intros added bw HI.
  destruct (mapBounded bs _ OutOfFuel schedule n bw) as [r bw'] eqn:E.
  eapply (mapBounded_obeys bs _ OutOfFuel (queue_inv added) (λ _ _, True)); [exact HI| |exact E].
  intros b Hb. by apply obeys_reserved, HQ.
Qed.

(** The same when the call returns before its enqueue has ended. *)
Lemma adds_detached {A} add bs enqueuing later n (m : bio A) :
  (∀ b, b ∈ bs → (∀ d, I d → past_dispatch (bb_executionId b) d) ∨ (∀ d, I d → Q (b, d))) → adds I Q m →
  adds I Q (λ bw,
    let (st, bw1) := go bs enqueuing (begin_work bs (dispatchReserved (client:=client) opts add) n) bw in
    let (r, bw2) := m bw1 in let (_, bw3) := go bs later st bw2 in (r, bw3)).
Proof.
  intros HQ Hm. apply inv_adds. intros added bw HI.
  pose proof (work_ok_go bs (queue_inv added) (λ _ _, True) n enqueuing _ bw (begin_work_ok bs
    (dispatchReserved (client:=client) opts add) (queue_inv added) (λ _ _, True) n bw HI (λ b Hb, obeys_reserved bs add added b (HQ b Hb)))) as Hok.
  destruct (go bs enqueuing _ bw) as [st bw1]. pose proof (adds_inv m added bw1 Hm (wo_inv _ _ _ _ _ _ Hok)) as HI2.
  destruct (m bw1) as [r bw2]. cbn [snd] in HI2.
  assert (work_ok bs (queue_inv added) (λ _ _, True) n st bw2) as Hok2 by (by destruct Hok).
  pose proof (work_ok_go bs _ _ n later _ _ Hok2) as Hok3. destruct (go bs later st bw2) as [st' bw3].
  apply (wo_inv _ _ _ _ _ _ Hok3).
Qed.

Lemma adds_ret {A} (a : A) : adds I Q (aret a).
Proof. apply (adds_nothing (Ok a)). Qed.

Lemma adds_throw_if b e : adds I Q (athrow_if b e).
Proof. destruct b; [apply (adds_nothing (Err e))|apply (adds_nothing (Ok tt))]. Qed.

Lemma adds_ready q : adds I Q (assertDispatchReady opts q).
Proof.
  unfold assertDispatchReady. destruct q as [add|]; [|apply (adds_nothing (Err TypeError))].
  apply adds_bind; [apply adds_throw_if|]. intros _. apply adds_ret.
Qed.

Lemma adds_dispatch q b :
  (∀ d, I d → past_dispatch (bb_executionId b) d) ∨ (∀ d, I d → Q (b, d)) → adds I Q (dispatch (client:=client) opts q b).
Proof.
  intros HQ. unfold dispatch. apply adds_bind; [apply adds_ready|]. intros add.
  apply adds_bind; [apply adds_throw_if|]. intros _.
  apply adds_bind; [apply adds_in_bridge, forward_reserve|]. intros k.
  apply adds_bind; [by apply adds_reserved|]. intros _. apply adds_in_bridge, forward_ensureTask.
Qed.
End adds.

Lemma all_stored_stays (bs : list BullMQTaskBinding) d d' :
  linked d → rtc any_step d d' → Forall (λ b, stored (bb_executionId b) d) bs →
  Forall (λ b, stored (bb_executionId b) d') bs.
Proof. intros Hl Hd H. eapply Forall_impl; [exact H|]. intros b. by apply stored_stays. Qed.

(** Between two turns of the reservations of a call. *)
Definition reserving_inv (bw0 bw : bridge_world) : Prop :=
  linked (bdb bw) ∧ rtc any_step (bdb bw0) (bdb bw) ∧ bw_added bw = bw_added bw0.

Lemma reserve_keeps bw0 b bw r bw' :
  reserving_inv bw0 bw → in_bridge (reserve (client:=client) opts b) bw = (r, bw') →
  reserving_inv bw0 bw' ∧ (is_ok r = true → stored (bb_executionId b) (bdb bw')) ∧
  ∀ i, stored i (bdb bw) → stored i (bdb bw').
Proof.
  intros (Hl & Hs & Ha) H. unfold in_bridge in H. pose proof (forward_reserve b (bw_world bw) Hl) as Hs1.
  destruct (reserve opts b (bw_world bw)) as [r1 w1] eqn:E. injection H as -> <-. cbn [snd] in Hs1. split_and!; cbn.
  - split_and!; [by eapply any_steps_linked|by etrans|done].
  - destruct r as [k|e]; [|done]. intros _. by eapply reserve_stored.
  - intros i. by apply stored_stays.
Qed.

Lemma reserve_all bw0 bs schedule n r bw :
  linked (bdb bw0) → (0 < n)%nat →
  mapBounded bs (reserve_turns (client:=client) opts) OutOfFuel schedule n bw0 = (r, bw) →
  reserving_inv bw0 bw ∧ (r = Ok tt → ∀ b, b ∈ bs → stored (bb_executionId b) (bdb bw)).
Proof.
  intros Hl Hn E.
  assert (∀ b, b ∈ bs → obeys bs (reserving_inv bw0) (λ b bw, stored (bb_executionId b) (bdb bw)) b (reserve_turns (client:=client) opts b)) as Hop.
  { intros b _. apply obeys_turn_call. intros s r1 s' HI Er. destruct (reserve_keeps bw0 b s r1 s' HI Er) as (HI' & Hst & Hstay).
    split; [split; [done|intros; by apply Hstay]|]. destruct r1; [by apply Hst|done]. }
  destruct (mapBounded_obeys bs _ OutOfFuel (reserving_inv bw0) _ schedule n bw0 r bw (conj Hl (conj (rtc_refl _ _) eq_refl)) Hop E) as [HI HR].
  split; [done|]. intros ->. by apply HR.
Qed.

(** The part of [dispatchMany] after its checks and reservations. *)
Definition enqueue_all (awaitEnqueue : bool) add enqueuing later taskId bs : bio snapshot :=
  if awaitEnqueue then
    mapBounded bs (dispatchReserved (client:=client) opts add) OutOfFuel enqueuing (dispatchConcurrency opts) ;+
    in_bridge (TaskBridge.ensureTask (client:=client) taskId Queued)
  else λ bw,
    let (st, bw1) := go bs enqueuing (begin_work bs (dispatchReserved (client:=client) opts add) (dispatchConcurrency opts)) bw in
    let (r, bw2) := in_bridge (TaskBridge.ensureTask (client:=client) taskId Queued) bw1 in
    let (_, bw3) := go bs later st bw2 in (r, bw3).

(** A job of the batch, not dispatched before, added when the batch is stored. *)
Definition safe_add (bs : list BullMQTaskBinding) (gone : list string) (bd : BullMQTaskBinding * db) : Prop :=
  bd.1 ∈ bs ∧ bb_executionId bd.1 ∉ gone ∧ Forall (λ b, stored (bb_executionId b) bd.2) bs.

Lemma enqueue_all_adds awaited add enqueuing later taskId bs gone bw :
  linked (bdb bw) → Forall (λ b, stored (bb_executionId b) (bdb bw)) bs → Forall (λ i, past_dispatch i (bdb bw)) gone →
  ∃ new, bw_added (enqueue_all awaited add enqueuing later taskId bs bw).2 = bw_added bw ++ new ∧
    Forall (safe_add bs gone) new.
Proof.
  intros Hl Hst Hg. set (Inv d := Forall (λ b, stored (bb_executionId b) d) bs ∧ Forall (λ i, past_dispatch i d) gone).
  assert (∀ d d', linked d → rtc any_step d d' → Inv d → Inv d') as Hstay.
  { intros d d' Hld Hd [H1 H2]. split; [by eapply all_stored_stays|]. eapply Forall_impl; [exact H2|]. intros i.
    by apply past_dispatch_stays. }
  assert (∀ b, b ∈ bs → (∀ d, Inv d → past_dispatch (bb_executionId b) d) ∨ (∀ d, Inv d → safe_add bs gone (b, d))) as HQ.
  { intros b Hb. destruct (decide (bb_executionId b ∈ gone)) as [Hi|Hi]; [left|right].
    - intros d [_ H2]. rewrite Forall_forall in H2. by apply H2.
    - intros d [H1 _]. by split_and!. }
  assert (adds Inv (safe_add bs gone) (enqueue_all awaited add enqueuing later taskId bs)) as Hadds.
  { assert (adds Inv (safe_add bs gone) (in_bridge (TaskBridge.ensureTask (client:=client) taskId Queued))) as Hens
      by (apply adds_in_bridge; [done|apply forward_ensureTask]).
    unfold enqueue_all. destruct awaited; [|by apply adds_detached]. apply adds_bind; [by apply adds_enqueue|by intros _]. }
  by destruct (Hadds bw Hl (conj Hst Hg)) as (_ & _ & ?).
Qed.

Lemma fan_out_adds awaited add reserving enqueuing later taskId (gone : list string) first rest bw r bw' :
  let bs := first :: rest in
  let m := in_bridge (reserve (client:=client) opts first) ;+
           mapBounded rest (reserve_turns (client:=client) opts) OutOfFuel reserving (dispatchConcurrency opts) ;+
           enqueue_all awaited add enqueuing later taskId bs in
  (0 < dispatchConcurrency opts)%nat → linked (bdb bw) → Forall (λ i, past_dispatch i (bdb bw)) gone → m bw = (r, bw') →
  ∃ new, bw_added bw' = bw_added bw ++ new ∧ Forall (safe_add bs gone) new.
Proof.
  intros bs m Hn Hl Hg Er. replace bw' with (m bw).2 by (by rewrite Er). clear Er. unfold m, abind.
  assert (∀ bw1 : bridge_world, bw_added bw1 = bw_added bw → ∃ new, bw_added bw1 = bw_added bw ++ new ∧ Forall (safe_add bs gone) new)
    as Hnone by (intros bw1 ->; exists []; by rewrite app_nil_r).
  destruct (in_bridge (reserve opts first) bw) as [[k|e] bw1] eqn:E1;
    destruct (reserve_keeps bw first bw _ bw1 (conj Hl (conj (rtc_refl _ _) eq_refl)) E1) as ((Hl1 & Hs1 & Ha1) & Hst1 & _); [|by apply Hnone].
  destruct (mapBounded rest _ OutOfFuel reserving _ bw1) as [[[]|e] bw2] eqn:E2;
    destruct (reserve_all bw1 rest reserving _ _ bw2 Hl1 Hn E2) as ((Hl2 & Hs2 & Ha2) & Hst2); [|apply Hnone; cbn; congruence].
  rewrite <-Ha1, <-Ha2. apply enqueue_all_adds; [done| |].
  - constructor; [exact (stored_stays _ _ _ Hl1 Hs2 (Hst1 eq_refl))|]. apply Forall_forall. by apply Hst2.
  - eapply Forall_impl; [exact Hg|]. intros i. apply past_dispatch_stays; [done|by etrans].
Qed.
End dispatch.

Lemma guard_run {S E A} b (e : E) (f : unit → act S E A) s r s' :
  abind (athrow_if b e) f s = (r, s') → s' = s ∨ f tt s = (r, s').
Proof. unfold abind, athrow_if. destruct b; cbn; [intros [= _ <-]; by left|by right]. Qed.

Lemma aret_bind {S E A B} (a : A) (f : A → act S E B) s : abind (aret a) f s = f a s.
Proof. done. Qed.

Lemma abind_assoc {S E A B C} (m : act S E A) (f : A → act S E B) (g : B → act S E C) s :
  abind (abind m f) g s = abind m (λ a, abind (f a) g) s.
Proof. unfold abind. by destruct (m s) as [[a|e] s1]. Qed.

(** C12. Dispatch does not repeat work: once an Execution has left
    [pending_dispatch], no repetition of [dispatch] calls [Queue.add] for it,
    whatever other processes do meanwhile and however the call ends (a removed
    job could otherwise run twice). *)
Theorem dispatched_job_never_added_again : ∀ c opts q b bw r bw',
  linked (w_db (bw_world bw)) → past_dispatch (bb_executionId b) (w_db (bw_world bw)) →
  dispatch (client:=PostgresBridgeClient c) opts q b bw = (r, bw') → bw_added bw' = bw_added bw.
Proof.
  intros c opts q b bw r bw' Hl Hp H.
  destruct (adds_dispatch c opts (past_dispatch (bb_executionId b)) (λ _, False)) with q b bw as (_ & _ & new & Hn & HF).
  - intros d d' Hld Hd. by apply past_dispatch_stays.
  - by left.
  - done.
  - done.
  - rewrite H in Hn. cbn [snd] in Hn. destruct new as [|x new]; [by rewrite app_nil_r in Hn|].
    by apply Forall_cons in HF as [[] _].
Qed.

(** C11. A fan-out is durable before it is visible: whenever [dispatchMany] calls
    [Queue.add] - at any concurrency and in any order of its workers, whether the
    caller awaits the enqueue or not, for whatever reason it later fails and
    whatever other processes do meanwhile - the Execution of every item of the
    batch is already stored; the job is one of the batch, and not one whose
    Execution had left [pending_dispatch] when the call began. *)
Theorem fan_out_durable_before_first_job : ∀ c opts q awaited reserving enqueuing later bs gone bw r bw',
  (0 < dispatchConcurrency opts)%nat →
  linked (w_db (bw_world bw)) → Forall (λ i, past_dispatch i (w_db (bw_world bw))) gone →
  dispatchMany (client:=PostgresBridgeClient c) opts q awaited reserving enqueuing later bs bw = (r, bw') →
  ∃ new, bw_added bw' = bw_added bw ++ new ∧
    Forall (λ bd, bd.1 ∈ bs ∧ bb_executionId bd.1 ∉ gone ∧ Forall (λ b, stored (bb_executionId b) bd.2) bs) new.
Proof.
  intros c opts q awaited reserving enqueuing later bs gone bw r bw' Hc Hl Hg H.
  assert (∀ b1, b1 = bw' → b1 = bw → ∃ new, bw_added bw' = bw_added bw ++ new ∧ Forall (safe_add bs gone) new)
    as Hnone by (intros b1 <- ->; exists []; by rewrite app_nil_r).
  unfold dispatchMany, assertDispatchReady in H. destruct q as [add|]; [|injection H as _ <-; by apply (Hnone bw)].
  rewrite abind_assoc in H. apply guard_run in H as [->|H]; [by apply (Hnone bw)|]. rewrite aret_bind in H.
  destruct bs as [|first rest]; [injection H as _ <-; by apply (Hnone bw)|]. cbv zeta in H.
  do 3 (apply guard_run in H as [->|H]; [by apply (Hnone bw)|]).
  exact (fan_out_adds c opts awaited add reserving enqueuing later (rq_id (bb_task first)) gone first rest bw r bw' Hc Hl Hg H).
Qed.

(** The schedules are long enough when they hold one turn per reservation and
    four per enqueue: then no call ends for lack of turns. *)
Lemma reserve_within {client : BridgeClient} opts b : settles_within 1 (reserve_turns opts b).
Proof. intros s. by destruct (in_bridge _ s) as [[k|e] s']. Qed.

Lemma dispatch_within {client : BridgeClient} opts add b : settles_within 4 (dispatchReserved opts add b).
Proof.
  intros s. destruct (in_bridge _ s) as [[x|e] s1]; [|done]. destruct (negb _); [done|].
  intros s2. destruct (add_job add b s2) as [[u|e] s3]; [|done].
  intros s4. destruct (in_bridge _ s4) as [[u1|e] s5]; [done|].
  intros s6. destruct (in_bridge _ s6) as [[y|e1] s7]; done.
Qed.

Lemma enqueue_settles {client : BridgeClient} opts add bs schedule n bw :
  (4 * length bs ≤ length schedule)%nat →
  (mapBounded bs (dispatchReserved opts add) OutOfFuel schedule n bw).1
    = outcome (wk_pool (go bs schedule (begin_work bs (dispatchReserved opts add) n) bw).1).
Proof. intros H. apply (mapBounded_settles _ _ _ 4); [|done]. intros b _. apply dispatch_within. Qed.

(** ** A concrete bridge *)

Definition quiet_options (p : terminal_projection) : BullMQTaskBridgeOptions := {|
  runtimeScope := "q"; dispatchConcurrency := 2; terminalProjection := p; aggregateProgress := true; aggregateTerminal := AggregateManual;
  progress_of := defaultProgress; isTerminalFailure := None; runtimeAttempt := None;
  resultReference := λ _, aret None; failureReason := defaultFailureReason; cancelJob := None;
  terminalizeOnCancel := false; retryIgnored := false; retryExecutionId := defaultRetryExecutionId;
  onItemsSettled := None;
|}.

Definition batch_task : TaskCreateRequest :=
  {| rq_id := "batch"; rq_type := "import"; rq_tenantId := Some "acme"; rq_ownerId := None; rq_definitionVersion := None |}.
Definition batch_item (i : string) : BullMQTaskBinding := Binding batch_task ("x-" ++ i) (Some i) ("job-" ++ i).
Definition batch_world : bridge_world := BridgeWorld (World empty_db [] 0 []) [].

(** [Queue.add] fails the second time it is called. *)
Definition second_add_fails : BullMQTaskBinding → nat → result js_error unit :=
  λ _ n, if (n =? 1)%nat then Err PlainError else Ok tt.

(** Two workers; the turns of the enqueue alternate. *)
Definition two_workers : list nat := [0; 1; 1; 0; 0; 1; 1; 0; 0; 0; 0; 0]%nat.

Lemma fan_out_durable_before_first_job_witness :
  ∃ r bw' new, dispatchMany (client:=PostgresBridgeClient demo_session) (quiet_options ExecutionOnly) (Some second_add_fails)
      true [0; 0]%nat two_workers [] [batch_item "a"; batch_item "b"; batch_item "c"] batch_world = (r, bw') ∧ r = Err PlainError ∧
    bw_added bw' = new ∧ length new = 3%nat ∧
    Forall (λ bd, bd.1 ∈ [batch_item "a"; batch_item "b"; batch_item "c"] ∧ bb_executionId bd.1 ∉ [] ∧
      Forall (λ b, stored (bb_executionId b) bd.2) [batch_item "a"; batch_item "b"; batch_item "c"]) new.
Proof.
  assert (let (r, bw') := dispatchMany (client:=PostgresBridgeClient demo_session) (quiet_options ExecutionOnly)
    (Some second_add_fails) true [0; 0]%nat two_workers [] [batch_item "a"; batch_item "b"; batch_item "c"] batch_world in
    (r = Err PlainError ∧ length (bw_added bw') = 3%nat)) as Hv by (vm_compute; auto).
  destruct (dispatchMany (client:=PostgresBridgeClient demo_session) (quiet_options ExecutionOnly)
    (Some second_add_fails) true [0; 0]%nat two_workers [] [batch_item "a"; batch_item "b"; batch_item "c"] batch_world) as [r bw'] eqn:E.
  destruct (fan_out_durable_before_first_job demo_session (quiet_options ExecutionOnly) (Some second_add_fails) true [0; 0]%nat
    two_workers [] [batch_item "a"; batch_item "b"; batch_item "c"] [] batch_world r bw' ltac:(cbn; lia) linked_empty (Forall_nil_2 _) E)
    as (new & Hn & HF).
  destruct Hv as [Hr Hlen]. exists r, bw', new. cbn [bw_added batch_world app] in Hn. rewrite Hn in Hlen. auto 10.
Defined.

(** Repeating the dispatch of an attempt that is already running. *)
Definition running_binding : BullMQTaskBinding :=
  Binding {| rq_id := "t1"; rq_type := "import"; rq_tenantId := Some "acme"; rq_ownerId := None; rq_definitionVersion := None |}
    "e1" (Some "a") "job-1".

Lemma dispatched_job_never_added_again_witness :
  ∃ s bw', dispatch (client:=PostgresBridgeClient demo_session) (quiet_options ExecutionOnly) (Some second_add_fails)
      running_binding (BridgeWorld (demo_world mid_db) []) = (Ok s, bw') ∧ bw_added bw' = [].
Proof.
  assert (match dispatch (client:=PostgresBridgeClient demo_session) (quiet_options ExecutionOnly) (Some second_add_fails)
    running_binding (BridgeWorld (demo_world mid_db) []) with (Ok _, _) => true | (Err _, _) => false end = true) as Hv
    by (vm_compute; reflexivity).
  destruct (dispatch (client:=PostgresBridgeClient demo_session) (quiet_options ExecutionOnly) (Some second_add_fails)
    running_binding (BridgeWorld (demo_world mid_db) [])) as [[s|e] bw'] eqn:E; [|discriminate Hv].
  exists s, bw'. split; [reflexivity|].
  apply (dispatched_job_never_added_again demo_session (quiet_options ExecutionOnly) (Some second_add_fails)
    running_binding (BridgeWorld (demo_world mid_db) []) (Ok s) bw'); [apply reachable_linked, mid_reachable| |exact E].
  destruct (db_executions mid_db !! "e1") as [e|] eqn:He; [|by vm_compute in He].
  exists e. split; [exact He|]. eval_row He. discriminate.
Defined.
