(* ===== verification/BridgeProjectionFacts.v ===== *)
(** * What the bridge does with an event

    The commands a fan-out bridge may send, and the effect of one event of the
    queue on the attempt it belongs to, when no other process interferes. *)

From stdpp Require Import base gmap strings list fin_maps sorting relations pretty.
From Stdlib Require Import Ascii ZArith Lia.
From S2P Require Import Prelude TaskModel TaskCommands ExecutionCommands StoreSteps StoreInvariant StoreSafety TaskClient ClientFacts RuntimeContracts Projector ProjectorFacts ProjectionFailures TaskBridge BridgeFacts.

Open Scope act_scope.

(** ** Which commands a fan-out bridge sends *)

Section fan_out.
Context (c : session) (opts : BullMQTaskBridgeOptions).
Let client := PostgresBridgeClient c.
Let quietly (cmd : command) : Prop := ends_task cmd = false.

(** The application's own callbacks do not end the Task either. *)
Context (H_settled : ∀ f s, onItemsSettled opts = Some f → issues quietly (f s)).
Context (H_terminal : ∀ f e, isTerminalFailure opts = Some f → issues quietly (f e)).
Context (H_attempt : ∀ f e, runtimeAttempt opts = Some f → issues quietly (f e)).
Context (H_result : ∀ e, issues quietly (resultReference opts e)).
Context (H_mode : terminalProjection opts = ExecutionOnly) (H_manual : aggregateTerminal opts = AggregateManual).

#[local] Hint Resolve issues_ret issues_throw issues_throw_if issues_query issues_getTask issues_getTaskExecution : issues.

Lemma issues_bridge_converge {A} (m : io A) : issues quietly m → issues quietly (TaskBridge.converge m).
Proof. apply issues_converge. Qed.

Lemma issues_finally {A} (m : io A) f : issues quietly m → issues quietly f → issues quietly (afinally m f).
Proof.
  intros Hm Hf w. unfold afinally. destruct (Hm w) as (l1 & H1 & P1). destruct (m w) as [r w1]. cbn in *.
  destruct (Hf w1) as (l2 & H2 & P2). destruct (f w1) as [[a|e] w2]; cbn in *; exact (log_app _ H1 P1 H2 P2).
Qed.

Ltac bridge_step :=
  lazymatch goal with
  | |- ∀ _, _ => intro
  | |- issues _ (TaskBridge.converge _) => apply issues_bridge_converge
  | |- issues _ (afinally _ _) => apply issues_finally
  | |- _ => issues_step
  end.
Ltac bridge_walk := repeat bridge_step.

Lemma issues_bridge_find j : issues quietly (TaskBridge.find (client:=client) opts j).
Proof.
  unfold TaskBridge.find. cbn [cl_lookupTaskExecution br_tasks client PostgresBridgeClient PostgresTaskClient].
  unfold lookupTaskExecution. bridge_walk.
Qed.

Lemma issues_transitionExecution i v s r : issues quietly (transitionExecution (client:=client) i v s r).
Proof.
  unfold transitionExecution. cbn [br_transitionTaskExecutionAck client PostgresBridgeClient].
  unfold transitionTaskExecutionAck, validateVersion. bridge_walk; done.
Qed.
#[local] Hint Resolve issues_bridge_find issues_transitionExecution : issues.

Lemma issues_bridge_ensure fuel i s r : issues quietly (TaskBridge.ensureExecution (client:=client) fuel i s r).
Proof.
  revert s r. induction fuel as [|fuel IH]; intros s r; cbn [TaskBridge.ensureExecution]; [apply issues_throw|].
  cbn [cl_getTaskExecution br_tasks client PostgresBridgeClient PostgresTaskClient].
  bridge_walk; apply IH || apply issues_getTaskExecution.
Qed.

Lemma issues_bridge_ensureTask k s :
  bool_decide (s ∈ [Succeeded; Failed]) = false → issues quietly (TaskBridge.ensureTask (client:=client) k s).
Proof.
  intros Hs. unfold TaskBridge.ensureTask. rewrite Hs.
  cbn [cl_getTask cl_transitionTask br_tasks client PostgresBridgeClient PostgresTaskClient andb].
  bridge_walk; try (by apply issues_transitionTask); apply issues_getTask.
Qed.
#[local] Hint Resolve issues_bridge_ensure : issues.

Lemma issues_openRetryAttempt x : issues quietly (openRetryAttempt (client:=client) opts x).
Proof.
  unfold openRetryAttempt. cbn [cl_retryTaskExecution br_tasks client PostgresBridgeClient PostgresTaskClient].
  unfold retryTaskExecution. bridge_walk; done || apply issues_getTask || apply issues_getTaskExecution.
Qed.

Lemma issues_retry_loop fuel ext x o : issues quietly (retry_loop (client:=client) opts fuel ext x o).
Proof.
  revert x. induction fuel as [|fuel IH]; intros x; cbn [retry_loop]; [apply issues_throw|]. cbv zeta.
  unfold TaskBridge.ensure. bridge_walk; first [apply IH|apply issues_openRetryAttempt].
Qed.

Lemma issues_signal k : issues quietly (signalSettlement (client:=client) opts k).
Proof.
  unfold signalSettlement. destruct (onItemsSettled opts) as [f|] eqn:E; [|apply issues_ret].
  cbn [br_settleTaskItems br_syncTaskItemProgress cl_getTask br_tasks client PostgresBridgeClient PostgresTaskClient].
  unfold settleTaskItems, syncTaskItemProgress. bridge_walk; try done; by apply H_settled || apply issues_getTask.
Qed.

Lemma issues_aggregate k : issues quietly (updateAggregate (client:=client) opts k).
Proof.
  unfold updateAggregate. rewrite H_manual. cbv zeta. rewrite bool_decide_eq_true_2, andb_true_r by done.
  destruct (aggregateProgress opts); cbn [negb]; [|apply issues_ret].
  cbn [br_syncTaskItemProgress client PostgresBridgeClient andb]. unfold syncTaskItemProgress. bridge_walk; done.
Qed.

Lemma issues_activate x : issues quietly (TaskBridge.activate (client:=client) x).
Proof. unfold TaskBridge.activate, TaskBridge.ensure. bridge_walk. by apply issues_bridge_ensureTask. Qed.

Lemma issues_startJob j n : issues quietly (startJob (client:=client) opts j n).
Proof.
  unfold startJob, openRetryAttempts, validateRuntimeAttempt.
  bridge_walk; first [apply issues_retry_loop|apply issues_activate].
Qed.

Lemma issues_complete e : issues quietly (TaskBridge.complete (client:=client) opts e).
Proof.
  unfold TaskBridge.complete, attach_result, TaskBridge.ensure. rewrite H_mode.
  cbn [cl_getTaskExecution br_attachTaskExecutionResultAck br_tasks client PostgresBridgeClient PostgresTaskClient].
  unfold attachTaskExecutionResultAck, validateVersion.
  bridge_walk; try done; first [apply H_result|apply issues_aggregate|apply issues_signal|by apply issues_bridge_ensureTask
    |apply issues_getTaskExecution].
Qed.

Lemma issues_fail e b : issues quietly (TaskBridge.fail (client:=client) opts e b).
Proof.
  unfold TaskBridge.fail, TaskBridge.ensure. rewrite H_mode.
  bridge_walk; first [apply issues_aggregate|apply issues_signal|by apply issues_bridge_ensureTask].
Qed.

Lemma issues_project name e : issues quietly (TaskBridge.project (client:=client) opts name e).
Proof.
  destruct name; cbn [TaskBridge.project].
  - unfold queue. bridge_walk. by apply issues_bridge_ensureTask.
  - unfold observedAttempt. destruct (runtimeAttempt opts) eqn:E; bridge_walk; first [by apply H_attempt|apply issues_startJob].
  - unfold reportProgress. cbn [cl_reportTaskProgress br_tasks client PostgresBridgeClient PostgresTaskClient].
    unfold reportTaskProgress, validateVersion, TaskClient.validateProgress.
    bridge_walk; try done; first [apply issues_activate|apply issues_getTask].
  - apply issues_complete.
  - unfold failIfTerminal. destruct (isTerminalFailure opts) eqn:E; bridge_walk; first [by apply H_terminal|apply issues_fail].
  - unfold endAttemptForRetry, TaskBridge.ensure. bridge_walk.
Qed.
End fan_out.

(** The application's callbacks do not end the Task themselves. *)
Definition gentle (opts : BullMQTaskBridgeOptions) : Prop :=
  let quietly {A} := issues (A:=A) (λ cmd, ends_task cmd = false) in
  (∀ f s, onItemsSettled opts = Some f → quietly (f s)) ∧ (∀ f e, isTerminalFailure opts = Some f → quietly (f e)) ∧
  (∀ f e, runtimeAttempt opts = Some f → quietly (f e)) ∧ (∀ e, quietly (resultReference opts e)).

(** A fan-out bridge ('execution-only' with a manual aggregate) never ends the
    Task: whatever the event and whatever happens concurrently, no command it
    sends moves the Task to succeeded, failed or cancelled. *)
Theorem fan_out_bridge_never_ends_task : ∀ c opts name event w r w',
  gentle opts → terminalProjection opts = ExecutionOnly → aggregateTerminal opts = AggregateManual →
  TaskBridge.project (client:=PostgresBridgeClient c) opts name event w = (r, w') →
  ∃ sent, w_log w' = w_log w ++ sent ∧ Forall (λ cmd, ends_task cmd = false) sent.
Proof.
  intros c opts name event w r w' (H1 & H2 & H3 & H4) Hm Ha H.
  destruct (issues_project c opts H1 H2 H3 H4 Hm Ha name event w) as (l & Hl & HF). rewrite H in Hl. eauto.
Qed.

Definition job_event (job : string) : BullMQEvent := BullMQEventOf job None DOther None None.

Lemma quiet_gentle p : gentle (quiet_options p).
Proof. split_and!; try done. intros e. apply issues_ret. Qed.

Lemma fan_out_bridge_never_ends_task_witness :
  ∃ w', TaskBridge.project (client:=PostgresBridgeClient demo_session) (quiet_options ExecutionOnly) QCompleted
      (job_event "job-1") (demo_world mid_db) = (Ok tt, w') ∧ w_log w' ≠ [] ∧
    ∃ sent, w_log w' = [] ++ sent ∧ Forall (λ cmd, ends_task cmd = false) sent.
Proof.
  assert (match TaskBridge.project (client:=PostgresBridgeClient demo_session) (quiet_options ExecutionOnly) QCompleted
    (job_event "job-1") (demo_world mid_db) with (Ok _, w') => bool_decide (w_log w' = []) | (Err _, _) => true end = false)
    as Hv by (vm_compute; reflexivity).
  destruct (TaskBridge.project (client:=PostgresBridgeClient demo_session) (quiet_options ExecutionOnly) QCompleted
    (job_event "job-1") (demo_world mid_db)) as [[[]|e] w'] eqn:E; [|discriminate Hv].
  exists w'. split; [reflexivity|]. split; [by apply bool_decide_eq_false in Hv|].
  apply (fan_out_bridge_never_ends_task demo_session (quiet_options ExecutionOnly) QCompleted (job_event "job-1")
    (demo_world mid_db) (Ok tt) w'); [apply quiet_gentle|reflexivity|reflexivity|exact E].
Defined.

(** ** One event in a quiet world *)

Section quiet.
Context (c : session) (opts : BullMQTaskBridgeOptions).
Let client := PostgresBridgeClient c.

(** [job] is the runtime identity of the attempt [e]. *)
Definition job_of (job : string) (e : exec_row) : Prop := matches_ref "bullmq" job (runtimeScope opts) e = true.

Lemma job_bound job e : job_of job e → is_bound e = true.
Proof. intros H. exact (refers_bound {| ref_runtime := "bullmq"; ref_scope := runtimeScope opts; ref_externalId := job |} e H). Qed.

Lemma bridge_find_spec w k t i e job :
  at_rows c w k t i e → job_of job e →
  TaskBridge.find (client:=client) opts job w = (Ok (Some (mapExecution e)), tick w).
Proof.
  intros H Hj. unfold TaskBridge.find, atry, abind.
  cbn [cl_lookupTaskExecution br_tasks client PostgresBridgeClient PostgresTaskClient].
  by rewrite (lookup_spec c _ _ _ _ _ _ _ _ H Hj).
Qed.

Lemma converge_spec2 {A B C} (op : io A) (f : B → C → A) (R : world → B → C → Prop) w :
  (∃ w' b c, op w = (Ok (f b c), w') ∧ R w' b c) → ∃ w' b c, TaskBridge.converge op w = (Ok (f b c), w') ∧ R w' b c.
Proof. apply converge_spec. Qed.

(** The state [ensureTask target] leaves a Task in. *)
Definition bridge_ensured (target s : task_state) : task_state :=
  if bool_decide (s = target) then s else
  let s := if bool_decide (s = Pending) then Queued else s in
  let s := if bool_decide (target ∈ [Running; Succeeded; Failed]) && bool_decide (s = Queued) then Running else s in
  if bool_decide (target ∈ [Succeeded; Failed]) && (bool_decide (s = Running) || bool_decide (s = CancelRequested))
  then target else s.

Lemma bridge_ensureTask_spec w k t i e target :
  at_rows c w k t i e → target ∈ [Queued; Running; Succeeded; Failed] → t_version t + 3 ≤ INT8_MAX →
  ∃ w' t' l, TaskBridge.ensureTask (client:=client) k target w = (Ok (mapSnapshot t' l), w') ∧
    at_rows c w' k t' i e ∧ t_state t' = bridge_ensured target (t_state t) ∧ t_version t' ≤ t_version t + 3.
Proof.
  intros H Htg Hm. pose proof (at_task_id c _ _ _ _ _ H) as Hid.
  unfold TaskBridge.ensureTask. apply (converge_spec2 _ (λ t' l, mapSnapshot t' l)).
  unfold abind at 1. cbn [cl_getTask br_tasks client PostgresBridgeClient PostgresTaskClient].
  destruct (getTask_spec c _ _ _ _ _ H) as [l0 ->]. cbn [s_state s_id s_entityVersion mapSnapshot].
  apply at_tick in H. unfold bridge_ensured.
  destruct (bool_decide (t_state t = target)) eqn:Hdone; [do 3 eexists; split; [done|]; split_and!; try done; lia|].
  unfold abind at 1. cbn [cl_transitionTask br_tasks client PostgresBridgeClient PostgresTaskClient]. rewrite Hid.
  destruct (stage_spec c (bool_decide (t_state t = Pending)) Queued (tick w) k t i e l0)
    as (w1 & t1 & l1 & Hst1 & H1 & Hs1 & Hv1 & _); [done| |lia|].
  { intros E. to_prop. by rewrite E. }
  cbn [task_state_name] in Hst1. unfold io in *. rewrite Hst1. clear Hst1. rewrite <-Hs1.
  unfold abind at 1. cbn [s_state s_id s_entityVersion mapSnapshot]. rewrite (at_task_id c _ _ _ _ _ H1).
  destruct (stage_spec c (bool_decide (target ∈ [Running; Succeeded; Failed]) && bool_decide (t_state t1 = Queued)) Running
    w1 k t1 i e l1) as (w2 & t2 & l2 & Hst2 & H2 & Hs2 & Hv2 & _); [done| |lia|].
  { intros E. apply andb_true_iff in E as [_ E]. to_prop. by rewrite E. }
  cbn [task_state_name] in Hst2. unfold io in *. rewrite Hst2. clear Hst2. rewrite <-Hs2.
  cbn [s_state s_id s_entityVersion mapSnapshot]. rewrite (at_task_id c _ _ _ _ _ H2).
  destruct (stage_spec c (bool_decide (target ∈ [Succeeded; Failed])
    && (bool_decide (t_state t2 = Running) || bool_decide (t_state t2 = CancelRequested))) target w2 k t2 i e l2)
    as (w3 & t3 & l3 & Hst3 & H3 & Hs3 & Hv3 & _); [done| |lia|].
  { intros E. apply andb_true_iff in E as [Et Es]. apply orb_true_iff in Es.
    apply bool_decide_eq_true_1 in Et. rewrite !elem_of_cons, elem_of_nil in Et.
    destruct Es as [Es|Es]; apply bool_decide_eq_true_1 in Es; rewrite Es; destruct Et as [->|[->|[]]]; done. }
  unfold io in *. rewrite Hst3. do 3 eexists. split; [done|]. split_and!; [done|by rewrite Hs3|lia].
Qed.

(** A move of the attempt through the acknowledging form of the command. *)
Lemma bridge_transition_spec w k t i e s reason :
  at_rows c w k t i e → e_state e ≠ s → exec_edge (is_bound e) (e_state e) s = true → room 1 t e →
  ∃ w' now r n, transitionExecution (client:=client) i (e_version e) (exec_state_name s) reason w = (Ok tt, w') ∧
    at_rows c w' k (counted now n t) i (moved now s r e) ∧
    db_executions (w_db w') = <[i := moved now s r e]> (db_executions (w_db w)).
Proof.
  intros H Hne Hedge [Hrt Hre]. unfold transitionExecution, abind.
  cbn [br_transitionTaskExecutionAck client PostgresBridgeClient].
  unfold transitionTaskExecutionAck, abind. rewrite validateVersion_ok by (eapply at_version, H).
  pose proof (at_exec_id c _ _ _ _ _ H) as Hid. subst i.
  destruct (transition_execution_forward c (w_now w + 1) e t s reason (w_db w)) as (r & n & d' & Hrun & Hex & Hta);
    [apply wf_linked, H|apply H| |by eapply at_exec_visible|done..|].
  { rewrite (at_parent _ _ _ _ _ _ H). apply H. }
  rewrite (execute_quiet _ _ w _ _ (at_quiet _ _ _ _ _ _ H) Hrun). do 4 eexists. split; [done|]. split; [|exact Hex].
  split; cbn; try done; try (by apply H).
  - by eapply run_command_wf; [apply H|exact Hrun].
  - rewrite Hta, (at_parent _ _ _ _ _ _ H). apply lookup_insert_eq.
  - rewrite Hex. apply lookup_insert_eq.
Qed.

(** The state [ensureExecution target] leaves a bound attempt in. *)
Definition bridge_moved (target s : exec_state) : exec_state :=
  if bool_decide (s = target) then s else if legal_move s target then target else s.

Lemma bridge_ensure_spec w k t i e target reason :
  at_rows c w k t i e → is_bound e = true → target ∈ [ERunning; ESucceeded; EFailed; EStalled] → room 1 t e →
  ∃ w' t' e', TaskBridge.ensure (client:=client) i target reason w = (Ok tt, w') ∧
    at_rows c w' k t' i e' ∧ e_state e' = bridge_moved target (e_state e) ∧ t_state t' = t_state t ∧
    t_version t' ≤ t_version t + 1 ∧ e_version e' ≤ e_version e + 1 ∧ exec_identity e' = exec_identity e ∧
    e_external_id e' = e_external_id e ∧ e_runtime_scope e' = e_runtime_scope e ∧ e_superseded_at e' = e_superseded_at e ∧
    (bridge_moved target (e_state e) = e_state e → e' = e) ∧ db_executions (w_db w') = <[i := e']> (db_executions (w_db w)).
Proof.
  intros H Hb Htg Hroom. unfold TaskBridge.ensure, REPAIR_DEPTH. cbn [TaskBridge.ensureExecution].
  apply (converge_spec2 _ (λ _ _, tt)).
  unfold abind at 1. cbn [cl_getTaskExecution br_tasks client PostgresBridgeClient PostgresTaskClient].
  rewrite (getTaskExecution_spec c _ _ _ _ _ H). cbn [x_state x_id x_version mapExecution].
  assert (db_executions (w_db w) = <[i := e]> (db_executions (w_db w))) as Hsame by (symmetry; apply insert_id, H).
  apply at_tick in H. unfold bridge_moved.
  destruct (bool_decide (e_state e = target)) eqn:Hs; [do 3 eexists; split; [done|]; split_and!; done || lia|].
  destruct (legal_move (e_state e) target) eqn:Hlegal; cbn [negb]; [|do 3 eexists; split; [done|]; split_and!; done || lia].
  to_prop. assert (exec_edge (is_bound e) (e_state e) target = true) as Hedge.
  { rewrite Hb. rewrite !elem_of_cons, elem_of_nil in Htg. destruct (e_state e); try done;
      destruct Htg as [->|[->|[->|[->|[]]]]]; done. }
  rewrite (at_exec_id c _ _ _ _ _ H). unfold atry.
  destruct (bridge_transition_spec _ _ _ _ _ target reason H Hs Hedge Hroom) as (w' & now & r & n & -> & H' & Hdb).
  do 3 eexists. split; [done|]. split_and!; done.
Qed.

(** A fan-out bridge without aggregate and without callbacks. *)
Definition bare : Prop :=
  terminalProjection opts = ExecutionOnly ∧ aggregateProgress opts = false ∧ aggregateTerminal opts = AggregateManual ∧
  onItemsSettled opts = None ∧ ∀ e w, resultReference opts e w = (Ok None, w).

Lemma complete_spec w k t i e ev :
  bare → at_rows c w k t i e → job_of (be_jobId ev) e → room 4 t e →
  ∃ w' t' e', TaskBridge.complete (client:=client) opts ev w = (Ok tt, w') ∧ at_rows c w' k t' i e' ∧
    e_state e' = bridge_moved ESucceeded (e_state e) ∧ t_state t' = bridge_ensured Running (t_state t) ∧
    exec_identity e' = exec_identity e ∧ e_superseded_at e' = e_superseded_at e ∧
    (bridge_moved ESucceeded (e_state e) = e_state e → e' = e).
Proof.
  intros (Hm & Hp & Ha & Hs & Hr) H Hj [Hrt Hre]. unfold TaskBridge.complete. unfold abind at 1.
  rewrite (bridge_find_spec _ _ _ _ _ _ H Hj). apply at_tick in H.
  rewrite (at_exec_id c _ _ _ _ _ H : x_id (mapExecution e) = i).
  rewrite (at_parent _ _ _ _ _ _ H : x_taskId (mapExecution e) = k). unfold abind at 1.
  destruct (bridge_ensure_spec (tick w) k t i e ESucceeded None)
    as (w1 & t1 & e1 & -> & H1 & He1 & Ht1 & Hv1 & _ & Hid1 & _ & _ & Hsup1 & Hsame & _);
    [done|by eapply job_bound|set_solver|split; lia|].
  unfold abind at 1.
  destruct (bridge_ensureTask_spec w1 k t1 i e1 Running) as (w2 & t2 & l & -> & H2 & Ht2 & _); [done|set_solver|lia|].
  unfold abind at 1. rewrite Hr. unfold abind, aret, truthy, updateAggregate, signalSettlement, afinally.
  rewrite Hm, Hp, Ha, Hs. cbn. exists w2, t2, e1. rewrite Ht2, Ht1. split_and!; try done; apply H2.
Qed.
End quiet.

(** In a fan-out a 'completed' event of the queue closes the attempt it names
    from every state a running job can be in, including [pending_dispatch] (a job
    that finished before its bind was stored): the attempt is succeeded, the Task
    has been started, and no error is raised. *)
Theorem completed_job_closes_attempt : ∀ c opts w k t i e ev,
  bare opts → at_rows c w k t i e → job_of opts (be_jobId ev) e → room 4 t e →
  e_state e ∈ [EPendingDispatch; EDispatched; ERunning] →
  ∃ w' t' e', TaskBridge.project (client:=PostgresBridgeClient c) opts QCompleted ev w = (Ok tt, w') ∧
    db_executions (w_db w') !! i = Some e' ∧ e_state e' = ESucceeded ∧
    db_tasks (w_db w') !! k = Some t' ∧ t_state t' ≠ Pending ∧ t_state t' ≠ Queued.
Proof.
  intros c opts w k t i e ev Hb H Hj Hroom Hs. cbn [TaskBridge.project].
  destruct (complete_spec c opts w k t i e ev Hb H Hj Hroom) as (w' & t' & e' & -> & H' & He' & Ht' & _).
  exists w', t', e'. split_and!; try done; try apply H'.
  - rewrite He'. rewrite !elem_of_cons, elem_of_nil in Hs. destruct Hs as [->|[->|[->|[]]]]; done.
  - rewrite Ht'. by destruct (t_state t).
  - rewrite Ht'. by destruct (t_state t).
Qed.

(** A completion that arrives while the attempt is stalled is lost. BullMQ
    announces 'delayed' before it runs a job again, which stalls the attempt;
    when the 'active' event of the second run was missed, the bridge takes the
    'completed' event without an error, leaves the attempt stalled (reconciling
    the same observation does no more), and the batch cannot settle. *)
Theorem completed_while_stalled_is_lost : ∀ c opts w k t i e ev,
  bare opts → at_rows c w k t i e → job_of opts (be_jobId ev) e → room 4 t e → e_state e = EStalled →
  ∃ w', TaskBridge.project (client:=PostgresBridgeClient c) opts QCompleted ev w = (Ok tt, w') ∧
    reconcile (client:=PostgresBridgeClient c) opts (Observed ev SeenCompleted true) w = (Ok tt, w') ∧
    db_executions (w_db w') !! i = Some e ∧
    ∀ now, settle_items c now k (w_db w') = Ok (false, w_db w').
Proof.
  intros c opts w k t i e ev Hb H Hj Hroom Hs. cbn [TaskBridge.project reconcile ob_state].
  assert (live e = true) as Hlive by (unfold job_of, matches_ref in Hj; to_prop; done).
  destruct (complete_spec c opts w k t i e ev Hb H Hj Hroom) as (w' & t' & e' & Hrun & H' & _ & _ & _ & _ & Hsame).
  rewrite Hs in Hsame. specialize (Hsame eq_refl). subst e'. exists w'. split_and!; [done|done|apply H'|]. intros now.
  unfold settle_items. assert (visible_tasks c (w_db w') !! k = Some t') as -> by (apply visible_tasks_lookup; split; apply H').
  assert (map_exists (λ e, live_of_task k e && negb (exec_finished (e_state e))) (visible_executions c (w_db w')) = true) as ->.
  { apply map_exists_spec. exists i, e. split.
    - apply visible_executions_lookup. split; [apply H'|by eapply at_exec_visible].
    - unfold live_of_task, of_task. rewrite Hlive, (at_parent _ _ _ _ _ _ H'), Hs. by rewrite bool_decide_eq_true_2. }
  by rewrite andb_false_r.
Qed.

Definition bare_options : BullMQTaskBridgeOptions := {|
  dispatchConcurrency := 8; runtimeScope := "q"; terminalProjection := ExecutionOnly; aggregateProgress := false; aggregateTerminal := AggregateManual;
  progress_of := defaultProgress; isTerminalFailure := None; runtimeAttempt := None;
  resultReference := λ _, aret None; failureReason := defaultFailureReason; cancelJob := None;
  terminalizeOnCancel := false; retryIgnored := false; retryExecutionId := defaultRetryExecutionId;
  onItemsSettled := None;
|}.

Lemma bare_options_bare : bare bare_options.
Proof. by split_and!. Qed.

(** The attempt of "job-1" after its run was announced as 'delayed'. *)
Definition stalled_events : list event := take 7 demo_events ++ [Event demo_session 8 (TransitionExecution "e1" 3 "stalled" None)].
Definition stalled_db : db := (run_history stalled_events empty_db).2.

Lemma stalled_reachable : reachable stalled_db.
Proof. by exists stalled_events. Qed.

Lemma completed_job_closes_attempt_witness :
  ∃ w' t' e', TaskBridge.project (client:=PostgresBridgeClient demo_session) bare_options QCompleted (job_event "job-1")
      (demo_world mid_db) = (Ok tt, w') ∧
    db_executions (w_db w') !! "e1" = Some e' ∧ e_state e' = ESucceeded ∧
    db_tasks (w_db w') !! "t1" = Some t' ∧ t_state t' ≠ Pending ∧ t_state t' ≠ Queued.
Proof.
  destruct (db_tasks mid_db !! "t1") as [t|] eqn:Ht; [|by vm_compute in Ht].
  destruct (db_executions mid_db !! "e1") as [e|] eqn:He; [|by vm_compute in He].
  apply (completed_job_closes_attempt demo_session bare_options (demo_world mid_db) "t1" t "e1" e (job_event "job-1")).
  - apply bare_options_bare.
  - apply demo_rows; [apply mid_reachable|exact Ht|exact He|..]; eval_row Ht; eval_row He; vm_compute; reflexivity.
  - eval_row He. vm_compute. reflexivity.
  - eval_row Ht. eval_row He. split; vm_compute; discriminate.
  - eval_row He. apply (bool_decide_unpack _). reflexivity.
Defined.

Lemma completed_while_stalled_is_lost_witness :
  ∃ w' e, TaskBridge.project (client:=PostgresBridgeClient demo_session) bare_options QCompleted (job_event "job-1")
      (demo_world stalled_db) = (Ok tt, w') ∧
    db_executions (w_db w') !! "e1" = Some e ∧ e_state e = EStalled ∧
    ∀ now, settle_items demo_session now "t1" (w_db w') = Ok (false, w_db w').
Proof.
  destruct (db_tasks stalled_db !! "t1") as [t|] eqn:Ht; [|by vm_compute in Ht].
  destruct (db_executions stalled_db !! "e1") as [e|] eqn:He; [|by vm_compute in He].
  assert (e_state e = EStalled) as Hs by (eval_row He; reflexivity).
  destruct (completed_while_stalled_is_lost demo_session bare_options (demo_world stalled_db) "t1" t "e1" e (job_event "job-1"))
    as (w' & Hrun & _ & He' & Hset).
  - apply bare_options_bare.
  - apply demo_rows; [apply stalled_reachable|exact Ht|exact He|..]; eval_row Ht; eval_row He; vm_compute; reflexivity.
  - eval_row He. vm_compute. reflexivity.
  - eval_row Ht. eval_row He. split; vm_compute; discriminate.
  - exact Hs.
  - exists w', e. split; [exact Hrun|]. split; [exact He'|]. split; [exact Hs|exact Hset].
Defined.
