(* ===== verification/BridgeRetryFacts.v ===== *)
(** * Retries the bridge hears about late

    A job that is active again while its previous attempt still looks running:
    the bridge ends that attempt, opens the next one and starts it. *)

From stdpp Require Import base gmap strings list fin_maps sorting relations pretty.
From Stdlib Require Import Ascii ZArith Lia.
From S2P Require Import Prelude TaskModel TaskCommands ExecutionCommands StoreSteps StoreInvariant StoreSafety TaskClient ClientFacts RuntimeContracts Projector ProjectorFacts ProjectionFailures TaskBridge BridgeFacts BridgeProjectionFacts.

Open Scope act_scope.

(** ** [retry_execution] on the latest attempt of an item *)

Definition superseded (now : Z) (e : exec_row) : exec_row := e_touch (e_version e + 1) now (e_with_superseded (Some now) e).

Definition next_row (now : Z) (new_id : string) (e : exec_row) : exec_row :=
  ExecRow new_id (e_task_id e) (e_tenant e) (e_item_key e) (e_attempt e + 1) (e_runtime e) (e_runtime_scope e)
    (e_external_id e) EDispatched None None 1 None [] now now.

(** [e] has the highest attempt number of its item. *)
Definition latest_attempt (d : db) (e : exec_row) : Prop := ∀ k o,
  db_executions d !! k = Some o → of_item (e_task_id e) (e_item_key e) o = true → e_attempt o ≤ e_attempt e.

Lemma next_attempt_latest c now d e :
  wf d → db_executions d !! e_id e = Some e → rls_allows c (e_tenant e) = true → latest_attempt d e →
  e_attempt e + 1 ≤ INT4_MAX →
  let d1 := Db (db_tasks d) (<[e_id e := superseded now e]> (db_executions d)) (db_notes d) in
  next_attempt c (e_task_id e) (e_item_key e) d1 = Ok (e_attempt e + 1, d1).
Proof.
  intros Hwf He Hv Hlat Hm d1. apply next_attempt_ok. split; [done|]. split; [done|]. f_equal.
  assert (of_item (e_task_id e) (e_item_key e) (superseded now e) = true) as Hof.
  { unfold of_item, of_task. cbn. by rewrite !bool_decide_eq_true_2. }
  apply Z.le_antisymm.
  - assert (visible_executions c d1 !! e_id e = Some (superseded now e)) as Hvis.
    { apply visible_executions_lookup. cbn. by rewrite lookup_insert_eq. }
    pose proof (map_max_ub (λ o, if of_item (e_task_id e) (e_item_key e) o then e_attempt o else 0) _ _ _ Hvis) as H.
    cbv beta in H. rewrite Hof in H. exact H.
  - pose proof (eok_attempt _ (wf_executions _ Hwf _ _ He)) as [Ha _]. apply map_max_lub; [lia|].
    intros k o Ho. destruct (of_item _ _ o) eqn:Eo; [|lia]. apply visible_executions_lookup in Ho as [Ho _].
    cbn in Ho. rewrite lookup_insert in Ho. case_decide; simplify_eq; [done|]. by eapply Hlat.
Qed.

Lemma next_row_fits now new_id d e :
  wf d → db_executions d !! e_id e = Some e → live e = true → latest_attempt d e →
  exec_collides (Db (db_tasks d) (<[e_id e := superseded now e]> (db_executions d)) (db_notes d)) (next_row now new_id e) = false.
Proof.
  intros Hwf He Hlive Hlat. apply map_exists_false. intros k o Ho. cbn in Ho.
  assert (same_attempt o (next_row now new_id e) = false) as ->.
  { unfold same_attempt. destruct (bool_decide (e_task_id o = _)) eqn:E1; [|done].
    destruct (bool_decide (e_item_key o = _)) eqn:E2; [|done]. cbn in E1, E2. to_prop. cbn. apply Z.eqb_neq.
    rewrite lookup_insert in Ho. case_decide; simplify_eq; [cbn; lia|].
    assert (e_attempt o ≤ e_attempt e); [|lia]. eapply Hlat; [exact Ho|]. unfold of_item, of_task.
    by rewrite !bool_decide_eq_true_2. }
  assert (same_live_ref o (next_row now new_id e) = false) as ->; [|by rewrite andb_false_r].
  rewrite lookup_insert in Ho. case_decide as Hk; simplify_eq; [done|]. apply not_true_is_false. intros Hs. apply Hk.
  eapply (ro_live _ (wf_rows _ Hwf) _ _ e o); [exact He|exact Ho|]. rewrite same_live_ref_sym.
  unfold same_live_ref in *. rewrite Hlive. cbn in Hs. by rewrite andb_true_r in *.
Qed.

Lemma retry_execution_forward c now e t new_id d :
  wf d → db_executions d !! e_id e = Some e → db_tasks d !! e_task_id e = Some t →
  current_tenant c = Some (e_tenant e) → live e = true → exec_terminal (e_state e) = true → latest_attempt d e →
  db_executions d !! new_id = None → blank new_id = false →
  e_version e + 1 ≤ INT8_MAX → e_attempt e + 1 ≤ INT4_MAX → t_version t + 1 ≤ INT8_MAX →
  ∃ n d', run_command c now (RetryExecution (e_id e) (e_version e) new_id) d = Ok (Number (e_attempt e + 1), d') ∧
    db_executions d' = <[new_id := next_row now new_id e]> (<[e_id e := superseded now e]> (db_executions d)) ∧
    db_tasks d' = <[e_task_id e := counted now n t]> (db_tasks d).
Proof.
  intros Hwf He Ht Hct Hlive Hterm Hlat Hfresh Hblank Hev Hea Htv.
  pose proof (rls_allows_current _ _ Hct) as Hv.
  destruct (linked_parent _ (wf_linked _ Hwf) _ _ He) as (t0 & Ht0 & Hten). assert (t0 = t) as -> by congruence.
  set (d1 := Db (db_tasks d) (<[e_id e := superseded now e]> (db_executions d)) (db_notes d)).
  set (d2 := Db (db_tasks d) (<[new_id := next_row now new_id e]> (db_executions d1)) (db_notes d)).
  assert (insert_execution c now (λ tenant, ExecRow new_id (e_task_id e) tenant (e_item_key e) (e_attempt e + 1)
    (e_runtime e) (e_runtime_scope e) (e_external_id e) EDispatched None None 1 None [] now now) d1 =
    Ok (tt, put_task d2 (e_task_id e) t (counted now (counts_add (t_counts t) (rows_counts [next_row now new_id e])) t))) as Hins.
  { unfold insert_execution. rewrite Hct. cbv zeta. change (ExecRow new_id _ (e_tenant e) _ _ _ _ _ _ _ _ _ _ _ _ _) with (next_row now new_id e).
    assert (db_executions d1 !! e_id (next_row now new_id e) = None) as ->.
    { cbn. rewrite lookup_insert_ne; [done|]. congruence. }
    rewrite bool_decide_eq_false_2 by (intros [? ?]; done).
    unfold d1 at 1. rewrite next_row_fits by done. cbn [orb]. change (db_tasks d1) with (db_tasks d).
    cbn [e_task_id next_row]. rewrite Ht, bool_decide_eq_true_2 by done.
    apply (counts_inserted_ok c now (next_row now new_id e) d2 t); [done|by rewrite Hten|done]. }
  eexists _, _. split; [|split; [exact (eq_refl (db_executions (put_task d2 (e_task_id e) t (counted now
    (counts_add (t_counts t) (rows_counts [next_row now new_id e])) t))))|reflexivity]]. cbn [run_command]. apply number_ok. eexists. split; [done|].
  unfold retry_execution, fail_if, traise_if. rewrite Hblank. unfold tbind at 1, tret at 1. unfold tcatch.
  unfold tbind at 1. rewrite (select_execution_visible _ _ _ _ e) by done. unfold tbind at 1. rewrite Hlive. cbn [negb].
  unfold tret at 1. unfold tbind at 1. unfold fence_execution. rewrite Z.eqb_refl. unfold tret at 1.
  unfold tbind at 1. rewrite Hterm. cbn [negb]. unfold tret at 1. unfold tbind at 1. unfold tlift.
  rewrite bigint_succ_ok by done. unfold tbind at 1. unfold update_execution.
  rewrite counts_updated_same by done. fold d1. unfold tbind at 1.
  change (e_touch (e_version e + 1) now (e_with_superseded (Some now) e)) with (superseded now e). fold d1.
  pose proof (next_attempt_latest c now d e Hwf He Hv Hlat Hea) as Hna. cbv zeta in Hna. fold d1 in Hna.
  rewrite (Hna : next_attempt c (e_task_id e) (e_item_key e) d1 = _). unfold tbind at 1. rewrite Hins. reflexivity.
Qed.

(** ** A superseded attempt stays superseded *)

Definition stays_superseded (e e' : exec_row) : Prop := live e = false → live e' = false.
#[local] Instance stays_superseded_refl : Reflexive stays_superseded.
Proof. intros e H. exact H. Qed.
#[local] Instance stays_superseded_trans : Transitive stays_superseded.
Proof. unfold stays_superseded. intros x y z. auto. Qed.

Lemma write_stays_superseded now d e e' : exec_write now d e e' → stays_superseded e e'.
Proof. unfold stays_superseded, live. by intros []. Qed.

Section retry.
Context (c : session) (opts : BullMQTaskBridgeOptions).
#[local] Notation client := (PostgresBridgeClient c).

Lemma forward_transitionAck i v s r : forward (transitionTaskExecutionAck c i v s r).
Proof. unfold transitionTaskExecutionAck, validateVersion. forward_walk. Qed.
#[local] Hint Resolve forward_transitionAck : forward.

Lemma forward_bridge_ensure fuel i s r : forward (TaskBridge.ensureExecution (client:=client) fuel i s r).
Proof.
  revert s r. induction fuel as [|fuel IH]; intros s r; cbn [TaskBridge.ensureExecution]; [apply forward_throw|].
  unfold transitionExecution.
  cbn [cl_getTaskExecution br_transitionTaskExecutionAck br_tasks PostgresBridgeClient PostgresTaskClient].
  forward_walk; apply IH.
Qed.

Lemma forward_activate x : forward (TaskBridge.activate (client:=client) x).
Proof.
  unfold TaskBridge.activate, TaskBridge.ensure. forward_walk; [apply forward_bridge_ensure|apply forward_ensureTask].
Qed.

(** ** Opening the next attempt *)

Lemma openRetryAttempt_spec w k t i e job new_id :
  at_rows c w k t i e → job_of opts job e → job ≠ "" → exec_terminal (e_state e) = true → latest_attempt (w_db w) e →
  current_tenant c = Some (e_tenant e) → retryIgnored opts = false →
  new_id = retryExecutionId opts (mapExecution e) (e_attempt e + 1) →
  db_executions (w_db w) !! new_id = None → blank new_id = false → room 1 t e → e_attempt e + 1 ≤ INT4_MAX →
  ∃ w' now t', openRetryAttempt (client:=client) opts (mapExecution e) w = (Ok (Some (mapExecution (next_row now new_id e))), w') ∧
    at_rows c w' k t' new_id (next_row now new_id e) ∧ t_state t' = t_state t ∧ t_version t' ≤ t_version t + 1 ∧
    db_executions (w_db w') !! i = Some (superseded now e).
Proof.
  intros H Hj Hjob Hterm Hlat Hct Hig Hnew Hfresh Hblank [Hrt Hre] Hea.
  pose proof (at_exec_id c _ _ _ _ _ H) as Hid.
  assert (live e = true ∧ e_external_id e = Some job) as [Hlive Hext] by (unfold job_of, matches_ref in Hj; to_prop; done).
  unfold openRetryAttempt. rewrite Hig.
  cbn [cl_retryTaskExecution br_tasks PostgresBridgeClient PostgresTaskClient].
  assert (x_externalId (mapExecution e) = Some job) as ->.
  { cbn. rewrite Hext. unfold truthy. destruct job; [done|]. reflexivity. }
  cbn [x_id x_version x_attempt mapExecution]. rewrite Hid, <-Hnew. unfold abind at 1, atry at 1, abind at 1.
  unfold retryTaskExecution. unfold abind at 1. rewrite (getTaskExecution_spec c _ _ _ _ _ H).
  unfold abind at 1. apply at_tick in H.
  destruct (retry_execution_forward c (w_now (tick w) + 1) e t new_id (w_db w)) as (n & d' & Hrun & Hex & Hta); try done.
  { apply H. }
  { rewrite Hid. apply H. }
  { rewrite (at_parent _ _ _ _ _ _ H). apply H. }
  rewrite Hid in Hrun, Hex. rewrite (execute_quiet _ _ (tick w) _ _ eq_refl Hrun).
  match goal with |- context [getTask c _ ?x] => set (w1 := x) end.
  set (e' := next_row (w_now (tick w) + 1) new_id e).
  assert (at_rows c w1 k (counted (w_now (tick w) + 1) n t) new_id e') as H1.
  { split; cbn [w1 w_db w_env]; try done; try (by apply H).
    - by eapply run_command_wf; [apply H|exact Hrun].
    - rewrite Hta, (at_parent _ _ _ _ _ _ H). apply lookup_insert_eq.
    - rewrite Hex. apply lookup_insert_eq. }
  cbn [x_taskId mapExecution]. rewrite (at_parent _ _ _ _ _ _ H).
  destruct (getTask_spec c _ _ _ _ _ H1) as [l ->]. unfold aret at 1. apply at_tick in H1. unfold abind at 1.
  assert (i ≠ new_id) as Hne.
  { intros <-. pose proof (at_exec _ _ _ _ _ _ H) as Hat. cbn in Hat. congruence. }
  assert (job_of opts job e') as Hj' by (unfold job_of, matches_ref in *; cbn; to_prop; by rewrite !bool_decide_eq_true_2).
  rewrite (bridge_find_spec c opts _ _ _ _ _ _ H1 Hj'). rewrite bool_decide_eq_false_2 by (cbn; congruence).
  do 3 eexists. split; [done|]. split; [by apply at_tick|]. split; [done|]. split; [cbn; lia|].
  cbn [w_db tick w1]. rewrite Hex, lookup_insert_ne, lookup_insert_eq by done. done.
Qed.

(** The loop of [openRetryAttempts] on a running attempt that is one behind. *)
Lemma retry_loop_spec w k t i e job new_id fuel :
  at_rows c w k t i e → job_of opts job e → job ≠ "" → e_state e = ERunning → latest_attempt (w_db w) e →
  current_tenant c = Some (e_tenant e) → retryIgnored opts = false →
  (∀ x, x_id x = i → retryExecutionId opts x (e_attempt e + 1) = new_id) →
  db_executions (w_db w) !! new_id = None → blank new_id = false → room 2 t e → e_attempt e + 1 ≤ INT4_MAX →
  ∃ w' now t' e1, retry_loop (client:=client) opts (S (S fuel)) job (mapExecution e) (Some (e_attempt e + 1)) w =
      (Ok (Some (mapExecution (next_row now new_id e1))), w') ∧
    at_rows c w' k t' new_id (next_row now new_id e1) ∧ t_state t' = t_state t ∧ t_version t' ≤ t_version t + 2 ∧
    exec_identity e1 = exec_identity e ∧ e_external_id e1 = e_external_id e ∧ e_runtime_scope e1 = e_runtime_scope e ∧
    db_executions (w_db w') !! i = Some (superseded now e1).
Proof.
  intros H Hj Hjob Hs Hlat Hct Hig Hnew Hfresh Hblank [Hrt Hre] Hea. pose proof (at_exec_id c _ _ _ _ _ H) as Hid.
  cbn [retry_loop x_state x_id x_attempt mapExecution]. rewrite Hs. cbn [isFinishedAttempt isTerminalExecution orb].
  rewrite (bool_decide_eq_false_2 (ERunning = EStalled)) by done. rewrite (proj2 (Z.ltb_lt _ _)) by lia. cbn [orb negb].
  unfold abind at 1. rewrite Hid.
  assert (∃ w1 t1 e1, TaskBridge.ensure (client:=client) i EStalled None w = (Ok tt, w1) ∧ at_rows c w1 k t1 i e1 ∧
    e_state e1 = EStalled ∧ t_state t1 = t_state t ∧ t_version t1 ≤ t_version t + 1 ∧ e_version e1 ≤ e_version e + 1 ∧
    exec_identity e1 = exec_identity e ∧ e_external_id e1 = e_external_id e ∧ e_runtime_scope e1 = e_runtime_scope e ∧
    e_superseded_at e1 = e_superseded_at e ∧ db_executions (w_db w1) = <[i := e1]> (db_executions (w_db w)))
    as (w1 & t1 & e1 & -> & H1 & Hs1 & Ht1 & Hv1 & Hve1 & Hi1 & Hx1 & Hr1 & Hsu1 & Hdb1).
  { destruct (bridge_ensure_spec c w k t i e EStalled None)
      as (w1 & t1 & e1 & Hrun & H1 & Hs1 & Ht1 & Hv1 & Hve1 & Hi1 & Hx1 & Hr1 & Hsu1 & _ & Hdb1);
      [done|by eapply job_bound|set_solver|split; lia|].
    rewrite Hs in Hs1. exists w1, t1, e1. by split_and!. }
  unfold abind at 1.
  assert (job_of opts job e1) as Hj1.
  { unfold job_of, matches_ref, live in *. rewrite Hx1, Hr1, Hsu1. injection Hi1 as _ _ _ _ _ -> _. done. }
  rewrite (bridge_find_spec c opts _ _ _ _ _ _ H1 Hj1).
  injection Hi1 as E1 E2 E3 E4 E5 E6 E7.
  cbn [x_state x_attempt mapExecution]. rewrite Hs1. cbn [isFinishedAttempt isTerminalExecution orb].
  rewrite (bool_decide_eq_true_2 (EStalled = EStalled)) by done. cbn [orb negb]. unfold abind at 1.
  destruct (openRetryAttempt_spec (tick w1) k t1 i e1 job new_id)
    as (w2 & now & t2 & -> & H2 & Ht2 & Hv2 & Hold); try done.
  { by apply at_tick. }
  { by rewrite Hs1. }
  { intros j o Ho Hof. rewrite E2, E4 in Hof. rewrite E5. cbn in Ho. rewrite Hdb1, lookup_insert in Ho.
    case_decide; simplify_eq; [lia|]. by eapply Hlat. }
  { by rewrite E3. }
  { rewrite E5. symmetry. apply Hnew. cbn. congruence. }
  { cbn. rewrite Hdb1, lookup_insert_ne; [done|]. intros <-. rewrite (at_exec _ _ _ _ _ _ H) in Hfresh. done. }
  { split; lia. }
  { lia. }
  cbn [x_attempt mapExecution next_row e_attempt]. rewrite E5, Z.leb_refl.
  exists w2, now, t2, e1. split; [done|]. split; [done|]. split; [congruence|]. split; [lia|].
  split_and!; try done. unfold exec_identity. congruence.
Qed.
End retry.

(** A retry is recorded even when its boundary was missed: when the queue says
    a job is active in attempt [n + 1] while attempt [n] still looks running, the
    bridge ends and supersedes attempt [n], opens attempt [n + 1] of the same item
    under the next Execution id and starts it, together with the Task. (The
    runtime projector loses this retry: it asks for the new attempt with the
    version it read before it ended the old one.) *)
Theorem late_retry_is_recorded : ∀ c opts w k t i e job data returned reason,
  let new_id := (i ++ "#" ++ pretty (e_attempt e + 1))%string in
  at_rows c w k t i e → job_of opts job e → job ≠ "" → e_state e = ERunning → latest_attempt (w_db w) e →
  current_tenant c = Some (e_tenant e) → retryIgnored opts = false → retryExecutionId opts = defaultRetryExecutionId →
  db_executions (w_db w) !! new_id = None → blank new_id = false → room 6 t e → e_attempt e + 1 ≤ INT4_MAX →
  ∃ w' old new t',
    TaskBridge.project (client:=PostgresBridgeClient c) opts QActive
      (BullMQEventOf job (Some (JsInt (e_attempt e + 1))) data returned reason) w = (Ok tt, w') ∧
    db_executions (w_db w') !! i = Some old ∧ live old = false ∧
    db_executions (w_db w') !! new_id = Some new ∧ e_state new = ERunning ∧ e_attempt new = e_attempt e + 1 ∧
    e_item_key new = e_item_key e ∧ live new = true ∧
    db_tasks (w_db w') !! k = Some t' ∧ t_state t' = bridge_ensured Running (t_state t).
Proof.
  intros c opts w k t i e job data returned reason new_id H Hj Hjob Hs Hlat Hct Hig Hdef Hfresh Hblank [Hrt Hre] Hea.
  pose proof (eok_attempt _ (wf_executions _ (at_wf _ _ _ _ _ _ H) _ _ (at_exec _ _ _ _ _ _ H))) as [Ha _].
  assert (e_external_id e = Some job) as Hext by (unfold job_of, matches_ref in Hj; to_prop; done).
  cbn [TaskBridge.project]. unfold observedAttempt. cbn [be_attempt be_jobId]. rewrite aret_bind. unfold startJob.
  unfold abind at 1. rewrite (bridge_find_spec c opts _ _ _ _ _ _ H Hj). apply at_tick in H.
  unfold openRetryAttempts, validateRuntimeAttempt. rewrite (proj2 (Z.ltb_ge _ _)) by lia.
  rewrite abind_assoc, abind_assoc, aret_bind, aret_bind. cbn [x_externalId mapExecution].
  rewrite Hext. assert (default "" (truthy (Some job)) = job) as -> by (by destruct job).
  unfold abind at 1. replace (retry_fuel (Some (e_attempt e + 1))) with (S (S (2 * Z.to_nat (e_attempt e + 1) + 2)))
    by (unfold retry_fuel; cbn; lia).
  destruct (retry_loop_spec c opts (tick w) k t i e job new_id (2 * Z.to_nat (e_attempt e + 1) + 2))
    as (w1 & now & t1 & e1 & -> & H1 & Ht1 & Hv1 & Hi1 & Hx1 & Hr1 & Hold); try done.
  { intros x <-. by rewrite Hdef. }
  { split; lia. }
  unfold exec_identity in Hi1. injection Hi1 as E1 E2 E3 E4 E5 E6 E7.
  pose proof (forward_activate c (mapExecution (next_row now new_id e1)) w1 (wf_linked _ (at_wf _ _ _ _ _ _ H1))) as Hfw.
  destruct (history_exec_rel stays_superseded write_stays_superseded _ _ _ _ (wf_linked _ (at_wf _ _ _ _ _ _ H1)) Hfw Hold)
    as (old & Hold' & Hsup).
  unfold abind at 1. revert Hold' Hfw. unfold TaskBridge.activate. cbn [x_id x_taskId mapExecution].
  change (e_id (next_row now new_id e1)) with new_id.
  rewrite (at_parent _ _ _ _ _ _ H1). unfold abind.
  destruct (bridge_ensure_spec c w1 k t1 new_id (next_row now new_id e1) ERunning None)
    as (w2 & t2 & e2 & -> & H2 & Hs2 & Ht2 & Hv2 & _ & Hi2 & _ & _ & Hsu2 & _ & _);
    [done|unfold is_bound; cbn; rewrite Hx1, Hext; done|set_solver|split; cbn; unfold INT8_MAX in *; lia|].
  destruct (bridge_ensureTask_spec c w2 k t2 new_id e2 Running) as (w3 & t3 & l & -> & H3 & Ht3 & _); [done|set_solver|lia|].
  intros Hold' _. exists w3, old, e2, t3. split; [done|]. split; [exact Hold'|]. split; [by apply Hsup|].
  unfold exec_identity in Hi2. injection Hi2 as _ _ _ F4 F5 _ _. cbn in F4, F5.
  split; [apply H3|]. split; [by rewrite Hs2|]. split; [congruence|]. split; [congruence|].
  split; [unfold live; by rewrite Hsu2|]. split; [apply H3|]. by rewrite Ht3, Ht2, Ht1.
Qed.

Lemma late_retry_is_recorded_witness :
  ∃ w' old new, TaskBridge.project (client:=PostgresBridgeClient demo_session) bare_options QActive
      (BullMQEventOf "job-1" (Some (JsInt 2)) DOther None None) (demo_world mid_db) = (Ok tt, w') ∧
    db_executions (w_db w') !! "e1" = Some old ∧ live old = false ∧
    db_executions (w_db w') !! "e1#2" = Some new ∧ e_state new = ERunning ∧ e_attempt new = 2.
Proof.
  destruct (db_tasks mid_db !! "t1") as [t|] eqn:Ht; [|by vm_compute in Ht].
  destruct (db_executions mid_db !! "e1") as [e|] eqn:He; [|by vm_compute in He].
  assert (e_attempt e = 1) as Hn by (eval_row He; reflexivity).
  assert (map_Forall (λ _ o, of_item "t1" "a" o = true → e_attempt o ≤ 1) (db_executions mid_db)) as Hlat
    by (apply (bool_decide_unpack _); vm_compute; reflexivity).
  destruct (late_retry_is_recorded demo_session bare_options (demo_world mid_db) "t1" t "e1" e "job-1" DOther None None)
    as (w' & old & new & t' & Hrun & Hold & Hsup & Hnew & Hs & Ha & _).
  - apply demo_rows; [apply mid_reachable|exact Ht|exact He|..]; eval_row Ht; eval_row He; vm_compute; reflexivity.
  - eval_row He. vm_compute. reflexivity.
  - discriminate.
  - eval_row He. reflexivity.
  - intros k o Ho Hof. rewrite Hn. apply (Hlat k o Ho). eval_row He. exact Hof.
  - eval_row He. reflexivity.
  - reflexivity.
  - reflexivity.
  - rewrite Hn. vm_compute. reflexivity.
  - rewrite Hn. vm_compute. reflexivity.
  - eval_row Ht. eval_row He. split; vm_compute; discriminate.
  - rewrite Hn. vm_compute. discriminate.
  - rewrite Hn in Hrun, Hnew, Ha. exists w', old, new. split; [exact Hrun|]. split; [exact Hold|]. split; [exact Hsup|].
    split; [exact Hnew|]. split; [exact Hs|exact Ha].
Defined.
