(* ===== verification/ProjectorLease.v ===== *)
(** * Who projects a runtime scope

    [PostgresProjectorLease] ([postgres/projector-lease.ts]): a session-level
    advisory lock, held by the database session of a checked-out connection. A
    class instance keeps the continuations of its pending promises, and the
    database, which may end a session at any time, answers its queries one by
    one. *)

From stdpp Require Import base numbers gmap list.
From Stdlib Require Import Lia.
From S2P Require Import Prelude.

#[local] Open Scope nat_scope.

(** ** The lease *)

Module Lease.
(** A checked-out connection, and the database session behind it. *)
Record conn := Conn { cn_owner : nat; cn_alive : bool; cn_discarded : bool }.

(** A pending [await] of a method; [None] is a query the database has not
    executed, [Some b] one whose answer is on its way. *)
Inductive cont : Type :=
| Connecting
| Locking (s : nat) (answer : option bool)
| Pinging (s : nat) (answered : bool)
| Unlocking (s : nat) (answered : bool).

Inductive answer : Type :=
| AcquireSays (b : bool)
| VerifySays (b : bool)
| Released
| Threw.

(** The instances are numbered; [l_sessions] is the field [session] of each,
    [l_lock] the session that holds the advisory lock of the scope. *)
Record state := State {
  l_sessions : gmap nat nat; l_conns : list conn; l_lock : option nat; l_pending : list (nat * cont);
  l_told : list (nat * answer);
}.

Definition init : state := State ∅ [] None [] [].

Definition with_sessions f (st : state) := State (f (l_sessions st)) (l_conns st) (l_lock st) (l_pending st) (l_told st).
Definition with_conns f (st : state) := State (l_sessions st) (f (l_conns st)) (l_lock st) (l_pending st) (l_told st).
Definition with_lock l (st : state) := State (l_sessions st) (l_conns st) l (l_pending st) (l_told st).
Definition with_pending f (st : state) := State (l_sessions st) (l_conns st) (l_lock st) (f (l_pending st)) (l_told st).
Definition tell p a (st : state) := State (l_sessions st) (l_conns st) (l_lock st) (l_pending st) (l_told st ++ [(p, a)]).

Definition alive (st : state) (s : nat) : bool := match l_conns st !! s with Some c => cn_alive c | None => false end.
Definition discarded (st : state) (s : nat) : bool := match l_conns st !! s with Some c => cn_discarded c | None => true end.

(** [if (this.session === session) this.session = undefined] *)
Definition forget (p s : nat) (st : state) : state :=
  if bool_decide (l_sessions st !! p = Some s) then with_sessions (delete p) st else st.

Definition mark_discarded (s : nat) (st : state) : state :=
  with_conns (alter (λ c, Conn (cn_owner c) (cn_alive c) true) s) st.

(** [discard]: the connection is destroyed; its session ends when the database
    notices. *)
Definition discard (p s : nat) (st : state) : state := mark_discarded s (forget p s st).

Inductive event : Type :=
| CallAcquire (p : nat)
| CallVerify (p : nat)
| CallRelease (p : nat)
| Connects (j : nat) (ok : bool)
| Serves (j : nat)
| Delivers (j : nat)
| Dies (s : nat)
| Errors (s : nat).

(** The methods up to their first [await]. *)
Definition acquire (p : nat) (st : state) : state :=
  match l_sessions st !! p with
  | Some _ => tell p (AcquireSays true) st
  | None => with_pending (λ l, l ++ [(p, Connecting)]) st
  end.

Definition verify (p : nat) (st : state) : state :=
  match l_sessions st !! p with
  | None => tell p (VerifySays false) st
  | Some s => with_pending (λ l, l ++ [(p, Pinging s false)]) st
  end.

Definition release (p : nat) (st : state) : state :=
  match l_sessions st !! p with
  | None => tell p Released st
  | Some s => with_pending (λ l, l ++ [(p, Unlocking s false)]) (with_sessions (delete p) st)
  end.

(** [pool.connect()] settles: the session is installed before the first query. *)
Definition connected (j : nat) (ok : bool) (st : state) : option state :=
  match l_pending st !! j with
  | Some (p, Connecting) =>
      if ok then
        let s := length (l_conns st) in
        Some (with_pending (<[j := (p, Locking s None)]>) (with_conns (λ l, l ++ [Conn p true false])
          (with_sessions (<[p := s]>) st)))
      else Some (tell p Threw (with_pending (delete j) st))
  | _ => None
  end.

(** The database executes a query on a live session. *)
Definition serve (j : nat) (st : state) : option state :=
  match l_pending st !! j with
  | Some (p, Locking s None) =>
      if alive st s then
        let granted := bool_decide (l_lock st = None) || bool_decide (l_lock st = Some s) in
        Some (with_pending (<[j := (p, Locking s (Some granted))]>) (if granted then with_lock (Some s) st else st))
      else None
  | Some (p, Pinging s false) =>
      if alive st s then Some (with_pending (<[j := (p, Pinging s true)]>) st) else None
  | Some (p, Unlocking s false) =>
      if alive st s then
        Some (with_pending (<[j := (p, Unlocking s true)]>)
          (if bool_decide (l_lock st = Some s) then with_lock None st else st))
      else None
  | _ => None
  end.

(** The continuation of a method: with the answer, or with the rejection of a
    query whose session is gone. *)
Definition deliver (j : nat) (st : state) : option state :=
  match l_pending st !! j with
  | Some (p, Locking s (Some false)) => Some (tell p (AcquireSays false) (forget p s (with_pending (delete j) st)))
  | Some (p, Locking s (Some true)) =>
      Some (tell p (AcquireSays (negb (discarded st s) && bool_decide (l_sessions st !! p = Some s)))
        (with_pending (delete j) st))
  | Some (p, Locking s None) =>
      if alive st s then None else Some (tell p Threw (discard p s (with_pending (delete j) st)))
  | Some (p, Pinging s true) => Some (tell p (VerifySays true) (with_pending (delete j) st))
  | Some (p, Pinging s false) =>
      if alive st s then None else Some (tell p (VerifySays false) (discard p s (with_pending (delete j) st)))
  | Some (p, Unlocking s true) => Some (tell p Released (mark_discarded s (with_pending (delete j) st)))
  | Some (p, Unlocking s false) =>
      if alive st s then None else Some (tell p Threw (mark_discarded s (with_pending (delete j) st)))
  | _ => None
  end.

(** A failover, a restart or [pg_terminate_backend]: the lock goes with the
    session. *)
Definition die (s : nat) (st : state) : state :=
  with_lock (if bool_decide (l_lock st = Some s) then None else l_lock st)
    (with_conns (alter (λ c, Conn (cn_owner c) false (cn_discarded c)) s) st).

(** The client's error event of a dead session, as long as it is listened to. *)
Definition on_error (s : nat) (st : state) : option state :=
  match l_conns st !! s with
  | Some c => if cn_alive c || cn_discarded c then None else Some (discard (cn_owner c) s st)
  | None => None
  end.

Definition step (ev : event) (st : state) : option state :=
  match ev with
  | CallAcquire p => Some (acquire p st)
  | CallVerify p => Some (verify p st)
  | CallRelease p => Some (release p st)
  | Connects j ok => connected j ok st
  | Serves j => serve j st
  | Delivers j => deliver j st
  | Dies s => Some (die s st)
  | Errors s => on_error s st
  end.

Fixpoint run (evs : list event) (st : state) : option state :=
  match evs with
  | [] => Some st
  | ev :: rest => match step ev st with Some st' => run rest st' | None => None end
  end.

(** ** One call at a time

    A caller that awaits each call on an instance before it makes the next, as
    the bridge and the reconciler do. *)

Definition busy (p : nat) (st : state) : bool := bool_decide (p ∈ (l_pending st).*1).

Definition serial (ev : event) (st : state) : bool :=
  match ev with
  | CallAcquire p | CallVerify p | CallRelease p => negb (busy p st)
  | _ => true
  end.

Fixpoint run_serial (evs : list event) (st : state) : option state :=
  match evs with
  | [] => Some st
  | ev :: rest =>
      if serial ev st then match step ev st with Some st' => run_serial rest st' | None => None end else None
  end.

(** A live session [s] has the lock. *)
Definition granted (st : state) (s : nat) : Prop := alive st s = true → l_lock st = Some s.

Definition owned_by (st : state) (s p : nat) : Prop := ∃ c, l_conns st !! s = Some c ∧ cn_owner c = p.

(** What a pending call knows. *)
Definition pending_ok (st : state) (pk : nat * cont) : Prop :=
  let (p, k) := pk in
  match k with
  | Connecting => l_sessions st !! p = None
  | Locking s a => owned_by st s p ∧ (∀ s', l_sessions st !! p = Some s' → s' = s) ∧ (a = Some true → granted st s)
  | Pinging s _ => owned_by st s p ∧ granted st s
  | Unlocking s _ => owned_by st s p ∧ l_sessions st !! p = None
  end.

Record inv (st : state) : Prop := {
  inv_single : NoDup (l_pending st).*1;
  inv_pending : Forall (pending_ok st) (l_pending st);
  inv_owner : ∀ p s, l_sessions st !! p = Some s → owned_by st s p;
  inv_granted : ∀ p s, l_sessions st !! p = Some s →
    (∃ a, (p, Locking s a) ∈ l_pending st ∧ a ≠ Some true) ∨ granted st s;
  inv_lock : ∀ s, l_lock st = Some s → alive st s = true;
}.

Lemma inv_init : inv init.
Proof. split; cbn; try done; try constructor; intros *; by rewrite lookup_empty. Qed.

(** Changes that only lose sessions, and keep what is known about the lock. *)
Lemma inv_frame st st' :
  l_pending st' = l_pending st →
  (∀ p s, l_sessions st' !! p = Some s → l_sessions st !! p = Some s) →
  (∀ s p, owned_by st s p → owned_by st' s p) → (∀ s, granted st s → granted st' s) →
  (∀ s, l_lock st' = Some s → alive st' s = true) → inv st → inv st'.
Proof.
  intros Hp Hs Ho Hg Hl [H1 H2 H3 H4 H5].
  assert (∀ p, l_sessions st !! p = None → l_sessions st' !! p = None) as Hn.
  { intros p Hnone. destruct (l_sessions st' !! p) eqn:E; [|done]. apply Hs in E. congruence. }
  split; rewrite ?Hp; try done.
  - eapply Forall_impl; [exact H2|]. intros [p k]. destruct k; cbn; naive_solver.
  - auto.
  - intros p s E. destruct (H4 p s (Hs _ _ E)); auto.
Qed.

Lemma inv_tell p a st : inv st → inv (tell p a st).
Proof. intros H. apply (inv_frame st); try done. apply H. Qed.

Lemma alive_alter f s st s' :
  (∀ c, cn_alive (f c) = cn_alive c) → alive (with_conns (alter f s) st) s' = alive st s'.
Proof.
  intros Hf. unfold alive. cbn. rewrite list_lookup_alter. case_decide; [|done]. subst. destruct (l_conns st !! s'); cbn; auto.
Qed.

Lemma owned_alter f s st s' p :
  (∀ c, cn_owner (f c) = cn_owner c) → owned_by st s' p → owned_by (with_conns (alter f s) st) s' p.
Proof.
  intros Hf (c & Hc & <-). unfold owned_by. cbn. rewrite list_lookup_alter. case_decide; [|eauto]. subst.
  rewrite Hc. cbn. eauto.
Qed.

Lemma inv_mark s st : inv st → inv (mark_discarded s st).
Proof.
  intros H. apply (inv_frame st); try done.
  - intros s' p. by apply owned_alter.
  - intros s'. unfold granted, mark_discarded. by rewrite alive_alter.
  - intros s' Hl. unfold mark_discarded. rewrite alive_alter by done. by apply (inv_lock _ H).
Qed.

Lemma inv_drop_session p st : inv st → inv (with_sessions (delete p) st).
Proof.
  intros H. apply (inv_frame st); try done; [|apply H]. intros q s. cbn. rewrite lookup_delete. by case_decide.
Qed.

Lemma inv_forget p s st : inv st → inv (forget p s st).
Proof. intros H. unfold forget. case_bool_decide; [by apply inv_drop_session|done]. Qed.

Lemma inv_discard p s st : inv st → inv (discard p s st).
Proof. intros H. by apply inv_mark, inv_forget. Qed.

Lemma inv_die s st : inv st → inv (die s st).
Proof.
  intros H. assert (∀ s', alive (die s st) s' = true → s' ≠ s ∧ alive st s' = true) as Ha.
  { intros s'. unfold alive. cbn. rewrite list_lookup_alter. case_decide as E; [subst|done].
    destruct (l_conns st !! s'); done. }
  apply (inv_frame st); try done.
  - intros s' p. unfold die. by apply owned_alter.
  - intros s' Hg Hal. destruct (Ha s' Hal) as [Hne Hal']. specialize (Hg Hal'). unfold die. cbn. rewrite Hg.
    by rewrite bool_decide_eq_false_2 by congruence.
  - intros s'. unfold die at 1. cbn. case_bool_decide as E; [done|]. intros Hl. pose proof (inv_lock _ H _ Hl) as Hal.
    unfold alive in *. cbn. rewrite list_lookup_alter. case_decide; [congruence|done].
Qed.

(** ** The pending calls *)

Lemma single_pending st j p k k' :
  inv st → l_pending st !! j = Some (p, k) → (p, k') ∈ l_pending st → k' = k.
Proof.
  intros H Hj Hin. apply list_elem_of_lookup in Hin as [i Hi].
  assert (i = j) as ->; [|congruence].
  eapply (NoDup_lookup _ i j p (inv_single _ H)); by rewrite list_lookup_fmap, ?Hi, ?Hj.
Qed.

Lemma pending_at st j p k : inv st → l_pending st !! j = Some (p, k) → pending_ok st (p, k).
Proof. intros H Hj. eapply Forall_lookup_1; [apply H|exact Hj]. Qed.

Lemma inv_replace j p k k' st :
  l_pending st !! j = Some (p, k) → pending_ok st (p, k') →
  (∀ s, l_sessions st !! p = Some s → (∃ a, k' = Locking s a ∧ a ≠ Some true) ∨ granted st s) →
  inv st → inv (with_pending (<[j := (p, k')]>) st).
Proof.
  intros Hj Hk' Hs H. pose proof H as [H1 H2 H3 H4 H5].
  assert (Hlt : j < length (l_pending st)) by (by eapply lookup_lt_Some).
  split; cbn; try done.
  - rewrite list_fmap_insert. cbn. rewrite list_insert_id; [done|]. by rewrite list_lookup_fmap, Hj.
  - apply Forall_insert; [exact H2|exact Hk'].
  - intros q s Hq. destruct (decide (q = p)) as [->|Hne].
    + destruct (Hs s Hq) as [(a & -> & Ha)|Hg]; [left|by right]. exists a. split; [|done].
      apply list_elem_of_lookup. exists j. by apply list_lookup_insert_eq.
    + destruct (H4 q s Hq) as [(a & Hin & Ha)|Hg]; [left|by right]. exists a. split; [|done].
      apply list_elem_of_lookup in Hin as [i Hi]. apply list_elem_of_lookup. exists i.
      rewrite list_lookup_insert_ne; [done|]. intros <-. congruence.
Qed.

Lemma inv_remove j p k st :
  l_pending st !! j = Some (p, k) → (∀ s, l_sessions st !! p = Some s → granted st s) →
  inv st → inv (with_pending (delete j) st).
Proof.
  intros Hj Hs [H1 H2 H3 H4 H5]. pose proof (delete_Permutation _ _ _ Hj) as Hperm. split; cbn; try done.
  - rewrite Hperm in H1. cbn in H1. by apply NoDup_cons in H1 as [_ H1].
  - rewrite Hperm in H2. by apply Forall_cons in H2 as [_ H2].
  - intros q s Hq. destruct (decide (q = p)) as [->|Hne]; [right; by apply Hs|].
    destruct (H4 q s Hq) as [(a & Hin & Ha)|Hg]; [left|by right]. exists a. split; [|done].
    rewrite Hperm in Hin. apply elem_of_cons in Hin as [E|Hin]; [congruence|done].
Qed.

Lemma inv_add p k st :
  busy p st = false → pending_ok st (p, k) → inv st → inv (with_pending (λ l, l ++ [(p, k)]) st).
Proof.
  intros Hb Hk [H1 H2 H3 H4 H5]. split; cbn; try done.
  - rewrite fmap_app. cbn. apply NoDup_app. split; [done|]. split; [|apply NoDup_singleton].
    intros q Hq Hin. apply list_elem_of_singleton in Hin as ->. unfold busy in Hb. by apply bool_decide_eq_false in Hb.
  - apply Forall_app. split; [exact H2|]. by constructor.
  - intros q s Hq. destruct (H4 q s Hq) as [(a & Hin & Ha)|Hg]; [left|by right]. exists a. rewrite elem_of_app. auto.
Qed.

(** An instance with nothing pending holds the lock as long as its session lives. *)
Lemma idle_granted st p s : inv st → busy p st = false → l_sessions st !! p = Some s → granted st s.
Proof.
  intros H Hb Hs. destruct (inv_granted _ H p s Hs) as [(a & Hin & _)|Hg]; [|done].
  apply bool_decide_eq_false in Hb. destruct Hb. apply list_elem_of_fmap. by exists (p, Locking s a).
Qed.

Lemma other_granted st j p k s :
  inv st → l_pending st !! j = Some (p, k) → l_sessions st !! p = Some s →
  (∀ a, k = Locking s a → a = Some true) → granted st s.
Proof.
  intros H Hj Hs Hk. destruct (inv_granted _ H p s Hs) as [(a & Hin & Ha)|Hg]; [|done].
  destruct Ha. apply Hk. symmetry. by eapply single_pending.
Qed.

(** ** Every event keeps the invariant *)

Lemma owned_unique st s p q : owned_by st s p → owned_by st s q → p = q.
Proof. intros (c & Hc & <-) (c' & Hc' & <-). congruence. Qed.

Lemma inv_acquire p st : busy p st = false → inv st → inv (acquire p st).
Proof.
  intros Hb H. unfold acquire. destruct (l_sessions st !! p) eqn:E; [by apply inv_tell|]. by apply inv_add.
Qed.

Lemma inv_verify p st : busy p st = false → inv st → inv (verify p st).
Proof.
  intros Hb H. unfold verify. destruct (l_sessions st !! p) as [s|] eqn:E; [|by apply inv_tell].
  apply inv_add; [done| |done]. split; [by apply (inv_owner _ H)|by eapply idle_granted].
Qed.

Lemma inv_release p st : busy p st = false → inv st → inv (release p st).
Proof.
  intros Hb H. unfold release. destruct (l_sessions st !! p) as [s|] eqn:E; [|by apply inv_tell].
  apply (inv_add p (Unlocking s false) (with_sessions (delete p) st)); [done| |by apply inv_drop_session].
  split; [by apply (inv_owner _ H)|]. cbn. by rewrite lookup_delete_eq.
Qed.

(** A fresh session is unknown to everyone else. *)
Lemma inv_open p st :
  inv st → l_sessions st !! p = None →
  let st' := with_conns (λ l, l ++ [Conn p true false]) st in
  inv st' ∧ owned_by st' (length (l_conns st)) p ∧ l_lock st ≠ Some (length (l_conns st)).
Proof.
  intros H Hp st'. set (s := length (l_conns st)).
  assert (∀ s', s' ≠ s → alive st' s' = alive st s') as Ha.
  { intros s' Hne. unfold alive, st'. cbn. destruct (decide (s' < s)) as [Hlt|Hge]; [by rewrite lookup_app_l|].
    rewrite !lookup_ge_None_2; [done|fold s; lia|]. rewrite length_app. cbn. fold s. lia. }
  assert (l_lock st ≠ Some s) as Hl.
  { intros E. pose proof (inv_lock _ H _ E) as Hal. unfold alive in Hal.
    by rewrite lookup_ge_None_2 in Hal by (fold s; lia). }
  assert (∀ s' q, owned_by st s' q → owned_by st' s' q) as Ho.
  { intros s' q (c & Hc & Hq). exists c. split; [|done]. unfold st'. cbn. by apply lookup_app_l_Some. }
  split; [|split; [|done]].
  2:{ exists (Conn p true false). split; [|done]. unfold st'. cbn. rewrite lookup_app_r by (fold s; lia).
      fold s. by rewrite Nat.sub_diag. }
  destruct H as [H1 H2 H3 H4 H5].
  assert (∀ s' q, owned_by st s' q → granted st s' → granted st' s') as Hg.
  { intros s' q (c & Hc & _) Hg. unfold granted. rewrite Ha; [done|]. apply lookup_lt_Some in Hc. fold s in Hc. lia. }
  split; try done.
  - eapply Forall_impl; [exact H2|]. intros [q k]. destruct k; cbn; naive_solver.
  - auto.
  - intros q s' Hq. destruct (H4 q s' Hq); eauto.
  - intros s' Hs'. rewrite Ha; [by apply H5|]. intros ->. done.
Qed.

(** The session field is set while its lock query is pending. *)
Lemma inv_install j p s st :
  inv st → l_pending st !! j = Some (p, Locking s None) → inv (with_sessions <[p := s]> st).
Proof.
  intros H Hj. pose proof (pending_at _ _ _ _ H Hj) as (Ho & _ & _).
  assert (∀ q k, q ≠ p → pending_ok st (q, k) → pending_ok (with_sessions <[p := s]> st) (q, k)) as Hother.
  { intros q k Hne. destruct k; cbn; rewrite ?lookup_insert_ne by done; done. }
  pose proof H as [H1 H2 H3 H4 H5]. split; try done.
  - apply Forall_forall. intros [q k] Hin. destruct (decide (q = p)) as [->|Hne].
    + assert (k = Locking s None) as -> by (by eapply single_pending). split; [done|]. split; [|done].
      intros s'. cbn. rewrite lookup_insert_eq. congruence.
    + apply Hother; [done|]. rewrite Forall_forall in H2. by apply (H2 (q, k)).
  - intros q s'. cbn. rewrite lookup_insert. case_decide; [|by apply H3]. intros [= <-]. by subst.
  - intros q s'. cbn. rewrite lookup_insert. case_decide; [|by apply H4]. subst. intros [= <-]. left. exists None.
    split; [|done]. apply list_elem_of_lookup. by exists j.
Qed.

Lemma inv_connected j ok st st' : inv st → connected j ok st = Some st' → inv st'.
Proof.
  intros H Hc. unfold connected in Hc. destruct (l_pending st !! j) as [[p k]|] eqn:Ej; [|done].
  destruct k; try done. pose proof (pending_at _ _ _ _ H Ej) as Hn. cbn in Hn. destruct ok; injection Hc as <-.
  2:{ apply inv_tell. eapply inv_remove; [exact Ej| |done]. intros s Hs. congruence. }
  destruct (inv_open p st H Hn) as (H' & Ho & Hl). set (s := length (l_conns st)) in *. set (st1 := with_conns _ st) in *.
  apply (inv_install j p s (with_pending <[j := (p, Locking s None)]> st1)).
  - apply (inv_replace j p Connecting (Locking s None) st1); [exact Ej| | |done].
    + split; [exact Ho|]. split; [|done]. intros s'. change (l_sessions st1) with (l_sessions st). congruence.
    + intros s'. change (l_sessions st1) with (l_sessions st). congruence.
  - cbn. apply list_lookup_insert_eq. by eapply lookup_lt_Some.
Qed.

(** Giving the free lock to a session, or taking it back from its last user. *)
Lemma inv_grant s st :
  alive st s = true → bool_decide (l_lock st = None) || bool_decide (l_lock st = Some s) = true →
  inv st → inv (with_lock (Some s) st) ∧ granted (with_lock (Some s) st) s.
Proof.
  intros Ha Hl H. split; [|done]. apply (inv_frame st); try done.
  - intros s' Hg Hal. specialize (Hg Hal). cbn. rewrite Hg in Hl. apply orb_true_iff in Hl as [Hl|Hl];
      apply bool_decide_eq_true in Hl; congruence.
  - intros s' [= <-]. exact Ha.
Qed.

Lemma inv_unlock j p s b st :
  inv st → l_pending st !! j = Some (p, Unlocking s b) → l_lock st = Some s → inv (with_lock None st).
Proof.
  intros H Hj Hl. pose proof (pending_at _ _ _ _ H Hj) as [Ho Hn]. pose proof H as [H1 H2 H3 H4 H5].
  assert (∀ s' q, owned_by st s' q → q ≠ p → granted st s' → granted (with_lock None st) s') as Hg.
  { intros s' q Ho' Hne Hg Hal. specialize (Hg Hal). rewrite Hl in Hg. injection Hg as <-.
    destruct Hne. by eapply owned_unique. }
  split; try done.
  - apply Forall_forall. intros [q k] Hin. rewrite Forall_forall in H2. pose proof (H2 _ Hin) as Hk.
    destruct (decide (q = p)) as [->|Hne].
    + assert (k = Unlocking s b) as -> by (by eapply single_pending). exact Hk.
    + destruct k; try exact Hk; cbn in *; naive_solver.
  - intros q s' Hq. destruct (H4 q s' Hq) as [?|Hgr]; [by left|]. right. eapply Hg; [by apply H3| |done].
    intros ->. cbn in Hq. congruence.
Qed.

Lemma inv_serve j st st' : inv st → serve j st = Some st' → inv st'.
Proof.
  intros H Hs. unfold serve in Hs. destruct (l_pending st !! j) as [[p k]|] eqn:Ej; [|done].
  pose proof (pending_at _ _ _ _ H Ej) as Hk.
  destruct k as [|s [a|]|s [|]|s [|]]; try done; destruct (alive st s) eqn:Ha; try done; injection Hs as <-.
  - destruct (bool_decide (l_lock st = None) || _) eqn:Hg.
    + destruct (inv_grant s st Ha Hg H) as [H' Hgr].
      eapply (inv_replace j p (Locking s None)); [exact Ej| | |exact H'].
      * destruct Hk as (Ho & Hu & _). by split.
      * intros s' Hs'. right. destruct Hk as (_ & Hu & _). by rewrite (Hu s' Hs').
    + eapply (inv_replace j p (Locking s None)); [exact Ej| | |exact H].
      * destruct Hk as (Ho & Hu & _). split; [done|]. split; done.
      * intros s' Hs'. left. destruct Hk as (_ & Hu & _). rewrite (Hu s' Hs'). by exists (Some false).
  - eapply (inv_replace j p (Pinging s false)); [exact Ej|exact Hk| |exact H].
    intros s' Hs'. right. eapply other_granted; [exact H|exact Ej|exact Hs'|done].
  - case_bool_decide as El.
    + eapply (inv_replace j p (Unlocking s false)); [exact Ej|exact Hk| |by eapply inv_unlock].
      intros s' Hs'. destruct Hk as [_ Hn]. cbn in Hs'. congruence.
    + eapply (inv_replace j p (Unlocking s false)); [exact Ej|exact Hk| |exact H].
      intros s' Hs'. destruct Hk as [_ Hn]. congruence.
Qed.

Lemma forget_session p s st s' : l_sessions (forget p s st) !! p = Some s' → l_sessions st !! p = Some s' ∧ s' ≠ s.
Proof.
  unfold forget. case_bool_decide as E; cbn; [by rewrite lookup_delete_eq|]. intros Hs. split; [done|]. congruence.
Qed.

(** A call that ends by giving up its session. *)
Lemma inv_abandon j p s k st :
  inv st → l_pending st !! j = Some (p, k) → (∀ s', l_sessions st !! p = Some s' → s' ≠ s → granted st s') →
  inv (forget p s (with_pending (delete j) st)).
Proof.
  intros H Hj Hs. replace (forget p s (with_pending (delete j) st)) with (with_pending (delete j) (forget p s st)).
  - eapply inv_remove; [| |by apply inv_forget].
    + replace (l_pending (forget p s st)) with (l_pending st); [exact Hj|]. unfold forget. by case_bool_decide.
    + intros s' Hs'. apply forget_session in Hs' as [Hs' Hne]. specialize (Hs s' Hs' Hne).
      unfold forget. by case_bool_decide.
  - unfold forget. cbn. by case_bool_decide.
Qed.

Lemma inv_deliver j st st' : inv st → deliver j st = Some st' → inv st'.
Proof.
  intros H Hd. unfold deliver in Hd. destruct (l_pending st !! j) as [[p k]|] eqn:Ej; [|done].
  pose proof (pending_at _ _ _ _ H Ej) as Hk.
  assert ((∀ s, l_sessions st !! p = Some s → granted st s) → inv (with_pending (delete j) st)) as Hrm
    by (intros Hs; by eapply inv_remove).
  destruct k as [|s [[|]|]|s [|]|s [|]]; try done;
    try (lazymatch type of Hd with context [alive st s] => destruct (alive st s) eqn:Ha; [done|] end); injection Hd as <-; apply inv_tell.
  all: try (destruct Hk as (Ho & Hu & Hg)); try (apply inv_mark).
  - apply Hrm. intros s' Hs'. rewrite (Hu s' Hs'). by apply Hg.
  - eapply inv_abandon; [done|exact Ej|]. intros s' Hs' Hne. destruct Hne. auto.
  - eapply inv_abandon; [done|exact Ej|]. intros s' Hs' Hne. destruct Hne. auto.
  - apply Hrm. intros s' Hs'. by eapply (other_granted st j p).
  - eapply inv_abandon; [done|exact Ej|]. intros s' Hs' _. by eapply (other_granted st j p).
  - apply Hrm. intros s' Hs'. destruct Hk as [_ Hn]. congruence.
  - apply Hrm. intros s' Hs'. destruct Hk as [_ Hn]. congruence.
Qed.

Lemma inv_step ev st st' : inv st → serial ev st = true → step ev st = Some st' → inv st'.
Proof.
  intros H Hs Hst. destruct ev as [p|p|p|j ok|j|j|s|s]; cbn in *; try (injection Hst as <-; apply negb_true_iff in Hs).
  - by apply inv_acquire.
  - by apply inv_verify.
  - by apply inv_release.
  - by eapply inv_connected.
  - by eapply inv_serve.
  - by eapply inv_deliver.
  - injection Hst as <-. by apply inv_die.
  - unfold on_error in Hst. destruct (l_conns st !! s) as [c|]; [|done]. destruct (_ || _); [done|]. injection Hst as <-.
    by apply inv_discard.
Qed.

Lemma inv_run evs st st' : inv st → run_serial evs st = Some st' → inv st'.
Proof.
  revert st. induction evs as [|ev evs IH]; intros st H Hr; cbn in Hr; [by injection Hr as <-|].
  destruct (serial ev st) eqn:Es; [|done]. destruct (step ev st) as [st1|] eqn:Est; [|done].
  eapply IH; [|exact Hr]. by eapply inv_step.
Qed.

(** An instance that believes it is the projector: it has a session, and the
    call that acquired it has ended. *)
Definition believes (st : state) (p s : nat) : Prop :=
  l_sessions st !! p = Some s ∧ ∀ a, (p, Locking s a) ∉ l_pending st.

(** C13. One projector per scope, as far as the database can know: with each instance
    called one call at a time, whatever sessions the database ends and in whatever
    order answers and error events arrive, an instance that believes it holds the
    lease and whose session is alive holds the advisory lock, so two such
    instances are one; and a [verify] is executed only on the session that holds
    the lock. An instance whose session has ended may still believe it owns the
    scope until its next [verify]. *)
Theorem projector_lease_exclusive : ∀ evs st,
  run_serial evs init = Some st →
  (∀ p s, believes st p s → alive st s = true → l_lock st = Some s) ∧
  (∀ p q s s', believes st p s → believes st q s' → alive st s = true → alive st s' = true → p = q) ∧
  (∀ j p s st', l_pending st !! j = Some (p, Pinging s false) → serve j st = Some st' → l_lock st = Some s).
Proof.
  intros evs st Hr. pose proof (inv_run _ _ _ inv_init Hr) as H.
  assert (∀ p s, believes st p s → alive st s = true → l_lock st = Some s) as Hb.
  { intros p s [Hs Hno] Ha. destruct (inv_granted _ H p s Hs) as [(a & Hin & _)|Hg]; [by destruct (Hno a)|by apply Hg]. }
  split_and!; [exact Hb|..].
  - intros p q s s' Hp Hq Ha Ha'. assert (s' = s) as -> by (apply Hb in Hp; apply Hb in Hq; congruence).
    eapply owned_unique; apply (inv_owner _ H); [apply Hp|apply Hq].
  - intros j p s st' Hj Hsv. pose proof (pending_at _ _ _ _ H Hj) as [_ Hg]. unfold serve in Hsv. rewrite Hj in Hsv.
    destruct (alive st s) eqn:Ha; [|done]. by apply Hg.
Qed.

(** The holder's session is ended, a second instance takes over, and the first
    finds out when it verifies. *)
Definition failover : list event :=
  [CallAcquire 0; Connects 0 true; Serves 0; Delivers 0; Dies 0; CallAcquire 1; Connects 0 true; Serves 0; Delivers 0;
   CallVerify 0; CallVerify 1; Delivers 0; Serves 0; Delivers 0].

Lemma projector_lease_exclusive_witness :
  ∃ st, run_serial failover init = Some st ∧
    l_told st = [(0, AcquireSays true); (1, AcquireSays true); (0, VerifySays false); (1, VerifySays true)] ∧
    l_lock st = Some 1 ∧
    ∀ p q s s', believes st p s → believes st q s' → alive st s = true → alive st s' = true → p = q.
Proof.
  destruct (run_serial failover init) as [st|] eqn:E; [|vm_compute in E; discriminate E]. exists st. split; [reflexivity|].
  pose proof (projector_lease_exclusive failover st E) as (_ & Hx & _). vm_compute in E. injection E as <-.
  split; [reflexivity|]. split; [reflexivity|exact Hx].
Defined.

(** Two overlapping calls of [acquire] on one instance can lose the lease for
    good: both are told they do not own the scope, the instance has no session
    and no call pending, and a live session keeps the advisory lock, which a later
    [release] of that instance does not give back. *)
Theorem overlapping_acquires_leak_lock : ∃ st,
  run [CallAcquire 0; CallAcquire 0; Connects 0 true; Connects 1 true; Serves 0; Serves 1; Delivers 1; Delivers 0] init = Some st ∧
  l_told st = [(0, AcquireSays false); (0, AcquireSays false)] ∧ l_sessions st !! 0 = None ∧ l_pending st = [] ∧
  l_lock st = Some 0 ∧ alive st 0 = true ∧ release 0 st = tell 0 Released st.
Proof. eexists. split; [vm_compute; reflexivity|]. split_and!; reflexivity. Qed.
End Lease.
