(* ===== verification/BridgeLifecycle.v ===== *)
(** * The ownership of a bridge

    The part of [BullMQTaskBridge] ([bullmq/task-bridge.ts]) that acquires the
    projector lease, polls it and gives it up: one bridge with a
    [projectorLease], seen through its ownership fields. The lease is whatever
    answers [acquire], [verify] and [release]; the events are the calls of the
    application, the timer, and the answers. [b_scopes] is the entry of
    [activeScopes] for the scope (0 when absent), which other bridges of the
    process share. *)

From stdpp Require Import base numbers gmap list.
From Stdlib Require Import Lia.
From S2P Require Import Prelude.

#[local] Open Scope nat_scope.

Module Lifecycle.
Inductive projector_state := Unowned | Projecting | Lost | Closed.

Inductive pending_call := Acquiring | Verifying.

Record bridge := Bridge {
  b_closed : bool; b_leaseAcquired : bool; b_state : projector_state; b_timer : bool; b_verifying : bool;
  b_scopeRegistered : bool; b_subscribed : bool; b_scopes : nat; b_pending : list pending_call;
  b_releases : nat; b_lost : nat;
}.

(** [releaseScope]: the entry is deleted when nothing remains. *)
Definition releaseScope (n : nat) : nat := Nat.pred n.

Definition with_scope (registered : bool) (scopes : nat) (b : bridge) : bridge :=
  Bridge (b_closed b) (b_leaseAcquired b) (b_state b) (b_timer b) (b_verifying b) registered (b_subscribed b) scopes
    (b_pending b) (b_releases b) (b_lost b).
Definition with_pending (l : list pending_call) (b : bridge) : bridge :=
  Bridge (b_closed b) (b_leaseAcquired b) (b_state b) (b_timer b) (b_verifying b) (b_scopeRegistered b) (b_subscribed b)
    (b_scopes b) l (b_releases b) (b_lost b).
Definition with_verifying (v : bool) (b : bridge) : bridge :=
  Bridge (b_closed b) (b_leaseAcquired b) (b_state b) (b_timer b) v (b_scopeRegistered b) (b_subscribed b) (b_scopes b)
    (b_pending b) (b_releases b) (b_lost b).
Definition with_state (s : projector_state) (b : bridge) : bridge :=
  Bridge (b_closed b) (b_leaseAcquired b) s (b_timer b) (b_verifying b) (b_scopeRegistered b) (b_subscribed b) (b_scopes b)
    (b_pending b) (b_releases b) (b_lost b).
Definition with_owner (acquired subscribed timer : bool) (b : bridge) : bridge :=
  Bridge (b_closed b) acquired (b_state b) timer (b_verifying b) (b_scopeRegistered b) subscribed (b_scopes b)
    (b_pending b) (b_releases b) (b_lost b).
Definition add_release (b : bridge) : bridge :=
  Bridge (b_closed b) (b_leaseAcquired b) (b_state b) (b_timer b) (b_verifying b) (b_scopeRegistered b) (b_subscribed b)
    (b_scopes b) (b_pending b) (S (b_releases b)) (b_lost b).

(** The constructor: [warnOnDuplicateScope] registers the scope, or refuses a
    second bridge of the process ([None]) unless duplicates are allowed. *)
Definition construct (scopes : nat) (allowConcurrentBridges : bool) : option bridge :=
  if (0 <? scopes) && negb allowConcurrentBridges then None
  else Some (Bridge false false Unowned false false true false (S scopes) [] 0 0).

(** [if (this.scopeRegistered) { releaseScope(..); this.scopeRegistered = false }] *)
Definition unregister (b : bridge) : bridge :=
  if b_scopeRegistered b then with_scope false (releaseScope (b_scopes b)) b else b.

(** [start()] up to [await lease.acquire()]; [None] is the exception after [close()]. *)
Definition start (b : bridge) : option bridge :=
  if b_closed b then None else
  if b_leaseAcquired b then Some b else Some (with_pending (b_pending b ++ [Acquiring]) b).

(** How [acquire] ends: it throws, refuses, or grants; then [subscribe] may throw. *)
Inductive acquire_result := AcquireThrows | AcquireRefuses | AcquireGrants (subscribes : bool).

(** The rest of [start()]; [polls] says whether [startLeaseVerification] sets a
    timer (the lease has [verify] and the interval is positive). *)
Definition started (r : acquire_result) (polls : bool) (b : bridge) : bridge :=
  match r with
  | AcquireThrows => with_scope false (releaseScope (b_scopes b)) b
  | AcquireRefuses => with_scope false (releaseScope (b_scopes b)) (with_state Unowned b)
  | AcquireGrants subscribes =>
      let b1 := with_state Projecting b in
      if b_subscribed b || subscribes then with_owner true true (b_timer b || polls) b1
      else add_release (unregister (with_owner false false (b_timer b) b1))
  end.

(** The timer calls [verifyLeaseOnce]. *)
Definition tick (b : bridge) : option bridge :=
  if negb (b_timer b) then None else
  if b_verifying b || b_closed b || negb (b_leaseAcquired b) then Some b
  else Some (with_verifying true (with_pending (b_pending b ++ [Verifying]) b)).

Definition loseLease (b : bridge) : bridge :=
  if negb (b_leaseAcquired b) then b else
  let b1 := unregister (with_owner false false false (with_state Lost b)) in
  Bridge (b_closed b1) (b_leaseAcquired b1) (b_state b1) (b_timer b1) (b_verifying b1) (b_scopeRegistered b1) (b_subscribed b1)
    (b_scopes b1) (b_pending b1) (b_releases b1) (S (b_lost b1)).

(** [verify] answers, or throws, which counts as [false]. *)
Definition verified (held : bool) (b : bridge) : bridge :=
  let b1 := with_verifying false b in if held then b1 else loseLease b1.

Definition close (b : bridge) : bridge :=
  if b_closed b then b else
  let b1 := Bridge true (b_leaseAcquired b) Closed false (b_verifying b) (b_scopeRegistered b) false (b_scopes b)
              (b_pending b) (b_releases b) (b_lost b) in
  let b2 := unregister b1 in
  if b_leaseAcquired b2 then add_release (with_owner false false false b2) else b2.

Inductive event : Type :=
| Starts
| AcquireSettles (r : acquire_result) (polls : bool)
| Ticks
| VerifySettles (held : bool)
| Closes.

Fixpoint remove_first (k : pending_call) (l : list pending_call) : option (list pending_call) :=
  match l with
  | [] => None
  | x :: rest =>
      match k, x with
      | Acquiring, Acquiring | Verifying, Verifying => Some rest
      | _, _ => cons x <$> remove_first k rest
      end
  end.

Definition step (ev : event) (b : bridge) : option bridge :=
  match ev with
  | Starts => start b
  | AcquireSettles r polls =>
      match remove_first Acquiring (b_pending b) with Some l => Some (started r polls (with_pending l b)) | None => None end
  | Ticks => tick b
  | VerifySettles held =>
      match remove_first Verifying (b_pending b) with Some l => Some (verified held (with_pending l b)) | None => None end
  | Closes => Some (close b)
  end.

Fixpoint run (evs : list event) (b : bridge) : option bridge :=
  match evs with
  | [] => Some b
  | ev :: rest => match step ev b with Some b' => run rest b' | None => None end
  end.

(** ** What it keeps *)

Definition owner_ok (b : bridge) : Prop :=
  b_subscribed b = b_leaseAcquired b ∧ (b_timer b = true → b_leaseAcquired b = true).

Lemma owner_unregister b : owner_ok b → owner_ok (unregister b).
Proof. unfold unregister. by destruct (b_scopeRegistered b). Qed.

Lemma owner_lost b : owner_ok b → owner_ok (loseLease b) ∧ b_subscribed (loseLease b) = false.
Proof.
  intros [H1 H2]. unfold loseLease. destruct (b_leaseAcquired b) eqn:E; cbn [negb].
  - pose proof (owner_unregister (with_owner false false false (with_state Lost b))) as Hu.
    split; [by apply Hu|]. unfold unregister. cbn. by destruct (b_scopeRegistered b).
  - split; [|done]. split; [congruence|]. intros Ht. by rewrite E, H2.
Qed.

Lemma owner_step ev b b' : owner_ok b → step ev b = Some b' → owner_ok b'.
Proof.
  intros [H1 H2] H. destruct ev as [|r polls| |held|]; cbn in H.
  - unfold start in H. destruct (b_closed b); [done|]. destruct (b_leaseAcquired b) eqn:E; injection H as <-; by split; cbn; rewrite ?E.
  - destruct (remove_first _ _) as [l|]; [|done]. injection H as <-. destruct r as [| |sub]; cbn [started]; try by split.
    destruct (b_subscribed (with_pending l b) || sub) eqn:Es; [by split|]. apply orb_false_iff in Es as [Es _]. cbn in Es.
    assert (b_timer b = false) as Et by (destruct (b_timer b); [rewrite <-H1, Es in H2; by specialize (H2 eq_refl)|done]).
    apply (owner_unregister (with_owner false false (b_timer (with_pending l b)) (with_state Projecting (with_pending l b)))).
    split; [done|]. cbn. by rewrite Et.
  - unfold tick in H. destruct (b_timer b) eqn:Et; [|done]. cbn [negb] in H.
    destruct (_ || _); injection H as <-; split; cbn; rewrite ?Et; auto.
  - destruct (remove_first _ _) as [l|]; [|done]. injection H as <-. unfold verified. destruct held; [by split|].
    by apply (owner_lost (with_verifying false (with_pending l b))).
  - injection H as <-. unfold close. destruct (b_closed b); [by split|].
    match goal with |- context [unregister ?x] => set (b1 := x) end.
    assert (b_subscribed (unregister b1) = false ∧ b_timer (unregister b1) = false ∧
      b_leaseAcquired (unregister b1) = b_leaseAcquired b) as (E1 & E2 & E3).
    { unfold unregister, b1. cbn. by destruct (b_scopeRegistered b). }
    destruct (b_leaseAcquired (unregister b1)) eqn:El; [by split|]. split; [congruence|]. congruence.
Qed.

(** A bridge listens to the queue exactly while it takes the lease for its own. *)
Lemma owner_run evs b b' : owner_ok b → run evs b = Some b' → owner_ok b'.
Proof.
  revert b. induction evs as [|ev evs IH]; intros b H Hr; cbn in Hr; [by injection Hr as <-|].
  destruct (step ev b) as [b1|] eqn:E; [|done]. eapply IH; [|exact Hr]. by eapply owner_step.
Qed.

(** Closed for good: nothing is pending that could start it again. *)
Definition silent (b : bridge) : Prop :=
  b_closed b = true ∧ b_leaseAcquired b = false ∧ b_subscribed b = false ∧ b_timer b = false ∧ b_state b = Closed ∧
  Acquiring ∉ b_pending b.

Lemma remove_first_elem k l l' x : remove_first k l = Some l' → x ∈ l' → x ∈ l.
Proof.
  revert l'. induction l as [|y l IH]; intros l' H Hx; cbn in H; [done|].
  destruct k, y; try (injection H as <-; by apply list_elem_of_further);
    destruct (remove_first _ l) as [l1|]; cbn in H; try done; injection H as <-;
    apply elem_of_cons in Hx as [->|Hx]; [apply list_elem_of_here|apply list_elem_of_further; by eapply IH| apply list_elem_of_here|apply list_elem_of_further; by eapply IH].
Qed.

Lemma remove_first_in k l l' : remove_first k l = Some l' → k ∈ l.
Proof.
  revert l'. induction l as [|y l IH]; intros l' H; cbn in H; [done|].
  destruct k, y; try apply list_elem_of_here; destruct (remove_first _ l) as [l1|]; try done;
    apply list_elem_of_further; by eapply IH.
Qed.

Lemma silent_step ev b b' : silent b → step ev b = Some b' → silent b'.
Proof.
  intros (Hc & Ha & Hs & Ht & Hst & Hp) H. destruct ev as [|r polls| |held|]; cbn in H.
  - unfold start in H. by rewrite Hc in H.
  - destruct (remove_first _ _) as [l|] eqn:E; [|done]. destruct Hp. by eapply remove_first_in.
  - unfold tick in H. by rewrite Ht in H.
  - destruct (remove_first _ _) as [l|] eqn:E; [|done]. injection H as <-.
    assert (Acquiring ∉ l) as Hl by (intros Hin; apply Hp; by eapply remove_first_elem).
    unfold verified, loseLease. cbn [b_leaseAcquired with_verifying with_pending]. rewrite Ha. cbn [negb].
    by destruct held; split_and!.
  - injection H as <-. unfold close. rewrite Hc. by split_and!.
Qed.

Lemma silent_run evs b b' : silent b → run evs b = Some b' → silent b'.
Proof.
  revert b. induction evs as [|ev evs IH]; intros b H Hr; cbn in Hr; [by injection Hr as <-|].
  destruct (step ev b) as [b1|] eqn:E; [|done]. eapply IH; [|exact Hr]. by eapply silent_step.
Qed.

Lemma close_silent b : owner_ok b → b_closed b = false → Acquiring ∉ b_pending b → silent (close b).
Proof.
  intros [H1 H2] Hc Hp. unfold close, unregister. rewrite Hc. cbn.
  destruct (b_scopeRegistered b); cbn; destruct (b_leaseAcquired b) eqn:E; by split_and!.
Qed.

(** A lost lease stops the projector, and [close] stops it too, unless a [start]
    is in flight: after any run, a [verify] that answers false leaves the bridge
    unsubscribed and without a timer; so does [close] when no [acquire] is pending,
    and it stays so. *)
Theorem lost_or_closed_bridge_is_silent : ∀ scopes allow b0 evs b,
  construct scopes allow = Some b0 → run evs b0 = Some b →
  (∀ l, remove_first Verifying (b_pending b) = Some l →
    let b1 := verified false (with_pending l b) in b_subscribed b1 = false ∧ b_timer b1 = false) ∧
  (Acquiring ∉ b_pending b → ∀ evs' b', run (Closes :: evs') b = Some b' →
    b_closed b = false → b_subscribed b' = false ∧ b_timer b' = false ∧ b_state b' = Closed).
Proof.
  intros scopes allow b0 evs b Hc Hr.
  assert (owner_ok b) as Hb.
  { eapply owner_run; [|exact Hr]. unfold construct in Hc. destruct (_ && _); [done|]. injection Hc as <-. by split. }
  split.
  - intros l Hl b1. destruct (owner_lost (with_verifying false (with_pending l b))) as [[_ Ht] Hs]; [by destruct Hb|].
    split; [exact Hs|]. unfold b1, verified. destruct (b_timer (loseLease _)) eqn:E; [|done].
    specialize (Ht eq_refl). destruct (owner_lost (with_verifying false (with_pending l b))) as [[Hsa _] _]; [by destruct Hb|].
    congruence.
  - intros Hp evs' b' Hr' Hcl. cbn in Hr'.
    destruct (silent_run evs' (close b) b' (close_silent b Hb Hcl Hp) Hr') as (_ & _ & Hs & Ht & Hst & _). done.
Qed.

Lemma lost_or_closed_bridge_is_silent_witness :
  ∃ b0 b, construct 0 false = Some b0 ∧ run [Starts; AcquireSettles (AcquireGrants true) true; Ticks] b0 = Some b ∧
    b_subscribed b = true ∧ b_subscribed (verified false (with_pending [] b)) = false ∧
    ∃ b', run [Closes; VerifySettles false] b = Some b' ∧ b_subscribed b' = false ∧ b_state b' = Closed.
Proof.
  destruct (construct 0 false) as [b0|] eqn:Ec; [|discriminate Ec].
  destruct (run [Starts; AcquireSettles (AcquireGrants true) true; Ticks] b0) as [b|] eqn:Er;
    [|injection Ec as <-; vm_compute in Er; discriminate Er].
  destruct (lost_or_closed_bridge_is_silent 0 false b0 [Starts; AcquireSettles (AcquireGrants true) true; Ticks] b Ec Er)
    as [H1 H2].
  destruct (run [Closes; VerifySettles false] b) as [b'|] eqn:Eb;
    [|injection Ec as <-; vm_compute in Er; injection Er as <-; vm_compute in Eb; discriminate Eb].
  assert (b_pending b = [Verifying] ∧ b_closed b = false ∧ b_subscribed b = true) as (Hp & Hc & Hs)
    by (injection Ec as <-; vm_compute in Er; injection Er as <-; repeat split).
  exists b0, b. split; [reflexivity|]. split; [exact Er|]. split; [exact Hs|]. split.
  - apply (H1 []). rewrite Hp. reflexivity.
  - exists b'. destruct (H2 ltac:(rewrite Hp; intros Hin; apply list_elem_of_singleton in Hin; discriminate Hin)
      [VerifySettles false] b' Eb Hc) as (Hb1 & _ & Hb2). auto.
Defined.

(** [close] during [start] does not stop the bridge: when the lease is granted
    after [close], the closed bridge subscribes to the queue, says it is
    projecting and keeps the lease, and closing it again does nothing. *)
Theorem close_during_start_keeps_projecting : ∃ b0 b,
  construct 0 false = Some b0 ∧
  run [Starts; Closes; AcquireSettles (AcquireGrants true) true; Closes] b0 = Some b ∧
  b_closed b = true ∧ b_subscribed b = true ∧ b_leaseAcquired b = true ∧ b_state b = Projecting ∧ b_releases b = 0.
Proof. do 2 eexists. split; [reflexivity|]. split; [vm_compute; reflexivity|]. by split_and!. Qed.

(** Every [start] that is refused gives up a registration of the scope, also when
    the bridge has none left: it is another bridge's that goes. *)
Lemma refused_starts_unregister_others : ∃ b0 b,
  construct 1 true = Some b0 ∧ b_scopes b0 = 2 ∧
  run [Starts; AcquireSettles AcquireRefuses true; Starts; AcquireSettles AcquireRefuses true] b0 = Some b ∧
  b_scopes b = 0.
Proof. do 2 eexists. split; [reflexivity|]. split; [reflexivity|]. split; [vm_compute; reflexivity|reflexivity]. Qed.
End Lifecycle.
