(* ===== verification/GuardedRecovery.v ===== *)
(** * Guarded recovery

    [GuardedRecovery] with its two ledgers ([recovery/guarded.ts]): a repair is
    previewed, and executed only with a confirmation, an approval by another
    actor, and an idempotency key that no one has used. The methods are programs that
    await the statements of the ledger and the calls of the application: any number
    of them, of one process or of many, take turns over one ledger. The repair port
    and the post-check belong to the application and answer as they like; a statement
    may not reach the database, and its answer may be lost. *)

From stdpp Require Import base gmap strings list.
From Stdlib Require Import Ascii ZArith Lia.
From S2P Require Import Prelude TaskModel Programs.

(** ** Data *)

Record FindingKey := Finding {
  fk_ruleId : string; fk_subjectType : string; fk_subjectId : string; fk_invariantVersion : Z;
}.

#[export] Instance FindingKey_eq_dec : EqDecision FindingKey.
Proof. solve_decision. Defined.

(** [parameters] is its JSON text. *)
Record GuardedRecoveryRequest := {
  rr_finding : FindingKey; rr_handler : string; rr_parameters : option string; rr_idempotencyKey : string;
  rr_requestedBy : string; rr_approvedBy : option string; rr_approvalReason : option string; rr_confirm : bool;
}.

Inductive repair_state := RProposed | RSucceeded | RFailed | RUncertain | ROther.

#[export] Instance repair_state_eq_dec : EqDecision repair_state.
Proof. solve_decision. Defined.

Record RepairRecord := Repair {
  rp_id : string; rp_finding : FindingKey; rp_handler : string; rp_parameters : string; rp_state : repair_state;
  rp_preview : option string; rp_precondition : option string;
}.

Inductive check_status := CheckVerified | CheckFailed | CheckUnknown.
Inductive stage := Previewed | StageVerified | StageFailed | StageUncertain.

Record GuardedRecoveryResult := RecoveryResult {
  gr_idempotencyKey : string; gr_repairId : string; gr_stage : stage; gr_plan : RepairRecord;
  gr_postCheck : option (check_status * string); gr_replayed : bool;
}.

(** [JSON.stringify] of an object with these fields is injective, so a
    fingerprint is kept as the fields. *)
Definition fingerprint : Type := string * FindingKey * string * string.

(** An error of the port: its message and its [code], if it has one. *)
Record port_error := PortError { pe_message : string; pe_code : option string }.

Inductive recovery_error : Type :=
| RecoveryTypeError
| RecoveryError
| RecoveryInProgressError
| RecoveryPort (e : port_error)
| RecoverySql (e : sql_error)
| RecoveryConnection.

(** ** Helpers *)

Definition normalizedParameters (r : GuardedRecoveryRequest) : string := default "{}" (rr_parameters r).

Definition trimmed_key (r : GuardedRecoveryRequest) : string := js_trim (rr_idempotencyKey r).

Definition fingerprintFor (r : GuardedRecoveryRequest) : fingerprint :=
  (trimmed_key r, rr_finding r, rr_handler r, normalizedParameters r).

Definition blank_option (o : option string) : bool := match o with Some s => js_blank s | None => true end.

Definition lower (c : ascii) : ascii :=
  let n := nat_of_ascii c in if (65 <=? n)%nat && (n <=? 90)%nat then ascii_of_nat (n + 32) else c.

Fixpoint to_lower (s : string) : string :=
  match s with EmptyString => EmptyString | String c rest => String (lower c) (to_lower rest) end.

(** [/already exists|duplicate|unique|conflict/i.test(message) || ..] *)
Definition alreadyExists (e : port_error) : bool :=
  let m := to_lower (pe_message e) in
  includes "already exists" m || includes "duplicate" m || includes "unique" m || includes "conflict" m
  || match pe_code e with
     | Some c => bool_decide (c ∈ ["RHINOQ_ALREADY_EXISTS"; "23505"; "409"])
     | None => false
     end.

Definition invalid_request (r : GuardedRecoveryRequest) : bool :=
  js_blank (rr_idempotencyKey r) || js_blank (rr_requestedBy r) || js_blank (rr_handler r)
  || js_blank (fk_ruleId (rr_finding r)) || js_blank (fk_subjectType (rr_finding r)) || js_blank (fk_subjectId (rr_finding r)).

(** ** The ledger *)

Record ledger_row := LedgerRow { lr_fingerprint : fingerprint; lr_running : bool; lr_result : option GuardedRecoveryResult }.
Notation ltable := (gmap string ledger_row).

(** [INSERT .. ON CONFLICT DO NOTHING RETURNING ..]; the CHECK refuses a blank key. *)
Definition begin_insert (key : string) (f : fingerprint) : txn ltable sql_error bool := λ t,
  if blank key then Err CHECK_VIOLATION else
  match t !! key with
  | Some _ => Ok (false, t)
  | None => Ok (true, <[key := LedgerRow f true None]> t)
  end.

(** [UPDATE .. SET state='completed' .. WHERE .. AND state='running' RETURNING ..] *)
Definition complete_update (key : string) (f : fingerprint) (v : GuardedRecoveryResult) : txn ltable sql_error bool := λ t,
  match t !! key with
  | Some r =>
      if bool_decide (lr_fingerprint r = f) && lr_running r
      then Ok (true, <[key := LedgerRow f false (Some v)]> t) else Ok (false, t)
  | None => Ok (false, t)
  end.

(** [MemoryRecoveryLedger]: a [Map] of one process. *)
Definition mem_begin (key : string) (f : fingerprint) (t : ltable) : result recovery_error (option ledger_row) * ltable :=
  match t !! key with
  | None => (Ok None, <[key := LedgerRow f true None]> t)
  | Some r => if bool_decide (lr_fingerprint r = f) then (Ok (Some r), t) else (Err RecoveryTypeError, t)
  end.

Definition mem_complete (key : string) (f : fingerprint) (v : GuardedRecoveryResult) (t : ltable)
    : result recovery_error unit * ltable :=
  match t !! key with
  | Some r => if bool_decide (lr_fingerprint r = f) then (Ok tt, <[key := LedgerRow f false (Some v)]> t)
              else (Err RecoveryTypeError, t)
  | None => (Ok tt, <[key := LedgerRow f false (Some v)]> t)
  end.

(** ** Calls *)

Inductive port_call : Type :=
| Propose (id : string) (finding : FindingKey) (handler parameters actor : string)
| Preview (id : string)
| Approve (id actor reason : string)
| Execute (id : string).

(** What a run awaits: the statements of [PostgresRecoveryLedger], the methods of
    [MemoryRecoveryLedger], and the port and the post-check for a request. *)
Inductive rcall : Type :=
| LInsert (key : string) (f : fingerprint)
| LSelect (key : string)
| LUpdate (key : string) (f : fingerprint) (v : GuardedRecoveryResult)
| MBegin (key : string) (f : fingerprint)
| MComplete (key : string) (f : fingerprint) (v : GuardedRecoveryResult)
| Port (r : GuardedRecoveryRequest) (c : port_call)
| PostCheck (r : GuardedRecoveryRequest) (plan : RepairRecord).

Definition rans (c : rcall) : Type :=
  match c with
  | LInsert _ _ | LUpdate _ _ _ => bool
  | LSelect _ | MBegin _ _ => option ledger_row
  | MComplete _ _ _ => unit
  | Port _ _ => RepairRecord
  | PostCheck _ _ => check_status * string
  end.

Notation recovery := (prog rans recovery_error).

Inductive fate := Answered | NotDelivered | AnswerLost.

(** The ledger, and how many calls were made. *)
Record rworld := RWorld { rw_ledger : ltable; rw_count : nat }.

Section performed.
(** What becomes of the [n]-th call, and what the application answers to it. *)
Context (fates : nat → fate) (answer : nat → GuardedRecoveryRequest → port_call → result port_error RepairRecord).
Context (postCheck : nat → RepairRecord → result port_error (check_status * string)).

Definition of_port {A} (r : result port_error A) : result recovery_error A :=
  match r with Ok a => Ok a | Err e => Err (RecoveryPort e) end.

Definition statement {A} (m : txn ltable sql_error A) (w : rworld) : result recovery_error A * rworld :=
  let n := rw_count w in
  match fates n with
  | NotDelivered => (Err RecoveryConnection, RWorld (rw_ledger w) (S n))
  | f =>
      match m (rw_ledger w) with
      | Ok (a, t) => (match f with Answered => Ok a | _ => Err RecoveryConnection end, RWorld t (S n))
      | Err e => (Err (RecoverySql e), RWorld (rw_ledger w) (S n))
      end
  end.

Definition rperform (c : rcall) (w : rworld) : result recovery_error (rans c) * rworld :=
  match c with
  | LInsert key f => statement (begin_insert key f) w
  | LSelect key => statement (λ t, Ok (t !! key, t)) w
  | LUpdate key f v => statement (complete_update key f v) w
  | MBegin key f => let '(r, t) := mem_begin key f (rw_ledger w) in (r, RWorld t (S (rw_count w)))
  | MComplete key f v => let '(r, t) := mem_complete key f v (rw_ledger w) in (r, RWorld t (S (rw_count w)))
  | Port r c => (of_port (answer (rw_count w) r c), RWorld (rw_ledger w) (S (rw_count w)))
  | PostCheck _ plan => (of_port (postCheck (rw_count w) plan), RWorld (rw_ledger w) (S (rw_count w)))
  end.
End performed.

Open Scope prog_scope.

Definition throw_when (b : bool) (e : recovery_error) : recovery unit := if b then Throw e else Ret tt.

(** ** [PostgresRecoveryLedger]

    The answer of [begin] is the row it found. *)

Definition begin_ (key : string) (f : fingerprint) : recovery (option ledger_row) :=
  let! inserted := await (LInsert key f : rcall) in
  if (inserted : bool) then Ret None else
  let! row := await (LSelect key) in
  match row with
  | None => Ret None
  | Some r => throw_when (negb (bool_decide (lr_fingerprint r = f))) RecoveryTypeError ;! Ret (Some r)
  end.

Definition complete (key : string) (f : fingerprint) (v : GuardedRecoveryResult) : recovery unit :=
  let! updated := await (LUpdate key f v) in
  throw_when (negb updated) RecoveryError.

(** ** Orchestration *)

(** The ledger of a [GuardedRecovery]: the option [ledger], in memory by default. *)
Inductive ledger_kind := Postgres | Memory.

Section recovery.
(** [sha40] is the head of the SHA-256 digest, [text] the message of an error. *)
Context (sha40 : string → string) (text : recovery_error → string) (ledger : ledger_kind).

Definition ledger_begin (key : string) (f : fingerprint) : recovery (option ledger_row) :=
  match ledger with Postgres => begin_ key f | Memory => await (MBegin key f : rcall) end.

Definition ledger_complete (key : string) (f : fingerprint) (v : GuardedRecoveryResult) : recovery unit :=
  match ledger with Postgres => complete key f v | Memory => await (MComplete key f v : rcall) end.

Definition repairIdFor (r : GuardedRecoveryRequest) : string := ("repair_" ++ sha40 (trimmed_key r))%string.

Definition matches_request (plan : RepairRecord) (r : GuardedRecoveryRequest) : bool :=
  bool_decide (rp_handler plan = rr_handler r) && bool_decide (rp_finding plan = rr_finding r)
  && bool_decide (rp_parameters plan = normalizedParameters r).

Definition preview (r : GuardedRecoveryRequest) : recovery GuardedRecoveryResult :=
  throw_when (invalid_request r) RecoveryTypeError ;!
  let! id :=
    ptry (let! p := await (Port r (Propose (repairIdFor r) (rr_finding r) (rr_handler r) (normalizedParameters r) (rr_requestedBy r))) in
          Ret (rp_id p))
         (λ e, match e with
               | RecoveryPort pe => if alreadyExists pe then Ret (repairIdFor r) else Throw e
               | _ => Throw e
               end) in
  let! plan := await (Port r (Preview id)) in
  throw_when (negb (matches_request plan r)) RecoveryTypeError ;!
  throw_when (blank_option (rp_preview plan) || blank_option (rp_precondition plan)) RecoveryError ;!
  Ret (RecoveryResult (rr_idempotencyKey r) (rp_id plan) Previewed plan None false).

Definition finishUncertain (r : GuardedRecoveryRequest) (repairId : string) (e : recovery_error) (plan : option RepairRecord)
    : recovery GuardedRecoveryResult :=
  let plan := default (Repair repairId (rr_finding r) (rr_handler r) (normalizedParameters r) RUncertain None None) plan in
  let result := RecoveryResult (rr_idempotencyKey r) repairId StageUncertain plan (Some (CheckUnknown, text e)) false in
  ledger_complete (trimmed_key r) (fingerprintFor r) result ;!
  Ret result.

Definition final_stage (plan : RepairRecord) (check : check_status) : stage :=
  match check with
  | CheckVerified => if bool_decide (rp_state plan = RSucceeded) then StageVerified
                     else if bool_decide (rp_state plan = RFailed) then StageFailed else StageUncertain
  | CheckFailed => StageFailed
  | CheckUnknown => if bool_decide (rp_state plan = RFailed) then StageFailed else StageUncertain
  end.

(** [try { v = await p } catch (error) { v = error }]: what follows tells the two apart. *)
Definition caught {A} (p : recovery A) : recovery (recovery_error + A) := ptry (let! a := p in Ret (inr a)) (λ e, Ret (inl e)).

(** The part of [execute] that holds the fence. *)
Definition execute_fenced (r : GuardedRecoveryRequest) (actor reason : string) : recovery GuardedRecoveryResult :=
  let! previewed := caught (preview r) in
  match previewed with
  | inl e => finishUncertain r (repairIdFor r) e None
  | inr p =>
      let! executed := caught (await (Port r (Approve (gr_repairId p) actor reason)) ;! await (Port r (Execute (gr_repairId p)))) in
      match executed with
      | inl e => finishUncertain r (gr_repairId p) e (Some (gr_plan p))
      | inr plan =>
          let! checked := caught (await (PostCheck r plan)) in
          let check := match checked with inr c => c | inl e => (CheckUnknown, text e) end in
          let result := RecoveryResult (rr_idempotencyKey r) (rp_id plan) (final_stage plan check.1) plan (Some check) false in
          ledger_complete (trimmed_key r) (fingerprintFor r) result ;!
          Ret result
      end
  end.

Definition execute (r : GuardedRecoveryRequest) : recovery GuardedRecoveryResult :=
  throw_when (invalid_request r) RecoveryTypeError ;!
  if negb (rr_confirm r) then preview r else
  match rr_approvedBy r, rr_approvalReason r with
  | Some actor, Some reason =>
      throw_when (js_blank actor || js_blank reason) RecoveryTypeError ;!
      throw_when (bool_decide (js_trim actor = js_trim (rr_requestedBy r))) RecoveryTypeError ;!
      let! existing := ledger_begin (trimmed_key r) (fingerprintFor r) in
      match existing with
      | Some (LedgerRow _ false (Some v)) =>
          Ret (RecoveryResult (gr_idempotencyKey v) (gr_repairId v) (gr_stage v) (gr_plan v) (gr_postCheck v) true)
      | Some (LedgerRow _ true _) => Throw RecoveryInProgressError
      | _ => execute_fenced r actor reason
      end
  | _, _ => Throw RecoveryTypeError
  end.
End recovery.
