(* ===== verification/RecoveryFacts.v ===== *)
(** * What guarded recovery promises

    A key is used once: whoever's insert of it into the ledger is answered may execute
    the repair, and nobody else ever does, however many runs overlap. *)

From stdpp Require Import base gmap strings list.
From Stdlib Require Import Ascii ZArith Lia.
From S2P Require Import Prelude TaskModel Programs GuardedRecovery.

(** ** The ledger *)

Definition used (key : string) (t : ltable) : Prop := is_Some (t !! key).

#[export] Instance used_dec key t : Decision (used key t).
Proof. unfold used. apply _. Defined.

(** A completed entry has its result. *)
Definition entries_ok (t : ltable) : Prop := ∀ k r, t !! k = Some r → lr_running r = false → is_Some (lr_result r).

(** What every statement does: no key disappears, and what is completed has a result. *)
Definition grows (t t' : ltable) : Prop := (∀ k, used k t → used k t') ∧ (entries_ok t → entries_ok t').

#[export] Instance grows_preorder : PreOrder grows.
Proof. split; [by split|]. intros t1 t2 t3 [H1 H2] [H3 H4]. split; auto. Qed.

Lemma row_grows key f run v t : (run = false → is_Some v) → grows t (<[key := LedgerRow f run v]> t).
Proof.
  intros Hv. split.
  - intros k Hk. unfold used. rewrite lookup_insert. case_decide; [eauto|done].
  - intros Ht k r. rewrite lookup_insert. case_decide; [|apply Ht]. intros [= <-]. done.
Qed.

Lemma insert_grows k f t b t' : begin_insert k f t = Ok (b, t') → grows t t' ∧ used k t' ∧ (b = true → t !! k = None).
Proof.
  unfold begin_insert. destruct (blank k); [done|]. destruct (t !! k) eqn:E; intros [= <- <-].
  - split; [reflexivity|]. split; [by eexists|done].
  - split; [by apply row_grows|]. split; [|done]. unfold used. rewrite lookup_insert_eq. eauto.
Qed.

Lemma update_grows k f v t b t' : complete_update k f v t = Ok (b, t') → grows t t'.
Proof.
  unfold complete_update. destruct (t !! k) as [r|] eqn:E; [|by intros [= <- <-]].
  destruct (_ && _); intros [= <- <-]; [|done]. apply row_grows. eauto.
Qed.

Lemma mem_begin_grows k f t : let '(r, t') := mem_begin k f t in grows t t' ∧ used k t' ∧ (r = Ok None → t !! k = None).
Proof.
  unfold mem_begin. destruct (t !! k) as [r|] eqn:E.
  - case_bool_decide; (split; [reflexivity|]); (split; [by eexists|done]).
  - split; [by apply row_grows|]. split; [|done]. unfold used. rewrite lookup_insert_eq. eauto.
Qed.

Lemma mem_complete_grows k f v t : grows t (mem_complete k f v t).2.
Proof. unfold mem_complete. destruct (t !! k) as [r|]; [case_bool_decide; [|done]|]; apply row_grows; eauto. Qed.

(** ** Many runs at a time *)

Section facts.
Context (sha40 : string → string) (text : recovery_error → string) (ledger : ledger_kind).
Context (fates : nat → fate) (answer : nat → GuardedRecoveryRequest → port_call → result port_error RepairRecord).
Context (postCheck : nat → RepairRecord → result port_error (check_status * string)).

Notation perform := (rperform fates answer postCheck).
Notation entry := (sigT (λ c, result recovery_error (rans c))).

(** A run of [execute] by a process that goes on with something else. *)
Definition one_run (r : GuardedRecoveryRequest) : prog rans recovery_error unit := started (execute sha40 text ledger r).

(** Runs that begin and take turns as [evs] says, over one ledger, and the log of their calls. *)
Definition together (evs : list (event GuardedRecoveryRequest)) (t : ltable) : rworld * list entry :=
  (Programs.execute (logged perform) one_run evs (RWorld t 0, [])).2.

Definition execute_cost (key : string) (c : rcall) : nat :=
  match c with Port r (Execute _) => if bool_decide (trimmed_key r = key) then 1 else 0 | _ => 0 end.

(** How often [executeRepair] was called for a key. *)
Definition executions (key : string) (log : list entry) : nat := sum_list_with (λ x, execute_cost key (projT1 x)) log.

(** The answer that grants the fence. *)
Definition fence_grant (key : string) (c : rcall) : result recovery_error (rans c) → nat :=
  match c with
  | LInsert k _ => λ r, match r with Ok true => if bool_decide (k = key) then 1 else 0 | _ => 0 end
  | MBegin k _ => λ r, match r with Ok None => if bool_decide (k = key) then 1 else 0 | _ => 0 end
  | _ => λ _, 0
  end%nat.

Definition grants (key : string) (log : list entry) : nat := sum_list_with (λ x, fence_grant key (projT1 x) (projT2 x)) log.

Lemma recovery_counted key c x :
  executions key (logged perform c x).2.2 = (executions key x.2 + execute_cost key c)%nat ∧
  grants key (logged perform c x).2.2 = (grants key x.2 + fence_grant key c (logged perform c x).1)%nat.
Proof. unfold logged, executions, grants. cbn [snd fst]. rewrite !sum_list_with_app. cbn. lia. Qed.

(** ** The invariant: the fence of a key is granted once, and not at all if the key was
    used to begin with. *)

Definition fenced_once (key : string) (before : bool) (x : rworld * list entry) : Prop :=
  entries_ok (rw_ledger x.1) ∧ (if before then used key (rw_ledger x.1) ∧ grants key x.2 = 0%nat
    else (grants key x.2 ≤ 1)%nat ∧ (grants key x.2 ≠ 0%nat → used key (rw_ledger x.1))).

Definition grown (x x' : rworld * list entry) : Prop := grows (rw_ledger x.1) (rw_ledger x'.1).

#[local] Instance grown_preorder : PreOrder grown.
Proof. unfold grown. split; [done|]. intros x y z. by etrans. Qed.

Lemma statement_grows {A} (m : txn ltable sql_error A) w :
  (∀ a t', m (rw_ledger w) = Ok (a, t') → grows (rw_ledger w) t') → grows (rw_ledger w) (rw_ledger (statement fates m w).2).
Proof. intros Hm. unfold statement. destruct (fates _); [..|done|]; destruct (m _) as [[a t']|e] eqn:E; cbn; try done; by eapply Hm. Qed.

Lemma perform_grows c w : grows (rw_ledger w) (rw_ledger (perform c w).2).
Proof.
  destruct c as [k f|k|k f v|k f|k f v|r c|r plan]; cbn; try done.
  - apply statement_grows. intros a t' H. by apply insert_grows in H as [? _].
  - apply statement_grows. by intros a t' [= <- <-].
  - apply statement_grows. intros a t'. apply update_grows.
  - pose proof (mem_begin_grows k f (rw_ledger w)) as H. destruct (mem_begin _ _ _). apply H.
  - pose proof (mem_complete_grows k f v (rw_ledger w)) as H. by destruct (mem_complete _ _ _ _).
Qed.

(** A grant is of a key nobody had used, and uses it. *)
Lemma grant_fresh key c w :
  fence_grant key c (perform c w).1 = 0%nat ∨
  (fence_grant key c (perform c w).1 = 1%nat ∧ ¬ used key (rw_ledger w) ∧ used key (rw_ledger (perform c w).2)).
Proof.
  destruct c as [k f|k|k f v|k f|k f v|r c|r plan]; cbn; auto.
  - unfold statement. destruct (fates _); [|auto|destruct (begin_insert _ _ _) as [[]|]; auto].
    destruct (begin_insert k f (rw_ledger w)) as [[[] t']|e] eqn:E; cbn; auto. case_bool_decide as Hk; [|auto]. subst k. right.
    destruct (insert_grows _ _ _ _ _ E) as (_ & Hu & Hn). split_and!; [done| |done]. unfold used. rewrite Hn by done. by intros [].
  - pose proof (mem_begin_grows k f (rw_ledger w)) as H. destruct (mem_begin _ _ _) as [[[r|]|e] t']; cbn; auto. case_bool_decide as Hk; [|auto].
    subst k. right. destruct H as (_ & Hu & Hn). split_and!; [done| |done]. unfold used. rewrite Hn by done. by intros [].
Qed.

Lemma recovery_call_keeps key before c x : fenced_once key before x → fenced_once key before (logged perform c x).2 ∧ grown x (logged perform c x).2.
Proof.
  intros [He Hb]. pose proof (perform_grows c x.1) as Hg. split; [|done]. destruct (recovery_counted key c x) as [_ Hc]. destruct Hg as [Hu Hok].
  split; [by apply Hok|]. change (logged perform c x).2.1 with (perform c x.1).2. change (logged perform c x).1 with (perform c x.1).1 in Hc. rewrite Hc.
  destruct (grant_fresh key c x.1) as [->|(-> & Hn & Hy)]; destruct before; destruct Hb as [H1 H2]; split; auto; try lia; try done.
  - intros Hne. apply Hu, H2. lia.
  - destruct (decide (grants key x.2 = 0%nat)); [lia|]. destruct Hn. auto.
Qed.

(** ** One run among the others *)

Notation affords_here key before := (affords (logged perform) (fenced_once key before) grown (execute_cost key) (fence_grant key)).

(** Calls that do not execute a repair. *)
Definition harmless (c : rcall) : bool := match c with Port _ (Execute _) => false | _ => true end.

Lemma harmless_preview r : only harmless (preview sha40 r).
Proof.
  unfold preview, throw_when. destruct (invalid_request r); [exact I|]. cbn [pbind]. apply only_bind.
  { apply only_try; [by apply only_bind; [by apply only_await|]|]. intros e. destruct e; try exact I. by case_match. }
  intros id. apply only_bind; [by apply only_await|]. intros plan. by repeat case_match.
Qed.

Lemma harmless_complete k f v : only harmless (ledger_complete ledger k f v).
Proof.
  destruct ledger; [|by split; [|intros []]]. apply only_bind; [by apply only_await|]. intros b. unfold throw_when. by case_match.
Qed.

Lemma harmless_uncertain r id e plan : only harmless (finishUncertain text ledger r id e plan).
Proof. apply only_bind; [apply harmless_complete|]. by intros []. Qed.

Lemma harmless_caught {A} (p : prog rans recovery_error A) : only harmless p → only harmless (caught p).
Proof. intros Hp. apply only_try; [|done]. by apply only_bind. Qed.

Lemma harmless_free key c : harmless c = true → execute_cost key c = 0%nat.
Proof. by destruct c as [| | | | |r []|]. Qed.

Lemma harmless_affords key before {A} n (p : prog rans recovery_error A) x : only harmless p → affords_here key before (λ _ m _, n ≤ m)%nat (λ _ m _, n ≤ m)%nat n p x.
Proof. apply affords_spare; [apply recovery_call_keeps|apply harmless_free]. Qed.

Lemma rest_affords key before {A} n (p : prog rans recovery_error A) x : only harmless p → affords_here key before anyhow anyhow n p x.
Proof. apply affords_free; [apply recovery_call_keeps|apply harmless_free]. Qed.

Lemma fenced_affords key before r actor reason n x :
  ((if bool_decide (trimmed_key r = key) then 1 else 0) ≤ n)%nat → affords_here key before anyhow anyhow n (execute_fenced sha40 text ledger r actor reason) x.
Proof.
  intros Hn. unfold execute_fenced. eapply (affords_bind _ _ _ _ _ (λ _ m _, n ≤ m)%nat).
  { eapply affords_mono; [apply harmless_affords, harmless_caught, harmless_preview|done|done]. }
  intros [e|p] m x1 Hm; [apply rest_affords, harmless_uncertain|]. eapply (affords_bind _ _ _ _ _ anyhow).
  - unfold caught. eapply (affords_try _ _ _ _ _ _ anyhow); [|done]. eapply (affords_bind _ _ _ _ _ anyhow); [|done].
    eapply (affords_bind _ _ _ _ _ (λ _ m _, n ≤ m)%nat).
    { eapply affords_mono; [by apply (harmless_affords key before m), only_await|cbn; intros; lia|done]. }
    intros _ m1 x2 Hm1. apply affords_last. intros x3 _ Hi. destruct (recovery_call_keeps key before (Port r (Execute (gr_repairId p))) x3 Hi).
    split_and!; [done..|cbn [execute_cost]; lia|by destruct (logged _ _ _).1].
  - intros [e|plan] m1 x2 _; [apply rest_affords, harmless_uncertain|]. apply rest_affords.
    apply only_bind; [by apply harmless_caught, only_await|]. intros c. apply only_bind; [apply harmless_complete|]. by intros [].
Qed.

(** [begin] answers "go on" only to the one it granted the fence. *)
Definition passes (key k : string) (o : option ledger_row) (n : nat) (_ : rworld * list entry) : Prop :=
  match o with
  | None => ((if bool_decide (k = key) then 1 else 0) ≤ n)%nat
  | Some row => lr_running row = false → is_Some (lr_result row)
  end.

Lemma recovery_begin_affords key before k f x : affords_here key before (passes key k) anyhow 0 (begin_ k f) x.
Proof.
  apply affords_await. intros x1 _ Hi. destruct (recovery_call_keeps key before (LInsert k f) x1 Hi) as [H1 H2]. split_and!; [done..|cbn; lia|].
  destruct (logged perform (LInsert k f) x1).1 as [[]|e] eqn:E; [cbn [affords passes fence_grant execute_cost]; lia| |exact I].
  assert (used k (rw_ledger (logged perform (LInsert k f) x1).2.1)) as Hu.
  { revert E. unfold logged. cbn. unfold statement. destruct (fates _); [|done|destruct (begin_insert _ _ _) as [[]|]; done].
    destruct (begin_insert _ _ _) as [[b t']|e] eqn:E; [|done]. cbn. intros [= ->]. by destruct (insert_grows _ _ _ _ _ E) as (_ & ? & _). }
  apply affords_await. intros x2 He Hi2. destruct (recovery_call_keeps key before (LSelect k) x2 Hi2) as [H3 H4]. split_and!; [done..|cbn; lia|].
  destruct (logged perform (LSelect k) x2).1 as [o|e] eqn:E2; [|exact I].
  assert (o = rw_ledger x2.1 !! k) as ->.
  { revert E2. unfold logged. cbn. unfold statement. destruct (fates _); [|done|done]. cbn. by intros [= ->]. }
  destruct (proj1 He k Hu) as [row Hrow]. rewrite Hrow. unfold throw_when. destruct (negb _); [exact I|].
  cbn [pbind affords passes]. apply (proj1 Hi2 _ _ Hrow).
Qed.

Lemma mem_begin_affords key before k f x : affords_here key before (passes key k) anyhow 0 (await (MBegin k f : rcall)) x.
Proof.
  apply (affords_last (logged perform) (fenced_once key before) grown (execute_cost key) (fence_grant key) 0 (MBegin k f) (passes key k)).
  intros x1 _ Hi. destruct (recovery_call_keeps key before (MBegin k f) x1 Hi) as [H1 H2]. split_and!; [done..|cbn; lia|].
  destruct (logged perform (MBegin k f) x1).1 as [[row|]|e] eqn:E; [|cbn [passes fence_grant execute_cost]; lia|exact I].
  revert E. unfold logged. cbn. unfold mem_begin. destruct (rw_ledger x1.1 !! k) as [r|] eqn:Er; [|done].
  case_bool_decide; [|done]. cbn. intros [= ->]. apply (proj1 Hi _ _ Er).
Qed.

Lemma recovery_run_affords key before r x : affords_here key before anyhow anyhow 0 (one_run r) x.
Proof.
  unfold one_run, started. eapply (affords_try _ _ _ _ _ _ anyhow); [|done]. eapply (affords_bind _ _ _ _ _ anyhow); [|done].
  unfold execute, throw_when. destruct (invalid_request r); [exact I|]. cbn [pbind]. destruct (rr_confirm r); cbn [negb]; [|apply rest_affords, harmless_preview].
  destruct (rr_approvedBy r) as [actor|]; [|exact I]. destruct (rr_approvalReason r) as [reason|]; [|exact I].
  destruct (_ || _); [exact I|]. cbn [pbind]. destruct (bool_decide _); [exact I|]. cbn [pbind]. eapply affords_bind.
  { unfold ledger_begin. destruct ledger; [apply recovery_begin_affords|apply mem_begin_affords]. }
  intros [[f [] [v|]]|] m x' Ha; cbn in Ha; try exact I; [by destruct (Ha eq_refl)|by apply fenced_affords].
Qed.

(** ** Who may execute *)

(** A request that was confirmed, and approved with a reason by an actor other than the one
    who asks. *)
Definition approved_by_another (r : GuardedRecoveryRequest) (actor reason : string) : Prop :=
  rr_confirm r = true ∧ rr_approvedBy r = Some actor ∧ rr_approvalReason r = Some reason ∧
  js_trim actor ≠ "" ∧ js_trim reason ≠ "" ∧ js_trim actor ≠ js_trim (rr_requestedBy r).

(** The port answered a preview of this very repair, with its change and its precondition. *)
Definition previewed (r : GuardedRecoveryRequest) (id : string) (log : list entry) : Prop :=
  ∃ asked plan, existT (Port r (Preview asked)) (Ok plan) ∈ log ∧ rp_id plan = id ∧
    rp_handler plan = rr_handler r ∧ rp_finding plan = rr_finding r ∧ rp_parameters plan = normalizedParameters r ∧
    blank_option (rp_preview plan) = false ∧ blank_option (rp_precondition plan) = false.

(** And then recorded the approval. *)
Definition backed (r : GuardedRecoveryRequest) (id : string) (log : list entry) : Prop :=
  ∃ actor reason record l1 l2, log = l1 ++ existT (Port r (Approve id actor reason)) (Ok record) :: l2 ∧
    previewed r id l1 ∧ approved_by_another r actor reason.

Definition all_backed (x : rworld * list entry) : Prop :=
  ∀ i y r id, x.2 !! i = Some y → projT1 y = Port r (Execute id) → backed r id (take i x.2).

Definition longer (x x' : rworld * list entry) : Prop := x.2 `prefix_of` x'.2.

#[local] Instance longer_preorder : PreOrder longer.
Proof. unfold longer. split; [by intros x|]. intros x y z. by etrans. Qed.

Lemma previewed_longer r id l l' : l `prefix_of` l' → previewed r id l → previewed r id l'.
Proof. intros [k ->] (asked & plan & Hin & H). exists asked, plan. split; [|done]. apply elem_of_app. by left. Qed.

Lemma backed_longer r id l l' : l `prefix_of` l' → backed r id l → backed r id l'.
Proof. intros [k ->] (actor & reason & record & l1 & l2 & -> & H). exists actor, reason, record, l1, (l2 ++ k). by rewrite <-app_assoc. Qed.

(** A call of the log is backed when the one who makes it has the backing. *)
Lemma call_backed c x : all_backed x → (∀ r id, c = Port r (Execute id) → backed r id x.2) → all_backed (logged perform c x).2 ∧ longer x (logged perform c x).2.
Proof.
  intros Hx Hc. split; [|by eexists]. intros i y r id Hi Hy. unfold logged in Hi |- *. cbn [snd] in *. apply lookup_snoc_Some in Hi as [[Hlt Hi]|[-> <-]].
  - rewrite take_app_le by lia. by eapply Hx.
  - rewrite take_app_length. by apply Hc.
Qed.

Notation safe_here := (safe (logged perform) all_backed longer).

Lemma harmless_safe {A} (p : prog rans recovery_error A) x : only harmless p → safe_here trivial trivial p x.
Proof.
  revert x. induction p as [a|e|c f IH]; intros x Hp; [done..|]. destruct Hp as [Hc Hf]. intros x1 _ Hi.
  destruct (call_backed c x1 Hi) as [H1 H2]; [by intros r id ->|]. destruct (logged perform c x1) as [a x2]. cbn in *. split_and!; [done..|]. by apply IH.
Qed.

Lemma preview_safe r x : safe_here (λ p x', previewed r (gr_repairId p) x'.2) trivial (preview sha40 r) x.
Proof.
  unfold preview, throw_when. destruct (invalid_request r); [exact I|]. cbn [pbind]. eapply (safe_bind _ _ _ trivial).
  { apply harmless_safe. apply only_try; [by apply only_bind; [by apply only_await|]|]. intros e. destruct e; try exact I. by case_match. }
  intros id x1 _. apply safe_await. intros x2 _ Hi. pose proof (call_backed (Port r (Preview id)) x2 Hi) as Hb. unfold logged in *. cbn [rperform fst snd] in *.
  destruct Hb as [H1 H2]; [done|]. split_and!; [done..|]. destruct (answer _ _ _) as [plan|e]; [|done]. cbn [of_port] in *.
  destruct (matches_request plan r) eqn:Em; [|exact I]. cbn [negb pbind]. destruct (_ || _) eqn:Eb; [exact I|]. cbn.
  unfold matches_request in Em. to_prop. exists id, plan. split; [apply elem_of_app; right; by left|]. by split_and!.
Qed.

Lemma recovery_run_safe r x : safe_here trivial trivial (one_run r) x.
Proof.
  apply safe_started. unfold execute, throw_when. destruct (invalid_request r); [exact I|]. cbn [pbind].
  destruct (rr_confirm r) eqn:Ec; cbn [negb]; [|apply harmless_safe, harmless_preview].
  destruct (rr_approvedBy r) as [actor|] eqn:Ea; [|exact I]. destruct (rr_approvalReason r) as [reason|] eqn:Er; [|exact I].
  destruct (_ || _) eqn:Eb; [exact I|]. cbn [pbind]. destruct (bool_decide _) eqn:Et; [exact I|]. cbn [pbind].
  assert (approved_by_another r actor reason) as Hr by (unfold js_blank in Eb; to_prop; by split_and!).
  eapply (safe_bind _ _ _ trivial).
  { apply harmless_safe. unfold ledger_begin. destruct ledger; [|by split; [|intros []]]. apply only_bind; [by apply only_await|]. intros []; [done|].
    apply only_bind; [by apply only_await|]. intros [row|]; [|done]. unfold throw_when. by case_match. }
  intros existing x1 _. enough (safe_here trivial trivial (execute_fenced sha40 text ledger r actor reason) x1) by by destruct existing as [[f [] [v|]]|].
  unfold execute_fenced, caught. eapply (safe_bind _ _ _ (λ p x', match p with inr p => previewed r (gr_repairId p) x'.2 | inl _ => True end)).
  { eapply (safe_try _ _ _ _ trivial); [|done]. eapply safe_bind; [apply preview_safe|]. done. }
  intros [e|p] x2 Hp; [apply harmless_safe, harmless_uncertain|]. eapply (safe_bind _ _ _ trivial).
  - eapply (safe_try _ _ _ _ trivial); [|done]. eapply (safe_bind _ _ _ trivial); [|done]. apply safe_await. intros x3 H3 Hi.
    destruct (call_backed (Port r (Approve (gr_repairId p) actor reason)) x3 Hi) as [H4 H5]; [done|].
    unfold logged in *. cbn [rperform fst snd] in *. split_and!; [done..|]. destruct (answer _ _ _) as [record|e]; [|done]. cbn [of_port] in *.
    apply safe_last. intros x5 H6 Hi5. cbn [snd] in *.
    destruct (call_backed (Port r (Execute (gr_repairId p))) x5 Hi5) as [H7 H8].
    { intros r' id [= <- <-]. eapply backed_longer; [exact H6|]. cbn [snd]. exists actor, reason, record, x3.2, []. split_and!; [done| |done].
      by eapply previewed_longer. }
    split; [exact H7|]. split; [exact H8|]. cbn. by destruct (of_port _).
  - intros [e|plan] x3 _; [apply harmless_safe, harmless_uncertain|]. apply harmless_safe.
    apply only_bind; [by apply harmless_caught, only_await|]. intros c. apply only_bind; [apply harmless_complete|]. by intros [].
Qed.

(** C35. However many runs of [execute] overlap, of any number of processes over one
    PostgreSQL ledger or of one process over its memory ledger, with turns in any order,
    runs abandoned at any point, statements and answers lost and the application
    answering as it likes: [executeRepair] is called at most once for an idempotency key,
    and not at all for a key the ledger held before; and it is called only for a confirmed
    request that another actor approved with a reason, after the port answered a preview
    of this very repair with a change and a precondition, and then recorded the approval. *)
Theorem recovery_executes_once key evs t :
  entries_ok t →
  (executions key (together evs t).2 ≤ if bool_decide (used key t) then 0 else 1)%nat ∧ all_backed (together evs t).
Proof.
  intros Ht. split.
  - destruct (threads_afford (logged perform) one_run (fenced_once key (bool_decide (used key t))) grown (execute_cost key) (fence_grant key)
      (λ x, executions key x.2) (λ x, grants key x.2) (recovery_counted key) (RWorld t 0, []) evs) as [(Hf & ns & _ & Hs) _];
      [intros r x' _ _; apply recovery_run_affords| |done|].
    + split; [done|]. case_bool_decide; [done|]. cbn. by split; [lia|].
    + unfold together. destruct Hf as [_ Hf]. destruct (bool_decide _); lia.
  - destruct (threads_safe (logged perform) one_run all_backed longer (RWorld t 0, []) evs) as [H _]; [intros r x' _; apply recovery_run_safe|by intros i y r id|exact H].
Qed.
End facts.

(** Two runs of a repair overlap: the second finds the fence taken, and a third, after the
    first has completed, is answered with its result. *)
Definition ex_request : GuardedRecoveryRequest := {|
  rr_finding := Finding "stuck" "task" "t1" 1; rr_handler := "requeue"; rr_parameters := None; rr_idempotencyKey := " k1 ";
  rr_requestedBy := "alice"; rr_approvedBy := Some "bob"%string; rr_approvalReason := Some "checked"%string; rr_confirm := true;
|}.
Definition ex_record (s : repair_state) : RepairRecord :=
  Repair "repair_x" (Finding "stuck" "task" "t1" 1) "requeue" "{}" s (Some "requeue t1"%string) (Some "t1 is stuck"%string).
Definition ex_answer : nat → GuardedRecoveryRequest → port_call → result port_error RepairRecord :=
  λ _ _ c, Ok (ex_record (match c with Execute _ => RSucceeded | _ => RProposed end)).
Definition ex_check : nat → RepairRecord → result port_error (check_status * string) := λ _ _, Ok (CheckVerified, "seen"%string).
Definition ex_overlap : list (event GuardedRecoveryRequest) :=
  [Begin ex_request; Begin ex_request; Turn 0; Turn 1; Turn 0; Turn 1; Turn 0; Turn 0; Turn 0; Turn 0; Turn 0; Begin ex_request; Turn 2; Turn 2].

Lemma recovery_executes_once_witness :
  let x := together (λ s, s) (λ _, "error"%string) Postgres (λ _, Answered) ex_answer ex_check ex_overlap ∅ in
  executions "k1" x.2 = 1%nat ∧ lr_running <$> rw_ledger x.1 !! "k1" = Some false ∧ (executions "k1" x.2 ≤ 1)%nat ∧ all_backed x.
Proof.
  intros x. split; [vm_compute; reflexivity|]. split; [vm_compute; reflexivity|].
  refine (recovery_executes_once (λ s, s) (λ _, "error"%string) Postgres (λ _, Answered) ex_answer ex_check "k1" ex_overlap ∅ _).
  intros k r Hr. rewrite lookup_empty in Hr. discriminate Hr.
Defined.
