(* ===== verification/Schedulers.v ===== *)
(** * The two sweep schedulers

    [WaitpointExpiryScheduler] ([tasks/waitpoint-scheduler.ts]) and
    [TaskReconciler] ([tasks/reconciler.ts]) are the same timer loop around
    different sweeps. A class instance is a state machine: a method call, a
    timer that fires and a promise that settles are its events, and an event
    that cannot happen in a state (a timer that is not set, a promise that is
    not pending) is [None]. The continuation of a promise is one event, as the
    JavaScript event loop runs it. *)

From stdpp Require Import base list numbers.
From Stdlib Require Import ZArith Lia.
From S2P Require Import Prelude.

(** ** The timer loop

    [l_timers] are the timers the host has set and not cleared, [l_rescheds]
    the sweeps whose promise has settled and whose [finally] is still to run. *)

Record timer_loop := TimerLoop {
  l_handle : option nat; l_stopped : bool; l_timers : list nat; l_next : nat; l_rescheds : nat;
}.

Definition new_loop : timer_loop := TimerLoop None false [] 0 0.

(** [schedule()] *)
Definition schedule (l : timer_loop) : timer_loop :=
  TimerLoop (Some (l_next l)) (l_stopped l) (l_timers l ++ [l_next l]) (S (l_next l)) (l_rescheds l).

(** [start()]; [Err] is the exception after [stop()]. *)
Definition loop_start (l : timer_loop) : result unit timer_loop :=
  if l_stopped l then Err tt else
  match l_handle l with
  | Some _ => Ok l
  | None => Ok (schedule l)
  end.

Definition drop_timer (t : nat) (ts : list nat) : list nat := List.filter (λ u, negb (Nat.eqb u t)) ts.

(** The part of [stop()] that both classes share. *)
Definition loop_stop (l : timer_loop) : timer_loop :=
  match l_handle l with
  | Some t => TimerLoop None true (drop_timer t (l_timers l)) (l_next l) (l_rescheds l)
  | None => TimerLoop None true (l_timers l) (l_next l) (l_rescheds l)
  end.

(** The timer callback, before it calls [sweep()]. *)
Definition loop_fire (t : nat) (l : timer_loop) : option timer_loop :=
  if existsb (Nat.eqb t) (l_timers l)
  then Some (TimerLoop None (l_stopped l) (drop_timer t (l_timers l)) (l_next l) (l_rescheds l))
  else None.

Definition loop_settled (l : timer_loop) : timer_loop :=
  TimerLoop (l_handle l) (l_stopped l) (l_timers l) (l_next l) (S (l_rescheds l)).

(** [.finally(() => { if (!this.stopped) this.schedule(); })] *)
Definition loop_finally (l : timer_loop) : option timer_loop :=
  match l_rescheds l with
  | O => None
  | S n =>
      let l' := TimerLoop (l_handle l) (l_stopped l) (l_timers l) (l_next l) n in
      Some (if l_stopped l then l' else schedule l')
  end.

(** ** [WaitpointExpiryScheduler] *)

Module Expiry.

(** What a running sweep awaits. *)
Inductive phase : Type :=
| Expiring
| Notifying (count : Z).

(** [by_timer]: the sweep was started by the timer and not by a direct call. *)
Record sweep_call := SweepCall { by_timer : bool; awaiting : phase }.

Inductive effect : Type :=
| ExpireCalled (limit : Z)
| OnExpiredCalled (count : Z)
| OnErrorCalled
| SweepReturned (count : Z)
| StartThrew.

Record scheduler := Scheduler {
  sc_batchLimit : Z;
  sc_onExpired : bool;
  sc_loop : timer_loop;
  sc_running : bool;
  sc_sweeps : Z;
  sc_lastExpired : Z;
  sc_inflight : list sweep_call;
  sc_log : list effect;
}.

(** The constructor's checks; [everyMs] only feeds the host timer. *)
Definition new_scheduler (everyMs batchLimit : option Z) (onExpired : bool) : option scheduler :=
  let every := default 300000 everyMs in
  let limit := default 100 batchLimit in
  if every <? 1000 then None else
  if (limit <? 1) || (500 <? limit) then None else
  Some (Scheduler limit onExpired new_loop false 0 0 [] []).

Definition with_loop (l : timer_loop) (s : scheduler) : scheduler :=
  Scheduler (sc_batchLimit s) (sc_onExpired s) l (sc_running s) (sc_sweeps s) (sc_lastExpired s) (sc_inflight s) (sc_log s).

Definition emit (e : effect) (s : scheduler) : scheduler :=
  Scheduler (sc_batchLimit s) (sc_onExpired s) (sc_loop s) (sc_running s) (sc_sweeps s) (sc_lastExpired s)
    (sc_inflight s) (sc_log s ++ [e]).

Definition settled_loop (timer : bool) (l : timer_loop) : timer_loop := if timer then loop_settled l else l.

(** [sweep()] up to its first await. *)
Definition begin_sweep (timer : bool) (s : scheduler) : scheduler :=
  if sc_running s then emit (SweepReturned 0) (with_loop (settled_loop timer (sc_loop s)) s)
  else Scheduler (sc_batchLimit s) (sc_onExpired s) (sc_loop s) true (sc_sweeps s) (sc_lastExpired s)
         (sc_inflight s ++ [SweepCall timer Expiring]) (sc_log s ++ [ExpireCalled (sc_batchLimit s)]).

(** The [finally] block of [sweep()], and its return. *)
Definition finish_sweep (i : nat) (timer : bool) (count : Z) (s : scheduler) : scheduler :=
  Scheduler (sc_batchLimit s) (sc_onExpired s) (settled_loop timer (sc_loop s)) false (sc_sweeps s + 1)
    (sc_lastExpired s) (delete i (sc_inflight s)) (sc_log s ++ [SweepReturned count]).

(** [expireTaskWaitpoints] settled. *)
Definition expire_settled (i : nat) (r : result unit Z) (s : scheduler) : option scheduler :=
  match sc_inflight s !! i with
  | Some (SweepCall timer Expiring) =>
      Some match r with
      | Err _ => finish_sweep i timer 0 (emit OnErrorCalled s)
      | Ok count =>
          let s1 := Scheduler (sc_batchLimit s) (sc_onExpired s) (sc_loop s) (sc_running s) (sc_sweeps s) count
                      (sc_inflight s) (sc_log s) in
          if (0 <? count) && sc_onExpired s then
            Scheduler (sc_batchLimit s) (sc_onExpired s) (sc_loop s) (sc_running s) (sc_sweeps s) count
              (<[i := SweepCall timer (Notifying count)]> (sc_inflight s)) (sc_log s ++ [OnExpiredCalled count])
          else finish_sweep i timer count s1
      end
  | _ => None
  end.

(** [onExpired] settled. *)
Definition onExpired_settled (i : nat) (r : result unit unit) (s : scheduler) : option scheduler :=
  match sc_inflight s !! i with
  | Some (SweepCall timer (Notifying count)) =>
      Some match r with
      | Err _ => finish_sweep i timer 0 (emit OnErrorCalled s)
      | Ok _ => finish_sweep i timer count s
      end
  | _ => None
  end.

Inductive sched_event : Type :=
| Start
| Stop
| Fire (timer : nat)
| CallSweep
| ExpireSettled (i : nat) (r : result unit Z)
| OnExpiredSettled (i : nat) (r : result unit unit)
| Finally.

Definition step (ev : sched_event) (s : scheduler) : option scheduler :=
  match ev with
  | Start => Some match loop_start (sc_loop s) with Ok l => with_loop l s | Err _ => emit StartThrew s end
  | Stop => Some (with_loop (loop_stop (sc_loop s)) s)
  | Fire t => l ← loop_fire t (sc_loop s); Some (begin_sweep true (with_loop l s))
  | CallSweep => Some (begin_sweep false s)
  | ExpireSettled i r => expire_settled i r s
  | OnExpiredSettled i r => onExpired_settled i r s
  | Finally => l ← loop_finally (sc_loop s); Some (with_loop l s)
  end.

Fixpoint run_events (evs : list sched_event) (s : scheduler) : option scheduler :=
  match evs with
  | [] => Some s
  | ev :: evs => s' ← step ev s; run_events evs s'
  end.
End Expiry.

(** ** [TaskReconciler] *)

Module Reconciler.

Inductive ownership := Unowned | Owned | Closed.

(** What a running sweep awaits. [Reconciling t rest] is the callback on [t]. *)
Inductive phase {T : Type} : Type :=
| Acquiring
| Verifying
| Listing
| Reconciling (t : T) (rest : list T)
| Releasing.
Arguments phase T : clear implicits.

(** [has_lease] and [has_verify]: which optional collaborators are configured. *)
Record config := Config { has_lease : bool; has_verify : bool; batchLimit : Z; queryLimit : option Z }.

(** The constructor: the default query looks at 100 Tasks, and a query given by
    the caller may replace or remove that limit ([Some None]). *)
Definition new_config (lease verify : bool) (everyMs batch : option Z) (limit : option (option Z)) : option config :=
  let qlimit := default (Some 100) limit in
  let b := default (default 100 qlimit) batch in
  if default 300000 everyMs <? 1000 then None else
  if b <=? 0 then None else Some (Config lease verify b qlimit).

(** [limit: Math.min(this.batchLimit, this.query.limit ?? this.batchLimit)] *)
Definition list_limit (k : config) : Z := Z.min (batchLimit k) (default (batchLimit k) (queryLimit k)).

Section reconciler.
Context {T : Type}.

Inductive effect : Type :=
| LeaseAcquire
| LeaseVerify
| LeaseRelease
| ListCalled (limit : Z)
| ReconcileCalled (t : T)
| OnErrorCalled
| OnLeaseLost
| SweepReturned (count : Z)
| StartThrew.

(** The local variables of a running [sweep()]. *)
Record sweep_call := SweepCall {
  by_timer : bool; awaiting : phase T; reconciled : Z; acquiredForSweep : bool;
}.

Record reconciler := Reconciler {
  rc_loop : timer_loop;
  rc_running : bool;
  rc_sweeps : Z;
  rc_leaseHeld : bool;
  rc_leaseState : ownership;
  rc_leaseUnavailable : bool;
  rc_inflight : list sweep_call;
  rc_log : list effect;
}.

Definition new_reconciler : reconciler := Reconciler new_loop false 0 false Unowned false [] [].

Definition emit (e : effect) (s : reconciler) : reconciler :=
  Reconciler (rc_loop s) (rc_running s) (rc_sweeps s) (rc_leaseHeld s) (rc_leaseState s) (rc_leaseUnavailable s)
    (rc_inflight s) (rc_log s ++ [e]).

Definition with_loop (l : timer_loop) (s : reconciler) : reconciler :=
  Reconciler l (rc_running s) (rc_sweeps s) (rc_leaseHeld s) (rc_leaseState s) (rc_leaseUnavailable s)
    (rc_inflight s) (rc_log s).

Definition with_lease (held : bool) (st : ownership) (unavailable : bool) (s : reconciler) : reconciler :=
  Reconciler (rc_loop s) (rc_running s) (rc_sweeps s) held st unavailable (rc_inflight s) (rc_log s).

Definition with_call (i : nat) (x : sweep_call) (s : reconciler) : reconciler :=
  Reconciler (rc_loop s) (rc_running s) (rc_sweeps s) (rc_leaseHeld s) (rc_leaseState s) (rc_leaseUnavailable s)
    (<[i := x]> (rc_inflight s)) (rc_log s).

Definition settled_loop (timer : bool) (l : timer_loop) : timer_loop := if timer then loop_settled l else l.

Definition await_next (i : nat) (p : phase T) (x : sweep_call) (s : reconciler) : reconciler :=
  with_call i (SweepCall (by_timer x) p (reconciled x) (acquiredForSweep x)) s.

(** The end of the [finally] block, and the return. *)
Definition return_sweep (i : nat) (x : sweep_call) (count : Z) (s : reconciler) : reconciler :=
  Reconciler (settled_loop (by_timer x) (rc_loop s)) false (rc_sweeps s + 1) (rc_leaseHeld s) (rc_leaseState s)
    (rc_leaseUnavailable s) (delete i (rc_inflight s)) (rc_log s ++ [SweepReturned count]).

(** The [finally] block: the lease of this sweep is released first. *)
Definition finally_block (k : config) (i : nat) (x : sweep_call) (s : reconciler) : reconciler :=
  if acquiredForSweep x && has_lease k
  then await_next i Releasing x (emit LeaseRelease (with_lease false Unowned (rc_leaseUnavailable s) s))
  else return_sweep i x (reconciled x) s.

Definition call_list (k : config) (i : nat) (x : sweep_call) (s : reconciler) : reconciler :=
  await_next i Listing x (emit (ListCalled (list_limit k)) s).

(** The head of the [for] loop over the selected Tasks. *)
Definition next_task (k : config) (i : nat) (tasks : list T) (x : sweep_call) (s : reconciler) : reconciler :=
  match tasks with
  | [] => finally_block k i x s
  | t :: rest => await_next i (Reconciling t rest) x (emit (ReconcileCalled t) s)
  end.

Definition begin_sweep (k : config) (timer : bool) (s : reconciler) : reconciler :=
  if rc_running s then emit (SweepReturned 0) (with_loop (settled_loop timer (rc_loop s)) s)
  else
    let x := SweepCall timer Acquiring 0 false in
    let s1 := Reconciler (rc_loop s) true (rc_sweeps s) (rc_leaseHeld s) (rc_leaseState s) (rc_leaseUnavailable s)
                (rc_inflight s ++ [x]) (rc_log s) in
    if has_lease k then emit LeaseAcquire s1 else call_list k (length (rc_inflight s)) x s1.

(** [lease.acquire()] settled. *)
Definition acquire_settled (k : config) (i : nat) (x : sweep_call) (r : result unit bool) (s : reconciler) : reconciler :=
  match r with
  | Err _ => finally_block k i x (emit OnErrorCalled s)
  | Ok false => return_sweep i x 0 (with_lease (rc_leaseHeld s) Unowned true s)
  | Ok true =>
      let x' := SweepCall (by_timer x) (awaiting x) (reconciled x) true in
      let s1 := with_lease true Owned false s in
      if has_verify k then await_next i Verifying x' (emit LeaseVerify s1) else call_list k i x' s1
  end.

(** [lease.verify()] settled. *)
Definition verify_settled (k : config) (i : nat) (x : sweep_call) (r : result unit bool) (s : reconciler) : reconciler :=
  match r with
  | Err _ => finally_block k i x (emit OnErrorCalled s)
  | Ok true => call_list k i x s
  | Ok false => return_sweep i x 0 (emit OnLeaseLost (with_lease false Unowned true s))
  end.

Definition list_settled (k : config) (i : nat) (x : sweep_call) (r : result unit (list T)) (s : reconciler) : reconciler :=
  match r with
  | Err _ => finally_block k i x (emit OnErrorCalled s)
  | Ok tasks => next_task k i tasks x s
  end.

(** One callback settled: a failure is reported and the loop goes on. *)
Definition reconcile_settled (k : config) (i : nat) (rest : list T) (x : sweep_call) (r : result unit unit)
    (s : reconciler) : reconciler :=
  match r with
  | Ok _ => next_task k i rest (SweepCall (by_timer x) (awaiting x) (reconciled x + 1) (acquiredForSweep x)) s
  | Err _ => next_task k i rest x (emit OnErrorCalled s)
  end.

Definition release_settled (i : nat) (x : sweep_call) (r : result unit unit) (s : reconciler) : reconciler :=
  return_sweep i x (reconciled x) (match r with Ok _ => s | Err _ => emit OnErrorCalled s end).

(** [stop()] *)
Definition stop (k : config) (s : reconciler) : reconciler :=
  let s1 := with_lease (rc_leaseHeld s) Closed (rc_leaseUnavailable s) (with_loop (loop_stop (rc_loop s)) s) in
  if rc_leaseHeld s && has_lease k then emit LeaseRelease (with_lease false Closed (rc_leaseUnavailable s) s1) else s1.

Inductive rec_event : Type :=
| Start
| Stop
| Fire (timer : nat)
| CallSweep
| AcquireSettled (i : nat) (r : result unit bool)
| VerifySettled (i : nat) (r : result unit bool)
| ListSettled (i : nat) (r : result unit (list T))
| ReconcileSettled (i : nat) (r : result unit unit)
| ReleaseSettled (i : nat) (r : result unit unit)
| Finally.

Definition step (k : config) (ev : rec_event) (s : reconciler) : option reconciler :=
  match ev with
  | Start => Some match loop_start (rc_loop s) with Ok l => with_loop l s | Err _ => emit StartThrew s end
  | Stop => Some (stop k s)
  | Fire t => l ← loop_fire t (rc_loop s); Some (begin_sweep k true (with_loop l s))
  | CallSweep => Some (begin_sweep k false s)
  | AcquireSettled i r =>
      x ← rc_inflight s !! i; match awaiting x with Acquiring => Some (acquire_settled k i x r s) | _ => None end
  | VerifySettled i r =>
      x ← rc_inflight s !! i; match awaiting x with Verifying => Some (verify_settled k i x r s) | _ => None end
  | ListSettled i r =>
      x ← rc_inflight s !! i; match awaiting x with Listing => Some (list_settled k i x r s) | _ => None end
  | ReconcileSettled i r =>
      x ← rc_inflight s !! i;
      match awaiting x with Reconciling t rest => Some (reconcile_settled k i rest x r s) | _ => None end
  | ReleaseSettled i r =>
      x ← rc_inflight s !! i; match awaiting x with Releasing => Some (release_settled i x r s) | _ => None end
  | Finally => l ← loop_finally (rc_loop s); Some (with_loop l s)
  end.

Fixpoint run_events (k : config) (evs : list rec_event) (s : reconciler) : option reconciler :=
  match evs with
  | [] => Some s
  | ev :: evs => s' ← step k ev s; run_events k evs s'
  end.
End reconciler.

Arguments effect T : clear implicits.
Arguments sweep_call T : clear implicits.
Arguments reconciler T : clear implicits.
Arguments rec_event T : clear implicits.
End Reconciler.
