(* ===== verification/SchedulerFacts.v ===== *)
(** * What the sweep schedulers promise

    Sweeps never overlap; the timer loop has one timer at a time and none after
    [stop()] as long as [start()] is not called while a sweep of the loop is
    running, and what happens when it is; a reconciliation sweep offers every
    selected Task to the callback. *)

From stdpp Require Import base list numbers.
From Stdlib Require Import ZArith Lia.
From S2P Require Import Prelude Schedulers.

Module ExpiryFacts.
Import Expiry.

Definition is_expire (e : effect) : bool := match e with ExpireCalled _ => true | _ => false end.
Definition expire_calls (log : list effect) : Z := Z.of_nat (length (List.filter is_expire log)).

Lemma expire_calls_app l e : expire_calls (l ++ [e]) = expire_calls l + b2z (is_expire e).
Proof. unfold expire_calls. rewrite List.filter_app, length_app. destruct e; cbn; lia. Qed.

(** [running] guards the one sweep in flight, and every call of the expiry
    command belongs to a finished sweep or to that one. *)
Definition exclusive (s : scheduler) : Prop :=
  length (sc_inflight s) = (if sc_running s then 1 else 0)%nat ∧
  expire_calls (sc_log s) = sc_sweeps s + Z.of_nat (length (sc_inflight s)).

Lemma inflight_single s i x :
  exclusive s → sc_inflight s !! i = Some x → sc_inflight s = [x] ∧ i = 0%nat.
Proof.
  intros [H _] Hi. destruct (sc_inflight s) as [|y [|z l]]; cbn in H; [done| |destruct (sc_running s); lia].
  destruct i as [|i]; [|done]. by injection Hi as ->.
Qed.

Lemma finish_exclusive i timer count s x :
  exclusive s → sc_inflight s !! i = Some x → exclusive (finish_sweep i timer count s).
Proof.
  intros He Hi. destruct (inflight_single s i x He Hi) as [Hl ->]. destruct He as [_ Hc].
  unfold finish_sweep, exclusive; cbn. rewrite Hl in *. rewrite expire_calls_app, Hc. cbn. lia.
Qed.

Lemma emit_exclusive e s : is_expire e = false → exclusive s → exclusive (emit e s).
Proof. intros E [Hl Hc]. unfold exclusive, emit; cbn. rewrite expire_calls_app, E. cbn. lia. Qed.

Lemma step_exclusive ev s s' : exclusive s → step ev s = Some s' → exclusive s'.
Proof.
  intros He H. destruct ev as [| |t| |i r|i r|]; cbn in H.
  - injection H as <-. destruct (loop_start (sc_loop s)); [done|]. by apply emit_exclusive.
  - by injection H as <-.
  - destruct (loop_fire t (sc_loop s)) as [l|]; [|discriminate]. injection H as <-.
    destruct He as [Hl Hc]. unfold begin_sweep; cbn. destruct (sc_running s) eqn:Er; unfold exclusive; cbn;
      rewrite ?expire_calls_app, ?length_app, ?Er; cbn; lia.
  - injection H as <-. destruct He as [Hl Hc]. unfold begin_sweep; cbn. destruct (sc_running s) eqn:Er;
      unfold exclusive; cbn; rewrite ?expire_calls_app, ?length_app, ?Er; cbn; lia.
  - unfold expire_settled in H. destruct (sc_inflight s !! i) as [[timer [|n]]|] eqn:Ei; try discriminate.
    injection H as <-. destruct r as [count|].
    + destruct ((0 <? count) && sc_onExpired s).
      * destruct He as [Hl Hc]. unfold exclusive; cbn. rewrite length_insert, expire_calls_app. cbn. lia.
      * by eapply finish_exclusive.
    + eapply finish_exclusive; [by apply emit_exclusive|exact Ei].
  - unfold onExpired_settled in H. destruct (sc_inflight s !! i) as [[timer [|n]]|] eqn:Ei; try discriminate.
    injection H as <-. destruct r as [[]|].
    + by eapply finish_exclusive.
    + eapply finish_exclusive; [by apply emit_exclusive|exact Ei].
  - destruct (loop_finally (sc_loop s)); [|discriminate]. by injection H as <-.
Qed.

(** ** The chain of timers

    A chain is a set timer, a sweep the timer started or a [finally] that will
    set the next timer. *)
Definition timer_sweeps (s : scheduler) : nat := length (List.filter by_timer (sc_inflight s)).

Definition quiet (s : scheduler) : bool := (timer_sweeps s =? 0)%nat && (l_rescheds (sc_loop s) =? 0)%nat.

(** [start()] is never called between a timer firing and the next one being
    set, except when the loop is already stopped. *)
Fixpoint disciplined (evs : list sched_event) (s : scheduler) : bool :=
  match evs with
  | [] => true
  | ev :: evs =>
      match ev with Start => quiet s || l_stopped (sc_loop s) | _ => true end &&
      match step ev s with Some s' => disciplined evs s' | None => true end
  end.

Definition one_chain (s : scheduler) : Prop :=
  (length (l_timers (sc_loop s)) + timer_sweeps s + l_rescheds (sc_loop s) ≤ 1)%nat ∧
  l_timers (sc_loop s) = match l_handle (sc_loop s) with Some t => [t] | None => [] end ∧
  (l_stopped (sc_loop s) = true → l_timers (sc_loop s) = []).

Lemma one_chain_settle i timer count s x :
  exclusive s → one_chain s → sc_inflight s !! i = Some (SweepCall timer x) → one_chain (finish_sweep i timer count s).
Proof.
  intros He (Hc & Ht & Hs) Hi. destruct (inflight_single s i _ He Hi) as [Hl ->].
  unfold one_chain, timer_sweeps, finish_sweep in *; cbn. rewrite Hl in *. cbn in *.
  destruct timer; cbn in *; split_and!; (done || lia).
Qed.

Lemma step_one_chain ev s s' :
  exclusive s → one_chain s → match ev with Start => quiet s || l_stopped (sc_loop s) | _ => true end = true →
  step ev s = Some s' → one_chain s'.
Proof.
  intros He Ho Hq H. pose proof Ho as (Hc & Ht & Hs). destruct s as [bl oe [h st ts nx rs] rn sw le fl lg].
  unfold one_chain, timer_sweeps in *. cbn in *.
  destruct ev as [| |t| |i r|i r|]; cbn in H.
  - injection H as <-. unfold loop_start; cbn. destruct st; [done|]. destruct h; [done|]. cbn. subst ts.
    unfold quiet, timer_sweeps in Hq. cbn in Hq. rewrite orb_false_r in Hq. apply andb_true_iff in Hq as [H1 H2].
    apply Nat.eqb_eq in H1, H2. cbn. split_and!; (done || lia).
  - injection H as <-. unfold loop_stop; cbn. destruct h as [t|]; subst ts; cbn in *; rewrite ?Nat.eqb_refl; cbn;
      split_and!; (done || lia).
  - unfold loop_fire in H; cbn in H. destruct h as [t0|]; subst ts; [|done]. cbn in H.
    destruct (Nat.eqb t t0) eqn:E; cbn in H; [|discriminate]. apply Nat.eqb_eq in E as ->. injection H as <-.
    rewrite Nat.eqb_refl. unfold begin_sweep; cbn. cbn in Hc.
    destruct rn; cbn; rewrite ?List.filter_app, ?length_app; cbn; split_and!; (done || lia).
  - injection H as <-. unfold begin_sweep; cbn. destruct rn; cbn; [done|].
    rewrite List.filter_app, length_app; cbn. split_and!; (done || lia).
  - unfold expire_settled in H. destruct (_ !! i) as [[timer [|n]]|] eqn:Ei; try discriminate.
    injection H as <-. destruct r as [count|].
    + destruct ((0 <? count) && _).
      * destruct (inflight_single _ i _ He Ei) as [Hl ->]. cbn in *. subst fl. destruct timer; cbn in *; by split_and!.
      * apply (one_chain_settle _ _ _ (Scheduler bl oe _ rn sw count fl lg) Expiring); done.
    + by apply (one_chain_settle _ _ _ (emit OnErrorCalled _) Expiring); [apply emit_exclusive| |].
  - unfold onExpired_settled in H. destruct (_ !! i) as [[timer [|n]]|] eqn:Ei; try discriminate.
    injection H as <-. destruct r as [[]|].
    + by apply (one_chain_settle _ _ _ _ (Notifying n)).
    + by apply (one_chain_settle _ _ _ (emit OnErrorCalled _) (Notifying n)); [apply emit_exclusive| |].
  - unfold loop_finally in H; cbn in H. destruct rs as [|n]; [discriminate|]. injection H as <-.
    destruct h; subst ts; cbn in *; [lia|]. destruct st; cbn; split_and!; (done || lia).
Qed.

Lemma run_exclusive evs s s' : exclusive s → run_events evs s = Some s' → exclusive s'.
Proof.
  revert s. induction evs as [|ev evs IH]; intros s He H; cbn in H; [by injection H as <-|].
  destruct (step ev s) as [s1|] eqn:E; [|discriminate]. apply (IH s1); [by eapply step_exclusive|done].
Qed.

Lemma run_one_chain evs s s' :
  exclusive s → one_chain s → disciplined evs s = true → run_events evs s = Some s' → one_chain s'.
Proof.
  revert s. induction evs as [|ev evs IH]; intros s He Ho Hd H; cbn in H, Hd; [by injection H as <-|].
  destruct (step ev s) as [s1|] eqn:E; [|discriminate]. apply andb_true_iff in Hd as [Hq Hd].
  apply (IH s1); [by eapply step_exclusive|by eapply step_one_chain|done|done].
Qed.

Lemma new_scheduler_ok everyMs batchLimit cb s :
  new_scheduler everyMs batchLimit cb = Some s → exclusive s ∧ one_chain s.
Proof.
  unfold new_scheduler. repeat case_match; intros; simplify_eq. split; [done|].
  unfold one_chain, timer_sweeps; cbn. split_and!; (done || lia).
Qed.

(** In every interleaving of method calls, timers and settling promises the
    expiry scheduler never has two sweeps in flight: each call of the expiry
    command belongs to a completed sweep or to the only running one. When
    moreover [start()] is not called between a timer firing and the next timer
    being set, at most one timer exists at any time and none is left once the
    scheduler is stopped, so no sweep starts by itself after [stop()]. *)
Theorem expiry_sweeps_exclusive : ∀ everyMs batchLimit cb s0 evs s,
  new_scheduler everyMs batchLimit cb = Some s0 → run_events evs s0 = Some s →
  (length (sc_inflight s) ≤ 1)%nat ∧
  expire_calls (sc_log s) = sc_sweeps s + Z.of_nat (length (sc_inflight s)) ∧
  (disciplined evs s0 = true →
   (length (l_timers (sc_loop s)) ≤ 1)%nat ∧ (l_stopped (sc_loop s) = true → l_timers (sc_loop s) = [])).
Proof.
  intros everyMs batchLimit cb s0 evs s Hn Hr. destruct (new_scheduler_ok _ _ _ _ Hn) as [He Ho].
  destruct (run_exclusive evs s0 s He Hr) as [Hl Hc]. split; [destruct (sc_running s); lia|]. split; [done|].
  intros Hd. destruct (run_one_chain evs s0 s He Ho Hd Hr) as (Hlen & _ & Hs). split; [lia|done].
Qed.

(** Calling [start()] while a sweep of the loop is running is not a no-op:
    the handle is unset during the sweep, so a second chain of timers begins.
    From any state with such a sweep in flight the two chains coexist once the
    sweep returns, [stop()] clears only one of the timers, and the other fires
    and starts a further sweep of the stopped scheduler. *)
Theorem start_during_sweep_outlives_stop : ∀ s,
  exclusive s → one_chain s → l_stopped (sc_loop s) = false → sc_inflight s = [SweepCall true Expiring] →
  ∃ t s1 s2,
    run_events [Start; ExpireSettled 0 (Ok 0); Finally] s = Some s1 ∧ length (l_timers (sc_loop s1)) = 2%nat ∧
    run_events [Stop; Fire t] s1 = Some s2 ∧ l_stopped (sc_loop s2) = true ∧
    sc_inflight s2 = [SweepCall true Expiring] ∧ expire_calls (sc_log s2) = expire_calls (sc_log s) + 1.
Proof.
  intros s He Ho Hst Hfl. destruct s as [bl oe [h st ts nx rs] rn sw le fl lg]. cbn in Hst, Hfl. subst st fl.
  destruct Ho as (Hc & Ht & _). cbn in Hc, Ht. unfold timer_sweeps in Hc; cbn in Hc.
  destruct h; subst ts; cbn in Hc; [lia|]. assert (rs = 0%nat) as -> by lia.
  exists nx. eexists _, _. split; [cbn; reflexivity|]. split; [reflexivity|]. split.
  { assert ((nx =? S nx)%nat = false) as E by (apply Nat.eqb_neq; lia).
    cbn. rewrite E. cbn. rewrite !Nat.eqb_refl. unfold loop_fire. cbn. rewrite !Nat.eqb_refl. cbn. reflexivity. }
  cbn. split; [done|]. split; [done|]. rewrite !expire_calls_app. cbn. lia.
Qed.

Definition demo_scheduler : scheduler := Scheduler 100 true new_loop false 0 0 [] [].

Lemma expiry_sweeps_exclusive_witness :
  ∃ s, run_events [Start; Fire 0; CallSweep; ExpireSettled 0 (Ok 3); OnExpiredSettled 0 (Ok tt); Finally; Stop]
         demo_scheduler = Some s ∧ l_timers (sc_loop s) = [].
Proof.
  destruct (run_events [Start; Fire 0; CallSweep; ExpireSettled 0 (Ok 3); OnExpiredSettled 0 (Ok tt); Finally; Stop]
    demo_scheduler) as [s|] eqn:E; [|by vm_compute in E].
  exists s. split; [done|].
  destruct (expiry_sweeps_exclusive None None true demo_scheduler _ s eq_refl E) as (_ & _ & H).
  apply H; [vm_compute; reflexivity|]. vm_compute in E. by injection E as <-.
Defined.

Definition sweeping : scheduler :=
  Scheduler 100 true (TimerLoop None false [] 1 0) true 0 0 [SweepCall true Expiring] [ExpireCalled 100].

Lemma start_during_sweep_outlives_stop_witness :
  run_events [Start; Fire 0] demo_scheduler = Some sweeping ∧
  ∃ t s1 s2, run_events [Start; ExpireSettled 0 (Ok 0); Finally] sweeping = Some s1 ∧
    run_events [Stop; Fire t] s1 = Some s2 ∧ l_stopped (sc_loop s2) = true.
Proof.
  split; [vm_compute; reflexivity|].
  destruct (start_during_sweep_outlives_stop sweeping) as (t & s1 & s2 & H1 & _ & H2 & H3 & _).
  - split; vm_compute; reflexivity.
  - unfold one_chain, timer_sweeps; cbn. split_and!; (done || lia).
  - reflexivity.
  - reflexivity.
  - eauto 10.
Defined.
End ExpiryFacts.

Module ReconcilerFacts.
Import Reconciler.

Section facts.
Context {T : Type} (k : config).
Implicit Types (s : reconciler T) (x : sweep_call T).

(** The Tasks handed to the callback, in order. *)
Definition offered (log : list (effect T)) : list T :=
  flat_map (λ e, match e with ReconcileCalled t => [t] | _ => [] end) log.

Lemma offered_app l e :
  offered (l ++ [e]) = offered l ++ match e with ReconcileCalled t => [t] | _ => [] end.
Proof. unfold offered. rewrite flat_map_app. cbn. by rewrite app_nil_r. Qed.

Definition succeeded (outcomes : list (result unit unit)) : Z := Z.of_nat (length (List.filter is_ok outcomes)).

Lemma succeeded_cons o os : succeeded (o :: os) = b2z (is_ok o) + succeeded os.
Proof. unfold succeeded. destruct o; cbn [List.filter is_ok length b2z]; lia. Qed.

Lemma run_events_app evs1 evs2 s :
  run_events k (evs1 ++ evs2) s = s' ← run_events k evs1 s; run_events k evs2 s'.
Proof.
  revert s. induction evs1 as [|ev evs1 IH]; intros s; [done|]. cbn. destruct (step k ev s); [apply IH|done].
Qed.

(** How a sweep that was offered [done] ends: the lease, if any, is given back
    and [count] is returned. *)
Definition ended (s s' : reconciler T) (count : Z) (tasks : list T) : Prop :=
  rc_inflight s' = [] ∧ rc_running s' = false ∧ rc_sweeps s' = rc_sweeps s + 1 ∧
  offered (rc_log s') = offered (rc_log s) ++ tasks ∧ ∃ log, rc_log s' = log ++ [SweepReturned count].

Definition release_events (x : sweep_call T) (r : result unit unit) : list (rec_event T) :=
  if acquiredForSweep x && has_lease k then [ReleaseSettled 0 r] else [].

Lemma finally_ends s x r count :
  length (rc_inflight s) = 1%nat → count = reconciled x →
  ∃ s', run_events k (release_events x r) (finally_block k 0 x s) = Some s' ∧ ended s s' count [].
Proof.
  intros Hl ->. destruct (rc_inflight s) as [|y [|]] eqn:E; try done. unfold release_events, finally_block.
  destruct (acquiredForSweep x && has_lease k).
  - cbn. rewrite E. cbn. eexists. split; [reflexivity|]. unfold release_settled, return_sweep, ended; cbn.
    destruct r; cbn; rewrite ?E; cbn; (split_and!; try done; [by rewrite !offered_app, !app_nil_r|by eexists]).
  - cbn. eexists. split; [reflexivity|]. unfold ended, return_sweep; cbn. rewrite ?E. cbn.
    split_and!; try done; [by rewrite offered_app|by eexists].
Qed.

Lemma tasks_end outcomes : ∀ s tasks x r,
  length (rc_inflight s) = 1%nat → length outcomes = length tasks →
  ∃ s', run_events k ((ReconcileSettled 0 <$> outcomes) ++ release_events x r) (next_task k 0 tasks x s) = Some s' ∧
    ended s s' (reconciled x + succeeded outcomes) tasks.
Proof.
  induction outcomes as [|o os IH]; intros s tasks x r Hl Hlen; destruct tasks as [|t tasks]; try discriminate.
  { apply finally_ends; [done|]. unfold succeeded. cbn. lia. }
  rewrite fmap_cons, <-app_comm_cons. cbn [run_events next_task].
  destruct (rc_inflight s) as [|y [|]] eqn:E; try done.
  unfold step, await_next, with_call, emit; cbn. rewrite E. cbn. injection Hlen as Hlen.
  set (s1 := Reconciler _ _ _ _ _ _ _ _). destruct o as [[]|[]]; cbn [reconcile_settled].
  - edestruct (IH s1 tasks (SweepCall (by_timer x) (Reconciling t tasks) (reconciled x + 1) (acquiredForSweep x)) r)
      as (s' & Hr & H1 & H2 & H3 & H4 & H5); [done|done|].
    exists s'. split; [exact Hr|]. rewrite succeeded_cons. cbn in *. split_and!; try done.
    + by rewrite H4, offered_app, <-app_assoc.
    + destruct H5 as [log ->]. exists log. do 3 f_equal. lia.
  - edestruct (IH (emit OnErrorCalled s1) tasks (SweepCall (by_timer x) (Reconciling t tasks) (reconciled x)
      (acquiredForSweep x)) r) as (s' & Hr & H1 & H2 & H3 & H4 & H5); [done|done|].
    exists s'. split; [exact Hr|]. rewrite succeeded_cons. cbn in *. split_and!; try done.
    by rewrite H4, !offered_app, app_nil_r, <-app_assoc.
Qed.

(** A reconciliation sweep reaches every Task it selected: once the read
    answers, each selected Task is handed to the callback exactly once and in
    order, whichever callbacks reject; the sweep then gives its lease back, even
    if the release rejects, ends, and returns the number of callbacks that
    succeeded. *)
Theorem sweep_offers_every_task : ∀ s x tasks outcomes r,
  rc_inflight s = [x] → awaiting x = Listing → length outcomes = length tasks →
  ∃ s', run_events k (ListSettled 0 (Ok tasks) :: (ReconcileSettled 0 <$> outcomes) ++ release_events x r) s = Some s' ∧
    rc_inflight s' = [] ∧ rc_running s' = false ∧ rc_sweeps s' = rc_sweeps s + 1 ∧
    offered (rc_log s') = offered (rc_log s) ++ tasks ∧
    ∃ log, rc_log s' = log ++ [SweepReturned (reconciled x + succeeded outcomes)].
Proof.
  intros s x tasks outcomes r Hi Ha Hlen. cbn [run_events]. unfold step. rewrite Hi. cbn. rewrite Ha. cbn.
  apply tasks_end; [by rewrite Hi|done].
Qed.

(** [stop()] in the middle of a leased sweep gives the lease away while the
    remaining Tasks are still handed to the callback, and the sweep's own
    release then turns the closed reconciler back to [Unowned]. *)
Theorem stop_releases_under_sweep : ∀ s x t t' rest r,
  has_lease k = true → rc_leaseHeld s = true → rc_inflight s = [x] → awaiting x = Reconciling t (t' :: rest) →
  ∃ s', run_events k [Stop; ReconcileSettled 0 r] s = Some s' ∧ rc_leaseHeld s' = false ∧
    l_stopped (rc_loop s') = true ∧
    rc_log s' = rc_log s ++ [LeaseRelease] ++ (if is_ok r then [] else [OnErrorCalled]) ++ [ReconcileCalled t'].
Proof.
  intros s x t t' rest r Hk Hh Hi Ha. cbn [run_events step]. unfold stop. rewrite Hk, Hh. cbn. rewrite Hi. cbn. rewrite Ha.
  destruct r as [[]|[]]; cbn; eexists; (split; [reflexivity|]); cbn; rewrite <-?app_assoc;
    (split; [done|]); (split; [by unfold loop_stop; destruct (l_handle _)|done]).
Qed.
End facts.

Definition plain : config := Config false false 100 (Some 100).

Lemma sweep_offers_every_task_witness :
  ∃ s', run_events plain [CallSweep; ListSettled 0 (Ok [1; 2; 3]); ReconcileSettled 0 (Ok tt);
          ReconcileSettled 0 (Err tt); ReconcileSettled 0 (Ok tt)] new_reconciler = Some s' ∧
    offered (rc_log s') = [1; 2; 3] ∧ ∃ log, rc_log s' = log ++ [SweepReturned 2].
Proof.
  destruct (sweep_offers_every_task plain (begin_sweep plain false new_reconciler)
    (SweepCall false Listing 0 false) [1; 2; 3] [Ok tt; Err tt; Ok tt] (Ok tt)) as (s' & H & _ & _ & _ & H1 & H2);
    [reflexivity|reflexivity|reflexivity|].
  exists s'. split; [rewrite <-H; vm_compute; reflexivity|].
  split; [rewrite H1; vm_compute; reflexivity|]. destruct H2 as [log H2]. exists log. rewrite H2. vm_compute. reflexivity.
Defined.
End ReconcilerFacts.
