(* ===== verification/ProgressCoalescer.v ===== *)
(** * The progress coalescer

    [createRhinoQProgressCoalescer] of [tasks/progress.ts] as a state machine.
    Its closure variables are the state; a call of [report], [flush] or
    [close], the writer's promise settling, the [finally] of a write, the flush
    timer firing and [close()] waking from an await are the events. Beside the
    closure variables the state records what the host sees: the writer calls
    that have not settled, the [finally] callbacks still queued, every update
    handed to the writer and every update a [report] accepted. The theorems
    follow the model. *)

From Stdlib Require Import ZArith Lia Sorted.
From stdpp Require Import base list numbers strings sorting.
From S2P Require Import Prelude.

(** A progress update; counts are integers here. *)
Record update := Update { u_completed : Z; u_total : option Z; u_message : option string }.

Inductive close_state := Open | Draining | Drained | CloseFailed.

Record coalescer := Coalescer {
  c_intervalMs : Z;
  c_minDelta : Z;
  c_pending : option update;
  c_lastSent : option update;
  c_lastSentAt : Z;
  c_timer : bool;
  c_inFlight : bool;
  c_writeFailure : bool;
  c_closed : bool;
  c_active : list update;
  c_finals : nat;
  c_close : close_state;
  c_writes : list update;
  c_accepted : list update;
}.

(** The factory: bounds of the two options; [None] is the RangeError. *)
Definition createRhinoQProgressCoalescer (flushIntervalMs minCompletedDelta : option Z) : option coalescer :=
  let interval := default 100 flushIntervalMs in
  let delta := default 1 minCompletedDelta in
  if (interval <? 10) || (60000 <? interval) || (delta <? 0) || (MAX_SAFE_INTEGER <? delta) then None
  else Some (Coalescer interval delta None None 0 false false false false [] 0 Open [] []).

Definition isTerminal (u : update) : bool :=
  match u_total u with Some t => t <=? u_completed u | None => false end.

Definition validateUpdate (u : update) : bool :=
  (0 <=? u_completed u) && match u_total u with Some t => u_completed u <=? t | None => true end.

Definition shouldFlush (now : Z) (u : update) (s : coalescer) : bool :=
  match c_lastSent s with
  | None => true
  | Some l => (c_minDelta s <=? u_completed u - u_completed l) || (c_intervalMs s <=? now - c_lastSentAt s)
  end.

Definition with_timer (b : bool) (s : coalescer) : coalescer :=
  Coalescer (c_intervalMs s) (c_minDelta s) (c_pending s) (c_lastSent s) (c_lastSentAt s) b (c_inFlight s)
    (c_writeFailure s) (c_closed s) (c_active s) (c_finals s) (c_close s) (c_writes s) (c_accepted s).

Definition with_close (closed : bool) (k : close_state) (s : coalescer) : coalescer :=
  Coalescer (c_intervalMs s) (c_minDelta s) (c_pending s) (c_lastSent s) (c_lastSentAt s) (c_timer s) (c_inFlight s)
    (c_writeFailure s) closed (c_active s) (c_finals s) k (c_writes s) (c_accepted s).

Definition schedule (s : coalescer) : coalescer :=
  if c_closed s || c_timer s || negb (bool_decide (is_Some (c_pending s))) then s else with_timer true s.

(** [flush()]: a failed coalescer throws, a write in flight is shared, and
    otherwise the newest update goes to the writer. *)
Definition flush (s : coalescer) : coalescer :=
  if c_writeFailure s then s else
  if c_inFlight s then s else
  match c_pending s with
  | None => s
  | Some u =>
      Coalescer (c_intervalMs s) (c_minDelta s) None (c_lastSent s) (c_lastSentAt s) false true
        (c_writeFailure s) (c_closed s) (c_active s ++ [u]) (c_finals s) (c_close s) (c_writes s ++ [u]) (c_accepted s)
  end.

Definition accept (u : update) (s : coalescer) : coalescer :=
  Coalescer (c_intervalMs s) (c_minDelta s) (Some u) (c_lastSent s) (c_lastSentAt s) (c_timer s) (c_inFlight s)
    (c_writeFailure s) (c_closed s) (c_active s) (c_finals s) (c_close s) (c_writes s) (c_accepted s ++ [u]).

(** [pending ?? lastSent] *)
Definition newestKnown (s : coalescer) : option update :=
  match c_pending s with Some p => Some p | None => c_lastSent s end.

Definition stale (u : update) (s : coalescer) : bool :=
  match newestKnown s with Some n => u_completed u <? u_completed n | None => false end.

(** [report(update)] up to its await; the guards that throw or return leave the
    state alone. *)
Definition report (now : Z) (u : update) (s : coalescer) : coalescer :=
  if c_closed s then s else
  if negb (validateUpdate u) then s else
  if c_writeFailure s then s else
  if stale u s then s else
  let s1 := accept u s in
  if negb (bool_decide (is_Some (c_lastSent s1))) || isTerminal u || shouldFlush now u s1 then flush s1 else schedule s1.

(** The writer's promise settled: [ok] and the clock read after it. *)
Definition writer_settled (i : nat) (ok : bool) (now : Z) (s : coalescer) : option coalescer :=
  match c_active s !! i with
  | None => None
  | Some u =>
      Some (if ok then
        Coalescer (c_intervalMs s) (c_minDelta s) (c_pending s) (Some u) now (c_timer s) (c_inFlight s)
          (c_writeFailure s) (c_closed s) (delete i (c_active s)) (S (c_finals s)) (c_close s) (c_writes s) (c_accepted s)
      else
        Coalescer (c_intervalMs s) (c_minDelta s) (c_pending s) (c_lastSent s) (c_lastSentAt s) (c_timer s)
          (c_inFlight s) true (c_closed s) (delete i (c_active s)) (S (c_finals s)) (c_close s) (c_writes s)
          (c_accepted s))
  end.

(** The [finally] of a write. *)
Definition write_finally (now : Z) (s : coalescer) : option coalescer :=
  match c_finals s with
  | O => None
  | S n =>
      let s1 := Coalescer (c_intervalMs s) (c_minDelta s) (c_pending s) (c_lastSent s) (c_lastSentAt s) (c_timer s)
                  false (c_writeFailure s) (c_closed s) (c_active s) n (c_close s) (c_writes s) (c_accepted s) in
      Some match c_pending s with
      | Some p =>
          if c_writeFailure s then s1 else
          if isTerminal p || shouldFlush now p s1 then flush s1 else schedule s1
      | None => s1
      end
  end.

(** One turn of [while (pending || inFlight) { await flush(); ... }]. *)
Definition close_turn (s : coalescer) : coalescer :=
  if bool_decide (is_Some (c_pending s)) || c_inFlight s then
    if c_writeFailure s then with_close true CloseFailed s else flush s
  else with_close true (if c_writeFailure s then CloseFailed else Drained) s.

Definition close (s : coalescer) : coalescer :=
  if c_closed s then s else close_turn (with_close true Draining (with_timer false s)).

Inductive event : Type :=
| Report (now : Z) (u : update)
| Flush
| Close
| WriterSettled (i : nat) (ok : bool) (now : Z)
| WriteFinally (now : Z)
| TimerFires
| CloseResumes.

Definition step (ev : event) (s : coalescer) : option coalescer :=
  match ev with
  | Report now u => Some (report now u s)
  | Flush => Some (flush s)
  | Close => Some (close s)
  | WriterSettled i ok now => writer_settled i ok now s
  | WriteFinally now => write_finally now s
  | TimerFires => if c_timer s then Some (flush (with_timer false s)) else None
  | CloseResumes => match c_close s with Draining => Some (close_turn s) | _ => None end
  end.

Fixpoint run_events (evs : list event) (s : coalescer) : option coalescer :=
  match evs with
  | [] => Some s
  | ev :: evs => s' ← step ev s; run_events evs s'
  end.

(** ** Invariant *)

Record consistent (s : coalescer) : Prop := {
  co_single : (length (c_active s) + c_finals s)%nat = if c_inFlight s then 1%nat else 0%nat;
  co_newest : last (c_accepted s) = match c_pending s with Some p => Some p | None => last (c_writes s) end;
  co_acked : c_writeFailure s = false →
    last (c_writes s) = match c_active s with u :: _ => Some u | [] => c_lastSent s end;
  co_closed : c_close s ≠ Open → c_closed s = true;
  co_drained : c_close s = Drained → c_pending s = None ∧ c_inFlight s = false ∧ c_writeFailure s = false;
}.

Lemma with_timer_consistent b s : consistent s → consistent (with_timer b s).
Proof. intros []. by split. Qed.

Lemma schedule_consistent s : consistent s → consistent (schedule s).
Proof. unfold schedule. intros. case_match; [done|by apply with_timer_consistent]. Qed.

Lemma flush_consistent s : consistent s → consistent (flush s).
Proof.
  intros [H1 H2 H3 H4 H5]. unfold flush. destruct (c_writeFailure s) eqn:Ef; [by split; rewrite ?Ef|].
  destruct (c_inFlight s) eqn:Ei; [by split; rewrite ?Ei, ?Ef|].
  destruct (c_pending s) as [u|] eqn:Ep; [|by split; rewrite ?Ei, ?Ef, ?Ep].
  destruct (c_active s) eqn:Ea; [|cbn in H1; lia]. cbn in H1.
  split; cbn; rewrite ?last_snoc; try done; [lia|]. intros Hd. destruct (H5 Hd) as [? _]. congruence.
Qed.

Lemma report_consistent now u s : consistent s → consistent (report now u s).
Proof.
  intros Hs. unfold report. destruct (c_closed s) eqn:Ec; [done|]. destruct (negb (validateUpdate u)); [done|].
  destruct (c_writeFailure s) eqn:Ef; [done|]. destruct (stale u s); [done|].
  assert (consistent (accept u s)) as Ha.
  { destruct Hs as [H1 H2 H3 H4 H5]. split; cbn; rewrite ?last_snoc; try done.
    intros Hd. assert (c_closed s = true); [|congruence]. apply H4. by rewrite Hd. }
  case_match; [by apply flush_consistent|by apply schedule_consistent].
Qed.

Lemma writer_settled_consistent i ok now s s' :
  consistent s → writer_settled i ok now s = Some s' → consistent s'.
Proof.
  intros [H1 H2 H3 H4 H5]. unfold writer_settled. destruct (c_active s !! i) as [u|] eqn:Ei; [|discriminate].
  assert (c_active s = [u] ∧ i = 0%nat ∧ c_finals s = 0%nat ∧ c_inFlight s = true) as (Ea & -> & Ez & Ef).
  { destruct (c_active s) as [|y [|z l]]; [done| |cbn in H1; destruct (c_inFlight s); lia].
    destruct i as [|i]; [|done]. injection Ei as ->. cbn in H1. destruct (c_inFlight s); [split_and!; (done || lia)|lia]. }
  intros [= <-]. rewrite Ea, Ez in *. destruct ok; split; cbn; rewrite ?Ef; try done;
    intros Hd; destruct (H5 Hd) as (_ & ? & _); congruence.
Qed.

Lemma write_finally_consistent now s s' : consistent s → write_finally now s = Some s' → consistent s'.
Proof.
  intros [H1 H2 H3 H4 H5]. unfold write_finally. destruct (c_finals s) as [|n] eqn:En; [discriminate|].
  intros [= <-]. destruct (c_inFlight s) eqn:Ei; [|lia]. set (s1 := Coalescer _ _ _ _ _ _ _ _ _ _ _ _ _ _).
  assert (consistent s1) as Hs1.
  { split; cbn; try done; [lia|]. intros Hd. destruct (H5 Hd) as (? & ? & ?). congruence. }
  destruct (c_pending s); [|done]. destruct (c_writeFailure s); [done|].
  destruct (_ || _); [by apply flush_consistent|by apply schedule_consistent].
Qed.

Lemma with_close_consistent k s :
  consistent s → (k = Drained → c_pending s = None ∧ c_inFlight s = false ∧ c_writeFailure s = false) →
  consistent (with_close true k s).
Proof. intros [] Hk. by split. Qed.

Lemma close_turn_consistent s : consistent s → consistent (close_turn s).
Proof.
  intros Hs. unfold close_turn. destruct (c_pending s) eqn:Ep, (c_inFlight s) eqn:Ei, (c_writeFailure s) eqn:Ef; cbn;
    try (by apply flush_consistent); apply with_close_consistent; done.
Qed.

Lemma step_consistent ev s s' : consistent s → step ev s = Some s' → consistent s'.
Proof.
  intros Hs. destruct ev as [now u| | |i ok now|now| |]; cbn; intros H.
  - injection H as <-. by apply report_consistent.
  - injection H as <-. by apply flush_consistent.
  - injection H as <-. unfold close. destruct (c_closed s); [done|].
    apply close_turn_consistent, with_close_consistent; [by apply with_timer_consistent|done].
  - by eapply writer_settled_consistent.
  - by eapply write_finally_consistent.
  - destruct (c_timer s); [|discriminate]. injection H as <-. by apply flush_consistent, with_timer_consistent.
  - destruct (c_close s); try discriminate. injection H as <-. by apply close_turn_consistent.
Qed.

(** ** Order of the writes *)

Definition reported (ev : event) : list Z := match ev with Report _ u => [u_completed u] | _ => [] end.
Definition reports (evs : list event) : list Z := flat_map reported evs.

(** The updates written so far and the one that will be. *)
Definition queue (s : coalescer) : list Z :=
  u_completed <$> (c_writes s ++ match c_pending s with Some p => [p] | None => [] end).

Definition ordered_below (b : Z) (s : coalescer) : Prop := StronglySorted Z.le (queue s) ∧ Forall (λ x, x ≤ b) (queue s).

Lemma StronglySorted_snoc (l : list Z) x :
  StronglySorted Z.le l → Forall (λ y, y ≤ x) l → StronglySorted Z.le (l ++ [x]).
Proof.
  induction 1 as [|y l Hs IH Hf]; intros Hx; cbn; [by repeat constructor|].
  apply Forall_cons in Hx as [Hy Hx]. constructor; [by apply IH|]. apply Forall_app. by split; [|constructor].
Qed.

Lemma StronglySorted_prefix (l1 l2 : list Z) : StronglySorted Z.le (l1 ++ l2) → StronglySorted Z.le l1.
Proof.
  induction l1 as [|y l1 IH]; intros H; [constructor|]. cbn in H. inversion H as [|? ? Hs Hf]; subst.
  apply Forall_app in Hf as [Hf _]. constructor; [by apply IH|done].
Qed.

Lemma flush_queue s : queue (flush s) = queue s.
Proof.
  unfold flush, queue. destruct (c_writeFailure s), (c_inFlight s); try done.
  destruct (c_pending s) eqn:E; cbn; rewrite ?E; [|done]. by rewrite app_nil_r.
Qed.

Lemma schedule_queue s : queue (schedule s) = queue s.
Proof. unfold schedule. by destruct (_ || _). Qed.

Lemma close_turn_queue s : queue (close_turn s) = queue s.
Proof.
  unfold close_turn. destruct (_ || _); [|done]. destruct (c_writeFailure s); [done|apply flush_queue].
Qed.

Lemma report_ordered now u b s :
  ordered_below b s → b ≤ u_completed u → ordered_below (u_completed u) (report now u s).
Proof.
  intros [Hs Hb] Hu. assert (ordered_below (u_completed u) s) as Hsame.
  { split; [done|]. eapply Forall_impl; [exact Hb|]. cbn. lia. }
  assert (ordered_below (u_completed u) (accept u s)) as Hacc.
  { unfold ordered_below, queue in *. cbn. rewrite !fmap_app in *. cbn.
    apply Forall_app in Hb as [Hb _]. assert (Forall (λ y, y ≤ u_completed u) (u_completed <$> c_writes s)) as Hw.
    { eapply Forall_impl; [exact Hb|]. cbn. lia. }
    split; [|apply Forall_app; split; [done|]; by repeat constructor].
    apply StronglySorted_snoc; [|done]. by apply StronglySorted_prefix in Hs. }
  unfold report. repeat (case_match; [done|]). case_match; unfold ordered_below;
    [by rewrite flush_queue|by rewrite schedule_queue].
Qed.

Lemma step_queue ev s s' : reported ev = [] → step ev s = Some s' → queue s' = queue s.
Proof.
  destruct ev as [now u| | |i ok now|now| |]; cbn; intros Hr H; try done.
  - injection H as <-. apply flush_queue.
  - injection H as <-. unfold close. destruct (c_closed s); [done|]. by rewrite close_turn_queue.
  - unfold writer_settled in H. destruct (c_active s !! i); [|discriminate]. injection H as <-. by destruct ok.
  - unfold write_finally in H. destruct (c_finals s) as [|n]; [discriminate|]. injection H as <-.
    destruct (c_pending s) eqn:Ep; [|by unfold queue; rewrite Ep]. destruct (c_writeFailure s); [by unfold queue; rewrite Ep|].
    destruct (_ || _); rewrite ?flush_queue, ?schedule_queue; by unfold queue; rewrite Ep.
  - destruct (c_timer s); [|discriminate]. injection H as <-. by rewrite flush_queue.
  - destruct (c_close s); try discriminate. injection H as <-. by rewrite close_turn_queue.
Qed.

Lemma run_ordered evs : ∀ b s s',
  ordered_below b s → StronglySorted Z.le (reports evs) → Forall (λ x, b ≤ x) (reports evs) →
  run_events evs s = Some s' → StronglySorted Z.le (queue s').
Proof.
  induction evs as [|ev evs IH]; intros b s s' Ho Hs Hb H; cbn in H; [injection H as <-; apply Ho|].
  destruct (step ev s) as [s1|] eqn:E; [|discriminate]. unfold reports in Hs, Hb. cbn in Hs, Hb.
  fold (reports evs) in Hs, Hb.
  destruct (reported ev) as [|x xs] eqn:Er.
  - apply (IH b s1); try done. unfold ordered_below. by rewrite (step_queue ev s s1 Er E).
  - destruct ev as [now u| | |i ok n|n| |]; try discriminate. cbn in Er, E. injection Er as <- <-. injection E as <-.
    cbn in Hs, Hb. inversion Hs as [|? ? Hs' Hf]; subst. apply Forall_cons in Hb as [Hx Hb].
    apply (IH (u_completed u) (report now u s)); try done. by eapply report_ordered.
Qed.

Lemma run_consistent evs s s' : consistent s → run_events evs s = Some s' → consistent s'.
Proof.
  revert s. induction evs as [|ev evs IH]; intros s Hs H; cbn in H; [by injection H as <-|].
  destruct (step ev s) as [s1|] eqn:E; [|discriminate]. apply (IH s1); [by eapply step_consistent|done].
Qed.

(** In every interleaving of reports, timers, settling writes and a close:
    the writer is never called while an earlier call is pending; a [close()]
    that resolves has had the newest accepted update acknowledged by the writer,
    with nothing left in flight; and when the reports come in non-decreasing
    order, so do the writes. *)
Theorem coalescer_safe : ∀ flushIntervalMs minDelta s0 evs s,
  createRhinoQProgressCoalescer flushIntervalMs minDelta = Some s0 → run_events evs s0 = Some s →
  (length (c_active s) ≤ 1)%nat ∧
  (c_close s = Drained → c_lastSent s = last (c_accepted s) ∧ c_active s = [] ∧ c_pending s = None) ∧
  (StronglySorted Z.le (reports evs) → Forall (λ x, 0 ≤ x) (reports evs) →
   StronglySorted Z.le (u_completed <$> c_writes s)).
Proof.
  intros fi md s0 evs s Hc Hr. unfold createRhinoQProgressCoalescer in Hc. case_match; [discriminate|]. injection Hc as <-.
  set (s0 := Coalescer _ _ _ _ _ _ _ _ _ _ _ _ _ _) in Hr. assert (consistent s0) as H0 by by split.
  destruct (run_consistent evs s0 s H0 Hr) as [H1 H2 H3 H4 H5]. split; [destruct (c_inFlight s); lia|]. split.
  - intros Hd. destruct (H5 Hd) as (Hp & Hi & Hf). rewrite Hp in H2. rewrite Hi in H1.
    destruct (c_active s); [|cbn in H1; lia]. by rewrite H2, (H3 Hf).
  - intros Hs Hpos. eapply (StronglySorted_prefix _ _). rewrite <-fmap_app. apply (run_ordered evs 0 s0 s); try done.
    split; constructor.
Qed.

(** While a write is in flight the coalescer forgets how far it went: it
    compares a new report with the pending update or the last acknowledged one,
    not with the one being written. A late report that lies between the two is
    accepted and handed to the writer after the larger one, so progress sent to
    the store goes backwards. *)
Theorem late_report_overtakes_inflight : ∀ s u l v,
  consistent s → c_active s = [u] → c_pending s = None → c_lastSent s = Some l →
  c_writeFailure s = false → c_closed s = false → validateUpdate v = true →
  u_completed l ≤ u_completed v < u_completed u →
  ∃ evs s' ws, reports evs = [u_completed v] ∧ run_events evs s = Some s' ∧
    c_writes s' = ws ++ [u; v] ∧ c_active s' = [v].
Proof.
  intros s u l v [H1 _ H3 _ _] Ha Hp Hl Hf Hc Hv [Hlv Hvu].
  specialize (H3 Hf). rewrite Ha in H1, H3. apply last_Some in H3 as [ws Hw].
  destruct (c_inFlight s) eqn:Ei; [|cbn in H1; lia]. assert (c_finals s = 0%nat) as Hz by (cbn in H1; lia).
  destruct s as [im md pe ls la ti inf wf cl ac fi ck wr acc]. cbn in *. subst.
  pose (now := 0).
  pose (r := report now v (Coalescer im md None (Some l) la ti true false false [u] 0 ck (ws ++ [u]) acc)).
  assert (∃ t, r = Coalescer im md (Some v) (Some l) la t true false false [u] 0 ck (ws ++ [u]) (acc ++ [v])) as [t Hr].
  { subst r. unfold report, stale. cbn. rewrite Hv. cbn. rewrite (proj2 (Z.ltb_ge _ _) Hlv).
    unfold schedule. cbn. repeat match goal with |- context [if ?b then _ else _] => destruct b; cbn end; by eexists. }
  set (s2 := Coalescer im md (Some v) (Some u) now t false false false [] 0 ck (ws ++ [u]) (acc ++ [v])).
  pose (s1 := Coalescer im md (Some v) (Some u) now t true false false [] 1 ck (ws ++ [u]) (acc ++ [v])).
  assert (writer_settled 0 true now r = Some s1) as Hws by (by rewrite Hr).
  assert (write_finally now s1 = Some (if isTerminal v || shouldFlush now v s2 then flush s2 else schedule s2)) as Hwf
    by reflexivity.
  destruct (isTerminal v || shouldFlush now v s2).
  - exists [Report now v; WriterSettled 0 true now; WriteFinally now], (flush s2), ws. split; [done|]. split.
    + cbn [run_events step]. fold r. cbn [mbind option_bind]. rewrite Hws. cbn [mbind option_bind]. by rewrite Hwf.
    + cbn. by rewrite <-app_assoc.
  - exists [Report now v; WriterSettled 0 true now; WriteFinally now; TimerFires], (flush (with_timer false s2)), ws.
    split; [done|]. split.
    + cbn [run_events step]. fold r. cbn [mbind option_bind]. rewrite Hws. cbn [mbind option_bind]. rewrite Hwf.
      unfold schedule, s2. destruct t; reflexivity.
    + cbn. by rewrite <-app_assoc.
Qed.

(** ** Concrete runs *)

Definition done_of (n : Z) : update := Update n (Some 100) None.
Definition fresh_coalescer : coalescer := Coalescer 100 1 None None 0 false false false false [] 0 Open [] [].

Definition demo_run : list event :=
  [Report 0 (done_of 1); Report 5 (done_of 2); Report 6 (done_of 3); WriterSettled 0 true 10; WriteFinally 10; Close;
   WriterSettled 0 true 20; WriteFinally 20; CloseResumes].

Lemma coalescer_safe_witness :
  ∃ s, run_events demo_run fresh_coalescer = Some s ∧ c_writes s = [done_of 1; done_of 3] ∧
    c_lastSent s = last (c_accepted s) ∧ StronglySorted Z.le (u_completed <$> c_writes s).
Proof.
  destruct (run_events demo_run fresh_coalescer) as [s|] eqn:E; [|by vm_compute in E].
  destruct (coalescer_safe None None fresh_coalescer demo_run s eq_refl E) as (_ & Hd & Ho).
  exists s. split; [done|]. split; [vm_compute in E; by injection E as <-|]. split.
  - apply Hd. vm_compute in E. by injection E as <-.
  - apply Ho; repeat constructor; cbn; lia.
Defined.

(** 10 was acknowledged and 50 is being written. *)
Definition writing_coalescer : coalescer :=
  Coalescer 100 1 None (Some (done_of 10)) 0 false true false false [done_of 50] 0 Open [done_of 10; done_of 50]
    [done_of 10; done_of 50].

Lemma late_report_overtakes_inflight_witness :
  ∃ s' ws, run_events [Report 0 (done_of 10); WriterSettled 0 true 0; WriteFinally 0; Report 1 (done_of 50)]
    fresh_coalescer = Some writing_coalescer ∧
    c_writes s' = ws ++ [done_of 50; done_of 20] ∧ c_active s' = [done_of 20].
Proof.
  destruct (late_report_overtakes_inflight writing_coalescer (done_of 50) (done_of 10) (done_of 20))
    as (evs & s' & ws & _ & _ & H1 & H2).
  - by split.
  - reflexivity.
  - reflexivity.
  - reflexivity.
  - reflexivity.
  - reflexivity.
  - reflexivity.
  - cbn. lia.
  - exists s', ws. split; [vm_compute; reflexivity|]. split; [exact H1|exact H2].
Defined.
