(* ===== verification/Worker.v ===== *)
(** * The worker of the Go engine

    [RhinoQWorker] of [sdks/node/src/worker/worker.ts] and the error classes of
    [worker/errors.ts]. A worker claims leased jobs from the Gateway, runs a
    handler for each, renews the lease while the handler runs and reports how the
    job ended. It is a state machine: method calls, timers and promises that
    settle are its events, and an event that cannot happen in a state is [None].

    Every claimed job gets a number, its ticket, under which its calls of the
    Gateway are recorded. [w_active] is the set [active] of running tasks with
    their local variables; [w_executions] is the map [executions] by job id, which
    points to a ticket, since two leases of one job share the entry. *)

From stdpp Require Import base gmap strings list sorting.
From Stdlib Require Import Ascii ZArith Lia.
From S2P Require Import Prelude.

(** ** Error classes *)

Inductive RetryClass := Transient | Permanent | RateLimited | DependencyDown | Cancelled | Unknown.

#[export] Instance RetryClass_eq_dec : EqDecision RetryClass.
Proof. solve_decision. Defined.

(** What a handler throws: [ClassifiedError], [PayloadDecodeError], any other
    value, or [undefined]. *)
Inductive thrown : Type :=
| ClassifiedError (retryClass : RetryClass) (retryAfterMs : option Z)
| PayloadDecodeError
| OtherError
| Undefined.

(** [classify]; [None] is its [RangeError]. *)
Definition classify (retryClass : RetryClass) (retryAfterMs : option Z) : option thrown :=
  if bool_decide (retryClass = RateLimited) && (default 0 retryAfterMs <=? 0) then None
  else Some (ClassifiedError retryClass retryAfterMs).

Definition classifyHandlerError (e : thrown) : RetryClass * option Z :=
  match e with
  | PayloadDecodeError => (Permanent, None)
  | ClassifiedError c after => (c, after)
  | _ => (Unknown, None)
  end.

Module Worker.

(** ** Jobs and configuration *)

Record LeasedJob := Leased { lj_id : string; lj_queueName : string; lj_jobName : string; lj_epoch : Z }.

Record config := Config {
  k_concurrency : Z; k_maxClaimBatch : Z; k_leaseForMs : Z; k_heartbeatIntervalMs : option Z;
  k_pollIntervalMs : Z; k_maxPollIntervalMs : Z;
}.

Definition MAX_CLAIM_BATCH : Z := 1000.

(** The constructor; [None] is a [TypeError] or a [RangeError]. Durations are whole
    milliseconds. *)
Definition new_worker (name : string) (concurrency maxClaimBatch leaseForMs heartbeatIntervalMs pollIntervalMs
    maxPollIntervalMs shutdownGraceMs cancelGraceMs : option Z) : option config :=
  let c := default 4 concurrency in
  let b := default 50 maxClaimBatch in
  let l := default 60000 leaseForMs in
  let p := default 100 pollIntervalMs in
  let m := default 2000 maxPollIntervalMs in
  if bool_decide (name = "") then None else
  if (c <=? 0) || (b <=? 0) then None else
  if MAX_CLAIM_BATCH <? b then None else
  if (l <=? 0) || (p <=? 0) || (m <=? 0) then None else
  if m <? p then None else
  if (default 30000 shutdownGraceMs <=? 0) || (default 10000 cancelGraceMs <=? 0) then None else
  Some (Config c b l heartbeatIntervalMs p m).

Inductive handshake_result := Compatible | Degraded | Rejected.

Record HandshakeResult := Handshake {
  hs_result : handshake_result; hs_capabilities : list string; hs_disabled : list string; hs_heartbeatIntervalMs : Z;
}.

(** ** State *)

(** How a handler ends. *)
Inductive handler_result := Returns | Throws (e : thrown).

(** What [process] awaits. *)
Inductive phase : Type :=
| Handling
| Unrouted
| Draining (r : option handler_result)
| Reporting
| Returned.

(** The heartbeat loop waits for its timer, awaits the Gateway, or has returned. *)
Inductive heartbeat_state := HbWaiting | HbCalling | HbDone.

(** The locals of [process]: the [Execution] object and the [ExecutionOutcome]. *)
Record process := Process {
  p_job : LeasedJob; p_phase : phase; p_hb : heartbeat_state; p_hbAborted : bool;
  p_aborted : bool; p_forceStopped : bool; p_leaseUnsafe : bool; p_cancelRequested : bool;
}.

Inductive run_error := ConnectFailed | GatewayRejected | BadHeartbeatInterval | ClaimFailed.

(** What [run] awaits. *)
Inductive loop_phase : Type :=
| Idle
| Connecting
| Racing (raced : list nat)
| Claiming (limit : Z)
| BackingOff
| Dispatching (rest : list (nat * LeasedJob))
| Releasing (rest : list (nat * LeasedJob))
| ShuttingDown (raced : list nat) (e : option run_error)
| Cancelling (raced : list nat) (e : option run_error).

Inductive call : Type :=
| ConnectCalled
| ClaimCalled (limit : Z) (queues : list string)
| HandlerCalled (ticket : nat)
| HeartbeatCalled (ticket : nat)
| CompleteCalled (ticket : nat)
| FailCalled (ticket : nat) (retryClass : RetryClass) (retryAfterMs : option Z)
| ReleaseCalled (ticket : nat)
| ErrorReported
| RunSettled (e : option run_error).

Record worker := MkWorker {
  w_handlers : list string; w_active : gmap nat process; w_executions : gmap string nat;
  w_running : bool; w_stopping : bool; w_loop : loop_phase; w_backoff : Z; w_queues : list string;
  w_next : nat; w_log : list call;
}.

Definition initial : worker := MkWorker [] ∅ ∅ false false Idle 0 [] 0 [].

Definition with_active (a : gmap nat process) (w : worker) : worker :=
  MkWorker (w_handlers w) a (w_executions w) (w_running w) (w_stopping w) (w_loop w) (w_backoff w) (w_queues w) (w_next w) (w_log w).
Definition with_executions (x : gmap string nat) (w : worker) : worker :=
  MkWorker (w_handlers w) (w_active w) x (w_running w) (w_stopping w) (w_loop w) (w_backoff w) (w_queues w) (w_next w) (w_log w).
Definition with_flags (running stopping : bool) (w : worker) : worker :=
  MkWorker (w_handlers w) (w_active w) (w_executions w) running stopping (w_loop w) (w_backoff w) (w_queues w) (w_next w) (w_log w).
Definition with_loop (l : loop_phase) (w : worker) : worker :=
  MkWorker (w_handlers w) (w_active w) (w_executions w) (w_running w) (w_stopping w) l (w_backoff w) (w_queues w) (w_next w) (w_log w).
Definition with_backoff (b : Z) (w : worker) : worker :=
  MkWorker (w_handlers w) (w_active w) (w_executions w) (w_running w) (w_stopping w) (w_loop w) b (w_queues w) (w_next w) (w_log w).
Definition emit (c : call) (w : worker) : worker :=
  MkWorker (w_handlers w) (w_active w) (w_executions w) (w_running w) (w_stopping w) (w_loop w) (w_backoff w) (w_queues w) (w_next w)
    (w_log w ++ [c]).

Definition tasks (w : worker) : list nat := (map_to_list (w_active w)).*1.

(** ** Routes *)

Definition ROUTE_SEPARATOR : ascii := zero.

Definition routeKey (queueName jobName : string) : string := (queueName ++ String ROUTE_SEPARATOR jobName)%string.

(** [key.slice(0, key.indexOf(ROUTE_SEPARATOR))] *)
Fixpoint lane (key : string) : string :=
  match key with
  | EmptyString => ""
  | String a rest => if Ascii.eqb a ROUTE_SEPARATOR then "" else String a (lane rest)
  end.

(** [[...names].sort()] *)
Definition name_le (a b : string) : Prop := String.leb a b = true.
#[export] Instance name_le_dec : RelDecision name_le.
Proof. intros a b. unfold name_le. apply _. Defined.

Definition subscribedQueues (w : worker) : list string := merge_sort name_le (remove_dups (lane <$> w_handlers w)).

(** [handle]; [None] is one of its exceptions. *)
Definition handle (queueName jobName : string) (w : worker) : option worker :=
  if w_running w then None else
  if bool_decide (queueName = "") || bool_decide (jobName = "") then None else
  let key := routeKey queueName jobName in
  if bool_decide (key ∈ w_handlers w) then None else
  let lanes := subscribedQueues w in
  if bool_decide (queueName ∉ lanes) && (256 <=? Z.of_nat (length lanes)) then None else
  Some (MkWorker (w_handlers w ++ [key]) (w_active w) (w_executions w) (w_running w) (w_stopping w) (w_loop w) (w_backoff w)
    (w_queues w) (w_next w) (w_log w)).

Definition registered (w : worker) (j : LeasedJob) : bool :=
  bool_decide (routeKey (lj_queueName j) (lj_jobName j) ∈ w_handlers w).

(** ** [run] *)

Section machine.
Context (k : config).

(** The end of [run]'s [finally] block. *)
Definition finish (e : option run_error) (w : worker) : worker :=
  emit (RunSettled e) (with_loop Idle (with_flags false (w_stopping w) w)).

(** The [finally] block up to the first await of [shutdown]. *)
Definition begin_shutdown (e : option run_error) (w : worker) : worker :=
  let w := with_flags (w_running w) true w in
  if bool_decide (w_active w = ∅) then finish e w else with_loop (ShuttingDown (tasks w) e) w.

(** The head of the [while] loop of [claimLoop]. *)
Definition claim_head (w : worker) : worker :=
  if w_stopping w then begin_shutdown None w else
  let free := k_concurrency k - Z.of_nat (size (w_active w)) in
  if free <=? 0 then with_loop (Racing (tasks w)) w
  else
    let limit := Z.min free (k_maxClaimBatch k) in
    emit (ClaimCalled limit (w_queues w)) (with_loop (Claiming limit) w).

(** [run] up to its first await; [None] is one of its exceptions. [aborted] says
    that the caller's signal is aborted already. *)
Definition run (aborted : bool) (w : worker) : option worker :=
  if w_running w then None else
  match w_handlers w with
  | [] => None
  | _ =>
      let w := with_flags true aborted w in
      Some (if aborted then begin_shutdown None w else emit ConnectCalled (with_loop Connecting w))
  end.

(** [stop], also called by the caller's signal. *)
Definition stop (w : worker) : worker := with_flags (w_running w) true w.

Definition supportsQueueFilter (h : HandshakeResult) : bool :=
  bool_decide ("queue-filter" ∈ hs_capabilities h) && bool_decide ("queue-filter" ∉ hs_disabled h).

(** [connect] settled. *)
Definition connected (r : option HandshakeResult) (w : worker) : worker :=
  match r with
  | None => begin_shutdown (Some ConnectFailed) w
  | Some h =>
      match hs_result h with
      | Rejected => begin_shutdown (Some GatewayRejected) w
      | res =>
          let w := match res with Degraded => emit ErrorReported w | _ => w end in
          let interval := default (hs_heartbeatIntervalMs h) (k_heartbeatIntervalMs k) in
          if (interval <=? 0) || (k_leaseForMs k <=? interval) then begin_shutdown (Some BadHeartbeatInterval) w else
          let queues := if supportsQueueFilter h then subscribedQueues w else [] in
          let w := if supportsQueueFilter h then w else emit ErrorReported w in
          claim_head (MkWorker (w_handlers w) (w_active w) (w_executions w) (w_running w) (w_stopping w) (w_loop w)
            (k_pollIntervalMs k) queues (w_next w) (w_log w))
      end
  end.

(** [claim] settled: with jobs, or with an error that may be retried. *)
Definition claimed (r : result bool (list LeasedJob)) (w : worker) : worker :=
  match r with
  | Err retryable =>
      if w_stopping w then begin_shutdown None w else
      let w := emit ErrorReported w in
      if retryable then with_loop BackingOff w else begin_shutdown (Some ClaimFailed) w
  | Ok [] => if w_stopping w then begin_shutdown None w else with_loop BackingOff w
  | Ok jobs =>
      let n := w_next w in
      MkWorker (w_handlers w) (w_active w) (w_executions w) (w_running w) (w_stopping w)
        (Dispatching (zip (seq n (length jobs)) jobs)) (k_pollIntervalMs k) (w_queues w) (n + length jobs) (w_log w)
  end.

(** [wait(backoff, signal)] settled: false when the signal was aborted. *)
Definition backed_off (w : worker) : worker :=
  if w_stopping w then begin_shutdown None w
  else claim_head (with_backoff (Z.min (w_backoff w * 2) (k_maxPollIntervalMs k)) w).

(** [process] up to its first await. *)
Definition dispatch (t : nat) (j : LeasedJob) (w : worker) : worker :=
  let ph := if registered w j then Handling else Unrouted in
  let p := Process j ph HbWaiting false false false false false in
  emit (match ph with Handling => HandlerCalled t | _ => ReleaseCalled t end)
    (with_executions (<[lj_id j := t]> (w_executions w)) (with_active (<[t := p]> (w_active w)) w)).

(** One round of the [for] loop over the claimed jobs. *)
Definition next_job (rest : list (nat * LeasedJob)) (w : worker) : worker :=
  match rest with
  | [] => claim_head w
  | (t, j) :: rest =>
      if w_stopping w then emit (ReleaseCalled t) (with_loop (Releasing rest) w) else
      if negb (registered w j) then emit (ReleaseCalled t) (emit ErrorReported (with_loop (Releasing rest) w)) else
      dispatch t j (with_loop (Dispatching rest) w)
  end.

(** [release] settled; [safeRelease] reports a failure and goes on. *)
Definition released (rest : list (nat * LeasedJob)) (ok : bool) (w : worker) : worker :=
  with_loop (Dispatching rest) (if ok then w else emit ErrorReported w).

(** ** [process] *)

Definition with_process (t : nat) (p : process) (w : worker) : worker := with_active (<[t := p]> (w_active w)) w.

Definition abort_heartbeat (p : process) : process :=
  Process (p_job p) (p_phase p) (match p_hb p with HbWaiting => HbDone | h => h end) true
    (p_aborted p) (p_forceStopped p) (p_leaseUnsafe p) (p_cancelRequested p).

Definition with_phase (ph : phase) (p : process) : process :=
  Process (p_job p) ph (p_hb p) (p_hbAborted p) (p_aborted p) (p_forceStopped p) (p_leaseUnsafe p) (p_cancelRequested p).

(** The handler settled, or the release of an unrouted job: the [finally] block
    stops the heartbeat and awaits it. *)
Definition handler_settled (r : handler_result) (p : process) : option process :=
  match p_phase p with
  | Handling => Some (abort_heartbeat (with_phase (Draining (Some r)) p))
  | _ => None
  end.

Definition route_released (p : process) : option process :=
  match p_phase p with
  | Unrouted => Some (abort_heartbeat (with_phase (Draining None) p))
  | _ => None
  end.

(** What [process] reports after the heartbeat has returned. *)
Definition verdict (t : nat) (r : handler_result) (p : process) : option call :=
  if p_leaseUnsafe p then None else
  if p_cancelRequested p then Some (FailCalled t Cancelled None) else
  if p_forceStopped p then Some (FailCalled t Transient None) else
  match r with
  | Throws Undefined | Returns => Some (CompleteCalled t)
  | Throws e => Some (FailCalled t (classifyHandlerError e).1 (classifyHandlerError e).2)
  end.

Definition drained (t : nat) (p : process) (w : worker) : option worker :=
  match p_phase p, p_hb p with
  | Draining r, HbDone =>
      let w := with_executions (delete (lj_id (p_job p)) (w_executions w)) w in
      Some match r ≫= (λ r, verdict t r p) with
      | Some c => emit c (with_process t (with_phase Reporting p) w)
      | None => with_process t (with_phase Returned p) w
      end
  | _, _ => None
  end.

(** The heartbeat loop: its timer, and the answer of the Gateway - whether
    cancellation is requested, or an error. *)
Definition heartbeat_due (t : nat) (p : process) (w : worker) : option worker :=
  match p_hb p with
  | HbWaiting =>
      Some (emit (HeartbeatCalled t) (with_process t
        (Process (p_job p) (p_phase p) HbCalling (p_hbAborted p) (p_aborted p) (p_forceStopped p) (p_leaseUnsafe p) (p_cancelRequested p)) w))
  | _ => None
  end.

Definition heartbeat_settled (t : nat) (r : option bool) (p : process) (w : worker) : option worker :=
  match p_hb p with
  | HbCalling =>
      Some match r with
      | Some false =>
          with_process t (Process (p_job p) (p_phase p) (if p_hbAborted p then HbDone else HbWaiting) (p_hbAborted p)
            (p_aborted p) (p_forceStopped p) (p_leaseUnsafe p) (p_cancelRequested p)) w
      | Some true =>
          with_process t (Process (p_job p) (p_phase p) HbDone (p_hbAborted p) true (p_forceStopped p) (p_leaseUnsafe p) true) w
      | None =>
          emit ErrorReported (with_process t
            (Process (p_job p) (p_phase p) HbDone (p_hbAborted p) true (p_forceStopped p) true (p_cancelRequested p)) w)
      end
  | _ => None
  end.

(** [complete] or [fail] settled; the [catch] of [dispatch] reports a failure. *)
Definition reported (t : nat) (ok : bool) (p : process) (w : worker) : option worker :=
  match p_phase p with
  | Reporting => Some ((if ok then id else emit ErrorReported) (with_process t (with_phase Returned p) w))
  | _ => None
  end.

(** The [finally] of [dispatch]. *)
Definition task_settled (t : nat) (p : process) (w : worker) : option worker :=
  match p_phase p with
  | Returned => Some (with_active (delete t (w_active w)) w)
  | _ => None
  end.

(** ** Shutdown *)

Definition force (p : process) : process :=
  let p := abort_heartbeat p in
  Process (p_job p) (p_phase p) (p_hb p) (p_hbAborted p) true true (p_leaseUnsafe p) (p_cancelRequested p).

(** [for (const execution of this.executions.values())] *)
Definition force_all (w : worker) : worker :=
  with_active (map_imap (λ t p, Some (if bool_decide (w_executions w !! lj_id (p_job p) = Some t) then force p else p)) (w_active w)) w.

Definition none_active (raced : list nat) (w : worker) : bool :=
  forallb (λ t, bool_decide (w_active w !! t = None)) raced.

(** Both grace periods: every awaited task settled, or the timer fired. *)
Definition grace_settled (w : worker) : option worker :=
  match w_loop w with
  | ShuttingDown raced e | Cancelling raced e => if none_active raced w then Some (finish e w) else None
  | _ => None
  end.

Definition grace_elapsed (w : worker) : option worker :=
  match w_loop w with
  | ShuttingDown _ e =>
      let w := force_all w in
      Some (if bool_decide (w_active w = ∅) then finish e w else with_loop (Cancelling (tasks w) e) w)
  | Cancelling _ e => Some (finish e (emit ErrorReported w))
  | _ => None
  end.

(** [Promise.race([...this.active, aborted(signal)])] *)
Definition race_settled (w : worker) : option worker :=
  match w_loop w with
  | Racing raced =>
      if w_stopping w || existsb (λ t, bool_decide (w_active w !! t = None)) raced then Some (claim_head w) else None
  | _ => None
  end.

(** ** Events *)

Inductive event : Type :=
| Handle (queueName jobName : string)
| Run (aborted : bool)
| Stop
| ConnectSettles (r : option HandshakeResult)
| ClaimSettles (r : result bool (list LeasedJob))
| BackoffEnds
| RaceSettles
| NextJob
| ReleaseSettles (ok : bool)
| GraceSettles
| GraceElapses
| HandlerSettles (t : nat) (r : handler_result)
| RouteReleaseSettles (t : nat) (ok : bool)
| HeartbeatDue (t : nat)
| HeartbeatSettles (t : nat) (r : option bool)
| Drained (t : nat)
| ReportSettles (t : nat) (ok : bool)
| TaskSettles (t : nat).

Definition at_process (t : nat) (f : process → worker → option worker) (w : worker) : option worker :=
  p ← w_active w !! t; f p w.

(** A method call that throws changes nothing. *)
Definition step (ev : event) (w : worker) : option worker :=
  match ev with
  | Handle q j => Some (default w (handle q j w))
  | Run aborted => Some (default w (run aborted w))
  | Stop => Some (stop w)
  | ConnectSettles r => match w_loop w with Connecting => Some (connected r w) | _ => None end
  | ClaimSettles r => match w_loop w with Claiming _ => Some (claimed r w) | _ => None end
  | BackoffEnds => match w_loop w with BackingOff => Some (backed_off w) | _ => None end
  | RaceSettles => race_settled w
  | NextJob => match w_loop w with Dispatching rest => Some (next_job rest w) | _ => None end
  | ReleaseSettles ok => match w_loop w with Releasing rest => Some (released rest ok w) | _ => None end
  | GraceSettles => grace_settled w
  | GraceElapses => grace_elapsed w
  | HandlerSettles t r => at_process t (λ p w, p' ← handler_settled r p; Some (with_process t p' w)) w
  | RouteReleaseSettles t ok =>
      at_process t (λ p w, p' ← route_released p; Some ((if ok then id else emit ErrorReported) (with_process t p' w))) w
  | HeartbeatDue t => at_process t (heartbeat_due t) w
  | HeartbeatSettles t r => at_process t (heartbeat_settled t r) w
  | Drained t => at_process t (drained t) w
  | ReportSettles t ok => at_process t (reported t ok) w
  | TaskSettles t => at_process t (task_settled t) w
  end.

Fixpoint run_events (evs : list event) (w : worker) : option worker :=
  match evs with
  | [] => Some w
  | ev :: evs => w' ← step ev w; run_events evs w'
  end.
End machine.
End Worker.
