(* ===== verification/WorkerFacts.v ===== *)
(** * What the worker promises

    Every claimed job is handled at most once and its lease is given back at most
    once, in the way the handler and the heartbeats call for; no more handlers run
    than the worker's concurrency; a stopped worker starts nothing and ends. *)

From stdpp Require Import base gmap strings list sorting.
From Stdlib Require Import Ascii ZArith Lia.
From S2P Require Import Prelude Worker.

Module WorkerFacts.
Import Worker.

#[local] Open Scope nat_scope.

(** ** Calls and events of a ticket *)

Definition ends (t : nat) (c : call) : bool :=
  match c with CompleteCalled u | FailCalled u _ _ | ReleaseCalled u => u =? t | _ => false end.
Definition handles (t : nat) (c : call) : bool := match c with HandlerCalled u => u =? t | _ => false end.
Definition completes (t : nat) (c : call) : bool := match c with CompleteCalled u => u =? t | _ => false end.

Definition count (f : call → bool) (log : list call) : nat := length (List.filter f log).

Lemma count_app f l l' : count f (l ++ l') = count f l + count f l'.
Proof. unfold count. by rewrite List.filter_app, length_app. Qed.

(** Calls that concern no ticket, or another one. *)
Definition silent (t : nat) (c : call) : bool := negb (ends t c) && negb (handles t c).

Lemma completes_ends t c : completes t c = true → ends t c = true.
Proof. by destruct c. Qed.

Lemma count_silent t l : forallb (silent t) l = true → count (ends t) l = 0 ∧ count (handles t) l = 0 ∧ count (completes t) l = 0.
Proof.
  induction l as [|c l IH]; intros H; [done|]. cbn in H. apply andb_true_iff in H as [Hc H]. destruct (IH H) as (H1 & H2 & H3).
  unfold silent in Hc. apply andb_true_iff in Hc as [Hc1 Hc2]. unfold count in *. cbn.
  destruct (ends t c) eqn:E1, (handles t c) eqn:E2; try done.
  destruct (completes t c) eqn:E3; [apply completes_ends in E3; congruence|done].
Qed.

(** ** The queue of claimed jobs

    Tickets are given in order, so the jobs still in the [for] loop carry the last
    ones; below [frontier] are the jobs that were dispatched or released. *)

Definition queued (w : worker) : list (nat * LeasedJob) :=
  match w_loop w with Dispatching rest | Releasing rest => rest | _ => [] end.

Definition frontier (w : worker) : nat := w_next w - length (queued w).

Definition queue_ok (w : worker) : Prop :=
  length (queued w) ≤ w_next w ∧ (queued w).*1 = seq (frontier w) (length (queued w)).

(** A step that touches no task. *)
Definition quiet (w w' : worker) : Prop :=
  w_active w' = w_active w ∧ w_executions w' = w_executions w ∧ frontier w' = frontier w ∧ (queue_ok w → queue_ok w') ∧
  ∃ l, w_log w' = w_log w ++ l ∧ ∀ t, forallb (silent t) l = true.

Lemma quiet_refl w : quiet w w.
Proof. split_and!; try done. exists []. by rewrite app_nil_r. Qed.

Lemma quiet_trans w1 w2 w3 : quiet w1 w2 → quiet w2 w3 → quiet w1 w3.
Proof.
  intros (A1 & X1 & F1 & Q1 & l1 & L1 & S1) (A2 & X2 & F2 & Q2 & l2 & L2 & S2). split_and!; try congruence; auto.
  exists (l1 ++ l2). rewrite L2, L1, app_assoc. split; [done|]. intros t. by rewrite forallb_app, S1, S2.
Qed.

Lemma quiet_emit c w : (∀ t, silent t c = true) → quiet w (emit c w).
Proof. intros H. split_and!; try done. exists [c]. split; [done|]. intros t. cbn. by rewrite H. Qed.

Definition unqueued (l : loop_phase) : bool := match l with Dispatching _ | Releasing _ => false | _ => true end.

Lemma quiet_loop l w : queued w = [] → unqueued l = true → quiet w (with_loop l w).
Proof.
  intros Hq Hl. assert (queued (with_loop l w) = []) as Hq' by (by destruct l).
  split_and!; try done.
  - unfold frontier. by rewrite Hq', Hq.
  - intros _. unfold queue_ok. rewrite Hq'. split; [cbn; lia|done].
  - exists []. by rewrite app_nil_r.
Qed.

Lemma quiet_flags r s w : quiet w (with_flags r s w).
Proof. split_and!; try done. exists []. by rewrite app_nil_r. Qed.

#[local] Hint Resolve quiet_refl quiet_flags : core.

Lemma quiet_finish e w : queued w = [] → quiet w (finish e w).
Proof.
  intros H. unfold finish. eapply quiet_trans; [|by apply quiet_emit].
  eapply quiet_trans; [apply (quiet_flags false (w_stopping w))|]. by apply quiet_loop.
Qed.

Lemma quiet_shutdown e w : queued w = [] → quiet w (begin_shutdown e w).
Proof.
  intros H. unfold begin_shutdown. eapply quiet_trans; [apply (quiet_flags (w_running w) true)|].
  destruct (bool_decide _); [by apply quiet_finish|by apply quiet_loop].
Qed.

Lemma quiet_claim k w : queued w = [] → quiet w (claim_head k w).
Proof.
  intros H. unfold claim_head. destruct (w_stopping w); [by apply quiet_shutdown|].
  destruct (_ <=? _)%Z; [by apply quiet_loop|]. eapply quiet_trans; [|by apply quiet_emit]. by apply quiet_loop.
Qed.

Lemma quiet_connected k r w : w_loop w = Connecting → quiet w (connected k r w).
Proof.
  intros Hl. assert (queued w = []) as Hq by (unfold queued; by rewrite Hl). unfold connected.
  destruct r as [h|]; [|by apply quiet_shutdown]. destruct (hs_result h); [| |by apply quiet_shutdown].
  all: destruct (_ || _); [first [by apply quiet_shutdown|eapply quiet_trans; [by apply (quiet_emit ErrorReported)|by apply quiet_shutdown]]|].
  all: destruct (supportsQueueFilter h); (eapply quiet_trans; [|by apply quiet_claim]).
  all: split_and!; try done; first [exists []; by rewrite app_nil_r|by exists [ErrorReported]|exists [ErrorReported; ErrorReported]].
  all: cbn; by rewrite <-app_assoc.
Qed.

Lemma quiet_claimed k r w limit : w_loop w = Claiming limit → quiet w (claimed k r w).
Proof.
  intros Hl. assert (queued w = []) as Hq by (unfold queued; by rewrite Hl). unfold claimed.
  destruct r as [[|j jobs]|retryable].
  - destruct (w_stopping w); [by apply quiet_shutdown|by apply quiet_loop].
  - set (jobs' := j :: jobs) in *. set (n := w_next w). assert (length (zip (seq n (length jobs')) jobs') = length jobs') as Hz.
    { rewrite length_zip_with, length_seq. lia. }
    unfold quiet, queue_ok, frontier, queued. cbn [w_loop w_next w_active w_executions w_log].
    rewrite Hl, Hz. cbn [length]. split_and!; try done; [lia| |exists []; by rewrite app_nil_r].
    intros _. split; [lia|]. rewrite fst_zip by (rewrite length_seq; lia). f_equal. lia.
  - destruct (w_stopping w); [by apply quiet_shutdown|].
    eapply quiet_trans; [by apply (quiet_emit ErrorReported)|]. destruct retryable; [by apply quiet_loop|by apply quiet_shutdown].
Qed.

Lemma quiet_handle q j w w' : handle q j w = Some w' → quiet w w' ∧ (w_running w = true ∨ w_loop w = Idle → w_running w' = true ∨ w_loop w' = Idle).
Proof.
  unfold handle. intros E. repeat case_match; try done. injection E as <-. split; [|done].
  split_and!; try done. exists []. by rewrite app_nil_r.
Qed.

(** ** The life of a ticket *)

Definition about (t : nat) (ev : event) : bool :=
  match ev with HandlerSettles u _ | HeartbeatSettles u _ => u =? t | _ => false end.
Definition events_of (t : nat) (evs : list event) : list event := List.filter (about t) evs.

Definition lost (t : nat) (evs : list event) : Prop := HeartbeatSettles t None ∈ evs.
Definition cancelled (t : nat) (evs : list event) : Prop := HeartbeatSettles t (Some true) ∈ evs.
Definition succeeded (t : nat) (evs : list event) : Prop :=
  HandlerSettles t Returns ∈ evs ∨ HandlerSettles t (Throws Undefined) ∈ evs.

(** A job was completed only if its handler succeeded and no heartbeat forbade it. *)
Definition earned (t : nat) (es : list event) (log : list call) : Prop :=
  count (completes t) log = 0 ∨ succeeded t es ∧ ¬ cancelled t es.

Definition in_phase (t : nat) (es : list event) (log : list call) (p : process) : Prop :=
  let n := count (ends t) log in
  match p_phase p with
  | Handling => n = 0
  | Draining (Some r) => n = 0 ∧ HandlerSettles t r ∈ es
  | Unrouted | Draining None => False
  | Reporting => n = 1 ∧ p_hb p = HbDone ∧ p_leaseUnsafe p = false ∧ earned t es log
  | Returned => n = (if p_leaseUnsafe p then 0 else 1) ∧ p_hb p = HbDone ∧ earned t es log
  end.

Definition ticket_ok (evs : list event) (w : worker) (t : nat) : Prop :=
  let es := events_of t evs in
  let log := w_log w in
  if frontier w <=? t then
    w_active w !! t = None ∧ count (ends t) log = 0 ∧ count (handles t) log = 0 ∧ count (completes t) log = 0 ∧ es = []
  else
    match w_active w !! t with
    | Some p =>
        count (handles t) log = 1 ∧ (p_leaseUnsafe p = true ↔ lost t es) ∧ (p_cancelRequested p = true ↔ cancelled t es) ∧
        in_phase t es log p
    | None =>
        count (handles t) log ≤ 1 ∧ earned t es log ∧
        (count (ends t) log = 1 ∧ ¬ lost t es ∨ count (ends t) log = 0 ∧ lost t es)
    end.

(** [running] is reset when [run] settles, and not before. *)
Definition alive (w : worker) : Prop := w_running w = true ∨ w_loop w = Idle.

Record worker_inv (evs : list event) (w : worker) : Prop := {
  inv_queue : queue_ok w;
  inv_idle : alive w;
  inv_tickets : ∀ t, ticket_ok evs w t;
}.

(** What the report of a task depends on. *)
Definition alike (p p' : process) : Prop :=
  p_phase p' = p_phase p ∧ p_leaseUnsafe p' = p_leaseUnsafe p ∧ p_cancelRequested p' = p_cancelRequested p ∧
  (p_hb p = HbDone → p_hb p' = HbDone).

Lemma alike_refl p : alike p p.
Proof. by split_and!. Qed.

Lemma events_of_snoc t evs ev : events_of t (evs ++ [ev]) = events_of t evs ++ (if about t ev then [ev] else []).
Proof. unfold events_of. rewrite List.filter_app. cbn. by destruct (about t ev). Qed.

Lemma ticket_frame evs ev w w' t l :
  about t ev = false → (frontier w' <=? t) = (frontier w <=? t) → w_log w' = w_log w ++ l → forallb (silent t) l = true →
  option_Forall2 alike (w_active w !! t) (w_active w' !! t) → ticket_ok evs w t → ticket_ok (evs ++ [ev]) w' t.
Proof.
  intros He Hf Hl Hs Ha. destruct (count_silent t l Hs) as (C1 & C2 & C3). unfold ticket_ok.
  rewrite events_of_snoc, He, app_nil_r, Hf, Hl. unfold earned, in_phase, earned. rewrite !count_app, C1, C2, C3, !Nat.add_0_r.
  destruct (w_active w !! t) as [p|], (w_active w' !! t) as [p'|]; inversion Ha as [? ? (Hp & Hu & Hc & Hb)|]; subst; [|done].
  clear Hf. destruct (frontier w <=? t); [by intros []|]. rewrite Hp, Hu, Hc. intros (H1 & H2 & H3 & H4). split_and!; try done.
  destruct (p_phase p) as [| |[]| |]; naive_solver.
Qed.

Lemma quiet_ticket evs ev w w' t : quiet w w' → about t ev = false → ticket_ok evs w t → ticket_ok (evs ++ [ev]) w' t.
Proof.
  intros (Ha & _ & Hf & _ & l & Hl & Hs) He. apply (ticket_frame evs ev w w' t l); rewrite ?Hf; auto. rewrite Ha.
  destruct (w_active w !! t); constructor. apply alike_refl.
Qed.

Lemma not_active_above evs w t p : ticket_ok evs w t → w_active w !! t = Some p → t < frontier w.
Proof. unfold ticket_ok. intros H Hp. destruct (frontier w <=? t) eqn:E; [|by apply Nat.leb_gt in E]. by rewrite (proj1 H) in Hp. Qed.

Lemma alive_shutdown e w : w_running w = true → alive (begin_shutdown e w).
Proof. intros H. unfold begin_shutdown. destruct (bool_decide _); [by right|by left]. Qed.

Lemma alive_claim k w : w_running w = true → alive (claim_head k w).
Proof.
  intros H. unfold claim_head. destruct (w_stopping w); [by apply alive_shutdown|]. destruct (_ <=? _)%Z; by left.
Qed.

Lemma alive_connected k r w : w_running w = true → alive (connected k r w).
Proof.
  intros H. unfold connected. destruct r as [h|]; [|by apply alive_shutdown].
  destruct (hs_result h); [| |by apply alive_shutdown]; (destruct (_ || _); [by apply alive_shutdown|]);
    destruct (supportsQueueFilter h); by apply alive_claim.
Qed.

Lemma alive_claimed k r w : w_running w = true → alive (claimed k r w).
Proof.
  intros H. unfold claimed. destruct r as [[|j jobs]|retryable]; [|by left|].
  - destruct (w_stopping w); [by apply alive_shutdown|by left].
  - destruct (w_stopping w); [by apply alive_shutdown|]. destruct retryable; [by left|by apply alive_shutdown].
Qed.

Lemma busy_running w l : alive w → w_loop w = l → l ≠ Idle → w_running w = true.
Proof. intros [H|H] Hl Hn; congruence. Qed.

(** ** One step *)

Lemma inv_quiet_step evs ev w w' :
  worker_inv evs w → quiet w w' → alive w' → (∀ t, about t ev = false) → worker_inv (evs ++ [ev]) w'.
Proof.
  intros [Hq Hi Ht] Hw Ha He. split; [by apply Hw|done|]. intros t. by eapply quiet_ticket.
Qed.

Lemma inv_task_step evs ev w w' t l :
  worker_inv evs w → w_loop w' = w_loop w → w_next w' = w_next w → w_running w' = w_running w → w_log w' = w_log w ++ l →
  (∀ u, u ≠ t → w_active w' !! u = w_active w !! u ∧ about u ev = false ∧ forallb (silent u) l = true) →
  ticket_ok (evs ++ [ev]) w' t → worker_inv (evs ++ [ev]) w'.
Proof.
  intros [Hq Hi Ht] Hl Hn Hr Hlog Hu Hok.
  assert (queued w' = queued w) as Eq by (unfold queued; by rewrite Hl).
  assert (frontier w' = frontier w) as Ef by (unfold frontier; by rewrite Eq, Hn).
  split.
  - unfold queue_ok. by rewrite Eq, Ef, Hn.
  - unfold alive. by rewrite Hr, Hl.
  - intros u. destruct (decide (u = t)) as [->|Hne]; [done|]. destruct (Hu u Hne) as (H1 & H2 & H3).
    apply (ticket_frame evs ev w w' u l); rewrite ?Ef; auto. rewrite H1. destruct (w_active w !! u); constructor. apply alike_refl.
Qed.

(** A step of the task [t], whose process it finds and replaces. *)
Lemma inv_process_step evs ev w t p p' l :
  worker_inv evs w → w_active w !! t = Some p →
  (∀ u, u ≠ t → about u ev = false ∧ forallb (silent u) l = true) →
  (count (handles t) (w_log w) = 1 → (p_leaseUnsafe p = true ↔ lost t (events_of t evs)) →
   (p_cancelRequested p = true ↔ cancelled t (events_of t evs)) → in_phase t (events_of t evs) (w_log w) p →
   let es := events_of t (evs ++ [ev]) in
   count (handles t) l = 0 ∧ (p_leaseUnsafe p' = true ↔ lost t es) ∧ (p_cancelRequested p' = true ↔ cancelled t es) ∧
   in_phase t es (w_log w ++ l) p') →
  ∀ w', w_active w' = <[t := p']> (w_active w) → w_loop w' = w_loop w → w_next w' = w_next w → w_running w' = w_running w →
  w_log w' = w_log w ++ l → worker_inv (evs ++ [ev]) w'.
Proof.
  intros Hinv Hp Hu Hstep w' Ha Hl Hn Hr Hlog. apply (inv_task_step evs ev w w' t l); try done.
  - intros u Hne. destruct (Hu u Hne). by rewrite Ha, lookup_insert_ne.
  - pose proof (inv_tickets _ _ Hinv t) as Ht. pose proof (not_active_above _ _ _ _ Ht Hp) as Hlt.
    assert (frontier w' = frontier w) as Ef by (unfold frontier, queued; by rewrite Hl, Hn).
    unfold ticket_ok in Ht |- *. rewrite Ef, Ha, lookup_insert_eq. rewrite Hp in Ht.
    destruct (_ <=? _) eqn:E; [apply Nat.leb_le in E; lia|]. destruct Ht as (H1 & H2 & H3 & H4).
    destruct (Hstep H1 H2 H3 H4) as (H5 & H6 & H7 & H8). rewrite Hlog, count_app. split_and!; try done. lia.
Qed.

Lemma elem_snoc {A} (x y : A) l : x ∈ l ++ [y] ↔ x ∈ l ∨ x = y.
Proof. by rewrite elem_of_app, list_elem_of_singleton. Qed.

Lemma snoc_other t es ev : (∀ r, ev ≠ HeartbeatSettles t r) → (lost t (es ++ [ev]) ↔ lost t es) ∧ (cancelled t (es ++ [ev]) ↔ cancelled t es).
Proof. intros H. unfold lost, cancelled. rewrite !elem_snoc. split; (split; [intros [?|<-]; [done|by destruct (H _ eq_refl)]|by left]). Qed.

Lemma completes_le_ends t l : count (completes t) l ≤ count (ends t) l.
Proof.
  unfold count. induction l as [|c l IH]; cbn; [lia|]. destruct (completes t c) eqn:E; [rewrite (completes_ends _ _ E); cbn; lia|].
  destruct (ends t c); cbn; lia.
Qed.

Lemma about_same t u : t ≠ u → (t =? u) = false.
Proof. apply Nat.eqb_neq. Qed.

Section steps.
Context (k : config) (evs : list event) (w : worker) (t : nat) (p : process).
Context (Hinv : worker_inv evs w) (Hp : w_active w !! t = Some p).

Lemma handler_settles_inv r p' :
  handler_settled r p = Some p' → worker_inv (evs ++ [HandlerSettles t r]) (with_process t p' w).
Proof using Hinv Hp.
  intros H. unfold handler_settled in H. destruct (p_phase p) eqn:Ep; try done. injection H as <-.
  apply (inv_process_step evs _ w t p (abort_heartbeat (with_phase (Draining (Some r)) p)) []); try done; [| |by rewrite app_nil_r].
  - intros u Hne. split; [by apply Nat.eqb_neq|done].
  - intros _ Hl Hc Hph. rewrite events_of_snoc. cbn [about]. rewrite Nat.eqb_refl.
    destruct (snoc_other t (events_of t evs) (HandlerSettles t r)) as [E1 E2]; [done|]. rewrite E1, E2. split_and!; try done.
    unfold in_phase in *. cbn. rewrite Ep in Hph. rewrite app_nil_r. split; [done|]. apply elem_snoc. by right.
Qed.

Lemma heartbeat_due_inv w' : heartbeat_due t p w = Some w' → worker_inv (evs ++ [HeartbeatDue t]) w'.
Proof using Hinv Hp.
  intros H. unfold heartbeat_due in H. destruct (p_hb p) eqn:Eh; try done. injection H as <-.
  eapply (inv_process_step evs _ w t p _ [HeartbeatCalled t]); try done.
  intros _ Hl Hc Hph. rewrite events_of_snoc, app_nil_r. split_and!; try done.
  unfold in_phase in *. cbn. rewrite count_app. unfold earned in *. rewrite count_app, !Nat.add_0_r.
  destruct (p_phase p) as [| |[]| |]; naive_solver congruence.
Qed.

Lemma heartbeat_settles_inv r w' : heartbeat_settled t r p w = Some w' → worker_inv (evs ++ [HeartbeatSettles t r]) w'.
Proof using Hinv Hp.
  intros H. unfold heartbeat_settled in H. destruct (p_hb p) eqn:Eh; try done. injection H as <-.
  assert (∀ es log p', in_phase t es log p → p_phase p' = p_phase p → ∀ ev l, count (ends t) l = 0 → in_phase t (es ++ [ev]) (log ++ l) p') as Hph.
  { intros es log p' H E ev l Hl. unfold in_phase in *. rewrite E, count_app, Hl, Nat.add_0_r.
    destruct (p_phase p) as [| |[]| |]; try done; [|naive_solver congruence..]. split; [tauto|]. apply elem_snoc. tauto. }
  set (p' := Process (p_job p) (p_phase p) (match r with Some false => if p_hbAborted p then HbDone else HbWaiting | _ => HbDone end) (p_hbAborted p)
    (match r with Some false => p_aborted p | _ => true end) (p_forceStopped p)
    (match r with None => true | _ => p_leaseUnsafe p end) (match r with Some true => true | _ => p_cancelRequested p end)).
  apply (inv_process_step evs _ w t p p' (match r with None => [ErrorReported] | _ => [] end)); try done.
  - intros u Hne. split; [by apply Nat.eqb_neq|by destruct r].
  - intros _ Hl Hc Hin. rewrite events_of_snoc. cbn [about]. rewrite Nat.eqb_refl.
    split; [by destruct r as [[]|]|]. split_and!; [| |by apply Hph; [..|destruct r]].
    + unfold lost in *. rewrite elem_snoc. destruct r as [[]|]; cbn; naive_solver.
    + unfold cancelled in *. rewrite elem_snoc. destruct r as [[]|]; cbn; naive_solver.
  - by destruct r as [[]|].
  - by destruct r as [[]|].
  - by destruct r as [[]|].
  - by destruct r as [[]|].
  - destruct r as [[]|]; cbn; by rewrite ?app_nil_r.
Qed.

Lemma in_phase_of : in_phase t (events_of t evs) (w_log w) p.
Proof using Hinv Hp.
  pose proof (inv_tickets _ _ Hinv t) as Ht. pose proof (not_active_above _ _ _ _ Ht Hp) as Hlt. unfold ticket_ok in Ht.
  rewrite Hp in Ht. destruct (_ <=? _) eqn:E; [apply Nat.leb_le in E; lia|]. tauto.
Qed.

(** What the report does to the counts of its ticket. *)
Lemma verdict_call r c : verdict t r p = Some c →
  p_leaseUnsafe p = false ∧ ends t c = true ∧ handles t c = false ∧ (∀ u, u ≠ t → silent u c = true) ∧
  (completes t c = true → p_cancelRequested p = false ∧ (r = Returns ∨ r = Throws Undefined)).
Proof using.
  unfold verdict. destruct (p_leaseUnsafe p); [done|]. intros H. split; [done|].
  assert (∀ u, u ≠ t → (t =? u) = false) as Hne by (intros u Hu; by apply Nat.eqb_neq).
  destruct (p_cancelRequested p); [|destruct (p_forceStopped p); [|destruct r as [|[]]]]; injection H as <-;
    cbn; rewrite Nat.eqb_refl; (split_and!; [done|done|intros u Hu; unfold silent; cbn; by rewrite Hne|naive_solver]).
Qed.

Lemma drained_inv w' : drained t p w = Some w' → worker_inv (evs ++ [Drained t]) w'.
Proof using Hinv Hp.
  intros H. pose proof in_phase_of as Hph. unfold drained in H. destruct (p_phase p) as [| |[r|]| |] eqn:Ep; try done.
  2:{ exfalso. unfold in_phase in Hph. by rewrite Ep in Hph. }
  destruct (p_hb p) eqn:Eh; try done. injection H as <-.
  cbn [mbind option_bind]. destruct (verdict t r p) as [c|] eqn:Ev.
  - destruct (verdict_call r c Ev) as (Hu & He & Hh & Hs & Hc).
    apply (inv_process_step evs _ w t p (with_phase Reporting p) [c]); try done.
    + intros u Hne. split; [done|]. cbn. by rewrite Hs.
    + intros _ Hl Hcan Hin. rewrite events_of_snoc, app_nil_r. unfold in_phase in Hin |- *. rewrite Ep in Hin. destruct Hin as [Hn Hr].
      assert (count (ends t) (w_log w ++ [c]) = 1) as Hn1 by (rewrite count_app, Hn; unfold count; cbn; by rewrite He).
      split_and!; try done; [unfold count; cbn; by rewrite Hh|]. cbn. split_and!; try done.
      pose proof (completes_le_ends t (w_log w)) as Hle. unfold earned. rewrite count_app.
      destruct (completes t c) eqn:E; [right|left; unfold count at 2; cbn; rewrite E; cbn; lia].
      destruct (Hc eq_refl) as [Hcf Hrs]. split; [destruct Hrs as [->| ->]; [by left|by right]|]. rewrite <-Hcan. congruence.
  - apply (inv_process_step evs _ w t p (with_phase Returned p) []); try done; [|by rewrite app_nil_r].
    intros _ Hl Hcan Hin. rewrite events_of_snoc, !app_nil_r. split_and!; try done.
    unfold in_phase in *. rewrite Ep in Hin. destruct Hin as [Hn Hr]. cbn.
    assert (p_leaseUnsafe p = true) as -> by (unfold verdict in Ev; destruct (p_leaseUnsafe p), (p_cancelRequested p), (p_forceStopped p), r as [|[]]; done).
    split_and!; try done. left. pose proof (completes_le_ends t (w_log w)). lia.
Qed.

Lemma reported_inv ok w' : reported t ok p w = Some w' → worker_inv (evs ++ [ReportSettles t ok]) w'.
Proof using Hinv Hp.
  intros H. unfold reported in H. destruct (p_phase p) eqn:Ep; try done. injection H as <-.
  apply (inv_process_step evs _ w t p (with_phase Returned p) (if ok then [] else [ErrorReported])); try by destruct ok.
  - intros _ Hl Hc Hin. rewrite events_of_snoc, app_nil_r. split; [by destruct ok|]. split_and!; try done.
    unfold in_phase in *. rewrite Ep in Hin. destruct Hin as (Hn & Hb & Hu & He). cbn. rewrite Hu, count_app, Hn.
    split_and!; [by destruct ok|done|]. unfold earned in *. rewrite count_app. destruct He as [He|He]; [left|by right]. rewrite He. by destruct ok.
  - destruct ok; cbn; by rewrite ?app_nil_r.
Qed.

Lemma task_settles_inv w' : task_settled t p w = Some w' → worker_inv (evs ++ [TaskSettles t]) w'.
Proof using Hinv Hp.
  intros H. unfold task_settled in H. destruct (p_phase p) eqn:Ep; try done. injection H as <-.
  pose proof (inv_tickets _ _ Hinv t) as Ht. pose proof (not_active_above _ _ _ _ Ht Hp) as Hlt.
  apply (inv_task_step evs _ w _ t []); try done; [by rewrite app_nil_r|intros u Hu; cbn; by rewrite lookup_delete_ne|].
  unfold ticket_ok in *. rewrite events_of_snoc, app_nil_r. cbn [w_active with_active w_log frontier]. rewrite lookup_delete_eq.
  change (frontier (with_active _ w)) with (frontier w). destruct (_ <=? _) eqn:E; [apply Nat.leb_le in E; lia|].
  rewrite Hp in Ht. destruct Ht as (Hh & Hl & Hc & Hin). unfold in_phase in Hin. rewrite Ep in Hin. destruct Hin as (Hn & _ & He).
  split_and!; [lia|done|]. destruct (p_leaseUnsafe p); [right|left]; (split; [done|]); rewrite <-Hl; done.
Qed.
End steps.

(** The head of the queue leaves it. *)
Lemma queue_head w t j rest : queue_ok w → queued w = (t, j) :: rest → t = frontier w ∧ w_next w = S t + length rest.
Proof. intros [Hle Hq] E. rewrite E in Hq, Hle. cbn in Hq, Hle. injection Hq as Ht _. unfold frontier in *. rewrite E in *. cbn in *. lia. Qed.

Lemma inv_advance evs ev w w' t j rest l :
  worker_inv evs w → queued w = (t, j) :: rest → queued w' = rest → w_next w' = w_next w → w_running w' = w_running w →
  w_loop w ≠ Idle → w_log w' = w_log w ++ l →
  (∀ u, about u ev = false) → (∀ u, u ≠ t → w_active w' !! u = w_active w !! u ∧ forallb (silent u) l = true) →
  (ticket_ok evs w t → ticket_ok (evs ++ [ev]) w' t) → worker_inv (evs ++ [ev]) w'.
Proof.
  intros [Hq Hi Ht] E E' Hn Hr Hidle Hlog Hev Hu Hok. destruct (queue_head _ _ _ _ Hq E) as [Ef Hlt].
  assert (frontier w' = S (frontier w)) as Ef'.
  { rewrite <-Ef. unfold frontier. rewrite E', Hn. lia. }
  split.
  - destruct Hq as [Hle Hq]. unfold queue_ok. rewrite Ef', E', Hn. rewrite E in Hle, Hq. cbn in Hle, Hq. split; [lia|]. by injection Hq.
  - left. rewrite Hr. by destruct Hi.
  - intros u. destruct (decide (u = t)) as [->|Hne]; [by apply Hok|]. destruct (Hu u Hne) as [Ha Hs].
    apply (ticket_frame evs ev w w' u l); auto.
    + rewrite Ef'. destruct (frontier w <=? u) eqn:Eu; [apply Nat.leb_le in Eu; apply Nat.leb_le; lia|]. apply Nat.leb_gt in Eu. apply Nat.leb_gt. lia.
    + rewrite Ha. destruct (w_active w !! u); constructor. apply alike_refl.
Qed.

Lemma next_job_inv k evs w rest : worker_inv evs w → w_loop w = Dispatching rest → worker_inv (evs ++ [NextJob]) (next_job k rest w).
Proof.
  intros Hinv Hl. assert (queued w = rest) as Hq by (unfold queued; by rewrite Hl).
  destruct rest as [|[t j] rest]; cbn [next_job].
  { apply (inv_quiet_step evs _ w); try done; [by apply quiet_claim|]. apply alive_claim. eapply busy_running; [apply Hinv|exact Hl|done]. }
  destruct (queue_head _ _ _ _ (inv_queue _ _ Hinv) Hq) as [Ef Hlt].
  assert (∀ u, u ≠ t → (t =? u) = false) as Hne by (intros u Hu; by apply Nat.eqb_neq).
  assert (∀ w' l, queued w' = rest → w_next w' = w_next w → w_active w' = w_active w → w_log w' = w_log w ++ l ++ [ReleaseCalled t] →
    (∀ u, forallb (silent u) l = true) → ticket_ok evs w t → ticket_ok (evs ++ [NextJob]) w' t) as Hrel.
  { intros w' l E1 E2 E3 E4 Hs. destruct (count_silent t l (Hs t)) as (C1 & C2 & C3). unfold ticket_ok.
    assert (frontier w' = S t) as -> by (unfold frontier; rewrite E1, E2; lia).
    rewrite <-Ef, Nat.leb_refl, (proj2 (Nat.leb_gt (S t) t)) by lia. intros (Ha & H1 & H2 & H3 & H4).
    unfold earned. rewrite events_of_snoc, app_nil_r, E3, Ha, E4, !count_app, C1, C2, C3, H1, H2, H3, H4. unfold count. cbn. rewrite Nat.eqb_refl. cbn.
    split_and!; [lia|by left|]. left. split; [done|]. apply not_elem_of_nil. }
  destruct (w_stopping w).
  { apply (inv_advance evs _ w _ t j rest [ReleaseCalled t]); try done; [by rewrite Hl| |by apply (Hrel _ [])].
    intros u Hu. split; [done|]. unfold silent. cbn. by rewrite Hne. }
  destruct (registered w j) eqn:Ereg; cbn [negb].
  - apply (inv_advance evs _ w _ t j rest [HandlerCalled t]); try done; [by rewrite Hl|unfold dispatch; change (registered (with_loop _ w) j) with (registered w j); by rewrite Ereg| |].
    + intros u Hu. unfold dispatch. cbn. rewrite lookup_insert_ne by done. split; [done|]. unfold silent. cbn. by rewrite Hne.
    + unfold ticket_ok. assert (frontier (dispatch t j (with_loop (Dispatching rest) w)) = S t) as ->
        by (unfold frontier, queued; cbn; lia).
      rewrite <-Ef, Nat.leb_refl, (proj2 (Nat.leb_gt (S t) t)) by lia. intros (Ha & H1 & H2 & H3 & H4).
      unfold dispatch. change (registered (with_loop _ w) j) with (registered w j). rewrite Ereg. cbn [w_active emit with_executions with_active w_log].
      rewrite lookup_insert_eq, events_of_snoc, app_nil_r, H4. cbn [w_log with_loop]. unfold in_phase. cbn [p_phase p_leaseUnsafe p_cancelRequested]. rewrite !count_app, H1, H2.
      unfold count. cbn. rewrite Nat.eqb_refl. unfold lost, cancelled. split_and!; try done; (split; [done|]); by intros ?%not_elem_of_nil.
  - apply (inv_advance evs _ w _ t j rest [ErrorReported; ReleaseCalled t]); try done; [by rewrite Hl|by cbn; rewrite <-app_assoc| |].
    + intros u Hu. split; [done|]. unfold silent. cbn. by rewrite Hne.
    + apply (Hrel _ [ErrorReported]); try done. cbn. by rewrite <-app_assoc.
Qed.

Lemma force_alike p : alike p (force p).
Proof. split_and!; try done. intros H. cbn. by rewrite H. Qed.

Lemma force_all_lookup w t : option_Forall2 alike (w_active w !! t) (w_active (force_all w) !! t).
Proof.
  cbn. rewrite map_lookup_imap. destruct (w_active w !! t) as [p|]; cbn; constructor.
  destruct (bool_decide _); [apply force_alike|apply alike_refl].
Qed.

Lemma quiet_released w rest ok : w_loop w = Releasing rest → quiet w (released rest ok w).
Proof.
  intros Hl. unfold released, quiet, queue_ok, frontier, queued. cbn [with_loop w_loop w_next w_active w_executions w_log].
  rewrite Hl. destruct ok; cbn; split_and!; try done; [exists []; by rewrite app_nil_r|by exists [ErrorReported]].
Qed.

Lemma grace_elapsed_inv evs w w' : worker_inv evs w → grace_elapsed w = Some w' → worker_inv (evs ++ [GraceElapses]) w'.
Proof.
  intros Hinv H. unfold grace_elapsed in H. destruct (w_loop w) eqn:Hl; try done.
  all: assert (queued w = []) as Hq by (unfold queued; by rewrite Hl).
  all: assert (w_running w = true) as Hr by (eapply busy_running; [apply Hinv|exact Hl|done]).
  - assert (quiet (force_all w) w' ∧ alive w') as [Hw Ha].
    { injection H as <-. destruct (bool_decide _); split; [by apply quiet_finish|by right|by apply quiet_loop|by left]. }
    destruct Hw as (A & _ & F & Q & l & L & S). split; [by apply Q, Hinv|done|]. intros t.
    apply (ticket_frame evs _ w w' t l); [done|by rewrite F|done|done|rewrite A; apply force_all_lookup|by apply Hinv].
  - injection H as <-. apply (inv_quiet_step evs _ w); try done; [|by right].
    eapply quiet_trans; [by apply (quiet_emit ErrorReported)|]. by apply quiet_finish.
Qed.

Lemma step_inv k evs ev w w' : worker_inv evs w → step k ev w = Some w' → worker_inv (evs ++ [ev]) w'.
Proof.
  intros Hinv H. pose proof (inv_idle _ _ Hinv) as Ha.
  destruct ev; cbn [step] in H; unfold at_process in H.
  12:{ destruct (w_active w !! t) as [p|] eqn:Hp; [|done]. cbn in H. destruct (handler_settled r p) as [p'|] eqn:E; [|done].
       injection H as <-. by eapply handler_settles_inv. }
  12:{ destruct (w_active w !! t) as [p|] eqn:Hp; [|done]. exfalso. pose proof (in_phase_of evs w t p Hinv Hp) as Hph.
       unfold in_phase in Hph. cbn in H. unfold route_released in H. by destruct (p_phase p). }
  12-16: destruct (w_active w !! t) as [p|] eqn:Hp; [|done]; cbn in H.
  - injection H as <-. destruct (handle queueName jobName w) as [w1|] eqn:E; cbn; [|by apply (inv_quiet_step evs _ w)].
    destruct (quiet_handle _ _ _ _ E) as [Hw Hi]. apply (inv_quiet_step evs _ w); [done|exact Hw|by apply Hi|done].
  - injection H as <-. destruct (run aborted w) as [w1|] eqn:E; cbn; [|by apply (inv_quiet_step evs _ w)].
    unfold run in E. destruct (w_running w) eqn:Er; [done|]. destruct Ha as [Ha|Ha]; [congruence|].
    assert (queued w = []) as Hq by (unfold queued; by rewrite Ha).
    destruct (w_handlers w); [done|]. injection E as <-. apply (inv_quiet_step evs _ w); try done.
    + eapply quiet_trans; [apply (quiet_flags true aborted)|]. destruct aborted; [by apply quiet_shutdown|].
      eapply quiet_trans; [by apply (quiet_loop Connecting)|by apply quiet_emit].
    + destruct aborted; [by apply alive_shutdown|by left].
  - injection H as <-. apply (inv_quiet_step evs _ w); try done. apply quiet_flags.
  - destruct (w_loop w) eqn:Hl; try done. injection H as <-. apply (inv_quiet_step evs _ w); try done; [by apply quiet_connected|].
    apply alive_connected. eapply busy_running; [exact Ha|exact Hl|done].
  - destruct (w_loop w) eqn:Hl; try done. injection H as <-. apply (inv_quiet_step evs _ w); try done; [by eapply quiet_claimed|].
    apply alive_claimed. eapply busy_running; [exact Ha|exact Hl|done].
  - destruct (w_loop w) eqn:Hl; try done. injection H as <-. assert (queued w = []) as Hq by (unfold queued; by rewrite Hl).
    assert (w_running w = true) as Hr by (eapply busy_running; [exact Ha|exact Hl|done]).
    apply (inv_quiet_step evs _ w); try done; unfold backed_off; destruct (w_stopping w);
      [by apply quiet_shutdown| |by apply alive_shutdown|by apply alive_claim].
    eapply quiet_trans; [|by apply quiet_claim]. split_and!; try done. exists []. by rewrite app_nil_r.
  - unfold race_settled in H. destruct (w_loop w) eqn:Hl; try done. destruct (_ || _); [|done]. injection H as <-.
    assert (queued w = []) as Hq by (unfold queued; by rewrite Hl).
    apply (inv_quiet_step evs _ w); try done; [by apply quiet_claim|]. apply alive_claim. eapply busy_running; [exact Ha|exact Hl|done].
  - destruct (w_loop w) eqn:Hl; try done. injection H as <-. by apply next_job_inv.
  - destruct (w_loop w) eqn:Hl; try done. injection H as <-. apply (inv_quiet_step evs _ w); try done; [by apply quiet_released|].
    left. assert (w_running w = true) by (eapply busy_running; [exact Ha|exact Hl|done]). by destruct ok.
  - unfold grace_settled in H. destruct (w_loop w) eqn:Hl; try done; (destruct (none_active _ w); [|done]); injection H as <-;
      (apply (inv_quiet_step evs _ w); [done| |by right|done]); apply quiet_finish; unfold queued; by rewrite Hl.
  - by apply (grace_elapsed_inv evs w).
  - by eapply heartbeat_due_inv.
  - by eapply heartbeat_settles_inv.
  - by eapply drained_inv.
  - by eapply reported_inv.
  - by eapply task_settles_inv.
Qed.

Lemma worker_events_app k evs evs' w : run_events k (evs ++ evs') w = run_events k evs w ≫= run_events k evs'.
Proof. revert w. induction evs as [|ev evs IH]; intros w; [done|]. cbn. destruct (step k ev w); [apply IH|done]. Qed.

Lemma run_inv k evs w : run_events k evs initial = Some w → worker_inv evs w.
Proof.
  revert w. induction evs as [|ev evs IH] using rev_ind; intros w H.
  - injection H as <-. split; [split; [cbn; lia|done]|by right|]. intros t. by split_and!.
  - rewrite worker_events_app in H. destruct (run_events k evs initial) as [w1|] eqn:E; [|done]. cbn in H.
    destruct (step k ev w1) as [w2|] eqn:E2; [|done]. injection H as <-. eapply step_inv; [by apply IH|done].
Qed.

Lemma events_of_elem t evs ev : about t ev = true → (ev ∈ events_of t evs ↔ ev ∈ evs).
Proof. intros H. unfold events_of. rewrite !list_elem_of_In, List.filter_In. tauto. Qed.

Lemma count_pos f c l : c ∈ l → f c = true → count f l ≠ 0.
Proof.
  intros Hin Hf E. apply list_elem_of_In in Hin. assert (In c (List.filter f l)) as H by (by apply List.filter_In).
  unfold count in E. by destruct (List.filter f l).
Qed.

(** C24. Every lease is accounted for. Along every run, a claimed job is handled at
    most once and given back at most once (completed, failed or released); when its
    task is over it was given back exactly once, unless a heartbeat failed, and then
    never; and it is completed only after its handler returned (or threw
    [undefined]) and no heartbeat asked for cancellation. *)
Theorem leases_accounted_for : ∀ k evs w t,
  run_events k evs initial = Some w →
  count (handles t) (w_log w) ≤ 1 ∧ count (ends t) (w_log w) ≤ 1 ∧
  (t < w_next w → t ∉ (queued w).*1 → w_active w !! t = None →
     count (ends t) (w_log w) = 1 ∨ HeartbeatSettles t None ∈ evs) ∧
  (HeartbeatSettles t None ∈ evs → count (ends t) (w_log w) = 0) ∧
  (CompleteCalled t ∈ w_log w →
     (HandlerSettles t Returns ∈ evs ∨ HandlerSettles t (Throws Undefined) ∈ evs) ∧ HeartbeatSettles t (Some true) ∉ evs).
Proof.
  intros k evs w t Hr. pose proof (run_inv k evs w Hr) as [Hq _ Ht]. specialize (Ht t).
  assert (∀ r, HeartbeatSettles t r ∈ events_of t evs ↔ HeartbeatSettles t r ∈ evs) as Eh by (intros r; apply events_of_elem, Nat.eqb_refl).
  assert (∀ r, HandlerSettles t r ∈ events_of t evs ↔ HandlerSettles t r ∈ evs) as Es by (intros r; apply events_of_elem, Nat.eqb_refl).
  assert (CompleteCalled t ∈ w_log w → count (completes t) (w_log w) ≠ 0) as Hc by (intros H; by eapply count_pos; [exact H|apply Nat.eqb_refl]).
  assert (t < w_next w → t ∉ (queued w).*1 → t < frontier w) as Hf.
  { intros Hlt Hn. destruct Hq as [Hle Hq]. rewrite Hq, elem_of_seq in Hn. unfold frontier in *. lia. }
  unfold ticket_ok, in_phase, earned, lost, cancelled, succeeded in Ht.
  destruct (frontier w <=? t) eqn:E.
  - apply Nat.leb_le in E. destruct Ht as (H0 & H1 & H2 & H3 & H4). rewrite <-!Eh, H4, H1, H2. split_and!; try lia.
    + intros Ha Hn. specialize (Hf Ha Hn). lia.
    + intros H. by destruct (Hc H).
  - destruct (w_active w !! t) as [p|].
    + destruct Ht as (H1 & H2 & H3 & H4). pose proof (completes_le_ends t (w_log w)) as Hle. rewrite H1.
      rewrite !Eh in H2, H3. destruct (p_phase p) as [| |[r|]| |]; try done; rewrite ?Eh, ?Es in H4; destruct (p_leaseUnsafe p); naive_solver lia.
    + rewrite !Eh, !Es in Ht. naive_solver lia.
Qed.

(** ** Concurrency *)

(** The Gateway answers a claim with at most as many jobs as were asked for. *)
Definition within_limit (ev : event) (w : worker) : bool :=
  match ev, w_loop w with
  | ClaimSettles (Ok jobs), Claiming limit => (Z.of_nat (length jobs) <=? limit)%Z
  | _, _ => true
  end.

Fixpoint honest (k : config) (evs : list event) (w : worker) : bool :=
  match evs with
  | [] => true
  | ev :: evs => within_limit ev w && match step k ev w with Some w' => honest k evs w' | None => true end
  end.

(** Tasks the loop may still start. *)
Definition reserved (l : loop_phase) : Z :=
  match l with
  | Claiming limit => limit
  | Dispatching rest | Releasing rest => Z.of_nat (length rest)
  | _ => 0
  end.

(** ** The steps of a task *)

Definition task_of (ev : event) : option nat :=
  match ev with
  | HandlerSettles t _ | RouteReleaseSettles t _ | HeartbeatDue t | HeartbeatSettles t _ | Drained t | ReportSettles t _ | TaskSettles t => Some t
  | _ => None
  end.

(** A call that takes on new work. *)
Definition starts (c : call) : bool :=
  match c with ConnectCalled | ClaimCalled _ _ | HandlerCalled _ => true | _ => false end.

(** A step that keeps the loop and the flags, and replaces or removes one task. *)
Record task_shape (t : nat) (w w' : worker) : Prop := {
  ts_loop : w_loop w' = w_loop w;
  ts_stopping : w_stopping w' = w_stopping w;
  ts_running : w_running w' = w_running w;
  ts_active : (∃ p', w_active w' = <[t := p']> (w_active w)) ∨ w_active w' = delete t (w_active w);
  ts_log : ∃ l, w_log w' = w_log w ++ l ∧ forallb (λ c, negb (starts c)) l = true;
}.

Lemma shape_replaces t p' w w' l :
  w_active w' = <[t := p']> (w_active w) → w_loop w' = w_loop w → w_stopping w' = w_stopping w → w_running w' = w_running w →
  w_log w' = w_log w ++ l → forallb (λ c, negb (starts c)) l = true → task_shape t w w'.
Proof. intros Ha H1 H2 H3 Hl Hs. split; eauto. Qed.

Lemma verdict_starts t r p c : verdict t r p = Some c → starts c = false.
Proof. unfold verdict. repeat case_match; intros [= <-]; done. Qed.

Lemma task_steps k ev t w w' : task_of ev = Some t → step k ev w = Some w' → is_Some (w_active w !! t) ∧ task_shape t w w'.
Proof.
  intros Ht H. destruct ev; try done; injection Ht as ->; cbn [step] in H; unfold at_process in H;
    (destruct (w_active w !! t) as [p|] eqn:Hp; [|done]); cbn in H; (split; [done|]).
  - destruct (handler_settled r p) as [p'|]; [|done]. injection H as <-. apply (shape_replaces t p' _ _ []); try done. by rewrite app_nil_r.
  - destruct (route_released p) as [p'|]; [|done]. injection H as <-.
    apply (shape_replaces t p' _ _ (if ok then [] else [ErrorReported])); destruct ok; try done. by rewrite app_nil_r.
  - unfold heartbeat_due in H. destruct (p_hb p); try done. injection H as <-. by eapply (shape_replaces t _ _ _ [HeartbeatCalled t]).
  - unfold heartbeat_settled in H. destruct (p_hb p); try done. injection H as <-.
    destruct r as [[]|]; [eapply (shape_replaces t _ _ _ []); try done; by rewrite app_nil_r..|by eapply (shape_replaces t _ _ _ [ErrorReported])].
  - unfold drained in H. destruct (p_phase p) as [| |r| |]; try done. destruct (p_hb p); try done. injection H as <-.
    destruct (r ≫= _) as [c|] eqn:E; [|eapply (shape_replaces t _ _ _ []); try done; by rewrite app_nil_r].
    eapply (shape_replaces t _ _ _ [c]); try done. destruct r as [r|]; [|done]. cbn in E |- *. by rewrite (verdict_starts _ _ _ _ E).
  - unfold reported in H. destruct (p_phase p); try done. injection H as <-.
    eapply (shape_replaces t _ _ _ (if ok then [] else [ErrorReported])); destruct ok; try done. by rewrite app_nil_r.
  - unfold task_settled in H. destruct (p_phase p); try done. injection H as <-. split; try done; [by right|]. exists []. by rewrite app_nil_r.
Qed.

(** ** No more handlers than the concurrency *)

Section concurrency.
Context (k : config) (Hbatch : (0 < k_maxClaimBatch k)%Z).

Definition busy (w : worker) : Z := Z.of_nat (size (w_active w)).
Definition fits (w : worker) : Prop := (0 ≤ reserved (w_loop w) ∧ busy w + reserved (w_loop w) ≤ k_concurrency k)%Z.

Lemma fits_unreserved w : (busy w ≤ k_concurrency k)%Z → reserved (w_loop w) = 0%Z → fits w.
Proof. unfold fits. intros. lia. Qed.

Lemma fits_shutdown e w : (busy w ≤ k_concurrency k)%Z → fits (begin_shutdown e w).
Proof. intros H. unfold begin_shutdown. destruct (bool_decide _); by apply fits_unreserved. Qed.

Lemma fits_claim w : (busy w ≤ k_concurrency k)%Z → fits (claim_head k w).
Proof using Hbatch.
  intros H. unfold claim_head. destruct (w_stopping w); [by apply fits_shutdown|].
  destruct (_ <=? _)%Z eqn:E; [by apply fits_unreserved|]. unfold fits, busy in *. cbn. to_prop. lia.
Qed.

Lemma fits_task t w w' : fits w → is_Some (w_active w !! t) → task_shape t w w' → fits w'.
Proof.
  unfold fits, busy. intros H [p Hp] [-> _ _ Ha _]. destruct Ha as [[p' ->]| ->]; rewrite ?map_size_insert, ?map_size_delete, Hp; cbn; lia.
Qed.

Lemma fits_connected r w : (busy w ≤ k_concurrency k)%Z → fits (connected k r w).
Proof using Hbatch. intros H. unfold connected. repeat case_match; try (by apply fits_shutdown); by apply fits_claim. Qed.

Lemma fits_claimed r w limit :
  (busy w + limit ≤ k_concurrency k)%Z → (0 ≤ limit)%Z → match r with Ok jobs => (Z.of_nat (length jobs) ≤ limit)%Z | Err _ => True end →
  fits (claimed k r w).
Proof.
  intros H H0 Hj. assert (busy w ≤ k_concurrency k)%Z as Hb by lia. unfold claimed. destruct r as [[|j jobs]|retryable].
  - destruct (w_stopping w); [by apply fits_shutdown|by apply fits_unreserved].
  - unfold fits, busy in *. cbn [w_loop w_active reserved]. rewrite length_zip_with, length_seq. cbn [length] in *. lia.
  - destruct (w_stopping w); [by apply fits_shutdown|]. destruct retryable; [by apply fits_unreserved|by apply fits_shutdown].
Qed.

Lemma fits_next rest w : w_loop w = Dispatching rest → fits w → fits (next_job k rest w).
Proof using Hbatch.
  intros Hl Hf. unfold fits, busy in Hf. rewrite Hl in Hf. destruct rest as [|[t j] rest]; cbn [next_job].
  { apply fits_claim. unfold busy. cbn in Hf. lia. }
  unfold fits, busy. cbn [reserved length] in Hf. destruct (w_stopping w); [cbn; lia|]. destruct (negb _); [cbn; lia|].
  unfold dispatch. cbn. rewrite map_size_insert. destruct (w_active w !! t); cbn; lia.
Qed.

Lemma force_all_size w : size (w_active (force_all w)) = size (w_active w).
Proof.
  rewrite <-!size_dom. f_equal. apply set_eq. intros t. rewrite !elem_of_dom. pose proof (force_all_lookup w t) as H.
  destruct (w_active w !! t), (w_active (force_all w) !! t); inversion H; subst; split; intros []; eauto; done.
Qed.

Lemma fits_step ev w w' : fits w → within_limit ev w = true → step k ev w = Some w' → fits w'.
Proof using Hbatch.
  intros Hf Hh H. assert (busy w ≤ k_concurrency k)%Z as Hb by (unfold fits in Hf; lia).
  destruct (task_of ev) as [t|] eqn:Et; [destruct (task_steps k ev t w w' Et H); by eapply fits_task|].
  destruct ev; try done; cbn [step] in H.
  - injection H as <-. destruct (handle queueName jobName w) as [w1|] eqn:E; [|done].
    unfold handle in E. repeat case_match; try done. by injection E as <-.
  - injection H as <-. unfold run. repeat case_match; try done; cbn; [by apply fits_shutdown|by apply fits_unreserved].
  - by injection H as <-.
  - destruct (w_loop w) eqn:Hl; try done. injection H as <-. by apply fits_connected.
  - unfold within_limit in Hh. unfold fits in Hf. destruct (w_loop w) eqn:Hl; try done. injection H as <-. cbn in Hf.
    apply (fits_claimed r w limit); [lia..|]. destruct r; [to_prop; lia|done].
  - destruct (w_loop w) eqn:Hl; try done. injection H as <-. unfold backed_off.
    destruct (w_stopping w); [by apply fits_shutdown|by apply fits_claim].
  - unfold race_settled in H. destruct (w_loop w) eqn:Hl; try done. destruct (_ || _); [|done]. injection H as <-. by apply fits_claim.
  - destruct (w_loop w) eqn:Hl; try done. injection H as <-. by apply fits_next.
  - destruct (w_loop w) eqn:Hl; try done. injection H as <-. unfold fits, busy, released in *. rewrite Hl in Hf. by destruct ok.
  - unfold grace_settled in H. destruct (w_loop w) eqn:Hl; try done; (destruct (none_active _ w); [|done]); injection H as <-; by apply fits_unreserved.
  - unfold grace_elapsed in H. destruct (w_loop w) eqn:Hl; try done; injection H as <-; [|by apply fits_unreserved].
    destruct (bool_decide _); apply fits_unreserved; try done; unfold busy in *; cbn [w_active with_loop finish emit with_flags]; by rewrite force_all_size.
Qed.
End concurrency.

Lemma run_fits k evs w w' :
  (0 < k_maxClaimBatch k)%Z → fits k w → honest k evs w = true → run_events k evs w = Some w' → fits k w'.
Proof.
  intros Hb. revert w. induction evs as [|ev evs IH]; intros w Hf Hh H; cbn in Hh, H; [by injection H as <-|].
  apply andb_true_iff in Hh as [Hl Hh]. destruct (step k ev w) as [w1|] eqn:E; [|done]. eapply IH; [|done..]. by eapply fits_step.
Qed.

Lemma new_worker_positive name c b l h p m s g k : new_worker name c b l h p m s g = Some k → (0 < k_concurrency k ∧ 0 < k_maxClaimBatch k)%Z.
Proof.
  unfold new_worker. intros H. destruct (bool_decide _); [done|]. destruct ((_ <=? _) || (default 50 b <=? _))%Z eqn:E; [done|].
  apply orb_false_iff in E as [Ec Eb]. repeat (destruct (_ || _); [done|] || (destruct (_ <? _)%Z; [done|])). injection H as <-. cbn [k_concurrency k_maxClaimBatch]. apply Z.leb_gt in Ec, Eb. lia.
Qed.

(** A worker never runs more handlers at once than its concurrency, over any
    number of calls of [run] and [stop] and whatever the Gateway answers, as long as
    no claim returns more jobs than were asked for. *)
Theorem worker_respects_concurrency : ∀ name c b l h p m s g k evs w,
  new_worker name c b l h p m s g = Some k → honest k evs initial = true → run_events k evs initial = Some w →
  (Z.of_nat (size (w_active w)) ≤ k_concurrency k)%Z.
Proof.
  intros name c b l h p m s g k evs w Hk Hh Hr. apply new_worker_positive in Hk as [Hc Hb].
  assert (fits k w) as [H1 H2]; [|unfold busy in H2; lia]. eapply run_fits; [done| |done..]. unfold fits, busy. cbn. rewrite map_size_empty. lia.
Qed.

(** ** Stopping *)

(** The events [run] waits for. *)
Definition steers (ev : event) : bool :=
  match ev with
  | ConnectSettles _ | ClaimSettles _ | BackoffEnds | RaceSettles | NextJob | ReleaseSettles _ | GraceSettles | GraceElapses => true
  | _ => false
  end.

Definition restarts (ev : event) : bool := match ev with Run _ => true | _ => false end.

(** How many more of them a stopping worker takes. *)
Definition remaining (w : worker) : nat :=
  match w_loop w with
  | Idle => 0
  | Cancelling _ _ => 1
  | ShuttingDown _ _ => 2
  | Connecting | Racing _ | BackingOff => 3
  | Dispatching rest => 3 + 2 * length rest
  | Releasing rest => 4 + 2 * length rest
  | Claiming limit => 4 + 2 * Z.to_nat limit
  end.

Definition no_new_work (w w' : worker) : Prop := ∃ l, w_log w' = w_log w ++ l ∧ forallb (λ c, negb (starts c)) l = true.

(** One step of a stopping worker. *)
Definition winds_down (w w' : worker) : Prop := w_stopping w' = true ∧ no_new_work w w' ∧ remaining w' ≤ 2.

Lemma winds_down_shutdown e w w1 l :
  w_log w1 = w_log w ++ l → forallb (λ c, negb (starts c)) l = true → winds_down w (begin_shutdown e w1).
Proof.
  intros Hl Hs. unfold begin_shutdown. destruct (bool_decide _); (split_and!; [done| |cbn; lia]).
  - exists (l ++ [RunSettled e]). cbn. by rewrite Hl, <-app_assoc, forallb_app, Hs.
  - by exists l.
Qed.

Lemma winds_down_now e w : winds_down w (begin_shutdown e w).
Proof. apply (winds_down_shutdown e w w []); [by rewrite app_nil_r|done]. Qed.

Lemma winds_down_reported e w : winds_down w (begin_shutdown e (emit ErrorReported w)).
Proof. by apply (winds_down_shutdown e w _ [ErrorReported]). Qed.

Lemma winds_down_connected k r w : w_stopping w = true → winds_down w (connected k r w).
Proof.
  intros Hs. unfold connected, claim_head. destruct r as [h|]; [|apply winds_down_now].
  destruct (hs_result h); [| |apply winds_down_now]; cbn [w_stopping emit].
  all: destruct (_ || _); [first [apply winds_down_now|apply winds_down_reported]|].
  all: destruct (supportsQueueFilter h); cbn [w_stopping emit]; rewrite Hs.
  - apply (winds_down_shutdown _ w _ []); [by rewrite app_nil_r|done].
  - by apply (winds_down_shutdown _ w _ [ErrorReported]).
  - by apply (winds_down_shutdown _ w _ [ErrorReported]).
  - apply (winds_down_shutdown _ w _ [ErrorReported; ErrorReported]); [cbn; by rewrite <-app_assoc|done].
Qed.

(** A step of a stopping worker takes on nothing; a step of its loop brings it
    closer to the end. *)
Definition no_nearer (ev : event) (w w' : worker) : Prop :=
  w_stopping w' = true ∧ no_new_work w w' ∧ Nat.b2n (steers ev) + remaining w' ≤ remaining w.

Lemma winding ev w w' : winds_down w w' → 3 ≤ remaining w → no_nearer ev w w'.
Proof. intros (H1 & H2 & H3) H. split_and!; try done. destruct (steers ev); cbn; lia. Qed.

Lemma emits_one c w w' : w_log w' = w_log w ++ [c] → starts c = false → no_new_work w w'.
Proof. intros H Hc. exists [c]. cbn. by rewrite Hc. Qed.

Lemma emits_none w w' : w_log w' = w_log w → no_new_work w w'.
Proof. intros H. exists []. by rewrite app_nil_r. Qed.

Lemma claimed_winds k r w limit :
  w_stopping w = true → w_loop w = Claiming limit → within_limit (ClaimSettles r) w = true → no_nearer (ClaimSettles r) w (claimed k r w).
Proof.
  intros Hs Hl Hw. unfold within_limit in Hw. rewrite Hl in Hw. assert (remaining w = 4 + 2 * Z.to_nat limit) as Hr by (unfold remaining; by rewrite Hl).
  unfold claimed. destruct r as [[|j jobs]|retryable]; rewrite ?Hs; [apply winding; [apply winds_down_now|lia]| |apply winding; [apply winds_down_now|lia]].
  split_and!; [done|by apply emits_none|]. rewrite Hr. unfold remaining. cbn [w_loop]. rewrite length_zip_with, length_seq. to_prop. cbn [Nat.b2n steers]. lia.
Qed.

Lemma next_job_winds k rest w : w_stopping w = true → w_loop w = Dispatching rest → no_nearer NextJob w (next_job k rest w).
Proof.
  intros Hs Hl. assert (remaining w = 3 + 2 * length rest) as Hr by (unfold remaining; by rewrite Hl).
  destruct rest as [|[t j] rest]; cbn [next_job].
  - unfold claim_head. rewrite Hs. apply winding; [apply winds_down_now|lia].
  - rewrite Hs. split_and!; [done|by eapply emits_one|]. rewrite Hr. cbn. lia.
Qed.

Lemma stopping_step k ev w w' :
  w_stopping w = true → restarts ev = false → within_limit ev w = true → step k ev w = Some w' → no_nearer ev w w'.
Proof.
  intros Hs Hr Hw H. destruct (task_of ev) as [t|] eqn:Et.
  { destruct (task_steps k ev t w w' Et H) as [_ [Hl Hst _ _ Hlog]]. split_and!; [congruence|done|].
    unfold remaining. rewrite Hl. by destruct ev. }
  destruct ev; try done; cbn [step] in H.
  - injection H as <-. destruct (handle queueName jobName w) as [w1|] eqn:E; [|by split_and!; [..|apply emits_none|]].
    unfold handle in E. repeat case_match; try done. injection E as <-. by split_and!; [..|apply emits_none|].
  - injection H as <-. by split_and!; [..|apply emits_none|].
  - destruct (w_loop w) eqn:Hl; try done. injection H as <-. apply winding; [by apply winds_down_connected|unfold remaining; by rewrite Hl].
  - destruct (w_loop w) eqn:Hl; try done. injection H as <-. by eapply claimed_winds.
  - destruct (w_loop w) eqn:Hl; try done. injection H as <-. unfold backed_off. rewrite Hs.
    apply winding; [apply winds_down_now|unfold remaining; by rewrite Hl].
  - unfold race_settled in H. destruct (w_loop w) eqn:Hl; try done. destruct (_ || _); [|done]. injection H as <-. unfold claim_head. rewrite Hs.
    apply winding; [apply winds_down_now|unfold remaining; by rewrite Hl].
  - destruct (w_loop w) eqn:Hl; try done. injection H as <-. by apply next_job_winds.
  - destruct (w_loop w) eqn:Hl; try done. injection H as <-. unfold released. destruct ok;
      (split_and!; [done|first [by apply emits_none|by eapply emits_one]|unfold remaining; rewrite Hl; cbn; lia]).
  - unfold grace_settled in H. destruct (w_loop w) eqn:Hl; try done; (destruct (none_active _ w); [|done]); injection H as <-;
      (split_and!; [done|by eapply emits_one|unfold remaining; rewrite Hl; cbn; lia]).
  - unfold grace_elapsed in H. destruct (w_loop w) eqn:Hl; try done; injection H as <-.
    + destruct (bool_decide _); (split_and!; [done|first [by apply emits_none|by eapply emits_one]|unfold remaining; rewrite Hl; cbn; lia]).
    + split_and!; [done| |unfold remaining; rewrite Hl; cbn; lia]. exists [ErrorReported; RunSettled e]. cbn. by rewrite <-app_assoc.
Qed.

Lemma no_new_work_count w w' : no_new_work w w' → count starts (w_log w') = count starts (w_log w).
Proof.
  intros (l & -> & Hs). rewrite count_app. assert (count starts l = 0) as ->; [|lia].
  induction l as [|c l IH]; [done|]. cbn in Hs. apply andb_true_iff in Hs as [Hc Hs]. unfold count in *. cbn. by destruct (starts c); [|apply IH].
Qed.

Lemma always_steered k w : w_stopping w = true → w_loop w = Idle ∨ ∃ ev w', steers ev = true ∧ within_limit ev w = true ∧ step k ev w = Some w'.
Proof.
  intros Hs. destruct (w_loop w) eqn:Hl; [by left|right..].
  - exists (ConnectSettles None). eexists. unfold within_limit. cbn. by rewrite Hl.
  - exists RaceSettles. eexists. unfold within_limit. cbn. unfold race_settled. by rewrite Hl, Hs.
  - exists (ClaimSettles (Err true)). eexists. unfold within_limit. cbn. by rewrite Hl.
  - exists BackoffEnds. eexists. unfold within_limit. cbn. by rewrite Hl.
  - exists NextJob. eexists. unfold within_limit. cbn. by rewrite Hl.
  - exists (ReleaseSettles true). eexists. unfold within_limit. cbn. by rewrite Hl.
  - exists GraceElapses. eexists. unfold within_limit. cbn. unfold grace_elapsed. by rewrite Hl.
  - exists GraceElapses. eexists. unfold within_limit. cbn. unfold grace_elapsed. by rewrite Hl.
Qed.

(** C33. A stopped worker takes on nothing and [run] ends: after [stop] no handler is
    started, no job claimed and no connection opened until [run] is called again;
    the loop takes at most [remaining] more steps, whatever handlers and heartbeats
    do in between; and until [run] has settled one of those steps can be taken. *)
Theorem stopped_worker_ends : ∀ k evs w w',
  w_stopping w = true → forallb (λ ev, negb (restarts ev)) evs = true → honest k evs w = true → run_events k evs w = Some w' →
  count starts (w_log w') = count starts (w_log w) ∧
  length (List.filter steers evs) + remaining w' ≤ remaining w ∧
  (w_loop w' = Idle ∨ ∃ ev w'', steers ev = true ∧ within_limit ev w' = true ∧ step k ev w' = Some w'').
Proof.
  intros k evs. induction evs as [|ev evs IH]; intros w w' Hs Hr Hh H; cbn in Hr, Hh, H.
  - injection H as <-. split_and!; [done|cbn; lia|by apply always_steered].
  - apply andb_true_iff in Hr as [Hr1 Hr2]. apply andb_true_iff in Hh as [Hh1 Hh2]. destruct (step k ev w) as [w1|] eqn:E; [|done].
    destruct (stopping_step k ev w w1 Hs) as (Hs1 & Hn & Hm); [by apply negb_true_iff|done..|].
    destruct (IH w1 w' Hs1 Hr2 Hh2 H) as (H1 & H2 & H3). rewrite H1, (no_new_work_count _ _ Hn). split_and!; try done.
    cbn. destruct (steers ev); cbn in *; lia.
Qed.

(** ** Routes *)

Fixpoint nul_free (s : string) : bool :=
  match s with EmptyString => true | String a s => negb (Ascii.eqb a ROUTE_SEPARATOR) && nul_free s end.

Lemma lane_routeKey q j : nul_free q = true → lane (routeKey q j) = q.
Proof.
  unfold routeKey. induction q as [|a q IH]; [done|]. cbn [nul_free String.append lane]. intros H. apply andb_true_iff in H as [Ha H]. apply negb_true_iff in Ha.
  change (String a q ++ String ROUTE_SEPARATOR j)%string with (String a (q ++ String ROUTE_SEPARATOR j))%string.
  cbn [lane]. by rewrite Ha, IH.
Qed.

Lemma routeKey_inj q j q' j' : nul_free q = true → nul_free q' = true → routeKey q j = routeKey q' j' → q = q' ∧ j = j'.
Proof.
  intros Hq Hq' E. assert (q = q') as -> by (by rewrite <-(lane_routeKey q j), E, lane_routeKey). split; [done|]. clear Hq Hq'.
  unfold routeKey in E. induction q' as [|a q IH]; cbn in E; injection E; auto.
Qed.

(** The [handle] calls of an application, none of which throws. *)
Fixpoint handle_all (routes : list (string * string)) (w : worker) : option worker :=
  match routes with
  | [] => Some w
  | (q, j) :: routes => w' ← handle q j w; handle_all routes w'
  end.

Lemma subscribed_elem q w : q ∈ subscribedQueues w ↔ q ∈ lane <$> w_handlers w.
Proof. unfold subscribedQueues. by rewrite merge_sort_Permutation, elem_of_remove_dups. Qed.

Lemma subscribed_length w : length (subscribedQueues w) = length (remove_dups (lane <$> w_handlers w)).
Proof. unfold subscribedQueues. by rewrite merge_sort_Permutation. Qed.

Lemma remove_dups_snoc {A} `{EqDecision A} (l : list A) x : length (remove_dups (l ++ [x])) = length (remove_dups l) + (if bool_decide (x ∈ l) then 0 else 1).
Proof.
  case_bool_decide as Hx.
  - rewrite Nat.add_0_r. apply Permutation_length, NoDup_Permutation; [apply NoDup_remove_dups..|]. intros y.
    rewrite !elem_of_remove_dups, elem_snoc. naive_solver.
  - rewrite <-(length_app (remove_dups l) [x]). apply Permutation_length, NoDup_Permutation.
    + apply NoDup_remove_dups.
    + apply NoDup_app. split_and!; [apply NoDup_remove_dups| |apply NoDup_singleton].
      intros y Hy ->%list_elem_of_singleton. by apply Hx, elem_of_remove_dups.
    + intros y. by rewrite elem_snoc, !elem_of_remove_dups, elem_snoc.
Qed.

Lemma handle_spec q j w w' : nul_free q = true → handle q j w = Some w' →
  w_handlers w' = w_handlers w ++ [routeKey q j] ∧ (length (subscribedQueues w) ≤ 256 → length (subscribedQueues w') ≤ 256).
Proof.
  intros Hq H. unfold handle in H. destruct (w_running w); [done|]. destruct (_ || _); [done|]. destruct (bool_decide _); [done|].
  destruct (_ && _) eqn:E; [done|]. injection H as <-. split; [done|]. rewrite !subscribed_length. cbn [w_handlers].
  rewrite fmap_app. cbn [fmap list_fmap]. rewrite remove_dups_snoc, lane_routeKey by done. rewrite <-subscribed_length.
  apply andb_false_iff in E as [E|E].
  - apply bool_decide_eq_false in E. apply dec_stable in E. apply subscribed_elem in E. rewrite (bool_decide_true _ E). lia.
  - apply Z.leb_gt in E. destruct (bool_decide _); lia.
Qed.

(** Routing is exact as long as queue names contain no NUL: a job is handled
    exactly when its queue and contract were registered together, the claim filter
    has the registered queues, each once and at most 256. *)
Theorem routes_exact : ∀ routes w,
  handle_all routes initial = Some w → Forall (λ r, nul_free r.1 = true) routes →
  (∀ j, nul_free (lj_queueName j) = true → registered w j = true ↔ (lj_queueName j, lj_jobName j) ∈ routes) ∧
  (∀ q, q ∈ subscribedQueues w ↔ q ∈ routes.*1) ∧ NoDup (subscribedQueues w) ∧ length (subscribedQueues w) ≤ 256.
Proof.
  intros routes w H Hn.
  assert (∀ rs w0, handle_all rs w0 = Some w → Forall (λ r, nul_free r.1 = true) rs → length (subscribedQueues w0) ≤ 256 →
    w_handlers w = w_handlers w0 ++ ((λ r, routeKey r.1 r.2) <$> rs) ∧ length (subscribedQueues w) ≤ 256) as Hall.
  { induction rs as [|[q j] rs IH]; intros w0 Hh Hf Hle; cbn in Hh.
    - injection Hh as ->. by rewrite app_nil_r.
    - destruct (handle q j w0) as [w1|] eqn:E; [|done]. cbn in Hh. inversion Hf as [|? ? Hq Hf']; subst. cbn in Hq.
      destruct (handle_spec q j w0 w1 Hq E) as [Hw Hl]. destruct (IH w1 Hh Hf' (Hl Hle)) as [-> ?]. split; [|done].
      rewrite Hw, <-app_assoc. done. }
  destruct (Hall routes initial H Hn) as [Hw Hl]; [vm_compute; lia|]. cbn in Hw. rewrite Forall_forall in Hn. split_and!.
  - intros j Hj. unfold registered. rewrite bool_decide_eq_true, Hw, list_elem_of_fmap. split.
    + intros ([q n] & E & Hin). apply routeKey_inj in E as [-> ->]; [done..|]. by apply (Hn _ Hin).
    + intros Hin. by exists (lj_queueName j, lj_jobName j).
  - intros q. rewrite subscribed_elem, Hw, <-list_fmap_compose, !list_elem_of_fmap.
    split; intros ([q' n] & -> & Hin); exists (q', n); (split; [|done]); cbn; rewrite lane_routeKey; try done; by apply (Hn _ Hin).
  - unfold subscribedQueues. rewrite merge_sort_Permutation. apply NoDup_remove_dups.
  - done.
Qed.

(** ** A concrete worker *)

Definition demo_config : config := default (Config 0 0 0 None 0 0) (new_worker "reports-1" (Some 2%Z) None None None None None None None).
Definition demo_job (id : string) (epoch : Z) : LeasedJob := Leased id "reports" "generate" epoch.

(** Two jobs are running and the worker waits for one of them. *)
Definition demo_start : list event :=
  [ Handle "reports" "generate"; Run false; ConnectSettles (Some (Handshake Compatible ["queue-filter"] [] 5000));
    ClaimSettles (Ok [demo_job "job-1" 1; demo_job "job-2" 1]); NextJob; NextJob; NextJob ].

(** The first job is completed, the second loses its lease, and the worker stops. *)
Definition demo_events : list event := demo_start ++
  [ HeartbeatDue 0; HeartbeatSettles 0 (Some false); HandlerSettles 0 Returns; Drained 0; ReportSettles 0 true; TaskSettles 0; RaceSettles;
    HeartbeatDue 1; HeartbeatSettles 1 None; HandlerSettles 1 (Throws OtherError); Drained 1; TaskSettles 1; Stop ].

Definition demo_worker : worker := default initial (run_events demo_config demo_events initial).

Lemma demo_run : run_events demo_config demo_events initial = Some demo_worker.
Proof. by vm_compute. Qed.

Lemma leases_accounted_for_witness :
  count (ends 0) (w_log demo_worker) = 1 ∧ count (ends 1) (w_log demo_worker) = 0.
Proof.
  destruct (leases_accounted_for demo_config demo_events demo_worker 0 demo_run) as (_ & _ & H0 & _).
  destruct (leases_accounted_for demo_config demo_events demo_worker 1 demo_run) as (_ & _ & _ & H1 & _).
  split.
  - destruct H0 as [H|H]; [vm_compute; lia|by vm_compute; intros ?%not_elem_of_nil|by vm_compute|exact H|].
    assert (existsb (λ ev, match ev with HeartbeatSettles O None => true | _ => false end) demo_events = true) as Hx by (apply List.existsb_exists; eexists; split; [by apply list_elem_of_In|done]).
    by vm_compute in Hx.
  - apply H1. apply list_elem_of_In. vm_compute. tauto.
Defined.

Lemma worker_respects_concurrency_witness :
  (Z.of_nat (size (w_active (default initial (run_events demo_config demo_start initial)))) ≤ 2)%Z.
Proof.
  apply (worker_respects_concurrency "reports-1" (Some 2%Z) None None None None None None None demo_config demo_start);
    vm_compute; reflexivity.
Defined.

Lemma stopped_worker_ends_witness :
  ∃ w', run_events demo_config [ClaimSettles (Ok [demo_job "job-3" 1]); NextJob; ReleaseSettles true; NextJob] demo_worker = Some w' ∧
    count starts (w_log w') = count starts (w_log demo_worker) ∧ 4 + remaining w' ≤ remaining demo_worker.
Proof.
  destruct (run_events demo_config [ClaimSettles (Ok [demo_job "job-3" 1]); NextJob; ReleaseSettles true; NextJob] demo_worker) as [w'|] eqn:E;
    [|vm_compute in E; discriminate E].
  exists w'. split; [done|].
  destruct (stopped_worker_ends demo_config [ClaimSettles (Ok [demo_job "job-3" 1]); NextJob; ReleaseSettles true; NextJob] demo_worker w')
    as (H1 & H2 & _); [vm_compute; reflexivity..|exact E|]. split; [exact H1|exact H2].
Defined.

(** A handler that rejects with [undefined] counts as a success: [process] tells
    failures by [handlerError !== undefined], so the job is completed. *)
Theorem undefined_rejection_completes : ∃ w,
  run_events demo_config (demo_start ++ [HandlerSettles 0 (Throws Undefined); Drained 0]) initial = Some w ∧
  CompleteCalled 0 ∈ w_log w.
Proof. eexists. split; [by vm_compute|]. apply list_elem_of_In. vm_compute. tauto. Qed.

(** When a worker claims a job again after losing its lease, both attempts share the
    entry of [executions]: the first to end removes the entry of the second, and the
    forced shutdown then neither aborts the second handler nor stops its heartbeat. *)
Theorem reclaimed_job_escapes_shutdown : ∃ w p,
  run_events demo_config
    [ Handle "reports" "generate"; Run false; ConnectSettles (Some (Handshake Compatible ["queue-filter"] [] 5000));
      ClaimSettles (Ok [demo_job "job-1" 1]); NextJob; NextJob; HeartbeatDue 0; HeartbeatSettles 0 None;
      ClaimSettles (Ok [demo_job "job-1" 2]); NextJob; NextJob; HandlerSettles 0 (Throws OtherError); Drained 0; TaskSettles 0;
      Stop; RaceSettles; GraceElapses ] initial = Some w ∧
  w_active w !! 1 = Some p ∧ p_phase p = Handling ∧ p_aborted p = false ∧ p_forceStopped p = false ∧ p_hb p = HbWaiting.
Proof. do 2 eexists. split; [vm_compute; reflexivity|]. split; [vm_compute; reflexivity|]. by vm_compute. Qed.

End WorkerFacts.
