(* ===== verification/Tenancy.v ===== *)
(** * Tenants and the database session

    The tenant identifiers of [postgres/tenant.ts], the startup options and
    connection settings of [cli/database-config.ts], the inspection of row-level
    security ([inspectTaskRls], [requireTaskRls] of [postgres/task-schema.ts]) and
    [withTenant] of [postgres/task-client.ts], which binds a transaction of a
    shared pool to one tenant. *)

From stdpp Require Import base gmap strings list pretty.
From Stdlib Require Import Ascii ZArith Lia.
From S2P Require Import Prelude TaskModel StoreSteps TaskClient.

(** ** Tenant identifiers *)

(** [/^[A-Za-z0-9._:-]{1,64}$/] *)
Definition tenant_char (a : ascii) : bool :=
  let n := nat_of_ascii a in
  ((65 <=? n) && (n <=? 90) || (97 <=? n) && (n <=? 122) || (48 <=? n) && (n <=? 57))%nat
  || existsb (Ascii.eqb a) ["."%char; "_"%char; ":"%char; "-"%char].

Fixpoint all_chars (f : ascii → bool) (s : string) : bool :=
  match s with EmptyString => true | String a s => f a && all_chars f s end.

Definition TENANT_ID_PATTERN (s : string) : bool :=
  all_chars tenant_char s && (1 <=? String.length s)%nat && (String.length s <=? 64)%nat.

(** [None] is the [TypeError]. *)
Definition assertTenantId (value : string) : option string :=
  let tenantId := js_trim value in if TENANT_ID_PATTERN tenantId then Some tenantId else None.

Definition isValidTenantId (value : string) : bool := TENANT_ID_PATTERN (js_trim value).

(** ** Connection settings *)

Inductive ssl_option := SslOff | SslUnverified | SslVerified.

Record pool_config := PoolConfig {
  pc_connectionString : option string; pc_host : option string; pc_port : option Z; pc_database : option string;
  pc_user : option string; pc_password : option string; pc_ssl : option ssl_option; pc_options : option string;
}.

Notation environment := (gmap string string).

(** The first of the variables that is set to something. *)
Fixpoint first_set (env : environment) (names : list string) : option (string * string) :=
  match names with
  | [] => None
  | n :: names =>
      match truthy (js_trim <$> env !! n) with
      | Some v => Some (n, v)
      | None => first_set env names
      end
  end.

Definition URL_VARIABLES : list string := ["RHINOQ_DATABASE_URL"; "DATABASE_URL"].

(** The parts of a [URL] that are shown; [u_username] is decoded. *)
Record url := Url { u_hostname : string; u_port : string; u_pathname : string; u_username : string }.

Section config.
(** [Number(text)] when it is an integer, [String.prototype.toLowerCase], and
    [URL]: parsing, and parsing with a new value for the parameter [options]. *)
Context (number_of : string → option Z) (toLowerCase : string → string) (parse_url : string → option url).
Context (url_with_options : string → (option string → string) → option string).

Definition describeURL (value : string) : string :=
  match parse_url value with
  | None => "(unparsable connection string)"
  | Some u =>
      let database := match u_pathname u with String "/" rest => rest | p => p end in
      (u_hostname u ++ ":" ++ default "5432" (truthy (Some (u_port u))) ++ "/" ++ default "(default)" (truthy (Some database))
        ++ match truthy (Some (u_username u)) with Some n => " as " ++ n | None => "" end)%string
  end.

(** [None] is the exception about an unknown mode. *)
Definition sslOption (mode : option string) : option (option ssl_option) :=
  match mode with
  | None => Some None
  | Some m =>
      let m := toLowerCase m in
      if bool_decide (m = "disable") then Some (Some SslOff) else
      if bool_decide (m ∈ ["allow"; "prefer"; "require"]) then Some (Some SslUnverified) else
      if bool_decide (m ∈ ["verify-ca"; "verify-full"]) then Some (Some SslVerified) else None
  end.

Record ResolvedDatabaseConfig := Resolved { rd_pool : pool_config; rd_source : list string; rd_target : string }.

Inductive config_error := BadPort | BadSslMode.

Definition resolveDiscrete (env : environment) : result config_error (option ResolvedDatabaseConfig) :=
  let host := first_set env ["RHINOQ_DB_HOST"; "PGHOST"] in
  let port := first_set env ["RHINOQ_DB_PORT"; "PGPORT"] in
  let user := first_set env ["RHINOQ_DB_USER"; "PGUSER"] in
  let password := first_set env ["RHINOQ_DB_PASSWORD"; "PGPASSWORD"] in
  let database := first_set env ["RHINOQ_DB_NAME"; "PGDATABASE"] in
  let sslmode := first_set env ["RHINOQ_DB_SSLMODE"; "PGSSLMODE"] in
  match host, database with
  | Some h, Some d =>
      let portNumber := match port with None => Some 5432 | Some (_, v) => number_of v end in
      match portNumber with
      | Some p =>
          if (p <? 1) || (65535 <? p) then Err BadPort else
          match sslOption (snd <$> sslmode) with
          | None => Err BadSslMode
          | Some ssl =>
              Ok (Some (Resolved
                (PoolConfig None (Some h.2) (Some p) (Some d.2) (snd <$> user) (snd <$> password) ssl None)
                (omap (fmap fst) [Some h; port; user; password; Some d; sslmode])
                (h.2 ++ ":" ++ pretty p ++ "/" ++ d.2 ++ match user with Some u => " as " ++ u.2 | None => "" end)%string))
          end
      | None => Err BadPort
      end
  | _, _ => Ok None
  end.

Definition resolveDatabaseConfig (env : environment) : result config_error (option ResolvedDatabaseConfig) :=
  match first_set env URL_VARIABLES with
  | Some (name, value) =>
      Ok (Some (Resolved (PoolConfig (Some value) None None None None None None None) [name] (describeURL value)))
  | None => resolveDiscrete env
  end.

(** ** Startup options *)

(** The value in an option [-c rhinoq.tenant_id=value], white space allowed after
    [-c]. *)
Definition tenant_of_option (opt : string) : option string :=
  match opt with
  | String "-" (String "c" rest) =>
      let rest := ltrim is_js_space rest in
      if String.prefix "rhinoq.tenant_id=" rest then Some (String.substring 17 (String.length rest) rest) else None
  | _ => None
  end.

(** [[a, b, c].filter(Boolean).join(' ')] *)
Definition join_options (parts : list (option string)) : string := String.concat " " (omap truthy parts).

(** [None] is the [TypeError] of [assertTenantId]. *)
Definition withPostgresOption (pool : pool_config) (opt : string) : option pool_config :=
  let normalized := js_trim opt in
  if bool_decide (normalized = "") then Some pool else
  let refused := match tenant_of_option normalized with
    | Some v => bool_decide (assertTenantId v = None)
    | None => false
    end in
  if refused then None else
  let poolOptions := js_trim <$> pc_options pool in
  let with_options o cs := PoolConfig cs (pc_host pool) (pc_port pool) (pc_database pool) (pc_user pool) (pc_password pool) (pc_ssl pool) o in
  Some match truthy (js_trim <$> pc_connectionString pool) with
  | None => with_options (Some (join_options [poolOptions; Some normalized])) (pc_connectionString pool)
  | Some _ =>
      match url_with_options (default "" (pc_connectionString pool)) (λ urlOptions, join_options [js_trim <$> urlOptions; poolOptions; Some normalized]) with
      | Some url => with_options None (Some url)
      | None => with_options (Some (join_options [poolOptions; Some normalized])) (pc_connectionString pool)
      end
  end.
End config.

(** How PostgreSQL reads the option list of a connection: words separated by white
    space, a backslash keeps the next character. [cur] is the word being read. *)
Fixpoint split_opts (s : string) (cur : option string) (escaped : bool) : list string :=
  match s with
  | EmptyString => match cur with Some w => [w] | None => [] end
  | String a s =>
      if is_js_space a && negb escaped then
        match cur with Some w => w :: split_opts s None false | None => split_opts s None false end
      else if negb escaped && Ascii.eqb a "\"%char then split_opts s (Some (default "" cur)) true
      else split_opts s (Some (default "" cur ++ String a ""))%string false
  end.

Definition startup_words (options : string) : list string := split_opts options None false.

(** ** Row-level security as the server reports it *)

Record pg_role := PgRole { ro_name : string; ro_superuser : bool; ro_bypassrls : bool; ro_tenant : option string }.

(** The row of [pg_class] of a table: row-level security enabled, and forced on its
    owner. *)
Record pg_table := PgTable { tb_rowsecurity : bool; tb_forcerowsecurity : bool }.

Definition TASK_RLS_TABLES : list string :=
  [ "tasks"; "executions"; "waitpoints"; "checkpoints"; "verifications"; "artifacts"; "notification_outbox"; "durable_steps";
    "durable_step_attempts"; "artifact_upload_sessions"; "resource_pools"; "resource_leases" ].

Record TaskRlsReport := RlsReport {
  rr_role : string; rr_superuser : bool; rr_bypassRls : bool; rr_exempt : bool; rr_tenantSession : string;
  rr_unprotected : list string; rr_holds : bool;
}.

(** [None] is RHINOQ_TASK_RLS_ROLE_UNREADABLE. *)
Definition inspectTaskRls (role : option pg_role) (tables : gmap string pg_table) : option TaskRlsReport :=
  match role with
  | None => None
  | Some r =>
      let unprotected := List.filter (λ name, negb (bool_decide (tb_forcerowsecurity <$> tables !! name = Some true))) TASK_RLS_TABLES in
      let exempt := ro_superuser r || ro_bypassrls r in
      Some (RlsReport (ro_name r) (ro_superuser r) (ro_bypassrls r) exempt (default "" (ro_tenant r)) unprotected
        (negb exempt && bool_decide (unprotected = [])))
  end.

(** [None] is also RHINOQ_TASK_RLS_NOT_IN_FORCE. *)
Definition requireTaskRls (role : option pg_role) (tables : gmap string pg_table) : option TaskRlsReport :=
  report ← inspectTaskRls role tables; if rr_holds report then Some report else None.

(** Whether PostgreSQL applies the policies of a table to a role. *)
Definition policies_apply (r : pg_role) (owner : bool) (tb : pg_table) : bool :=
  negb (ro_superuser r) && negb (ro_bypassrls r) && tb_rowsecurity tb && (negb owner || tb_forcerowsecurity tb).

(** ** [withTenant]

    The callback runs statements of the Task profile on the connection and may catch
    their errors. *)
Inductive work (A : Type) : Type :=
| Done (r : result js_error A)
| Command (now : Z) (cmd : command) (k : result sql_error answer → work A)
| Query {X : Type} (f : session → db → X) (k : result sql_error X → work A).
Arguments Done {A} r.
Arguments Command {A} now cmd k.
Arguments Query {A X} f k.

(** The open transaction: what it has written, and whether a statement of it has
    failed. PostgreSQL answers 25P02 to every statement of a failed transaction. *)
Record transaction := Transaction { tx_db : db; tx_failed : bool }.

Definition IN_FAILED_SQL_TRANSACTION : sql_error := SqlState "25P02".

Fixpoint run_work {A} (c : session) (w : work A) (tx : transaction) : result js_error A * transaction :=
  match w with
  | Done r => (r, tx)
  | Command now cmd k =>
      if tx_failed tx then run_work c (k (Err IN_FAILED_SQL_TRANSACTION)) tx else
      match run_command c now cmd (tx_db tx) with
      | Ok (a, d) => run_work c (k (Ok a)) (Transaction d false)
      | Err e => run_work c (k (Err e)) (Transaction (tx_db tx) true)
      end
  | Query f k =>
      if tx_failed tx then run_work c (k (Err IN_FAILED_SQL_TRANSACTION)) tx
      else run_work c (k (Ok (f c (tx_db tx)))) tx
  end.

(** [set_config('rhinoq.tenant_id', tenant, true)] *)
Definition set_tenant (tenant : string) (c : session) : session := Session (Some tenant) (maintenance_setting c) (exempt c).

(** COMMIT of a failed transaction rolls it back, and is no error. *)
Definition commit (before : db) (tx : transaction) : db := if tx_failed tx then before else tx_db tx.

Definition withTenant {A} (c : session) (tenantId : string) (w : work A) (d : db) : result js_error A * db :=
  match assertTenantId tenantId with
  | None => (Err TypeError, d)
  | Some tenant =>
      match run_work (set_tenant tenant c) w (Transaction d false) with
      | (Ok value, tx) => (Ok value, commit d tx)
      | (Err e, _) => (Err e, d)
      end
  end.
