(* ===== verification/TenancyFacts.v ===== *)
(** * Tenants: what the session settings promise

    A tenant identifier stays one startup option; the inspection of row-level
    security admits only roles the policies bind; [withTenant] commits everything or
    nothing and touches one tenant, and loses what a callback wrote when the callback
    catches the error of a statement. *)

From stdpp Require Import base gmap strings list pretty.
From Stdlib Require Import Ascii ZArith Lia.
From S2P Require Import Prelude TaskModel TaskCommands ExecutionCommands StoreSteps StoreSafety TaskClient Tenancy.

(** ** [withTenant] *)

(** Nothing happens in a failed transaction. *)
Lemma failed_transaction_stays {A} c (w : work A) tx : tx_failed tx = true → (run_work c w tx).2 = tx.
Proof.
  revert tx. induction w as [r|now cmd k IH|X f k IH]; intros tx H; cbn; [done|..]; rewrite H; by apply IH.
Qed.

Lemma run_work_steps {A} c (w : work A) : ∀ tx, linked (tx_db tx) →
  linked (tx_db (run_work c w tx).2) ∧ hidden_part c (tx_db (run_work c w tx).2) = hidden_part c (tx_db tx).
Proof.
  induction w as [r|now cmd k IH|X f k IH]; intros tx Hl; cbn; [done|..].
  - destruct (tx_failed tx); [by apply IH|]. destruct (run_command c now cmd (tx_db tx)) as [[a d]|e] eqn:E; [|by apply (IH (Err e) (Transaction (tx_db tx) true))].
    pose proof (run_command_steps _ _ _ _ _ _ Hl E) as Hs. pose proof (steps_linked _ _ _ _ Hs Hl) as Hl'.
    destruct (IH (Ok a) (Transaction d false) Hl') as [H1 H2]. split; [done|]. rewrite H2. by apply (hidden_steps c now).
  - destruct (tx_failed tx); by apply IH.
Qed.

Lemma assert_tenant_trimmed value tenant : assertTenantId value = Some tenant → tenant = js_trim value ∧ TENANT_ID_PATTERN tenant = true.
Proof. unfold assertTenantId. destruct (TENANT_ID_PATTERN _) eqn:E; [|done]. intros H. by injection H as <-. Qed.

(** C25. [withTenant] is atomic and stays in its tenant: a callback that throws leaves
    the store as it was; whatever it does, rows and notifications that the policy
    hides from a session of that tenant are unchanged; and a tenant identifier that
    is not well formed runs nothing. *)
Theorem withTenant_atomic : ∀ A c tenantId (w : work A) d r d',
  linked d → withTenant c tenantId w d = (r, d') →
  (is_ok r = false → d' = d) ∧
  (assertTenantId tenantId = None → r = Err TypeError ∧ d' = d) ∧
  (∀ tenant, assertTenantId tenantId = Some tenant →
    linked d' ∧ hidden_part (set_tenant tenant c) d' = hidden_part (set_tenant tenant c) d).
Proof.
  intros A c tenantId w d r d' Hl H. unfold withTenant in H. destruct (assertTenantId tenantId) as [tenant|]; [|by injection H as <- <-].
  pose proof (run_work_steps (set_tenant tenant c) w (Transaction d false) Hl) as [H1 H2].
  destruct (run_work _ w _) as [[v|e] tx] eqn:E; cbn in H1, H2; injection H as <- <-; (split_and!; [done|done|]); intros t Ht; injection Ht as <-; [|done].
  unfold commit. by destruct (tx_failed tx).
Qed.

(** A callback of [withTenant] that catches the error of a statement loses its
    writes without being told: PostgreSQL has failed the transaction, refuses every
    later statement of it and answers COMMIT by rolling back, which is no error; so
    [withTenant] resolves with the callback's value and the store is unchanged. *)
Theorem swallowed_error_loses_writes : ∀ A c tenantId tenant now cmd (k : result sql_error answer → work A) d e v tx,
  assertTenantId tenantId = Some tenant → run_command (set_tenant tenant c) now cmd d = Err e →
  run_work (set_tenant tenant c) (k (Err e)) (Transaction d true) = (Ok v, tx) →
  withTenant c tenantId (Command now cmd k) d = (Ok v, d).
Proof.
  intros A c tenantId tenant now cmd k d e v tx Ht He Hk. unfold withTenant. rewrite Ht. cbn. rewrite He, Hk.
  pose proof (failed_transaction_stays (set_tenant tenant c) (k (Err e)) (Transaction d true) eq_refl) as Hs. rewrite Hk in Hs. cbn in Hs. by rewrite Hs.
Qed.

(** The retry of a version conflict, as every convergence loop of the SDK does it. *)
Definition retried_transition : work bool :=
  Command 20 (TransitionTask "t1" 1 "queued") (λ r, match r with
    | Ok _ => Done (Ok true)
    | Err _ => Command 21 (TransitionTask "t1" 7 "succeeded") (λ r, Done (Ok (is_ok r)))
    end).

Definition pool_session : session := Session None None false.

Lemma swallowed_error_loses_writes_witness : withTenant pool_session "acme" retried_transition mid_db = (Ok false, mid_db).
Proof.
  refine (swallowed_error_loses_writes bool pool_session "acme" "acme" 20 (TransitionTask "t1" 1 "queued") _ mid_db
    (Raise "RHINOQ_VERSION_CONFLICT") false (Transaction mid_db true) _ _ _); vm_compute; reflexivity.
Defined.

(** Outside a transaction the same retry succeeds. *)
Lemma retry_succeeds_outside : ∃ a d, run_command demo_session 21 (TransitionTask "t1" 7 "succeeded") mid_db = Ok (a, d).
Proof. do 2 eexists. by vm_compute. Qed.

Lemma withTenant_atomic_witness : ∃ d',
  withTenant pool_session " acme " (Command 20 (TransitionTask "t1" 7 "succeeded") (λ r, Done (Ok (is_ok r)))) mid_db = (Ok true, d') ∧
  hidden_part (set_tenant "acme" pool_session) d' = hidden_part (set_tenant "acme" pool_session) mid_db.
Proof.
  destruct (withTenant pool_session " acme " (Command 20 (TransitionTask "t1" 7 "succeeded") (λ r, Done (Ok (is_ok r)))) mid_db)
    as [r d'] eqn:E.
  exists d'. split; [vm_compute in E; injection E as <- <-; reflexivity|].
  destruct (withTenant_atomic bool pool_session " acme " _ mid_db r d' (reachable_linked _ mid_reachable) E) as (_ & _ & H).
  apply (H "acme"). vm_compute. reflexivity.
Defined.

(** ** Row-level security *)

Lemma unprotected_nil (tables : gmap string pg_table) :
  List.filter (λ name, negb (bool_decide (tb_forcerowsecurity <$> tables !! name = Some true))) TASK_RLS_TABLES = [] ↔
  ∀ name, name ∈ TASK_RLS_TABLES → ∃ tb, tables !! name = Some tb ∧ tb_forcerowsecurity tb = true.
Proof.
  induction TASK_RLS_TABLES as [|x l IH]; cbn; [split; [by intros _ ? ?%not_elem_of_nil|done]|].
  destruct (bool_decide (tb_forcerowsecurity <$> tables !! x = Some true)) eqn:E; cbn.
  - rewrite IH. apply bool_decide_eq_true, fmap_Some in E as (tb & E1 & E2). split.
    + intros H name [->|Hin]%elem_of_cons; [by exists tb|by apply H].
    + intros H name Hin. apply H. by apply list_elem_of_further.
  - apply bool_decide_eq_false in E. split; [done|]. intros H. destruct (H x) as (tb & E1 & E2); [apply list_elem_of_here|].
    destruct E. by rewrite E1, <-E2.
Qed.

(** [requireTaskRls] lets a connection pass exactly when its role can be read, is
    neither a superuser nor exempt, and every one of the twelve tables exists with
    forced row-level security; a session of such a role without the maintenance
    setting is allowed no row of a tenant other than its own, and none when it
    announced no tenant. *)
Theorem required_rls_isolates : ∀ role (tables : gmap string pg_table),
  (is_Some (requireTaskRls role tables) ↔
    ∃ r, role = Some r ∧ ro_superuser r = false ∧ ro_bypassrls r = false ∧
      ∀ name, name ∈ TASK_RLS_TABLES → ∃ tb, tables !! name = Some tb ∧ tb_forcerowsecurity tb = true) ∧
  (∀ r maintenance tenant, role = Some r → is_Some (requireTaskRls role tables) →
    let c := Session (ro_tenant r) maintenance (ro_superuser r || ro_bypassrls r) in
    maintenance_session c = false → rls_allows c tenant = true → current_tenant c = Some tenant).
Proof.
  intros role tables. assert (is_Some (requireTaskRls role tables) ↔
    ∃ r, role = Some r ∧ ro_superuser r = false ∧ ro_bypassrls r = false ∧
      ∀ name, name ∈ TASK_RLS_TABLES → ∃ tb, tables !! name = Some tb ∧ tb_forcerowsecurity tb = true) as Hiff.
  { unfold requireTaskRls, inspectTaskRls. pose proof (unprotected_nil tables) as Hu. revert Hu.
    generalize (List.filter (λ name, negb (bool_decide (tb_forcerowsecurity <$> tables !! name = Some true))) TASK_RLS_TABLES).
    generalize (∀ name, name ∈ TASK_RLS_TABLES → ∃ tb, tables !! name = Some tb ∧ tb_forcerowsecurity tb = true). intros P u Hu.
    destruct role as [r|]; cbn; [|split; [by intros []|by intros (? & ? & _)]].
    split.
    - intros [rep H]. exists r. destruct (ro_superuser r), (ro_bypassrls r); try done. cbn in H. case_bool_decide as Hn; [|done]. by rewrite <-Hu.
    - intros (r' & Hr & H1 & H2 & HP). injection Hr as <-. rewrite H1, H2. cbn. rewrite bool_decide_true by (by apply Hu). by eexists. }
  split; [done|]. intros r maintenance tenant -> H c Hm Ha. apply Hiff in H as (r' & Hr & H1 & H2 & _). injection Hr as <-.
  unfold rls_allows in Ha. rewrite Hm in Ha. cbn in Ha. rewrite H1, H2 in Ha. cbn in Ha. by apply bool_decide_eq_true in Ha.
Qed.

(** A required report does not say that the policies are applied: the inspection
    reads FORCE but not ENABLE, and tables whose row-level security was disabled keep
    the former. Such a connection passes although no policy binds it. *)
Theorem disabled_rls_passes : ∀ r, ro_superuser r = false → ro_bypassrls r = false →
  let tables := list_to_map ((λ name, (name, PgTable false true)) <$> TASK_RLS_TABLES) : gmap string pg_table in
  is_Some (requireTaskRls (Some r) tables) ∧
  ∀ name tb owner, tables !! name = Some tb → policies_apply r owner tb = false.
Proof.
  intros r H1 H2 tables. split.
  - unfold requireTaskRls, inspectTaskRls. rewrite H1, H2. vm_compute. by eexists.
  - intros name tb owner Hn. apply elem_of_list_to_map_2, list_elem_of_fmap in Hn as (? & [= -> ->] & _).
    unfold policies_apply. cbn. by rewrite !andb_false_r.
Qed.

(** ** Startup options *)

(** Characters of which a tenant identifier consists end no word. *)
Definition plain (a : ascii) : bool := negb (is_js_space a) && negb (Ascii.eqb a "\"%char).

Lemma tenant_char_plain a : tenant_char a = true → plain a = true.
Proof. destruct a as [[] [] [] [] [] [] [] []]; vm_compute; done. Qed.

Lemma all_chars_impl (f g : ascii → bool) s : (∀ a, f a = true → g a = true) → all_chars f s = true → all_chars g s = true.
Proof. intros H. induction s as [|a s IH]; cbn; [done|]. intros [H1 H2]%andb_true_iff. by rewrite (H _ H1), IH. Qed.

Lemma string_app_nil (a : string) : (a ++ "")%string = a.
Proof. induction a as [|x a IH]; [done|]. exact (f_equal (String x) IH). Qed.

Lemma substring_all (s : string) n : (String.length s ≤ n)%nat → String.substring 0 n s = s.
Proof. revert n. induction s as [|a s IH]; intros [|n] H; cbn in *; try lia; [done..|]. rewrite IH; [done|lia]. Qed.

Lemma split_plain s w : all_chars plain s = true → split_opts s (Some w) false = [(w ++ s)%string].
Proof.
  revert w. induction s as [|a s IH]; intros w H; [by rewrite string_app_nil|]. cbn in H. apply andb_true_iff in H as [Ha H].
  unfold plain in Ha. apply andb_true_iff in Ha as [Ha1 Ha2]. apply negb_true_iff in Ha1, Ha2. cbn. rewrite Ha1, Ha2. cbn.
  by rewrite IH, append_assoc.
Qed.

Lemma rtrim_app_plain a b : b ≠ "" → all_chars plain b = true → rtrim is_js_space (a ++ b) = (a ++ b)%string.
Proof.
  intros Hne Hb. assert (rtrim is_js_space b = b) as Er.
  { clear Hne a. induction b as [|x b IH]; [done|]. cbn in Hb |- *. apply andb_true_iff in Hb as [Hx Hb]. rewrite IH by done.
    unfold plain in Hx. apply andb_true_iff in Hx as [Hx _]. apply negb_true_iff in Hx. destruct b; [by rewrite Hx|done]. }
  induction a as [|x a IH]; [done|]. change (String x a ++ b)%string with (String x (a ++ b)). cbn. rewrite IH. destruct a, b; done.
Qed.

Lemma assert_tenant_fixed tenant value : assertTenantId value = Some tenant →
  tenant ≠ "" ∧ all_chars plain tenant = true ∧ assertTenantId tenant = Some tenant.
Proof.
  intros H. apply assert_tenant_trimmed in H as [-> Hp]. unfold TENANT_ID_PATTERN in Hp.
  apply andb_true_iff in Hp as [Hp Hl]. apply andb_true_iff in Hp as [Hc Hn]. split_and!.
  - intros E. rewrite E in Hn. done.
  - by eapply all_chars_impl; [apply tenant_char_plain|].
  - unfold assertTenantId, js_trim. rewrite trim_idemp. unfold TENANT_ID_PATTERN, js_trim in *. rewrite Hc, Hn. cbn [andb]. by rewrite Hl.
Qed.

Definition tenant_option (tenant : string) : string := ("-c rhinoq.tenant_id=" ++ tenant)%string.

(** The option of an asserted tenant is one setting: PostgreSQL reads the option list
    that [withPostgresOption] builds for a pool without a connection URL as exactly
    one setting of [rhinoq.tenant_id]. *)
Theorem tenant_option_is_one_setting : ∀ url_with_options pool value tenant,
  assertTenantId value = Some tenant → pc_connectionString pool = None → pc_options pool = None →
  ∃ pool' options, withPostgresOption url_with_options pool (tenant_option tenant) = Some pool' ∧
    pc_options pool' = Some options ∧ startup_words options = ["-c"; ("rhinoq.tenant_id=" ++ tenant)%string].
Proof.
  intros uw pool value tenant Ht Hcs Ho. destruct (assert_tenant_fixed _ _ Ht) as (Hne & Hp & Ha).
  assert (js_trim (tenant_option tenant) = tenant_option tenant) as Etrim.
  { unfold js_trim, trim. change (ltrim is_js_space (tenant_option tenant)) with (tenant_option tenant). by apply (rtrim_app_plain "-c rhinoq.tenant_id="). }
  assert (tenant_of_option (tenant_option tenant) = Some tenant) as Eof.
  { transitivity (Some (String.substring 0 (17 + String.length tenant) tenant)); [by destruct tenant|]. f_equal. apply substring_all. lia. }
  unfold withPostgresOption. rewrite Etrim, Eof, Ha, Hcs, Ho.
  rewrite (bool_decide_false (tenant_option tenant = "")) by done. rewrite (bool_decide_false (Some tenant = None)) by done. cbn iota.
  do 2 eexists. split; [reflexivity|]. split; [reflexivity|].
  assert (join_options [js_trim <$> None; Some (tenant_option tenant)] = tenant_option tenant) as -> by reflexivity.
  transitivity ("-c" :: split_opts tenant (Some "rhinoq.tenant_id=") false); [reflexivity|].
  by rewrite split_plain.
Qed.

(** [withPostgresOption] checks the trimmed value and keeps the text as it was: an
    option with white space before its value passes the check, and PostgreSQL reads
    an empty tenant and a word of its own. *)
Theorem padded_tenant_option_splits : ∃ pool' options,
  withPostgresOption (λ _ _, None) (PoolConfig None None None None None None None None) "-c rhinoq.tenant_id= acme" = Some pool' ∧
  pc_options pool' = Some options ∧ startup_words options = ["-c"; "rhinoq.tenant_id="; "acme"].
Proof. do 2 eexists. split; [vm_compute; reflexivity|]. split; [reflexivity|]. by vm_compute. Qed.

(** A partial set of discrete variables resolves to nothing rather than to a default
    host or database. *)
Theorem partial_settings_resolve_nothing : ∀ number_of toLowerCase parse_url (env : gmap string string),
  first_set env URL_VARIABLES = None →
  first_set env ["RHINOQ_DB_HOST"; "PGHOST"] = None ∨ first_set env ["RHINOQ_DB_NAME"; "PGDATABASE"] = None →
  resolveDatabaseConfig number_of toLowerCase parse_url env = Ok None.
Proof.
  intros n l u env Hu H. unfold resolveDatabaseConfig, resolveDiscrete. rewrite Hu.
  destruct H as [-> | ->]; [done|]. by destruct (first_set env ["RHINOQ_DB_HOST"; "PGHOST"]).
Qed.
