(* ===== verification/Migrations.v ===== *)
(** * Schema migrations

    [migrateTaskSchema] of [postgres/task-schema.ts]: the migrations of a release are
    applied in one transaction under an advisory lock, each once, and recorded with a
    checksum. The lock makes runs of different processes a sequence. What a
    migration's SQL does to the schema and the digest of its text are arguments. *)

From stdpp Require Import base gmap strings list.
From Stdlib Require Import ZArith Lia.
From S2P Require Import Prelude TaskModel.

#[local] Open Scope txn_scope.

Record migration := Migration { m_version : Z; m_name : string; m_sql : string }.

(** The versions and names of [TASK_SCHEMA_MIGRATIONS]; [sql] gives the texts. *)
Definition TASK_SCHEMA_MIGRATIONS (sql : Z → string) : list migration :=
  (λ vn, Migration vn.1 vn.2 (sql vn.1)) <$>
  [ (1, "001_task_core"); (2, "002_task_summary_aggregates"); (3, "003_execution_supersede_expand");
    (4, "004_execution_supersede_contract"); (5, "005_items_settled_signal"); (6, "006_transactional_item_effect");
    (7, "007_actionable_conflicts_and_late_starts"); (8, "008_durable_waitpoints"); (9, "009_tenant_verification_artifacts");
    (10, "010_durable_task_notifications"); (11, "011_durable_artifact_upload_sessions");
    (12, "012_selective_execution_checkpoints"); (13, "013_tenant_fenced_access"); (14, "014_task_row_level_security");
    (15, "015_per_item_effect_lock"); (16, "016_statement_level_execution_counts"); (17, "017_task_change_notifications");
    (18, "018_actionable_progress_state_error"); (19, "019_durable_steps"); (20, "020_shared_resource_leases");
    (21, "021_durable_step_cancellation") ].

Section runner.
Context {S : Type} (apply : string → S → option S) (taskSchemaChecksum : string → string).

(** A row of [rhinoq_task.migrations] by version: name and checksum. *)
Notation ledger := (gmap Z (string * string)).

Record database := Database { schema : S; migrations : ledger }.

Inductive migration_error := ChecksumDrift (version : Z) | StatementFailed | ConstraintViolated.

Notation sqltx := (txn database migration_error).

(** [connection.query(migration.sql)] *)
Definition run_sql (sql : string) : sqltx unit :=
  λ d, match apply sql (schema d) with
       | Some s => Ok (tt, Database s (migrations d))
       | None => Err StatementFailed
       end.

(** [INSERT INTO rhinoq_task.migrations], whose table has CHECK (version > 0),
    UNIQUE (name) and CHECK (length(checksum) = 64). *)
Definition record_migration (version : Z) (name checksum : string) : sqltx unit :=
  λ d, if (version <=? 0) || negb (Nat.eqb (String.length checksum) 64)
          || bool_decide (is_Some (migrations d !! version)) || bool_decide (map_Exists (λ _ r, r.1 = name) (migrations d))
       then Err ConstraintViolated
       else Ok (tt, Database (schema d) (<[version := (name, checksum)]> (migrations d))).

Definition migrate_one (m : migration) : sqltx unit :=
  let checksum := taskSchemaChecksum (m_sql m) in
  let* d := tget in
  match migrations d !! m_version m with
  | Some (name, recorded) =>
      if negb (bool_decide (name = m_name m)) || negb (bool_decide (recorded = checksum))
      then traise (ChecksumDrift (m_version m)) else tret tt
  | None => run_sql (m_sql m) ;; record_migration (m_version m) (m_name m) checksum
  end.

Fixpoint migrate_all (ms : list migration) : sqltx unit :=
  match ms with
  | [] => tret tt
  | m :: ms => migrate_one m ;; migrate_all ms
  end.

(** COMMIT, or ROLLBACK and the error. *)
Definition migrateTaskSchema (ms : list migration) (d : database) : result migration_error unit * database :=
  match migrate_all ms d with
  | Ok (_, d') => (Ok tt, d')
  | Err e => (Err e, d)
  end.

(** Releases that start one after the other. *)
Fixpoint run_releases (releases : list (list migration)) (d : database) : list (result migration_error unit) * database :=
  match releases with
  | [] => ([], d)
  | ms :: rest =>
      let '(r, d1) := migrateTaskSchema ms d in
      let '(rs, d2) := run_releases rest d1 in (r :: rs, d2)
  end.
End runner.

(** ** Releases of one history

    A release carries a prefix of the list of all migrations ever written. *)

Section facts.
Context {S : Type} (apply : string → S → option S) (checksum : string → string).
Context (digest_length : ∀ sql, String.length (checksum sql) = 64%nat).

(** The SQL of the migrations, one after the other. *)
Fixpoint replay (ms : list migration) (s : S) : option S :=
  match ms with
  | [] => Some s
  | m :: ms => s' ← apply (m_sql m) s; replay ms s'
  end.

Definition entry (m : migration) : Z * (string * string) := (m_version m, (m_name m, checksum (m_sql m))).
Definition ledger_of (ms : list migration) : gmap Z (string * string) := list_to_map (entry <$> ms).

(** Versions are positive, and versions and names do not repeat. *)
Definition well_numbered (ms : list migration) : Prop :=
  Forall (λ m, 0 < m_version m) ms ∧ NoDup (m_version <$> ms) ∧ NoDup (m_name <$> ms).

(** The database after exactly the migrations [ms], from [s0]. *)
Definition migrated (ms : list migration) (s0 : S) (d : database) : Prop :=
  replay ms s0 = Some (schema d) ∧ migrations d = ledger_of ms.

Lemma entry_versions ms : (entry <$> ms).*1 = m_version <$> ms.
Proof. by rewrite <-list_fmap_compose. Qed.

Lemma ledger_lookup ms m : NoDup (m_version <$> ms) → m ∈ ms → ledger_of ms !! m_version m = Some (m_name m, checksum (m_sql m)).
Proof. intros Hn Hm. apply elem_of_list_to_map_1; [by rewrite entry_versions|]. change (m_version m, _) with (entry m). by apply list_elem_of_fmap_2. Qed.

Lemma ledger_fresh ms v : v ∉ m_version <$> ms → ledger_of ms !! v = None.
Proof. intros H. apply not_elem_of_list_to_map_1. by rewrite entry_versions. Qed.

Lemma ledger_snoc ms m : m_version m ∉ m_version <$> ms → ledger_of (ms ++ [m]) = <[m_version m := (m_name m, checksum (m_sql m))]> (ledger_of ms).
Proof. intros H. unfold ledger_of. rewrite fmap_app. apply list_to_map_snoc. by rewrite entry_versions. Qed.

Lemma ledger_names ms name : name ∉ m_name <$> ms → ¬ map_Exists (λ _ r, r.1 = name) (ledger_of ms).
Proof.
  intros H (v & r & Hr & Hn). apply elem_of_list_to_map_2, list_elem_of_fmap in Hr as (m & [= -> ->] & Hm). cbn in Hn. subst name.
  apply H. by apply list_elem_of_fmap_2.
Qed.

Lemma replay_app a b s : replay (a ++ b) s = replay a s ≫= replay b.
Proof. revert s. induction a as [|m a IH]; intros s; [done|]. cbn. destruct (apply (m_sql m) s); [apply IH|done]. Qed.

(** Migrations that are recorded change nothing. *)
Lemma recorded_skipped ms ms' d : (∀ m, m ∈ ms → migrations d !! m_version m = Some (m_name m, checksum (m_sql m))) →
  migrate_all apply checksum (ms ++ ms') d = migrate_all apply checksum ms' d.
Proof.
  induction ms as [|m ms IH]; intros H; [done|]. cbn. unfold tbind at 1, migrate_one, tbind, tget.
  rewrite (H m) by apply list_elem_of_here. rewrite !bool_decide_true by done. cbn. apply IH. intros m' Hm. apply H. by apply list_elem_of_further.
Qed.

Lemma migrate_fresh before m d :
  well_numbered (before ++ [m]) → migrations d = ledger_of before →
  migrate_one apply checksum m d =
    match apply (m_sql m) (schema d) with
    | Some s => Ok (tt, Database s (ledger_of (before ++ [m])))
    | None => Err StatementFailed
    end.
Proof using digest_length.
  intros (Hv & Hn & Hm) Hl. rewrite fmap_app in Hn. rewrite fmap_app in Hm. apply NoDup_app in Hn as (_ & Hn & _). apply NoDup_app in Hm as (_ & Hm & _).
  assert (m_version m ∉ m_version <$> before) as Hfresh by (intros Hin; apply (Hn _ Hin), list_elem_of_here).
  assert (m_name m ∉ m_name <$> before) as Hname by (intros Hin; apply (Hm _ Hin), list_elem_of_here).
  assert ((m_version m <=? 0) = false) as Hpos.
  { apply Forall_app in Hv as [_ Hv]. inversion Hv; subst. apply Z.leb_gt. lia. }
  unfold migrate_one, tbind, tget, run_sql. rewrite Hl, ledger_fresh by exact Hfresh.
  destruct (apply (m_sql m) (schema d)) as [s|]; [|reflexivity].
  unfold record_migration. cbn [migrations schema]. rewrite Hl, Hpos, digest_length, ledger_fresh by exact Hfresh.
  rewrite (bool_decide_false (is_Some None)) by (by intros []). rewrite (bool_decide_false (map_Exists _ _)) by (by apply ledger_names).
  cbn [orb negb Nat.eqb]. by rewrite ledger_snoc.
Qed.

Lemma well_numbered_prefix a b : well_numbered (a ++ b) → well_numbered a.
Proof.
  intros (Hv & Hn & Hm). rewrite fmap_app in Hn. rewrite fmap_app in Hm. apply Forall_app in Hv as [Hv _]. apply NoDup_app in Hn as [Hn _]. by apply NoDup_app in Hm as [Hm _].
Qed.

Lemma migrate_new ms : ∀ before s0 d,
  well_numbered (before ++ ms) → migrated before s0 d →
  migrate_all apply checksum ms d =
    match replay ms (schema d) with
    | Some s => Ok (tt, Database s (ledger_of (before ++ ms)))
    | None => Err StatementFailed
    end.
Proof using digest_length.
  induction ms as [|m ms IH]; intros before s0 d Hw [Hr Hl].
  { cbn. rewrite app_nil_r, <-Hl. by destruct d. }
  replace (before ++ m :: ms) with ((before ++ [m]) ++ ms) in * by (by rewrite <-app_assoc). cbn [migrate_all replay]. unfold tbind at 1.
  rewrite (migrate_fresh before m d (well_numbered_prefix _ _ Hw) Hl).
  destruct (apply (m_sql m) (schema d)) as [s|] eqn:E; [|reflexivity]. cbn [mbind option_bind].
  rewrite (IH (before ++ [m]) s0 (Database s (ledger_of (before ++ [m])))); [done|done|].
  split; [|done]. rewrite replay_app, Hr. cbn. by rewrite E.
Qed.

(** One start of a release with the first [k] migrations, on a database that has
    the first [n]. *)
Lemma migrate_release ms s0 n k d :
  well_numbered ms → migrated (take n ms) s0 d →
  (∃ d', migrateTaskSchema apply checksum (take k ms) d = (Ok tt, d') ∧ migrated (take (Nat.max n k) ms) s0 d') ∨
  (migrateTaskSchema apply checksum (take k ms) d = (Err StatementFailed, d) ∧ (n < k)%nat).
Proof using digest_length.
  intros Hw Hd. pose proof Hd as [Hr Hl]. unfold migrateTaskSchema.
  assert (NoDup (m_version <$> take n ms)) as Hn by (apply (well_numbered_prefix _ (drop n ms)); by rewrite take_drop).
  destruct (decide (k ≤ n)%nat) as [Hk|Hk].
  - left. exists d. replace (Nat.max n k) with n by lia. rewrite <-(app_nil_r (take k ms)), recorded_skipped; [done|]. intros m Hm.
    rewrite Hl. apply ledger_lookup; [done|].
    apply elem_of_take in Hm as (i & Hi & Hlt). apply elem_of_take. exists i. split; [done|lia].
  - replace (Nat.max n k) with k by lia.
    assert (take k ms = take n ms ++ take (k - n) (drop n ms)) as Esplit.
    { rewrite take_take_drop. f_equal. lia. }
    assert (migrate_all apply checksum (take k ms) d = migrate_all apply checksum (take (k - n) (drop n ms)) d) as ->
      by (rewrite Esplit; apply recorded_skipped; intros m Hm; rewrite Hl; by apply ledger_lookup).
    rewrite (migrate_new _ (take n ms) s0 d); [|rewrite <-Esplit; apply (well_numbered_prefix _ (drop k ms)); by rewrite take_drop|done].
    destruct (replay _ (schema d)) as [s|] eqn:E; [|right; split; [done|lia]].
    left. eexists. split; [done|]. rewrite <-Esplit. split; [|done]. rewrite Esplit, replay_app, Hr. exact E.
Qed.
End facts.

(** C26. Migrations are applied once and in order. Whatever releases start one after
    the other - upgrades, repeated starts and older releases, each with a prefix of
    one list of migrations, any of them failing half way - the schema is always the
    result of running the first [m] migrations exactly once in order, the ledger
    records exactly those, and every release that started without an error finds all
    its migrations among them. *)
Theorem migrations_once_in_order : ∀ S (apply : string → S → option S) checksum ms s0 (ks : list nat),
  (∀ sql, String.length (checksum sql) = 64%nat) → well_numbered ms →
  let '(rs, d) := run_releases apply checksum ((λ k, take k ms) <$> ks) (Database s0 ∅) in
  ∃ m, migrated apply checksum (take m ms) s0 d ∧
    ∀ i k, ks !! i = Some k → rs !! i = Some (Ok tt) → (k ≤ m)%nat.
Proof.
  intros S apply checksum ms s0 ks Hlen Hw.
  assert (∀ ks n d, migrated apply checksum (take n ms) s0 d →
    ∃ m, (n ≤ m)%nat ∧ migrated apply checksum (take m ms) s0 (run_releases apply checksum ((λ k, take k ms) <$> ks) d).2 ∧
      ∀ i k, ks !! i = Some k → (run_releases apply checksum ((λ k, take k ms) <$> ks) d).1 !! i = Some (Ok tt) → (k ≤ m)%nat) as Hall.
  { clear ks. induction ks as [|k ks IH]; intros n d Hd; [by exists n|]. cbn.
    destruct (migrate_release apply checksum Hlen ms s0 n k d Hw Hd) as [(d' & -> & Hd')|[-> _]].
    - destruct (IH _ _ Hd') as (m & Hm & H1 & H2). destruct (run_releases _ _ _ d') as [rs d2]. exists m. split; [lia|]. split; [done|].
      intros [|i] k' Hk Hr; [injection Hk as <-; lia|by apply (H2 i)].
    - destruct (IH _ _ Hd) as (m & Hm & H1 & H2). destruct (run_releases _ _ _ d) as [rs d2]. exists m. split; [lia|]. split; [done|].
      intros [|i] k' Hk Hr; [done|by apply (H2 i)]. }
  destruct (Hall ks 0%nat (Database s0 ∅)) as (m & _ & H1 & H2); [done|].
  destruct (run_releases _ _ _ _) as [rs d]. by exists m.
Qed.

(** The list of the source is well numbered. *)
Lemma task_migrations_well_numbered sql : well_numbered (TASK_SCHEMA_MIGRATIONS sql).
Proof.
  unfold well_numbered, TASK_SCHEMA_MIGRATIONS. rewrite <-!list_fmap_compose. split_and!.
  - repeat constructor.
  - apply (bool_decide_unpack _). vm_compute. exact I.
  - apply (bool_decide_unpack _). vm_compute. exact I.
Qed.

(** A schema that lists the migrations it saw; the fourth fails. *)
Definition demo_apply (sql : string) (s : list string) : option (list string) := if bool_decide (sql = "bad") then None else Some (s ++ [sql]).
Definition demo_checksum (sql : string) : string := String.concat "" (replicate 64 "a").
Definition demo_sql (v : Z) : string := if v =? 4 then "bad" else "ok".

Lemma migrations_once_in_order_witness :
  let '(rs, d) := run_releases demo_apply demo_checksum ((λ k, take k (TASK_SCHEMA_MIGRATIONS demo_sql)) <$> [2; 6; 3; 1]%nat) (Database [] ∅) in
  ∃ m, migrated demo_apply demo_checksum (take m (TASK_SCHEMA_MIGRATIONS demo_sql)) [] d ∧
    ∀ i k, [2; 6; 3; 1]%nat !! i = Some k → rs !! i = Some (Ok tt) → (k ≤ m)%nat.
Proof.
  apply (migrations_once_in_order (list string) demo_apply demo_checksum (TASK_SCHEMA_MIGRATIONS demo_sql) [] [2; 6; 3; 1]%nat).
  - intros sql. reflexivity.
  - apply task_migrations_well_numbered.
Defined.

(** Drift is refused: when a recorded version has another name or checksum than the
    release says, the start fails and changes nothing, the migrations after it
    included. *)
Theorem drift_refused : ∀ S (apply : string → S → option S) checksum ms d m r,
  m ∈ ms → migrations d !! m_version m = Some r → r ≠ (m_name m, checksum (m_sql m)) →
  ∃ e, migrateTaskSchema apply checksum ms d = (Err e, d).
Proof.
  intros S apply checksum ms d m r Hm Hr Hne. unfold migrateTaskSchema.
  assert (∀ d1, migrations d1 !! m_version m = Some r → ∃ e, migrate_all apply checksum ms d1 = Err e) as H.
  { clear Hr. induction ms as [|m' ms IH]; intros d1 Hr; [by apply not_elem_of_nil in Hm|]. cbn. unfold tbind at 1.
    apply elem_of_cons in Hm as [<-|Hm].
    - unfold migrate_one, tbind, tget. rewrite Hr. destruct r as [name recorded].
      destruct (negb _ || negb _) eqn:E; [by eexists|]. apply orb_false_iff in E as [E1 E2].
      apply negb_false_iff, bool_decide_eq_true in E1, E2. by subst.
    - destruct (migrate_one apply checksum m' d1) as [[[] d2]|e] eqn:E; [|by eexists]. apply IH; [done|].
      unfold migrate_one, tbind, tget in E. destruct (migrations d1 !! m_version m') as [[n c]|] eqn:E'.
      + destruct (_ || _); [done|]. by injection E as <-.
      + unfold run_sql in E. destruct (apply _ _); [|done]. unfold record_migration in E. destruct (_ || _); [done|]. injection E as <-.
        cbn. rewrite lookup_insert_ne; [done|congruence]. }
  destruct (H d Hr) as [e ->]. by exists e.
Qed.
