(* ===== verification/ProviderOperations.v ===== *)
(** * External effects through the provider-operation ledger

    The ledger of the Go engine ([internal/domain/provideroperation/record.go],
    [internal/application/provideroperations/service.go],
    [pkg/rhinoq/provider_operations.go]) and the part of the Gateway client that runs
    a provider call under it ([sdks/node/src/gateway/client.ts]:
    [providerOperation], [effectLite], [recheckProviderOperation], the worker's
    [effect]), with the reconciler of [providers/reconciler.ts] and the capability
    report of [providers/capability.ts].

    A client acts in a world where other processes write the ledger before each of
    its requests, and each request is delivered, lost on the way, or answered too
    late. A handler of the engine reads a record and saves it under its version; a
    lost race is an error without effect, which is a lost request here. The methods of
    the client are programs that await requests and the provider, so that any number of
    calls can overlap. *)

From stdpp Require Import base gmap strings list sorting.
From Stdlib Require Import Ascii ZArith Lia.
From S2P Require Import Prelude Programs.

#[local] Open Scope act_scope.

(** ** The ledger *)

(** [OpRejected] is a state of the Go type that no command of the API writes. *)
Inductive op_state := OpPending | OpAccepted | OpConfirmed | OpFailed | OpNotHappened | OpRejected | OpUncertain.
Inductive confirmation_policy := OnReturn | Readback | Webhook.
Inductive retry_policy := RetryNever | WhenNotHappened.

#[export] Instance op_state_eq_dec : EqDecision op_state.
Proof. solve_decision. Defined.
#[export] Instance confirmation_policy_eq_dec : EqDecision confirmation_policy.
Proof. solve_decision. Defined.
#[export] Instance retry_policy_eq_dec : EqDecision retry_policy.
Proof. solve_decision. Defined.

Record op_record := OpRecord {
  op_id : nat; op_taskId : string; op_provider : string; op_operation : string; op_key : string; op_fingerprint : string;
  op_confirmation : confirmation_policy; op_retryPolicy : retry_policy; op_st : op_state;
  op_providerId : string; op_evidence : string; op_reason : string; op_version : Z;
}.

Definition op_write (st : op_state) (providerId evidence reason : string) (r : op_record) : op_record :=
  OpRecord (op_id r) (op_taskId r) (op_provider r) (op_operation r) (op_key r) (op_fingerprint r) (op_confirmation r)
    (op_retryPolicy r) st providerId evidence reason (op_version r + 1).

(** [None] is ErrInvalidTransition. *)
Definition Accept (providerId : string) (r : op_record) : option op_record :=
  if bool_decide (op_st r = OpAccepted) && bool_decide (op_providerId r = providerId) then Some r else
  if negb (bool_decide (op_st r = OpPending)) || js_blank providerId then None else
  Some (op_write OpAccepted providerId (op_evidence r) (op_reason r) r).

Definition Confirm (evidence : string) (r : op_record) : option op_record :=
  if bool_decide (op_st r = OpConfirmed) then Some r else
  if negb (bool_decide (op_st r = OpAccepted) || bool_decide (op_st r = OpUncertain)) || js_blank evidence then None else
  Some (op_write OpConfirmed (op_providerId r) evidence "" r).

Definition Resolve (st : op_state) (reason : string) (r : op_record) : option op_record :=
  if negb (bool_decide (st ∈ [OpNotHappened; OpRejected; OpFailed; OpUncertain])) then None else
  if negb (bool_decide (op_st r ∈ [OpPending; OpAccepted; OpUncertain])) then None else
  if negb (bool_decide (st = OpUncertain)) && js_blank reason then None else
  if bool_decide (op_st r = st) && bool_decide (op_reason r = reason) then Some r else
  Some (op_write st (op_providerId r) (op_evidence r) reason r).

Definition Retry (r : op_record) : option op_record :=
  if negb (bool_decide (op_st r = OpNotHappened)) || negb (bool_decide (op_retryPolicy r = WhenNotHappened)) then None else
  Some (op_write OpPending "" "" "" r).

(** [mutate] keeps the last evidence payload in the record. *)
Definition with_evidence (payload : string) (old new : op_record) : op_record :=
  if bool_decide (op_version new = op_version old) || bool_decide (payload = "") then new else
  OpRecord (op_id new) (op_taskId new) (op_provider new) (op_operation new) (op_key new) (op_fingerprint new) (op_confirmation new)
    (op_retryPolicy new) (op_st new) (op_providerId new) payload (op_reason new) (op_version new).

Record op_request := OpRequest {
  rq_taskId : string; rq_provider : string; rq_operation : string; rq_key : string; rq_fingerprint : string;
  rq_confirmation : confirmation_policy; rq_retryPolicy : retry_policy;
}.

Inductive decision := Confirmed_ | StillPending | Rejected_ | Failed_ | DidNotHappen | UnknownOutcome.

Record ProviderConfirmation := Confirmation { d_decision : decision; d_evidence : string; d_reason : string }.

(** Records by identifier, and identifiers by provider, operation and key. *)
Record op_ledger := OpLedger { lg_records : gmap nat op_record; lg_keys : gmap (string * string * string) nat; lg_next : nat }.

Definition empty_ledger : op_ledger := OpLedger ∅ ∅ 0.

(** [BeginProviderOperation]: an existing key answers with its record, and refuses
    another request under it. *)
Definition op_begin (rq : op_request) (l : op_ledger) : option op_record * op_ledger :=
  if js_blank (rq_provider rq) || js_blank (rq_operation rq) || js_blank (rq_key rq)
     || negb (bool_decide (js_trim (rq_fingerprint rq) = rq_fingerprint rq)) || (128 <? Z.of_nat (String.length (rq_fingerprint rq)))
  then (None, l) else
  let key := (rq_provider rq, rq_operation rq, rq_key rq) in
  match lg_keys l !! key ≫= λ id, lg_records l !! id with
  | Some r =>
      if bool_decide (op_taskId r = js_trim (rq_taskId rq)) && bool_decide (op_fingerprint r = rq_fingerprint rq)
         && bool_decide (op_confirmation r = rq_confirmation rq) && bool_decide (op_retryPolicy r = rq_retryPolicy rq)
      then (Some r, l) else (None, l)
  | None =>
      let r := OpRecord (lg_next l) (js_trim (rq_taskId rq)) (rq_provider rq) (rq_operation rq) (rq_key rq) (rq_fingerprint rq)
                 (rq_confirmation rq) (rq_retryPolicy rq) OpPending "" "" "" 1 in
      (Some r, OpLedger (<[lg_next l := r]> (lg_records l)) (<[key := lg_next l]> (lg_keys l)) (S (lg_next l)))
  end.

Definition op_mutate (id : nat) (payload : string) (f : op_record → option op_record) (l : op_ledger) : option op_record * op_ledger :=
  match lg_records l !! id with
  | None => (None, l)
  | Some r =>
      match f r with
      | None => (None, l)
      | Some r' =>
          let r' := with_evidence payload r r' in
          (Some r', OpLedger (<[id := r']> (lg_records l)) (lg_keys l) (lg_next l))
      end
  end.

Definition op_accept (id : nat) (providerId evidence : string) : op_ledger → option op_record * op_ledger :=
  op_mutate id evidence (Accept providerId).

(** [ResolveProviderOperation] *)
Definition op_resolve (id : nat) (d : ProviderConfirmation) (l : op_ledger) : option op_record * op_ledger :=
  match d_decision d with
  | Confirmed_ => op_mutate id (d_evidence d) (Confirm (d_evidence d)) l
  | Failed_ | Rejected_ => op_mutate id (d_reason d) (Resolve OpFailed (d_reason d)) l
  | DidNotHappen => op_mutate id (d_reason d) (Resolve OpNotHappened (d_reason d)) l
  | UnknownOutcome => op_mutate id (d_reason d) (Resolve OpUncertain (d_reason d)) l
  | StillPending => (None, l)
  end.

Definition op_retry (id : nat) : op_ledger → option op_record * op_ledger :=
  op_mutate id "provider proved the previous request did not happen" Retry.

(** ** The world of a client *)

(** A request to the engine, of this client or of another process. *)
Inductive op_event : Type :=
| EBegin (rq : op_request)
| EAccept (id : nat) (providerId evidence : string)
| EResolve (id : nat) (d : ProviderConfirmation)
| ERetry (id : nat).

(** The handler of a request. *)
Definition answer_op (e : op_event) : op_ledger → option op_record * op_ledger :=
  match e with
  | EBegin rq => op_begin rq
  | EAccept id p ev => op_accept id p ev
  | EResolve id d => op_resolve id d
  | ERetry id => op_retry id
  end.

Definition run_op (e : op_event) (l : op_ledger) : op_ledger := (answer_op e l).2.

(** The fate of a request. *)
Inductive delivery := Delivered | LostRequest | LostResponse.

Inductive op_error := OpTypeError | OpRangeError | GatewayRefused | GatewayUnreachable | CallbackThrew (message : string).

(** [pw_executed]: the calls of the provider, each with its idempotency key and the
    state of the ledger at that moment. *)
Record op_world := OpWorld {
  pw_ledger : op_ledger; pw_env : list (list op_event); pw_net : list delivery; pw_executed : list (string * op_ledger);
}.

Definition pio (A : Type) : Type := act op_world op_error A.

Definition op_interfere (w : op_world) : op_world :=
  OpWorld (foldl (λ l e, run_op e l) (pw_ledger w) (default [] (head (pw_env w)))) (tail (pw_env w)) (pw_net w) (pw_executed w).

(** [send] of a request: a refusal, a lost request and a lost answer are errors. *)
Definition send (f : op_ledger → option op_record * op_ledger) : pio op_record :=
  λ w,
    let w := op_interfere w in
    let rest := tail (pw_net w) in
    match default Delivered (head (pw_net w)) with
    | LostRequest => (Err GatewayUnreachable, OpWorld (pw_ledger w) (pw_env w) rest (pw_executed w))
    | LostResponse => (Err GatewayUnreachable, OpWorld (f (pw_ledger w)).2 (pw_env w) rest (pw_executed w))
    | Delivered =>
        let w' := OpWorld (f (pw_ledger w)).2 (pw_env w) rest (pw_executed w) in
        match (f (pw_ledger w)).1 with
        | Some r => (Ok r, w')
        | None => (Err GatewayRefused, w')
        end
    end.

Section client.
Context {T : Type}.

(** [execute], [confirm], [providerId] and [evidence] of the options. *)
Record ProviderOperationOptions := {
  po_taskId : string; po_name : string; po_key : string; po_fingerprint : string;
  po_confirmation : option confirmation_policy; po_retryPolicy : option retry_policy;
  po_execute : result string T;
  po_confirm : option (op_record → result string ProviderConfirmation);
  po_providerId : option (T → string); po_evidence : option (T → option string);
}.

(** What a method awaits: the answer to a request, or the provider. *)
Inductive op_call := Ask (e : op_event) | Run (o : ProviderOperationOptions).

Definition op_ans (c : op_call) : Type := match c with Ask _ => op_record | Run _ => T end.

Definition method (A : Type) : Type := prog op_ans op_error A.

Definition execute (o : ProviderOperationOptions) : pio T :=
  λ w, (match po_execute o with Ok v => Ok v | Err m => Err (CallbackThrew m) end,
        OpWorld (pw_ledger w) (pw_env w) (pw_net w) (pw_executed w ++ [(po_key o, pw_ledger w)])).

Definition op_perform (c : op_call) : op_world → result op_error (op_ans c) * op_world :=
  match c with Ask e => send (answer_op e) | Run o => execute o end.

Definition ask (e : op_event) : method op_record := await (Ask e).
Definition run_provider (o : ProviderOperationOptions) : method T := await (Run o).

Definition throw_if (b : bool) (e : op_error) : method unit := if b then Throw e else Ret tt.

(** [inferProviderId]: a non-blank [id] of the provider's result. *)
Context (inferProviderId : T → option string).

(** The message of an error: of a callback its own, of another error [message]. *)
Context (message : op_error → string).

Definition error_message (e : op_error) : string := match e with CallbackThrew m => m | e => message e end.

Definition safeErrorMessage (e : op_error) : string :=
  if js_blank (error_message e) then "provider call ended without a classifiable result"
  else String.substring 0 4096 (error_message e).

Open Scope prog_scope.

Definition beginProviderOperation (rq : op_request) : method op_record :=
  throw_if (js_blank (rq_provider rq) || js_blank (rq_operation rq) || js_blank (rq_key rq)) OpTypeError ;! ask (EBegin rq).

Definition recheckProviderOperation (r : op_record) (confirm : op_record → result string ProviderConfirmation) : method op_record :=
  match confirm r with
  | Err m => Throw (CallbackThrew m)
  | Ok d => if match d_decision d with StillPending => true | _ => false end then Ret r else ask (EResolve (op_id r) d)
  end.

Fixpoint index_of (c : ascii) (s : string) : option nat :=
  match s with
  | EmptyString => None
  | String a s => if Ascii.eqb a c then Some 0%nat else S <$> index_of c s
  end.

(** [provider.operation]; [None] is the [TypeError]. *)
Definition split_name (name : string) : option (string * string) :=
  match index_of "." name with
  | Some (S i) =>
      if bool_decide (S (S i) = String.length name) then None
      else Some (String.substring 0 (S i) name, String.substring (S (S i)) (String.length name) name)
  | _ => None
  end.

(** The [try] block after the provider call: the answer is accepted and, on return,
    confirmed. The last request is returned without [await]: its failure is not
    caught, which [inl] tells from the failures that are. *)
Definition record_result (o : ProviderOperationOptions) (r : op_record) (v : T) : method (op_record + method op_record) :=
  let providerId := match po_providerId o with Some f => Some (f v) | None => inferProviderId v end in
  match providerId with
  | None => Throw OpTypeError
  | Some pid =>
      let evidence := match po_evidence o with Some f => f v | None => None end in
      let! r := ask (EAccept (op_id r) pid (default "" evidence)) in
      Ret match op_confirmation r, po_confirm o with
          | OnReturn, _ => inr (ask (EResolve (op_id r) (Confirmation Confirmed_ (default pid evidence) "")))
          | _, Some confirm => inr (recheckProviderOperation r confirm)
          | _, None => inl r
          end
  end.

(** The [catch] block. *)
Definition record_unknown (o : ProviderOperationOptions) (r : op_record) (e : op_error) : method op_record :=
  let! r := ask (EResolve (op_id r) (Confirmation UnknownOutcome "" (safeErrorMessage e))) in
  match po_confirm o with
  | None => Ret r
  | Some confirm => ptry (recheckProviderOperation r confirm) (λ _, Ret r)
  end.

(** The provider and what is recorded of it: the [try] statement. *)
Definition call_provider (o : ProviderOperationOptions) (r : op_record) : method op_record :=
  let! outcome := ptry (let! v := run_provider o in let! x := record_result o r v in Ret (inr x)) (λ e, Ret (inl e)) in
  match outcome with
  | inr (inl r) => Ret r
  | inr (inr k) => k
  | inl e => record_unknown o r e
  end.

Definition request_of (provider operation : string) (o : ProviderOperationOptions) : op_request :=
  OpRequest (po_taskId o) provider operation (po_key o) (po_fingerprint o)
    (default (match po_confirm o with Some _ => Readback | None => OnReturn end) (po_confirmation o))
    (default WhenNotHappened (po_retryPolicy o)).

Definition providerOperation (o : ProviderOperationOptions) : method op_record :=
  match split_name (po_name o) with
  | None => Throw OpTypeError
  | Some (provider, operation) =>
      let! r := beginProviderOperation (request_of provider operation o) in
      match op_st r with
      | OpConfirmed | OpFailed => Ret r
      | st =>
          let! r := match st with OpNotHappened => ask (ERetry (op_id r)) | _ => Ret r end in
          match op_st r with
          | OpAccepted | OpUncertain =>
              match po_confirm o with Some confirm => recheckProviderOperation r confirm | None => Ret r end
          | _ => call_provider o r
          end
      end
  end.

(** ** [effect] with options: [effectLite] *)

Record EffectOptions := {
  eo_taskId : option string; eo_provider : string; eo_operation : string; eo_commandId : option string;
  eo_idempotencyKey : option string; eo_confirmation : option confirmation_policy; eo_retryPolicy : option retry_policy;
  eo_execute : result string T; eo_confirm : option (op_record → result string ProviderConfirmation);
  eo_providerId : option (T → string); eo_evidence : option (T → option string);
}.

(** [fingerprintEffect]: SHA-256 of the parts joined by NUL; [canonical] is the text
    of the request. *)
Context (digest : string → string).

Definition fingerprint_material (provider operation key canonical : string) : string :=
  (provider ++ String zero (operation ++ String zero (key ++ String zero canonical)))%string.

Definition effect_identity (o : EffectOptions) : option string :=
  let trimmed := λ v, truthy (js_trim <$> v) in
  match trimmed (eo_idempotencyKey o) with
  | Some k => Some k
  | None =>
      match match trimmed (eo_commandId o) with Some i => Some i | None => trimmed (eo_taskId o) end with
      | Some identity => Some ("effect:" ++ js_trim (eo_provider o) ++ ":" ++ js_trim (eo_operation o) ++ ":" ++ identity)%string
      | None => None
      end
  end.

Definition effectLite (o : EffectOptions) (canonical : option string) : method op_record :=
  let provider := js_trim (eo_provider o) in
  let operation := js_trim (eo_operation o) in
  throw_if (bool_decide (provider = "") || bool_decide (operation = "")) OpTypeError ;!
  throw_if (includes "." provider || includes "." operation) OpTypeError ;!
  match effect_identity o with
  | None => Throw OpTypeError
  | Some key =>
      throw_if (256 <? Z.of_nat (String.length key)) OpRangeError ;!
      match canonical with
      | None => Throw OpTypeError
      | Some text =>
          providerOperation {|
            po_taskId := default "" (eo_taskId o); po_name := (provider ++ "." ++ operation)%string; po_key := key;
            po_fingerprint := digest (fingerprint_material provider operation key text);
            po_confirmation := eo_confirmation o; po_retryPolicy := eo_retryPolicy o; po_execute := eo_execute o;
            po_confirm := eo_confirm o; po_providerId := eo_providerId o; po_evidence := eo_evidence o |}
      end
  end.
End client.
Arguments ProviderOperationOptions : clear implicits.
Arguments EffectOptions : clear implicits.
Arguments op_call : clear implicits.

(** A method on its own. *)
Notation alone p := (runs op_perform p).

(** ** [canonicalJSON]

    JSON values with the order of their keys; [quote] is [JSON.stringify] of a string
    and [show] of a number. Values that are not JSON are not representable. *)
Inductive json : Type :=
| JNull
| JBool (b : bool)
| JNumber (z : Z)
| JString (s : string)
| JArray (items : list json)
| JObject (members : list (string * json)).

Definition key_le (a b : string * string) : Prop := String.leb a.1 b.1 = true.
#[export] Instance key_le_dec : RelDecision key_le.
Proof. intros a b. unfold key_le. apply _. Defined.

Section canonical.
Context (quote : string → string) (show : Z → string).

Fixpoint canonicalJSON (v : json) : string :=
  match v with
  | JNull => "null"
  | JBool b => if b then "true" else "false"
  | JNumber z => show z
  | JString s => quote s
  | JArray items => ("[" ++ String.concat "," (canonicalJSON <$> items) ++ "]")%string
  | JObject members =>
      ("{" ++ String.concat "," ((λ kt, (quote kt.1 ++ ":" ++ kt.2)%string) <$>
        merge_sort key_le ((λ kv, (kv.1, canonicalJSON kv.2)) <$> members)) ++ "}")%string
  end.
End canonical.

(** ** The worker's [effect] *)

Inductive effect_call : Type :=
| EffectBegin
| EffectRun
| EffectResolve (outcome : string).

(** How the Gateway answers [begin]. *)
Inductive begin_answer := BeginOk | AlreadyConfirmed | BeginFailed.

(** What the caller gets: the callback's value, [undefined] for an effect that is
    confirmed already, or an error. *)
Inductive effect_result (V : Type) : Type :=
| EffectValue (v : V)
| EffectSkipped
| EffectThrew.
Arguments EffectValue {V} v.
Arguments EffectSkipped {V}.
Arguments EffectThrew {V}.

(** [run] ends with a value or an error, which may carry the mark of
    [neverHappened]; [resolves] is whether the last request succeeds. *)
Definition worker_effect {V} (begin : begin_answer) (run : result bool V) (resolves : bool) : effect_result V * list effect_call :=
  match begin with
  | AlreadyConfirmed => (EffectSkipped, [EffectBegin])
  | BeginFailed => (EffectThrew, [EffectBegin])
  | BeginOk =>
      match run with
      | Err never => (EffectThrew, [EffectBegin; EffectRun; EffectResolve (if never then "not-happened" else "unknown")])
      | Ok v => (if resolves then EffectValue v else EffectThrew, [EffectBegin; EffectRun; EffectResolve "succeeded"])
      end
  end.

(** ** [ProviderOperationReconciler] *)

Record sweep_result := SweepResult { sr_selected : Z; sr_resolved : Z; sr_skipped : Z; sr_failed : Z }.

Definition bounded_integer (value min max : Z) : bool := (min <=? value) && (value <=? max).

Definition new_reconciler (minimumAgeMs batchLimit everyMs : option Z) : bool :=
  bounded_integer (default 30000 minimumAgeMs) 0 86400000 && bounded_integer (default 100 batchLimit) 1 500
  && bounded_integer (default 30000 everyMs) 1000 86400000.

Section reconciler.
(** The verifiers by [provider.operation]. *)
Context (verifiers : gmap string (op_record → result string ProviderConfirmation)).

Definition sweep_one (r : op_record) (acc : sweep_result) : pio sweep_result :=
  match verifiers !! (op_provider r ++ "." ++ op_operation r)%string with
  | None => aret (SweepResult (sr_selected acc) (sr_resolved acc) (sr_skipped acc + 1) (sr_failed acc))
  | Some verifier =>
      atry
        (let+ updated := alone (recheckProviderOperation (T := unit) r verifier) in
         aret (if bool_decide (op_st updated = op_st r) && bool_decide (op_version updated = op_version r) then acc
               else SweepResult (sr_selected acc) (sr_resolved acc + 1) (sr_skipped acc) (sr_failed acc)))
        (λ _, aret (SweepResult (sr_selected acc) (sr_resolved acc) (sr_skipped acc) (sr_failed acc + 1)))
  end.

Fixpoint sweep_all (rs : list op_record) (acc : sweep_result) : pio sweep_result :=
  match rs with
  | [] => aret acc
  | r :: rs => let+ acc := sweep_one r acc in sweep_all rs acc
  end.

(** [sweep] of the operations the engine selected, or of none when the query fails;
    [sweeping] is the flag of a sweep that is running. *)
Definition sweep (sweeping : bool) (selected : option (list op_record)) : pio sweep_result :=
  if sweeping then aret (SweepResult 0 0 0 0) else
  match selected with
  | None => aret (SweepResult 0 0 0 1)
  | Some rs => sweep_all rs (SweepResult (Z.of_nat (length rs)) 0 0 0)
  end.
End reconciler.

(** ** [effectCapabilityReport] *)

Inductive capability_level := AtLeastOnce | IdempotentDelivery | EffectivelyExactlyOnce.

Inductive blocker := NoIdentity | NoProviderIdempotency | NoVerifier | UngatedRetry.

Record EffectCapabilityInput := CapabilityInput {
  ci_stableIdentity : bool; ci_confirmation : confirmation_policy; ci_retryPolicy : retry_policy;
  ci_verifierRegistered : bool; ci_providerSupportsIdempotency : bool;
}.

Definition effectCapabilityReport (i : EffectCapabilityInput) : capability_level * list blocker :=
  let blockers :=
    (if ci_stableIdentity i then [] else [NoIdentity]) ++
    (if ci_providerSupportsIdempotency i then [] else [NoProviderIdempotency]) ++
    (if negb (bool_decide (ci_confirmation i = OnReturn)) && negb (ci_verifierRegistered i) then [NoVerifier] else []) ++
    (if bool_decide (ci_retryPolicy i = WhenNotHappened) then [] else [UngatedRetry]) in
  let level := if ci_stableIdentity i && ci_providerSupportsIdempotency i then IdempotentDelivery else AtLeastOnce in
  (match blockers with [] => EffectivelyExactlyOnce | _ => level end, blockers).
