(* ===== verification/ProviderFacts.v ===== *)
(** * What the provider-operation ledger promises

    A provider is called at most once per call of [providerOperation], and once its
    outcome is in the ledger again only after proof that the call did not happen;
    what happens when the outcome does not reach the ledger; reconciliation never
    calls a provider; the canonical text of a request does not depend on the order of
    its keys. *)

From stdpp Require Import base gmap strings list sorting.
From Stdlib Require Import Ascii ZArith Lia.
From S2P Require Import Prelude Programs ProviderOperations.

#[local] Open Scope act_scope.

(** ** What a method does to the world *)

(** The worlds before and after the method, on its own, are related by [R]. *)
Definition acts {T A} (R : op_world → op_world → Prop) (m : method (T := T) A) : Prop := ∀ w, R w (alone m w).2.

(** The same for a request. *)
Definition sends (R : op_world → op_world → Prop) (e : op_event) : Prop := ∀ w, R w (send (answer_op e) w).2.

Lemma alone_ask {T} e w : alone (ask (T := T) e) w = send (answer_op e) w.
Proof. unfold ask, await. cbn. by destruct (send (answer_op e) w) as [[a|x] w1]. Qed.

Lemma alone_run {T} (o : ProviderOperationOptions T) w : alone (run_provider o) w = execute o w.
Proof. unfold run_provider, await, execute. cbn. unfold execute. by destruct (po_execute o). Qed.

Section acts.
Context {T : Type} (R : op_world → op_world → Prop) `{!PreOrder R}.
Implicit Types A B : Type.

Lemma acts_ret {A} (a : A) : acts (T := T) R (Ret a).
Proof. intros w. reflexivity. Qed.

Lemma acts_throw {A} e : acts (T := T) R (Throw e : method A).
Proof. intros w. reflexivity. Qed.

Lemma acts_throw_if b e : acts (T := T) R (throw_if b e).
Proof. destruct b; [apply acts_throw|apply acts_ret]. Qed.

Lemma acts_bind {A B} (m : method (T := T) A) (k : A → method B) : acts R m → (∀ a, acts R (k a)) → acts R (pbind m k).
Proof. intros Hm Hk w. rewrite runs_bind. specialize (Hm w). destruct (alone m w) as [[a|e] w1]; cbn in *; [etrans; [done|apply Hk]|done]. Qed.

Lemma acts_try {A} (m : method (T := T) A) h : acts R m → (∀ e, acts R (h e)) → acts R (ptry m h).
Proof. intros Hm Hh w. rewrite runs_try. specialize (Hm w). destruct (alone m w) as [[a|e] w1]; cbn in *; [done|etrans; [done|apply Hh]]. Qed.

Lemma acts_ask e : sends R e → acts (T := T) R (ask e).
Proof. intros He w. rewrite alone_ask. apply He. Qed.
End acts.

(** No provider is called. *)
Definition same_calls (w w' : op_world) : Prop := pw_executed w' = pw_executed w.
#[export] Instance same_calls_preorder : PreOrder same_calls.
Proof. split; [done|]. unfold same_calls. congruence. Qed.

Notation uncalled := (acts same_calls).

Lemma uncalled_send e : sends same_calls e.
Proof. intros w. unfold same_calls, send. destruct (default Delivered _); cbn; try done. by destruct (answer_op e _).1. Qed.

Create HintDb provider.
#[export] Hint Resolve acts_ret acts_throw acts_throw_if acts_bind acts_try acts_ask uncalled_send : provider.
#[export] Hint Extern 0 (PreOrder _) => apply _ : provider.

Lemma uncalled_begin {T} rq : uncalled (beginProviderOperation (T := T) rq).
Proof. unfold beginProviderOperation. auto with provider. Qed.

Lemma uncalled_recheck {T} r confirm : uncalled (recheckProviderOperation (T := T) r confirm).
Proof. unfold recheckProviderOperation. destruct (confirm r) as [d|]; [|auto with provider]. destruct (d_decision d); auto with provider. Qed.

#[export] Hint Resolve uncalled_begin uncalled_recheck : provider.

Section calls.
Context {T : Type} (infer : T → option string) (message : op_error → string).

(** The requests a call sends after the provider answered. *)
Record writes_act (R : op_world → op_world → Prop) (o : ProviderOperationOptions T) : Prop := {
  wa_accept : ∀ id pid ev, sends R (EAccept id pid ev);
  wa_resolve : ∀ id d, d_decision d ≠ DidNotHappen → sends R (EResolve id d);
  wa_recheck : ∀ confirm r, po_confirm o = Some confirm → acts (T := T) R (recheckProviderOperation r confirm);
}.

Lemma unknown_acts R `{!PreOrder R} o r e : writes_act R o → acts R (record_unknown message o r e).
Proof.
  intros [_ Hr Hc]. unfold record_unknown. apply (acts_bind R); [by apply acts_ask, Hr|]. intros r'.
  destruct (po_confirm o) eqn:E; [|by apply (acts_ret R)]. apply (acts_try R); [by apply Hc|]. intros e'. apply (acts_ret R).
Qed.

Lemma result_acts R `{!PreOrder R} o r v : writes_act R o →
  acts R (record_result infer o r v) ∧ ∀ w k w', alone (record_result infer o r v) w = (Ok (inr k), w') → acts R k.
Proof.
  intros [Ha Hr Hc]. unfold record_result.
  destruct (match po_providerId o with Some f => Some (f v) | None => infer v end) as [pid|]; [|split; [apply (acts_throw R)|done]].
  split; [apply (acts_bind R); [apply acts_ask, Ha|intros; apply (acts_ret R)]|]. intros w k w'. rewrite runs_bind, alone_ask.
  destruct (send _ w) as [[r'|e] w1]; [|done]. intros H. injection H as Hk _.
  destruct (op_confirmation r'), (po_confirm o) eqn:E; try done; injection Hk as <-; (by apply acts_ask, Hr) || by apply Hc.
Qed.

Lemma uncalled_writes o : writes_act same_calls o.
Proof. split; auto with provider. Qed.

(** The provider's answer, then what is recorded of it. *)
Lemma call_provider_eq o r w :
  alone (call_provider infer message o r) w =
    match execute o w with
    | (Err e, w1) => alone (record_unknown message o r e) w1
    | (Ok v, w1) =>
        match alone (record_result infer o r v) w1 with
        | (Err e, w2) => alone (record_unknown message o r e) w2
        | (Ok (inl r'), w2) => (Ok r', w2)
        | (Ok (inr k), w2) => alone k w2
        end
    end.
Proof.
  unfold call_provider. rewrite runs_bind, runs_try, runs_bind, alone_run. destruct (execute o w) as [[v|e] w1]; [|done].
  rewrite runs_bind. by destruct (alone (record_result infer o r v) w1) as [[[r'|k]|e] w2].
Qed.

Lemma call_acts R `{!PreOrder R} o r w : writes_act R o →
  R (execute o w).2 (alone (call_provider infer message o r) w).2.
Proof.
  intros Hw. rewrite call_provider_eq. destruct (execute o w) as [[v|e] w1]; cbn [snd]; [|by apply unknown_acts].
  destruct (result_acts R o r v Hw) as [Hx Hk]. specialize (Hx w1).
  destruct (alone (record_result infer o r v) w1) as [[[r'|k]|e] w2] eqn:E; cbn [snd] in *; [done|..]; etrans; [exact Hx|by eapply Hk|exact Hx|by apply unknown_acts].
Qed.

Lemma call_provider_once o r w : pw_executed (alone (call_provider infer message o r) w).2 = pw_executed w ++ [(po_key o, pw_ledger w)].
Proof. by rewrite (call_acts same_calls o r w (uncalled_writes o)). Qed.
End calls.

(** ** How the ledger moves *)

Definition op_key_of (r : op_record) : string * string * string := (op_provider r, op_operation r, op_key r).

Record ledger_wf (l : op_ledger) : Prop := {
  wf_ids : ∀ id r, lg_records l !! id = Some r → op_id r = id;
  wf_keys : ∀ k id, lg_keys l !! k = Some id → is_Some (lg_records l !! id);
  wf_rejected : ∀ id r, lg_records l !! id = Some r → op_st r ≠ OpRejected;
  wf_fresh : ∀ id, (lg_next l ≤ id)%nat → lg_records l !! id = None;
}.

(** No record says that its call did not happen. *)
Definition unproved (l : op_ledger) : Prop := ∀ id r, lg_records l !! id = Some r → op_st r ≠ OpNotHappened.

(** The outcome of the call of record [id] is in the ledger. *)
Definition settled_id (id : nat) (l : op_ledger) : Prop := ∃ r, lg_records l !! id = Some r ∧ op_st r ≠ OpPending.
Definition settled (k : string * string * string) (l : op_ledger) : Prop := ∃ id, lg_keys l !! k = Some id ∧ settled_id id l.

(** A change of the ledger that forgets no record and no outcome; with [c] it proves
    no call away either. *)
Definition moves (c : bool) (l l' : op_ledger) : Prop :=
  ledger_wf l → ledger_wf l' ∧ lg_keys l ⊆ lg_keys l' ∧ (∀ id, is_Some (lg_records l !! id) → is_Some (lg_records l' !! id)) ∧
    (∀ id, settled_id id l → settled_id id l') ∧ (c = true → unproved l → unproved l').

#[export] Instance moves_preorder c : PreOrder (moves c).
Proof.
  split; [by intros l Hl|]. intros l1 l2 l3 H1 H2 Hl.
  destruct (H1 Hl) as (Hl2 & Hk & Hr & Hs & Hu). destruct (H2 Hl2) as (Hl3 & Hk' & Hr' & Hs' & Hu').
  split_and!; [done|by etrans|eauto..].
Qed.

Lemma moves_settled c k l l' : ledger_wf l → moves c l l' → settled k l → settled k l'.
Proof. intros Hl Hm (id & Hk & Hs). destruct (Hm Hl) as (_ & Hsub & _ & Hs' & _). exists id. split; [by eapply lookup_weaken|auto]. Qed.

(** A handler of the engine other than the retry. *)
Record op_move (c : bool) (f : op_record → option op_record) : Prop := {
  mv_id : ∀ r r', f r = Some r' → op_id r' = op_id r;
  mv_rejected : ∀ r r', f r = Some r' → op_st r ≠ OpRejected → op_st r' ≠ OpRejected;
  mv_settled : ∀ r r', f r = Some r' → op_st r ≠ OpPending → op_st r' ≠ OpPending;
  mv_unproved : ∀ r r', f r = Some r' → c = true → op_st r ≠ OpNotHappened → op_st r' ≠ OpNotHappened;
}.

Lemma with_evidence_id p r r' : op_id (with_evidence p r r') = op_id r'.
Proof. unfold with_evidence. by case_match. Qed.
Lemma with_evidence_st p r r' : op_st (with_evidence p r r') = op_st r'.
Proof. unfold with_evidence. by case_match. Qed.

Lemma mutate_moves c id p f l : op_move c f → moves c l (op_mutate id p f l).2.
Proof.
  intros [Hid Hrej Hset Hun]. unfold op_mutate. destruct (lg_records l !! id) as [r|] eqn:E; [|by intros ?].
  destruct (f r) as [r'|] eqn:F; [|by intros ?]. intros [W1 W2 W4 W3]. cbn.
  assert (∀ i, is_Some (lg_records l !! i) → is_Some (<[id:=with_evidence p r r']> (lg_records l) !! i)) as Hp.
  { intros i Hi. by rewrite lookup_insert_is_Some'; right. }
  split_and!; [split; cbn|done|done| |]; cbn.
  - intros i x. rewrite lookup_insert_Some. intros [[<- <-]|[_ ?]]; [|auto]. rewrite with_evidence_id, (Hid _ _ F). auto.
  - eauto.
  - intros i x. rewrite lookup_insert_Some. intros [[<- <-]|[_ ?]]; [rewrite with_evidence_st; eauto|eauto].
  - intros i Hi. rewrite lookup_insert_ne; [auto|]. intros <-. rewrite W3 in E by done. done.
  - intros i (x & Hx & Hs). unfold settled_id. cbn. destruct (decide (id = i)) as [<-|]; [|by rewrite lookup_insert_ne; eauto].
    rewrite lookup_insert_eq. eexists. split; [done|]. rewrite with_evidence_st. simplify_eq. eauto.
  - intros Hc Hl i x. cbn. rewrite lookup_insert_Some. intros [[<- <-]|[_ ?]]; [|eauto]. rewrite with_evidence_st. eauto.
Qed.

Ltac move_solve :=
  split; intros r r'; unfold Accept, Confirm, Resolve; repeat case_match; intros; simplify_eq; try done;
  unfold op_write; cbn; try done; try congruence.

Lemma accept_move c pid : op_move c (Accept pid).
Proof. move_solve. Qed.
Lemma confirm_move c ev : op_move c (Confirm ev).
Proof. move_solve. Qed.
Lemma resolve_move c st reason : st ≠ OpPending → st ≠ OpRejected → (c = true → st ≠ OpNotHappened) → op_move c (Resolve st reason).
Proof. intros Hp Hj Hn. move_solve; auto. Qed.

Lemma resolve_moves c id d l : (c = true → d_decision d ≠ DidNotHappen) → moves c l (op_resolve id d l).2.
Proof.
  intros Hd. unfold op_resolve. destruct (d_decision d) eqn:E; try by intros ?.
  all: apply mutate_moves; first [apply confirm_move|apply resolve_move; [done..|]; try done].
  intros Hc. by destruct (Hd Hc).
Qed.

Lemma accept_moves c id pid ev l : moves c l (op_accept id pid ev l).2.
Proof. apply mutate_moves, accept_move. Qed.

(** [op_begin] answers with the record of the request's key. *)
Lemma begin_moves c rq l : moves c l (op_begin rq l).2.
Proof.
  unfold op_begin. case_match; [by intros ?|]. set (k := (rq_provider rq, rq_operation rq, rq_key rq)).
  destruct (lg_keys l !! k ≫= λ id, lg_records l !! id) as [r|] eqn:E; [by case_match; intros ?|].
  intros [W1 W2 W4 W3]. assert (lg_keys l !! k = None) as Hk.
  { destruct (lg_keys l !! k) as [id|] eqn:Ek; [|done]. cbn in E. destruct (W2 _ _ Ek) as [r Hr]. by rewrite Hr in E. }
  assert (∀ i, is_Some (lg_records l !! i) → i ≠ lg_next l) as Hne by (intros i [r Hr] ->; by rewrite W3 in Hr by lia).
  split_and!; [split; cbn|..]; cbn.
  - intros i x. rewrite lookup_insert_Some. intros [[<- <-]|[_ ?]]; [done|auto].
  - intros k' i. rewrite lookup_insert_Some, lookup_insert_is_Some'. intros [[_ <-]|[_ ?]]; [by left|right; eauto].
  - intros i x. rewrite lookup_insert_Some. intros [[<- <-]|[_ ?]]; [done|eauto].
  - intros i Hi. rewrite lookup_insert_ne by lia. apply W3. lia.
  - by apply insert_subseteq.
  - intros i Hi. rewrite lookup_insert_is_Some'. by right.
  - intros i (x & Hx & Hs). exists x. cbn. rewrite lookup_insert_ne; [done|]. intros <-. by eapply Hne; eauto.
  - intros _ Hu i x. cbn. rewrite lookup_insert_Some. intros [[<- <-]|[_ ?]]; [done|eauto].
Qed.

Lemma begin_record rq l r : (op_begin rq l).1 = Some r →
  ∃ id, lg_keys (op_begin rq l).2 !! (rq_provider rq, rq_operation rq, rq_key rq) = Some id ∧ lg_records (op_begin rq l).2 !! id = Some r.
Proof.
  unfold op_begin. case_match; [done|]. destruct (lg_keys l !! _) as [id|] eqn:Ek; cbn.
  - destruct (lg_records l !! id) as [x|] eqn:Er; cbn.
    + case_match; [|done]. intros [= <-]. eauto.
    + intros [= <-]. eexists. split; by rewrite lookup_insert_eq.
  - intros [= <-]. eexists. split; by rewrite lookup_insert_eq.
Qed.

Lemma begin_existing rq l id x r : lg_keys l !! (rq_provider rq, rq_operation rq, rq_key rq) = Some id → lg_records l !! id = Some x →
  (op_begin rq l).1 = Some r → r = x.
Proof. intros Hid Hx. unfold op_begin. case_match; [done|]. rewrite Hid. cbn. rewrite Hx. case_match; by intros [= <-]. Qed.

(** ** Worlds in which nobody retries *)

(** Another process may reserve, accept and resolve; it does not put an operation back
    to pending and, with [c], proves no call away. *)
Definition tame (c : bool) (e : op_event) : Prop :=
  match e with
  | ERetry _ => False
  | EResolve _ d => c = true → d_decision d ≠ DidNotHappen
  | _ => True
  end.

Definition tame_world (c : bool) (w : op_world) : Prop := Forall (Forall (tame c)) (pw_env w).

Lemma run_op_moves c e l : tame c e → moves c l (run_op e l).
Proof. destruct e; unfold run_op; cbn; intros H; [apply begin_moves|apply accept_moves|by apply resolve_moves|done]. Qed.

Lemma interfere_moves c w : tame_world c w → moves c (pw_ledger w) (pw_ledger (op_interfere w)) ∧ tame_world c (op_interfere w).
Proof.
  unfold tame_world, op_interfere. cbn. destruct (pw_env w) as [|es env]; cbn; [by split|]. rewrite Forall_cons. intros [He Henv].
  split; [|done]. generalize (pw_ledger w). induction He as [|e es He _ IH]; intros l; cbn; [done|].
  etrans; [by apply run_op_moves|apply IH].
Qed.

(** Actions that move the ledger only that way. *)
Definition moved (c : bool) (w w' : op_world) : Prop :=
  tame_world c w → moves c (pw_ledger w) (pw_ledger w') ∧ tame_world c w'.
#[export] Instance moved_preorder c : PreOrder (moved c).
Proof.
  split; [by intros w Hw|]. intros w1 w2 w3 H1 H2 Hw. destruct (H1 Hw) as [? Hw2]. destruct (H2 Hw2). split; [by etrans|done].
Qed.

Notation mover c := (acts (moved c)).

Lemma mover_send c e : (∀ l, moves c l (answer_op e l).2) → sends (moved c) e.
Proof.
  intros Hf w Hw. destruct (interfere_moves c w Hw) as [H1 H2]. unfold send. set (w1 := op_interfere w) in *.
  destruct (default Delivered _); [destruct (answer_op e (pw_ledger w1)).1| |]; cbn; (split; [|done]); try done; by etrans.
Qed.

#[export] Hint Resolve mover_send begin_moves accept_moves resolve_moves : provider.

Lemma mover_begin {T} c rq : mover c (beginProviderOperation (T := T) rq).
Proof. unfold beginProviderOperation. apply acts_bind; [apply _|..]; [auto with provider|]. intros _. apply acts_ask, mover_send, begin_moves. Qed.

(** A callback that reports [not_happened] only when that may be told. *)
Definition tame_confirm (c : bool) (confirm : op_record → result string ProviderConfirmation) : Prop :=
  ∀ r d, confirm r = Ok d → c = true → d_decision d ≠ DidNotHappen.

Lemma mover_recheck {T} c r confirm : tame_confirm c confirm → mover c (recheckProviderOperation (T := T) r confirm).
Proof.
  intros Hc. unfold recheckProviderOperation. destruct (confirm r) as [d|] eqn:E; [|auto with provider].
  specialize (Hc _ _ E). destruct (d_decision d) eqn:D; auto with provider; apply acts_ask, mover_send; intros l; apply resolve_moves; by rewrite D.
Qed.

#[export] Hint Resolve mover_begin mover_recheck : provider.

(** No request is lost on the way to the engine. *)
Definition reaches (w : op_world) : Prop := LostRequest ∉ pw_net w.

Definition still_reaches (w w' : op_world) : Prop := reaches w → reaches w'.
#[export] Instance still_reaches_preorder : PreOrder still_reaches.
Proof. split; [intros w H; exact H|]. intros w1 w2 w3 H1 H2 H. exact (H2 (H1 H)). Qed.

Notation keeps_net := (acts still_reaches).

Lemma keeps_send e : sends still_reaches e.
Proof.
  intros w Hw. unfold send, reaches in *. assert (LostRequest ∉ tail (pw_net (op_interfere w))) as H.
  { cbn. destruct (pw_net w); cbn; [done|]. by apply not_elem_of_cons in Hw as [_ ?]. }
  destruct (default Delivered _); [destruct (answer_op e _).1|..]; done.
Qed.

#[export] Hint Resolve keeps_send : provider.

Lemma keeps_recheck {T} r confirm : keeps_net (recheckProviderOperation (T := T) r confirm).
Proof. unfold recheckProviderOperation. destruct (confirm r) as [d|]; [|auto with provider]. destruct (d_decision d); auto with provider. Qed.

#[export] Hint Resolve keeps_recheck : provider.

(** ** One call *)

(** A request that reaches the engine changes the ledger of that moment. *)
Lemma send_reached f w : reaches w →
  pw_ledger (send f w).2 = (f (pw_ledger (op_interfere w))).2 ∧
  ∀ r, (send f w).1 = Ok r → (f (pw_ledger (op_interfere w))).1 = Some r.
Proof.
  intros Hw. unfold send. change (pw_net (op_interfere w)) with (pw_net w).
  destruct (default Delivered (head (pw_net w))) eqn:E.
  - destruct (f _).1; cbn; split; try done. by intros ? [= <-].
  - destruct (pw_net w) as [|x net] eqn:N; [done|]. cbn in E. subst x. unfold reaches in Hw. rewrite N in Hw. set_solver.
  - by split.
Qed.

Lemma send_answered f w r : (send f w).1 = Ok r →
  (f (pw_ledger (op_interfere w))).1 = Some r ∧ pw_ledger (send f w).2 = (f (pw_ledger (op_interfere w))).2.
Proof. unfold send. destruct (default Delivered _); try done. destruct (f _).1; [|done]. cbn. by intros [= <-]. Qed.

Lemma mutate_result id p f l r' : (op_mutate id p f l).1 = Some r' → lg_records (op_mutate id p f l).2 !! id = Some r'.
Proof. unfold op_mutate. repeat case_match; try done. cbn. intros [= <-]. apply lookup_insert_eq. Qed.

Lemma accept_settles id pid ev l r' : (op_accept id pid ev l).1 = Some r' → settled_id id (op_accept id pid ev l).2.
Proof.
  intros H. exists r'. split; [by apply mutate_result|]. revert H. unfold op_accept, op_mutate. repeat case_match; try done.
  cbn. intros [= <-]. rewrite with_evidence_st. revert select (Accept _ _ = _). unfold Accept. repeat case_match; intros; simplify_eq; try done.
  by destruct (op_st _).
Qed.

(** An unknown outcome that reaches the engine settles the operation. *)
Lemma unknown_settles id reason l : is_Some (lg_records l !! id) → settled_id id (op_resolve id (Confirmation UnknownOutcome "" reason) l).2.
Proof.
  intros [r Hr]. unfold op_resolve, op_mutate. cbn. rewrite Hr.
  destruct (Resolve OpUncertain reason r) as [r'|] eqn:E; cbn.
  - eexists. split; [cbn; apply lookup_insert_eq|]. rewrite with_evidence_st. revert E. unfold Resolve.
    repeat case_match; intros; simplify_eq; try done. destruct (op_st r'); done.
  - exists r. split; [done|]. intros Hp. revert E. unfold Resolve. rewrite Hp. cbn. repeat case_match; done.
Qed.

Section call_facts.
Context {T : Type} (infer : T → option string) (message : op_error → string).
Implicit Types (o : ProviderOperationOptions T) (r : op_record) (w : op_world).

(** The confirmation callback of the call, where it has one. *)
Definition tame_options (c : bool) o : Prop := ∀ confirm, po_confirm o = Some confirm → tame_confirm c confirm.

Lemma moved_writes c o : tame_options c o → writes_act (moved c) o.
Proof. intros Ho. split; [intros; apply mover_send, accept_moves|intros; apply mover_send; intros l; by apply resolve_moves|auto with provider]. Qed.

Lemma reaching_writes o : writes_act still_reaches o.
Proof. split; auto with provider. Qed.

Lemma moved_settled c id w w' : ledger_wf (pw_ledger w) → tame_world c w → moved c w w' →
  settled_id id (pw_ledger w) → settled_id id (pw_ledger w').
Proof. intros Hl Ht Hm Hs. destruct (Hm Ht) as [Hm' _]. destruct (Hm' Hl) as (_ & _ & _ & H & _). auto. Qed.

Lemma result_settles o r v w x : (alone (record_result infer o r v) w).1 = Ok x → settled_id (op_id r) (pw_ledger (alone (record_result infer o r v) w).2).
Proof.
  unfold record_result. destruct (match po_providerId o with Some f => Some (f v) | None => infer v end) as [pid|]; [|done].
  rewrite runs_bind, alone_ask. destruct (send _ w) as [[r'|e] w1] eqn:E; [|done]. intros _. cbn.
  destruct (send_answered _ w r' ltac:(by rewrite E)) as [H1 H2]. rewrite E in H2. cbn in H2. rewrite H2. by eapply accept_settles.
Qed.

Lemma record_unknown_settles c o r e w : ledger_wf (pw_ledger w) → tame_world c w → reaches w → tame_options c o →
  is_Some (lg_records (pw_ledger w) !! op_id r) → settled_id (op_id r) (pw_ledger (alone (record_unknown message o r e) w).2).
Proof.
  intros Hl Ht Hn Ho Hr. pose proof (interfere_moves c w Ht) as [Hi _]. destruct (Hi Hl) as (_ & _ & Hp & _).
  pose (d := Confirmation UnknownOutcome "" (safeErrorMessage message e)).
  assert (settled_id (op_id r) (pw_ledger (send (op_resolve (op_id r) d) w).2)) as Hs.
  { destruct (send_reached (op_resolve (op_id r) d) w Hn) as [-> _]. by apply unknown_settles, Hp. }
  assert (moved c w (send (op_resolve (op_id r) d) w).2) as Hm by by apply (mover_send c (EResolve (op_id r) d)); intros; apply resolve_moves.
  destruct (Hm Ht) as [Hm1 Ht1]. destruct (Hm1 Hl) as [Hl1 _]. unfold record_unknown. fold d. rewrite runs_bind, alone_ask. cbn [answer_op].
  destruct (send _ w) as [[r'|e'] w1]; [|done]. cbn in *. eapply (moved_settled c); [exact Hl1|exact Ht1| |exact Hs].
  destruct (po_confirm o) as [confirm|] eqn:E; [|by apply (acts_ret (moved c))].
  apply (acts_try (moved c)); [apply mover_recheck; auto|intros; apply (acts_ret (moved c))].
Qed.

(** A provider that was called has an outcome in the ledger. *)
Lemma call_settles c o r w : ledger_wf (pw_ledger w) → tame_world c w → reaches w → tame_options c o →
  is_Some (lg_records (pw_ledger w) !! op_id r) → settled_id (op_id r) (pw_ledger (alone (call_provider infer message o r) w).2).
Proof.
  intros Hl Ht Hn Ho Hr. rewrite call_provider_eq. unfold execute.
  destruct (po_execute o) as [v|e]; cbn; [|by apply (record_unknown_settles c)]. set (w1 := OpWorld _ _ _ _).
  pose proof (result_acts infer (moved c) o r v (moved_writes c o Ho)) as [Hx Hk]. specialize (Hx w1).
  pose proof (proj1 (result_acts infer still_reaches o r v (reaching_writes o)) w1 Hn) as Hn2.
  pose proof (result_settles o r v w1) as Hs. destruct (Hx Ht) as [Hm Ht2]. destruct (Hm Hl) as (Hl2 & _ & Hp & _).
  destruct (alone (record_result infer o r v) w1) as [[[r'|k]|e] w2] eqn:E; cbn in *.
  - by eapply Hs.
  - eapply (moved_settled c); [exact Hl2|exact Ht2|by eapply Hk|by eapply Hs].
  - apply (record_unknown_settles c); auto.
Qed.

(** ** The branches of [providerOperation] *)

Notation begin_alone rq := (alone (beginProviderOperation (T := T) rq)).
Notation recheck_alone r confirm := (alone (recheckProviderOperation (T := T) r confirm)).
Notation call_alone o r := (alone (call_provider infer message o r)).
Notation operation_alone o := (alone (providerOperation infer message o)).

Lemma begin_alone_eq rq w : begin_alone rq w =
  if js_blank (rq_provider rq) || js_blank (rq_operation rq) || js_blank (rq_key rq) then (Err OpTypeError, w) else send (op_begin rq) w.
Proof. unfold beginProviderOperation, throw_if. destruct (_ || _ || _); [done|]. apply (alone_ask (EBegin rq)). Qed.

Lemma begin_answered rq w r : (begin_alone rq w).1 = Ok r →
  (op_begin rq (pw_ledger (op_interfere w))).1 = Some r ∧
  pw_ledger (begin_alone rq w).2 = (op_begin rq (pw_ledger (op_interfere w))).2.
Proof. rewrite begin_alone_eq. destruct (_ || _ || _); [done|]. apply send_answered. Qed.

(** A retry that is answered leaves the operation pending. *)
Lemma retry_pending id l r : (op_retry id l).1 = Some r → op_st r = OpPending ∧ ∃ r0, lg_records l !! id = Some r0 ∧ op_id r = op_id r0.
Proof.
  unfold op_retry, op_mutate. destruct (lg_records l !! id) as [r0|] eqn:E; [|done]. destruct (Retry r0) as [r1|] eqn:F; [|done].
  intros [= <-]. rewrite with_evidence_st, with_evidence_id. revert F. unfold Retry. case_match; [done|]. intros [= <-]. eauto.
Qed.

Lemma providerOperation_eq p op o w : split_name (po_name o) = Some (p, op) →
  operation_alone o w =
    match begin_alone (request_of p op o) w with
    | (Err e, w1) => (Err e, w1)
    | (Ok r, w1) =>
        match op_st r with
        | OpConfirmed | OpFailed => (Ok r, w1)
        | OpAccepted | OpUncertain => match po_confirm o with Some confirm => recheck_alone r confirm w1 | None => (Ok r, w1) end
        | OpPending | OpRejected => call_alone o r w1
        | OpNotHappened =>
            match send (op_retry (op_id r)) w1 with
            | (Err e, w2) => (Err e, w2)
            | (Ok r, w2) => call_alone o r w2
            end
        end
    end.
Proof.
  intros Hs. unfold providerOperation. rewrite Hs, runs_bind.
  destruct (begin_alone _ w) as [[r|e] w1]; [|done].
  destruct (op_st r) eqn:Est; try done; rewrite runs_bind; cbn [runs]; rewrite ?Est; try by destruct (po_confirm o).
  rewrite alone_ask. cbn [answer_op]. destruct (send _ w1) as [[r2|e] w2] eqn:E; [|done].
  destruct (send_answered _ w1 r2 ltac:(by rewrite E)) as [H _]. apply retry_pending in H as [-> _]. done.
Qed.

(** ** Calls under one key *)

(** What the calls keep: a well-formed ledger in which no call is proved away, in a
    world where nobody retries and every request reaches the engine. *)
Record steady w : Prop := {
  st_wf : ledger_wf (pw_ledger w); st_unproved : unproved (pw_ledger w); st_tame : tame_world true w; st_reaches : reaches w;
}.

Lemma moved_steady w w' : moved true w w' → still_reaches w w' → steady w → steady w'.
Proof. intros Hm Hn [Hl Hu Ht Hr]. destruct (Hm Ht) as [Hm' Ht']. destruct (Hm' Hl) as (? & _ & _ & _ & Hu'). split; auto. Qed.

Lemma begin_steady rq w : steady w → steady (begin_alone rq w).2.
Proof.
  intros Hw. eapply moved_steady; [apply mover_begin| |done]. unfold beginProviderOperation. apply acts_bind; [apply _|..]; [auto with provider|]. intros _. apply acts_ask, keeps_send.
Qed.

Lemma execute_steady o w : steady w → steady (execute o w).2.
Proof. intros [? ? ? ?]. by split. Qed.

Lemma recheck_step k o r w w1 (X : Prop) : tame_options true o → steady w1 → same_calls w w1 →
  (settled k (pw_ledger w) → settled k (pw_ledger w1)) →
  let w' := (match po_confirm o with Some confirm => recheck_alone r confirm w1 | None => (Ok r, w1) end).2 in
  steady w' ∧ (settled k (pw_ledger w) → settled k (pw_ledger w')) ∧ (pw_executed w' = pw_executed w ∨ X).
Proof.
  intros Ho Hw1 Hx Hk. cbn zeta. destruct (po_confirm o) as [confirm|] eqn:E; [|by auto].
  assert (moved true w1 (recheck_alone r confirm w1).2) as Hm by by apply mover_recheck, Ho.
  split_and!; [eapply moved_steady; [done|apply keeps_recheck|done]| |].
  - intros H. destruct (Hm (st_tame _ Hw1)) as [Hm' _]. eapply moves_settled; [apply Hw1|done|auto].
  - left. by rewrite (uncalled_recheck (T := T) r confirm w1).
Qed.

(** One call: it keeps the world steady and the settled keys settled, and calls the
    provider only for a key that was not settled and is afterwards. *)
Lemma call_step p op o w : split_name (po_name o) = Some (p, op) → tame_options true o → steady w →
  let w' := (operation_alone o w).2 in
  let k := (p, op, po_key o) in
  steady w' ∧ (settled k (pw_ledger w) → settled k (pw_ledger w')) ∧
  (pw_executed w' = pw_executed w ∨
    ¬ settled k (pw_ledger w) ∧ settled k (pw_ledger w') ∧ ∃ l, pw_executed w' = pw_executed w ++ [(po_key o, l)]).
Proof.
  intros Hs Ho Hw. cbn zeta. rewrite (providerOperation_eq p op o w Hs). set (rq := request_of p op o).
  pose proof (begin_steady rq w Hw) as Hw1. pose proof (uncalled_begin (T := T) rq w) as Hx. pose proof (begin_answered rq w) as Hb.
  assert (settled (p, op, po_key o) (pw_ledger w) → settled (p, op, po_key o) (pw_ledger (begin_alone rq w).2)) as Hk.
  { eapply (moves_settled true); [apply Hw|]. apply (mover_begin true); apply Hw. }
  destruct (begin_alone rq w) as [[r|e] w1]; cbn in Hw1, Hx, Hk, Hb; [|by auto].
  destruct (Hb r eq_refl) as [Hr Hl]. destruct (begin_record rq _ r Hr) as (id & Hid & Hrec). rewrite <- Hl in Hid, Hrec. cbn in Hid.
  assert (op_id r = id) as Hrid by by eapply wf_ids; [apply Hw1|].
  destruct (op_st r) eqn:Est; [|by apply recheck_step|by auto|by auto|by destruct (st_unproved _ Hw1 _ _ Hrec)
    |by destruct (wf_rejected _ (st_wf _ Hw1) _ _ Hrec)|by apply recheck_step].
  pose proof (call_provider_once infer message o r w1) as Hc. rewrite Hx in Hc.
  assert (steady (call_alone o r w1).2) as Hw2.
  { eapply moved_steady; [apply (call_acts infer message (moved true)), moved_writes, Ho|apply (call_acts infer message still_reaches), reaching_writes|].
    by apply execute_steady. }
  assert (settled (p, op, po_key o) (pw_ledger (call_alone o r w1).2)) as Hset.
  { exists id. split; [|rewrite <- Hrid; apply (call_settles true); try apply Hw1; [done|rewrite Hrid; eauto]].
    assert (moved true (execute o w1).2 (call_alone o r w1).2) as Hm by apply (call_acts infer message (moved true)), moved_writes, Ho.
    destruct (Hm (st_tame _ Hw1)) as [Hm' _]. destruct (Hm' (st_wf _ Hw1)) as (_ & Hsub & _). by eapply lookup_weaken. }
  split_and!; [done|done|right]. split_and!; [|done|eauto]. intros H0.
  destruct (Hk H0) as (id' & Hid' & x & Hrx & Hpx). congruence.
Qed.

(** The calls of one operation, one after the other, whatever they return. *)
Definition calls (os : list (ProviderOperationOptions T)) w : op_world := foldl (λ w o, (operation_alone o w).2) w os.

(** However often an operation is called under one key, one call after another, and
    whatever other processes record about it in between, its provider is called at most once, and not
    at all when its outcome is in the ledger already, as long as every request reaches
    the engine (its answer may still be lost) and no confirmation proves that the call
    did not happen; the provider's failures, blank provider identifiers and refused
    requests included. *)
Theorem effect_runs_once p op k (os : list (ProviderOperationOptions T)) w :
  steady w →
  Forall (λ o, split_name (po_name o) = Some (p, op) ∧ po_key o = k ∧ tame_options true o) os →
  (length (pw_executed (calls os w)) ≤ S (length (pw_executed w)))%nat ∧
  (settled (p, op, k) (pw_ledger w) → pw_executed (calls os w) = pw_executed w).
Proof.
  intros Hw Hos. revert w Hw. induction Hos as [|o os (Hs & Hk & Ho) _ IH]; intros w Hw; [by split; [cbn; lia|]|].
  change (calls (o :: os) w) with (calls os (operation_alone o w).2).
  destruct (call_step p op o w Hs Ho Hw) as (Hw' & Hkeep & Hcase). rewrite Hk in *. destruct (IH _ Hw') as [IH1 IH2].
  destruct Hcase as [Hx|(Hn & Hset & l & Hl)].
  - rewrite Hx in IH1, IH2. split; [done|auto].
  - rewrite (IH2 Hset), Hl, length_app. split; [cbn; lia|done].
Qed.

(** A settled operation is run again only when the ledger says that the call did not
    happen and its policy allows the retry, whatever is lost. *)
Theorem repeat_needs_proof p op o w :
  split_name (po_name o) = Some (p, op) → ledger_wf (pw_ledger w) → tame_world false w → settled (p, op, po_key o) (pw_ledger w) →
  pw_executed (operation_alone o w).2 ≠ pw_executed w →
  ∃ id r, lg_keys (pw_ledger (op_interfere w)) !! (p, op, po_key o) = Some id ∧
    lg_records (pw_ledger (op_interfere w)) !! id = Some r ∧ op_st r = OpNotHappened.
Proof.
  intros Hs Hl Ht Hset. rewrite (providerOperation_eq p op o w Hs). set (rq := request_of p op o).
  pose proof (uncalled_begin (T := T) rq w) as Hx. pose proof (begin_answered rq w) as Hb.
  destruct (interfere_moves false w Ht) as [Hi _]. pose proof (moves_settled _ _ _ _ Hl Hi Hset) as (id & Hid & x & Hrx & Hpx).
  destruct (begin_alone rq w) as [[r|e] w1]; cbn in Hx, Hb; [|done].
  destruct (Hb r eq_refl) as [Hr _]. assert (r = x) as -> by by eapply (begin_existing rq).
  destruct (op_st x) eqn:Est; try done.
  - destruct (po_confirm o) as [confirm|]; [rewrite (uncalled_recheck (T := T) x confirm w1)|]; done.
  - eauto.
  - destruct (Hi Hl) as [Hwf _]. by destruct (wf_rejected _ Hwf _ _ Hrx).
  - destruct (po_confirm o) as [confirm|]; [rewrite (uncalled_recheck (T := T) x confirm w1)|]; done.
Qed.

(** A request the engine takes is answered with the same pending record the second
    time. *)
Lemma begin_again rq : is_Some (op_begin rq empty_ledger).1 →
  ∃ r l, op_st r = OpPending ∧ op_begin rq empty_ledger = (Some r, l) ∧ op_begin rq l = (Some r, l).
Proof.
  unfold op_begin at 1 2. destruct (_ || _) eqn:V; [by intros [? ?]|]. intros _. cbn. do 2 eexists. split_and!; [|done|]; [done|].
  unfold op_begin. rewrite V. cbn. rewrite lookup_insert_eq. cbn. rewrite lookup_insert_eq. by rewrite !bool_decide_true.
Qed.

Lemma begin_sent rq w r l : op_begin rq (pw_ledger w) = (Some r, l) → pw_env w = [] → head (pw_net w) = None ∨ head (pw_net w) = Some Delivered →
  begin_alone rq w = (Ok r, OpWorld l [] (tail (pw_net w)) (pw_executed w)).
Proof.
  intros Hb He Hn. rewrite begin_alone_eq. assert ((op_begin rq (pw_ledger w)).1 ≠ None) as Hv by by rewrite Hb.
  unfold op_begin in Hv. destruct (js_blank _ || _ || _); [done|]. destruct w as [l0 env net calls0]. cbn in *. subst env.
  unfold send, op_interfere. cbn. destruct Hn as [->| ->]; cbn; by rewrite Hb.
Qed.

(** A provider call that times out and whose report of the unknown outcome does
    not reach the engine is made a second time by the next call under the same key,
    although nothing proves that the first did not happen: the operation is still
    pending in the ledger, and a pending operation is run. *)
Theorem unreported_timeout_runs_twice p op o m :
  split_name (po_name o) = Some (p, op) → is_Some (op_begin (request_of p op o) empty_ledger).1 → po_execute o = Err m →
  length (pw_executed (calls [o; o] (OpWorld empty_ledger [] [Delivered; LostRequest] []))) = 2%nat.
Proof.
  intros Hs Hv Ho. destruct (begin_again _ Hv) as (r & l & Hp & H1 & H2).
  assert (operation_alone o (OpWorld empty_ledger [] [Delivered; LostRequest] []) =
    (Err GatewayUnreachable, OpWorld l [] [] [(po_key o, l)])) as E.
  { rewrite (providerOperation_eq p op o _ Hs). erewrite begin_sent; [|exact H1|done|by right]. rewrite Hp.
    rewrite call_provider_eq. unfold execute. by rewrite Ho. }
  unfold calls. cbn [foldl]. rewrite E. cbn [snd]. rewrite (providerOperation_eq p op o _ Hs).
  erewrite begin_sent; [|exact H2|done|by left]. rewrite Hp, call_provider_once. done.
Qed.
End call_facts.

Definition charge (execute : result string string) : ProviderOperationOptions string := {|
  po_taskId := "task"; po_name := "stripe.charge"; po_key := "order-1"; po_fingerprint := "f"; po_confirmation := None;
  po_retryPolicy := None; po_execute := execute; po_confirm := None; po_providerId := None; po_evidence := None |}.

Lemma empty_steady net : LostRequest ∉ net → steady (OpWorld empty_ledger [] net []).
Proof. intros H. split; [split|..]; cbn; try done. constructor. Qed.

Lemma effect_runs_once_witness :
  steady (OpWorld empty_ledger [] [LostResponse] []) ∧
  (length (pw_executed (calls Some (λ _, EmptyString) [charge (Err "timeout"); charge (Ok "ch_1"); charge (Ok "ch_2")] (OpWorld empty_ledger [] [LostResponse] []))) ≤ 1)%nat.
Proof.
  assert (steady (OpWorld empty_ledger [] [LostResponse] [])) as H by (apply empty_steady; set_solver). split; [exact H|].
  refine (proj1 (effect_runs_once Some (λ _, EmptyString) "stripe" "charge" "order-1" _ _ H _)).
  repeat constructor; try (vm_compute; reflexivity); intros confirm [=].
Defined.

Lemma unreported_timeout_runs_twice_witness :
  length (pw_executed (calls Some (λ _, EmptyString) [charge (Err "timeout"); charge (Err "timeout")] (OpWorld empty_ledger [] [Delivered; LostRequest] []))) = 2%nat.
Proof.
  apply (unreported_timeout_runs_twice Some (λ _, EmptyString) "stripe" "charge" (charge (Err "timeout")) "timeout"); [vm_compute; reflexivity| |reflexivity].
  eexists. vm_compute. reflexivity.
Defined.

(** ** Calls that overlap *)

(** What no request breaks, a retry included: a key names the record it was made for. *)
Record named_wf (l : op_ledger) : Prop := {
  nw_id : ∀ id r, lg_records l !! id = Some r → op_id r = id ∧ op_st r ≠ OpRejected;
  nw_key : ∀ k id r, lg_keys l !! k = Some id → lg_records l !! id = Some r → op_key_of r = k;
  nw_fresh : ∀ k id, lg_keys l !! k = Some id → is_Some (lg_records l !! id) ∧ (id < lg_next l)%nat;
}.

Definition keeps_identity (f : op_record → option op_record) : Prop :=
  ∀ r r', f r = Some r' → op_id r' = op_id r ∧ op_key_of r' = op_key_of r ∧ (op_st r ≠ OpRejected → op_st r' ≠ OpRejected).

Ltac identity_solve :=
  intros r r'; unfold Accept, Confirm, Resolve, Retry; repeat case_match; intros; simplify_eq; split_and!; done.

Lemma accept_identity pid : keeps_identity (Accept pid).
Proof. identity_solve. Qed.
Lemma confirm_identity ev : keeps_identity (Confirm ev).
Proof. identity_solve. Qed.
Lemma resolve_identity st reason : st ≠ OpRejected → keeps_identity (Resolve st reason).
Proof. intros Hs. identity_solve. Qed.
Lemma retry_identity : keeps_identity Retry.
Proof. identity_solve. Qed.

Lemma with_evidence_key p r r' : op_key_of (with_evidence p r r') = op_key_of r'.
Proof. unfold with_evidence. by case_match. Qed.

Lemma mutate_named id p f l : keeps_identity f → named_wf l → named_wf (op_mutate id p f l).2 ∧ lg_keys (op_mutate id p f l).2 = lg_keys l.
Proof.
  intros Hf [N1 N2 N3]. unfold op_mutate. destruct (lg_records l !! id) as [r|] eqn:E; [|done]. destruct (f r) as [r'|] eqn:F; [|done].
  destruct (Hf _ _ F) as (F1 & F2 & F3). destruct (N1 _ _ E) as [I1 I2]. split; [|done]. split; cbn.
  - intros i x. rewrite lookup_insert_Some. intros [[<- <-]|[_ ?]]; [|auto]. rewrite with_evidence_id, with_evidence_st, F1. auto.
  - intros k i x Hk. rewrite lookup_insert_Some. intros [[<- <-]|[_ ?]]; [|by eapply N2]. rewrite with_evidence_key, F2. by eapply N2.
  - intros k i Hk. destruct (N3 k i Hk) as [? ?]. split; [|done]. rewrite lookup_insert_is_Some'. by right.
Qed.

Lemma begin_named rq l : named_wf l → named_wf (op_begin rq l).2 ∧ lg_keys l ⊆ lg_keys (op_begin rq l).2.
Proof.
  intros [N1 N2 N3]. unfold op_begin. case_match; [done|]. set (k := (rq_provider rq, rq_operation rq, rq_key rq)).
  destruct (lg_keys l !! k ≫= λ id, lg_records l !! id) as [r|] eqn:E; [by case_match|].
  assert (lg_keys l !! k = None) as Hk.
  { destruct (lg_keys l !! k) as [id|] eqn:Ek; [|done]. cbn in E. destruct (N3 _ _ Ek) as [[r Hr] _]. by rewrite Hr in E. }
  split; [|by apply insert_subseteq]. split; cbn.
  - intros i x. rewrite lookup_insert_Some. intros [[<- <-]|[_ ?]]; [done|auto].
  - intros k' i x. rewrite !lookup_insert_Some. intros [[<- <-]|[_ Hk']] [[Hi <-]|[Hi Hx]]; [done|done| |by eapply N2]. apply N3 in Hk' as [_ ?]. lia.
  - intros k' i. rewrite lookup_insert_Some, lookup_insert_is_Some'. intros [[<- <-]|[_ Hk']]; [split; [by left|lia]|]. apply N3 in Hk' as [? ?]. split; [by right|lia].
Qed.

Lemma answer_named e l : named_wf l → named_wf (answer_op e l).2 ∧ lg_keys l ⊆ lg_keys (answer_op e l).2.
Proof.
  intros Hl. assert (∀ id p f, keeps_identity f → named_wf (op_mutate id p f l).2 ∧ lg_keys l ⊆ lg_keys (op_mutate id p f l).2) as Hm.
  { intros id p f Hf. by destruct (mutate_named id p f l Hf Hl) as [? ->]. }
  destruct e as [rq|id pid ev|id d|id]; cbn; [by apply begin_named|apply Hm, accept_identity| |apply Hm, retry_identity].
  unfold op_resolve. destruct (d_decision d); [|done|..]; apply Hm; first [apply confirm_identity|by apply resolve_identity].
Qed.

Lemma interfere_named w : named_wf (pw_ledger w) → named_wf (pw_ledger (op_interfere w)) ∧ lg_keys (pw_ledger w) ⊆ lg_keys (pw_ledger (op_interfere w)).
Proof.
  unfold op_interfere. cbn. generalize (pw_ledger w) (default [] (head (pw_env w))). intros l es. revert l.
  induction es as [|e es IH]; intros l Hl; cbn; [done|]. destruct (answer_named e l Hl) as [H1 H2]. destruct (IH _ H1) as [H3 H4]. split; [done|by etrans].
Qed.

Section overlap.
Context {T : Type} (infer : T → option string) (message : op_error → string).
Notation entry := (sigT (λ c : op_call T, result op_error (op_ans c))).
Implicit Types (k : string * string * string) (x : op_world * list entry).

(** One call, whose outcome nobody looks at. *)
Definition one_call (o : ProviderOperationOptions T) : method unit := started (providerOperation infer message o).

(** Any number of calls, in any order of turns, with what they awaited. *)
Definition together (evs : list (event (ProviderOperationOptions T))) (w : op_world) : op_world * list entry :=
  (Programs.execute (logged op_perform) one_call evs (w, [])).2.

(** The provider is called under [k]. *)
Definition is_run k (c : op_call T) : bool :=
  match c with Run o => bool_decide ((λ n, (n.1, n.2, po_key o)) <$> split_name (po_name o) = Some k) | Ask _ => false end.

(** The engine answers that the operation of [k] is pending. *)
Definition is_pending k (y : entry) : bool :=
  match y with
  | existT (Ask _) (Ok r) => bool_decide (op_key_of r = k) && bool_decide (op_st r = OpPending)
  | _ => false
  end.

Definition provider_runs k (log : list entry) : nat := length (List.filter (λ y, is_run k (projT1 y)) log).
Definition pending_answers k (log : list entry) : nat := length (List.filter (is_pending k) log).

Definition run_cost k (c : op_call T) : nat := if is_run k c then 1 else 0.
Definition answer_gain k (c : op_call T) (r : result op_error (op_ans c)) : nat := if is_pending k (existT c r) then 1 else 0.

Lemma log_counted k c x :
  provider_runs k (logged op_perform c x).2.2 = (provider_runs k x.2 + run_cost k c)%nat ∧
  pending_answers k (logged op_perform c x).2.2 = (pending_answers k x.2 + answer_gain k c (logged op_perform c x).1)%nat.
Proof.
  unfold logged, provider_runs, pending_answers, run_cost, answer_gain. cbn [snd fst]. rewrite !List.filter_app, !length_app. cbn [List.filter projT1].
  split; [by destruct (is_run k c)|]. by destruct (is_pending k (existT c (op_perform c x.1).1)).
Qed.

Definition book x : Prop := named_wf (pw_ledger x.1).
Definition keys_kept x x' : Prop := lg_keys (pw_ledger x.1) ⊆ lg_keys (pw_ledger x'.1).

#[local] Instance keys_kept_preorder : PreOrder keys_kept.
Proof. split; [intros x; unfold keys_kept; done|]. intros a b c. unfold keys_kept. by etrans. Qed.

(** What a request does to the ledger, and what its answer says of it. *)
Lemma send_named e w : named_wf (pw_ledger w) →
  named_wf (pw_ledger (send (answer_op e) w).2) ∧ lg_keys (pw_ledger w) ⊆ lg_keys (pw_ledger (send (answer_op e) w).2) ∧
  ∀ r, (send (answer_op e) w).1 = Ok r → ∃ l, named_wf l ∧ lg_keys (pw_ledger w) ⊆ lg_keys l ∧ (answer_op e l).1 = Some r ∧ pw_ledger (send (answer_op e) w).2 = (answer_op e l).2.
Proof.
  intros Hw. destruct (interfere_named w Hw) as [Hi Hk]. destruct (answer_named e _ Hi) as [Ha Hk']. unfold send.
  set (l := pw_ledger (op_interfere w)) in *. clearbody l.
  destruct (default Delivered _); [destruct (answer_op e l) as [[r|] l'] eqn:E|..]; cbn in *; split_and!; try done; try (by etrans).
  intros r0 [= <-]. exists l. by rewrite E.
Qed.

Lemma call_keeps c x : book x → book (logged op_perform c x).2 ∧ keys_kept x (logged op_perform c x).2.
Proof.
  unfold book, keys_kept. intros Hx. destruct c as [e|o]; cbn; [|done]. by destruct (send_named e x.1 Hx) as (? & ? & _).
Qed.

Notation affords_here k := (affords (logged op_perform) book keys_kept (run_cost k) (answer_gain k)).

(** Programs that do not call the provider. *)
Definition asks_only (c : op_call T) : bool := match c with Ask _ => true | Run _ => false end.

Lemma only_ask (P : op_call T → bool) e : P (Ask e) = true → only P (ask e).
Proof. intros He. split; [done|]. by intros []. Qed.

Lemma asks_only_recheck r confirm : only asks_only (recheckProviderOperation (T := T) r confirm).
Proof. unfold recheckProviderOperation. destruct (confirm r) as [d|]; [|done]. case_match; [done|]. by apply only_ask. Qed.

Lemma asks_only_unknown o r e : only asks_only (record_unknown message o r e).
Proof.
  unfold record_unknown. apply only_bind; [by apply only_ask|]. intros r'. destruct (po_confirm o); [|done]. apply only_try; [apply asks_only_recheck|done].
Qed.

Lemma asking_affords k {A} n (p : method (T := T) A) x : only asks_only p → affords_here k anyhow anyhow n p x.
Proof. apply affords_free; [apply call_keeps|]. by intros [e|o]. Qed.

(** What a call knows once the engine answered: the record of its key, and that it can
    pay for the provider if the record is pending. *)
Definition reserved k p op (o : ProviderOperationOptions T) (r : op_record) (n : nat) x : Prop :=
  lg_keys (pw_ledger x.1) !! (p, op, po_key o) = Some (op_id r) ∧ op_st r ≠ OpRejected ∧ (op_st r = OpPending → (run_cost k (Run o) ≤ n)%nat).

(** A pending answer pays for one run under its key. *)
Lemma pending_pays k p op o e r : split_name (po_name o) = Some (p, op) → op_key_of r = (p, op, po_key o) → op_st r = OpPending →
  (run_cost k (Run o) ≤ answer_gain k (Ask e) (Ok r))%nat.
Proof.
  intros Hs Hk Hp. unfold run_cost, answer_gain. cbn. rewrite Hs, Hk, Hp. cbn. repeat case_bool_decide; try done; cbn; try lia. congruence.
Qed.

(** One request: what its answer says of the ledger it met. *)
Lemma ask_affords k (Q : op_record → nat → op_world * list entry → Prop) n e x :
  (∀ x1 x2 l r, keys_kept x x1 → named_wf l → lg_keys (pw_ledger x1.1) ⊆ lg_keys l → (answer_op e l).1 = Some r → pw_ledger x2.1 = (answer_op e l).2 →
     book x2 → keys_kept x1 x2 → Q r (n + answer_gain k (Ask e) (Ok r))%nat x2) →
  affords_here k Q anyhow n (ask e) x.
Proof.
  intros HQ x1 He Hb. destruct (call_keeps (Ask e) x1 Hb) as [H1 H2]. destruct (send_named e x1.1 Hb) as (_ & _ & Ha). revert H1 H2. unfold logged. cbn [op_perform].
  destruct (send (answer_op e) x1.1) as [[r|err] w2]; cbn [fst snd] in *; intros H1 H2; (split_and!; [done|done|cbn; lia|]); [|done].
  destruct (Ha r eq_refl) as (l & Hl & Hk & Hr & El). rewrite Nat.sub_0_r. by eapply HQ.
Qed.

Lemma begin_affords k p op o x : split_name (po_name o) = Some (p, op) →
  affords_here k (reserved k p op o) anyhow 0 (beginProviderOperation (request_of p op o)) x.
Proof.
  intros Hs. unfold beginProviderOperation, throw_if. destruct (_ || _ || _); [done|]. cbn [pbind].
  apply ask_affords. intros x1 x2 l r _ Hl _ Hr El Hb _. destruct (begin_record _ _ _ Hr) as (id & Hid & Hrec). cbn [answer_op] in El. rewrite <-El in Hid, Hrec.
  destruct (nw_id _ Hb _ _ Hrec) as [<- Hj]. split_and!; [done|done|]. intros Hp. apply (pending_pays k p op); [done| |done]. by apply (nw_key _ Hb _ _ _ Hid Hrec).
Qed.

Lemma retry_affords k p op o r n x : split_name (po_name o) = Some (p, op) → lg_keys (pw_ledger x.1) !! (p, op, po_key o) = Some (op_id r) →
  affords_here k (λ r' m _, op_st r' = OpPending ∧ (run_cost k (Run o) ≤ m)%nat) anyhow n (ask (ERetry (op_id r))) x.
Proof.
  intros Hs Hk. apply ask_affords. intros x1 x2 l r2 He Hl Hkl Hr El Hb Hk2. cbn [answer_op] in *. destruct (retry_pending _ _ _ Hr) as (Hp & _).
  split; [done|]. etrans; [|apply Nat.le_add_l]. apply (pending_pays k p op); [done| |done]. apply (nw_key _ Hb _ (op_id r)).
  - eapply lookup_weaken; [|exact Hk2]. by eapply lookup_weaken.
  - rewrite El. by apply mutate_result.
Qed.

Lemma result_affords k o r v n x : affords_here k (λ y _ _, match y with inr q => only asks_only q | inl _ => True end) anyhow n (record_result infer o r v) x.
Proof.
  unfold record_result. destruct (match po_providerId o with Some f => Some (f v) | None => infer v end) as [pid|]; [|exact I].
  eapply (affords_bind _ _ _ _ _ anyhow); [by apply ask_affords|]. intros r' m x' _. cbn.
  destruct (op_confirmation r'), (po_confirm o); try done; by first [apply only_ask|apply asks_only_recheck].
Qed.

Lemma run_affords k o n x : (run_cost k (Run o) ≤ n)%nat → affords_here k anyhow anyhow n (run_provider o) x.
Proof.
  intros Hn x1 _ Hb. destruct (call_keeps (Run o) x1 Hb) as [H1 H2]. revert H1 H2. unfold logged. cbn [op_perform]. unfold execute.
  destruct (po_execute o); intros H1 H2; by split_and!.
Qed.

Lemma call_affords k o r n x : (run_cost k (Run o) ≤ n)%nat → affords_here k anyhow anyhow n (call_provider infer message o r) x.
Proof.
  intros Hn. unfold call_provider.
  eapply (affords_bind _ _ _ _ _ (λ y _ _, match y with inr (inr q) => only asks_only q | _ => True end)).
  - eapply (affords_try _ _ _ _ _ _ anyhow); [|intros; exact I]. eapply affords_bind; [by apply run_affords|]. intros v m x1 _.
    eapply affords_bind; [apply result_affords|]. intros [] m' w' Hq; exact Hq.
  - intros [e|[r'|q]] m w' Hq; [apply asking_affords, asks_only_unknown|exact I|by apply asking_affords].
Qed.

(** A call spends what the engine gave it. *)
Lemma operation_affords k o x : affords_here k anyhow anyhow 0 (one_call o) x.
Proof.
  unfold one_call, started. eapply (affords_try _ _ _ _ _ _ anyhow); [|intros; exact I]. eapply (affords_bind _ _ _ _ _ anyhow); [|intros; exact I]. unfold providerOperation.
  destruct (split_name (po_name o)) as [[p op]|] eqn:Hs; [|done].
  eapply affords_bind; [by apply begin_affords|]. intros r n x1 (H1 & H2 & H3). destruct (op_st r) eqn:Est; try done.
  - cbn [pbind]. rewrite Est. apply call_affords. auto.
  - cbn [pbind]. rewrite Est. destruct (po_confirm o); [apply asking_affords, asks_only_recheck|done].
  - eapply affords_bind; [by apply (retry_affords k p op o)|]. intros r' m x' [-> Hc]. by apply call_affords.
  - cbn [pbind]. rewrite Est. destruct (po_confirm o); [apply asking_affords, asks_only_recheck|done].
Qed.

(** However calls overlap, every run of a provider is paid for by an answer. *)
Lemma together_paid k evs w : named_wf (pw_ledger w) → (provider_runs k (together evs w).2 ≤ pending_answers k (together evs w).2)%nat.
Proof.
  intros Hw. destruct (threads_afford (logged op_perform) one_call book keys_kept (run_cost k) (answer_gain k) (λ x, provider_runs k x.2) (λ x, pending_answers k x.2)
    (log_counted k) (w, []) evs) as [(_ & ns & _ & Hs) _]; [intros o x' _ _; apply operation_affords|done|done|]. unfold together. lia.
Qed.

(** ** After an outcome *)

(** A ledger in which no call is proved away, in a world where nobody does so. *)
Record unproven x : Prop := {
  up_wf : ledger_wf (pw_ledger x.1); up_named : named_wf (pw_ledger x.1); up_unproved : unproved (pw_ledger x.1); up_tame : tame_world true x.1;
}.

(** Once the operation is settled it stays so, and the engine does not answer that it
    is pending. *)
Definition no_more_pending k x x' : Prop :=
  settled k (pw_ledger x.1) → settled k (pw_ledger x'.1) ∧ pending_answers k x'.2 = pending_answers k x.2.

#[local] Instance no_more_pending_preorder k : PreOrder (no_more_pending k).
Proof. split; [by intros x Hx|]. intros a b c Hab Hbc Ha. destruct (Hab Ha) as [Hb E1]. destruct (Hbc Hb) as [Hc E2]. split; [done|congruence]. Qed.

(** Requests that prove no call away; a retry is refused when there is no proof. *)
Definition tame_request (e : op_event) : Prop := match e with EResolve _ d => d_decision d ≠ DidNotHappen | _ => True end.

Lemma retry_refused id l : unproved l → op_retry id l = (None, l).
Proof.
  intros Hu. unfold op_retry, op_mutate. destruct (lg_records l !! id) as [r|] eqn:E; [|done]. unfold Retry.
  rewrite bool_decide_eq_false_2; [done|]. by eapply Hu.
Qed.

Lemma request_moves e l : tame_request e → unproved l → moves true l (answer_op e l).2.
Proof.
  intros He Hu. destruct e as [rq|id pid ev|id d|id]; cbn; [apply begin_moves|apply accept_moves|apply resolve_moves; by intros _|].
  by rewrite retry_refused.
Qed.

Lemma mutate_inv id p f l r : (op_mutate id p f l).1 = Some r → ∃ r0 r1, f r0 = Some r1 ∧ op_st r = op_st r1.
Proof.
  unfold op_mutate. destruct (lg_records l !! id) as [r0|]; [|done]. destruct (f r0) as [r1|] eqn:E; [|done]. intros [= <-].
  exists r0, r1. by rewrite with_evidence_st.
Qed.

Lemma resolve_answers id d l r : (op_resolve id d l).1 = Some r → op_st r ≠ OpPending.
Proof.
  unfold op_resolve. destruct (d_decision d); [|done|..]; intros (r0 & r1 & F & ->)%mutate_inv; revert F; unfold Confirm, Resolve;
    repeat case_match; intros; simplify_eq; try done; to_prop; congruence.
Qed.

(** Only [begin] can find a pending operation, and it finds the one of its key. *)
Lemma settled_not_pending k e l r : tame_request e → ledger_wf l → named_wf l → unproved l → settled k l → (answer_op e l).1 = Some r → op_key_of r = k → op_st r ≠ OpPending.
Proof.
  intros He Hl Hn Hu Hs Hr Hk. destruct e as [rq|id pid ev|id d|id]; cbn in Hr; [| | |by rewrite retry_refused in Hr].
  - destruct (begin_record _ _ _ Hr) as (id & Hid & Hrec). destruct (begin_named rq l Hn) as [Hn' Hsub].
    rewrite (nw_key _ Hn' _ _ _ Hid Hrec) in Hk. destruct Hs as (id' & Hid' & x & Hx & Hp). rewrite <-Hk in Hid'.
    by rewrite (begin_existing rq l id' x r Hid' Hx Hr).
  - destruct (accept_settles _ _ _ _ _ Hr) as (x & Hx & Hp). unfold op_accept in *. apply mutate_result in Hr. rewrite Hr in Hx. by injection Hx as <-.
  - by apply resolve_answers in Hr.
Qed.

Lemma request_quiet k e x : tame_request e → unproven x → unproven (logged op_perform (Ask e) x).2 ∧ no_more_pending k x (logged op_perform (Ask e) x).2.
Proof.
  intros He [Hl Hn Hu Ht]. destruct (interfere_moves true x.1 Ht) as [Hm Ht']. destruct (interfere_named x.1 Hn) as [Hn' _]. destruct (Hm Hl) as (Hl' & _ & _ & _ & Hu').
  specialize (Hu' eq_refl Hu). pose proof (request_moves e _ He Hu') as Hm2. destruct (Hm2 Hl') as (Hl2 & _ & _ & _ & Hu2). specialize (Hu2 eq_refl Hu').
  destruct (answer_named e _ Hn') as [Hn2 _]. pose proof (moves_settled true k _ _ Hl Hm) as Hs1. pose proof (moves_settled true k _ _ Hl' Hm2) as Hs2.
  pose proof (λ r, settled_not_pending k e (pw_ledger (op_interfere x.1)) r He Hl' Hn' Hu') as Hp. unfold logged, no_more_pending, pending_answers. cbn [op_perform]. unfold send.
  set (w := op_interfere x.1) in *. destruct (default Delivered (head (pw_net w))); [destruct (answer_op e (pw_ledger w)) as [[r|] l'] eqn:E|..]; cbn [fst snd pw_ledger] in *;
    (split; [by split|]); intros H0; (split; [auto|]); rewrite List.filter_app, length_app; cbn [List.filter is_pending]; try (cbn; lia).
  destruct (bool_decide_reflect (op_key_of r = k)) as [Hk|]; [|cbn; lia]. rewrite bool_decide_eq_false_2; [cbn; lia|]. apply (Hp r); [by apply Hs1|by rewrite ?E|done].
Qed.

Notation safe_here k := (safe (logged op_perform) unproven (no_more_pending k)).

Lemma ask_safe k e x : tame_request e → safe_here k trivial trivial (ask (T := T) e) x.
Proof.
  intros He x1 _ Hi. destruct (request_quiet k e x1 He Hi) as [H1 H2]. destruct (logged op_perform (Ask e) x1) as [[r|err] x2]; by split_and!.
Qed.

Lemma run_safe k o x : safe_here k trivial trivial (run_provider o) x.
Proof.
  intros x1 _ [Hl Hn Hu Ht]. unfold logged. cbn [op_perform]. unfold execute. split; [by split|]. split; [|by destruct (po_execute o)].
  intros Hs. split; [done|]. unfold pending_answers. cbn [fst snd]. rewrite List.filter_app, length_app. cbn. lia.
Qed.

Lemma recheck_safe k r confirm x : tame_confirm true confirm → safe_here k trivial trivial (recheckProviderOperation (T := T) r confirm) x.
Proof.
  intros Hc. unfold recheckProviderOperation. destruct (confirm r) as [d|] eqn:E; [|done]. case_match; [done|]. apply ask_safe. by apply (Hc r d E).
Qed.

Lemma operation_safe k o x : tame_options true o → safe_here k trivial trivial (one_call o) x.
Proof.
  intros Ho. assert (∀ r x, safe_here k trivial trivial match po_confirm o with Some confirm => recheckProviderOperation (T := T) r confirm | None => Ret r end x) as Hre.
  { intros r x'. destruct (po_confirm o) eqn:E; [|done]. apply recheck_safe. by apply Ho. }
  assert (∀ r x, safe_here k trivial trivial (call_provider infer message o r) x) as Hcall.
  { intros r x'. unfold call_provider. eapply (safe_bind _ _ _ (λ y _, match y with inr (inr q) => ∀ x, safe_here k trivial trivial q x | _ => True end)).
    - eapply (safe_try _ _ _ _ trivial); [|done]. eapply safe_bind; [apply run_safe|]. intros v x1 _.
      eapply (safe_bind _ _ _ (λ y _, match y with inr q => ∀ x, safe_here k trivial trivial q x | inl _ => True end)); [|intros [] x2 H; exact H].
      unfold record_result. destruct (match po_providerId o with Some f => Some (f v) | None => infer v end) as [pid|]; [|done].
      eapply safe_bind; [by apply ask_safe|]. intros r' x2 _. cbn. specialize (Hre r'). destruct (op_confirmation r'), (po_confirm o); try done; intros x3; by apply ask_safe.
    - intros [e|[r'|q]] x1 Hq; [|done|by apply Hq]. unfold record_unknown. eapply safe_bind; [by apply ask_safe|]. intros r' x2 _.
      specialize (Hre r' x2). destruct (po_confirm o); [|done]. by eapply (safe_try _ _ _ _ trivial). }
  unfold one_call. apply safe_started. unfold providerOperation. destruct (split_name (po_name o)) as [[p op]|]; [|done].
  eapply safe_bind; [unfold beginProviderOperation, throw_if; destruct (_ || _ || _); [done|cbn [pbind]; by apply ask_safe]|]. intros r x1 _.
  destruct (op_st r) eqn:Est; try done; cbn [pbind]; rewrite ?Est; try done.
  eapply safe_bind; [by apply ask_safe|]. intros r' x2 _. destruct (op_st r'); done.
Qed.

(** C23. However many calls of [providerOperation] run at the same time, in any order of
    turns, with other processes writing the ledger and requests and answers lost: every
    run of a provider under a key is paid for by an answer of the engine, to the call
    that makes it, that said the operation is pending; and where nobody proves that a
    call did not happen, once an outcome of the operation is in the ledger no such
    answer is given any more, so that the provider is then run only by calls that were
    answered before - never by a call that begins later. *)
Theorem provider_runs_while_pending k evs1 evs2 w :
  named_wf (pw_ledger w) →
  (provider_runs k (together evs1 w).2 ≤ pending_answers k (together evs1 w).2)%nat ∧
  (ledger_wf (pw_ledger w) → unproved (pw_ledger w) → tame_world true w → (∀ o, Begin o ∈ evs1 ++ evs2 → tame_options true o) →
   settled k (pw_ledger (together evs1 w).1) →
   settled k (pw_ledger (together (evs1 ++ evs2) w).1) ∧ (provider_runs k (together (evs1 ++ evs2) w).2 ≤ pending_answers k (together evs1 w).2)%nat).
Proof.
  intros Hn. split; [by apply together_paid|]. intros Hl Hu Ht Ho Hs.
  assert (unproven (w, [])) as H0 by by split.
  assert (∀ evs : list (event (ProviderOperationOptions T)), (∀ o, Begin o ∈ evs → Begin o ∈ evs1 ++ evs2) → ∀ o x, Begin o ∈ evs → unproven x → safe_here k trivial trivial (one_call o) x) as Hb.
  { intros evs Hin o x Hev _. apply operation_safe, Ho. auto. }
  destruct (threads_safe_from (logged op_perform) one_call unproven (no_more_pending k) evs1 ([], (w, []))) as (H1 & _ & Hp1); [apply Hb; intros; apply elem_of_app; by left|done|constructor|].
  destruct (threads_safe_from (logged op_perform) one_call unproven (no_more_pending k) evs2 (foldl (λ y ev, turn (logged op_perform) one_call ev y) ([], (w, [])) evs1))
    as (_ & H2 & _); [apply Hb; intros; apply elem_of_app; by right|done|done|].
  rewrite <-foldl_app in H2. destruct (H2 Hs) as [Hs2 E]. split; [exact Hs2|]. pose proof (together_paid k (evs1 ++ evs2) w Hn) as Hp.
  unfold together, Programs.execute in *. by rewrite E in Hp.
Qed.
End overlap.

(** Two calls overlap: both are answered pending before either runs the provider, and both
    run it. A call that begins after an outcome is recorded does not. *)
Definition overlapping : list (event (ProviderOperationOptions string)) :=
  [Begin (charge (Ok "ch_1")); Begin (charge (Ok "ch_2")); Turn 0; Turn 1; Turn 0; Turn 1; Turn 0].
Definition latecomer : list (event (ProviderOperationOptions string)) :=
  [Turn 0; Turn 1; Turn 1; Turn 1; Begin (charge (Ok "ch_3")); Turn 2; Turn 2; Turn 2].

Lemma provider_runs_while_pending_witness :
  let k := ("stripe", "charge", "order-1") in
  let w := OpWorld empty_ledger [] [] [] in
  pending_answers k (together Some (λ _, EmptyString) overlapping w).2 = 2%nat ∧
  provider_runs k (together Some (λ _, EmptyString) (overlapping ++ latecomer) w).2 = 2%nat ∧
  (provider_runs k (together Some (λ _, EmptyString) (overlapping ++ latecomer) w).2 ≤ 2)%nat.
Proof.
  intros k w. split; [vm_compute; reflexivity|]. split; [vm_compute; reflexivity|].
  assert (named_wf empty_ledger) as Hn by (split; cbn; intros * H; rewrite lookup_empty in H; discriminate H).
  destruct (empty_steady [] ltac:(set_solver)) as [Hl Hu Ht _].
  destruct (provider_runs_while_pending Some (λ _, EmptyString) k overlapping latecomer w Hn) as [_ H].
  refine (proj2 (H Hl Hu Ht _ _)).
  - intros o Ho confirm Hc. apply list_elem_of_In in Ho. cbn in Ho. repeat (destruct Ho as [Ho|Ho]); try discriminate Ho; try contradiction; injection Ho as <-; discriminate Hc.
  - exists 0%nat. split; [vm_compute; reflexivity|]. eexists. split; [vm_compute; reflexivity|]. discriminate.
Defined.

(** ** Reconciliation *)

(** What a sweep counts: every operation is left alone, resolved, skipped or failed. *)
Definition tallied (n : Z) (a b : sweep_result) : Prop :=
  sr_selected b = sr_selected a ∧ sr_resolved a ≤ sr_resolved b ∧ sr_skipped a ≤ sr_skipped b ∧ sr_failed a ≤ sr_failed b ∧
  sr_resolved b + sr_skipped b + sr_failed b ≤ sr_resolved a + sr_skipped a + sr_failed a + n.

Lemma sweep_one_spec verifiers r acc w : ∃ acc' w', sweep_one verifiers r acc w = (Ok acc', w') ∧ tallied 1 acc acc' ∧ same_calls w w'.
Proof.
  unfold sweep_one. destruct (verifiers !! _) as [v|]; [|do 2 eexists; split; [done|]; split; [unfold tallied; cbn; lia|done]].
  unfold atry, abind. pose proof (uncalled_recheck (T := unit) r v w) as Hx. destruct (alone (recheckProviderOperation r v) w) as [[u|e] w1]; cbn in Hx;
    do 2 eexists; (split; [done|]); (split; [|done]); [case_match|]; unfold tallied; cbn; lia.
Qed.

(** A sweep always ends with a result, accounts for at most the operations it selected
    and calls no provider; a second sweep in the meantime does nothing. *)
Theorem sweep_calls_nothing verifiers sweeping selected w :
  ∃ res w', sweep verifiers sweeping selected w = (Ok res, w') ∧ same_calls w w' ∧
    (selected ≠ None → sr_resolved res + sr_skipped res + sr_failed res ≤ sr_selected res).
Proof.
  unfold sweep. destruct sweeping; [by do 2 eexists|]. destruct selected as [rs|]; [|by do 2 eexists].
  enough (∀ acc, ∃ res w', sweep_all verifiers rs acc w = (Ok res, w') ∧ same_calls w w' ∧ tallied (Z.of_nat (length rs)) acc res) as H.
  { destruct (H (SweepResult (Z.of_nat (length rs)) 0 0 0)) as (res & w' & -> & Hx & Ht). do 2 eexists. split_and!; [done..|].
    unfold tallied in Ht. cbn in Ht. lia. }
  revert w. induction rs as [|r rs IH]; intros w acc; [do 2 eexists; split_and!; [done..|unfold tallied; cbn; lia]|].
  destruct (sweep_one_spec verifiers r acc w) as (acc1 & w1 & E & Ht & Hx). destruct (IH w1 acc1) as (res & w2 & E2 & Hx2 & Ht2).
  exists res, w2. cbn. unfold abind. rewrite E, E2. split_and!; [done|by etrans|]. unfold tallied in *. cbn [length]. lia.
Qed.

(** ** [canonicalJSON] *)

#[export] Instance key_le_total : Total key_le.
Proof. intros a b. unfold key_le. apply string_leb_total. Qed.

#[export] Instance key_le_trans : Transitive key_le.
Proof. intros a b c. unfold key_le. apply string_leb_trans. Qed.

Lemma sorted_keys_unique (l l' : list (string * string)) :
  Sorted key_le l → Sorted key_le l' → NoDup l.*1 → l ≡ₚ l' → l = l'.
Proof.
  intros Hl Hl'. apply Sorted_StronglySorted in Hl, Hl'; try apply _. revert l' Hl'. induction Hl as [|a l Hl IH Ha]; intros l' Hl' Hd Hp.
  - by apply Permutation_nil_l in Hp.
  - destruct Hl' as [|b l' Hl' Hb]; [by apply Permutation_nil_r in Hp|]. cbn in Hd. apply NoDup_cons in Hd as [Hn Hd].
    assert (a = b) as ->.
    { assert (a ∈ b :: l') as Hin by (rewrite <- Hp; left). assert (b ∈ a :: l) as Hin' by (rewrite Hp; left).
      apply elem_of_cons in Hin as [?|Hin], Hin' as [?|Hin']; try congruence.
      rewrite Forall_forall in Ha, Hb. assert (a.1 = b.1) as Hk by (apply string_leb_antisym; [by apply Ha|by apply Hb]).
      destruct Hn. rewrite Hk. by apply list_elem_of_fmap_2. }
    f_equal. apply IH; [done..|]. by apply Permutation_cons_inv in Hp.
Qed.

(** The canonical text of a request does not depend on the order in which an
    object's members were written. *)
Theorem canonical_ignores_order quote show members members' :
  NoDup members.*1 → members ≡ₚ members' → canonicalJSON quote show (JObject members) = canonicalJSON quote show (JObject members').
Proof.
  intros Hd Hp. cbn. do 4 f_equal. apply sorted_keys_unique; try apply Sorted_merge_sort; try apply _.
  - rewrite merge_sort_Permutation. by rewrite <- list_fmap_compose.
  - by rewrite !merge_sort_Permutation, Hp.
Qed.

(** ** The capability report *)

(** An effect is reported as effectively exactly once exactly when it has a stable
    identity, an idempotent provider, a gated retry and, unless it confirms on
    return, a verifier; every other report names a blocker. *)
Theorem exactly_once_iff_unblocked i :
  ((effectCapabilityReport i).1 = EffectivelyExactlyOnce ↔ (effectCapabilityReport i).2 = []) ∧
  ((effectCapabilityReport i).2 = [] ↔
    ci_stableIdentity i = true ∧ ci_providerSupportsIdempotency i = true ∧ ci_retryPolicy i = WhenNotHappened ∧
    (ci_confirmation i = OnReturn ∨ ci_verifierRegistered i = true)).
Proof. destruct i as [[] [] [] [] []]; vm_compute; split; split; intros; destruct_and?; try done; naive_solver. Qed.
