(* ===== verification/ChangeHub.v ===== *)
(** * The change hub

    [TaskChangeHub] of [sdks/node/src/postgres/change-hub.ts]: one LISTEN connection
    per process, fanned out to listeners in memory. It is a state machine; its events
    are method calls, timers, promises that settle and what a connection reports.
    Every call of [open] gets a number, which is also the name of the connection it
    opens. [removeAllListeners] is the one of [pg.Client]. *)

From stdpp Require Import base gmap strings list.
From Stdlib Require Import ZArith Lia.
From S2P Require Import Prelude Tenancy.

Module ChangeHub.

(** ** The payload *)

Record TaskChange := Change { ch_taskId : string; ch_version : Z; ch_tenantId : string }.

(** The properties of the parsed payload: strings where they are strings, and a
    finite number. *)
Record change_fields := Fields { f_taskId : option string; f_version : option Z; f_tenantId : option string }.

Definition TASK_CHANGE_CHANNEL : string := "rhinoq_task_changed".

(** ** State *)

(** Who called [open]: [start], or the timer armed for a lost connection. *)
Inductive origin := FromStart | FromTimer (source : nat).

(** [open] awaits [connect], then LISTEN, and is over. *)
Inductive open_phase := Connecting | Listening | Over.

Record link := Link { ln_origin : origin; ln_phase : open_phase; ln_alive : bool; ln_attached : bool; ln_ended : bool }.

Inductive output : Type :=
| Told (listener : nat) (change : TaskChange)
| Reported
| Armed (delay : Z)
| Listens (connection : nat)
| Ended (connection : nat).

Record hub := Hub {
  h_listeners : list nat; h_connection : option nat; h_starting : bool; h_timer : option nat; h_delay : Z; h_stopped : bool;
  h_links : gmap nat link; h_next : nat; h_log : list output;
}.

Record options := Options { reconnectDelayMs : Z; maxReconnectDelayMs : Z }.

(** The constructor; [None] is a [RangeError]. *)
Definition new_hub (reconnect max : option Z) : option (options * hub) :=
  let r := default 250 reconnect in
  let m := default 30000 max in
  if (r <=? 0) || (m <? r) then None else Some (Options r m, Hub [] None false None r false ∅ 0 []).

Definition with_links (f : gmap nat link → gmap nat link) (h : hub) : hub :=
  Hub (h_listeners h) (h_connection h) (h_starting h) (h_timer h) (h_delay h) (h_stopped h) (f (h_links h)) (h_next h) (h_log h).
Definition emit (o : list output) (h : hub) : hub :=
  Hub (h_listeners h) (h_connection h) (h_starting h) (h_timer h) (h_delay h) (h_stopped h) (h_links h) (h_next h) (h_log h ++ o).
Definition with_connection (c : option nat) (h : hub) : hub :=
  Hub (h_listeners h) c (h_starting h) (h_timer h) (h_delay h) (h_stopped h) (h_links h) (h_next h) (h_log h).
Definition with_starting (b : bool) (h : hub) : hub :=
  Hub (h_listeners h) (h_connection h) b (h_timer h) (h_delay h) (h_stopped h) (h_links h) (h_next h) (h_log h).
Definition with_timer (t : option nat) (delay : Z) (h : hub) : hub :=
  Hub (h_listeners h) (h_connection h) (h_starting h) t delay (h_stopped h) (h_links h) (h_next h) (h_log h).
Definition with_listeners (ls : list nat) (h : hub) : hub :=
  Hub ls (h_connection h) (h_starting h) (h_timer h) (h_delay h) (h_stopped h) (h_links h) (h_next h) (h_log h).

Section hub.
Context (k : options).
(** [JSON.parse] of a payload, and whether a listener throws. *)
Context (parse_json : string → option change_fields) (throws : nat → TaskChange → bool).

Definition parseChange (payload : option string) : option TaskChange :=
  match truthy payload ≫= parse_json with
  | None => None
  | Some f =>
      let taskId := default "" (js_trim <$> f_taskId f) in
      let tenantId := default "" (js_trim <$> f_tenantId f) in
      match f_version f with
      | None => None
      | Some version => if bool_decide (taskId = "") || negb (isValidTenantId tenantId) then None else Some (Change taskId version tenantId)
      end
  end.

(** ** Methods *)

(** [open] up to its first await. *)
Definition open (o : origin) (h : hub) : hub :=
  Hub (h_listeners h) (h_connection h) (h_starting h) (h_timer h) (h_delay h) (h_stopped h)
    (<[h_next h := Link o Connecting false false false]> (h_links h)) (S (h_next h)) (h_log h).

Definition subscribe (l : nat) (h : hub) : hub :=
  if bool_decide (l ∈ h_listeners h) then h else with_listeners (h_listeners h ++ [l]) h.

Definition unsubscribe (l : nat) (h : hub) : hub := with_listeners (List.filter (λ x, negb (Nat.eqb x l)) (h_listeners h)) h.

(** A call that throws changes nothing. *)
Definition start (h : hub) : hub :=
  if h_stopped h then h else
  match h_connection h with
  | Some _ => h
  | None => if h_starting h then h else open FromStart (with_starting true h)
  end.

Definition detach (l : link) : link := Link (ln_origin l) (ln_phase l) false false (ln_ended l).

Definition stop (h : hub) : hub :=
  let h' := Hub [] None (h_starting h) None (h_delay h) true (h_links h) (h_next h) (h_log h) in
  match h_connection h with
  | Some c => emit [Ended c] (with_links (alter detach c) h')
  | None => h'
  end.

Definition dropAndReconnect (source : nat) (h : hub) : hub :=
  if bool_decide (is_Some (h_connection h)) && negb (bool_decide (h_connection h = Some source)) then h else
  let h := with_connection None h in
  if h_stopped h || bool_decide (is_Some (h_timer h)) then h else
  emit [Armed (h_delay h)] (with_timer (Some source) (Z.min (maxReconnectDelayMs k) (h_delay h * 2)) h).

Definition timer_fires (h : hub) : option hub :=
  match h_timer h with
  | None => None
  | Some source =>
      let h := with_timer None (h_delay h) h in
      Some (if h_stopped h then h else open (FromTimer source) h)
  end.

(** ** [open] goes on *)

Definition with_phase (ph : open_phase) (l : link) : link := Link (ln_origin l) ph (ln_alive l) (ln_attached l) (ln_ended l).

(** [open] rejects: to the caller of [start], or to the timer's [catch]. *)
Definition rejects (i : nat) (l : link) (h : hub) : hub :=
  let h := with_links (alter (with_phase Over) i) h in
  match ln_origin l with
  | FromStart => with_starting false h
  | FromTimer source => dropAndReconnect source (emit [Reported] h)
  end.

(** [connect] settled: the handlers are attached and LISTEN is sent. *)
Definition connect_settles (i : nat) (ok : bool) (l : link) (h : hub) : option hub :=
  match ln_phase l with
  | Connecting => Some (if ok then with_links (<[i := Link (ln_origin l) Listening true true false]>) h else rejects i l h)
  | _ => None
  end.

(** LISTEN settled; it succeeds on a live connection only. *)
Definition listen_settles (i : nat) (ok : bool) (l : link) (h : hub) : option hub :=
  match ln_phase l, ok && negb (ln_alive l) with
  | Listening, false =>
      Some (if ok then
        let h := with_links (alter (with_phase Over) i) h in
        let h := match ln_origin l with FromStart => with_starting false h | _ => h end in
        emit [Listens i] (with_timer (h_timer h) (reconnectDelayMs k) (with_connection (Some i) h))
      else rejects i l h)
  | _, _ => None
  end.

(** ** What a connection reports *)

Definition dies (ended : bool) (l : link) : link := Link (ln_origin l) (ln_phase l) false (ln_attached l) (ended || ln_ended l).

(** [onError] returns: one that throws inside an event handler ends the process. *)
Definition conn_error (i : nat) (l : link) (h : hub) : option hub :=
  if ln_attached l && ln_alive l
  then Some (dropAndReconnect i (emit [Reported] (with_links (alter (dies false) i) h))) else None.

Definition conn_end (i : nat) (l : link) (h : hub) : option hub :=
  if ln_attached l && negb (ln_ended l) then Some (dropAndReconnect i (with_links (alter (dies true) i) h)) else None.

(** A notification reaches every listener, whether another one throws or not. *)
Definition tell (c : TaskChange) (h : hub) : hub :=
  emit (flat_map (λ l, Told l c :: if throws l c then [Reported] else []) (h_listeners h)) h.

Definition notification (channel : string) (payload : option string) (l : link) (h : hub) : option hub :=
  if ln_attached l && ln_alive l then
    Some (if negb (bool_decide (channel = TASK_CHANGE_CHANNEL)) then h else
          match parseChange payload with None => h | Some c => tell c h end)
  else None.

(** ** Events *)

Inductive event : Type :=
| Subscribe (l : nat)
| Unsubscribe (l : nat)
| Start
| Stop
| TimerFires
| ConnectSettles (i : nat) (ok : bool)
| ListenSettles (i : nat) (ok : bool)
| ConnError (i : nat)
| ConnEnd (i : nat)
| Notification (i : nat) (channel : string) (payload : option string).

Definition at_link (i : nat) (f : link → hub → option hub) (h : hub) : option hub := l ← h_links h !! i; f l h.

Definition step (ev : event) (h : hub) : option hub :=
  match ev with
  | Subscribe l => Some (subscribe l h)
  | Unsubscribe l => Some (unsubscribe l h)
  | Start => Some (start h)
  | Stop => Some (stop h)
  | TimerFires => timer_fires h
  | ConnectSettles i ok => at_link i (connect_settles i ok) h
  | ListenSettles i ok => at_link i (listen_settles i ok) h
  | ConnError i => at_link i (conn_error i) h
  | ConnEnd i => at_link i (conn_end i) h
  | Notification i channel payload => at_link i (notification channel payload) h
  end.

Fixpoint run_hub (evs : list event) (h : hub) : option hub :=
  match evs with
  | [] => Some h
  | ev :: evs => h' ← step ev h; run_hub evs h'
  end.
End hub.
End ChangeHub.
