(* ===== verification/ChangeHubFacts.v ===== *)
(** * What the change hub promises

    A hub that was connected once keeps trying to be connected until it is stopped,
    with bounded delays; a stopped hub opens nothing more; which announced changes
    reach the listeners; and two ways in which connections are left behind. *)

From stdpp Require Import base gmap strings list.
From Stdlib Require Import ZArith Lia.
From S2P Require Import Prelude TaskModel Tenancy ChangeHub.

Module ChangeHubFacts.
Import ChangeHub.

Section facts.
Context (k : options) (parse_json : string → option change_fields) (throws : nat → TaskChange → bool).
Implicit Types (h : hub) (l : link) (ev : event).

(** ** The invariant *)

(** Some reconnect attempt is in flight. *)
Definition reconnecting (ls : gmap nat link) : Prop := ∃ i l source, ls !! i = Some l ∧ ln_origin l = FromTimer source ∧ ln_phase l ≠ Over.

Definition covered h : Prop := is_Some (h_connection h) ∨ is_Some (h_timer h) ∨ reconnecting (h_links h).

Definition delays h : Prop := reconnectDelayMs k ≤ h_delay h ≤ maxReconnectDelayMs k ∧
  ∀ d, Armed d ∈ h_log h → reconnectDelayMs k ≤ d ≤ maxReconnectDelayMs k.

(** The connection is alive, unless it is [lost]. *)
Record links_ok (lost : option nat) h : Prop := {
  lo_fresh : ∀ i, (h_next h ≤ i)%nat → h_links h !! i = None;
  lo_alive : ∀ i, h_connection h = Some i → lost ≠ Some i → ∃ l, h_links h !! i = Some l ∧ ln_alive l = true ∧ ln_phase l = Over;
}.

Record hub_inv h : Prop := {
  hi_links : links_ok None h;
  hi_delays : delays h;
  hi_covered : h_stopped h = true ∨ (∀ i, Listens i ∉ h_log h) ∨ covered h;
}.

Lemma links_weaken lost h : links_ok None h → links_ok lost h.
Proof. intros [Hf Ha]. split; [done|]. intros i Hi _. by apply Ha. Qed.

Lemma open_links lost o h : links_ok lost h → links_ok lost (open o h).
Proof.
  intros [Hf Ha]. split; cbn.
  - intros i Hi. rewrite lookup_insert_ne by lia. apply Hf. lia.
  - intros i Hi Hn. destruct (Ha i Hi Hn) as (l & Hl & ?). exists l. rewrite lookup_insert_ne; [done|]. intros <-. by rewrite Hf in Hl by lia.
Qed.

Lemma open_covered o h : links_ok None h → covered h → covered (open o h).
Proof.
  intros [Hf _] [?|[?|(i & l & s & Hl & ?)]]; [by left|by right; left|]. right. right. exists i, l, s. cbn.
  rewrite lookup_insert_ne; [done|]. intros <-. by rewrite Hf in Hl by lia.
Qed.

(** A link that changes leaves the others alone. *)
Lemma alter_links lost (f : link → link) i h : links_ok lost h →
  (∀ l, h_links h !! i = Some l → h_connection h = Some i → lost ≠ Some i → ln_alive (f l) = ln_alive l ∧ ln_phase (f l) = ln_phase l) →
  links_ok lost (with_links (alter f i) h).
Proof.
  intros [Hf Ha] H. split; cbn.
  - intros j Hj. rewrite lookup_alter_None. auto.
  - intros j Hj Hn. destruct (Ha j Hj Hn) as (l & Hl & H1 & H2). destruct (decide (i = j)) as [<-|].
    + exists (f l). rewrite lookup_alter_eq, Hl. destruct (H l Hl Hj Hn) as [-> ->]. done.
    + exists l. by rewrite lookup_alter_ne.
Qed.

Context (Hk : 0 < reconnectDelayMs k ≤ maxReconnectDelayMs k).

Lemma delays_emit o h : (∀ d, Armed d ∉ o) → delays h → delays (emit o h).
Proof. intros Ho [H1 H2]. split; [done|]. intros d. cbn. rewrite elem_of_app. intros [?|?]; [auto|by destruct (Ho d)]. Qed.

Lemma drop_inv source h : links_ok (Some source) h → delays h → hub_inv (dropAndReconnect k source h).
Proof.
  intros [Hf Ha] [Hd Hl]. unfold dropAndReconnect. destruct (bool_decide (is_Some _) && _) eqn:E.
  - apply andb_true_iff in E as [E1 E2]. apply bool_decide_eq_true in E1. rewrite negb_true_iff, bool_decide_eq_false in E2.
    split; [|done|by right; right; left]. split; [done|]. intros i Hi _. apply Ha; congruence.
  - destruct (h_stopped _ || _) eqn:S; cbn in S.
    + split; [by split|done|]. cbn. apply orb_true_iff in S as [S|S]; [by left|]. apply bool_decide_eq_true in S. right. right. right. by left.
    + split; [by split| |right; right; right; left; eauto]. split; cbn; [lia|]. intros d. rewrite elem_of_app, list_elem_of_singleton.
      intros [?|[= ->]]; [auto|lia].
Qed.

(** Outputs other than those of the timer and of a new connection. *)
Lemma emit_inv o h : (∀ d, Armed d ∉ o) → (∀ i, Listens i ∉ o) → hub_inv h → hub_inv (emit o h).
Proof.
  intros Ho Hl [Hi Hd Hv]. destruct Hi. split; [by split|by apply delays_emit|]. destruct Hv as [?|[Hv|?]]; [by left| |by right; right].
  right. left. intros i. cbn. rewrite elem_of_app. intros [?|?]; [by eapply Hv|by eapply Hl].
Qed.

Lemma open_inv o h : hub_inv h → hub_inv (open o h).
Proof. intros [Hi Hd Hv]. split; [by apply open_links|done|]. destruct Hv as [?|[?|?]]; auto using open_covered. Qed.

Lemma timer_inv h h' : hub_inv h → timer_fires h = Some h' → hub_inv h'.
Proof.
  unfold timer_fires. intros [Hi Hd Hv]. destruct (h_timer h) as [source|]; [|done]. intros [= <-].
  assert (links_ok None (with_timer None (h_delay h) h)) as Hi' by by destruct Hi. case_match eqn:S; cbn in S; [split; [done..|by left]|].
  split; [by apply open_links|done|]. right. right. right. right.
  exists (h_next h), (Link (FromTimer source) Connecting false false false), source. cbn. by rewrite lookup_insert_eq.
Qed.

(** An attempt that fails is over; one of the timer's arms the timer again. *)
Lemma rejects_inv i l h : hub_inv h → h_links h !! i = Some l → ln_phase l ≠ Over → hub_inv (rejects k i l h).
Proof.
  intros [Hi Hd Hv] Hl Hp. assert (links_ok None (with_links (alter (with_phase Over) i) h)) as Hi'.
  { apply alter_links; [done|]. intros l' Hl' Hc _. simplify_eq. destruct (lo_alive _ _ Hi i Hc) as (l2 & Hl2 & _ & ?); [done|]. simplify_eq. }
  unfold rejects. destruct (ln_origin l) as [|source] eqn:O.
  - destruct Hi'. split; [by split|done|]. destruct Hv as [?|[?|[?|[?|(j & x & s & Hx & Ho & ?)]]]]; [by left|by right; left|by right; right; left|by right; right; right; left|].
    right. right. right. right. exists j, x, s. cbn. rewrite lookup_alter_ne; [done|]. intros ->. congruence.
  - apply drop_inv; [by apply links_weaken; destruct Hi'|]. apply delays_emit; [set_solver|done].
Qed.

Lemma connect_inv i ok h h' : hub_inv h → at_link i (connect_settles k i ok) h = Some h' → hub_inv h'.
Proof.
  unfold at_link, connect_settles. intros Hh. destruct (h_links h !! i) as [l|] eqn:Hl; [|done]. cbn. destruct (ln_phase l) eqn:P; try done.
  intros [= <-]. destruct ok; [|apply rejects_inv; by rewrite ?P]. destruct Hh as [[Hf Ha] Hd Hv]. split; [split; cbn|done|].
  - intros j Hj. rewrite lookup_insert_ne; [auto|]. intros <-. by rewrite Hf in Hl by lia.
  - intros j Hj Hn. destruct (Ha j Hj Hn) as (x & Hx & ? & ?). exists x. rewrite lookup_insert_ne; [done|]. intros <-. congruence.
  - destruct Hv as [?|[?|[?|[?|(j & x & s & Hx & Ho & ?)]]]]; [by left|by right; left|by right; right; left|by right; right; right; left|].
    right. right. right. right. destruct (decide (i = j)) as [<-|]; [|by exists j, x, s; cbn; rewrite lookup_insert_ne].
    simplify_eq. eexists i, _, s. cbn. by rewrite lookup_insert_eq.
Qed.

Lemma listen_inv i ok h h' : hub_inv h → at_link i (listen_settles k i ok) h = Some h' → hub_inv h'.
Proof.
  unfold at_link, listen_settles. intros Hh. destruct (h_links h !! i) as [l|] eqn:Hl; [|done]. cbn.
  destruct (ln_phase l) eqn:P; [done| |done]. destruct (ok && negb (ln_alive l)) eqn:A; [done|]. intros [= <-].
  destruct ok; [|apply rejects_inv; by rewrite ?P]. cbn in A. apply negb_false_iff in A. destruct Hh as [Hi [Hd1 Hd2] Hv].
  split; [|split|right; right; left; cbn; eauto].
  - split; cbn.
    + intros j Hj. destruct (ln_origin l); cbn; rewrite lookup_alter_None; destruct Hi as [Hf _]; apply Hf; by destruct (ln_origin l).
    + intros j [= <-] _. exists (with_phase Over l). destruct (ln_origin l); cbn; by rewrite lookup_alter_eq, Hl.
  - destruct (ln_origin l); cbn; lia.
  - intros d. cbn. destruct (ln_origin l); cbn; rewrite elem_of_app, list_elem_of_singleton; intros [?|?]; try done; auto.
Qed.

Lemma dies_inv ended (o : list output) i h : (∀ d, Armed d ∉ o) → hub_inv h → hub_inv (dropAndReconnect k i (emit o (with_links (alter (dies ended) i) h))).
Proof.
  intros Ho [Hi Hd _]. apply drop_inv; [|by apply delays_emit]. assert (links_ok (Some i) (with_links (alter (dies ended) i) h)) as H; [|by destruct H].
  apply alter_links; [by apply links_weaken|]. intros l _ _ []. done.
Qed.

Lemma hub_step_inv ev h h' : hub_inv h → step k parse_json throws ev h = Some h' → hub_inv h'.
Proof.
  intros Hh. destruct ev; cbn.
  - intros [= <-]. unfold subscribe. case_match; [done|]. by destruct Hh as [[? ?] ? ?].
  - intros [= <-]. by destruct Hh as [[? ?] ? ?].
  - intros [= <-]. unfold start. repeat case_match; try done. apply open_inv. by destruct Hh as [[? ?] ? ?].
  - intros [= <-]. unfold stop. destruct Hh as [Hi Hd Hv]. destruct (h_connection h) as [c|] eqn:E.
    + apply emit_inv; [set_solver..|]. split; [|done|by left]. destruct Hi as [Hf _]. split; cbn; [|done]. intros j Hj. rewrite lookup_alter_None. by apply Hf.
    + destruct Hi as [Hf _]. split; [by split|done|by left].
  - by apply timer_inv.
  - by apply connect_inv.
  - by apply listen_inv.
  - unfold at_link, conn_error. destruct (h_links h !! i) as [l|]; [|done]. cbn. case_match; [|done]. intros [= <-]. apply dies_inv; [set_solver|done].
  - unfold at_link, conn_end. destruct (h_links h !! i) as [l|]; [|done]. cbn. case_match; [|done]. intros [= <-].
    pose proof (dies_inv true [] i h) as Hd. unfold emit in Hd. rewrite app_nil_r in Hd. apply Hd; [set_solver|done].
  - unfold at_link, notification. destruct (h_links h !! i) as [l|]; [|done]. cbn. case_match; [|done]. intros [= <-]. repeat case_match; try done.
    apply emit_inv; [..|done]; intros x (y & _ & Hy)%list_elem_of_In%in_flat_map; destruct (throws _ _); cbn in Hy; naive_solver.
Qed.

Lemma run_hub_inv evs h h' : hub_inv h → run_hub k parse_json throws evs h = Some h' → hub_inv h'.
Proof.
  revert h. induction evs as [|ev evs IH]; intros h Hh; cbn; [by intros [= <-]|].
  destruct (step _ _ _ ev h) as [h1|] eqn:E; [|done]. cbn. apply IH. by eapply hub_step_inv.
Qed.

(** ** Stopping *)

Definition still h h' : Prop := h_stopped h = true → h_timer h = None → h_stopped h' = true ∧ h_timer h' = None ∧ h_next h' = h_next h.

Lemma drop_still source h0 h : still h0 h → still h0 (dropAndReconnect k source h).
Proof. intros H H1 H2. destruct (H H1 H2) as (S1 & S2 & S3). unfold dropAndReconnect. case_match; [done|]. cbn. by rewrite S1. Qed.

Lemma rejects_still i l h : still h (rejects k i l h).
Proof. unfold rejects. case_match; [by intros H1 H2|]. by apply drop_still. Qed.

Lemma step_still ev h h' : step k parse_json throws ev h = Some h' → still h h'.
Proof.
  intros H H1 H2. destruct ev; cbn in H; unfold at_link, connect_settles, listen_settles, conn_error, conn_end, notification in H.
  - injection H as <-. unfold subscribe. by case_match.
  - by injection H as <-.
  - injection H as <-. unfold start. by rewrite H1.
  - injection H as <-. unfold stop. by case_match.
  - unfold timer_fires in H. by rewrite H2 in H.
  - destruct (h_links h !! i) as [l|]; [|done]. cbn in H. repeat case_match; simplify_eq; try done. by apply rejects_still.
  - destruct (h_links h !! i) as [l|]; [|done]. cbn in H. repeat case_match; simplify_eq; try done; by apply rejects_still.
  - destruct (h_links h !! i) as [l|]; [|done]. cbn in H. case_match; simplify_eq. apply (drop_still i h); [by intros ??|done..].
  - destruct (h_links h !! i) as [l|]; [|done]. cbn in H. case_match; simplify_eq. apply (drop_still i h); [by intros ??|done..].
  - destruct (h_links h !! i) as [l|]; [|done]. cbn in H. repeat case_match; by simplify_eq.
Qed.

(** A stopped hub is at rest: whatever happens afterwards, it arms no timer and opens
    no connection. *)
Theorem stopped_hub_rests evs h h' : run_hub k parse_json throws evs (stop h) = Some h' →
  h_stopped h' = true ∧ h_timer h' = None ∧ h_next h' = h_next h.
Proof.
  assert (∀ h0, h_stopped h0 = true → h_timer h0 = None → h_next h0 = h_next h → run_hub k parse_json throws evs h0 = Some h' →
    h_stopped h' = true ∧ h_timer h' = None ∧ h_next h' = h_next h) as Hall.
  { induction evs as [|ev evs IH]; intros h0 H1 H2 H3; cbn; [by intros [= <-]|].
    destruct (step _ _ _ ev h0) as [h1|] eqn:E; [|done]. cbn. destruct (step_still _ _ _ E H1 H2) as (? & ? & ?). apply IH; congruence. }
  apply Hall; unfold stop; by case_match.
Qed.
End facts.

(** C29. A hub that was connected once does not give up: along every run, until it is
    stopped, it holds a live connection, has armed its reconnect timer or is
    reconnecting; what it takes for its connection is alive and listening; and every
    delay lies between the two configured bounds. *)
Theorem hub_keeps_listening : ∀ reconnect max k h0 parse_json throws evs h,
  new_hub reconnect max = Some (k, h0) → run_hub k parse_json throws evs h0 = Some h →
  (h_stopped h = false → (∃ i, Listens i ∈ h_log h) → covered h) ∧
  (∀ i, h_connection h = Some i → ∃ l, h_links h !! i = Some l ∧ ln_alive l = true ∧ ln_phase l = Over) ∧
  (∀ d, Armed d ∈ h_log h → default 250 reconnect ≤ d ≤ default 30000 max).
Proof.
  intros reconnect max k h0 parse_json throws evs h Hn Hr. unfold new_hub in Hn. destruct (_ || _) eqn:V; [done|]. injection Hn as <- <-.
  apply orb_false_iff in V as [V1 V2]. assert (hub_inv (Options (default 250 reconnect) (default 30000 max)) h) as [Hi [_ Hd] Hv].
  { eapply run_hub_inv; [cbn; lia| |exact Hr]. split; [by split|split; cbn; [lia|set_solver]|right; left; set_solver]. }
  split_and!; [|intros i Hc; by eapply lo_alive|exact Hd]. intros Hs (i & Hl). destruct Hv as [?|[Hv|?]]; [congruence|by destruct (Hv i)|done].
Qed.

(** ** From the trigger to the listeners *)

(** A change the database announced is told to the listeners exactly when its Task
    has an identifier and its tenant is well formed: the table accepts other tenants,
    whose changes are dropped. *)
Theorem announced_change_told parse_json (print : change_note → string) n :
  (∀ n, print n ≠ EmptyString ∧ parse_json (print n) = Some (Fields (Some (note_task_id n)) (Some (note_version n)) (Some (note_tenant_id n)))) →
  parseChange parse_json (Some (print n)) =
    if negb (js_blank (note_task_id n)) && isValidTenantId (js_trim (note_tenant_id n))
    then Some (Change (js_trim (note_task_id n)) (note_version n) (js_trim (note_tenant_id n))) else None.
Proof.
  intros Hp. destruct (Hp n) as [He Hj]. unfold parseChange. assert (truthy (Some (print n)) = Some (print n)) as ->.
  { unfold truthy. by destruct (print n). }
  cbn. rewrite Hj. cbn. unfold js_blank. by destruct (bool_decide _), (isValidTenantId _).
Qed.

(** ** Connections left behind *)

Lemma run_hub_app k parse_json throws evs1 evs2 h :
  run_hub k parse_json throws (evs1 ++ evs2) h = run_hub k parse_json throws evs1 h ≫= run_hub k parse_json throws evs2.
Proof. revert h. induction evs1 as [|ev evs1 IH]; intros h; cbn; [done|]. destruct (step _ _ _ ev h); cbn; [apply IH|done]. Qed.

(** [start] while the hub reconnects: two connections listen. *)
Lemma doubled_connections k parse_json throws listener : ∃ h,
  run_hub k parse_json throws
    [Start; ConnectSettles 0 true; ListenSettles 0 true; Subscribe listener; ConnEnd 0;
     TimerFires; Start; ConnectSettles 1 true; ListenSettles 1 true; ConnectSettles 2 true; ListenSettles 2 true]
    (Hub [] None false None (reconnectDelayMs k) false ∅ 0 []) = Some h ∧
  h_listeners h = [listener] ∧ h_connection h = Some 2%nat ∧ h_links h !! 1%nat = Some (Link (FromTimer 0) Over true true false) ∧
  h_links h !! 2%nat = Some (Link FromStart Over true true false) ∧
  h_log h = [Listens 0; Armed (reconnectDelayMs k); Listens 1; Listens 2].
Proof. eexists. split; [vm_compute; reflexivity|]. repeat split. Qed.

(** [start] does not look at a reconnect that is under way: called while the hub
    reconnects it opens a second connection, every listener is told each change once
    per connection, and [stop] ends only the one that was ready last. *)
Theorem restart_doubles_notifications : ∀ k parse_json throws listener payload c,
  parseChange parse_json (Some payload) = Some c → throws listener c = false →
  let change i := Notification i TASK_CHANGE_CHANNEL (Some payload) in
  ∃ h, run_hub k parse_json throws
    [Start; ConnectSettles 0 true; ListenSettles 0 true; Subscribe listener; ConnEnd 0;
     TimerFires; Start; ConnectSettles 1 true; ListenSettles 1 true; ConnectSettles 2 true; ListenSettles 2 true;
     change 1%nat; change 2%nat; Stop] (Hub [] None false None (reconnectDelayMs k) false ∅ 0 []) = Some h ∧
    List.filter (λ o, match o with Told _ _ => true | _ => false end) (h_log h) = [Told listener c; Told listener c] ∧
    h_stopped h = true ∧ ln_alive <$> h_links h !! 1%nat = Some true ∧ Ended 1 ∉ h_log h.
Proof.
  intros k parse_json throws listener payload c Hp Ht change.
  destruct (doubled_connections k parse_json throws listener) as (h & Hr & Hls & Hc & H1 & H2 & Hg).
  assert (∀ i l h, h_links h !! i = Some l → ln_attached l = true → ln_alive l = true → h_listeners h = [listener] →
    step k parse_json throws (change i) h = Some (emit [Told listener c] h)) as Hstep.
  { intros i l h' Hl Ha1 Ha2 Hls'. cbn. unfold at_link. rewrite Hl. cbn. unfold notification. rewrite Ha1, Ha2, Hp. cbn.
    unfold tell. rewrite Hls'. cbn. by rewrite Ht. }
  eexists. split.
  { change (?a :: ?b :: ?c0 :: ?d :: ?e :: ?f :: ?g :: ?h0 :: ?i :: ?j :: ?l :: ?m) with ([a; b; c0; d; e; f; g; h0; i; j; l] ++ m).
    rewrite run_hub_app, Hr. cbn [mbind option_bind run_hub]. erewrite (Hstep 1%nat); [|exact H1|done..]. cbn [mbind option_bind].
    erewrite (Hstep 2%nat); [|exact H2|done..]. reflexivity. }
  unfold stop. cbn. rewrite Hc, Hg. cbn. rewrite lookup_alter_ne, H1 by done. split_and!; [done..|set_solver].
Qed.

(** [stop] while the hub connects leaves a connection behind: it is taken although
    the hub is stopped, and nothing ends it. *)
Theorem stop_while_connecting_leaks k parse_json throws :
  ∃ h, run_hub k parse_json throws [Start; Stop; ConnectSettles 0 true; ListenSettles 0 true]
      (Hub [] None false None (reconnectDelayMs k) false ∅ 0 []) = Some h ∧
    h_stopped h = true ∧ h_connection h = Some 0%nat ∧ ln_alive <$> h_links h !! 0%nat = Some true.
Proof. by eexists. Qed.

Lemma restart_doubles_notifications_witness : ∃ h,
  run_hub (Options 250 30000) (λ _, Some (Fields (Some "t1") (Some 2) (Some "acme"))) (λ _ _, false)
    [Start; ConnectSettles 0 true; ListenSettles 0 true; Subscribe 7; ConnEnd 0;
     TimerFires; Start; ConnectSettles 1 true; ListenSettles 1 true; ConnectSettles 2 true; ListenSettles 2 true;
     Notification 1 TASK_CHANGE_CHANNEL (Some "{}"); Notification 2 TASK_CHANGE_CHANNEL (Some "{}"); Stop] (Hub [] None false None 250 false ∅ 0 []) = Some h ∧
  List.filter (λ o, match o with Told _ _ => true | _ => false end) (h_log h) = [Told 7 (Change "t1" 2 "acme"); Told 7 (Change "t1" 2 "acme")].
Proof.
  destruct (restart_doubles_notifications (Options 250 30000) (λ _, Some (Fields (Some "t1") (Some 2) (Some "acme"))) (λ _ _, false) 7 "{}"
    (Change "t1" 2 "acme") ltac:(vm_compute; reflexivity) eq_refl) as (h & H1 & H2 & _). exists h. split; [exact H1|exact H2].
Defined.

Lemma hub_keeps_listening_witness : ∃ h,
  run_hub (Options 250 30000) (λ _, None) (λ _ _, false) [Start; ConnectSettles 0 true; ListenSettles 0 true; ConnEnd 0; TimerFires; ConnectSettles 1 false]
    (Hub [] None false None 250 false ∅ 0 []) = Some h ∧ covered h ∧ (∀ d, Armed d ∈ h_log h → 250 ≤ d ≤ 30000).
Proof.
  destruct (run_hub (Options 250 30000) (λ _, None) (λ _ _, false) [Start; ConnectSettles 0 true; ListenSettles 0 true; ConnEnd 0; TimerFires; ConnectSettles 1 false]
    (Hub [] None false None 250 false ∅ 0 [])) as [h|] eqn:E; [|exfalso; vm_compute in E; discriminate E]. exists h. split; [reflexivity|].
  destruct (hub_keeps_listening None None (Options 250 30000) (Hub [] None false None 250 false ∅ 0 []) (λ _, None) (λ _ _, false) _ h eq_refl E) as (H1 & _ & H2).
  split; [|exact H2]. vm_compute in E. injection E as <-. apply H1; [reflexivity|]. exists 0%nat. cbn. set_solver.
Defined.
End ChangeHubFacts.
