(* ===== verification/TaskStore.v ===== *)
(** * The client-side Task store

    [TaskStore] of [sdks/node/src/tasks/store.ts], which a user interface subscribes
    to, and [watchTask] of [tasks/watch.ts]. The store is a state machine: its events
    are method calls and promises that settle. Every call of [run] is a loop with a
    number; a method that awaits the client ([refresh], [cancel], [retry]) is a call
    with a number. Listeners see every state passed to [setState]. *)

From stdpp Require Import base gmap strings list.
From Stdlib Require Import ZArith Lia.
From S2P Require Import Prelude TaskModel.

Module TaskStore.

(** What the store uses of a snapshot or a summary. *)
Record view := View { v_entityVersion : Z; v_state : task_state }.

Definition TERMINAL (s : task_state) : bool := match s with Succeeded | Failed | Cancelled => true | _ => false end.

Inductive status := Idle | Loading | Connected | Reconnecting | Stopped.
Inductive transport := Polling | Live | PollingFallback.

Record TaskStoreState := State { st_snapshot : option view; st_status : status; st_error : bool; st_transport : option transport }.

(** What a loop awaits: in [poll] the document to be visible, a read or the next
    round; in [run] the next event of the stream, the fallback read or the next try. *)
Inductive phase := PVisible | PReading | PWaiting | RStreaming | RRefreshing | RWaiting.

(** A loop with its generation, its signal and its failures. *)
Record loop := Loop { l_generation : Z; l_aborted : bool; l_phase : phase; l_failures : Z }.

(** A method that awaits the client; [cancel] with the tries left. *)
Inductive call : Type :=
| RefreshCall
| CancelReading
| CancelSending (tries : nat) (current : view)
| CancelRefreshing (tries : nat)
| RetryReading
| RetrySending (current : view).

Inductive output : Type :=
| Showed (s : TaskStoreState)
| CancelSent (expectedVersion : Z)
| RetrySent (expectedVersion : Z)
| WaitSet (milliseconds : Z)
| Resolved (call : nat) (v : view)
| Threw (call : nat).

Record store := Store {
  s_state : TaskStoreState; s_controller : option nat; s_generation : Z;
  s_loops : gmap nat loop; s_calls : gmap nat call; s_next : nat; s_log : list output;
}.

Record options := Options { pollIntervalMs : Z; maxBackoffMs : Z; stopOnTerminal : bool; pauseWhenHidden : bool; streams : bool }.

Definition MAX_CANCEL_CONVERGENCE_ATTEMPTS : nat := 3.

(** The constructor; [None] is one of its exceptions. [streams] says that the
    client streams and [preferStream] is set. *)
Definition new_store (taskId : string) (pollInterval maxBackoff : option Z) (terminal hidden : option bool) (stream : bool) : option (options * store) :=
  let p := default 1000 pollInterval in
  let m := default 30000 maxBackoff in
  if js_blank taskId || (p <=? 0) || (m <=? 0) then None else
  Some (Options p m (default true terminal) (default true hidden) stream, Store (State None Idle false None) None 0 ∅ ∅ 0 []).

Definition emit (o : list output) (s : store) : store :=
  Store (s_state s) (s_controller s) (s_generation s) (s_loops s) (s_calls s) (s_next s) (s_log s ++ o).
Definition with_controller (c : option nat) (s : store) : store :=
  Store (s_state s) c (s_generation s) (s_loops s) (s_calls s) (s_next s) (s_log s).
Definition with_loops (ls : gmap nat loop) (s : store) : store :=
  Store (s_state s) (s_controller s) (s_generation s) ls (s_calls s) (s_next s) (s_log s).
Definition with_calls (cs : gmap nat call) (s : store) : store :=
  Store (s_state s) (s_controller s) (s_generation s) (s_loops s) cs (s_next s) (s_log s).

(** Listeners are told every state; one that throws stops nothing. *)
Definition setState (st : TaskStoreState) (s : store) : store :=
  Store st (s_controller s) (s_generation s) (s_loops s) (s_calls s) (s_next s) (s_log s ++ [Showed st]).

Definition set_status (x : status) (s : store) : store :=
  setState (State (st_snapshot (s_state s)) x (st_error (s_state s)) (st_transport (s_state s))) s.
Definition set_transport (x : transport) (s : store) : store :=
  setState (State (st_snapshot (s_state s)) (st_status (s_state s)) (st_error (s_state s)) (Some x)) s.

Definition accept (v : view) (s : store) : store :=
  let newer := match st_snapshot (s_state s) with None => true | Some old => v_entityVersion old <? v_entityVersion v end in
  if newer then setState (State (Some v) Connected false None) s else
  match st_status (s_state s) with
  | Reconnecting | Loading => setState (State (st_snapshot (s_state s)) Connected false (st_transport (s_state s))) s
  | _ => s
  end.

Section store.
Context (k : options).

(** ** Loops *)

Definition live (s : store) (l : loop) : bool := negb (l_aborted l) && (l_generation l =? s_generation s).

Definition leaves (i : nat) (s : store) : store := with_loops (delete i (s_loops s)) s.

Definition goes_to (i : nat) (ph : phase) (failures : Z) (l : loop) (s : store) : store :=
  with_loops (<[i := Loop (l_generation l) (l_aborted l) ph failures]> (s_loops s)) s.

(** The heads of the two [while] loops. *)
Definition poll_head (i : nat) (l : loop) (s : store) : store :=
  if live s l then goes_to i (if pauseWhenHidden k then PVisible else PReading) (l_failures l) l s else leaves i s.

Definition run_head (i : nat) (l : loop) (s : store) : store :=
  if live s l then goes_to i RStreaming (l_failures l) l s else leaves i s.

(** The Task is over: the loop ends and the store is stopped. *)
Definition over (i : nat) (s : store) : store := leaves i (set_status Stopped (with_controller None s)).

(** [Math.min(maxBackoffMs, pollIntervalMs * 2 ** Math.min(failures - 1, 10))] *)
Definition backoff (failures : Z) : Z := Z.min (maxBackoffMs k) (pollIntervalMs k * 2 ^ Z.min (failures - 1) 10).

Definition poll_delay (failures : Z) : Z := if failures =? 0 then pollIntervalMs k else backoff failures.

(** [waitUntilVisible] and [wait]: false only after the signal was aborted. *)
Definition visible (i : nat) (ok : bool) (l : loop) (s : store) : option store :=
  match l_phase l, ok || l_aborted l with
  | PVisible, true => Some (if ok then goes_to i PReading (l_failures l) l s else leaves i s)
  | _, _ => None
  end.

(** [poll]'s read settled. *)
Definition poll_read (i : nat) (r : option view) (l : loop) (s : store) : option store :=
  match l_phase l with
  | PReading =>
      Some (if negb (live s l) then leaves i s else
        match r with
        | Some v =>
            let s := accept v s in
            let s := set_transport (match st_transport (s_state s) with Some PollingFallback => PollingFallback | _ => Polling end) s in
            if stopOnTerminal k && TERMINAL (v_state v) then over i s
            else emit [WaitSet (poll_delay 0)] (goes_to i PWaiting 0 l s)
        | None =>
            let s := setState (State (st_snapshot (s_state s)) Reconnecting true (st_transport (s_state s))) s in
            emit [WaitSet (poll_delay (l_failures l + 1))] (goes_to i PWaiting (l_failures l + 1) l s)
        end)
  | _ => None
  end.

Definition waited (i : nat) (ok : bool) (l : loop) (s : store) : option store :=
  match l_phase l, ok || l_aborted l with
  | PWaiting, true => Some (if ok then poll_head i l s else leaves i s)
  | RWaiting, true => Some (if ok then run_head i l s else leaves i s)
  | _, _ => None
  end.

(** An event of the stream, or its end or failure. *)
Inductive stream_event := StreamSnapshot (v : view) | StreamOther | StreamBroken.

Definition streamed (i : nat) (e : stream_event) (l : loop) (s : store) : option store :=
  match l_phase l with
  | RStreaming =>
      Some (if negb (live s l) then leaves i s else
        match e with
        | StreamSnapshot v =>
            let s := accept v s in
            let s := setState (State (st_snapshot (s_state s)) Connected false (Some Live)) s in
            if stopOnTerminal k && TERMINAL (v_state v)
            then leaves i (setState (State (st_snapshot (s_state s)) Stopped (st_error (s_state s)) (Some Live)) (with_controller None s)) else s
        | StreamOther => s
        | StreamBroken =>
            goes_to i RRefreshing (l_failures l + 1) l
              (setState (State (st_snapshot (s_state s)) Reconnecting true (Some PollingFallback)) s)
        end)
  | _ => None
  end.

(** The fallback read settled; nothing looks at the signal or the generation. *)
Definition fallback_read (i : nat) (r : option view) (l : loop) (s : store) : option store :=
  match l_phase l with
  | RRefreshing =>
      Some match r with
      | Some v =>
          let s := set_transport PollingFallback (accept v s) in
          if stopOnTerminal k && TERMINAL (v_state v)
          then leaves i (setState (State (st_snapshot (s_state s)) Stopped (st_error (s_state s)) (Some PollingFallback)) (with_controller None s))
          else emit [WaitSet (backoff (l_failures l))] (goes_to i RWaiting (l_failures l) l s)
      | None => emit [WaitSet (backoff (l_failures l))] (goes_to i RWaiting (l_failures l) l s)
      end
  | _ => None
  end.

(** ** Methods *)

Definition start (s : store) : store :=
  match s_controller s with
  | Some _ => s
  | None =>
      let g := s_generation s + 1 in
      let i := s_next s in
      let st := State (st_snapshot (s_state s)) (if bool_decide (is_Some (st_snapshot (s_state s))) then Connected else Loading) false (st_transport (s_state s)) in
      let s := setState st (Store (s_state s) (Some i) g (s_loops s) (s_calls s) (S i) (s_log s)) in
      (if streams k then run_head else poll_head) i (Loop g false PVisible 0) s
  end.

Definition abort (l : loop) : loop := Loop (l_generation l) true (l_phase l) (l_failures l).

Definition stop (s : store) : store :=
  let ls := match s_controller s with Some i => alter abort i (s_loops s) | None => s_loops s end in
  set_status Stopped (Store (s_state s) None (s_generation s + 1) ls (s_calls s) (s_next s) (s_log s)).

Definition new_call (c : call) (s : store) : store :=
  Store (s_state s) (s_controller s) (s_generation s) (s_loops s) (<[s_next s := c]> (s_calls s)) (S (s_next s)) (s_log s).

Definition refresh (s : store) : store := new_call RefreshCall s.

(** [cancelTask] with the version of [current]. *)
Definition cancel (s : store) : store :=
  match st_snapshot (s_state s) with
  | None => new_call CancelReading s
  | Some v => emit [CancelSent (v_entityVersion v)] (new_call (CancelSending MAX_CANCEL_CONVERGENCE_ATTEMPTS v) s)
  end.

Definition retry (commandId : string) (s : store) : option store :=
  if js_blank commandId then None else
  Some match st_snapshot (s_state s) with
  | None => new_call RetryReading s
  | Some v => emit [RetrySent (v_entityVersion v)] (new_call (RetrySending v) s)
  end.

Definition ends (i : nat) (r : option view) (s : store) : store :=
  let s := with_calls (delete i (s_calls s)) s in
  emit [match r with Some v => Resolved i v | None => Threw i end] s.

Definition awaits (i : nat) (c : call) (s : store) : store := with_calls (<[i := c]> (s_calls s)) s.

(** A read of a call settled. *)
Definition call_read (i : nat) (r : option view) (c : call) (s : store) : option store :=
  match c, r with
  | (RefreshCall | CancelReading | CancelRefreshing _ | RetryReading), None => Some (ends i None s)
  | RefreshCall, Some v => Some (ends i (Some v) (accept v s))
  | CancelReading, Some v =>
      Some (emit [CancelSent (v_entityVersion v)] (awaits i (CancelSending MAX_CANCEL_CONVERGENCE_ATTEMPTS v) (accept v s)))
  | CancelRefreshing tries, Some v =>
      let s := accept v s in
      let current := match st_snapshot (s_state s) with Some x => if v_entityVersion v <? v_entityVersion x then x else v | None => v end in
      Some match tries with
      | O => ends i None s
      | S _ => emit [CancelSent (v_entityVersion current)] (awaits i (CancelSending tries current) s)
      end
  | RetryReading, Some v => Some (emit [RetrySent (v_entityVersion v)] (awaits i (RetrySending v) (accept v s)))
  | _, _ => None
  end.

(** [cancelTask] or [retryTask] settled: with a snapshot, a version conflict or
    another error. *)
Inductive sent_result := SentOk (v : view) | SentConflict | SentFailed.

Definition call_sent (i : nat) (r : sent_result) (c : call) (s : store) : option store :=
  match c, r with
  | (CancelSending _ _ | RetrySending _), SentOk v => Some (ends i (Some v) (accept v s))
  | CancelSending tries _, SentConflict => Some (awaits i (CancelRefreshing (pred tries)) s)
  | CancelSending _ _, SentFailed | RetrySending _, _ => Some (ends i None s)
  | _, _ => None
  end.

(** ** Events *)

Inductive event : Type :=
| Start
| Stop
| Refresh
| Cancel
| Retry (commandId : string)
| Visible (i : nat) (ok : bool)
| PollRead (i : nat) (r : option view)
| Waited (i : nat) (ok : bool)
| Streamed (i : nat) (e : stream_event)
| FallbackRead (i : nat) (r : option view)
| CallRead (i : nat) (r : option view)
| CallSent (i : nat) (r : sent_result).

Definition at_loop (i : nat) (f : loop → store → option store) (s : store) : option store := l ← s_loops s !! i; f l s.
Definition at_call (i : nat) (f : call → store → option store) (s : store) : option store := c ← s_calls s !! i; f c s.

Definition step (ev : event) (s : store) : option store :=
  match ev with
  | Start => Some (start s)
  | Stop => Some (stop s)
  | Refresh => Some (refresh s)
  | Cancel => Some (cancel s)
  | Retry c => Some (default s (retry c s))
  | Visible i ok => at_loop i (visible i ok) s
  | PollRead i r => at_loop i (poll_read i r) s
  | Waited i ok => at_loop i (waited i ok) s
  | Streamed i e => at_loop i (streamed i e) s
  | FallbackRead i r => at_loop i (fallback_read i r) s
  | CallRead i r => at_call i (call_read i r) s
  | CallSent i r => at_call i (call_sent i r) s
  end.

Fixpoint run_store (evs : list event) (s : store) : option store :=
  match evs with
  | [] => Some s
  | ev :: evs => s' ← step ev s; run_store evs s'
  end.
End store.

(** ** [watchTask]

    The snapshots it yields when [getTask] answers with [reads]; an error or the end
    of the list, which stands for an abort, ends it. *)
Fixpoint watchTask (stopOnTerminal : bool) (highestVersion : Z) (reads : list (option view)) : list view :=
  match reads with
  | [] | None :: _ => []
  | Some v :: reads =>
      if highestVersion <? v_entityVersion v then
        v :: if stopOnTerminal && TERMINAL (v_state v) then [] else watchTask stopOnTerminal (v_entityVersion v) reads
      else watchTask stopOnTerminal highestVersion reads
  end.
End TaskStore.
