(* ===== verification/TaskStoreFacts.v ===== *)
(** * What the client-side Task store promises

    The snapshots it shows only ever get newer; at most one loop is live; a stopped
    loop ends; [cancel] sends a bounded number of requests; [watchTask] yields newer
    and newer snapshots; and two ways in which reads that come late mislead it. *)

From stdpp Require Import base gmap strings list sorting.
From Stdlib Require Import ZArith Lia.
From S2P Require Import Prelude TaskModel TaskStore.

Module TaskStoreFacts.
Import TaskStore.

(** ** What is shown *)

(** The snapshot is the same or a newer one. *)
Definition view_le (a b : option view) : Prop :=
  match a, b with
  | None, _ => True
  | Some _, None => False
  | Some a, Some b => a = b ∨ v_entityVersion a < v_entityVersion b
  end.

#[export] Instance view_le_preorder : PreOrder view_le.
Proof. split; [intros [v|]; cbn; auto|]. intros [a|] [b|] [c|]; cbn; try done. intros [->|?] [->|?]; auto. right. lia. Qed.

Definition shows (log : list output) : list (option view) := omap (λ o, match o with Showed st => Some (st_snapshot st) | _ => None end) log.

Definition shown (s : store) : option view := st_snapshot (s_state s).

Record show_inv (s : store) : Prop := {
  sw_sorted : StronglySorted view_le (shows (s_log s));
  sw_last : Forall (λ x, view_le x (shown s)) (shows (s_log s));
  sw_resolved : ∀ i v, Resolved i v ∈ s_log s → ∃ w, shown s = Some w ∧ v_entityVersion v ≤ v_entityVersion w;
}.

(** The store moves on without showing an older snapshot. *)
Definition onward (s s' : store) : Prop := (show_inv s → show_inv s') ∧ view_le (shown s) (shown s').

#[export] Instance onward_preorder : PreOrder onward.
Proof. split; [by intros s; split|]. intros a b c [H1 H2] [H3 H4]. split; [auto|by etrans]. Qed.

Lemma shows_app l1 l2 : shows (l1 ++ l2) = shows l1 ++ shows l2.
Proof. apply omap_app. Qed.

Lemma setState_onward st s : view_le (shown s) (st_snapshot st) → onward s (setState st s).
Proof.
  intros Hle. split; [|done]. intros [Hs Hl Hr]. split; cbn.
  - rewrite shows_app. apply StronglySorted_app_2; [|done|by repeat constructor]. intros x y Hx Hy. cbn in Hy. apply list_elem_of_singleton in Hy as ->.
    rewrite Forall_forall in Hl. etrans; [by apply Hl|done].
  - rewrite shows_app. apply Forall_app. split; [|constructor; [reflexivity|constructor]]. eapply Forall_impl; [exact Hl|]. intros x Hx. etrans; [exact Hx|exact Hle].
  - intros i v. rewrite elem_of_app, list_elem_of_singleton. intros [H|]; [|done]. destruct (Hr _ _ H) as (w & Hw & ?). rewrite Hw in Hle.
    destruct (st_snapshot st) as [w'|] eqn:E; [|done]. exists w'. split; [done|]. destruct Hle as [->|?]; lia.
Qed.

(** A store that shows the same and logs nothing of interest. *)
Definition quiet_output (o : output) : Prop := match o with Showed _ | Resolved _ _ => False | _ => True end.

Lemma quiet_onward s s' o : s_state s' = s_state s → s_log s' = s_log s ++ o → Forall quiet_output o → onward s s'.
Proof.
  intros Hst Hlog Ho. unfold onward, shown. rewrite Hst. split; [|done]. intros [Hs Hl Hr].
  assert (shows o = []) as E. { clear Hlog. induction Ho as [|x o Hx _ IH]; [done|]. destruct x; try done; exact IH. }
  split; rewrite ?Hlog, ?shows_app, ?E, ?app_nil_r; unfold shown in *; rewrite ?Hst; try done.
  intros i v. rewrite elem_of_app. intros [H|H]; [by eapply Hr|]. rewrite Forall_forall in Ho. by destruct (Ho _ H).
Qed.

Lemma accept_onward v s : onward s (accept v s) ∧ ∃ w, shown (accept v s) = Some w ∧ v_entityVersion v ≤ v_entityVersion w.
Proof.
  unfold accept. destruct (st_snapshot (s_state s)) as [old|] eqn:E.
  - destruct (v_entityVersion old <? v_entityVersion v) eqn:L.
    + split; [|exists v; split; [done|lia]]. apply setState_onward. unfold shown. rewrite E. cbn. right. lia.
    + destruct (st_status (s_state s)); (split; [|exists old; split; [unfold shown; cbn; congruence|lia]]);
        first [reflexivity|apply setState_onward; cbn; unfold shown; rewrite E; reflexivity].
  - split; [|exists v; split; [done|lia]]. apply setState_onward. unfold shown. by rewrite E.
Qed.

Lemma ends_onward i v s : (∃ w, shown s = Some w ∧ v_entityVersion v ≤ v_entityVersion w) → onward s (ends i (Some v) s).
Proof.
  intros Hv. split; [|done]. intros [Hs Hl Hr]. unfold ends. split; cbn; rewrite ?shows_app; cbn; rewrite ?app_nil_r; try done.
  intros j x. rewrite elem_of_app, list_elem_of_singleton. intros [H|[= -> ->]]; [by eapply Hr|done].
Qed.

(** The operations a step is made of. *)
Lemma silent_onward s s' : s_state s' = s_state s → s_log s' = s_log s → onward s s'.
Proof. intros H1 H2. apply (quiet_onward _ _ []); [done|by rewrite app_nil_r|constructor]. Qed.

Lemma emit_onward s s' o : quiet_output o → s_state s' = s_state s → s_log s' = s_log s → onward s (emit [o] s').
Proof. intros Ho H1 H2. apply (quiet_onward _ _ [o]); [done|by cbn; rewrite H2|by repeat constructor]. Qed.

Lemma same_onward s x e t : onward s (setState (State (shown s) x e t) s).
Proof. apply setState_onward. reflexivity. Qed.

Lemma accepted_onward v s s' : onward (accept v s) s' → onward s s'.
Proof. intros H. etrans; [apply accept_onward|exact H]. Qed.

Lemma over_onward i x e t s : onward s (leaves i (setState (State (shown s) x e t) (with_controller None s))).
Proof.
  etrans; [apply (silent_onward s (with_controller None s)); done|]. etrans; [apply (same_onward (with_controller None s) x e t)|].
  by apply silent_onward.
Qed.

Section steps.
Context (k : options).
Implicit Types (s : store) (l : loop).

Lemma poll_read_onward i r l s s' : poll_read k i r l s = Some s' → onward s s'.
Proof.
  unfold poll_read. destruct (l_phase l); try done. intros [= <-]. destruct (live s l); cbn [negb]; [|by apply silent_onward].
  destruct r as [v|].
  - apply (accepted_onward v). etrans; [apply same_onward|]. case_match; [apply over_onward|by apply emit_onward].
  - etrans; [apply same_onward|]. by apply emit_onward.
Qed.

Lemma streamed_onward i e l s s' : streamed k i e l s = Some s' → onward s s'.
Proof.
  unfold streamed. destruct (l_phase l); try done. intros [= <-]. destruct (live s l); cbn [negb]; [|by apply silent_onward].
  destruct e as [v| |]; [|reflexivity|].
  - apply (accepted_onward v). etrans; [apply same_onward|]. case_match; [|reflexivity]. apply over_onward.
  - etrans; [apply same_onward|]. by apply silent_onward.
Qed.

Lemma fallback_read_onward i r l s s' : fallback_read k i r l s = Some s' → onward s s'.
Proof.
  unfold fallback_read. destruct (l_phase l); try done. intros [= <-]. destruct r as [v|]; [|by apply emit_onward].
  apply (accepted_onward v). etrans; [apply same_onward|]. case_match; [|by apply emit_onward]. apply over_onward.
Qed.

Lemma threw_onward i s : onward s (ends i None s).
Proof. by apply emit_onward. Qed.

Lemma resolved_onward i v s : onward s (ends i (Some v) (accept v s)).
Proof. apply (accepted_onward v), ends_onward. apply accept_onward. Qed.

Lemma call_read_onward i r c s s' : call_read i r c s = Some s' → onward s s'.
Proof.
  unfold call_read. destruct c, r as [v|]; try done; intros [= <-]; try apply threw_onward; try apply resolved_onward; apply (accepted_onward v).
  - by apply emit_onward.
  - destruct tries; [apply threw_onward|by apply emit_onward].
  - by apply emit_onward.
Qed.

Lemma call_sent_onward i r c s s' : call_sent i r c s = Some s' → onward s s'.
Proof.
  unfold call_sent. destruct c, r as [v| |]; try done; intros [= <-]; try apply threw_onward; try apply resolved_onward. by apply silent_onward.
Qed.

Lemma start_onward s : onward s (start k s).
Proof.
  unfold start. destruct (s_controller s); [reflexivity|]. etrans; [apply (silent_onward s (Store (s_state s) (Some (s_next s)) (s_generation s + 1) (s_loops s) (s_calls s) (S (s_next s)) (s_log s))); done|].
  etrans; [apply same_onward|]. destruct (streams k); unfold run_head, poll_head; case_match; by apply silent_onward.
Qed.

Lemma stop_onward s : onward s (stop s).
Proof. unfold stop. etrans; [|apply same_onward]. by apply silent_onward. Qed.

Lemma at_loop_onward i f s s' : (∀ l, f l s = Some s' → onward s s') → at_loop i f s = Some s' → onward s s'.
Proof. intros Hf. unfold at_loop. destruct (s_loops s !! i) as [l|]; [|done]. apply Hf. Qed.

Lemma step_onward ev s s' : step k ev s = Some s' → onward s s'.
Proof.
  destruct ev; cbn.
  - intros [= <-]. apply start_onward.
  - intros [= <-]. apply stop_onward.
  - intros [= <-]. by apply silent_onward.
  - intros [= <-]. unfold cancel. case_match; [by apply emit_onward|by apply silent_onward].
  - intros [= <-]. unfold retry. case_match; cbn; [reflexivity|]. case_match; [by apply emit_onward|by apply silent_onward].
  - apply at_loop_onward. intros l. unfold visible. repeat case_match; intros; simplify_eq; by apply silent_onward.
  - apply at_loop_onward. intros l. apply poll_read_onward.
  - apply at_loop_onward. intros l. unfold waited, poll_head, run_head. repeat case_match; intros; simplify_eq; by apply silent_onward.
  - apply at_loop_onward. intros l. apply streamed_onward.
  - apply at_loop_onward. intros l. apply fallback_read_onward.
  - unfold at_call. destruct (s_calls s !! i) as [c|]; [|done]. apply call_read_onward.
  - unfold at_call. destruct (s_calls s !! i) as [c|]; [|done]. apply call_sent_onward.
Qed.

Lemma run_onward evs s s' : run_store k evs s = Some s' → onward s s'.
Proof.
  revert s. induction evs as [|ev evs IH]; intros s; cbn; [intros [= <-]; reflexivity|].
  destruct (step k ev s) as [s1|] eqn:E; [|done]. cbn. intros H. etrans; [by eapply step_onward|by apply IH].
Qed.

(** ** Loops *)

(** Every loop has a generation of its own, and numbers are not used twice. *)
Record loop_inv s : Prop := {
  li_fresh : ∀ i, (s_next s ≤ i)%nat → s_loops s !! i = None;
  li_generation : ∀ i l, s_loops s !! i = Some l → l_generation l ≤ s_generation s;
  li_distinct : ∀ i j l l', s_loops s !! i = Some l → s_loops s !! j = Some l' → l_generation l = l_generation l' → i = j;
}.

(** Loops leave, or stay with their generation; their generation is over once it is. *)
Definition same_loops s s' : Prop :=
  s_generation s' = s_generation s ∧ (s_next s ≤ s_next s')%nat ∧
  ∀ i l', s_loops s' !! i = Some l' → ∃ l, s_loops s !! i = Some l ∧ l_generation l = l_generation l' ∧ (l_aborted l = true → l_aborted l' = true).

#[export] Instance same_loops_preorder : PreOrder same_loops.
Proof.
  split; [intros s; split_and!; eauto|]. intros a b c (G1 & N1 & H1) (G2 & N2 & H2). split_and!; [congruence|lia|]. intros i l Hl.
  destruct (H2 i l Hl) as (l2 & Hl2 & E2 & A2). destruct (H1 i l2 Hl2) as (l3 & Hl3 & E3 & A3). exists l3. split_and!; [done|congruence|auto].
Qed.

Lemma same_loops_inv s s' : same_loops s s' → loop_inv s → loop_inv s'.
Proof.
  intros (G & N & H) [Hf Hg Hd]. split.
  - intros i Hi. destruct (s_loops s' !! i) as [l|] eqn:E; [|done]. destruct (H i l E) as (l0 & Hl0 & _). by rewrite Hf in Hl0 by lia.
  - intros i l Hl. destruct (H i l Hl) as (l0 & Hl0 & <- & _). rewrite G. eauto.
  - intros i j l l' Hl Hl' He. destruct (H i l Hl) as (x & Hx & Ex & _), (H j l' Hl') as (y & Hy & Ey & _). eapply Hd; [done..|congruence].
Qed.

Lemma accept_kept v s : s_generation (accept v s) = s_generation s ∧ s_next (accept v s) = s_next s ∧ s_loops (accept v s) = s_loops s ∧ s_calls (accept v s) = s_calls s.
Proof. unfold accept. repeat case_match; done. Qed.

(** The loop an event belongs to. *)
Definition loop_of (ev : event) : option nat :=
  match ev with
  | Visible i _ | PollRead i _ | Waited i _ | Streamed i _ | FallbackRead i _ => Some i
  | _ => None
  end.

(** What an event of loop [i] does to the loops: the loop leaves or goes on, and
    where it goes on it was live, or it was only waiting for something else. *)
Definition loop_step (i : nat) (l : loop) s s' : Prop :=
  s_generation s' = s_generation s ∧ s_next s' = s_next s ∧
  (s_loops s' = delete i (s_loops s) ∨
   s_loops s' = s_loops s ∧ live s l = true ∨
   ∃ ph n, s_loops s' = <[i := Loop (l_generation l) (l_aborted l) ph n]> (s_loops s) ∧
     (live s l = true ∨ l_phase l = PVisible ∧ ph = PReading ∨ l_phase l = RRefreshing ∧ ph = RWaiting)).

Lemma leaves_step i l s s' : s_generation s' = s_generation s → s_next s' = s_next s → s_loops s' = s_loops s → loop_step i l s (leaves i s').
Proof. intros H1 H2 H3. split_and!; [done..|]. left. cbn. by rewrite H3. Qed.

Lemma goes_step i ph n l s s' : s_generation s' = s_generation s → s_next s' = s_next s → s_loops s' = s_loops s →
  (live s l = true ∨ l_phase l = PVisible ∧ ph = PReading ∨ l_phase l = RRefreshing ∧ ph = RWaiting) → loop_step i l s (goes_to i ph n l s').
Proof. intros H1 H2 H3 H. split_and!; [done..|]. right. right. exists ph, n. cbn. by rewrite H3. Qed.

Lemma emit_step i l s s' o : loop_step i l s s' → loop_step i l s (emit o s').
Proof. done. Qed.

Lemma event_loop_step ev i s s' : loop_of ev = Some i → step k ev s = Some s' → ∃ l, s_loops s !! i = Some l ∧ loop_step i l s s'.
Proof.
  intros Hi. assert (∀ f, at_loop i f s = Some s' → (∀ l, f l s = Some s' → loop_step i l s s') → ∃ l, s_loops s !! i = Some l ∧ loop_step i l s s') as Hat.
  { intros f. unfold at_loop. destruct (s_loops s !! i) as [l|]; [|done]. cbn. eauto. }
  pose proof (λ v, accept_kept v s) as Hacc.
  destruct ev; simplify_eq/=; intros H; (eapply Hat; [exact H|]); clear H; intros l.
  - unfold visible. destruct (l_phase l) eqn:P; try done. destruct (ok || l_aborted l); [|done]. intros [= <-].
    destruct ok; [apply goes_step; auto|by apply leaves_step].
  - unfold poll_read. destruct (l_phase l) eqn:P; try done. intros [= <-]. destruct (live s l) eqn:L; [|by apply leaves_step].
    destruct r as [v|]; [|apply emit_step, goes_step; auto].
    destruct (stopOnTerminal k && _); [apply leaves_step; apply Hacc|apply emit_step, goes_step; [apply Hacc..|auto]].
  - unfold waited, poll_head, run_head. destruct (l_phase l) eqn:P, (ok || l_aborted l); try done; intros [= <-];
      (destruct ok; [|by apply leaves_step]); destruct (live s l) eqn:L; try (by apply leaves_step); apply goes_step; auto.
  - unfold streamed. destruct (l_phase l) eqn:P; try done. intros [= <-]. destruct (live s l) eqn:L; [|by apply leaves_step].
    destruct e as [v| |]; [|split_and!; auto|apply goes_step; auto]. destruct (stopOnTerminal k && _); [apply leaves_step; apply Hacc|].
    split_and!; [apply Hacc..|]. right. left. split; [apply Hacc|done].
  - unfold fallback_read. destruct (l_phase l) eqn:P; try done. intros [= <-]. destruct r as [v|]; [|apply emit_step, goes_step; auto].
    destruct (stopOnTerminal k && _); [apply leaves_step; apply Hacc|apply emit_step, goes_step; [apply Hacc..|auto]].
Qed.

Lemma loop_step_same i l s s' : s_loops s !! i = Some l → loop_step i l s s' → same_loops s s'.
Proof.
  intros Hl (G & N & H). split_and!; [done|lia|]. intros j x. destruct H as [->|[[-> _]|(ph & n & -> & _)]]; [|eauto|].
  - rewrite lookup_delete_Some. intros [_ ?]. eauto.
  - rewrite lookup_insert_Some. intros [[<- <-]|[_ ?]]; [|eauto]. by exists l.
Qed.

Lemma other_loops ev s s' : loop_of ev = None → ev ≠ Start → ev ≠ Stop → step k ev s = Some s' →
  s_generation s' = s_generation s ∧ (s_next s ≤ s_next s')%nat ∧ s_loops s' = s_loops s.
Proof.
  intros Hn H1 H2. destruct ev; try done; cbn.
  - intros [= <-]. cbn. auto.
  - intros [= <-]. unfold cancel. case_match; cbn; auto.
  - intros [= <-]. unfold retry. case_match; cbn; [auto|]. case_match; cbn; auto.
  - unfold at_call, call_read. destruct (s_calls s !! i) as [c|]; [|done]. cbn.
    destruct c, r as [v|]; try done; intros [= <-]; try (destruct tries); cbn; auto; destruct (accept_kept v s) as (-> & -> & -> & _); auto.
  - unfold at_call, call_sent. destruct (s_calls s !! i) as [c|]; [|done]. cbn.
    destruct c, r as [v| |]; try done; intros [= <-]; cbn; auto; destruct (accept_kept v s) as (-> & -> & -> & _); auto.
Qed.

(** [start] adds a loop of a new generation; [stop] ends the generation. *)
Lemma start_loops s : start k s = s ∨
  s_generation (start k s) = s_generation s + 1 ∧ s_next (start k s) = S (s_next s) ∧
  ∃ ph, s_loops (start k s) = <[s_next s := Loop (s_generation s + 1) false ph 0]> (s_loops s).
Proof.
  unfold start. destruct (s_controller s); [by left|right]. unfold run_head, poll_head, live.
  destruct (streams k); cbn; rewrite Z.eqb_refl; cbn; eauto.
Qed.

Lemma step_loop_inv ev s s' : loop_inv s → step k ev s = Some s' → loop_inv s'.
Proof.
  intros Hs Hstep. destruct (loop_of ev) as [i|] eqn:L.
  { destruct (event_loop_step ev i s s' L Hstep) as (l & Hl & H). eapply same_loops_inv; [by eapply loop_step_same|done]. }
  assert (ev = Start ∨ ev = Stop ∨ (ev ≠ Start ∧ ev ≠ Stop)) as [->|[->|[H1 H2]]] by (destruct ev; auto); cbn in Hstep.
  - injection Hstep as <-. destruct (start_loops s) as [->|(G & N & ph & H)]; [done|]. destruct Hs as [Hf Hg Hd]. split; rewrite ?G, ?N, H.
    + intros i Hi. rewrite lookup_insert_ne by lia. apply Hf. lia.
    + intros i l. rewrite lookup_insert_Some. intros [[<- <-]|[_ Hl]]; cbn; [lia|]. apply Hg in Hl. lia.
    + intros i j l l'. rewrite !lookup_insert_Some. intros [[<- <-]|[_ Hl]] [[<- <-]|[_ Hl']]; cbn; [done|..|by eapply Hd].
      * apply Hg in Hl'. lia.
      * apply Hg in Hl. lia.
  - injection Hstep as <-. destruct Hs as [Hf Hg Hd]. unfold stop.
    assert (∀ i l, match s_controller s with Some c => alter abort c (s_loops s) | None => s_loops s end !! i = Some l →
      ∃ l0, s_loops s !! i = Some l0 ∧ l_generation l0 = l_generation l) as Ha.
    { intros i l. destruct (s_controller s) as [c|]; [|eauto]. rewrite lookup_alter_Some. intros [(-> & l0 & Hl0 & ->)|[_ ?]]; eauto. }
    split; cbn.
    + intros i Hi. destruct (_ !! i) as [l|] eqn:E; [|done]. destruct (Ha i l E) as (l0 & Hl0 & _). by rewrite Hf in Hl0.
    + intros i l Hl. destruct (Ha i l Hl) as (l0 & Hl0 & <-). apply Hg in Hl0. lia.
    + intros i j l l' Hl Hl' He. destruct (Ha i l Hl) as (x & Hx & Ex), (Ha j l' Hl') as (y & Hy & Ey). eapply Hd; [done..|congruence].
  - destruct (other_loops ev s s' L H1 H2 Hstep) as (G & N & H). eapply same_loops_inv; [|done]. split_and!; [done..|]. rewrite H. eauto.
Qed.

Lemma run_loop_inv evs s s' : loop_inv s → run_store k evs s = Some s' → loop_inv s'.
Proof.
  revert s. induction evs as [|ev evs IH]; intros s Hs; cbn; [by intros [= <-]|].
  destruct (step k ev s) as [s1|] eqn:E; [|done]. cbn. apply IH. by eapply step_loop_inv.
Qed.

(** ** Loops that are over *)

Definition dead s (i : nat) : Prop := ∀ l, s_loops s !! i = Some l → l_aborted l = true ∨ l_generation l < s_generation s.

(** The steps a loop that is not live can still take. *)
Definition steps_left s (i : nat) : nat :=
  match s_loops s !! i with
  | None => 0
  | Some l => match l_phase l with PVisible | RRefreshing => 2 | _ => 1 end
  end.

Lemma dead_not_live s i l : dead s i → s_loops s !! i = Some l → live s l = false.
Proof. intros Hd Hl. unfold live. destruct (Hd l Hl) as [->|H]; [done|]. destruct (l_aborted l); cbn; [done|]. lia. Qed.

Lemma dead_step ev s s' i : (i < s_next s)%nat → dead s i → step k ev s = Some s' →
  dead s' i ∧ (i < s_next s')%nat ∧ (steps_left s' i + (if bool_decide (loop_of ev = Some i) then 1 else 0) ≤ steps_left s i)%nat.
Proof.
  intros Hi Hd Hstep. destruct (loop_of ev) as [j|] eqn:L.
  - destruct (event_loop_step ev j s s' L Hstep) as (l & Hl & (G & N & H)). unfold dead, steps_left. rewrite G, N.
    destruct (decide (j = i)) as [->|Hne].
    + rewrite bool_decide_true by done. rewrite (dead_not_live s i l Hd Hl) in H. rewrite Hl.
      destruct H as [->|[[_ ?]|(ph & n & -> & [?|H])]]; try done.
      * rewrite lookup_delete_eq. split_and!; [done|done|]. destruct (l_phase l); cbn; lia.
      * rewrite lookup_insert_eq. split_and!; [|done|]; [intros x [= <-]; by apply (Hd l)|]. destruct H as [[-> ->]|[-> ->]]; cbn; lia.
    + rewrite bool_decide_false by congruence. assert (s_loops s' !! i = s_loops s !! i) as ->.
      { destruct H as [->|[[-> _]|(ph & n & -> & _)]]; [by rewrite lookup_delete_ne|done|by rewrite lookup_insert_ne]. }
      split_and!; [done|done|lia].
  - rewrite bool_decide_false by done. rewrite Nat.add_0_r.
    assert (ev = Start ∨ ev = Stop ∨ (ev ≠ Start ∧ ev ≠ Stop)) as [->|[->|[H1 H2]]] by (destruct ev; auto); cbn in Hstep.
    + injection Hstep as <-. destruct (start_loops s) as [->|(G & N & ph & H)]; [done|]. unfold dead, steps_left. rewrite G, N, H, lookup_insert_ne by lia.
      split_and!; [|lia|done]. intros l Hl. destruct (Hd l Hl) as [?|?]; [by left|right; lia].
    + injection Hstep as <-. unfold stop, dead, steps_left. cbn. destruct (s_controller s) as [c|].
      * destruct (decide (c = i)) as [->|]; [rewrite lookup_alter_eq|rewrite lookup_alter_ne by done].
        -- destruct (s_loops s !! i) as [l|]; cbn; split_and!; try done. intros x [= <-]. by left.
        -- split_and!; [|done|done]. intros l Hl. destruct (Hd l Hl) as [?|?]; [by left|right; lia].
      * split_and!; [|done|done]. intros l Hl. destruct (Hd l Hl) as [?|?]; [by left|right; lia].
    + destruct (other_loops ev s s' L H1 H2 Hstep) as (G & N & H). unfold dead, steps_left. rewrite G, H. split_and!; [done|lia|done].
Qed.

Lemma run_dead evs s s' i : (i < s_next s)%nat → dead s i → run_store k evs s = Some s' →
  (length (List.filter (λ ev, bool_decide (loop_of ev = Some i)) evs) ≤ steps_left s i)%nat.
Proof.
  revert s. induction evs as [|ev evs IH]; intros s Hi Hd; cbn; [lia|]. destruct (step k ev s) as [s1|] eqn:E; [|done]. cbn. intros H.
  destruct (dead_step ev s s1 i Hi Hd E) as (Hd1 & Hi1 & Hle). specialize (IH s1 Hi1 Hd1 H). destruct (bool_decide (loop_of ev = Some i)); cbn in *; lia.
Qed.
End steps.

Lemma new_store_inv taskId p m t h st k s0 : new_store taskId p m t h st = Some (k, s0) → show_inv s0 ∧ loop_inv s0.
Proof.
  unfold new_store. case_match; [done|]. intros [= _ <-]. split; split; cbn; try done; try (intros; set_solver). constructor.
Qed.

(** C28. The store never goes back. Whatever loops, methods, stops and restarts
    overlap and in whatever order their answers arrive, every state shown to the
    listeners has the snapshot of the one before or a strictly newer one, no method
    resolves with a snapshot newer than the one shown, and at most one loop is live. *)
Theorem store_never_goes_back : ∀ taskId p m t h st k s0 evs s,
  new_store taskId p m t h st = Some (k, s0) → run_store k evs s0 = Some s →
  StronglySorted view_le (shows (s_log s)) ∧
  (∀ i v, Resolved i v ∈ s_log s → ∃ w, shown s = Some w ∧ v_entityVersion v ≤ v_entityVersion w) ∧
  (∀ i j l l', s_loops s !! i = Some l → s_loops s !! j = Some l' → live s l = true → live s l' = true → i = j).
Proof.
  intros taskId p m t h st k s0 evs s Hn Hr. destruct (new_store_inv _ _ _ _ _ _ _ _ Hn) as [Hs Hl].
  destruct (run_onward k evs s0 s Hr) as [Ho _]. destruct (Ho Hs) as [H1 _ H2]. destruct (run_loop_inv k evs s0 s Hl Hr) as [_ _ Hd].
  split_and!; [done..|]. intros i j l l' Hi Hj Li Lj. eapply Hd; [done..|]. unfold live in Li, Lj. apply andb_true_iff in Li as [_ Li], Lj as [_ Lj]. lia.
Qed.

(** After [stop] every loop that was running takes at most two more steps, also when
    the store is started again meanwhile. *)
Theorem stopped_loops_end taskId p m t h st k s0 evs0 s evs s' i :
  new_store taskId p m t h st = Some (k, s0) → run_store k evs0 s0 = Some s → run_store k evs (stop s) = Some s' → (i < s_next s)%nat →
  (length (List.filter (λ ev, bool_decide (loop_of ev = Some i)) evs) ≤ 2)%nat.
Proof.
  intros Hn H0 H Hi. destruct (new_store_inv _ _ _ _ _ _ _ _ Hn) as [_ Hl]. destruct (run_loop_inv k evs0 s0 s Hl H0) as [_ Hg _].
  assert (dead (stop s) i) as Hd.
  { intros l. unfold stop. cbn. destruct (s_controller s) as [c|]; [rewrite lookup_alter_Some|intros Hl1; apply Hg in Hl1; right; lia].
    intros [(-> & l0 & Hl0 & ->)|[_ Hl1]]; [by left|]. apply Hg in Hl1. right. lia. }
  etrans; [by eapply (run_dead k evs (stop s) s')|]. unfold steps_left. repeat case_match; lia.
Qed.

(** ** Reads that come late *)

(** The decision to stop looks at the snapshot that was read, not at the one that
    is shown: when a read that began before a retry is answered after it, its older
    terminal state stops the store although the Task shown is active again, and
    nothing follows it any more. *)
Theorem stale_terminal_read_stops_store : ∀ k s i l v w,
  stopOnTerminal k = true → s_loops s !! i = Some l → l_phase l = PReading → live s l = true →
  shown s = Some w → TERMINAL (v_state w) = false → v_entityVersion v ≤ v_entityVersion w → TERMINAL (v_state v) = true →
  (∀ j x, s_loops s !! j = Some x → live s x = true → j = i) →
  ∃ s', step k (PollRead i (Some v)) s = Some s' ∧ st_status (s_state s') = Stopped ∧ shown s' = Some w ∧ s_controller s' = None ∧
    ∀ j x, s_loops s' !! j = Some x → live s' x = false.
Proof.
  intros k s i l v w Hk Hl Hp Hlive Hw _ Hle Ht Hone. cbn. unfold at_loop. rewrite Hl. cbn. unfold poll_read. rewrite Hp, Hlive, Hk, Ht. cbn.
  assert (shown (accept v s) = Some w) as Hsh.
  { unfold accept. unfold shown in Hw. rewrite Hw. destruct (v_entityVersion w <? v_entityVersion v) eqn:L; [lia|]. destruct (st_status (s_state s)); unfold shown; cbn; done. }
  eexists. split; [done|]. split_and!; [done|exact Hsh|done|]. destruct (accept_kept v s) as (G & _ & Hls & _). cbn. rewrite Hls.
  intros j x. rewrite lookup_delete_Some. intros [Hne Hx]. unfold live. cbn. rewrite G. destruct (live s x) eqn:E; [|exact E].
  by destruct Hne; symmetry; apply (Hone j x).
Qed.

(** A fallback read that is answered after [stop] shows the store as connected
    although no loop follows the Task. *)
Theorem late_fallback_read_unstops k s i l v :
  s_loops s !! i = Some l → l_phase l = RRefreshing → TERMINAL (v_state v) = false →
  match shown s with Some w => v_entityVersion w < v_entityVersion v | None => True end →
  ∃ s', run_store k [FallbackRead i (Some v)] (stop s) = Some s' ∧ st_status (s_state s') = Connected ∧ s_controller s' = None.
Proof.
  intros Hl Hp Ht Hv. cbn. unfold at_loop, stop. cbn.
  assert (∃ b, match s_controller s with Some c => alter abort c (s_loops s) | None => s_loops s end !! i = Some (Loop (l_generation l) b RRefreshing (l_failures l))) as [b ->].
  { destruct l as [g a ph n]. cbn in Hp. subst ph. destruct (s_controller s) as [c|]; [|eauto].
    destruct (decide (c = i)) as [->|]; [rewrite lookup_alter_eq|rewrite lookup_alter_ne by done]; rewrite Hl; cbn; eauto. }
  cbn. rewrite Ht, andb_false_r. eexists. split; [done|]. unfold accept. cbn. unfold shown in Hv.
  destruct (st_snapshot (s_state s)) as [w|]; [|done]. cbn. destruct (v_entityVersion w <? v_entityVersion v) eqn:L; [done|lia].
Qed.

(** ** [watchTask] *)

(** It yields strictly newer and newer snapshots, only what was read, and with
    [stopOnTerminal] nothing after a terminal one. *)
Theorem watch_yields_newer terminal h reads :
  StronglySorted (λ a b, v_entityVersion a < v_entityVersion b) (watchTask terminal h reads) ∧
  Forall (λ v, h < v_entityVersion v ∧ Some v ∈ reads) (watchTask terminal h reads) ∧
  (terminal = true → ∀ v rest pre, watchTask terminal h reads = pre ++ v :: rest → TERMINAL (v_state v) = true → rest = []).
Proof.
  revert h. induction reads as [|[v|] reads IH]; intros h; cbn; [split_and!; try constructor; by intros _ ? ? []|..];
    [|split_and!; try constructor; by intros _ ? ? []].
  destruct (h <? v_entityVersion v) eqn:L; cycle 1.
  { destruct (IH h) as (H1 & H2 & H3). split_and!; [done| |done]. eapply Forall_impl; [exact H2|]. intros x [? ?]. split; [done|by right]. }
  destruct (terminal && TERMINAL (v_state v)) eqn:T.
  - split_and!; [by repeat constructor|constructor; [split; [lia|by left]|constructor]|]. intros _ x rest [|y [|z pre]]; cbn; congruence.
  - destruct (IH (v_entityVersion v)) as (H1 & H2 & H3). split_and!.
    + constructor; [done|]. eapply Forall_impl; [exact H2|]. by intros x [? _].
    + constructor; [split; [lia|by left]|]. eapply Forall_impl; [exact H2|]. intros x [? ?]. split; [lia|by right].
    + intros Ht x rest [|y pre] E Hx; cbn in E; simplify_eq; [by rewrite Hx in T|by eapply H3].
Qed.

(** ** Concrete runs *)

Definition demo_store : store := Store (State None Idle false None) None 0 ∅ ∅ 0 [].
Definition demo_options : options := Options 1000 30000 true true false.

(** A read of the failed Task is on its way when the user retries it. *)
Definition retry_race : list event :=
  [Start; Visible 0 true; PollRead 0 (Some (View 4 Running)); Waited 0 true; Visible 0 true;
   Refresh; CallRead 1 (Some (View 5 Failed)); Retry "again"; CallSent 2 (SentOk (View 6 Queued))].

Lemma store_never_goes_back_witness : ∃ s,
  run_store demo_options (retry_race ++ [PollRead 0 (Some (View 5 Failed))]) demo_store = Some s ∧ StronglySorted view_le (shows (s_log s)).
Proof.
  destruct (run_store demo_options (retry_race ++ [PollRead 0 (Some (View 5 Failed))]) demo_store) as [s|] eqn:E; [|vm_compute in E; discriminate E].
  exists s. split; [reflexivity|]. exact (proj1 (store_never_goes_back "t1" None None None None false demo_options demo_store _ s eq_refl E)).
Defined.

Lemma stale_terminal_read_stops_store_witness : ∃ s s',
  run_store demo_options retry_race demo_store = Some s ∧ shown s = Some (View 6 Queued) ∧
  step demo_options (PollRead 0 (Some (View 5 Failed))) s = Some s' ∧ st_status (s_state s') = Stopped.
Proof.
  destruct (run_store demo_options retry_race demo_store) as [s|] eqn:E; [|vm_compute in E; discriminate E].
  assert (s_loops s = {[0%nat := Loop 1 false PReading 0]} ∧ s_generation s = 1 ∧ shown s = Some (View 6 Queued)) as (HL & HG & HS).
  { vm_compute in E. injection E as <-. split_and!; vm_compute; reflexivity. }
  destruct (stale_terminal_read_stops_store demo_options s 0 (Loop 1 false PReading 0) (View 5 Failed) (View 6 Queued)) as (s' & H1 & H2 & _);
    try reflexivity; try assumption.
  - rewrite HL. apply lookup_singleton_eq.
  - unfold live. rewrite HG. reflexivity.
  - cbn. lia.
  - intros j x Hj _. rewrite HL in Hj. apply lookup_singleton_Some in Hj as [<- _]. reflexivity.
  - exists s, s'. split; [reflexivity|]. split; [exact HS|]. split; [exact H1|exact H2].
Defined.
End TaskStoreFacts.
