(* ===== verification/TaskHttp.v ===== *)
(** * The owner-facing HTTP surface

    [createTaskRequestHandler] of [sdks/node/src/tasks/http.ts] with its helpers, the
    paths [ApplicationTaskClient] sends, [cancelWithoutFence], and the capability
    endpoint of [tasks/waitpoint-http.ts].

    The Task client, the upload service and the callbacks of the host application are
    one parameter, [serve], which answers a call; every call is recorded with its
    answer. The handler is generic in [decodeURIComponent] and [Number]; the codec and the
    path of a parsed URL are defined with the client. A string is its UTF-8 bytes. *)

From stdpp Require Import base gmap strings list pretty.
From Stdlib Require Import Ascii ZArith Lia.
From S2P Require Import Prelude TaskModel.

#[local] Open Scope act_scope.

Module TaskHttp.

(** ** Paths *)

Definition slash : ascii := "/".

(** [replace(/\/+/g, '/')] *)
Fixpoint collapse_slashes (s : string) : string :=
  match s with
  | EmptyString => EmptyString
  | String a rest =>
      let rest' := collapse_slashes rest in
      match rest' with
      | String b _ => if Ascii.eqb a slash && Ascii.eqb b slash then rest' else String a rest'
      | EmptyString => String a rest'
      end
  end.

(** [replace(/\/$/, '')] *)
Fixpoint drop_last_slash (s : string) : string :=
  match s with
  | EmptyString => EmptyString
  | String a EmptyString => if Ascii.eqb a slash then EmptyString else s
  | String a rest => String a (drop_last_slash rest)
  end.

Definition normalizeBasePath (value : string) : string :=
  let normalized := drop_last_slash (collapse_slashes (String slash value)) in
  if bool_decide (normalized = "") then "/tasks" else normalized.

Fixpoint split_slash (s : string) : list string :=
  match s with
  | EmptyString => [EmptyString]
  | String a rest =>
      let parts := split_slash rest in
      if Ascii.eqb a slash then EmptyString :: parts
      else match parts with p :: ps => String a p :: ps | [] => [String a EmptyString] end
  end.

Fixpoint strip_prefix (p s : string) : option string :=
  match p, s with
  | EmptyString, _ => Some s
  | String a p, String b s => if Ascii.eqb a b then strip_prefix p s else None
  | _, _ => None
  end.

Definition starts_with (p s : string) : bool := bool_decide (is_Some (strip_prefix p s)).

Fixpoint all_digits (s : string) : bool :=
  match s with
  | EmptyString => true
  | String a s => (Ascii.leb "0" a && Ascii.leb a "9") && all_digits s
  end.

(** ** Requests and answers *)

(** A property of the body that is a number where it is used. *)
Inductive field := Absent | IntegerField (z : Z) | OtherField.

(** The JSON of a request: none, [null], or its properties. *)
Inductive request_body := InvalidBody | NullBody | ObjectBody (expectedVersion : field) (commandId : option string).

Record request := Request { rq_method : string; rq_pathname : string; rq_query : gmap string string; rq_body : request_body }.

Inductive action := TaskRead | TaskWrite | TaskCancel | TaskRetry | WaitpointWrite | ArtifactRead | ArtifactWrite.

Definition taskAuthorizationAction (method : string) (relative : list string) : action :=
  if bool_decide (relative !! 0%nat = Some "_uploads") then ArtifactWrite else
  if bool_decide (method = "GET") then
    if bool_decide (relative !! 1%nat = Some "artifacts") || bool_decide (relative !! 3%nat = Some "download") then ArtifactRead else TaskRead
  else
  if bool_decide (relative !! 1%nat = Some "cancel") then TaskCancel else
  if bool_decide (relative !! 1%nat = Some "retry") then TaskRetry else
  if bool_decide (relative !! 1%nat = Some "waitpoints") then WaitpointWrite else
  TaskWrite.

(** ** Routes

    The conditions of the handler in their order; the bodies follow. *)
Inductive upload_route := UploadCreate | UploadNone | UploadResume (id : string) | UploadSign (id part : string)
  | UploadRecord (id : string) | UploadComplete (id : string) | UploadAbort (id : string) | UploadOther (id : string).

Inductive route : Type :=
| RList | REvents | RHealth | RCapabilities | RRisk | RVerified | RWaiting
| RUpload (u : upload_route)
| RNoTask
| RTask (id : string) | RTaskEvents (id : string) | RSummary (id : string) | RFailedItems (id : string) | RManifest (id : string)
| RWaitpoints (id : string) | RExecutionsPage (id : string) | RExecutions (id : string) | RCreateWaitpoint (id : string)
| RWaitpoint (id waitpointId : string) | RVerifications (id : string) | RArtifacts (id : string)
| RRefreshArtifact (id artifactId : string) | RDownloadArtifact (id artifactId : string)
| RResult (id : string) | RCancel (id : string) | RRetry (id : string)
| RUnknown.

Definition upload_route_of (method : string) (relative : list string) : upload_route :=
  let get := bool_decide (method = "GET") in
  let post := bool_decide (method = "POST") in
  match relative with
  | [_] => if post then UploadCreate else UploadNone
  | _ :: id :: rest =>
      if bool_decide (id = "") then UploadNone else
      match rest with
      | [] => if get then UploadResume id else UploadOther id
      | [x; y] => if post && bool_decide (x = "parts") && (negb (bool_decide (y = "")) && all_digits y) then UploadSign id y else UploadOther id
      | [x] =>
          if post && bool_decide (x = "parts") then UploadRecord id else
          if post && bool_decide (x = "complete") then UploadComplete id else
          if post && bool_decide (x = "abort") then UploadAbort id else UploadOther id
      | _ => UploadOther id
      end
  | [] => UploadNone
  end.

Definition route_of (method : string) (relative : list string) : route :=
  let get := bool_decide (method = "GET") in
  let post := bool_decide (method = "POST") in
  let special := match relative with
    | [] => if get then Some RList else None
    | [x] =>
        if negb get then None else
        if bool_decide (x = "_events") then Some REvents else
        if bool_decide (x = "_health") then Some RHealth else
        if bool_decide (x = "_capabilities") then Some RCapabilities else
        if bool_decide (x = "_risk") then Some RRisk else
        if bool_decide (x = "_verified") then Some RVerified else
        if bool_decide (x = "_waitpoints") then Some RWaiting else None
    | _ => None
    end in
  match special with
  | Some r => r
  | None =>
      match relative with
      | [] => RNoTask
      | id :: rest =>
          if bool_decide (id = "_uploads") then RUpload (upload_route_of method relative) else
          if bool_decide (id = "") then RNoTask else
          match rest with
          | [] => if get then RTask id else RUnknown
          | [x] =>
              if get && bool_decide (x = "events") then RTaskEvents id else
              if get && bool_decide (x = "summary") then RSummary id else
              if get && bool_decide (x = "failed-items") then RFailedItems id else
              if get && bool_decide (x = "manifest") then RManifest id else
              if get && bool_decide (x = "waitpoints") then RWaitpoints id else
              if get && bool_decide (x = "executions") then RExecutions id else
              if post && bool_decide (x = "waitpoints") then RCreateWaitpoint id else
              if get && bool_decide (x = "verifications") then RVerifications id else
              if get && bool_decide (x = "artifacts") then RArtifacts id else
              if get && bool_decide (x = "result") then RResult id else
              if post && bool_decide (x = "cancel") then RCancel id else
              if post && bool_decide (x = "retry") then RRetry id else
              RUnknown
          | [x; y] =>
              if get && bool_decide (x = "executions") && bool_decide (y = "page") then RExecutionsPage id else
              if bool_decide (x = "waitpoints") then RWaitpoint id y else RUnknown
          | [x; y; z] =>
              if post && bool_decide (x = "artifacts") && bool_decide (z = "refresh") then RRefreshArtifact id y else
              if get && bool_decide (x = "artifacts") && bool_decide (z = "download") then RDownloadArtifact id y else
              RUnknown
          | _ => RUnknown
          end
      end
  end.

(** ** Calls of the handler *)

(** [CancelTask], [RetryTask] and [Resolve...] are callbacks of the host; a task they
    are given is one that was read. *)
Inductive http_call (V : Type) : Type :=
| Authorize (owner tenant : string) (a : action) (taskId : option string)
| Health
| ListTasks (owner : string) (limit offset : Z) (tenant : string)
| ListTasksByState (owner tenant : string) (idleForMs limit : Z)
| ListRecentlyVerified (owner : string) (limit : Z) (tenant : string)
| ListWaitingWaitpoints (owner : string) (limit : Z) (tenant : string)
| GetTask (id owner tenant : string)
| GetTaskSummary (id owner tenant : string)
| GetExecutionResults (id owner tenant : string)
| ListWaitpoints (id owner : string) (limit : Z) (tenant : string)
| ListExecutions (id owner cursor : string) (limit : Z) (tenant : string)
| CreateWaitpoint (id : string)
| GetWaitpoint (id owner tenant : string)
| ResolveWaitpoint (id owner tenant : string)
| ListVerifications (id owner : string) (limit : Z) (tenant : string)
| ListArtifacts (id owner : string) (limit : Z) (tenant : string)
| GetArtifact (id owner tenant : string)
| RefreshArtifact (id : string)
| GetResult (id owner tenant : string)
| RequestCancellation (id owner : string) (expectedVersion : Z) (tenant : string)
| Upload (u : upload_route) (owner tenant : string) (expectedVersion : field)
| ResolveResult (owner tenant : string)
| ResolveArtifact (owner tenant : string)
| CancelTask (task : V) (owner : string) (expectedVersion : option Z)
| RetryTask (task : V) (owner commandId : string)
| OpenStream (taskId : option string) (owner tenant : string).
Arguments Authorize {V}.
Arguments Health {V}.
Arguments ListTasks {V}.
Arguments ListTasksByState {V}.
Arguments ListRecentlyVerified {V}.
Arguments ListWaitingWaitpoints {V}.
Arguments GetTask {V}.
Arguments GetTaskSummary {V}.
Arguments GetExecutionResults {V}.
Arguments ListWaitpoints {V}.
Arguments ListExecutions {V}.
Arguments CreateWaitpoint {V}.
Arguments GetWaitpoint {V}.
Arguments ResolveWaitpoint {V}.
Arguments ListVerifications {V}.
Arguments ListArtifacts {V}.
Arguments GetArtifact {V}.
Arguments RefreshArtifact {V}.
Arguments GetResult {V}.
Arguments RequestCancellation {V}.
Arguments Upload {V}.
Arguments ResolveResult {V}.
Arguments ResolveArtifact {V}.
Arguments CancelTask {V}.
Arguments RetryTask {V}.
Arguments OpenStream {V}.

(** A [RhinoQError] with its code and status, or any other error. *)
Inductive http_error := RhinoQError (code : string) (status : option Z) | OtherError.

Record options := Options {
  o_basePath : option string; o_tenantFromRequest : bool; o_authorize : bool; o_requireTenantAuthorization : bool;
  o_cancel : bool; o_cancelTask : bool; o_retryTask : bool; o_resolveResult : bool; o_resolveArtifact : bool;
  o_health : bool; o_risk : option (Z * Z); o_stream : option (option Z); o_uploads : bool;
}.

(** [createTaskRequestHandler] throws on these options. *)
Definition invalid_options (o : options) : bool :=
  (o_requireTenantAuthorization o && negb (o_authorize o))
  || match o_risk o with Some (atRisk, stuck) => (atRisk <? 1000) || (stuck <=? atRisk) | None => false end
  || match o_stream o with Some (Some m) => (m <? 1) || (100000 <? m) | _ => false end.

Definition maxStreams (o : options) : Z := match o_stream o with None => 0 | Some m => default 1000 m end.

Section handler.
Context {V W : Type}.
(** The answers' properties the handler reads, and whether a hook said yes. *)
Context (v_taskId : V → string) (v_version : V → Z) (v_state : V → task_state) (v_true : V → bool).
Context (serve : http_call V → W → result http_error V * W).
Context (decodeURIComponent : string → option string) (toInteger : string → option Z).
(** [ownerFromRequest] and [tenantFromRequest] of the host; they may throw. *)
Context (ownerFromRequest tenantFromRequest : request → result http_error (option string)).

Record http_world := HttpWorld { hw_store : W; hw_streams : Z; hw_log : list (http_call V * result http_error V) }.

(** The JSON of a response: an answer, an error code (with the Task), or a constant. *)
Inductive reply := Answer (v : V) | Code (code : string) (task : option V) | Constant.

Definition http A : Type := act http_world http_error A.

Definition ask (c : http_call V) : http V :=
  λ w, let '(r, st) := serve c (hw_store w) in (r, HttpWorld st (hw_streams w) (hw_log w ++ [(c, r)])).

Definition sends (c : http_call V) (status : Z) : http (Z * reply) := let+ v := ask c in aret (status, Answer v).

Definition refuse (status : Z) (code : string) : http (Z * reply) := aret (status, Code code None).

Definition integerQuery (rq : request) (name : string) (fallback : Z) : Z :=
  match rq_query rq !! name with None => fallback | Some raw => default fallback (toInteger raw) end.

(** A listing whose limit must be 1..100. *)
Definition limited (rq : request) (fallback : Z) (k : Z → http (Z * reply)) : http (Z * reply) :=
  let limit := integerQuery rq "limit" fallback in
  if (limit <? 1) || (100 <? limit) then refuse 400 "RHINOQ_INVALID_REQUEST" else k limit.

(** [request.json()], and its properties; [null] has none, which is a [TypeError]. *)
Definition read_json (rq : request) : http request_body :=
  match rq_body rq with InvalidBody => athrow OtherError | b => aret b end.

Definition properties (b : request_body) : http (field * option string) :=
  match b with ObjectBody v c => aret (v, c) | NullBody => athrow OtherError | InvalidBody => aret (Absent, None) end.

Definition openStream (o : options) (c : http_call V) : http (Z * reply) :=
  λ w, if maxStreams o <=? hw_streams w then (Ok (503, Code "RHINOQ_STREAM_CAPACITY" None), w)
       else (Ok (200, Constant), HttpWorld (hw_store w) (hw_streams w + 1) (hw_log w ++ [(c, Err OtherError)])).

(** The stream's [closed] callback; it counts once. *)
Definition stream_closed (w : http_world) : http_world := HttpWorld (hw_store w) (hw_streams w - 1) (hw_log w).

(** [cancelWithoutFence]: at most five tries. *)
Fixpoint cancelWithoutFence (tries : nat) (id owner tenant : string) : http V :=
  let+ current := ask (GetTask id owner tenant) in
  if bool_decide (v_state current = CancelRequested) then aret current else
  atry (ask (RequestCancellation id owner (v_version current) tenant)) (λ e,
    match e, tries with
    | RhinoQError code _, S tries => if bool_decide (code = "RHINOQ_VERSION_CONFLICT") then cancelWithoutFence tries id owner tenant else athrow e
    | _, _ => athrow e
    end).

Definition serve_upload (o : options) (owner tenant : string) (rq : request) (u : upload_route) : http (Z * reply) :=
  if negb (o_uploads o) then refuse 501 "RHINOQ_ARTIFACT_UPLOAD_NOT_CONFIGURED" else
  match u with
  | UploadCreate => read_json rq ;+ sends (Upload u owner tenant Absent) 201
  | UploadNone | UploadOther _ => refuse 404 "RHINOQ_NOT_FOUND"
  | UploadResume _ | UploadSign _ _ => sends (Upload u owner tenant Absent) 200
  | UploadRecord _ | UploadComplete _ | UploadAbort _ => let+ b := properties (rq_body rq) in sends (Upload u owner tenant b.1) 200
  end.

Definition serve_cancel (o : options) (owner tenant : string) (rq : request) (id : string) : http (Z * reply) :=
  if negb (o_cancel o) then refuse 409 "RHINOQ_UNSUPPORTED" else
  let+ b := properties (rq_body rq) in
  match b.1 with
  | OtherField => refuse 400 "RHINOQ_INVALID_REQUEST"
  | IntegerField z => if z <=? 0 then refuse 400 "RHINOQ_INVALID_REQUEST" else
      if o_cancelTask o
      then let+ task := ask (GetTask id owner tenant) in sends (CancelTask task owner (Some z)) 200
      else sends (RequestCancellation id owner z tenant) 200
  | Absent =>
      if o_cancelTask o
      then let+ task := ask (GetTask id owner tenant) in sends (CancelTask task owner None) 200
      else let+ v := cancelWithoutFence 4 id owner tenant in aret (200, Answer v)
  end.

Definition serve_retry (o : options) (owner tenant : string) (rq : request) (id : string) : http (Z * reply) :=
  if negb (o_retryTask o) then refuse 501 "RHINOQ_RETRY_NOT_CONFIGURED" else
  let+ b := read_json rq in
  let+ b := properties b in
  match b.1, b.2 with
  | IntegerField z, Some command =>
      if (z <=? 0) || js_blank command then refuse 400 "RHINOQ_INVALID_REQUEST" else
      let+ task := ask (GetTask id owner tenant) in
      if negb (v_version task =? z) then aret (409, Code "RHINOQ_VERSION_CONFLICT" (Some task)) else
      if negb (bool_decide (v_state task = Failed)) && negb (bool_decide (v_state task = Cancelled))
      then aret (409, Code "RHINOQ_TASK_NOT_RETRYABLE" (Some task)) else
      sends (RetryTask task owner (js_trim command)) 200
  | _, _ => refuse 400 "RHINOQ_INVALID_REQUEST"
  end.

(** The bodies of the routes. *)
Definition serve_route (o : options) (owner tenant : string) (rq : request) (r : route) : http (Z * reply) :=
  match r with
  | RList => sends (ListTasks owner (integerQuery rq "limit" 50) (integerQuery rq "offset" 0) tenant) 200
  | REvents => if bool_decide (o_stream o = None) then refuse 404 "RHINOQ_STREAM_DISABLED" else openStream o (OpenStream None owner tenant)
  | RHealth => if o_health o then sends Health 200 else aret (200, Constant)
  | RCapabilities => aret (200, Constant)
  | RRisk =>
      match o_risk o with
      | None => refuse 404 "RHINOQ_RISK_POLICY_NOT_CONFIGURED"
      | Some (atRisk, _) => limited rq 50 (λ limit, sends (ListTasksByState owner tenant atRisk limit) 200)
      end
  | RVerified => limited rq 20 (λ limit, sends (ListRecentlyVerified owner limit tenant) 200)
  | RWaiting => limited rq 50 (λ limit, sends (ListWaitingWaitpoints owner limit tenant) 200)
  | RUpload u => serve_upload o owner tenant rq u
  | RNoTask | RUnknown => refuse 404 "RHINOQ_NOT_FOUND"
  | RTask id | RFailedItems id => sends (GetTask id owner tenant) 200
  | RTaskEvents id =>
      if bool_decide (o_stream o = None) then refuse 404 "RHINOQ_STREAM_DISABLED" else
      ask (GetTaskSummary id owner tenant) ;+ openStream o (OpenStream (Some id) owner tenant)
  | RSummary id => sends (GetTaskSummary id owner tenant) 200
  | RManifest id => ask (GetTask id owner tenant) ;+ sends (GetExecutionResults id owner tenant) 200
  | RWaitpoints id => limited rq 100 (λ limit, sends (ListWaitpoints id owner limit tenant) 200)
  | RExecutionsPage id =>
      sends (ListExecutions id owner (default "" (rq_query rq !! "cursor")) (integerQuery rq "limit" 100) tenant) 200
  | RExecutions id => sends (GetExecutionResults id owner tenant) 200
  | RCreateWaitpoint id => ask (GetTaskSummary id owner tenant) ;+ read_json rq ;+ sends (CreateWaitpoint id) 201
  | RWaitpoint id waitpointId =>
      let+ waitpoint := ask (GetWaitpoint waitpointId owner tenant) in
      if negb (bool_decide (v_taskId waitpoint = id)) then refuse 404 "RHINOQ_WAITPOINT_NOT_FOUND" else
      if bool_decide (rq_method rq = "GET") then aret (200, Answer waitpoint) else
      if bool_decide (rq_method rq = "POST") then read_json rq ;+ sends (ResolveWaitpoint waitpointId owner tenant) 200 else
      refuse 404 "RHINOQ_NOT_FOUND"
  | RVerifications id => limited rq 50 (λ limit, sends (ListVerifications id owner limit tenant) 200)
  | RArtifacts id => limited rq 100 (λ limit, sends (ListArtifacts id owner limit tenant) 200)
  | RRefreshArtifact id artifactId =>
      let+ artifact := ask (GetArtifact artifactId owner tenant) in
      if negb (bool_decide (v_taskId artifact = id)) then refuse 404 "RHINOQ_ARTIFACT_NOT_FOUND" else
      sends (RefreshArtifact artifactId) 200
  | RDownloadArtifact id artifactId =>
      if negb (o_resolveArtifact o) then refuse 501 "RHINOQ_ARTIFACT_DOWNLOAD_NOT_CONFIGURED" else
      let+ artifact := ask (GetArtifact artifactId owner tenant) in
      if negb (bool_decide (v_taskId artifact = id)) then refuse 404 "RHINOQ_ARTIFACT_NOT_FOUND" else
      sends (ResolveArtifact owner tenant) 200
  | RResult id =>
      if negb (o_resolveResult o) then refuse 501 "RHINOQ_RESULT_NOT_CONFIGURED" else
      ask (GetResult id owner tenant) ;+ sends (ResolveResult owner tenant) 200
  | RCancel id => serve_cancel o owner tenant rq id
  | RRetry id => serve_retry o owner tenant rq id
  end.

(** [routeParts]: [None] where a part is not well-formed (a [URIError]), [Some None]
    outside the base path. *)
Definition routeParts (pathname basePath : string) : option (option (list string)) :=
  if bool_decide (pathname = basePath) then Some (Some []) else
  match strip_prefix (basePath ++ "/")%string pathname with
  | None => Some None
  | Some rest => Some <$> mapM decodeURIComponent (split_slash rest)
  end.

(** The Task named to the policy hook. *)
Definition policy_task (relative : list string) : option string :=
  match relative !! 0%nat with
  | Some id => if bool_decide (id = "") || starts_with "_" id then None else Some id
  | None => None
  end.

Definition handle_request (o : options) (rq : request) : http (Z * reply) :=
  match ownerFromRequest rq with
  | Err e => athrow e
  | Ok None => refuse 401 "RHINOQ_UNAUTHORIZED"
  | Ok (Some owner) =>
      if js_blank owner then refuse 401 "RHINOQ_UNAUTHORIZED" else
      match if o_tenantFromRequest o then tenantFromRequest rq else Ok (Some "default") with
      | Err e => athrow e
      | Ok None => refuse 401 "RHINOQ_UNAUTHORIZED"
      | Ok (Some tenant) =>
          if js_blank tenant then refuse 401 "RHINOQ_UNAUTHORIZED" else
          match routeParts (rq_pathname rq) (normalizeBasePath (default "/tasks" (o_basePath o))) with
          | None => athrow OtherError
          | Some None => refuse 404 "RHINOQ_NOT_FOUND"
          | Some (Some relative) =>
              let+ allowed := if o_authorize o
                then let+ v := ask (Authorize owner tenant (taskAuthorizationAction (rq_method rq) relative) (policy_task relative)) in aret (v_true v)
                else aret true in
              if negb allowed then refuse 403 "RHINOQ_FORBIDDEN" else
              serve_route o owner tenant rq (route_of (rq_method rq) relative)
          end
      end
  end.

(** The [catch] block: the handler always responds. *)
Definition respond (o : options) (rq : request) : http (Z * reply) :=
  atry (handle_request o rq) (λ e,
    match e with
    | RhinoQError code status => aret (default 500 status, Code code None)
    | OtherError => refuse 500 "RHINOQ_INTERNAL"
    end).
End handler.

(** ** [ApplicationTaskClient]

    The method and the path below the base URL of each request, without its query.
    [None] is the [TypeError] of a blank identifier. *)
Inductive client_call : Type :=
| CGetTask (id : string) | CGetTaskSummary (id : string) | CListTaskExecutions (id : string) | CListTasks | CStreamTask (id : string) | CStreamTasks
| CCancelTask (id : string) | CRetryTask (id : string) | CHealth | CCapabilities | CGetTaskResult (id : string) | CGetTaskExecutionResults (id : string)
| CListTaskWaitpoints (id : string) | CListWaitingTaskWaitpoints | CListRecentlyVerified | CListTaskVerifications (id : string)
| CListTaskArtifacts (id : string) | CGetTaskArtifactDownload (id artifactId : string) | CRefreshTaskArtifact (id artifactId : string)
| CCreateArtifactUpload | CResumeArtifactUpload (id : string) | CSignArtifactUploadPart (id : string) (partNumber : N) | CRecordArtifactUploadPart (id : string)
| CCompleteArtifactUpload (id : string) | CAbortArtifactUpload (id : string)
| CListAtRiskTasks | CGetTaskGroupManifest (id : string) | CDownloadFailedTaskItems (id : string)
| CCreateTaskWaitpoint (id : string) | CGetTaskWaitpoint (id waitpointId : string) | CResolveTaskWaitpoint (id waitpointId : string).

(** What [encodeURIComponent] leaves alone. *)
Definition unreserved (a : ascii) : bool :=
  (Ascii.leb "a" a && Ascii.leb a "z") || (Ascii.leb "A" a && Ascii.leb a "Z") || (Ascii.leb "0" a && Ascii.leb a "9")
  || existsb (Ascii.eqb a) ["-"; "_"; "."; "!"; "~"; "*"; "'"; "("; ")"]%char.

Definition hex_char (n : nat) : ascii := ascii_of_nat (if (n <? 10)%nat then 48 + n else 55 + n).

Fixpoint encodeURIComponent (s : string) : string :=
  match s with
  | EmptyString => EmptyString
  | String a s =>
      let n := nat_of_ascii a in
      if unreserved a then String a (encodeURIComponent s)
      else String "%" (String (hex_char (n / 16)) (String (hex_char (n mod 16)) (encodeURIComponent s)))
  end.

Definition hex_value (a : ascii) : option nat :=
  let n := nat_of_ascii a in
  if (48 <=? n)%nat && (n <=? 57)%nat then Some (n - 48)%nat else
  if (65 <=? n)%nat && (n <=? 70)%nat then Some (n - 55)%nat else
  if (97 <=? n)%nat && (n <=? 102)%nat then Some (n - 87)%nat else None.

Fixpoint percent_decode (s : string) : option string :=
  match s with
  | EmptyString => Some EmptyString
  | String a s1 =>
      if Ascii.eqb a "%" then
        match s1 with
        | String h (String l s2) => x ← hex_value h; y ← hex_value l; String (ascii_of_nat (16 * x + y)) <$> percent_decode s2
        | _ => None
        end
      else String a <$> percent_decode s1
  end.

(** Well-formed UTF-8: no overlong form, no surrogate, nothing above U+10FFFF. *)
Definition byte_within (lo hi : nat) (a : ascii) : bool := (lo <=? nat_of_ascii a)%nat && (nat_of_ascii a <=? hi)%nat.
Definition second_byte (n : nat) : ascii → bool :=
  match n with 224 => byte_within 160 191 | 237 => byte_within 128 159 | 240 => byte_within 144 191 | 244 => byte_within 128 143 | _ => byte_within 128 191 end%nat.

Fixpoint utf8 (s : string) : bool :=
  match s with
  | EmptyString => true
  | String a s1 =>
      if byte_within 0 127 a then utf8 s1 else
      match s1 with
      | EmptyString => false
      | String b s2 =>
          if byte_within 194 223 a then byte_within 128 191 b && utf8 s2 else
          match s2 with
          | EmptyString => false
          | String c s3 =>
              if byte_within 224 239 a then second_byte (nat_of_ascii a) b && byte_within 128 191 c && utf8 s3 else
              match s3 with
              | EmptyString => false
              | String d s4 => byte_within 240 244 a && second_byte (nat_of_ascii a) b && byte_within 128 191 c && byte_within 128 191 d && utf8 s4
              end
          end
      end
  end.

(** [None] is a [URIError]. *)
Definition decodeURIComponent (s : string) : option string := b ← percent_decode s; if utf8 b then Some b else None.

Definition path (value : string) : option string := if js_blank value then None else Some (encodeURIComponent value).

Definition under (parts : list string) : string := String.concat "" ((λ p, String slash p) <$> parts).

Definition client_request (c : client_call) : option (string * string) :=
  match c with
  | CGetTask id => x ← path id; Some ("GET", under [x])
  | CGetTaskSummary id => x ← path id; Some ("GET", under [x; "summary"])
  | CListTaskExecutions id => x ← path id; Some ("GET", under [x; "executions"; "page"])
  | CListTasks => Some ("GET", "")
  | CStreamTask id => x ← path id; Some ("GET", under [x; "events"])
  | CStreamTasks => Some ("GET", under ["_events"])
  | CCancelTask id => x ← path id; Some ("POST", under [x; "cancel"])
  | CRetryTask id => x ← path id; Some ("POST", under [x; "retry"])
  | CHealth => Some ("GET", under ["_health"])
  | CCapabilities => Some ("GET", under ["_capabilities"])
  | CGetTaskResult id => x ← path id; Some ("GET", under [x; "result"])
  | CGetTaskExecutionResults id => x ← path id; Some ("GET", under [x; "executions"])
  | CListTaskWaitpoints id => x ← path id; Some ("GET", under [x; "waitpoints"])
  | CListWaitingTaskWaitpoints => Some ("GET", under ["_waitpoints"])
  | CListRecentlyVerified => Some ("GET", under ["_verified"])
  | CListTaskVerifications id => x ← path id; Some ("GET", under [x; "verifications"])
  | CListTaskArtifacts id => x ← path id; Some ("GET", under [x; "artifacts"])
  | CGetTaskArtifactDownload id a => x ← path id; y ← path a; Some ("GET", under [x; "artifacts"; y; "download"])
  | CRefreshTaskArtifact id a => x ← path id; y ← path a; Some ("POST", under [x; "artifacts"; y; "refresh"])
  | CCreateArtifactUpload => Some ("POST", under ["_uploads"])
  | CResumeArtifactUpload id => x ← path id; Some ("GET", under ["_uploads"; x])
  | CSignArtifactUploadPart id n => x ← path id; Some ("POST", under ["_uploads"; x; "parts"; pretty n])
  | CRecordArtifactUploadPart id => x ← path id; Some ("POST", under ["_uploads"; x; "parts"])
  | CCompleteArtifactUpload id => x ← path id; Some ("POST", under ["_uploads"; x; "complete"])
  | CAbortArtifactUpload id => x ← path id; Some ("POST", under ["_uploads"; x; "abort"])
  | CListAtRiskTasks => Some ("GET", under ["_risk"])
  | CGetTaskGroupManifest id => x ← path id; Some ("GET", under [x; "manifest"])
  | CDownloadFailedTaskItems id => x ← path id; Some ("GET", under [x; "failed-items"])
  | CCreateTaskWaitpoint id => x ← path id; Some ("POST", under [x; "waitpoints"])
  | CGetTaskWaitpoint id w => x ← path id; y ← path w; Some ("GET", under [x; "waitpoints"; y])
  | CResolveTaskWaitpoint id w => x ← path id; y ← path w; Some ("POST", under [x; "waitpoints"; y])
  end.

(** ** [new URL(request.url).pathname]

    The path of an absolute http URL as the parser leaves it: dot segments, also spelled
    with [%2e], are resolved. The other characters the parser rewrites are ones that
    [encodeURIComponent] does not let through. *)

Fixpoint undot (s : string) : string :=
  match s with
  | EmptyString => EmptyString
  | String a s1 =>
      match s1 with
      | String b (String c s2) =>
          if Ascii.eqb a "%" && Ascii.eqb b "2" && (Ascii.eqb c "e" || Ascii.eqb c "E") then String "." (undot s2) else String a (undot s1)
      | _ => String a (undot s1)
      end
  end.

Definition single_dot (segment : string) : bool := bool_decide (undot segment = ".").
Definition double_dot (segment : string) : bool := bool_decide (undot segment = "..").

Fixpoint resolve (out segments : list string) : list string :=
  match segments with
  | [] => out
  | segment :: rest =>
      let last := match rest with [] => [EmptyString] | _ => [] end in
      if double_dot segment then resolve (removelast out ++ last) rest else
      if single_dot segment then resolve (out ++ last) rest else resolve (out ++ [segment]) rest
  end.

Definition pathname (raw : string) : string := under (resolve [] (split_slash (default raw (strip_prefix "/" raw)))).

(** ** [createWaitpointCapabilityHandler] *)

Record WaitpointTokenClaims := Claims {
  cl_schemaVersion : Z; cl_resolves : bool; cl_waitpointId : string; cl_taskId : string; cl_tenantId : string; cl_ownerId : string; cl_nonce : string;
}.

(** The body: [expectedVersion], whether there is a [resolution], and the [actor]. *)
Record capability_body := CapabilityBody { cb_expectedVersion : field; cb_resolution : bool; cb_actor : option string }.

Inductive capability_call : Type :=
| CapGetWaitpoint (id owner tenant : string)
| CapResolve (id owner tenant resolutionId actor : string) (expectedVersion : Z).

Section capability.
(** The client answers with a waitpoint: its identifier and its Task. *)
Context {W : Type} (serve : capability_call → W → result http_error (string * string) * W).

Definition capability A : Type := act (W * list capability_call) http_error A.

Definition cap_ask (c : capability_call) : capability (string * string) :=
  λ w, let '(r, st) := serve c w.1 in (r, (st, w.2 ++ [c])).

(** [verified] is what [verify] made of the bearer token, if there is one. *)
Definition capability_request (method : string) (verified : option (result http_error WaitpointTokenClaims)) (body : option capability_body)
    : capability (Z * string) :=
  if negb (bool_decide (method = "POST")) then aret (405, "RHINOQ_METHOD_NOT_ALLOWED") else
  match verified with
  | None => aret (401, "RHINOQ_UNAUTHORIZED")
  | Some (Err e) => athrow e
  | Some (Ok c) =>
      if negb (cl_schemaVersion c =? 2) || negb (cl_resolves c) || js_blank (cl_waitpointId c) || js_blank (cl_taskId c)
         || js_blank (cl_tenantId c) || js_blank (cl_ownerId c) || js_blank (cl_nonce c)
      then aret (401, "RHINOQ_INVALID_CAPABILITY") else
      let+ current := cap_ask (CapGetWaitpoint (cl_waitpointId c) (cl_ownerId c) (cl_tenantId c)) in
      if negb (bool_decide (current.2 = cl_taskId c)) then aret (404, "RHINOQ_WAITPOINT_NOT_FOUND") else
      match body with
      | None => athrow OtherError
      | Some b =>
          match cb_expectedVersion b with
          | IntegerField z =>
              if (z <=? 0) || negb (cb_resolution b) then aret (400, "RHINOQ_INVALID_REQUEST") else
              let actor := match truthy (js_trim <$> cb_actor b) with Some a => a | None => ("capability:" ++ cl_nonce c)%string end in
              cap_ask (CapResolve current.1 (cl_ownerId c) (cl_tenantId c) (cl_nonce c) actor z) ;+ aret (200, "")
          | _ => aret (400, "RHINOQ_INVALID_REQUEST")
          end
      end
  end.

Definition capability_respond (method : string) (verified : option (result http_error WaitpointTokenClaims)) (body : option capability_body)
    : capability (Z * string) :=
  atry (capability_request method verified body) (λ e,
    match e with
    | RhinoQError code status => aret (default 500 status, code)
    | OtherError => aret (401, "RHINOQ_INVALID_CAPABILITY")
    end).
End capability.
End TaskHttp.
