(* ===== verification/TaskHttpFacts.v ===== *)
(** * What the owner-facing HTTP surface promises

    A request reaches nothing without an owner, a tenant and the policy's consent;
    every call carries them, or follows a read that established ownership; the client
    and the handler agree on the paths; streams are bounded; cancelling without a
    version gives up only after five conflicts; a capability resolves the one waitpoint
    it names. *)

From stdpp Require Import base gmap strings list pretty.
From Stdlib Require Import Ascii ZArith Lia.
From S2P Require Import Prelude TaskModel TaskHttp.

#[local] Open Scope act_scope.

Module TaskHttpFacts.
Import TaskHttp.

Section facts.
Context {V W : Type}.
Context (v_taskId : V → string) (v_version : V → Z) (v_state : V → task_state) (v_true : V → bool).
Context (serve : http_call V → W → result http_error V * W).
Context (decode : string → option string) (toInteger : string → option Z).
Context (ownerFromRequest tenantFromRequest : request → result http_error (option string)).
Implicit Types (w : http_world (V:=V) (W:=W)) (l : list (http_call V * result http_error V)).

(** ** The owner's boundary *)

Section boundary.
Context (owner tenant : string).

(** The call [c] after the calls [l]: it names the owner and the tenant, and where it
    does not, or acts on something that was read, a read for the owner came before. *)
Definition justified l (c : http_call V) : Prop :=
  match c with
  | Health => True
  | Authorize o t _ _ | ListTasks o _ _ t | ListTasksByState o t _ _ | ListRecentlyVerified o _ t | ListWaitingWaitpoints o _ t
  | GetTask _ o t | GetTaskSummary _ o t | GetExecutionResults _ o t | ListWaitpoints _ o _ t | ListExecutions _ o _ _ t
  | GetWaitpoint _ o t | ListVerifications _ o _ t | ListArtifacts _ o _ t | GetArtifact _ o t | GetResult _ o t
  | RequestCancellation _ o _ t | Upload _ o t _ => o = owner ∧ t = tenant
  | CreateWaitpoint id => ∃ v, (GetTaskSummary id owner tenant, Ok v) ∈ l
  | ResolveWaitpoint id o t => o = owner ∧ t = tenant ∧ ∃ v, (GetWaitpoint id owner tenant, Ok v) ∈ l
  | RefreshArtifact id => ∃ v, (GetArtifact id owner tenant, Ok v) ∈ l
  | ResolveResult o t => o = owner ∧ t = tenant ∧ ∃ id v, (GetResult id owner tenant, Ok v) ∈ l
  | ResolveArtifact o t => o = owner ∧ t = tenant ∧ ∃ id v, (GetArtifact id owner tenant, Ok v) ∈ l
  | CancelTask task o _ | RetryTask task o _ => o = owner ∧ ∃ id, (GetTask id owner tenant, Ok task) ∈ l
  | OpenStream id o t => o = owner ∧ t = tenant ∧ match id with Some id => ∃ v, (GetTaskSummary id owner tenant, Ok v) ∈ l | None => True end
  end.

Inductive fenced_log : list (http_call V * result http_error V) → Prop :=
| fenced_nil : fenced_log []
| fenced_snoc l c r : fenced_log l → justified l c → fenced_log (l ++ [(c, r)]).

(** An action that keeps the log fenced once the calls [facts] were answered. *)
Definition fenced {A} (facts : list (http_call V * result http_error V)) (m : http (V:=V) (W:=W) A) : Prop :=
  ∀ w, fenced_log (hw_log w) → facts ⊆ hw_log w → fenced_log (hw_log (m w).2).

Lemma fenced_ret {A} facts (a : A) : fenced facts (aret a).
Proof. by intros w. Qed.
Lemma fenced_throw {A} facts e : fenced facts (athrow e : http (V:=V) (W:=W) A).
Proof. by intros w. Qed.

(** The call's answer is a fact for what follows. *)
Lemma fenced_ask {A} facts c (k : V → http (V:=V) (W:=W) A) :
  (∀ l, facts ⊆ l → justified l c) → (∀ v, fenced ((c, Ok v) :: facts) (k v)) → fenced facts (abind (ask serve c) k).
Proof.
  intros Hc Hk w Hw Hf. unfold abind, ask. destruct (serve c (hw_store w)) as [r st]. cbn.
  assert (fenced_log (hw_log w ++ [(c, r)])) as Hl by (constructor; auto). destruct r as [v|e]; [|done]. apply Hk; cbn; [done|]. set_solver.
Qed.

Lemma fenced_sends facts c status : (∀ l, facts ⊆ l → justified l c) → fenced facts (sends serve c status).
Proof. intros Hc. apply fenced_ask; [done|]. intros v. apply fenced_ret. Qed.

Lemma fenced_try facts c (h : http_error → http (V:=V) (W:=W) V) :
  (∀ l, facts ⊆ l → justified l c) → (∀ e, fenced facts (h e)) → fenced facts (atry (ask serve c) h).
Proof.
  intros Hc Hh w Hw Hf. unfold atry, ask. destruct (serve c (hw_store w)) as [r st]. cbn.
  assert (fenced_log (hw_log w ++ [(c, r)])) as Hl by (constructor; auto). destruct r as [v|e]; [done|]. apply Hh; cbn; [done|]. set_solver.
Qed.

Lemma fenced_limited facts rq d k : (∀ n, fenced facts (k n)) → fenced facts (limited (V:=V) (W:=W) toInteger rq d k).
Proof. intros Hk. unfold limited. case_match; [apply fenced_ret|apply Hk]. Qed.

Lemma fenced_json {A} facts rq (k : request_body → http (V:=V) (W:=W) A) : (∀ b, fenced facts (k b)) → fenced facts (abind (read_json rq) k).
Proof. intros Hk w. unfold abind, read_json. destruct (rq_body rq); cbn; [done|apply Hk..]. Qed.

Lemma fenced_properties {A} facts b (k : field * option string → http (V:=V) (W:=W) A) : (∀ x, fenced facts (k x)) → fenced facts (abind (properties b) k).
Proof. intros Hk w. unfold abind, properties. destruct b; cbn; [apply Hk|done|apply Hk]. Qed.

Lemma fenced_stream facts o c : (∀ l, facts ⊆ l → justified l c) → fenced facts (openStream (W:=W) o c).
Proof. intros Hc w Hw Hf. unfold openStream. case_match; cbn; [done|]. constructor; auto. Qed.

Lemma fenced_cancel facts n id : fenced facts (cancelWithoutFence v_version v_state serve n id owner tenant).
Proof.
  revert facts. induction n as [|n IH]; intros facts; cbn; (apply fenced_ask; [done|]); intros v; (case_match; [apply fenced_ret|]);
    (apply fenced_try; [done|]); intros [code st|]; try apply fenced_throw.
  case_match; [apply IH|apply fenced_throw].
Qed.

Lemma fenced_map {A B} facts (m : http (V:=V) (W:=W) A) (f : A → B) : fenced facts m → fenced facts (abind m (λ a, aret (f a))).
Proof. intros Hm w Hw Hf. unfold abind. specialize (Hm w Hw Hf). by destruct (m w) as [[a|e] w1]. Qed.

Ltac fence := repeat first
  [ progress intros | apply fenced_ret | apply fenced_throw | apply fenced_limited | apply fenced_json | apply fenced_properties
  | apply fenced_stream | apply fenced_map, fenced_cancel | apply fenced_sends | apply fenced_ask | case_match ].

Lemma route_fenced o rq r : fenced [] (serve_route v_taskId v_version v_state serve toInteger o owner tenant rq r).
Proof.
  destruct r; unfold serve_route, serve_upload, serve_cancel, serve_retry, refuse; fence; cbn; try done; split_and?; eauto; set_solver.
Qed.
End boundary.

(** The owner and the tenant of a request. *)
Definition authenticated (o : options) (rq : request) (owner tenant : string) : Prop :=
  ownerFromRequest rq = Ok (Some owner) ∧ js_blank owner = false ∧
  (if o_tenantFromRequest o then tenantFromRequest rq else Ok (Some "default")) = Ok (Some tenant) ∧ js_blank tenant = false.

Notation handling := (handle_request v_taskId v_version v_state v_true serve decode toInteger ownerFromRequest tenantFromRequest).
Notation responding := (respond v_taskId v_version v_state v_true serve decode toInteger ownerFromRequest tenantFromRequest).
Notation routing := (serve_route v_taskId v_version v_state serve toInteger).

Lemma respond_log o rq w : hw_log (responding o rq w).2 = hw_log (handling o rq w).2 ∧ ∃ status body, (responding o rq w).1 = Ok (status, body).
Proof. unfold respond, atry. destruct (handling o rq w) as [[[status body]|[code st|]] w1]; cbn; eauto. Qed.

(** The handler after the checks. *)
Definition authorized (o : options) (rq : request) (owner tenant : string) (relative : list string) : http (V:=V) (W:=W) (Z * reply) :=
  let+ allowed := if o_authorize o
    then let+ v := ask serve (Authorize owner tenant (taskAuthorizationAction (rq_method rq) relative) (policy_task relative)) in aret (v_true v)
    else aret true in
  if negb allowed then refuse 403 "RHINOQ_FORBIDDEN" else routing o owner tenant rq (route_of (rq_method rq) relative).

Lemma handling_cases o rq w :
  (handling o rq w).2 = w ∨ ∃ owner tenant relative, authenticated o rq owner tenant ∧ handling o rq w = authorized o rq owner tenant relative w.
Proof.
  unfold handle_request, authenticated. destruct (ownerFromRequest rq) as [[owner|]|e]; [|by left..]. destruct (js_blank owner) eqn:Bo; [by left|].
  destruct (if o_tenantFromRequest o then _ else _) as [[tenant|]|e]; [|by left..]. destruct (js_blank tenant) eqn:Bt; [by left|].
  destruct (routeParts _ _ _) as [[relative|]|]; [|by left..]. right. by exists owner, tenant, relative.
Qed.

Lemma authorized_fenced o rq owner tenant relative : fenced owner tenant [] (authorized o rq owner tenant relative).
Proof.
  pose proof (route_fenced owner tenant o rq (route_of (rq_method rq) relative)) as Hr. unfold authorized. destruct (o_authorize o); [|apply Hr].
  intros w Hw _. unfold abind at 1 2, ask. destruct (serve _ (hw_store w)) as [[v|e] st]; cbn; [|by constructor].
  destruct (v_true v); cbn; [apply Hr; cbn; [|set_solver]|]; by constructor.
Qed.

(** C27. The owner's boundary. Whatever the store, the hooks and the request are, the
    handler responds, and it makes no call unless the host named an owner and a
    tenant; then every call names both, or acts on a Task, waitpoint or artifact that a
    read for that owner and tenant returned before. *)
Theorem requests_stay_in_bounds : ∀ o rq st n,
  let out := responding o rq (HttpWorld st n []) in
  (∃ status body, out.1 = Ok (status, body)) ∧
  (hw_log out.2 = [] ∨ ∃ owner tenant, authenticated o rq owner tenant ∧ fenced_log owner tenant (hw_log out.2)).
Proof.
  intros o rq st n out. destruct (respond_log o rq (HttpWorld st n [])) as [Hl Hr]. split; [done|]. unfold out. rewrite Hl.
  destruct (handling_cases o rq (HttpWorld st n [])) as [->|(owner & tenant & relative & Ha & ->)]; [by left|right].
  exists owner, tenant. split; [done|]. apply authorized_fenced; [constructor|set_solver].
Qed.

(** A request the policy hook refuses makes no other call. *)
Theorem refused_request_calls_nothing o rq st n owner tenant relative v st' :
  authenticated o rq owner tenant → o_authorize o = true →
  routeParts decode (rq_pathname rq) (normalizeBasePath (default "/tasks" (o_basePath o))) = Some (Some relative) →
  let c := Authorize owner tenant (taskAuthorizationAction (rq_method rq) relative) (policy_task relative) in
  serve c st = (Ok v, st') → v_true v = false →
  responding o rq (HttpWorld st n []) = (Ok (403, Code "RHINOQ_FORBIDDEN" None), HttpWorld st' n [(c, Ok v)]).
Proof.
  intros (Ho & Bo & Ht & Bt) Ha Hp c Hc Hv. unfold respond, atry, handle_request. rewrite Ho, Bo, Ht, Bt, Hp, Ha.
  unfold abind at 1 2, ask at 1. cbn. unfold c in Hc. rewrite Hc. cbn. by rewrite Hv.
Qed.

(** ** Cancelling without a version *)

(** Every cancellation of [calls] carries the version the read just before it returned. *)
Definition freshly_read (id owner tenant : string) (calls : list (http_call V * result http_error V)) : Prop :=
  ∀ i id' o x t r, calls !! i = Some (RequestCancellation id' o x t, r) →
  ∃ j v, i = S j ∧ calls !! j = Some (GetTask id owner tenant, Ok v) ∧ x = v_version v.

Lemma freshly_read_round id owner tenant v r calls :
  freshly_read id owner tenant calls →
  freshly_read id owner tenant ((GetTask id owner tenant, Ok v) :: (RequestCancellation id owner (v_version v) tenant, r) :: calls).
Proof.
  intros Hf [|[|i]] id' o x t r' Hi; cbn in Hi; simplify_eq; [by exists 0%nat, v|].
  destruct (Hf i _ _ _ _ _ Hi) as (j & v' & -> & Hj & ->). by exists (S (S j)), v'.
Qed.

(** It reads and asks at most once more than [n] times, each time with the version it
    has just read. *)
Theorem unfenced_cancel_bounded n id owner tenant w :
  ∃ calls, hw_log (cancelWithoutFence v_version v_state serve n id owner tenant w).2 = hw_log w ++ calls ∧
    (length calls ≤ 2 * S n)%nat ∧ freshly_read id owner tenant calls.
Proof.
  revert w. induction n as [|n IH]; intros w; cbn -[Nat.mul]; unfold abind at 1, ask at 1;
    destruct (serve (GetTask id owner tenant) (hw_store w)) as [[v|e] st];
    try (eexists [_]; split_and!; [done|cbn; lia|by intros [|i] ? * Hi; inversion Hi]);
    (case_match; [eexists [_]; split_and!; [done|cbn; lia|by intros [|i] ? * Hi; inversion Hi]|]);
    unfold atry, ask at 1; cbn -[Nat.mul]; destruct (serve (RequestCancellation id owner (v_version v) tenant) st) as [[v'|[code st1|]] st2]; cbn -[Nat.mul].
  all: try (eexists [_; _]; split_and!; [by rewrite <- app_assoc|cbn; lia|by apply freshly_read_round]).
  case_match; [|eexists [_; _]; split_and!; [by rewrite <- app_assoc|cbn; lia|by apply freshly_read_round]].
  edestruct IH as (calls & Hc & Hl & Hf). eexists (_ :: _ :: calls). split_and!; [|cbn in *; lia|by apply freshly_read_round].
  rewrite Hc. cbn. by rewrite <- !app_assoc.
Qed.

(** ** Streams *)

Section streams.
Context (o : options).

(** An action that opens at most the streams there is room for. *)
Definition capped {A} (m : http (V:=V) (W:=W) A) : Prop := ∀ w, hw_streams w ≤ maxStreams o → hw_streams (m w).2 ≤ maxStreams o.

Lemma capped_ret {A} (a : A) : capped (aret a).
Proof. by intros w. Qed.
Lemma capped_throw {A} e : capped (athrow e : http (V:=V) (W:=W) A).
Proof. by intros w. Qed.
Lemma capped_ask c : capped (ask serve c).
Proof. intros w Hw. unfold ask. by destruct (serve c (hw_store w)). Qed.
Lemma capped_bind {A B} (m : http (V:=V) (W:=W) A) (k : A → http (V:=V) (W:=W) B) : capped m → (∀ a, capped (k a)) → capped (abind m k).
Proof. intros Hm Hk w Hw. unfold abind. specialize (Hm w Hw). destruct (m w) as [[a|e] w1]; [by apply Hk|done]. Qed.
Lemma capped_try {A} (m : http (V:=V) (W:=W) A) h : capped m → (∀ e, capped (h e)) → capped (atry m h).
Proof. intros Hm Hh w Hw. unfold atry. specialize (Hm w Hw). destruct (m w) as [[a|e] w1]; [done|by apply Hh]. Qed.
Lemma capped_open c : capped (openStream (W:=W) o c).
Proof. intros w Hw. unfold openStream. case_match; cbn; lia. Qed.
Lemma capped_json rq : capped (read_json (V:=V) (W:=W) rq).
Proof. intros w Hw. unfold read_json. by destruct (rq_body rq). Qed.
Lemma capped_properties b : capped (properties (V:=V) (W:=W) b).
Proof. intros w Hw. by destruct b. Qed.
Lemma capped_cancel n id owner tenant : capped (cancelWithoutFence v_version v_state serve n id owner tenant).
Proof.
  induction n as [|n IH]; cbn; (apply capped_bind; [apply capped_ask|]); intros v; (case_match; [apply capped_ret|]);
    (apply capped_try; [apply capped_ask|]); intros [code st|]; repeat case_match; try apply capped_throw; done.
Qed.

Ltac stay := repeat first
  [ progress intros | apply capped_ret | apply capped_throw | apply capped_ask | apply capped_open | apply capped_json | apply capped_properties
  | apply capped_cancel | apply capped_bind | apply capped_try | case_match ].

Lemma route_capped owner tenant rq r : capped (serve_route v_taskId v_version v_state serve toInteger o owner tenant rq r).
Proof. destruct r; unfold serve_route, serve_upload, serve_cancel, serve_retry, limited, sends, refuse; stay. Qed.

(** A request never opens more than [maxConnections] streams. *)
Theorem streams_bounded rq : capped (respond v_taskId v_version v_state v_true serve decode toInteger ownerFromRequest tenantFromRequest o rq).
Proof. unfold respond, handle_request, refuse. stay; apply route_capped. Qed.

Lemma closing_capped w : hw_streams w ≤ maxStreams o → hw_streams (stream_closed w) ≤ maxStreams o.
Proof. cbn. lia. Qed.
End streams.
End facts.

(** ** The client and the handler agree on the paths *)

(** The route each call of [ApplicationTaskClient] is meant for. *)
Definition handled_as (c : client_call) : route :=
  match c with
  | CGetTask id => RTask id
  | CGetTaskSummary id => RSummary id
  | CListTaskExecutions id => RExecutionsPage id
  | CListTasks => RList
  | CStreamTask id => RTaskEvents id
  | CStreamTasks => REvents
  | CCancelTask id => RCancel id
  | CRetryTask id => RRetry id
  | CHealth => RHealth
  | CCapabilities => RCapabilities
  | CGetTaskResult id => RResult id
  | CGetTaskExecutionResults id => RExecutions id
  | CListTaskWaitpoints id => RWaitpoints id
  | CListWaitingTaskWaitpoints => RWaiting
  | CListRecentlyVerified => RVerified
  | CListTaskVerifications id => RVerifications id
  | CListTaskArtifacts id => RArtifacts id
  | CGetTaskArtifactDownload id a => RDownloadArtifact id a
  | CRefreshTaskArtifact id a => RRefreshArtifact id a
  | CCreateArtifactUpload => RUpload UploadCreate
  | CResumeArtifactUpload id => RUpload (UploadResume id)
  | CSignArtifactUploadPart id n => RUpload (UploadSign id (pretty n))
  | CRecordArtifactUploadPart id => RUpload (UploadRecord id)
  | CCompleteArtifactUpload id => RUpload (UploadComplete id)
  | CAbortArtifactUpload id => RUpload (UploadAbort id)
  | CListAtRiskTasks => RRisk
  | CGetTaskGroupManifest id => RManifest id
  | CDownloadFailedTaskItems id => RFailedItems id
  | CCreateTaskWaitpoint id => RCreateWaitpoint id
  | CGetTaskWaitpoint id w | CResolveTaskWaitpoint id w => RWaitpoint id w
  end.

(** The Task a call names. *)
Definition named_task (c : client_call) : option string :=
  match c with
  | CGetTask id | CGetTaskSummary id | CListTaskExecutions id | CStreamTask id | CCancelTask id | CRetryTask id | CGetTaskResult id
  | CGetTaskExecutionResults id | CListTaskWaitpoints id | CListTaskVerifications id | CListTaskArtifacts id | CGetTaskArtifactDownload id _
  | CRefreshTaskArtifact id _ | CGetTaskGroupManifest id | CDownloadFailedTaskItems id | CCreateTaskWaitpoint id | CGetTaskWaitpoint id _
  | CResolveTaskWaitpoint id _ => Some id
  | _ => None
  end.

(** The identifiers a call carries. *)
Definition identifiers (c : client_call) : list string :=
  match c with
  | CGetTask id | CGetTaskSummary id | CListTaskExecutions id | CStreamTask id | CCancelTask id | CRetryTask id | CGetTaskResult id
  | CGetTaskExecutionResults id | CListTaskWaitpoints id | CListTaskVerifications id | CListTaskArtifacts id | CGetTaskGroupManifest id
  | CDownloadFailedTaskItems id | CCreateTaskWaitpoint id | CResumeArtifactUpload id | CSignArtifactUploadPart id _ | CRecordArtifactUploadPart id
  | CCompleteArtifactUpload id | CAbortArtifactUpload id => [id]
  | CGetTaskArtifactDownload id x | CRefreshTaskArtifact id x | CGetTaskWaitpoint id x | CResolveTaskWaitpoint id x => [id; x]
  | _ => []
  end.

Fixpoint no_slash (s : string) : bool :=
  match s with EmptyString => true | String a s => negb (Ascii.eqb a slash) && no_slash s end.

(** A segment the URL parser leaves alone. *)
Definition segment (s : string) : bool := no_slash s && negb (single_dot s) && negb (double_dot s).

(** ** The codec *)

Section paths.
#[local] Arguments Ascii.eqb : simpl never.

(** Every byte, encoded. *)
Lemma byte_codec a : unreserved a = false →
  let h := hex_char (nat_of_ascii a / 16) in let l := hex_char (nat_of_ascii a mod 16) in
  match hex_value h, hex_value l with Some x, Some y => ascii_of_nat (16 * x + y) = a | _, _ => False end ∧
  Ascii.eqb h slash = false ∧ Ascii.eqb l slash = false ∧ Ascii.eqb h "%" = false ∧ Ascii.eqb l "%" = false ∧
  Ascii.eqb h "2" && (Ascii.eqb l "e" || Ascii.eqb l "E") = false.
Proof. destruct a as [[] [] [] [] [] [] [] []]; vm_compute; intros H; first [discriminate H|by split_and!]. Qed.

Lemma unreserved_codec a : unreserved a = true → Ascii.eqb a slash = false ∧ Ascii.eqb a "%" = false.
Proof. destruct a as [[] [] [] [] [] [] [] []]; vm_compute; intros H; first [discriminate H|by split]. Qed.

Lemma percent_decode_encode s : percent_decode (encodeURIComponent s) = Some s.
Proof.
  induction s as [|a s IH]; [done|]. cbn [encodeURIComponent]. destruct (unreserved a) eqn:E.
  - cbn [percent_decode]. destruct (unreserved_codec a E) as [_ ->]. by rewrite IH.
  - cbn [percent_decode]. change (Ascii.eqb "%" "%") with true. cbv iota. pose proof (byte_codec a E) as [H _]. cbv zeta in H.
    destruct (hex_value _) as [x|]; [|done]. destruct (hex_value (hex_char (_ mod _))) as [y|]; [|done]. cbn [mbind option_bind]. by rewrite H, IH.
Qed.

Lemma decode_encode s : utf8 s = true → decodeURIComponent (encodeURIComponent s) = Some s.
Proof. intros H. unfold decodeURIComponent. rewrite percent_decode_encode. cbn. by rewrite H. Qed.

Lemma encode_no_slash s : no_slash (encodeURIComponent s) = true.
Proof.
  induction s as [|a s IH]; [done|]. cbn [encodeURIComponent]. destruct (unreserved a) eqn:E; cbn [no_slash].
  - by destruct (unreserved_codec a E) as [-> _].
  - destruct (byte_codec a E) as (_ & -> & -> & _). done.
Qed.

Lemma undot_plain a s : Ascii.eqb a "%" = false → undot (String a s) = String a (undot s).
Proof. intros H. cbn. rewrite H. by destruct s as [|b [|c s]]. Qed.

Lemma undot_step a b c s : undot (String a (String b (String c s))) =
  if Ascii.eqb a "%" && Ascii.eqb b "2" && (Ascii.eqb c "e" || Ascii.eqb c "E") then String "." (undot s) else String a (undot (String b (String c s))).
Proof. reflexivity. Qed.

Lemma undot_encode s : undot (encodeURIComponent s) = encodeURIComponent s.
Proof.
  induction s as [|a s IH]; [done|]. cbn [encodeURIComponent]. destruct (unreserved a) eqn:E.
  - destruct (unreserved_codec a E) as [_ H]. by rewrite undot_plain, IH.
  - destruct (byte_codec a E) as (_ & _ & _ & H1 & H2 & H3). cbv zeta. rewrite undot_step. change (Ascii.eqb "%" "%") with true. cbn [andb]. rewrite H3.
    by rewrite !undot_plain, IH.
Qed.

Lemma encode_dots s t : utf8 s = true → utf8 t = true → encodeURIComponent t = t → encodeURIComponent s = t → s = t.
Proof. intros Hs Ht E1 E2. apply decode_encode in Hs, Ht. rewrite E2 in Hs. rewrite E1 in Ht. congruence. Qed.

Lemma encode_segment s : utf8 s = true → s ≠ "." → s ≠ ".." → segment (encodeURIComponent s) = true.
Proof.
  intros Hu H1 H2. unfold segment, single_dot, double_dot. rewrite encode_no_slash, undot_encode.
  rewrite !bool_decide_eq_false_2; [done|..]; intros H; [apply H2|apply H1]; by apply encode_dots.
Qed.

Lemma strip_prefix_app p s : strip_prefix p (p ++ s)%string = Some s.
Proof. induction p as [|a p IH]; [done|]. rewrite append_String. cbn. by rewrite Ascii.eqb_refl. Qed.

Lemma append_same p s : (p ++ s)%string = p → s = "".
Proof. induction p as [|a p IH]; [done|]. rewrite append_String. by intros [= ?%IH]. Qed.

Lemma split_no_slash s : no_slash s = true → split_slash s = [s].
Proof. induction s as [|a s IH]; cbn; [done|]. intros [->%negb_true_iff Hs]%andb_true_iff. by rewrite (IH Hs). Qed.

Lemma split_cons p s : no_slash p = true → split_slash (p ++ String slash s) = p :: split_slash s.
Proof. induction p as [|a p IH]; [done|]. rewrite append_String. cbn. intros [->%negb_true_iff Hs]%andb_true_iff. by rewrite (IH Hs). Qed.

Lemma under_cons p q ps : under (p :: q :: ps) = (String slash p ++ under (q :: ps))%string.
Proof. done. Qed.

Lemma split_under p ps : Forall (λ s, no_slash s = true) (p :: ps) →
  ∃ rest, under (p :: ps) = String slash rest ∧ split_slash rest = p :: ps.
Proof.
  revert p. induction ps as [|q ps IH]; intros p [Hp Hps]%Forall_cons.
  - exists p. split; [done|]. by apply split_no_slash.
  - destruct (IH q Hps) as (rest & Hr & Hs). exists (p ++ String slash rest)%string. rewrite under_cons, Hr. split; [done|].
    by rewrite split_cons, Hs.
Qed.

(** A path made of encoded parts is taken apart into the parts. *)
Lemma routeParts_under decode base p ps : Forall (λ s, no_slash s = true) (p :: ps) →
  routeParts decode (base ++ under (p :: ps)) base = Some <$> mapM decode (p :: ps).
Proof.
  intros H. destruct (split_under p ps H) as (rest & Hu & Hs). unfold routeParts. rewrite bool_decide_eq_false_2.
  - rewrite Hu. replace (base ++ String slash rest)%string with ((base ++ "/") ++ rest)%string by (by rewrite append_assoc).
    by rewrite strip_prefix_app, Hs.
  - intros He%append_same. by rewrite Hu in He.
Qed.

Lemma routeParts_nil decode base : routeParts decode base base = Some (Some []).
Proof. unfold routeParts. by rewrite bool_decide_eq_true_2. Qed.

(** The URL parser leaves a path of ordinary segments as it is. *)
Lemma resolve_segments out l : Forall (λ s, segment s = true) l → resolve out l = out ++ l.
Proof.
  intros H. revert out. induction H as [|s l Hs _ IH]; intros out; cbn [resolve]; [by rewrite app_nil_r|].
  unfold segment in Hs. to_prop. match goal with H : single_dot s = false |- _ => rewrite H end. match goal with H : double_dot s = false |- _ => rewrite H end.
  by rewrite IH, <-app_assoc.
Qed.

Lemma pathname_under p ps : Forall (λ s, segment s = true) (p :: ps) → pathname (under (p :: ps)) = under (p :: ps).
Proof.
  intros H. destruct (split_under p ps) as (rest & Hu & Hs).
  { eapply Forall_impl; [exact H|]. intros s Hs. unfold segment in Hs. by to_prop. }
  unfold pathname. rewrite Hu. replace (strip_prefix "/" (String slash rest)) with (Some rest) by done.
  change (default (String slash rest) (Some rest)) with rest. by rewrite Hs, resolve_segments.
Qed.

Lemma append_empty s : (s ++ "")%string = s.
Proof. induction s as [|a s IH]; [done|]. by rewrite append_String, IH. Qed.

Lemma under_app l l' : under (l ++ l') = (under l ++ under l')%string.
Proof.
  induction l as [|p [|q l] IH]; [done| |].
  - destruct l' as [|q l']; [|done]. cbn. by rewrite append_empty.
  - change ((p :: q :: l) ++ l') with (p :: q :: (l ++ l')). rewrite !under_cons. change (q :: l ++ l') with ((q :: l) ++ l'). by rewrite IH, append_assoc.
Qed.

(** An identifier that is no reserved word and not blank. *)
Lemma starts_with_ne w id : starts_with "_" w = true → starts_with "_" id = false → bool_decide (id = w) = false.
Proof. intros Hw Hi. apply bool_decide_eq_false_2. by intros ->; congruence. Qed.

Lemma blank_empty id : js_blank id = false → bool_decide (id = "") = false.
Proof. intros H. apply bool_decide_eq_false_2. by intros ->. Qed.

Lemma path_some value x : path value = Some x → x = encodeURIComponent value ∧ js_blank value = false.
Proof. unfold path. by case_match; intros [= <-]. Qed.

Lemma pretty_digits_go x s : all_digits s = true → all_digits (pretty_N_go x s) = true.
Proof.
  revert s. induction (N.lt_wf_0 x) as [x _ IH]; intros s Hs. destruct (decide (x = 0)%N) as [->|Hx]; [by rewrite pretty_N_go_0|].
  rewrite pretty_N_go_step by lia. apply IH; [apply N.div_lt; lia|]. cbn. rewrite Hs, andb_true_r. unfold pretty_N_char. by repeat case_match.
Qed.

Lemma pretty_digits (n : N) : all_digits (pretty n) = true.
Proof. destruct n as [|p]; [done|]. change (all_digits (pretty_N_go (Npos p) "") = true). by apply pretty_digits_go. Qed.

Lemma pretty_nonempty_go x s : s ≠ "" → pretty_N_go x s ≠ "".
Proof.
  revert s. induction (N.lt_wf_0 x) as [x _ IH]; intros s Hs. destruct (decide (x = 0)%N) as [->|Hx]; [by rewrite pretty_N_go_0|].
  rewrite pretty_N_go_step by lia. apply IH; [apply N.div_lt; lia|done].
Qed.

Lemma pretty_nonempty (n : N) : bool_decide (pretty n = "") = false.
Proof.
  apply bool_decide_eq_false_2. destruct n as [|p]; [done|]. change (pretty_N_go (Npos p) "" ≠ ""). rewrite pretty_N_go_step by lia. by apply pretty_nonempty_go.
Qed.

Lemma digits_encode s : all_digits s = true → encodeURIComponent s = s ∧ utf8 s = true ∧ s ≠ "." ∧ s ≠ "..".
Proof.
  induction s as [|a s IH]; [done|]. cbn [all_digits]. intros [Ha Hs]%andb_true_iff. destruct (IH Hs) as (E & U & _).
  assert (unreserved a = true ∧ byte_within 0 127 a = true ∧ a ≠ "."%char) as (H1 & H2 & H3).
  { clear -Ha. destruct a as [[] [] [] [] [] [] [] []]; vm_compute in Ha; try discriminate Ha; vm_compute; by split_and!. }
  cbn [encodeURIComponent utf8]. rewrite H1, H2, E, U. split_and!; [done..| |]; intros [= ->]; done.
Qed.

Lemma decode_digits s : all_digits s = true → decodeURIComponent s = Some s ∧ segment s = true.
Proof. intros (E & U & H1 & H2)%digits_encode. rewrite <-E at 1 3. split; [by apply decode_encode|by apply encode_segment]. Qed.

(** What the handler reads of a path of ordinary segments below its base path. *)
Lemma routed b ps : b ≠ [] → Forall (λ s, segment s = true) b → Forall (λ s, segment s = true) ps →
  routeParts decodeURIComponent (pathname (under b ++ under ps)) (under b) = Some <$> mapM decodeURIComponent ps.
Proof.
  intros H0 Hb Hp. rewrite <-under_app. destruct b as [|x b]; [done|]. cbn [app]. rewrite pathname_under by (change (x :: b ++ ps) with ((x :: b) ++ ps); by apply Forall_app).
  change (x :: b ++ ps) with ((x :: b) ++ ps). rewrite under_app. destruct ps as [|p ps]; [cbn [under]; rewrite append_empty; apply routeParts_nil|].
  apply routeParts_under. eapply Forall_impl; [exact Hp|]. intros s Hs. unfold segment in Hs. by to_prop.
Qed.

End paths.


(** The identifiers [.] and [..] never reach their route: the URL parser takes them for
    directories, and a read of the Task [..] is answered as some other request. *)
Theorem dot_identifiers_resolved :
  client_request (CGetTask ".") = Some ("GET", "/.") ∧ pathname "/tasks/." = "/tasks/" ∧
  (routeParts decodeURIComponent (pathname "/tasks/.") "/tasks" = Some (Some [""]) ∧ route_of "GET" [""] = RNoTask) ∧
  client_request (CCancelTask "..") = Some ("POST", "/../cancel") ∧ pathname "/tasks/../cancel" = "/cancel" ∧
  client_request (CGetTaskWaitpoint "t1" "..") = Some ("GET", "/t1/waitpoints/..") ∧
  (routeParts decodeURIComponent (pathname "/tasks/t1/waitpoints/..") "/tasks" = Some (Some ["t1"; ""]) ∧ route_of "GET" ["t1"; ""] = RUnknown) ∧
  client_request (CRefreshTaskArtifact "t1" "..") = Some ("POST", "/t1/artifacts/../refresh") ∧
  routeParts decodeURIComponent (pathname "/tasks/t1/artifacts/../refresh") "/tasks" = Some (Some ["t1"; "refresh"]).
Proof. vm_compute. by split_and!. Qed.

(** A Task whose identifier is a reserved word is out of the client's reach: the
    handler serves something else. *)
Theorem reserved_task_unreachable :
  client_request (CGetTask "_health") = client_request CHealth ∧
  client_request (CGetTask "_uploads") = Some ("GET", "/_uploads") ∧ route_of "GET" ["_uploads"] = RUpload UploadNone.
Proof. by vm_compute. Qed.

(** The policy hook is not told which Task a request is about when its identifier
    starts with an underscore, though the request is served. *)
Theorem underscored_task_hidden_from_policy :
  route_of "POST" ["_job"; "cancel"] = RCancel "_job" ∧ policy_task ["_job"; "cancel"] = None.
Proof. by vm_compute. Qed.

(** The base path [/] is [/tasks]. *)
Theorem root_base_is_tasks : normalizeBasePath "/" = "/tasks" ∧ normalizeBasePath "//api//tasks/" = "/api/tasks".
Proof. by vm_compute. Qed.

(** ** Capabilities *)

Section capability.
Context {W : Type} (serve : capability_call → W → result http_error (string * string) * W).

Ltac only_read c := split; [by eauto|right; exists c; split_and!; try done; by left].

(** A capability reads the waitpoint its claims name and resolves it at most once,
    under the token's own identity; nothing else is called. *)
Theorem capability_names_one_waitpoint method verified body st :
  let out := capability_respond serve method verified body (st, []) in
  (∃ status code, out.1 = Ok (status, code)) ∧
  (out.2.2 = [] ∨ ∃ c, verified = Some (Ok c) ∧ method = "POST" ∧ cl_resolves c = true ∧
    let read := CapGetWaitpoint (cl_waitpointId c) (cl_ownerId c) (cl_tenantId c) in
    (out.2.2 = [read] ∨ ∃ id actor version st', serve read st = (Ok (id, cl_taskId c), st') ∧ (0 < version)%Z ∧
       out.2.2 = [read; CapResolve id (cl_ownerId c) (cl_tenantId c) (cl_nonce c) actor version])).
Proof.
  unfold capability_respond, atry, capability_request. destruct (bool_decide (method = "POST")) eqn:Em; cbn; [|by eauto].
  apply bool_decide_eq_true in Em. destruct verified as [[c|[]]|]; cbn; [|by eauto..].
  destruct (_ || _) eqn:Eb; [by eauto|]. assert (cl_resolves c = true) as Hr.
  { destruct (cl_resolves c); [done|]. by rewrite orb_true_r in Eb. }
  unfold abind, cap_ask. cbn. destruct (serve _ st) as [[[id task]|[]] st'] eqn:Es; cbn; [|only_read c..].
  destruct (bool_decide (task = cl_taskId c)) eqn:Et; cbn; [|only_read c]. apply bool_decide_eq_true in Et as ->.
  destruct body as [b|]; cbn; [|only_read c]. destruct (cb_expectedVersion b) as [|z|]; cbn; [only_read c| |only_read c].
  destruct ((z <=? 0) || negb (cb_resolution b)) eqn:Ez; cbn; [only_read c|]. apply orb_false_iff in Ez as [Ez%Z.leb_gt _].
  destruct (serve (CapResolve _ _ _ _ _ _) st') as [[|[]] st2]; cbn; (split; [by eauto|]; right; exists c; split_and!; try done; right; by eauto 10).
Qed.
End capability.
End TaskHttpFacts.
