(* ===== verification/Sorting.v ===== *)
(** * Pure code: results, sorting, sets and texts

    Code that only throws, as a [result]; the lists [sort] and [new Set] make; the
    fingerprint compilers sign their output with; texts without a separator. *)

From stdpp Require Import base strings list sorting.
From Stdlib Require Import Ascii ZArith Lia.
From S2P Require Import Prelude.

Definition rbind {E A B} (r : result E A) (k : A → result E B) : result E B :=
  match r with Ok a => k a | Err e => Err e end.

Definition refuse {E} (b : bool) (e : E) : result E unit := if b then Err e else Ok tt.

Declare Scope result_scope.
Delimit Scope result_scope with result.
Notation "'let?' x ':=' r 'in' k" := (rbind r (λ x, k))
  (at level 100, x pattern, r at next level, right associativity) : result_scope.
Notation "r ;? k" := (rbind r (λ _, k)) (at level 100, k at level 200, right associativity) : result_scope.

(** [l.map(f)] where [f] may throw *)
Fixpoint map_result {E A B} (f : A → result E B) (l : list A) : result E (list B) :=
  match l with
  | [] => Ok []
  | x :: l => rbind (f x) (λ y, rbind (map_result f l) (λ ys, Ok (y :: ys)))
  end.

Section results.
Context {E : Type}.

Lemma rbind_ok {A B} (r : result E A) (k : A → result E B) b : rbind r k = Ok b ↔ ∃ a, r = Ok a ∧ k a = Ok b.
Proof. destruct r as [a|e]; cbn; [naive_solver|]. split; [done|]. by intros (? & ? & _). Qed.

Lemma refuse_ok b (e : E) u : refuse b e = Ok u ↔ b = false.
Proof. destruct b, u; cbn; by split. Qed.

Lemma map_result_ok {A B} (f : A → result E B) l ys : map_result f l = Ok ys ↔ Forall2 (λ x y, f x = Ok y) l ys.
Proof.
  revert ys. induction l as [|x l IH]; intros ys; cbn.
  - split; [intros [= <-]; constructor|]. by inversion 1.
  - rewrite rbind_ok. setoid_rewrite rbind_ok. setoid_rewrite IH. split.
    + intros (y & Hy & zs & Hz & [= <-]). by constructor.
    + inversion 1; subst. eauto 6.
Qed.

(** The order of the inputs is the order of the outputs and decides nothing else. *)
Lemma map_result_perm {A B} (f : A → result E B) l l' ys :
  l ≡ₚ l' → map_result f l = Ok ys → ∃ ys', map_result f l' = Ok ys' ∧ ys ≡ₚ ys'.
Proof.
  intros Hp. setoid_rewrite map_result_ok. revert ys. induction Hp as [|x l l' _ IH|x y l|l l' l'' _ IH _ IH']; intros ys Hy.
  - inversion Hy. by exists [].
  - inversion Hy as [|? z ? zs Hz Hzs]; subst. destruct (IH _ Hzs) as (ys' & H1 & H2). exists (z :: ys'). split; [by constructor|by f_equiv].
  - inversion Hy as [|? z ? zs Hz Hzs]; subst. inversion Hzs as [|? u ? us Hu Hus]; subst. exists (u :: z :: us). split; [by repeat constructor|]. apply Permutation_swap.
  - destruct (IH _ Hy) as (ys1 & H1 & P1). destruct (IH' _ H1) as (ys2 & H2 & P2). exists ys2. split; [done|by etrans].
Qed.

(** A map that changes nothing. *)
Lemma map_result_id {A} (f : A → result E A) l : Forall (λ x, f x = Ok x) l → map_result f l = Ok l.
Proof. intros H. apply map_result_ok. induction H; by constructor. Qed.
End results.

(** ** Sorting by a text

    [l.sort((a, b) => a.key < b.key ? -1 : a.key > b.key ? 1 : 0)] is stable. *)

Section sort_by.
Context {A : Type} (key : A → string).

Fixpoint place (x : A) (l : list A) : list A :=
  match l with
  | [] => [x]
  | y :: l' => if String.leb (key x) (key y) then x :: l else y :: place x l'
  end.

Definition sort_by (l : list A) : list A := foldr place [] l.

Definition key_le (a b : A) : Prop := String.leb (key a) (key b) = true.

Lemma place_perm x l : place x l ≡ₚ x :: l.
Proof. induction l as [|y l IH]; cbn; [done|]. destruct (String.leb _ _); [done|]. rewrite IH. apply Permutation_swap. Qed.

Lemma sort_by_perm l : sort_by l ≡ₚ l.
Proof. induction l as [|x l IH]; cbn; [done|]. by rewrite place_perm, IH. Qed.

Lemma place_sorted x l : StronglySorted key_le l → StronglySorted key_le (place x l).
Proof.
  induction l as [|y l IH]; intros Hl; cbn; [by repeat constructor|]. apply StronglySorted_inv in Hl as [Hl Hy].
  destruct (String.leb (key x) (key y)) eqn:E.
  - constructor; [by constructor|]. constructor; [done|]. eapply Forall_impl; [exact Hy|]. intros z. by apply string_leb_trans.
  - constructor; [by apply IH|]. rewrite place_perm. constructor; [|done]. destruct (string_leb_total (key x) (key y)) as [H|H]; [by rewrite H in E|done].
Qed.

Lemma sort_by_sorted l : StronglySorted key_le (sort_by l).
Proof. induction l as [|x l IH]; cbn; [constructor|]. by apply place_sorted. Qed.

(** A list that is in order stays as it is. *)
Lemma sort_by_id l : StronglySorted key_le l → sort_by l = l.
Proof.
  induction 1 as [|x l _ IH Hx]; [done|]. change (place x (sort_by l) = x :: l). rewrite IH. destruct Hx as [|y l Hy _]; cbn; [done|]. unfold key_le in Hy. by rewrite Hy.
Qed.

Lemma sort_by_idemp l : sort_by (sort_by l) = sort_by l.
Proof. apply sort_by_id, sort_by_sorted. Qed.

(** Where the key tells the elements apart, the order they came in does not matter. *)
Lemma sort_by_perm_eq l l' :
  (∀ x y, x ∈ l → y ∈ l → key x = key y → x = y) → l ≡ₚ l' → sort_by l = sort_by l'.
Proof.
  intros Hk Hp. eapply StronglySorted_unique_strong; [|apply sort_by_sorted..|by rewrite !sort_by_perm].
  intros x y Hx Hy H1 H2. rewrite (sort_by_perm l) in Hx. rewrite (sort_by_perm l'), <- Hp in Hy. apply Hk; [done..|]. by apply string_leb_antisym.
Qed.

Lemma NoDup_key_inj l x y : NoDup (key <$> l) → x ∈ l → y ∈ l → key x = key y → x = y.
Proof.
  intros Hn (i & Hi)%list_elem_of_lookup (j & Hj)%list_elem_of_lookup Hk.
  assert (i = j) as -> by (eapply (NoDup_lookup (key <$> l)); [done|rewrite list_lookup_fmap, Hi; done|rewrite list_lookup_fmap, Hj; cbn; by rewrite Hk]).
  congruence.
Qed.

Lemma sort_by_unique l l' : NoDup (key <$> l) → l ≡ₚ l' → sort_by l = sort_by l'.
Proof. intros Hn. apply sort_by_perm_eq. intros x y Hx Hy. by apply (NoDup_key_inj l). Qed.
End sort_by.

(** ** [[...new Set(l)]]: the first of each *)

Definition new_set (l : list string) : list string := reverse (remove_dups (reverse l)).

Lemma elem_of_new_set x l : x ∈ new_set l ↔ x ∈ l.
Proof. unfold new_set. by rewrite elem_of_reverse, elem_of_remove_dups, elem_of_reverse. Qed.

Lemma NoDup_new_set l : NoDup (new_set l).
Proof. unfold new_set. rewrite reverse_Permutation. apply NoDup_remove_dups. Qed.

Lemma remove_dups_length (l : list string) : length (remove_dups l) = length l → NoDup l.
Proof.
  induction l as [|x l IH]; cbn; [constructor|].
  assert (∀ k : list string, (length (remove_dups k) ≤ length k)%nat) as Hle by (induction k; cbn; [lia|]; case_decide; cbn; lia).
  case_decide; cbn; intros E.
  - specialize (Hle l). lia.
  - constructor; [done|]. apply IH. lia.
Qed.

(** [new Set(l).size === l.length] *)
Lemma new_set_size l : length (new_set l) = length l ↔ NoDup l.
Proof.
  split.
  - intros E. rewrite <- (reverse_Permutation l). apply remove_dups_length. unfold new_set in E. by rewrite length_reverse, <- (length_reverse l) in E.
  - intros Hn. apply Permutation_length, NoDup_Permutation; [apply NoDup_new_set|done|]. intros x. apply elem_of_new_set.
Qed.

(** The elements decide a sorted set. *)
Definition sorted_set (l : list string) : list string := sort_by id (new_set l).

Lemma elem_of_sorted_set x l : x ∈ sorted_set l ↔ x ∈ l.
Proof. unfold sorted_set. by rewrite sort_by_perm, elem_of_new_set. Qed.

Lemma NoDup_sorted_set l : NoDup (sorted_set l).
Proof. unfold sorted_set. rewrite sort_by_perm. apply NoDup_new_set. Qed.

Lemma sorted_set_ext l l' : (∀ x, x ∈ l ↔ x ∈ l') → sorted_set l = sorted_set l'.
Proof.
  intros H. apply sort_by_perm_eq; [by intros x y _ _|]. apply NoDup_Permutation; [apply NoDup_new_set..|]. intros x. by rewrite !elem_of_new_set.
Qed.

(** ** A JavaScript [Map]: entries in the order their keys were first set *)

Section entries.
Context {V : Type}.

Fixpoint map_set (k : string) (v : V) (m : list (string * V)) : list (string * V) :=
  match m with
  | [] => [(k, v)]
  | (k', v') :: m => if bool_decide (k' = k) then (k, v) :: m else (k', v') :: map_set k v m
  end.

Fixpoint map_get (k : string) (m : list (string * V)) : option V :=
  match m with [] => None | (k', v) :: m => if bool_decide (k' = k) then Some v else map_get k m end.

Lemma map_get_set k k' v m : map_get k (map_set k' v m) = if bool_decide (k' = k) then Some v else map_get k m.
Proof.
  induction m as [|[k1 v1] m IH]; cbn; [done|]. destruct (bool_decide_reflect (k1 = k')) as [->|E1]; cbn.
  - by destruct (bool_decide_reflect (k' = k)).
  - rewrite IH. destruct (bool_decide_reflect (k1 = k)) as [->|E2]; [|done]. by rewrite bool_decide_eq_false_2 by congruence.
Qed.

Lemma map_get_elem k v m : map_get k m = Some v → (k, v) ∈ m.
Proof. induction m as [|[k1 v1] m IH]; cbn; [done|]. case_bool_decide as E; [intros [= ->]; subst; by left|]. intros H. right. auto. Qed.

Lemma map_get_NoDup k v m : NoDup m.*1 → (k, v) ∈ m → map_get k m = Some v.
Proof.
  induction m as [|[k1 v1] m IH]; cbn; intros Hn H; [by apply elem_of_nil in H|]. apply NoDup_cons in Hn as [Hk Hn].
  apply elem_of_cons in H as [[= -> ->]|H]; [by rewrite bool_decide_eq_true_2|].
  rewrite bool_decide_eq_false_2; [by apply IH|]. intros ->. apply Hk, list_elem_of_fmap. by exists (k, v).
Qed.

Lemma map_set_keys k v m k' : k' ∈ (map_set k v m).*1 ↔ k' = k ∨ k' ∈ m.*1.
Proof.
  induction m as [|[k1 v1] m IH]; cbn; [rewrite list_elem_of_singleton, elem_of_nil; tauto|].
  case_bool_decide as E; cbn; rewrite !elem_of_cons; [subst; tauto|]. rewrite IH. tauto.
Qed.

Lemma map_set_NoDup k v m : NoDup m.*1 → NoDup (map_set k v m).*1.
Proof.
  induction m as [|[k1 v1] m IH]; cbn; intros Hn; [by apply NoDup_singleton|]. case_bool_decide as E; cbn; [by subst|].
  apply NoDup_cons in Hn as [H1 H2]. apply NoDup_cons. split; [|auto]. rewrite map_set_keys. naive_solver.
Qed.
End entries.

(** ** The fingerprint: FNV-1a of 32 bits

    [hash ^= input.charCodeAt(index); hash = Math.imul(hash, 0x01000193)] on int32
    values, printed as eight hexadecimal digits. Characters are code units below 256. *)

Definition to_int32 (z : Z) : Z := let m := z mod 2 ^ 32 in if m <? 2 ^ 31 then m else m - 2 ^ 32.

Definition imul (a b : Z) : Z := to_int32 (a * b).

Fixpoint fnv1a (input : string) (hash : Z) : Z :=
  match input with
  | EmptyString => hash
  | String c input => fnv1a input (imul (Z.lxor (to_int32 hash) (Z.of_N (N_of_ascii c))) 0x01000193)
  end.

Definition hex_char (d : Z) : ascii := ascii_of_nat (Z.to_nat (if d <? 10 then 48 + d else 87 + d)).

(** [(hash >>> 0).toString(16).padStart(8, '0')] *)
Fixpoint hex (digits : nat) (z : Z) (acc : string) : string :=
  match digits with O => acc | S n => hex n (z / 16) (String (hex_char (z mod 16)) acc) end.

Definition stableFingerprint (input : string) : string := ("fnv1a32:" ++ hex 8 (fnv1a input 0x811c9dc5 mod 2 ^ 32) "")%string.

(** ** Texts: characters they lack, and separators *)

Fixpoint lacks (c : ascii) (s : string) : bool := match s with EmptyString => true | String a s => negb (Ascii.eqb a c) && lacks c s end.

Lemma append_nil_r s : (s ++ "")%string = s.
Proof. induction s as [|a s IH]; [done|]. by rewrite append_String, IH. Qed.

Lemma lacks_app c a b : lacks c (a ++ b)%string = lacks c a && lacks c b.
Proof. induction a as [|x a IH]; [done|]. rewrite append_String. cbn. by rewrite IH, andb_assoc. Qed.

(** A separator that neither text has tells where the first one ends. *)
Lemma separator_inj c a b x y : lacks c a = true → lacks c b = true → (a ++ String c x = b ++ String c y)%string → a = b ∧ x = y.
Proof.
  revert b. induction a as [|d a IH]; intros [|e b] Ha Hb; rewrite ?append_nil_l, ?append_String; cbn in Ha, Hb.
  - by intros [= ->].
  - intros [= <- _]. by rewrite Ascii.eqb_refl in Hb.
  - intros [= -> _]. by rewrite Ascii.eqb_refl in Ha.
  - intros [= -> E]. apply andb_true_iff in Ha as [_ Ha], Hb as [_ Hb]. by destruct (IH b Ha Hb E) as [-> ->].
Qed.

Lemma js_trim_idemp s : js_trim (js_trim s) = js_trim s.
Proof. apply trim_idemp. Qed.
