(* ===== verification/ArtifactUploads.v ===== *)
(** * Multipart uploads of artifacts

    [tasks/artifact-upload.ts]: the session table with its four statements
    ([PostgresArtifactUploadSessionStore]) and [ArtifactUploadService], every method
    as a program that awaits the store, the storage provider, the host and the file
    system; [planMultipartUpload] of [tasks/artifact-storage.ts].

    The provider, the clock, [randomUUID], the host's callbacks and the file are one
    parameter that answers each call in any way. Metrics, [created_at] and
    [updated_at] are left out. *)

From stdpp Require Import base gmap strings list sorting.
From Stdlib Require Import Ascii ZArith Lia.
From S2P Require Import Prelude Programs.

#[local] Open Scope prog_scope.

Module ArtifactUploads.

(** ** Data *)

Inductive ArtifactUploadState := Uploading | Completing | Completed | Aborted | Expired | Uncertain.

#[export] Instance upload_state_eq : EqDecision ArtifactUploadState.
Proof. solve_decision. Defined.

Record ArtifactUploadPart := Part { partNumber : Z; etag : string; sizeBytes : Z }.

#[export] Instance upload_part_eq : EqDecision ArtifactUploadPart.
Proof. solve_decision. Defined.

Record ArtifactUploadSession := Session {
  u_id : string; u_tenantId : string; u_ownerId : string; u_taskId : option string; u_executionId : option string;
  u_artifactId : string; u_provider : string; u_providerUploadId : string; u_reference : string; u_name : string; u_contentType : string;
  u_sizeBytes : Z; u_partSize : Z;
  u_parts : list ArtifactUploadPart; u_state : ArtifactUploadState; u_checksumSha256 : option string; u_lastError : option string;
  u_artifactExpiresAt : Z; u_expiresAt : Z; u_version : Z;
}.

(** [{ ...session, parts }] and the like. *)
Definition with_parts (ps : list ArtifactUploadPart) (s : ArtifactUploadSession) : ArtifactUploadSession :=
  Session (u_id s) (u_tenantId s) (u_ownerId s) (u_taskId s) (u_executionId s) (u_artifactId s) (u_provider s) (u_providerUploadId s) (u_reference s)
    (u_name s) (u_contentType s) (u_sizeBytes s) (u_partSize s) ps (u_state s) (u_checksumSha256 s) (u_lastError s) (u_artifactExpiresAt s) (u_expiresAt s) (u_version s).
Definition with_state (x : ArtifactUploadState) (err : option string) (s : ArtifactUploadSession) : ArtifactUploadSession :=
  Session (u_id s) (u_tenantId s) (u_ownerId s) (u_taskId s) (u_executionId s) (u_artifactId s) (u_provider s) (u_providerUploadId s) (u_reference s)
    (u_name s) (u_contentType s) (u_sizeBytes s) (u_partSize s) (u_parts s) x (u_checksumSha256 s) err (u_artifactExpiresAt s) (u_expiresAt s) (u_version s).
Definition with_checksum (c : string) (s : ArtifactUploadSession) : ArtifactUploadSession :=
  Session (u_id s) (u_tenantId s) (u_ownerId s) (u_taskId s) (u_executionId s) (u_artifactId s) (u_provider s) (u_providerUploadId s) (u_reference s)
    (u_name s) (u_contentType s) (u_sizeBytes s) (u_partSize s) (u_parts s) (u_state s) (Some c) (u_lastError s) (u_artifactExpiresAt s) (u_expiresAt s) (u_version s).

Inductive upload_error : Type :=
| UploadNotFound
| VersionConflict
| ChecksumConflict
| ConstraintViolated
| InvalidArgument
| OutOfRange
| NotUploading (state : ArtifactUploadState)
| NotAuthorized
| SizeMismatch
| FileChanged
| CompletedUpload
| UncertainCompletion (session : ArtifactUploadSession)
| OtherFailure (message : string).

Definition is_hex (a : ascii) : bool := (Ascii.leb "0" a && Ascii.leb a "9") || (Ascii.leb "a" a && Ascii.leb a "f").

Fixpoint all_hex (s : string) : bool := match s with EmptyString => true | String a s => is_hex a && all_hex s end.

(** [/^[0-9a-f]{64}$/] *)
Definition is_sha256 (s : string) : bool := Nat.eqb (String.length s) 64 && all_hex s.

(** ** The plan *)

Record MultipartPlan := Plan { pl_partSize : Z; pl_queueSize : Z; pl_estimatedParts : Z; pl_memoryBudgetBytes : Z }.

(** [Math.ceil(a / b)] *)
Definition ceil_div (a b : Z) : Z := (a + b - 1) / b.

Definition MIB : Z := 1024 * 1024.

Definition planMultipartUpload (size : option Z) (memoryBudget : option Z) : result upload_error MultipartPlan :=
  let memoryBudgetBytes := default (64 * MIB) memoryBudget in
  let sized := match size with Some z => negb (z =? 0) | None => false end in
  if match size with Some z => (z <? 0) || (MAX_SAFE_INTEGER <? z) | None => false end then Err OutOfRange else
  if (MAX_SAFE_INTEGER <? memoryBudgetBytes) || (memoryBudgetBytes <? 10 * MIB) then Err OutOfRange else
  let minimum := 5 * MIB in
  let required := if sized then ceil_div (default 0 size) 9500 else 16 * MIB in
  let partSize := Z.max minimum (ceil_div required minimum * minimum) in
  let queueSize := Z.max 1 (Z.min 8 (memoryBudgetBytes / partSize)) in
  Ok (Plan partSize queueSize (if sized then ceil_div (default 0 size) partSize else 0) memoryBudgetBytes).

(** ** The parts of a session *)

Definition totalParts (s : ArtifactUploadSession) : Z := ceil_div (u_sizeBytes s) (u_partSize s).

Definition expectedPartSize (s : ArtifactUploadSession) (n : Z) : result upload_error Z :=
  let maximum := totalParts s in
  if (n <? 1) || (maximum <? n) then Err OutOfRange else
  Ok (if n =? maximum then u_sizeBytes s - (n - 1) * u_partSize s else u_partSize s).

Definition validatePart (s : ArtifactUploadSession) (p : ArtifactUploadPart) : result upload_error unit :=
  if (partNumber p <? 1) || js_blank (etag p) || (sizeBytes p <? 1) || (MAX_SAFE_INTEGER <? sizeBytes p) then Err InvalidArgument else
  match expectedPartSize s (partNumber p) with
  | Err e => Err e
  | Ok n => if sizeBytes p =? n then Ok tt else Err OutOfRange
  end.

Definition parts_total (ps : list ArtifactUploadPart) : Z := foldr (λ p t, sizeBytes p + t) 0 ps.

Definition part_le (p q : ArtifactUploadPart) : Prop := partNumber p ≤ partNumber q.
#[export] Instance part_le_dec : RelDecision part_le.
Proof. intros p q. unfold part_le. apply _. Defined.

(** [sort((a, b) => a.partNumber - b.partNumber)] *)
Definition sort_parts : list ArtifactUploadPart → list ArtifactUploadPart := merge_sort part_le.

(** ** The table *)

(** The CHECK constraints. *)
Definition row_ok (s : ArtifactUploadSession) : bool :=
  forallb (λ t, negb (bool_decide (btrim t = "")))
    [u_id s; u_tenantId s; u_ownerId s; u_artifactId s; u_provider s; u_providerUploadId s; u_reference s; u_name s; u_contentType s]
  && (0 <=? u_sizeBytes s) && (5242880 <=? u_partSize s) && match u_checksumSha256 s with Some c => is_sha256 c | None => true end
  && match u_lastError s with Some m => Nat.leb (String.length m) 2048 | None => true end && (0 <? u_version s).

(** UNIQUE (tenant_id, owner_id, artifact_id) *)
Definition same_artifact (s r : ArtifactUploadSession) : bool :=
  bool_decide (u_tenantId s = u_tenantId r) && bool_decide (u_ownerId s = u_ownerId r) && bool_decide (u_artifactId s = u_artifactId r).

Notation rows := (gmap string ArtifactUploadSession).

Definition create_row (task_exists : string → bool) (s : ArtifactUploadSession) (t : rows) : result upload_error (ArtifactUploadSession * rows) :=
  if negb (row_ok s) || bool_decide (is_Some (t !! u_id s)) || existsb (λ x, same_artifact s x.2) (map_to_list t)
     || match u_taskId s with Some id => negb (task_exists id) | None => false end
  then Err ConstraintViolated else Ok (s, <[u_id s := s]> t).

Definition owned_by (owner tenant : string) (r : ArtifactUploadSession) : bool :=
  bool_decide (u_ownerId r = owner) && bool_decide (u_tenantId r = tenant).

Definition select_row (id owner tenant : string) (t : rows) : result upload_error ArtifactUploadSession :=
  match t !! id with
  | Some r => if owned_by owner tenant r then Ok r else Err UploadNotFound
  | None => Err UploadNotFound
  end.

(** The row [r] after the UPDATE with the values of [s]. *)
Definition updated_row (s r : ArtifactUploadSession) : ArtifactUploadSession :=
  Session (u_id r) (u_tenantId r) (u_ownerId r) (u_taskId r) (u_executionId r) (u_artifactId r) (u_provider r) (u_providerUploadId r) (u_reference r)
    (u_name r) (u_contentType r) (u_sizeBytes r) (u_partSize r) (u_parts s) (u_state s) (u_checksumSha256 s) (u_lastError s)
    (u_artifactExpiresAt s) (u_expiresAt s) (u_version r + 1).

Definition save_row (s : ArtifactUploadSession) (expectedVersion : Z) (t : rows) : result upload_error (ArtifactUploadSession * rows) :=
  match t !! u_id s with
  | Some r =>
      if owned_by (u_ownerId s) (u_tenantId s) r && (u_version r =? expectedVersion) then
        if negb (row_ok (updated_row s r)) || (INT8_MAX <? u_version r + 1) then Err ConstraintViolated
        else Ok (updated_row s r, <[u_id s := updated_row s r]> t)
      else Err VersionConflict
  | None => Err VersionConflict
  end.

Definition expirable (now : Z) (r : ArtifactUploadSession) : bool :=
  (bool_decide (u_state r = Uploading) || bool_decide (u_state r = Uncertain)) && (u_expiresAt r <=? now).

Definition expires_before (a b : ArtifactUploadSession) : Prop :=
  u_expiresAt a < u_expiresAt b ∨ u_expiresAt a = u_expiresAt b ∧ String.leb (u_id a) (u_id b) = true.
#[export] Instance expires_before_dec : RelDecision expires_before.
Proof. intros a b. unfold expires_before. apply _. Defined.

Definition expired_row (r : ArtifactUploadSession) : ArtifactUploadSession := updated_row (with_state Expired (u_lastError r) r) r.

Definition claim_expired_rows (limit now : Z) (t : rows) : list ArtifactUploadSession * rows :=
  let due := take (Z.to_nat limit) (merge_sort expires_before (List.filter (expirable now) (map_to_list t).*2)) in
  (expired_row <$> due, foldr (λ r t, <[u_id r := expired_row r]> t) t due).

(** ** Calls *)

Inductive call : Type :=
| StoreCreate (s : ArtifactUploadSession)
| StoreGet (id owner tenant : string)
| StoreSave (s : ArtifactUploadSession) (expectedVersion : Z)
| StoreClaimExpired (limit now : Z)
| Now
| RandomUUID
| AuthorizeTask (taskId owner tenant : string)
| Register (taskId : string) (s : ArtifactUploadSession)
| DirectCreate (sessionId artifactId name contentType : string) (size partSize : Z) (owner tenant : string)
| DirectSignPart (uploadId reference : string) (n : Z)
| DirectUploadPart (uploadId reference : string) (n : Z)
| DirectListParts (uploadId reference : string)
| DirectComplete (uploadId reference : string) (parts : list ArtifactUploadPart)
| DirectAbort (uploadId reference : string)
| DirectVerify (reference : string) (expectedSizeBytes : Z) (contentType : string)
| Stat (path : string)
| Sha256File (path : string)
| ReadFilePart (path : string) (position length : Z)
| OnProgress (uploadedBytes totalBytes : Z).

Record file_stat := FileStat { fs_isFile : bool; fs_size : Z; fs_mtimeMs : Z }.

Definition ans (c : call) : Type :=
  match c with
  | StoreCreate _ | StoreGet _ _ _ | StoreSave _ _ => ArtifactUploadSession
  | StoreClaimExpired _ _ => list ArtifactUploadSession
  | Now | DirectVerify _ _ _ => Z
  | RandomUUID | Register _ _ | DirectSignPart _ _ _ | DirectUploadPart _ _ _ | Sha256File _ => string
  | DirectCreate _ _ _ _ _ _ _ _ => string * string
  | DirectListParts _ _ => list ArtifactUploadPart
  | AuthorizeTask _ _ _ | DirectComplete _ _ _ | DirectAbort _ _ | ReadFilePart _ _ _ | OnProgress _ _ => unit
  | Stat _ => file_stat
  end.

Notation program := (prog ans upload_error).

(** What the provider was asked and answered. *)
Inductive entry : Type :=
| VerifiedAs (reference : string) (expectedSizeBytes : Z) (contentType : string) (answer : result upload_error Z)
| CompletedAs (uploadId reference : string) (parts : list ArtifactUploadPart)
| AbortedAs (uploadId reference : string).

Definition records (c : call) : result upload_error (ans c) → list entry :=
  match c with
  | DirectVerify reference size ctype => λ r, [VerifiedAs reference size ctype r]
  | DirectComplete uploadId reference parts => λ _, [CompletedAs uploadId reference parts]
  | DirectAbort uploadId reference => λ _, [AbortedAs uploadId reference]
  | _ => λ _, []
  end.

(** The calls, by what they answer with. *)
Definition store_create (s : ArtifactUploadSession) : program ArtifactUploadSession := await (StoreCreate s).
Definition store_getForOwner (id owner tenant : string) : program ArtifactUploadSession := await (StoreGet id owner tenant).
Definition store_save (s : ArtifactUploadSession) (expectedVersion : Z) : program ArtifactUploadSession := await (StoreSave s expectedVersion).
Definition store_claimExpired (limit now : Z) : program (list ArtifactUploadSession) := await (StoreClaimExpired limit now).
Definition register_artifact (taskId : string) (s : ArtifactUploadSession) : program string := await (Register taskId s).
Definition direct_create (sessionId artifactId name contentType : string) (size partSize : Z) (owner tenant : string) : program (string * string) := await (DirectCreate sessionId artifactId name contentType size partSize owner tenant).
Definition direct_signPart (uploadId reference : string) (n : Z) : program string := await (DirectSignPart uploadId reference n).
Definition direct_uploadPart (uploadId reference : string) (n : Z) : program string := await (DirectUploadPart uploadId reference n).
Definition direct_listParts (uploadId reference : string) : program (list ArtifactUploadPart) := await (DirectListParts uploadId reference).
Definition direct_complete (uploadId reference : string) (parts : list ArtifactUploadPart) : program unit := await (DirectComplete uploadId reference parts).
Definition direct_abort (uploadId reference : string) : program unit := await (DirectAbort uploadId reference).
Definition direct_verify (reference : string) (size : Z) (contentType : string) : program Z := await (DirectVerify reference size contentType).
Definition authorizeTask (taskId owner tenant : string) : program unit := await (AuthorizeTask taskId owner tenant).
Definition stat (path : string) : program file_stat := await (Stat path).
Definition sha256File (path : string) : program string := await (Sha256File path).
Definition readWorkerFilePart (path : string) (position length : Z) : program unit := await (ReadFilePart path position length).
Definition onProgress (uploadedBytes totalBytes : Z) : program unit := await (OnProgress uploadedBytes totalBytes).
Definition current_time : program Z := await (Now).
Definition randomUUID : program string := await (RandomUUID).

Section service.
Context {P : Type} (provider : ∀ c, P → result upload_error (ans c) * P) (task_exists : string → bool).

Record world := World { uw_rows : rows; uw_provider : P; uw_log : list entry }.

Definition on_rows {A} (w : world) (r : result upload_error (A * rows)) : result upload_error A * world :=
  match r with
  | Ok (a, t) => (Ok a, World t (uw_provider w) (uw_log w))
  | Err e => (Err e, w)
  end.

Definition outside (c : call) (w : world) : result upload_error (ans c) * world :=
  let '(r, p) := provider c (uw_provider w) in (r, World (uw_rows w) p (uw_log w ++ records c r)).

Definition perform (c : call) : world → result upload_error (ans c) * world :=
  match c return world → result upload_error (ans c) * world with
  | StoreCreate s => λ w, on_rows w (create_row task_exists s (uw_rows w))
  | StoreGet id owner tenant => λ w, (select_row id owner tenant (uw_rows w), w)
  | StoreSave s v => λ w, on_rows w (save_row s v (uw_rows w))
  | StoreClaimExpired limit now => λ w, on_rows w (Ok (claim_expired_rows limit now (uw_rows w)))
  | c => outside c
  end.
End service.

(** ** [ArtifactUploadService] *)

Section methods.
(** SHA-256 of an artifact's and of a worker session's identity; the provider's name;
    whether two lists of parts print alike in JSON, where the keys of a row come back in
    another order than the provider's. *)
Context (artifact_digest : string → string → string → Z → string) (session_digest : string → string → string → string).
Context (provider_name : string) (same_json : list ArtifactUploadPart → list ArtifactUploadPart → bool).
(** The optional parts of the constructor: [register], [authorizeTask] and the
    provider's [uploadPart]. *)
Context (has_register has_authorize has_uploadPart : bool).

Definition lift {A} (r : result upload_error A) : program A := match r with Ok a => Ret a | Err e => Throw e end.
Definition guard (b : bool) (e : upload_error) : program unit := if b then Throw e else Ret tt.

Definition required (t : string) : program string := if js_blank t then Throw InvalidArgument else Ret (js_trim t).

(** [value?.trim() || undefined] *)
Definition trimmed (t : option string) : option string := truthy (js_trim <$> t).

Record CreateArtifactUploadRequest := CreateRequest {
  q_ownerId : string; q_tenantId : option string; q_taskId : option string; q_executionId : option string; q_artifactId : option string;
  q_name : string; q_contentType : string; q_sizeBytes : Z; q_checksumSha256 : option string; q_expiresInMs : option Z; q_artifactExpiresInMs : option Z;
  q_memoryBudgetBytes : option Z; q_sessionId : option string;
}.

Definition create (q : CreateArtifactUploadRequest) : program (ArtifactUploadSession * MultipartPlan) :=
  let! ownerId := required (q_ownerId q) in
  let tenantId := default "default" (trimmed (q_tenantId q)) in
  let! name := required (q_name q) in
  let! contentType := required (q_contentType q) in
  guard ((q_sizeBytes q <? 1) || (MAX_SAFE_INTEGER <? q_sizeBytes q)) OutOfRange ;!
  guard (match truthy (q_checksumSha256 q) with Some c => negb (is_sha256 c) | None => false end) InvalidArgument ;!
  (match truthy (q_taskId q) with
   | Some t => guard (negb has_authorize) NotAuthorized ;! (authorizeTask (js_trim t) ownerId tenantId)
   | None => Ret tt
   end) ;!
  let! id := match truthy (q_sessionId q) with Some s => required s | None => randomUUID end in
  let artifactId := default ("artifact-" ++ artifact_digest tenantId ownerId name (q_sizeBytes q))%string (trimmed (q_artifactId q)) in
  let! plan := lift (planMultipartUpload (Some (q_sizeBytes q)) (q_memoryBudgetBytes q)) in
  let! created := direct_create id artifactId name contentType (q_sizeBytes q) (pl_partSize plan) ownerId tenantId in
  let! now := current_time in
  let session := Session id tenantId ownerId (trimmed (q_taskId q)) (trimmed (q_executionId q)) artifactId provider_name created.1 created.2 name contentType
    (q_sizeBytes q) (pl_partSize plan) [] Uploading (truthy (q_checksumSha256 q)) None
    (now + default (7 * 24 * 60 * 60 * 1000) (q_artifactExpiresInMs q)) (now + default (24 * 60 * 60 * 1000) (q_expiresInMs q)) 1 in
  let! saved := store_create session in
  Ret (saved, plan).

Definition ensureUploading (s : ArtifactUploadSession) : program unit :=
  guard (negb (bool_decide (u_state s = Uploading))) (NotUploading (u_state s)).

Definition signPart (id owner tenant : string) (n : Z) : program string :=
  let! session := store_getForOwner id owner tenant in
  ensureUploading session ;!
  guard ((n <? 1) || (totalParts session <? n)) OutOfRange ;!
  direct_signPart (u_providerUploadId session) (u_reference session) n.

Fixpoint validateParts (s : ArtifactUploadSession) (ps : list ArtifactUploadPart) : program unit :=
  match ps with
  | [] => Ret tt
  | p :: ps => lift (validatePart s p) ;! validateParts s ps
  end.

Definition resume (id owner tenant : string) : program ArtifactUploadSession :=
  let! session := store_getForOwner id owner tenant in
  if bool_decide (u_state session = Uncertain) || bool_decide (u_state session = Completed) then Ret session else
  ensureUploading session ;!
  let! providerParts := direct_listParts (u_providerUploadId session) (u_reference session) in
  let parts := sort_parts providerParts in
  validateParts session parts ;!
  if same_json parts (u_parts session) then Ret session else (store_save (with_parts parts session) (u_version session)).

Definition recordPart (id owner tenant : string) (expectedVersion : Z) (part : ArtifactUploadPart) : program ArtifactUploadSession :=
  let! session := store_getForOwner id owner tenant in
  ensureUploading session ;!
  lift (validatePart session part) ;!
  let parts := sort_parts (List.filter (λ v, negb (partNumber v =? partNumber part)) (u_parts session) ++ [Part (partNumber part) (js_trim (etag part)) (sizeBytes part)]) in
  guard (u_sizeBytes session <? parts_total parts) OutOfRange ;!
  store_save (with_parts parts session) expectedVersion.

Definition registerCompleted (register : bool) (s : ArtifactUploadSession) : program (option string) :=
  match u_taskId s with
  | Some t => if register && has_register then let! a := (register_artifact t s) in Ret (Some a) else Ret None
  | None => Ret None
  end.

(** The provider's readback. *)
Definition readback (s : ArtifactUploadSession) : program unit :=
  let! size := direct_verify (u_reference s) (u_sizeBytes s) (u_contentType s) in
  guard (negb (size =? u_sizeBytes s)) SizeMismatch.

Definition completed := (ArtifactUploadSession * option string)%type.

(** [complete] of a session whose outcome is uncertain. *)
Definition complete_uncertain (register : bool) (session : ArtifactUploadSession) (expectedVersion : Z) : program completed :=
  guard (negb (u_version session =? expectedVersion)) VersionConflict ;!
  ptry (readback session ;!
    let! artifact := registerCompleted register session in
    let! saved := store_save (with_state Completed None session) (u_version session) in
    Ret (saved, artifact)) (λ _, Throw (UncertainCompletion session)).

(** [safe(error)]: at most 2048 characters of the message. *)
Definition error_text (e : upload_error) : string :=
  String.substring 0 2048 match e with OtherFailure m => m | _ => "artifact upload failed" end.

(** The rest of [complete] once the session is [completing]. [session] is a variable the
    [catch] block reads: before the store answered [completed] and after it. *)
Definition complete_now (register : bool) (session : ArtifactUploadSession) : program completed :=
  let uncertain (s : ArtifactUploadSession) (e : upload_error) : program completed :=
    let! s' := (store_save (with_state Uncertain (Some (error_text e)) s) (u_version s)) in Throw (UncertainCompletion s') in
  let! saved := ptry
    ((direct_complete (u_providerUploadId session) (u_reference session) (u_parts session)) ;!
     readback session ;!
     let! s := store_save (with_state Completed (u_lastError session) session) (u_version session) in Ret (inl s))
    (λ e, Ret (inr e)) in
  match saved with
  | inr e => uncertain session e
  | inl s => ptry (let! artifact := registerCompleted register s in Ret (s, artifact)) (uncertain s)
  end.

Definition complete (id owner tenant : string) (expectedVersion : Z) (checksumSha256 : option string) (register : bool) : program completed :=
  let! session := store_getForOwner id owner tenant in
  let! checked := match checksumSha256 with
    | None => Ret (session, expectedVersion)
    | Some c =>
        guard (negb (is_sha256 c)) InvalidArgument ;!
        guard (match truthy (u_checksumSha256 session) with Some old => negb (bool_decide (old = c)) | None => false end) ChecksumConflict ;!
        let! s := match truthy (u_checksumSha256 session) with
          | Some _ => Ret session
          | None => store_save (with_checksum c session) (u_version session)
          end in
        Ret (s, u_version s)
    end in
  let '(session, expectedVersion) := checked in
  guard (bool_decide (is_Some (truthy (u_taskId session))) && negb (bool_decide (is_Some (truthy (u_checksumSha256 session))))) InvalidArgument ;!
  if bool_decide (u_state session = Uncertain) then complete_uncertain register session expectedVersion else
  ensureUploading session ;!
  guard (negb (parts_total (u_parts session) =? u_sizeBytes session)) OutOfRange ;!
  let! session := store_save (with_state Completing (u_lastError session) session) expectedVersion in
  complete_now register session.

Definition abort (id owner tenant : string) (expectedVersion : Z) : program ArtifactUploadSession :=
  let! session := store_getForOwner id owner tenant in
  guard (bool_decide (u_state session = Completed)) CompletedUpload ;!
  direct_abort (u_providerUploadId session) (u_reference session) ;!
  store_save (with_state Aborted (u_lastError session) session) expectedVersion.

(** [abort().catch(() => undefined)] of each claimed session. *)
Fixpoint abort_all (ss : list ArtifactUploadSession) : program unit :=
  match ss with
  | [] => Ret tt
  | s :: ss => ptry ((direct_abort (u_providerUploadId s) (u_reference s))) (λ _, Ret tt) ;! abort_all ss
  end.

Definition cleanup (limit : Z) : program Z :=
  guard ((limit <? 1) || (100 <? limit)) OutOfRange ;!
  let! now := current_time in
  let! sessions := store_claimExpired limit now in
  abort_all sessions ;!
  Ret (Z.of_nat (length sessions)).

(** ** [uploadWorkerFile]

    An aborted signal is an error of the next read of the file. *)

Record ArtifactUploadWorkerFileRequest := WorkerFile {
  f_path : string; f_taskId : string; f_executionId : string; f_artifactId : string; f_ownerId : string; f_tenantId : string; f_name : string; f_contentType : string;
}.

Definition assertStableFile (before after : file_stat) : program unit :=
  guard (negb (fs_size before =? fs_size after) || negb (fs_mtimeMs before =? fs_mtimeMs after)) FileChanged.

Definition assertWorkerSession (s : ArtifactUploadSession) (taskId executionId artifactId name contentType : string) (size : Z) (checksum : string) : program unit :=
  guard (negb (bool_decide (u_taskId s = Some taskId) && bool_decide (u_executionId s = Some executionId) && bool_decide (u_artifactId s = artifactId)
    && bool_decide (u_name s = name) && bool_decide (u_contentType s = contentType) && (u_sizeBytes s =? size) && bool_decide (u_checksumSha256 s = Some checksum)))
    InvalidArgument.

(** The parts from [n] on, [todo] of them; a part that is known is skipped. *)
Fixpoint upload_parts (todo : nat) (n uploaded : Z) (known : list Z) (path owner tenant : string) (session : ArtifactUploadSession) : program ArtifactUploadSession :=
  match todo with
  | O => Ret session
  | S todo =>
      if bool_decide (n ∈ known) then upload_parts todo (n + 1) uploaded known path owner tenant session else
      let! size := lift (expectedPartSize session n) in
      readWorkerFilePart path ((n - 1) * u_partSize session) size ;!
      let! tag := direct_uploadPart (u_providerUploadId session) (u_reference session) n in
      let! tag := required tag in
      let! session := recordPart (u_id session) owner tenant (u_version session) (Part n tag size) in
      onProgress (uploaded + size) (u_sizeBytes session) ;!
      upload_parts todo (n + 1) (uploaded + size) known path owner tenant session
  end.

Definition uploadWorkerFile (f : ArtifactUploadWorkerFileRequest) : program ArtifactUploadSession :=
  guard (negb has_uploadPart) InvalidArgument ;!
  let! path := required (f_path f) in
  let! ownerId := required (f_ownerId f) in
  let! tenantId := required (f_tenantId f) in
  let! taskId := required (f_taskId f) in
  let! executionId := required (f_executionId f) in
  let! artifactId := required (f_artifactId f) in
  let! name := required (f_name f) in
  let! contentType := required (f_contentType f) in
  let! before := stat path in
  guard (negb (fs_isFile before) || (fs_size before <? 1)) InvalidArgument ;!
  let! checksum := sha256File path in
  let! after := stat path in
  assertStableFile before after ;!
  let sessionId := ("worker-upload-" ++ session_digest taskId executionId artifactId)%string in
  let! session := ptry (resume sessionId ownerId tenantId) (λ e,
    match e with
    | UploadNotFound =>
        ptry (let! x := create (CreateRequest ownerId (Some tenantId) (Some taskId) (Some executionId) (Some artifactId) name contentType (fs_size before) (Some checksum)
                 None None None (Some sessionId)) in Ret x.1)
          (λ createError, ptry (resume sessionId ownerId tenantId) (λ _, Throw createError))
    | e => Throw e
    end) in
  assertWorkerSession session taskId executionId artifactId name contentType (fs_size before) checksum ;!
  if bool_decide (u_state session = Completed) then Ret session else
  if bool_decide (u_state session = Uncertain) then
    let! x := complete (u_id session) ownerId tenantId (u_version session) (Some checksum) false in Ret x.1
  else
  let! session := resume (u_id session) ownerId tenantId in
  let uploaded := parts_total (u_parts session) in
  onProgress uploaded (u_sizeBytes session) ;!
  let! session := upload_parts (Z.to_nat (totalParts session)) 1 uploaded (partNumber <$> u_parts session) path ownerId tenantId session in
  let! again := sha256File path in
  guard (negb (bool_decide (again = checksum))) FileChanged ;!
  let! after := stat path in
  assertStableFile before after ;!
  let! x := complete (u_id session) ownerId tenantId (u_version session) (Some checksum) false in
  Ret x.1.

(** ** Calls of the service by anyone *)

Inductive method : Type :=
| MCreate (q : CreateArtifactUploadRequest)
| MSignPart (id owner tenant : string) (n : Z)
| MResume (id owner tenant : string)
| MRecordPart (id owner tenant : string) (expectedVersion : Z) (part : ArtifactUploadPart)
| MComplete (id owner tenant : string) (expectedVersion : Z) (checksum : option string) (register : bool)
| MAbort (id owner tenant : string) (expectedVersion : Z)
| MCleanup (limit : Z)
| MWorkerFile (f : ArtifactUploadWorkerFileRequest).

Definition body (m : method) : program unit :=
  match m with
  | MCreate q => started (create q)
  | MSignPart id owner tenant n => started (signPart id owner tenant n)
  | MResume id owner tenant => started (resume id owner tenant)
  | MRecordPart id owner tenant v part => started (recordPart id owner tenant v part)
  | MComplete id owner tenant v checksum register => started (complete id owner tenant v checksum register)
  | MAbort id owner tenant v => started (abort id owner tenant v)
  | MCleanup limit => started (cleanup limit)
  | MWorkerFile f => started (uploadWorkerFile f)
  end.
End methods.
End ArtifactUploads.
