(* ===== verification/ArtifactUploadFacts.v ===== *)
(** * What artifact uploads promise

    However many calls of the service overlap, and wherever any of them stops, a
    session is [completed] only when the provider read back the declared size and every
    part of the plan is recorded. The plan stays within the provider's limits. A
    process that dies while it completes a session leaves it where only [abort] gets it
    out; [abort] reaches the provider before the version is checked. *)

From stdpp Require Import base gmap strings list sorting.
From Stdlib Require Import Ascii ZArith Lia.
From S2P Require Import Prelude Programs ArtifactUploads.

#[local] Open Scope prog_scope.

Module ArtifactUploadFacts.
Import ArtifactUploads.

(** ** Arithmetic of the parts *)

Lemma ceil_div_spec a b : 0 < b → (ceil_div a b - 1) * b < a ≤ ceil_div a b * b.
Proof. intros Hb. unfold ceil_div. pose proof (Z.div_mod (a + b - 1) b ltac:(lia)). pose proof (Z.mod_pos_bound (a + b - 1) b Hb). nia. Qed.

Lemma ceil_div_pos a b : 0 < b → 0 < a → 1 ≤ ceil_div a b.
Proof. intros Hb Ha. pose proof (ceil_div_spec a b Hb). nia. Qed.

(** The part [p] is one of the plan of [s], with the size the plan gives it. *)
Definition part_fits (s : ArtifactUploadSession) (p : ArtifactUploadPart) : Prop := expectedPartSize s (partNumber p) = Ok (sizeBytes p).

Lemma validate_fits s p : validatePart s p = Ok tt → part_fits s p.
Proof. unfold validatePart, part_fits. case_match; [done|]. case_match; [|done]. case_match; [|done]. intros _. f_equal. lia. Qed.

Lemma fits_bounds s p : 0 < u_partSize s → part_fits s p → 1 ≤ partNumber p ≤ totalParts s ∧ 0 < sizeBytes p ≤ u_partSize s.
Proof.
  intros Hp. unfold part_fits, expectedPartSize. case_match eqn:E; [done|]. intros [= <-]. apply orb_false_iff in E as [E1 E2].
  pose proof (ceil_div_spec (u_sizeBytes s) (u_partSize s) Hp). unfold totalParts in *. split; [lia|]. case_match; nia.
Qed.

(** Every part of the plan is there. *)
Definition covers (s : ArtifactUploadSession) : Prop := partNumber <$> u_parts s ≡ₚ seqZ 1 (totalParts s).

(** The size the plan gives to part [n]. *)
Definition part_length (s : ArtifactUploadSession) (n : Z) : Z := if n =? totalParts s then u_sizeBytes s - (n - 1) * u_partSize s else u_partSize s.

Fixpoint lengths (s : ArtifactUploadSession) (ns : list Z) : Z := match ns with [] => 0 | n :: ns => part_length s n + lengths s ns end.

Lemma lengths_app s l k : lengths s (l ++ k) = lengths s l + lengths s k.
Proof. induction l as [|n l IH]; cbn; [done|]. rewrite IH. lia. Qed.

Lemma lengths_perm s l k : l ≡ₚ k → lengths s l = lengths s k.
Proof. induction 1; cbn; lia. Qed.

Lemma lengths_total s ps : Forall (part_fits s) ps → lengths s (partNumber <$> ps) = parts_total ps.
Proof.
  induction 1 as [|p ps Hp _ IH]; cbn; [done|]. rewrite IH. f_equal. revert Hp. unfold part_fits, expectedPartSize, part_length.
  case_match; [done|]. by intros [= <-].
Qed.

Lemma lengths_one s i : lengths s (seqZ i 1) = part_length s i.
Proof. change (seqZ i 1) with [i]. cbn. lia. Qed.

Lemma lengths_full s m : (Z.of_nat m < totalParts s) → lengths s (seqZ 1 (Z.of_nat m)) = Z.of_nat m * u_partSize s.
Proof.
  induction m as [|m IH]; intros Hm; [done|]. replace (Z.of_nat (S m)) with (Z.of_nat m + 1) by lia. rewrite seqZ_app by lia.
  rewrite lengths_app, IH, lengths_one by lia. unfold part_length. rewrite (proj2 (Z.eqb_neq _ _)) by lia. lia.
Qed.

Lemma lengths_plan s : 0 < u_partSize s → 0 < u_sizeBytes s → lengths s (seqZ 1 (totalParts s)) = u_sizeBytes s.
Proof.
  intros Hp Hs. pose proof (ceil_div_pos _ _ Hp Hs) as Hm. fold (totalParts s) in Hm. remember (totalParts s) as m eqn:Em.
  replace m with (m - 1 + 1) by lia. rewrite seqZ_app by lia. rewrite lengths_app.
  replace (m - 1) with (Z.of_nat (Z.to_nat (m - 1))) at 1 by lia. rewrite lengths_full, lengths_one by lia. unfold part_length.
  rewrite (proj2 (Z.eqb_eq _ _)) by lia. nia.
Qed.

Lemma part_length_pos s n : 0 < u_partSize s → n ≤ totalParts s → 0 < part_length s n.
Proof. intros Hp Hn. pose proof (ceil_div_spec (u_sizeBytes s) (u_partSize s) Hp). unfold part_length, totalParts in *. case_match; nia. Qed.

(** Distinct parts of the plan that add up to the file are all of them. *)
Lemma full_covers s : 0 < u_partSize s → 0 < u_sizeBytes s → Forall (part_fits s) (u_parts s) → NoDup (partNumber <$> u_parts s) →
  parts_total (u_parts s) = u_sizeBytes s → covers s.
Proof.
  intros Hp Hs Hf Hn Ht. unfold covers. assert (partNumber <$> u_parts s ⊆+ seqZ 1 (totalParts s)) as Hsub.
  { apply NoDup_submseteq; [done|]. intros n (p & -> & Hin)%list_elem_of_fmap. apply elem_of_seqZ.
    pose proof (proj1 (Forall_forall _ _) Hf p Hin) as Hb. apply (fits_bounds s p Hp) in Hb. lia. }
  apply submseteq_Permutation in Hsub as (k & Hk). pose proof (lengths_plan s Hp Hs) as Hl. rewrite (lengths_perm _ _ _ Hk), lengths_app, lengths_total, Ht in Hl by done.
  destruct k as [|n k]; [by rewrite Hk, app_nil_r|]. exfalso. assert (Forall (λ n, n ≤ totalParts s) (n :: k)) as Hle.
  { apply Forall_forall. intros x Hx. assert (x ∈ seqZ 1 (totalParts s)) as Hin by (rewrite Hk; set_solver). apply elem_of_seqZ in Hin. lia. }
  assert (∀ ns, Forall (λ n, n ≤ totalParts s) ns → 0 ≤ lengths s ns) as Hpos.
  { induction 1 as [|x ns Hx _ IH]; cbn; [done|]. pose proof (part_length_pos s x Hp Hx). lia. }
  cbn in Hl. inversion Hle as [|? ? H1 H2]; subst. pose proof (part_length_pos s n Hp H1). specialize (Hpos k H2). lia.
Qed.

(** The plan of a file stays within the limits of multipart storage: parts of at
    least 5 MiB, at most 9500 of them, which together hold the file; what is in flight
    fits the memory budget unless a single part is larger. *)
Theorem plan_within_limits size budget p : 0 < size → planMultipartUpload (Some size) budget = Ok p →
  5 * MIB ≤ pl_partSize p ∧ 1 ≤ pl_estimatedParts p ≤ 9500 ∧
  (pl_estimatedParts p - 1) * pl_partSize p < size ≤ pl_estimatedParts p * pl_partSize p ∧
  1 ≤ pl_queueSize p ≤ 8 ∧ (pl_queueSize p * pl_partSize p ≤ pl_memoryBudgetBytes p ∨ pl_queueSize p = 1 ∧ pl_memoryBudgetBytes p < 2 * pl_partSize p).
Proof.
  intros Hs. unfold planMultipartUpload. rewrite (proj2 (Z.eqb_neq size 0)) by lia. cbn [negb default]. case_match; [done|]. case_match eqn:B; [done|].
  intros [= <-]. cbn -[Z.mul]. apply orb_false_iff in B as [_ B]. remember (default (64 * MIB) budget) as m eqn:Em.
  assert (5 * MIB = 5242880) as HM by reflexivity. assert (10 * MIB = 10485760) as HM' by reflexivity. rewrite HM in *. rewrite HM' in *.
  pose proof (ceil_div_spec size 9500 ltac:(lia)). pose proof (ceil_div_spec (ceil_div size 9500) 5242880 ltac:(lia)).
  remember (ceil_div size 9500) as a. remember (ceil_div a 5242880) as b. remember (Z.max 5242880 (b * 5242880)) as ps.
  assert (5242880 ≤ ps ∧ a ≤ ps) as [Hp Ha] by lia. pose proof (ceil_div_spec size ps ltac:(lia)). pose proof (ceil_div_pos size ps ltac:(lia) Hs).
  assert (size ≤ 9500 * ps) as Hz by lia. assert (ceil_div size ps ≤ 9500) as He.
  { assert ((ceil_div size ps - 1) * ps < 9500 * ps) as Hlt by lia. apply Z.mul_lt_mono_pos_r in Hlt; lia. }
  pose proof (Z.mul_div_le m ps ltac:(lia)) as Hd. pose proof (Z.mul_succ_div_gt m ps ltac:(lia)) as Hg. split_and!; try lia.
  destruct (Z.le_gt_cases (m / ps) 1) as [Hq|Hq].
  - destruct (Z.eq_dec (m / ps) 1) as [Eq|Nq]; [left; rewrite Eq in *; lia|right; split; [lia|]]. assert (ps * Z.succ (m / ps) ≤ ps * 1) by (apply Z.mul_le_mono_nonneg_l; lia). lia.
  - left. rewrite Z.max_r by lia. etrans; [|exact Hd]. rewrite Z.mul_comm. apply Z.mul_le_mono_nonneg_l; lia.
Qed.

(** ** The invariant of the sessions *)

(** What never changes in a row. *)
Definition plan_of (s : ArtifactUploadSession) : string * string * string * Z * Z := (u_id s, u_reference s, u_contentType s, u_sizeBytes s, u_partSize s).

Definition finishing (x : ArtifactUploadState) : bool := match x with Completing | Completed | Uncertain => true | _ => false end.

Definition read_back (s : ArtifactUploadSession) (log : list entry) : Prop := VerifiedAs (u_reference s) (u_sizeBytes s) (u_contentType s) (Ok (u_sizeBytes s)) ∈ log.

Record session_inv (log : list entry) (s : ArtifactUploadSession) : Prop := {
  si_sizes : 0 < u_sizeBytes s ∧ 0 < u_partSize s;
  si_parts : Forall (part_fits s) (u_parts s) ∧ NoDup (partNumber <$> u_parts s);
  si_total : finishing (u_state s) = true → parts_total (u_parts s) = u_sizeBytes s;
  si_verified : u_state s = Completed → read_back s log;
}.

Lemma fits_plan s s' p : plan_of s = plan_of s' → part_fits s p → part_fits s' p.
Proof. unfold part_fits, expectedPartSize, totalParts. by intros [= _ _ _ -> ->]. Qed.

(** The parts, the state and the log are what counts. *)
Lemma session_inv_same log log' s s' : plan_of s = plan_of s' → u_parts s = u_parts s' → (u_state s' = u_state s ∨ finishing (u_state s') = false) →
  log ⊆ log' → session_inv log s → session_inv log' s'.
Proof.
  intros Hp Hps Hst Hl [H1 [H2 H2'] H3 H4]. pose proof Hp as [= Ei Er Ec Ez Eps]. split.
  - by rewrite <- Ez, <- Eps.
  - rewrite <- Hps. split; [|done]. eapply Forall_impl; [exact H2|]. intros p. by apply fits_plan.
  - destruct Hst as [->|Hst]; [by rewrite <- Hps, <- Ez|congruence].
  - intros Hc. destruct Hst as [E|Hst]; [|by rewrite Hc in Hst]. unfold read_back. rewrite <- Er, <- Ec, <- Ez. apply Hl, H4. congruence.
Qed.

Section service.
Context {P : Type} (provider : ∀ c, P → result upload_error (ans c) * P) (task_exists : string → bool).
(** A listing of a multipart upload names each part once. *)
Context (listed_once : ∀ uploadId reference p ps p', provider (DirectListParts uploadId reference) p = (Ok ps, p') → NoDup (partNumber <$> ps)).
Context (artifact_digest : string → string → string → Z → string) (session_digest : string → string → string → string).
Context (provider_name : string) (same_json : list ArtifactUploadPart → list ArtifactUploadPart → bool) (has_register has_authorize has_uploadPart : bool).
Implicit Types w : world (P:=P).

Definition upload_inv w : Prop := ∀ id s, uw_rows w !! id = Some s → u_id s = id ∧ session_inv (uw_log w) s.

Record upload_ext w w' : Prop := {
  ue_log : uw_log w ⊆ uw_log w';
  ue_rows : ∀ id s, uw_rows w !! id = Some s → ∃ s', uw_rows w' !! id = Some s' ∧ plan_of s' = plan_of s;
}.

#[local] Instance upload_ext_preorder : PreOrder upload_ext.
Proof.
  split; [intros w; split; [reflexivity|eauto]|]. intros w1 w2 w3 [L1 R1] [L2 R2]. split; [set_solver|].
  intros id s Hs. destruct (R1 id s Hs) as (s' & Hs' & E). destruct (R2 id s' Hs') as (s2 & Hs2 & E2). exists s2. split; [done|congruence].
Qed.

(** What a method knows of a session it holds. *)
Definition known (s : ArtifactUploadSession) w : Prop :=
  (∃ r, uw_rows w !! u_id s = Some r ∧ plan_of r = plan_of s) ∧ session_inv (uw_log w) s.

Lemma known_stable s w w' : upload_ext w w' → known s w → known s w'.
Proof.
  intros [Hl Hr] [(r & Hk & E) Hi]. split.
  - destruct (Hr _ _ Hk) as (r' & Hk' & E'). exists r'. split; [done|congruence].
  - apply (session_inv_same (uw_log w) _ s s); auto.
Qed.

Lemma read_back_stable s w w' : upload_ext w w' → read_back s (uw_log w) → read_back s (uw_log w').
Proof. intros [Hl _]. apply Hl. Qed.

Lemma select_known id owner tenant w s : upload_inv w → select_row id owner tenant (uw_rows w) = Ok s → known s w.
Proof.
  unfold select_row. intros Hi. destruct (uw_rows w !! id) as [r|] eqn:E; [|done]. case_match; [|done]. intros [= <-].
  destruct (Hi _ _ E) as [<- Hs]. split; [by exists r|done].
Qed.

Lemma insert_row w s t : upload_inv w → session_inv (uw_log w) s → (∀ r, uw_rows w !! u_id s = Some r → plan_of s = plan_of r) →
  t = <[u_id s := s]> (uw_rows w) → let w' := World t (uw_provider w) (uw_log w) in upload_inv w' ∧ upload_ext w w' ∧ known s w'.
Proof.
  intros Hi Hs Hp -> w'. split_and!.
  - intros id s' H. cbn in H. destruct (decide (u_id s = id)) as [<-|N]; [rewrite lookup_insert_eq in H; by injection H as <-|]. rewrite lookup_insert_ne in H by done. by apply Hi.
  - split; [done|]. intros id r Hr. cbn. destruct (decide (u_id s = id)) as [<-|N]; [rewrite lookup_insert_eq|rewrite lookup_insert_ne by done; eauto].
    exists s. split; [done|]. by apply Hp.
  - split; [|done]. exists s. cbn. by rewrite lookup_insert_eq.
Qed.

Lemma save_known s v w s' t : upload_inv w → known s w → save_row s v (uw_rows w) = Ok (s', t) →
  let w' := World t (uw_provider w) (uw_log w) in (upload_inv w' ∧ upload_ext w w' ∧ known s' w') ∧ u_state s' = u_state s.
Proof.
  intros Hi [(r & Hr & Hp) Hs]. unfold save_row. rewrite Hr. case_match; [|done]. case_match; [done|]. intros [= <- <-].
  assert (plan_of (updated_row s r) = plan_of r) as E by done. split; [|done]. apply insert_row; [done| | |].
  - apply (session_inv_same (uw_log w) (uw_log w) s (updated_row s r)); [by rewrite E|done|by left|reflexivity|done].
  - cbn. destruct (Hi _ _ Hr) as [Ei _]. rewrite Ei. intros r' Hr'. by simplify_eq.
  - cbn. by destruct (Hi _ _ Hr) as [-> _].
Qed.

Lemma claim_safe limit now w ss t : upload_inv w → claim_expired_rows limit now (uw_rows w) = (ss, t) →
  let w' := World t (uw_provider w) (uw_log w) in upload_inv w' ∧ upload_ext w w'.
Proof.
  intros Hi. unfold claim_expired_rows. intros [= _ <-].
  assert (∀ r, r ∈ take (Z.to_nat limit) (merge_sort expires_before (List.filter (expirable now) (map_to_list (uw_rows w)).*2)) → uw_rows w !! u_id r = Some r) as Hin.
  { intros r Hr. apply elem_of_take in Hr as (i & Hr & _). apply list_elem_of_lookup_2 in Hr.
    rewrite merge_sort_Permutation in Hr. apply list_elem_of_In, List.filter_In in Hr as [Hr _]. apply list_elem_of_In in Hr.
    apply list_elem_of_fmap in Hr as ([id r'] & -> & Hr). apply elem_of_map_to_list in Hr. cbn. by destruct (Hi _ _ Hr) as [-> _]. }
  induction (take _ _) as [|r due IH]; cbn; [split; [exact Hi|split; [reflexivity|cbn; eauto]]|]. destruct IH as [Hi' He']; [by intros r' Hr'; apply Hin; right|].
  assert (uw_rows w !! u_id r = Some r) as Hr by (apply Hin; left). destruct (ue_rows _ _ He' _ _ Hr) as (r2 & Hr2 & E2).
  destruct (insert_row (World _ (uw_provider w) (uw_log w)) (expired_row r) (<[u_id r := expired_row r]> (foldr (λ r t, <[u_id r := expired_row r]> t) (uw_rows w) due)) Hi') as (H1 & H2 & _); [| |done|].
  - destruct (Hi _ _ Hr) as [_ Hs]. apply (session_inv_same (uw_log w) (uw_log w) r (expired_row r)); [done|done|by right|reflexivity|done].
  - intros r3 Hr3. cbn in Hr2, Hr3. assert (r3 = r2) as -> by congruence. by rewrite E2.
  - split; [done|]. by etrans.
Qed.

Lemma outside_safe c w r w' : upload_inv w → outside provider c w = (r, w') → upload_inv w' ∧ upload_ext w w' ∧ uw_log w' = uw_log w ++ records c r.
Proof.
  unfold outside. destruct (provider c (uw_provider w)) as [r0 p]. intros Hi [= <- <-]. assert (uw_log w ⊆ uw_log w ++ records c r0) as Hl by set_solver.
  split_and!; [|split; [done|cbn; eauto]|done]. intros id s Hs. destruct (Hi _ _ Hs) as [E H]. split; [done|]. apply (session_inv_same (uw_log w) _ s s); auto.
Qed.

(** ** What a method writes *)

Lemma known_parts s ps w : known s w → u_state s = Uploading → Forall (part_fits s) ps → NoDup (partNumber <$> ps) → known (with_parts ps s) w.
Proof. intros [Hr [H1 _ _ _]] Hu Hf Hn. split; [done|]. split; cbn; [done|done|by rewrite Hu..]. Qed.

Lemma known_state s x err w : known s w → (finishing x = true → parts_total (u_parts s) = u_sizeBytes s) → (x = Completed → read_back s (uw_log w)) →
  known (with_state x err s) w.
Proof. intros [Hr [H1 H2 _ _]] Hf Hc. split; [done|]. by split. Qed.

Lemma known_checksum s c w : known s w → known (with_checksum c s) w.
Proof. intros [Hr [H1 H2 H3 H4]]. split; [done|]. by split. Qed.

Lemma known_total s w : known s w → finishing (u_state s) = true → parts_total (u_parts s) = u_sizeBytes s.
Proof. intros [_ [_ _ H _]]. exact H. Qed.

(** ** Rules for the calls *)

Notation ok := (safe (perform provider task_exists) upload_inv upload_ext).
Notation trivial := (λ _ _, True).

Lemma rule_get {A} (Q : A → world → Prop) X id owner tenant k w :
  (∀ s w', upload_ext w w' → known s w' → ok Q X (k s) w') → (∀ e w', upload_ext w w' → X e w') → ok Q X (pbind (store_getForOwner id owner tenant) k) w.
Proof.
  intros Hk Hx. apply (safe_await _ upload_inv upload_ext Q X (StoreGet id owner tenant) k w). intros w1 He Hi. cbn. destruct (select_row id owner tenant (uw_rows w1)) as [s|e] eqn:E; split_and!; try done; auto.
  apply Hk; [done|]. by eapply select_known.
Qed.

Lemma rule_save {A} (Q : A → world → Prop) X s v k w :
  known s w → (∀ s' w', upload_ext w w' → known s' w' → u_state s' = u_state s → ok Q X (k s') w') → (∀ e w', upload_ext w w' → X e w') →
  ok Q X (pbind (store_save s v) k) w.
Proof.
  intros Hs Hk Hx. apply (safe_await _ upload_inv upload_ext Q X (StoreSave s v) k w). intros w1 He Hi. cbn. destruct (save_row s v (uw_rows w1)) as [[s' t]|e] eqn:E; cbn; [|split_and!; try done; auto].
  destruct (save_known s v w1 s' t Hi (known_stable _ _ _ He Hs) E) as ((H1 & H2 & H3) & H4). split_and!; [done..|]. apply Hk; [by etrans|done|done].
Qed.

(** A call that leaves the store alone. *)
Lemma rule_outside {A} (Q : A → world → Prop) X c (k : ans c → prog ans upload_error A) w :
  perform provider task_exists c = outside provider c →
  (∀ a w', upload_ext w w' → records c (Ok a) ⊆ uw_log w' → ok Q X (k a) w') → (∀ e w', upload_ext w w' → X e w') → ok Q X (pbind (await c) k) w.
Proof.
  intros Hc Hk Hx. apply (safe_await _ upload_inv upload_ext Q X (c) k w). intros w1 He Hi. rewrite Hc. destruct (outside provider c w1) as [r w2] eqn:E.
  destruct (outside_safe c w1 r w2 Hi E) as (H1 & H2 & H3). split_and!; [done..|]. destruct r as [a|e]; [apply Hk|apply Hx]; try (by etrans). rewrite H3. set_solver.
Qed.

Lemma rule_list {A} (Q : A → world → Prop) X uploadId reference k w :
  (∀ ps w', upload_ext w w' → NoDup (partNumber <$> ps) → ok Q X (k ps) w') → (∀ e w', upload_ext w w' → X e w') → ok Q X (pbind (direct_listParts uploadId reference) k) w.
Proof.
  intros Hk Hx. apply (safe_await _ upload_inv upload_ext Q X (DirectListParts uploadId reference) k w). intros w1 He Hi. cbn. destruct (outside provider (DirectListParts uploadId reference) w1) as [r w2] eqn:E.
  destruct (outside_safe _ w1 r w2 Hi E) as (H1 & H2 & _). split_and!; [done..|]. destruct r as [ps|e]; [|apply Hx; by etrans]. apply Hk; [by etrans|].
  unfold outside in E. destruct (provider _ _) as [r0 p] eqn:Ep. injection E as -> <-. by eapply listed_once.
Qed.

Lemma rule_claim {A} (Q : A → world → Prop) X limit now k w : (∀ ss w', ok Q X (k ss) w') → ok Q X (pbind (store_claimExpired limit now) k) w.
Proof.
  intros Hk. apply (safe_await _ upload_inv upload_ext Q X (StoreClaimExpired limit now) k w). intros w2 _ Hi. cbn -[claim_expired_rows].
  destruct (claim_expired_rows limit now (uw_rows w2)) as [ss t] eqn:E. cbn. destruct (claim_safe _ _ _ _ _ Hi E) as [H1 H2]. split_and!; [exact H1|exact H2|apply Hk].
Qed.

Lemma rule_guard {A} (Q : A → world → Prop) X b e k w : (b = true → X e w) → (b = false → ok Q X (k tt) w) → ok Q X (pbind (guard b e) k) w.
Proof. destruct b; cbn; auto. Qed.

Lemma rule_lift {A B} (Q : A → world → Prop) X (r : result upload_error B) k w : (∀ a, r = Ok a → ok Q X (k a) w) → (∀ e, X e w) → ok Q X (pbind (lift r) k) w.
Proof. destruct r; cbn; auto. Qed.

Lemma rule_required {A} (Q : A → world → Prop) X t k w : (∀ a, ok Q X (k a) w) → (∀ e, X e w) → ok Q X (pbind (required t) k) w.
Proof. unfold required. case_match; cbn; auto. Qed.

Lemma rule_validate {A} (Q : A → world → Prop) X s ps k w :
  (Forall (part_fits s) ps → ok Q X (k tt) w) → (∀ e, X e w) → ok Q X (pbind (validateParts s ps) k) w.
Proof.
  intros Hk Hx. induction ps as [|p ps IH]; cbn; [by apply Hk|]. destruct (validatePart s p) as [[]|e] eqn:E; cbn; [|apply Hx].
  apply IH. intros Hps. apply Hk. constructor; [by apply validate_fits|done].
Qed.

Ltac await_outside := unfold direct_complete, direct_verify, direct_abort, direct_create, direct_signPart, direct_uploadPart, register_artifact, authorizeTask, stat,
  sha256File, readWorkerFilePart, onProgress, current_time, randomUUID; apply rule_outside; [reflexivity|..].

(** ** The methods *)

Lemma readback_safe {A} (Q : A → world → Prop) X s k w :
  (∀ w', upload_ext w w' → read_back s (uw_log w') → ok Q X (k tt) w') → (∀ e w', upload_ext w w' → X e w') → ok Q X (pbind (readback s) k) w.
Proof.
  intros Hk Hx. unfold readback. apply (safe_bind _ _ _ (λ (_ : unit) w', upload_ext w w' ∧ read_back s (uw_log w'))); [|by intros [] w' []; auto].
  await_outside; [|auto]. intros size w' He Hl. destruct (Z.eqb_spec size (u_sizeBytes s)) as [->|]; cbn; [|auto]. split; [done|]. apply Hl. cbn. set_solver.
Qed.

Lemma register_safe {A} (Q : A → world → Prop) X register s k w :
  (∀ a w', upload_ext w w' → ok Q X (k a) w') → (∀ e w', upload_ext w w' → X e w') → ok Q X (pbind (registerCompleted has_register register s) k) w.
Proof.
  intros Hk Hx. unfold registerCompleted. destruct (u_taskId s); [|by apply Hk]. case_match; [|by apply Hk].
  apply (safe_bind _ _ _ (λ (_ : option string) w', upload_ext w w')); [|auto]. await_outside; [|auto]. by intros a w' He _.
Qed.

Lemma complete_uncertain_safe register s v w : known s w → u_state s = Uncertain → ok trivial trivial (complete_uncertain has_register register s v) w.
Proof.
  intros Hs Hu. unfold complete_uncertain. apply rule_guard; [done|intros _]. apply (safe_try _ _ _ _ trivial); [|done].
  apply readback_safe; [|done]. intros w1 E1 Hb. apply register_safe; [|done]. intros a w2 E2. apply rule_save; [|done|done].
  apply known_state; [eapply known_stable; [|exact Hs]; by etrans|intros _; apply (known_total s w Hs); by rewrite Hu|intros _; by eapply read_back_stable].
Qed.

Lemma mark_uncertain s e w {A} : known s w → finishing (u_state s) = true →
  ok trivial trivial (let! s' := store_save (with_state Uncertain (Some (error_text e)) s) (u_version s) in Throw (UncertainCompletion s') : prog ans upload_error A) w.
Proof. intros Hs Hf. apply rule_save; [|done|done]. apply known_state; [done|intros _; by eapply known_total|done]. Qed.

Lemma complete_now_safe register s w : known s w → u_state s = Completing → ok trivial trivial (complete_now has_register register s) w.
Proof.
  intros Hs Hc. assert (parts_total (u_parts s) = u_sizeBytes s) as Ht by (apply (known_total s w Hs); by rewrite Hc).
  unfold complete_now. eapply (safe_bind _ _ _ (λ x w', match x with inl s' => known s' w' ∧ u_state s' = Completed | inr _ => known s w' end)).
  - apply (safe_try _ _ _ _ (λ _, known s)); [|done]. await_outside; [|intros e w' He; by eapply known_stable].
    intros _ w1 E1 _. apply readback_safe; [|intros e w' He; eapply known_stable; [|exact Hs]; by etrans]. intros w2 E2 Hb.
    assert (known s w2) as H2 by (eapply known_stable; [|exact Hs]; by etrans). apply rule_save; [|done|intros e w' He; by eapply known_stable].
    by apply known_state.
  - intros [s'|e] w' H; [|apply mark_uncertain; [done|by rewrite Hc]]. destruct H as [H1 H2]. apply (safe_try _ _ _ _ (λ _, known s')).
    + apply register_safe; [done|]. intros e w2 He. by eapply known_stable.
    + intros e w2 H. apply mark_uncertain; [done|by rewrite H2].
Qed.

Lemma complete_safe id owner tenant v checksum register w : ok trivial trivial (complete has_register id owner tenant v checksum register) w.
Proof.
  unfold complete. apply rule_get; [|done]. intros s w1 _ Hs. apply (safe_bind _ _ _ (λ x w', known x.1 w')).
  - destruct checksum as [c|]; [|done]. apply rule_guard; [done|intros _]. apply rule_guard; [done|intros _]. destruct (truthy (u_checksumSha256 s)); [done|].
    apply rule_save; [by apply known_checksum|done|done].
  - intros [s1 v1] w2 H1. cbn in H1. apply rule_guard; [done|intros _]. case_match eqn:Eu; [apply complete_uncertain_safe; [done|by apply bool_decide_eq_true in Eu]|].
    apply rule_guard; [done|intros Hup]. apply rule_guard; [done|intros Ht]. apply negb_false_iff, Z.eqb_eq in Ht.
    apply rule_save; [by apply known_state| |done]. intros s2 w3 _ H2 H3. by apply complete_now_safe.
Qed.

Lemma resume_safe id owner tenant w : ok trivial trivial (resume same_json id owner tenant) w.
Proof.
  unfold resume. apply rule_get; [|done]. intros s w1 _ Hs. case_match; [done|]. apply rule_guard; [done|intros Hu].
  apply negb_false_iff, bool_decide_eq_true in Hu. apply rule_list; [|done]. intros ps w2 E2 Hn. apply rule_validate; [|done]. intros Hf. case_match; [done|].
  apply safe_tail, rule_save; [|done|done]. apply known_parts; [by eapply known_stable|done..|]. unfold sort_parts. by rewrite merge_sort_Permutation.
Qed.

Lemma recordPart_safe id owner tenant v part w : ok trivial trivial (recordPart id owner tenant v part) w.
Proof.
  unfold recordPart. apply rule_get; [|done]. intros s w1 _ Hs. apply rule_guard; [done|intros Hu]. apply negb_false_iff, bool_decide_eq_true in Hu.
  apply rule_lift; [|done]. intros [] Hv. apply rule_guard; [done|intros _]. apply safe_tail, rule_save; [|done|done].
  pose proof (si_parts _ _ (proj2 Hs)) as [Hf Hn]. apply known_parts; [done|done|..]; unfold sort_parts; rewrite merge_sort_Permutation.
  - apply Forall_app. split; [|by constructor; [apply validate_fits in Hv|]]. apply Forall_forall. intros p Hp. rewrite list_elem_of_In, List.filter_In, <- list_elem_of_In in Hp.
    by eapply Forall_forall; [exact Hf|destruct Hp].
  - rewrite fmap_app. cbn. rewrite <- Permutation_cons_append. constructor.
    + intros (p & E & Hp)%list_elem_of_fmap. rewrite list_elem_of_In, List.filter_In in Hp. destruct Hp as [_ Hp%negb_true_iff%Z.eqb_neq]. congruence.
    + clear Hf. induction (u_parts s) as [|p ps IH]; cbn in *; [done|]. apply NoDup_cons in Hn as [Hp Hn]. case_match; cbn; [|by apply IH]. constructor; [|by apply IH].
      intros (q & E & Hq)%list_elem_of_fmap. apply Hp. rewrite list_elem_of_In, List.filter_In, <- list_elem_of_In in Hq. rewrite E. apply list_elem_of_fmap. destruct Hq. eauto.
Qed.

Lemma abort_safe id owner tenant v w : ok trivial trivial (abort id owner tenant v) w.
Proof.
  unfold abort. apply rule_get; [|done]. intros s w1 _ Hs. apply rule_guard; [done|intros _]. await_outside; [|done]. intros _ w2 E2 _.
  apply safe_tail, rule_save; [|done|done]. apply known_state; [by eapply known_stable|done..].
Qed.

Lemma abort_all_safe ss w : ok trivial trivial (abort_all ss) w.
Proof.
  revert w. induction ss as [|s ss IH]; intros w; [done|]. cbn [abort_all]. apply (safe_bind _ _ _ trivial); [|by intros; apply IH].
  apply (safe_try _ _ _ _ trivial); [|done]. apply safe_tail. by await_outside.
Qed.

Lemma signPart_safe id owner tenant n w : ok trivial trivial (signPart id owner tenant n) w.
Proof.
  unfold signPart. apply rule_get; [|done]. intros s w1 _ _. apply rule_guard; [done|intros _]. apply rule_guard; [done|intros _]. apply safe_tail. by await_outside.
Qed.

Lemma cleanup_safe limit w : ok trivial trivial (cleanup limit) w.
Proof.
  unfold cleanup. apply rule_guard; [done|intros _]. await_outside; [|done]. intros now w1 _ _.
  apply rule_claim. intros ss w2. apply (safe_bind _ _ _ trivial); [apply abort_all_safe|done].
Qed.

Lemma store_create_safe s w : 0 < u_sizeBytes s → u_parts s = [] → u_state s = Uploading → ok trivial trivial (store_create s) w.
Proof.
  intros Hs Hp Hu w1 He Hi. cbn. destruct (create_row task_exists s (uw_rows w1)) as [[s' t]|e] eqn:E; cbn; [|by split_and!].
  unfold create_row in E. case_match eqn:B; [done|]. injection E as <- <-. rewrite !orb_false_iff in B. destruct B as [[[B1 B2] _] _].
  apply negb_false_iff in B1. unfold row_ok in B1. rewrite !andb_true_iff in B1. apply bool_decide_eq_false in B2.
  destruct (insert_row w1 s (<[u_id s := s]> (uw_rows w1)) Hi) as (H1 & H2 & _); [| |done|by split_and!].
  - split; rewrite ?Hp, ?Hu; [lia|split; constructor|done|done].
  - intros r Hr. destruct B2. by rewrite Hr.
Qed.

Lemma create_safe q w : ok trivial trivial (create artifact_digest provider_name has_authorize q) w.
Proof.
  unfold create. apply rule_required; [intros owner|done]. apply rule_required; [intros name|done]. apply rule_required; [intros ctype|done].
  apply rule_guard; [done|intros Hz]. apply orb_false_iff in Hz as [Hz _]. apply rule_guard; [done|intros _]. apply (safe_bind _ _ _ trivial).
  { destruct (truthy (q_taskId q)); [|done]. apply rule_guard; [done|intros _]. apply safe_tail. by await_outside. }
  intros [] w1 _. apply (safe_bind _ _ _ trivial).
  { destruct (truthy (q_sessionId q)); [unfold required; by case_match|]. apply safe_tail. by await_outside. }
  intros id w2 _. apply rule_lift; [|done]. intros plan Hp. await_outside; [|done]. intros created w3 _ _. await_outside; [|done]. intros now w4 _ _.
  apply (safe_bind _ _ _ trivial); [|done]. apply store_create_safe; [cbn; lia|done|done].
Qed.

Lemma upload_parts_safe todo n uploaded seen path owner tenant s w : ok trivial trivial (upload_parts todo n uploaded seen path owner tenant s) w.
Proof.
  revert n uploaded s w. induction todo as [|todo IH]; intros n uploaded s w; [done|]. cbn [upload_parts]. case_match; [apply IH|].
  apply rule_lift; [|done]. intros size _. await_outside; [|done]. intros _ w1 _ _. await_outside; [|done]. intros tag w2 _ _. apply rule_required; [|done]. intros t.
  apply (safe_bind _ _ _ trivial); [apply recordPart_safe|]. intros s' w3 _. await_outside; [|done]. intros _ w4 _ _. apply IH.
Qed.

Lemma uploadWorkerFile_safe f w :
  ok trivial trivial (uploadWorkerFile artifact_digest session_digest provider_name same_json has_register has_authorize has_uploadPart f) w.
Proof.
  unfold uploadWorkerFile. apply rule_guard; [done|intros _]. do 8 (apply rule_required; [intros ?|done]). await_outside; [|done]. intros before w1 _ _.
  apply rule_guard; [done|intros _]. await_outside; [|done]. intros checksum w2 _ _. await_outside; [|done]. intros after w3 _ _. apply rule_guard; [done|intros _].
  apply (safe_bind _ _ _ trivial).
  { apply (safe_try _ _ _ _ trivial); [apply resume_safe|]. intros [] w4 _; try done. apply (safe_try _ _ _ _ trivial).
    - apply (safe_bind _ _ _ trivial); [apply create_safe|done].
    - intros e w5 _. apply (safe_try _ _ _ _ trivial); [apply resume_safe|done]. }
  intros s w4 _. apply rule_guard; [done|intros _]. case_match; [done|]. case_match; [apply (safe_bind _ _ _ trivial); [apply complete_safe|done]|].
  apply (safe_bind _ _ _ trivial); [apply resume_safe|]. intros s1 w5 _. await_outside; [|done]. intros _ w6 _ _.
  apply (safe_bind _ _ _ trivial); [apply upload_parts_safe|]. intros s2 w7 _. await_outside; [|done]. intros again w8 _ _. apply rule_guard; [done|intros _].
  await_outside; [|done]. intros after' w9 _ _. apply rule_guard; [done|intros _]. apply (safe_bind _ _ _ trivial); [apply complete_safe|done].
Qed.

Notation bodies := (body artifact_digest session_digest provider_name same_json has_register has_authorize has_uploadPart).

Lemma body_safe m w : ok (λ (_ : unit) _, True) (λ _ _, True) (bodies m) w.
Proof.
  destruct m; apply safe_started.
  - apply create_safe.
  - apply signPart_safe.
  - apply resume_safe.
  - apply recordPart_safe.
  - apply complete_safe.
  - apply abort_safe.
  - apply cleanup_safe.
  - apply uploadWorkerFile_safe.
Qed.

(** C18. A completed upload is whole. However many calls of the service begin, take
    turns and stop halfway, in however many processes, and whatever the provider
    answers: a session is completed only after the provider read its object back with
    the declared size, and a session that is completing, completed or uncertain has
    every part of its plan recorded, each once. *)
Theorem completed_upload_whole : ∀ evs p0 threads w id s,
  execute (perform provider task_exists) bodies evs (World ∅ p0 []) = (threads, w) → uw_rows w !! id = Some s →
  (u_state s = Completed → read_back s (uw_log w)) ∧ (finishing (u_state s) = true → covers s).
Proof.
  intros evs p0 threads w id s Hw Hs. destruct (threads_safe (perform provider task_exists) bodies upload_inv upload_ext (World ∅ p0 []) evs) as [Hi _].
  - intros m w' _. apply body_safe.
  - intros id' s' H. cbn in H. by rewrite lookup_empty in H.
  - rewrite Hw in Hi. destruct (Hi id s Hs) as [_ [[H1 H2] [H3 H4] H5 H6]]. split; [done|]. intros Hf. apply full_covers; auto.
Qed.
End service.

(** ** What goes wrong *)

Section trouble.
Context {P : Type} (provider : ∀ c, P → result upload_error (ans c) * P) (task_exists : string → bool) (same_json : list ArtifactUploadPart → list ArtifactUploadPart → bool).
Notation alone := (runs (perform provider task_exists)).

Lemma claim_skips limit now (t : gmap string ArtifactUploadSession) id s :
  (∀ k r, t !! k = Some r → u_id r = k) → t !! id = Some s → expirable now s = false → (claim_expired_rows limit now t).2 !! id = Some s.
Proof.
  intros Hk Hs He. unfold claim_expired_rows. cbn.
  assert (∀ r, r ∈ take (Z.to_nat limit) (merge_sort expires_before (List.filter (expirable now) (map_to_list t).*2)) → u_id r ≠ id) as Hne.
  { intros r Hr E. apply elem_of_take in Hr as (i & Hr & _). apply list_elem_of_lookup_2 in Hr. rewrite merge_sort_Permutation in Hr.
    rewrite list_elem_of_In, List.filter_In, <- list_elem_of_In in Hr. destruct Hr as [Hr Hx].
    apply list_elem_of_fmap in Hr as ([k r'] & -> & Hr). apply elem_of_map_to_list in Hr. cbn in *. rewrite (Hk _ _ Hr) in E. congruence. }
  induction (take _ _) as [|r due IH]; cbn; [done|]. rewrite lookup_insert_ne by (apply Hne; left). apply IH. intros r' Hr'. apply Hne. by right.
Qed.

(** A session whose process died while it was completing is out of reach: it cannot be
    resumed, which is how a worker takes it up again, no part can be signed or recorded,
    [complete] refuses it and [cleanup] never collects it. *)
Theorem completing_session_stuck w id owner tenant s :
  (∀ k r, uw_rows w !! k = Some r → u_id r = k) → uw_rows w !! id = Some s → owned_by owner tenant s = true → u_state s = Completing → truthy (u_taskId s) = None →
  alone (resume same_json id owner tenant) w = (Err (NotUploading Completing), w) ∧
  (∀ n, alone (signPart id owner tenant n) w = (Err (NotUploading Completing), w)) ∧
  (∀ v part, alone (recordPart id owner tenant v part) w = (Err (NotUploading Completing), w)) ∧
  (∀ hr v register, alone (complete hr id owner tenant v None register) w = (Err (NotUploading Completing), w)) ∧
  (∀ limit now, (claim_expired_rows limit now (uw_rows w)).2 !! id = Some s).
Proof.
  intros Hk Hs Ho Hc Ht. assert (select_row id owner tenant (uw_rows w) = Ok s) as E by (unfold select_row; by rewrite Hs, Ho).
  split_and!; intros; cbn -[claim_expired_rows]; rewrite ?E; cbn -[claim_expired_rows]; unfold ensureUploading; rewrite ?Ht, ?Hc; try done.
  apply claim_skips; [done..|]. unfold expirable. by rewrite Hc.
Qed.

(** [abort] with an outdated version is refused, but the provider's upload is gone. *)
Theorem stale_abort_reaches_provider w id owner tenant s v p :
  uw_rows w !! id = Some s → u_id s = id → owned_by owner tenant s = true → u_state s = Uploading → u_version s ≠ v →
  provider (DirectAbort (u_providerUploadId s) (u_reference s)) (uw_provider w) = (Ok tt, p) →
  alone (abort id owner tenant v) w = (Err VersionConflict, World (uw_rows w) p (uw_log w ++ [AbortedAs (u_providerUploadId s) (u_reference s)])).
Proof.
  intros Hs Hi Ho Hu Hv Hp. cbn. unfold select_row. rewrite Hs, Ho. cbn. rewrite Hu. change (bool_decide (Uploading = Completed)) with false. cbn. unfold outside. rewrite Hp. cbn.
  unfold save_row. cbn. rewrite Hi, Hs, (proj2 (Z.eqb_neq _ _)) by done. by rewrite andb_false_r.
Qed.
End trouble.

(** ** A provider that does what it is asked *)

Definition ZERO_SHA : string := "0000000000000000000000000000000000000000000000000000000000000000".

Definition obliging (c : call) (p : unit) : result upload_error (ans c) * unit :=
  (match c return result upload_error (ans c) with
   | StoreCreate s | StoreSave s _ => Ok s
   | StoreGet _ _ _ => Err UploadNotFound
   | StoreClaimExpired _ _ => Ok []
   | Now => Ok 0
   | RandomUUID => Ok "u"
   | AuthorizeTask _ _ _ | DirectComplete _ _ _ | DirectAbort _ _ | ReadFilePart _ _ _ | OnProgress _ _ => Ok tt
   | Register _ _ => Ok "a"
   | DirectCreate _ _ _ _ _ _ _ _ => Ok ("upload", "s3://bucket/key")
   | DirectSignPart _ _ _ => Ok "https://bucket/key"
   | DirectUploadPart _ _ _ => Ok "tag"
   | DirectListParts _ _ => Ok []
   | DirectVerify _ size _ => Ok size
   | Stat _ => Ok (FileStat true (6 * MIB) 1)
   | Sha256File _ => Ok ZERO_SHA
   end, p).

Lemma obliging_lists_once uploadId reference p ps p' : obliging (DirectListParts uploadId reference) p = (Ok ps, p') → NoDup (partNumber <$> ps).
Proof. intros [= <- _]. constructor. Qed.

Notation demo_body := (body (λ _ _ _ _, "d") (λ _ _ _, "d") "s3" (λ a b, bool_decide (a = b)) false true true).

(** A worker uploads a file of 6 MiB. *)
Definition worker_file : method := MWorkerFile (WorkerFile "/tmp/f" "t1" "e1" "a1" "o" "acme" "f.bin" "text/plain").

Lemma completed_upload_whole_witness : ∃ threads w s,
  execute (perform obliging (λ _, true)) demo_body (Begin worker_file :: replicate 40 (Turn 0)) (World ∅ tt []) = (threads, w) ∧
  uw_rows w !! "worker-upload-d" = Some s ∧ u_state s = Completed ∧ covers s ∧ partNumber <$> u_parts s = [1; 2].
Proof.
  assert ((λ s, (u_state s, partNumber <$> u_parts s)) <$>
    uw_rows (execute (perform obliging (λ _, true)) demo_body (Begin worker_file :: replicate 40 (Turn 0)) (World ∅ tt [])).2 !! "worker-upload-d"
    = Some (Completed, [1; 2])) as H by (vm_compute; reflexivity).
  destruct (execute (perform obliging (λ _, true)) demo_body (Begin worker_file :: replicate 40 (Turn 0)) (World ∅ tt [])) as [threads w] eqn:E0.
  cbn [snd] in H. destruct (uw_rows w !! "worker-upload-d") as [s|] eqn:E; [|discriminate H]. injection H as H1 H2.
  exists threads, w, s. split; [reflexivity|]. split; [exact E|]. split; [exact H1|]. split; [|exact H2].
  refine (proj2 (completed_upload_whole _ _ obliging_lists_once _ _ _ _ _ _ _ _ _ threads w "worker-upload-d" s E0 E) _). rewrite H1. reflexivity.
Defined.
End ArtifactUploadFacts.
