(* ===== verification/RealtimeHub.v ===== *)
(** * The WebSocket hub

    [createTaskWebSocketHub] of [tasks/websocket.ts] as a state machine: sessions with
    their subscriptions, one group per owner, tenant and Task, and the reads and sends
    that are under way. [JSON.stringify] of a frame is the frame; the tasks that are
    read are an abstract type. Intervals are events. *)

From stdpp Require Import base gmap strings list.
From Stdlib Require Import Ascii ZArith Lia.
From S2P Require Import Prelude.

Module RealtimeHub.
Section hub.
Context {T : Type}.

(** ** Identities *)

(** [value.length > 0 && value.length <= 200 && !/[\u0000-\u001f]/.test(value)] *)
Fixpoint no_control (s : string) : bool :=
  match s with EmptyString => true | String a s => (Nat.leb 32 (nat_of_ascii a)) && no_control s end.

Definition validTaskId (s : string) : bool := Nat.ltb 0 (String.length s) && Nat.leb (String.length s) 200 && no_control s.

Definition NUL : ascii := Ascii.zero.

Definition groupKey (tenant owner task : string) : string := (tenant ++ String NUL (owner ++ String NUL task))%string.

(** ** State *)

Inductive frame : Type :=
| Ready
| Snapshot (task : string) (version : Z) (payload : T)
| Unsubscribed (task : string)
| Heartbeat
| Pong
| ErrorFrame (code : string) (task : option string).

(** What [peer.send] does: it takes the frame, its buffer is above the limit, or it
    throws. *)
Inductive peer_state := Taking | Overloaded | Broken.

Record session := Session { ws_owner : string; ws_tenant : string; ws_subs : gmap string Z; ws_closed : bool; ws_peer : peer_state }.

(** The loop of [refreshGroup]: it awaits the read or the sends, or it is over and
    [finally] has not run. *)
Inductive loop_phase := Reading | Sending | Ending.

Record group := Group {
  g_owner : string; g_tenant : string; g_task : string; g_members : list nat;
  g_latest : Z; g_frame : option T; g_pending : bool; g_loop : option loop_phase;
}.

Inductive output : Type :=
| Sent (i : nat) (f : frame)
| PeerClosed (i : nat) (code : Z)
| Subscribed (i : nat) (task : string) (lastVersion : Z)
| Asked (owner tenant task : string)
| Answered (owner tenant task : string) (version : Z) (payload : T)
| Refused (code : string).

Record hub := Hub { k_sessions : gmap nat session; k_groups : gmap nat group; k_index : gmap string nat; k_next : nat; k_log : list output }.

Record options := Options { maxConnections : Z; maxSubscriptions : Z; maxMessageBytes : Z }.

Definition bounded (value min max : Z) : bool := (min <=? value) && (value <=? max).

(** The factory; [None] is a [RangeError]. Intervals and the byte limit of a peer are
    checked the same way and only time events. *)
Definition new_hub (connections subscriptions bytes : option Z) : option options :=
  let c := default 1000 connections in
  let s := default 100 subscriptions in
  let b := default 16384 bytes in
  if bounded c 1 100000 && bounded s 1 1000 && bounded b 256 1048576 then Some (Options c s b) else None.

Definition empty_hub : hub := Hub ∅ ∅ ∅ 0 [].

Definition emit (o : output) (h : hub) : hub := Hub (k_sessions h) (k_groups h) (k_index h) (k_next h) (k_log h ++ [o]).
Definition with_sessions (f : gmap nat session → gmap nat session) (h : hub) : hub := Hub (f (k_sessions h)) (k_groups h) (k_index h) (k_next h) (k_log h).
Definition with_groups (f : gmap nat group → gmap nat group) (h : hub) : hub := Hub (k_sessions h) (f (k_groups h)) (k_index h) (k_next h) (k_log h).
Definition with_index (f : gmap string nat → gmap string nat) (h : hub) : hub := Hub (k_sessions h) (k_groups h) (f (k_index h)) (k_next h) (k_log h).

Definition with_subs (f : gmap string Z → gmap string Z) (s : session) : session := Session (ws_owner s) (ws_tenant s) (f (ws_subs s)) (ws_closed s) (ws_peer s).
Definition shut (s : session) : session := Session (ws_owner s) (ws_tenant s) (ws_subs s) true (ws_peer s).
Definition with_members (f : list nat → list nat) (g : group) : group :=
  Group (g_owner g) (g_tenant g) (g_task g) (f (g_members g)) (g_latest g) (g_frame g) (g_pending g) (g_loop g).
Definition with_latest (v : Z) (p : T) (g : group) : group :=
  Group (g_owner g) (g_tenant g) (g_task g) (g_members g) v (Some p) (g_pending g) (g_loop g).
Definition with_loop (pending : bool) (l : option loop_phase) (g : group) : group :=
  Group (g_owner g) (g_tenant g) (g_task g) (g_members g) (g_latest g) (g_frame g) pending l.

Definition key_of (g : group) : string := groupKey (g_tenant g) (g_owner g) (g_task g).

(** ** Sessions *)

Definition drop_member (i : nat) : list nat → list nat := List.filter (λ x, negb (Nat.eqb x i)).

Definition removeSubscription (i : nat) (task : string) (h : hub) : hub :=
  match k_sessions h !! i with
  | None => h
  | Some s =>
      let h := with_sessions (<[i := with_subs (delete task) s]>) h in
      let key := groupKey (ws_tenant s) (ws_owner s) task in
      match k_index h !! key with
      | None => h
      | Some gi =>
          let h := with_groups (alter (with_members (drop_member i)) gi) h in
          match g_members <$> k_groups h !! gi with
          | Some [] => with_index (delete key) h
          | _ => h
          end
      end
  end.

Definition close (i : nat) (h : hub) : hub :=
  match k_sessions h !! i with
  | None => h
  | Some s =>
      if ws_closed s then h else
      foldl (λ h task, removeSubscription i task h) (with_sessions (<[i := shut s]>) h) (map_to_list (ws_subs s)).*1
  end.

Definition send (i : nat) (f : frame) (h : hub) : hub :=
  match k_sessions h !! i with
  | None => h
  | Some s =>
      if ws_closed s then h else
      match ws_peer s with
      | Overloaded => emit (PeerClosed i 1013) (close i h)
      | Taking => emit (Sent i f) h
      | Broken => close i h
      end
  end.

(** ** Groups *)

(** The head of the loop. *)
Definition loop_head (gi : nat) (g : group) (h : hub) : hub :=
  if g_pending g && negb (bool_decide (g_members g = []))
  then emit (Asked (g_owner g) (g_tenant g) (g_task g)) (with_groups (<[gi := with_loop false (Some Reading) g]>) h)
  else with_groups (<[gi := with_loop (g_pending g) (Some Ending) g]>) h.

Definition refreshGroup (gi : nat) (h : hub) : hub :=
  match k_groups h !! gi with
  | None => h
  | Some g =>
      match g_loop g with
      | Some _ => with_groups (<[gi := with_loop true (g_loop g) g]>) h
      | None => loop_head gi (with_loop true None g) h
      end
  end.

(** [subscriptions.set] and [send] for one member. *)
Definition deliver (task : string) (v : Z) (p : T) (h : hub) (i : nat) : hub :=
  send i (Snapshot task v p) (with_sessions (alter (with_subs (<[task := v]>)) i) h).

Definition behind (task : string) (v : Z) (h : hub) (i : nat) : bool :=
  match k_sessions h !! i with Some s => default (-1) (ws_subs s !! task) <? v | None => false end.

(** The read of the loop settled. *)
Definition read_settles (gi : nat) (r : option (Z * T)) (h : hub) : option hub :=
  match k_groups h !! gi with
  | Some g =>
      match g_loop g with
      | Some Reading =>
          Some match r with
          | Some (v, p) =>
              let h := emit (Answered (g_owner g) (g_tenant g) (g_task g) v p) h in
              if v <=? g_latest g then loop_head gi g h else
              let h := with_groups (<[gi := with_latest v p (with_loop (g_pending g) (Some Sending) g)]>) h in
              foldl (deliver (g_task g) v p) h (List.filter (behind (g_task g) v h) (g_members g))
          | None =>
              let h := with_groups (<[gi := with_loop (g_pending g) (Some Sending) g]>) h in
              foldl (λ h i, send i (ErrorFrame "RHINOQ_REALTIME_READ_FAILED" (Some (g_task g))) h) h (g_members g)
          end
      | _ => None
      end
  | None => None
  end.

(** All sends of the round settled. *)
Definition sends_settle (gi : nat) (h : hub) : option hub :=
  match k_groups h !! gi with
  | Some g => match g_loop g with Some Sending => Some (loop_head gi g h) | _ => None end
  | None => None
  end.

(** [finally] of the loop. *)
Definition loop_clears (gi : nat) (h : hub) : option hub :=
  match k_groups h !! gi with
  | Some g => match g_loop g with Some Ending => Some (with_groups (<[gi := with_loop (g_pending g) None g]>) h) | _ => None end
  | None => None
  end.

(** ** Entry points *)

Section options.
Context (k : options).

(** The sessions in the map are those that are not closed. *)
Definition open_map (h : hub) : gmap nat session := filter (λ x, ws_closed x.2 = false) (k_sessions h).

Definition connectionCount (h : hub) : Z := Z.of_nat (size (open_map h)).

Definition accept (owner : string) (tenant : option string) (peer : peer_state) (h : hub) : hub :=
  if js_blank owner then emit (Refused "authenticated ownerId is required") h else
  if maxConnections k <=? connectionCount h then emit (Refused "RHINOQ_REALTIME_CAPACITY") h else
  let i := k_next h in
  send i Ready (Hub (<[i := Session owner (default "default" tenant) ∅ false peer]> (k_sessions h)) (k_groups h) (k_index h) (S i) (k_log h)).

(** A message of the client: too large, not JSON, or parsed. *)
Inductive message := TooLarge | NotJson | Ping | Subscribe (task : string) (lastVersion : option Z) | Unsubscribe (task : string) | OtherMessage.

Definition subscribe (i : nat) (s : session) (task : string) (lastVersion : option Z) (h : hub) : hub :=
  if negb (bool_decide (is_Some (ws_subs s !! task))) && (maxSubscriptions k <=? Z.of_nat (size (ws_subs s)))
  then send i (ErrorFrame "RHINOQ_REALTIME_SUBSCRIPTION_LIMIT" (Some task)) h else
  let last := match lastVersion with Some v => if (0 <=? v) && (v <=? MAX_SAFE_INTEGER) then v else -1 | None => -1 end in
  let h := emit (Subscribed i task last) (with_sessions (<[i := with_subs (<[task := last]>) s]>) h) in
  let key := groupKey (ws_tenant s) (ws_owner s) task in
  let gi := default (k_next h) (k_index h !! key) in
  let g := default (Group (ws_owner s) (ws_tenant s) task [] (-1) None false None) (k_index h !! key ≫= λ gi, k_groups h !! gi) in
  let g := with_members (λ ms, if bool_decide (i ∈ ms) then ms else ms ++ [i]) g in
  let h := Hub (k_sessions h) (<[gi := g]> (k_groups h)) (<[key := gi]> (k_index h)) (S (k_next h)) (k_log h) in
  match g_frame g with
  | Some p => if last <? g_latest g then deliver task (g_latest g) p h i else refreshGroup gi h
  | None => refreshGroup gi h
  end.

Definition receive (i : nat) (m : message) (h : hub) : hub :=
  match k_sessions h !! i with
  | None => h
  | Some s =>
      if ws_closed s then h else
      match m with
      | TooLarge => send i (ErrorFrame "RHINOQ_REALTIME_MESSAGE_TOO_LARGE" None) h
      | NotJson | OtherMessage => send i (ErrorFrame "RHINOQ_REALTIME_INVALID_MESSAGE" None) h
      | Ping => send i Pong h
      | Unsubscribe task =>
          if negb (validTaskId task) then send i (ErrorFrame "RHINOQ_REALTIME_INVALID_MESSAGE" None) h else
          send i (Unsubscribed task) (removeSubscription i task h)
      | Subscribe task lastVersion =>
          if negb (validTaskId task) then send i (ErrorFrame "RHINOQ_REALTIME_INVALID_MESSAGE" None) h else
          subscribe i s task lastVersion h
      end
  end.

(** The groups in the map. *)
Definition live_groups (h : hub) : list nat := (map_to_list (k_index h)).*2.

Definition refresh (h : hub) : hub := foldl (λ h gi, refreshGroup gi h) h (live_groups h).

Definition selected (task : string) (owner tenant : option string) (h : hub) : list nat :=
  match owner with
  | Some o => if bool_decide (o = "") then List.filter (λ gi, match k_groups h !! gi with Some g => bool_decide (g_task g = task) | None => false end) (live_groups h)
              else match k_index h !! groupKey (default "default" tenant) o task with Some gi => [gi] | None => [] end
  | None => List.filter (λ gi, match k_groups h !! gi with Some g => bool_decide (g_task g = task) | None => false end) (live_groups h)
  end.

(** An error leaves the hub as it is. *)
Definition invalidate (task : string) (owner tenant : option string) (minimumVersion : option Z) (h : hub) : hub :=
  if negb (validTaskId task) || match minimumVersion with Some v => (v <? 0) || (MAX_SAFE_INTEGER <? v) | None => false end then h else
  let wanted gi := match minimumVersion, k_groups h !! gi with Some v, Some g => g_latest g <? v | _, _ => true end in
  foldl (λ h gi, refreshGroup gi h) h (List.filter wanted (selected task owner tenant h)).

Definition open_sessions (h : hub) : list nat := (map_to_list (open_map h)).*1.

Definition heartbeat (h : hub) : hub := foldl (λ h i, send i Heartbeat h) h (open_sessions h).

Definition close_hub (h : hub) : hub := foldl (λ h i, close i (emit (PeerClosed i 1001) h)) h (open_sessions h).

(** ** Events *)

Inductive event : Type :=
| Accept (owner : string) (tenant : option string) (peer : peer_state)
| Receive (i : nat) (m : message)
| PeerTurns (i : nat) (p : peer_state)
| SendRejects (i : nat)
| CloseSession (i : nat)
| ReadSettles (gi : nat) (r : option (Z * T))
| SendsSettle (gi : nat)
| LoopClears (gi : nat)
| RefreshAll
| Invalidate (task : string) (owner tenant : option string) (minimumVersion : option Z)
| HeartbeatDue
| CloseHub.

Definition turn_peer (p : peer_state) (s : session) : session := Session (ws_owner s) (ws_tenant s) (ws_subs s) (ws_closed s) p.

Definition step (ev : event) (h : hub) : option hub :=
  match ev with
  | Accept owner tenant peer => Some (accept owner tenant peer h)
  | Receive i m => Some (receive i m h)
  | PeerTurns i p => Some (with_sessions (alter (turn_peer p) i) h)
  | SendRejects i => Some (close i h)
  | CloseSession i => Some (close i h)
  | ReadSettles gi r => read_settles gi r h
  | SendsSettle gi => sends_settle gi h
  | LoopClears gi => loop_clears gi h
  | RefreshAll => Some (refresh h)
  | Invalidate task owner tenant v => Some (invalidate task owner tenant v h)
  | HeartbeatDue => Some (heartbeat h)
  | CloseHub => Some (close_hub h)
  end.

Fixpoint run_hub (evs : list event) (h : hub) : option hub :=
  match evs with
  | [] => Some h
  | ev :: evs => h' ← step ev h; run_hub evs h'
  end.
End options.
End hub.

Arguments frame T : clear implicits.
Arguments output T : clear implicits.
Arguments group T : clear implicits.
Arguments hub T : clear implicits.
Arguments event T : clear implicits.
End RealtimeHub.
