(* ===== verification/RealtimeFacts.v ===== *)
(** * What the WebSocket hub promises

    A session is shown only Tasks that were read for its own group key - its owner and
    tenant, unless they contain a NUL -, each version once and in order; nobody who is subscribed is left behind the newest
    version the hub has; connections and subscriptions are bounded. *)

From stdpp Require Import base gmap strings list.
From Stdlib Require Import Ascii ZArith Lia.
From S2P Require Import Prelude Sorting RealtimeHub.

Module RealtimeFacts.
Import RealtimeHub.

(** ** Keys *)

Notation no_nul := (lacks NUL).

(** What a key says of an identity. *)
Definition who (tenant owner : string) : string := (tenant ++ String NUL owner)%string.

(** The last separator: what follows it has none. *)
Lemma last_separator_inj c a b x y : lacks c x = true → lacks c y = true → (a ++ String c x = b ++ String c y)%string → a = b ∧ x = y.
Proof.
  revert b. induction a as [|d a IH]; intros [|e b] Hx Hy; cbn; intros E.
  - by injection E as ->.
  - exfalso. injection E as <- ->. rewrite lacks_app in Hx. cbn in Hx. rewrite Ascii.eqb_refl in Hx. by destruct (lacks _ b).
  - exfalso. injection E as -> <-. rewrite lacks_app in Hy. cbn in Hy. rewrite Ascii.eqb_refl in Hy. by destruct (lacks _ a).
  - injection E as -> E. destruct (IH b Hx Hy E) as [-> ->]. done.
Qed.

Lemma groupKey_who t o k : groupKey t o k = (who t o ++ String NUL k)%string.
Proof. unfold groupKey, who. induction t as [|c t IH]; cbn; [done|]. exact (f_equal (String c) IH). Qed.

(** Task names have no NUL, so a key gives the Task back. *)
Lemma groupKey_inj t o k t' o' k' : no_nul k = true → no_nul k' = true → groupKey t o k = groupKey t' o' k' → who t o = who t' o' ∧ k = k'.
Proof.
  intros Hk Hk' E. rewrite !groupKey_who in E. by apply last_separator_inj in E.
Qed.

(** Names without a NUL are given back too, whatever the others are. *)
Lemma who_inj t o t' o' : no_nul t = true → no_nul o = true → who t' o' = who t o → t' = t ∧ o' = o.
Proof.
  unfold who. revert t'. induction t as [|c t IH]; intros [|c' t'] Ht Ho; cbn; intros E.
  - by injection E as ->.
  - exfalso. injection E as -> <-. rewrite lacks_app in Ho. cbn in Ho. by destruct (lacks _ t').
  - exfalso. injection E as <- _. by cbn in Ht.
  - injection E as -> E. cbn in Ht. apply andb_true_iff in Ht as [_ Ht]. destruct (IH t' Ht Ho E) as [-> ->]. done.
Qed.

Lemma valid_task_named task : validTaskId task = true → no_nul task = true.
Proof.
  unfold validTaskId. intros [_ H]%andb_true_iff. induction task as [|c task IH]; cbn in *; [done|]. apply andb_true_iff in H as [Hc H]. rewrite IH, andb_true_r by done.
  destruct (Ascii.eqb_spec c NUL) as [->|]; [by cbn in Hc|done].
Qed.

Section facts.
Context {T : Type}.
Implicit Types (h : hub T) (g : group T) (l : list (output T)).

(** ** What a client sees *)

(** The last version of each subscription; [None] once a snapshot is not newer. *)
Definition show (m : gmap (nat * string) Z) (o : output T) : option (gmap (nat * string) Z) :=
  match o with
  | Subscribed i t v => Some (<[(i, t) := v]> m)
  | Sent i (Snapshot t v _) => match m !! (i, t) with Some x => if x <? v then Some (<[(i, t) := v]> m) else None | None => None end
  | _ => Some m
  end.

Fixpoint replay (m : gmap (nat * string) Z) l : option (gmap (nat * string) Z) :=
  match l with [] => Some m | o :: l => show m o ≫= λ m, replay m l end.

Lemma replay_snoc m l o : replay m (l ++ [o]) = replay m l ≫= λ m, show m o.
Proof. revert m. induction l as [|x l IH]; intros m; cbn; [by destruct (show m o)|]. destruct (show m x); cbn; [apply IH|done]. Qed.

(** ** The invariant *)

Notation sid s := (who (ws_tenant s) (ws_owner s)).
Notation gid g := (who (g_tenant g) (g_owner g)).

(** Read for an identity with the same key as the session's. *)
Definition shown l (s : session) (t : string) (v : Z) (p : T) : Prop := ∃ o tn, who tn o = sid s ∧ Answered o tn t v p ∈ l.

Lemma shown_mono l l' s t v p : l ⊆ l' → shown l s t v p → shown l' s t v p.
Proof. intros Hl (o & tn & E & H). exists o, tn. auto. Qed.

Lemma shown_app l l' s t v p : shown l s t v p → shown (l ++ l') s t v p.
Proof. apply shown_mono. set_solver. Qed.

Lemma shown_same l s s' t v p : sid s' = sid s → shown l s t v p → shown l s' t v p.
Proof. intros E (o & tn & Ew & H). exists o, tn. by rewrite E. Qed.

(** [lag gi i]: the snapshot of group [gi] is still to be sent to [i]. *)
Record hub_inv (lag : nat → nat → Prop) h : Prop := {
  hi_member : ∀ gi g i, k_groups h !! gi = Some g → i ∈ g_members g → k_index h !! key_of g = Some gi ∧
    ∃ s v, k_sessions h !! i = Some s ∧ sid s = gid g ∧ ws_subs s !! g_task g = Some v ∧ (g_latest g ≤ v ∨ lag gi i);
  hi_nodup : ∀ gi g, k_groups h !! gi = Some g → NoDup (g_members g);
  hi_index : ∀ key gi, k_index h !! key = Some gi → ∃ g, k_groups h !! gi = Some g ∧ key_of g = key;
  hi_task : ∀ gi g, k_groups h !! gi = Some g → no_nul (g_task g) = true;
  hi_frame : ∀ gi g p, k_groups h !! gi = Some g → g_frame g = Some p → Answered (g_owner g) (g_tenant g) (g_task g) (g_latest g) p ∈ k_log h;
  hi_fresh : ∀ gi g, k_groups h !! gi = Some g → g_frame g = None → g_latest g = -1;
  hi_sent : ∀ i t v p, Sent i (Snapshot t v p) ∈ k_log h → ∃ s, k_sessions h !! i = Some s ∧ shown (k_log h) s t v p;
  hi_next : ∀ i, (k_next h ≤ i)%nat → k_sessions h !! i = None ∧ k_groups h !! i = None;
  hi_replay : ∃ m, replay ∅ (k_log h) = Some m ∧
    ∀ i s t x, k_sessions h !! i = Some s → ws_subs s !! t = Some x → ∃ y, m !! (i, t) = Some y ∧ y ≤ x;
}.

(** ** Leaving *)

Lemma drop_member_spec i j ms : j ∈ drop_member i ms ↔ j ∈ ms ∧ j ≠ i.
Proof. unfold drop_member. rewrite list_elem_of_In, List.filter_In, <- list_elem_of_In, negb_true_iff, Nat.eqb_neq. done. Qed.

Lemma drop_member_nodup i ms : NoDup ms → NoDup (drop_member i ms).
Proof. induction 1 as [|j ms Hj _ IH]; cbn; [constructor|]. case_match; [|done]. constructor; [|done]. rewrite drop_member_spec. tauto. Qed.

Lemma removeSubscription_sessions i t h j :
  k_sessions (removeSubscription i t h) !! j = if decide (j = i) then with_subs (delete t) <$> k_sessions h !! i else k_sessions h !! j.
Proof.
  unfold removeSubscription. destruct (k_sessions h !! i) as [s|] eqn:E; [|case_decide; by subst].
  assert (k_sessions (with_sessions <[i := with_subs (delete t) s]> h) !! j = if decide (j = i) then Some (with_subs (delete t) s) else k_sessions h !! j) as H.
  { cbn. case_decide; [subst; by rewrite lookup_insert_eq|by rewrite lookup_insert_ne]. }
  repeat case_match; exact H.
Qed.

Lemma removeSubscription_log i t h : k_log (removeSubscription i t h) = k_log h ∧ k_next (removeSubscription i t h) = k_next h.
Proof. unfold removeSubscription. by repeat case_match. Qed.

(** A group after it: the same, or without [i]. *)
Lemma removeSubscription_groups i t h gi :
  k_groups (removeSubscription i t h) !! gi = k_groups h !! gi ∨ k_groups (removeSubscription i t h) !! gi = with_members (drop_member i) <$> k_groups h !! gi.
Proof.
  unfold removeSubscription. destruct (k_sessions h !! i) as [s|]; [|by left]. cbn. destruct (k_index h !! _) as [gj|]; [|by left].
  assert (alter (with_members (drop_member i)) gj (k_groups h) !! gi = k_groups h !! gi ∨ alter (with_members (drop_member i)) gj (k_groups h) !! gi = with_members (drop_member i) <$> k_groups h !! gi) as H.
  { destruct (decide (gi = gj)) as [->|]; [right; by rewrite lookup_alter_eq|left; by rewrite lookup_alter_ne]. }
  repeat case_match; exact H.
Qed.

(** What it does, by cases. *)
Lemma removeSubscription_cases i t h s : k_sessions h !! i = Some s →
  let key := groupKey (ws_tenant s) (ws_owner s) t in
  k_index h !! key = None ∧ k_groups (removeSubscription i t h) = k_groups h ∧ k_index (removeSubscription i t h) = k_index h ∨
  ∃ gj, k_index h !! key = Some gj ∧ k_groups (removeSubscription i t h) = alter (with_members (drop_member i)) gj (k_groups h) ∧
    (k_index (removeSubscription i t h) = k_index h ∨
     k_index (removeSubscription i t h) = delete key (k_index h) ∧ g_members <$> k_groups (removeSubscription i t h) !! gj = Some []).
Proof.
  intros E key. unfold removeSubscription. rewrite E. fold key. cbn. destruct (k_index h !! key) as [gj|]; [right|by left]. exists gj. split; [done|].
  destruct (g_members <$> _) as [[|]|] eqn:Em; (split; [done|]); [by right|by left|by left].
Qed.

Lemma key_of_who (s : session) g : sid s = gid g → key_of g = groupKey (ws_tenant s) (ws_owner s) (g_task g).
Proof. intros E. unfold key_of. by rewrite !groupKey_who, E. Qed.

Lemma removeSubscription_inv lag i t h : hub_inv lag h → hub_inv lag (removeSubscription i t h).
Proof.
  intros Hh. destruct (k_sessions h !! i) as [s|] eqn:Es; [|unfold removeSubscription; by rewrite Es].
  destruct Hh as [H1 H2 H3 H5 H6 HF H7 H8 H9]. pose proof (removeSubscription_cases i t h s Es) as Hc. cbn in Hc.
  destruct (removeSubscription_log i t h) as [Hl Hn]. pose proof (removeSubscription_sessions i t h) as Hs. pose proof (removeSubscription_groups i t h) as Hg.
  remember (removeSubscription i t h) as h' eqn:Eh. clear Eh.
  assert (∀ gi g', k_groups h' !! gi = Some g' → ∃ g, k_groups h !! gi = Some g ∧ (g' = g ∨ g' = with_members (drop_member i) g)) as Hg'.
  { intros gi g' Hgi. destruct (Hg gi) as [E|E]; rewrite Hgi in E; [exists g'; by split; [|left]|]. destruct (k_groups h !! gi) as [g|]; [|done]. exists g. injection E as ->. by split; [|right]. }
  assert (∀ j sj, k_sessions h !! j = Some sj → ∃ sj', k_sessions h' !! j = Some sj' ∧ sid sj' = sid sj ∧ ws_owner sj' = ws_owner sj ∧ ws_tenant sj' = ws_tenant sj ∧
    ∀ t', (j = i → t' ≠ t) → ws_subs sj' !! t' = ws_subs sj !! t') as Hkeep.
  { intros j sj Hj. rewrite Hs. case_decide as D; [subst j; rewrite Hj; cbn|by exists sj]. eexists. split; [done|]. split_and!; [done..|].
    intros t' Ht. cbn. rewrite lookup_delete_ne; [done|]. intros ->. by apply Ht. }
  split.
  - intros gi g' j Hgi Hj. destruct (Hg' gi g' Hgi) as (g & Hgi0 & Hor).
    assert (j ∈ g_members g ∧ key_of g' = key_of g ∧ g_task g' = g_task g ∧ g_owner g' = g_owner g ∧ g_tenant g' = g_tenant g ∧ g_latest g' = g_latest g) as (Hj0 & -> & -> & -> & -> & ->).
    { destruct Hor as [->| ->]; split_and!; try done. cbn in Hj. by apply drop_member_spec in Hj as [? _]. }
    destruct (H1 gi g j Hgi0 Hj0) as (Hix & sj & v & Hsj & Ho & Hv & Hlag).
    assert (j = i → g_task g ≠ t) as Hne.
    { intros -> Etask. assert (sj = s) as -> by congruence. assert (key_of g = groupKey (ws_tenant s) (ws_owner s) t) as Ek by (rewrite <- Etask; by apply key_of_who).
      destruct Hc as [(Hno & _)|(gj & Hgj & Hga & _)]; [congruence|]. assert (gj = gi) as -> by congruence.
      rewrite Hga, lookup_alter_eq, Hgi0 in Hgi. injection Hgi as <-. cbn in Hj. by apply drop_member_spec in Hj as [_ []]. }
    split.
    + destruct Hc as [(_ & _ & ->)|(gj & Hgj & Hga & [->|[-> Hemp]])]; [done..|]. rewrite lookup_delete_ne; [done|]. intros Ek.
      assert (gj = gi) as -> by congruence. rewrite Hgi in Hemp. cbn in Hemp. injection Hemp as Hemp. rewrite Hemp in Hj. by apply elem_of_nil in Hj.
    + destruct (Hkeep j sj Hsj) as (sj' & Hsj' & Ew & _ & _ & Hsub). exists sj', v. rewrite Hsub, Ew by done. by split_and!.
  - intros gi g' Hgi. destruct (Hg' gi g' Hgi) as (g & Hgi0 & [->| ->]); [by eapply H2|]. apply drop_member_nodup. by eapply H2.
  - intros key gi Hk. assert (k_index h !! key = Some gi) as Hk0.
    { destruct Hc as [(_ & _ & E)|(gj & _ & _ & [E|[E _]])]; rewrite E in Hk; [done..|]. by apply lookup_delete_Some in Hk as [_ ?]. }
    destruct (H3 key gi Hk0) as (g & Hgi & Ek). destruct (Hg gi) as [E|E]; rewrite Hgi in E; [by exists g|]. by exists (with_members (drop_member i) g).
  - intros gi g' Hgi. destruct (Hg' gi g' Hgi) as (g & Hgi0 & [->| ->]); by apply (H5 gi g).
  - intros gi g' p Hgi Hf. rewrite Hl. destruct (Hg' gi g' Hgi) as (g & Hgi0 & [->| ->]); by apply (H6 gi g).
  - intros gi g' Hgi Hf. destruct (Hg' gi g' Hgi) as (g & Hgi0 & [->| ->]); by apply (HF gi g).
  - intros j t' v p Hin. rewrite Hl in *. destruct (H7 j t' v p Hin) as (sj & Hj & Ha). destruct (Hkeep j sj Hj) as (sj' & Hj' & Ew & _). exists sj'. split; [done|]. by eapply shown_same.
  - intros j Hj. rewrite Hn in Hj. destruct (H8 j Hj) as [N1 N2]. split; [|destruct (Hg j) as [->| ->]; by rewrite N2]. rewrite Hs. case_decide; [|done]. subst. congruence.
  - destruct H9 as (m & Hm & Hsub). exists m. rewrite Hl. split; [done|]. intros j sj t' x Hj Hx. rewrite Hs in Hj. case_decide; [|by eapply Hsub].
    subst. rewrite Es in Hj. injection Hj as <-. cbn in Hx. apply lookup_delete_Some in Hx as [_ Hx]. by eapply Hsub.
Qed.

(** ** Sending *)

(** Changing a session without touching its identity and its subscriptions. *)
Lemma session_inv lag i s s' h : hub_inv lag h → k_sessions h !! i = Some s → ws_owner s' = ws_owner s → ws_tenant s' = ws_tenant s → ws_subs s' = ws_subs s →
  hub_inv lag (with_sessions (<[i := s']>) h).
Proof.
  intros [H1 H2 H3 H5 H6 HF H7 H8 H9] Hi Ho Ht Hs.
  assert (∀ j sj, <[i := s']> (k_sessions h) !! j = Some sj → ∃ s0, k_sessions h !! j = Some s0 ∧ ws_owner sj = ws_owner s0 ∧ ws_tenant sj = ws_tenant s0 ∧ ws_subs sj = ws_subs s0) as Hb.
  { intros j sj Hj. destruct (decide (i = j)) as [<-|N]; [rewrite lookup_insert_eq in Hj; injection Hj as <-; by exists s|rewrite lookup_insert_ne in Hj by done; by exists sj]. }
  assert (∀ j s0, k_sessions h !! j = Some s0 → ∃ sj, <[i := s']> (k_sessions h) !! j = Some sj ∧ ws_owner sj = ws_owner s0 ∧ ws_tenant sj = ws_tenant s0 ∧ ws_subs sj = ws_subs s0) as Hf.
  { intros j s0 Hj. destruct (decide (i = j)) as [<-|N]; [rewrite lookup_insert_eq|rewrite lookup_insert_ne by done; by exists s0]. assert (s0 = s) as -> by congruence. by exists s'. }
  split; cbn; try done.
  - intros gi g j Hg Hj. destruct (H1 gi g j Hg Hj) as (Hix & sj & v & Hsj & A & C & D). split; [done|]. destruct (Hf j sj Hsj) as (sj' & Hj' & E1 & E2 & E3).
    exists sj', v. rewrite E1, E2, E3. by split_and!.
  - intros j t v p Hin. destruct (H7 j t v p Hin) as (s0 & Hs0 & Ha). destruct (Hf j s0 Hs0) as (sj & Hj & E1 & E2 & _). exists sj. split; [done|]. eapply shown_same; [|done]. by rewrite E1, E2.
  - intros j Hj. destruct (H8 j Hj) as [N1 N2]. split; [|done]. rewrite lookup_insert_ne; [done|]. intros <-. congruence.
  - destruct H9 as (m & Hm & Hsub). exists m. split; [done|]. intros j sj t x Hj Hx. destruct (Hb j sj Hj) as (s0 & Hs0 & _ & _ & E). rewrite E in Hx. by eapply Hsub.
Qed.

Lemma unlag lag lag' h : hub_inv lag h →
  (∀ gi g i s x, k_groups h !! gi = Some g → i ∈ g_members g → k_sessions h !! i = Some s → ws_subs s !! g_task g = Some x → lag gi i → g_latest g ≤ x ∨ lag' gi i) →
  hub_inv lag' h.
Proof.
  intros [H1 H2 H3 H5 H6 HF H7 H8 H9] HL. split; try done. intros gi g i Hg Hi. destruct (H1 gi g i Hg Hi) as (Hix & s & v & A & B & D & E).
  split; [done|]. exists s, v. split_and!; try done. destruct E; [by left|by eapply HL].
Qed.

Lemma lag_mono lag lag' h : hub_inv lag h → (∀ gi i, lag gi i → lag' gi i) → hub_inv lag' h.
Proof. intros Hh HL. eapply unlag; [exact Hh|]. eauto. Qed.

(** Log entries a client does not see. *)
Definition quiet (o : output T) : bool := match o with Sent _ (Snapshot _ _ _) | Subscribed _ _ _ => false | _ => true end.

Lemma emit_keeps lag o h : quiet o = true → hub_inv lag h → hub_inv lag (emit o h).
Proof.
  intros Hq [H1 H2 H3 H5 H6 HF H7 H8 H9]. split; cbn; try done.
  - intros gi g p Hg Hf. apply elem_of_app. left. by eapply H6.
  - intros i t v p Hin. apply elem_of_app in Hin as [Hin|Hin]; [|set_unfold in Hin; destruct Hin as [<-|[]]; done].
    destruct (H7 i t v p Hin) as (s & Hs & Ha). exists s. split; [done|]. by apply shown_app.
  - destruct H9 as (m & Hm & Hsub). exists m. split; [|done]. rewrite replay_snoc, Hm. cbn. destruct o as [? []| | | | |]; cbn in *; congruence.
Qed.

Lemma close_inv lag i h : hub_inv lag h → hub_inv lag (close i h).
Proof.
  intros Hh. unfold close. destruct (k_sessions h !! i) as [s|] eqn:E; [|done]. case_match; [done|].
  assert (hub_inv lag (with_sessions <[i := shut s]> h)) as H0 by (by eapply session_inv). revert H0. generalize (with_sessions <[i := shut s]> h).
  induction (map_to_list (ws_subs s)).*1 as [|t ts IH]; intros h0 H0; cbn; [done|]. by apply IH, removeSubscription_inv.
Qed.

Lemma send_inv lag i f h : (match f with Snapshot _ _ _ => false | _ => true end = true) → hub_inv lag h → hub_inv lag (send i f h).
Proof.
  intros Hf Hh. unfold send. destruct (k_sessions h !! i) as [s|]; [|done]. destruct (ws_closed s); [done|]. destruct (ws_peer s).
  - apply emit_keeps; [by destruct f|done].
  - apply emit_keeps; [done|by apply close_inv].
  - by apply close_inv.
Qed.

(** Only [i] is touched. *)
Lemma close_others i h j : j ≠ i → k_sessions (close i h) !! j = k_sessions h !! j.
Proof.
  intros N. unfold close. destruct (k_sessions h !! i) as [s|] eqn:E; [|done]. case_match; [done|].
  assert (k_sessions (with_sessions <[i := shut s]> h) !! j = k_sessions h !! j) as H0 by (cbn; by rewrite lookup_insert_ne). revert H0. generalize (with_sessions <[i := shut s]> h).
  induction (map_to_list (ws_subs s)).*1 as [|t ts IH]; intros h0 H0; cbn; [done|]. apply IH. rewrite removeSubscription_sessions. by rewrite decide_False.
Qed.

Lemma close_log i h : k_log (close i h) = k_log h.
Proof.
  unfold close. destruct (k_sessions h !! i) as [s|]; [|done]. case_match; [done|]. change (k_log h) with (k_log (with_sessions <[i := shut s]> h)).
  generalize (with_sessions <[i := shut s]> h). induction (map_to_list (ws_subs s)).*1 as [|t ts IH]; intros h0; cbn; [done|]. by rewrite IH, (proj1 (removeSubscription_log i t h0)).
Qed.

Lemma send_others i f h j : j ≠ i → k_sessions (send i f h) !! j = k_sessions h !! j.
Proof.
  intros N. unfold send. destruct (k_sessions h !! i) as [s|]; [|done]. destruct (ws_closed s); [done|]. destruct (ws_peer s); cbn; [done|by apply close_others..].
Qed.

Lemma send_log i f h : k_log h ⊆ k_log (send i f h).
Proof.
  unfold send. destruct (k_sessions h !! i) as [s|]; [|done]. destruct (ws_closed s); [done|]. destruct (ws_peer s); cbn; rewrite ?close_log; set_solver.
Qed.

(** ** Delivering a snapshot *)

(** The session is subscribed, the snapshot is newer than what it has, and it was read
    for its owner and tenant. *)
Definition due h (task : string) (v : Z) (p : T) (i : nat) : Prop :=
  ∃ s x, k_sessions h !! i = Some s ∧ ws_subs s !! task = Some x ∧ x < v ∧ shown (k_log h) s task v p.

(** The new version in the subscription, before or after the snapshot was sent. *)
Lemma raise_inv lag lag' i s task x v p os h :
  hub_inv lag h → k_sessions h !! i = Some s → ws_subs s !! task = Some x → x < v →
  os = [] ∨ os = [Sent i (Snapshot task v p)] ∧ shown (k_log h) s task v p →
  (∀ gi g j, k_groups h !! gi = Some g → lag gi j → lag' gi j ∨ j = i ∧ g_task g = task ∧ g_latest g ≤ v) →
  hub_inv lag' (Hub (<[i := with_subs (<[task := v]>) s]> (k_sessions h)) (k_groups h) (k_index h) (k_next h) (k_log h ++ os)).
Proof.
  intros [H1 H2 H3 H5 H6 HF H7 H8 H9] Hi Hx Hv Hos HL.
  assert (∀ j, <[i := with_subs (<[task := v]>) s]> (k_sessions h) !! j = if decide (j = i) then Some (with_subs (<[task := v]>) s) else k_sessions h !! j) as Hlk.
  { intros j. case_decide; [subst; by rewrite lookup_insert_eq|by rewrite lookup_insert_ne]. }
  split; cbn; try done.
  - intros gi g j Hg Hj. destruct (H1 gi g j Hg Hj) as (Hix & sj & y & Hsj & A & C & D). split; [done|]. rewrite Hlk. case_decide as Dj.
    + subst j. assert (sj = s) as -> by congruence. destruct (decide (task = g_task g)) as [->|Nt].
      * exists (with_subs <[g_task g := v]> s), v. cbn. rewrite lookup_insert_eq. split_and!; try done. destruct D as [D|D]; [left; assert (x = y) by congruence; lia|].
        destruct (HL gi g i Hg D) as [?|(_ & _ & ?)]; [by right|by left].
      * exists (with_subs <[task := v]> s), y. cbn. rewrite lookup_insert_ne by done. split_and!; try done. destruct D as [D|D]; [by left|].
        destruct (HL gi g i Hg D) as [?|(_ & E & _)]; [by right|congruence].
    + exists sj, y. split_and!; try done. destruct D as [D|D]; [by left|]. destruct (HL gi g j Hg D) as [?|[E _]]; [by right|done].
  - intros gi g q Hg Hf. apply elem_of_app. left. by eapply H6.
  - intros j t w q Hin. rewrite Hlk. apply elem_of_app in Hin as [Hin|Hin].
    + destruct (H7 j t w q Hin) as (sj & Hj & Ha). case_decide as Dj; [subst j; assert (sj = s) as -> by congruence|]; eexists; (split; [done|]); by apply shown_app.
    + destruct Hos as [->|[-> Ha]]; [by apply elem_of_nil in Hin|]. apply list_elem_of_singleton in Hin. injection Hin as -> -> -> ->. rewrite decide_True by done.
      eexists. split; [done|]. by apply shown_app.
  - intros j Hj. destruct (H8 j Hj) as [N1 N2]. split; [|done]. rewrite Hlk. case_decide; [subst; congruence|done].
  - destruct H9 as (m & Hm & Hsub). destruct (Hsub i s task x Hi Hx) as (z & Hz & Hle).
    assert (∃ m', replay ∅ (k_log h ++ os) = Some m' ∧ (∀ k, k ≠ (i, task) → m' !! k = m !! k) ∧ ∃ z', m' !! (i, task) = Some z' ∧ z' ≤ v) as (m' & Hm' & Hk & z' & Hz' & Hle').
    { destruct Hos as [->|[-> _]]; [rewrite app_nil_r; exists m; split_and!; [done..|]; exists z; split; [done|lia]|].
      rewrite replay_snoc, Hm. cbn. rewrite Hz, (proj2 (Z.ltb_lt z v)) by lia. exists (<[(i, task) := v]> m). split; [done|].
      split; [intros k Hk; by rewrite lookup_insert_ne|]. exists v. by rewrite lookup_insert_eq. }
    exists m'. split; [done|]. intros j sj t y Hj Hy. rewrite Hlk in Hj. case_decide as Dj.
    + injection Hj as <-. subst j. cbn in Hy. destruct (decide (task = t)) as [<-|Nt]; [rewrite lookup_insert_eq in Hy; injection Hy as <-; eauto|].
      rewrite lookup_insert_ne in Hy by done. rewrite Hk by congruence. by eapply Hsub.
    + rewrite Hk by congruence. by eapply Hsub.
Qed.

Lemma deliver_inv lag lag' task v p i h : hub_inv lag h → due h task v p i →
  (∀ gi g j, k_groups h !! gi = Some g → lag gi j → lag' gi j ∨ j = i ∧ g_task g = task ∧ g_latest g ≤ v) → hub_inv lag' (deliver task v p h i).
Proof.
  intros Hh (s & x & Hi & Hx & Hv & Ha) HL. unfold deliver.
  assert (alter (with_subs <[task := v]>) i (k_sessions h) = <[i := with_subs (<[task := v]>) s]> (k_sessions h)) as Ea.
  { apply map_eq. intros j. destruct (decide (j = i)) as [->|N]; [by rewrite lookup_alter_eq, lookup_insert_eq, Hi|by rewrite lookup_alter_ne, lookup_insert_ne]. }
  unfold with_sessions. rewrite Ea. unfold send. cbn. rewrite lookup_insert_eq. cbn.
  assert (hub_inv lag' (Hub (<[i := with_subs (<[task := v]>) s]> (k_sessions h)) (k_groups h) (k_index h) (k_next h) (k_log h))) as H0.
  { rewrite <- (app_nil_r (k_log h)). by apply (raise_inv lag lag' i s task x v p []); [..|left|]. }
  destruct (ws_closed s); [exact H0|]. destruct (ws_peer s).
  - apply (raise_inv lag lag' i s task x v p [Sent i (Snapshot task v p)] h); [done..|by right|done].
  - apply emit_keeps; [done|]. apply close_inv. exact H0.
  - apply close_inv. exact H0.
Qed.

Lemma deliver_others task v p i h j : j ≠ i → k_sessions (deliver task v p h i) !! j = k_sessions h !! j.
Proof. intros N. unfold deliver. rewrite send_others by done. cbn. by rewrite lookup_alter_ne. Qed.

Lemma deliver_log task v p i h : k_log h ⊆ k_log (deliver task v p h i).
Proof. unfold deliver. etrans; [|apply send_log]. done. Qed.

Definition dropped (i : nat) (x y : option (group T)) : Prop := y = x ∨ y = with_members (drop_member i) <$> x.

Lemma drop_twice i ms : drop_member i (drop_member i ms) = drop_member i ms.
Proof. induction ms as [|j ms IH]; cbn; [done|]. destruct (negb (Nat.eqb j i)) eqn:E; cbn; [by rewrite E, IH|done]. Qed.

Lemma dropped_trans i x y z : dropped i x y → dropped i y z → dropped i x z.
Proof.
  unfold dropped. intros [->| ->] [->| ->]; auto. right. destruct x as [g|]; [|done]. cbn. unfold with_members. cbn. by rewrite drop_twice.
Qed.

Lemma close_groups i h gi : dropped i (k_groups h !! gi) (k_groups (close i h) !! gi).
Proof.
  unfold close. destruct (k_sessions h !! i) as [s|]; [|by left]. case_match; [by left|]. change (k_groups h) with (k_groups (with_sessions <[i := shut s]> h)).
  generalize (with_sessions <[i := shut s]> h). induction (map_to_list (ws_subs s)).*1 as [|t ts IH]; intros h0; cbn; [by left|].
  eapply dropped_trans; [apply removeSubscription_groups|apply IH].
Qed.

Lemma send_groups i f h gi : dropped i (k_groups h !! gi) (k_groups (send i f h) !! gi).
Proof.
  unfold send. destruct (k_sessions h !! i) as [s|]; [|by left]. destruct (ws_closed s); [by left|]. destruct (ws_peer s); cbn; [by left|apply close_groups..].
Qed.

Lemma deliver_groups task v p i h gi : dropped i (k_groups h !! gi) (k_groups (deliver task v p h i) !! gi).
Proof. apply (send_groups i _ (with_sessions (alter (with_subs <[task := v]>) i) h)). Qed.

(** The round of a group: everyone in [todo] gets the snapshot. *)
Lemma deliver_all_inv gi task v p todo : ∀ h,
  NoDup todo → (∀ j, j ∈ todo → due h task v p j) → (∀ g, k_groups h !! gi = Some g → g_task g = task ∧ g_latest g ≤ v) →
  hub_inv (λ gi' j, gi' = gi ∧ j ∈ todo) h → hub_inv (λ _ _, False) (foldl (deliver task v p) h todo).
Proof.
  induction todo as [|i todo IH]; intros h Hn Hd Hg Hh; cbn.
  - eapply lag_mono; [exact Hh|]. intros gi' j [_ Hj]. by apply elem_of_nil in Hj.
  - apply NoDup_cons in Hn as [Hi Hn]. apply IH; [done| | |].
    + intros j Hj. assert (j ≠ i) as N by congruence. destruct (Hd j ltac:(by right)) as (s & x & H1 & H2 & H3 & H4). exists s, x. rewrite deliver_others by done. split_and!; [done..|].
      eapply shown_mono; [apply deliver_log|done].
    + intros g' Hg'. destruct (deliver_groups task v p i h gi) as [E|E]; rewrite Hg' in E; [by apply Hg|]. destruct (k_groups h !! gi) as [g|]; [|done]. injection E as ->. by apply (Hg g).
    + eapply deliver_inv; [exact Hh|apply Hd; by left|]. intros gi' g j Hgi [-> Hj]. apply elem_of_cons in Hj as [->|Hj]; [right|by left]. by split; [|apply Hg].
Qed.

(** ** Groups *)

Notation settled := (hub_inv (λ _ _, False)).

(** A group changes, but not its identity and members. *)
Lemma regroup_inv lag lag' gi g g' h : hub_inv lag h → k_groups h !! gi = Some g →
  key_of g' = key_of g → g_owner g' = g_owner g → g_tenant g' = g_tenant g → g_task g' = g_task g → g_members g' = g_members g →
  (∀ p, g_frame g' = Some p → Answered (g_owner g) (g_tenant g) (g_task g) (g_latest g') p ∈ k_log h) → (g_frame g' = None → g_latest g' = -1) →
  (∀ i s x, i ∈ g_members g → k_sessions h !! i = Some s → ws_subs s !! g_task g = Some x → g_latest g ≤ x ∨ lag gi i → g_latest g' ≤ x ∨ lag' gi i) →
  (∀ gi' i, gi' ≠ gi → lag gi' i → lag' gi' i) → hub_inv lag' (with_groups (<[gi := g']>) h).
Proof.
  intros [H1 H2 H3 H5 H6 HF H7 H8 H9] Hg Ek Eo Et Ea Em Hf Hf' HL HL'.
  assert (∀ gi' x, <[gi := g']> (k_groups h) !! gi' = Some x → gi' = gi ∧ x = g' ∨ gi' ≠ gi ∧ k_groups h !! gi' = Some x) as Hc.
  { intros gi' x Hx. destruct (decide (gi = gi')) as [<-|N]; [rewrite lookup_insert_eq in Hx; left; by injection Hx as <-|rewrite lookup_insert_ne in Hx by done; right; done]. }
  split; cbn; try done.
  - intros gi' x i Hx Hi. destruct (Hc gi' x Hx) as [[-> ->]|[N Hx0]].
    + rewrite Em in Hi. destruct (H1 gi g i Hg Hi) as (Hix & s & v & A & B & D & E). rewrite Ek, Eo, Et, Ea. split; [done|]. exists s, v. split_and!; [done..|]. by eapply HL.
    + destruct (H1 gi' x i Hx0 Hi) as (Hix & s & v & A & B & D & E). split; [done|]. exists s, v. split_and!; try done. destruct E; [by left|right; auto].
  - intros gi' x Hx. destruct (Hc gi' x Hx) as [[-> ->]|[N Hx0]]; [rewrite Em; by eapply H2|by eapply H2].
  - intros key gi' Hk. destruct (H3 key gi' Hk) as (x & Hx & E). destruct (decide (gi = gi')) as [<-|N]; [exists g'; rewrite lookup_insert_eq|exists x; by rewrite lookup_insert_ne].
    split; [done|]. rewrite Ek. assert (x = g) as -> by congruence. done.
  - intros gi' x Hx. destruct (Hc gi' x Hx) as [[-> ->]|[N Hx0]]; [rewrite Ea; by eapply H5|by eapply H5].
  - intros gi' x p Hx Hp. destruct (Hc gi' x Hx) as [[-> ->]|[N Hx0]]; [rewrite Eo, Et, Ea; by apply Hf|by eapply H6].
  - intros gi' x Hx Hp. destruct (Hc gi' x Hx) as [[-> ->]|[N Hx0]]; [by apply Hf'|by eapply HF].
  - intros j Hj. destruct (H8 j Hj) as [N1 N2]. split; [done|]. rewrite lookup_insert_ne; [done|]. intros <-. congruence.
Qed.

(** Only the loop changes. *)
Lemma reloop_inv lag gi g pending x h : hub_inv lag h → k_groups h !! gi = Some g → hub_inv lag (with_groups (<[gi := with_loop pending x g]>) h).
Proof.
  intros Hh Hg. eapply (regroup_inv lag lag gi g); try done.
  - intros p. by apply (hi_frame _ _ Hh gi g).
  - by apply (hi_fresh _ _ Hh gi g).
Qed.

Lemma loop_head_inv lag gi g h : hub_inv lag h → k_groups h !! gi = Some g → hub_inv lag (loop_head gi g h).
Proof. intros Hh Hg. unfold loop_head. case_match; [apply emit_keeps; [done|]|]; by apply reloop_inv. Qed.

Lemma refreshGroup_inv lag gi h : hub_inv lag h → hub_inv lag (refreshGroup gi h).
Proof.
  intros Hh. unfold refreshGroup. destruct (k_groups h !! gi) as [g|] eqn:Hg; [|done]. destruct (g_loop g); [by apply reloop_inv|].
  unfold loop_head. case_match; [apply emit_keeps; [done|]|]; by apply (reloop_inv lag gi g).
Qed.

Lemma fold_inv {A} (f : hub T → A → hub T) xs : (∀ h x, settled h → settled (f h x)) → ∀ h, settled h → settled (foldl f h xs).
Proof. intros Hf. induction xs as [|x xs IH]; intros h Hh; cbn; [done|]. by apply IH, Hf. Qed.

Lemma read_settles_inv gi r h h' : settled h → read_settles gi r h = Some h' → settled h'.
Proof.
  intros Hh. unfold read_settles. destruct (k_groups h !! gi) as [g|] eqn:Hg; [|done]. destruct (g_loop g) as [[]|]; [|done..]. intros [= <-].
  destruct r as [[v p]|].
  - assert (settled (emit (Answered (g_owner g) (g_tenant g) (g_task g) v p) h)) as H1 by (by apply emit_keeps). remember (emit (Answered _ _ _ _ _) h) as h1 eqn:E1.
    assert (k_groups h1 !! gi = Some g) as Hg1 by (by rewrite E1). assert (Answered (g_owner g) (g_tenant g) (g_task g) v p ∈ k_log h1) as Ha by (rewrite E1; cbn; set_solver).
    clear E1 Hh Hg h. destruct (Z.leb_spec v (g_latest g)); [by apply loop_head_inv|].
    set (h2 := with_groups _ h1). apply (deliver_all_inv gi).
    + clear -H1 Hg1. pose proof (hi_nodup _ _ H1 gi g Hg1) as Hn. induction Hn as [|j ms Hj Hn IH]; cbn; [constructor|]. case_match; [constructor|]; [|done..].
      rewrite list_elem_of_In, List.filter_In, <- list_elem_of_In. tauto.
    + intros j Hj. rewrite list_elem_of_In, List.filter_In, <- list_elem_of_In in Hj. destruct Hj as [Hj Hb].
      destruct (hi_member _ _ H1 gi g j Hg1 Hj) as (_ & s & x & Hs & Ho & Hx & _). exists s, x. unfold behind in Hb. cbn in *. rewrite Hs in Hb. rewrite Hx in Hb. cbn in Hb.
      split_and!; [done|done|lia|]. by exists (g_owner g), (g_tenant g).
    + intros g' Hg'. cbn in Hg'. rewrite lookup_insert_eq in Hg'. injection Hg' as <-. by split.
    + eapply (regroup_inv (λ _ _, False) _ gi g); try done.
      * intros q [= <-]. done.
      * intros i s x Hi Hs Hx _. destruct (Z.le_gt_cases v x); [by left|right]. split; [done|]. rewrite list_elem_of_In, List.filter_In, <- list_elem_of_In. split; [done|].
        unfold behind. cbn. rewrite Hs, Hx. cbn. lia.
  - apply fold_inv; [|by apply reloop_inv]. intros h0 i. by apply send_inv.
Qed.

(** ** Subscribing *)

Definition add_member (i : nat) (ms : list nat) : list nat := if bool_decide (i ∈ ms) then ms else ms ++ [i].

Lemma add_member_spec i j ms : j ∈ add_member i ms ↔ j ∈ ms ∨ j = i.
Proof. unfold add_member. case_bool_decide; [naive_solver|]. rewrite elem_of_app, list_elem_of_singleton. done. Qed.

Lemma add_member_nodup i ms : NoDup ms → NoDup (add_member i ms).
Proof. intros Hn. unfold add_member. case_bool_decide; [done|]. apply NoDup_app. split_and!; [done| |apply NoDup_singleton]. intros x Hx ->%list_elem_of_singleton. done. Qed.

(** The group a subscription goes to: the one of its key, or a new one. *)
Definition joined h (s : session) (task key : string) (gi : nat) g : Prop :=
  k_index h !! key = Some gi ∧ k_groups h !! gi = Some g ∨
  k_index h !! key = None ∧ gi = k_next h ∧ g = Group (ws_owner s) (ws_tenant s) task [] (-1) None false None.

Lemma joined_identity lag h (s : session) task gi g : hub_inv lag h → no_nul task = true → joined h s task (groupKey (ws_tenant s) (ws_owner s) task) gi g →
  sid s = gid g ∧ g_task g = task.
Proof.
  intros Hh Ht [[Hk Hg]|(_ & _ & ->)]; [|done]. destruct (hi_index _ _ Hh _ _ Hk) as (g' & Hg' & E). assert (g' = g) as -> by congruence.
  apply groupKey_inj in E as [E ->]; [done|by apply (hi_task _ _ Hh gi)|done].
Qed.

Lemma join_inv i s task last gi g h : settled h → no_nul task = true → k_sessions h !! i = Some s → joined h s task (groupKey (ws_tenant s) (ws_owner s) task) gi g →
  hub_inv (λ gi' j, gi' = gi ∧ j = i)
    (Hub (<[i := with_subs (<[task := last]>) s]> (k_sessions h)) (<[gi := with_members (add_member i) g]> (k_groups h))
       (<[groupKey (ws_tenant s) (ws_owner s) task := gi]> (k_index h)) (S (k_next h)) (k_log h ++ [Subscribed i task last])).
Proof.
  intros Hh Hnul Hi HJ. destruct (joined_identity _ _ _ _ _ _ Hh Hnul HJ) as (Iw & Ia). destruct Hh as [H1 H2 H3 H5 H6 HF H7 H8 H9].
  set (key := groupKey (ws_tenant s) (ws_owner s) task) in *. assert (key_of g = key) as Ik by (rewrite (key_of_who s g Iw); unfold key; by rewrite Ia).
  assert (∀ j, <[i := with_subs (<[task := last]>) s]> (k_sessions h) !! j = if decide (j = i) then Some (with_subs (<[task := last]>) s) else k_sessions h !! j) as Hlk.
  { intros j. case_decide; [subst; by rewrite lookup_insert_eq|by rewrite lookup_insert_ne]. }
  assert (∀ gi' x, <[gi := with_members (add_member i) g]> (k_groups h) !! gi' = Some x → gi' = gi ∧ x = with_members (add_member i) g ∨ gi' ≠ gi ∧ k_groups h !! gi' = Some x) as Hc.
  { intros gi' x Hx. destruct (decide (gi = gi')) as [<-|N]; [rewrite lookup_insert_eq in Hx; left; by injection Hx as <-|rewrite lookup_insert_ne in Hx by done; right; done]. }
  assert (∀ j, j ∈ g_members g → k_groups h !! gi = Some g) as Hold by (intros j Hj; destruct HJ as [[_ ?]|(_ & _ & ->)]; [done|by apply elem_of_nil in Hj]).
  assert (∀ j sj t x, k_sessions h !! j = Some sj → ws_subs sj !! t = Some x → (j, t) ≠ (i, task) →
    ∃ sj', <[i := with_subs (<[task := last]>) s]> (k_sessions h) !! j = Some sj' ∧ sid sj' = sid sj ∧ ws_subs sj' !! t = Some x) as Hkeep.
  { intros j sj t x Hj Hx N. rewrite Hlk. case_decide as D; [subst j|by exists sj]. assert (sj = s) as -> by congruence. eexists. split; [done|]. cbn.
    rewrite lookup_insert_ne by congruence. done. }
  split; cbn.
  - intros gi' x j Hx Hj. destruct (decide (j = i ∧ g_task x = task ∧ gi' = gi)) as [(-> & Ex & ->)|N].
    + destruct (Hc gi x Hx) as [[_ ->]|[[] _]]; [|done]. cbn in *. change (key_of (with_members (add_member i) g)) with (key_of g). rewrite Ik, lookup_insert_eq.
      split; [done|]. exists (with_subs (<[task := last]>) s), last. rewrite Hlk, decide_True by done. cbn. rewrite Ia, lookup_insert_eq. split_and!; [done|done|done|right; done].
    + assert (∃ x0, k_groups h !! gi' = Some x0 ∧ j ∈ g_members x0 ∧ key_of x0 = key_of x ∧ g_task x0 = g_task x ∧ g_owner x0 = g_owner x ∧ g_tenant x0 = g_tenant x ∧ g_latest x0 = g_latest x) as
        (x0 & Hx0 & Hj0 & E1 & E2 & E3 & E4 & E5).
      { destruct (Hc gi' x Hx) as [[-> ->]|[N' Hx0]]; [|by exists x]. cbn in Hj. apply add_member_spec in Hj as [Hj| ->]; [exists g; split; [by eapply Hold|done]|]. exfalso. apply N. cbn. done. }
      destruct (H1 gi' x0 j Hx0 Hj0) as (Hix & sj & v & A & B & D & E). rewrite <- E1, <- E2, <- E3, <- E4, <- E5. split.
      * destruct (decide (key = key_of x0)) as [Ek|Nk]; [rewrite <- Ek, lookup_insert_eq|by rewrite lookup_insert_ne]. destruct HJ as [[Hk _]|[Hk _]]; congruence.
      * destruct E as [E|[]]. destruct (Hkeep j sj (g_task x0) v A D) as (sj' & P1 & P2 & P4); [|exists sj', v; rewrite P2; by split_and!; try left].
        intros [= -> Et]. apply N. split; [done|]. split; [congruence|]. assert (sj = s) as -> by congruence.
        assert (key_of x0 = key) as Ek by (rewrite (key_of_who s x0 B); unfold key; congruence). rewrite Ek in Hix. destruct HJ as [[Hk _]|[Hk _]]; congruence.
  - intros gi' x Hx. destruct (Hc gi' x Hx) as [[-> ->]|[N Hx0]]; [|by eapply H2]. cbn. apply add_member_nodup. destruct HJ as [[_ Hg]|(_ & _ & ->)]; [by eapply H2|constructor].
  - intros k' gi' Hk. destruct (decide (key = k')) as [<-|N].
    + rewrite lookup_insert_eq in Hk. injection Hk as <-. exists (with_members (add_member i) g). by rewrite lookup_insert_eq.
    + rewrite lookup_insert_ne in Hk by done. destruct (H3 k' gi' Hk) as (x & Hx & E). destruct (decide (gi = gi')) as [<-|N']; [|exists x; by rewrite lookup_insert_ne].
      exfalso. destruct HJ as [[_ Hg]|(_ & -> & _)]; [congruence|]. destruct (H8 (k_next h) ltac:(lia)) as [_ Hn]. congruence.
  - intros gi' x Hx. destruct (Hc gi' x Hx) as [[-> ->]|[N Hx0]]; [cbn; by rewrite Ia|by eapply H5].
  - intros gi' x p Hx Hp. apply elem_of_app. left. destruct (Hc gi' x Hx) as [[-> ->]|[N Hx0]]; [|by eapply H6]. cbn in *. destruct HJ as [[_ Hg]|(_ & _ & ->)]; [by eapply H6|done].
  - intros gi' x Hx Hp. destruct (Hc gi' x Hx) as [[-> ->]|[N Hx0]]; [|by eapply HF]. cbn in *. destruct HJ as [[_ Hg]|(_ & _ & ->)]; [by eapply HF|done].
  - intros j t v p Hin. apply elem_of_app in Hin as [Hin|Hin]; [|apply list_elem_of_singleton in Hin; done]. destruct (H7 j t v p Hin) as (sj & Hj & Ha). rewrite Hlk.
    case_decide as D; [subst j; assert (sj = s) as -> by congruence|]; eexists; (split; [done|]); by apply shown_app.
  - intros j Hj. destruct (H8 j ltac:(lia)) as [N1 N2]. split; [rewrite Hlk; case_decide; [subst; congruence|done]|]. rewrite lookup_insert_ne; [done|]. intros <-.
    destruct HJ as [[_ Hg]|(_ & -> & _)]; [congruence|lia].
  - destruct H9 as (m & Hm & Hsub). exists (<[(i, task) := last]> m). rewrite replay_snoc, Hm. split; [done|]. intros j sj t x Hj Hx. rewrite Hlk in Hj.
    destruct (decide ((i, task) = (j, t))) as [[= <- <-]|N].
    + rewrite lookup_insert_eq. rewrite decide_True in Hj by done. injection Hj as <-. cbn in Hx. rewrite lookup_insert_eq in Hx. injection Hx as <-. by exists last.
    + rewrite lookup_insert_ne by done. case_decide as D; [|by eapply Hsub]. subst j. injection Hj as <-. cbn in Hx. rewrite lookup_insert_ne in Hx by congruence. by eapply Hsub.
Qed.

Lemma subscribe_joins h (s : session) task key : (∀ gi, k_index h !! key = Some gi → is_Some (k_groups h !! gi)) →
  joined h s task key (default (k_next h) (k_index h !! key))
    (default (Group (ws_owner s) (ws_tenant s) task [] (-1) None false None) (k_index h !! key ≫= λ gi, k_groups h !! gi)).
Proof.
  intros Hk. unfold joined. destruct (k_index h !! key) as [gi|]; cbn; [left|by right]. destruct (Hk gi eq_refl) as [g Hg]. by rewrite Hg.
Qed.

Lemma subscribe_inv k i s task lastVersion h : settled h → no_nul task = true → k_sessions h !! i = Some s → settled (subscribe k i s task lastVersion h).
Proof.
  intros Hh Hn Hi. unfold subscribe. destruct (_ && _); [by apply send_inv|]. cbn zeta.
  set (last := match lastVersion with Some v => _ | None => _ end). assert (-1 ≤ last) as Hl by (unfold last; repeat case_match; lia).
  pose proof (subscribe_joins h s task (groupKey (ws_tenant s) (ws_owner s) task)) as HJ. cbn [k_next k_index k_groups emit with_sessions].
  set (gi := default (k_next h) _) in *. set (g := default (Group _ _ _ _ _ _ _ _) _) in *.
  assert (joined h s task (groupKey (ws_tenant s) (ws_owner s) task) gi g) as HJ'.
  { apply HJ. intros gj Hj. destruct (hi_index _ _ Hh _ _ Hj) as (x & Hx & _). by eexists. }
  pose proof (join_inv i s task last gi g h Hh Hn Hi HJ') as H2. destruct (joined_identity _ _ _ _ _ _ Hh Hn HJ') as (Iw & Ia).
  match type of H2 with hub_inv _ ?h2 => set (hj := h2) in *; change (Hub _ _ _ _ _) with hj end.
  assert (k_groups hj !! gi = Some (with_members (add_member i) g)) as Hgj by (cbn; by rewrite lookup_insert_eq).
  assert (k_sessions hj !! i = Some (with_subs (<[task := last]>) s)) as Hsj by (cbn; by rewrite lookup_insert_eq).
  assert (g_latest g ≤ last → settled (refreshGroup gi hj)) as Href.
  { intros Hle. apply refreshGroup_inv. eapply unlag; [exact H2|]. intros gi' x j sj y Hx Hj Hsj' Hy [-> ->]. left. rewrite Hgj in Hx. injection Hx as <-. cbn in Hy |- *.
    rewrite Hsj in Hsj'. injection Hsj' as <-. cbn in Hy. rewrite Ia, lookup_insert_eq in Hy. injection Hy as <-. done. }
  change (g_frame (with_members _ g)) with (g_frame g). change (g_latest (with_members _ g)) with (g_latest g).
  destruct (g_frame g) as [p|] eqn:Ef.
  - destruct (Z.ltb_spec last (g_latest g)); [|by apply Href]. eapply deliver_inv; [exact H2| |].
    + eexists _, last. split; [exact Hsj|]. cbn [ws_subs with_subs ws_owner ws_tenant]. rewrite lookup_insert_eq. split_and!; [done|done|].
      exists (g_owner g), (g_tenant g). rewrite <- Ia. split; [done|]. by apply (hi_frame _ _ H2 gi (with_members (add_member i) g)).
    + intros gi' x j Hx [-> ->]. right. rewrite Hgj in Hx. injection Hx as <-. by split_and!.
  - apply Href. pose proof (hi_fresh _ _ H2 gi _ Hgj Ef) as E. cbn in E. lia.
Qed.

Lemma receive_inv k i m h : settled h → settled (receive k i m h).
Proof.
  intros Hh. unfold receive. destruct (k_sessions h !! i) as [s|] eqn:Hi; [|done]. case_match; [done|].
  destruct m; try (by apply send_inv); (case_match eqn:Ev; [by apply send_inv|]); [apply subscribe_inv; [done|by apply valid_task_named; destruct (validTaskId task)|done]|apply send_inv; [done|by apply removeSubscription_inv]].
Qed.

Lemma accept_inv k owner tenant peer h : settled h → settled (accept k owner tenant peer h).
Proof.
  intros Hh. unfold accept. case_match; [by apply emit_keeps|]. case_match; [by apply emit_keeps|]. apply send_inv; [done|].
  destruct Hh as [H1 H2 H3 H5 H6 HF H7 H8 H9]. destruct (H8 (k_next h) ltac:(lia)) as [Hn _].
  assert (∀ j sj s0, k_sessions h !! j = Some sj → <[k_next h := s0]> (k_sessions h) !! j = Some sj) as Hold.
  { intros j sj s0 Hj. rewrite lookup_insert_ne; [done|]. intros <-. congruence. }
  split; cbn; try done.
  - intros gi g i Hg Hi. destruct (H1 gi g i Hg Hi) as (Hix & s & v & A & R). split; [done|]. exists s, v. split; [by apply Hold|done].
  - intros i t v p Hin. destruct (H7 i t v p Hin) as (s & Hs & Ha). exists s. split; [by apply Hold|done].
  - intros j Hj. rewrite lookup_insert_ne by lia. apply H8. lia.
  - destruct H9 as (m & Hm & Hsub). exists m. split; [done|]. intros j sj t x Hj Hx.
    destruct (decide (k_next h = j)) as [<-|N]; [rewrite lookup_insert_eq in Hj; injection Hj as <-; cbn in Hx; by rewrite lookup_empty in Hx|rewrite lookup_insert_ne in Hj by done; by eapply Hsub].
Qed.

Lemma rt_step_inv k ev h h' : settled h → step k ev h = Some h' → settled h'.
Proof.
  intros Hh. destruct ev; cbn; try intros [= <-].
  - by apply accept_inv.
  - by apply receive_inv.
  - destruct (k_sessions h !! i) as [s|] eqn:Hi.
    + assert (alter (turn_peer p) i (k_sessions h) = <[i := turn_peer p s]> (k_sessions h)) as Ea.
      { apply map_eq. intros j. destruct (decide (j = i)) as [->|N]; [by rewrite lookup_alter_eq, lookup_insert_eq, Hi|by rewrite lookup_alter_ne, lookup_insert_ne]. }
      unfold with_sessions. rewrite Ea. by apply (session_inv _ i s (turn_peer p s)).
    + unfold with_sessions. replace (alter (turn_peer p) i (k_sessions h)) with (k_sessions h); [by destruct h|].
      apply map_eq. intros j. destruct (decide (j = i)) as [->|N]; [by rewrite lookup_alter_eq, Hi|by rewrite lookup_alter_ne].
  - by apply close_inv.
  - by apply close_inv.
  - by eapply read_settles_inv.
  - unfold sends_settle. destruct (k_groups h !! gi) as [g|] eqn:Hg; [|done]. destruct (g_loop g) as [[]|]; [done| |done..]. intros [= <-]. by apply loop_head_inv.
  - unfold loop_clears. destruct (k_groups h !! gi) as [g|] eqn:Hg; [|done]. destruct (g_loop g) as [[]|]; [done..| |done]. intros [= <-]. by apply reloop_inv.
  - apply fold_inv; [|done]. intros. by apply refreshGroup_inv.
  - unfold invalidate. case_match; [done|]. apply fold_inv; [|done]. intros. by apply refreshGroup_inv.
  - apply fold_inv; [|done]. intros. by apply send_inv.
  - apply fold_inv; [|done]. intros h0 i0 H0. apply close_inv, emit_keeps; done.
Qed.

Lemma rt_run_inv k evs : ∀ h h', settled h → run_hub k evs h = Some h' → settled h'.
Proof.
  induction evs as [|ev evs IH]; intros h h' Hh; cbn in *; [by intros [= <-]|].
  destruct (step k ev h) as [h1|] eqn:E; [|done]. cbn. apply IH. by eapply rt_step_inv.
Qed.

Lemma empty_inv : settled empty_hub.
Proof.
  split; cbn; try (intros * H; rewrite lookup_empty in H; discriminate H).
  - intros i t v p H. by apply elem_of_nil in H.
  - intros i _. by rewrite !lookup_empty.
  - exists ∅. split; [done|]. intros * H. by rewrite lookup_empty in H.
Qed.

(** C19. Snapshots are isolated and fresh. Whatever sessions come and go under whatever
    names, subscribe, stall and fail, and whatever the reads answer and when: a session
    is only sent Tasks that were read for an identity with its group key, and if its own
    owner and tenant have no NUL character, that is exactly its owner and tenant,
    whatever the names of others; every snapshot is newer than the version it last
    subscribed with or was last sent; and no subscriber of a Task is behind the newest
    version the hub has read for it. *)
Theorem snapshots_isolated_and_fresh : ∀ k evs h, run_hub k evs empty_hub = Some h →
  (∀ i t v p, Sent i (Snapshot t v p) ∈ k_log h → ∃ s, k_sessions h !! i = Some s ∧
     (∃ o tn, groupKey tn o t = groupKey (ws_tenant s) (ws_owner s) t ∧ Answered o tn t v p ∈ k_log h) ∧
     (no_nul (ws_owner s) = true → no_nul (ws_tenant s) = true → Answered (ws_owner s) (ws_tenant s) t v p ∈ k_log h)) ∧
  is_Some (replay ∅ (k_log h)) ∧
  (∀ gi g i, k_groups h !! gi = Some g → i ∈ g_members g → ∃ s v, k_sessions h !! i = Some s ∧ ws_subs s !! g_task g = Some v ∧ g_latest g ≤ v).
Proof.
  intros k evs h Hr. destruct (rt_run_inv k evs _ _ empty_inv Hr) as [H1 _ _ _ _ _ H7 _ (m & Hm & _)]. split_and!; [|by eexists|].
  - intros i t v p Hs. destruct (H7 i t v p Hs) as (s & Hi & o & tn & Ew & Ha). exists s. split; [done|]. split; [exists o, tn; by rewrite !groupKey_who, Ew|].
    intros Ho Ht. by apply who_inj in Ew as [-> ->].
  - intros gi g i Hg Hi. destruct (H1 gi g i Hg Hi) as (_ & s & v & A & _ & D & [E|[]]). by exists s, v.
Qed.

(** ** Bounds *)

(** Nobody is connected who was not. *)
Definition calm h h' : Prop := ∀ i s', k_sessions h' !! i = Some s' → ws_closed s' = false → ∃ s, k_sessions h !! i = Some s ∧ ws_closed s = false.

#[local] Instance calm_preorder : PreOrder calm.
Proof. split; [intros h i s; eauto|]. intros h1 h2 h3 H1 H2 i s Hs Hc. destruct (H2 i s Hs Hc) as (s2 & ? & ?). eauto. Qed.

Lemma calm_count h h' : calm h h' → connectionCount h' ≤ connectionCount h.
Proof.
  intros Hc. unfold connectionCount. rewrite <- !size_dom. apply inj_le. apply subseteq_size. intros i. unfold open_map.
  rewrite !elem_of_dom. intros [s Hs]. apply map_lookup_filter_Some in Hs as [Hs Ho]. destruct (Hc i s Hs Ho) as (s0 & H0 & C0). exists s0. by apply map_lookup_filter_Some.
Qed.

Lemma calm_same h h' : k_sessions h' = k_sessions h → calm h h'.
Proof. intros E i s. rewrite E. eauto. Qed.

Lemma calm_session i s s' h : k_sessions h !! i = Some s → (ws_closed s' = false → ws_closed s = false) → calm h (with_sessions (<[i := s']>) h).
Proof.
  intros Hi Hc j x Hj Hx. cbn in Hj. destruct (decide (i = j)) as [<-|N]; [rewrite lookup_insert_eq in Hj; injection Hj as <-; eauto|rewrite lookup_insert_ne in Hj by done; eauto].
Qed.

Lemma calm_alter i f h : (∀ s, ws_closed (f s) = ws_closed s) → calm h (with_sessions (alter f i) h).
Proof.
  intros Hf j x Hj Hx. cbn in Hj. destruct (decide (i = j)) as [<-|N]; [|rewrite lookup_alter_ne in Hj by done; eauto].
  rewrite lookup_alter_eq in Hj. destruct (k_sessions h !! i) as [s|]; [|done]. injection Hj as <-. rewrite Hf in Hx. eauto.
Qed.

Lemma calm_remove i t h : calm h (removeSubscription i t h).
Proof.
  intros j x Hj Hx. rewrite removeSubscription_sessions in Hj. case_decide as D; [subst|eauto]. destruct (k_sessions h !! i) as [s|]; [|done]. injection Hj as <-. by exists s.
Qed.

Lemma calm_fold {A} (f : hub T → A → hub T) xs : (∀ h x, calm h (f h x)) → ∀ h, calm h (foldl f h xs).
Proof. intros Hf. induction xs as [|x xs IH]; intros h; cbn; [reflexivity|]. etrans; [apply Hf|apply IH]. Qed.

Lemma calm_close i h : calm h (close i h).
Proof.
  unfold close. destruct (k_sessions h !! i) as [s|] eqn:E; [|reflexivity]. case_match; [reflexivity|].
  etrans; [by apply (calm_session i s (shut s))|]. apply (calm_fold (λ h task, removeSubscription i task h)). intros. apply calm_remove.
Qed.

Lemma calm_send i f h : calm h (send i f h).
Proof. unfold send. destruct (k_sessions h !! i) as [s|]; [|reflexivity]. destruct (ws_closed s); [reflexivity|]. destruct (ws_peer s); [by apply calm_same|apply (calm_close i h)..]. Qed.

Lemma calm_deliver t v p h i : calm h (deliver t v p h i).
Proof. unfold deliver. etrans; [|apply calm_send]. by apply calm_alter. Qed.

Lemma calm_refresh gi h : calm h (refreshGroup gi h).
Proof. unfold refreshGroup, loop_head. repeat case_match; by apply calm_same. Qed.

Lemma calm_receive k i m h : calm h (receive k i m h).
Proof.
  unfold receive. destruct (k_sessions h !! i) as [s|] eqn:Hi; [|reflexivity]. case_match; [reflexivity|].
  destruct m; try apply calm_send; (case_match; [apply calm_send|]); [|etrans; [apply calm_remove|apply calm_send]].
  unfold subscribe. destruct (_ && _); [apply calm_send|]. cbn zeta. set (last := match lastVersion with Some v => _ | None => _ end).
  match goal with |- context [Hub ?a ?b ?c ?d ?e] => assert (calm h (Hub a b c d e)) as Hcalm by (by apply (calm_session i s (with_subs (<[task := last]>) s))) end.
  repeat case_match; (etrans; [exact Hcalm|]); first [apply calm_deliver|apply calm_refresh].
Qed.

Lemma step_calm k ev h h' : step k ev h = Some h' → calm h h' ∨ ∃ o t p, ev = Accept o t p.
Proof.
  destruct ev; cbn; try intros [= <-].
  - right. eauto.
  - left. apply calm_receive.
  - left. by apply calm_alter.
  - left. apply calm_close.
  - left. apply calm_close.
  - intros H. left. revert H. unfold read_settles, loop_head. destruct (k_groups h !! gi) as [g|]; [|done]. destruct (g_loop g) as [[]|]; [|done..]. intros [= <-].
    destruct r as [[v p]|].
    + repeat case_match; try (by apply calm_same). etrans; [|apply calm_fold; intros; apply calm_deliver]. by apply calm_same.
    + etrans; [|apply (calm_fold (λ h i, send i _ h)); intros; apply calm_send]. by apply calm_same.
  - intros H. left. revert H. unfold sends_settle, loop_head. repeat case_match; try done; intros [= <-]; by apply calm_same.
  - intros H. left. revert H. unfold loop_clears. repeat case_match; try done; intros [= <-]; by apply calm_same.
  - left. apply (calm_fold (λ h gi, refreshGroup gi h)). intros. apply calm_refresh.
  - left. unfold invalidate. case_match; [reflexivity|]. apply (calm_fold (λ h gi, refreshGroup gi h)). intros. apply calm_refresh.
  - left. apply (calm_fold (λ h i, send i Heartbeat h)). intros. apply calm_send.
  - left. apply (calm_fold (λ h i, close i (emit (PeerClosed i 1001) h))). intros h0 i. etrans; [|apply calm_close]. by apply calm_same.
Qed.

Lemma accept_count k o t p h : connectionCount h ≤ maxConnections k → connectionCount (accept k o t p h) ≤ maxConnections k.
Proof.
  intros Hh. unfold accept. case_match; [done|]. case_match eqn:Em; [done|]. apply Z.leb_gt in Em. etrans; [apply calm_count, calm_send|].
  unfold connectionCount, open_map in *. cbn. set (m := k_sessions h) in *. set (s := Session _ _ _ _ _).
  assert (filter (λ x, ws_closed x.2 = false) (<[k_next h := s]> m) ⊆ <[k_next h := s]> (filter (λ x, ws_closed x.2 = false) m)) as Hsub.
  { apply map_subseteq_spec. intros j x Hx. apply map_lookup_filter_Some in Hx as [Hx Ho]. destruct (decide (k_next h = j)) as [<-|N];
      [rewrite lookup_insert_eq in *; done|rewrite lookup_insert_ne in * by done; by apply map_lookup_filter_Some]. }
  apply map_subseteq_size in Hsub. rewrite map_size_insert in Hsub. case_match; unfold id in *; lia.
Qed.

(** No more sessions are open than [maxConnections]. *)
Theorem connections_bounded k evs h : 1 ≤ maxConnections k → run_hub k evs empty_hub = Some h → connectionCount h ≤ maxConnections k.
Proof.
  intros Hk. assert (∀ evs h0 h, connectionCount h0 ≤ maxConnections k → run_hub k evs h0 = Some h → connectionCount h ≤ maxConnections k) as Hall.
  2: { apply Hall. unfold connectionCount, open_map. cbn. rewrite map_filter_empty, map_size_empty. lia. }
  clear evs h. induction evs as [|ev evs IH]; intros h0 h H0; cbn; [by intros [= <-]|]. destruct (step k ev h0) as [h1|] eqn:E; [|done]. cbn. apply IH. clear IH h evs.
  destruct (step_calm k ev h0 h1 E) as [Hc|(o & t & p & ->)]; [etrans; [by apply calm_count|done]|]. injection E as <-. by apply accept_count.
Qed.
End facts.

(** ** Runs *)

Definition demo_options : options := Options 1000 100 16384.

(** Two owners subscribe to a Task of the same name; a third session joins late. *)
Definition two_owners : list (event string) :=
  [Accept "ann" None Taking; Accept "bob" None Taking; Receive 0 (Subscribe "t" None); Receive 1 (Subscribe "t" None);
   ReadSettles 2 (Some (3, "of ann")); ReadSettles 3 (Some (7, "of bob")); Accept "ann" None Taking; Receive 4 (Subscribe "t" None);
   SendsSettle 2; LoopClears 2; RefreshAll; ReadSettles 2 (Some (4, "of ann"))].

Definition snapshots (l : list (output string)) : list (nat * Z * string) :=
  flat_map (λ o, match o with Sent i (Snapshot _ v p) => [(i, v, p)] | _ => [] end) l.

Lemma snapshots_isolated_and_fresh_witness : ∃ h, run_hub demo_options two_owners empty_hub = Some h ∧
  snapshots (k_log h) = [(0%nat, 3, "of ann"); (1%nat, 7, "of bob"); (4%nat, 3, "of ann"); (0%nat, 4, "of ann"); (4%nat, 4, "of ann")] ∧ is_Some (replay ∅ (k_log h)).
Proof.
  assert ((λ h, snapshots (k_log h)) <$> run_hub demo_options two_owners empty_hub =
    Some [(0%nat, 3, "of ann"); (1%nat, 7, "of bob"); (4%nat, 3, "of ann"); (0%nat, 4, "of ann"); (4%nat, 4, "of ann")]) as H by (vm_compute; reflexivity).
  destruct (run_hub demo_options two_owners empty_hub) as [h|] eqn:E; [|discriminate H]. injection H as H. exists h. split; [reflexivity|]. split; [exact H|].
  destruct (snapshots_isolated_and_fresh demo_options two_owners h E) as (_ & Hr & _). exact Hr.
Defined.

(** With a NUL character in a name two identities share a group, and one is shown what
    was read for the other. *)
Theorem nul_names_share_a_group : ∃ h, run_hub demo_options
    [Accept "b" (Some ("a" ++ String NUL "x")%string) Taking; Accept ("x" ++ String NUL "b")%string (Some "a") Taking;
     Receive 0 (Subscribe "t" None); ReadSettles 2 (Some (1, "of the first")); Receive 1 (Subscribe "t" None)] empty_hub = Some h ∧
  snapshots (k_log h) = [(0%nat, 1, "of the first"); (1%nat, 1, "of the first")].
Proof. by eexists. Qed.

(** A refresh asked for after the last round and before [finally] is lost: the group
    stays pending and nothing reads until someone asks again. *)
Theorem refresh_between_rounds_lost : ∃ h, run_hub demo_options
    [Accept "ann" None Taking; Receive 0 (Subscribe "t" None); ReadSettles 1 (Some (1, "one")); SendsSettle 1; Invalidate "t" None None None; LoopClears 1] empty_hub = Some h ∧
  (λ g : group string, (g_pending g, g_loop g)) <$> k_groups h !! 1%nat = Some (true, None) ∧
  length (List.filter (λ o, match o with Asked _ _ _ => true | _ => false end) (k_log h)) = 1%nat.
Proof. by eexists. Qed.
End RealtimeFacts.
