(* ===== verification/EventStream.v ===== *)
(** * Server-sent events

    [tasks/sse.ts]: the text of an event, the parser the browser reads the stream with
    ([parseTaskEventStream]), the producer that watches one Task ([taskEventResponse]
    inside [sseResponse]) as a state machine, and one round of the producer that
    watches a page of Tasks.

    JSON values are an abstract type; printing and parsing them are parameters. The
    decoder passes bytes on, so a chunk is a string. *)

From stdpp Require Import base gmap strings list.
From Stdlib Require Import Ascii ZArith Lia.
From S2P Require Import Prelude TaskModel.

Module EventStream.

(** ** The text of an event *)

Definition LF : ascii := "010".
Definition CR : ascii := "013".

(** [id: ...], [event: ...], [data: ...] and the empty line. *)
Definition block_text (id : option string) (event data : string) : string :=
  (match truthy id with Some i => "id: " ++ i ++ String LF EmptyString | None => "" end ++ "event: " ++ event ++ String LF ("data: " ++ data))%string.

Definition BREAK : string := String LF (String LF EmptyString).

Definition event_text (id : option string) (event data : string) : string := (block_text id event data ++ BREAK)%string.

(** What every stream begins with. *)
Definition RETRY : string := ("retry: 1000" ++ BREAK)%string.

(** ** [parseTaskEventStream] *)

(** [replace(/\r\n/g, '\n')] *)
Fixpoint replace_crlf (s : string) : string :=
  match s with
  | EmptyString => EmptyString
  | String a rest =>
      match rest with
      | String b rest' => if Ascii.eqb a CR && Ascii.eqb b LF then String LF (replace_crlf rest') else String a (replace_crlf rest)
      | EmptyString => String a EmptyString
      end
  end.

(** The text before the first empty line and after it. *)
Fixpoint cut (s : string) : option (string * string) :=
  match s with
  | EmptyString => None
  | String a rest =>
      match rest with
      | String b rest' =>
          if Ascii.eqb a LF && Ascii.eqb b LF then Some (EmptyString, rest') else
          '(x, y) ← cut rest; Some (String a x, y)
      | EmptyString => None
      end
  end.

(** The inner loop: the blocks of the buffer and what is left; every block is shorter
    than the buffer. *)
Fixpoint drain (fuel : nat) (buffer : string) : list string * string :=
  match fuel with
  | O => ([], buffer)
  | S fuel =>
      match cut buffer with
      | Some (block, rest) => let '(bs, r) := drain fuel rest in (block :: bs, r)
      | None => ([], buffer)
      end
  end.

Definition blocks_of (buffer : string) : list string * string := drain (String.length buffer) buffer.

Fixpoint split_lines (s : string) : list string :=
  match s with
  | EmptyString => [EmptyString]
  | String a rest =>
      if Ascii.eqb a LF then EmptyString :: split_lines rest
      else match split_lines rest with l :: ls => String a l :: ls | [] => [String a EmptyString] end
  end.

Fixpoint after_prefix (p s : string) : option string :=
  match p, s with
  | EmptyString, _ => Some s
  | String a p, String b s => if Ascii.eqb a b then after_prefix p s else None
  | _, _ => None
  end.

(** The fields of a block: its event and its data lines. *)
Definition read_line (x : string * list string) (line : string) : string * list string :=
  let x := match after_prefix "event:" line with Some v => (js_trim v, x.2) | None => x end in
  match after_prefix "data:" line with Some v => (x.1, x.2 ++ [ltrim is_js_space v]) | None => x end.

Definition read_fields (block : string) : string * list string := foldl read_line ("message", []) (split_lines block).

Definition join_lines (ls : list string) : string := String.concat (String LF EmptyString) ls.

Section client.
Context {J : Type} (parse_json : string → option J).
(** The properties of a payload that have the right type. *)
Context (j_entityVersion : J → option Z) (j_tasks : J → bool) (j_serverTime j_code : J → option string).

Inductive TaskStreamEvent := TaskSnapshotEvent (version : Z) (task : J) | TaskPageEvent (payload : J) | TaskHeartbeatEvent (serverTime : string) | TaskErrorEvent (code : string).

Definition event_of (event : string) (payload : J) : option TaskStreamEvent :=
  if bool_decide (event = "task.snapshot") && bool_decide (is_Some (j_entityVersion payload)) then (λ v, TaskSnapshotEvent v payload) <$> j_entityVersion payload else
  if bool_decide (event = "task.page") && j_tasks payload then Some (TaskPageEvent payload) else
  if bool_decide (event = "task.heartbeat") && bool_decide (is_Some (j_serverTime payload)) then TaskHeartbeatEvent <$> j_serverTime payload else
  if bool_decide (event = "task.error") && bool_decide (is_Some (j_code payload)) then TaskErrorEvent <$> j_code payload else None.

(** [None] is the exception of [JSON.parse]; [Some None] a block without an event. *)
Definition parseBlock (block : string) : option (option TaskStreamEvent) :=
  let '(event, data) := read_fields block in
  match data with
  | [] => Some None
  | _ => event_of event <$> parse_json (join_lines data)
  end.

(** Blocks in turn, up to the first exception: the events, and whether it goes on. *)
Fixpoint parse_blocks (bs : list string) : list TaskStreamEvent * bool :=
  match bs with
  | [] => ([], true)
  | b :: bs =>
      match parseBlock b with
      | None => ([], false)
      | Some e => let '(es, ok) := parse_blocks bs in (match e with Some e => e :: es | None => es end, ok)
      end
  end.

(** The events of the chunks that arrive, after [buffer]. *)
Fixpoint parseTaskEventStream (buffer : string) (chunks : list string) : list TaskStreamEvent * bool :=
  match chunks with
  | [] => ([], true)
  | c :: chunks =>
      let '(bs, rest) := blocks_of (buffer ++ replace_crlf c) in
      let '(es, ok) := parse_blocks bs in
      if ok then let '(es', ok') := parseTaskEventStream rest chunks in (es ++ es', ok') else (es, false)
  end.
End client.
Arguments TaskStreamEvent J : clear implicits.

(** ** [parseLastVersion] *)

Fixpoint digits_value (s : string) (acc : Z) : option Z :=
  match s with
  | EmptyString => Some acc
  | String a s =>
      let n := Z.of_nat (nat_of_ascii a) in
      if (48 <=? n) && (n <=? 57) then digits_value s (acc * 10 + (n - 48)) else None
  end.

Definition parseLastVersion (value : option string) : Z :=
  match truthy value ≫= λ s, digits_value s 0 with
  | Some v => if v <=? MAX_SAFE_INTEGER then v else 0
  | None => 0
  end.

(** ** [taskEventResponse] *)

Record options := Options { pollMs : Z; idlePollMs : Z; heartbeatMs : Z; hasChanges : bool }.

Definition bounded (value min max : Z) : bool := (min <=? value) && (value <=? max).

Definition options_ok (o : options) : bool := bounded (pollMs o) 250 60000 && bounded (idlePollMs o) 1000 300000 && bounded (heartbeatMs o) 1000 120000.

Inductive output := SnapshotSent (version : Z) | HeartbeatSent | ErrorSent | ReadBegins | ChangeTold | WaitSet (budget : Z) | StreamClosed.

Inductive phase := Reading | Waiting | Over.

Record stream := Stream {
  x_version : Z; x_touched : bool; x_phase : phase; x_aborted : bool; x_closed : bool; x_heartbeatAt : Z; x_log : list output;
}.

Definition isTerminal (s : task_state) : bool := match s with Succeeded | Failed | Cancelled => true | _ => false end.

Definition log (o : output) (s : stream) : stream :=
  Stream (x_version s) (x_touched s) (x_phase s) (x_aborted s) (x_closed s) (x_heartbeatAt s) (x_log s ++ [o]).
Definition with_phase (p : phase) (s : stream) : stream := Stream (x_version s) (x_touched s) p (x_aborted s) (x_closed s) (x_heartbeatAt s) (x_log s).
Definition with_touched (b : bool) (s : stream) : stream := Stream (x_version s) b (x_phase s) (x_aborted s) (x_closed s) (x_heartbeatAt s) (x_log s).
Definition with_aborted (s : stream) : stream := Stream (x_version s) (x_touched s) (x_phase s) true (x_closed s) (x_heartbeatAt s) (x_log s).
Definition with_heartbeatAt (t : Z) (s : stream) : stream := Stream (x_version s) (x_touched s) (x_phase s) (x_aborted s) (x_closed s) t (x_log s).
Definition with_version (v : Z) (s : stream) : stream := Stream v (x_touched s) (x_phase s) (x_aborted s) (x_closed s) (x_heartbeatAt s) (x_log s).

(** [send] drops what comes after an abort. *)
Definition send (o : output) (s : stream) : stream := if x_aborted s then s else log o s.

(** [close]: [onClose] once. *)
Definition close (s : stream) : stream :=
  if x_closed s then s else log StreamClosed (Stream (x_version s) (x_touched s) (x_phase s) (x_aborted s) true (x_heartbeatAt s) (x_log s)).

(** The producer returned. *)
Definition finish (s : stream) : stream := close (with_phase Over s).

(** The head of the loop. *)
Definition loop_head (s : stream) : stream := if x_aborted s then finish s else log ReadBegins (with_phase Reading s).

Section producer.
Context (o : options).

Definition start (lastVersion now : Z) : stream :=
  let s := Stream lastVersion false Reading false false (now + heartbeatMs o) [] in
  if options_ok o then loop_head s else close (with_phase Over (send ErrorSent s)).

Definition budget (connected : bool) (now : Z) (s : stream) : Z :=
  if hasChanges o && connected then Z.min (idlePollMs o) (Z.max 50 (x_heartbeatAt s - now)) else pollMs o.

(** The read settled at [now], while the change source was [connected] or not. *)
Definition read_settles (version : Z) (state : task_state) (now : Z) (connected : bool) (s : stream) : stream :=
  let s := if x_version s <? version then send (SnapshotSent version) (with_version version s) else s in
  let s := if x_heartbeatAt s <=? now then with_heartbeatAt (now + heartbeatMs o) (send HeartbeatSent s) else s in
  if isTerminal state then finish s else
  if x_touched s then loop_head (with_touched false s) else
  if x_aborted s then finish s else
  log (WaitSet (budget connected now s)) (with_phase Waiting s).

Definition read_fails (s : stream) : stream := close (with_phase Over (send ErrorSent s)).

(** A change of the Task is told; the subscription ends with the producer. *)
Definition change_told (s : stream) : stream :=
  if negb (hasChanges o) then s else
  match x_phase s with
  | Over => s
  | Reading => log ChangeTold (with_touched true s)
  | Waiting => loop_head (log ChangeTold (with_touched true s))
  end.

Inductive event :=
| ReadSettles (version : Z) (state : task_state) (now : Z) (connected : bool)
| ReadFails
| Change (same : bool)
| WaitOver
| RequestAborts
| ConsumerCancels.

(** [waitForChange] answers false once the signal is aborted. *)
Definition abort (s : stream) : stream :=
  let s := with_aborted s in
  match x_phase s with Waiting => finish s | _ => s end.

Definition step (ev : event) (s : stream) : option stream :=
  match ev, x_phase s with
  | ReadSettles v st now c, Reading => Some (read_settles v st now c s)
  | ReadFails, Reading => Some (read_fails s)
  | Change same, _ => Some (if same then change_told s else s)
  | WaitOver, Waiting => Some (loop_head s)
  | RequestAborts, _ => Some (abort s)
  | ConsumerCancels, _ => Some (abort (close s))
  | _, _ => None
  end.

Fixpoint run_stream (evs : list event) (s : stream) : option stream :=
  match evs with
  | [] => Some s
  | ev :: evs => s' ← step ev s; run_stream evs s'
  end.
End producer.

(** ** [taskListEventResponse] *)

Record listed := Listed { t_id : string; t_entityVersion : Z }.

Inductive list_output := PageSent | ListSnapshotSent (id : string) (version : Z).

Section page.
Context (show : Z → string).

(** [tasks.map((task) => `${task.id}:${task.entityVersion}`).join('|')] *)
Definition fingerprint (tasks : list listed) : string := String.concat "|" ((λ t, t_id t ++ ":" ++ show (t_entityVersion t))%string <$> tasks).

Definition list_task (x : gmap string Z * list list_output) (t : listed) : gmap string Z * list list_output :=
  if default 0 (x.1 !! t_id t) <? t_entityVersion t
  then (<[t_id t := t_entityVersion t]> x.1, x.2 ++ [ListSnapshotSent (t_id t) (t_entityVersion t)]) else x.

(** One round: the versions and the fingerprint it leaves, and what it sends. *)
Definition list_round (versions : gmap string Z) (page : string) (tasks : list listed) : gmap string Z * string * list list_output :=
  let page' := fingerprint tasks in
  let out := if bool_decide (page' = page) then [] else [PageSent] in
  let '(versions, out) := foldl list_task (versions, out) tasks in
  (versions, page', out).
End page.
End EventStream.
