(* ===== verification/EventStreamFacts.v ===== *)
(** * What server-sent events promise

    However the network cuts the stream into chunks, the browser reads the events the
    server sent. A stream shows a Task's versions in order, never waits over a change it
    was told of, and gives its connection back exactly once. *)

From stdpp Require Import base gmap strings list.
From Stdlib Require Import Ascii ZArith Lia Sorted.
From S2P Require Import Prelude Sorting TaskModel EventStream.

Module EventStreamFacts.
Import EventStream.

#[local] Arguments Ascii.eqb : simpl never.

(** ** Characters *)

Lemma replace_crlf_step a b s : replace_crlf (String a (String b s)) = if Ascii.eqb a CR && Ascii.eqb b LF then String LF (replace_crlf s) else String a (replace_crlf (String b s)).
Proof. done. Qed.

Lemma replace_crlf_id s : lacks CR s = true → replace_crlf s = s.
Proof.
  induction s as [|a [|b s] IH]; [done..|]. intros Hl. rewrite replace_crlf_step. cbn [lacks] in Hl. apply andb_true_iff in Hl as [Ha%negb_true_iff Hl].
  rewrite Ha. cbn [andb]. by rewrite IH.
Qed.

(** ** Cutting *)

Lemma cut_step a b s : cut (String a (String b s)) = if Ascii.eqb a LF && Ascii.eqb b LF then Some (EmptyString, s) else '(x, y) ← cut (String b s); Some (String a x, y).
Proof. done. Qed.

Lemma cut_app a b x y : cut a = Some (x, y) → cut (a ++ b) = Some (x, (y ++ b)%string).
Proof.
  revert x y. induction a as [|c [|d s] IH]; intros x y; [done..|]. rewrite !append_String, cut_step, cut_step.
  case_match; [by intros [= <- <-]|]. rewrite <- append_String. destruct (cut (String d s)) as [[x' y']|]; [|done]. intros [= <- <-]. by rewrite (IH x' y' eq_refl).
Qed.

Lemma cut_length s x y : cut s = Some (x, y) → (String.length y < String.length s)%nat.
Proof.
  revert x y. induction s as [|c [|d s] IH]; intros x y; [done..|]. rewrite cut_step. case_match; [intros [= <- <-]; cbn; lia|].
  destruct (cut (String d s)) as [[x' y']|]; [|done]. intros [= <- <-]. specialize (IH x' y' eq_refl). cbn in *. lia.
Qed.

Lemma drain_fuel n m s : (String.length s ≤ n)%nat → (String.length s ≤ m)%nat → drain n s = drain m s.
Proof.
  revert m s. induction n as [|n IH]; intros m s Hn Hm.
  - destruct s; [|cbn in Hn; lia]. by destruct m.
  - destruct m as [|m]; [destruct s; [done|cbn in Hm; lia]|]. cbn. destruct (cut s) as [[x y]|] eqn:E; [|done]. apply cut_length in E. by rewrite (IH m y) by lia.
Qed.

Lemma blocks_cut s : blocks_of s = match cut s with Some (x, y) => let '(bs, r) := blocks_of y in (x :: bs, r) | None => ([], s) end.
Proof.
  unfold blocks_of. destruct (String.length s) as [|n] eqn:En; [by destruct s|]. cbn. destruct (cut s) as [[x y]|] eqn:E; [|done]. apply cut_length in E.
  by rewrite (drain_fuel n (String.length y)) by lia.
Qed.

(** Draining is incremental. *)
Lemma blocks_app a b : blocks_of (a ++ b) = let '(bs, r) := blocks_of a in let '(bs', r') := blocks_of (r ++ b) in (bs ++ bs', r').
Proof.
  assert (∀ n a, (String.length a ≤ n)%nat → blocks_of (a ++ b) = let '(bs, r) := blocks_of a in let '(bs', r') := blocks_of (r ++ b) in (bs ++ bs', r')) as H;
    [|by apply (H (String.length a))].
  clear a. induction n as [|n IH]; intros a Hn.
  - destruct a; [|cbn in Hn; lia]. rewrite append_nil_l. change (blocks_of "") with (@nil string, ""). cbn. rewrite append_nil_l. by destruct (blocks_of b).
  - rewrite (blocks_cut a). destruct (cut a) as [[x y]|] eqn:E; [|cbn; by destruct (blocks_of (a ++ b))].
    rewrite blocks_cut, (cut_app _ _ _ _ E). apply cut_length in E. rewrite IH by lia. destruct (blocks_of y) as [bs r]. cbn. by destruct (blocks_of (r ++ b)).
Qed.

Lemma blocks_rest s : cut (blocks_of s).2 = None.
Proof.
  assert (∀ n s, (String.length s ≤ n)%nat → cut (blocks_of s).2 = None) as H; [|by apply (H (String.length s))].
  clear s. induction n as [|n IH]; intros s Hn; rewrite blocks_cut; destruct (cut s) as [[x y]|] eqn:E; try done.
  - apply cut_length in E. lia.
  - apply cut_length in E. specialize (IH y ltac:(lia)). by destruct (blocks_of y).
Qed.

(** A block that ends where its empty line begins. *)
Fixpoint single (s : string) : bool :=
  match s with
  | EmptyString => true
  | String a rest => (if Ascii.eqb a LF then match rest with EmptyString => false | String b _ => negb (Ascii.eqb b LF) end else true) && single rest
  end.

Lemma cut_single block rest : single block = true → cut (block ++ BREAK ++ rest) = Some (block, rest).
Proof.
  induction block as [|a [|b s] IH]; intros Hs.
  - done.
  - rewrite append_String, append_nil_l. cbn in Hs. change (BREAK ++ rest)%string with (String LF (String LF rest)). rewrite cut_step.
    destruct (Ascii.eqb a LF) eqn:Ea; [done|]. cbn [andb]. by rewrite cut_step.
  - cbn [single] in Hs. apply andb_true_iff in Hs as [H1 H2]. rewrite !append_String, cut_step. rewrite <- append_String, (IH H2). cbn.
    destruct (Ascii.eqb a LF); [|done]. apply negb_true_iff in H1. by rewrite H1.
Qed.

Lemma single_line a : lacks LF a = true → single a = true.
Proof. induction a as [|x a IH]; [done|]. cbn. intros [->%negb_true_iff H]%andb_true_iff. by apply IH. Qed.

Lemma single_step a b s : single (String a (String b s)) = (if Ascii.eqb a LF then negb (Ascii.eqb b LF) else true) && single (String b s).
Proof. done. Qed.

Lemma single_lines a b s : lacks LF a = true → Ascii.eqb b LF = false → single (String b s) = true → single (a ++ String LF (String b s)) = true.
Proof.
  intros Ha Hb Hs. induction a as [|x a IH]; [rewrite append_nil_l, single_step, Hb, Hs; done|].
  rewrite append_String. cbn [lacks] in Ha. apply andb_true_iff in Ha as [Hx%negb_true_iff Ha]. specialize (IH Ha).
  cbn [single]. by rewrite Hx, IH.
Qed.

(** ** Lines *)

Lemma split_line a : lacks LF a = true → split_lines a = [a].
Proof. induction a as [|x a IH]; [done|]. cbn. intros [->%negb_true_iff H]%andb_true_iff. by rewrite IH. Qed.

Lemma split_break a b : lacks LF a = true → split_lines (a ++ String LF b) = a :: split_lines b.
Proof. induction a as [|x a IH]; [done|]. rewrite append_String. cbn. intros [->%negb_true_iff H]%andb_true_iff. by rewrite IH. Qed.

Lemma after_prefix_app p s : after_prefix p (p ++ s) = Some s.
Proof. induction p as [|a p IH]; [by rewrite append_nil_l|]. rewrite append_String. cbn. by rewrite Ascii.eqb_refl. Qed.

(** ** The round trip *)

Definition joined (chunks : list string) : string := foldr String.append "" chunks.

Definition KINDS : list string := ["task.snapshot"; "task.page"; "task.heartbeat"; "task.error"].

Section roundtrip.
Context {J : Type} (print : J → string) (parse_json : string → option J).
Context (j_entityVersion : J → option Z) (j_tasks : J → bool) (j_serverTime j_code : J → option string).

Notation event_of := (event_of j_entityVersion j_tasks j_serverTime j_code).
Notation parseBlock := (parseBlock parse_json j_entityVersion j_tasks j_serverTime j_code).
Notation parse_blocks := (parse_blocks parse_json j_entityVersion j_tasks j_serverTime j_code).
Notation parseTaskEventStream := (parseTaskEventStream parse_json j_entityVersion j_tasks j_serverTime j_code).

Lemma parse_blocks_app a b :
  parse_blocks (a ++ b) =
  let '(es, ok) := parse_blocks a in if ok then let '(es', ok') := parse_blocks b in (es ++ es', ok') else (es, false).
Proof.
  induction a as [|x a IH]; cbn; [by destruct (parse_blocks b)|]. destruct (parseBlock x) as [e|]; [|done]. rewrite IH.
  destruct (parse_blocks a) as [es []]; [|done]. destruct (parse_blocks b) as [es' ok]. by destruct e.
Qed.

(** Where the chunks are cut does not matter. *)
Lemma parse_chunks buffer chunks :
  cut buffer = None → lacks CR (joined chunks) = true →
  parseTaskEventStream buffer chunks = parse_blocks (blocks_of (buffer ++ joined chunks)).1.
Proof.
  revert buffer. induction chunks as [|c chunks IH]; intros buffer Hb Hl; cbn [joined foldr].
  - rewrite append_nil_r, blocks_cut, Hb. done.
  - cbn [joined foldr] in Hl. fold (joined chunks) in *. rewrite lacks_app in Hl. apply andb_true_iff in Hl as [Hc Hl]. cbn. rewrite (replace_crlf_id c Hc).
    rewrite <- append_assoc, (blocks_app (buffer ++ c)). pose proof (blocks_rest (buffer ++ c)) as Hr. destruct (blocks_of (buffer ++ c)) as [bs r]. cbn [snd] in Hr.
    rewrite (IH r Hr Hl). destruct (blocks_of (r ++ joined chunks)) as [bs' r']. cbn [fst]. by rewrite parse_blocks_app.
Qed.

(** An event as the server sends it. *)
Record sent := Sent { f_id : option string; f_event : string; f_payload : J }.

Definition sent_text (f : sent) : string := event_text (f_id f) (f_event f) (print (f_payload f)).

Definition sent_ok (f : sent) : Prop :=
  f_event f ∈ KINDS ∧ lacks LF (default "" (f_id f)) = true ∧ lacks CR (default "" (f_id f)) = true.

(** [JSON.stringify] of an object: one line that opens with a brace, which [JSON.parse] reads back. *)
Context (print_line : ∀ j, ∃ s, print j = String "{" s ∧ lacks LF s = true ∧ lacks CR s = true).
Context (parse_print : ∀ j, parse_json (print j) = Some j).

Definition sent_block (f : sent) : string := block_text (f_id f) (f_event f) (print (f_payload f)).

Lemma kinds_lack ev : ev ∈ KINDS → lacks LF ev = true ∧ lacks CR ev = true.
Proof. unfold KINDS. set_unfold. by intros [->|[->|[->|[->|[]]]]]. Qed.

Lemma id_line i rest : (("id: " ++ i ++ String LF "") ++ rest)%string = (("id: " ++ i) ++ String LF rest)%string.
Proof. by rewrite !append_assoc. Qed.

Lemma block_lines f :
  sent_ok f →
  split_lines (sent_block f) =
  match truthy (f_id f) with Some i => [("id: " ++ i)%string] | None => [] end ++ [("event: " ++ f_event f)%string; ("data: " ++ print (f_payload f))%string].
Proof.
  intros (Hk & Hi & _). apply kinds_lack in Hk as [Hk _]. destruct (print_line (f_payload f)) as (s & Hp & Hs & _).
  unfold sent_block, block_text.
  assert (split_lines ("event: " ++ f_event f ++ String LF ("data: " ++ print (f_payload f))) = [("event: " ++ f_event f)%string; ("data: " ++ print (f_payload f))%string]) as E.
  { rewrite <- append_assoc, split_break by (rewrite lacks_app, Hk; done). rewrite split_line; [done|]. rewrite lacks_app, Hp. cbn. by rewrite Hs. }
  destruct (truthy (f_id f)) as [i|] eqn:Et; [|by rewrite append_nil_l].
  assert (f_id f = Some i) as Ei by (destruct (f_id f) as [[]|]; naive_solver). rewrite Ei in Hi. cbn in Hi.
  rewrite id_line, split_break by (rewrite lacks_app, Hi; done). by rewrite E.
Qed.

Lemma block_single f : sent_ok f → single (sent_block f) = true.
Proof.
  intros (Hk & Hi & _). apply kinds_lack in Hk as [Hk _]. destruct (print_line (f_payload f)) as (s & Hp & Hs & _).
  unfold sent_block, block_text.
  assert (single ("event: " ++ f_event f ++ String LF ("data: " ++ print (f_payload f))) = true) as E.
  { rewrite <- append_assoc. apply single_lines; [rewrite lacks_app, Hk; done|done|]. apply (single_line ("data: " ++ _)). rewrite lacks_app, Hp. cbn. by rewrite Hs. }
  destruct (truthy (f_id f)) as [i|] eqn:Et; [|by rewrite append_nil_l].
  assert (f_id f = Some i) as Ei by (destruct (f_id f) as [[]|]; naive_solver). rewrite Ei in Hi. cbn in Hi.
  rewrite id_line. apply single_lines; [rewrite lacks_app, Hi; done|done|exact E].
Qed.

Lemma block_parses f : sent_ok f → parseBlock (sent_block f) = Some (event_of (f_event f) (f_payload f)).
Proof.
  intros Hf. unfold EventStream.parseBlock, read_fields. rewrite (block_lines f Hf), foldl_app.
  assert (foldl read_line ("message", []) (match truthy (f_id f) with Some i => [("id: " ++ i)%string] | None => [] end) = ("message", [])) as -> by (by destruct (truthy (f_id f))).
  destruct Hf as (Hk & _). destruct (print_line (f_payload f)) as (s & Hp & _).
  assert (foldl read_line ("message", []) [("event: " ++ f_event f)%string; ("data: " ++ print (f_payload f))%string] = (f_event f, [print (f_payload f)])) as ->.
  { rewrite Hp. unfold KINDS in Hk. set_unfold in Hk. by destruct Hk as [-> | [-> | [-> | [-> | []]]]]. }
  cbn. by rewrite parse_print.
Qed.

Lemma blocks_sent fs : Forall sent_ok fs → blocks_of (joined (sent_text <$> fs)) = (sent_block <$> fs, "").
Proof.
  induction 1 as [|f fs Hf _ IH]; [done|]. cbn [fmap list_fmap joined foldr]. rewrite blocks_cut. unfold sent_text at 1, event_text.
  rewrite append_assoc, (cut_single _ _ (block_single f Hf)). unfold joined in IH. by rewrite IH.
Qed.

Lemma sent_lacks fs : Forall sent_ok fs → lacks CR (joined (sent_text <$> fs)) = true.
Proof.
  induction 1 as [|f fs (Hk & _ & Hi) _ IH]; [done|]. cbn [fmap list_fmap joined foldr]. apply kinds_lack in Hk as [_ Hk]. destruct (print_line (f_payload f)) as (s & Hp & _ & Hs).
  unfold joined in IH. rewrite lacks_app, IH, andb_true_r. unfold sent_text, event_text, block_text. rewrite Hp.
  assert (lacks CR (match truthy (f_id f) with Some i => "id: " ++ i ++ String LF "" | None => "" end) = true) as E.
  { destruct (f_id f) as [i|]; [|done]. change (lacks CR i = true) in Hi. cbn [truthy]. case_bool_decide; [done|]. by rewrite !lacks_app, Hi. }
  change (String LF ("data: " ++ String "{" s)) with (String LF "data: {" ++ s)%string. by rewrite !lacks_app, E, Hk, Hs.
Qed.

Lemma parse_sent fs : Forall sent_ok fs → parse_blocks (sent_block <$> fs) = (omap (λ f, event_of (f_event f) (f_payload f)) fs, true).
Proof. induction 1 as [|f fs Hf _ IH]; [done|]. cbn. by rewrite (block_parses f Hf), IH. Qed.

(** C21. However the network cuts the stream into chunks, the browser reads exactly the
    events the server sent, in order, and never fails: for every list of chunks whose
    concatenation is the preamble followed by the text of the events (of the four kinds,
    with identifiers without line ends), given that [JSON.stringify] writes a payload on
    one line that opens with a brace and [JSON.parse] reads it back. *)
Theorem event_stream_roundtrip fs chunks :
  Forall sent_ok fs → joined chunks = (RETRY ++ joined (sent_text <$> fs))%string →
  parseTaskEventStream "" chunks = (omap (λ f, event_of (f_event f) (f_payload f)) fs, true).
Proof.
  intros Hf Hc. assert (lacks CR (joined chunks) = true) as Hl by (rewrite Hc, lacks_app, (sent_lacks fs Hf); done).
  rewrite (parse_chunks "" chunks eq_refl Hl), append_nil_l, Hc. unfold RETRY.
  rewrite append_assoc, blocks_cut, (cut_single "retry: 1000" _ eq_refl), (blocks_sent fs Hf). cbn [fst].
  change (parse_blocks ("retry: 1000" :: (sent_block <$> fs))) with (let '(es, ok) := parse_blocks (sent_block <$> fs) in (es, ok)). by rewrite (parse_sent fs Hf).
Qed.
End roundtrip.

Definition sample_print (b : bool) : string := if b then "{1}" else "{0}".
Definition sample_parse (s : string) : option bool := if bool_decide (s = "{1}") then Some true else if bool_decide (s = "{0}") then Some false else None.

(** Two events, cut inside the preamble, inside a field and between the two line ends. *)
Definition sample_chunks : list string :=
  ["retry: 10"; "00" ++ BREAK ++ "id: 3" ++ String LF "eve"; "nt: task.snapshot" ++ String LF ("data: {1}" ++ String LF ""); String LF "event: task.heartbeat" ++ String LF "data: {0}"; BREAK]%string.

Lemma event_stream_roundtrip_witness :
  parseTaskEventStream sample_parse (λ b, if b : bool then Some 3 else None) (λ _, false) (λ _, Some "now") (λ _, None) "" sample_chunks =
  ([TaskSnapshotEvent 3 true; TaskHeartbeatEvent "now"], true).
Proof.
  apply (event_stream_roundtrip sample_print sample_parse) with (fs := [Sent (Some "3") "task.snapshot" true; Sent None "task.heartbeat" false]).
  - intros []; [exists "1}"|exists "0}"]; done.
  - by intros [].
  - constructor; [|constructor; [|constructor]]; repeat split; try reflexivity; unfold KINDS; cbn; set_solver.
  - vm_compute. reflexivity.
Defined.

(** ** The producer *)

(** A change was told and no read began since. *)
Definition unread (l : list output) : bool := foldl (λ b o, match o with ChangeTold => true | ReadBegins => false | _ => b end) false l.

Definition snapshots (l : list output) : list Z := omap (λ o, match o with SnapshotSent v => Some v | _ => None end) l.

(** [StreamClosed] appears once when the stream is closed, and nothing is sent after it. *)
Definition ended (closed : bool) (l : list output) : Prop :=
  if closed then ∃ pre post, l = pre ++ StreamClosed :: post ∧ StreamClosed ∉ pre ∧ Forall (.= ChangeTold) post else StreamClosed ∉ l.

Definition wait_ok (o : output) : Prop := match o with WaitSet b => 50 ≤ b ≤ 300000 | _ => True end.

Record inv0 (last : Z) (s : stream) : Prop := {
  i_sorted : StronglySorted Z.lt (last :: snapshots (x_log s));
  i_version : Forall (λ v, v ≤ x_version s) (last :: snapshots (x_log s));
  i_ended : ended (x_closed s) (x_log s);
  i_waits : Forall wait_ok (x_log s);
  i_closed : x_closed s = true → x_aborted s = true ∨ x_phase s = Over;
}.

Record inv (last : Z) (s : stream) : Prop := {
  i_inv0 : inv0 last s;
  i_unread : unread (x_log s) = true → x_phase s = Over ∨ (x_phase s = Reading ∧ x_touched s = true);
  i_over : x_phase s = Over → x_closed s = true;
  i_waiting : x_phase s = Waiting → x_aborted s = false;
}.

#[local] Arguments snapshots : simpl never.
#[local] Arguments unread : simpl never.
#[local] Arguments ended : simpl never.

Lemma unread_snoc l o : unread (l ++ [o]) = match o with ChangeTold => true | ReadBegins => false | _ => unread l end.
Proof. unfold unread. rewrite foldl_app. by destruct o. Qed.

Lemma snapshots_snoc l o : snapshots (l ++ [o]) = snapshots l ++ match o with SnapshotSent v => [v] | _ => [] end.
Proof. unfold snapshots. rewrite omap_app. by destruct o. Qed.

Lemma sorted_snoc (l : list Z) v : StronglySorted Z.lt l → Forall (λ x, x < v) l → StronglySorted Z.lt (l ++ [v]).
Proof. intros Hs Hv. induction Hs as [|x l Hs IH Hx]; cbn; [repeat constructor|]. inversion_clear Hv. constructor; [by apply IH|]. apply Forall_app. split; [done|by constructor]. Qed.

Section stream.
Context (o : options) (last : Z).

(** An entry other than a snapshot, while the stream is open. *)
Lemma inv0_log p s :
  inv0 last s → (∀ v, p ≠ SnapshotSent v) → p ≠ StreamClosed → wait_ok p → x_closed s = false ∨ p = ChangeTold → inv0 last (log p s).
Proof.
  intros [Hs Hv He Hw Hc] Hp Hn Hk Ho. destruct s as [v t ph ab cl h l]; cbn in *.
  assert (snapshots (l ++ [p]) = snapshots l) as E by (rewrite snapshots_snoc; destruct p; rewrite ?app_nil_r; try done; by destruct (Hp version)).
  split; cbn; rewrite ?E; try done.
  - unfold ended in *. destruct cl.
    + destruct He as (pre & post & -> & H1 & H2), Ho as [?| ->]; [done|]. exists pre, (post ++ [ChangeTold]). rewrite <- app_assoc. split_and!; [done..|]. apply Forall_app. by repeat constructor.
    + set_solver.
  - apply Forall_app. by repeat constructor.
Qed.

Lemma inv0_snapshot v s : inv0 last s → x_closed s = false → x_version s < v → inv0 last (log (SnapshotSent v) (with_version v s)).
Proof.
  intros [Hs Hv He Hw Hc] Ho Hlt. destruct s as [v' t ph ab cl h l]; cbn in *. subst cl.
  split; cbn; rewrite ?snapshots_snoc; try done.
  - apply (sorted_snoc (last :: snapshots l)); [done|]. eapply Forall_impl; [exact Hv|]. cbn. lia.
  - apply (Forall_app _ (last :: snapshots l)). split; [eapply Forall_impl; [exact Hv|]; cbn; lia|]. repeat constructor. lia.
  - unfold ended in *. set_solver.
  - apply Forall_app. by repeat constructor.
Qed.

Lemma inv_finish s : inv0 last s → inv last (finish s).
Proof.
  intros [Hs Hv He Hw Hc]. destruct s as [v t ph ab cl h l]; cbn in *. unfold finish, close. cbn. destruct cl; cbn.
  - split; cbn; [split; cbn; auto|auto|done|done].
  - split; cbn; [split; cbn; rewrite ?snapshots_snoc, ?app_nil_r; try done; [|apply Forall_app; by repeat constructor|auto]|auto|done|done].
    by exists l, [].
Qed.

Lemma inv_head s : inv0 last s → x_phase s ≠ Over → inv last (loop_head s).
Proof.
  intros Hi Hp. unfold loop_head. destruct (x_aborted s) eqn:Ea; [by apply inv_finish|].
  assert (x_closed s = false) as Ec by (destruct (x_closed s) eqn:?; [destruct (i_closed _ _ Hi); congruence|done]).
  assert (inv0 last (with_phase Reading s)) as Hr by (destruct Hi; split; cbn; try done; congruence).
  split; [apply inv0_log; auto; done|..]; cbn; try done. rewrite unread_snoc. done.
Qed.

Lemma inv_send_quiet p s :
  inv0 last s → x_phase s = Reading → (∀ v, p ≠ SnapshotSent v) → p ≠ StreamClosed → p ≠ ChangeTold → wait_ok p → inv0 last (send p s).
Proof.
  intros Hi Hp H1 H2 H3 H4. unfold send. destruct (x_aborted s) eqn:Ea; [done|]. apply inv0_log; auto. left.
  destruct (x_closed s) eqn:?; [destruct (i_closed _ _ Hi); congruence|done].
Qed.

Lemma inv_send_snapshot v s : inv0 last s → x_phase s = Reading → x_version s < v → inv0 last (send (SnapshotSent v) (with_version v s)).
Proof.
  intros Hi Hp Hv. unfold send. cbn. destruct (x_aborted s) eqn:Ea.
  - destruct Hi as [? Hv' ? ? ?]. split; cbn; try done. eapply Forall_impl; [exact Hv'|]. cbn. lia.
  - apply inv0_snapshot; auto. destruct (x_closed s) eqn:?; [destruct (i_closed _ _ Hi); congruence|done].
Qed.

Lemma send_fields p s : x_phase (send p s) = x_phase s ∧ x_touched (send p s) = x_touched s ∧ x_aborted (send p s) = x_aborted s ∧ x_closed (send p s) = x_closed s.
Proof. unfold send. by destruct (x_aborted s) eqn:E; cbn; rewrite ?E. Qed.

Lemma send_unread p s : p ≠ ChangeTold → p ≠ ReadBegins → unread (x_log (send p s)) = unread (x_log s).
Proof. intros. unfold send. destruct (x_aborted s); [done|]. cbn. rewrite unread_snoc. by destruct p. Qed.

Lemma budget_ok connected now s : options_ok o = true → wait_ok (WaitSet (budget o connected now s)).
Proof. unfold options_ok, bounded, budget. cbn. intros H. repeat (apply andb_true_iff in H as [H ?]). case_match; lia. Qed.

Lemma inv_settles v st now c s : options_ok o = true → inv last s → x_phase s = Reading → inv last (read_settles o v st now c s).
Proof.
  intros Ho Hi Hp. unfold read_settles.
  set (s1 := if x_version s <? v then _ else _).
  assert (inv0 last s1 ∧ x_phase s1 = Reading ∧ x_touched s1 = x_touched s ∧ unread (x_log s1) = unread (x_log s)) as (H1 & P1 & T1 & U1).
  { subst s1. destruct (Z.ltb_spec (x_version s) v); [|by destruct Hi]. rewrite send_unread by done.
    destruct (send_fields (SnapshotSent v) (with_version v s)) as (-> & -> & _). split; [|done]. apply inv_send_snapshot; [by destruct Hi|done..]. }
  set (s2 := if x_heartbeatAt s1 <=? now then _ else _).
  assert (inv0 last s2 ∧ x_phase s2 = Reading ∧ x_touched s2 = x_touched s ∧ unread (x_log s2) = unread (x_log s)) as (H2 & P2 & T2 & U2).
  { subst s2. destruct (x_heartbeatAt s1 <=? now); [|done]. cbn. rewrite send_unread by done. destruct (send_fields HeartbeatSent s1) as (P & T & _).
    rewrite P, T. split; [|done]. destruct (inv_send_quiet HeartbeatSent s1 H1 P1) as [?????]; try done. }
  clearbody s2. clear s1 H1 P1 T1 U1.
  destruct (isTerminal st); [by apply inv_finish|]. destruct (x_touched s2) eqn:Et.
  { apply inv_head; [|cbn; congruence]. destruct H2. by split. }
  destruct (x_aborted s2) eqn:Ea; [by apply inv_finish|].
  assert (x_closed s2 = false) as Ec by (destruct (x_closed s2) eqn:?; [destruct (i_closed _ _ H2); congruence|done]).
  assert (unread (x_log s2) = false) as Eu.
  { rewrite U2. destruct (unread (x_log s)) eqn:E; [|done]. destruct (i_unread _ _ Hi E) as [?|[_ ?]]; congruence. }
  split; cbn; try done; [|by rewrite unread_snoc, Eu].
  apply inv0_log; [|done|done|by apply budget_ok|by left]. destruct H2. split; cbn; try done. congruence.
Qed.

Lemma inv_change s : inv last s → inv last (change_told o s).
Proof.
  intros Hi. unfold change_told. destruct (negb (hasChanges o)); [done|]. destruct Hi as [H0 Hu Hv Hw]. destruct (x_phase s) eqn:Ep.
  - split; cbn; rewrite ?Ep; try done; [|by intros _; right]. apply inv0_log; [|try done..|by right]. destruct H0. by split.
  - apply inv_head; [|cbn; congruence]. apply inv0_log; [|try done..|by right]. destruct H0. by split.
  - by split; rewrite ?Ep.
Qed.

Lemma inv_abort s : inv last s → inv last (abort s).
Proof.
  intros Hi. unfold abort. cbn. assert (inv0 last (with_aborted s)) as H0 by (destruct Hi as [[] ? ? ?]; split; cbn; auto).
  destruct (x_phase s) eqn:Ep; [|by apply inv_finish|]; destruct Hi as [_ Hu Hv Hw]; split; cbn; rewrite ?Ep in *; done.
Qed.

Lemma inv_closes s : inv last s → inv last (abort (close s)).
Proof.
  intros Hi. unfold close. destruct (x_closed s) eqn:Ec; [by apply inv_abort|].
  destruct Hi as [[Hs Hv He Hw Hc] Hu Ho Hp]. destruct s as [v t ph ab cl h l]; cbn in *; subst cl. unfold abort; cbn.
  assert (inv0 last (Stream v t ph true true h (l ++ [StreamClosed]))) as H0.
  { split; cbn; rewrite ?snapshots_snoc, ?app_nil_r; try done; [by exists l, []| |by left]. apply Forall_app. by repeat constructor. }
  destruct ph; [|by apply (inv_finish _ H0)|by specialize (Ho eq_refl)]. split; cbn; try done. by rewrite unread_snoc.
Qed.

Lemma inv_fails s : inv last s → x_phase s = Reading → inv last (read_fails s).
Proof. intros Hi Hp. unfold read_fails. apply inv_finish, inv_send_quiet; try done. by destruct Hi. Qed.

Lemma stream_step ev s s' : options_ok o = true → step o ev s = Some s' → inv last s → inv last s'.
Proof.
  intros Ho Hs Hi. destruct ev as [v st now c| |same| | |]; cbn in Hs.
  - destruct (x_phase s) eqn:Ep; [|done..]. injection Hs as <-. by apply inv_settles.
  - destruct (x_phase s) eqn:Ep; [|done..]. injection Hs as <-. by apply inv_fails.
  - injection Hs as <-. destruct same; [by apply inv_change|done].
  - destruct (x_phase s) eqn:Ep; [done| |done]. injection Hs as <-. apply inv_head; [by destruct Hi|congruence].
  - injection Hs as <-. by apply inv_abort.
  - injection Hs as <-. by apply inv_closes.
Qed.

Lemma over_step ev s s' : x_phase s = Over → step o ev s = Some s' → x_phase s' = Over.
Proof.
  intros Hp Hs. destruct ev as [v st now c| |[]| | |]; cbn in Hs; rewrite ?Hp in Hs; try done; injection Hs as <-; try done.
  - unfold change_told. rewrite Hp. by destruct (negb _).
  - unfold abort. cbn. by rewrite Hp.
  - unfold abort, close. destruct (x_closed s); cbn; by rewrite Hp.
Qed.

Lemma stream_run evs s s' : options_ok o = true ∨ x_phase s = Over → run_stream o evs s = Some s' → inv last s → inv last s'.
Proof.
  revert s. induction evs as [|ev evs IH]; intros s Ho Hr Hi; cbn in Hr; [by injection Hr as <-|].
  destruct (step o ev s) as [s1|] eqn:Es; [|done]. cbn in Hr. destruct Ho as [Ho|Ho].
  - apply (IH s1); auto. by apply (stream_step ev s).
  - apply (IH s1); auto; [right; by apply (over_step ev s)|].
    destruct ev as [v st now c| |same| | |]; cbn in Es; rewrite ?Ho in Es; try done; injection Es as <-; [|by apply inv_abort|by apply inv_closes]. destruct same; [by apply inv_change|done].
Qed.

Lemma inv_start now : inv last (start o last now).
Proof.
  assert (inv0 last (Stream last false Reading false false (now + heartbeatMs o) [])) as H.
  { split; cbn; try done; change (snapshots []) with (@nil Z); repeat constructor; [lia|]. unfold ended. set_solver. }
  unfold start. destruct (options_ok o); [by apply inv_head|]. by apply inv_finish, inv_send_quiet.
Qed.
End stream.

(** C20. Whatever happens to a Task's event stream (reads that settle or fail, changes
    told at any moment, waits that run out, the request or the consumer that goes away):
    while a change it was told of has not been followed by a read, the stream is over or
    is reading and will read again at once, so it never waits over a change; the versions
    it shows grow strictly from the version the browser had; every wait is 50 ms to five
    minutes long; and its connection is given back exactly once, when it is over at the
    latest, after which nothing is sent. *)
Theorem stream_misses_no_change o last now evs s :
  run_stream o evs (start o last now) = Some s →
  (unread (x_log s) = true → x_phase s = Over ∨ (x_phase s = Reading ∧ x_touched s = true)) ∧
  StronglySorted Z.lt (last :: snapshots (x_log s)) ∧
  Forall wait_ok (x_log s) ∧
  ended (x_closed s) (x_log s) ∧
  (x_phase s = Over → x_closed s = true).
Proof.
  intros Hr. destruct (stream_run o last evs (start o last now) s) as [[] ? ? ?]; [|done|apply inv_start|done].
  unfold start. destruct (options_ok o); [by left|right]. unfold finish, close, send. cbn. done.
Qed.

Definition sample_options : options := Options 1000 30000 15000 true.

(** A change between the read and the wait, then a second read, then the end. *)
Definition sample_events : list event :=
  [Change true; ReadSettles 3 Queued 10 true; ReadSettles 4 Running 20 true; Change true; Change false; ReadSettles 4 Running 30 true; ReadSettles 9 Succeeded 40 false].

Lemma stream_misses_no_change_witness :
  ∃ s, run_stream sample_options sample_events (start sample_options 2 0) = Some s ∧ snapshots (x_log s) = [3; 4; 9] ∧ x_phase s = Over ∧ x_closed s = true.
Proof.
  destruct (run_stream sample_options sample_events (start sample_options 2 0)) as [s|] eqn:E; [|vm_compute in E; discriminate].
  exists s. pose proof (stream_misses_no_change _ _ _ _ _ E) as (_ & _ & _ & _ & Hc).
  vm_compute in E. injection E as <-. split_and!; [reflexivity..|]. by apply Hc.
Defined.
End EventStreamFacts.
