(* ===== verification/Declaration.v ===== *)
(** * The Task declaration

    [tasks/declaration.ts]: what [defineRhinoQTask] checks, the commands its dispatch
    methods send to the runtime integration, the envelope a worker reads back, the
    worker handler with its lease, workspace, progress and cancellation, and the
    cancellation monitor.

    Asynchronous methods are programs ([Programs]); a worker's calls answer as they like.
    Numbers are integers, so the [Number.isInteger] half of a check always holds. The
    trace hooks wrap an operation without changing it. *)

From stdpp Require Import base gmap strings list.
From Stdlib Require Import Ascii ZArith Lia.
From S2P Require Import Prelude TaskModel TaskClient ResourceLeases Programs.

Module Declaration.
Open Scope prog_scope.

(** ** Declarations *)

Inductive task_error : Type :=
| InvalidArgument
| OutOfRange
| RefusedEnvelope
| RhinoQUserCancellationError (taskId reason : string)
| RhinoQWorkerShutdownError
| LeaseLost (leaseId : string)
| Thrown (message : string).

Inductive backoff_type := Fixed | Exponential.

Inductive RhinoQTaskRetryPolicy := Never | Runtime (maxAttempts : Z) (backoff : option (backoff_type * Z)).

Record RhinoQTaskEffectPolicy := EffectPolicy { ef_idempotency : string; ef_confirmation : string }.

Record execution_policy := ExecutionPolicy { x_delayMs : option Z; x_priority : option Z }.

Record RhinoQTaskOptions := TaskOptions {
  o_name : string; o_version : option Z; o_adapter : string; o_runtime : string; o_scope : string;
  o_retry : option RhinoQTaskRetryPolicy; o_effect : option RhinoQTaskEffectPolicy; o_externalEffect : bool;
  o_maxItems : option Z; o_execution : option execution_policy; o_resources : resource_options; o_workspace : bool;
}.

Record RhinoQTaskServices := TaskServices {
  s_resources : option pool_options; s_workerId : option string; s_cancellation : option (option Z); s_runClient : bool;
}.

Record RhinoQDeclaredTask := Declared {
  d_name : string; d_version : Z; d_adapter : string; d_runtime : string; d_scope : string; d_retry : RhinoQTaskRetryPolicy;
  d_effect : option RhinoQTaskEffectPolicy; d_maxItems : option Z; d_execution : option execution_policy; d_demand : vector; d_workspace : bool;
}.

Definition required (v : string) : result task_error string := if js_blank v then Err InvalidArgument else Ok (js_trim v).

(** [value?.trim() || undefined] *)
Definition trimmed (v : option string) : option string := truthy (js_trim <$> v).

Definition validateExecution (x : execution_policy) : result task_error unit :=
  match x_delayMs x with Some d => if d <? 0 then Err OutOfRange else Ok tt | None => Ok tt end.

Definition retry_ok (r : RhinoQTaskRetryPolicy) : bool :=
  match r with
  | Never => true
  | Runtime n b => (1 <=? n) && match b with Some (_, d) => 1 <=? d | None => true end
  end.

Definition needs (v : vector) : bool := existsb (λ f, 0 <? f v) dims.

Definition admission_ok (s : RhinoQTaskServices) : result task_error unit :=
  match s_resources s, truthy (s_workerId s) with
  | Some pool, Some _ => match validateRhinoQResourcePool pool with Ok _ => Ok tt | Err _ => Err OutOfRange end
  | _, _ => Err InvalidArgument
  end.

Definition defineRhinoQTask (o : RhinoQTaskOptions) (s : RhinoQTaskServices) : result task_error RhinoQDeclaredTask :=
  match required (o_name o), required (o_adapter o), required (o_runtime o), required (o_scope o) with
  | Ok name, Ok adapter, Ok runtime, Ok scope =>
      let version := default 1 (o_version o) in
      let retry := default Never (o_retry o) in
      if version <? 1 then Err OutOfRange else
      if negb (retry_ok retry) then Err OutOfRange else
      if o_externalEffect o && negb (bool_decide (is_Some (o_effect o))) then Err InvalidArgument else
      match from_option validateExecution (Ok tt) (o_execution o) with
      | Err e => Err e
      | Ok _ =>
          match normalizeRhinoQResourceVector (o_resources o) with
          | Err _ => Err OutOfRange
          | Ok demand =>
              match (if needs demand then admission_ok s else Ok tt) with
              | Err e => Err e
              | Ok _ =>
                  match s_cancellation s with
                  | Some (Some ms) =>
                      if (ms <? 250) || (60000 <? ms) then Err OutOfRange
                      else Ok (Declared name version adapter runtime scope retry (o_effect o) (o_maxItems o) (o_execution o) demand (o_workspace o))
                  | _ => Ok (Declared name version adapter runtime scope retry (o_effect o) (o_maxItems o) (o_execution o) demand (o_workspace o))
                  end
              end
          end
      end
  | _, _, _, _ => Err InvalidArgument
  end.

(** ** The envelope *)

(** A property of a job's data: absent, a string, a number or something else. *)
Inductive field := Absent | Text (s : string) | Number (z : Z) | Other.

Section payloads.
Context {P : Type}.

Record job_data := JobData {
  e_taskName : field; e_definitionVersion : field; e_taskId : field; e_executionId : field; e_itemKey : field; e_payload : option P;
  e_ownerId : field; e_tenantId : field; e_trace : option (list (string * field));
}.

Record task_envelope := Envelope {
  v_taskId : string; v_executionId : string; v_itemKey : string; v_payload : option P; v_ownerId : option string; v_tenantId : option string;
  v_trace : option (list (string * string));
}.

(** A string with something other than blanks in it. *)
Definition text_of (f : field) : option string := match f with Text s => if js_blank s then None else Some s | _ => None end.

(** The text entries of a trace, 32 at most. *)
Definition trace_of (entries : list (string * field)) : list (string * string) :=
  take 32 (omap (λ x, match x.2 with Text s => Some (x.1, s) | _ => None end) entries).

Definition taskEnvelope (value : option job_data) (name : string) (version : Z) : result task_error task_envelope :=
  match value with
  | None => Err RefusedEnvelope
  | Some e =>
      match e_taskName e, e_definitionVersion e with
      | Text n, Number v =>
          if bool_decide (n = name) && bool_decide (v = version) then
            match text_of (e_taskId e), text_of (e_executionId e) with
            | Some taskId, Some executionId =>
                match e_itemKey e, text_of (e_itemKey e) with
                | Absent, _ => Ok (Envelope taskId executionId "default" (e_payload e) (js_trim <$> text_of (e_ownerId e)) (js_trim <$> text_of (e_tenantId e)) (trace_of <$> e_trace e))
                | _, Some k => Ok (Envelope taskId executionId (js_trim k) (e_payload e) (js_trim <$> text_of (e_ownerId e)) (js_trim <$> text_of (e_tenantId e)) (trace_of <$> e_trace e))
                | _, None => Err RefusedEnvelope
                end
            | _, _ => Err RefusedEnvelope
            end
          else Err RefusedEnvelope
      | _, _ => Err RefusedEnvelope
      end
  end.

(** ** Dispatch *)

Record RhinoQTaskDispatch := DispatchRequest {
  q_id : string; q_ownerId : string; q_tenantId : option string; q_payload : P; q_idempotencyKey : option string;
  q_executionId : option string; q_itemKey : option string; q_execution : option execution_policy;
}.

(** What the runtime integration is given. *)
Record runtime_command := Command {
  c_taskId : string; c_type : string; c_ownerId : string; c_definitionVersion : Z; c_tenantId : option string; c_executionId : string;
  c_itemKey : option string; c_runtime : string; c_scope : string; c_idempotencyKey : string; c_maxAttempts : Z; c_backoff : option (backoff_type * Z);
  c_delayMs : option Z; c_priority : option Z; c_payload : job_data;
}.

(** [{ ...options.execution, ...request.execution }] *)
Definition merge_execution (a b : option execution_policy) : execution_policy :=
  ExecutionPolicy (match b ≫= x_delayMs with Some d => Some d | None => a ≫= x_delayMs end) (match b ≫= x_priority with Some p => Some p | None => a ≫= x_priority end).

Definition attempts_of (r : RhinoQTaskRetryPolicy) : Z := match r with Never => 1 | Runtime n _ => n end.
Definition backoff_of (r : RhinoQTaskRetryPolicy) : option (backoff_type * Z) := match r with Never => None | Runtime _ b => b end.

Definition envelope_for (d : RhinoQDeclaredTask) (id executionId ownerId : string) (tenantId : option string) (itemKey : string) (payload : P) (trace : option (list (string * string))) : job_data :=
  JobData (Text (d_name d)) (Number (d_version d)) (Text id) (Text executionId) (Text itemKey) (Some payload) (Text ownerId) (Text (default "default" (trimmed tenantId)))
    (fmap (M := list) (λ x, (x.1, Text x.2)) <$> trace).

Definition dispatch_command (d : RhinoQDeclaredTask) (q : RhinoQTaskDispatch) (trace : option (list (string * string))) : result task_error runtime_command :=
  match required (q_id q), required (q_ownerId q) with
  | Ok id, Ok ownerId =>
      let executionId := default (id ++ ":attempt:1")%string (trimmed (q_executionId q)) in
      let idempotencyKey := default id (trimmed (q_idempotencyKey q)) in
      let x := merge_execution (d_execution d) (q_execution q) in
      match validateExecution x with
      | Err e => Err e
      | Ok _ =>
          Ok (Command id (d_name d) ownerId (d_version d) (trimmed (q_tenantId q)) executionId (trimmed (q_itemKey q)) (d_runtime d) (d_scope d) idempotencyKey
                (attempts_of (d_retry d)) (backoff_of (d_retry d)) (x_delayMs x) (x_priority x)
                (envelope_for d id executionId ownerId (q_tenantId q) (default "default" (trimmed (q_itemKey q))) (q_payload q) trace))
      end
  | _, _ => Err InvalidArgument
  end.

Record batch_item := BatchItem { b_itemKey : string; b_payload : P; b_idempotencyKey : option string; b_executionId : option string }.

Record RhinoQTaskBatchDispatch := BatchRequest { br_id : string; br_ownerId : string; br_tenantId : option string; br_items : list batch_item }.

Definition item_command (d : RhinoQDeclaredTask) (id ownerId : string) (tenantId : option string) (itemKey : string) (item : batch_item) : runtime_command :=
  let executionId := default (id ++ ":" ++ itemKey ++ ":attempt:1")%string (trimmed (b_executionId item)) in
  Command id (d_name d) ownerId (d_version d) (trimmed tenantId) executionId (Some itemKey) (d_runtime d) (d_scope d)
    (default (id ++ ":" ++ itemKey)%string (trimmed (b_idempotencyKey item)))
    (attempts_of (d_retry d)) (backoff_of (d_retry d)) (d_execution d ≫= x_delayMs) (d_execution d ≫= x_priority)
    (envelope_for d id executionId ownerId tenantId itemKey (b_payload item) None).

(** The loop over the items; [keys] are the item keys so far. *)
Fixpoint batch_commands (d : RhinoQDeclaredTask) (id ownerId : string) (tenantId : option string) (keys : list string) (items : list batch_item) : result task_error (list runtime_command) :=
  match items with
  | [] => Ok []
  | item :: items =>
      match required (b_itemKey item) with
      | Err e => Err e
      | Ok itemKey =>
          if bool_decide (itemKey ∈ keys) then Err InvalidArgument else
          match batch_commands d id ownerId tenantId (itemKey :: keys) items with
          | Err e => Err e
          | Ok cs => Ok (item_command d id ownerId tenantId itemKey item :: cs)
          end
      end
  end.

Definition batch_of (d : RhinoQDeclaredTask) (q : RhinoQTaskBatchDispatch) : result task_error (list runtime_command) :=
  match required (br_id q), required (br_ownerId q) with
  | Ok id, Ok ownerId =>
      let maximum := default 1000 (d_maxItems d) in
      if Nat.eqb (length (br_items q)) 0 then Err OutOfRange else
      if (maximum <? 1) || (10000 <? maximum) then Err OutOfRange else
      if maximum <? Z.of_nat (length (br_items q)) then Err OutOfRange else
      batch_commands d id ownerId (br_tenantId q) [] (br_items q)
  | _, _ => Err InvalidArgument
  end.

(** *** The methods *)

Inductive call : Type :=
| Dispatch (adapter : string) (c : runtime_command)
| DispatchMany (adapter : string) (cs : list runtime_command)
| OnMutation (taskId ownerId : string) (tenantId : option string) (entityVersion : Z).

(** A snapshot: its id and its [entityVersion]. *)
Definition ans (c : call) : Type := match c with Dispatch _ _ => (string * Z)%type | DispatchMany _ _ => list (string * Z) | OnMutation _ _ _ _ => unit end.

Definition program := prog ans task_error.

Definition lift {C} {a : C → Type} {A} (r : result task_error A) : prog a task_error A := match r with Ok x => Ret x | Err e => Throw e end.

Definition notify (taskId ownerId : string) (tenantId : option string) (s : string * Z) : program unit := started (await (OnMutation taskId ownerId (trimmed tenantId) s.2)).

Definition dispatch (d : RhinoQDeclaredTask) (trace : option (list (string * string))) (q : RhinoQTaskDispatch) : program (string * Z) :=
  let! c := lift (dispatch_command d q trace) in
  let! s := await (Dispatch (d_adapter d) c) in
  notify (c_taskId c) (c_ownerId c) (q_tenantId q) s ;! Ret s.

Definition with_delay (d : Z) (q : RhinoQTaskDispatch) : RhinoQTaskDispatch :=
  DispatchRequest (q_id q) (q_ownerId q) (q_tenantId q) (q_payload q) (q_idempotencyKey q) (q_executionId q) (q_itemKey q)
    (Some (ExecutionPolicy (Some d) (q_execution q ≫= x_priority))).

Definition dispatchAfter (d : RhinoQDeclaredTask) (trace : option (list (string * string))) (q : RhinoQTaskDispatch) (delayMs : Z) : program (string * Z) :=
  let! _ := lift (validateExecution (ExecutionPolicy (Some delayMs) None)) in dispatch d trace (with_delay delayMs q).

(** The times of the two dates; [None] is an invalid date. *)
Definition dispatchAt (d : RhinoQDeclaredTask) (trace : option (list (string * string))) (q : RhinoQTaskDispatch) (runAt now : option Z) : program (string * Z) :=
  match runAt, now with
  | Some t, Some n => dispatchAfter d trace q (Z.max 0 (t - n))
  | _, _ => Throw InvalidArgument
  end.

(** One command after another, for an integration without [dispatchMany]. *)
Fixpoint dispatch_each (adapter : string) (cs : list runtime_command) : program (list (string * Z)) :=
  match cs with
  | [] => Ret []
  | c :: cs => let! s := await (Dispatch adapter c) in let! ss := dispatch_each adapter cs in Ret (s :: ss)
  end.

Definition dispatchBatch (d : RhinoQDeclaredTask) (has_many : bool) (q : RhinoQTaskBatchDispatch) : program (option (string * Z)) :=
  let! cs := lift (batch_of d q) in
  let! ss := (if has_many then await (DispatchMany (d_adapter d) cs) else dispatch_each (d_adapter d) cs) in
  match last ss with
  | Some s => notify (js_trim (br_id q)) (js_trim (br_ownerId q)) (br_tenantId q) s ;! Ret (Some s)
  | None => Ret None
  end.

(** [dispatchRun]: the owner and tenant the run handle is scoped to, and its Task. *)
Definition dispatchRun (d : RhinoQDeclaredTask) (s : RhinoQTaskServices) (trace : option (list (string * string))) (q : RhinoQTaskDispatch) : program (string * string * string) :=
  let! ownerId := lift (required (q_ownerId q)) in
  let! tenantId := lift (required (default "" (q_tenantId q))) in
  let! key := lift (required (default "" (q_idempotencyKey q))) in
  if s_runClient s then
    let! snapshot := dispatch d trace (DispatchRequest (q_id q) ownerId (Some tenantId) (q_payload q) (Some key) (q_executionId q) (q_itemKey q) (q_execution q)) in
    Ret (ownerId, tenantId, snapshot.1)
  else Throw InvalidArgument.
End payloads.

#[global] Arguments job_data P : clear implicits.
#[global] Arguments task_envelope P : clear implicits.
#[global] Arguments RhinoQTaskDispatch P : clear implicits.
#[global] Arguments runtime_command P : clear implicits.
#[global] Arguments batch_item P : clear implicits.
#[global] Arguments RhinoQTaskBatchDispatch P : clear implicits.
#[global] Arguments call P : clear implicits.

(** ** [buildTaskIdentity] *)

Record RhinoQTaskIdentity := Identity { i_ownerId : string; i_tenantId : string; i_id : string; i_idempotencyKey : string; i_executionId : string }.

Definition NUL : string := String Ascii.zero EmptyString.

Definition buildTaskIdentity (sha256 : string → string) (taskName owner tenant key : string) : result task_error RhinoQTaskIdentity :=
  match required owner, required tenant, required key with
  | Ok ownerId, Ok tenantId, Ok key =>
      if 1024 <? Z.of_nat (String.length key) then Err OutOfRange else
      let digest := sha256 (taskName ++ NUL ++ tenantId ++ NUL ++ ownerId ++ NUL ++ key)%string in
      let id := ("rq_" ++ left_text 40 digest)%string in
      Ok (Identity ownerId tenantId id ("rq:" ++ digest)%string (id ++ ":attempt:1")%string)
  | _, _, _ => Err InvalidArgument
  end.

(** ** The worker handler *)

Section handler.
Context {P O : Type}.

Inductive worker_call : Type :=
| MonitorReady
| Aborted
| AcquireLease (taskId executionId owner : string) (pool : valid_pool) (demand : vector)
| CreateWorkspace (prefix : string)
| RunHandler (e : task_envelope P)
| HeartbeatStop
| ReleaseLease (l : RhinoQResourceLease)
| CloseProgress
| CleanupWorkspace
| GetTask (taskId : string)
| TransitionCancelled (taskId : string) (expectedVersion : Z)
| MonitorStop.

(** [Aborted] answers the reason of the signal; [HeartbeatStop] the heartbeat at rest. *)
Definition worker_ans (c : worker_call) : Type :=
  match c with
  | Aborted => option task_error
  | AcquireLease _ _ _ _ _ => RhinoQResourceLease
  | RunHandler _ => O
  | HeartbeatStop => resource_heartbeat
  | GetTask _ => (task_state * Z)%type
  | _ => unit
  end.

Definition worker := prog worker_ans task_error.

Definition await_ (c : worker_call) : worker (worker_ans c) := await c.

(** The outcome of a program as a value. *)
Definition settle {A} (p : worker A) : worker (result task_error A) := ptry (let! a := p in Ret (Ok a)) (λ e, Ret (Err e)).

(** [try { p } finally { f }]: an exception of [f] replaces the outcome of [p]. *)
Definition pfinally {A} (p : worker A) (f : worker unit) : worker A := let! r := settle p in f ;! lift r.

Definition throwIfAborted : worker unit := let! r := await_ Aborted in match r with Some e => Throw e | None => Ret tt end.

Definition assertOwned (hb : resource_heartbeat) : worker unit := if resource_lost hb then Throw (LeaseLost (lv_id (rh_lease hb))) else Ret tt.

Definition safe_char (a : ascii) : bool :=
  let n := nat_of_ascii a in
  (Nat.leb 97 n && Nat.leb n 122) || (Nat.leb 65 n && Nat.leb n 90) || (Nat.leb 48 n && Nat.leb n 57) || Nat.eqb n 95 || Nat.eqb n 45.

Fixpoint replace_unsafe (s : string) : string := match s with EmptyString => EmptyString | String a s => String (if safe_char a then a else "_"%char) (replace_unsafe s) end.

Definition safeWorkspaceSegment (s : string) : string := default "task" (truthy (Some (left_text 64 (replace_unsafe s)))).

Context (d : RhinoQDeclaredTask) (s : RhinoQTaskServices).

(** The locals the [finally] block looks at: whether a workspace and a heartbeat exist. *)
Record locals := Locals { l_workspace : bool; l_heartbeat : bool }.

Definition acquire (e : task_envelope P) : worker bool :=
  if needs (d_demand d) then
    match s_resources s with
    | Some pool =>
        let! pool := lift (match validateRhinoQResourcePool pool with Ok p => Ok p | Err _ => Err OutOfRange end) in
        let! _ := await_ (AcquireLease (v_taskId e) (v_executionId e) (default "" (s_workerId s)) pool (d_demand d)) in
        Ret true
    | None => Throw InvalidArgument
    end
  else Ret false.

Definition open_workspace (e : task_envelope P) : worker bool :=
  if d_workspace d then await_ (CreateWorkspace ("rhinoq-" ++ safeWorkspaceSegment (v_taskId e) ++ "-")%string) ;! Ret true else Ret false.

Definition run_admitted (e : task_envelope P) (heartbeat : bool) : worker O :=
  let! output := await_ (RunHandler e) in
  (if heartbeat then let! hb := await_ HeartbeatStop in assertOwned hb else Ret tt) ;!
  throwIfAborted ;!
  Ret output.

(** The [try] block: its outcome and the locals it leaves. *)
Definition try_block (e : task_envelope P) : worker (result task_error O * locals) :=
  let! r := settle (throwIfAborted ;! acquire e) in
  match r with
  | Err x => Ret (Err x, Locals false false)
  | Ok hb =>
      let! r := settle (open_workspace e) in
      match r with
      | Err x => Ret (Err x, Locals false hb)
      | Ok ws => let! r := settle (run_admitted e hb) in Ret (r, Locals ws hb)
      end
  end.

Definition terminalizeUserCancellation (taskId : string) : worker unit :=
  match s_cancellation s with
  | None => Ret tt
  | Some _ =>
      let! task := await_ (GetTask taskId) in
      if bool_decide (task.1 = CancelRequested) then await_ (TransitionCancelled taskId task.2) else Ret tt
  end.

(** The [catch] block up to its [throw]. *)
Definition catch_block (e : task_envelope P) (r : result task_error O) : worker unit :=
  match r with
  | Err (RhinoQUserCancellationError _ _) => started (terminalizeUserCancellation (v_taskId e))
  | _ => Ret tt
  end.

Definition release (failed heartbeat : bool) : worker unit :=
  if heartbeat then
    ptry (let! hb := await_ HeartbeatStop in await_ (ReleaseLease (rh_lease hb))) (λ x, if failed then Ret tt else Throw x)
  else Ret tt.

Definition cleanup (failed : bool) (l : locals) : worker unit :=
  pfinally (if l_workspace l then await_ CleanupWorkspace else Ret tt) (release failed (l_heartbeat l)).

Definition finally_block (failed : bool) (l : locals) : worker unit :=
  let! r := settle (await_ CloseProgress) in
  match r with
  | Err x => if failed then cleanup failed l else cleanup failed l ;! Throw x
  | Ok _ => cleanup failed l
  end.

Definition failed_ {A} (r : result task_error A) : bool := match r with Ok _ => false | Err _ => true end.

Definition operation (e : task_envelope P) : worker O :=
  await_ MonitorReady ;!
  let! x := try_block e in
  catch_block e x.1 ;!
  finally_block (failed_ x.1) x.2 ;!
  lift x.1.

Definition workerHandler (data : option (job_data P)) : worker O :=
  let! e := lift (taskEnvelope data (d_name d) (d_version d)) in
  pfinally (operation e) (await_ MonitorStop).
End handler.

#[global] Arguments worker_call P : clear implicits.

(** ** [createTaskCancellationMonitor] *)

Record monitor := Monitor { m_stopped : bool; m_aborted : option task_error; m_timer : bool; m_reading : bool; m_listening : bool }.

Section monitor.
(** Whether there is a cancellation client, and the Task. *)
Context (has_client : bool) (taskId : string).

(** [schedule] *)
Definition schedule (m : monitor) : monitor :=
  if m_stopped m || bool_decide (is_Some (m_aborted m)) || negb has_client then m
  else Monitor (m_stopped m) (m_aborted m) true (m_reading m) (m_listening m).

(** [inspect().finally(schedule)] up to its first await. *)
Definition inspect (m : monitor) : monitor :=
  if m_stopped m || bool_decide (is_Some (m_aborted m)) || negb has_client then schedule m
  else Monitor (m_stopped m) (m_aborted m) (m_timer m) true (m_listening m).

(** The first reason of a signal is the one that stays. *)
Definition abort_with (e : task_error) (m : monitor) : monitor :=
  match m_aborted m with
  | Some _ => m
  | None => Monitor (m_stopped m) (Some e) (m_timer m) (m_reading m) (m_listening m)
  end.

Definition forwarded (reason : task_error) : task_error :=
  match reason with RhinoQUserCancellationError t r => RhinoQUserCancellationError t r | _ => RhinoQWorkerShutdownError end.

(** [upstream]: the reason of a signal that is already aborted. *)
Definition createTaskCancellationMonitor (upstream : option task_error) : monitor :=
  inspect (match upstream with
           | Some e => abort_with (forwarded e) (Monitor false None false false false)
           | None => Monitor false None false false true
           end).

Inductive monitor_event :=
| UpstreamAborts (reason : task_error)
| ReadSettles (r : option (task_state * option string))
| TimerFires
| StopCalled.

Definition monitor_step (ev : monitor_event) (m : monitor) : option monitor :=
  match ev with
  | UpstreamAborts e =>
      Some (if m_listening m then abort_with (forwarded e) (Monitor (m_stopped m) (m_aborted m) (m_timer m) (m_reading m) false) else m)
  | ReadSettles r =>
      if m_reading m then
        let m := Monitor (m_stopped m) (m_aborted m) (m_timer m) false (m_listening m) in
        Some (schedule (match r with
                        | Some (CancelRequested, reason) => abort_with (RhinoQUserCancellationError taskId (default "Task cancelled by user." reason)) m
                        | _ => m
                        end))
      else None
  | TimerFires => if m_timer m then Some (inspect (Monitor (m_stopped m) (m_aborted m) false (m_reading m) (m_listening m))) else None
  | StopCalled => Some (Monitor true (m_aborted m) false (m_reading m) false)
  end.

Fixpoint run_monitor (evs : list monitor_event) (m : monitor) : option monitor :=
  match evs with
  | [] => Some m
  | ev :: evs => m' ← monitor_step ev m; run_monitor evs m'
  end.
End monitor.
End Declaration.
