(* ===== verification/DeclarationFacts.v ===== *)
(** * What a Task declaration promises

    The envelope a dispatch writes is the one the worker of the same declaration reads;
    the worker handler gives back what it took, in order, whatever fails; and the
    cancellation monitor keeps watching until it is stopped or has a reason. *)

From stdpp Require Import base gmap strings list.
From Stdlib Require Import Ascii ZArith Lia Sorted.
From S2P Require Import Prelude TaskModel TaskClient ResourceLeases Sorting Programs Declaration.

Module DeclarationFacts.
Import Declaration.

(** ** Envelopes *)

Lemma required_ok v x : required v = Ok x → js_blank x = false ∧ js_trim x = x.
Proof.
  unfold required, js_blank. case_bool_decide; [done|]. intros [= <-]. rewrite js_trim_idemp. split; [|done]. by apply bool_decide_eq_false.
Qed.

Lemma required_trim v x : required v = Ok x → x = js_trim v.
Proof. unfold required. case_match; [done|]. by intros [= <-]. Qed.

Lemma trimmed_ok v x : trimmed v = Some x → js_blank x = false ∧ js_trim x = x.
Proof.
  unfold trimmed, truthy. destruct v as [v|]; cbn; [|done]. case_bool_decide; [done|]. intros [= <-]. unfold js_blank. rewrite js_trim_idemp. split; [|done].
  by apply bool_decide_eq_false.
Qed.

Lemma default_ok v x : js_blank x = false ∧ js_trim x = x → js_blank (default x (trimmed v)) = false ∧ js_trim (default x (trimmed v)) = default x (trimmed v).
Proof. destruct (trimmed v) eqn:E; cbn; [intros _; by apply (trimmed_ok v)|done]. Qed.

Lemma suffix_blank x y : js_blank x = false → js_blank (x ++ y)%string = false.
Proof.
  unfold js_blank. rewrite !bool_decide_eq_false. intros Hx Hxy. apply Hx. clear Hx.
  unfold js_trim, trim in *. assert (∀ t, rtrim is_js_space t = "" → ltrim is_js_space t = "") as H.
  { induction t as [|a t IH]; [done|]. cbn. destruct (rtrim is_js_space t); [|done]. destruct (is_js_space a); [|done]. auto. }
  induction x as [|a x IH]; [done|]. rewrite append_String in Hxy. cbn in Hxy |- *. destruct (is_js_space a) eqn:Ea; [by apply IH|].
  cbn in Hxy |- *. destruct (rtrim is_js_space (x ++ y)); [|done]. by rewrite Ea in Hxy.
Qed.

Section envelopes.
Context {P : Type} (d : RhinoQDeclaredTask).

Lemma trace_sent (t : list (string * string)) : trace_of ((λ x, (x.1, Text x.2)) <$> t) = take 32 t.
Proof. unfold trace_of. f_equal. induction t as [|[a b] t IH]; cbn; [done|]. by rewrite IH. Qed.

(** What the worker reads of an envelope it is sent. *)
Lemma envelope_read id executionId ownerId tenantId itemKey (payload : P) trace :
  js_blank id = false → js_blank executionId = false → js_blank ownerId = false ∧ js_trim ownerId = ownerId → js_blank itemKey = false ∧ js_trim itemKey = itemKey →
  taskEnvelope (Some (envelope_for d id executionId ownerId tenantId itemKey payload trace)) (d_name d) (d_version d) =
  Ok (Envelope id executionId itemKey (Some payload) (Some ownerId) (Some (default "default" (trimmed tenantId))) (take 32 <$> trace)).
Proof.
  intros Hi He [Ho To] [Hk Tk]. destruct (default_ok tenantId "default" ltac:(done)) as [Hn Tn]. unfold taskEnvelope, envelope_for. cbn.
  rewrite !bool_decide_true by done. cbn. rewrite Hi, He, Hk, Ho, Hn, Tk. cbn. rewrite To, Tn. destruct trace as [t|]; cbn; [by rewrite trace_sent|done].
Qed.

Lemma envelope_refused id executionId ownerId tenantId itemKey (payload : P) trace name version :
  (name, version) ≠ (d_name d, d_version d) → taskEnvelope (Some (envelope_for d id executionId ownerId tenantId itemKey payload trace)) name version = Err RefusedEnvelope.
Proof. intros H. unfold taskEnvelope, envelope_for. cbn. do 2 (case_bool_decide; cbn; [|done]). by subst. Qed.

(** What the worker of a declaration makes of a command. *)
Definition read_as (c : runtime_command P) (payload : P) (trace : option (list (string * string))) : Prop :=
  taskEnvelope (Some (c_payload c)) (d_name d) (d_version d) =
    Ok (Envelope (c_taskId c) (c_executionId c) (default "default" (c_itemKey c)) (Some payload) (Some (c_ownerId c)) (Some (default "default" (c_tenantId c))) (take 32 <$> trace)) ∧
  ∀ name version, (name, version) ≠ (d_name d, d_version d) → taskEnvelope (Some (c_payload c)) name version = Err RefusedEnvelope.

Lemma batch_read id ownerId tenantId keys items cs :
  js_blank id = false → js_blank ownerId = false ∧ js_trim ownerId = ownerId → NoDup keys → batch_commands d id ownerId tenantId keys items = Ok cs →
  Forall2 (λ item c, read_as c (b_payload item) None ∧ c_taskId c = id ∧ c_itemKey c = Some (js_trim (b_itemKey item))) items cs ∧
  NoDup (omap c_itemKey cs ++ keys).
Proof.
  intros Hi Ho. revert keys cs. induction items as [|item items IH]; intros keys cs Hk Hb; cbn in Hb; [injection Hb as <-; by split|].
  destruct (required (b_itemKey item)) as [k|] eqn:Er; [|done]. case_bool_decide as Hin; [done|].
  destruct (batch_commands d id ownerId tenantId (k :: keys) items) as [cs'|] eqn:Eb; [|done]. injection Hb as <-.
  destruct (IH (k :: keys) cs' ltac:(by constructor) Eb) as [H1 H2]. pose proof (required_ok _ _ Er) as [Hk1 Hk2].
  pose proof (required_trim _ _ Er) as Ek.
  split; [constructor; [|done]|].
  - split_and!; [|done|by rewrite <- Ek]. unfold read_as, item_command. cbn -[taskEnvelope envelope_for]. split; [|apply envelope_refused]. apply envelope_read; [done| |done|done].
    destruct (trimmed (b_executionId item)) eqn:Et; cbn; [by apply trimmed_ok in Et as []|]. by apply suffix_blank.
  - change (NoDup (k :: (omap c_itemKey cs' ++ keys))). by rewrite Permutation_middle.
Qed.
End envelopes.

(** C17. What a declaration dispatches is what its worker runs: for every request that
    [dispatch] or [dispatchBatch] accepts, the envelope inside each command is read by the
    worker of the same name and version as the Task, Execution, item, owner, tenant,
    payload and (32 entries of the) trace of that command, and refused by the worker of
    every other name or version; a batch sends one command per item, in order, with
    distinct item keys, and never more than 10000. *)
Theorem worker_reads_dispatched_envelope {P} (d : RhinoQDeclaredTask) :
  (∀ (q : RhinoQTaskDispatch P) trace c, dispatch_command d q trace = Ok c → read_as d c (q_payload q) trace ∧ c_taskId c = js_trim (q_id q)) ∧
  (∀ (q : RhinoQTaskBatchDispatch P) cs, batch_of d q = Ok cs →
     Forall2 (λ item c, read_as d c (b_payload item) None ∧ c_taskId c = js_trim (br_id q) ∧ c_itemKey c = Some (js_trim (b_itemKey item))) (br_items q) cs ∧
     NoDup (omap c_itemKey cs) ∧ (0 < length cs)%nat ∧ Z.of_nat (length cs) ≤ 10000).
Proof.
  split.
  - intros q trace c. unfold dispatch_command. destruct (required (q_id q)) as [id|] eqn:Ei; [|done]. destruct (required (q_ownerId q)) as [owner|] eqn:Eo; [|done].
    destruct (validateExecution _); [|done]. intros [= <-]. cbn -[taskEnvelope envelope_for]. split; [|by apply required_trim].
    apply required_ok in Ei as [Hi _], Eo as Ho. unfold read_as. cbn -[taskEnvelope envelope_for]. split; [|apply envelope_refused].
    apply envelope_read; [done| |done|by apply default_ok]. destruct (trimmed (q_executionId q)) eqn:Et; cbn; [by apply trimmed_ok in Et as []|]. by apply suffix_blank.
  - intros q cs. unfold batch_of. destruct (required (br_id q)) as [id|] eqn:Ei; [|done]. destruct (required (br_ownerId q)) as [owner|] eqn:Eo; [|done].
    destruct (Nat.eqb_spec (length (br_items q)) 0); [done|]. case_match eqn:E1; [done|]. case_match eqn:E2; [done|]. intros Hb.
    rewrite <- (required_trim _ _ Ei). apply required_ok in Ei as [Hi _], Eo as Ho.
    destruct (batch_read d id owner (br_tenantId q) [] (br_items q) cs Hi Ho ltac:(constructor) Hb) as [H1 H2]. rewrite app_nil_r in H2.
    apply Forall2_length in H1 as Hl. apply orb_false_iff in E1 as [_ E1]. apply Z.ltb_ge in E1, E2. split_and!; [done..|lia|lia].
Qed.

(** The Execution identifier made for a Task can be the one made for an item of another
    Task's batch. *)
Theorem execution_ids_collide (d : RhinoQDeclaredTask) :
  d_execution d = None → d_maxItems d = None →
  ∃ (q : RhinoQTaskDispatch unit) (b : RhinoQTaskBatchDispatch unit) c c',
    dispatch_command d q None = Ok c ∧ batch_of d b = Ok [c'] ∧ c_taskId c ≠ c_taskId c' ∧ c_executionId c = c_executionId c'.
Proof.
  intros Hx Hm. exists (DispatchRequest "sync:7" "o" None tt None None None None), (BatchRequest "sync" "o" None [BatchItem "7" tt None None]).
  eexists _, _. unfold batch_of, dispatch_command. rewrite Hx, Hm. split_and!; [reflexivity|reflexivity|done|done].
Qed.

Definition sample_batch : RhinoQTaskBatchDispatch nat := BatchRequest " t " "ann" None [BatchItem "a " 1%nat None None; BatchItem "b" 2%nat None (Some "x")].

Definition sample_declared : RhinoQDeclaredTask := Declared "resize" 2 "bullmq" "redis" "media" (Runtime 3 None) None None None (Vector 1 0 0 0) true.

Lemma worker_reads_dispatched_envelope_witness :
  ∃ cs, batch_of sample_declared sample_batch = Ok cs ∧ c_executionId <$> cs = ["t:a:attempt:1"; "x"] ∧ NoDup (omap c_itemKey cs) ∧
    Forall2 (λ item c, read_as sample_declared c (b_payload item) None ∧ c_taskId c = "t" ∧ c_itemKey c = Some (js_trim (b_itemKey item))) (br_items sample_batch) cs.
Proof.
  destruct (batch_of sample_declared sample_batch) as [cs|] eqn:E; [|vm_compute in E; discriminate].
  exists cs. destruct (worker_reads_dispatched_envelope (P := nat) sample_declared) as [_ H]. destruct (H sample_batch cs E) as (H1 & H2 & _).
  vm_compute in E. injection E as <-. split_and!; [reflexivity..|exact H2|exact H1].
Defined.

(** ** The worker handler *)

Section handler.
Context {P O : Type}.

(** A call of the handler with its answer, and the calls so far. *)
Notation entry := (sigT (λ c : worker_call P, result task_error (worker_ans (O := O) c))).

Notation history := (list entry).

Notation oracle := (oracle (worker_ans (P := P) (O := O)) task_error).
Notation answer := recorded.

(** What never rejects: promises whose exceptions are caught, and reads of a signal. *)
Definition infallible (c : worker_call P) : bool := match c with MonitorReady | Aborted | HeartbeatStop | MonitorStop => true | _ => false end.

Definition reliable (w : oracle) : Prop := ∀ h c, infallible c = true → failed_ (w h c) = false.

(** The order in which a handler takes things and gives them back. *)
Definition rank (x : entry) : option Z :=
  match projT1 x with
  | MonitorReady => Some 0 | AcquireLease _ _ _ _ _ => Some 1 | CreateWorkspace _ => Some 2 | RunHandler _ => Some 3 | GetTask _ => Some 4
  | TransitionCancelled _ _ => Some 5 | CloseProgress => Some 6 | CleanupWorkspace => Some 7 | ReleaseLease _ => Some 8 | MonitorStop => Some 9
  | Aborted | HeartbeatStop => None
  end.

Definition called (n : Z) (x : entry) : bool := bool_decide (rank x = Some n).
Definition succeeded (n : Z) (x : entry) : bool := called n x && negb (failed_ (projT2 x)).

(** A signal seen aborted, a heartbeat stopped without a loss, and the handler's value. *)
Definition aborted : history → bool := existsb (λ x, match x with existT Aborted (Ok (Some _)) => true | _ => false end).
Definition kept : history → bool := existsb (λ x, match x with existT HeartbeatStop (Ok hb) => negb (resource_lost hb) | _ => false end).
Definition outcome (x : entry) : option (task_envelope P * O) := match x with existT (RunHandler e) (Ok o) => Some (e, o) | _ => None end.

(** The Task seen with a cancellation requested, at its version, and the transition asked for. *)
Definition seen_cancel (x : entry) : option (string * Z) := match x with existT (GetTask t) (Ok (CancelRequested, v)) => Some (t, v) | _ => None end.
Definition transition (x : entry) : option (string * Z) := match x with existT (TransitionCancelled t v) _ => Some (t, v) | _ => None end.

Definition began : history → bool := existsb (called 0).
Definition acquired : history → bool := existsb (succeeded 1).
Definition opened : history → bool := existsb (succeeded 2).
Definition ran : history → bool := existsb (called 3).
Definition closed : history → bool := existsb (called 6).
Definition cleaned : history → bool := existsb (called 7).
Definition released : history → bool := existsb (called 8).
Definition stopped : history → bool := existsb (called 9).

Lemma not_called n t : n ∉ omap rank t → existsb (called n) t = false ∧ existsb (succeeded n) t = false.
Proof.
  induction t as [|x t IH]; [done|]. cbn. intros H. unfold succeeded, called. case_bool_decide as E.
  - rewrite E in H. set_solver.
  - cbn. apply IH. destruct (rank x); set_solver.
Qed.

Lemma is_called n t : n ∈ omap rank t → existsb (called n) t = true.
Proof. intros (x & Hx & Hr)%list_elem_of_omap. apply existsb_exists. exists x. split; [by apply list_elem_of_In|]. unfold called. by rewrite bool_decide_true. Qed.

Lemma called_spec n t : existsb (called n) t = bool_decide (n ∈ omap rank t).
Proof. case_bool_decide as H; [by apply is_called|]. by apply not_called. Qed.

Lemma none_of (f : entry → option (string * Z)) t : (∀ x, is_Some (f x) → rank x = Some 5) → 5 ∉ omap rank t → omap f t = [].
Proof.
  intros Hf. induction t as [|x t IH]; [done|]. cbn. intros H. destruct (f x) eqn:E.
  - rewrite (Hf x) in H by by rewrite E. set_solver.
  - apply IH. destruct (rank x); set_solver.
Qed.

Lemma kept_app t t' : kept (t ++ t') = kept t || kept t'.
Proof. apply existsb_app. Qed.

Lemma aborted_app t t' : aborted (t ++ t') = aborted t || aborted t'.
Proof. apply existsb_app. Qed.

Lemma no_outcome t : 3 ∉ omap rank t → omap outcome t = [].
Proof.
  induction t as [|x t IH]; [done|]. cbn. intros H. destruct (outcome x) eqn:E.
  - destruct x as [[] ?]; cbn in *; try done. set_solver.
  - apply IH. destruct (rank x); set_solver.
Qed.

Section runs.
Context (w : oracle) (Hw : reliable w).

Notation run p h := (runs (answer w) p h).

Lemma run_settle {A} (p : worker (P := P) (O := O) A) h : run (settle p) h = let '(r, h') := run p h in (Ok r, h').
Proof. unfold settle. rewrite runs_try, runs_bind. by destruct (run p h) as [[] ?]. Qed.

Lemma run_finally {A} (p : worker (P := P) (O := O) A) f h :
  run (pfinally p f) h = let '(r, h1) := run p h in let '(r', h2) := run f h1 in match r' with Ok _ => (r, h2) | Err e => (Err e, h2) end.
Proof.
  unfold pfinally. rewrite runs_bind, run_settle. destruct (run p h) as [r h1]. rewrite runs_bind. destruct (run f h1) as [[] ?]; [|done]. by destruct r.
Qed.

Lemma run_await c h : run (await_ c) h = (w h c, h ++ [existT c (w h c)]).
Proof. cbn. by destruct (w h c). Qed.

(** What closes a handler that holds [l]: ranks 6 to 8. *)
Definition closing (l : locals) : list Z := 6 :: (if l_workspace l then [7] else []) ++ (if l_heartbeat l then [8] else []).

Lemma stop_ok h : ∃ hb, w h HeartbeatStop = Ok hb.
Proof. specialize (Hw h HeartbeatStop eq_refl). destruct (w h HeartbeatStop); [eauto|done]. Qed.

Lemma run_call c (A : Type) (k : result task_error (worker_ans c) → worker (P := P) (O := O) A) h : run (Do c k) h = run (k (w h c)) (h ++ [existT c (w h c)]).
Proof. done. Qed.

Lemma release_calls failed hb h : ∃ r t, run (release failed hb) h = (r, h ++ t) ∧ omap rank t = (if hb then [8] else []) ∧ aborted t = false.
Proof.
  unfold release. destruct hb; [|exists (Ok tt), []; by rewrite app_nil_r]. rewrite runs_try, runs_bind, run_await. destruct (stop_ok h) as [hb ->].
  cbv beta iota. unfold await_, await. rewrite run_call. destruct (w _ (ReleaseLease _)) as [u|e]; [|destruct failed]; cbn; eexists _, [_; _]; rewrite <- app_assoc; by split_and!.
Qed.

Lemma cleanup_calls failed l h :
  ∃ r t, run (cleanup failed l) h = (r, h ++ t) ∧ omap rank t = (if l_workspace l then [7] else []) ++ (if l_heartbeat l then [8] else []) ∧ aborted t = false.
Proof.
  unfold cleanup. rewrite run_finally. destruct (l_workspace l).
  - unfold await_, await. rewrite run_call. destruct (release_calls failed (l_heartbeat l) (h ++ [existT CleanupWorkspace (w h CleanupWorkspace)])) as (r & t & E & Ht & Ha).
    destruct (w h CleanupWorkspace); cbn [runs]; rewrite E; destruct r; eexists _, (_ :: t); rewrite <- app_assoc; (split_and!; [done|cbn; by rewrite Ht|exact Ha]).
  - cbn [runs]. destruct (release_calls failed (l_heartbeat l) h) as (r & t & -> & Ht). destruct r; by eexists _, t.
Qed.

Lemma finally_calls failed l h : ∃ r t, run (finally_block failed l) h = (r, h ++ t) ∧ omap rank t = closing l ∧ aborted t = false.
Proof.
  unfold finally_block, closing. rewrite runs_bind, run_settle. unfold await_, await. rewrite run_call.
  destruct (cleanup_calls failed l (h ++ [existT CloseProgress (w h CloseProgress)])) as (r & t & E & Ht & Ha).
  destruct (w h CloseProgress) as [u|e]; cbn [runs].
  - rewrite E. eexists _, (_ :: t). rewrite <- app_assoc. split_and!; [done|cbn; by rewrite Ht|exact Ha].
  - destruct failed; [|rewrite runs_bind]; rewrite E; [|destruct r]; eexists _, (_ :: t); rewrite <- app_assoc; (split_and!; [done|cbn; by rewrite Ht|exact Ha]).
Qed.

Lemma aborted_ok h : ∃ x, w h Aborted = Ok x.
Proof. specialize (Hw h Aborted eq_refl). destruct (w h Aborted); [eauto|done]. Qed.

(** What matters of a stretch of calls before the [finally] block. *)
Definition marks (t : history) : bool * bool * bool * bool := (acquired t, opened t, ran t, aborted t).

Lemma marks_app t t' :
  marks (t ++ t') = (acquired t || acquired t', opened t || opened t', ran t || ran t', aborted t || aborted t').
Proof. unfold marks, acquired, opened, ran, aborted. by rewrite !existsb_app. Qed.

Lemma run_throwIfAborted h : ∃ r t, run throwIfAborted h = (r, h ++ t) ∧ omap rank t = [] ∧ marks t = (false, false, false, failed_ r) ∧ omap outcome t = [].
Proof.
  unfold throwIfAborted. rewrite runs_bind, run_await. destruct (aborted_ok h) as [[x|] ->]; cbn [runs]; eexists _, [_]; by split_and!.
Qed.

Context (d : RhinoQDeclaredTask) (s : RhinoQTaskServices) (e : task_envelope P).

Lemma acquire_calls h :
  ∃ r t, run (throwIfAborted ;! acquire d s e)%prog h = (r, h ++ t) ∧ omap rank t `sublist_of` [1] ∧ omap outcome t = [] ∧
    match r with Ok hb => marks t = (hb, false, false, false) ∧ hb = needs (d_demand d) | Err _ => ∃ b, marks t = (false, false, false, b) end.
Proof.
  rewrite runs_bind. destruct (run_throwIfAborted h) as (r & t & -> & Hr & Hm & Ho).
  destruct r as [u|x]; [|exists (Err x), t; rewrite Hr; split_and!; [done|apply sublist_nil_l|done|by eexists]].
  unfold acquire. destruct (needs (d_demand d)); [|exists (Ok false), t; rewrite Hr; split_and!; [done|apply sublist_nil_l|done..]].
  destruct (s_resources s) as [pool|]; [|exists (Err InvalidArgument), t; rewrite Hr; split_and!; [done|apply sublist_nil_l|done|by eexists]].
  rewrite runs_bind. destruct (validateRhinoQResourcePool pool) as [p|x]; cbn [lift runs]; [|exists (Err OutOfRange), t; rewrite Hr; split_and!; [done|apply sublist_nil_l|done|by eexists]].
  rewrite runs_bind, run_await. destruct (w _ _) as [l|x] eqn:E; cbn [runs]; rewrite <- app_assoc; eexists _, (t ++ [_]);
    (split; [reflexivity|]); rewrite !omap_app, Hr, Ho, marks_app; injection Hm as -> -> -> ->; split_and!; try done; by eexists.
Qed.

Lemma workspace_calls h :
  ∃ r t, run (open_workspace d e) h = (r, h ++ t) ∧ omap rank t `sublist_of` [2] ∧ omap outcome t = [] ∧ marks t = (false, match r with Ok ws => ws | Err _ => false end, false, false).
Proof.
  unfold open_workspace. destruct (d_workspace d); [|exists (Ok false), []; rewrite app_nil_r; split_and!; [done|apply sublist_nil_l|done..]].
  rewrite runs_bind. unfold await_, await. rewrite run_call. destruct (w _ _) as [u|x]; cbn [runs]; eexists _, [_]; by split_and!.
Qed.

Lemma run_calls hb h :
  ∃ r t, run (run_admitted e hb) h = (r, h ++ t) ∧ omap rank t = [3] ∧ marks t = (false, false, true, match r with Ok _ => false | Err _ => aborted t end) ∧
    match r with Ok out => omap outcome t = [(e, out)] ∧ (hb = true → kept t = true) | Err _ => True end.
Proof.
  unfold run_admitted. rewrite runs_bind, run_await. destruct (w h (RunHandler e)) as [out|x] eqn:Ew; [|eexists _, [_]; by split_and!].
  rewrite runs_bind. destruct hb.
  - rewrite runs_bind, run_await. destruct (stop_ok (h ++ [existT (RunHandler e) (Ok out)])) as [hb ->]. cbv beta iota. unfold assertOwned.
    destruct (resource_lost hb) eqn:El; cbn [runs]; [rewrite <- app_assoc; eexists _, [_; _]; by split_and!|].
    rewrite runs_bind. destruct (run_throwIfAborted ((h ++ [existT (RunHandler e) (Ok out)]) ++ [existT HeartbeatStop (Ok hb)])) as (r & t & -> & Hr & Hm & Ho).
    destruct r as [u|x]; cbn [runs]; rewrite <- !app_assoc; eexists _, (_ :: _ :: t); (split; [reflexivity|]);
      change (?a :: ?b :: t) with ([a; b] ++ t); rewrite marks_app; injection Hm as E1 E2 E3 E4; cbn in *; rewrite Hr, ?Ho, E1, E2, E3, E4; split_and!; try done.
    unfold kept. cbn. by rewrite El.
  - cbn [runs]. rewrite runs_bind. destruct (run_throwIfAborted (h ++ [existT (RunHandler e) (Ok out)])) as (r & t & -> & Hr & Hm & Ho).
    destruct r as [u|x]; cbn [runs]; rewrite <- !app_assoc; eexists _, (_ :: t); (split; [reflexivity|]);
      change (?a :: t) with ([a] ++ t); rewrite marks_app; injection Hm as E1 E2 E3 E4; cbn in *; rewrite Hr, ?Ho, E1, E2, E3, E4; split_and!; done.
Qed.

Lemma try_calls h :
  ∃ r l t, run (try_block d s e) h = (Ok (r, l), h ++ t) ∧ omap rank t `sublist_of` [1; 2; 3] ∧ l_heartbeat l = acquired t ∧ l_workspace l = opened t ∧
    (ran t = true → acquired t = needs (d_demand d)) ∧
    match r with Ok out => omap outcome t = [(e, out)] ∧ aborted t = false ∧ (acquired t = true → kept t = true) | Err _ => True end.
Proof.
  unfold try_block. rewrite runs_bind, run_settle. destruct (acquire_calls h) as (r1 & t1 & -> & R1 & O1 & M1). cbv beta iota. destruct r1 as [hb|x].
  2: { destruct M1 as [b [= E1 E2 E3 E4]]. eexists _, _, t1. rewrite E1, E2, E3. split_and!; try done. etrans; [exact R1|by apply (sublist_inserts_r [2; 3] [1] [1])]. }
  rewrite runs_bind, run_settle. destruct (workspace_calls (h ++ t1)) as (r2 & t2 & -> & R2 & O2 & M2). cbv beta iota. destruct M1 as [[= E1 E2 E3 E4] Hn]. injection M2 as F1 F2 F3 F4.
  destruct r2 as [ws|x].
  2: { rewrite <- app_assoc. eexists _, _, (t1 ++ t2). unfold acquired, opened, ran in *. rewrite omap_app, !existsb_app, E1, E2, E3, F1, F2, F3, orb_false_r. split_and!; try done.
       etrans; [by apply (sublist_app _ [1] _ [2])|by apply (sublist_inserts_r [3] [1; 2] [1; 2])]. }
  rewrite runs_bind, run_settle. destruct (run_calls hb ((h ++ t1) ++ t2)) as (r3 & t3 & -> & R3 & M3 & O3). injection M3 as G1 G2 G3 G4. cbn [runs].
  rewrite <- !app_assoc. eexists _, _, (t1 ++ t2 ++ t3).
  assert (marks (t1 ++ t2 ++ t3) = (hb, ws, true, match r3 with Ok _ => false | Err _ => aborted t3 end)) as [= M1 M2 M3 M4].
  { rewrite marks_app. pose proof (marks_app t2 t3) as [= -> -> -> ->]. rewrite E1, E2, E3, E4, F1, F2, F3, F4, G1, G2, G3, !orb_false_r, <- G4. done. }
  rewrite M1, M2. split_and!; try done.
  - rewrite !omap_app, R3. apply (sublist_app _ [1] _ [2; 3]); [done|]. by apply (sublist_app _ [2] _ [3]).
  - destruct r3 as [out|x]; [|done]. destruct O3 as [Ho Hk]. rewrite !omap_app, O1, O2, Ho. split_and!; [done..|]. intros ->.
    by rewrite !kept_app, (Hk eq_refl), !orb_true_r.
Qed.

Lemma catch_calls r h :
  ∃ t, run (catch_block (O := O) s e r) h = (Ok tt, h ++ t) ∧ omap rank t `sublist_of` [4; 5] ∧ omap transition t ⊆ omap seen_cancel t ∧ (failed_ r = false → t = []).
Proof.
  assert (∃ t, (Ok tt, h) = (@Ok task_error _ tt, h ++ t) ∧ omap rank t `sublist_of` [4; 5] ∧ omap transition t ⊆ omap seen_cancel t ∧ (failed_ r = false → t = [])) as Hq.
  { exists []. rewrite app_nil_r. split_and!; [done|apply sublist_nil_l|done..]. }
  destruct r as [out|[]]; try exact Hq. unfold catch_block, started, terminalizeUserCancellation. rewrite runs_try, runs_bind. destruct (s_cancellation s); [|exact Hq].
  rewrite runs_bind, run_await. destruct (w h (GetTask (v_taskId e))) as [[st v]|x] eqn:Ew; [|eexists [_]; split_and!; [done|apply sublist_skip, sublist_nil_l|done..]].
  cbn [fst snd]. case_bool_decide as Hc; [|eexists [_]; split_and!; [done|apply sublist_skip, sublist_nil_l| |done]; by destruct st].
  cbn in Hc. subst st. unfold await_, await. rewrite run_call. destruct (w _ (TransitionCancelled _ _)); cbn [runs]; rewrite <- app_assoc; eexists [_; _]; by split_and!.
Qed.

Lemma run_stop h : ∃ u : unit, w h MonitorStop = Ok u ∧ runs (answer w) (await_ MonitorStop : worker unit) h = (Ok u, h ++ [existT MonitorStop (Ok u)]).
Proof. cbn. specialize (Hw h MonitorStop eq_refl). destruct (w h MonitorStop) as [u|]; [by exists u|done]. Qed.

(** A whole run of the operation and the stop of the monitor. *)
Lemma operation_calls :
  ∃ r l t1 t2 t3 r' h,
    run (pfinally (operation d s e) (await_ MonitorStop)) [] = (r', h) ∧ h = existT MonitorReady (w [] MonitorReady) :: t1 ++ t2 ++ t3 ++ [existT MonitorStop (w (existT MonitorReady (w [] MonitorReady) :: t1 ++ t2 ++ t3) MonitorStop)] ∧
    (∀ out, r' = Ok out → r = Ok out) ∧
    omap rank t1 `sublist_of` [1; 2; 3] ∧ l_heartbeat l = acquired t1 ∧ l_workspace l = opened t1 ∧ (ran t1 = true → acquired t1 = needs (d_demand d)) ∧
    match r with Ok out => omap outcome t1 = [(e, out)] ∧ aborted t1 = false ∧ (acquired t1 = true → kept t1 = true) | Err _ => True end ∧
    omap rank t2 `sublist_of` [4; 5] ∧ omap transition t2 ⊆ omap seen_cancel t2 ∧ (failed_ r = false → t2 = []) ∧
    omap rank t3 = closing l ∧ aborted t3 = false.
Proof.
  assert (∃ u, w [] MonitorReady = Ok u) as [u Eu] by (specialize (Hw [] MonitorReady eq_refl); destruct (w [] MonitorReady); [eauto|done]).
  rewrite run_finally. unfold operation. rewrite runs_bind. unfold await_ at 1, await. rewrite run_call, Eu. cbn [runs].
  rewrite runs_bind. destruct (try_calls ([] ++ [existT MonitorReady (Ok u)])) as (r & l & t1 & -> & H1). cbv beta iota. cbn [fst snd].
  rewrite runs_bind. destruct (catch_calls r (([] ++ [existT MonitorReady (Ok u)]) ++ t1)) as (t2 & -> & H2). cbv beta iota.
  rewrite runs_bind. destruct (finally_calls (failed_ r) l ((([] ++ [existT MonitorReady (Ok u)]) ++ t1) ++ t2)) as (rf & t3 & -> & H3). cbv beta iota.
  exists r, l, t1, t2, t3.
  set (h3 := ((([] ++ [existT MonitorReady (Ok u)]) ++ t1) ++ t2) ++ t3).
  assert (existT MonitorReady (Ok u) :: t1 ++ t2 ++ t3 = h3) as -> by (subst h3; by rewrite <- !app_assoc).
  assert (existT MonitorReady (Ok u) :: t1 ++ t2 ++ t3 ++ [existT MonitorStop (w h3 MonitorStop)] = h3 ++ [existT MonitorStop (w h3 MonitorStop)]) as -> by (subst h3; by rewrite <- !app_assoc).
  assert (∃ r' : result task_error O, (∀ out, r' = Ok out → r = Ok out) ∧
    match rf with Ok _ => run (lift r) h3 | Err x => (Err x, h3) end = (r', h3)) as (r' & Hr & ->).
  { destruct rf as [[]|x]; [destruct r as [out|x]|]; (eexists; split; [|reflexivity]; done). }
  destruct (run_stop h3) as (us & -> & ->). eexists r', _. split; [reflexivity|]. split; [reflexivity|]. tauto.
Qed.
End runs.
End handler.

Section cleans_up.
Context {P O : Type}.

(** C16. Whatever a worker's calls answer, as long as what cannot reject does not: the
    handler makes each of its calls at most once and in one order (monitor, lease,
    workspace, handler, cancellation, progress, workspace, lease, monitor); it releases a
    lease exactly if it was granted one and removes a workspace exactly if it made one;
    the progress is closed and the monitor stopped whenever it began; the handler runs
    only with the resources the declaration asks for; a value is returned only if the
    handler returned it for this envelope, the lease was still owned and no signal was
    seen aborted; and the Task is made cancelled only at a version at which it was read
    with its cancellation requested. *)
Theorem handler_gives_back_what_it_took (d : RhinoQDeclaredTask) (s : RhinoQTaskServices) (w : oracle (worker_ans (P := P) (O := O)) task_error) data r h :
  reliable w → runs (recorded w) (workerHandler d s data) [] = (r, h) →
  omap rank h `sublist_of` [0; 1; 2; 3; 4; 5; 6; 7; 8; 9] ∧
  released h = acquired h ∧ cleaned h = opened h ∧ closed h = began h ∧ stopped h = began h ∧
  (ran h = true → acquired h = needs (d_demand d)) ∧
  (∀ out, r = Ok out → ∃ e, taskEnvelope data (d_name d) (d_version d) = Ok e ∧ omap outcome h = [(e, out)] ∧ aborted h = false ∧ (acquired h = true → kept h = true)) ∧
  omap transition h ⊆ omap seen_cancel h.
Proof.
  intros Hw. unfold workerHandler. rewrite runs_bind. destruct (taskEnvelope data (d_name d) (d_version d)) as [e|x]; cbn [lift runs].
  2: { intros [= <- <-]. split_and!; try done. apply sublist_nil_l. }
  destruct (operation_calls w Hw d s e) as (r0 & l & t1 & t2 & t3 & r' & h' & -> & Eh & Hr & R1 & Hb & Hs & Hn & Ho & R2 & Ht & H2 & R3 & Ha). intros [= <- <-].
  assert (omap rank h' = 0 :: omap rank t1 ++ omap rank t2 ++ closing l ++ [9]) as ER by (rewrite Eh; cbn; by rewrite !omap_app, R3).
  assert (closing l `sublist_of` [6; 7; 8]) as R3' by (unfold closing; apply sublist_skip; destruct (l_workspace l), (l_heartbeat l); repeat constructor).
  assert (omap rank h' `sublist_of` [0; 1; 2; 3; 4; 5; 6; 7; 8; 9]) as RS.
  { rewrite ER. apply sublist_skip. apply (sublist_app _ [1; 2; 3] _ [4; 5; 6; 7; 8; 9] R1). apply (sublist_app _ [4; 5] _ [6; 7; 8; 9] R2). by apply (sublist_app _ [6; 7; 8] _ [9]). }
  assert (∀ n, existsb (called n) h' = bool_decide (n = 0 ∨ n ∈ omap rank t1 ∨ n ∈ omap rank t2 ∨ n ∈ closing l ∨ n = 9)) as HC.
  { intros n. rewrite called_spec. apply bool_decide_ext. rewrite ER. rewrite elem_of_cons, !elem_of_app, list_elem_of_singleton. tauto. }
  assert (∀ n, n ∈ omap rank t1 → n ∈ [1; 2; 3]) as S1 by (intros n Hn1; by eapply elem_of_sublist).
  assert (∀ n, n ∈ omap rank t2 → n ∈ [4; 5]) as S2 by (intros n Hn2; by eapply elem_of_sublist).
  assert (∀ n, n ∈ closing l ↔ n = 6 ∨ (n = 7 ∧ l_workspace l = true) ∨ (n = 8 ∧ l_heartbeat l = true)) as S3.
  { intros n. unfold closing. destruct (l_workspace l), (l_heartbeat l); set_solver. }
  assert (∀ n, n ≠ 0 → n ≠ 9 → n ∉ omap rank t2 → n ∉ closing l → existsb (succeeded n) h' = existsb (succeeded n) t1) as HS.
  { intros n H0 H9 H4 H6. rewrite Eh. cbn -[succeeded]. rewrite !existsb_app. destruct (not_called n t2 H4) as [_ ->], (not_called n t3 ltac:(by rewrite R3)) as [_ ->].
    unfold succeeded, called. cbn. rewrite !bool_decide_false by congruence. cbn. by rewrite !orb_false_r. }
  assert (acquired h' = l_heartbeat l) as EA by (rewrite Hb; apply HS; [done|done|intros ?%S2; set_solver|rewrite S3; lia]).
  assert (opened h' = l_workspace l) as EO by (rewrite Hs; apply HS; [done|done|intros ?%S2; set_solver|rewrite S3; lia]).
  split; [done|]. rewrite EA, EO. unfold released, cleaned, closed, stopped, began, ran. rewrite !HC. split_and!.
  - destruct (l_heartbeat l) eqn:E; [apply bool_decide_eq_true_2|apply bool_decide_eq_false_2]; rewrite S3; [tauto|]. intros [?|[?%S1|[?%S2|[?|?]]]]; try lia; try set_solver; naive_solver lia.
  - destruct (l_workspace l) eqn:E; [apply bool_decide_eq_true_2|apply bool_decide_eq_false_2]; rewrite S3; [tauto|]. intros [?|[?%S1|[?%S2|[?|?]]]]; try lia; try set_solver; naive_solver lia.
  - rewrite !bool_decide_eq_true_2; [done|tauto|]. rewrite S3. tauto.
  - rewrite !bool_decide_eq_true_2; [done|tauto|tauto].
  - rewrite bool_decide_eq_true, Hb. intros H3. apply Hn. unfold ran. rewrite called_spec. apply bool_decide_eq_true_2. destruct H3 as [?|[?|[?%S2|[?%S3|?]]]]; try lia; try done; set_solver.
  - intros out Hout. apply Hr in Hout. subst r0. specialize (H2 eq_refl). subst t2. destruct Ho as (Ho & Hu & Hk). exists e. split; [done|]. split_and!.
    + rewrite Eh. cbn. rewrite !omap_app, Ho. rewrite (no_outcome t3); [done|]. rewrite R3, S3. lia.
    + rewrite Eh. change (?x :: ?y) with ([x] ++ y). by rewrite !aborted_app, Hu, Ha.
    + rewrite Hb. intros Hq%Hk. rewrite Eh. change (?x :: ?y) with ([x] ++ y). rewrite !kept_app, Hq. by rewrite orb_true_r.
  - rewrite Eh. cbn. rewrite !omap_app, (none_of transition t1), (none_of transition t3).
    + set_solver.
    + by intros [[] ?] [].
    + rewrite R3, S3. lia.
    + by intros [[] ?] [].
    + intros ?%S1. set_solver.
Qed.
End cleans_up.

Definition sample_services : RhinoQTaskServices := TaskServices (Some (PoolOptions "gpu" (ResourceOptions (Some 4) None None None) None None)) (Some "worker-1") (Some None) true.

Definition sample_lease : RhinoQResourceLease := ResourceLease "l" "gpu" "t" "t:attempt:1" "worker-1" 1 (Vector 1 0 0 0) 60.

(** A run cancelled by its user, whose workspace cannot be removed. *)
Definition sample_oracle : oracle (worker_ans (P := nat) (O := string)) task_error := λ h c,
  match c with
  | Aborted => Ok None
  | AcquireLease _ _ _ _ _ => Ok sample_lease
  | RunHandler _ => Err (RhinoQUserCancellationError "t" "stop")
  | HeartbeatStop => Ok (ResourceHeartbeat sample_lease None)
  | GetTask _ => Ok (CancelRequested, 7)
  | CleanupWorkspace => Err (Thrown "busy")
  | _ => Ok tt
  end.

Definition sample_data : job_data nat := envelope_for sample_declared "t" "t:attempt:1" "ann" None "default" 5%nat None.

Lemma handler_gives_back_what_it_took_witness :
  ∃ r h, runs (recorded sample_oracle) (workerHandler sample_declared sample_services (Some sample_data)) [] = (r, h) ∧
    r = Err (Thrown "busy") ∧ acquired h = true ∧ released h = true ∧ cleaned h = true ∧ stopped h = true ∧ omap transition h = [("t", 7)].
Proof.
  destruct (runs (recorded sample_oracle) (workerHandler sample_declared sample_services (Some sample_data)) []) as [r h] eqn:E.
  exists r, h. split; [reflexivity|].
  destruct (handler_gives_back_what_it_took sample_declared sample_services sample_oracle (Some sample_data) r h) as (_ & H1 & H2 & H3 & H4 & _); [by intros h' []|exact E|].
  assert (acquired h = true ∧ opened h = true ∧ began h = true ∧ r = Err (Thrown "busy") ∧ omap transition h = [("t", 7)]) as (A & B & C & D & F).
  { vm_compute in E. injection E as <- <-. vm_compute. by split_and!. }
  rewrite H1, H2, H4, A, B, C. by split_and!.
Defined.

(** ** The cancellation monitor *)

Definition user_reason (e : task_error) : bool := match e with RhinoQUserCancellationError _ _ => true | _ => false end.

(** Somebody asked for the cancellation: the Task was read so, or the signal above says so. *)
Definition asked (ev : monitor_event) : bool :=
  match ev with
  | ReadSettles (Some (CancelRequested, _)) => true
  | UpstreamAborts e => user_reason e
  | _ => false
  end.

Definition watching (has_client : bool) (m : monitor) : Prop :=
  (has_client = true → m_stopped m = false → m_aborted m = None → m_timer m = negb (m_reading m)) ∧
  (m_timer m = true → m_stopped m = false ∧ m_reading m = false) ∧ (m_reading m = true → has_client = true).

Lemma watching_schedule has_client m : m_timer m = false → m_reading m = false → watching has_client (schedule has_client m).
Proof.
  intros Ht Hr. unfold schedule, watching. destruct m as [st ab ti re li]; cbn in *; subst. destruct st, ab, has_client; cbn; rewrite ?bool_decide_true by eauto; rewrite ?bool_decide_false by (by intros []); cbn; naive_solver.
Qed.

Lemma watching_inspect has_client m : m_timer m = false → m_reading m = false → watching has_client (inspect has_client m).
Proof.
  intros Ht Hr. unfold inspect. case_match eqn:E; [by apply watching_schedule|]. destruct m as [st ab ti re li]; cbn in *; subst. unfold watching. cbn.
  destruct st, has_client; try done; rewrite ?orb_true_r in E; naive_solver.
Qed.

Lemma watching_abort has_client e m : watching has_client m → watching has_client (abort_with e m).
Proof. unfold watching, abort_with. destruct m as [st [x|] ti re li]; cbn; naive_solver. Qed.

Lemma watching_step has_client taskId ev m m' : monitor_step has_client taskId ev m = Some m' → watching has_client m → watching has_client m'.
Proof.
  intros Hs Hw. destruct ev as [e|r| |]; cbn in Hs.
  - destruct (m_listening m); injection Hs as <-; [apply watching_abort|]; done.
  - destruct (m_reading m) eqn:Er; [|done]. injection Hs as <-.
    assert (m_timer m = false) as Et by (destruct Hw as (_ & H & _), (m_timer m); [destruct H; congruence|done]).
    apply watching_schedule; destruct r as [[[] reason]|]; cbn; try done; unfold abort_with; cbn; by destruct (m_aborted m).
  - destruct (m_timer m) eqn:Et; [|done]. injection Hs as <-. apply watching_inspect; [done|]. cbn. by destruct Hw as (_ & H & _), H.
  - injection Hs as <-. unfold watching in *. cbn. naive_solver.
Qed.

Definition user_aborted (m : monitor) : bool := from_option user_reason false (m_aborted m).

Lemma reason_kept has_client m : m_aborted (schedule has_client m) = m_aborted m ∧ m_aborted (inspect has_client m) = m_aborted m.
Proof. unfold inspect, schedule. by repeat case_match. Qed.

Lemma user_step has_client taskId ev m m' : monitor_step has_client taskId ev m = Some m' → user_aborted m' = true → user_aborted m = true ∨ asked ev = true.
Proof.
  unfold user_aborted. intros Hs Hu. destruct ev as [e|r| |]; cbn in Hs.
  - destruct (m_listening m); injection Hs as <-; [|by left]. unfold abort_with in Hu. cbn in Hu. destruct (m_aborted m); [by left|]. right. by destruct e.
  - destruct (m_reading m); [|done]. injection Hs as <-. rewrite (proj1 (reason_kept _ _)) in Hu. destruct r as [[[] reason]|]; try by left. by right.
  - destruct (m_timer m); [|done]. injection Hs as <-. rewrite (proj2 (reason_kept _ _)) in Hu. by left.
  - injection Hs as <-. by left.
Qed.

(** While there is a client to ask and neither a stop nor a reason, the monitor is reading
    the Task or has its timer set; a stopped monitor reads no more; and a Task is given a
    user cancellation only if its cancellation was requested. *)
Theorem monitor_keeps_watching has_client taskId upstream evs m :
  run_monitor has_client taskId evs (createTaskCancellationMonitor has_client upstream) = Some m →
  watching has_client m ∧ (user_aborted m = true → from_option user_reason false upstream = true ∨ existsb asked evs = true).
Proof.
  assert (∀ evs m0, watching has_client m0 → run_monitor has_client taskId evs m0 = Some m →
    watching has_client m ∧ (user_aborted m = true → user_aborted m0 = true ∨ existsb asked evs = true)) as H.
  { clear. induction evs as [|ev evs IH]; intros m0 Hw Hr; cbn in Hr; [injection Hr as <-; tauto|].
    destruct (monitor_step has_client taskId ev m0) as [m1|] eqn:Es; [|done]. cbn in Hr. destruct (IH m1 (watching_step _ _ _ _ _ Es Hw) Hr) as [H1 H2].
    split; [done|]. intros [Hu|Hu]%H2; cbn; [|rewrite Hu; right; apply orb_true_r]. destruct (user_step _ _ _ _ _ Es Hu) as [?| ->]; auto. }
  intros Hr. apply H in Hr as [H1 H2].
  - split; [done|]. intros [Hu|Hu]%H2; [left|by right]. unfold user_aborted, createTaskCancellationMonitor in Hu. rewrite (proj2 (reason_kept _ _)) in Hu.
    destruct upstream as [[]|]; done.
  - unfold createTaskCancellationMonitor. destruct upstream; by apply watching_inspect.
Qed.
End DeclarationFacts.
