(* ===== verification/Integration.v ===== *)
(** * The runtime integration

    [runtime/integration.ts]: how [createRhinoQ] reserves, dispatches, binds, tracks,
    reconciles and cancels work of an application-owned runtime, with the adoption facts
    it appends, and the subscriptions it starts and closes.

    Every method is a program over the calls it makes to the Task client, the adapters,
    the projector and the adoption store ([Programs]). *)

From stdpp Require Import base gmap strings list.
From Stdlib Require Import Ascii ZArith Lia.
From S2P Require Import Prelude TaskModel TaskClient RuntimeContracts Programs.

Module Integration.
Open Scope prog_scope.

(** ** What goes in and out *)

Record task_request := TaskRequest { tr_id : string; tr_type : string; tr_ownerId : string; tr_tenantId : option string; tr_definitionVersion : Z }.

Record task_view := TaskView { tv_id : string; tv_state : task_state; tv_entityVersion : Z }.

Record execution_view := ExecutionView { xv_id : string; xv_taskId : string; xv_itemKey : option string; xv_runtime : string; xv_runtimeScope : option string }.

Record RuntimeTaskBinding := Binding { bi_task : task_request; bi_executionId : string; bi_itemKey : option string; bi_ref : RuntimeRef }.

Record RuntimeTaskReservation := Reservation { re_task : task_request; re_executionId : string; re_itemKey : option string; re_runtime : string; re_scope : string }.

(** A dispatch command with its reservation; [dc_payload] stands for the rest of it. *)
Record dispatch_command := DispatchCommand { dc_reservation : RuntimeTaskReservation; dc_idempotencyKey : string; dc_delayMs : option Z; dc_priority : option Z; dc_payload : string }.

Inductive cancel_status := Acknowledged | CannotCancelSafely | Unsupported | FailedToCancel.

#[export] Instance cancel_status_eq_dec : EqDecision cancel_status.
Proof. solve_decision. Defined.

Record CancelResult := Cancel { cr_status : cancel_status; cr_reason : option string }.

(** An adapter with the dispatch policies it advertises. *)
Record adapter := Adapter { a_contract : RuntimeAdapter; a_delay : bool; a_priority : bool; a_dispatchMany : bool }.

Inductive adoption_kind := Observed | Bound | BindingCreated | Unbound | Unresolved.

Record adoption_fact := Fact { fa_kind : adoption_kind; fa_ref : RuntimeRef; fa_taskId : option string }.

(** ** Calls *)

Inductive call : Type :=
| GetTask (id : string)
| CreateTask (t : task_request)
| TransitionTask (id : string) (expectedVersion : Z) (state : task_state)
| GetTaskExecution (id : string)
| LookupTaskExecution (ref : RuntimeRef)
| CreateTaskExecution (taskId : string) (id : string) (itemKey : option string) (runtime scope : string)
| BindTaskExecution (id : string) (ref : RuntimeRef)
| RequestTaskCancellation (id : string) (expectedVersion : Z)
| ResolveTaskCancellation (id : string) (expectedVersion : Z) (r : CancelResult)
| AdapterDispatch (name : string) (c : dispatch_command)
| AdapterDispatchMany (name : string) (cs : list dispatch_command)
| AdapterInspect (name : string) (ref : RuntimeRef)
| AdapterCancel (name : string) (ref : RuntimeRef)
| Project (e : UntrustedEvent)
| Append (f : adoption_fact)
| ResolveUnbound (e : UntrustedEvent)
| OnUnboundEvent (e : UntrustedEvent).

Definition ans (c : call) : Type :=
  match c with
  | GetTask _ | CreateTask _ | TransitionTask _ _ _ | CreateTaskExecution _ _ _ _ _ | BindTaskExecution _ _ | RequestTaskCancellation _ _ => task_view
  | GetTaskExecution _ | LookupTaskExecution _ => execution_view
  | ResolveTaskCancellation _ _ _ => unit
  | AdapterDispatch _ _ => RuntimeRef
  | AdapterDispatchMany _ _ => list RuntimeRef
  | AdapterInspect _ _ => observation_of js_number (option bool)
  | AdapterCancel _ _ => CancelResult
  | ResolveUnbound _ => option RuntimeTaskBinding
  | Project _ | Append _ | OnUnboundEvent _ => unit
  end.

Inductive integration_error : Type :=
| Invalid
| OutOfRange
| Coded (code : string)
| Failed (message : string)
| RuntimeDispatchUncertainError (executionId : string) (receipt : RuntimeRef).

Definition program := prog ans integration_error.

Definition await_ (c : call) : program (ans c) := await c.

Definition guard (b : bool) : program unit := if b then Ret tt else Throw Invalid.

Definition hasCode (e : integration_error) (code : string) : bool := match e with Coded c => bool_decide (c = code) | _ => false end.

Definition valid_ref (r : RuntimeRef) : bool := match validateRuntimeRef r with Ok _ => true | Err _ => false end.

Definition validName (v : string) : bool := negb (js_blank v).

(** ** Tasks and Executions *)

Definition getOrCreateTask (t : task_request) : program task_view :=
  ptry (await_ (GetTask (tr_id t))) (λ e, if hasCode e "RHINOQ_TASK_NOT_FOUND" then await_ (CreateTask t) else Throw e).

Definition getExecution (id : string) : program (option execution_view) :=
  ptry (let! x := await_ (GetTaskExecution id) in Ret (Some x)) (λ e, if hasCode e "RHINOQ_EXECUTION_NOT_FOUND" then Ret None else Throw e).

(** The comparison of [assertReservation]. *)
Definition reserved_for (x : execution_view) (taskId executionId : string) (itemKey : option string) (runtime scope : string) : bool :=
  bool_decide (xv_taskId x = taskId) && bool_decide (xv_id x = executionId) && bool_decide (default "default" (xv_itemKey x) = default "default" itemKey)
  && bool_decide (xv_runtime x = runtime) && bool_decide (default "" (xv_runtimeScope x) = scope).

Definition reserve (i : RuntimeTaskReservation) : program task_view :=
  guard (validName (re_runtime i)) ;!
  guard (validName (re_scope i)) ;!
  let! task := getOrCreateTask (re_task i) in
  let! existing := getExecution (re_executionId i) in
  match existing with
  | Some x => guard (reserved_for x (tv_id task) (re_executionId i) (re_itemKey i) (re_runtime i) (re_scope i)) ;! Ret task
  | None => await_ (CreateTaskExecution (tv_id task) (re_executionId i) (truthy (re_itemKey i)) (re_runtime i) (re_scope i))
  end.

Definition bind (executionId : string) (ref : RuntimeRef) : program task_view := guard (valid_ref ref) ;! await_ (BindTaskExecution executionId ref).

Definition ensureQueued (taskId : string) : program task_view :=
  let! task := await_ (GetTask taskId) in
  if bool_decide (tv_state task = Pending) then await_ (TransitionTask (tv_id task) (tv_entityVersion task) Queued) else Ret task.

Definition lookupExisting (ref : RuntimeRef) : program (option execution_view) :=
  ptry (let! x := await_ (LookupTaskExecution ref) in Ret (Some x)) (λ e, if hasCode e "RHINOQ_EXECUTION_NOT_FOUND" then Ret None else Throw e).

Definition track (b : RuntimeTaskBinding) : program task_view :=
  guard (valid_ref (bi_ref b)) ;!
  let! task := getOrCreateTask (bi_task b) in
  let! existing := lookupExisting (bi_ref b) in
  let! task := (match existing with
   | Some x =>
       guard (bool_decide (xv_taskId x = tv_id task) && bool_decide (xv_id x = bi_executionId b) && bool_decide (default "default" (xv_itemKey x) = default "default" (bi_itemKey b))) ;!
       Ret task
   | None =>
       let! reserved := getExecution (bi_executionId b) in
       (match reserved with
        | Some x => guard (reserved_for x (tv_id task) (bi_executionId b) (bi_itemKey b) (ref_runtime (bi_ref b)) (ref_scope (bi_ref b)))
        | None => await_ (CreateTaskExecution (tv_id task) (bi_executionId b) (truthy (bi_itemKey b)) (ref_runtime (bi_ref b)) (ref_scope (bi_ref b))) ;! Ret tt
        end) ;!
       await_ (BindTaskExecution (bi_executionId b) (bi_ref b))
   end) in
  ensureQueued (tv_id task).

(** ** Dispatch *)

Definition matches (c : dispatch_command) (r : RuntimeRef) : bool :=
  bool_decide (ref_runtime r = re_runtime (dc_reservation c)) && bool_decide (ref_scope r = re_scope (dc_reservation c)).

Definition bind_receipt (c : dispatch_command) (r : RuntimeRef) : program task_view :=
  ptry (bind (re_executionId (dc_reservation c)) r) (λ _, Throw (RuntimeDispatchUncertainError (re_executionId (dc_reservation c)) r)).

Section methods.
Context (adapters : gmap string adapter).

Definition dispatch (name : string) (c : dispatch_command) : program task_view :=
  match adapters !! name with
  | None => Throw Invalid
  | Some a =>
      guard (ad_dispatch_claim (a_contract a) && has_dispatch (a_contract a)) ;!
      guard (match dc_delayMs c with Some _ => a_delay a | None => true end) ;!
      guard (match dc_priority c with Some _ => a_priority a | None => true end) ;!
      reserve (dc_reservation c) ;!
      let! r := await_ (AdapterDispatch name c) in
      guard (valid_ref r) ;!
      guard (matches c r) ;!
      bind_receipt c r
  end.

Fixpoint dispatch_each (name : string) (cs : list dispatch_command) : program (list task_view) :=
  match cs with
  | [] => Ret []
  | c :: cs => let! s := dispatch name c in let! ss := dispatch_each name cs in Ret (s :: ss)
  end.

Fixpoint reserve_all (cs : list dispatch_command) : program unit :=
  match cs with
  | [] => Ret tt
  | c :: cs => reserve (dc_reservation c) ;! reserve_all cs
  end.

Fixpoint bind_all (cs : list dispatch_command) (rs : list RuntimeRef) : program (list task_view) :=
  match cs, rs with
  | c :: cs, r :: rs =>
      guard (valid_ref r) ;!
      guard (matches c r) ;!
      let! s := bind_receipt c r in
      let! ss := bind_all cs rs in
      Ret (s :: ss)
  | _, _ => Ret []
  end.

Definition dispatchMany (name : string) (cs : list dispatch_command) : program (list task_view) :=
  match cs with
  | [] => Throw OutOfRange
  | _ =>
      match adapters !! name with
      | None => Throw Invalid
      | Some a =>
          if a_dispatchMany a then
            reserve_all cs ;!
            let! rs := await_ (AdapterDispatchMany name cs) in
            guard (Nat.eqb (length rs) (length cs)) ;!
            bind_all cs rs
          else dispatch_each name cs
      end
  end.

(** ** Events *)

Definition same_ref (a b : RuntimeRef) : bool := bool_decide (a = b).

(** [observe]; whether the event passes [validateRuntimeEvent]. *)
Context (valid_event : UntrustedEvent → bool) (has_store has_resolver : bool).

Definition append (f : adoption_fact) : program unit := if has_store then await_ (Append f) else Ret tt.

Definition observe (e : UntrustedEvent) : program unit :=
  guard (valid_event e) ;!
  append (Fact Observed (ev_ref e) None) ;!
  await_ (Project e).

(** The handler given to the projector for an event of an unknown reference. *)
Definition onUnboundEvent (e : UntrustedEvent) : program unit :=
  append (Fact Unbound (ev_ref e) None) ;!
  let! b := (if has_resolver then await_ (ResolveUnbound e) else Ret None) in
  (match b with
   | Some b =>
       guard (same_ref (bi_ref b) (ev_ref e)) ;!
       track b ;!
       append (Fact BindingCreated (ev_ref e) (Some (tr_id (bi_task b))))
   | None => append (Fact Unresolved (ev_ref e) None)
   end) ;!
  await_ (OnUnboundEvent e).

Definition track_method (b : RuntimeTaskBinding) : program task_view :=
  let! result := track b in
  append (Fact Bound (bi_ref b) (Some (tr_id (bi_task b)))) ;!
  Ret result.

(** [observationEvent] *)
Definition observationEvent (o : observation_of Z bool) : UntrustedEvent :=
  RuntimeEventOf (ob_ref _ _ o) (ob_observedAt _ _ o) (JsInt <$> ob_attempt _ _ o)
    (match ob_state _ _ o with
     | ObAccepted => Accepted
     | ObRunning => match ob_progress _ _ o with Some (k, n) => Progressed (JsInt k) (JsInt <$> n) None | None => Started end
     | ObSucceeded => SucceededWith (truthy (ob_resultRef _ _ o))
     | ObFailed => FailedWith (Some (ob_terminal _ _ o)) (truthy (ob_reason _ _ o))
     | ObCancelled => CancelledByRuntime
     | ObUnknown => UncertainFor (default "runtime_unreachable" (ob_reason _ _ o))
     end).

Definition adapter_ref (a : adapter) (r : RuntimeRef) : bool := bool_decide (ref_runtime r = ad_name (a_contract a)) && bool_decide (ref_scope r = ad_scope (a_contract a)).

Context (date_parses : string → bool).

Definition reconcile (name : string) (ref : RuntimeRef) : program (observation_of Z bool) :=
  guard (valid_ref ref) ;!
  match adapters !! name with
  | None => Throw Invalid
  | Some a =>
      guard (ad_inspect_claim (a_contract a) && has_inspect (a_contract a)) ;!
      guard (adapter_ref a ref) ;!
      let! raw := await_ (AdapterInspect name ref) in
      match validateRuntimeObservation date_parses raw with
      | Err _ => Throw Invalid
      | Ok o =>
          guard (same_ref (ob_ref _ _ o) ref) ;!
          observe (observationEvent o) ;!
          Ret o
      end
  end.

(** ** Cancellation *)

Definition error_message (e : integration_error) : string := match e with Failed m => m | Coded c => c | _ => "error" end.

Definition cancel (taskId name : string) (ref : RuntimeRef) : program CancelResult :=
  guard (valid_ref ref) ;!
  match adapters !! name with
  | None => Throw Invalid
  | Some a =>
      guard (adapter_ref a ref) ;!
      guard (negb (bool_decide (ad_cancel_claim (a_contract a) = "unsupported")) && has_cancel (a_contract a)) ;!
      let! x := await_ (LookupTaskExecution ref) in
      guard (bool_decide (xv_taskId x = taskId)) ;!
      let! task := await_ (GetTask taskId) in
      (if bool_decide (tv_state task = CancelRequested) then Ret tt else await_ (RequestTaskCancellation (tv_id task) (tv_entityVersion task)) ;! Ret tt) ;!
      let! result := ptry (await_ (AdapterCancel name ref)) (λ e, Ret (Cancel FailedToCancel (Some (error_message e)))) in
      let! latest := await_ (GetTask taskId) in
      let resolved := match cr_status result with
                      | Unsupported => Cancel CannotCancelSafely (cr_reason result)
                      | Acknowledged => Cancel Acknowledged None
                      | _ => result
                      end in
      await_ (ResolveTaskCancellation (tv_id latest) (tv_entityVersion latest) resolved) ;!
      Ret (match cr_status result with Unsupported => resolved | _ => result end)
  end.
End methods.

(** ** Start and close *)

(** The adapters still to subscribe to, for each [start] under way; [subscribe] of the
    first one is awaited. *)
Record lifecycle := Lifecycle { g_started : bool; g_subscriptions : list nat; g_starts : list (list nat); g_disposed : list nat }.

Inductive lifecycle_event := StartCalled | SubscribeSettles (start : nat) (ok : bool) | CloseCalled.

(** [push]: the adapters with push events, when events are observed. *)
Definition lifecycle_step (push : list nat) (ev : lifecycle_event) (g : lifecycle) : lifecycle :=
  match ev with
  | StartCalled =>
      if g_started g then g
      else Lifecycle true (g_subscriptions g) (match push with [] => g_starts g | _ => g_starts g ++ [push] end) (g_disposed g)
  | SubscribeSettles i ok =>
      match g_starts g !! i with
      | Some (a :: rest) =>
          if ok then Lifecycle (g_started g) (g_subscriptions g ++ [a]) (match rest with [] => delete i (g_starts g) | _ => <[i := rest]> (g_starts g) end) (g_disposed g)
          else Lifecycle false [] (delete i (g_starts g)) (g_disposed g ++ reverse (g_subscriptions g))
      | _ => g
      end
  | CloseCalled => Lifecycle false [] (g_starts g) (g_disposed g ++ reverse (g_subscriptions g))
  end.

Definition run_lifecycle (push : list nat) (evs : list lifecycle_event) : lifecycle := foldl (λ g ev, lifecycle_step push ev g) (Lifecycle false [] [] []) evs.
End Integration.
