(* ===== verification/IntegrationFacts.v ===== *)
(** * What the runtime integration promises

    However its methods interleave and whatever the Task client and the adapters answer,
    a runtime is asked for work only after that work was reserved, and to cancel only
    after the cancellation was requested. A dispatch that reached the runtime ends bound
    or is reported as uncertain. *)

From stdpp Require Import base gmap strings list.
From Stdlib Require Import Ascii ZArith Lia.
From S2P Require Import Prelude TaskModel TaskClient RuntimeContracts Programs Integration.

Module IntegrationFacts.
Import Integration.
Open Scope prog_scope.

Notation entry := (sigT (λ c : call, result integration_error (ans c))).
Notation history := (list entry).

(** ** What must come before a call *)

(** The answer says that the Execution of [c] is reserved for its runtime and scope. *)
Definition reserves (i : RuntimeTaskReservation) (x : entry) : bool :=
  match x with
  | existT (CreateTaskExecution _ id _ runtime scope) (Ok _) => bool_decide (id = re_executionId i) && bool_decide (runtime = re_runtime i) && bool_decide (scope = re_scope i)
  | existT (GetTaskExecution _) (Ok v) => reserved_for v (xv_taskId v) (re_executionId i) (re_itemKey i) (re_runtime i) (re_scope i)
  | _ => false
  end.

Definition reserved (h : history) (c : dispatch_command) : Prop := existsb (reserves (dc_reservation c)) h = true.

Definition looked_up (ref : RuntimeRef) (taskId : string) (x : entry) : bool :=
  match x with existT (LookupTaskExecution r) (Ok v) => bool_decide (r = ref) && bool_decide (xv_taskId v = taskId) | _ => false end.

Definition read_with (taskId : string) (t : task_view) (x : entry) : bool :=
  match x with existT (GetTask id) (Ok t') => bool_decide (id = taskId) && bool_decide (tv_id t' = tv_id t) && bool_decide (tv_state t' = tv_state t) && bool_decide (tv_entityVersion t' = tv_entityVersion t) | _ => false end.

Definition requested (t : task_view) (x : entry) : bool :=
  match x with existT (RequestTaskCancellation id v) (Ok _) => bool_decide (id = tv_id t) && bool_decide (v = tv_entityVersion t) | _ => false end.

(** The reference belongs to a Task that was read with its cancellation requested, or
    whose cancellation was requested at the version read. *)
Definition cancel_asked (h : history) (ref : RuntimeRef) : Prop :=
  ∃ taskId t, existsb (looked_up ref taskId) h = true ∧ existsb (read_with taskId t) h = true ∧ (tv_state t = CancelRequested ∨ existsb (requested t) h = true).

Definition ordered (h : history) (c : call) : Prop :=
  match c with
  | AdapterDispatch _ c => reserved h c
  | AdapterDispatchMany _ cs => Forall (reserved h) cs
  | AdapterCancel _ ref => cancel_asked h ref
  | _ => True
  end.

(** Every call of the history came after what it needs. *)
Definition in_order (h : history) : Prop := ∀ pre x post, h = pre ++ x :: post → ordered pre (projT1 x).

Lemma in_order_snoc h x : in_order h → ordered h (projT1 x) → in_order (h ++ [x]).
Proof.
  intros Hh Hx pre y post E. destruct post as [|z post _] using rev_ind.
  - apply app_inj_tail in E as [-> ->]. done.
  - rewrite app_comm_cons, app_assoc in E. apply app_inj_tail in E as [-> _]. by eapply Hh.
Qed.

Lemma existsb_prefix {A} (f : A → bool) l l' : l `prefix_of` l' → existsb f l = true → existsb f l' = true.
Proof. intros [k ->] H. by rewrite existsb_app, H. Qed.

(** ** Programs *)

(** A program that only makes calls that need nothing. *)
Definition free (c : call) : bool := match c with AdapterDispatch _ _ | AdapterDispatchMany _ _ | AdapterCancel _ _ => false | _ => true end.

Notation quiet := (only free).

Lemma only_guard P b : only (E := integration_error) (ans := ans) P (guard b).
Proof. by destruct b. Qed.

Lemma only_call P c : P c = true → only P (await_ c).
Proof. apply only_await. Qed.

Ltac quiet := repeat first
  [ done | progress intros | apply only_guard | apply only_call; reflexivity | apply only_bind | apply only_try | exact I | case_match ].

Section safety.
Context (w : oracle ans integration_error).

Notation safe := (safe (recorded w) in_order prefix).

(** A call that needs nothing, and one that needs something. *)
Lemma safe_call {A} c (k : ans c → program A) Q X h :
  (∀ h1, h `prefix_of` h1 → ordered h1 c) →
  (∀ h1 a, h `prefix_of` h1 → safe Q X (k a) (h1 ++ [existT c (Ok a)])) → (∀ h1 e, X e h1) → safe Q X (pbind (await_ c) k) h.
Proof.
  intros Ho Hk HX. apply safe_await. intros h1 Hp Hi. unfold recorded.
  split; [by apply in_order_snoc, Ho|]. split; [by apply prefix_app_r|]. destruct (w h1 c) as [a|e]; [by apply Hk|apply HX].
Qed.

Lemma safe_guard {A} b (k : program A) Q X h : (b = true → safe Q X k h) → (∀ e h1, X e h1) → safe Q X (guard b ;! k) h.
Proof. intros Hk HX. destruct b; [by apply Hk|apply HX]. Qed.

Lemma quiet_safe {A} (p : program A) h : quiet p → safe trivial trivial p h.
Proof.
  revert h. induction p as [a|e|c k IH]; intros h Hq; [done..|]. destruct Hq as [Hc Hk]. intros h1 Hp Hi. cbn. split; [apply in_order_snoc; [done|by destruct c]|].
  split; [by apply prefix_app_r|]. apply IH, Hk.
Qed.

(** Once quiet, the rest of a program may use nothing of it. *)
Lemma safe_quiet {A B} (p : program A) (k : A → program B) Q X h :
  quiet p → (∀ a h1, safe Q X (k a) h1) → (∀ e h1, X e h1) → safe Q X (pbind p k) h.
Proof.
  intros Hp Hk HX. eapply safe_bind; [|intros a h1 _; apply Hk]. eapply safe_mono; [by apply quiet_safe|done|intros; apply HX].
Qed.

Lemma getExecution_safe i h :
  safe (λ o h', match o with Some v => ∀ t, reserved_for v t (re_executionId i) (re_itemKey i) (re_runtime i) (re_scope i) = true → existsb (reserves i) h' = true | None => True end)
    trivial (getExecution (re_executionId i)) h.
Proof.
  unfold getExecution. eapply safe_try with (X := trivial); [|intros e h1 _; by destruct (hasCode e _)].
  apply safe_call; [done| |done]. intros h1 v _. cbn. intros t Ht. rewrite existsb_app. cbn. unfold reserved_for in *. rewrite bool_decide_true by done.
  apply andb_true_iff in Ht as [Ht ->]. apply andb_true_iff in Ht as [Ht ->]. apply andb_true_iff in Ht as [Ht ->]. apply andb_true_iff in Ht as [_ ->]. by rewrite orb_true_r.
Qed.

Lemma reserve_safe i h : safe (λ _ h', existsb (reserves i) h' = true) trivial (reserve i) h.
Proof.
  unfold reserve. do 2 (apply safe_guard; [intros _|done]). apply safe_quiet; [unfold getOrCreateTask; quiet| |done].
  intros task h1. eapply safe_bind; [apply getExecution_safe|]. intros [v|] h2 Hv; cbn in Hv.
  - apply safe_guard; [|done]. intros Hr. cbn. by eapply Hv.
  - apply safe_tail, safe_call; [done| |done]. intros h3 a _. cbn. rewrite existsb_app. cbn. rewrite !bool_decide_true by done. by rewrite orb_true_r.
Qed.

Context (adapters : gmap string adapter).

Lemma bind_quiet c r : quiet (bind_receipt c r).
Proof. unfold bind_receipt, bind. quiet. Qed.

Lemma dispatch_safe name c h : safe trivial trivial (dispatch adapters name c) h.
Proof.
  unfold dispatch. destruct (adapters !! name); [|done]. do 3 (apply safe_guard; [intros _|done]). eapply safe_bind; [apply reserve_safe|]. intros u h1 Hr. cbn in Hr.
  apply safe_call; [|intros h2 r _; apply quiet_safe; quiet; apply bind_quiet|done]. intros h2 Hp. by apply (existsb_prefix _ h1).
Qed.

Lemma reserved_stable c : stable prefix (λ h, reserved h c).
Proof. intros h h' Hp. by apply existsb_prefix. Qed.

Lemma reserve_all_safe cs h : safe (λ _ h', Forall (reserved h') cs) trivial (reserve_all cs) h.
Proof.
  revert h. induction cs as [|c cs IH]; intros h; [constructor|]. cbn [reserve_all]. eapply safe_bind; [apply reserve_safe|]. intros u h1 Hr. cbn in Hr.
  eapply safe_mono; [apply (safe_frame _ _ _ (λ h, reserved h c)); [apply reserved_stable|exact Hr|apply IH]| |done]. intros a h2 [H1 H2]. by constructor.
Qed.

Lemma bind_all_quiet cs rs : quiet (bind_all cs rs).
Proof. revert rs. induction cs as [|c cs IH]; intros [|r rs]; [done..|]. cbn [bind_all]. quiet. Qed.

Lemma dispatchMany_safe name cs h : safe trivial trivial (dispatchMany adapters name cs) h.
Proof.
  unfold dispatchMany. destruct cs as [|c0 cs0]; [done|]. generalize (c0 :: cs0) as cs. clear c0 cs0. intros cs. destruct (adapters !! name) as [a|]; [|done].
  destruct (a_dispatchMany a).
  - eapply safe_bind; [apply reserve_all_safe|]. intros u h1 Hr. cbn in Hr. apply safe_call; [|intros h2 rs _; apply quiet_safe; quiet; apply bind_all_quiet|done].
    intros h2 Hp. cbn. eapply Forall_impl; [exact Hr|]. intros c. by apply existsb_prefix.
  - revert h. induction cs as [|c cs IH]; intros h; [done|]. cbn [dispatch_each]. eapply safe_bind; [apply dispatch_safe|]. intros s h1 _. eapply safe_bind; [apply IH|]. done.
Qed.

Lemma cancel_asked_stable h h' ref : h `prefix_of` h' → cancel_asked h ref → cancel_asked h' ref.
Proof. intros Hp (taskId & t & H1 & H2 & H3). exists taskId, t. split_and!; [by eapply existsb_prefix..|]. destruct H3; [by left|right]. by eapply existsb_prefix. Qed.

Lemma cancel_safe taskId name ref h : safe trivial trivial (cancel adapters taskId name ref) h.
Proof.
  unfold cancel. apply safe_guard; [intros _|done]. destruct (adapters !! name) as [a|]; [|done]. do 2 (apply safe_guard; [intros _|done]).
  apply safe_call; [done| |done]. intros h1 x _. apply safe_guard; [|done]. intros Hx%bool_decide_eq_true.
  apply safe_call; [done| |done]. intros h2 t Hp.
  assert (existsb (looked_up ref taskId) (h2 ++ [existT (GetTask taskId) (Ok t)]) = true) as Hl.
  { rewrite existsb_app. apply orb_true_iff. left. eapply existsb_prefix; [exact Hp|]. rewrite existsb_app. cbn. rewrite !bool_decide_true by done. by rewrite orb_true_r. }
  assert (existsb (read_with taskId t) (h2 ++ [existT (GetTask taskId) (Ok t)]) = true) as Ht.
  { rewrite existsb_app. cbn. rewrite !bool_decide_true by done. by rewrite orb_true_r. }
  eapply (safe_bind _ _ _ (λ _ h', cancel_asked h' ref)).
  - case_bool_decide as Hc; [by exists taskId, t; auto|]. apply safe_call; [done| |done]. intros h3 t' Hp3. cbn. exists taskId, t. split_and!.
    + eapply existsb_prefix; [|exact Hl]. by apply prefix_app_r.
    + eapply existsb_prefix; [|exact Ht]. by apply prefix_app_r.
    + right. rewrite existsb_app. cbn. rewrite !bool_decide_true by done. by rewrite orb_true_r.
  - intros u h3 Ha. cbn in Ha. eapply safe_bind; [|intros r h4 _; apply quiet_safe; quiet].
    apply (safe_try _ _ _ trivial trivial trivial); [|done]. apply safe_tail, safe_call; [|done|done]. intros h4 Hp4. by apply (cancel_asked_stable h3).
Qed.

Context (valid_event : UntrustedEvent → bool) (has_store has_resolver : bool) (date_parses : string → bool).

Lemma track_quiet b : quiet (track b).
Proof. unfold track, getOrCreateTask, lookupExisting, getExecution, ensureQueued. quiet. Qed.

Lemma observe_quiet e : quiet (observe valid_event has_store e).
Proof. unfold observe, append. quiet. Qed.
End safety.

(** ** Every method, in any interleaving *)

Inductive method :=
| MDispatch (name : string) (c : dispatch_command)
| MDispatchMany (name : string) (cs : list dispatch_command)
| MTrack (b : RuntimeTaskBinding)
| MReserve (i : RuntimeTaskReservation)
| MBind (id : string) (ref : RuntimeRef)
| MObserve (e : UntrustedEvent)
| MUnbound (e : UntrustedEvent)
| MReconcile (name : string) (ref : RuntimeRef)
| MCancel (taskId name : string) (ref : RuntimeRef).

Section body.
Context (adapters : gmap string adapter) (valid_event : UntrustedEvent → bool) (has_store has_resolver : bool) (date_parses : string → bool).

Definition body (m : method) : program unit :=
  match m with
  | MDispatch name c => started (dispatch adapters name c)
  | MDispatchMany name cs => started (dispatchMany adapters name cs)
  | MTrack b => started (track_method has_store b)
  | MReserve i => started (reserve i)
  | MBind id ref => started (bind id ref)
  | MObserve e => started (observe valid_event has_store e)
  | MUnbound e => started (onUnboundEvent has_store has_resolver e)
  | MReconcile name ref => started (reconcile adapters valid_event has_store date_parses name ref)
  | MCancel taskId name ref => started (cancel adapters taskId name ref)
  end.

(** C14. However the methods of an integration interleave, in one process or several, and
    whatever the Task client, the adapters and the store answer: an adapter is given a
    command, alone or in a batch, only after the Execution of every command it is given
    was created or found reserved for that item, runtime and scope; and an adapter is
    asked to cancel a reference only after it was looked up to the Task, and that Task
    was read with its cancellation requested or its cancellation was requested at the
    version read. *)
Theorem runtime_called_after_commit (w : oracle ans integration_error) evs : in_order (execute (recorded w) body evs []).2.
Proof.
  apply (threads_safe (recorded w) body in_order prefix).
  - intros m h Hh. destruct m; apply safe_started; [apply dispatch_safe|apply dispatchMany_safe|apply quiet_safe..|apply cancel_safe].
    all: unfold track_method, reserve, bind, onUnboundEvent, reconcile, observe, append, track, getOrCreateTask, lookupExisting, getExecution, ensureQueued; quiet.
  - intros pre x post E. by destruct pre.
Qed.
End body.

(** ** How a dispatch ends *)

(** A receipt of the runtime, and a committed binding. *)
Definition receipt (x : entry) : option RuntimeRef := match x with existT (AdapterDispatch _ _) (Ok r) => Some r | _ => None end.
Definition bound (x : entry) : option (string * RuntimeRef) := match x with existT (BindTaskExecution id r) (Ok _) => Some (id, r) | _ => None end.
Definition attempts (h : history) : nat := length (omap (λ x, match projT1 x with AdapterDispatch _ _ => Some tt | _ => None end) h).

Definition preparing (c : call) : bool := match c with AdapterDispatch _ _ | BindTaskExecution _ _ => false | _ => true end.

Lemma preparing_silent (t : history) : Forall (λ x, preparing (projT1 x) = true) t → omap receipt t = [] ∧ omap bound t = [] ∧ attempts t = 0%nat.
Proof. unfold attempts. induction 1 as [|[c r] t Hx _ IH]; [done|]. cbn in Hx |- *. destruct c; cbn in *; done. Qed.

Lemma reserve_prepares i : only preparing (reserve i).
Proof. unfold reserve, getOrCreateTask, getExecution. quiet. Qed.

(** C15. Whatever the Task client and the adapter answer, [dispatch] calls the runtime at
    most once; when it returns, the one receipt of the runtime is bound to the Execution
    of the command; and when the runtime gave a receipt of the reserved runtime and
    scope, the outcome is that binding or the error that says do not dispatch again and
    names the Execution and the receipt. *)
Theorem dispatch_bound_or_uncertain adapters (w : oracle ans integration_error) name c r h :
  runs (recorded w) (dispatch adapters name c) [] = (r, h) →
  (attempts h ≤ 1)%nat ∧
  (∀ s, r = Ok s → ∃ ref, omap receipt h = [ref] ∧ omap bound h = [(re_executionId (dc_reservation c), ref)] ∧ matches c ref = true) ∧
  (∀ ref, omap receipt h = [ref] → valid_ref ref = true → matches c ref = true →
     (∃ s, r = Ok s) ∨ r = Err (RuntimeDispatchUncertainError (re_executionId (dc_reservation c)) ref)).
Proof.
  unfold dispatch. destruct (adapters !! name) as [a|]; [|intros [= <- <-]; by split_and!; [cbn; lia|..]].
  do 3 (match goal with |- runs _ (guard ?b ;! _) _ = _ → _ => destruct b; [|intros [= <- <-]; by split_and!; [cbn; lia|..]] end; cbn [guard pbind]).
  rewrite runs_bind. destruct (only_runs preparing (reserve (dc_reservation c)) w [] (reserve_prepares _)) as (rr & t & -> & Ht).
  apply preparing_silent in Ht as (T1 & T2 & T3). cbn [app]. destruct rr as [s0|e]; [|intros [= <- <-]; rewrite T1, T3; by split_and!; [lia|..]].
  rewrite runs_bind. unfold await_, await. cbn [runs]. unfold recorded at 1. destruct (w t (AdapterDispatch name c)) as [ref|e] eqn:Ew; cbn [runs].
  2: { intros [= <- <-]. rewrite omap_app, T1. unfold attempts in *. rewrite omap_app, length_app. cbn. by split_and!; [lia|..]. }
  set (h1 := t ++ [existT (AdapterDispatch name c) (Ok ref)]).
  assert (omap receipt h1 = [ref] ∧ omap bound h1 = [] ∧ attempts h1 = 1%nat) as (H1 & H2 & H3).
  { subst h1. unfold attempts in *. rewrite !omap_app, T1, T2, length_app, T3. done. }
  clearbody h1. destruct (valid_ref ref) eqn:Ev; cbn [guard pbind runs].
  2: { intros [= <- <-]. rewrite H1, H3. split_and!; [done..|]. intros ref' [= <-]. congruence. }
  destruct (matches c ref) eqn:Em; cbn [guard pbind runs].
  2: { intros [= <- <-]. rewrite H1, H3. split_and!; [done..|]. intros ref' [= <-]. congruence. }
  unfold bind_receipt, bind. rewrite Ev. cbn [guard pbind]. rewrite runs_try. unfold await_, await. cbn [runs]. unfold recorded at 1.
  destruct (w h1 (BindTaskExecution (re_executionId (dc_reservation c)) ref)) as [s|e] eqn:Eb; cbn [runs]; intros [= <- <-];
    rewrite !omap_app, H1, H2; unfold attempts in *; rewrite omap_app, length_app, H3; cbn; (split_and!; [done|naive_solver|]); intros ref' [= <-]; eauto.
Qed.

Definition sample_adapter : adapter := Adapter (Build_RuntimeAdapter "queue" "eu" None "none" "unsupported" true false false true false false) false false true.

Definition sample_command (delay : option Z) : dispatch_command := DispatchCommand (Reservation (TaskRequest "t" "resize" "ann" None 1) "t:attempt:1" None "queue" "eu") "t" delay None "{}".

Definition sample_ref : RuntimeRef := Build_RuntimeRef "queue" "eu" "77".

(** A store without the Task, a runtime that accepts, and a binding that does or does not commit. *)
Definition sample_world (binds : bool) : oracle ans integration_error := λ h c,
  match c with
  | GetTask _ => Err (Coded "RHINOQ_TASK_NOT_FOUND")
  | GetTaskExecution _ => Err (Coded "RHINOQ_EXECUTION_NOT_FOUND")
  | CreateTask t => Ok (TaskView (tr_id t) Pending 1)
  | CreateTaskExecution t _ _ _ _ => Ok (TaskView t Pending 2)
  | AdapterDispatch _ _ => Ok sample_ref
  | AdapterDispatchMany _ cs => Ok ((λ _, sample_ref) <$> cs)
  | BindTaskExecution _ _ => if binds then Ok (TaskView "t" Pending 3) else Err (Failed "connection lost")
  | _ => Err (Failed "unused")
  end.

Lemma dispatch_bound_or_uncertain_witness :
  ∃ h, runs (recorded (sample_world false)) (dispatch {[ "queue" := sample_adapter ]} "queue" (sample_command None)) [] =
    (Err (RuntimeDispatchUncertainError "t:attempt:1" sample_ref), h) ∧ (attempts h ≤ 1)%nat.
Proof.
  destruct (runs (recorded (sample_world false)) (dispatch {[ "queue" := sample_adapter ]} "queue" (sample_command None)) []) as [r h] eqn:E. exists h.
  destruct (dispatch_bound_or_uncertain _ _ _ _ _ _ E) as (H1 & H2 & H3). split; [|exact H1]. f_equal.
  assert (omap receipt h = [sample_ref]) as Hr by (vm_compute in E; injection E as _ <-; reflexivity).
  destruct (H3 sample_ref Hr eq_refl eq_refl) as [[s ->]| ->]; [vm_compute in E; discriminate|reflexivity].
Defined.

(** ** Where it falls short *)

(** A delay the adapter does not advertise is refused by [dispatch] but accepted in a
    batch. *)
Theorem batch_skips_policy_checks :
  (runs (recorded (sample_world true)) (dispatch {[ "queue" := sample_adapter ]} "queue" (sample_command (Some 60000))) []).1 = Err Invalid ∧
  (runs (recorded (sample_world true)) (dispatchMany {[ "queue" := sample_adapter ]} "queue" [sample_command (Some 60000)]) []).1 = Ok [TaskView "t" Pending 3].
Proof. split; vm_compute; reflexivity. Qed.

(** When the binding of one item of a batch fails, the receipts of the items after it are
    neither bound nor reported. *)
Theorem batch_uncertain_loses_receipts :
  let '(r, h) := runs (recorded (sample_world false)) (dispatchMany {[ "queue" := sample_adapter ]} "queue" [sample_command None; sample_command None]) [] in
  r = Err (RuntimeDispatchUncertainError "t:attempt:1" sample_ref) ∧
  length (omap (λ x, match projT1 x with BindTaskExecution _ _ => Some tt | _ => None end) h) = 1%nat.
Proof. vm_compute. done. Qed.

(** [close] while [start] awaits a subscription: the subscription is kept after it. *)
Theorem close_during_start_leaks : run_lifecycle [1%nat] [StartCalled; CloseCalled; SubscribeSettles 0 true] = Lifecycle false [1%nat] [] [].
Proof. reflexivity. Qed.
End IntegrationFacts.
