(* ===== verification/Adoption.v ===== *)
(** * Adoption reports

    [runtime/adoption.ts]: the facts of an integration, the in-memory store and the
    PostgreSQL store they are appended to, and the report each makes of them; and the
    theorem that the two stores report the same.

    The time a report starts at is left out: the one store compares texts and the other
    times. *)

From stdpp Require Import base gmap strings list.
From Stdlib Require Import Ascii ZArith Lia.
From S2P Require Import Prelude TaskClient RuntimeContracts Sorting.

Module Adoption.

(** ** Facts *)

Inductive adoption_kind := Observed | Bound | BindingCreated | Unbound | Unresolved.

#[export] Instance adoption_kind_eq_dec : EqDecision adoption_kind.
Proof. solve_decision. Defined.

Record AdoptionEvent := Event {
  a_eventId : string; a_kind : adoption_kind; a_runtime : string; a_scope : string; a_externalId : string; a_occurredAt : string;
  a_replicaId : option string; a_taskId : option string; a_attempt : option Z; a_uncertain : bool; a_terminalFailure : bool;
}.

Definition type_name (b : event_body Z bool) : string :=
  match b with
  | Accepted => "accepted" | Started => "started" | Progressed _ _ _ => "progressed" | AttemptEnded _ _ => "attempt_ended"
  | SucceededWith _ => "succeeded" | FailedWith _ _ => "failed" | CancelledByRuntime => "cancelled" | UncertainFor _ => "uncertain"
  end.

(** [eventId] and [taskId] of the runtime event are given apart; [show] prints a number. *)
Definition adoptionEventFromRuntime (show : Z → string) (event : RuntimeEvent) (eventId taskId : option string) : AdoptionEvent :=
  let r := ev_ref event in
  let identity := default (String.concat "|" [ref_runtime r; ref_scope r; ref_externalId r; type_name (ev_body event); ev_occurredAt event; from_option show "" (ev_attempt event)])
    (truthy (js_trim <$> eventId)) in
  Event (left_text 512 ("runtime:" ++ identity)%string) Observed (ref_runtime r) (ref_scope r) (ref_externalId r) (ev_occurredAt event) None (truthy taskId) (ev_attempt event)
    (match ev_body event with UncertainFor _ => true | _ => false end) (match ev_body event with FailedWith t _ => t | _ => false end).

Notation facts := (gmap string AdoptionEvent).

Section stores.
(** [Number.isFinite(Date.parse(s))] *)
Context (date_parses : string → bool).

Definition validateAdoptionEvent (e : AdoptionEvent) : check unit :=
  if js_blank (a_eventId e) then Err TypeError else
  if js_blank (a_runtime e) || js_blank (a_scope e) || js_blank (a_externalId e) then Err TypeError else
  if negb (date_parses (a_occurredAt e)) then Err TypeError else
  match a_attempt e with Some n => if n <? 1 then Err RangeError else Ok tt | None => Ok tt end.

(** ** The stores *)

(** [Map.set]: the last event of an id stays. *)
Definition memory_append (e : AdoptionEvent) (t : facts) : check facts :=
  match validateAdoptionEvent e with Ok _ => Ok (<[a_eventId e := e]> t) | Err x => Err x end.

(** [ON CONFLICT (event_id) DO NOTHING]: the first one stays. *)
Definition postgres_append (e : AdoptionEvent) (t : facts) : check facts :=
  match validateAdoptionEvent e with
  | Ok _ => Ok (match t !! a_eventId e with Some _ => t | None => <[a_eventId e := e]> t end)
  | Err x => Err x
  end.

(** A history of appends; one that throws leaves the store as it was. *)
Definition appended (append : AdoptionEvent → facts → check facts) (evs : list AdoptionEvent) : facts :=
  foldl (λ t e, match append e t with Ok t' => t' | Err _ => t end) ∅ evs.
End stores.

(** ** The reports *)

Record report := Report {
  p_observedEvents : nat; p_runtimeReferences : nat; p_tasksBound : nat; p_bindingsCreated : nat; p_unboundEvents : nat; p_unresolvedEvents : nat;
  p_uncertainOutcomes : nat; p_terminalFailures : nat; p_retryAttemptsObserved : nat; p_replicas : nat;
}.

(** [new Set(values).size] and [COUNT(DISTINCT ...)] *)
Definition distinct {A} `{EqDecision A} (l : list A) : nat := length (remove_dups l).

Definition is_kind (k : adoption_kind) (e : AdoptionEvent) : bool := bool_decide (a_kind e = k).
Definition binds (e : AdoptionEvent) : bool := is_kind Bound e || is_kind BindingCreated e.
Definition retried (e : AdoptionEvent) : bool := match a_attempt e with Some n => 1 <? n | None => false end.

Definition where_ (f : AdoptionEvent → bool) (l : list AdoptionEvent) : list AdoptionEvent := List.filter f l.

Definition NUL : ascii := Ascii.zero.

Definition ref_text (e : AdoptionEvent) : string := (a_runtime e ++ String NUL (a_scope e ++ String NUL (a_externalId e)))%string.

Section reports.
Context (show : Z → string).

Definition attempt_text (e : AdoptionEvent) : string := (ref_text e ++ String NUL (from_option show "undefined" (a_attempt e)))%string.

(** [aggregate] of the in-memory store. *)
Definition aggregate (events : list AdoptionEvent) : report :=
  let observed := where_ (is_kind Observed) events in
  Report (length observed)
    (distinct (ref_text <$> events))
    (distinct (omap (λ e, truthy (a_taskId e)) (where_ binds events)))
    (length (where_ (is_kind BindingCreated) events))
    (length (where_ (is_kind Unbound) events))
    (length (where_ (is_kind Unresolved) events))
    (length (where_ a_uncertain observed))
    (length (where_ a_terminalFailure observed))
    (distinct (attempt_text <$> where_ retried observed))
    (distinct (omap (λ e, truthy (a_replicaId e)) events)).

Definition memory_snapshot (t : facts) : report := aggregate (map_to_list t).*2.
End reports.

Definition ref_row (e : AdoptionEvent) : string * string * string := (a_runtime e, a_scope e, a_externalId e).

(** The query of the PostgreSQL store. *)
Definition postgres_snapshot (t : facts) : report :=
  let rows := (map_to_list t).*2 in
  Report (length (where_ (is_kind Observed) rows))
    (distinct (ref_row <$> rows))
    (distinct (omap a_taskId (where_ binds rows)))
    (length (where_ (is_kind BindingCreated) rows))
    (length (where_ (is_kind Unbound) rows))
    (length (where_ (is_kind Unresolved) rows))
    (length (where_ (λ e, is_kind Observed e && a_uncertain e) rows))
    (length (where_ (λ e, is_kind Observed e && a_terminalFailure e) rows))
    (distinct ((λ e, (ref_row e, a_attempt e)) <$> where_ (λ e, is_kind Observed e && retried e) rows))
    (distinct (omap a_replicaId rows)).

(** ** They agree *)

(** Events of one id are the same event, however often they are appended. *)
Definition consistent (evs : list AdoptionEvent) : Prop := ∀ e e', e ∈ evs → e' ∈ evs → a_eventId e = a_eventId e' → e = e'.

(** Texts PostgreSQL can store, and optional properties that are not empty. *)
Definition plain (e : AdoptionEvent) : Prop :=
  lacks NUL (a_runtime e) = true ∧ lacks NUL (a_scope e) = true ∧ lacks NUL (a_externalId e) = true ∧ a_taskId e ≠ Some "" ∧ a_replicaId e ≠ Some "".

Lemma distinct_inj {A B} `{EqDecision A, EqDecision B} (f : A → B) (l : list A) : (∀ x y, x ∈ l → y ∈ l → f x = f y → x = y) → distinct (f <$> l) = distinct l.
Proof.
  unfold distinct. induction l as [|x l IH]; intros Hf; [done|]. cbn. specialize (IH ltac:(intros; apply Hf; set_solver)).
  destruct (decide_rel _ x l) as [Hx|Hx], (decide_rel _ (f x) (f <$> l)) as [Hy|Hy]; cbn; [done| | |by rewrite IH].
  - exfalso. apply Hy. by apply list_elem_of_fmap_2.
  - exfalso. apply list_elem_of_fmap in Hy as (y & E & Hy). apply Hx. by rewrite (Hf x y ltac:(set_solver) ltac:(set_solver) E).
Qed.

Lemma where_where f g l : where_ g (where_ f l) = where_ (λ e, f e && g e) l.
Proof. unfold where_. induction l as [|e l IH]; [done|]. cbn. destruct (f e); cbn; [destruct (g e); by rewrite IH|done]. Qed.

Lemma elem_where e f l : e ∈ where_ f l → e ∈ l ∧ f e = true.
Proof. unfold where_. rewrite !list_elem_of_In. apply filter_In. Qed.

Lemma omap_truthy (f : AdoptionEvent → option string) (l : list AdoptionEvent) : (∀ e, e ∈ l → f e ≠ Some "") → omap (λ e, truthy (f e)) l = omap f l.
Proof.
  intros H. induction l as [|e l IH]; [done|]. cbn. rewrite IH by set_solver. specialize (H e ltac:(set_solver)). destruct (f e) as [s|]; cbn; [|done].
  by rewrite bool_decide_false by congruence.
Qed.

(** The texts as functions of what they are made of. *)
Definition row_text (r : string * string * string) : string := (r.1.1 ++ String NUL (r.1.2 ++ String NUL r.2))%string.

Lemma row_text_inj a b c a' b' c' :
  lacks NUL a = true → lacks NUL b = true → lacks NUL a' = true → lacks NUL b' = true → row_text (a, b, c) = row_text (a', b', c') → (a, b, c) = (a', b', c').
Proof. intros Ha Hb Ha' Hb' E. unfold row_text in E. cbn in E. apply separator_inj in E as [-> E]; [|done..]. by apply separator_inj in E as [-> ->]. Qed.

Lemma attempt_text_inj (show : Z → string) a b c n a' b' c' n' :
  lacks NUL a = true → lacks NUL b = true → lacks NUL c = true → lacks NUL a' = true → lacks NUL b' = true → lacks NUL c' = true →
  (row_text (a, b, c) ++ String NUL (show n) = row_text (a', b', c') ++ String NUL (show n'))%string → (a, b, c) = (a', b', c') ∧ (show n = show n' :> string).
Proof.
  intros Ha Hb Hc Ha' Hb' Hc' E. unfold row_text in E. cbn in E. rewrite !append_assoc, !append_String, !append_assoc, !append_String in E.
  apply separator_inj in E as [-> E]; [|done..]. apply separator_inj in E as [-> E]; [|done..]. by apply separator_inj in E as [-> ->].
Qed.

Section agreement.
Context (show : Z → string) (date_parses : string → bool).

Lemma distinct_refs l : Forall plain l → distinct (ref_text <$> l) = distinct (ref_row <$> l).
Proof.
  intros Hl. rewrite Forall_forall in Hl. rewrite <- (distinct_inj row_text (ref_row <$> l)); [by rewrite <- list_fmap_compose|].
  intros x y (e & -> & He)%list_elem_of_fmap (e' & -> & He')%list_elem_of_fmap. destruct (Hl e He) as (? & ? & _), (Hl e' He') as (? & ? & _). by apply row_text_inj.
Qed.

Lemma distinct_attempts l :
  (∀ n m, show n = show m → n = m) → Forall plain l → Forall (λ e, is_Some (a_attempt e)) l → distinct (attempt_text show <$> l) = distinct ((λ e, (ref_row e, a_attempt e)) <$> l).
Proof.
  intros Hs Hl Ha. rewrite Forall_forall in Hl, Ha.
  rewrite <- (distinct_inj (λ x, row_text x.1 ++ String NUL (from_option show "undefined" x.2))%string ((λ e, (ref_row e, a_attempt e)) <$> l)); [by rewrite <- list_fmap_compose|].
  intros x y (e & -> & He)%list_elem_of_fmap (e' & -> & He')%list_elem_of_fmap. destruct (Hl e He) as (? & ? & ? & _), (Hl e' He') as (? & ? & ? & _).
  destruct (Ha e He) as [n En], (Ha e' He') as [m Em]. cbn. rewrite En, Em. cbn. intros [E ->%Hs]%attempt_text_inj; [|done..]. unfold ref_row. by rewrite E.
Qed.

Lemma Forall_where (P : AdoptionEvent → Prop) f l : Forall P l → Forall P (where_ f l).
Proof. rewrite !Forall_forall. intros H e [He _]%elem_where. by apply H. Qed.

Lemma reports_agree l :
  (∀ n m, show n = show m → n = m) → Forall plain l → ∀ t, (map_to_list t).*2 = l → memory_snapshot show t = postgres_snapshot t.
Proof.
  intros Hs Hl t E. unfold memory_snapshot, postgres_snapshot, aggregate. rewrite E, !where_where. f_equal.
  - by apply distinct_refs.
  - f_equal. apply omap_truthy. intros e [He _]%elem_where. rewrite Forall_forall in Hl. by destruct (Hl e He) as (_ & _ & _ & ? & _).
  - apply distinct_attempts; [done|by apply Forall_where|]. apply Forall_forall. intros e [_ [_ Hr]%andb_true_iff]%elem_where. unfold retried in Hr. by destruct (a_attempt e).
  - f_equal. apply omap_truthy. intros e He. rewrite Forall_forall in Hl. by destruct (Hl e He) as (_ & _ & _ & _ & ?).
Qed.

(** Both stores hold the valid events, by their ids. *)
Lemma tables_agree evs :
  consistent evs → appended (memory_append date_parses) evs = appended (postgres_append date_parses) evs ∧
  ∀ k e, appended (postgres_append date_parses) evs !! k = Some e → e ∈ evs ∧ a_eventId e = k.
Proof.
  unfold appended. induction evs as [|e evs IH] using rev_ind; intros Hc; [split; [done|]; intros k e; cbn; by rewrite lookup_empty|].
  destruct (IH ltac:(intros x y Hx Hy; apply Hc; set_solver)) as [E1 E2]. rewrite !foldl_app. cbn. rewrite E1. unfold memory_append, postgres_append.
  destruct (validateAdoptionEvent date_parses e); [|split; [done|]; intros k x Hx; destruct (E2 k x Hx); set_solver].
  destruct (foldl _ ∅ evs !! a_eventId e) as [x|] eqn:Ex.
  - destruct (E2 _ _ Ex) as [Hx Hk]. rewrite (Hc x e) in Ex by set_solver. split; [by rewrite insert_id|]. intros k y Hy. destruct (E2 k y Hy). set_solver.
  - split; [done|]. intros k y [[<- <-]|[_ Hy]]%lookup_insert_Some; [set_solver|]. destruct (E2 k y Hy). set_solver.
Qed.

(** The in-memory store and the PostgreSQL store make the same report of the same
    facts: after any history of appends, with repetitions, in which an id always names
    the same event, and invalid events that both refuse, all ten counts agree. The one
    overwrites a repeated id and joins texts with NUL to count references, the other
    ignores the repetition and counts distinct rows. *)
Theorem adoption_stores_agree evs :
  (∀ n m, show n = show m → n = m) → consistent evs → Forall plain evs →
  memory_snapshot show (appended (memory_append date_parses) evs) = postgres_snapshot (appended (postgres_append date_parses) evs).
Proof.
  intros Hs Hc Hp. destruct (tables_agree evs Hc) as [-> Ht]. eapply reports_agree; [done| |reflexivity].
  apply Forall_forall. intros e (x & -> & Hx)%list_elem_of_fmap. destruct x as [k e]. apply elem_of_map_to_list in Hx. rewrite Forall_forall in Hp. apply Hp. by destruct (Ht k e Hx).
Qed.
End agreement.

Definition sample_facts : list AdoptionEvent :=
  [Event "runtime:1" Observed "sqs" "q" "m" "2025" None None (Some 2) false true; Event "runtime:1" Observed "sqs" "q" "m" "2025" None None (Some 2) false true;
   Event "bound:1" Bound "sqs" "q" "m" "2025" (Some "r1") (Some "t") None false false; Event "" Unbound "sqs" "q" "m" "2025" None None None false false].

(** Numbers printed as so many strokes. *)
Definition tally (n : Z) : string := (if n <? 0 then "-" else "") ++ String.concat "" (replicate (Z.to_nat (Z.abs n)) "|").

Lemma strokes_length n : String.length (String.concat "" (replicate n "|")) = n.
Proof.
  induction n as [|n IH]; [done|]. destruct n as [|n]; [done|]. change (replicate (S (S n)) "|") with ("|" :: replicate (S n) "|").
  change (String.concat "" ("|" :: replicate (S n) "|")) with (String "|" (String.concat "" (replicate (S n) "|"))). cbn [String.length]. by rewrite IH.
Qed.

Lemma strokes_head n : match String.concat "" (replicate n "|") with String a _ => a = "|"%char | EmptyString => True end.
Proof. destruct n as [|[|n]]; done. Qed.

Lemma tally_inj n m : tally n = tally m → n = m.
Proof.
  unfold tally. pose proof (strokes_head (Z.to_nat (Z.abs n))) as Hn. pose proof (strokes_head (Z.to_nat (Z.abs m))) as Hm.
  pose proof (strokes_length (Z.to_nat (Z.abs n))) as Ln. pose proof (strokes_length (Z.to_nat (Z.abs m))) as Lm.
  destruct (Z.ltb_spec n 0), (Z.ltb_spec m 0); rewrite ?append_nil_l; intros E.
  - change (String "-" (String.concat "" (replicate (Z.to_nat (Z.abs n)) "|")) = String "-" (String.concat "" (replicate (Z.to_nat (Z.abs m)) "|"))) in E. injection E as E. rewrite E in Ln. lia.
  - change (String "-" (String.concat "" (replicate (Z.to_nat (Z.abs n)) "|")) = String.concat "" (replicate (Z.to_nat (Z.abs m)) "|")) in E. rewrite <- E in Hm. done.
  - change (String.concat "" (replicate (Z.to_nat (Z.abs n)) "|") = String "-" (String.concat "" (replicate (Z.to_nat (Z.abs m)) "|"))) in E. rewrite E in Hn. done.
  - rewrite E in Ln. lia.
Qed.

Lemma adoption_stores_agree_witness :
  memory_snapshot tally (appended (memory_append (λ _, true)) sample_facts) = postgres_snapshot (appended (postgres_append (λ _, true)) sample_facts) ∧
  p_observedEvents (postgres_snapshot (appended (postgres_append (λ _, true)) sample_facts)) = 1%nat.
Proof.
  split; [|vm_compute; reflexivity]. apply (adoption_stores_agree tally (λ _, true) sample_facts).
  - apply tally_inj.
  - intros e e' He He'. unfold sample_facts in *. set_unfold. naive_solver.
  - repeat constructor; cbn; congruence.
Defined.
End Adoption.
