(* ===== verification/RuntimeAdapters.v ===== *)
(** * Runtime adapters

    [sqs/runtime-adapter.ts], [bullmq/runtime-adapter.ts], the job reader of
    [bullmq/portable-integration.ts] and [bullmq/cancellation.ts]: how queue messages
    become runtime events and observations, and what a dispatch and a cancellation
    answer; with their theorems.

    The queue clients are third-party code: what they answer is an argument. Events carry
    no [eventId] here. *)

From stdpp Require Import base gmap strings list.
From Stdlib Require Import Ascii ZArith Lia.
From S2P Require Import Prelude TaskModel TaskClient RuntimeContracts Programs Integration.

Module RuntimeAdapters.
Import Integration.

(** ** SQS *)

Record SQSMessage := Message { ms_messageId : string; ms_receiveCount : option string }.

Record SQSReceiveObservation := Receive {
  rc_message : SQSMessage; rc_state : observed_state; rc_terminal : option bool; rc_resultRef : option string; rc_reason : option string;
  rc_progress : option (Z * option Z);
}.

Section sqs.
(** [Number(raw)], when it is an integer; the scope of the adapter. *)
Context (number_of : string → option Z) (scope : string).

Definition receiveCount (m : SQSMessage) : option Z :=
  match ms_receiveCount m ≫= number_of with Some n => if 0 <? n then Some n else None | None => None end.

Definition sqs_ref (messageId : string) : check RuntimeRef :=
  if js_blank messageId then Err TypeError else Ok {| ref_runtime := "sqs"; ref_scope := scope; ref_externalId := messageId |}.

Definition observeReceipt (i : SQSReceiveObservation) (observedAt : string) : check RuntimeEvent :=
  match sqs_ref (ms_messageId (rc_message i)) with
  | Err e => Err e
  | Ok ref =>
      let event b := Ok (RuntimeEventOf ref observedAt (receiveCount (rc_message i)) b) in
      match rc_state i, rc_progress i with
      | ObAccepted, Some (k, n) | ObRunning, Some (k, n) => event (Progressed k n None)
      | ObAccepted, None => event Accepted
      | ObRunning, None => event Started
      | ObSucceeded, _ => event (SucceededWith (truthy (rc_resultRef i)))
      | ObCancelled, _ => event CancelledByRuntime
      | ObFailed, _ => match rc_terminal i with Some t => event (FailedWith t (truthy (rc_reason i))) | None => Err TypeError end
      | ObUnknown, _ => event (UncertainFor (default "runtime_unreachable" (truthy (js_trim <$> rc_reason i))))
      end
  end.

(** [has_send], and what [send] answers. *)
Definition sqs_dispatch (has_send : bool) (messageId : option string) : check RuntimeRef :=
  if has_send then
    match messageId with
    | Some m => if js_blank m then Err PlainError else sqs_ref m
    | None => Err PlainError
    end
  else Err TypeError.

Definition gap (ref : RuntimeRef) (observedAt : string) (reason : string) : observation_of Z bool :=
  Observation _ _ ref ObUnknown None false observedAt None None (Some reason).

Definition sqs_inspect (ref : RuntimeRef) (readback : option SQSReceiveObservation) (observedAt : string) : check (observation_of Z bool) :=
  if negb (bool_decide (ref_runtime ref = "sqs") && bool_decide (ref_scope ref = scope)) then Err TypeError else
  match readback with
  | None => Ok (gap ref observedAt "event_gap")
  | Some i =>
      match observeReceipt i observedAt with
      | Err e => Err e
      | Ok e =>
          let n := ev_attempt e in
          Ok (match ev_body e with
              | Accepted => Observation _ _ ref ObAccepted n false observedAt None None None
              | Started => Observation _ _ ref ObRunning n false observedAt None None None
              | Progressed k t _ =>
                  Observation _ _ ref (match rc_state i with ObAccepted => ObAccepted | ObRunning => ObRunning | _ => ObUnknown end) n
                    (bool_decide (rc_terminal i = Some true)) observedAt (Some (k, t)) None
                    (match rc_state i with ObUnknown => Some (default "event_gap" (truthy (js_trim <$> rc_reason i))) | _ => None end)
              | SucceededWith r => Observation _ _ ref ObSucceeded n true observedAt None r None
              | FailedWith t r => Observation _ _ ref ObFailed n t observedAt None None r
              | CancelledByRuntime => Observation _ _ ref ObCancelled n true observedAt None None None
              | UncertainFor r => gap ref observedAt r
              | AttemptEnded _ _ => gap ref observedAt "event_gap"
              end)
      end
  end.
End sqs.

(** ** BullMQ *)

Inductive bullmq_event := Waiting | Active | Progress | JobCompleted | JobFailed | Delayed.

Record BullMQEvent := JobEvent { je_jobId : string; je_attempt : option Z; je_failedReason : option string }.

Section bullmq.
Context (scope : string).

Definition bullmq_ref (externalId : string) : RuntimeRef := {| ref_runtime := "bullmq"; ref_scope := scope; ref_externalId := externalId |}.

(** [progress], [resultReference] and [terminalFailure] are what the options answer. *)
Definition translate (name : bullmq_event) (e : BullMQEvent) (now : string) (progress : option (Z * option Z * option string)) (resultReference : option string) (terminalFailure : option bool)
    : check (option RuntimeEvent) :=
  if js_blank (je_jobId e) then Err TypeError else
  let event b := Ok (Some (RuntimeEventOf (bullmq_ref (je_jobId e)) now (je_attempt e) b)) in
  match name with
  | Waiting => event Accepted
  | Active => event Started
  | Progress => match progress with Some (k, n, m) => event (Progressed k n m) | None => Ok None end
  | JobCompleted => event (SucceededWith (truthy resultReference))
  | JobFailed => event (FailedWith (default false terminalFailure) (truthy (je_failedReason e)))
  | Delayed => event (AttemptEnded OutFailed (truthy (je_failedReason e)))
  end.

(** [jobId] and [name] are what the options compute, [added] the id [Queue.add] answers. *)
Definition bullmq_dispatch (jobId name : string) (added : option string) : check RuntimeRef :=
  let jobId := js_trim jobId in
  if js_blank jobId then Err TypeError else
  if includes ":" jobId then Err TypeError else
  if js_blank name then Err TypeError else
  let externalId := default jobId added in
  if bool_decide (externalId = jobId) then Ok (bullmq_ref externalId) else Err PlainError.

Inductive job_state := JWaiting | JActive | JCompleted | JFailed | JDelayed | JPaused | JWaitingChildren | JOther (name : string).

Record job := Job { jb_state : job_state; jb_attemptsMade : option Z; jb_attempts : option Z; jb_failedReason : option string }.

Record BullMQTaskObservation := JobObservation { jo_state : job_state; jo_attempt : option Z; jo_terminal : option bool; jo_failedReason : option string }.

(** [readQueueJob] *)
Definition readQueueJob (j : option job) : option BullMQTaskObservation :=
  match j with
  | None => None
  | Some j =>
      let made := default 0 (jb_attemptsMade j) in
      let allowed := default 1 (jb_attempts j) in
      match jb_state j with
      | JWaiting | JCompleted => Some (JobObservation (jb_state j) (Some (Z.max 1 made)) None (jb_failedReason j))
      | JActive => Some (JobObservation JActive (Some (Z.max 1 (made + 1))) None (jb_failedReason j))
      | JFailed => Some (JobObservation JFailed (Some (Z.max 1 made)) (Some (allowed <=? made)) (jb_failedReason j))
      | _ => None
      end
  end.

Definition bullmq_inspect (ref : RuntimeRef) (o : option BullMQTaskObservation) (resultReference : option string) (observedAt : string) : check (observation_of Z bool) :=
  if negb (bool_decide (ref_runtime ref = "bullmq") && bool_decide (ref_scope ref = scope)) then Err TypeError else
  match o with
  | None => Ok (gap ref observedAt "event_gap")
  | Some o =>
      match jo_state o with
      | JWaiting => Ok (Observation _ _ ref ObAccepted (jo_attempt o) false observedAt None None None)
      | JActive => Ok (Observation _ _ ref ObRunning (jo_attempt o) false observedAt None None None)
      | JCompleted => Ok (Observation _ _ ref ObSucceeded (jo_attempt o) true observedAt None (truthy resultReference) None)
      | JFailed => Ok (Observation _ _ ref ObFailed (jo_attempt o) (bool_decide (jo_terminal o = Some true)) observedAt None None (truthy (jo_failedReason o)))
      | _ => Err TypeError
      end
  end.

(** [bullMQCancellation]: the job read, whether its removal succeeds, and the worker's
    answer to the signal when there is one. *)
Definition bullMQCancellation (state : option job_state) (removed : bool) (signal : option bool) : CancelResult :=
  match state with
  | None => Cancel FailedToCancel (Some "not found")
  | Some (JWaiting | JDelayed | JPaused | JWaitingChildren) => if removed then Cancel Acknowledged None else Cancel FailedToCancel (Some "could not be removed")
  | Some JActive => match signal with
                    | None => Cancel CannotCancelSafely (Some "no signal")
                    | Some true => Cancel Acknowledged None
                    | Some false => Cancel CannotCancelSafely (Some "not acknowledged")
                    end
  | Some _ => Cancel FailedToCancel (Some "already")
  end.
End bullmq.

(** *** What they promise *)

Definition stamp_ok (date_parses : string → bool) (now : string) : Prop := js_trim now ≠ "" ∧ date_parses now = true.

Definition progress_ok (p : option (Z * option Z)) : Prop := match p with Some (k, n) => 0 ≤ k ∧ (∀ m, n = Some m → k ≤ m) | None => True end.

Lemma blank_trim s : js_blank s = false → js_trim s ≠ "".
Proof. unfold js_blank. by rewrite bool_decide_eq_false. Qed.

Lemma reason_not_blank d r : js_trim d ≠ "" → js_trim (default d (truthy (js_trim <$> r))) ≠ "".
Proof.
  intros Hd. destruct r as [r|]; cbn; [|done]. case_bool_decide as E; [done|]. change (js_trim (js_trim r) ≠ ""). unfold js_trim in *. by rewrite trim_idemp.
Qed.

(** Whatever a queue reports, with progress and attempts that are numbers of that kind,
    an event an adapter makes of it passes [validateRuntimeEvent] unchanged. *)
Theorem adapter_events_valid date_parses number_of scope now :
  stamp_ok date_parses now → js_trim scope ≠ "" →
  (∀ i e, progress_ok (rc_progress i) → observeReceipt number_of scope i now = Ok e → validateRuntimeEvent date_parses (erase e) = Ok e) ∧
  (∀ name j p r t e, (∀ n, je_attempt j = Some n → 1 ≤ n) → progress_ok (fst <$> p) → translate scope name j now p r t = Ok (Some e) →
     validateRuntimeEvent date_parses (erase e) = Ok e).
Proof.
  intros [Hn1 Hn2] Hs. split.
  - intros i e Hp He. apply validateRuntimeEvent_exact. split; [done|]. unfold observeReceipt, sqs_ref in He. destruct (js_blank (ms_messageId (rc_message i))) eqn:Eb; [done|].
    apply blank_trim in Eb. assert (∀ n, receiveCount number_of (rc_message i) = Some n → 1 ≤ n) as Hc.
    { unfold receiveCount. intros n. destruct (ms_receiveCount (rc_message i) ≫= number_of) as [z|]; [|done]. destruct (Z.ltb_spec 0 z); [|done]. intros [= <-]. lia. }
    assert (ref_ok {| ref_runtime := "sqs"; ref_scope := scope; ref_externalId := ms_messageId (rc_message i) |}) as Hr by (split_and!; [vm_compute; discriminate|done|done]).
    destruct (rc_state i), (rc_progress i) as [[k t]|]; try (destruct (rc_terminal i); [|done]); injection He as <-; (split_and!; [done..|]); cbn in Hp |- *; try done;
      by apply reason_not_blank.
  - intros name j p r t e Ha Hp He. apply validateRuntimeEvent_exact. split; [done|]. unfold translate in He. destruct (js_blank (je_jobId j)) eqn:Eb; [done|].
    apply blank_trim in Eb. assert (ref_ok (bullmq_ref scope (je_jobId j))) as Hr by (split_and!; [vm_compute; discriminate|done|done]).
    destruct name; try (destruct p as [[[k u] m]|]; [|done]); injection He as <-; by split_and!.
Qed.

(** The state of another message passes for the state of the one asked about. *)
Theorem sqs_inspect_trusts_readback :
  let asked := {| ref_runtime := "sqs"; ref_scope := "q"; ref_externalId := "m-1" |} in
  sqs_inspect (λ _, None) "q" asked (Some (Receive (Message "m-2" None) ObSucceeded None None None None)) "now" = Ok (Observation _ _ asked ObSucceeded None true "now" None None None).
Proof. reflexivity. Qed.

(** A job that waits for its next attempt is observed, and projected, as uncertain. *)
Theorem delayed_job_reads_uncertain ref now :
  ref_runtime ref = "bullmq" → ∃ o, bullmq_inspect (ref_scope ref) ref (readQueueJob (Some (Job JDelayed (Some 1) (Some 3) None))) None now = Ok o ∧ ev_body (observationEvent o) = UncertainFor "event_gap".
Proof. intros Hr. unfold bullmq_inspect. rewrite Hr, !bool_decide_true by done. cbn. by eexists. Qed.
End RuntimeAdapters.
