(* ===== verification/RetryDispatch.v ===== *)
(** * The receiver of the retry outbox

    [bullmq/retry-dispatch.ts]: an authenticated request asks for one retry to be queued;
    the job's id is the Execution's, so repeated and concurrent deliveries converge on
    one job. HMAC and JSON parsing are parameters; the queues answer as they like, and
    the calls are recorded with their answers. *)

From stdpp Require Import base gmap strings list.
From Stdlib Require Import Ascii ZArith Lia.
From S2P Require Import Prelude Programs.

Module RetryDispatch.
Open Scope prog_scope.

(** ** Signatures *)

Definition hex_digit (a : ascii) : option nat :=
  let n := nat_of_ascii a in
  if Nat.leb 48 n && Nat.leb n 57 then Some (n - 48)%nat else
  if Nat.leb 97 n && Nat.leb n 102 then Some (n - 87)%nat else
  if Nat.leb 65 n && Nat.leb n 70 then Some (n - 55)%nat else None.

(** [Buffer.from(text, 'hex')] stops at the first pair that is not hexadecimal. *)
Fixpoint decode_hex (s : string) : string :=
  match s with
  | String a (String b s) =>
      match hex_digit a, hex_digit b with
      | Some x, Some y => String (ascii_of_nat (16 * x + y)) (decode_hex s)
      | _, _ => EmptyString
      end
  | _ => EmptyString
  end.

Definition validSignature (hmac : string → string) (body supplied : string) : bool :=
  String.prefix "v1=" supplied && bool_decide (decode_hex (String.substring 3 (String.length supplied - 3) supplied) = hmac body).

(** ** Intents *)

Section intents.
Context {D : Type}.

(** A property that is not a string, or not there, is [None]. *)
Record RetryDispatchIntent := Intent {
  n_schemaVersion : option Z; n_commandId : option string; n_taskId : option string; n_executionId : option string; n_runtime : option string;
  n_queue : option string; n_jobName : option string; n_data : option D; n_attempt : option Z;
}.

Definition positiveText (v : option string) : bool := match v with Some s => negb (js_blank s) | None => false end.

Definition intentValid (i : RetryDispatchIntent) : bool :=
  bool_decide (n_schemaVersion i = Some 1) && positiveText (n_commandId i) && positiveText (n_taskId i) && positiveText (n_executionId i) && positiveText (n_runtime i)
  && positiveText (n_queue i) && positiveText (n_jobName i) && match n_attempt i with Some n => (0 <? n) && (n <=? MAX_SAFE_INTEGER) | None => false end
  && bool_decide (is_Some (n_data i)).

Record envelope := Envelope { e_id : option Z; e_eventType : option string; e_payload : option RetryDispatchIntent }.

(** What [JSON.parse] makes of a body: an error, [null], or a value whose properties can
    be read. [e_id] is a safe integer. *)
Inductive body := NotJson | JsonNull | Parsed (e : envelope).

Record request := Request { r_method : string; r_signature : string; r_body : string }.

Record job := Job { j_name : string; j_data : D }.

(** ** The handler *)

Definition key : Type := string * string.

Inductive call : Type := GetJob (k : key) | AddJob (k : key) (j : job) | Respond (q : request) (status : Z).

Definition ans (c : call) : Type := match c with GetJob _ => bool | AddJob _ _ => unit | Respond _ _ => unit end.

Definition program := prog ans string.

Definition await_ (c : call) : program (ans c) := await c.

Context (hmac : string → string) (parse : string → body) (registered : string → bool).

(** Looks before it adds, and answers after the job is there. *)
Definition dispatch (q : request) (queue executionId : string) (j : job) : program unit :=
  let! existing := await_ (GetJob (queue, executionId)) in
  (if existing then Ret tt else await_ (AddJob (queue, executionId) j)) ;!
  await_ (Respond q 204).

Definition handle (q : request) : program unit :=
  if negb (bool_decide (r_method q = "POST")) then await_ (Respond q 405) else
  if negb (validSignature hmac (r_body q) (r_signature q)) then await_ (Respond q 401) else
  match parse (r_body q) with
  | NotJson => await_ (Respond q 400)
  | JsonNull => Throw "TypeError"
  | Parsed e =>
      match e_id e, e_payload e with
      | Some _, Some i =>
          if bool_decide (e_eventType e = Some "task.retry.dispatch_requested") && intentValid i then
            match n_queue i, n_executionId i, n_jobName i, n_data i with
            | Some queue, Some executionId, Some name, Some data =>
                if registered queue then dispatch q queue executionId (Job name data) else await_ (Respond q 422)
            | _, _, _, _ => await_ (Respond q 400)
            end
          else await_ (Respond q 400)
      | _, _ => await_ (Respond q 400)
      end
  end.

(** ** What a request may ask for *)

(** The signature header carries the HMAC of the body in hexadecimal. *)
Definition signed (q : request) : Prop := ∃ hex, r_signature q = ("v1=" +:+ hex) ∧ decode_hex hex = hmac (r_body q).

(** A signed POST whose body is a dispatch event with a complete intent for this queue,
    Execution, job name and data. *)
Record asks (q : request) (k : key) (j : job) : Prop := {
  asks_post : r_method q = "POST";
  asks_signed : signed q;
  asks_intent : ∃ e i id attempt, parse (r_body q) = Parsed e ∧ e_id e = Some id ∧ e_eventType e = Some "task.retry.dispatch_requested" ∧ e_payload e = Some i ∧
    n_schemaVersion i = Some 1 ∧ n_queue i = Some k.1 ∧ n_executionId i = Some k.2 ∧ n_jobName i = Some (j_name j) ∧ n_data i = Some (j_data j) ∧
    n_attempt i = Some attempt ∧ 0 < attempt ≤ MAX_SAFE_INTEGER;
  asks_named : js_blank k.2 = false ∧ js_blank (j_name j) = false;
  asks_registered : registered k.1 = true;
}.

Lemma validSignature_signed q : validSignature hmac (r_body q) (r_signature q) = true ↔ signed q.
Proof.
  unfold validSignature, signed. rewrite andb_true_iff, bool_decide_eq_true.
  assert (∀ s, String.substring 0 (String.length s) s = s) as Hs by (intros s; induction s as [|d s IH]; cbn; congruence). split.
  - intros [Hp E]. destruct (r_signature q) as [|a [|b [|c s]]]; cbn in Hp; repeat (case_match; [subst|done]); try done.
    exists s. split; [done|]. cbn in E. by rewrite ?Nat.sub_0_r, Hs in E.
  - intros (hex & -> & E). change ("v1=" +:+ hex) with (String "v" (String "1" (String "=" hex))). cbn. rewrite ?Nat.sub_0_r, Hs. by destruct hex.
Qed.

(** ** Histories *)

Notation entry := (sigT (λ c, result string (ans c))).

(** One more call after the calls [past]. *)
Definition justified (evs : list (event request)) (past : list entry) (x : entry) : Prop :=
  match x with
  | existT (GetJob _) _ => True
  | existT (AddJob k j) _ => existT (GetJob k) (Ok false) ∈ past ∧ ∃ q, Begin q ∈ evs ∧ asks q k j
  | existT (Respond q n) _ =>
      (n = 204 → ∃ k j, asks q k j ∧ (existT (GetJob k) (Ok true) ∈ past ∨ existT (AddJob k j) (Ok tt) ∈ past)) ∧
      (¬ signed q → n = 401 ∨ n = 405)
  end.

Definition all_justified (evs : list (event request)) (h : list entry) : Prop := ∀ past x rest, h = past ++ x :: rest → justified evs past x.

Lemma justified_snoc evs h x : all_justified evs h → justified evs h x → all_justified evs (h ++ [x]).
Proof.
  intros Hh Hx past y rest E. destruct rest as [|z rest _] using rev_ind.
  - apply app_inj_tail in E as [-> ->]. done.
  - rewrite app_comm_cons, app_assoc in E. apply app_inj_tail in E as [-> _]. by eapply Hh.
Qed.

Section history.
Context (w : oracle ans string) (evs : list (event request)).

Notation safe_here := (safe (recorded w) (all_justified evs) prefix trivial trivial).

#[local] Instance entry_prefix_preorder : PreOrder (prefix (A := entry)).
Proof. split; apply _. Qed.

(** An answer that needs nothing before it. *)
Lemma respond_safe q n h : n ≠ 204 → (¬ signed q → n = 401 ∨ n = 405) → safe_here (await_ (Respond q n)) h.
Proof.
  intros Hn Hs. apply (safe_last (ans := ans) _ _ _ (Respond q n) trivial). intros h1 _ Hi. cbn.
  split; [by apply justified_snoc|]. split; [by apply prefix_app_r|by destruct (w h1 (Respond q n))].
Qed.

Lemma answered_safe q k j h : asks q k j → existT (GetJob k) (Ok true) ∈ h ∨ existT (AddJob k j) (Ok tt) ∈ h → safe_here (await_ (Respond q 204)) h.
Proof.
  intros Ha Hh. apply (safe_last (ans := ans) _ _ _ (Respond q 204) trivial). intros h1 [t ->] Hi. cbn. split; [|split; [by apply prefix_app_r|by destruct (w _ (Respond q 204))]].
  apply justified_snoc; [done|]. split; [|intros []; apply Ha]. intros _. exists k, j. split; [done|]. rewrite !elem_of_app. tauto.
Qed.

Lemma retry_dispatch_safe q queue executionId j h : Begin q ∈ evs → asks q (queue, executionId) j → safe_here (dispatch q queue executionId j) h.
Proof.
  intros Hq Ha. unfold dispatch, await_ at 1. apply safe_await. intros h1 _ Hi. cbn. split; [by apply justified_snoc|]. split; [by apply prefix_app_r|].
  destruct (w h1 (GetJob (queue, executionId))) as [[]|e] eqn:Eg; [| |done].
  - cbn. apply (answered_safe q (queue, executionId) j); [done|]. left. set_solver.
  - apply (safe_await (ans := ans) (recorded w) (all_justified evs) prefix trivial trivial (AddJob (queue, executionId) j) (λ _, await_ (Respond q 204))). intros h2 [t ->] Hi2. cbn. split; [|split; [by apply prefix_app_r|]].
    + apply justified_snoc; [done|]. split; [set_solver|]. by exists q.
    + destruct (w _ (AddJob (queue, executionId) j)) as [[]|e]; [|done]. apply (answered_safe q (queue, executionId) j); [done|]. right. set_solver.
Qed.

Lemma handle_safe q h : Begin q ∈ evs → safe_here (handle q) h.
Proof.
  intros Hq. unfold handle. destruct (bool_decide_reflect (r_method q = "POST")) as [Hm|]; cbn [negb]; [|apply respond_safe; [done|tauto]].
  destruct (validSignature hmac (r_body q) (r_signature q)) eqn:Es; cbn [negb]; [|apply respond_safe; [done|tauto]]. apply validSignature_signed in Es as Hs.
  destruct (parse (r_body q)) as [| |e] eqn:Ep; [by apply respond_safe|done|].
  destruct (e_id e) as [id|] eqn:Ei; [|by apply respond_safe]. destruct (e_payload e) as [i|] eqn:Epl; [|by apply respond_safe].
  destruct (bool_decide_reflect (e_eventType e = Some "task.retry.dispatch_requested")) as [Et|]; [|by apply respond_safe]. cbn [andb].
  destruct (intentValid i) eqn:Ev; [|by apply respond_safe]. unfold intentValid in Ev. repeat (apply andb_true_iff in Ev as [Ev ?]).
  destruct (n_queue i) as [queue|] eqn:E1; [|by apply respond_safe]. destruct (n_executionId i) as [executionId|] eqn:E2; [|by apply respond_safe].
  destruct (n_jobName i) as [name|] eqn:E3; [|by apply respond_safe]. destruct (n_data i) as [data|] eqn:E4; [|by apply respond_safe].
  destruct (registered queue) eqn:Er; [|by apply respond_safe]. apply retry_dispatch_safe; [done|]. destruct (n_attempt i) as [a|] eqn:E5; [|done].
  cbn in *. rewrite ?negb_true_iff, ?andb_true_iff, ?Z.ltb_lt, ?Z.leb_le, ?bool_decide_eq_true in *. split; [done|done| |done|done].
  exists e, i, id, a. cbn. split_and!; try done; lia.
Qed.

(** C22. However many requests are delivered, one after another or at once, and however
    the queue answers, fails or loses an answer: every job that is added is the one a
    delivered request asked for - a POST signed with the secret whose body is a complete
    dispatch event for a registered queue -, under that retry's Execution id, and only
    after the queue said that it has no job of that id; a request is answered 204 only
    after the queue had its job or accepted it; and a request without a valid signature
    is answered 401 or 405. *)
Theorem retry_jobs_authenticated :
  let h := (execute (recorded w) handle evs []).2 in
  (∀ past k j r rest, h = past ++ existT (AddJob k j) r :: rest →
     existT (GetJob k) (Ok false) ∈ past ∧ ∃ q, Begin q ∈ evs ∧ asks q k j) ∧
  (∀ past q r rest, h = past ++ existT (Respond q 204) r :: rest →
     ∃ k j, asks q k j ∧ (existT (GetJob k) (Ok true) ∈ past ∨ existT (AddJob k j) (Ok tt) ∈ past)) ∧
  (∀ q n r, existT (Respond q n) r ∈ h → ¬ signed q → n = 401 ∨ n = 405).
Proof.
  intros h. assert (all_justified evs h) as Hh.
  { apply (threads_safe_begun (recorded w) handle (all_justified evs) prefix [] evs); [intros q h' Hq _; by apply handle_safe|]. by intros [] x rest. }
  split_and!.
  - intros past k j r rest E. exact (Hh _ _ _ E).
  - intros past q r rest E. by apply (Hh _ _ _ E).
  - intros q n r (past & rest & E)%list_elem_of_split. by apply (Hh _ _ _ E).
Qed.
End history.
End intents.

(** ** A run *)

Definition sample_intent : RetryDispatchIntent (D := nat) := Intent (Some 1) (Some "c") (Some "t") (Some "t:2") (Some "bullmq") (Some "q") (Some "resize") (Some 7%nat) (Some 2).

Definition sample_request : request := Request "POST" "v1=4142" "body".

(** A queue whose first two reads find nothing. *)
Definition sample_oracle : oracle (ans (D := nat)) string := λ h c, match c with GetJob _ => Ok (Nat.leb 2 (length h)) | AddJob _ _ => Ok tt | Respond _ _ => Ok tt end.

(** The same retry delivered twice at once, and once without a signature: both look before
    either adds. *)
Lemma retry_jobs_authenticated_witness :
  let h := (execute (recorded sample_oracle) (handle (λ _, "AB") (λ _, Parsed (Envelope (Some 1) (Some "task.retry.dispatch_requested") (Some sample_intent))) (λ _, true))
              [Begin sample_request; Begin sample_request; Begin (Request "POST" "v1=00" "body"); Turn 0; Turn 1; Turn 0; Turn 1; Turn 0; Turn 1; Turn 2] []).2 in
  (projT1 <$> h) = [GetJob ("q", "t:2"); GetJob ("q", "t:2"); AddJob ("q", "t:2") (Job "resize" 7%nat); AddJob ("q", "t:2") (Job "resize" 7%nat);
                    Respond sample_request 204; Respond sample_request 204; Respond (Request "POST" "v1=00" "body") 401] ∧
  ∃ q, asks (λ _, "AB") (λ _, Parsed (Envelope (Some 1) (Some "task.retry.dispatch_requested") (Some sample_intent))) (λ _, true) q ("q", "t:2") (Job "resize" 7%nat).
Proof.
  intros h. split; [vm_compute; reflexivity|].
  destruct (retry_jobs_authenticated (λ _, "AB") (λ _, Parsed (Envelope (Some 1) (Some "task.retry.dispatch_requested") (Some sample_intent))) (λ _, true) sample_oracle
              [Begin sample_request; Begin sample_request; Begin (Request "POST" "v1=00" "body"); Turn 0; Turn 1; Turn 0; Turn 1; Turn 0; Turn 1; Turn 2]) as (H & _).
  destruct (H (take 2 h) ("q", "t:2") (Job "resize" 7%nat) (Ok tt) (drop 3 h)) as (_ & q & _ & Hq); [vm_compute; reflexivity|]. exists q. exact Hq.
Defined.
End RetryDispatch.
