(* ===== verification/CapabilityLinks.v ===== *)
(** * Capability links

    [runtime/capability-link.ts]: [linkRhinoQCapabilities] finds the one component that
    provides each capability an application asks for, before anything runs. The graph does
    not depend on the order anything was declared in; every requirement is linked to the
    only component that provides it, or is optional and has none.

    [JSON.stringify] of the unsigned graph is a parameter. A field the code does not
    inspect has the type its interface declares. *)

From stdpp Require Import base gmap strings list sorting.
From Stdlib Require Import Ascii ZArith Lia.
From S2P Require Import Prelude GuardedRecovery Sorting.

Module CapabilityLinks.
Open Scope result_scope.

(** ** Data *)

Inductive RhinoQBindingScalar := StringValue (s : string) | NumberValue (z : Z) | NotFinite | BooleanValue (b : bool) | OtherValue.

Record RhinoQCapabilityBinding := Binding {
  b_properties : list (string * RhinoQBindingScalar);
  b_secrets : list (string * option string);
  b_permissions : list string }.

Record RhinoQCapabilityComponent := Component {
  c_id : string;
  c_version : Z;
  c_contractVersion : Z;
  c_provides : list string;
  c_requires : list string;
  c_binding : option RhinoQCapabilityBinding }.

Record RhinoQCapabilityRequirement := Requirement { r_capability : string; r_requiredBy : option string; r_optional : bool }.

Record link_binding := LinkBinding { lb_properties : list (string * RhinoQBindingScalar); lb_secretRefs : list string; lb_permissions : list string }.

Record RhinoQCapabilityLink := Link { l_capability : string; l_provider : string; l_requiredBy : list string; l_binding : link_binding }.

(** A requirement that was normalized names who asks. *)
Record requirement := Required { q_capability : string; q_requiredBy : string; q_optional : bool }.

Record unsigned_graph := Unsigned { u_components : list RhinoQCapabilityComponent; u_links : list RhinoQCapabilityLink; u_unresolvedOptional : list requirement }.

Record RhinoQCapabilityGraph := Graph { g_unsigned : unsigned_graph; g_fingerprint : string }.

Inductive link_error :=
| BadComponentId
| BadVersion (id : string)
| BadContractVersion (id : string)
| ProvidesNothing (id : string)
| BadCapability (value : string)
| BadProperty (key : string)
| BadSecret (key : string)
| RequiredByMissing
| DuplicateComponentIds
| MissingCapability (id capability : string)
| AmbiguousCapability (id capability : string) (candidates : list string)
| MultipleProviders (capability : string) (candidates : list string)
| NoProvider (capability : string) (requiredBy : list string).

Definition checked := result link_error.

(** ** Identifiers

    [/^(runtime|processor|provider|storage|surface):[a-z0-9][a-z0-9._-]*$/i] and the
    same with a slash. *)

Definition namespaces : list string := ["runtime"; "processor"; "provider"; "storage"; "surface"].

Definition alnum (c : ascii) : bool :=
  let n := nat_of_ascii c in ((97 <=? n) && (n <=? 122) || (48 <=? n) && (n <=? 57))%nat.

Definition name_char (c : ascii) : bool := alnum c || Ascii.eqb c "." || Ascii.eqb c "_" || Ascii.eqb c "-".

Fixpoint all_chars (p : ascii → bool) (s : string) : bool := match s with EmptyString => true | String c s => p c && all_chars p s end.

Definition local_name (s : string) : bool :=
  match s with EmptyString => false | String c rest => alnum (lower c) && all_chars (λ c, name_char (lower c)) rest end.

Fixpoint split_at (sep : ascii) (s : string) : option (string * string) :=
  match s with
  | EmptyString => None
  | String c s => if Ascii.eqb c sep then Some (EmptyString, s) else '(a, b) ← split_at sep s; Some (String c a, b)
  end.

Definition namespaced (sep : ascii) (s : string) : bool :=
  match split_at sep s with Some (ns, name) => bool_decide (to_lower ns ∈ namespaces) && local_name name | None => false end.

Definition validateCapability (value : string) : checked string :=
  if namespaced ":" value then Ok value else Err (BadCapability value).

(** ** Normalization *)

Definition MAX_SAFE_INTEGER : Z := 2 ^ 53 - 1.

Definition property_valid (p : string * RhinoQBindingScalar) : bool :=
  negb (js_blank p.1) && match p.2 with NotFinite | OtherValue => false | _ => true end.

Definition secret_valid (p : string * option string) : bool :=
  negb (js_blank p.1) && match p.2 with Some r => negb (js_blank r) | None => false end.

Fixpoint check_entries {A} (valid : string * A → bool) (e : string → link_error) (l : list (string * A)) : checked unit :=
  match l with [] => Ok tt | p :: l => refuse (negb (valid p)) (e p.1) ;? check_entries valid e l end.

Definition normalizeBinding (b : RhinoQCapabilityBinding) : checked RhinoQCapabilityBinding :=
  check_entries property_valid BadProperty (b_properties b) ;?
  check_entries secret_valid BadSecret (b_secrets b) ;?
  Ok (Binding (b_properties b) (b_secrets b) (sort_by id (List.filter (λ s, negb (bool_decide (s = ""))) (js_trim <$> new_set (b_permissions b))))).

Definition normalizeComponent (c : RhinoQCapabilityComponent) : checked RhinoQCapabilityComponent :=
  refuse (negb (namespaced "/" (c_id c))) BadComponentId ;?
  refuse ((MAX_SAFE_INTEGER <? c_version c) || (c_version c <? 1)) (BadVersion (c_id c)) ;?
  refuse (negb (c_contractVersion c =? 1)) (BadContractVersion (c_id c)) ;?
  refuse (bool_decide (c_provides c = [])) (ProvidesNothing (c_id c)) ;?
  let? provides := map_result validateCapability (c_provides c) in
  let? requires := map_result validateCapability (c_requires c) in
  let? binding := match c_binding c with Some b => let? b := normalizeBinding b in Ok (Some b) | None => Ok None end in
  Ok (Component (c_id c) (c_version c) 1 (sorted_set provides) (sorted_set requires) binding).

Definition normalizeRequirement (r : RhinoQCapabilityRequirement) : checked requirement :=
  match truthy (js_trim <$> r_requiredBy r) with
  | None => Err RequiredByMissing
  | Some by_ => let? capability := validateCapability (r_capability r) in Ok (Required capability by_ (r_optional r))
  end.

Definition publicBinding (b : option RhinoQCapabilityBinding) : link_binding :=
  match b with
  | None => LinkBinding [] [] []
  | Some b => LinkBinding (b_properties b) (sort_by id ((λ p, default "" p.2) <$> b_secrets b)) (b_permissions b)
  end.

(** ** Linking *)

(** [const entries = map.get(key) ?? []; entries.push(value); map.set(key, entries)] *)
Definition push {A} (m : gmap string (list A)) (p : string * A) : gmap string (list A) := <[p.1 := default [] (m !! p.1) ++ [p.2]]> m.

Definition group {A} (l : list (string * A)) : gmap string (list A) := foldl push ∅ l.

Definition providers_of (cs : list RhinoQCapabilityComponent) : gmap string (list RhinoQCapabilityComponent) :=
  group (c ← cs; cap ← c_provides c; [(cap, c)]).

Definition grouped (rs : list requirement) : gmap string (list requirement) := group ((λ r, (q_capability r, r)) <$> rs).

Definition candidates (providers : gmap string (list RhinoQCapabilityComponent)) (cap : string) : list RhinoQCapabilityComponent := default [] (providers !! cap).

Definition check_requires (providers : gmap string (list RhinoQCapabilityComponent)) (c : RhinoQCapabilityComponent) (cap : string) : checked unit :=
  refuse (bool_decide (candidates providers cap = [])) (MissingCapability (c_id c) cap) ;?
  refuse (bool_decide (1 < length (candidates providers cap))%nat) (AmbiguousCapability (c_id c) cap (c_id <$> candidates providers cap)).

Fixpoint link_each (providers : gmap string (list RhinoQCapabilityComponent)) (consumers : gmap string (list requirement)) (caps : list string) : checked (list RhinoQCapabilityLink * list requirement) :=
  match caps with
  | [] => Ok ([], [])
  | cap :: caps =>
      let rs := default [] (consumers !! cap) in
      let required := List.filter (λ r, negb (q_optional r)) rs in
      match candidates providers cap with
      | [] =>
          refuse (negb (bool_decide (required = []))) (NoProvider cap (sort_by id (q_requiredBy <$> required))) ;?
          let? rest := link_each providers consumers caps in
          Ok (rest.1, rs ++ rest.2)
      | [provider] =>
          let? rest := link_each providers consumers caps in
          Ok (Link cap (c_id provider) (sorted_set (q_requiredBy <$> rs)) (publicBinding (c_binding provider)) :: rest.1, rest.2)
      | many => Err (MultipleProviders cap (c_id <$> many))
      end
  end.

Definition unresolved_key (r : requirement) : string := (q_capability r ++ ":" ++ q_requiredBy r)%string.

Section link.
Context (stringify : unsigned_graph → string).

Definition linkRhinoQCapabilities (components : list RhinoQCapabilityComponent) (requirements : list RhinoQCapabilityRequirement) : checked RhinoQCapabilityGraph :=
  let? normal := map_result normalizeComponent components in
  let cs := sort_by c_id normal in
  refuse (negb (bool_decide (length (new_set (c_id <$> cs)) = length cs))) DuplicateComponentIds ;?
  let providers := providers_of cs in
  map_result (λ c, map_result (check_requires providers c) (c_requires c)) cs ;?
  let? rs := map_result normalizeRequirement requirements in
  let consumers := grouped rs in
  let? linked := link_each providers consumers (sort_by id (map_to_list consumers).*1) in
  let unsigned := Unsigned cs linked.1 (sort_by unresolved_key linked.2) in
  Ok (Graph unsigned (stableFingerprint (stringify unsigned))).
End link.
End CapabilityLinks.

Module CapabilityLinkFacts.
Import CapabilityLinks.
Open Scope result_scope.

(** ** Groups *)

Lemma group_snoc {A} (l : list (string * A)) p : group (l ++ [p]) = push (group l) p.
Proof. unfold group. by rewrite foldl_app. Qed.

Lemma group_lookup {A} (l : list (string * A)) k : default [] (group l !! k) = (filter (λ p, p.1 = k) l).*2.
Proof.
  induction l as [|p l IH] using rev_ind; [done|]. rewrite group_snoc, filter_app, fmap_app, <- IH. unfold push.
  rewrite filter_cons. case_decide as E.
  - by rewrite E, lookup_insert_eq.
  - rewrite lookup_insert_ne by done. cbn. by rewrite app_nil_r.
Qed.

Lemma group_dom {A} (l : list (string * A)) k : k ∈ (map_to_list (group l)).*1 ↔ k ∈ l.*1.
Proof.
  rewrite list_elem_of_fmap. split.
  - intros ([k' xs] & -> & H%elem_of_map_to_list). cbn.
    induction l as [|p l IH] using rev_ind; [done|]. rewrite group_snoc in H. rewrite fmap_app, elem_of_app. unfold push in H.
    destruct (decide (p.1 = k')) as [<-|Hne]; [right; by constructor|]. rewrite lookup_insert_ne in H by done. auto.
  - intros Hk. cut (is_Some (group l !! k)); [intros [xs H]; exists (k, xs); by rewrite elem_of_map_to_list|].
    induction l as [|p l IH] using rev_ind; [by apply elem_of_nil in Hk|]. rewrite group_snoc. unfold push.
    destruct (decide (p.1 = k)) as [<-|Hne]; [rewrite lookup_insert_eq; by eexists|]. rewrite lookup_insert_ne by done. apply IH.
    rewrite fmap_app, elem_of_app in Hk. destruct Hk as [Hk|Hk]; [done|]. cbn in Hk. by apply list_elem_of_singleton in Hk as ->.
Qed.

Lemma group_keys_NoDup {A} (m : gmap string A) : NoDup (map_to_list m).*1.
Proof. apply NoDup_fst_map_to_list. Qed.

Lemma group_keys_perm {A} (l l' : list (string * A)) :
  l ≡ₚ l' → sort_by id (map_to_list (group l)).*1 = sort_by id (map_to_list (group l')).*1.
Proof.
  intros Hp. apply sort_by_perm_eq; [by intros x y _ _|]. apply NoDup_Permutation; [apply group_keys_NoDup..|].
  intros k. rewrite !group_dom. by rewrite Hp.
Qed.

Lemma group_lookup_perm {A} (l l' : list (string * A)) k : l ≡ₚ l' → default [] (group l !! k) ≡ₚ default [] (group l' !! k).
Proof. intros Hp. rewrite !group_lookup. by rewrite Hp. Qed.

(** ** Candidates and consumers *)

Lemma elem_of_candidates cs cap c : c ∈ candidates (providers_of cs) cap ↔ c ∈ cs ∧ cap ∈ c_provides c.
Proof.
  unfold candidates, providers_of. rewrite group_lookup, list_elem_of_fmap. split.
  - intros ([k c'] & -> & [Hk H]%list_elem_of_filter). cbn in Hk. subst k. apply list_elem_of_bind in H as (c0 & H & Hc0).
    apply list_elem_of_bind in H as (cap' & [= <- <-]%list_elem_of_singleton & H). done.
  - intros [Hc Hp]. exists (cap, c). split; [done|]. apply list_elem_of_filter. split; [done|].
    apply list_elem_of_bind. exists c. split; [|done]. apply list_elem_of_bind. exists cap. split; [|done]. by apply list_elem_of_singleton.
Qed.

Lemma elem_of_consumers rs cap r : r ∈ default [] (grouped rs !! cap) ↔ r ∈ rs ∧ q_capability r = cap.
Proof.
  unfold grouped. rewrite group_lookup, list_elem_of_fmap. split.
  - intros (p & -> & [Hk H]%list_elem_of_filter). apply list_elem_of_fmap in H as (r' & -> & H). done.
  - intros [Hr <-]. exists (q_capability r, r). split; [done|]. apply list_elem_of_filter. split; [done|].
    apply list_elem_of_fmap. by exists r.
Qed.

Lemma elem_of_caps rs cap : cap ∈ sort_by id (map_to_list (grouped rs)).*1 ↔ ∃ r, r ∈ rs ∧ q_capability r = cap.
Proof.
  rewrite (sort_by_perm id). unfold grouped. rewrite group_dom, <- list_fmap_compose, list_elem_of_fmap. cbn. naive_solver.
Qed.

(** ** One pass over the capabilities *)

(** What the pass makes of one capability. *)
Definition settled_as (ps : gmap string (list RhinoQCapabilityComponent)) (rs : list requirement) (links : list RhinoQCapabilityLink) (open : list requirement) (cap : string) : Prop :=
  (∃ p, candidates ps cap = [p] ∧ Link cap (c_id p) (sorted_set (q_requiredBy <$> rs)) (publicBinding (c_binding p)) ∈ links) ∨
  (candidates ps cap = [] ∧ ∀ r, r ∈ rs → q_optional r = true ∧ r ∈ open).

Lemma settled_mono ps rs links links' open open' cap : links ⊆ links' → open ⊆ open' → settled_as ps rs links open cap → settled_as ps rs links' open' cap.
Proof. intros Hl Ho [(p & Hp & H)|[Hp H]]; [left; eauto|right]. split; [done|]. intros r Hr. destruct (H r Hr). auto. Qed.

Lemma all_optional rs : List.filter (λ r, negb (q_optional r)) rs = [] → ∀ r, r ∈ rs → q_optional r = true.
Proof.
  induction rs as [|x rs IH]; cbn; intros H r Hr; [by apply elem_of_nil in Hr|].
  destruct (q_optional x) eqn:E; cbn in H; [|done]. apply elem_of_cons in Hr as [->|Hr]; auto.
Qed.

Lemma link_each_settles ps m caps out cap :
  link_each ps m caps = Ok out → cap ∈ caps → settled_as ps (default [] (m !! cap)) out.1 out.2 cap.
Proof.
  revert out. induction caps as [|k caps IH]; intros out H Hc; [by apply elem_of_nil in Hc|]. cbn in H.
  destruct (candidates ps k) as [|p [|p2 ps']] eqn:Ek; [| |done].
  - apply rbind_ok in H as (u & Hr%refuse_ok & H). apply rbind_ok in H as (rest & Hrest & [= <-]). cbn.
    apply negb_false_iff, bool_decide_eq_true in Hr. apply elem_of_cons in Hc as [->|Hc].
    + right. split; [done|]. intros r Hin. split; [by apply (all_optional _ Hr)|]. apply elem_of_app. by left.
    + eapply settled_mono; [done| |by apply IH]. set_solver.
  - apply rbind_ok in H as (rest & Hrest & [= <-]). cbn. apply elem_of_cons in Hc as [->|Hc].
    + left. exists p. split; [done|]. by left.
    + eapply settled_mono; [|done|by apply IH]. set_solver.
Qed.

(** Every link and every open requirement comes from a capability of the pass. *)
Lemma link_each_only ps m caps out :
  link_each ps m caps = Ok out →
  (l_capability <$> out.1 = filter (λ k, candidates ps k ≠ []) caps) ∧
  ∀ r, r ∈ out.2 → ∃ k, k ∈ caps ∧ r ∈ default [] (m !! k) ∧ q_optional r = true ∧ candidates ps k = [].
Proof.
  revert out. induction caps as [|k caps IH]; intros out H; [cbn in H; injection H as <-; split; [done|]; intros r Hr; by apply elem_of_nil in Hr|]. cbn in H.
  rewrite filter_cons. destruct (candidates ps k) as [|p [|p2 ps']] eqn:Ek; [| |done].
  - apply rbind_ok in H as (u & Hr%refuse_ok & H). apply rbind_ok in H as (rest & Hrest & [= <-]). cbn.
    apply negb_false_iff, bool_decide_eq_true in Hr. destruct (IH _ Hrest) as [H1 H2]. rewrite decide_False by naive_solver. split; [done|].
    intros r [Hin|Hin]%elem_of_app.
    + exists k. split_and!; [by left|done|by apply (all_optional _ Hr)|done].
    + destruct (H2 _ Hin) as (k' & ? & ?). exists k'. split; [by right|done].
  - apply rbind_ok in H as (rest & Hrest & [= <-]). cbn. destruct (IH _ Hrest) as [H1 H2]. rewrite decide_True by done. cbn. split; [by f_equal|].
    intros r Hin. destruct (H2 _ Hin) as (k' & ? & ?). exists k'. split; [by right|done].
Qed.

(** ** Order *)

Lemma filter_optional_perm rs rs' : rs ≡ₚ rs' → List.filter (λ r, negb (q_optional r)) rs ≡ₚ List.filter (λ r, negb (q_optional r)) rs'.
Proof.
  induction 1 as [|x l l' _ IH|x y l|l l' l'' _ IH _ IH']; cbn; [done|..|by etrans].
  - destruct (negb _); [by f_equiv|done].
  - destruct (negb (q_optional x)), (negb (q_optional y)); try done. apply Permutation_swap.
Qed.

Lemma link_each_perm ps m m' caps out :
  (∀ k, default [] (m !! k) ≡ₚ default [] (m' !! k)) → link_each ps m caps = Ok out →
  ∃ out', link_each ps m' caps = Ok out' ∧ out.1 = out'.1 ∧ out.2 ≡ₚ out'.2.
Proof.
  intros Hm. revert out. induction caps as [|k caps IH]; intros out H; cbn in *; [by exists out|].
  destruct (candidates ps k) as [|p [|p2 ps']]; [| |done].
  - apply rbind_ok in H as (u & Hr%refuse_ok & H). apply rbind_ok in H as (rest & Hrest & [= <-]).
    destruct (IH _ Hrest) as (rest' & Hr' & E1 & E2). apply negb_false_iff, bool_decide_eq_true in Hr.
    pose proof (filter_optional_perm _ _ (Hm k)) as Hp. rewrite Hr in Hp. symmetry in Hp. apply Permutation_nil_r in Hp. rewrite (bool_decide_eq_true_2 _ Hp), Hr'. cbn.
    eexists; split_and!; [done|done|]. cbn. by rewrite (Hm k), E2.
  - apply rbind_ok in H as (rest & Hrest & [= <-]). destruct (IH _ Hrest) as (rest' & -> & E1 & E2). cbn.
    eexists; split_and!; [done| |done]. cbn. rewrite E1. do 2 f_equal. apply sorted_set_ext. intros x. by rewrite (Hm k).
Qed.

(** ** Keys of open requirements *)

Lemma split_at_spec sep s a b : split_at sep s = Some (a, b) → s = (a ++ String sep b)%string ∧ lacks sep a = true.
Proof.
  revert a b. induction s as [|c s IH]; intros a b; cbn; [done|]. destruct (Ascii.eqb c sep) eqn:E.
  - intros [= <- <-]. apply Ascii.eqb_eq in E as ->. done.
  - intros ([a' b'] & Hs & [= <- <-])%bind_Some. destruct (IH _ _ Hs) as [-> Hl]. split; [done|]. cbn. by rewrite E.
Qed.

Lemma name_chars_lack_colon s : all_chars (λ c, name_char (lower c)) s = true → lacks ":" s = true.
Proof.
  induction s as [|c s IH]; cbn; [done|]. intros [Hc Hs]%andb_true_iff. rewrite (IH Hs), andb_true_r. apply negb_true_iff, Ascii.eqb_neq.
  intros ->. by vm_compute in Hc.
Qed.

Lemma local_name_lacks_colon s : local_name s = true → lacks ":" s = true.
Proof.
  destruct s as [|c s]; [done|]. intros H. apply name_chars_lack_colon. cbn in *. apply andb_true_iff in H as [Ha ->].
  rewrite andb_true_r. unfold name_char. by rewrite Ha.
Qed.

Lemma capability_prefix_inj a b x y :
  namespaced ":" a = true → namespaced ":" b = true → (a ++ ":" ++ x = b ++ ":" ++ y)%string → a = b ∧ x = y.
Proof.
  unfold namespaced. destruct (split_at ":" a) as [[n1 m1]|] eqn:E1; [|done]. destruct (split_at ":" b) as [[n2 m2]|] eqn:E2; [|done].
  apply split_at_spec in E1 as [-> L1], E2 as [-> L2]. intros [_ H1%local_name_lacks_colon]%andb_true_iff [_ H2%local_name_lacks_colon]%andb_true_iff.
  rewrite !append_assoc, !append_String, !append_nil_l. intros [-> E]%separator_inj; [|done..]. apply separator_inj in E as [-> ->]; done.
Qed.

Lemma normalizeRequirement_ok r q : normalizeRequirement r = Ok q →
  namespaced ":" (q_capability q) = true ∧ q_capability q = r_capability r ∧ Some (q_requiredBy q) = js_trim <$> r_requiredBy r ∧ q_optional q = r_optional r.
Proof.
  unfold normalizeRequirement, validateCapability. destruct (truthy _) as [w|] eqn:Et; [|done]. destruct (namespaced _ _) eqn:E; [|done].
  intros [= <-]. cbn. split_and!; try done. destruct (r_requiredBy r) as [s|]; [|done]. cbn in *. unfold truthy in Et. by case_bool_decide; simplify_eq.
Qed.

Lemma normalized_valid rs qs : map_result normalizeRequirement rs = Ok qs → ∀ q, q ∈ qs → namespaced ":" (q_capability q) = true.
Proof.
  intros H%map_result_ok q Hq. induction H as [|r q' rs qs Hr _ IH]; [by apply elem_of_nil in Hq|].
  apply elem_of_cons in Hq as [->|Hq]; [by apply (normalizeRequirement_ok r)|auto].
Qed.
(** ** The graph *)

Section graph.
Context (stringify : unsigned_graph → string).

Lemma link_inv components requirements g :
  linkRhinoQCapabilities stringify components requirements = Ok g ↔
  ∃ normal cs checks qs linked,
    map_result normalizeComponent components = Ok normal ∧ cs = sort_by c_id normal ∧ NoDup (c_id <$> normal) ∧
    map_result (λ c, map_result (check_requires (providers_of cs) c) (c_requires c)) cs = Ok checks ∧
    map_result normalizeRequirement requirements = Ok qs ∧
    link_each (providers_of cs) (grouped qs) (sort_by id (map_to_list (grouped qs)).*1) = Ok linked ∧
    g = (let u := Unsigned cs linked.1 (sort_by unresolved_key linked.2) in Graph u (stableFingerprint (stringify u))).
Proof.
  unfold linkRhinoQCapabilities. repeat setoid_rewrite rbind_ok. setoid_rewrite refuse_ok.
  assert (∀ l, negb (bool_decide (length (new_set (c_id <$> sort_by c_id l)) = length (sort_by c_id l))) = false ↔ NoDup (c_id <$> l)) as Hn.
  { intros l. rewrite negb_false_iff, bool_decide_eq_true, <- (length_fmap c_id (sort_by c_id l)), new_set_size, (sort_by_perm c_id l). done. }
  split.
  - intros (normal & Hc & [] & Hd%Hn & checks & Hk & qs & Hq & linked & Hl & [= <-]). eauto 12.
  - intros (normal & cs & checks & qs & linked & Hc & -> & Hd%Hn & Hk & Hq & Hl & ->). exists normal. split; [done|]. exists tt. split; [done|]. eauto 8.
Qed.

Lemma unresolved_key_inj rs qs linked ps caps x y :
  map_result normalizeRequirement rs = Ok qs → link_each ps (grouped qs) caps = Ok linked →
  x ∈ linked.2 → y ∈ linked.2 → unresolved_key x = unresolved_key y → x = y.
Proof.
  intros Hq Hl Hx Hy E. destruct (link_each_only _ _ _ _ Hl) as [_ Ho].
  destruct (Ho _ Hx) as (k1 & _ & [Hx1 _]%elem_of_consumers & Hx2 & _), (Ho _ Hy) as (k2 & _ & [Hy1 _]%elem_of_consumers & Hy2 & _).
  apply capability_prefix_inj in E as [E1 E2]; [|by eapply normalized_valid..]. destruct x, y; cbn in *. by subst.
Qed.

(** The graph, its fingerprint included, does not depend on the order in which
    components and requirements are declared. *)
Theorem graph_order_independent components components' requirements requirements' g :
  components ≡ₚ components' → requirements ≡ₚ requirements' →
  linkRhinoQCapabilities stringify components requirements = Ok g →
  linkRhinoQCapabilities stringify components' requirements' = Ok g.
Proof.
  intros Pc Pr (normal & cs & checks & qs & linked & Hc & -> & Hd & Hk & Hq & Hl & ->)%link_inv. apply link_inv.
  destruct (map_result_perm _ _ _ _ Pc Hc) as (normal' & Hc' & Pn). destruct (map_result_perm _ _ _ _ Pr Hq) as (qs' & Hq' & Pq).
  assert (sort_by c_id normal = sort_by c_id normal') as Es by by apply sort_by_unique.
  assert (((λ r, (q_capability r, r)) <$> qs) ≡ₚ ((λ r, (q_capability r, r)) <$> qs')) as Pg by by rewrite Pq.
  destruct (link_each_perm (providers_of (sort_by c_id normal)) (grouped qs) (grouped qs') _ _ (λ k, group_lookup_perm _ _ k Pg) Hl) as (linked' & Hl' & E1 & E2).
  unfold grouped in Hl' at 2. rewrite (group_keys_perm _ _ Pg) in Hl'.
  exists normal', (sort_by c_id normal), checks, qs', linked'. split_and!; [done|done|by rewrite <- Pn|done|done|done|].
  rewrite E1, (sort_by_perm_eq unresolved_key linked.2 linked'.2); [done| |done]. intros x y. exact (unresolved_key_inj _ _ _ _ _ x y Hq Hl).
Qed.

Lemma candidate_only cs cap p : candidates (providers_of cs) cap = [p] → p ∈ cs ∧ cap ∈ c_provides p ∧ ∀ c, c ∈ cs → cap ∈ c_provides c → c = p.
Proof.
  intros E. pose proof (elem_of_candidates cs cap) as Hi. rewrite E in Hi. setoid_rewrite list_elem_of_singleton in Hi. split_and!; [by apply Hi..|].
  intros c H1 H2. by apply Hi.
Qed.

(** Every requirement of a linked application has exactly one provider, named in the
    one link of its capability, or is optional, has none and is reported as unresolved;
    capabilities that components ask of each other have exactly one provider, too. *)
Theorem requirements_settled components requirements g :
  linkRhinoQCapabilities stringify components requirements = Ok g →
  let u := g_unsigned g in
  NoDup (l_capability <$> u_links u) ∧
  (∀ c cap, c ∈ u_components u → cap ∈ c_requires c → ∃ p, p ∈ u_components u ∧ cap ∈ c_provides p ∧ ∀ p', p' ∈ u_components u → cap ∈ c_provides p' → p' = p) ∧
  ∀ r, r ∈ requirements → ∃ by_, js_trim <$> r_requiredBy r = Some by_ ∧
    ((∃ p l, p ∈ u_components u ∧ r_capability r ∈ c_provides p ∧ (∀ p', p' ∈ u_components u → r_capability r ∈ c_provides p' → p' = p) ∧
        l ∈ u_links u ∧ l_capability l = r_capability r ∧ l_provider l = c_id p ∧ by_ ∈ l_requiredBy l) ∨
     (r_optional r = true ∧ (∀ p, p ∈ u_components u → r_capability r ∉ c_provides p) ∧ Required (r_capability r) by_ true ∈ u_unresolvedOptional u)).
Proof.
  intros (normal & cs & checks & qs & linked & Hc & Ecs & Hd & Hk & Hq & Hl & ->)%link_inv. cbn. clear Ecs. split_and!.
  - destruct (link_each_only _ _ _ _ Hl) as [-> _]. apply NoDup_filter. rewrite (sort_by_perm id). apply group_keys_NoDup.
  - intros c cap Hin Hcap. apply map_result_ok in Hk. apply list_elem_of_lookup in Hin as [i Hi]. destruct (Forall2_lookup_l _ _ _ _ _ Hk Hi) as (us & _ & Hus).
    apply map_result_ok in Hus. apply list_elem_of_lookup in Hcap as [j Hj]. destruct (Forall2_lookup_l _ _ _ _ _ Hus Hj) as (v & _ & Hv).
    unfold check_requires in Hv. apply rbind_ok in Hv as ([] & H1%refuse_ok & H2%refuse_ok). apply bool_decide_eq_false in H1, H2.
    destruct (candidates (providers_of cs) cap) as [|p [|]] eqn:E; [done| |cbn in H2; lia]. exists p. by apply candidate_only.
  - intros r Hr. apply list_elem_of_lookup in Hr as [i Hi]. pose proof (proj1 (map_result_ok _ _ _) Hq) as Hq'.
    destruct (Forall2_lookup_l _ _ _ _ _ Hq' Hi) as (q & Hqi & Hrq). apply list_elem_of_lookup_2 in Hqi.
    destruct (normalizeRequirement_ok _ _ Hrq) as (_ & Ec & Eb & Eo). exists (q_requiredBy q). split; [done|]. rewrite <- Ec, <- Eo.
    assert (q ∈ default [] (grouped qs !! q_capability q)) as Hin by by apply elem_of_consumers.
    destruct (link_each_settles _ _ _ _ (q_capability q) Hl ltac:(apply elem_of_caps; eauto)) as [(p & Hp & Hlink)|[Hp Ho]].
    + left. destruct (candidate_only _ _ _ Hp) as (? & ? & ?). eexists p, _. do 3 (split; [done|]). split; [exact Hlink|]. do 2 (split; [done|]). apply elem_of_sorted_set, list_elem_of_fmap. eauto.
    + right. destruct (Ho _ Hin) as [Eopt Hopen]. split_and!; [done| |].
      * intros p Hin' Hcap. assert (p ∈ candidates (providers_of cs) (q_capability q)) as H by by apply elem_of_candidates. rewrite Hp in H. by apply elem_of_nil in H.
      * rewrite (sort_by_perm unresolved_key). replace (Required _ _ _) with q; [done|]. clear -Eopt. destruct q. cbn in Eopt. by rewrite Eopt.
Qed.
End graph.

(** ** An application *)

Definition sample_components : list RhinoQCapabilityComponent :=
  [Component "storage/s3" 1 1 ["storage:objects"] ["runtime:queue"] (Some (Binding [("bucket", StringValue "b")] [("key", Some "env:KEY")] [" write "; "read"]));
   Component "runtime/bullmq" 2 1 ["runtime:queue"] [] None].

Definition sample_requirements : list RhinoQCapabilityRequirement :=
  [Requirement "storage:objects" (Some " resize ") false; Requirement "provider:mail" (Some "notify") true; Requirement "storage:objects" (Some "export") false].

Definition sample_graph : RhinoQCapabilityGraph :=
  match linkRhinoQCapabilities (λ _, "{}") sample_components sample_requirements with Ok g => g | Err _ => Graph (Unsigned [] [] []) "" end.

Lemma graph_order_independent_witness :
  linkRhinoQCapabilities (λ _, "{}") (reverse sample_components) (reverse sample_requirements) = Ok sample_graph.
Proof.
  apply (graph_order_independent (λ _, "{}") sample_components _ sample_requirements); [symmetry; apply reverse_Permutation..|]. by vm_compute.
Defined.

Lemma requirements_settled_witness : NoDup (l_capability <$> u_links (g_unsigned sample_graph)).
Proof. apply (requirements_settled (λ _, "{}") sample_components sample_requirements sample_graph). by vm_compute. Defined.
End CapabilityLinkFacts.
