(* ===== verification/Plans.v ===== *)
(** * Compiled plans

    [tasks/plan-inspector.ts]: the compiler of a manifest - normalize, validate, link,
    project - its diagnostics, the adapter of JSON plans and the inspection; and the
    deployment identity of [runtime/deployment.ts] a plan carries.

    A field whose type the code checks is a [field]; one it does not look at has the type
    its interface declares. [JSON.stringify] of the unsigned parts is a parameter. The
    texts of diagnostics are left out. *)

From stdpp Require Import base strings list pretty.
From Stdlib Require Import Ascii ZArith Lia.
From S2P Require Import Prelude GuardedRecovery Sorting CapabilityLinks.

Module Plans.
Import CapabilityLinks.
Open Scope result_scope.

Inductive field := Absent | Text (s : string) | Number (z : Z) | Bool (b : bool) | Other.

#[global] Instance field_eq_dec : EqDecision field.
Proof. solve_decision. Defined.

(** ** The manifest *)

Record plan_retry := Retry { y_mode : field; y_maxAttempts : field }.

Record plan_resources := Resources {
  s_timeoutMs : option Z; s_concurrency : option Z; s_maxRssBytes : option Z; s_workspaceBytes : option Z;
  s_minDiskFreeBytes : option Z; s_gpu : option string; s_region : option string; s_codec : option string }.

Record plan_schedule := Schedule { h_expression : string; h_timezone : option string; h_enabled : option bool }.

Record plan_input := Input { i_transport : field; i_maxInlineBytes : option Z; i_queueCarries : field }.

Record plan_output := Output { o_transport : field; o_checksumRequired : field }.

Record plan_multipart := Multipart { m_partBytes : Z; m_maxParts : Z; m_concurrency : Z }.

Record plan_admission := Admission {
  a_workspaceBytes : option Z; a_diskFreeBytes : option Z; a_minDiskFreeBytes : option Z;
  a_gpu : option string; a_region : option string; a_codec : option string }.

Record plan_data_path := DataPath {
  d_schemaVersion : field;
  d_workload : field;
  d_input : option plan_input;
  d_output : option plan_output;
  d_multipart : option plan_multipart;
  d_admission : option plan_admission;
  d_decisions : option (list string);
  d_needsDecision : option (list string) }.

Record RhinoQPlanManifestTask := ManifestTask {
  t_key : field;
  t_name : field;
  t_version : field;
  t_adapter : field;
  t_runtime : field;
  t_scope : field;
  t_retry : option plan_retry;
  t_externalEffect : field;
  t_capability : option string;
  t_resources : option plan_resources;
  t_schedule : option plan_schedule;
  t_dataPath : option plan_data_path }.

Record plan_open := Open { op_capability : string; op_requiredBy : string; op_optional : option bool }.

Record RhinoQPlanCapabilityGraph := PlanGraph {
  pg_kind : field; pg_schemaVersion : field; pg_fingerprint : field;
  pg_links : option (list RhinoQCapabilityLink); pg_unresolvedOptional : option (list plan_open) }.

Record RhinoQPlanDeploymentIdentity := PlanDeployment {
  pd_kind : field; pd_schemaVersion : field; pd_app : field; pd_stage : field; pd_namespace : field;
  pd_region : option string; pd_target : option string; pd_tenantBoundary : field; pd_fingerprint : field }.

(** A task that is [None] is not an object; tasks that are [None] are not an array. *)
Record RhinoQPlanManifest := Manifest {
  f_kind : field;
  f_schemaVersion : field;
  f_profile : field;
  f_tasks : option (list (option RhinoQPlanManifestTask));
  f_capabilityGraph : option RhinoQPlanCapabilityGraph;
  f_deployment : option RhinoQPlanDeploymentIdentity }.

(** ** Errors *)

Inductive RhinoQCompilerPhase := Normalize | Validate | LinkPhase | Project.

#[global] Instance phase_eq_dec : EqDecision RhinoQCompilerPhase.
Proof. solve_decision. Defined.

(** The compiler's own error, with the Task it is about; or a method of a value that has none. *)
Inductive compile_error := PlanError (code : string) (phase : RhinoQCompilerPhase) (subject : option field) | NotAFunction.

Definition compiled := result compile_error.

Definition is_blank (f : field) : bool := match f with Text s => js_blank s | _ => true end.

(** [!value?.trim()] *)
Definition untrimmed (f : field) : compiled bool :=
  match f with Absent => Ok true | Text s => Ok (js_blank s) | _ => Err NotAFunction end.

(** [!a?.trim() || !b?.trim() || ..] *)
Fixpoint any_untrimmed (fs : list field) : compiled bool :=
  match fs with [] => Ok false | f :: fs => let? b := untrimmed f in if b then Ok true else any_untrimmed fs end.

Definition text (f : field) : string := match f with Text s => s | _ => "" end.

Definition trim_field (f : field) : field := match f with Text s => Text (js_trim s) | f => f end.

Definition positive (f : field) : bool := match f with Number z => (1 <=? z) && (z <=? MAX_SAFE_INTEGER) | _ => false end.

(** ** Normalize *)

Record NormalizedPlanManifest := Normal {
  n_profile : string;
  n_tasks : list (option RhinoQPlanManifestTask);
  n_capabilityGraph : option RhinoQPlanCapabilityGraph;
  n_deployment : option RhinoQPlanDeploymentIdentity }.

Definition normalizePlanManifest (manifest : option RhinoQPlanManifest) : compiled NormalizedPlanManifest :=
  match manifest with
  | None => Err (PlanError "RHINOQ_PLAN_SCHEMA_UNSUPPORTED" Normalize None)
  | Some m =>
      refuse (negb (bool_decide (f_schemaVersion m = Number 1))) (PlanError "RHINOQ_PLAN_SCHEMA_UNSUPPORTED" Normalize None) ;?
      refuse (is_blank (f_profile m)) (PlanError "RHINOQ_PLAN_PROFILE_REQUIRED" Normalize None) ;?
      match f_tasks m with
      | None => Err (PlanError "RHINOQ_PLAN_TASKS_REQUIRED" Normalize None)
      | Some tasks => Ok (Normal (js_trim (text (f_profile m))) tasks (f_capabilityGraph m) (f_deployment m))
      end
  end.

(** ** Validate *)

Definition validateDataPath (name : field) (d : plan_data_path) : compiled unit :=
  let invalid := PlanError "RHINOQ_PLAN_DATA_PATH_INVALID" Validate (Some name) in
  refuse (negb (bool_decide (d_schemaVersion d = Absent ∨ d_schemaVersion d = Number 1))) (PlanError "RHINOQ_PLAN_DATA_PATH_SCHEMA_UNSUPPORTED" Validate (Some name)) ;?
  let? w := untrimmed (d_workload d) in
  refuse w invalid ;?
  match d_input d, d_output d, d_needsDecision d with
  | Some i, Some o, Some _ =>
      let? u := any_untrimmed [i_transport i; i_queueCarries i; o_transport o] in
      refuse (u || negb (bool_decide (o_checksumRequired o = Bool true))) invalid
  | _, _, _ => Err invalid
  end.

Definition validateRetry (name : field) (r : option plan_retry) : compiled unit :=
  let invalid := PlanError "RHINOQ_PLAN_RETRY_INVALID" Validate (Some name) in
  match r with
  | None => Err invalid
  | Some r =>
      refuse (negb (bool_decide (y_mode r ∈ [Text "never"; Text "runtime"]))) invalid ;?
      refuse (bool_decide (y_mode r = Text "runtime") && negb (positive (y_maxAttempts r))) invalid
  end.

Definition cloneManifestTask (task : option RhinoQPlanManifestTask) : compiled RhinoQPlanManifestTask :=
  match task with
  | None => Err (PlanError "RHINOQ_PLAN_TASK_INVALID" Validate None)
  | Some t =>
      let? anonymous := any_untrimmed [t_key t; t_name t] in
      refuse anonymous (PlanError "RHINOQ_PLAN_TASK_IDENTITY_REQUIRED" Validate None) ;?
      let subject := Some (t_name t) in
      refuse (negb (positive (t_version t))) (PlanError "RHINOQ_PLAN_TASK_VERSION_INVALID" Validate subject) ;?
      refuse (existsb is_blank [t_adapter t; t_runtime t; t_scope t]) (PlanError "RHINOQ_PLAN_TASK_ROUTE_REQUIRED" Validate subject) ;?
      validateRetry (t_name t) (t_retry t) ;?
      refuse (match t_externalEffect t with Bool _ => false | _ => true end) (PlanError "RHINOQ_PLAN_EFFECT_INVALID" Validate subject) ;?
      match t_dataPath t with Some d => validateDataPath (t_name t) d | None => Ok tt end ;?
      Ok (ManifestTask (trim_field (t_key t)) (trim_field (t_name t)) (t_version t) (t_adapter t) (t_runtime t) (t_scope t) (t_retry t) (t_externalEffect t)
            (truthy (t_capability t)) (t_resources t) (t_schedule t) (t_dataPath t))
  end.

Definition key_of (t : RhinoQPlanManifestTask) : string := text (t_key t).
Definition name_of (t : RhinoQPlanManifestTask) : string := text (t_name t).

Definition unique (l : list string) : bool := bool_decide (length (new_set l) = length l).

Definition conflict : compile_error := PlanError "RHINOQ_PLAN_IDENTITY_CONFLICT" Validate None.

Definition validatePlanManifest (m : NormalizedPlanManifest) : compiled (list RhinoQPlanManifestTask) :=
  let? cloned := map_result cloneManifestTask (n_tasks m) in
  let tasks := sort_by key_of cloned in
  refuse (negb (unique (key_of <$> tasks))) conflict ;?
  refuse (negb (unique (name_of <$> tasks))) conflict ;?
  Ok tasks.

(** ** Link *)

Definition cloneCapabilityGraph (g : RhinoQPlanCapabilityGraph) : compiled RhinoQPlanCapabilityGraph :=
  let invalid := PlanError "RHINOQ_CAPABILITY_GRAPH_INVALID" LinkPhase None in
  refuse (negb (bool_decide (pg_kind g = Text "rhinoq-capability-graph") && bool_decide (pg_schemaVersion g = Number 1)
                && match pg_fingerprint g with Text _ => true | _ => false end)) invalid ;?
  match pg_links g, pg_unresolvedOptional g with
  | Some links, Some open => Ok (PlanGraph (Text "rhinoq-capability-graph") (Number 1) (pg_fingerprint g) (Some (sort_by l_capability links)) (Some open))
  | _, _ => Err invalid
  end.

Definition cloneDeployment (d : RhinoQPlanDeploymentIdentity) : compiled RhinoQPlanDeploymentIdentity :=
  let invalid := PlanError "RHINOQ_DEPLOYMENT_IDENTITY_INVALID" Project None in
  refuse (negb (bool_decide (pd_kind d = Text "rhinoq-deployment") && bool_decide (pd_schemaVersion d = Number 1))) invalid ;?
  let? u := any_untrimmed [pd_app d; pd_stage d; pd_namespace d] in
  refuse (u || negb (bool_decide (pd_tenantBoundary d = Text "single-tenant-process")) || match pd_fingerprint d with Text _ => false | _ => true end) invalid ;?
  Ok (PlanDeployment (Text "rhinoq-deployment") (Number 1) (pd_app d) (pd_stage d) (pd_namespace d) (truthy (pd_region d)) (truthy (pd_target d))
        (Text "single-tenant-process") (pd_fingerprint d)).

Definition optionally {A} (f : A → compiled A) (o : option A) : compiled (option A) :=
  match o with Some a => let? b := f a in Ok (Some b) | None => Ok None end.

Definition linkPlanManifest (m : NormalizedPlanManifest) : compiled (option RhinoQPlanCapabilityGraph * option RhinoQPlanDeploymentIdentity) :=
  let? graph := optionally cloneCapabilityGraph (n_capabilityGraph m) in
  let? deployment := optionally cloneDeployment (n_deployment m) in
  Ok (graph, deployment).

(** ** Project *)

Definition when (b : bool) (s : string) : list string := if b then [s] else [].

Definition taskRequirements (t : RhinoQPlanManifestTask) : list string :=
  ["adapter:" +:+ text (t_adapter t); "runtime:" +:+ text (t_runtime t); "scope:" +:+ text (t_scope t)] ++
  match t_resources t with
  | None => []
  | Some s =>
      match truthy (s_gpu s) with Some g => when (negb (bool_decide (g = "none"))) ("gpu:" +:+ g) | None => [] end ++
      match truthy (s_codec s) with Some c => ["codec:" +:+ c] | None => [] end ++
      match truthy (s_region s) with Some r => ["region:" +:+ r] | None => [] end ++
      match s_workspaceBytes s with Some n => ["workspace:" +:+ pretty n] | None => [] end
  end ++
  match t_dataPath t ≫= d_output with Some o => when (bool_decide (o_checksumRequired o = Bool true)) "output:checksum" | None => [] end.

Definition taskLimitations (t : RhinoQPlanManifestTask) : list string :=
  when (bool_decide (t_externalEffect t = Bool true)) (name_of t +:+ ": external effect requires application-owned idempotency and confirmation") ++
  when (bool_decide (i_transport <$> (t_dataPath t ≫= d_input) = Some (Text "private-reference"))) (name_of t +:+ ": input payload is reference-only; storage/provider access remains application-owned") ++
  when (bool_decide (o_transport <$> (t_dataPath t ≫= d_output) = Some (Text "stream-to-storage"))) (name_of t +:+ ": output storage lifecycle remains provider/application-owned").

Definition task_decisions (t : RhinoQPlanManifestTask) : list string := default [] (t_dataPath t ≫= d_needsDecision).

Definition named_decisions (ts : list RhinoQPlanManifestTask) : list string :=
  ts ≫= λ t, (λ d, name_of t +:+ ": " +:+ d) <$> task_decisions t.

Inductive plan_status := Ready | NeedsDecision | NotConfigured.

Definition status_of (needsDecision : list string) : plan_status := match needsDecision with [] => Ready | _ => NeedsDecision end.

Record unsigned_plan := UnsignedPlan {
  u_profile : string;
  u_status : plan_status;
  u_tasks : list RhinoQPlanManifestTask;
  u_capabilities : list string;
  u_requirements : list string;
  u_needsDecision : list string;
  u_limitations : list string;
  u_capabilityGraph : option RhinoQPlanCapabilityGraph;
  u_deployment : option RhinoQPlanDeploymentIdentity }.

Record RhinoQPlan := Plan { p_unsigned : unsigned_plan; p_fingerprint : string }.

Section compile.
Context (stringify : unsigned_plan → string).

Definition projectPlan (profile : string) (tasks : list RhinoQPlanManifestTask) (graph : option RhinoQPlanCapabilityGraph) (deployment : option RhinoQPlanDeploymentIdentity) : RhinoQPlan :=
  let u := UnsignedPlan profile (status_of (named_decisions tasks)) tasks (sorted_set ((λ t, default "task" (t_capability t)) <$> tasks))
             (sorted_set (tasks ≫= taskRequirements)) (named_decisions tasks) (sorted_set (tasks ≫= taskLimitations)) graph deployment in
  Plan u (stableFingerprint (stringify u)).

Definition compileValidatedRhinoQPlan (manifest : option RhinoQPlanManifest) : compiled RhinoQPlan :=
  let? normalized := normalizePlanManifest manifest in
  let? tasks := validatePlanManifest normalized in
  let? linked := linkPlanManifest normalized in
  Ok (projectPlan (n_profile normalized) tasks linked.1 linked.2).

(** ** Diagnostics *)

Record RhinoQCompilerDiagnostic := Diagnostic { g_code : string; g_phase : RhinoQCompilerPhase; g_subject : option field }.

Definition compilerDiagnostic (e : compile_error) : RhinoQCompilerDiagnostic :=
  match e with
  | PlanError code phase subject => Diagnostic code phase subject
  | NotAFunction => Diagnostic "RHINOQ_PLAN_INVALID" Normalize None
  end.

Inductive phase_status := Completed | Failed | NotRun.

Definition order : list RhinoQCompilerPhase := [Normalize; Validate; LinkPhase; Project].

Definition phase_index (p : RhinoQCompilerPhase) : nat := match p with Normalize => 0 | Validate => 1 | LinkPhase => 2 | Project => 3 end.

Definition phaseTrace (failed : option RhinoQCompilerPhase) : list (RhinoQCompilerPhase * phase_status) :=
  (λ p, (p, match failed with
            | None => Completed
            | Some f => match Nat.compare (phase_index p) (phase_index f) with Lt => Completed | Eq => Failed | Gt => NotRun end
            end)) <$> order.

Record RhinoQPlanCompilation := Compilation {
  k_valid : bool; k_plan : option RhinoQPlan; k_diagnostics : list RhinoQCompilerDiagnostic; k_phases : list (RhinoQCompilerPhase * phase_status) }.

Definition compileRhinoQPlanResult (input : option RhinoQPlanManifest) : RhinoQPlanCompilation :=
  match compileValidatedRhinoQPlan input with
  | Ok plan => Compilation true (Some plan) [] (phaseTrace None)
  | Err e => let d := compilerDiagnostic e in Compilation false None [d] (phaseTrace (Some (g_phase d)))
  end.

(** The diagnostic that is thrown, or the plan *)
Definition compileRhinoQPlan (manifest : option RhinoQPlanManifest) : result (option RhinoQCompilerDiagnostic) RhinoQPlan :=
  let k := compileRhinoQPlanResult manifest in
  match k_plan k with Some plan => Ok plan | None => Err (head (k_diagnostics k)) end.

(** ** Adapting and inspecting *)

Inductive plan_source := JsonPlan | LegacyManifest.
Inductive confidence := High | Medium | Low.

Record RhinoQPlanAdapterResult := Adapted { ad_source : plan_source; ad_confidence : confidence; ad_plan : option RhinoQPlan; ad_legacyWarning : bool; ad_unsupported : bool }.

Definition adaptRhinoQPlanJson (input : option RhinoQPlanManifest) : RhinoQPlanAdapterResult :=
  let canonical := bool_decide (f_kind <$> input = Some (Text "rhinoq-plan")) in
  let source := if canonical then JsonPlan else LegacyManifest in
  match k_plan (compileRhinoQPlanResult input) with
  | Some plan => Adapted source (if canonical then High else Medium) (Some plan) (negb canonical) false
  | None => Adapted source Low None false true
  end.

Record data_path_view := DataPathView { dv_workload : field; dv_inputTransport : option field; dv_outputTransport : option field; dv_checksumRequired : option field }.

Record RhinoQPlanTaskInspection := TaskInspection {
  v_key : field; v_name : string; v_factory : string; v_version : field; v_readiness : plan_status; v_needsDecision : list string;
  v_adapter : field; v_runtime : field; v_scope : field; v_retry : option plan_retry; v_externalEffect : field;
  v_resources : option plan_resources; v_schedule : option plan_schedule; v_dataPath : option data_path_view }.

Record RhinoQPlanInspection := Inspection {
  w_status : plan_status; w_profile : option string; w_tasks : list RhinoQPlanTaskInspection; w_needsDecision : list string;
  w_deployment : option (field * field * field * field * field);
  w_capabilityLinks : option (list (string * string * list string * list string * list string));
  w_unresolvedOptional : option (list (string * string)) }.

Definition inspect_task (t : RhinoQPlanManifestTask) : RhinoQPlanTaskInspection :=
  TaskInspection (t_key t) (name_of t) (default "task" (t_capability t)) (t_version t) (status_of (task_decisions t)) (task_decisions t)
    (t_adapter t) (t_runtime t) (t_scope t) (t_retry t) (t_externalEffect t) (t_resources t) (t_schedule t)
    ((λ d, DataPathView (d_workload d) (i_transport <$> d_input d) (o_transport <$> d_output d) (o_checksumRequired <$> d_output d)) <$> t_dataPath t).

(** The manifest is of its declared type: profile, tasks, graph and deployment. *)
Definition inspectRhinoQPlan (manifest : option (string * list RhinoQPlanManifestTask * option RhinoQPlanCapabilityGraph * option RhinoQPlanDeploymentIdentity)) : RhinoQPlanInspection :=
  match manifest with
  | None => Inspection NotConfigured None [] ["start the typed application compiler to expose a plan"] None None None
  | Some (profile, ts, graph, deployment) =>
      let tasks : list RhinoQPlanTaskInspection := inspect_task <$> ts in
      let needsDecision : list string := tasks ≫= λ t, (λ d, v_name t +:+ ": " +:+ d) <$> v_needsDecision t in
      Inspection (status_of needsDecision) (Some profile) tasks needsDecision
        ((λ d, (pd_app d, pd_stage d, pd_namespace d, pd_fingerprint d, pd_tenantBoundary d)) <$> deployment)
        (graph ≫= λ g, (λ ls : list RhinoQCapabilityLink, (λ l, (l_capability l, l_provider l, l_requiredBy l, lb_secretRefs (l_binding l), lb_permissions (l_binding l))) <$> ls) <$> pg_links g)
        (graph ≫= λ g, (λ os : list plan_open, (λ o, (op_capability o, op_requiredBy o)) <$> os) <$> pg_unresolvedOptional g)
  end.
End compile.

(** ** Deployment identities *)

Inductive deployment_error := BadSegment (field : string) | BadLabel (field : string) | BadBoundary | BadIdentity.

Definition dns_char (c : ascii) : bool := alnum c || Ascii.eqb c "-".

Fixpoint last_char (s : string) : option ascii := match s with EmptyString => None | String c EmptyString => Some c | String _ s => last_char s end.

(** [/^[a-z0-9][a-z0-9-]{0,62}$/.test(s) && !s.endsWith('-')] *)
Definition dns_safe (s : string) : bool :=
  match s with EmptyString => false | String c rest => alnum c && all_chars dns_char rest && (String.length rest <=? 62)%nat end
  && negb (bool_decide (last_char s = Some "-"%char)).

Definition segment (value : option string) (field : string) : result deployment_error string :=
  match value with
  | None => Err (BadSegment field)
  | Some v => let n := to_lower (js_trim v) in if dns_safe n then Ok n else Err (BadSegment field)
  end.

Definition label_char (c : ascii) : bool := negb (bool_decide (nat_of_ascii c ∈ [0; 10; 13]%nat)).

Definition optionalLabel (value : option string) (field : string) : result deployment_error (option string) :=
  match value with
  | None => Ok None
  | Some v => let n := js_trim v in if bool_decide (n = "") || (128 <? Z.of_nat (String.length n)) || negb (all_chars label_char n) then Err (BadLabel field) else Ok (Some n)
  end.

Record unsigned_deployment := UnsignedDeployment { e_app : string; e_stage : string; e_namespace : string; e_region : option string; e_target : option string }.

Record RhinoQDeploymentIdentity := DeploymentIdentity { e_unsigned : unsigned_deployment; e_fingerprint : string }.

Definition defineRhinoQDeployment (stringify : unsigned_deployment → string) (app stage region target tenantBoundary : option string) : result deployment_error RhinoQDeploymentIdentity :=
  let? app := segment app "app" in
  let? stage := segment stage "stage" in
  let? region := optionalLabel region "region" in
  let? target := optionalLabel target "target" in
  refuse (negb (bool_decide (default "single-tenant-process" tenantBoundary = "single-tenant-process"))) BadBoundary ;?
  let u := UnsignedDeployment app stage (app +:+ "-" +:+ stage) (truthy region) (truthy target) in
  Ok (DeploymentIdentity u (stableFingerprint (stringify u))).

Definition rhinoQDeploymentResource (identity : RhinoQPlanDeploymentIdentity) (resource : option string) : result deployment_error string :=
  refuse (negb (bool_decide (pd_kind identity = Text "rhinoq-deployment") && bool_decide (pd_schemaVersion identity = Number 1))) BadIdentity ;?
  let? r := segment resource "resource" in
  Ok (text (pd_namespace identity) +:+ "-" +:+ r).
End Plans.
