(* ===== verification/PlanFacts.v ===== *)
(** * What the plan compiler promises

    A plan does not depend on the order of the manifest; compiling a plan again gives the
    same plan; the inspection of a plan agrees with it; a linked capability graph and a
    defined deployment pass through unchanged. Namespaces of deployments can collide. *)

From stdpp Require Import base gmap strings list pretty sorting.
From Stdlib Require Import Ascii ZArith Lia.
From S2P Require Import Prelude GuardedRecovery Sorting CapabilityLinks Plans.

Module PlanFacts.
Import CapabilityLinks CapabilityLinkFacts Plans.
Open Scope result_scope.

(** Takes a sequence of checks that passed apart. *)
Ltac checks_passed :=
  repeat match goal with
  | H : rbind _ _ = Ok _ |- _ => apply rbind_ok in H as (? & ? & ?)
  | H : refuse _ _ = Ok _ |- _ => apply refuse_ok in H
  | H : Ok _ = Ok _ |- _ => injection H as H; subst
  | u : unit |- _ => destruct u
  end.

(** ** Texts *)

Lemma js_blank_trim s : js_blank (js_trim s) = js_blank s.
Proof. unfold js_blank. by rewrite js_trim_idemp. Qed.

Lemma truthy_idemp o : truthy (truthy o) = truthy o.
Proof. destruct o as [s|]; [|done]. cbn. case_bool_decide as E; [done|]. cbn. by rewrite bool_decide_eq_false_2. Qed.

Lemma trim_field_idemp f : trim_field (trim_field f) = trim_field f.
Proof. destruct f; cbn; [done| |done..]. by rewrite js_trim_idemp. Qed.

Lemma untrimmed_trim f : untrimmed (trim_field f) = untrimmed f.
Proof. destruct f; cbn; [done| |done..]. by rewrite js_blank_trim. Qed.

(** ** Cloning again changes nothing *)

Lemma validateRetry_subject n n' r : validateRetry n r = Ok tt → validateRetry n' r = Ok tt.
Proof. destruct r as [r|]; [|done]. cbn. unfold refuse. destruct (negb _), (_ && _); done. Qed.

Lemma validateDataPath_subject n n' d : validateDataPath n d = Ok tt → validateDataPath n' d = Ok tt.
Proof.
  unfold validateDataPath, refuse, rbind. by repeat case_match.
Qed.

Lemma cloned_again t t' : cloneManifestTask t = Ok t' → cloneManifestTask (Some t') = Ok t'.
Proof.
  destruct t as [t|]; [|done]. unfold cloneManifestTask. intros H. checks_passed.
  repeat match goal with H : ?b = _ |- context [refuse ?b] => rewrite H end. cbn -[validateRetry validateDataPath any_untrimmed].
  match goal with H : any_untrimmed _ = Ok _ |- _ => rename H into Ha end.
  assert (any_untrimmed [trim_field (t_key t); trim_field (t_name t)] = Ok false) as -> by (cbn in Ha |- *; rewrite !untrimmed_trim; congruence).
  cbn -[validateRetry validateDataPath]. repeat match goal with H : negb (positive _) = _ |- _ => rewrite H; clear H | H : existsb _ _ = _ |- _ => cbn -[validateRetry] in H; rewrite H; clear H end.
  cbn -[validateRetry validateDataPath].
  match goal with H : validateRetry _ _ = Ok _ |- _ => rewrite (validateRetry_subject _ _ _ H) end. cbn -[validateDataPath].
  match goal with H : match t_externalEffect t with _ => _ end = false |- _ => rewrite H end. cbn -[validateDataPath].
  rewrite !trim_field_idemp, truthy_idemp. destruct (t_dataPath t) as [d|]; [|done].
  match goal with H : validateDataPath _ _ = Ok _ |- _ => rewrite (validateDataPath_subject _ _ _ H) end. done.
Qed.

Lemma cloned_all ts cloned : map_result cloneManifestTask ts = Ok cloned → Forall (λ t, cloneManifestTask (Some t) = Ok t) cloned.
Proof. intros H%map_result_ok. induction H; constructor; [by eapply cloned_again|done]. Qed.

Lemma graph_cloned_again g g' : cloneCapabilityGraph g = Ok g' → cloneCapabilityGraph g' = Ok g'.
Proof.
  unfold cloneCapabilityGraph. intros H. checks_passed. destruct (pg_links g), (pg_unresolvedOptional g); simplify_eq. cbn.
  match goal with H : negb _ = false |- _ => rewrite negb_false_iff, !andb_true_iff in H; destruct H as [_ ->] end. cbn. by rewrite sort_by_idemp.
Qed.

Lemma deployment_cloned_again d d' : cloneDeployment d = Ok d' → cloneDeployment d' = Ok d'.
Proof.
  unfold cloneDeployment. intros H. checks_passed. cbn -[any_untrimmed]. match goal with H : any_untrimmed _ = _ |- _ => rewrite H end. cbn.
  match goal with H : _ || _ || _ = false |- _ => apply orb_false_iff in H as [[-> _]%orb_false_iff ->] end. cbn. by rewrite !truthy_idemp.
Qed.

Lemma optionally_again {A} (f : A → compiled A) o o' : (∀ a b, f a = Ok b → f b = Ok b) → optionally f o = Ok o' → optionally f o' = Ok o'.
Proof.
  intros Hf. destruct o as [a|]; cbn; [|by intros [= <-]]. intros H. checks_passed. cbn. by erewrite Hf.
Qed.

(** ** The phases in order *)

Lemma unique_spec l : unique l = true ↔ NoDup l.
Proof. unfold unique. rewrite bool_decide_eq_true. apply new_set_size. Qed.

Lemma validate_inv m ts :
  validatePlanManifest m = Ok ts ↔ ∃ cloned, map_result cloneManifestTask (n_tasks m) = Ok cloned ∧ ts = sort_by key_of cloned ∧ NoDup (key_of <$> cloned) ∧ NoDup (name_of <$> cloned).
Proof.
  unfold validatePlanManifest. setoid_rewrite rbind_ok. split.
  - intros (cloned & Hc & H). checks_passed. exists cloned.
    repeat match goal with H : negb (unique _) = false |- _ => apply negb_false_iff, unique_spec in H; rewrite (sort_by_perm key_of cloned) in H end. done.
  - intros (cloned & Hc & -> & H1 & H2). exists cloned. split; [done|].
    rewrite (proj2 (unique_spec (key_of <$> sort_by key_of cloned))) by by rewrite (sort_by_perm key_of cloned).
    rewrite (proj2 (unique_spec (name_of <$> sort_by key_of cloned))) by by rewrite (sort_by_perm key_of cloned). done.
Qed.
Lemma normalize_inv m n :
  normalizePlanManifest m = Ok n ↔
  ∃ f profile, m = Some f ∧ f_schemaVersion f = Number 1 ∧ f_profile f = Text profile ∧ js_blank profile = false ∧
    f_tasks f = Some (n_tasks n) ∧ n = Normal (js_trim profile) (n_tasks n) (f_capabilityGraph f) (f_deployment f).
Proof.
  destruct m as [f|]; [|cbn; split; [done|naive_solver]]. unfold normalizePlanManifest. split.
  - intros H. checks_passed. destruct (f_tasks f) eqn:Et; [|done]. simplify_eq. destruct (f_profile f) eqn:Ep; try done. exists f. eexists. split_and!; try done.
    match goal with H : negb _ = false |- _ => by apply negb_false_iff, bool_decide_eq_true in H end.
  - intros (? & profile & [= <-] & Hs & Hp & Hb & Ht & Hn). rewrite Hs, Hp, Ht. cbn. by rewrite Hb, Hn.
Qed.

Section plans.
Context (stringify : unsigned_plan → string).

Lemma compile_inv m p :
  compileValidatedRhinoQPlan stringify m = Ok p ↔
  ∃ n ts graph deployment, normalizePlanManifest m = Ok n ∧ validatePlanManifest n = Ok ts ∧
    optionally cloneCapabilityGraph (n_capabilityGraph n) = Ok graph ∧ optionally cloneDeployment (n_deployment n) = Ok deployment ∧
    p = projectPlan stringify (n_profile n) ts graph deployment.
Proof.
  unfold compileValidatedRhinoQPlan, linkPlanManifest. split.
  - intros H. checks_passed. cbn. eauto 9.
  - intros (n & ts & g & d & -> & Ht & Hg & Hd & ->). cbn -[validatePlanManifest optionally]. rewrite Ht. cbn -[optionally]. by rewrite Hg, Hd.
Qed.

(** The plan, its fingerprint included, does not depend on the order in which the
    manifest lists its Tasks. *)
Theorem plan_order_independent kind version profile tasks tasks' graph deployment p :
  tasks ≡ₚ tasks' →
  compileValidatedRhinoQPlan stringify (Some (Manifest kind version profile (Some tasks) graph deployment)) = Ok p →
  compileValidatedRhinoQPlan stringify (Some (Manifest kind version profile (Some tasks') graph deployment)) = Ok p.
Proof.
  intros Hp (n & ts & g & d & Hn & Ht & Hg & Hd & ->)%compile_inv. apply normalize_inv in Hn as (f & pr & [= <-] & Hv & Hpr & Hb & [= Et] & En). cbn in *.
  apply validate_inv in Ht as (cloned & Hc & -> & Hk & Hm). rewrite <- Et in Hc. destruct (map_result_perm _ _ _ _ Hp Hc) as (cloned' & Hc' & Pc).
  apply compile_inv. exists (Normal (js_trim pr) tasks' graph deployment), (sort_by key_of cloned), g, d. rewrite En in Hg, Hd |- *. cbn in Hg, Hd. split_and!; try done.
  - apply normalize_inv. by exists (Manifest kind version profile (Some tasks') graph deployment), pr.
  - apply validate_inv. exists cloned'. split_and!; [done|by apply sort_by_unique|by rewrite <- Pc..].
Qed.

(** A plan read as a manifest. *)
Definition manifest_of (p : RhinoQPlan) : RhinoQPlanManifest :=
  let u := p_unsigned p in
  Manifest (Text "rhinoq-plan") (Number 1) (Text (u_profile u)) (Some (Some <$> u_tasks u)) (u_capabilityGraph u) (u_deployment u).

(** C38. Compiling a plan again gives the same plan, and the adapter trusts it. *)
Theorem plan_recompiles m p :
  compileValidatedRhinoQPlan stringify m = Ok p →
  compileValidatedRhinoQPlan stringify (Some (manifest_of p)) = Ok p ∧
  adaptRhinoQPlanJson stringify (Some (manifest_of p)) = Adapted JsonPlan High (Some p) false false.
Proof.
  intros (n & ts & g & d & Hn & Ht & Hg & Hd & ->)%compile_inv.
  assert (compileValidatedRhinoQPlan stringify (Some (manifest_of (projectPlan stringify (n_profile n) ts g d))) = Ok (projectPlan stringify (n_profile n) ts g d)) as E.
  { apply normalize_inv in Hn as (f & pr & -> & Hv & Hpr & Hb & Et & En). apply validate_inv in Ht as (cloned & Hc & -> & Hk & Hm).
    assert (map_result cloneManifestTask (Some <$> sort_by key_of cloned) = Ok (sort_by key_of cloned)) as Hc'.
    { apply map_result_ok, Forall2_fmap_l. assert (Forall (λ t, cloneManifestTask (Some t) = Ok t) (sort_by key_of cloned)) as HF.
      { rewrite (sort_by_perm key_of). by eapply cloned_all. }
      induction HF; by constructor. }
    rewrite En in Hg, Hd |- *. cbn in Hg, Hd.
    apply compile_inv. exists (Normal (js_trim pr) (Some <$> sort_by key_of cloned) g d), (sort_by key_of cloned), g, d. split_and!; [..|done].
    - apply normalize_inv. eexists _, (js_trim pr). split; [done|]. cbn. rewrite js_blank_trim, js_trim_idemp. done.
    - apply validate_inv. exists (sort_by key_of cloned). split_and!; [done|by rewrite sort_by_idemp|by rewrite (sort_by_perm key_of cloned)..].
    - by eapply optionally_again; [apply graph_cloned_again|].
    - by eapply optionally_again; [apply deployment_cloned_again|]. }
  split; [done|]. unfold adaptRhinoQPlanJson, compileRhinoQPlanResult. by rewrite E.
Qed.

(** ** Diagnostics *)

(** A compilation has a plan and no diagnostic, or one diagnostic and no plan, and then
    the phases before the one it names completed and those after it did not run. *)
Theorem compilation_reports input :
  let k := compileRhinoQPlanResult stringify input in
  (k_valid k = true ∧ (∃ p, k_plan k = Some p ∧ compileValidatedRhinoQPlan stringify input = Ok p) ∧ k_diagnostics k = [] ∧ k_phases k = (λ p, (p, Completed)) <$> order) ∨
  (k_valid k = false ∧ k_plan k = None ∧ ∃ d before after,
     k_diagnostics k = [d] ∧ k_phases k = ((λ p, (p, Completed)) <$> before) ++ (g_phase d, Failed) :: ((λ p, (p, NotRun)) <$> after) ∧ before ++ g_phase d :: after = order).
Proof.
  cbn. unfold compileRhinoQPlanResult. destruct (compileValidatedRhinoQPlan stringify input) as [p|e]; cbn; [left; split_and!; by eauto|]. right. split_and!; [done..|].
  exists (compilerDiagnostic e). destruct (g_phase (compilerDiagnostic e)) eqn:E; cbn.
  - by exists [], [Validate; LinkPhase; Project].
  - by exists [Normalize], [LinkPhase; Project].
  - by exists [Normalize; Validate], [Project].
  - by exists [Normalize; Validate; LinkPhase], [].
Qed.

(** ** Inspection *)

(** The inspection of a plan shows the status and the open decisions of the plan. *)
Theorem inspection_agrees m p :
  compileValidatedRhinoQPlan stringify m = Ok p →
  let u := p_unsigned p in
  let v := inspectRhinoQPlan (Some (u_profile u, u_tasks u, u_capabilityGraph u, u_deployment u)) in
  w_status v = u_status u ∧ w_needsDecision v = u_needsDecision u ∧ (u_status u = Ready ↔ Forall (λ t, v_readiness t = Ready) (w_tasks v)).
Proof.
  intros (n & ts & g & d & _ & _ & _ & _ & ->)%compile_inv. cbn.
  assert ((inspect_task <$> ts) ≫= (λ t, (λ d0, v_name t +:+ ": " +:+ d0) <$> v_needsDecision t) = named_decisions ts) as -> by (induction ts as [|t ts IH]; cbn; [done|]; by rewrite IH).
  split_and!; [done..|]. rewrite Forall_fmap. unfold named_decisions. induction ts as [|t ts IH]; cbn; [by split|].
  rewrite Forall_cons. cbn. rewrite <- IH. destruct (task_decisions t) as [|x l]; cbn; [tauto|]. split; [done|]. by intros [? _].
Qed.
End plans.

(** ** What a plan carries *)

(** A linked graph as the plan's manifest holds it. *)
Definition plan_graph (g : RhinoQCapabilityGraph) : RhinoQPlanCapabilityGraph :=
  PlanGraph (Text "rhinoq-capability-graph") (Number 1) (Text (g_fingerprint g)) (Some (u_links (g_unsigned g)))
    (Some ((λ r, Open (q_capability r) (q_requiredBy r) (if q_optional r then Some true else None)) <$> u_unresolvedOptional (g_unsigned g))).

Lemma sorted_filter (l : list string) (P : string → Prop) `{∀ x, Decision (P x)} : StronglySorted (key_le id) l → StronglySorted (key_le id) (filter P l).
Proof.
  induction 1 as [|x l _ IH Hx]; [constructor|]. rewrite filter_cons. case_decide; [|done]. constructor; [done|].
  rewrite Forall_forall in Hx |- *. intros y [_ Hy]%list_elem_of_filter. auto.
Qed.

Lemma sorted_fmap {A} (key : A → string) l : StronglySorted (key_le id) (key <$> l) → StronglySorted (key_le key) l.
Proof. induction l as [|x l IH]; cbn; [constructor|]. intros [H1 H2]%StronglySorted_inv. constructor; [auto|]. by rewrite Forall_fmap in H2. Qed.

(** A graph that was linked passes through the plan compiler unchanged. *)
Theorem linked_graph_kept json components requirements g :
  linkRhinoQCapabilities json components requirements = Ok g → cloneCapabilityGraph (plan_graph g) = Ok (plan_graph g).
Proof.
  intros (normal & cs & checks & qs & linked & _ & _ & _ & _ & _ & Hl & ->)%link_inv.
  assert (sort_by l_capability linked.1 = linked.1) as E.
  { apply sort_by_id, sorted_fmap. destruct (link_each_only _ _ _ _ Hl) as [-> _]. apply sorted_filter, sort_by_sorted. }
  unfold cloneCapabilityGraph, plan_graph. cbn -[sort_by]. by rewrite E.
Qed.

(** ** Deployment identities *)

Definition plan_deployment (e : RhinoQDeploymentIdentity) : RhinoQPlanDeploymentIdentity :=
  let u := e_unsigned e in
  PlanDeployment (Text "rhinoq-deployment") (Number 1) (Text (e_app u)) (Text (e_stage u)) (Text (e_namespace u)) (e_region u) (e_target u) (Text "single-tenant-process") (Text (e_fingerprint e)).

Lemma dns_char_visible c : dns_char c = true → is_js_space c = false.
Proof. destruct c as [[] [] [] [] [] [] [] []]; vm_compute; done. Qed.

Lemma trim_no_space s : all_chars (λ c, negb (is_js_space c)) s = true → js_trim s = s.
Proof.
  unfold js_trim, trim. intros Hs. assert (ltrim is_js_space s = s) as -> by (destruct s as [|c s]; [done|]; cbn in *; by apply andb_true_iff in Hs as [->%negb_true_iff _]).
  induction s as [|c s IH]; [done|]. cbn in Hs |- *. apply andb_true_iff in Hs as [Hc%negb_true_iff Hs]. rewrite (IH Hs). destruct s; [by rewrite Hc|done].
Qed.

Lemma all_chars_app p a b : all_chars p (a +:+ b) = all_chars p a && all_chars p b.
Proof. induction a as [|c a IH]; [done|]. rewrite append_String. cbn. by rewrite IH, andb_assoc. Qed.

Lemma text_length_app a b : String.length (a +:+ b) = (String.length a + String.length b)%nat.
Proof. induction a as [|c a IH]; [done|]. rewrite append_String. cbn. by rewrite IH. Qed.

Lemma all_chars_mono (p q : ascii → bool) s : (∀ c, p c = true → q c = true) → all_chars p s = true → all_chars q s = true.
Proof. intros H. induction s as [|c s IH]; cbn; [done|]. intros [Hc Hs]%andb_true_iff. by rewrite (H _ Hc), IH. Qed.

Lemma segment_ok v f s : segment v f = Ok s → s ≠ "" ∧ all_chars dns_char s = true ∧ (String.length s ≤ 63)%nat.
Proof.
  unfold segment. destruct v as [v|]; [|done]. destruct (dns_safe _) eqn:E; [|done]. intros [= <-]. destruct (to_lower (js_trim v)) as [|c s]; [done|].
  unfold dns_safe in E. rewrite !andb_true_iff, Nat.leb_le in E. destruct E as [[[Hc Hs] Hl] _]. cbn. split_and!; [done| |lia]. unfold dns_char at 1. by rewrite Hc.
Qed.

Lemma dns_not_blank s : s ≠ "" → all_chars dns_char s = true → js_blank s = false.
Proof.
  intros Hne Hs. unfold js_blank. rewrite trim_no_space; [by apply bool_decide_eq_false|].
  eapply all_chars_mono; [|exact Hs]. intros c Hc. by rewrite dns_char_visible.
Qed.

(** A deployment that was defined passes through the plan compiler unchanged, and its
    namespace is a word of lower-case letters, digits and dashes of at most 127. *)
Theorem deployment_kept json app stage region target boundary e :
  defineRhinoQDeployment json app stage region target boundary = Ok e →
  cloneDeployment (plan_deployment e) = Ok (plan_deployment e) ∧
  all_chars dns_char (e_namespace (e_unsigned e)) = true ∧ (String.length (e_namespace (e_unsigned e)) ≤ 127)%nat.
Proof.
  unfold defineRhinoQDeployment. intros H. checks_passed.
  repeat match goal with H : segment _ _ = Ok _ |- _ => apply segment_ok in H as (? & ? & ?) end.
  match goal with |- context [?a +:+ "-" +:+ ?b] => assert (all_chars dns_char (a +:+ "-" +:+ b) = true) as Hn by (rewrite !all_chars_app; by repeat (apply andb_true_iff; split)) end.
  split_and!; [|done|cbn [e_unsigned e_namespace]; rewrite !text_length_app; cbn [String.length]; lia].
  unfold cloneDeployment. cbn -[any_untrimmed String.append]. cbn [any_untrimmed untrimmed]. rewrite !dns_not_blank; try done.
  - cbn. by rewrite !truthy_idemp.
  - by destruct x.
Qed.

(** Two different deployments can have one namespace: nothing marks where the
    application ends and the stage begins. *)
Theorem deployment_namespaces_collide json :
  ∃ e e', defineRhinoQDeployment json (Some "shop") (Some "eu-prod") None None None = Ok e ∧
    defineRhinoQDeployment json (Some "shop-eu") (Some "prod") None None None = Ok e' ∧
    e_app (e_unsigned e) ≠ e_app (e_unsigned e') ∧
    ∀ r, rhinoQDeploymentResource (plan_deployment e) r = rhinoQDeploymentResource (plan_deployment e') r.
Proof.
  set (shop := UnsignedDeployment "shop" "eu-prod" "shop-eu-prod" None None). set (eu := UnsignedDeployment "shop-eu" "prod" "shop-eu-prod" None None).
  by exists (DeploymentIdentity shop (stableFingerprint (json shop))), (DeploymentIdentity eu (stableFingerprint (json eu))).
Qed.
(** ** A manifest *)

Definition sample_task (key name : string) : RhinoQPlanManifestTask :=
  ManifestTask (Text key) (Text name) (Number 1) (Text "bullmq") (Text "bullmq") (Text "jobs") (Some (Retry (Text "runtime") (Number 3))) (Bool true) (Some "media")
    (Some (Resources None None None (Some 4096) None (Some "none") None (Some "h264"))) None
    (Some (DataPath (Number 1) (Text "media") (Some (Input (Text "private-reference") None (Text "private-reference"))) (Some (Output (Text "stream-to-storage") (Bool true)))
       None None None (Some ["choose a region"]))).

Definition sample_manifest : RhinoQPlanManifest :=
  Manifest Absent (Number 1) (Text " prod ") (Some [Some (sample_task "b" " resize "); Some (sample_task " a" "export")]) None None.

Definition sample_plan : RhinoQPlan :=
  match compileValidatedRhinoQPlan u_profile (Some sample_manifest) with Ok p => p | Err _ => Plan (UnsignedPlan "" Ready [] [] [] [] [] None None) "" end.

Lemma plan_recompiles_witness : compileValidatedRhinoQPlan u_profile (Some (manifest_of sample_plan)) = Ok sample_plan.
Proof. apply (plan_recompiles u_profile (Some sample_manifest) sample_plan). by vm_compute. Defined.

Lemma plan_order_independent_witness :
  compileValidatedRhinoQPlan u_profile (Some (Manifest Absent (Number 1) (Text " prod ") (Some [Some (sample_task " a" "export"); Some (sample_task "b" " resize ")]) None None)) = Ok sample_plan.
Proof. eapply (plan_order_independent u_profile); [apply Permutation_swap|]. by vm_compute. Defined.
End PlanFacts.
