(* ===== verification/DataPaths.v ===== *)
(** * Data paths

    [tasks/data-path.ts]: how bytes travel for a workload - in the queue's payload or by
    reference, in how many parts - compiled from sizes and provider bounds; with what the
    plan guarantees.

    Sizes are integers. The quotients of safe integers round to doubles whose floor and
    ceiling are those of the exact quotient. *)

From stdpp Require Import base strings list.
From Stdlib Require Import ZArith Lia.
From S2P Require Import Prelude Sorting CapabilityLinks Plans.

Module DataPaths.
Import CapabilityLinks.
Open Scope result_scope.

Inductive RhinoQDataPathWorkload := TaskWork | BatchWork | MediaWork | ArtifactWork | EffectWork.

#[global] Instance workload_eq_dec : EqDecision RhinoQDataPathWorkload.
Proof. solve_decision. Defined.

Record RhinoQDataPathProviderBounds := ProviderBounds {
  b_supportsMultipart : bool; b_codecs : option (list string);
  b_minPartBytes : option Z; b_maxPartBytes : option Z; b_maxParts : option Z }.

Record RhinoQDataPathPlannerInput := PlannerInput {
  i_workload : RhinoQDataPathWorkload;
  i_payloadBytes : option Z; i_outputBytes : option Z; i_memoryBytes : option Z;
  i_workspaceBytes : option Z; i_diskFreeBytes : option Z; i_minDiskFreeBytes : option Z;
  i_gpu : option string; i_region : option string; i_codec : option string;
  i_provider : option RhinoQDataPathProviderBounds }.

Inductive input_transport := Inline | InputReference.
Inductive output_transport := OutputReference | StreamToStorage.

(** What the host is told was decided, and what it has to decide. *)
Inductive decision := InlineBounded | QueueCarriesReference | OutputStreams | ResultByReference | CapacityGates.
Inductive open_decision := MultipartUnsupported | PayloadUnknown | DiskUnobserved | DiskBelowMinimum | GpuUnproven | RegionUnproven | CodecUnproven.

Record multipart := MultipartPlan { m_partBytes : Z; m_maxParts : Z; m_concurrency : Z }.

Record admission := AdmissionPlan {
  a_workspaceBytes : option Z; a_diskFreeBytes : option Z; a_minDiskFreeBytes : option Z;
  a_gpu : option string; a_region : option string; a_codec : option string }.

Record RhinoQDataPathPlan := DataPathPlan {
  p_workload : RhinoQDataPathWorkload;
  p_input : input_transport;
  p_output : output_transport;
  p_multipart : option multipart;
  p_admission : admission;
  p_decisions : list decision;
  p_needsDecision : list open_decision }.

Inductive path_error := NotSafeSize (name : string) | MemoryTooSmall | NotPositive (name : string) | MinAboveMax | BadCodecs | BadLabel (name : string) | ExceedsBounds.

Definition MIB : Z := 1024 * 1024.
Definition RHINOQ_INLINE_PAYLOAD_LIMIT_BYTES : Z := 64 * 1024.
Definition DEFAULT_MEMORY_BYTES : Z := 64 * MIB.
Definition DEFAULT_MIN_PART_BYTES : Z := 5 * MIB.
Definition DEFAULT_MAX_PART_BYTES : Z := 64 * MIB.
Definition DEFAULT_MAX_PARTS : Z := 10000.

Definition ceil (a b : Z) : Z := - (- a / b).

(** ** Validation *)

Definition at_least (low : Z) (v : option Z) : bool := match v with Some z => (low <=? z) && (z <=? MAX_SAFE_INTEGER) | None => true end.

Fixpoint check_numbers (low : Z) (e : string → path_error) (l : list (string * option Z)) : result path_error unit :=
  match l with [] => Ok tt | p :: l => refuse (negb (at_least low p.2)) (e p.1) ;? check_numbers low e l end.

Fixpoint check_labels (l : list (string * option string)) : result path_error unit :=
  match l with [] => Ok tt | p :: l => refuse (match p.2 with Some s => js_blank s | None => false end) (BadLabel p.1) ;? check_labels l end.

Definition validateProvider (b : RhinoQDataPathProviderBounds) : result path_error unit :=
  check_numbers 1 NotPositive [("minPartBytes", b_minPartBytes b); ("maxPartBytes", b_maxPartBytes b); ("maxParts", b_maxParts b)] ;?
  refuse (match b_minPartBytes b, b_maxPartBytes b with Some lo, Some hi => hi <? lo | _, _ => false end) MinAboveMax ;?
  refuse (match b_codecs b with Some cs => existsb js_blank cs | None => false end) BadCodecs.

Definition validateInput (i : RhinoQDataPathPlannerInput) : result path_error unit :=
  check_numbers 0 NotSafeSize [("payloadBytes", i_payloadBytes i); ("outputBytes", i_outputBytes i); ("memoryBytes", i_memoryBytes i);
    ("workspaceBytes", i_workspaceBytes i); ("diskFreeBytes", i_diskFreeBytes i); ("minDiskFreeBytes", i_minDiskFreeBytes i)] ;?
  refuse (match i_memoryBytes i with Some m => m <? 4 | None => false end) MemoryTooSmall ;?
  match i_provider i with Some b => validateProvider b | None => Ok tt end ;?
  check_labels [("gpu", i_gpu i); ("region", i_region i); ("codec", i_codec i)].

(** ** The plan *)

Definition large (i : RhinoQDataPathPlannerInput) : bool := match i_payloadBytes i with Some n => RHINOQ_INLINE_PAYLOAD_LIMIT_BYTES <? n | None => false end.

Definition bytes_workload (w : RhinoQDataPathWorkload) : bool := match w with MediaWork | ArtifactWork => true | _ => false end.

Definition supportsMultipart (i : RhinoQDataPathPlannerInput) : bool := match i_provider i with Some b => b_supportsMultipart b | None => false end.

Definition multipartPlan (i : RhinoQDataPathPlannerInput) (payload : Z) : result path_error multipart :=
  let minPart := default DEFAULT_MIN_PART_BYTES (i_provider i ≫= b_minPartBytes) in
  let maxPart := default DEFAULT_MAX_PART_BYTES (i_provider i ≫= b_maxPartBytes) in
  let maxParts := default DEFAULT_MAX_PARTS (i_provider i ≫= b_maxParts) in
  let memory := default DEFAULT_MEMORY_BYTES (i_memoryBytes i) in
  let partBytes := Z.max minPart (Z.min maxPart (Z.min (memory / 4) (ceil payload maxParts))) in
  let parts := ceil payload partBytes in
  refuse ((maxParts <? parts) || (maxPart <? partBytes)) ExceedsBounds ;?
  Ok (MultipartPlan partBytes maxParts (Z.max 1 (Z.min 8 (memory / partBytes)))).

Definition add {A} (b : bool) (x : A) : list A := if b then [x] else [].

Definition open_decisions (i : RhinoQDataPathPlannerInput) : list open_decision :=
  let minimumDisk := match i_minDiskFreeBytes i with Some n => Some n | None => i_workspaceBytes i end in
  add (large i && negb (supportsMultipart i) && bytes_workload (i_workload i)) MultipartUnsupported ++
  add (bool_decide (i_payloadBytes i = None) && negb (bytes_workload (i_workload i))) PayloadUnknown ++
  add (bool_decide (is_Some minimumDisk) && bool_decide (i_diskFreeBytes i = None)) DiskUnobserved ++
  add (match minimumDisk, i_diskFreeBytes i with Some n, Some free => free <? n | _, _ => false end) DiskBelowMinimum ++
  add (bool_decide (is_Some (truthy (i_gpu i)))) GpuUnproven ++
  add (bool_decide (is_Some (truthy (i_region i)))) RegionUnproven ++
  match truthy (i_codec i) with
  | Some c => add (negb (bool_decide (c ∈ default [] (i_provider i ≫= b_codecs)))) CodecUnproven
  | None => []
  end.

Definition compileRhinoQDataPathPlan (i : RhinoQDataPathPlannerInput) : result path_error RhinoQDataPathPlan :=
  validateInput i ;?
  let inline := negb (large i) && negb (bytes_workload (i_workload i)) in
  let streams := bytes_workload (i_workload i) in
  let decisions := [if inline then InlineBounded else QueueCarriesReference; if streams then OutputStreams else ResultByReference] ++
    add (bool_decide (is_Some (truthy (i_gpu i)) ∨ is_Some (truthy (i_region i)))) CapacityGates in
  let? parts := match i_payloadBytes i with
                | Some n => if large i && supportsMultipart i then let? m := multipartPlan i n in Ok (Some m) else Ok None
                | None => Ok None
                end in
  Ok (DataPathPlan (i_workload i) (if inline then Inline else InputReference) (if streams then StreamToStorage else OutputReference) parts
        (AdmissionPlan (i_workspaceBytes i) (i_diskFreeBytes i) (i_minDiskFreeBytes i) (truthy (i_gpu i)) (truthy (i_region i)) (truthy (i_codec i)))
        decisions (open_decisions i)).

(** ** What a plan guarantees *)

Lemma ceil_spec a b : 0 < b → a ≤ ceil a b * b ∧ (ceil a b - 1) * b < a.
Proof. intros Hb. unfold ceil. pose proof (Z.div_mod (- a) b ltac:(lia)). pose proof (Z.mod_pos_bound (- a) b Hb). nia. Qed.

Lemma check_numbers_ok low e l u : check_numbers low e l = Ok u → Forall (λ p, at_least low p.2 = true) l.
Proof.
  revert u. induction l as [|p l IH]; intros u H; [constructor|]. cbn in H. apply rbind_ok in H as ([] & Hp%refuse_ok & H).
  constructor; [by apply negb_false_iff in Hp|by eapply IH].
Qed.

(** The bounds a validated input hands to the multipart plan are positive. *)
Lemma validated_bounds i u :
  validateInput i = Ok u →
  0 < default DEFAULT_MIN_PART_BYTES (i_provider i ≫= b_minPartBytes) ∧ 0 < default DEFAULT_MAX_PARTS (i_provider i ≫= b_maxParts) ∧
  4 ≤ default DEFAULT_MEMORY_BYTES (i_memoryBytes i).
Proof.
  unfold validateInput. intros ([] & _ & H)%rbind_ok. apply rbind_ok in H as ([] & Hm%refuse_ok & H). apply rbind_ok in H as ([] & Hp & _).
  split_and!.
  - destruct (i_provider i) as [b|]; [|done]. cbn. apply rbind_ok in Hp as ([] & Hn%check_numbers_ok & _). rewrite !Forall_cons in Hn. destruct Hn as (H1 & _ & H3 & _).
    cbn in H1. destruct (b_minPartBytes b); [|done]. cbn in *. lia.
  - destruct (i_provider i) as [b|]; [|done]. cbn. apply rbind_ok in Hp as ([] & Hn%check_numbers_ok & _). rewrite !Forall_cons in Hn. destruct Hn as (_ & _ & H3 & _).
    cbn in H3. destruct (b_maxParts b); [|done]. cbn in *. lia.
  - destruct (i_memoryBytes i); [|done]. cbn in *. lia.
Qed.

Lemma path_inv i p :
  compileRhinoQDataPathPlan i = Ok p →
  ∃ u, validateInput i = Ok u ∧ p_needsDecision p = open_decisions i ∧ p_workload p = i_workload i ∧
    p_input p = (if negb (large i) && negb (bytes_workload (i_workload i)) then Inline else InputReference) ∧
    p_output p = (if bytes_workload (i_workload i) then StreamToStorage else OutputReference) ∧
    ∀ m, p_multipart p = Some m → ∃ n, i_payloadBytes i = Some n ∧ large i = true ∧ multipartPlan i n = Ok m.
Proof.
  unfold compileRhinoQDataPathPlan. intros (u & Hu & H)%rbind_ok. apply rbind_ok in H as (parts & Hp & [= <-]). exists u. split_and!; try done. cbn. intros m ->.
  destruct (i_payloadBytes i) as [n|]; [|done]. destruct (large i) eqn:El; [|done]. destruct (supportsMultipart i); [|done]. cbn in Hp.
  apply rbind_ok in Hp as (m' & Hm & [= <-]). eauto.
Qed.

(** The parts of a compiled path lie within the provider's bounds and hold the whole
    payload; between one and eight are in flight, and more than one only where they fit
    the memory. *)
Theorem multipart_within_bounds i p m :
  compileRhinoQDataPathPlan i = Ok p → p_multipart p = Some m →
  ∃ n, i_payloadBytes i = Some n ∧ n ≤ m_partBytes m * m_maxParts m ∧
    default DEFAULT_MIN_PART_BYTES (i_provider i ≫= b_minPartBytes) ≤ m_partBytes m ≤ default DEFAULT_MAX_PART_BYTES (i_provider i ≫= b_maxPartBytes) ∧
    m_maxParts m = default DEFAULT_MAX_PARTS (i_provider i ≫= b_maxParts) ∧
    1 ≤ m_concurrency m ≤ 8 ∧ (m_concurrency m = 1 ∨ m_concurrency m * m_partBytes m ≤ default DEFAULT_MEMORY_BYTES (i_memoryBytes i)).
Proof.
  intros (u & Hu & _ & _ & _ & _ & Hm)%path_inv H. destruct (Hm _ H) as (n & Hn & _ & Hp). destruct (validated_bounds _ _ Hu) as (B1 & B2 & B3).
  exists n. split; [done|]. unfold multipartPlan in Hp. revert Hp B1 B2 B3.
  generalize (default DEFAULT_MIN_PART_BYTES (i_provider i ≫= b_minPartBytes)) (default DEFAULT_MAX_PART_BYTES (i_provider i ≫= b_maxPartBytes))
    (default DEFAULT_MAX_PARTS (i_provider i ≫= b_maxParts)) (default DEFAULT_MEMORY_BYTES (i_memoryBytes i)). intros lo hi parts memory Hp B1 B2 B3.
  set (part := Z.max lo _) in Hp. apply rbind_ok in Hp as ([] & Hb%refuse_ok & [= <-]). cbn. apply orb_false_iff in Hb as [Hb1 Hb2].
  assert (lo ≤ part) as Hlo by (unfold part; lia). destruct (ceil_spec n part ltac:(lia)) as [Hc _]. pose proof (Z.mul_div_le memory part ltac:(lia)). split_and!; try lia; try nia.
Qed.

(** A payload travels in the queue only if it is not known to be larger than the limit,
    never for a workload of bytes; and a plan that leaves nothing to decide knows the size
    of what it puts inline. *)
Theorem inline_is_bounded i p :
  compileRhinoQDataPathPlan i = Ok p → p_input p = Inline →
  p_output p = OutputReference ∧ p_multipart p = None ∧ (∀ n, i_payloadBytes i = Some n → n ≤ RHINOQ_INLINE_PAYLOAD_LIMIT_BYTES) ∧
  (p_needsDecision p = [] → is_Some (i_payloadBytes i)).
Proof.
  intros (u & Hu & Hd & _ & Hi & Ho & Hm)%path_inv H. rewrite Hi in H. destruct (large i) eqn:El; [done|]. destruct (bytes_workload _) eqn:Eb; [done|]. split_and!.
  - done.
  - destruct (p_multipart p) as [m|]; [|done]. destruct (Hm m eq_refl) as (? & _ & ? & _). done.
  - intros n En. unfold large in El. rewrite En in El. lia.
  - rewrite Hd. unfold open_decisions. rewrite Eb, El. cbn. destruct (i_payloadBytes i); [done|]. by rewrite bool_decide_eq_true_2.
Qed.

(** A plan that leaves nothing to decide asks for no capacity that was not proven: no
    accelerator or region, disk that was seen to suffice, a codec the provider has. *)
Theorem decided_plan_is_proven i p :
  compileRhinoQDataPathPlan i = Ok p → p_needsDecision p = [] →
  a_gpu (p_admission p) = None ∧ a_region (p_admission p) = None ∧
  (∀ c, a_codec (p_admission p) = Some c → c ∈ default [] (i_provider i ≫= b_codecs)) ∧
  (∀ n, (i_minDiskFreeBytes i = Some n ∨ i_minDiskFreeBytes i = None ∧ i_workspaceBytes i = Some n) → ∃ free, i_diskFreeBytes i = Some free ∧ n ≤ free).
Proof.
  unfold compileRhinoQDataPathPlan. intros (u & Hu & H)%rbind_ok. apply rbind_ok in H as (parts & _ & [= <-]). cbn. unfold open_decisions, add.
  intros H. repeat (apply app_nil in H as [? H]).
  repeat match goal with Hx : (if ?b then [_] else []) = [] |- _ => destruct b eqn:?; [done|clear Hx] end.
  repeat match goal with Hx : bool_decide _ = false |- _ => apply bool_decide_eq_false in Hx end. split_and!.
  - destruct (truthy (i_gpu i)); [naive_solver|done].
  - destruct (truthy (i_region i)); [naive_solver|done].
  - intros c Hc. rewrite Hc in H. destruct (decide (c ∈ default [] (i_provider i ≫= b_codecs))) as [|Hn]; [done|]. by rewrite (bool_decide_eq_false_2 _ Hn) in H.
  - intros n Hn. destruct (i_diskFreeBytes i) as [free|].
    + exists free. split; [done|]. destruct Hn as [Hn|[Hn1 Hn2]]; [rewrite Hn in *|rewrite Hn1, Hn2 in *]; lia.
    + exfalso. destruct Hn as [Hn|[Hn1 Hn2]]; [rewrite Hn in *|rewrite Hn1, Hn2 in *]; cbn in *; naive_solver.
Qed.

(** ** In the manifest *)

Definition workload_text (w : RhinoQDataPathWorkload) : string :=
  match w with TaskWork => "task" | BatchWork => "batch" | MediaWork => "media" | ArtifactWork => "artifact" | EffectWork => "effect" end.

(** A plan as the manifest of an application holds it; [say] and [tell] print what is open and what is decided. *)
Definition manifest_path (say : open_decision → string) (tell : decision → string) (p : RhinoQDataPathPlan) : Plans.plan_data_path :=
  let reference := Plans.Text "private-reference" in
  Plans.DataPath (Plans.Number 1) (Plans.Text (workload_text (p_workload p)))
    (Some (Plans.Input (match p_input p with Inline => Plans.Text "inline" | InputReference => reference end) (Some RHINOQ_INLINE_PAYLOAD_LIMIT_BYTES)
             (match p_input p with Inline => Plans.Text "payload" | InputReference => reference end)))
    (Some (Plans.Output (match p_output p with OutputReference => reference | StreamToStorage => Plans.Text "stream-to-storage" end) (Plans.Bool true)))
    ((λ m, Plans.Multipart (m_partBytes m) (m_maxParts m) (m_concurrency m)) <$> p_multipart p)
    (Some (let a := p_admission p in Plans.Admission (a_workspaceBytes a) (a_diskFreeBytes a) (a_minDiskFreeBytes a) (a_gpu a) (a_region a) (a_codec a)))
    (Some (tell <$> p_decisions p)) (Some (say <$> p_needsDecision p)).

(** The plan compiler accepts every path that was compiled. *)
Theorem compiled_path_accepted say tell name p : Plans.validateDataPath name (manifest_path say tell p) = Ok tt.
Proof. destruct p as [w [] [] ? ? ? ?]; by destruct w. Qed.

(** ** A large upload *)

Definition sample_input : RhinoQDataPathPlannerInput :=
  PlannerInput MediaWork (Some (200 * MIB)) None (Some (32 * MIB)) None None None None None (Some "h264") (Some (ProviderBounds true (Some ["h264"]) None None None)).

Definition sample_path : RhinoQDataPathPlan :=
  match compileRhinoQDataPathPlan sample_input with Ok p => p | Err _ => DataPathPlan TaskWork Inline OutputReference None (AdmissionPlan None None None None None None) [] [] end.

Lemma multipart_within_bounds_witness : ∃ n, i_payloadBytes sample_input = Some n ∧ n ≤ 5 * MIB * 10000.
Proof.
  destruct (multipart_within_bounds sample_input sample_path (MultipartPlan (5 * MIB) 10000 6)) as (n & Hn & Hle & _); [by vm_compute..|]. by exists n.
Defined.

(** A part may be larger than the memory it is to fit: the provider's minimum wins. *)
Example part_larger_than_memory :
  p_multipart <$> match compileRhinoQDataPathPlan (PlannerInput MediaWork (Some MIB) None (Some 4) None None None None None None (Some (ProviderBounds true None None None None))) with Ok p => Some p | Err _ => None end
  = Some (Some (MultipartPlan (5 * MIB) 10000 1)).
Proof. by vm_compute. Qed.
End DataPaths.
