(* ===== verification/TaskGroups.v ===== *)
(** * Task groups

    [tasks/group.ts]: the view of a fan-out by its latest attempts, bulk retries that carry
    the Task's version forward, bulk cancellation commands, and the exports of failed
    items; with their theorems.

    [localeCompare] compares the sort keys of a collation, which is a parameter. The JSON
    form of the export, and the pool that bounds cancellations, are left out. *)

From stdpp Require Import base strings list pretty sorting.
From Stdlib Require Import Ascii ZArith Lia.
From S2P Require Import Prelude Programs Sorting.

Module TaskGroups.
Open Scope prog_scope.

Record TaskExecutionSummary := Execution {
  x_id : string; x_itemKey : option string; x_attempt : Z; x_state : string; x_hasResult : bool; x_failureReason : option string }.

Record TaskSnapshot := Snapshot { k_id : string; k_entityVersion : Z; k_executions : list TaskExecutionSummary }.

Record TaskGroupItem := Item { i_itemKey : string; i_executionId : string; i_attempt : Z; i_state : string; i_hasResult : bool; i_failureReason : option string }.

Record counts := Counts { n_total : Z; n_pending : Z; n_running : Z; n_succeeded : Z; n_failed : Z; n_cancelled : Z }.

Record TaskGroupView := View { v_taskId : string; v_entityVersion : Z; v_complete : bool; v_partialFailure : bool; v_counts : counts; v_items : list TaskGroupItem }.

Record TaskGroupRetryCommand := RetryCommand {
  r_commandId : string; r_taskId : string; r_expectedVersion : Z; r_sourceExecutionId : string; r_nextExecutionId : string; r_item : TaskGroupItem }.

Record TaskGroupCancelCommand := CancelCommand { c_commandId : string; c_taskId : string; c_item : TaskGroupItem }.

(** ** The view *)

Definition item_key (x : TaskExecutionSummary) : string := default "default" (x_itemKey x).

Definition keep_latest (m : list (string * TaskExecutionSummary)) (x : TaskExecutionSummary) : list (string * TaskExecutionSummary) :=
  match map_get (item_key x) m with
  | Some prior => if x_attempt prior <? x_attempt x then map_set (item_key x) x m else m
  | None => map_set (item_key x) x m
  end.

Definition latest_entries (l : list TaskExecutionSummary) : list (string * TaskExecutionSummary) := foldl keep_latest [] l.

Section groups.
Context (collation : string → string).

Definition latestItems (l : list TaskExecutionSummary) : list TaskExecutionSummary :=
  sort_by (λ x, collation (default "" (x_itemKey x))) (latest_entries l).*2.

Definition is_state (states : list string) (s : string) : bool := bool_decide (s ∈ states).

Definition count_state (c : counts) (s : string) : counts :=
  if is_state ["pending_dispatch"; "dispatched"] s then Counts (n_total c) (n_pending c + 1) (n_running c) (n_succeeded c) (n_failed c) (n_cancelled c)
  else if is_state ["running"] s then Counts (n_total c) (n_pending c) (n_running c + 1) (n_succeeded c) (n_failed c) (n_cancelled c)
  else if is_state ["succeeded"] s then Counts (n_total c) (n_pending c) (n_running c) (n_succeeded c + 1) (n_failed c) (n_cancelled c)
  else if is_state ["failed"; "stalled"] s then Counts (n_total c) (n_pending c) (n_running c) (n_succeeded c) (n_failed c + 1) (n_cancelled c)
  else if is_state ["cancelled"] s then Counts (n_total c) (n_pending c) (n_running c) (n_succeeded c) (n_failed c) (n_cancelled c + 1)
  else c.

Definition item_of (x : TaskExecutionSummary) : TaskGroupItem :=
  Item (item_key x) (x_id x) (x_attempt x) (x_state x) (x_hasResult x) (truthy (x_failureReason x)).

Definition taskGroupView (t : TaskSnapshot) : TaskGroupView :=
  let latest := latestItems (k_executions t) in
  let c := foldl (λ c x, count_state c (x_state x)) (Counts (Z.of_nat (length latest)) 0 0 0 0 0) latest in
  let complete := (0 <? n_total c) && (n_pending c =? 0) && (n_running c =? 0) in
  View (k_id t) (k_entityVersion t) complete (complete && (0 <? n_failed c + n_cancelled c) && (0 <? n_succeeded c)) c (item_of <$> latest).

Definition failed_items (t : TaskSnapshot) : list TaskGroupItem := List.filter (λ i, is_state ["failed"; "stalled"] (i_state i)) (v_items (taskGroupView t)).

(** ** Child commands: FNV-1a of 64 bits, in base 36 *)

Fixpoint fnv1a64 (s : string) (hash : Z) : Z :=
  match s with
  | EmptyString => hash
  | String c s => fnv1a64 s (Z.lxor hash (Z.of_N (N_of_ascii c)) * 0x100000001b3 mod 2 ^ 64)
  end.

Fixpoint base36 (digits : nat) (z : Z) (acc : string) : string :=
  match digits with
  | O => acc
  | S n => let acc := String (hex_char (z mod 36)) acc in if z <? 36 then acc else base36 n (z / 36) acc
  end.

Definition child_hash (itemKey : string) : string := base36 13 (fnv1a64 itemKey 0xcbf29ce484222325) "".

Definition childCommand (parent itemKey : string) : string := (parent ++ "." ++ child_hash itemKey)%string.

(** [commandId.slice(commandId.lastIndexOf('.') + 1)] *)
Fixpoint commandSuffix (s : string) : string :=
  match s with EmptyString => EmptyString | String c rest => if Ascii.eqb c "." || negb (lacks "." rest) then commandSuffix rest else String c rest end.

(** ** Retrying and cancelling *)

(** What the durable callback answers: [None] is no snapshot, a version that is [None] no integer. *)
Inductive call := Retry (command : TaskGroupRetryCommand).
Definition ans (c : call) : Type := option (string * option Z).
Definition program := prog ans string.
Definition await_ (c : call) : program (ans c) := await c.

Definition retry_command (t : TaskSnapshot) (commandId : string) (expectedVersion : Z) (i : TaskGroupItem) : TaskGroupRetryCommand :=
  let childId := childCommand commandId (i_itemKey i) in
  RetryCommand childId (k_id t) expectedVersion (i_executionId i) (i_executionId i ++ ".retry." ++ commandSuffix childId)%string i.

Fixpoint retry_each (t : TaskSnapshot) (commandId : string) (expectedVersion : Z) (items : list TaskGroupItem) : program (list (string * Z)) :=
  match items with
  | [] => Ret []
  | i :: items =>
      let! answer := await_ (Retry (retry_command t commandId expectedVersion i)) in
      match answer with
      | Some (id, Some version) =>
          if bool_decide (id = k_id t) && (expectedVersion <? version) then
            let! results := retry_each t commandId version items in Ret ((id, version) :: results)
          else Throw "invalid committed snapshot"
      | _ => Throw "invalid committed snapshot"
      end
  end.

Definition retryFailed (t : TaskSnapshot) (commandId : string) : program (list (string * Z)) :=
  if js_blank commandId then Throw "commandId" else retry_each t commandId (k_entityVersion t) (failed_items t).

(** The commands [cancelPending] hands to its pool. *)
Definition cancelPending (t : TaskSnapshot) (commandId : string) : result string (list TaskGroupCancelCommand) :=
  if js_blank commandId then Err "commandId" else
  Ok ((λ i, CancelCommand (childCommand commandId (i_itemKey i)) (k_id t) i) <$>
        List.filter (λ i, is_state ["pending_dispatch"; "dispatched"] (i_state i)) (v_items (taskGroupView t))).

(** ** Exports *)

Definition DQ : ascii := ascii_of_nat 34.
Definition CR : ascii := ascii_of_nat 13.
Definition LF : ascii := ascii_of_nat 10.

Definition special (c : ascii) : bool := Ascii.eqb c DQ || Ascii.eqb c "," || Ascii.eqb c CR || Ascii.eqb c LF.

Fixpoint has_special (s : string) : bool := match s with EmptyString => false | String c s => special c || has_special s end.

(** [text.replaceAll] of a quote by two *)
Fixpoint double_quotes (s : string) : string :=
  match s with EmptyString => EmptyString | String c s => if Ascii.eqb c DQ then String DQ (String DQ (double_quotes s)) else String c (double_quotes s) end.

Definition csv (s : string) : string := if has_special s then String DQ (double_quotes s ++ String DQ EmptyString)%string else s.

Fixpoint join (sep : string) (l : list string) : string :=
  match l with [] => EmptyString | [x] => x | x :: l => (x ++ sep ++ join sep l)%string end.

Definition csv_header : list string := ["taskId"; "itemKey"; "executionId"; "attempt"; "state"; "failureReason"].

Definition csv_row (t : TaskSnapshot) (i : TaskGroupItem) : list string :=
  [k_id t; i_itemKey i; i_executionId i; pretty (i_attempt i); i_state i; default "" (i_failureReason i)].

Definition CRLF : string := String CR (String LF EmptyString).

Definition failedTaskItems_csv (t : TaskSnapshot) : string :=
  join CRLF (join "," csv_header :: ((λ i, join "," (csv <$> csv_row t i)) <$> failed_items t)).

Definition taskGroupManifest (t : TaskSnapshot) (results : list (string * option string)) : string * Z * bool * list (TaskGroupItem * option string) :=
  let byExecution := foldl (λ m r, map_set r.1 r.2 m) [] results in
  (k_id t, k_entityVersion t, v_partialFailure (taskGroupView t),
   (λ i, (i, truthy (match map_get (i_executionId i) byExecution with Some r => r | None => None end))) <$> v_items (taskGroupView t)).
End groups.

(** ** The view is the latest attempt of every item *)

Definition latest_ok (l : list TaskExecutionSummary) (m : list (string * TaskExecutionSummary)) : Prop :=
  NoDup m.*1 ∧ (∀ k x, (k, x) ∈ m → x ∈ l ∧ item_key x = k) ∧
  ∀ y, y ∈ l → ∃ x, map_get (item_key y) m = Some x ∧ x_attempt y ≤ x_attempt x.

Lemma set_pair (k k' : string) (v v' : TaskExecutionSummary) m : (k, v) ∈ map_set k' v' m → (k = k' ∧ v = v') ∨ (k, v) ∈ m.
Proof.
  induction m as [|[k1 v1] m IH]; cbn; [intros H%list_elem_of_singleton; naive_solver|].
  case_bool_decide; rewrite !elem_of_cons; naive_solver.
Qed.

Lemma latest_entries_ok l : latest_ok l (latest_entries l).
Proof.
  unfold latest_entries. induction l as [|x l IH] using rev_ind; [split_and!; [apply NoDup_nil_2|by intros ? ? ?%elem_of_nil|by intros ? ?%elem_of_nil]|]. rewrite foldl_app. cbn [foldl].
  destruct IH as (Hn & Hin & Hmax). set (m := foldl keep_latest [] l) in *. unfold keep_latest.
  assert (∀ k y, (k, y) ∈ m → y ∈ l ++ [x] ∧ item_key y = k) as Hin' by (intros k y H; destruct (Hin _ _ H); rewrite elem_of_app; auto).
  assert (∀ p, map_get (item_key x) m = p → (∀ q, p = Some q → x_attempt q < x_attempt x) → latest_ok (l ++ [x]) (map_set (item_key x) x m)) as Hset.
  { intros p Hp Hlt. split_and!; [by apply map_set_NoDup| |].
    - intros k y [[-> ->]|H]%set_pair; [|auto]. rewrite elem_of_app, list_elem_of_singleton. auto.
    - intros y. rewrite elem_of_app, list_elem_of_singleton, map_get_set. intros [Hy| ->]; [|rewrite bool_decide_eq_true_2 by done; by exists x].
      destruct (Hmax y Hy) as (z & Hz & Hle). case_bool_decide as E; [|eauto]. exists x. split; [done|]. rewrite <- E in Hz. specialize (Hlt z ltac:(congruence)). lia. }
  destruct (map_get (item_key x) m) as [prior|] eqn:Ep; [|by apply (Hset None)]. destruct (_ <? _) eqn:E; [apply (Hset (Some prior)); [done|]; intros q [= <-]; lia|].
  split_and!; [done..|]. intros y. rewrite elem_of_app, list_elem_of_singleton. intros [Hy| ->]; [auto|]. exists prior. split; [done|lia].
Qed.

Definition known_states : list string := ["pending_dispatch"; "dispatched"; "running"; "succeeded"; "failed"; "stalled"; "cancelled"].

Definition count_sum (c : counts) : Z := n_pending c + n_running c + n_succeeded c + n_failed c + n_cancelled c.

Lemma count_state_sum c s : s ∈ known_states → count_sum (count_state c s) = count_sum c + 1 ∧ n_total (count_state c s) = n_total c.
Proof.
  unfold known_states. rewrite !elem_of_cons, elem_of_nil. intros H. unfold count_state, count_sum.
  repeat destruct H as [->|H]; [..|done];
    repeat match goal with |- context [is_state ?l ?s] => let b := eval vm_compute in (is_state l s) in change (is_state l s) with b end; cbn; lia.
Qed.

Lemma counts_sum (l : list TaskExecutionSummary) c :
  Forall (λ x, x_state x ∈ known_states) l →
  let c' := foldl (λ c x, count_state c (x_state x)) c l in count_sum c' = count_sum c + Z.of_nat (length l) ∧ n_total c' = n_total c.
Proof.
  intros H. revert c. induction H as [|x l Hx _ IH]; intros c; cbn; [lia|]. destruct (count_state_sum c _ Hx), (IH (count_state c (x_state x))). lia.
Qed.

(** A group shows one item per key, the attempt with the greatest number, and its
    counters add up to the items it shows. *)
Theorem group_view_exact collation t :
  let v := taskGroupView collation t in
  NoDup (i_itemKey <$> v_items v) ∧
  (∀ y, y ∈ k_executions t → ∃ i, i ∈ v_items v ∧ i_itemKey i = item_key y ∧ x_attempt y ≤ i_attempt i) ∧
  (∀ i, i ∈ v_items v → ∃ x, x ∈ k_executions t ∧ i = item_of x) ∧
  (Forall (λ x, x_state x ∈ known_states) (k_executions t) → count_sum (v_counts v) = Z.of_nat (length (v_items v)) ∧ n_total (v_counts v) = Z.of_nat (length (v_items v))).
Proof.
  destruct (latest_entries_ok (k_executions t)) as (Hn & Hin & Hmax). cbn. set (m := latest_entries (k_executions t)) in *.
  assert (latestItems collation (k_executions t) ≡ₚ m.*2) as Hp by apply sort_by_perm. split_and!.
  - rewrite Hp, <- !list_fmap_compose. erewrite (list_fmap_ext _ fst); [done|]. intros j [k x] Hj. apply list_elem_of_lookup_2 in Hj. by destruct (Hin _ _ Hj).
  - intros y Hy. destruct (Hmax y Hy) as (x & Hx%map_get_elem & Hle). exists (item_of x). split_and!; [|by apply (Hin _ x)|done].
    apply list_elem_of_fmap_2. rewrite Hp. apply list_elem_of_fmap. by exists (item_key y, x).
  - intros i (x & -> & Hx)%list_elem_of_fmap. rewrite Hp in Hx. apply list_elem_of_fmap in Hx as ([k y] & -> & Hx). exists y. split; [|done]. by destruct (Hin _ _ Hx).
  - intros Hs. rewrite length_fmap. destruct (counts_sum (latestItems collation (k_executions t)) (Counts (Z.of_nat (length (latestItems collation (k_executions t)))) 0 0 0 0 0)) as [E1 E2].
    + rewrite Hp, Forall_fmap, Forall_forall. intros [k x] Hx. rewrite Forall_forall in Hs. apply Hs. by destruct (Hin _ _ Hx).
    + rewrite E1, E2. unfold count_sum. cbn. lia.
Qed.
(** ** Retries carry the version forward *)

Definition history : Type := list (sigT (λ c : call, result string (ans c))).

Definition sent (h : history) : list TaskGroupRetryCommand := (λ x, match projT1 x with Retry c => c end) <$> h.

Lemma retry_each_spec t commandId w items version h0 :
  ∃ r h, runs (recorded w) (retry_each t commandId version items) h0 = (r, h0 ++ h) ∧
    r_item <$> sent h = take (length h) items ∧ (is_ok r = true → length h = length items) ∧
    StronglySorted Z.lt (r_expectedVersion <$> sent h) ∧ Forall (λ c, version ≤ r_expectedVersion c) (sent h).
Proof.
  revert version h0. induction items as [|i items IH]; intros version h0; cbn.
  { exists (Ok []), []. rewrite app_nil_r. split_and!; [done|done|done|constructor|constructor]. }
  set (c := retry_command t commandId version i). set (x := existT (Retry c) (w h0 (Retry c))).
  assert (∀ e : string, ∃ (r : result string (list (string * Z))) (h : history), (Err e, h0 ++ [x]) = (r, h0 ++ h) ∧ r_item <$> sent h = take (length h) (i :: items) ∧ (is_ok r = true → length h = S (length items)) ∧
    StronglySorted Z.lt (r_expectedVersion <$> sent h) ∧ Forall (λ c, version ≤ r_expectedVersion c) (sent h)) as Hfail.
  { intros e. exists (Err e), [x]. split_and!; [done|done|done|by repeat constructor|]. constructor; [cbn; lia|constructor]. }
  destruct (w h0 (Retry c)) as [[[id [v|]]|]|e] eqn:Ew; fold x; cbn; try apply Hfail.
  destruct (bool_decide _ && _) eqn:Ev; [|apply Hfail]. apply andb_true_iff in Ev as [_ Hv].
  rewrite runs_bind. destruct (IH v (h0 ++ [x])) as (r & h & -> & H1 & H2 & H3 & H4). rewrite <- app_assoc. cbn.
  exists (match r with Ok a => Ok ((id, v) :: a) | Err e => Err e end), (x :: h). split_and!.
  - by destruct r.
  - cbn. by f_equal.
  - intros Hr. cbn. f_equal. apply H2. by destruct r.
  - cbn. constructor; [done|]. rewrite Forall_fmap. eapply Forall_impl; [exact H4|]. cbn. lia.
  - cbn. constructor; [cbn; lia|]. eapply Forall_impl; [exact H4|]. cbn. lia.
Qed.

(** Whatever the durable callback answers, a bulk retry asks for failed items only, each
    once and in order, under versions that rise from call to call, and returns only when
    it asked for all of them. *)
Theorem bulk_retry_in_order collation t commandId w :
  let '(r, h) := runs (recorded w) (retryFailed collation t commandId) [] in
  r_item <$> sent h = take (length h) (failed_items collation t) ∧ StronglySorted Z.lt (r_expectedVersion <$> sent h) ∧
  (is_ok r = true → length h = length (failed_items collation t)).
Proof.
  unfold retryFailed. destruct (js_blank commandId); [cbn; split_and!; [done|constructor|done]|].
  destruct (retry_each_spec t commandId w (failed_items collation t) (k_entityVersion t) []) as (r & h & -> & H1 & H2 & H3 & _). done.
Qed.

(** ** The export reads back *)

(** A reader of comma-separated values, as RFC 4180 describes them. *)
Inductive mode := Unquoted | Quoted | Closed.

Fixpoint read_csv (s : string) (m : mode) (field : string) (row : list string) : list (list string) :=
  match s with
  | EmptyString => [row ++ [field]]
  | String c s =>
      match m with
      | Quoted => if Ascii.eqb c DQ then read_csv s Closed field row else read_csv s Quoted (field ++ String c "") row
      | _ =>
          if Ascii.eqb c "," then read_csv s Unquoted "" (row ++ [field])
          else if Ascii.eqb c DQ then read_csv s Quoted (match m with Closed => field ++ String DQ "" | _ => field end) row
          else match s with
               | String d s' => if Ascii.eqb c CR && Ascii.eqb d LF then (row ++ [field]) :: read_csv s' Unquoted "" [] else read_csv s Unquoted (field ++ String c "") row
               | EmptyString => read_csv s Unquoted (field ++ String c "") row
               end
      end
  end.

Lemma snoc_text a c s : ((a ++ String c "") ++ s = a ++ String c s)%string.
Proof. by rewrite append_assoc, append_String, append_nil_l. Qed.

Lemma read_plain f rest field row : has_special f = false → read_csv (f ++ rest) Unquoted field row = read_csv rest Unquoted (field ++ f) row.
Proof.
  revert field. induction f as [|c f IH]; intros field H; [by rewrite append_nil_l, append_nil_r|]. cbn in H. apply orb_false_iff in H as [Hc Hf].
  unfold special in Hc. rewrite !orb_false_iff in Hc. destruct Hc as [[[H1 H2] H3] H4]. rewrite append_String. cbn. rewrite H1, H2, H3. cbn.
  rewrite <- (snoc_text field c f), <- IH by done. by destruct (f ++ rest)%string.
Qed.

Lemma read_quoted f rest field row :
  read_csv (double_quotes f ++ String DQ rest) Quoted field row = read_csv rest Closed (field ++ f) row.
Proof.
  revert field. induction f as [|c f IH]; intros field; cbn [double_quotes].
  - rewrite append_nil_l, append_nil_r. done.
  - destruct (Ascii.eqb c DQ) eqn:E; rewrite ?append_String; cbn [read_csv].
    + apply Ascii.eqb_eq in E as ->. rewrite <- (snoc_text field DQ f), <- IH. done.
    + rewrite E, <- (snoc_text field c f), <- IH. done.
Qed.

(** What follows a field: the end, a comma or the end of a line. *)
Definition follows (s : string) : Prop := s = "" ∨ (∃ s', s = String "," s') ∨ ∃ s', s = String CR (String LF s').

Lemma read_closed s field row : follows s → read_csv s Closed field row = read_csv s Unquoted field row.
Proof. intros [->|[[s' ->]|[s' ->]]]; done. Qed.

Lemma read_field f rest row : follows rest → read_csv (csv f ++ rest) Unquoted "" row = read_csv rest Unquoted f row.
Proof.
  intros Hr. unfold csv. destruct (has_special f) eqn:E; [|by rewrite read_plain].
  rewrite append_String, append_assoc, append_String, append_nil_l. cbn [read_csv]. rewrite <- (read_closed _ f) by done. apply (read_quoted f rest "").
Qed.

Lemma read_row fs rest row : fs ≠ [] → follows rest → read_csv (join "," (csv <$> fs) ++ rest) Unquoted "" row = read_csv rest Unquoted (default "" (last fs)) (row ++ removelast fs).
Proof.
  revert row. induction fs as [|f fs IH]; intros row Hne Hr; [done|]. destruct fs as [|g fs].
  - cbn [fmap list_fmap join]. rewrite read_field by done. cbn. by rewrite app_nil_r.
  - change (join "," (csv <$> f :: g :: fs)) with (csv f ++ String "," (join "," (csv <$> g :: fs)))%string.
    rewrite append_assoc, append_String, read_field by (right; left; eauto). cbn [read_csv]. rewrite IH by done. by rewrite <- app_assoc.
Qed.

Lemma snoc_last (l : list string) : l ≠ [] → removelast l ++ [default "" (last l)] = l.
Proof. induction l as [|x l IH]; [done|]. intros _. destruct l as [|y l]; [done|]. change (x :: (removelast (y :: l) ++ [default "" (last (y :: l))]) = x :: y :: l). by rewrite IH. Qed.

Lemma read_rows rows : Forall (λ r, r ≠ []) rows → rows ≠ [] → read_csv (join CRLF ((λ r, join "," (csv <$> r)) <$> rows)) Unquoted "" [] = rows.
Proof.
  induction 1 as [|r rows Hr _ IH]; intros Hne; [done|]. destruct rows as [|r2 rows].
  - cbn [fmap list_fmap join]. rewrite <- (append_nil_r (join "," _)), read_row by (done || by left). cbn [read_csv]. by rewrite app_nil_l, snoc_last.
  - change (join CRLF ((λ r, join "," (csv <$> r)) <$> r :: r2 :: rows)) with (join "," (csv <$> r) ++ String CR (String LF (join CRLF ((λ r, join "," (csv <$> r)) <$> r2 :: rows))))%string.
    rewrite read_row by (done || right; right; eauto). cbn [read_csv]. cbn. rewrite snoc_last by done. f_equal. by apply IH.
Qed.

(** The exported table of failed items reads back as it was: one row per failed item
    under the header, whatever commas, quotes and line breaks the texts have. *)
Theorem failed_items_export_roundtrip collation t :
  read_csv (failedTaskItems_csv collation t) Unquoted "" [] = csv_header :: (csv_row t <$> failed_items collation t).
Proof.
  rewrite <- (read_rows (csv_header :: (csv_row t <$> failed_items collation t))).
  - unfold failedTaskItems_csv. do 2 f_equal. cbn [fmap list_fmap]. f_equal. by rewrite <- list_fmap_compose.
  - constructor; [done|]. rewrite Forall_fmap. apply Forall_forall. done.
  - done.
Qed.

(** The suffix of a child command is the hash of its item. *)
Theorem child_suffix parent itemKey : commandSuffix (childCommand parent itemKey) = child_hash itemKey.
Proof.
  assert (∀ n z acc, lacks "." acc = true → lacks "." (base36 n z acc) = true) as Hb.
  { induction n as [|n IH]; intros z acc Ha; cbn; [done|]. assert (lacks "." (String (hex_char (z mod 36)) acc) = true) as Hd.
    { cbn. rewrite Ha, andb_true_r. pose proof (Z.mod_pos_bound z 36 ltac:(lia)). apply negb_true_iff, Ascii.eqb_neq. unfold hex_char. intros E%(f_equal nat_of_ascii).
      rewrite nat_ascii_embedding in E by (destruct (_ <? 10); lia). change (nat_of_ascii ".") with 46%nat in E. destruct (_ <? 10); lia. }
    destruct (z <? 36); [done|]. by apply IH. }
  unfold childCommand. assert (lacks "." (child_hash itemKey) = true) as Hl by by apply Hb.
  assert (commandSuffix (child_hash itemKey) = child_hash itemKey) as Hs.
  { destruct (child_hash itemKey) as [|c s]; [done|]. cbn in *. apply andb_true_iff in Hl as [H1%negb_true_iff H2]. by rewrite H1, H2. }
  induction parent as [|c p IH].
  - rewrite append_nil_l, append_String, append_nil_l. exact Hs.
  - rewrite append_String. cbn [commandSuffix]. rewrite lacks_app. replace (lacks "." ("." ++ child_hash itemKey)%string) with false by done. rewrite andb_false_r, orb_true_r. apply IH.
Qed.
End TaskGroups.
