(* ===== verification/WaitpointTokens.v ===== *)
(** * Waitpoint tokens

    [tasks/waitpoint-token.ts]: signed capability tokens of the form payload.signature, both
    in base64url; with the theorems that a token verifies to the claims it was signed for
    and that nothing verifies without the key's signature.

    HMAC-SHA-256 and JSON are parameters; [Buffer]'s base64url is written out. The decoder
    skips characters outside the alphabet and stops at padding. *)

From stdpp Require Import base strings list.
From Stdlib Require Import Ascii ZArith Lia ZifyNat.
From S2P Require Import Prelude Sorting.

Module WaitpointTokens.
Open Scope result_scope.

(** Linear arithmetic with division by constants. *)
Ltac div_lia := cbv beta in *; zify; Z.to_euclidean_division_equations; lia.

(** ** base64url *)

Definition b64_char (d : nat) : ascii :=
  ascii_of_nat (if d <? 26 then 65 + d else if d <? 52 then 71 + d else if d <? 62 then d - 4 else if d =? 62 then 45 else 95)%nat.

(** The digit of a character; the alphabet of plain base64 is read as well. *)
Definition b64_digit (c : ascii) : option nat :=
  let n := nat_of_ascii c in
  (if (65 <=? n) && (n <=? 90) then Some (n - 65) else if (97 <=? n) && (n <=? 122) then Some (n - 71)
   else if (48 <=? n) && (n <=? 57) then Some (n + 4) else if (n =? 45) || (n =? 43) then Some 62 else if (n =? 95) || (n =? 47) then Some 63 else None)%nat.

Fixpoint digits_of_bytes (l : list nat) : list nat :=
  match l with
  | a :: b :: c :: l => (a / 4 :: (a mod 4) * 16 + b / 16 :: (b mod 16) * 4 + c / 64 :: c mod 64 :: digits_of_bytes l)%nat
  | [a; b] => [a / 4; (a mod 4) * 16 + b / 16; (b mod 16) * 4]%nat
  | [a] => [a / 4; (a mod 4) * 16]%nat
  | [] => []
  end.

Fixpoint bytes_of_digits (l : list nat) : list nat :=
  match l with
  | p :: q :: r :: s :: l => (p * 4 + q / 16 :: (q mod 16) * 16 + r / 4 :: (r mod 4) * 64 + s :: bytes_of_digits l)%nat
  | [p; q; r] => [p * 4 + q / 16; (q mod 16) * 16 + r / 4]%nat
  | [p; q] => [p * 4 + q / 16]%nat
  | _ => []
  end.

Fixpoint bytes (s : string) : list nat := match s with EmptyString => [] | String c s => nat_of_ascii c :: bytes s end.

Fixpoint of_bytes (l : list nat) : string := match l with [] => EmptyString | n :: l => String (ascii_of_nat n) (of_bytes l) end.

Fixpoint of_digits (l : list nat) : string := match l with [] => EmptyString | d :: l => String (b64_char d) (of_digits l) end.

Fixpoint digits (s : string) : list nat :=
  match s with
  | EmptyString => []
  | String c s => if Ascii.eqb c "=" then [] else match b64_digit c with Some d => d :: digits s | None => digits s end
  end.

Definition base64url (s : string) : string := of_digits (digits_of_bytes (bytes s)).
Definition fromBase64url (s : string) : string := of_bytes (bytes_of_digits (digits s)).

(** ** Claims *)

Inductive action := Read | Resolve.

#[global] Instance action_eq_dec : EqDecision action.
Proof. solve_decision. Defined.

(** A field is the text the claims hold, if they hold one; an action that is [None] is neither. *)
Record WaitpointTokenClaims := Claims {
  c_schemaVersion : Z; c_waitpointId : option string; c_taskId : option string; c_tenantId : option string; c_ownerId : option string;
  c_action : option action; c_expiresAt : option Z; c_nonce : option string }.

Inductive token_error := ShortSecret | InvalidClaims | InvalidToken | InvalidSignature | NotJson | Expired | ActionMismatch.

Definition missing (o : option string) : bool := match o with Some s => js_blank s | None => true end.

Definition validateClaims (c : WaitpointTokenClaims) : result token_error unit :=
  refuse (negb (c_schemaVersion c =? 2) || missing (c_waitpointId c) || missing (c_taskId c) || missing (c_tenantId c) || missing (c_ownerId c) || missing (c_nonce c)
          || bool_decide (c_action c = None) || match c_expiresAt c with Some z => (z <=? 0) || (2 ^ 53 - 1 <? z) | None => true end) InvalidClaims.

(** [token.split('.')] *)
Fixpoint split_dots (s : string) : list string :=
  match s with
  | EmptyString => [EmptyString]
  | String c s =>
      match split_dots s with
      | part :: parts => if Ascii.eqb c "." then EmptyString :: part :: parts else String c part :: parts
      | [] => []
      end
  end.

Section tokens.
Context (mac : string → string) (stringify : WaitpointTokenClaims → string) (parse : string → option WaitpointTokenClaims).

(** [createWaitpointTokenSigner]: a signer needs a secret of 32 bytes. *)
Definition createWaitpointTokenSigner (secret : string) : result token_error unit := refuse (String.length secret <? 32)%nat ShortSecret.

Definition sign (c : WaitpointTokenClaims) : result token_error string :=
  validateClaims c ;?
  let payload := base64url (stringify c) in
  Ok (payload ++ "." ++ base64url (mac payload))%string.

Definition verify (token : string) (expected : option action) (now : Z) : result token_error WaitpointTokenClaims :=
  match split_dots token with
  | payload :: signature :: rest =>
      refuse (bool_decide (payload = "") || bool_decide (signature = "") || match rest with extra :: _ => negb (bool_decide (extra = "")) | [] => false end) InvalidToken ;?
      refuse (negb (bool_decide (fromBase64url signature = mac payload))) InvalidSignature ;?
      match parse (fromBase64url payload) with
      | None => Err NotJson
      | Some c =>
          validateClaims c ;?
          refuse (match c_expiresAt c with Some z => z <=? now | None => false end) Expired ;?
          refuse (match expected with Some a => negb (bool_decide (c_action c = Some a)) | None => false end) ActionMismatch ;?
          Ok c
      end
  | _ => Err InvalidToken
  end.

(** ** What verification means *)

(** Whatever verifies carries the signature of its own payload, claims that are valid,
    not expired, and for the expected action. *)
Theorem verified_is_signed token expected now c :
  verify token expected now = Ok c →
  ∃ payload signature rest, split_dots token = payload :: signature :: rest ∧ fromBase64url signature = mac payload ∧
    parse (fromBase64url payload) = Some c ∧ validateClaims c = Ok tt ∧ (∃ z, c_expiresAt c = Some z ∧ now < z) ∧ (∀ a, expected = Some a → c_action c = Some a).
Proof.
  unfold verify. destruct (split_dots token) as [|payload [|signature rest]]; [done..|]. intros ([] & _ & H)%rbind_ok. apply rbind_ok in H as ([] & Hs%refuse_ok & H).
  destruct (parse _) as [c'|] eqn:Ep; [|done]. apply rbind_ok in H as ([] & Hv & H). apply rbind_ok in H as ([] & He%refuse_ok & H). apply rbind_ok in H as ([] & Ha%refuse_ok & [= <-]).
  exists payload, signature, rest. split_and!; [done|by apply negb_false_iff, bool_decide_eq_true in Hs|done|done|..].
  - unfold validateClaims in Hv. apply refuse_ok in Hv. destruct (c_expiresAt c') as [z|]; [exists z; split; [done|lia]|by rewrite orb_true_r in Hv].
  - intros a ->. by apply negb_false_iff, bool_decide_eq_true in Ha.
Qed.

(** ** Round trip *)

Lemma bytes_small s : Forall (λ n, (n < 256)%nat) (bytes s).
Proof. induction s; cbn; constructor; [apply nat_ascii_bounded|done]. Qed.

Lemma of_bytes_bytes s : of_bytes (bytes s) = s.
Proof. induction s as [|c s IH]; [done|]. cbn. by rewrite ascii_nat_embedding, IH. Qed.

Lemma digits_small l : Forall (λ n, (n < 256)%nat) l → Forall (λ d, (d < 64)%nat) (digits_of_bytes l).
Proof.
  revert l. fix IH 1. intros [|a [|b [|c l]]] H; cbn [digits_of_bytes]; repeat (apply Forall_cons in H as [? H]); [constructor|..]; repeat (apply Forall_cons; split; [div_lia|]); [constructor..|].
  by apply IH.
Qed.

Lemma bytes_of_digits_of_bytes l : Forall (λ n, (n < 256)%nat) l → bytes_of_digits (digits_of_bytes l) = l.
Proof.
  revert l. fix IH 1. intros [|a [|b [|c l]]] H; cbn [digits_of_bytes bytes_of_digits]; repeat (apply Forall_cons in H as [? H]); [done|..].
  - f_equal; div_lia.
  - repeat f_equal; div_lia.
  - rewrite IH by done. repeat f_equal; div_lia.
Qed.

Lemma digit_char d : (d < 64)%nat → b64_digit (b64_char d) = Some d ∧ Ascii.eqb (b64_char d) "=" = false ∧ Ascii.eqb (b64_char d) "." = false.
Proof.
  intros Hd. assert (Forall (λ d, b64_digit (b64_char d) = Some d ∧ Ascii.eqb (b64_char d) "=" = false ∧ Ascii.eqb (b64_char d) "." = false) (seq 0 64)) as H.
  { cbn [seq]. repeat (constructor; [by vm_compute|]). constructor. }
  rewrite Forall_forall in H. apply H, elem_of_seq. lia.
Qed.

Lemma digits_of_digits l : Forall (λ d, (d < 64)%nat) l → digits (of_digits l) = l.
Proof. induction 1 as [|d l Hd _ IH]; [done|]. cbn. destruct (digit_char d Hd) as (-> & -> & _). by rewrite IH. Qed.

Lemma base64url_roundtrip s : fromBase64url (base64url s) = s.
Proof.
  unfold fromBase64url, base64url. rewrite digits_of_digits by apply digits_small, bytes_small. rewrite bytes_of_digits_of_bytes by apply bytes_small. apply of_bytes_bytes.
Qed.

Lemma base64url_no_dot s : lacks "." (base64url s) = true.
Proof.
  unfold base64url. pose proof (digits_small _ (bytes_small s)) as H. induction H as [|d l Hd _ IH]; [done|]. cbn. destruct (digit_char d Hd) as (_ & _ & ->). done.
Qed.

Lemma base64url_empty s : base64url s = "" → s = "".
Proof. intros H. rewrite <- (base64url_roundtrip s), H. done. Qed.

Lemma split_dots_none s : lacks "." s = true → split_dots s = [s].
Proof. induction s as [|c s IH]; [done|]. cbn. intros [Hc%negb_true_iff Hs]%andb_true_iff. by rewrite (IH Hs), Hc. Qed.

Lemma split_dots_once a b : lacks "." a = true → lacks "." b = true → split_dots (a ++ "." ++ b) = [a; b].
Proof.
  induction a as [|c a IH]; intros Ha Hb.
  - rewrite append_nil_l, append_String, append_nil_l. cbn. by rewrite (split_dots_none b Hb).
  - rewrite append_String. cbn in Ha |- *. apply andb_true_iff in Ha as [Hc%negb_true_iff Ha]. by rewrite (IH Ha Hb), Hc.
Qed.

(** JSON reads back what it wrote, and neither it nor the signature is empty. *)
Context (parse_stringify : ∀ c, parse (stringify c) = Some c) (stringify_some : ∀ c, stringify c ≠ "") (mac_some : ∀ s, mac s ≠ "").

(** A token verifies to the claims it was signed for until they expire. *)
Theorem token_roundtrip c token expected now :
  sign c = Ok token → (∀ z, c_expiresAt c = Some z → now < z) → (∀ a, expected = Some a → c_action c = Some a) → verify token expected now = Ok c.
Proof.
  unfold sign. intros ([] & Hv & [= <-])%rbind_ok He Ha. unfold verify. rewrite split_dots_once by apply base64url_no_dot.
  rewrite (bool_decide_eq_false_2 (_ = "")) by (intros E%base64url_empty; by eapply stringify_some).
  rewrite (bool_decide_eq_false_2 (_ = "")) by (intros E%base64url_empty; by eapply mac_some). cbn -[validateClaims fromBase64url base64url].
  rewrite !base64url_roundtrip, bool_decide_eq_true_2 by done. cbn -[validateClaims]. rewrite parse_stringify, Hv. cbn.
  replace (match c_expiresAt c with Some z => z <=? now | None => false end) with false by (destruct (c_expiresAt c) as [z|]; [specialize (He z eq_refl); lia|done]). cbn.
  destruct expected as [a|]; [|done]. by rewrite (Ha a eq_refl), bool_decide_eq_true_2.
Qed.
End tokens.

Definition sample_claims : WaitpointTokenClaims := Claims 2 (Some "w") (Some "t") (Some "acme") (Some "u") (Some Resolve) (Some 1000) (Some "n1").

Lemma verified_is_signed_witness : ∃ z, c_expiresAt sample_claims = Some z ∧ 10 < z.
Proof.
  destruct (verified_is_signed (λ _, "mac") (λ _, "{}") (λ _, Some sample_claims) "e30.bWFj" (Some Resolve) 10 sample_claims) as (_ & _ & _ & _ & _ & _ & _ & H & _); [by vm_compute|].
  exact H.
Defined.

(** Text after an empty third part is ignored. *)
Example trailing_text_ignored : verify (λ _, "mac") (λ _, Some sample_claims) "e30.bWFj..anything" (Some Resolve) 10 = Ok sample_claims.
Proof. by vm_compute. Qed.
End WaitpointTokens.
