(* ===== verification/ProcessorPacks.v ===== *)
(** * Modules and processor packs

    [runtime/modules.ts]: the lifecycle of a module as a state machine whose hooks settle
    in any order. [tasks/processor-pack.ts]: a pack checks readiness, runs its provider and
    cleans up; the Sharp and FFmpeg packs; the classification of errors.

    What a hook of the provider answers is an argument. Metrics, and the requirements and
    warnings of a report, are left out. *)

From stdpp Require Import base strings list pretty.
From Stdlib Require Import ZArith Lia.
From S2P Require Import Prelude GuardedRecovery Sorting CapabilityLinks.

Module ProcessorPacks.

(** ** Modules *)

Inductive RhinoQModuleState := Loaded | Provisioned | Validated | Cleaned.

#[global] Instance module_state_eq_dec : EqDecision RhinoQModuleState.
Proof. solve_decision. Defined.

Record RhinoQModuleDescriptor := Descriptor { d_id : option string; d_namespace : string; d_version : Z; d_contractVersion : Z }.

Inductive descriptor_error := IdRequired | NamespaceInvalid | VersionInvalid | ContractInvalid.

Definition validateDescriptor (d : RhinoQModuleDescriptor) : result descriptor_error unit :=
  (refuse (match d_id d with Some s => js_blank s | None => true end) IdRequired ;?
   refuse (negb (bool_decide (d_namespace d ∈ CapabilityLinks.namespaces))) NamespaceInvalid ;?
   refuse ((d_version d <? 1) || (CapabilityLinks.MAX_SAFE_INTEGER <? d_version d)) VersionInvalid ;?
   refuse (negb (d_contractVersion d =? 1)) ContractInvalid)%result.

Inductive hook := ProvisionHook | ValidateHook | CleanupHook.

(** [cleanupPromise]: undefined, pending or fulfilled. *)
Inductive cleanup_promise := NoPromise | Pending | Fulfilled.

(** The state, the hooks that are awaited, and every hook that was called. *)
Record lifecycle := Lifecycle { y_current : RhinoQModuleState; y_provisioning : nat; y_validating : nat; y_cleanup : cleanup_promise; y_called : list hook }.

Definition createRhinoQModule : lifecycle := Lifecycle Loaded 0 0 NoPromise [].

Inductive module_event :=
| ProvisionCalled | ProvisionSettles (ok : bool)
| ValidateCalled | ValidateSettles (ok : bool)
| CleanupCalled | CleanupSettles (ok : bool).

Definition module_step (m : lifecycle) (ev : module_event) : lifecycle :=
  match ev with
  | ProvisionCalled =>
      if bool_decide (y_current m = Loaded) then Lifecycle (y_current m) (S (y_provisioning m)) (y_validating m) (y_cleanup m) (y_called m ++ [ProvisionHook]) else m
  | ProvisionSettles ok =>
      match y_provisioning m with
      | O => m
      | S n => Lifecycle (if ok then Provisioned else y_current m) n (y_validating m) (y_cleanup m) (y_called m)
      end
  | ValidateCalled =>
      if bool_decide (y_current m = Provisioned) then Lifecycle (y_current m) (y_provisioning m) (S (y_validating m)) (y_cleanup m) (y_called m ++ [ValidateHook]) else m
  | ValidateSettles ok =>
      match y_validating m with
      | O => m
      | S n => Lifecycle (if ok then Validated else y_current m) (y_provisioning m) n (y_cleanup m) (y_called m)
      end
  | CleanupCalled =>
      match y_current m, y_cleanup m with
      | Cleaned, _ | _, Pending | _, Fulfilled => m
      | _, NoPromise => Lifecycle (y_current m) (y_provisioning m) (y_validating m) Pending (y_called m ++ [CleanupHook])
      end
  | CleanupSettles ok =>
      match y_cleanup m with
      | Pending => if ok then Lifecycle Cleaned (y_provisioning m) (y_validating m) Fulfilled (y_called m) else Lifecycle (y_current m) (y_provisioning m) (y_validating m) NoPromise (y_called m)
      | _ => m
      end
  end.

Definition lives (evs : list module_event) : lifecycle := foldl module_step createRhinoQModule evs.

(** ** Errors of a pack *)

Inductive RhinoQProcessorErrorClass := CancelledClass | TimeoutClass | CapacityClass | DependencyClass | InputClass | OutputClass | UnknownClass.

(** A pack's own error, or what a hook threw, with its message. *)
Inductive pack_error := RhinoQProcessorPackError (errorClass : RhinoQProcessorErrorClass) (cause : option string) | Thrown (message : string).

Definition classifyRhinoQProcessorError (e : pack_error) : RhinoQProcessorErrorClass :=
  match e with
  | RhinoQProcessorPackError c _ => c
  | Thrown message =>
      let m := to_lower message in
      if includes "abort" m || includes "cancel" m then CancelledClass
      else if includes "timeout" m || includes "exceeded" m then TimeoutClass
      else if includes "capacity" m || includes "free bytes" m || includes "workspace" m then CapacityClass
      else if includes "not found" m || includes "encoder" m || includes "ffmpeg" m then DependencyClass
      else if includes "input" m || includes "path" m then InputClass
      else if includes "output" m || includes "artifact" m then OutputClass
      else UnknownClass
  end.

Definition message_of (e : pack_error) : option string := match e with Thrown m => Some m | RhinoQProcessorPackError _ _ => None end.

(** ** Running a pack *)

Record RhinoQProcessorPackReadiness := Readiness { r_schemaVersion : Z; r_name : string; r_version : Z; r_ready : bool; r_missing : list string }.

(** The state of the pack's module, and the hooks of the provider that were called. *)
Inductive provider_hook := InspectHook | ProcessHook | PackCleanupHook.

Record pack_world := PackWorld { p_module : RhinoQModuleState; p_called : list provider_hook }.

Section pack.
Context {Out : Type} (name : string) (version : Z) (requiresWorkspace : bool).
Context (classify : pack_error → RhinoQProcessorErrorClass).
Open Scope act_scope.

(** A call of a hook that answers [r]. *)
Definition calls {A} (h : provider_hook) (r : result pack_error A) : act pack_world pack_error A := λ w, (r, PackWorld (p_module w) (p_called w ++ [h])).

Definition set_module (s : RhinoQModuleState) : act pack_world pack_error unit := λ w, (Ok tt, PackWorld s (p_called w)).

Definition module_is : act pack_world pack_error RhinoQModuleState := λ w, (Ok (p_module w), w).

Definition module_provision : act pack_world pack_error unit :=
  let+ s := module_is in
  match s with
  | Cleaned => athrow (Thrown "is already cleaned")
  | Loaded => set_module Provisioned
  | _ => aret tt
  end.

Definition report_valid (r : RhinoQProcessorPackReadiness) : bool := (r_schemaVersion r =? 1) && bool_decide (r_name r = name) && (r_version r =? version).

Definition module_validate (report : RhinoQProcessorPackReadiness) : act pack_world pack_error unit :=
  let+ s := module_is in
  match s with
  | Cleaned => athrow (Thrown "is already cleaned")
  | Loaded => athrow (Thrown "must be provisioned before validation")
  | Validated => aret tt
  | Provisioned => athrow_if (negb (report_valid report)) (Thrown "returned an invalid readiness report") ;+ set_module Validated
  end.

Definition inspect (answer : result pack_error RhinoQProcessorPackReadiness) : act pack_world pack_error RhinoQProcessorPackReadiness :=
  module_provision ;+
  let+ report := calls InspectHook answer in
  module_validate report ;+
  aret report.

(** [try { process } catch { wrap } finally { try { cleanup } catch { .. } }] *)
Definition bracket (process : result pack_error Out) (cleanup : option (result pack_error unit)) : act pack_world pack_error Out := λ w,
  let (r, w1) := calls ProcessHook process w in
  let outcome := match r with Err (Thrown m) => Err (RhinoQProcessorPackError (classify (Thrown m)) (Some m)) | r => r end in
  match cleanup with
  | None => (outcome, w1)
  | Some c =>
      match calls PackCleanupHook c w1, r with
      | (Err e, w2), Ok _ => (Err (RhinoQProcessorPackError OutputClass (message_of e)), w2)
      | (_, w2), _ => (outcome, w2)
      end
  end.

Definition run (aborted workspace : bool) (report : result pack_error RhinoQProcessorPackReadiness) (process : result pack_error Out) (cleanup : option (result pack_error unit)) : act pack_world pack_error Out :=
  athrow_if aborted (RhinoQProcessorPackError CancelledClass None) ;+
  athrow_if (requiresWorkspace && negb workspace) (RhinoQProcessorPackError CapacityClass None) ;+
  let+ readiness := inspect report in
  athrow_if (negb (r_ready readiness)) (RhinoQProcessorPackError DependencyClass None) ;+
  bracket process cleanup.
End pack.

(** [createRhinoQProcessorPack]: what a pack needs *)
Definition createRhinoQProcessorPack (name : option string) (version : option Z) : result string (string * Z) :=
  match truthy (js_trim <$> name) with
  | None => Err "processor pack name"
  | Some n =>
      let v := default 1 version in
      if (v <? 1) || (CapabilityLinks.MAX_SAFE_INTEGER <? v) then Err "processor pack version" else Ok (n, v)
  end.

(** ** Sharp and FFmpeg *)

Definition required (value : option string) (label : string) : result string string :=
  match truthy (js_trim <$> value) with Some s => Ok s | None => Err label end.

Record RhinoQSharpResizeOptions := Resize { z_width : option Z; z_height : option Z; z_format : option string }.

Inductive sharp_operation := SharpMetadata | SharpResize | SharpOther.

Inductive sharp_call := CallMetadata (inputPath : string) | CallResize (inputPath outputPath : string) (o : RhinoQSharpResizeOptions) | OutputFile (path : string) (contentType : option string).

Definition dimension_ok (z : option Z) : bool := match z with Some n => (1 <=? n) && (n <=? CapabilityLinks.MAX_SAFE_INTEGER) | None => true end.

(** The calls a Sharp job makes, one after the other. *)
Definition sharp_process (operation : sharp_operation) (inputPath outputPath : option string) (resize : option RhinoQSharpResizeOptions) : result string (list sharp_call) :=
  match operation with
  | SharpOther => Err "operation"
  | SharpMetadata => (let? i := required inputPath "inputPath" in Ok [CallMetadata i])%result
  | SharpResize =>
      (let? i := required inputPath "inputPath" in
       let? o := required outputPath "outputPath" in
       let r := default (Resize None None None) resize in
       refuse (negb (dimension_ok (z_width r) && dimension_ok (z_height r))) "dimensions" ;?
       refuse (match z_format r with Some f => js_blank f || (32 <? Z.of_nat (String.length f)) | None => false end) "format" ;?
       Ok [CallResize i o r; OutputFile o ((λ f, "image/" +:+ to_lower f) <$> truthy (z_format r))])%result
  end.

Definition sharp_inspect (available : bool) : RhinoQProcessorPackReadiness :=
  Readiness 1 "sharp" 1 available (if available then [] else ["Sharp-compatible runtime"]).

Inductive ffmpeg_operation := Probe | Transcode | Thumbnail | FFmpegOther.

Inductive ffmpeg_call := CallProbe (inputPath : string) | CallTranscode (inputPath outputPath : string) | CallThumbnail (inputPath outputPath : string).

Definition ffmpeg_process (operation : ffmpeg_operation) (inputPath outputPath : option string) : result string ffmpeg_call :=
  match operation with
  | FFmpegOther => Err "operation"
  | _ =>
      (let? i := required inputPath "inputPath" in
       match operation with
       | Probe => Ok (CallProbe i)
       | _ => let? o := required outputPath "outputPath" in Ok (match operation with Transcode => CallTranscode i o | _ => CallThumbnail i o end)
       end)%result
  end.

Record RhinoQMediaRuntimeReport := MediaReport { e_missingEncoders : list string; e_freeBytes : Z; e_minimumFreeBytes : Z }.

Definition media_ready (m : RhinoQMediaRuntimeReport) : bool := bool_decide (e_missingEncoders m = []) && (e_minimumFreeBytes m <=? e_freeBytes m).

Definition ffmpeg_inspect (m : RhinoQMediaRuntimeReport) : RhinoQProcessorPackReadiness :=
  Readiness 1 "ffmpeg" 1 (media_ready m)
    (((λ e, "encoder " +:+ e) <$> e_missingEncoders m) ++ (if e_freeBytes m <? e_minimumFreeBytes m then ["free workspace " +:+ pretty (e_freeBytes m) +:+ " bytes"] else [])).

(** ** A module is cleaned at most once *)

Definition is_cleanup (h : hook) : bool := match h with CleanupHook => true | _ => false end.

Definition hooks (p : hook → bool) (l : list hook) : nat := length (List.filter p l).

(** Failed cleanups, and the one that is pending or done. *)
Fixpoint failed_cleanups (m : lifecycle) (evs : list module_event) : nat :=
  match evs with
  | [] => 0
  | ev :: evs =>
      ((match ev, y_cleanup m with CleanupSettles false, Pending => 1 | _, _ => 0 end) + failed_cleanups (module_step m ev) evs)%nat
  end.

Definition owed (m : lifecycle) : nat := match y_cleanup m with NoPromise => 0 | _ => 1 end.

Lemma hooks_snoc l h : hooks is_cleanup (l ++ [h]) = (hooks is_cleanup l + if is_cleanup h then 1 else 0)%nat.
Proof. unfold hooks. rewrite List.filter_app, length_app. cbn. by destruct (is_cleanup h). Qed.

Lemma cleanup_accounted evs m : (hooks is_cleanup (y_called (foldl module_step m evs)) + owed m = hooks is_cleanup (y_called m) + failed_cleanups m evs + owed (foldl module_step m evs))%nat.
Proof.
  revert m. induction evs as [|ev evs IH]; intros m; cbn [foldl failed_cleanups]; [lia|]. specialize (IH (module_step m ev)).
  assert (hooks is_cleanup (y_called (module_step m ev)) + owed m + match ev, y_cleanup m with CleanupSettles false, Pending => 1 | _, _ => 0 end
          = hooks is_cleanup (y_called m) + 2 * (match ev, y_cleanup m with CleanupSettles false, Pending => 1 | _, _ => 0 end) + owed (module_step m ev))%nat as E.
  { destruct ev as [|ok| |ok| |ok]; cbn -[hooks]; unfold owed;
      repeat match goal with |- context [if ?b then _ else _] => destruct b | |- context [match y_provisioning m with _ => _ end] => destruct (y_provisioning m) | |- context [match y_validating m with _ => _ end] => destruct (y_validating m) end;
      try (destruct (y_cleanup m) eqn:?); try (destruct (y_current m)); cbn -[hooks]; rewrite ?hooks_snoc; cbn -[hooks];
      repeat match goal with H : y_cleanup m = _ |- _ => rewrite H end; lia. }
  lia.
Qed.

(** However calls of a module overlap, its cleanup hook runs once more than it failed,
    at most. *)
Theorem module_cleaned_once evs : (hooks is_cleanup (y_called (lives evs)) ≤ S (failed_cleanups createRhinoQModule evs))%nat.
Proof. pose proof (cleanup_accounted evs createRhinoQModule) as H. unfold lives. cbn in H. unfold owed in H. destruct (y_cleanup _); lia. Qed.

(** A module whose provisioning ends after its cleanup is provisioned again, and no
    later call of cleanup reaches the hook. *)
Theorem revived_module_not_cleaned evs :
  Forall (λ ev, ev = CleanupCalled) evs →
  let m := lives ([ProvisionCalled; CleanupCalled; CleanupSettles true; ProvisionSettles true] ++ evs) in
  y_current m = Provisioned ∧ y_called m = [ProvisionHook; CleanupHook].
Proof. intros H. unfold lives. rewrite foldl_app. cbn. induction H as [|ev evs -> _ IH]; [done|]. exact IH. Qed.

(** ** A run of a pack *)

Lemma abind_eq {S E A B} (m : act S E A) (k : A → act S E B) s : abind m k s = match m s with (Ok a, s') => k a s' | (Err e, s') => (Err e, s') end.
Proof. done. Qed.

Lemma inspect_spec name version report w :
  (∃ e w', inspect name version report w = (Err e, w') ∧ (p_called w' = p_called w ∨ p_called w' = p_called w ++ [InspectHook])) ∨
  (∃ rep w', inspect name version report w = (Ok rep, w') ∧ report = Ok rep ∧ p_called w' = p_called w ++ [InspectHook]).
Proof.
  unfold inspect. rewrite abind_eq. destruct w as [[] called]; cbn; try (left; eexists _, _; split; [done|by left]);
    destruct report as [rep|e]; cbn; try (left; eexists _, _; split; [done|by right]);
    unfold module_validate, abind, athrow_if; cbn; try (destruct (report_valid name version rep); cbn; [|left; eexists _, _; split; [done|by right]]);
    right; eexists _, _; split_and!; done.
Qed.

(** A pack processes only after a report that is ready; then the cleanup hook runs once,
    whatever happened; the error of the provider is the one that is thrown, classified,
    and a failed cleanup is reported only after a job that succeeded. *)
Theorem pack_run_bracketed {Out} name version ws classify aborted workspace report (process : result pack_error Out) cleanup w :
  let '(r, w') := run name version ws classify aborted workspace report process (Some cleanup) w in
  (p_called w' = p_called w ∨ p_called w' = p_called w ++ [InspectHook]) ∧ is_ok r = false ∨
  p_called w' = p_called w ++ [InspectHook; ProcessHook; PackCleanupHook] ∧
    (∃ rep, report = Ok rep ∧ r_ready rep = true) ∧ aborted = false ∧ (ws = true → workspace = true) ∧
    r = match process, cleanup with
        | Ok a, Ok _ => Ok a
        | Ok _, Err e => Err (RhinoQProcessorPackError OutputClass (message_of e))
        | Err (Thrown m), _ => Err (RhinoQProcessorPackError (classify (Thrown m)) (Some m))
        | Err e, _ => Err e
        end.
Proof.
  unfold run. destruct aborted; [left; split; [by left|done]|]. destruct (ws && negb workspace) eqn:Ew; [left; split; [by left|done]|].
  unfold athrow_if, aret. unfold abind at 1 2. rewrite abind_eq.
  destruct (inspect_spec name version report w) as [(e & w' & -> & H)|(rep & w' & -> & Hrep & H)]; [by left|].
  unfold abind. destruct (r_ready rep) eqn:Er; cbn; [|left; split; [by right|done]].
  assert (ws = true → workspace = true) as Hws by by destruct ws, workspace. unfold bracket, calls. cbn.
  destruct process as [a|[c x|m]], cleanup as [[]|e]; cbn; right; rewrite H, <- !app_assoc; split_and!; eauto.
Qed.

(** Only the first report of a pack is checked against its name and version: once the
    module is validated, a report about another processor is taken as it is. *)
Theorem later_reports_unchecked {Out} name version classify rep (a : Out) called :
  r_ready rep = true → run name version false classify false true (Ok rep) (Ok a) None (PackWorld Validated called) = (Ok a, PackWorld Validated (called ++ [InspectHook; ProcessHook])).
Proof. intros Hr. unfold run, athrow_if, abind, aret. cbn. rewrite Hr. cbn. by rewrite <- app_assoc. Qed.

(** A report that says not ready names what is missing. *)
Theorem ffmpeg_missing_named m : r_ready (ffmpeg_inspect m) = false → r_missing (ffmpeg_inspect m) ≠ [].
Proof. unfold ffmpeg_inspect, media_ready. cbn. case_bool_decide as E; cbn; [rewrite E; cbn; destruct (_ <? _) eqn:?; [done|lia]|]. by destruct (e_missingEncoders m). Qed.
End ProcessorPacks.
