(* ===== verification/TaskList.v ===== *)
(** * The inbox of the browser

    [TaskListStore] of [tasks/list-store.ts] as a state machine: the page it shows, the
    controller, and the polling or streaming loops and refreshes under way, whose answers
    arrive in any order; with its theorems.

    Times and error values are left out; [localeCompare] compares the sort keys of a
    collation, which is a parameter. *)

From stdpp Require Import base strings list.
From Stdlib Require Import ZArith Lia.
From S2P Require Import Prelude Sorting.

Module TaskList.

Section store.
Context {D : Type} (collation : string → string).

Record TaskSnapshot := Snapshot { k_id : string; k_entityVersion : Z; k_state : string; k_type : string; k_updatedAt : string; k_data : D }.

Record TaskListQuery := Query { q_states : list string; q_types : list string }.

Inductive list_status := Idle | Loading | Connected | Reconnecting | Stopped.
Inductive transport := PollingTransport | Live | PollingFallback.

(** ** Merging *)

(** [new Map(tasks.map((task) => [task.id, task]))] *)
Definition by_id (l : list TaskSnapshot) : list (string * TaskSnapshot) := foldl (λ m t, map_set (k_id t) t m) [] l.

Fixpoint place_newest (x : TaskSnapshot) (l : list TaskSnapshot) : list TaskSnapshot :=
  match l with
  | [] => [x]
  | y :: l' => if String.leb (collation (k_updatedAt y)) (collation (k_updatedAt x)) then x :: l else y :: place_newest x l'
  end.

(** [sort((a, b) => b.updatedAt.localeCompare(a.updatedAt))] *)
Definition newest_first (l : list TaskSnapshot) : list TaskSnapshot := foldr place_newest [] l.

Definition newer (old : option TaskSnapshot) (t : TaskSnapshot) : bool := match old with Some o => k_entityVersion o <=? k_entityVersion t | None => true end.

Definition page_entry (previous m : list (string * TaskSnapshot)) (t : TaskSnapshot) : list (string * TaskSnapshot) :=
  match map_get (k_id t) previous with
  | Some old => if newer (Some old) t then map_set (k_id t) t m else map_set (k_id t) old m
  | None => map_set (k_id t) t m
  end.

Definition mergeNewestPage (current incoming : list TaskSnapshot) : list TaskSnapshot :=
  newest_first (foldl (page_entry (by_id current)) [] incoming).*2.

Definition mergeNewestSnapshots (current : list TaskSnapshot) (t : TaskSnapshot) : list TaskSnapshot :=
  let m := by_id current in newest_first (if newer (map_get (k_id t) m) t then map_set (k_id t) t m else m).*2.

(** ** The store *)

Context (query : TaskListQuery) (canStream : bool) (pollIntervalMs : Z).

Definition wanted (l : list string) (s : string) : bool := bool_decide (l = []) || bool_decide (s ∈ l).

Definition filtered (l : list TaskSnapshot) : list TaskSnapshot := List.filter (λ t, wanted (q_states query) (k_state t) && wanted (q_types query) (k_type t)) l.

(** What a loop awaits: a page, the end of its delay, or the next event of the stream. *)
Inductive phase := Polling | PollDelay (ms : Z) | Streaming | Falling | StreamDelay (ms : Z) | Returned.

(** A loop has the number of its controller, and counts its failures. *)
Record loop := Loop { o_controller : nat; o_phase : phase; o_failures : Z }.

Record store := Store {
  s_tasks : list TaskSnapshot;
  s_status : list_status;
  s_transport : option transport;
  s_reconnectAttempts : option Z;
  s_controller : option nat;
  s_next : nat;
  s_loops : list loop;
  s_refreshes : nat }.

Definition initial : store := Store [] Idle None None None 0 [] 0.

Definition show (tasks : list TaskSnapshot) (status : list_status) (tr : option transport) (attempts : option Z) (s : store) : store :=
  Store tasks status tr attempts (s_controller s) (s_next s) (s_loops s) (s_refreshes s).

Definition with_loop (i : nat) (l : loop) (s : store) : store :=
  Store (s_tasks s) (s_status s) (s_transport s) (s_reconnectAttempts s) (s_controller s) (s_next s) (<[i := l]> (s_loops s)) (s_refreshes s).

Definition start (s : store) : store :=
  match s_controller s with
  | Some _ => s
  | None =>
      Store (s_tasks s) (match s_tasks s with [] => Loading | _ => Connected end) (s_transport s) (s_reconnectAttempts s) (Some (s_next s)) (S (s_next s))
        (s_loops s ++ [Loop (s_next s) (if canStream then Streaming else Polling) 0]) (s_refreshes s)
  end.

Definition stop (s : store) : store :=
  Store (s_tasks s) Stopped (s_transport s) (s_reconnectAttempts s) None (s_next s) (s_loops s) (s_refreshes s).

(** [refresh] once its page has arrived *)
Definition refreshed (tasks : list TaskSnapshot) (s : store) : store :=
  show (filtered (mergeNewestPage (s_tasks s) tasks)) Connected (s_transport s) (s_reconnectAttempts s) s.

Definition aborted (s : store) (l : loop) : bool := negb (bool_decide (s_controller s = Some (o_controller l))).

Definition backoff (exponent : Z) : Z := Z.min 30000 (pollIntervalMs * 2 ^ Z.min exponent 4).

(** [if (!(await delay(ms, signal))) return] *)
Definition delayed (i : nat) (l : loop) (p : Z → phase) (exponent failures : Z) (s : store) : store :=
  with_loop i (Loop (o_controller l) (if aborted s l then Returned else p (backoff exponent)) failures) s.

(** One page of [poll] *)
Definition polled (i : nat) (l : loop) (answer : option (list TaskSnapshot)) (s : store) : store :=
  match answer with
  | Some tasks =>
      let s := refreshed tasks s in
      delayed i l PollDelay 0 0 (show (s_tasks s) (s_status s) (Some PollingTransport) (s_reconnectAttempts s) s)
  | None =>
      let failures := o_failures l + 1 in
      delayed i l PollDelay failures failures (show (s_tasks s) Reconnecting (s_transport s) (Some failures) s)
  end.

(** The catch of [run], up to its refresh *)
Definition stream_failed (i : nat) (l : loop) (s : store) : store :=
  if aborted s l then with_loop i (Loop (o_controller l) Returned (o_failures l)) s else
  let failures := o_failures l + 1 in
  with_loop i (Loop (o_controller l) Falling failures) (show (s_tasks s) Reconnecting (Some PollingFallback) (Some failures) s).

(** .. and after it *)
Definition fell_back (i : nat) (l : loop) (answer : option (list TaskSnapshot)) (s : store) : store :=
  let s := match answer with Some tasks => let s := refreshed tasks s in show (s_tasks s) (s_status s) (Some PollingFallback) (s_reconnectAttempts s) s | None => s end in
  delayed i l StreamDelay (o_failures l - 1) (o_failures l) s.

Inductive stream_event := TaskError | TaskPage (tasks : list TaskSnapshot) | TaskPoint (t : TaskSnapshot) | OtherEvent.

Definition streamed (i : nat) (l : loop) (ev : stream_event) (s : store) : store :=
  if aborted s l then with_loop i (Loop (o_controller l) Returned (o_failures l)) s else
  match ev with
  | TaskError => stream_failed i l s
  | TaskPage tasks => show (filtered (mergeNewestPage [] tasks)) Connected (Some Live) (Some 0) s
  | TaskPoint t => show (filtered (mergeNewestSnapshots (s_tasks s) t)) Connected (Some Live) (Some 0) s
  | OtherEvent => s
  end.

(** [while (!signal.aborted)] *)
Definition loop_again (i : nat) (l : loop) (p : phase) (s : store) : store :=
  with_loop i (Loop (o_controller l) (if aborted s l then Returned else p) (o_failures l)) s.

Inductive store_event :=
| StartCalled
| StopCalled
| RefreshCalled
| RefreshSettles (answer : option (list TaskSnapshot))
| LoopReads (i : nat) (answer : option (list TaskSnapshot))
| StreamGives (i : nat) (ev : stream_event)
| StreamEnds (i : nat)
| DelayEnds (i : nat).

Definition step (s : store) (ev : store_event) : store :=
  match ev with
  | StartCalled => start s
  | StopCalled => stop s
  | RefreshCalled => Store (s_tasks s) (s_status s) (s_transport s) (s_reconnectAttempts s) (s_controller s) (s_next s) (s_loops s) (S (s_refreshes s))
  | RefreshSettles answer =>
      match s_refreshes s with
      | O => s
      | S n =>
          let s := Store (s_tasks s) (s_status s) (s_transport s) (s_reconnectAttempts s) (s_controller s) (s_next s) (s_loops s) n in
          match answer with Some tasks => refreshed tasks s | None => s end
      end
  | LoopReads i answer =>
      match s_loops s !! i with
      | Some (Loop _ Polling _ as l) => polled i l answer s
      | Some (Loop _ Falling _ as l) => fell_back i l answer s
      | _ => s
      end
  | StreamGives i ev => match s_loops s !! i with Some (Loop _ Streaming _ as l) => streamed i l ev s | _ => s end
  | StreamEnds i => match s_loops s !! i with Some (Loop _ Streaming _ as l) => stream_failed i l s | _ => s end
  | DelayEnds i =>
      match s_loops s !! i with
      | Some (Loop _ (PollDelay _) _ as l) => loop_again i l Polling s
      | Some (Loop _ (StreamDelay _) _ as l) => loop_again i l Streaming s
      | _ => s
      end
  end.

Definition after (evs : list store_event) : store := foldl step initial evs.

(** ** Merged pages *)

Lemma newest_first_perm l : newest_first l ≡ₚ l.
Proof.
  induction l as [|x l IH]; [done|]. cbn. assert (∀ l, place_newest x l ≡ₚ x :: l) as Hp.
  { induction l0 as [|y l0 IH0]; cbn; [done|]. destruct (String.leb _ _); [done|]. rewrite IH0. apply Permutation_swap. }
  by rewrite Hp, IH.
Qed.

(** Entries under the id of their Task, each once. *)
Definition entries_ok (m : list (string * TaskSnapshot)) : Prop := NoDup m.*1 ∧ Forall (λ p, k_id p.2 = p.1) m.

Lemma set_ok t m : entries_ok m → entries_ok (map_set (k_id t) t m).
Proof.
  intros [Hn Hk]. split; [by apply map_set_NoDup|]. clear Hn. induction Hk as [|[k v] m Hv Hm IH]; cbn; [by repeat constructor|].
  destruct (bool_decide (k = k_id t)); by constructor.
Qed.

Lemma entries_ids m : entries_ok m → k_id <$> m.*2 = m.*1.
Proof. intros [_ H]. induction H as [|[k v] m Hv _ IH]; [done|]. cbn in *. by rewrite Hv, IH. Qed.

Lemma by_id_snoc l t : by_id (l ++ [t]) = map_set (k_id t) t (by_id l).
Proof. unfold by_id. by rewrite foldl_app. Qed.

Lemma by_id_ok l : entries_ok (by_id l).
Proof. induction l as [|t l IH] using rev_ind; [split; constructor|]. rewrite by_id_snoc. by apply set_ok. Qed.

Lemma by_id_get l t : NoDup (k_id <$> l) → t ∈ l → map_get (k_id t) (by_id l) = Some t.
Proof.
  induction l as [|u l IH] using rev_ind; intros Hn Ht; [by apply elem_of_nil in Ht|]. rewrite by_id_snoc, map_get_set. rewrite fmap_app in Hn. cbn in Hn.
  apply NoDup_app in Hn as (Hn & Hd & _). apply elem_of_app in Ht as [Ht|Ht%list_elem_of_singleton]; [|subst; by rewrite bool_decide_eq_true_2].
  rewrite bool_decide_eq_false_2; [auto|]. intros E. apply (Hd (k_id t)); [by apply list_elem_of_fmap_2|]. rewrite <- E. by left.
Qed.

(** A snapshot is not older than the one the map has under its id. *)
Definition keeps (m : list (string * TaskSnapshot)) (l : list TaskSnapshot) : Prop :=
  ∀ x, x ∈ l → ∀ o, map_get (k_id x) m = Some o → k_entityVersion o ≤ k_entityVersion x.

Lemma set_values (k : string) (t x : TaskSnapshot) m : x ∈ (map_set k t m).*2 → x = t ∨ x ∈ m.*2.
Proof.
  induction m as [|[k1 v1] m IH]; cbn; [rewrite list_elem_of_singleton; auto|].
  destruct (bool_decide _); cbn; rewrite !elem_of_cons; naive_solver.
Qed.

Lemma page_ok prev incoming : entries_ok prev → entries_ok (foldl (page_entry prev) [] incoming) ∧ keeps prev (foldl (page_entry prev) [] incoming).*2.
Proof.
  intros [Hn Hk]. induction incoming as [|t l [IH1 IH2]] using rev_ind; [split; [split; constructor|by intros x ?%elem_of_nil]|]. rewrite foldl_app. cbn [foldl].
  set (m := foldl (page_entry prev) [] l) in *. unfold page_entry. destruct (map_get (k_id t) prev) as [old|] eqn:Eo.
  - assert (k_id old = k_id t) as Hid. { apply map_get_elem in Eo. rewrite Forall_forall in Hk. apply (Hk _ Eo). }
    destruct (newer (Some old) t) eqn:En.
    + split; [by apply set_ok|]. intros x [->|Hx]%set_values; [|auto]. intros o. rewrite Eo. intros [= <-]. cbn in En. lia.
    + rewrite <- Hid. split; [by apply set_ok|]. intros x [->|Hx]%set_values; [|auto]. intros o. rewrite Hid, Eo. intros [= <-]. lia.
  - split; [by apply set_ok|]. intros x [->|Hx]%set_values; [|auto]. intros o. by rewrite Eo.
Qed.

Lemma merged_page current incoming :
  NoDup (k_id <$> mergeNewestPage current incoming) ∧
  (NoDup (k_id <$> current) → ∀ x y, x ∈ current → y ∈ mergeNewestPage current incoming → k_id x = k_id y → k_entityVersion x ≤ k_entityVersion y).
Proof.
  destruct (page_ok (by_id current) incoming (by_id_ok current)) as [Hok Hkeep]. unfold mergeNewestPage. split.
  - rewrite newest_first_perm, entries_ids by done. apply Hok.
  - intros Hn x y Hx Hy E. rewrite newest_first_perm in Hy. apply (Hkeep y Hy). rewrite <- E. by apply by_id_get.
Qed.

Lemma merged_point current t :
  NoDup (k_id <$> mergeNewestSnapshots current t) ∧
  (NoDup (k_id <$> current) → ∀ x y, x ∈ current → y ∈ mergeNewestSnapshots current t → k_id x = k_id y → k_entityVersion x ≤ k_entityVersion y).
Proof.
  pose proof (by_id_ok current) as Hok. unfold mergeNewestSnapshots.
  assert (NoDup (k_id <$> current) → ∀ x y, x ∈ current → y ∈ (by_id current).*2 → k_id x = k_id y → x = y) as Hsame.
  { intros Hn x y Hx ([k z] & -> & Hz)%list_elem_of_fmap E. pose proof (by_id_get _ _ Hn Hx) as Gx. destruct Hok as [Hd Hf]. rewrite Forall_forall in Hf. pose proof (Hf _ Hz) as Ez. cbn in *.
    rewrite E, Ez in Gx. rewrite (map_get_NoDup _ _ _ Hd Hz) in Gx. by injection Gx. }
  destruct (newer _ t) eqn:En.
  - split; [rewrite newest_first_perm, entries_ids by (by apply set_ok); by apply map_set_NoDup, (proj1 Hok)|].
    intros Hn x y Hx Hy E. rewrite newest_first_perm in Hy. apply set_values in Hy as [->|Hy]; [|by rewrite (Hsame Hn x y)].
    rewrite <- E, (by_id_get _ _ Hn Hx) in En. cbn in En. lia.
  - split; [rewrite newest_first_perm, entries_ids by done; apply Hok|]. intros Hn x y Hx Hy E. rewrite newest_first_perm in Hy. by rewrite (Hsame Hn x y).
Qed.

(** ** The page the store shows *)

Definition shown_ok (l : list TaskSnapshot) : Prop := NoDup (k_id <$> l) ∧ Forall (λ t, wanted (q_states query) (k_state t) && wanted (q_types query) (k_type t) = true) l.

Lemma filtered_sub l x : x ∈ filtered l → x ∈ l.
Proof. unfold filtered. rewrite !list_elem_of_In, List.filter_In. tauto. Qed.

Lemma filtered_ok l : NoDup (k_id <$> l) → shown_ok (filtered l).
Proof.
  intros Hn. unfold filtered. split.
  - induction l as [|x l IH]; cbn in *; [constructor|]. apply NoDup_cons in Hn as [Hx Hn]. destruct (_ && _); [|auto]. cbn. apply NoDup_cons. split; [|auto].
    intros (y & E & Hy)%list_elem_of_fmap. apply Hx. rewrite E. apply list_elem_of_fmap_2. by apply filtered_sub.
  - apply Forall_forall. intros x. rewrite list_elem_of_In, List.filter_In. tauto.
Qed.

(** A page that arrives on the stream replaces what is shown. *)
Definition live_page (ev : store_event) : bool := match ev with StreamGives _ (TaskPage _) => true | _ => false end.

Definition not_older (l l' : list TaskSnapshot) : Prop := ∀ x y, x ∈ l → y ∈ l' → k_id x = k_id y → k_entityVersion x ≤ k_entityVersion y.

Lemma not_older_refl l : NoDup (k_id <$> l) → not_older l l.
Proof. intros Hn x y Hx Hy E. by rewrite (NoDup_key_inj k_id l x y). Qed.

Lemma not_older_filtered l l' : not_older l l' → not_older l (filtered l').
Proof. intros H x y Hx Hy. apply H; [done|]. by apply filtered_sub. Qed.

Lemma refreshed_tasks tasks s : shown_ok (s_tasks s) → shown_ok (s_tasks (refreshed tasks s)) ∧ not_older (s_tasks s) (s_tasks (refreshed tasks s)).
Proof. intros [Hn _]. destruct (merged_page (s_tasks s) tasks) as [H1 H2]. split; [by apply filtered_ok|]. exact (not_older_filtered _ _ (H2 Hn)). Qed.

Lemma step_tasks s ev : shown_ok (s_tasks s) → shown_ok (s_tasks (step s ev)) ∧ (live_page ev = false → not_older (s_tasks s) (s_tasks (step s ev))).
Proof.
  intros Hs. pose proof (not_older_refl _ (proj1 Hs)) as Hr.
  destruct ev as [| | |answer|i answer|i ev|i|i]; cbn.
  - unfold start. by destruct (s_controller s).
  - done.
  - done.
  - destruct (s_refreshes s); [done|]. destruct answer as [tasks|]; [|done]. by destruct (refreshed_tasks tasks s Hs).
  - destruct (s_loops s !! i) as [[c [] f]|]; try done; destruct answer as [tasks|]; try done; by destruct (refreshed_tasks tasks s Hs).
  - destruct (s_loops s !! i) as [[c [] f]|]; try done. unfold streamed, stream_failed. destruct (aborted s _) eqn:Ea; [done|]. destruct ev as [|tasks|t|]; try done; cbn.
    + split; [by apply filtered_ok, merged_page|done].
    + destruct (merged_point (s_tasks s) t) as [H1 H2]. split; [by apply filtered_ok|]. intros _. exact (not_older_filtered _ _ (H2 (proj1 Hs))).
  - destruct (s_loops s !! i) as [[c [] f]|]; try done. unfold stream_failed. by destruct (aborted s _).
  - by destruct (s_loops s !! i) as [[c [] f]|].
Qed.

(** The store shows every Task once and only Tasks its query asks for; apart from a whole
    page that arrives on the stream, nothing replaces a Task by an older version. *)
Theorem list_shows_newest evs ev :
  shown_ok (s_tasks (after evs)) ∧ (live_page ev = false → not_older (s_tasks (after evs)) (s_tasks (after (evs ++ [ev])))).
Proof.
  assert (shown_ok (s_tasks (after evs))) as Hs.
  { unfold after. induction evs as [|e evs IH] using rev_ind; [split; constructor|]. rewrite foldl_app. by apply step_tasks. }
  split; [done|]. intros Hl. unfold after. rewrite foldl_app. by apply step_tasks.
Qed.
End store.

(** ** Three surprises *)

Definition sample (version : Z) : TaskSnapshot := Snapshot (D := unit) "t" version "running" "export" "2026" tt.

Definition anything : TaskListQuery := Query [] [].

(** A page on the stream takes a Task back to an older version. *)
Theorem live_page_goes_back :
  s_tasks (after id anything true 2000 [StartCalled; StreamGives 0 (TaskPoint (sample 2)); StreamGives 0 (TaskPage [sample 1])]) = [sample 1].
Proof. by vm_compute. Qed.

(** A store that was stopped shows itself connected again when a read that was under way
    arrives. *)
Theorem stopped_store_connects_again :
  s_status (after id anything false 2000 [StartCalled; StopCalled; LoopReads 0 (Some [sample 1])]) = Connected.
Proof. by vm_compute. Qed.

(** The reconnects the store reports are those since it was started, not those since the
    last live event. *)
Theorem reconnects_not_reset :
  s_reconnectAttempts (after id anything true 2000 [StartCalled; StreamEnds 0; LoopReads 0 None; DelayEnds 0; StreamGives 0 (TaskPage [sample 1]); StreamEnds 0]) = Some 2.
Proof. by vm_compute. Qed.
End TaskList.
