(* ===== verification/Evidence.v ===== *)
(** * Evidence

    The documents the SDK derives from the records of a Task: the user's explanation
    ([tasks/ui.ts]), the flight recorder ([tasks/flight-recorder.ts]), the evidence passport
    ([tasks/evidence-passport.ts]) and the incident explanation
    ([tasks/incident-explanation.ts]); and the chain a verification sets off
    ([tasks/verification.ts]); with their theorems.

    [localeCompare] compares the sort keys of a collation, [Date.parse] and the size of a
    JSON text are parameters. Sentences are named by constructors; the progress of the
    user's model, the events of the recorder and the evidence statements of an incident are
    left out. *)

From stdpp Require Import base gmap strings list sorting.
From Stdlib Require Import ZArith Lia.
From S2P Require Import Prelude Sorting Programs.

Module Evidence.

(** ** Records *)

Record attempt := Attempt {
  x_id : string; x_itemKey : option string; x_attempt : Z; x_state : string; x_version : Z; x_runtime : string; x_runtimeScope : option string;
  x_hasResult : option bool; x_failureReason : option string }.

Inductive cancellation_status := CannotCancelSafely | TooLate | OtherCancellation.

#[global] Instance cancellation_status_eq_dec : EqDecision cancellation_status.
Proof. solve_decision. Defined.

Record item_counts := ItemCounts { n_total : Z; n_succeeded : Z; n_failed : Z; n_cancelled : Z }.

(** A summary carries counts, a snapshot its attempts. *)
Record task := Task {
  k_id : string; k_state : string; k_ownerId : option string; k_cancellation : option cancellation_status; k_hasResult : bool;
  k_counts : option item_counts; k_executions : list attempt }.

Inductive verification_status := Verified | Mismatch | Unverifiable.

#[global] Instance verification_status_eq_dec : EqDecision verification_status.
Proof. solve_decision. Defined.

Record verification := Verification { f_id : string; f_verifier : string; f_status : verification_status; f_verifiedAt : string }.

Record provider_operation := Operation { o_id : string; o_state : string }.

Record waitpoint := Waitpoint { w_id : string; w_state : string }.

Record artifact := Artifact { a_id : string; a_expiresAt : string }.

(** ** Latest attempts *)

Section latest.
Context (key : attempt → string) (later : attempt → attempt → bool).

Definition keep_later (m : list (string * attempt)) (x : attempt) : list (string * attempt) :=
  match map_get (key x) m with
  | Some prior => if later prior x then map_set (key x) x m else m
  | None => map_set (key x) x m
  end.

Definition latest_of (l : list attempt) : list attempt := (foldl keep_later [] l).*2.
End latest.

Definition by_number (prior x : attempt) : bool := x_attempt prior <? x_attempt x.

(** An attempt without an item is an item of its own here .. *)
Definition own_item (x : attempt) : string := default (x_id x) (x_itemKey x).

(** .. and the default item there. *)
Definition default_item (x : attempt) : string := default "default" (x_itemKey x).

Definition in_state (s : string) (x : attempt) : bool := bool_decide (x_state x = s).

Definition count (p : attempt → bool) (l : list attempt) : Z := Z.of_nat (length (List.filter p l)).

(** ** The user's explanation *)

Definition userCounts (t : task) : item_counts :=
  match k_counts t with
  | Some c => c
  | None =>
      let l := latest_of own_item by_number (k_executions t) in
      ItemCounts (Z.of_nat (length l)) (count (in_state "succeeded") l) (count (in_state "failed") l) (count (in_state "cancelled") l)
  end.

Inductive retry_safety := Safe | Unsafe | Review.
Inductive recommended := Wait | CancelAction | RetryAction | Download | Inspect.

Inductive headline := NotStoppedSafely | FinishedBeforeCancellation | NeedsConfirmation | ItemsNeedAttention (failed : Z) | GettingReady | WaitingToStart | InProgress
| Cancelling | Stopped | DidNotFinish | ResultReady | Completed | StatusUpdated.

Record TaskExplanation := Explanation { e_headline : headline; e_retrySafety : retry_safety; e_recommended : option recommended }.

Definition explainTask (t : task) : TaskExplanation :=
  let result := if k_hasResult t then Some Download else None in
  let counts := userCounts t in
  if bool_decide (k_cancellation t = Some CannotCancelSafely) then Explanation NotStoppedSafely Unsafe (Some Inspect)
  else if bool_decide (k_cancellation t = Some TooLate) then Explanation FinishedBeforeCancellation Unsafe (Some (default Inspect result))
  else if bool_decide (k_state t = "uncertain") then Explanation NeedsConfirmation Unsafe (Some Inspect)
  else if (0 <? n_failed counts) && (0 <? n_succeeded counts) then Explanation (ItemsNeedAttention (n_failed counts)) Review (Some Inspect)
  else if bool_decide (k_state t = "pending") then Explanation GettingReady Review (Some Wait)
  else if bool_decide (k_state t = "queued") then Explanation WaitingToStart Review (Some CancelAction)
  else if bool_decide (k_state t = "running") then Explanation InProgress Review (Some CancelAction)
  else if bool_decide (k_state t = "cancel_requested") then Explanation Cancelling Unsafe (Some Wait)
  else if bool_decide (k_state t = "cancelled") then Explanation Stopped Review (Some (default Inspect result))
  else if bool_decide (k_state t = "failed") then Explanation DidNotFinish Review (Some Inspect)
  else if bool_decide (k_state t = "succeeded") then Explanation (if k_hasResult t then ResultReady else Completed) Unsafe result
  else Explanation StatusUpdated Review (Some Inspect).

Inductive attention_kind := AttUncertain | AttWaiting | AttExpired | AttFailed | AttPartialFailure | AttCancelTooLate | AttCannotCancel | AttMismatch | AttProviderUncertain.

(** [taskAttention] of the user's model *)
Definition ui_attention (t : task) : option attention_kind :=
  let counts := userCounts t in
  if bool_decide (k_state t = "uncertain") then Some AttUncertain
  else if bool_decide (k_cancellation t = Some TooLate) then Some AttCancelTooLate
  else if bool_decide (k_cancellation t = Some CannotCancelSafely) then Some AttCannotCancel
  else if (0 <? n_failed counts) && (0 <? n_succeeded counts) then Some AttPartialFailure
  else if bool_decide (k_state t = "failed") then Some AttFailed
  else None.

Definition label (t : task) : string :=
  if bool_decide (k_cancellation t = Some TooLate) then "Completed before cancellation"
  else if bool_decide (k_cancellation t = Some CannotCancelSafely) then "Needs attention"
  else if bool_decide (k_state t = "pending") then "Preparing"
  else if bool_decide (k_state t = "queued") then "Queued"
  else if bool_decide (k_state t = "running") then "Running"
  else if bool_decide (k_state t = "uncertain") then "Awaiting confirmation"
  else if bool_decide (k_state t = "succeeded") then "Completed"
  else if bool_decide (k_state t = "failed") then "Failed"
  else if bool_decide (k_state t = "cancel_requested") then "Cancelling"
  else if bool_decide (k_state t = "cancelled") then "Cancelled"
  else k_state t.

Inductive verification_model := ModelVerified | ModelMismatch | ModelUnknown | ModelNotConfigured.

(** Of the records a snapshot came with, the first. *)
Definition verificationModel (records : list string) : verification_model :=
  match records with
  | [] => ModelNotConfigured
  | s :: _ => if bool_decide (s = "verified") then ModelVerified else if bool_decide (s = "mismatch") then ModelMismatch else ModelUnknown
  end.

Record TaskUIModel := UIModel {
  u_id : string; u_state : string; u_label : string; u_canCancel : bool; u_canRetry : bool; u_hasResult : bool; u_verification : verification_model;
  u_explanation : TaskExplanation; u_attention : option attention_kind }.

Definition taskUIModel (t : task) (records : list string) : TaskUIModel :=
  UIModel (k_id t) (k_state t) (label t) (bool_decide (k_state t = "queued") || bool_decide (k_state t = "running")) (bool_decide (k_state t = "failed") || bool_decide (k_state t = "cancelled"))
    (k_hasResult t) (verificationModel records) (explainTask t) (ui_attention t).

(** ** The flight recorder *)

Inductive severity := Info | Warning | Error.

Record attention := Attention { t_kind : attention_kind; t_severity : severity; t_safeToRetry : option bool; t_sourceId : string }.

Definition taskAttention (t : task) (ws : list waitpoint) (vs : list verification) (ops : list provider_operation) : list attention :=
  let l := latest_of own_item by_number (k_executions t) in
  let failed := count (in_state "failed") l in
  let succeeded := count (in_state "succeeded") l in
  ((λ v, Attention AttMismatch Error (Some false) (f_id v)) <$> List.filter (λ v, bool_decide (f_status v = Mismatch)) vs) ++
  ((λ o, Attention AttProviderUncertain Error (Some false) (o_id o)) <$> List.filter (λ o, bool_decide (o_state o = "uncertain")) ops) ++
  (if bool_decide (k_state t = "uncertain") then [Attention AttUncertain Error (Some false) (k_id t)] else []) ++
  (ws ≫= λ w, if bool_decide (w_state w = "waiting") then [Attention AttWaiting Info None (w_id w)]
              else if bool_decide (w_state w = "expired") then [Attention AttExpired Error None (w_id w)] else []) ++
  (if bool_decide (k_cancellation t = Some TooLate) then [Attention AttCancelTooLate Warning (Some false) (k_id t)] else []) ++
  (if bool_decide (k_cancellation t = Some CannotCancelSafely) then [Attention AttCannotCancel Error (Some false) (k_id t)] else []) ++
  (if (0 <? failed) && (0 <? succeeded) then [Attention AttPartialFailure Warning None (k_id t)]
   else if bool_decide (k_state t = "failed") then [Attention AttFailed Error None (k_id t)] else []).

Inductive change := StateChanged (before after : string) | RuntimeChanged (before after : string) | FailureReasonChanged.

Record TaskFlightAttemptDiff := AttemptDiff { d_itemKey : string; d_executionId : string; d_attempt : Z; d_previousExecutionId : string; d_changed : list change; d_failureReason : option string }.

Definition changes (p c : attempt) : list change :=
  (if bool_decide (x_state p = x_state c) then [] else [StateChanged (x_state p) (x_state c)]) ++
  (if bool_decide (x_runtime p = x_runtime c) then [] else [RuntimeChanged (x_runtime p) (x_runtime c)]) ++
  (if bool_decide (default "" (x_failureReason p) = default "" (x_failureReason c)) then [] else [FailureReasonChanged]).

Fixpoint diffs_of (itemKey : string) (l : list attempt) : list TaskFlightAttemptDiff :=
  match l with
  | p :: (c :: _) as rest => AttemptDiff itemKey (x_id c) (x_attempt c) (x_id p) (changes p c) (truthy (x_failureReason c)) :: diffs_of itemKey rest
  | _ => []
  end.

Section documents.
Context (collation : string → string) (date_parse : string → option Z).

(** [left.attempt - right.attempt || left.id.localeCompare(right.id)] *)
Definition attempt_before (a b : attempt) : bool :=
  (x_attempt a <? x_attempt b) || (x_attempt a =? x_attempt b) && String.leb (collation (x_id a)) (collation (x_id b)).

Fixpoint place_attempt (x : attempt) (l : list attempt) : list attempt :=
  match l with [] => [x] | y :: l' => if attempt_before x y then x :: l else y :: place_attempt x l' end.

Definition compareAttempts (t : task) : list TaskFlightAttemptDiff :=
  let byItem := foldl (λ m x, map_set (default_item x) (default [] (map_get (default_item x) m) ++ [x]) m) [] (k_executions t) in
  byItem ≫= λ p, diffs_of p.1 (foldr place_attempt [] p.2).

(** [taskFlightRecorderDiagnostic]: the whole document, or the one without its lists *)
Definition taskFlightRecorderDiagnostic (full compact : string) (bytes : string → Z) (maxBytes : Z) : result string string :=
  if maxBytes <? 4096 then Err "maxBytes" else
  if bytes full <=? maxBytes then Ok full else
  if maxBytes <? bytes compact then Err "cannot fit" else Ok compact.

(** ** The passport *)

Inductive technical_status := TechSucceeded | TechFailed | TechRunning | TechCancelled | TechUnknown.
Inductive effect_status := EffConfirmed | EffNotApplicable | EffNotHappened | EffUncertain | EffMixed.

#[local] Instance technical_status_eq_dec : EqDecision technical_status.
Proof. solve_decision. Defined.
#[local] Instance effect_status_eq_dec : EqDecision effect_status.
Proof. solve_decision. Defined.

Definition later_version (prior x : attempt) : bool :=
  (x_attempt prior <? x_attempt x) || (x_attempt x =? x_attempt prior) && (x_version prior <? x_version x).

Definition latestExecutions (t : task) : list attempt := sort_by (λ x, collation (x_id x)) (latest_of default_item later_version (k_executions t)).

Definition technicalExecutionStatus (t : task) (latest : list attempt) : technical_status :=
  if bool_decide (k_state t = "uncertain") then TechUnknown
  else if bool_decide (k_state t = "cancelled") then TechCancelled
  else if bool_decide (k_state t = "failed") then TechFailed
  else if bool_decide (k_state t = "succeeded") then TechSucceeded
  else if existsb (in_state "stalled") latest then TechUnknown
  else TechRunning.

Definition op_in (states : list string) (o : provider_operation) : bool := bool_decide (o_state o ∈ states).

Definition externalEffectStatus (ops : list provider_operation) : effect_status :=
  if bool_decide (ops = []) then EffNotApplicable
  else if existsb (op_in ["pending"; "accepted"; "uncertain"]) ops then EffUncertain
  else if forallb (op_in ["confirmed"]) ops then EffConfirmed
  else if forallb (op_in ["failed"; "not_happened"]) ops then EffNotHappened
  else EffMixed.

(** [sort((left, right) => right.key.localeCompare(left.key))], which is stable *)
Fixpoint place_down {A} (key : A → string) (x : A) (l : list A) : list A :=
  match l with [] => [x] | y :: l' => if String.leb (key y) (key x) then x :: l else y :: place_down key x l' end.

Definition sort_down {A} (key : A → string) (l : list A) : list A := foldr (place_down key) [] l.

Definition at_time (v : verification) : string := collation (f_verifiedAt v).
Definition with_id (v : verification) : string := collation (f_id v).

(** Newest first, and the greater id first within one time. *)
Definition latestVerificationRecord (vs : list verification) : option verification := head (sort_down at_time (sort_down with_id vs)).

Inductive reason := TechnicalIncomplete | EffectUnconfirmed | OutcomeUnverified | OutcomeMismatch | ResultMissing | CancellationUnsafe.

Definition recoveryReasons (t : task) (technical : technical_status) (effect : effect_status) (business : option verification_status) (missing : list string) : list reason :=
  take 8
    ((if bool_decide (technical = TechUnknown) then [TechnicalIncomplete] else []) ++
     (if bool_decide (effect = EffUncertain) then [EffectUnconfirmed] else []) ++
     (match business with None | Some Unverifiable => [OutcomeUnverified] | Some Mismatch => [OutcomeMismatch] | Some Verified => [] end) ++
     (if bool_decide (missing = []) then [] else [ResultMissing]) ++
     (if bool_decide (k_cancellation t = Some CannotCancelSafely) then [CancellationUnsafe] else [])).

Record recovery_event := RecoveryEvent { r_id : option string; r_state : option string; r_observedAt : option string }.

Definition boundedText (value : option string) (label : string) (maximum : Z) : result string string :=
  match value with
  | Some v => if js_blank v then Err label else if maximum <? Z.of_nat (String.length v) then Err label else Ok v
  | None => Err label
  end.

Definition normalizeRecoveryHistory (history : list recovery_event) : result string (list (string * string * string)) :=
  map_result (λ e, (let? i := boundedText (r_id e) "id" 256 in let? s := boundedText (r_state e) "state" 64 in let? at_ := boundedText (r_observedAt e) "observedAt" 64 in Ok (i, s, at_))%result)
    (take 100 history).

Record TaskEvidencePassport := Passport {
  p_technical : technical_status; p_attempts : Z; p_missing : list string;
  p_effect : effect_status; p_operationIds : list string;
  p_business : option verification; p_artifacts : list (string * bool);
  p_required : bool; p_reasons : list reason; p_history : list (string * string * string);
  p_executionIds : list string; p_verificationIds : list string; p_attention : list attention }.

Definition available (now : Z) (a : artifact) : bool := match date_parse (a_expiresAt a) with Some z => now <? z | None => false end.

Definition taskEvidencePassport (t : task) (ws : list waitpoint) (vs : list verification) (ops : list provider_operation) (artifacts : list artifact) (history : list recovery_event) (now : Z) : result string TaskEvidencePassport :=
  if js_blank (k_id t) then Err "task" else
  let latest := latestExecutions t in
  let missing := sort_by id (take 100 (x_id <$> List.filter (λ x, in_state "succeeded" x && bool_decide (x_hasResult x = Some false)) latest)) in
  let technical := technicalExecutionStatus t latest in
  let effect := externalEffectStatus ops in
  let business := latestVerificationRecord vs in
  let reasons := recoveryReasons t technical effect (f_status <$> business) missing in
  (let? history := normalizeRecoveryHistory history in
   Ok (Passport technical (Z.of_nat (length latest)) missing effect (o_id <$> take 100 ops) business ((λ a, (a_id a, available now a)) <$> take 100 artifacts)
         (negb (bool_decide (reasons = []))) reasons history (x_id <$> take 100 latest) (f_id <$> take 100 vs) (take 100 (taskAttention t ws vs ops))))%result.

(** ** The incident *)

Inductive outcome := OutVerified | OutViolated | OutUnknown.

#[global] Instance outcome_eq_dec : EqDecision outcome.
Proof. solve_decision. Defined.

(** Newest first; within one time the order they came in. *)
Definition newestVerification (vs : list verification) : option verification := head (sort_down at_time vs).

Definition businessOutcome (vs : list verification) : outcome :=
  match f_status <$> newestVerification vs with Some Verified => OutVerified | Some Mismatch => OutViolated | _ => OutUnknown end.

Inductive cancel_capability := CancelUnsupported | CancelBestEffort | CancelSupported.
Inductive availability := Available | Unsupported | UnknownAvailability.

#[global] Instance cancel_capability_eq_dec : EqDecision cancel_capability.
Proof. solve_decision. Defined.

Record adapter_report := Report { v_name : string; v_scope : string; v_cancel : cancel_capability }.

(** The two joined by a zero character. *)
Definition identity (runtime scope : string) : string := runtime +:+ String Ascii.zero scope.

Definition matches_task (t : task) (r : adapter_report) : bool := existsb (λ x, bool_decide (identity (x_runtime x) (default "" (x_runtimeScope x)) = identity (v_name r) (v_scope r))) (k_executions t).

Definition cancellationAvailability (t : task) (reports : option (list adapter_report)) : availability :=
  match reports with
  | None => UnknownAvailability
  | Some rs =>
      let matching := List.filter (matches_task t) rs in
      if bool_decide (matching = []) then UnknownAvailability
      else if existsb (λ r, bool_decide (v_cancel r = CancelUnsupported)) matching then Unsupported
      else Available
  end.

Inductive incident_action := RecheckEvidence | InspectRuntime | RequestCancellation (a : availability).

Definition mutates (a : incident_action) : bool := match a with RequestCancellation _ => true | _ => false end.

Definition recommendedActions (t : task) (reports : option (list adapter_report)) : list incident_action :=
  [RecheckEvidence] ++
  (if existsb (λ x, negb (bool_decide (x_runtime x = ""))) (k_executions t) then [InspectRuntime] else []) ++
  (if bool_decide (k_state t ∈ ["pending"; "queued"; "running"]) then [RequestCancellation (cancellationAvailability t reports)] else []).

Inductive cause := RuntimeFailure | EventGap | MissingResult | ProviderUnknown | VerificationMissing | StepFailure.

Definition likelyCauses (t : task) (vs : list verification) (ops : list provider_operation) (failedSteps : list string) : list cause :=
  let latest := latest_of default_item by_number (k_executions t) in
  take 10
    ((if existsb (in_state "failed") latest then [RuntimeFailure] else []) ++
     (if existsb (in_state "stalled") latest then [EventGap] else []) ++
     (if existsb (λ x, in_state "succeeded" x && negb (bool_decide (x_hasResult x = Some true))) latest then [MissingResult] else []) ++
     (if existsb (op_in ["uncertain"]) ops then [ProviderUnknown] else []) ++
     (match newestVerification vs with None => [VerificationMissing] | Some _ => [] end) ++
     (if bool_decide (failedSteps = []) then [] else [StepFailure])).

Inductive incident_summary := SumMismatch | SumVerified | SumUndetermined | SumFailed | SumUnverified.

Definition summary (state : string) (o : outcome) (failed stalled : Z) : incident_summary :=
  if bool_decide (o = OutViolated) then SumMismatch
  else if bool_decide (o = OutVerified) then SumVerified
  else if bool_decide (state = "uncertain") || (0 <? stalled) then SumUndetermined
  else if 0 <? failed then SumFailed
  else SumUnverified.

Record IncidentExplanation := Incident {
  i_taskId : string; i_summary : incident_summary; i_businessOutcome : outcome; i_items : Z; i_owners : bool; i_likelyCauses : list cause; i_recommendedActions : list incident_action }.

Definition explainTaskIncident (t : task) (vs : list verification) (ops : list provider_operation) (failedSteps : list string) (reports : option (list adapter_report)) : IncidentExplanation :=
  let latest := latest_of default_item by_number (k_executions t) in
  Incident (k_id t) (summary (k_state t) (businessOutcome vs) (count (in_state "failed") latest) (count (in_state "stalled") latest)) (businessOutcome vs)
    (Z.of_nat (length latest)) (bool_decide (truthy (k_ownerId t) ≠ None)) (likelyCauses t vs ops failedSteps) (recommendedActions t reports).
End documents.

(** ** The chain of a verification *)

Record finding_key := FindingKey { fk_ruleId : string; fk_subjectType : string; fk_subjectId : string; fk_invariantVersion : Z }.

Record chain_options := ChainOptions {
  co_taskId : string; co_verifier : string; co_status : verification_status; co_finding : option finding_key;
  co_observeFinding : bool; co_queueNotification : bool; co_queueTaskNotification : bool; co_findingBaseURL : option string }.

(** The record that was written: its id and its time. *)
Definition written : Type := string * string.

Inductive chain_call :=
| RecordVerification (finding : option (finding_key * option string))
| ObserveFinding (key : finding_key) (observedAt verificationId : string)
| QueueNotification (notificationId : string) (v : written) (finding : string) (deepLink : option string)
| QueueTaskNotification (notificationId : string) (v : written) (finding : string) (deepLink : option string).

Definition chain_ans (c : chain_call) : Type :=
  match c with RecordVerification _ => written | ObserveFinding _ _ _ => string | _ => unit end.

Definition chain := prog chain_ans string.

Section chain.
Open Scope prog_scope.
(** The base with the parameters of a finding set, unless the base is not absolute. *)
Context (with_params : string → finding_key → option string).

Definition record_verification (f : option (finding_key * option string)) : chain written := await (RecordVerification f).
Definition observe_finding (k : finding_key) (v : written) : chain string := await (ObserveFinding k v.2 v.1).
Definition queue_notification (o : chain_options) (n : string) (v : written) (f : string) (link : option string) : chain unit :=
  if co_queueNotification o then await (QueueNotification n v f link) else await (QueueTaskNotification n v f link).

Definition guard (b : bool) (e : string) : chain unit := if b then Throw e else Ret tt.

Definition findingLink (base : option string) (k : finding_key) : chain (option string) :=
  match base with
  | None => Ret None
  | Some b => if js_blank b then Ret None else match with_params b k with Some u => Ret (Some u) | None => Throw "findingBaseURL must be absolute" end
  end.

Definition finding_of (o : chain_options) : option finding_key :=
  match co_finding o with
  | Some k => Some k
  | None => if bool_decide (co_status o = Mismatch) then Some (FindingKey ("task." +:+ co_verifier o) "task" (co_taskId o) 1) else None
  end.

Definition notification_id (v : written) : string := "task-verification:" +:+ v.1.

Definition recordTaskVerificationChain (o : chain_options) : chain (written * option string) :=
  let mismatch := bool_decide (co_status o = Mismatch) in
  guard (mismatch && negb (co_observeFinding o)) "observeFinding" ;!
  guard (mismatch && negb (co_queueNotification o) && negb (co_queueTaskNotification o)) "queue" ;!
  guard (co_queueNotification o && negb (co_observeFinding o)) "queueNotification" ;!
  let! deepLink := match finding_of o with Some k => findingLink (co_findingBaseURL o) k | None => Ret None end in
  let! v := record_verification ((λ k, (k, deepLink)) <$> finding_of o) in
  match finding_of o with
  | Some k =>
      if mismatch && co_observeFinding o then
        let! f := observe_finding k v in
        queue_notification o (notification_id v) v f deepLink ;!
        Ret (v, Some f)
      else Ret (v, None)
  | None => Ret (v, None)
  end.

(** A call with what it answered. *)
Definition chain_history : Type := list (sigT (λ c, result string (chain_ans c))).

Definition is_queued (v : written) (f : string) (x : sigT (λ c, result string (chain_ans c))) : Prop :=
  match x with
  | existT (QueueNotification n v' f' _) (Ok _) | existT (QueueTaskNotification n v' f' _) (Ok _) => n = notification_id v ∧ v' = v ∧ f' = f
  | _ => False
  end.

(** What the calls of a chain look like, whatever they answered. *)
Definition chain_in_order (o : chain_options) (r : result string (written * option string)) (h : chain_history) : Prop :=
  (co_status o ≠ Mismatch → (length h ≤ 1)%nat) ∧
  (∀ v f, r = Ok (v, f) →
     ∃ fk, h !! 0%nat = Some (existT (RecordVerification fk) (Ok v)) ∧
     (co_status o = Mismatch → ∃ k f' x, f = Some f' ∧ h !! 1%nat = Some (existT (ObserveFinding k v.2 v.1) (Ok f')) ∧ h !! 2%nat = Some x ∧ is_queued v f' x)) ∧
  (∀ i x, h !! i = Some x → match projT1 x with RecordVerification _ => i = 0%nat | ObserveFinding _ _ _ => i = 1%nat | _ => i = 2%nat end).

Lemma chain_refused o e : chain_in_order o (Err e) [].
Proof. split_and!; [cbn; lia|done|done]. Qed.

Lemma chain_recorded o fk a r : (∀ v f, r = Ok (v, f) → a = Ok v ∧ co_status o ≠ Mismatch) → chain_in_order o r [existT (RecordVerification fk) a].
Proof.
  intros Hr. split_and!; [cbn; lia| |by intros [|i] x; [intros [= <-]|destruct i]].
  intros v f [-> Hm]%Hr. by exists fk.
Qed.

Lemma chain_observed o fk k v e : co_status o = Mismatch → chain_in_order o (Err e) [existT (RecordVerification fk) (Ok v); existT (ObserveFinding k v.2 v.1) (Err e)].
Proof. intros Hm. split_and!; [done|done|]. by intros [|[|i]] x; [intros [= <-]..|destruct i]. Qed.

Lemma chain_whole o fk k v a x r :
  co_status o = Mismatch → match projT1 x with RecordVerification _ | ObserveFinding _ _ _ => False | _ => True end →
  (∀ v' f, r = Ok (v', f) → ∃ f', v' = v ∧ f = Some f' ∧ a = Ok f' ∧ is_queued v f' x) →
  chain_in_order o r [existT (RecordVerification fk) (Ok v); existT (ObserveFinding k v.2 v.1) a; x].
Proof.
  intros Hm Hx Hr. split_and!; [done| |].
  - intros v' f (f' & -> & -> & -> & Hq)%Hr. exists fk. split; [done|]. intros _. by exists k, f', x.
  - intros [|[|[|i]]] y; [intros [= <-]; done|intros [= <-]; done|intros [= <-]; by destruct x as [[] ?]|by destruct i].
Qed.

(** Whatever is called fails or not: a chain first records the verification, then
    observes its finding, then queues the notification under a name made of the record's
    id; a mismatch that returns did all three, any other outcome records only. *)
Theorem verification_chain_ordered o w r h :
  runs (recorded w) (recordTaskVerificationChain o) [] = (r, h) →
  (co_status o ≠ Mismatch → (length h ≤ 1)%nat) ∧
  (∀ v f, r = Ok (v, f) →
     ∃ fk, h !! 0%nat = Some (existT (RecordVerification fk) (Ok v)) ∧
     (co_status o = Mismatch → ∃ k f' x, f = Some f' ∧ h !! 1%nat = Some (existT (ObserveFinding k v.2 v.1) (Ok f')) ∧ h !! 2%nat = Some x ∧ is_queued v f' x)) ∧
  (∀ i x, h !! i = Some x → match projT1 x with RecordVerification _ => i = 0%nat | ObserveFinding _ _ _ => i = 1%nat | _ => i = 2%nat end).
Proof.
  intros H. enough (chain_in_order o r h) by done. revert H.
  unfold recordTaskVerificationChain, guard, record_verification, observe_finding, queue_notification. destruct (_ && _) eqn:E1; [intros [= <- <-]; apply chain_refused|].
  destruct (_ && _ && _) eqn:E2; [intros [= <- <-]; apply chain_refused|]. destruct (co_queueNotification o && _) eqn:E3; [intros [= <- <-]; apply chain_refused|].
  cbn [pbind]. rewrite runs_bind.
  assert (∃ d, runs (recorded w) (match finding_of o with Some k => findingLink (co_findingBaseURL o) k | None => Ret None end) [] = (d, [])) as [[link|e] ->].
  { unfold findingLink. repeat case_match; by eexists. }
  2: { intros [= <- <-]. apply chain_refused. }
  rewrite runs_bind. cbn -[finding_of]. destruct (w [] _) as [v|e] eqn:Ew; cbn -[finding_of]; [|by intros [= <- <-]; apply chain_recorded].
  destruct (finding_of o) as [k|] eqn:Ef.
  2: { intros [= <- <-]. apply chain_recorded. intros v' f' [= <- <-]. split; [done|]. intros Hm. unfold finding_of in Ef. destruct (co_finding o); [done|]. by rewrite bool_decide_eq_true_2 in Ef. }
  destruct (bool_decide_reflect (co_status o = Mismatch)) as [Hm|Hm]; [|by intros [= <- <-]; apply chain_recorded; intros v' f' [= <- <-]].
  destruct (co_observeFinding o) eqn:Eo; [|done]. cbn. destruct (w _ (ObserveFinding k v.2 v.1)) as [f|e] eqn:Eobs; cbn; [|by intros [= <- <-]; apply chain_observed].
  destruct (co_queueNotification o); cbn;
    match goal with |- context [match w ?l ?c with Ok _ => _ | Err _ => _ end] => destruct (w l c) as [u|e] eqn:Eq end; cbn; intros [= <- <-];
    apply chain_whole; [done|done|..]; try done; intros v' f' [= <- <-]; by eexists.
Qed.
End chain.

(** ** What the documents say *)

(** The user's explanation never calls a retry safe, and calls it unsafe where the outcome
    is in doubt or the work is done. *)
Theorem retry_never_called_safe t :
  e_retrySafety (explainTask t) ≠ Safe ∧
  (k_cancellation t = Some CannotCancelSafely ∨ k_cancellation t = Some TooLate ∨ k_state t = "uncertain" → e_retrySafety (explainTask t) = Unsafe).
Proof.
  unfold explainTask. cbv zeta. split.
  - repeat match goal with |- context [if ?b then _ else _] => destruct b; try done end.
  - intros H. destruct (bool_decide_reflect (k_cancellation t = Some CannotCancelSafely)); [done|]. destruct (bool_decide_reflect (k_cancellation t = Some TooLate)); [done|].
    by rewrite bool_decide_eq_true_2 by tauto.
Qed.

(** The user's model offers a retry that its own explanation calls unsafe. *)
Theorem unsafe_retry_offered :
  let m := taskUIModel (Task "t" "failed" None (Some CannotCancelSafely) false None []) [] in u_canRetry m = true ∧ e_retrySafety (u_explanation m) = Unsafe.
Proof. by vm_compute. Qed.

(** A diagnostic is never larger than it may be. *)
Theorem diagnostic_bounded full compact bytes maxBytes s : taskFlightRecorderDiagnostic full compact bytes maxBytes = Ok s → bytes s ≤ maxBytes.
Proof. unfold taskFlightRecorderDiagnostic. repeat case_match; intros [= <-]; lia. Qed.

(** A passport that asks for no recovery stands on a verified outcome, a known technical
    state, no effect in doubt, no missing result and no unsafe cancellation. *)
Theorem no_recovery_means_settled collation date_parse t ws vs ops artifacts history now p :
  taskEvidencePassport collation date_parse t ws vs ops artifacts history now = Ok p →
  p_required p = false ↔
  (f_status <$> p_business p = Some Verified ∧ p_technical p ≠ TechUnknown ∧ p_effect p ≠ EffUncertain ∧ p_missing p = [] ∧ k_cancellation t ≠ Some CannotCancelSafely).
Proof.
  unfold taskEvidencePassport. destruct (js_blank (k_id t)); [done|]. intros (hist & _ & [= <-])%rbind_ok. cbn [p_required p_business p_technical p_effect p_missing].
  rewrite negb_false_iff, bool_decide_eq_true. unfold recoveryReasons. cbv zeta.
  generalize (technicalExecutionStatus t (latestExecutions collation t)) (externalEffectStatus ops) (latestVerificationRecord collation vs). intros tech eff biz.
  match goal with |- context [sort_by id ?l] => generalize (sort_by id l) end. intros missing.
  destruct biz as [[? ? [] ?]|], tech, eff, missing, (k_cancellation t) as [[]|]; cbn; naive_solver.
Qed.

(** ** Newest first *)

Section down.
Context {A : Type} (key : A → string).

Definition key_ge (a b : A) : Prop := String.leb (key b) (key a) = true.

Lemma place_down_perm x l : place_down key x l ≡ₚ x :: l.
Proof. induction l as [|y l IH]; cbn; [done|]. destruct (String.leb _ _); [done|]. rewrite IH. apply Permutation_swap. Qed.

Lemma sort_down_perm l : sort_down key l ≡ₚ l.
Proof. induction l as [|x l IH]; cbn; [done|]. rewrite place_down_perm. by f_equiv. Qed.

Lemma sort_down_sorted l : StronglySorted key_ge (sort_down key l).
Proof.
  induction l as [|x l IH]; cbn; [constructor|]. change (StronglySorted key_ge (place_down key x (sort_down key l))). revert IH. generalize (sort_down key l). clear l. intros l.
  induction l as [|y l IH]; intros Hl; cbn; [by repeat constructor|]. apply StronglySorted_inv in Hl as [Hl Hy]. destruct (String.leb (key y) (key x)) eqn:E.
  - constructor; [by constructor|]. constructor; [done|]. eapply Forall_impl; [exact Hy|]. intros z Hz. by eapply string_leb_trans.
  - constructor; [by apply IH|]. rewrite place_down_perm. constructor; [|done]. unfold key_ge. destruct (string_leb_total (key x) (key y)) as [H|H]; [done|by rewrite H in E].
Qed.

Lemma sort_down_head l x : head (sort_down key l) = Some x → x ∈ l ∧ ∀ y, y ∈ l → String.leb (key y) (key x) = true.
Proof.
  intros H. pose proof (sort_down_sorted l) as Hs. pose proof (sort_down_perm l) as Hp. destruct (sort_down key l) as [|z k]; [done|]. injection H as ->.
  apply StronglySorted_inv in Hs as [_ Hz]. split; [rewrite <- Hp; by left|]. intros y. rewrite <- Hp. intros [->|Hy]%elem_of_cons; [destruct (string_leb_total (key x) (key x)); done|].
  rewrite Forall_forall in Hz. by apply Hz.
Qed.

Lemma sort_down_nil l : head (sort_down key l) = None → l = [].
Proof. intros H. destruct (sort_down key l) eqn:E; [|done]. pose proof (sort_down_perm l) as Hp. rewrite E in Hp. by apply Permutation_nil_l in Hp. Qed.
End down.

(** Where no two verifications have one time, the passport and the incident rest on the
    same one, the newest. *)
Theorem documents_agree collation vs :
  (∀ x y, x ∈ vs → y ∈ vs → at_time collation x = at_time collation y → x = y) → latestVerificationRecord collation vs = newestVerification collation vs.
Proof.
  intros Hu. unfold latestVerificationRecord, newestVerification. pose proof (sort_down_perm (with_id collation) vs) as Hp.
  destruct (head (sort_down (at_time collation) (sort_down (with_id collation) vs))) as [x|] eqn:Ex.
  - apply sort_down_head in Ex as [Hx Hxm]. rewrite Hp in Hx. destruct (head (sort_down (at_time collation) vs)) as [y|] eqn:Ey.
    + apply sort_down_head in Ey as [Hy Hym]. f_equal. apply Hu; [done..|]. apply string_leb_antisym; [by apply Hym|]. apply Hxm. by rewrite Hp.
    + apply sort_down_nil in Ey. subst. by apply elem_of_nil in Hx.
  - apply sort_down_nil in Ex. rewrite Ex in Hp. apply Permutation_nil_l in Hp. by subst vs.
Qed.

(** Of two verifications of one time the passport takes the one with the greater id and
    the incident the first: one says mismatch, the other verified. *)
Theorem documents_disagree_on_ties :
  let vs := [Verification "a" "audit" Verified "2026"; Verification "b" "audit" Mismatch "2026"] in
  f_status <$> latestVerificationRecord id vs = Some Mismatch ∧ businessOutcome id vs = OutVerified.
Proof. by vm_compute. Qed.

(** A retried item without a key is reported as a partial failure by the flight recorder,
    which counts each of its attempts as an item; the incident counts one item that
    succeeded. *)
Theorem retried_default_item_reported :
  let t := Task "t" "succeeded" None None true None [Attempt "x1" None 1 "failed" 1 "bullmq" None None None; Attempt "x2" None 2 "succeeded" 1 "bullmq" None (Some true) None] in
  t_kind <$> taskAttention t [] [] [] = [AttPartialFailure] ∧ likelyCauses id t [Verification "a" "audit" Verified "2026"] [] [] = [].
Proof. by vm_compute. Qed.

(** Only the request for cancellation changes a runtime, and it is recommended for live
    Tasks only. *)
Theorem incident_actions_safe t reports a :
  a ∈ recommendedActions t reports → mutates a = true → k_state t ∈ ["pending"; "queued"; "running"] ∧ a = RequestCancellation (cancellationAvailability t reports).
Proof.
  unfold recommendedActions. rewrite !elem_of_app, list_elem_of_singleton. intros [->|[H|H]] Hm; [done| |].
  - case_match; [|by apply elem_of_nil in H]. by apply list_elem_of_singleton in H as ->.
  - destruct (bool_decide_reflect (k_state t ∈ ["pending"; "queued"; "running"])) as [Hs|]; [|by apply elem_of_nil in H]. by apply list_elem_of_singleton in H as ->.
Qed.
End Evidence.
